(* ===== verification/_CoqProject ===== *)
-Q . S2P
Prelude.v
Hostname.v
Wire.v
WireSafe.v
WireSpec.v
NetAddr.v
RRFilter.v
RRFilterSpec.v
WireExt.v
DList.v
Cache.v
CacheInv.v
CacheOps.v
CacheFind.v
CacheReach.v
DomainMatch.v
DomainLookup.v
Chain.v
Servers.v
ServersSpec.v
Records.v
RecordsSpec.v
AnswerSpec.v
Edns0.v
Edns0Spec.v
Edns0Trip.v
Edns0Config.v
SynthDomain.v
SynthTrip.v
SynthConfig.v
Tftp.v
TftpSpec.v
TftpSrv.v
TftpInv.v
TftpReach.v
TftpProps.v
Blockdata.v
BlockdataSpec.v
Sha256.v
Sha256Spec.v
Poll.v
Pattern.v
PatternSpec.v
DhcpOpt.v
DhcpOptSpec.v
Outpacket.v
Dhcp6.v
Dhcp6Spec.v
Dhcp6Safe.v
Lease.v
LeaseSpec.v
DhcpTags.v
DhcpAlloc.v
DhcpAllocSpec.v
Forward.v
ForwardSpec.v
Queries.v
QueryTables.v
QueriesInv.v
QueriesSpec.v
QueriesReach.v
DnssecName.v
DnssecNameSpec.v
DnssecOrder.v
DnssecCode.v
DnssecSort.v
DnssecSorted.v
Crypto.v
DnssecValidate.v
DnssecKeeps.v
DnssecSound.v
DnssecNsec.v
DnssecReply.v
DnssecKeys.v
DnssecTyped.v
DnssecExplore.v
DnssecTrust.v
DnssecKeySound.v
DnssecNsecSpec.v
