(* ===== verification/Prelude.v ===== *)
(** * A verification development of dnsmasq

    dnsmasq is a DNS forwarder with a cache, a DHCP server for IPv4 and IPv6 and
    a TFTP server, one process around one event loop. This library models the
    parts of src/src that compute, as functions, and proves what they are
    relied on for. The models are translated from the C source and can be run.

    ** The program and its parts

    A query from a client reaches src/src/forward.c. Its question is read with
    the routines of src/src/rfc1035.c and answered from the configuration
    (src/src/domain-match.c), from the cache (src/src/cache.c) or by an
    upstream server. For the latter a server is chosen by domain
    (domain-match.c), options are added (src/src/edns0.c), and the query is
    remembered under a new identifier, with a hash of its question
    (src/src/hash-questions.c) and a socket from a pool. The reply is accepted
    when it matches, validated (src/src/dnssec.c, src/src/crypto.c) and
    trimmed (src/src/rrfilter.c), entered into the cache and sent to every
    client that asked. The DHCP servers (src/src/rfc2131.c,
    src/src/rfc3315.c) pick options and addresses by tags
    (src/src/dhcp-common.c, src/src/dhcp.c), keep leases (src/src/lease.c) and
    build packets (src/src/outpacket.c for IPv6). The TFTP server
    (src/src/tftp.c) has its own sockets. All wait in one poll set
    (src/src/poll.c).

    ** Files

    - [Prelude]: machine integers, C strings, the result type and its logic.
    - [Hostname], [NetAddr]: names and addresses (util.c, parts of rfc1035.c).
    - [Wire], [WireSafe], [WireSpec], [WireExt]: names, questions and records
      in packets (dns-protocol.h, rfc1035.c).
    - [RRFilter], [RRFilterSpec]: removal of records (rrfilter.c).
    - [DList], [Cache], [CacheInv], [CacheOps], [CacheFind], [CacheReach]: the
      cache (cache.c), its list at the level of pointers, its invariant, and
      the cache as a state machine.
    - [DomainMatch], [DomainLookup]: the search for the servers of a domain;
      [Chain], [Servers], [ServersSpec]: the upkeep of the lists of servers
      (domain-match.c).
    - [Records], [RecordsSpec], [AnswerSpec]: records written into replies and
      replies from the configuration (rfc1035.c, domain-match.c).
    - [Edns0], [Edns0Spec], [Edns0Trip], [Edns0Config]: edns0.c.
    - [SynthDomain], [SynthTrip], [SynthConfig]: names made from addresses
      (domain.c) and the ranges the configuration gives (option.c).
    - [Tftp], [TftpSpec], [TftpSrv], [TftpInv], [TftpReach], [TftpProps]:
      tftp.c, packets first, then the server with its files and descriptors.
    - [Blockdata], [BlockdataSpec]: blockdata.c. [Sha256], [Sha256Spec]:
      hash-questions.c. [Poll]: poll.c. [Pattern], [PatternSpec]: pattern.c.
    - [DhcpOpt], [DhcpOptSpec]: the options of DHCPv4 packets (rfc2131.c).
    - [Outpacket], [Dhcp6], [Dhcp6Spec], [Dhcp6Safe]: outpacket.c and the
      messages and relays of rfc3315.c.
    - [Lease], [LeaseSpec]: lease.c. [DhcpTags], [DhcpAlloc],
      [DhcpAllocSpec]: dhcp-common.c and dhcp.c.
    - [Forward], [ForwardSpec], [Queries], [QueryTables], [QueriesInv],
      [QueriesSpec], [QueriesReach]: the sockets and queries of forward.c.
    - [DnssecName], [DnssecNameSpec], [DnssecOrder], [DnssecCode]: names in
      canonical form and order, base32 and key tags (dnssec.c).
    - [DnssecSort], [DnssecSorted]: the canonical form of records and the
      order of a set. [Crypto]: crypto.c. [DnssecValidate], [DnssecKeeps],
      [DnssecSound]: a set of records, its signatures, the data that is
      hashed, and what is accepted.
    - [DnssecNsec], [DnssecNsecSpec]: proofs of non-existence. [DnssecReply],
      [DnssecKeys]: the status of a zone, the validation of replies, of keys
      and of DS records, and the queries for them. [DnssecTyped],
      [DnssecExplore], [DnssecTrust], [DnssecKeySound]: what these keep, find
      and accept.

    Definitions have the names of the C functions they translate; what a
    loop does is a definition of its own.

    ** Representation

    An integer is a [Z], with the conversions [u8] to [u64] where C reduces.
    A packet is a list of bytes and a pointer into it an offset; a read or
    write outside is the result [Oob]. A routine gives [Ok] with its value,
    [Bad] when it reports an error, [Oob] for a memory error (also use of
    something freed) and [NoFuel] when a bounded loop has not ended. Linked
    lists are sequences of addresses in a heap; where the code relinks them in
    place the [next] fields are modelled ([DList], [Chain]). State of a
    component is a record that is passed along. What the kernel, the C library
    or a component that is not modelled gives is an argument.

    ** Theorems

    - Safety and termination: [extract_name_safe], [option_find_safe],
      [dhcp6_reply_total], [tftp_path_confined] and [tftp_transfers_end] hold
      for every packet; "total" and "ends" are stated as results, not as
      conditions on them.
    - Invariants on every reachable state: [query_table_invariant],
      [cache_operations_safe], [lease_database_invariant], [tftp_resources].
    - Refinement and equivalence: [extract_name_refines] (what a name in a
      packet means), [lookup_domain_correct] (binary search against trying
      every suffix), [sha256_correct] (streaming against FIPS 180-4),
      [poll_refines] (sorted array against a finite map).
    - Typing: [validation_state_typed], over any sequence of packets.
    - Round trips: names, EDNS0 options, DHCP options of both families, relayed
      exchanges, block chains, synthetic names, cached answers.
    - Behaviour of operations on every branch: [rrfilter_correct],
      [cache_insert_correct], [make_local_answer_correct],
      [address_allocate_correct], [option_filter_correct] and others.
    - Errors and bounds: [tftp_refusal_clean], [add_pseudoheader_bounds],
      [ia_times_ordered].
    - Trust: [secure_reply_sound] says what every record of a secure reply
      rests on, [validate_rrset_sound] what a set of records does,
      [trusted_key_sound] what a key of a zone does, and [nsec_proof_sound]
      what NSEC records prove, with the cryptographic library as an argument.
      [sort_rrset_correct], [hostname_cmp_canonical] and
      [wire_names_round_trip] are what the signed data is made with.

    Examples beside them show what the code does where this is surprising.

    ** Bounds

    Loops whose end is not structural carry fuel: [extract_fuel] is 800, more
    than the 512 labels and 255 jumps that MAXDNAME and the limit of hops
    allow; loops over options and records take the number of bytes left, since
    each step passes one at least; a walk over a heap takes its size; the
    matcher of patterns takes [glob_fuel], which counts its restarts. That the
    fuel is enough is part of the theorems that give a result: [NoFuel] is not
    one. The theorems on trust are about the results there are: a signer's name
    with several escaped bytes makes the code read outside its buffer, and
    [type_map], the loop over the map of an NSEC record, has no end for a
    window without bytes. They take the records of a reply to be well formed, with
    no dot within a label of an owner, as the code does not tell such a dot
    from the end of a label.

    ** Not modelled

    The event loop and process setup (dnsmasq.c), the parser of the
    configuration (option.c, apart from the ranges of [SynthConfig]), sockets
    and interfaces (network.c, netlink.c, bpf.c), kernel tables (ipset.c,
    nftset.c, tables.c, conntrack.c), message buses, the helper process,
    logging and dumps: they are system calls or calls of external libraries.
    The primitives of libnettle are an argument, and so is where forward.c
    sends the queries that validation asks for. The large handlers answer_request, dhcp_reply and
    dhcp6_no_relay read the configuration of the whole daemon; the parts
    they are made of are modelled, they themselves are not. Reading hosts and
    lease files and statistics are left out, and so is all logging. *)

(** Shared vocabulary of the development: machine integers and bytes, C
    strings, the result type of routines that read or write raw memory and its
    small program logic, and the list lemmas the components use. *)
From Stdlib Require Export ZArith Lia Bool.
From stdpp Require Export base numbers option sets gmap list.
#[export] Set Default Goal Selector "!".
#[export] Set Warnings "-clear-no-such-hyp".
Global Open Scope Z_scope.

(** Arithmetic stays folded under [simpl]; closed terms are computed with
    [vm_compute] or [reflexivity]. *)
#[global] Arguments Z.eqb : simpl never.
#[global] Arguments Z.leb : simpl never.
#[global] Arguments Z.ltb : simpl never.
#[global] Arguments Z.add : simpl never.
#[global] Arguments Z.sub : simpl never.
#[global] Arguments Z.mul : simpl never.
#[global] Arguments Z.div : simpl never.
#[global] Arguments Z.modulo : simpl never.
#[global] Arguments Z.land : simpl never.
#[global] Arguments Z.lor : simpl never.
#[global] Arguments Z.lxor : simpl never.
#[global] Arguments Z.shiftl : simpl never.
#[global] Arguments Z.shiftr : simpl never.
#[global] Arguments Z.pow : simpl never.
#[global] Arguments Z.of_nat : simpl never.

(** * Machine integers *)

(** Unsigned conversions of C: the value modulo 2^w. *)
Definition u8 (x : Z) : Z := x mod 256.
Definition u16 (x : Z) : Z := x mod 65536.
Definition u32 (x : Z) : Z := x mod 4294967296.
Definition u64 (x : Z) : Z := x mod 18446744073709551616.

Definition is_byte (b : Z) : Prop := 0 ≤ b < 256.

(** A check that evaluates, for concrete buffers. *)
Lemma bytes_forallb (l : list Z) : forallb (λ b, (0 <=? b) && (b <? 256)) l = true → Forall is_byte l.
Proof. induction l as [|b l IH]; cbn; [done|]. rewrite !andb_true_iff. intros [[]]. constructor; [unfold is_byte; lia|auto]. Qed.

(** [x & m] used as a C truth value. *)
Definition flag (x m : Z) : bool := negb (Z.land x m =? 0).

(** C's int results of a comparison used as a truth value. *)
Definition zb (b : bool) : Z := if b then 1 else 0.

(** [lia] with the Euclidean equations of [/] and [mod] in the context. *)
Ltac dlia := Z.to_euclidean_division_equations; lia.

Lemma u8_byte x : is_byte (u8 x).
Proof. unfold is_byte, u8. dlia. Qed.
Lemma u8_id x : is_byte x → u8 x = x.
Proof. unfold is_byte, u8. dlia. Qed.
Lemma u16_bound x : 0 ≤ u16 x < 65536.
Proof. unfold u16. dlia. Qed.
Lemma u16_id x : 0 ≤ x < 65536 → u16 x = x.
Proof. unfold u16. dlia. Qed.
Lemma u32_bound x : 0 ≤ u32 x < 4294967296.
Proof. unfold u32. dlia. Qed.
Lemma u32_id x : 0 ≤ x < 4294967296 → u32 x = x.
Proof. unfold u32. dlia. Qed.
Lemma u64_bound x : 0 ≤ u64 x < 18446744073709551616.
Proof. unfold u64. dlia. Qed.
Lemma u64_id x : 0 ≤ x < 18446744073709551616 → u64 x = x.
Proof. unfold u64. dlia. Qed.

(** Joining a high and a low part with [|]. *)
Lemma lor_shiftl a b n : 0 ≤ n → 0 ≤ b < 2 ^ n → Z.lor (Z.shiftl a n) b = a * 2 ^ n + b.
Proof.
  intros Hn Hb. rewrite <- (Z.shiftl_mul_pow2 a n Hn).
  pose proof (Z.add_lor_land (Z.shiftl a n) b) as H.
  assert (Z.land (Z.shiftl a n) b = 0) as E; [|lia].
  apply Z.bits_inj'. intros i Hi. rewrite Z.land_spec, Z.bits_0.
  destruct (Z.ltb_spec i n).
  - by rewrite Z.shiftl_spec_low.
  - destruct (Z.eq_dec b 0) as [->|]; [by rewrite Z.bits_0, andb_false_r|].
    rewrite (Z.bits_above_log2 b i), andb_false_r; [done|lia|].
    apply Z.lt_le_trans with n; [|done]. apply Z.log2_lt_pow2; lia.
Qed.

(** A case analysis over all byte values, for facts that hold by computation. *)
Definition all_bytes : list Z := seqZ 0 256.

Lemma byte_cases (f : Z → bool) (b : Z) :
  is_byte b → forallb f all_bytes = true → f b = true.
Proof.
  intros Hb H. rewrite forallb_forall in H. apply H.
  apply list_elem_of_In, elem_of_seqZ. unfold is_byte in Hb. lia.
Qed.

Definition zlen {A} (l : list A) : Z := Z.of_nat (length l).

(** * Characters and C strings

    A C string is the list of its bytes before the terminating NUL; [deref]
    reads the byte a [char *] points to, the terminator included. *)
Abbreviation cstring := (list Z).

Definition deref (s : cstring) : Z := match s with [] => 0 | c :: _ => c end.

Definition strlen (s : cstring) : Z := zlen s.

(** No byte of the string is the terminator. *)
Definition wf_cstring (s : cstring) : Prop := Forall (λ c, 1 ≤ c < 256) s.

(** [if (c >= 'A' && c <= 'Z') c += 'a' - 'A'], the locale-free idiom the
    sources repeat. *)
Definition lower (c : Z) : Z := if (65 <=? c) && (c <=? 90) then c + 32 else c.

Lemma lower_idem c : lower (lower c) = lower c.
Proof. unfold lower. repeat case_match; lia. Qed.
Lemma lower_zero c : lower c = 0 ↔ c = 0.
Proof. unfold lower. case_match; lia. Qed.
Lemma lower_pos c : 1 ≤ c < 256 → 1 ≤ lower c < 256.
Proof. unfold lower. case_match; lia. Qed.
Lemma lower_dot c : lower c = 46 ↔ c = 46.
Proof. unfold lower. case_match; lia. Qed.

#[global] Arguments lower : simpl never.

(** Two names equal up to ASCII case. *)
Definition ci_eq (a b : cstring) : Prop := lower <$> a = lower <$> b.

#[export] Instance ci_eq_dec a b : Decision (ci_eq a b).
Proof. unfold ci_eq. apply _. Defined.
#[export] Instance ci_eq_equiv : Equivalence ci_eq.
Proof. unfold ci_eq. split; [by intros ?|by intros ??|by intros ??? -> ->]. Qed.
#[export] Instance ci_eq_app : Proper (ci_eq ==> ci_eq ==> ci_eq) (@app Z).
Proof. unfold ci_eq. intros a a' Ha b b' Hb. by rewrite !fmap_app, Ha, Hb. Qed.
Lemma ci_eq_length a b : ci_eq a b → length a = length b.
Proof. intros H%(f_equal length). by rewrite !length_fmap in H. Qed.

(** * Code that touches raw memory

    [Ok] is a normal return, [Bad] the routine's own failure return (a zero or
    NULL result), [Oob] an access outside the object a pointer points into
    (undefined behaviour in C) and [NoFuel] a loop whose bound was too small.
    A routine is memory safe and terminates when neither of the last two
    happens. *)
Inductive res (A : Type) : Type :=
| Ok (a : A)
| Bad
| Oob
| NoFuel.
Arguments Ok {A} a.
Arguments Bad {A}.
Arguments Oob {A}.
Arguments NoFuel {A}.

#[export] Instance res_ret : MRet res := λ A a, Ok a.
#[export] Instance res_bind : MBind res := λ A B f m,
  match m with Ok a => f a | Bad => Bad | Oob => Oob | NoFuel => NoFuel end.

(** [guard_ok b]: the early return [if (!b) return 0]. *)
Definition guard_ok (b : bool) : res unit := if b then Ok tt else Bad.

(** Partial correctness on [Bad], total on everything else: [m] is memory safe,
    does not run out of fuel, and a normal result satisfies [Q]. *)
Definition wp {A} (m : res A) (Q : A → Prop) : Prop :=
  match m with Ok a => Q a | Bad => True | Oob | NoFuel => False end.

Definition safe {A} (m : res A) : Prop := wp m (λ _, True).

Section wp.
Context {A B : Type}.
Implicit Types (Q : A → Prop) (R : B → Prop).

Lemma wp_ok Q a : Q a → wp (Ok a) Q.
Proof. done. Qed.
Lemma wp_mret Q (a : A) : Q a → wp (mret a) Q.
Proof. done. Qed.
Lemma wp_bad Q : wp Bad Q.
Proof. done. Qed.
Lemma wp_bind (m : res A) (f : A → res B) R :
  wp m (λ a, wp (f a) R) → wp (m ≫= f) R.
Proof. by destruct m. Qed.
Lemma wp_mono (m : res A) Q Q' : wp m Q → (∀ a, Q a → Q' a) → wp m Q'.
Proof. destruct m; simpl; auto. Qed.
Lemma wp_guard_ok (b : bool) (Q : unit → Prop) :
  (b = true → Q tt) → wp (guard_ok b) Q.
Proof. unfold guard_ok. destruct b; simpl; auto. Qed.
Lemma wp_if (b : bool) (m1 m2 : res A) Q :
  (b = true → wp m1 Q) → (b = false → wp m2 Q) → wp (if b then m1 else m2) Q.
Proof. destruct b; auto. Qed.
Lemma wp_elim (m : res A) Q a : wp m Q → m = Ok a → Q a.
Proof. intros H ->. exact H. Qed.
Lemma wp_safe (m : res A) Q : wp m Q → safe m.
Proof. intros H. eapply wp_mono; eauto. Qed.
Lemma wp_and (m : res A) Q Q' : wp m Q → wp m Q' → wp m (λ a, Q a ∧ Q' a).
Proof. destruct m; simpl; tauto. Qed.
End wp.

Lemma bind_ok {A B} (m : res A) (f : A → res B) b :
  m ≫= f = Ok b ↔ ∃ a, m = Ok a ∧ f a = Ok b.
Proof.
  split; [|by intros (a & -> & H)]. destruct m; simpl; try done. eauto.
Qed.

Lemma guard_ok_bind {B} b (m : res B) r :
  (_ ← guard_ok b; m) = Ok r ↔ b = true ∧ m = Ok r.
Proof. destruct b; simpl; naive_solver. Qed.

(** Reading and writing bytes of a buffer at an offset. *)
Definition rd (buf : list Z) (i : Z) : res Z :=
  if i <? 0 then Oob
  else match buf !! Z.to_nat i with Some b => Ok b | None => Oob end.

Definition wr (buf : list Z) (i : Z) (b : Z) : res (list Z) :=
  if (i <? 0) || (zlen buf <=? i) then Oob else Ok (<[Z.to_nat i := u8 b]> buf).

Lemma Forall_snoc {A} (P : A → Prop) l x : Forall P (l ++ [x]) ↔ Forall P l ∧ P x.
Proof. by rewrite Forall_app, Forall_singleton. Qed.
Lemma zlen_nil {A} : zlen (@nil A) = 0.
Proof. done. Qed.
Lemma zlen_cons {A} (x : A) l : zlen (x :: l) = 1 + zlen l.
Proof. unfold zlen. simpl. lia. Qed.
Lemma zlen_app {A} (l k : list A) : zlen (l ++ k) = zlen l + zlen k.
Proof. unfold zlen. rewrite length_app. lia. Qed.
Lemma zlen_nonneg {A} (l : list A) : 0 ≤ zlen l.
Proof. unfold zlen. lia. Qed.
Lemma zlen_insert {A} (l : list A) i x : zlen (<[i:=x]> l) = zlen l.
Proof. unfold zlen. by rewrite length_insert. Qed.

Lemma rd_in (buf : list Z) i : 0 ≤ i < zlen buf → ∃ b, rd buf i = Ok b ∧ b ∈ buf.
Proof.
  unfold rd, zlen. intros Hi. rewrite (proj2 (Z.ltb_ge i 0)) by lia.
  destruct (lookup_lt_is_Some_2 buf (Z.to_nat i)) as [b Hb]; [lia|].
  rewrite Hb. eauto using list_elem_of_lookup_2.
Qed.
Lemma wp_rd (buf : list Z) i (Q : Z → Prop) :
  0 ≤ i < zlen buf → (∀ b, b ∈ buf → rd buf i = Ok b → Q b) → wp (rd buf i) Q.
Proof. intros Hi H. destruct (rd_in buf i Hi) as (b & Hb & Hin). rewrite Hb. by apply H. Qed.
Lemma rd_app_r (pre buf : list Z) i : 0 ≤ i → rd (pre ++ buf) (zlen pre + i) = rd buf i.
Proof.
  unfold rd, zlen. intros Hi. destruct (Z.ltb_spec (Z.of_nat (length pre) + i) 0); [lia|].
  destruct (Z.ltb_spec i 0); [lia|]. rewrite lookup_app_r by lia.
  by replace (Z.to_nat (Z.of_nat (length pre) + i) - length pre)%nat with (Z.to_nat i) by lia.
Qed.
Lemma rd_app_l (buf post : list Z) i : i < zlen buf → rd (buf ++ post) i = rd buf i.
Proof.
  unfold rd, zlen. intros Hi. destruct (Z.ltb_spec i 0); [done|].
  rewrite lookup_app_l by lia. done.
Qed.
Lemma rd_wr (buf buf' : list Z) i j b :
  wr buf i b = Ok buf' → rd buf' j = if j =? i then Ok (u8 b) else rd buf j.
Proof.
  unfold wr, rd, zlen. destruct (_ || _) eqn:E; [done|]. intros [= <-].
  destruct (Z.eqb_spec j i) as [->|Hne].
  - rewrite (proj2 (Z.ltb_ge i 0)) by lia. by rewrite list_lookup_insert_eq by lia.
  - destruct (Z.ltb_spec j 0); [done|]. by rewrite list_lookup_insert_ne by lia.
Qed.
Lemma wp_wr (buf : list Z) i b (Q : list Z → Prop) :
  0 ≤ i < zlen buf →
  (∀ buf', wr buf i b = Ok buf' → zlen buf' = zlen buf →
           (Forall is_byte buf → Forall is_byte buf') → Q buf') →
  wp (wr buf i b) Q.
Proof.
  intros Hi H. unfold wr in *. replace ((i <? 0) || (zlen buf <=? i)) with false in * by lia.
  apply H; [done|apply zlen_insert|]. intros Hb. apply Forall_insert; [done|apply u8_byte].
Qed.

(** * Automation *)

(** Steps of the program logic that need no decision. *)
Ltac wp_step :=
  lazymatch goal with
  | |- wp (mbind _ _) _ => apply wp_bind
  | |- wp (mret _) _ => apply wp_mret
  | |- wp (Ok _) _ => apply wp_ok
  | |- wp Bad _ => exact I
  | |- wp (guard_ok _) _ => apply wp_guard_ok; intros ?
  | |- wp (if _ then _ else _) _ => apply wp_if; intros ?
  end.
Ltac wp_steps := repeat wp_step.

(** Turns boolean comparisons of the context into propositions for [lia]. *)
Ltac bool_hyps :=
  repeat match goal with
  | H : (_ && _) = true |- _ => apply andb_true_iff in H as [? ?]
  | H : (_ || _) = false |- _ => apply orb_false_iff in H as [? ?]
  | H : negb _ = true |- _ => apply negb_true_iff in H
  | H : negb _ = false |- _ => apply negb_false_iff in H
  | H : (_ =? _) = true |- _ => apply Z.eqb_eq in H
  | H : (_ =? _) = false |- _ => apply Z.eqb_neq in H
  | H : (_ <=? _) = true |- _ => apply Z.leb_le in H
  | H : (_ <=? _) = false |- _ => apply Z.leb_gt in H
  | H : (_ <? _) = true |- _ => apply Z.ltb_lt in H
  | H : (_ <? _) = false |- _ => apply Z.ltb_ge in H
  end.

Lemma wr_middle pre x post b : wr (pre ++ x :: post) (zlen pre) b = Ok (pre ++ u8 b :: post).
Proof.
  unfold wr. rewrite zlen_app, zlen_cons. pose proof (zlen_nonneg pre). pose proof (zlen_nonneg post).
  replace ((zlen pre <? 0) || (zlen pre + (1 + zlen post) <=? zlen pre)) with false by lia.
  f_equal. unfold zlen. rewrite Nat2Z.id. by rewrite insert_app_r_alt, Nat.sub_diag by lia.
Qed.

Lemma zlen_snoc {A} (l : list A) x : zlen (l ++ [x]) = zlen l + 1.
Proof. rewrite zlen_app. done. Qed.

(** A callee's failure result, tested by its caller. *)
Definition catch {A} (m : res A) : res (option A) :=
  match m with Ok a => Ok (Some a) | Bad => Ok None | Oob => Oob | NoFuel => NoFuel end.

Lemma wp_catch {A} (m : res A) (Q : option A → Prop) :
  wp m (λ a, Q (Some a)) → Q None → wp (catch m) Q.
Proof. by destruct m. Qed.

(** Total correctness: a result is returned, and not as a failure. *)
Definition twp {A} (m : res A) (Q : A → Prop) : Prop := match m with Ok a => Q a | _ => False end.

Lemma twp_bind {A B} (m : res A) (f : A → res B) R : twp m (λ a, twp (f a) R) → twp (mbind f m) R.
Proof. by destruct m. Qed.
Lemma twp_mono {A} (m : res A) (Q Q' : A → Prop) : twp m Q → (∀ a, Q a → Q' a) → twp m Q'.
Proof. destruct m; simpl; auto. Qed.
Lemma twp_if {A} (b : bool) (m1 m2 : res A) Q :
  (b = true → twp m1 Q) → (b = false → twp m2 Q) → twp (if b then m1 else m2) Q.
Proof. destruct b; auto. Qed.
Lemma twp_wp {A} (m : res A) Q : twp m Q → wp m Q.
Proof. by destruct m. Qed.
Lemma twp_catch {A} (m : res A) (Q : option A → Prop) :
  wp m (λ a, m = Ok a → Q (Some a)) → Q None → twp (catch m) Q.
Proof. destruct m; simpl; auto. Qed.
Lemma twp_ok {A} (m : res A) Q : twp m Q ↔ ∃ a, m = Ok a ∧ Q a.
Proof. destruct m; simpl; naive_solver. Qed.

Lemma twp_rd (buf : list Z) i (Q : Z → Prop) :
  0 ≤ i < zlen buf → (∀ b, rd buf i = Ok b → b ∈ buf → Q b) → twp (rd buf i) Q.
Proof. intros Hi HQ. destruct (rd_in buf i Hi) as (b & E & ?). rewrite E. by apply HQ. Qed.

Lemma twp_wr (buf : list Z) i b (Q : list Z → Prop) :
  0 ≤ i < zlen buf → (∀ buf', wr buf i b = Ok buf' → Q buf') → twp (wr buf i b) Q.
Proof.
  intros Hi HQ. unfold wr in *. replace ((i <? 0) || (zlen buf <=? i)) with false in * by lia.
  by apply HQ.
Qed.

Ltac twp_step :=
  lazymatch goal with
  | |- twp (mbind _ _) _ => apply twp_bind
  | |- twp (Ok _) _ => simpl
  | |- twp (if _ then _ else _) _ => apply twp_if; intros ?
  end.

Lemma rd_Ok (buf : list Z) i b : rd buf i = Ok b ↔ 0 ≤ i ∧ buf !! Z.to_nat i = Some b.
Proof.
  unfold rd. destruct (Z.ltb_spec i 0); [naive_solver lia|].
  destruct (buf !! Z.to_nat i); naive_solver.
Qed.

Lemma wr_bytes (buf buf' : list Z) i b :
  Forall is_byte buf → wr buf i b = Ok buf' → Forall is_byte buf' ∧ zlen buf' = zlen buf.
Proof.
  unfold wr. intros Hb. case_match; [done|]. intros [= <-].
  split; [|apply zlen_insert]. apply Forall_insert; [done|apply u8_byte].
Qed.

Lemma wr_ok (buf : list Z) i b : 0 ≤ i < zlen buf → ∃ buf', wr buf i b = Ok buf'.
Proof.
  intros Hi. unfold wr. replace ((i <? 0) || (zlen buf <=? i)) with false by lia. eauto.
Qed.

(** The result of a step remembered. *)
Lemma wp_bind_eq {A B} (m : res A) (f : A → res B) R :
  wp m (λ a, m = Ok a → wp (f a) R) → wp (mbind f m) R.
Proof. destruct m; simpl; auto. Qed.
Lemma twp_bind_eq {A B} (m : res A) (f : A → res B) R :
  twp m (λ a, m = Ok a → twp (f a) R) → twp (mbind f m) R.
Proof. destruct m; simpl; auto. Qed.

Lemma filter_iff_in {A} (P Q : A → Prop) `{∀ x, Decision (P x), ∀ x, Decision (Q x)} (l : list A) :
  (∀ x, x ∈ l → P x ↔ Q x) → filter P l = filter Q l.
Proof.
  induction l as [|x l IH]; intros HPQ; [done|].
  rewrite !filter_cons, IH by set_solver.
  assert (P x ↔ Q x) by set_solver. repeat case_decide; tauto.
Qed.

Lemma filter_id {A} (P : A → Prop) `{∀ x, Decision (P x)} (l : list A) : Forall P l → filter P l = l.
Proof. induction 1 as [|x l Hx _ IH]; [done|]. rewrite filter_cons_True by done. by rewrite IH. Qed.

(** A postcondition that holds under a further assumption. *)
Lemma twp_and_impl {A} (m : res A) (Q Q' : A → Prop) (P : Prop) :
  twp m Q → (P → twp m Q') → twp m (λ a, Q a ∧ (P → Q' a)).
Proof. destruct m; simpl; auto. Qed.

Lemma twp_conj {A} (m : res A) (Q Q' : A → Prop) : twp m Q → twp m Q' → twp m (λ a, Q a ∧ Q' a).
Proof. destruct m; simpl; auto. Qed.

Lemma filter_ne_perm {A} `{EqDecision A} (l : list A) id : NoDup l → id ∈ l → l ≡ₚ id :: filter (λ x, x ≠ id) l.
Proof.
  intros Hn Hid. apply NoDup_Permutation; [done| |].
  - constructor; [|by apply NoDup_filter]. rewrite list_elem_of_filter. tauto.
  - intros x. rewrite elem_of_cons, list_elem_of_filter. destruct (decide (x = id)); naive_solver.
Qed.

Lemma alter_as_insert {A} (f : A → A) (l : list A) i x : l !! i = Some x → alter f i l = <[i := f x]> l.
Proof.
  intros Hx. apply list_eq. intros j. destruct (decide (j = i)) as [->|Hne].
  - rewrite list_lookup_alter_eq, Hx, list_lookup_insert_eq; [done|by eapply lookup_lt_Some].
  - by rewrite list_lookup_alter_ne, list_lookup_insert_ne.
Qed.
