(* ===== verification/Hostname.v ===== *)
(** Names as C strings (src/src/util.c): validation ([check_name],
    [legal_hostname], [canonicalise]), case-insensitive order and equality
    ([hostname_order], [hostname_isequal]), the subdomain test
    ([hostname_issubdomain]) and wildcard matching ([wildcard_match],
    [wildcard_matchn]), each with the specification it implements. *)
From S2P Require Import Prelude.
Create HintDb hostname.

Definition MAXDNAME : Z := 1025.
Definition MAXLABEL : Z := 63.
Definition dot : Z := 46.
Definition space : Z := 32.
Definition star : Z := 42.

(** * Operations *)

Definition isascii (c : Z) : bool := c <? 128.
Definition iscntrl (c : Z) : bool := (c <? 32) || (c =? 127).
Definition isupper (c : Z) : bool := (65 <=? c) && (c <=? 90).
Definition islower (c : Z) : bool := (97 <=? c) && (c <=? 122).
Definition isdigit (c : Z) : bool := (48 <=? c) && (c <=? 57).

(** The scan of [check_name]: [idn] is the build option HAVE_IDN or
    HAVE_LIBIDN2. [None] is a [return 0] in the loop; otherwise the final
    values of [nowhite] and of [idn_encode || hasucase]. *)
Fixpoint check_name_loop (idn : bool) (s : cstring) (dotgap : Z) (nowhite enc : bool)
    : option (bool * bool) :=
  match s with
  | [] => Some (nowhite, enc)
  | c :: s =>
      if c =? dot then check_name_loop idn s 0 nowhite enc
      else if MAXLABEL <? dotgap + 1 then None
      else if isascii c && iscntrl c then None
      else if negb (isascii c) then
        if idn then check_name_loop idn s (dotgap + 1) nowhite true else None
      else if negb (c =? space) then
        check_name_loop idn s (dotgap + 1) true (enc || (idn && isupper c))
      else check_name_loop idn s (dotgap + 1) nowhite enc
  end.

(** Returns the C result (0, 1, or 2 when IDN encoding is needed) and the
    argument, from which a trailing dot is removed in place. *)
Definition check_name (idn : bool) (s : cstring) : Z * cstring :=
  let l := strlen s in
  if (l =? 0) || (MAXDNAME <? l) then (0, s)
  else
    let trailing := default 0 (last s) =? dot in
    let s' := if trailing then removelast s else s in
    match check_name_loop idn s' 0 trailing false with
    | None => (0, s')
    | Some (nowhite, enc) => (if nowhite then (if enc then 2 else 1) else 0, s')
    end.

Fixpoint legal_hostname_loop (s : cstring) (first : bool) : Z :=
  match s with
  | [] => 1
  | c :: s =>
      if isupper c || islower c || isdigit c then legal_hostname_loop s false
      else if negb first && ((c =? 45) || (c =? 95)) then legal_hostname_loop s false
      else if c =? dot then 1
      else 0
  end.

Definition legal_hostname (idn : bool) (name : cstring) : Z * cstring :=
  let '(rc, name) := check_name idn name in
  if rc =? 0 then (0, name) else (legal_hostname_loop name true, name).

(** [canonicalise] in a build without IDN; [malloc_ok] is the outcome of the
    allocation. The second component is the value left in [*nomem]. *)
Definition canonicalise (malloc_ok : bool) (s : cstring) : option cstring * Z :=
  let '(rc, s') := check_name false s in
  if rc =? 0 then (None, 0)
  else if malloc_ok then (Some s', 0) else (None, 1).

Fixpoint hostname_order (a b : cstring) : Z :=
  let c1 := lower (deref a) in
  let c2 := lower (deref b) in
  if c1 <? c2 then -1
  else if c2 <? c1 then 1
  else match a with
       | [] => 0
       | _ :: a => hostname_order a (tail b)
       end.

Definition hostname_isequal (a b : cstring) : bool := hostname_order a b =? 0.

(** The do-while loop of [hostname_issubdomain], [ap] and [bp] the offsets of
    the two pointers: [None] is the [return 0], [Some bp] the loop's exit. *)
Fixpoint issubdomain_loop (a b : cstring) (ap bp : nat) : option nat :=
  match ap with
  | O => Some bp
  | S ap =>
      let bp := pred bp in
      if lower (a !!! ap) =? lower (b !!! bp) then issubdomain_loop a b ap bp else None
  end.

Definition hostname_issubdomain (a b : cstring) : Z :=
  if bool_decide (length b < length a)%nat || bool_decide (a = []) then 0
  else match issubdomain_loop a b (length a) (length b) with
       | None => 0
       | Some O => 2
       | Some (S bp) => if b !!! bp =? dot then 1 else 0
       end.

Fixpoint wildcard_match (w m : cstring) : bool :=
  match w, m with
  | cw :: w', cm :: m' =>
      if cw =? star then true
      else if negb (cw =? cm) then false
      else wildcard_match w' m'
  | _, _ => deref w =? deref m
  end.

Fixpoint wildcard_matchn (w m : cstring) (num : nat) : bool :=
  match w, m, num with
  | cw :: w', cm :: m', S n =>
      if cw =? star then true
      else if negb (cw =? cm) then false
      else wildcard_matchn w' m' n
  | _, _, O => true
  | _, _, _ => deref w =? deref m
  end.

(** * What they promise *)

(** The labels of a name: its maximal dot-free runs. *)
Fixpoint labels_aux (acc : cstring) (s : cstring) : list cstring :=
  match s with
  | [] => [reverse acc]
  | c :: s => if c =? dot then reverse acc :: labels_aux [] s else labels_aux (c :: acc) s
  end.
Definition labels (s : cstring) : list cstring := labels_aux [] s.

Definition graphic (idn : bool) (c : Z) : Prop :=
  c = dot ∨ (isascii c = true ∧ iscntrl c = false) ∨ (isascii c = false ∧ idn = true).

(** A name the validator should accept. *)
Record valid_name (idn : bool) (s : cstring) : Prop := {
  vn_length : 1 ≤ strlen s ≤ MAXDNAME;
  vn_chars : Forall (graphic idn) s;
  vn_labels : Forall (λ l, zlen l ≤ MAXLABEL) (labels s);
  vn_nonwhite : last s = Some dot ∨ ∃ c, c ∈ s ∧ isascii c = true ∧ c ≠ dot ∧ c ≠ space
}.

(** * Validation *)

Definition nonwhite (c : Z) : bool := isascii c && negb (c =? dot) && negb (c =? space).

Lemma labels_aux_long acc s : ∃ l, l ∈ labels_aux acc s ∧ zlen acc ≤ zlen l.
Proof.
  revert acc. induction s as [|c s IH]; intros acc; simpl.
  { exists (reverse acc). split; [set_solver|]. unfold zlen. rewrite length_reverse. lia. }
  case_match.
  - exists (reverse acc). split; [set_solver|]. unfold zlen. rewrite length_reverse. lia.
  - destruct (IH (c :: acc)) as (l & ? & Hl). rewrite zlen_cons in Hl. exists l. split; [done|lia].
Qed.

Lemma labels_aux_short acc s :
  Forall (λ l, zlen l ≤ MAXLABEL) (labels_aux acc s) → zlen acc ≤ MAXLABEL.
Proof.
  rewrite Forall_forall. destruct (labels_aux_long acc s) as (l & Hin & Hle).
  intros H. specialize (H l Hin). lia.
Qed.

Lemma check_name_loop_spec idn s acc nw enc nw' :
  zlen acc ≤ MAXLABEL →
  (∃ e, check_name_loop idn s (zlen acc) nw enc = Some (nw', e)) ↔
  Forall (graphic idn) s ∧ Forall (λ l, zlen l ≤ MAXLABEL) (labels_aux acc s)
  ∧ nw' = nw || existsb nonwhite s.
Proof.
  revert acc nw enc. induction s as [|c s IH]; intros acc nw enc Hacc; simpl.
  { unfold zlen in *. rewrite Forall_singleton, length_reverse, orb_false_r. naive_solver. }
  unfold nonwhite at 1. destruct (Z.eqb_spec c dot) as [->|Hdot].
  { rewrite Forall_cons, Forall_cons, <- (zlen_nil (A:=Z)), IH by done. unfold graphic at 2.
    unfold zlen at 2. rewrite length_reverse. fold (zlen acc). naive_solver lia. }
  destruct (Z.ltb_spec MAXLABEL (zlen acc + 1)) as [Hgap|Hgap].
  { split; [naive_solver|]. intros (_ & H%labels_aux_short & _).
    rewrite zlen_cons in H. lia. }
  replace (zlen acc + 1) with (zlen (c :: acc)) by (rewrite zlen_cons; lia).
  rewrite Forall_cons. unfold graphic at 1.
  assert (zlen (c :: acc) ≤ MAXLABEL) by (rewrite zlen_cons; lia).
  destruct (isascii c) eqn:Ha, (iscntrl c) eqn:Hc, (Z.eqb_spec c space), idn;
    simpl; rewrite ?IH by done; rewrite ?orb_true_r, ?orb_true_l, ?orb_false_r; naive_solver.
Qed.

Lemma existsb_nonwhite s :
  existsb nonwhite s = true ↔ ∃ c, c ∈ s ∧ isascii c = true ∧ c ≠ dot ∧ c ≠ space.
Proof.
  rewrite existsb_exists. unfold nonwhite. setoid_rewrite <- list_elem_of_In.
  setoid_rewrite andb_true_iff. setoid_rewrite andb_true_iff.
  setoid_rewrite negb_true_iff. setoid_rewrite Z.eqb_neq. naive_solver.
Qed.

Lemma labels_aux_snoc_dot acc s : labels_aux acc (s ++ [dot]) = labels_aux acc s ++ [[]].
Proof.
  revert acc. induction s as [|c s IH]; intros acc; simpl; [done|].
  case_match; simpl; by rewrite IH.
Qed.

Lemma check_name_loop_total idn s nw :
  (∃ r, check_name_loop idn s 0 nw false = Some r ∧ r.1 = true) ↔
  Forall (graphic idn) s ∧ Forall (λ l, zlen l ≤ MAXLABEL) (labels s)
  ∧ (nw = true ∨ ∃ c, c ∈ s ∧ isascii c = true ∧ c ≠ dot ∧ c ≠ space).
Proof.
  rewrite <- existsb_nonwhite, <- orb_true_iff.
  pose proof (check_name_loop_spec idn s [] nw false true) as H.
  rewrite zlen_nil in H. unfold labels. split.
  - intros ([nw' e] & Hr & Hn). simpl in Hn. subst nw'.
    destruct (proj1 (H ltac:(done))) as (? & ? & ?); [eauto|auto].
  - intros (? & ? & Hor). destruct (proj2 (H ltac:(done))) as [e He]; [auto|].
    by exists (true, e).
Qed.

Lemma valid_name_dot idn k :
  1 ≤ strlen (k ++ [dot]) ≤ MAXDNAME →
  valid_name idn (k ++ [dot]) ↔
  Forall (graphic idn) k ∧ Forall (λ l, zlen l ≤ MAXLABEL) (labels k)
  ∧ (true = true ∨ ∃ c, c ∈ k ∧ isascii c = true ∧ c ≠ dot ∧ c ≠ space).
Proof.
  intros Hl. split.
  - intros [_ Hc Hlab _]. apply Forall_app in Hc as [? _].
    unfold labels in Hlab. rewrite labels_aux_snoc_dot in Hlab.
    apply Forall_app in Hlab as [? _]. auto.
  - intros (? & ? & _). split; [done| | |left; apply last_snoc].
    + apply Forall_app. split; [done|]. by repeat constructor.
    + unfold labels. rewrite labels_aux_snoc_dot. apply Forall_app. by repeat constructor.
Qed.

(** [check_name] accepts exactly the valid names: between 1 and MAXDNAME
    characters, no control character (nor, without IDN, a non-ASCII one), no
    label over 63 characters, and either a trailing dot or some character that
    is not blank; it leaves the name without its trailing dot. *)
Theorem check_name_correct idn s :
  ((check_name idn s).1 ≠ 0 ↔ valid_name idn s) ∧
  (1 ≤ strlen s ≤ MAXDNAME →
   (check_name idn s).2 = if decide (last s = Some dot) then removelast s else s).
Proof.
  unfold check_name. destruct ((strlen s =? 0) || (MAXDNAME <? strlen s)) eqn:El.
  { split; [|lia]. split; [done|]. intros [? _ _ _]. lia. }
  assert (1 ≤ strlen s ≤ MAXDNAME) as Hl
    by (unfold strlen in *; pose proof (zlen_nonneg s); lia).
  destruct (decide (last s = Some dot)) as [[k ->]%last_Some|Hnd].
  - rewrite last_snoc, removelast_last. simpl. rewrite Z.eqb_refl.
    rewrite (valid_name_dot idn k Hl), <- check_name_loop_total.
    destruct (check_name_loop idn k 0 true false) as [[[] []]|]; simpl; naive_solver.
  - assert ((default 0 (last s) =? dot) = false) as ->.
    { destruct (last s) as [c|]; [|done]. apply Z.eqb_neq. simpl. congruence. }
    assert (valid_name idn s ↔ ∃ r, check_name_loop idn s 0 false false = Some r ∧ r.1 = true) as ->.
    { rewrite check_name_loop_total. split; [intros []|split]; naive_solver. }
    destruct (check_name_loop idn s 0 false false) as [[[] []]|]; simpl; naive_solver.
Qed.

(** * Order and equality *)

Lemma hostname_order_nil b : wf_cstring b → hostname_order [] b = if decide (b = []) then 0 else -1.
Proof.
  intros [|y k Hy Hk]; [done|]. simpl. change (lower 0) with 0.
  pose proof (lower_pos y Hy). case_match; bool_hyps; [done|lia].
Qed.

Lemma hostname_order_cons x a b :
  1 ≤ x < 256 → wf_cstring b →
  hostname_order (x :: a) b =
    match b with
    | [] => 1
    | y :: b => if lower x <? lower y then -1 else if lower y <? lower x then 1
                else hostname_order a b
    end.
Proof.
  intros Hx [|y k Hy Hk]; [|done]. simpl. change (lower 0) with 0.
  pose proof (lower_pos x Hx). repeat case_match; bool_hyps; lia.
Qed.

Lemma hostname_order_eq a b :
  wf_cstring a → wf_cstring b → hostname_order a b = 0 ↔ ci_eq a b.
Proof.
  unfold ci_eq. intros Ha. revert b. induction Ha as [|x a Hx Ha IH]; intros b Hb.
  - rewrite hostname_order_nil by done. by destruct b.
  - rewrite hostname_order_cons by done. destruct Hb as [|y b Hy Hb]; [done|].
    specialize (IH b Hb). rewrite !fmap_cons.
    repeat case_match; bool_hyps; (split; [intros|intros [= ? ?]]); try lia.
    + f_equal; [lia|tauto].
    + tauto.
Qed.

Lemma hostname_order_antisym a b :
  wf_cstring a → wf_cstring b → hostname_order b a = - hostname_order a b.
Proof.
  intros Ha. revert b. induction Ha as [|x a Hx Ha IH]; intros b Hb.
  - rewrite hostname_order_nil by done. destruct Hb; [done|].
    by rewrite hostname_order_cons by (done || constructor).
  - rewrite hostname_order_cons by done. destruct Hb as [|y b Hy Hb].
    + by rewrite hostname_order_nil by (by constructor).
    + rewrite hostname_order_cons by (done || by constructor). specialize (IH b Hb).
      repeat case_match; bool_hyps; lia.
Qed.

Lemma hostname_order_trans a b c :
  wf_cstring a → wf_cstring b → wf_cstring c →
  hostname_order a b ≤ 0 → hostname_order b c ≤ 0 → hostname_order a c ≤ 0.
Proof.
  intros Ha. revert b c. induction Ha as [|x a Hx Ha IH]; intros b c Hb Hc.
  - rewrite !hostname_order_nil by done. repeat case_decide; lia.
  - rewrite !hostname_order_cons by done. destruct Hb as [|y b Hy Hb]; [lia|].
    rewrite hostname_order_cons by done. destruct Hc as [|z c Hz Hc]; [lia|].
    specialize (IH b c Hb Hc). repeat case_match; bool_hyps; lia.
Qed.

#[export] Hint Resolve hostname_order_eq hostname_order_trans : hostname.

Lemma hostname_isequal_refl a : hostname_isequal a a = true.
Proof. unfold hostname_isequal. induction a as [|c a IH]; simpl; [done|]. by rewrite !Z.ltb_irrefl. Qed.

Lemma hostname_isequal_spec a b :
  wf_cstring a → wf_cstring b → hostname_isequal a b = bool_decide (ci_eq a b).
Proof.
  intros Ha Hb. unfold hostname_isequal. pose proof (hostname_order_eq a b Ha Hb).
  case_bool_decide; [apply Z.eqb_eq|apply Z.eqb_neq]; tauto.
Qed.

(** [hostname_order] is a total preorder on names (antisymmetric results,
    transitive) and it reports equality exactly on names equal up to ASCII
    case, which is what [qsort] and the binary search over servers need. *)
Theorem hostname_order_preorder a b c :
  wf_cstring a → wf_cstring b → wf_cstring c →
  (hostname_order a b = 0 ↔ ci_eq a b) ∧
  hostname_order b a = - hostname_order a b ∧
  (hostname_order a b ≤ 0 → hostname_order b c ≤ 0 → hostname_order a c ≤ 0).
Proof.
  intros. split_and!; [by apply hostname_order_eq|by apply hostname_order_antisym|].
  by apply hostname_order_trans.
Qed.

Lemma hostname_order_preorder_witness :
  hostname_order [65; 66] [97; 98] = 0 ∧ hostname_order [97; 99] [65; 66] = 1.
Proof.
  assert (wf_cstring [65; 66] ∧ wf_cstring [97; 98] ∧ wf_cstring [97; 99]) as (? & ? & ?)
    by (unfold wf_cstring; split_and!; repeat constructor; lia).
  split.
  - destruct (hostname_order_preorder [65; 66] [97; 98] [97; 99]) as [Heq _]; [done..|].
    apply Heq. reflexivity.
  - destruct (hostname_order_preorder [65; 66] [97; 99] [97; 98]) as (_ & -> & _); done.
Defined.

(** * Subdomains *)

Lemma fmap_take_S_rev {A B} (f : A → B) (l : list A) n x :
  l !! n = Some x → f <$> take (S n) l = (f <$> take n l) ++ [f x].
Proof. intros H. by rewrite (take_S_r _ _ _ H), fmap_app. Qed.

Lemma issubdomain_loop_spec a b ap bp :
  (ap ≤ length a)%nat → (ap ≤ bp ≤ length b)%nat →
  issubdomain_loop a b ap bp =
    if decide (ci_eq (take ap a) (take ap (drop (bp - ap) b)))
    then Some (bp - ap)%nat else None.
Proof.
  revert bp. induction ap as [|ap IH]; intros bp Ha Hb.
  { simpl. by rewrite Nat.sub_0_r. }
  cbn [issubdomain_loop].
  destruct (lookup_lt_is_Some_2 a ap) as [x Hx]; [lia|].
  destruct (lookup_lt_is_Some_2 b (pred bp)) as [y Hy]; [lia|].
  rewrite (list_lookup_total_correct _ _ _ Hx), (list_lookup_total_correct _ _ _ Hy).
  assert (drop (bp - S ap) b !! ap = Some y) as Hy'
    by (rewrite lookup_drop, <- Hy; f_equal; lia).
  rewrite (decide_ext _ (ci_eq (take ap a) (take ap (drop (bp - S ap) b)) ∧ lower x = lower y)).
  2:{ unfold ci_eq. rewrite (fmap_take_S_rev _ _ _ _ Hx), (fmap_take_S_rev _ _ _ _ Hy').
      split; [intros [? ?]%app_inj_tail|intros [-> ->]]; done. }
  destruct (Z.eqb_spec (lower x) (lower y)) as [->|Hne].
  - rewrite IH by lia. replace (pred bp - ap)%nat with (bp - S ap)%nat by lia.
    repeat case_decide; naive_solver.
  - rewrite decide_False by tauto. done.
Qed.

Lemma hostname_issubdomain_eq a b :
  hostname_issubdomain a b =
    if decide (a = [] ∨ (length b < length a)%nat) then 0
    else if decide (ci_eq a (drop (length b - length a) b)) then
      match (length b - length a)%nat with
      | O => 2
      | S n => if b !!! n =? dot then 1 else 0
      end
    else 0.
Proof.
  unfold hostname_issubdomain. case_decide as Hd.
  { by destruct Hd as [->|]; rewrite ?(bool_decide_eq_true_2 _ eq_refl), ?orb_true_r,
      ?(bool_decide_eq_true_2 (_ < _)%nat) by done. }
  rewrite !bool_decide_eq_false_2 by tauto. simpl.
  rewrite issubdomain_loop_spec by lia.
  rewrite take_ge by lia. rewrite (take_ge (drop _ b)) by (rewrite length_drop; lia).
  by case_decide.
Qed.

(** [hostname_issubdomain a b] answers 2 exactly when the names are equal up
    to case, 1 exactly when [b] ends with a dot followed by [a], 0 otherwise;
    an empty [a] is never a parent. *)
Theorem hostname_issubdomain_correct a b :
  (hostname_issubdomain a b = 2 ↔ a ≠ [] ∧ ci_eq a b) ∧
  (hostname_issubdomain a b = 1 ↔ a ≠ [] ∧ ∃ p q, b = p ++ dot :: q ∧ ci_eq a q) ∧
  0 ≤ hostname_issubdomain a b ≤ 2.
Proof.
  rewrite hostname_issubdomain_eq. case_decide as Hd.
  { split_and!; [|split|lia|lia]; [split; [done|]|done|].
    - intros [? Heq%ci_eq_length]. destruct Hd; [done|lia].
    - intros (? & p & q & -> & Heq%ci_eq_length). rewrite length_app in Hd.
      simpl in Hd. destruct Hd; [done|lia]. }
  assert (a ≠ [] ∧ length a ≤ length b)%nat as [Hne Hle] by (split; [naive_solver|]; lia).
  assert (∀ p q, b = p ++ dot :: q → ci_eq a q →
    p = take (length b - length a - 1) b ∧ q = drop (length b - length a) b
    ∧ 0 < length b - length a)%nat as Hpq.
  { intros p q -> Hq%ci_eq_length. rewrite length_app. simpl.
    replace (length p + S (length q) - length a - 1)%nat with (length p) by lia.
    rewrite take_app_length. split_and!; [done| |lia].
    by rewrite cons_middle, app_assoc, drop_app_length' by (rewrite length_app; simpl; lia). }
  destruct (length b - length a)%nat as [|n] eqn:En.
  - rewrite drop_0. case_decide as Hc; split_and!; try lia; split; try done.
    + intros (_ & p & q & Hb & Hq). destruct (Hpq p q Hb Hq). lia.
    + by intros [_ ?].
    + intros (_ & p & q & Hb & Hq). destruct (Hpq p q Hb Hq). lia.
  - replace (S n - 1)%nat with n in Hpq by lia.
    destruct (lookup_lt_is_Some_2 b n) as [y Hy]; [lia|].
    rewrite (list_lookup_total_correct _ _ _ Hy).
    case_decide as Hc; [destruct (Z.eqb_spec y dot) as [->|Hyd]|];
      split_and!; try lia; split; try done.
    all: try (intros [_ Heq%ci_eq_length]; lia).
    + intros _. split; [done|]. exists (take n b), (drop (S n) b). split; [|done].
      by rewrite take_drop_middle.
    + intros (_ & p & q & Hb & Hq). destruct (Hpq p q Hb Hq) as [Hp _].
      rewrite Hb, list_lookup_middle in Hy by (rewrite Hp, length_take; lia). congruence.
    + intros (_ & p & q & Hb & Hq). destruct (Hpq p q Hb Hq) as (_ & -> & _). done.
Qed.

(** * Wildcards *)

Lemma wildcard_match_spec w m :
  wf_cstring w → wf_cstring m →
  (wildcard_match w m = true) ↔
  w = m ∨ ∃ p w' c m', (star ∉ p) ∧ w = p ++ star :: w' ∧ m = p ++ c :: m'.
Proof.
  intros Hw. revert m. induction Hw as [|x w Hx Hw IH]; intros m Hm.
  { destruct Hm as [|y m Hy Hm]; cbn [wildcard_match deref].
    - split; [auto|done].
    - rewrite Z.eqb_eq. split; [lia|]. intros [[=]|(p & ? & ? & ? & _ & H & _)].
      by destruct p. }
  destruct Hm as [|y m Hy Hm]; cbn [wildcard_match deref].
  { rewrite Z.eqb_eq. split; [lia|]. intros [[=]|(p & ? & ? & ? & _ & _ & H)]. by destruct p. }
  destruct (Z.eqb_spec x star) as [->|Hs].
  { split; [|done]. right. exists [], w, y, m. split; [apply not_elem_of_nil|done]. }
  destruct (Z.eqb_spec x y) as [->|Hxy]; simpl.
  - rewrite (IH m Hm). split.
    + intros [->|(p & w' & c & m' & Hp & -> & ->)]; [by left|right].
      exists (y :: p), w', c, m'. split; [by apply not_elem_of_cons|done].
    + intros [[= ->]|(p & w' & c & m' & Hp & Hw' & Hm')]; [by left|right].
      destruct p as [|z p]; simplify_eq/=. apply not_elem_of_cons in Hp as [_ ?].
      by exists p, w', c, m'.
  - split; [done|]. intros [[=]|(p & w' & c & m' & Hp & Hw' & Hm')]; [done|].
    destruct p; simplify_eq/=.
Qed.

(** Comparing at most [num] characters is comparing the whole of the first
    [num] characters, except that a pattern used up at the limit matches. *)
Lemma wildcard_matchn_full w m num :
  (length w ≤ num)%nat → (length m < num)%nat → wildcard_matchn w m num = wildcard_match w m.
Proof.
  revert m num. induction w as [|x w IH]; intros [|y m] [|num] Hw Hm; simpl in *; try lia; try done.
  rewrite IH by lia. done.
Qed.

(** Interface and user-class wildcards: a pattern matches a string when
    they are equal or when the part of the pattern before its first star is a
    proper prefix of the string; a trailing star therefore stands for at least
    one character. *)
Theorem wildcard_match_correct w m num :
  wf_cstring w → wf_cstring m → (length w ≤ num)%nat → (length m < num)%nat →
  (wildcard_match w m = true ↔
   w = m ∨ ∃ p w' c m', (star ∉ p) ∧ w = p ++ star :: w' ∧ m = p ++ c :: m') ∧
  wildcard_matchn w m num = wildcard_match w m.
Proof. intros. split; [by apply wildcard_match_spec|by apply wildcard_matchn_full]. Qed.

Lemma wildcard_match_correct_witness :
  wildcard_match [101; 42] [101; 48] = true ∧ wildcard_matchn [101; 42] [101; 48] 3 = true.
Proof.
  assert (wf_cstring [101; 42] ∧ wf_cstring [101; 48]) as [? ?]
    by (unfold wf_cstring; split; repeat constructor; lia).
  destruct (wildcard_match_correct [101; 42] [101; 48] 3) as [Hm Hn]; [done|done|simpl; lia|simpl; lia|].
  split; [|rewrite Hn]; apply Hm; right; exists [101], [], 48, [];
    (split; [apply not_elem_of_cons; split; [done|apply not_elem_of_nil]|done]).
Defined.
