(* ===== verification/Wire.v ===== *)
(** The DNS wire format (src/src/dns-protocol.h, src/src/rfc1035.c): bounds
    checked reads, the name parser with compression pointers
    ([extract_name]), name and section skipping, and the name writer
    [do_rfc1035_name] of src/src/util.c.

    A packet is the buffer the header points at, a list of bytes; pointers into
    it are offsets. [plen] is the length the caller vouches for. *)
From S2P Require Import Prelude Hostname.

Create HintDb wire.

Definition NAME_ESCAPE : Z := 1.
Definition HDRSZ : Z := 12.
Definition C_IN : Z := 1.
Definition T_A : Z := 1.
Definition T_NS : Z := 2.
Definition T_MD : Z := 3.
Definition T_MF : Z := 4.
Definition T_CNAME : Z := 5.
Definition T_SOA : Z := 6.
Definition T_MB : Z := 7.
Definition T_MG : Z := 8.
Definition T_MR : Z := 9.
Definition T_PTR : Z := 12.
Definition T_MINFO : Z := 14.
Definition T_MX : Z := 15.
Definition T_TXT : Z := 16.
Definition T_RP : Z := 17.
Definition T_AFSDB : Z := 18.
Definition T_RT : Z := 21.
Definition T_SIG : Z := 24.
Definition T_PX : Z := 26.
Definition T_AAAA : Z := 28.
Definition T_NXT : Z := 30.
Definition T_SRV : Z := 33.
Definition T_NAPTR : Z := 35.
Definition T_KX : Z := 36.
Definition T_DNAME : Z := 39.
Definition T_OPT : Z := 41.
Definition T_DS : Z := 43.
Definition T_RRSIG : Z := 46.
Definition T_NSEC : Z := 47.
Definition T_DNSKEY : Z := 48.
Definition T_NSEC3 : Z := 50.
Definition T_ANY : Z := 255.
Definition T_CAA : Z := 257.

(** * Reading *)

Definition CHECK_LEN (p plen len : Z) : bool := p + len <=? plen.

(** The value read and the advanced pointer. *)
Definition GETSHORT (buf : list Z) (p : Z) : res (Z * Z) :=
  a ← rd buf p; b ← rd buf (p + 1);
  Ok (Z.lor (Z.shiftl a 8) b, p + 2).

Definition GETLONG (buf : list Z) (p : Z) : res (Z * Z) :=
  a ← rd buf p; b ← rd buf (p + 1); c ← rd buf (p + 2); d ← rd buf (p + 3);
  Ok (Z.lor (Z.lor (Z.lor (Z.shiftl a 24) (Z.shiftl b 16)) (Z.shiftl c 8)) d, p + 4).

Definition PUTSHORT (buf : list Z) (p v : Z) : res (list Z * Z) :=
  buf ← wr buf p (Z.shiftr (u16 v) 8); buf ← wr buf (p + 1) (u16 v);
  Ok (buf, p + 2).

Definition PUTLONG (buf : list Z) (p v : Z) : res (list Z * Z) :=
  buf ← wr buf p (Z.shiftr (u32 v) 24); buf ← wr buf (p + 1) (Z.shiftr (u32 v) 16);
  buf ← wr buf (p + 2) (Z.shiftr (u32 v) 8); buf ← wr buf (p + 3) (u32 v);
  Ok (buf, p + 4).

Definition ADD_RDLEN (p plen len : Z) : res Z :=
  _ ← guard_ok (CHECK_LEN p plen len); Ok (p + len).

(** Counts of the header, in host order: [ntohs(header->qdcount)] and so on. *)
Definition qdcount (buf : list Z) : res Z := '(v, _) ← GETSHORT buf 4; Ok v.
Definition ancount (buf : list Z) : res Z := '(v, _) ← GETSHORT buf 6; Ok v.
Definition nscount (buf : list Z) : res Z := '(v, _) ← GETSHORT buf 8; Ok v.
Definition arcount (buf : list Z) : res Z := '(v, _) ← GETSHORT buf 10; Ok v.

(** * Names *)

(** The copy of one label of [extract_name] (isExtract set), [l] bytes at [p]
    appended to the output [out]; [dnssec] is
    [option_bool(OPT_DNSSEC_VALID)]. *)
Fixpoint copy_label (dnssec : bool) (buf : list Z) (l : nat) (p : Z) (out : cstring)
    : res (Z * cstring) :=
  match l with
  | O => Ok (p, out)
  | S l =>
      c ← rd buf p;
      if dnssec then
        if (c =? 0) || (c =? dot) || (c =? NAME_ESCAPE)
        then copy_label dnssec buf l (p + 1) (out ++ [NAME_ESCAPE; u8 (c + 1)])
        else copy_label dnssec buf l (p + 1) (out ++ [c])
      else if negb (c =? 0) && negb (c =? dot)
      then copy_label dnssec buf l (p + 1) (out ++ [c])
      else Bad
  end.

(** The comparison of one label (isExtract clear): [cp] is what is left of the
    name compared with, [ret] the C variable [retvalue]. Stepping over the
    terminator of the name is an access outside it. *)
Fixpoint compare_label (dnssec : bool) (buf : list Z) (l : nat) (p : Z) (cp : cstring) (ret : Z)
    : res (Z * cstring * Z) :=
  match l with
  | O => Ok (p, cp, ret)
  | S l =>
      let c1 := deref cp in
      c2 ← rd buf p;
      if c1 =? 0 then compare_label dnssec buf l (p + 1) cp 2
      else
        let cp := tail cp in
        let c1 := lower c1 in
        if dnssec && (c1 =? NAME_ESCAPE) then
          match cp with
          | [] => Oob
          | c :: cp =>
              let ret := if u8 (c - 1) =? lower c2 then ret else 2 in
              compare_label dnssec buf l (p + 1) cp ret
          end
        else
          let ret := if c1 =? lower c2 then ret else 2 in
          compare_label dnssec buf l (p + 1) cp ret
  end.

(** The local variables of [extract_name]: [en_cp] is the text written so far
    when extracting, the text still to compare otherwise. *)
Record ename := EName {
  en_p : Z;
  en_p1 : option Z;
  en_cp : cstring;
  en_namelen : Z;
  en_hops : Z;
  en_ret : Z
}.

Section extract.
Context (dnssec : bool) (buf : list Z) (plen : Z) (isExtract : bool) (extrabytes : Z).

(** The terminating zero label. *)
Definition extract_end (st : ename) : res (Z * Z * cstring) :=
  let pend := default (en_p st) (en_p1 st) in
  _ ← guard_ok (CHECK_LEN pend plen extrabytes);
  if isExtract then Ok (en_ret st, pend, removelast (en_cp st))
  else Ok (if deref (en_cp st) =? 0 then en_ret st else 2, pend, en_cp st).

(** One label after its length byte [l], the state's [en_p] already past it. *)
Definition extract_text (st : ename) (l : Z) : res ename :=
  let namelen := en_namelen st + l + 1 in
  _ ← guard_ok (negb (MAXDNAME <=? namelen));
  _ ← guard_ok (CHECK_LEN (en_p st) plen l);
  if isExtract then
    '(p, out) ← copy_label dnssec buf (Z.to_nat l) (en_p st) (en_cp st);
    Ok (EName p (en_p1 st) (out ++ [dot]) namelen (en_hops st) (en_ret st))
  else
    '(p, cp, ret) ← compare_label dnssec buf (Z.to_nat l) (en_p st) (en_cp st) (en_ret st);
    match cp with
    | [] => Ok (EName p (en_p1 st) [] namelen (en_hops st) ret)
    | c :: cp => Ok (EName p (en_p1 st) cp namelen (en_hops st) (if c =? dot then ret else 2))
    end.

(** A compression pointer whose first byte is [l]. *)
Definition extract_jump (st : ename) (l : Z) : res ename :=
  _ ← guard_ok (CHECK_LEN (en_p st) plen 1);
  b ← rd buf (en_p st);
  let target := Z.lor (Z.shiftl (Z.land l 63) 8) b in
  let p1 := match en_p1 st with None => Some (en_p st + 1) | Some q => Some q end in
  let hops := en_hops st + 1 in
  _ ← guard_ok (negb (255 <? hops));
  Ok (EName target p1 (en_cp st) (en_namelen st) hops (en_ret st)).

Definition en_advance (st : ename) : ename :=
  EName (en_p st + 1) (en_p1 st) (en_cp st) (en_namelen st) (en_hops st) (en_ret st).

Fixpoint extract_loop (fuel : nat) (st : ename) : res (Z * Z * cstring) :=
  match fuel with
  | O => NoFuel
  | S fuel =>
      _ ← guard_ok (CHECK_LEN (en_p st) plen 1);
      l ← rd buf (en_p st);
      let st := en_advance st in
      if l =? 0 then extract_end st
      else if Z.land l 192 =? 192 then
        st ← extract_jump st l; extract_loop fuel st
      else if Z.land l 192 =? 0 then
        st ← extract_text st l; extract_loop fuel st
      else Bad
  end.
End extract.

(** A label adds at least two to [namelen], which stays below MAXDNAME, and a
    pointer one to [hops], which stays below 256: 512 labels, 255 jumps and the
    terminator. *)
Definition extract_fuel : nat := 800.

(** The C result, the advanced [*pp] and the name: what is in the buffer on
    return when extracting, the unchanged argument when comparing. *)
Definition extract_name (dnssec : bool) (buf : list Z) (plen p : Z) (name : cstring)
    (isExtract : bool) (extrabytes : Z) : res (Z * Z * cstring) :=
  let cp := if isExtract then [] else name in
  '(ret, p, out) ← extract_loop dnssec buf plen isExtract extrabytes extract_fuel
                     (EName p None cp 0 0 1);
  Ok (ret, p, if isExtract then out else name).

(** * Skipping *)

Fixpoint skip_name_loop (buf : list Z) (plen : Z) (fuel : nat) (ansp : Z) : res Z :=
  match fuel with
  | O => NoFuel
  | S fuel =>
      _ ← guard_ok (CHECK_LEN ansp plen 1);
      b ← rd buf ansp;
      let label_type := Z.land b 192 in
      if label_type =? 192 then Ok (ansp + 2)
      else if label_type =? 128 then Bad
      else if label_type =? 64 then
        _ ← guard_ok (CHECK_LEN ansp plen 2);
        _ ← guard_ok (Z.land b 63 =? 1);
        count ← rd buf (ansp + 1);
        let ansp := ansp + 2 in
        skip_name_loop buf plen fuel
          (if count =? 0 then ansp + 32 else ansp + (Z.shiftr (count - 1) 3 + 1))
      else
        let len := Z.land b 63 in
        ansp ← ADD_RDLEN (ansp + 1) plen len;
        if len =? 0 then Ok ansp else skip_name_loop buf plen fuel ansp
  end.

(** Every turn moves past at least one byte of the packet. *)
Definition skip_name (buf : list Z) (plen ansp extrabytes : Z) : res Z :=
  ansp ← skip_name_loop buf plen (S (Z.to_nat plen)) ansp;
  _ ← guard_ok (CHECK_LEN ansp plen extrabytes);
  Ok ansp.

Fixpoint skip_questions_loop (buf : list Z) (plen : Z) (q : nat) (ansp : Z) : res Z :=
  match q with
  | O => Ok ansp
  | S q => ansp ← skip_name buf plen ansp 4; skip_questions_loop buf plen q (ansp + 4)
  end.

Definition skip_questions (buf : list Z) (plen : Z) : res Z :=
  q ← qdcount buf; skip_questions_loop buf plen (Z.to_nat q) HDRSZ.

Fixpoint skip_section (buf : list Z) (plen : Z) (count : nat) (ansp : Z) : res Z :=
  match count with
  | O => Ok ansp
  | S count =>
      ansp ← skip_name buf plen ansp 10;
      '(rdlen, ansp) ← GETSHORT buf (ansp + 8);
      ansp ← ADD_RDLEN ansp plen rdlen;
      skip_section buf plen count ansp
  end.

(** Consecutive bytes stored from [p] on, as [memcpy] and [memmove] do. *)
Fixpoint put_bytes (buf : list Z) (p : Z) (bs : list Z) : res (list Z) :=
  match bs with
  | [] => Ok buf
  | b :: bs => buf ← wr buf p b; put_bytes buf (p + 1) bs
  end.

(** A malformed packet is returned as it is ([Bad] of the skippers);
    [pheader] is the saved pseudoheader, when there is one. *)
Definition resize_packet (buf : list Z) (plen : Z) (pheader : option (list Z))
    : res (list Z * Z) :=
  let scan :=
    ansp ← skip_questions buf plen;
    an ← ancount buf; ns ← nscount buf; ar ← arcount buf;
    ansp ← skip_section buf plen (Z.to_nat (an + ns + ar)) ansp;
    Ok (ansp, ar) in
  match scan with
  | Bad => Ok (buf, plen)
  | Oob => Oob
  | NoFuel => NoFuel
  | Ok (ansp, ar) =>
      match pheader with
      | Some ph =>
          if ar =? 0 then
            buf ← put_bytes buf ansp ph;
            '(buf, _) ← PUTSHORT buf 10 1;
            Ok (buf, ansp + zlen ph)
          else Ok (buf, ansp)
      | None => Ok (buf, ansp)
      end
  end.

(** * Writing names *)

(** [limit && x > limit]. *)
Definition over (limit : option Z) (x : Z) : bool :=
  match limit with Some l => l <? x | None => false end.

(** The inner loop of [do_rfc1035_name]: the characters of one label. [None]
    is the early [return NULL]; the buffer is returned in every case. *)
Fixpoint put_label (dnssec : bool) (limit : option Z) (buf : list Z) (p : Z) (sval : cstring) (j : Z)
    : res (list Z * option (Z * cstring * Z)) :=
  match sval with
  | [] => Ok (buf, Some (p, [], j))
  | c :: s =>
      if c =? dot then Ok (buf, Some (p, sval, j))
      else if over limit (p + 1) then Ok (buf, None)
      else if dnssec && (c =? NAME_ESCAPE) then
        match s with
        | [] => Oob
        | d :: s => buf ← wr buf p (d - 1); put_label dnssec limit buf (p + 1) s (j + 1)
        end
      else buf ← wr buf p c; put_label dnssec limit buf (p + 1) s (j + 1)
  end.

Fixpoint rfc1035_name_loop (dnssec : bool) (limit : option Z) (fuel : nat) (buf : list Z) (p : Z)
    (sval : cstring) : res (list Z * option Z) :=
  match fuel with
  | O => NoFuel
  | S fuel =>
      match sval with
      | [] => Ok (buf, Some p)
      | _ =>
          if over limit (p + 1) then Ok (buf, None)
          else
            '(buf, r) ← put_label dnssec limit buf (p + 1) sval 0;
            match r with
            | None => Ok (buf, None)
            | Some (q, rest, j) =>
                buf ← wr buf p j;
                rfc1035_name_loop dnssec limit fuel buf q (tail rest)
            end
      end
  end.

(** The terminating zero label is left to the caller. *)
Definition do_rfc1035_name (dnssec : bool) (buf : list Z) (p : Z) (sval : cstring) (limit : option Z)
    : res (list Z * option Z) :=
  rfc1035_name_loop dnssec limit (S (length sval)) buf p sval.
