(* ===== verification/WireSafe.v ===== *)
(** Memory safety, termination and bounds of the wire-format routines of
    [Wire]: whatever the packet holds, no read or write leaves the packet and
    every loop ends. *)
From S2P Require Import Prelude Hostname Wire.

(** * Multi-byte accesses *)

Lemma GETSHORT_spec buf p a b :
  is_byte a → is_byte b → rd buf p = Ok a → rd buf (p + 1) = Ok b →
  GETSHORT buf p = Ok (a * 256 + b, p + 2).
Proof.
  intros Ha Hb E1 E2. unfold GETSHORT. rewrite E1. simpl. rewrite E2. simpl.
  do 2 f_equal. by apply (lor_shiftl a b 8).
Qed.

Lemma GETSHORT_total buf p :
  Forall is_byte buf → 0 ≤ p → p + 2 ≤ zlen buf →
  ∃ a b, rd buf p = Ok a ∧ rd buf (p + 1) = Ok b ∧ is_byte a ∧ is_byte b ∧
    GETSHORT buf p = Ok (a * 256 + b, p + 2).
Proof.
  intros Hb Hp Hl. destruct (rd_in buf p) as (a & Ea & Ha); [lia|].
  destruct (rd_in buf (p + 1)) as (b & Eb & Hb'); [lia|]. rewrite Forall_forall in Hb.
  exists a, b. split_and!; auto. apply GETSHORT_spec; auto.
Qed.

(** Two reads of the same bytes. *)
Lemma GETSHORT_ext buf buf' p :
  rd buf' p = rd buf p → rd buf' (p + 1) = rd buf (p + 1) → GETSHORT buf' p = GETSHORT buf p.
Proof. intros E1 E2. unfold GETSHORT. by rewrite E1, E2. Qed.

(** What is stored is read back, and nothing else changes. *)
Lemma PUTSHORT_spec buf p v :
  Forall is_byte buf → 0 ≤ p → p + 2 ≤ zlen buf →
  ∃ buf', PUTSHORT buf p v = Ok (buf', p + 2) ∧ Forall is_byte buf' ∧ zlen buf' = zlen buf ∧
    GETSHORT buf' p = Ok (u16 v, p + 2) ∧
    ∀ o, o ≠ p → o ≠ p + 1 → rd buf' o = rd buf o.
Proof.
  intros Hb Hp Hl. unfold PUTSHORT.
  destruct (wr_ok buf p (Z.shiftr (u16 v) 8)) as [b1 W1]; [lia|].
  destruct (wr_bytes _ _ _ _ Hb W1) as [Hb1 Hz1].
  destruct (wr_ok b1 (p + 1) (u16 v)) as [b2 W2]; [lia|].
  destruct (wr_bytes _ _ _ _ Hb1 W2) as [Hb2 Hz2].
  rewrite W1. simpl. rewrite W2. simpl. exists b2. split_and!; [done..|lia| |].
  - rewrite (GETSHORT_spec b2 p (u8 (Z.shiftr (u16 v) 8)) (u8 (u16 v))); try apply u8_byte.
    + do 2 f_equal. rewrite Z.shiftr_div_pow2 by lia. change (2 ^ 8) with 256. unfold u8, u16. dlia.
    + rewrite (rd_wr _ _ _ _ _ W2), (rd_wr _ _ _ _ _ W1), Z.eqb_refl.
      by replace (p =? p + 1) with false by lia.
    + by rewrite (rd_wr _ _ _ _ _ W2), Z.eqb_refl.
  - intros o H1 H2. rewrite (rd_wr _ _ _ _ _ W2), (rd_wr _ _ _ _ _ W1).
    replace (o =? p + 1) with false by lia. by replace (o =? p) with false by lia.
Qed.

Section packet.
Context (buf : list Z) (plen : Z).
Hypothesis (Hbytes : Forall is_byte buf).
Hypothesis (Hplen : 0 ≤ plen ≤ zlen buf).

Lemma wp_rd_byte i (Q : Z → Prop) :
  0 ≤ i < zlen buf → (∀ b, is_byte b → rd buf i = Ok b → Q b) → wp (rd buf i) Q.
Proof.
  intros Hi HQ. apply wp_rd; [done|]. intros b Hb. apply HQ.
  by apply (proj1 (Forall_forall _ _) Hbytes).
Qed.

Lemma wp_GETSHORT p (Q : Z * Z → Prop) :
  0 ≤ p → p + 2 ≤ zlen buf →
  (∀ v, 0 ≤ v < 65536 → Q (v, p + 2)) → wp (GETSHORT buf p) Q.
Proof.
  intros Hp Hl HQ. unfold GETSHORT.
  wp_step. apply wp_rd_byte; [lia|]. intros a Ha _.
  wp_step. apply wp_rd_byte; [lia|]. intros b Hb _.
  wp_step. rewrite (lor_shiftl a b 8) by (unfold is_byte in *; lia). apply HQ.
  unfold is_byte in *. lia.
Qed.

Lemma wp_GETLONG p (Q : Z * Z → Prop) :
  0 ≤ p → p + 4 ≤ zlen buf →
  (∀ v, 0 ≤ v < 4294967296 → Q (v, p + 4)) → wp (GETLONG buf p) Q.
Proof.
  intros Hp Hl HQ. unfold GETLONG.
  wp_step. apply wp_rd_byte; [lia|]. intros a Ha _.
  wp_step. apply wp_rd_byte; [lia|]. intros b Hb _.
  wp_step. apply wp_rd_byte; [lia|]. intros c Hc _.
  wp_step. apply wp_rd_byte; [lia|]. intros d Hd _.
  wp_step. apply HQ. unfold is_byte in *.
  assert (Z.lor (Z.lor (Z.lor (Z.shiftl a 24) (Z.shiftl b 16)) (Z.shiftl c 8)) d =
          Z.lor (Z.shiftl (Z.lor (Z.shiftl (Z.lor (Z.shiftl a 8) b) 8) c) 8) d) as ->.
  { rewrite !Z.shiftl_lor, !Z.shiftl_shiftl by lia. done. }
  rewrite (lor_shiftl a b 8), (lor_shiftl _ c 8), (lor_shiftl _ d 8) by lia. lia.
Qed.

Lemma wp_CHECK_LEN p len (Q : unit → Prop) :
  (p + len ≤ plen → Q tt) → wp (guard_ok (CHECK_LEN p plen len)) Q.
Proof. intros H. apply wp_guard_ok. unfold CHECK_LEN. intros ?. bool_hyps. auto. Qed.

Lemma wp_ADD_RDLEN p len (Q : Z → Prop) :
  (p + len ≤ plen → Q (p + len)) → wp (ADD_RDLEN p plen len) Q.
Proof. intros H. unfold ADD_RDLEN. wp_step. apply wp_CHECK_LEN. intros. wp_step. auto. Qed.

(** * Skipping *)

Lemma skip_name_loop_safe fuel ansp :
  0 ≤ ansp → plen - ansp < Z.of_nat fuel → 0 < Z.of_nat fuel →
  wp (skip_name_loop buf plen fuel ansp) (λ q, ansp < q).
Proof.
  revert ansp. induction fuel as [|fuel IH]; intros ansp Hp Hf Hf0; [lia|]. simpl.
  wp_step. apply wp_CHECK_LEN. intros Hc.
  wp_step. apply wp_rd_byte; [lia|]. intros b Hb _.
  wp_step; [wp_step; lia|]. wp_step; [wp_step|]. wp_step.
  - wp_step. apply wp_CHECK_LEN. intros Hc2. wp_step. wp_step.
    wp_step. apply wp_rd_byte; [lia|]. intros count Hcount _.
    assert (0 ≤ Z.shiftr (count - 1) 3 ∨ count = 0).
    { unfold is_byte in Hcount. destruct (Z.eq_dec count 0); [by right|left].
      apply Z.shiftr_nonneg. lia. }
    match goal with |- wp (skip_name_loop _ _ _ ?n) _ => assert (ansp + 2 ≤ n) end.
    { case_match; bool_hyps; lia. }
    eapply wp_mono; [apply IH; lia|]. intros q. simpl. lia.
  - wp_step. apply wp_ADD_RDLEN. intros Hadd.
    assert (0 ≤ Z.land b 63) by (apply Z.land_nonneg; lia).
    wp_step; [wp_step; lia|].
    eapply wp_mono; [apply IH; lia|]. intros q. simpl. lia.
Qed.

Lemma wp_skip_name ansp extra (Q : Z → Prop) :
  0 ≤ ansp → (∀ q, ansp < q → q + extra ≤ plen → Q q) →
  wp (skip_name buf plen ansp extra) Q.
Proof.
  intros Hp HQ. unfold skip_name. wp_step.
  eapply wp_mono; [apply skip_name_loop_safe; lia|]. intros q Hq.
  wp_step. apply wp_CHECK_LEN. intros. wp_step. by apply HQ.
Qed.

Lemma skip_questions_loop_safe q ansp :
  0 ≤ ansp ≤ plen → wp (skip_questions_loop buf plen q ansp) (λ r, ansp ≤ r ≤ plen).
Proof.
  revert ansp. induction q as [|q IH]; intros ansp Hp; simpl; [lia|].
  wp_step. apply wp_skip_name; [lia|]. intros r Hr Hl.
  eapply wp_mono; [apply IH; lia|]. simpl. lia.
Qed.

Lemma wp_qdcount (Q : Z → Prop) :
  HDRSZ ≤ plen → (∀ v, 0 ≤ v < 65536 → Q v) → wp (qdcount buf) Q.
Proof.
  unfold HDRSZ. intros. unfold qdcount. wp_step. apply wp_GETSHORT; [lia..|]. simpl. auto.
Qed.
Lemma wp_ancount (Q : Z → Prop) :
  HDRSZ ≤ plen → (∀ v, 0 ≤ v < 65536 → Q v) → wp (ancount buf) Q.
Proof.
  unfold HDRSZ. intros. unfold ancount. wp_step. apply wp_GETSHORT; [lia..|]. simpl. auto.
Qed.
Lemma wp_nscount (Q : Z → Prop) :
  HDRSZ ≤ plen → (∀ v, 0 ≤ v < 65536 → Q v) → wp (nscount buf) Q.
Proof.
  unfold HDRSZ. intros. unfold nscount. wp_step. apply wp_GETSHORT; [lia..|]. simpl. auto.
Qed.
Lemma wp_arcount (Q : Z → Prop) :
  HDRSZ ≤ plen → (∀ v, 0 ≤ v < 65536 → Q v) → wp (arcount buf) Q.
Proof.
  unfold HDRSZ. intros. unfold arcount. wp_step. apply wp_GETSHORT; [lia..|]. simpl. auto.
Qed.

Lemma wp_skip_questions (Q : Z → Prop) :
  HDRSZ ≤ plen → (∀ r, HDRSZ ≤ r ≤ plen → Q r) → wp (skip_questions buf plen) Q.
Proof.
  intros Hh HQ. unfold skip_questions. wp_step. apply wp_qdcount; [done|]. intros v Hv.
  eapply wp_mono; [apply skip_questions_loop_safe; unfold HDRSZ in *; lia|]. auto.
Qed.

Lemma wp_skip_section count ansp (Q : Z → Prop) :
  0 ≤ ansp ≤ plen → (∀ r, ansp ≤ r ≤ plen → Q r) → wp (skip_section buf plen count ansp) Q.
Proof.
  revert ansp Q. induction count as [|n IH]; intros ansp Q Hp HQ; simpl; [apply HQ; lia|].
  wp_step. apply wp_skip_name; [lia|]. intros q Hq Hl.
  wp_step. apply wp_GETSHORT; [lia..|]. intros rdlen Hrd. simpl.
  wp_step. apply wp_ADD_RDLEN. intros Hadd. apply IH; [lia|]. intros r Hr. apply HQ. lia.
Qed.

(** * Parsing names *)

Lemma copy_label_safe dnssec l p out :
  0 ≤ p → p + Z.of_nat l ≤ plen →
  wp (copy_label dnssec buf l p out) (λ '(q, out'),
    q = p + Z.of_nat l ∧
    zlen out' ≤ zlen out + (if dnssec then 2 else 1) * Z.of_nat l ∧
    (Forall (λ c, 1 ≤ c < 256) out → Forall (λ c, 1 ≤ c < 256) out')).
Proof.
  revert p out. induction l as [|l IH]; intros p out Hp Hl.
  { simpl. split_and!; [lia|lia|done]. }
  cbn [copy_label]. wp_step. apply wp_rd_byte; [lia|]. intros c Hc _.
  assert (∀ (t : list Z), zlen t ≤ (if dnssec then 2 else 1) → Forall (λ c, 1 ≤ c < 256) t →
    wp (copy_label dnssec buf l (p + 1) (out ++ t)) (λ '(q, out'),
      q = p + Z.of_nat (S l) ∧
      zlen out' ≤ zlen out + (if dnssec then 2 else 1) * Z.of_nat (S l) ∧
      (Forall (λ c, 1 ≤ c < 256) out → Forall (λ c, 1 ≤ c < 256) out'))) as Hstep.
  { intros t Ht Hw. eapply wp_mono; [apply IH; lia|]. intros [q out'] (-> & Hlen & Hf).
    rewrite zlen_app in Hlen. split_and!; [lia| |].
    - destruct dnssec; lia.
    - intros Ho. apply Hf. by apply Forall_app. }
  unfold is_byte, NAME_ESCAPE, dot in *. destruct dnssec.
  - wp_step; apply Hstep; try done.
    + apply Forall_cons; split; [lia|]. apply Forall_singleton. unfold u8. dlia.
    + bool_hyps. apply Forall_singleton. lia.
  - wp_step; [|done]. apply Hstep; [done|]. bool_hyps. apply Forall_singleton. lia.
Qed.

(** The name compared with has no escape the parser could split. *)
Definition no_escape (dnssec : bool) (cp : cstring) : Prop :=
  dnssec = true → NAME_ESCAPE ∉ cp.

Lemma no_escape_tail dnssec c cp : no_escape dnssec (c :: cp) → no_escape dnssec cp.
Proof. intros H Hd. specialize (H Hd). set_solver. Qed.

Lemma compare_label_safe dnssec l p cp ret :
  no_escape dnssec cp → 0 ≤ p → p + Z.of_nat l ≤ plen →
  wp (compare_label dnssec buf l p cp ret) (λ '(q, cp', ret'),
    q = p + Z.of_nat l ∧ no_escape dnssec cp' ∧ (ret' = ret ∨ ret' = 2)).
Proof.
  revert p cp ret. induction l as [|l IH]; intros p cp ret Hn Hp Hl.
  { simpl. split_and!; [lia|done|auto]. }
  cbn [compare_label]. wp_step. apply wp_rd_byte; [lia|]. intros c2 Hc _.
  assert (∀ cp' ret'', no_escape dnssec cp' → (ret'' = ret ∨ ret'' = 2) →
    wp (compare_label dnssec buf l (p + 1) cp' ret'') (λ '(q, cp', ret'),
      q = p + Z.of_nat (S l) ∧ no_escape dnssec cp' ∧ (ret' = ret ∨ ret' = 2))) as Hstep.
  { intros cp' ret'' Hn' Hr. eapply wp_mono; [apply IH; [done|lia..]|].
    intros [[q cp''] r] (-> & ? & ?). split_and!; [lia|done|naive_solver]. }
  wp_step; [by apply Hstep; auto|]. destruct cp as [|c cp]; [done|]. simpl.
  apply no_escape_tail in Hn as Hn'. wp_step.
  - exfalso. bool_hyps. subst dnssec. apply (Hn eq_refl).
    assert (c = NAME_ESCAPE) as -> by (unfold NAME_ESCAPE, lower in *; case_match; lia).
    set_solver.
  - apply Hstep; [done|]. case_match; auto.
Qed.

Section name.
Context (dnssec : bool) (extrabytes : Z).

(** Text grows by at most two characters per byte of the name. *)
Let k : Z := if dnssec then 2 else 1.

Record en_inv (isExtract : bool) (st : ename) : Prop := {
  ei_p : 0 ≤ en_p st;
  ei_p1 : 0 ≤ default 0 (en_p1 st);
  ei_namelen : 0 ≤ en_namelen st < MAXDNAME;
  ei_hops : 0 ≤ en_hops st ≤ 255;
  ei_ret : en_ret st = 1 ∨ (isExtract = false ∧ en_ret st = 2);
  ei_out : isExtract = true →
    zlen (en_cp st) ≤ k * en_namelen st ∧ Forall (λ c, 1 ≤ c < 256) (en_cp st);
  ei_cmp : isExtract = false → no_escape dnssec (en_cp st)
}.

Definition en_measure (st : ename) : Z := (MAXDNAME - en_namelen st) + 2 * (256 - en_hops st).

Lemma extract_text_safe isExtract st l :
  en_inv isExtract st → 1 ≤ l < 64 →
  wp (extract_text dnssec buf plen isExtract st l)
     (λ st', en_inv isExtract st' ∧ en_measure st' + 2 ≤ en_measure st).
Proof.
  intros [Hp Hp1 Hnl Hh Hr Ho Hc] Hl. unfold extract_text. wp_step. wp_step. bool_hyps.
  wp_step. apply wp_CHECK_LEN. intros Hcl. wp_step.
  - subst isExtract. destruct (Ho eq_refl) as [Hlen Hw]. wp_step.
    eapply wp_mono; [apply copy_label_safe; lia|]. intros [q out] (-> & Hl' & Hf). wp_step.
    split; [|unfold en_measure; simpl; lia]. split; simpl; try done; try lia.
    intros _. rewrite zlen_app. change (zlen [dot]) with 1. split; [subst k; destruct dnssec; lia|].
    apply Forall_app. split; [by apply Hf|]. apply Forall_singleton. unfold dot. lia.
  - subst isExtract. wp_step.
    eapply wp_mono; [apply compare_label_safe; [by apply Hc|lia..]|].
    intros [[q cp] r] (-> & Hn & Hr').
    assert (r = 1 ∨ r = 2) by naive_solver.
    destruct cp as [|c cp]; wp_step; (split; [|unfold en_measure; simpl; lia]);
      split; simpl; first [done|lia|case_match; naive_solver|idtac].
    intros _. by eapply no_escape_tail.
Qed.

Lemma extract_jump_safe isExtract st l :
  en_inv isExtract st → is_byte l →
  wp (extract_jump buf plen st l) (λ st', en_inv isExtract st' ∧ en_measure st' + 2 ≤ en_measure st).
Proof.
  intros [Hp Hp1 Hnl Hh Hr Ho Hc] Hl. unfold extract_jump. wp_step. apply wp_CHECK_LEN.
  intros Hcl. wp_step. apply wp_rd_byte; [lia|]. intros b Hb _. wp_step. wp_step. wp_step.
  bool_hyps. split; [|unfold en_measure; simpl; lia]. split; simpl; try done; try lia.
  - apply Z.lor_nonneg. split; [|unfold is_byte in *; lia].
    apply Z.shiftl_nonneg, Z.land_nonneg. lia.
  - destruct (en_p1 st); simpl in *; lia.
Qed.

Lemma extract_end_safe isExtract st :
  en_inv isExtract st → 0 ≤ extrabytes →
  wp (extract_end plen isExtract extrabytes st) (λ '(ret, q, out),
    0 ≤ q ∧ q + extrabytes ≤ plen ∧ (ret = 1 ∨ (isExtract = false ∧ ret = 2)) ∧
    (isExtract = true → zlen out < k * MAXDNAME ∧ Forall (λ c, 1 ≤ c < 256) out)).
Proof.
  intros [Hp Hp1 Hnl Hh Hr Ho Hc] He. unfold extract_end. wp_step. apply wp_CHECK_LEN.
  intros Hcl. assert (0 ≤ default (en_p st) (en_p1 st)) by (destruct (en_p1 st); done).
  wp_step; wp_step; split_and!; try done.
  - intros Hx. destruct (Ho Hx) as [Hlen Hw].
    assert (zlen (removelast (en_cp st)) ≤ zlen (en_cp st) ∧
            Forall (λ c, 1 ≤ c < 256) (removelast (en_cp st))) as [? ?].
    { destruct (en_cp st) as [|c0 cs _] using rev_ind; [done|].
      rewrite removelast_last, zlen_app. apply Forall_app in Hw as [? _].
      split; [change (zlen [c0]) with 1; lia|done]. }
    split; [|done]. subst k. destruct dnssec; lia.
  - case_match; naive_solver.
  - congruence.
Qed.

Lemma extract_loop_safe isExtract fuel st :
  en_inv isExtract st → 0 ≤ extrabytes → en_measure st < 2 * Z.of_nat fuel →
  wp (extract_loop dnssec buf plen isExtract extrabytes fuel st) (λ '(ret, q, out),
    0 ≤ q ∧ q + extrabytes ≤ plen ∧ (ret = 1 ∨ (isExtract = false ∧ ret = 2)) ∧
    (isExtract = true → zlen out < k * MAXDNAME ∧ Forall (λ c, 1 ≤ c < 256) out)).
Proof.
  revert st. induction fuel as [|fuel IH]; intros st Hi He Hm.
  { destruct Hi. unfold en_measure in Hm. lia. }
  cbn [extract_loop]. wp_step. apply wp_CHECK_LEN. intros Hc.
  wp_step. apply wp_rd_byte; [destruct Hi; lia|]. intros l Hl _.
  assert (en_inv isExtract (en_advance st)) as Hi' by (destruct Hi; split; simpl; try done; lia).
  change (en_measure st) with (en_measure (en_advance st)) in Hm.
  wp_step; [by apply extract_end_safe|]. wp_step.
  - wp_step. eapply wp_mono; [by apply extract_jump_safe|]. intros st' [? ?].
    apply IH; [done..|lia].
  - wp_step; [|done]. wp_step. eapply wp_mono; [apply extract_text_safe; [done|]|].
    + assert (0 ≤ l < 64); [|bool_hyps; lia].
      assert (implb (Z.land l 192 =? 0) (l <? 64) = true) as Hcase.
      { by apply (byte_cases (λ l, implb (Z.land l 192 =? 0) (l <? 64))). }
      unfold is_byte in Hl. destruct (Z.land l 192 =? 0); simpl in Hcase; [lia|done].
    + intros st' [? ?]. apply IH; [done..|lia].
Qed.
End name.
End packet.

Lemma extract_name_wp dnssec buf plen p name isExtract extrabytes :
  Forall is_byte buf → 0 ≤ plen ≤ zlen buf → 0 ≤ p → 0 ≤ extrabytes →
  (isExtract = false → no_escape dnssec name) →
  wp (extract_name dnssec buf plen p name isExtract extrabytes) (λ '(ret, q, out),
    0 ≤ q ∧ q + extrabytes ≤ plen ∧ (ret = 1 ∨ (isExtract = false ∧ ret = 2)) ∧
    (isExtract = true → zlen out < (if dnssec then 2 else 1) * MAXDNAME ∧ wf_cstring out)).
Proof.
  intros Hb Hpl Hp He Hn. unfold extract_name. wp_step.
  eapply wp_mono; [apply extract_loop_safe; try done|].
  - split; simpl; unfold MAXDNAME; try done; try lia; auto.
    + intros ->. rewrite zlen_nil. split; [lia|constructor].
    + intros ->. auto.
  - intros [[ret q] out] (? & ? & ? & Ho). wp_step. split_and!; try done.
    intros ->. by apply Ho.
Qed.

(** C5. Whatever bytes a packet holds and wherever parsing starts,
    [extract_name] reads only inside the first [plen] bytes (the packet may be
    exactly that long), terminates, leaves [extrabytes] bytes available after
    the name and writes at most MAXDNAME characters with the terminator (twice
    as many when escapes are on), none of them a NUL. When comparing with
    escapes on, the name compared with must not contain the escape character. *)
Theorem extract_name_safe dnssec buf plen p name isExtract extrabytes :
  Forall is_byte buf → 0 ≤ plen ≤ zlen buf → 0 ≤ p → 0 ≤ extrabytes →
  (isExtract = false → no_escape dnssec name) →
  wp (extract_name dnssec buf plen p name isExtract extrabytes) (λ '(ret, q, out),
    0 ≤ q ∧ q + extrabytes ≤ plen ∧ (ret = 1 ∨ (isExtract = false ∧ ret = 2)) ∧
    (isExtract = true → zlen out < (if dnssec then 2 else 1) * MAXDNAME ∧ wf_cstring out)).
Proof. apply extract_name_wp. Qed.

Lemma extract_name_safe_witness :
  wp (extract_name false [3; 119; 119; 119; 0; 0; 1; 0; 1] 9 0 [] true 4) (λ '(ret, q, out),
    0 ≤ q ∧ q + 4 ≤ 9 ∧ (ret = 1 ∨ (true = false ∧ ret = 2)) ∧
    (true = true → zlen out < 1 * MAXDNAME ∧ wf_cstring out)).
Proof.
  apply (extract_name_safe false); [|unfold zlen; simpl; lia|lia|lia|done].
  unfold is_byte. repeat constructor; lia.
Defined.

(** With escapes on, a name holding an escape can be split by a label boundary
    that does not match it: the comparison then treats the escaped character as
    an escape and steps over the name's terminator. Here the name is one label
    [a] followed by an escaped NUL, the packet has the labels [a] and [bc]. *)
Lemma compare_steps_over_terminator :
  extract_name true [1; 97; 2; 98; 99; 0] 6 0 [97; NAME_ESCAPE; 1] false 0 = Oob.
Proof. reflexivity. Qed.
