(* ===== verification/WireSpec.v ===== *)
(** The meaning of a name in a packet, as a relation ([name_at]), and the
    refinement of [extract_name] to it: what is extracted, what comparing
    answers, and the round trip with the writer [do_rfc1035_name]. *)
From S2P Require Import Prelude Hostname Wire WireSafe.

(** * The specification *)

(** The [n] bytes of a packet from offset [p]. *)
Definition slice (buf : list Z) (p : Z) (n : nat) : list Z := take n (drop (Z.to_nat p) buf).

(** [name_at buf plen p L e h]: the name that starts at [p] has the labels [L]
    once the compression pointers are followed, [h] of them, and its own
    encoding ends just before [e]. *)
Inductive name_at (buf : list Z) (plen : Z) : Z → list (list Z) → Z → nat → Prop :=
| na_end p :
    p + 1 ≤ plen → rd buf p = Ok 0 → name_at buf plen p [] (p + 1) 0
| na_label p l L e h :
    p + 1 ≤ plen → rd buf p = Ok l → 1 ≤ l < 64 → p + 1 + l ≤ plen →
    name_at buf plen (p + 1 + l) L e h →
    name_at buf plen p (slice buf (p + 1) (Z.to_nat l) :: L) e h
| na_pointer p l b L e h :
    p + 2 ≤ plen → rd buf p = Ok l → Z.land l 192 = 192 → rd buf (p + 1) = Ok b →
    name_at buf plen (Z.lor (Z.shiftl (Z.land l 63) 8) b) L e h →
    name_at buf plen p L (p + 2) (S h).

(** One byte of a label as text: [None] when it cannot be represented. *)
Definition enc_byte (dnssec : bool) (c : Z) : option cstring :=
  if dnssec then
    if (c =? 0) || (c =? dot) || (c =? NAME_ESCAPE) then Some [NAME_ESCAPE; u8 (c + 1)] else Some [c]
  else if negb (c =? 0) && negb (c =? dot) then Some [c] else None.

Fixpoint enc_label (dnssec : bool) (bs : list Z) : option cstring :=
  match bs with
  | [] => Some []
  | c :: bs => t ← enc_byte dnssec c; u ← enc_label dnssec bs; Some (t ++ u)
  end.

(** Each label followed by a dot. *)
Fixpoint text (dnssec : bool) (L : list (list Z)) : option cstring :=
  match L with
  | [] => Some []
  | l :: L => t ← enc_label dnssec l; u ← text dnssec L; Some (t ++ dot :: u)
  end.

(** The presentation form: labels separated by dots, no final dot. *)
Definition render (dnssec : bool) (L : list (list Z)) : option cstring := @removelast Z <$> text dnssec L.

(** Bytes the labels take on the wire, the final zero apart. *)
Definition wire_len (L : list (list Z)) : Z := foldr (λ l n, zlen l + 1 + n) 0 L.

(** * Extraction *)

Lemma slice_S buf p n b :
  0 ≤ p → rd buf p = Ok b → slice buf p (S n) = b :: slice buf (p + 1) n.
Proof.
  unfold rd, slice. intros Hp. destruct (Z.ltb_spec p 0); [lia|].
  destruct (buf !! Z.to_nat p) eqn:E; [|done]. intros [= ->].
  rewrite (drop_S _ _ _ E). replace (Z.to_nat (p + 1)) with (S (Z.to_nat p)) by lia. done.
Qed.

Lemma length_slice buf p n : 0 ≤ p → p + Z.of_nat n ≤ zlen buf → length (slice buf p n) = n.
Proof. unfold slice, zlen. intros. rewrite length_take, length_drop. lia. Qed.

(** Labels followed by dots, byte for byte: what a name is compared with. *)
Fixpoint raw (L : list (list Z)) : list Z :=
  match L with [] => [] | l :: L => l ++ dot :: raw L end.

Lemma copy_label_spec dnssec buf l p out :
  0 ≤ p → p + Z.of_nat l ≤ zlen buf →
  copy_label dnssec buf l p out =
    match enc_label dnssec (slice buf p l) with
    | Some t => Ok (p + Z.of_nat l, out ++ t)
    | None => Bad
    end.
Proof.
  revert p out. induction l as [|l IH]; intros p out Hp Hl.
  { unfold slice. rewrite take_0. cbn [copy_label enc_label]. rewrite app_nil_r. do 2 f_equal. lia. }
  destruct (rd_in buf p) as (c & Hc & _); [lia|]. rewrite (slice_S _ _ _ c) by done.
  cbn [copy_label enc_label]. rewrite Hc. cbn [mbind res_bind]. unfold enc_byte.
  destruct dnssec; case_match; cbn [mbind option_bind]; try done.
  all: rewrite IH by lia; case_match; cbn [mbind option_bind]; [|done].
  all: rewrite <- app_assoc; do 2 f_equal; lia.
Qed.

Lemma take_S_cons {A} n (x : A) l : take (S n) (x :: l) = x :: take n l.
Proof. done. Qed.

Lemma ci_eq_cons a b x y : ci_eq (x :: a) (y :: b) ↔ lower x = lower y ∧ ci_eq a b.
Proof. unfold ci_eq. rewrite !fmap_cons. split; [by intros [= ? ?]|by intros [-> ->]]. Qed.
Lemma ci_eq_nil_l b : ci_eq [] b ↔ b = [].
Proof. unfold ci_eq. split; [|by intros ->]. by destruct b. Qed.
Lemma ci_eq_nil_r a : ci_eq a [] ↔ a = [].
Proof. unfold ci_eq. split; [|by intros ->]. by destruct a. Qed.

Lemma compare_label_spec buf l p cp ret :
  wf_cstring cp → 0 ≤ p → p + Z.of_nat l ≤ zlen buf →
  compare_label false buf l p cp ret =
    Ok (p + Z.of_nat l, drop l cp, if decide (ci_eq (take l cp) (slice buf p l)) then ret else 2).
Proof.
  revert p cp ret. induction l as [|l IH]; intros p cp ret Hw Hp Hl.
  { unfold slice. rewrite !take_0, drop_0, decide_True by done. cbn [compare_label]. do 3 f_equal. lia. }
  destruct (rd_in buf p) as (c2 & Hc & _); [lia|]. rewrite (slice_S _ _ _ c2) by done.
  cbn [compare_label]. rewrite Hc. cbn [mbind res_bind andb].
  destruct Hw as [|c1 cp Hc1 Hw].
  - cbn [deref]. rewrite Z.eqb_refl, IH by (done || constructor || lia). rewrite drop_nil, take_nil.
    rewrite (decide_False (P := ci_eq [] (c2 :: _))) by (rewrite ci_eq_nil_l; done).
    case_decide; do 3 f_equal; lia.
  - cbn [deref tail]. rewrite (proj2 (Z.eqb_neq c1 0)) by lia. rewrite IH by (done || lia).
    rewrite take_S_cons. cbn [drop].
    rewrite (decide_ext _ _ _ _ (ci_eq_cons _ _ _ _)).
    destruct (Z.eqb_spec (lower c1) (lower c2)); repeat case_decide; try tauto; do 3 f_equal; lia.
Qed.

(** What one label does to the text pointer and the result, in either mode;
    comparing is specified for names without escapes. *)
Definition label_step (dnssec isExtract : bool) (l : list Z) (s : cstring * Z) : option (cstring * Z) :=
  let '(cp, ret) := s in
  if isExtract then t ← enc_label dnssec l; Some (cp ++ t ++ [dot], ret)
  else
    let ret := if decide (ci_eq (take (length l) cp) l) then ret else 2 in
    match drop (length l) cp with
    | [] => Some ([], ret)
    | c :: cp => Some (cp, if c =? dot then ret else 2)
    end.

#[local] Arguments label_step : simpl never.

Fixpoint label_steps (dnssec isExtract : bool) (L : list (list Z)) (s : cstring * Z)
    : option (cstring * Z) :=
  match L with
  | [] => Some s
  | l :: L => s ← label_step dnssec isExtract l s; label_steps dnssec isExtract L s
  end.

Definition finish (isExtract : bool) (s : cstring * Z) : Z * cstring :=
  let '(cp, ret) := s in
  if isExtract then (ret, removelast cp) else (if deref cp =? 0 then ret else 2, cp).

Section extract.
Context (dnssec isExtract : bool) (buf : list Z) (plen extrabytes : Z).
Hypothesis (Hbytes : Forall is_byte buf).
Hypothesis (Hplen : 0 ≤ plen ≤ zlen buf).
Hypothesis (Hmode : isExtract = true ∨ dnssec = false).

Let text_ok (cp : cstring) : Prop := isExtract = true ∨ wf_cstring cp.

(** What the loop run from the state [st] amounts to. *)
Definition extracts (st : ename) (fuel : nat) (r : Z * Z * cstring) : Prop :=
  ∃ L e h s,
    name_at buf plen (en_p st) L e h ∧ en_hops st + Z.of_nat h ≤ 255 ∧
    en_namelen st + wire_len L < MAXDNAME ∧
    label_steps dnssec isExtract L (en_cp st, en_ret st) = Some s ∧
    default e (en_p1 st) + extrabytes ≤ plen ∧ (length L + h < fuel)%nat ∧
    r = ((finish isExtract s).1, default e (en_p1 st), (finish isExtract s).2).

Lemma byte_at i b : rd buf i = Ok b → is_byte b.
Proof.
  unfold rd. destruct (i <? 0); [done|]. destruct (buf !! Z.to_nat i) eqn:E; [|done].
  intros [= <-]. by eapply Forall_lookup_1.
Qed.

Lemma label_len l : is_byte l → Z.land l 192 = 0 → 0 ≤ l < 64.
Proof.
  intros Hl Ht.
  assert (implb (Z.land l 192 =? 0) (l <? 64) = true) as Hc.
  { by apply (byte_cases (λ l, implb (Z.land l 192 =? 0) (l <? 64))). }
  rewrite Ht in Hc. unfold is_byte in Hl. simpl in Hc. lia.
Qed.
Lemma label_type l : 1 ≤ l < 64 → Z.land l 192 = 0.
Proof.
  intros Hl.
  assert (implb ((1 <=? l) && (l <? 64)) (Z.land l 192 =? 0) = true) as Hc.
  { apply (byte_cases (λ l, implb ((1 <=? l) && (l <? 64)) (Z.land l 192 =? 0))); [unfold is_byte; lia|].
    reflexivity. }
  replace ((1 <=? l) && (l <? 64)) with true in Hc by lia. simpl in Hc. lia.
Qed.

Lemma wire_len_nonneg L : 2 * zlen L ≤ wire_len L + zlen L ∧ 0 ≤ wire_len L.
Proof.
  induction L as [|l L IH]; simpl; [done|]. rewrite zlen_cons. pose proof (zlen_nonneg l). lia.
Qed.

Lemma extract_end_ok st r :
  extract_end plen isExtract extrabytes st = Ok r ↔
  default (en_p st) (en_p1 st) + extrabytes ≤ plen ∧
  r = ((finish isExtract (en_cp st, en_ret st)).1, default (en_p st) (en_p1 st),
       (finish isExtract (en_cp st, en_ret st)).2).
Proof.
  unfold extract_end. rewrite guard_ok_bind. unfold CHECK_LEN. rewrite Z.leb_le.
  destruct isExtract; naive_solver.
Qed.

Lemma extract_jump_ok st l st' :
  extract_jump buf plen st l = Ok st' ↔
  en_p st + 1 ≤ plen ∧ en_hops st + 1 ≤ 255 ∧ ∃ b, rd buf (en_p st) = Ok b ∧
  st' = EName (Z.lor (Z.shiftl (Z.land l 63) 8) b) (Some (default (en_p st + 1) (en_p1 st)))
          (en_cp st) (en_namelen st) (en_hops st + 1) (en_ret st).
Proof.
  unfold extract_jump. rewrite guard_ok_bind, bind_ok. setoid_rewrite guard_ok_bind.
  unfold CHECK_LEN. rewrite Z.leb_le. setoid_rewrite negb_true_iff. setoid_rewrite Z.ltb_ge.
  destruct (en_p1 st); naive_solver.
Qed.

Lemma extract_text_ok st l st' :
  0 ≤ en_p st → 0 ≤ l → text_ok (en_cp st) →
  extract_text dnssec buf plen isExtract st l = Ok st' ↔
  en_namelen st + l + 1 < MAXDNAME ∧ en_p st + l ≤ plen ∧
  ∃ s, label_step dnssec isExtract (slice buf (en_p st) (Z.to_nat l)) (en_cp st, en_ret st) = Some s ∧
  st' = EName (en_p st + l) (en_p1 st) s.1 (en_namelen st + l + 1) (en_hops st) s.2.
Proof.
  intros Hp Hl Hcp. unfold extract_text. rewrite !guard_ok_bind. unfold CHECK_LEN.
  rewrite Z.leb_le, negb_true_iff, Z.leb_gt.
  assert (∀ P Q R : Prop, (Q → (P ↔ R)) → (Q ∧ P ↔ Q ∧ R)) as Hand by tauto.
  do 2 (apply Hand; intros ?). unfold label_step. rewrite length_slice by lia.
  destruct isExtract.
  - rewrite copy_label_spec by lia. destruct (enc_label _ _) as [t|]; simpl; [|naive_solver].
    rewrite Z2Nat.id by lia. rewrite <- app_assoc. naive_solver.
  - destruct Hmode as [|Hd]; [done|]. destruct Hcp as [|Hw]; [done|]. rewrite Hd.
    rewrite compare_label_spec by (done || lia). simpl. rewrite Z2Nat.id by lia.
    destruct (drop _ _); naive_solver.
Qed.

Lemma label_step_ok l s s' :
  label_step dnssec isExtract l s = Some s' → text_ok s.1 → text_ok s'.1.
Proof.
  unfold label_step, text_ok. destruct s as [cp ret]. intros H [?|Hw]; [by left|]. simpl in *.
  destruct isExtract; [by left|right]. pose proof (Forall_drop _ (length l) _ Hw) as Hd.
  destruct (drop _ cp); simplify_eq/=; [constructor|]. by apply Forall_cons in Hd as [_ ?].
Qed.

Lemma extract_loop_S fuel st r :
  extract_loop dnssec buf plen isExtract extrabytes (S fuel) st = Ok r ↔
  en_p st + 1 ≤ plen ∧ ∃ l, rd buf (en_p st) = Ok l ∧
  ((l = 0 ∧ extract_end plen isExtract extrabytes (en_advance st) = Ok r) ∨
   (Z.land l 192 = 192 ∧ ∃ st', extract_jump buf plen (en_advance st) l = Ok st' ∧
      extract_loop dnssec buf plen isExtract extrabytes fuel st' = Ok r) ∨
   (1 ≤ l < 64 ∧ ∃ st', extract_text dnssec buf plen isExtract (en_advance st) l = Ok st' ∧
      extract_loop dnssec buf plen isExtract extrabytes fuel st' = Ok r)).
Proof.
  cbn [extract_loop]. rewrite guard_ok_bind, bind_ok. unfold CHECK_LEN. rewrite Z.leb_le.
  split; intros (Hle & l & Hrd & H); (split; [done|]); exists l; (split; [done|]).
  - pose proof (byte_at _ _ Hrd) as Hb. destruct (Z.eqb_spec l 0); [by left|].
    destruct (Z.eqb_spec (Z.land l 192) 192); [rewrite bind_ok in H; auto|].
    destruct (Z.eqb_spec (Z.land l 192) 0) as [E|]; [|done]. rewrite bind_ok in H.
    pose proof (label_len l Hb E). right. right. split; [lia|done].
  - destruct H as [[-> H]|[[E H]|[E H]]]; [done| |].
    + destruct (Z.eqb_spec l 0) as [->|]; [done|]. rewrite E. simpl. by rewrite bind_ok.
    + rewrite (proj2 (Z.eqb_neq l 0)) by lia. rewrite (label_type l E). simpl. by rewrite bind_ok.
Qed.

Lemma jump_target l i b : rd buf i = Ok b → 0 ≤ Z.lor (Z.shiftl (Z.land l 63) 8) b.
Proof.
  intros Hb%byte_at. unfold is_byte in Hb. apply Z.lor_nonneg. split; [|lia].
  apply Z.shiftl_nonneg, Z.land_nonneg. lia.
Qed.

Lemma slice_zlen p l : 0 ≤ p → 0 ≤ l → p + l ≤ plen → zlen (slice buf p (Z.to_nat l)) = l.
Proof. intros. unfold zlen. rewrite length_slice; lia. Qed.

Lemma extract_loop_extracts fuel st r :
  0 ≤ en_p st → en_namelen st < MAXDNAME → en_hops st ≤ 255 → text_ok (en_cp st) →
  extract_loop dnssec buf plen isExtract extrabytes fuel st = Ok r ↔ extracts st fuel r.
Proof.
  revert st. induction fuel as [|fuel IH]; intros st Hp Hn Hh Hcp.
  { split; [done|]. intros (L & e & h & t & ? & ? & ? & ? & ? & ? & ?). lia. }
  rewrite extract_loop_S. split.
  - intros (Hle & l & Hrd & [[-> H]|[[E (st' & Hj & H)]|[E (st' & Ht & H)]]]).
    + apply extract_end_ok in H as [Hx ->]. exists [], (en_p st + 1), O, (en_cp st, en_ret st).
      simpl. split_and!; try done; try lia. by constructor.
    + apply extract_jump_ok in Hj as (Hj1 & Hj2 & b & Hb & ->).
      apply IH in H as (L & e & h & t & Hna & Hh' & Hw & Ht & Hx & Hf & ->);
        simpl in *; [|by eapply jump_target|lia..|done].
      exists L, (en_p st + 2), (S h), t. simpl.
      replace (en_p st + 1 + 1) with (en_p st + 2) in * by lia.
      split_and!; try done; try lia. by econstructor; [lia|..].
    + apply extract_text_ok in Ht as (Ht1 & Ht2 & u & Hu & ->); [|simpl; lia..|done].
      pose proof (label_step_ok _ _ _ Hu Hcp) as Hcp'.
      apply IH in H as (L & e & h & t & Hna & Hh' & Hw & Ht & Hx & Hf & ->); simpl in *; [|lia..|done].
      exists (slice buf (en_p st + 1) (Z.to_nat l) :: L), e, h, t. simpl.
      rewrite slice_zlen, Hu by lia. simpl. rewrite <- surjective_pairing in Ht.
      split_and!; try done; try lia. by econstructor.
  - intros (L & e & h & t & Hna & Hh' & Hw & Ht & Hx & Hf & ->).
    inversion Hna as [p ? Hrd|p l L' ? ? ? Hrd Hl Hpl Hna'|p l b ? e' h' ? Hrd Hl Hb Hna']; subst.
    + split; [done|]. exists 0. split; [done|]. left. split; [done|].
      apply extract_end_ok. simpl in *. by simplify_eq.
    + split; [done|]. exists l. split; [done|]. right. right. split; [done|].
      simpl in Ht. destruct (label_step _ _ _ _) as [u|] eqn:Hu; [|done].
      simpl in Ht, Hw, Hf. rewrite slice_zlen in Hw by lia. pose proof (wire_len_nonneg L').
      pose proof (label_step_ok _ _ _ Hu Hcp) as Hcp'.
      eexists. split; [apply extract_text_ok; [simpl; lia..|done|]|].
      * simpl. split_and!; [lia|lia|]. by exists u.
      * apply IH; simpl; [lia..|done|]. exists L', e, h, t. simpl. rewrite <- surjective_pairing.
        split_and!; try done; lia.
    + split; [lia|]. exists l. split; [done|]. right. left. split; [done|].
      eexists. split; [apply extract_jump_ok|].
      * simpl. split_and!; [lia|lia|]. by exists b.
      * apply IH; simpl; [by eapply jump_target|lia..|done|]. exists L, e', h', t. simpl in *.
        replace (en_p st + 1 + 1) with (en_p st + 2) by lia. split_and!; try done; lia.
Qed.
End extract.

Lemma label_steps_extract dnssec L cp ret :
  label_steps dnssec true L (cp, ret) = (λ t, (cp ++ t, ret)) <$> text dnssec L.
Proof.
  revert cp. induction L as [|l L IH]; intros cp; simpl; [by rewrite app_nil_r|].
  unfold label_step. destruct (enc_label dnssec l) as [t|]; simpl; [|done]. rewrite IH.
  destruct (text dnssec L) as [u|]; simpl; [|done]. by rewrite <- !app_assoc.
Qed.

(** A name matches labels when it is their text up to case; a final dot may
    follow, except for the root. *)
Definition name_matches (cp : cstring) (L : list (list Z)) : Prop :=
  ci_eq (cp ++ [dot]) (raw L) ∨ ci_eq cp (raw L).

#[export] Instance name_matches_dec cp L : Decision (name_matches cp L).
Proof. unfold name_matches. apply _. Defined.

Lemma ci_eq_app_len a b a' b' :
  length a = length a' → ci_eq (a ++ b) (a' ++ b') ↔ ci_eq a a' ∧ ci_eq b b'.
Proof.
  intros Hl. unfold ci_eq. rewrite !fmap_app. split; [|by intros [-> ->]].
  intros H. apply app_inj_1 in H; [done|]. by rewrite !length_fmap.
Qed.

Lemma raw_nil_matches L : Forall (λ l, l ≠ []) L → name_matches [] L ↔ L = [].
Proof.
  intros H. split; [|intros ->; by right]. destruct H as [|l L Hl HL]; [done|].
  intros [E%ci_eq_length|E%ci_eq_length]; simpl in E; rewrite length_app in E; simpl in E;
    destruct l; simpl in *; try done; lia.
Qed.

Lemma name_matches_cons cp l L :
  name_matches cp (l :: L) ↔
  ci_eq (take (length l) cp) l ∧
  match drop (length l) cp with
  | [] => L = []
  | c :: cp => c = dot ∧ name_matches cp L
  end.
Proof.
  unfold name_matches. simpl. rewrite <- (take_drop (length l) cp) at 1 2.
  destruct (decide (length l ≤ length cp)%nat) as [Hle|Hgt].
  - assert (length (take (length l) cp) = length l) as Hl by (rewrite length_take; lia).
    rewrite <- app_assoc, !ci_eq_app_len by done.
    destruct (drop (length l) cp) as [|c cp'].
    + simpl. rewrite ci_eq_nil_l, ci_eq_cons, ci_eq_nil_l. split.
      * intros [(? & ? & Hr)|[? ?]]; [|done]. split; [done|]. destruct L; [done|].
        simpl in Hr. by destruct l0.
      * intros [? ->]. by left.
    + simpl. rewrite !ci_eq_cons. change (lower dot) with 46.
      rewrite lower_dot. unfold dot. tauto.
  - rewrite (drop_ge cp), app_nil_r by lia. rewrite (take_ge cp) by lia.
    split; [|by intros [E%ci_eq_length _]; lia].
    intros [E%ci_eq_length|E%ci_eq_length]; rewrite ?length_app in E; simpl in E; lia.
Qed.

Lemma label_steps_compare L cp ret :
  Forall (λ l, l ≠ []) L → wf_cstring cp → (ret = 1 ∨ ret = 2) →
  ∃ s, label_steps false false L (cp, ret) = Some s ∧
       (finish false s).1 = if decide (name_matches cp L) then ret else 2.
Proof.
  intros HL. revert cp ret. induction HL as [|l L Hl HL IH]; intros cp ret Hw Hr.
  - exists (cp, ret). split; [done|]. simpl.
    destruct Hw as [|c cp Hc Hw]; [done|]. cbn [deref].
    rewrite (proj2 (Z.eqb_neq c 0)) by lia. rewrite decide_False; [done|].
    intros [E%ci_eq_length|E%ci_eq_length]; simpl in E; lia.
  - pose proof (Forall_drop _ (length l) _ Hw) as Hd.
    pose proof (name_matches_cons cp l L) as Hm. cbn [label_steps]. unfold label_step.
    destruct (drop (length l) cp) as [|c cp'].
    + cbn [mbind option_bind].
      destruct (IH [] (if decide (ci_eq (take (length l) cp) l) then ret else 2)) as (s & Hs & Hf);
        [constructor|case_decide; auto|].
      exists s. split; [done|]. rewrite Hf. rewrite <- (raw_nil_matches L HL) in Hm.
      repeat case_decide; tauto.
    + cbn [mbind option_bind]. apply Forall_cons in Hd as [_ Hd].
      destruct (IH cp' (if c =? dot then if decide (ci_eq (take (length l) cp) l) then ret else 2 else 2))
        as (s & Hs & Hf); [done|destruct (c =? dot); [case_decide|]; auto|].
      exists s. split; [done|]. rewrite Hf.
      destruct (Z.eqb_spec c dot); repeat case_decide; tauto.
Qed.

Lemma name_at_nonempty buf plen p L e h :
  plen ≤ zlen buf → 0 ≤ p → Forall is_byte buf →
  name_at buf plen p L e h → Forall (λ l, l ≠ []) L.
Proof.
  intros Hpl Hp Hb H. induction H as [|p l L e h ? Hrd Hl ? ? IH|p l b L e h ? Hrd Hl Hb' ? IH].
  - constructor.
  - constructor; [|apply IH; lia]. intros E%(f_equal length). rewrite length_slice in E; simpl in *; lia.
  - apply IH. by eapply jump_target.
Qed.

Lemma labels_fuel L h :
  Forall (λ l, l ≠ []) L → wire_len L < MAXDNAME → Z.of_nat h ≤ 255 → (length L + h < extract_fuel)%nat.
Proof.
  intros HL Hw Hh. assert (2 * zlen L ≤ wire_len L).
  { clear -HL. induction HL as [|l L Hl HL IH]; [done|]. rewrite zlen_cons. simpl.
    destruct l; [done|]. rewrite zlen_cons. pose proof (zlen_nonneg l). lia. }
  unfold extract_fuel, MAXDNAME, zlen in *. lia.
Qed.

#[local] Opaque extract_fuel.

Lemma extract_name_ok dnssec buf plen p name extrabytes ret q out :
  Forall is_byte buf → 0 ≤ plen ≤ zlen buf → 0 ≤ p →
  extract_name dnssec buf plen p name true extrabytes = Ok (ret, q, out) ↔
  ret = 1 ∧ q + extrabytes ≤ plen ∧
  ∃ L h, name_at buf plen p L q h ∧ Z.of_nat h ≤ 255 ∧ wire_len L < MAXDNAME ∧
         render dnssec L = Some out.
Proof.
  intros Hb Hpl Hp. unfold extract_name. rewrite bind_ok. split.
  - intros ([[r q'] o] & H & [= -> -> ->]).
    apply extract_loop_extracts in H as (L & e & h & s & ? & ? & ? & Hs & ? & ? & E);
      simpl in *; [|unfold MAXDNAME; auto; lia..].
    rewrite label_steps_extract in Hs. destruct (text dnssec L) as [t|] eqn:Ht; simplify_eq/=.
    split_and!; [done|done|]. exists L, h. unfold render. rewrite Ht. done.
  - intros (-> & Hx & L & h & Hna & Hh & Hw & Hr).
    exists (1, q, out). split; [|done].
    apply extract_loop_extracts; simpl; try done; [unfold MAXDNAME; lia|by left|].
    unfold render in Hr. destruct (text dnssec L) as [t|] eqn:Ht; simplify_eq/=.
    exists L, q, h, (t, 1). simpl. rewrite label_steps_extract, Ht.
    split_and!; try done. apply labels_fuel; try done.
    by eapply name_at_nonempty; [apply Hpl|..].
Qed.

Lemma compare_name_ok buf plen p name extrabytes ret q :
  Forall is_byte buf → 0 ≤ plen ≤ zlen buf → 0 ≤ p → wf_cstring name →
  extract_name false buf plen p name false extrabytes = Ok (ret, q, name) ↔
  q + extrabytes ≤ plen ∧
  ∃ L h, name_at buf plen p L q h ∧ Z.of_nat h ≤ 255 ∧ wire_len L < MAXDNAME ∧
         ret = if decide (name_matches name L) then 1 else 2.
Proof.
  intros Hb Hpl Hp Hw. unfold extract_name. rewrite bind_ok. split.
  - intros ([[r q'] o] & H & [= -> ->]).
    apply extract_loop_extracts in H as (L & e & h & s & Hna & ? & ? & Hs & ? & ? & E);
      simpl in *; [|unfold MAXDNAME; auto; lia..].
    destruct (label_steps_compare L name 1) as (s' & Hs' & Hf); [|done|by left|].
    { by eapply name_at_nonempty; [apply Hpl|..]. }
    simplify_eq. simpl in *. split; [done|]. exists L, h. split_and!; try done.
  - intros (Hx & L & h & Hna & Hh & Hwl & ->).
    assert (Forall (λ l, l ≠ []) L) as Hne by (by eapply name_at_nonempty; [apply Hpl|..]).
    destruct (label_steps_compare L name 1) as (s & Hs & Hf); [done|done|by left|].
    exists ((finish false s).1, q, (finish false s).2). split; [|by rewrite Hf].
    apply extract_loop_extracts; simpl; try done; try by right.
    exists L, q, h, s. split_and!; try done. by apply labels_fuel.
Qed.

(** C8. Extraction refines the specification, both ways: [extract_name] (with
    isExtract) succeeds exactly when the packet holds a name at [p] within
    [plen], with at most 255 jumps, less than MAXDNAME bytes, labels that can be
    written as text and [extrabytes] bytes after it; it then returns 1, the
    presentation form of the labels, and the pointer past the name's own
    encoding. *)
Theorem extract_name_refines dnssec buf plen p name extrabytes ret q out :
  Forall is_byte buf → 0 ≤ plen ≤ zlen buf → 0 ≤ p →
  extract_name dnssec buf plen p name true extrabytes = Ok (ret, q, out) ↔
  ret = 1 ∧ q + extrabytes ≤ plen ∧
  ∃ L h, name_at buf plen p L q h ∧ Z.of_nat h ≤ 255 ∧ wire_len L < MAXDNAME ∧
         render dnssec L = Some out.
Proof. apply extract_name_ok. Qed.

Lemma extract_name_refines_witness :
  ∃ L h, name_at [3; 119; 119; 119; 192; 8; 0; 1; 1; 97; 0] 11 0 L 6 h ∧ Z.of_nat h ≤ 255 ∧
         wire_len L < MAXDNAME ∧ render false L = Some [119; 119; 119; 46; 97].
Proof.
  apply (extract_name_refines false [3; 119; 119; 119; 192; 8; 0; 1; 1; 97; 0] 11 0 [] 0 1 6);
    [unfold is_byte; repeat constructor; lia|unfold zlen; simpl; lia|lia|reflexivity].
Defined.

(** Comparison refines the specification: on the same names
    [extract_name] (without isExtract) answers 1 when the name given matches
    the labels up to case and 2 when it does not, and moves past the same
    bytes. *)
Theorem extract_name_compares buf plen p name extrabytes ret q :
  Forall is_byte buf → 0 ≤ plen ≤ zlen buf → 0 ≤ p → wf_cstring name →
  extract_name false buf plen p name false extrabytes = Ok (ret, q, name) ↔
  q + extrabytes ≤ plen ∧
  ∃ L h, name_at buf plen p L q h ∧ Z.of_nat h ≤ 255 ∧ wire_len L < MAXDNAME ∧
         ret = if decide (name_matches name L) then 1 else 2.
Proof. apply compare_name_ok. Qed.

Lemma extract_name_compares_witness :
  ∃ L h, name_at [3; 119; 87; 119; 0; 9] 6 0 L 5 h ∧ Z.of_nat h ≤ 255 ∧ wire_len L < MAXDNAME ∧
         1 = if decide (name_matches [119; 119; 119] L) then 1 else 2.
Proof.
  apply (extract_name_compares [3; 119; 87; 119; 0; 9] 6 0 [119; 119; 119] 1 1 5);
    [unfold is_byte; repeat constructor; lia|unfold zlen; simpl; lia|lia| |reflexivity].
  unfold wf_cstring. repeat constructor; lia.
Defined.

(** * Writing names *)

(** The labels as the writer stores them. *)
Definition wire (L : list (list Z)) : list Z := mjoin ((λ l, zlen l :: l) <$> L).

(** Presentation form by recursion on the labels. *)
Fixpoint join (dnssec : bool) (L : list (list Z)) : option cstring :=
  match L with
  | [] => Some []
  | l :: L =>
      t ← enc_label dnssec l;
      match L with [] => Some t | _ => u ← join dnssec L; Some (t ++ dot :: u) end
  end.

Lemma enc_byte_nonempty dnssec c t : enc_byte dnssec c = Some t → t ≠ [].
Proof. unfold enc_byte. repeat case_match; naive_solver. Qed.

Lemma removelast_app_cons {A} (l k : list A) x : removelast (l ++ x :: k) = l ++ removelast (x :: k).
Proof. by rewrite removelast_app. Qed.

Lemma text_cons_nonempty dnssec l L t : text dnssec (l :: L) = Some t → t ≠ [].
Proof.
  simpl. intros (a & _ & (b & _ & [= <-])%bind_Some)%bind_Some. by destruct a.
Qed.

Lemma render_join dnssec L : render dnssec L = join dnssec L.
Proof.
  unfold render. induction L as [|l L IH]; [done|].
  simpl. destruct (enc_label dnssec l) as [t|]; simpl; [|done].
  destruct L as [|l' L].
  { simpl. by rewrite removelast_last. }
  rewrite <- IH. destruct (text dnssec (l' :: L)) as [u|] eqn:E; [|done].
  cbn [fmap option_fmap option_map mbind option_bind]. f_equal. rewrite removelast_app_cons.
  apply text_cons_nonempty in E. by destruct u.
Qed.

Definition ends_label (rest : cstring) : Prop := rest = [] ∨ ∃ r, rest = dot :: r.

Lemma put_label_spec dnssec limit l t pre mid post rest j :
  enc_label dnssec l = Some t → Forall is_byte l → length mid = length l → ends_label rest →
  over limit (zlen pre + zlen l) = false →
  put_label dnssec limit (pre ++ mid ++ post) (zlen pre) (t ++ rest) j =
    Ok (pre ++ l ++ post, Some (zlen pre + zlen l, rest, j + zlen l)).
Proof.
  intros Ht Hb. revert t pre mid j Ht. induction Hb as [|c l Hc Hb IH]; intros t pre mid j Ht Hm Hr Ho.
  - destruct mid; [|done]. simpl in *. simplify_eq. rewrite zlen_nil, !Z.add_0_r. simpl.
    destruct Hr as [->|[r ->]]; [done|]. cbn [put_label]. by rewrite Z.eqb_refl.
  - destruct mid as [|m mid]; [done|]. simpl in Ht.
    apply bind_Some in Ht as (u & Hu & (v & Hv & [= <-])%bind_Some).
    rewrite zlen_cons in *. simpl in Hm.
    assert (over limit (zlen pre + 1) = false) as Ho1.
    { pose proof (zlen_nonneg l). destruct limit; simpl in *; lia. }
    assert (put_label dnssec limit (pre ++ c :: mid ++ post) (zlen pre + 1) (v ++ rest) (j + 1) =
      Ok (pre ++ c :: l ++ post, Some (zlen pre + (1 + zlen l), rest, j + (1 + zlen l)))) as Hrec.
    { specialize (IH v (pre ++ [c]) mid (j + 1) Hv). rewrite <- !app_assoc in IH. simpl in IH.
      rewrite zlen_snoc in IH. rewrite IH; [|lia|done|destruct limit; simpl in *; lia].
      do 3 f_equal; f_equal; [f_equal; lia|lia]. }
    unfold enc_byte in Hu. unfold is_byte in Hc.
    destruct dnssec.
    + destruct ((c =? 0) || (c =? dot) || (c =? NAME_ESCAPE)) eqn:Esp; simplify_eq.
      * cbn [app put_label]. replace (NAME_ESCAPE =? dot) with false by done. rewrite Ho1.
        cbn [andb]. rewrite Z.eqb_refl.
        rewrite wr_middle. cbn [mbind res_bind].
        replace (u8 (u8 (c + 1) - 1)) with c by (unfold u8; dlia). done.
      * cbn [app put_label]. bool_hyps. rewrite (proj2 (Z.eqb_neq c dot)) by done. rewrite Ho1.
        rewrite (proj2 (Z.eqb_neq c NAME_ESCAPE)) by done. cbn [andb].
        rewrite wr_middle. cbn [mbind res_bind]. rewrite u8_id by done. done.
    + destruct (negb (c =? 0) && negb (c =? dot)) eqn:Esp; simplify_eq. bool_hyps.
      cbn [app put_label]. rewrite (proj2 (Z.eqb_neq c dot)) by done. rewrite Ho1. cbn [andb].
      rewrite wr_middle. cbn [mbind res_bind]. rewrite u8_id by done. done.
Qed.

Definition good_label (l : list Z) : Prop := 1 ≤ zlen l < 64 ∧ Forall is_byte l.

Lemma enc_label_length dnssec l t : enc_label dnssec l = Some t → (length l ≤ length t)%nat.
Proof.
  revert t. induction l as [|c l IH]; intros t; simpl; [lia|].
  intros (u & Hu%enc_byte_nonempty & (v & Hv%IH & [= <-])%bind_Some)%bind_Some.
  rewrite length_app. destruct u; simpl in *; [done|lia].
Qed.

Lemma join_cons dnssec l L name :
  join dnssec (l :: L) = Some name →
  ∃ t rest, enc_label dnssec l = Some t ∧ name = t ++ rest ∧ ends_label rest ∧
            join dnssec L = Some (tail rest) ∧ (L = [] ↔ rest = []).
Proof.
  cbn [join]. intros (t & Ht & H)%bind_Some. exists t.
  destruct L as [|l' L].
  - simplify_eq. exists []. rewrite app_nil_r. split_and!; try done. by left.
  - apply bind_Some in H as (u & Hu & [= <-]). exists (dot :: u). split_and!; try done.
    right. eauto.
Qed.

Lemma join_length dnssec L name :
  Forall good_label L → join dnssec L = Some name → (length L ≤ length name)%nat.
Proof.
  intros HL. revert name. induction HL as [|l L [Hl _] HL IH]; intros name H; [simpl; lia|].
  apply join_cons in H as (t & rest & Ht%enc_label_length & -> & Hr & Hj%IH & _).
  rewrite length_app. simpl. unfold zlen in Hl.
  assert (length (tail rest) ≤ length rest)%nat by (destruct rest; simpl; lia). lia.
Qed.

Lemma rfc1035_name_loop_spec dnssec limit fuel L name pre mid post :
  Forall good_label L → join dnssec L = Some name → zlen mid = wire_len L →
  over limit (zlen pre + wire_len L) = false → (length L < fuel)%nat →
  rfc1035_name_loop dnssec limit fuel (pre ++ mid ++ post) (zlen pre) name =
    Ok (pre ++ wire L ++ post, Some (zlen pre + wire_len L)).
Proof.
  intros HL. revert fuel name pre mid. induction HL as [|l L [Hl Hb] HL IH];
    intros fuel name pre mid Hj Hm Ho Hf; (destruct fuel as [|fuel]; [simpl in Hf; lia|]).
  - simpl in *. simplify_eq. unfold zlen in Hm. destruct mid; [|simpl in Hm; lia].
    simpl. by rewrite Z.add_0_r.
  - pose proof (wire_len_nonneg L) as [_ Hwl]. simpl in Hm, Ho, Hf. cbn [wire_len foldr].
    fold (wire_len L) in *.
    apply join_cons in Hj as (t & rest & Ht & -> & Hr & Hj & _).
    destruct mid as [|m mid]; [rewrite zlen_nil in Hm; pose proof (zlen_nonneg l); lia|].
    rewrite zlen_cons in Hm.
    assert (∃ m1 m2, mid = m1 ++ m2 ∧ length m1 = length l) as (m1 & m2 & -> & Hm1).
    { exists (take (length l) mid), (drop (length l) mid). rewrite take_drop, length_take.
      unfold zlen in *. split; [done|lia]. }
    assert (zlen m2 = wire_len L) as Hm2
      by (rewrite zlen_app in Hm; unfold zlen in *; lia).
    pose proof (enc_label_length _ _ _ Ht) as Htl.
    destruct (t ++ rest) as [|c s] eqn:Es.
    { apply app_eq_nil in Es as [-> _]. unfold zlen in Hl. simpl in Htl. lia. }
    cbn [rfc1035_name_loop].
    assert (over limit (zlen pre + 1) = false) as ->
      by (pose proof (zlen_nonneg l); destruct limit; simpl in *; lia).
    rewrite <- Es. cbn [app]. rewrite <- (zlen_snoc pre m).
    rewrite <- (app_assoc m1), (app_assoc pre [m] (m1 ++ m2 ++ post) : pre ++ m :: m1 ++ m2 ++ post = _).
    rewrite (put_label_spec dnssec limit l t (pre ++ [m]) m1 (m2 ++ post) rest 0) by
      (done || (rewrite zlen_snoc; destruct limit; simpl in *; lia)).
    cbn [mbind res_bind]. rewrite <- app_assoc. cbn [app]. rewrite wr_middle. cbn [mbind res_bind].
    rewrite (u8_id (0 + zlen l)) by (unfold is_byte; lia). rewrite Z.add_0_l, zlen_snoc.
    specialize (IH fuel (tail rest) (pre ++ zlen l :: l) m2 Hj Hm2).
    rewrite zlen_app, zlen_cons, <- !app_assoc in IH. cbn [app] in IH.
    replace (zlen pre + 1 + zlen l) with (zlen pre + (1 + zlen l)) by lia.
    rewrite IH by (done || lia || (destruct limit; simpl in *; lia)).
    unfold wire. rewrite fmap_cons. cbn [mjoin list_join app]. rewrite <- app_assoc.
    do 3 f_equal. lia.
Qed.

Lemma wire_cons l L : wire (l :: L) = zlen l :: l ++ wire L.
Proof. done. Qed.

Lemma zlen_wire L : zlen (wire L) = wire_len L.
Proof.
  induction L as [|l L IH]; [done|]. unfold wire in *. rewrite fmap_cons. simpl.
  rewrite zlen_cons, zlen_app, IH. lia.
Qed.

Lemma wire_bytes L : Forall good_label L → Forall is_byte (wire L).
Proof.
  induction 1 as [|l L [Hl Hb] HL IH]; [constructor|]. unfold wire in *. rewrite fmap_cons. simpl.
  constructor; [unfold is_byte; lia|]. by apply Forall_app.
Qed.

Lemma rd_middle pre x post i : i = zlen pre → rd (pre ++ x :: post) i = Ok x.
Proof.
  intros ->. replace (zlen pre) with (zlen pre + 0) by lia. by rewrite rd_app_r.
Qed.

Lemma slice_middle pre l post p : p = zlen pre → slice (pre ++ l ++ post) p (length l) = l.
Proof.
  intros ->. unfold slice, zlen. rewrite Nat2Z.id, drop_app_length. by rewrite take_app_length.
Qed.

Lemma name_at_wire L pre post :
  Forall good_label L →
  name_at (pre ++ wire L ++ 0 :: post) (zlen (pre ++ wire L ++ 0 :: post)) (zlen pre) L
          (zlen pre + wire_len L + 1) 0.
Proof.
  intros HL. remember (pre ++ wire L ++ 0 :: post) as buf eqn:Hbuf.
  remember (zlen buf) as plen eqn:Hplen.
  remember (zlen pre) as p eqn:Hp. revert pre Hbuf p Hp.
  induction HL as [|l L [Hl Hb] HL IH]; intros pre Hbuf p Hp.
  - simpl in *. rewrite Z.add_0_r. constructor.
    + subst. rewrite zlen_app, zlen_cons. pose proof (zlen_nonneg post). lia.
    + subst. by apply rd_middle.
  - rewrite wire_cons in Hbuf. cbn [app] in Hbuf. rewrite <- app_assoc in Hbuf.
    pose proof (zlen_nonneg (wire L)). pose proof (zlen_nonneg post).
    assert (plen = p + 1 + zlen l + zlen (wire L) + 1 + zlen post) as Hpl
      by (rewrite Hplen, Hbuf, Hp, !zlen_app, !zlen_cons, !zlen_app, !zlen_cons; lia).
    assert (slice buf (p + 1) (Z.to_nat (zlen l)) = l) as Hsl.
    { unfold zlen. rewrite Nat2Z.id. subst buf.
      replace (pre ++ zlen l :: l ++ wire L ++ 0 :: post)
        with ((pre ++ [zlen l]) ++ l ++ wire L ++ 0 :: post) by (by rewrite <- app_assoc).
      apply slice_middle. rewrite zlen_snoc. lia. }
    pose proof (na_label buf plen p (zlen l) L (p + 1 + zlen l + wire_len L + 1) 0) as Hna.
    rewrite Hsl in Hna. cbn [wire_len foldr]. fold (wire_len L).
    replace (p + (zlen l + 1 + wire_len L) + 1) with (p + 1 + zlen l + wire_len L + 1) by lia.
    apply Hna; [lia|subst; by apply rd_middle|lia|lia|].
    apply (IH (pre ++ zlen l :: l)).
    + subst buf. by rewrite <- app_assoc.
    + rewrite zlen_app, zlen_cons. lia.
Qed.

(** C37. Round trip: a name whose labels have 1 to 63 bytes, written by
    [do_rfc1035_name] anywhere there is room for it and terminated by the
    caller's zero byte, is read back by [extract_name] as the same text, from
    the place it was written to the byte after it; nothing else of the packet
    changes. *)
Theorem name_round_trip dnssec L name pre mid z post limit other :
  Forall good_label L → render dnssec L = Some name → wire_len L < MAXDNAME →
  Forall is_byte pre → Forall is_byte post → zlen mid = wire_len L →
  over limit (zlen pre + wire_len L) = false →
  ∃ buf buf' q,
    do_rfc1035_name dnssec (pre ++ mid ++ z :: post) (zlen pre) name limit = Ok (buf, Some q) ∧
    wr buf q 0 = Ok buf' ∧ buf' = pre ++ wire L ++ 0 :: post ∧
    extract_name dnssec buf' (zlen buf') (zlen pre) other true 0 = Ok (1, q + 1, name).
Proof.
  intros HL Hn Hw Hpre Hpost Hm Ho. rewrite render_join in Hn.
  exists (pre ++ wire L ++ z :: post), (pre ++ wire L ++ 0 :: post), (zlen pre + wire_len L).
  split_and!; [| |done|].
  - unfold do_rfc1035_name. apply rfc1035_name_loop_spec; try done.
    pose proof (join_length _ _ _ HL Hn). lia.
  - replace (zlen pre + wire_len L) with (zlen (pre ++ wire L)).
    + rewrite !app_assoc. apply wr_middle.
    + rewrite zlen_app, zlen_wire. done.
  - apply extract_name_ok.
    + apply Forall_app. split; [done|]. apply Forall_app. split; [by apply wire_bytes|].
      by constructor.
    + pose proof (zlen_nonneg (pre ++ wire L ++ 0 :: post)). lia.
    + apply zlen_nonneg.
    + split; [done|]. split.
      { rewrite !zlen_app, zlen_cons, zlen_wire. pose proof (zlen_nonneg post). lia. }
      exists L, O. split_and!; [by apply name_at_wire|done|done|by rewrite render_join].
Qed.

Lemma name_round_trip_witness :
  ∃ buf buf' q,
    do_rfc1035_name false (repeat 7 12 ++ [9; 9; 9; 9; 9; 9] ++ 9 :: [1; 2]) 12
      [119; 119; 46; 97; 98] (Some 21) = Ok (buf, Some q) ∧
    wr buf q 0 = Ok buf' ∧ buf' = repeat 7 12 ++ [2; 119; 119; 2; 97; 98] ++ 0 :: [1; 2] ∧
    extract_name false buf' (zlen buf') 12 [] true 0 = Ok (1, q + 1, [119; 119; 46; 97; 98]).
Proof.
  apply (name_round_trip false [[119; 119]; [97; 98]]); try reflexivity.
  - unfold good_label, is_byte, zlen. repeat constructor; simpl; lia.
  - unfold is_byte. repeat constructor; lia.
  - unfold is_byte. repeat constructor; lia.
Defined.
