(* ===== verification/NetAddr.v ===== *)
(** Addresses (src/src/util.c, src/src/rfc1035.c): network membership of IPv4
    and IPv6 addresses, the host part of an IPv6 address, the private address
    ranges of the rebind check, socket address equality, masked comparison of
    hardware addresses, and their printing and parsing.

    An address is the list of its bytes in memory, network order: bitwise
    operations and equality on [s_addr] act byte by byte whatever the
    endianness of the host; where the integer itself matters it is taken with
    [ntohl] or, in [netmask_length], with the host's own byte order. *)
From S2P Require Import Prelude Hostname.

(** * Values of byte strings *)

Definition be_val (bs : list Z) : Z := foldl (λ v b, v * 256 + b) 0 bs.
Definition le_val (bs : list Z) : Z := be_val (reverse bs).

Fixpoint be_bytes_aux (n : nat) (v : Z) (acc : list Z) : list Z :=
  match n with O => acc | S n => be_bytes_aux n (v / 256) (v mod 256 :: acc) end.
(** The [n] low bytes of [v], most significant first. *)
Definition be_bytes (n : nat) (v : Z) : list Z := be_bytes_aux n v [].

(** A struct in_addr has 4 bytes, a struct in6_addr 16. *)
Definition wf_in_addr (a : list Z) : Prop := length a = 4%nat ∧ Forall is_byte a.
Definition wf_in6_addr (a : list Z) : Prop := length a = 16%nat ∧ Forall is_byte a.

Definition ntohl (a : list Z) : Z := be_val a.
Definition htonl (v : Z) : list Z := be_bytes 4 v.

Definition bytes_and (a b : list Z) : list Z := zip_with Z.land a b.
Definition bytes_or (a b : list Z) : list Z := zip_with Z.lor a b.
Definition bytes_not (a : list Z) : list Z := (λ x, 255 - x) <$> a.

(** * Networks *)

Fixpoint netmask_loop (fuel : nat) (mask zero_count : Z) : Z :=
  match fuel with
  | O => zero_count
  | S fuel =>
      if (Z.land mask 1 =? 0) && (zero_count <? 32)
      then netmask_loop fuel (Z.shiftr mask 1) (zero_count + 1)
      else zero_count
  end.

(** [little] is the byte order of the host: the loop shifts the integer in
    memory. At most 32 turns are made. *)
Definition netmask_length (little : bool) (mask : list Z) : Z :=
  32 - netmask_loop 33 (if little then le_val mask else be_val mask) 0.

Definition is_same_net (a b mask : list Z) : bool :=
  bool_decide (bytes_and a mask = bytes_and b mask).

(** [1 << (32 - prefix)] is defined for shifts below the width of int;
    [None] stands for the undefined shift by 32 or more. *)
Definition is_same_net_prefix (a b : list Z) (prefix : Z) : option bool :=
  let sh := 32 - prefix in
  if (0 <=? sh) && (sh <? 32)
  then Some (is_same_net a b (htonl (u32 (Z.lnot (Z.shiftl 1 sh - 1)))))
  else None.

Definition is_same_net6 (a b : list Z) (prefixlen : Z) : bool :=
  let pfbytes := Z.to_nat (Z.shiftr prefixlen 3) in
  let pfbits := Z.land prefixlen 7 in
  if negb (bool_decide (take pfbytes a = take pfbytes b)) then false
  else if pfbits =? 0 then true
  else Z.shiftr (a !!! pfbytes) (8 - pfbits) =? Z.shiftr (b !!! pfbytes) (8 - pfbits).

(** The host part of an IPv6 address: its last eight bytes. *)
Definition addr6part (addr : list Z) : Z :=
  foldl (λ ret b, u64 (u64 (Z.shiftl ret 8) + b)) 0 (drop 8 addr).

Fixpoint setaddr6_loop (n : nat) (addr : list Z) (host : Z) : list Z :=
  match n with
  | O => addr
  | S n => setaddr6_loop n (<[(8 + n)%nat := u8 host]> addr) (Z.shiftr host 8)
  end.
Definition setaddr6part (addr : list Z) (host : Z) : list Z := setaddr6_loop 8 addr (u64 host).

(** * Private ranges *)

Definition private_net (addr : list Z) (ban_localhost : bool) : bool :=
  let ip := ntohl addr in
  ((Z.land ip 0xFF000000 =? 0x7F000000) && ban_localhost) ||
  ((Z.land ip 0xFF000000 =? 0x00000000) && ban_localhost) ||
  (Z.land ip 0xFF000000 =? 0x0A000000) ||
  (Z.land ip 0xFFF00000 =? 0xAC100000) ||
  (Z.land ip 0xFFFF0000 =? 0xC0A80000) ||
  (Z.land ip 0xFFFF0000 =? 0xA9FE0000) ||
  (Z.land ip 0xFFFFFF00 =? 0xC0000200) ||
  (Z.land ip 0xFFFFFF00 =? 0xC6336400) ||
  (Z.land ip 0xFFFFFF00 =? 0xCB007100) ||
  (Z.land ip 0xFFFFFFFF =? 0xFFFFFFFF).

(** The classification macros of <netinet/in.h>. *)
Definition IN6_IS_ADDR_V4MAPPED (a : list Z) : bool :=
  bool_decide (take 12 a = repeat 0 10 ++ [255; 255]).
Definition IN6_IS_ADDR_UNSPECIFIED (a : list Z) : bool := bool_decide (a = repeat 0 16).
Definition IN6_IS_ADDR_LOOPBACK (a : list Z) : bool := bool_decide (a = repeat 0 15 ++ [1]).
Definition IN6_IS_ADDR_LINKLOCAL (a : list Z) : bool :=
  (a !!! 0%nat =? 0xfe) && (Z.land (a !!! 1%nat) 0xc0 =? 0x80).
Definition IN6_IS_ADDR_SITELOCAL (a : list Z) : bool :=
  (a !!! 0%nat =? 0xfe) && (Z.land (a !!! 1%nat) 0xc0 =? 0xc0).

Definition private_net6 (a : list Z) (ban_localhost : bool) : bool :=
  if IN6_IS_ADDR_V4MAPPED a then private_net (drop 12 a) ban_localhost
  else
    (IN6_IS_ADDR_UNSPECIFIED a && ban_localhost) ||
    (IN6_IS_ADDR_LOOPBACK a && ban_localhost) ||
    IN6_IS_ADDR_LINKLOCAL a ||
    IN6_IS_ADDR_SITELOCAL a ||
    (a !!! 0%nat =? 0xfd) ||
    bool_decide (take 4 a = htonl 0x20010db8).

(** * Socket addresses *)

Definition AF_INET : Z := 2.
Definition AF_INET6 : Z := 10.

(** union mysockaddr: the two address families it holds. *)
Inductive mysockaddr :=
| SA_in (sin_port : Z) (sin_addr : list Z)
| SA_in6 (sin6_port sin6_scope_id : Z) (sin6_addr : list Z)
| SA_other (sa_family : Z).

Definition sockaddr_isequal (s1 s2 : mysockaddr) : bool :=
  match s1, s2 with
  | SA_in p1 a1, SA_in p2 a2 => (p1 =? p2) && bool_decide (a1 = a2)
  | SA_in6 p1 c1 a1, SA_in6 p2 c2 a2 => (p1 =? p2) && (c1 =? c2) && bool_decide (a1 = a2)
  | _, _ => false
  end.

(** * Hardware addresses *)

(** Compares from the last byte to the first; bit 0 of [mask] is for the last
    byte. [n] is the number of bytes still to compare. *)
Fixpoint memcmp_masked_loop (a b : list Z) (n : nat) (mask count : Z) : Z :=
  match n with
  | O => count
  | S i =>
      if Z.land mask 1 =? 0 then
        if a !!! i =? b !!! i then memcmp_masked_loop a b i (Z.shiftr mask 1) (count + 1) else 0
      else memcmp_masked_loop a b i (Z.shiftr mask 1) count
  end.
Definition memcmp_masked (a b : list Z) (len : nat) (mask : Z) : Z :=
  memcmp_masked_loop a b len mask 1.

Definition hexdigit (n : Z) : Z := if n <? 10 then 48 + n else 87 + n.
(** printf's [%.2x] of a byte. *)
Definition hex2 (b : Z) : cstring := [hexdigit (b / 16); hexdigit (b mod 16)].

Fixpoint print_mac_loop (mac : list Z) : cstring :=
  match mac with
  | [] => []
  | [b] => hex2 b
  | b :: mac => hex2 b ++ 58 :: print_mac_loop mac
  end.
Definition print_mac (mac : list Z) : cstring :=
  match mac with
  | [] => [60; 110; 117; 108; 108; 62]
  | _ => print_mac_loop mac
  end.

Definition isxdigit (c : Z) : bool :=
  isdigit c || ((65 <=? c) && (c <=? 70)) || ((97 <=? c) && (c <=? 102)).
Definition xval (c : Z) : Z :=
  if isdigit c then c - 48 else if c <=? 70 then c - 55 else c - 87.

Definition LONG_MAX : Z := 9223372036854775807.
(** strtol(s, NULL, 16) on a string of hex digits and stars: the value of the
    leading digits, saturated. *)
Fixpoint strtol16_aux (s : cstring) (v : Z) : Z :=
  match s with
  | c :: s => if isxdigit c then strtol16_aux s (v * 16 + xval c) else v
  | [] => v
  end.
Definition strtol16 (s : cstring) : Z := Z.min (strtol16_aux s 0) LONG_MAX.

(** The value stored when a long is assigned to an int. *)
Definition s32 (x : Z) : Z := let r := u32 x in if r <? 2147483648 then r else r - 4294967296.

(** The token up to the next separator and what follows it (starting with the
    separator), or [None] when it has a character that is neither a hex digit
    nor a star. *)
Fixpoint hex_token (s : cstring) : option (cstring * cstring) :=
  match s with
  | [] => Some ([], [])
  | c :: s' =>
      if (c =? 58) || (c =? 45) || (c =? space) then Some ([], s)
      else if negb (c =? star) && negb (isxdigit c) then None
      else '(t, r) ← hex_token s'; Some (c :: t, r)
  end.

Record hexst := HexSt { hx_i : Z; hx_out : list Z; hx_mask : Z; hx_type : option Z }.

(** The bytes of one token, two digits each, the last one possibly alone.
    [Bad] is the [return -1] on a star inside a token. *)
Fixpoint hex_bytes (maxlen : Z) (fuel : nat) (t : cstring) (st : hexst) : res hexst :=
  match fuel, t with
  | O, _ | _, [] => Ok st
  | S fuel, _ =>
      let sub := take 2 t in
      if existsb (Z.eqb star) sub then Bad
      else
        out ← wr (hx_out st) (hx_i st) (strtol16 sub);
        let st := HexSt (hx_i st + 1) out (s32 (Z.shiftl (hx_mask st) 1)) (hx_type st) in
        if hx_i st =? maxlen then Ok st else hex_bytes maxlen fuel (drop 2 t) st
  end.

(** [want_type]: the caller passed a [mac_type] and it has not been set yet. *)
Fixpoint parse_hex_loop (maxlen : Z) (want_type : bool) (fuel : nat) (s : cstring) (st : hexst)
    : res hexst :=
  match fuel with
  | O => NoFuel
  | S fuel =>
      if (maxlen =? -1) || (hx_i st <? maxlen) then
        match hex_token s with
        | None => Bad
        | Some (t, r) =>
            st' ←
              match t with
              | [] => Ok (st, want_type)
              | _ =>
                  if (deref r =? 45) && (hx_i st =? 0) && want_type then
                    Ok (HexSt (hx_i st) (hx_out st) (hx_mask st) (Some (s32 (strtol16 t))), false)
                  else if bool_decide (t = [star]) then
                    Ok (HexSt (hx_i st + 1) (hx_out st) (Z.lor (s32 (Z.shiftl (hx_mask st) 1)) 1)
                              (hx_type st), want_type)
                  else st ← hex_bytes maxlen (length t) t st; Ok (st, want_type)
              end;
            match r with
            | [] => Ok st'.1
            | _ :: s => parse_hex_loop maxlen st'.2 fuel s st'.1
            end
        end
      else Ok st
  end.

(** The number of bytes parsed, the output array, the wildcard mask and the
    hardware type ([Some 0] unless a leading type was found; [None] when the
    caller wants none). [Bad] is the result -1. The input is read only: the
    source writes terminators over bytes it does not read again. *)
Definition parse_hex (s : cstring) (out : list Z) (maxlen : Z) (want_type : bool)
    : res (Z * list Z * Z * option Z) :=
  st ← parse_hex_loop maxlen want_type (S (length s)) s
         (HexSt 0 out 0 (if want_type then Some 0 else None));
  Ok (hx_i st, hx_out st, u32 (hx_mask st), hx_type st).

(** * Facts about byte strings *)

Lemma be_val_snoc a b : be_val (a ++ [b]) = be_val a * 256 + b.
Proof. unfold be_val. by rewrite foldl_app. Qed.

Lemma be_val_bound a : Forall is_byte a → 0 ≤ be_val a < 256 ^ zlen a.
Proof.
  induction a as [|b a IH] using rev_ind; intros H; [done|].
  apply Forall_snoc in H as [Ha Hb]. specialize (IH Ha). unfold is_byte in Hb.
  rewrite be_val_snoc, zlen_app, Z.pow_add_r by (try apply zlen_nonneg; done).
  change (256 ^ zlen [b]) with 256. lia.
Qed.

Lemma be_val_app a b : be_val (a ++ b) = be_val a * 256 ^ zlen b + be_val b.
Proof.
  induction b as [|x b IH] using rev_ind.
  - rewrite app_nil_r, zlen_nil. change (be_val []) with 0. lia.
  - rewrite app_assoc, !be_val_snoc, IH, zlen_app, Z.pow_add_r by (try apply zlen_nonneg; done).
    change (256 ^ zlen [x]) with 256. lia.
Qed.

Lemma be_val_inj a b :
  length a = length b → Forall is_byte a → Forall is_byte b → be_val a = be_val b → a = b.
Proof.
  revert b. induction a as [|x a IH] using rev_ind; intros b Hl Ha Hb He.
  { by destruct b. }
  destruct b as [|y b _] using rev_ind; rewrite length_app in Hl; simpl in Hl; [lia|].
  rewrite length_app in Hl. simpl in Hl.
  apply Forall_snoc in Ha as [Ha Hx]. apply Forall_snoc in Hb as [Hb Hy].
  rewrite !be_val_snoc in He. unfold is_byte in *.
  assert (x = y) as -> by lia. f_equal. apply IH; [lia|done|done|lia].
Qed.

Lemma be_bytes_aux_app n v acc : be_bytes_aux n v acc = be_bytes_aux n v [] ++ acc.
Proof.
  revert v acc. induction n as [|n IH]; intros v acc; [done|]. simpl.
  rewrite IH, (IH _ [_]), <- app_assoc. done.
Qed.
Lemma be_bytes_S n v : be_bytes (S n) v = be_bytes n (v / 256) ++ [v mod 256].
Proof. unfold be_bytes. simpl. by rewrite be_bytes_aux_app. Qed.
Lemma length_be_bytes n v : length (be_bytes n v) = n.
Proof.
  revert v. induction n as [|n IH]; intros v; [done|]. rewrite be_bytes_S, length_app, IH. simpl. lia.
Qed.
Lemma be_bytes_byte n v : Forall is_byte (be_bytes n v).
Proof.
  revert v. induction n as [|n IH]; intros v; [constructor|]. rewrite be_bytes_S.
  apply Forall_app. split; [done|]. apply Forall_singleton. apply u8_byte.
Qed.
Lemma be_val_bytes n v : 0 ≤ v < 256 ^ Z.of_nat n → be_val (be_bytes n v) = v.
Proof.
  revert v. induction n as [|n IH]; intros v Hv.
  { change (256 ^ Z.of_nat 0) with 1 in Hv. by assert (v = 0) as -> by lia. }
  rewrite be_bytes_S, be_val_snoc, IH; [dlia|].
  replace (Z.of_nat (S n)) with (Z.of_nat n + 1) in Hv by lia. rewrite Z.pow_add_r in Hv by lia.
  change (256 ^ 1) with 256 in Hv. split; [apply Z.div_pos; lia|]. apply Z.div_lt_upper_bound; lia.
Qed.

Lemma land_is_byte x y : is_byte x → is_byte y → is_byte (Z.land x y).
Proof.
  unfold is_byte. intros Hx Hy. split; [apply Z.land_nonneg; lia|].
  change 256 with (2 ^ 8) in *. replace (Z.land x y) with (Z.land (Z.land x y) (Z.ones 8)).
  - rewrite Z.land_ones by lia. apply Z.mod_pos_bound. lia.
  - by rewrite <- Z.land_assoc, (Z.land_comm y), Z.land_assoc, Z.land_ones, Z.mod_small by lia.
Qed.

Lemma land_byte a b c d :
  0 ≤ b < 256 → 0 ≤ d < 256 →
  Z.land (a * 256 + b) (c * 256 + d) = Z.land a c * 256 + Z.land b d.
Proof.
  intros Hb Hd. change 256 with (2 ^ 8) in *.
  assert (0 ≤ Z.land b d < 2 ^ 8) by (by apply land_is_byte).
  rewrite <- !lor_shiftl by lia. apply Z.bits_inj'. intros i Hi.
  rewrite !Z.land_spec, !Z.lor_spec, Z.land_spec. destruct (Z.ltb_spec i 8).
  - rewrite !Z.shiftl_spec_low by lia. done.
  - rewrite !Z.shiftl_spec by lia. rewrite Z.land_spec.
    assert (∀ x, 0 ≤ x < 2 ^ 8 → Z.testbit x i = false) as Hz.
    { intros x Hx. destruct (Z.eq_dec x 0) as [->|]; [apply Z.bits_0|].
      apply Z.bits_above_log2; [lia|]. apply Z.lt_le_trans with 8; [|lia].
      apply Z.log2_lt_pow2; lia. }
    rewrite (Hz b), (Hz d) by lia. by rewrite !orb_false_r.
Qed.

Lemma be_val_and a m :
  length a = length m → Forall is_byte a → Forall is_byte m →
  be_val (bytes_and a m) = Z.land (be_val a) (be_val m) ∧ Forall is_byte (bytes_and a m).
Proof.
  unfold bytes_and. revert m. induction a as [|x a IH] using rev_ind; intros m Hl Ha Hm.
  { destruct m; [|done]. split; [done|constructor]. }
  destruct m as [|y m _] using rev_ind; rewrite length_app in Hl; simpl in Hl; [lia|].
  rewrite length_app in Hl. simpl in Hl.
  apply Forall_snoc in Ha as [Ha Hx]. apply Forall_snoc in Hm as [Hm Hy].
  destruct (IH m) as [Hv Hb]; [lia|done|done|].
  rewrite zip_with_app by lia. cbn [zip_with]. rewrite !be_val_snoc, Hv, land_byte by done.
  split; [done|]. apply Forall_snoc. auto using land_is_byte.
Qed.

(** Keeping the high bits of a [w]-bit value. *)
Lemma land_high_mask w k x :
  0 ≤ k ≤ w → 0 ≤ x < 2 ^ w → Z.land x (2 ^ w - 2 ^ k) = (x / 2 ^ k) * 2 ^ k.
Proof.
  intros Hk Hx.
  assert (2 ^ w - 2 ^ k = Z.ldiff (Z.ones w) (Z.ones k)) as ->.
  { rewrite Z.ldiff_ones_r by lia. rewrite Z.shiftl_mul_pow2, Z.shiftr_div_pow2 by lia.
    rewrite Z.ones_div_pow2 by lia. rewrite Z.ones_equiv.
    replace (2 ^ w) with (2 ^ (w - k) * 2 ^ k) by (rewrite <- Z.pow_add_r; [f_equal|..]; lia). lia. }
  rewrite Z.ldiff_land, Z.land_assoc, (Z.land_ones x w), Z.mod_small by lia.
  rewrite <- Z.ldiff_land, Z.ldiff_ones_r by lia.
  by rewrite Z.shiftl_mul_pow2, Z.shiftr_div_pow2 by lia.
Qed.

Lemma wf_in_addr_val a : wf_in_addr a → 0 ≤ ntohl a < 2 ^ 32.
Proof.
  intros [Hl Hb]. pose proof (be_val_bound a Hb) as H. unfold zlen in H. rewrite Hl in H. exact H.
Qed.

Lemma is_same_net_val a b m :
  wf_in_addr a → wf_in_addr b → wf_in_addr m →
  is_same_net a b m = (Z.land (ntohl a) (ntohl m) =? Z.land (ntohl b) (ntohl m)).
Proof.
  intros [Hla Ha] [Hlb Hb] [Hlm Hm]. unfold is_same_net, ntohl.
  destruct (be_val_and a m) as [<- Hba]; [congruence|done|done|].
  destruct (be_val_and b m) as [<- Hbb]; [congruence|done|done|].
  case_bool_decide as E; symmetry; [rewrite E; apply Z.eqb_refl|].
  apply Z.eqb_neq. intros He. apply E. apply be_val_inj; [|done..].
  unfold bytes_and. rewrite !length_zip_with. lia.
Qed.

Lemma mul_pow2_inj k x y : 0 ≤ k → (x * 2 ^ k =? y * 2 ^ k) = (x =? y).
Proof.
  intros. destruct (Z.eqb_spec x y) as [->|Hne]; [apply Z.eqb_refl|].
  apply Z.eqb_neq. intros E. apply Z.mul_cancel_r in E; [done|]. pose proof (Z.pow_pos_nonneg 2 k). lia.
Qed.

(** [is_same_net_prefix] compares the first [prefix] bits of two IPv4
    addresses, for every prefix from 1 to 32; for prefix 0 (any network) the
    shift it starts with is undefined. *)
Theorem is_same_net_prefix_correct a b prefix :
  wf_in_addr a → wf_in_addr b → 0 ≤ prefix ≤ 32 →
  is_same_net_prefix a b prefix =
    if prefix =? 0 then None
    else Some (ntohl a / 2 ^ (32 - prefix) =? ntohl b / 2 ^ (32 - prefix)).
Proof.
  intros Ha Hb Hp. unfold is_same_net_prefix.
  destruct (Z.eqb_spec prefix 0) as [->|Hne]; [done|].
  set (k := 32 - prefix). replace ((0 <=? k) && (k <? 32)) with true by lia. f_equal.
  assert (u32 (Z.lnot (Z.shiftl 1 k - 1)) = 2 ^ 32 - 2 ^ k) as ->.
  { rewrite Z.shiftl_mul_pow2, Z.mul_1_l by lia. unfold u32, Z.lnot.
    assert (0 < 2 ^ k < 2 ^ 32) by (split; [apply Z.pow_pos_nonneg|apply Z.pow_lt_mono_r]; lia).
    change 4294967296 with (2 ^ 32).
    replace (Z.pred (- (2 ^ k - 1))) with (2 ^ 32 - 2 ^ k + -1 * 2 ^ 32) by lia.
    rewrite Z.mod_add by lia. apply Z.mod_small. lia. }
  assert (0 < 2 ^ k < 2 ^ 32) by (split; [apply Z.pow_pos_nonneg|apply Z.pow_lt_mono_r]; lia).
  assert (wf_in_addr (htonl (2 ^ 32 - 2 ^ k))) by (split; [apply length_be_bytes|apply be_bytes_byte]).
  rewrite is_same_net_val by done. unfold ntohl at 2 4, htonl.
  rewrite be_val_bytes by (change (256 ^ Z.of_nat 4) with (2 ^ 32); lia).
  rewrite !land_high_mask by (try apply wf_in_addr_val; lia || done). apply mul_pow2_inj. lia.
Qed.

Lemma is_same_net_prefix_correct_witness :
  is_same_net_prefix [192; 168; 1; 7] [192; 168; 1; 200] 24 = Some true.
Proof.
  rewrite (is_same_net_prefix_correct [192; 168; 1; 7] [192; 168; 1; 200] 24); [reflexivity| | |lia];
    (split; [reflexivity|]); unfold is_byte; repeat constructor; lia.
Defined.

(** On a little-endian host the loop of [netmask_length] counts zero bits of
    the reversed integer: 255.255.255.0 is measured as a 32 bit prefix. *)
Lemma netmask_length_little_endian :
  netmask_length true [255; 255; 255; 0] = 32 ∧ netmask_length false [255; 255; 255; 0] = 24.
Proof. split; reflexivity. Qed.

Lemma byte_split_shiftr a b k :
  0 ≤ k ≤ 8 → 0 ≤ a < 256 → 0 ≤ b < 256 →
  (Z.shiftr a (8 - k) =? Z.shiftr b (8 - k)) = (a / 2 ^ (8 - k) =? b / 2 ^ (8 - k)).
Proof. intros. by rewrite !Z.shiftr_div_pow2 by lia. Qed.

(** Comparing the high [8 * n + k] bits of two strings of [n + 1 + m] bytes. *)
Lemma high_bits_eq a b x y c d k :
  length a = length b → length c = length d →
  Forall is_byte (a ++ x :: c) → Forall is_byte (b ++ y :: d) → 0 ≤ k ≤ 8 →
  be_val (a ++ x :: c) / 2 ^ (8 - k + 8 * zlen c) = be_val (b ++ y :: d) / 2 ^ (8 - k + 8 * zlen d)
  ↔ a = b ∧ x / 2 ^ (8 - k) = y / 2 ^ (8 - k).
Proof.
  intros Hab Hcd [Ha Hxc]%Forall_app [Hb Hyd]%Forall_app Hk.
  apply Forall_cons in Hxc as [Hx Hc]. apply Forall_cons in Hyd as [Hy Hd].
  assert (∀ a x c, Forall is_byte a → is_byte x → Forall is_byte c →
    be_val (a ++ x :: c) / 2 ^ (8 - k + 8 * zlen c) = be_val a * 2 ^ k + x / 2 ^ (8 - k)
    ∧ 0 ≤ x / 2 ^ (8 - k) < 2 ^ k) as Hdiv.
  { clear -Hk. intros a x c Ha Hx Hc. rewrite cons_middle, app_assoc, be_val_app, be_val_snoc.
    pose proof (be_val_bound c Hc) as Hbc. unfold is_byte in Hx.
    assert (256 ^ zlen c = 2 ^ (8 * zlen c)) as E
      by (change 256 with (2 ^ 8); rewrite <- Z.pow_mul_r by (try apply zlen_nonneg; done); done).
    rewrite E in *. pose proof (zlen_nonneg c).
    rewrite Z.pow_add_r, (Z.mul_comm (2 ^ (8 - k))), <- Z.div_div by (try apply Z.pow_nonzero; lia || apply Z.pow_pos_nonneg; lia).
    rewrite Z.div_add_l, (Z.div_small (be_val c)), Z.add_0_r by (lia || apply Z.pow_nonzero; lia).
    assert (256 = 2 ^ k * 2 ^ (8 - k)) as E8
      by (rewrite <- Z.pow_add_r by lia; replace (k + (8 - k)) with 8 by lia; done).
    split.
    - rewrite E8, Z.mul_assoc, Z.div_add_l by (apply Z.pow_nonzero; lia). done.
    - split; [apply Z.div_pos; [lia|apply Z.pow_pos_nonneg; lia]|].
      apply Z.div_lt_upper_bound; [apply Z.pow_pos_nonneg; lia|]. rewrite Z.mul_comm, <- E8. lia. }
  destruct (Hdiv a x c Ha Hx Hc) as [-> ?]. destruct (Hdiv b y d Hb Hy Hd) as [-> ?].
  pose proof (Z.pow_pos_nonneg 2 k). split.
  - intros E. assert (be_val a = be_val b) by nia. split; [by apply be_val_inj|]. nia.
  - intros [-> ->]. done.
Qed.

Lemma split_at_byte (a : list Z) n :
  (n < length a)%nat → a = take n a ++ (a !!! n) :: drop (S n) a.
Proof.
  intros H. destruct (lookup_lt_is_Some_2 a n H) as [x Hx].
  rewrite (list_lookup_total_correct _ _ _ Hx). by rewrite take_drop_middle.
Qed.

(** [is_same_net6] compares exactly the first [prefixlen] bits of two IPv6
    addresses, for every prefix length from 0 to 128. *)
Theorem is_same_net6_correct a b prefixlen :
  wf_in6_addr a → wf_in6_addr b → 0 ≤ prefixlen ≤ 128 →
  is_same_net6 a b prefixlen =
    (be_val a / 2 ^ (128 - prefixlen) =? be_val b / 2 ^ (128 - prefixlen)).
Proof.
  intros [Hla Ha] [Hlb Hb] Hp. unfold is_same_net6.
  change 7 with (Z.ones 3). rewrite Z.land_ones, Z.shiftr_div_pow2 by lia. change (2 ^ 3) with 8.
  set (n := Z.to_nat (prefixlen / 8)). set (k := prefixlen mod 8).
  assert (prefixlen = 8 * Z.of_nat n + k ∧ 0 ≤ k < 8) as [Hpk Hk] by (subst n k; dlia).
  clearbody n k.
  destruct (decide (n < 16)%nat) as [Hn|Hn].
  - pose proof (high_bits_eq (take n a) (take n b) (a !!! n) (b !!! n) (drop (S n) a) (drop (S n) b) k) as H.
    rewrite <- !split_at_byte in H by lia. unfold zlen in H. rewrite !length_drop, Hla, Hlb in H.
    replace (8 - k + 8 * Z.of_nat (16 - S n)) with (128 - prefixlen) in H by lia.
    specialize (H ltac:(rewrite !length_take; lia) eq_refl Ha Hb ltac:(lia)).
    rewrite !Z.shiftr_div_pow2 by lia.
    assert (∀ x, is_byte x → x / 2 ^ (8 - 0) = 0) as H0 by (intros x Hx; apply Z.div_small; exact Hx).
    assert (∀ l : list Z, (n < length l)%nat → Forall is_byte l → is_byte (l !!! n)) as Hnth.
    { intros l Hl Hf. destruct (lookup_lt_is_Some_2 l n Hl) as [x Hx].
      rewrite (list_lookup_total_correct _ _ _ Hx). by eapply Forall_lookup_1. }
    destruct (Z.eqb_spec (be_val a / 2 ^ (128 - prefixlen)) (be_val b / 2 ^ (128 - prefixlen))) as [E|E].
    + apply H in E as [Et Ex]. rewrite bool_decide_eq_true_2 by done. simpl.
      destruct (k =? 0); [done|]. by apply Z.eqb_eq.
    + case_bool_decide as Et; simpl; [|done].
      destruct (Z.eqb_spec k 0) as [Hk0|].
      * exfalso. apply E, H. split; [done|]. rewrite Hk0, !H0 by (apply Hnth; [lia|done]). done.
      * apply Z.eqb_neq. intros Ex. by apply E, H.
  - assert (n = 16%nat) as -> by lia. assert (k = 0) as -> by lia. replace (128 - prefixlen) with 0 by lia.
    rewrite !Z.div_1_r, !take_ge by lia. simpl.
    case_bool_decide as E; symmetry; [rewrite E; apply Z.eqb_refl|]. apply Z.eqb_neq.
    intros He. apply E. apply be_val_inj; congruence.
Qed.

Lemma is_same_net6_correct_witness :
  is_same_net6 ([32; 1; 13; 184] ++ repeat 0 12) ([32; 1; 13; 191] ++ repeat 1 12) 29 = true.
Proof.
  rewrite (is_same_net6_correct ([32; 1; 13; 184] ++ repeat 0 12) ([32; 1; 13; 191] ++ repeat 1 12) 29);
    [reflexivity| | |lia]; (split; [reflexivity|]); unfold is_byte; repeat constructor; lia.
Defined.

(** * The host part of an IPv6 address *)

Lemma addr6part_val addr :
  wf_in6_addr addr → addr6part addr = be_val (drop 8 addr) ∧ 0 ≤ addr6part addr < 2 ^ 64.
Proof.
  intros [Hl Hb]. assert (Forall is_byte (drop 8 addr)) as Hd by by apply Forall_drop.
  assert (zlen (drop 8 addr) = 8) as Hz by (unfold zlen; rewrite length_drop; lia).
  assert (∀ l, Forall is_byte l → zlen l ≤ 8 →
    foldl (λ ret b, u64 (u64 (Z.shiftl ret 8) + b)) 0 l = be_val l) as Hf.
  { clear. intros l. induction l as [|x l IH] using rev_ind; intros Hb Hl; [done|].
    apply Forall_snoc in Hb as [Hb Hx]. rewrite foldl_app, be_val_snoc.
    rewrite zlen_app in Hl. change (zlen [x]) with 1 in Hl. cbn [foldl]. rewrite IH by (done || lia).
    pose proof (be_val_bound l Hb) as Hv. unfold is_byte in Hx.
    assert (256 ^ zlen l ≤ 256 ^ 7) by (apply Z.pow_le_mono_r; lia).
    rewrite Z.shiftl_mul_pow2 by lia. change (2 ^ 8) with 256. change (256 ^ 7) with 72057594037927936 in *.
    rewrite (u64_id (be_val l * 256)) by lia. apply u64_id. lia. }
  unfold addr6part. rewrite Hf by (done || lia). split; [done|].
  pose proof (be_val_bound _ Hd) as H. rewrite Hz in H. exact H.
Qed.

Lemma setaddr6_loop_spec n addr host :
  (n ≤ 8)%nat → wf_in6_addr addr → 0 ≤ host →
  setaddr6_loop n addr host = take 8 addr ++ be_bytes n host ++ drop (8 + n) addr.
Proof.
  revert addr host. induction n as [|n IH]; intros addr host Hn [Hl Hb] Hh.
  - simpl. by rewrite take_drop.
  - cbn [setaddr6_loop]. rewrite Z.shiftr_div_pow2 by lia. change (2 ^ 8) with 256.
    rewrite IH; [|lia| |apply Z.div_pos; lia].
    + rewrite take_insert_ge by lia.
      rewrite (drop_S _ (u8 host)) by (rewrite list_lookup_insert_eq; [done|lia]).
      rewrite drop_insert_lt by lia. by rewrite be_bytes_S, <- app_assoc.
    + split; [by rewrite length_insert|]. apply Forall_insert; [done|apply u8_byte].
Qed.

(** [setaddr6part] and [addr6part] are inverse: setting the host part of an
    address to any 64 bit value reads back as that value and leaves the network
    half alone, and writing back the host part read changes nothing. *)
Theorem addr6part_round_trip addr host :
  wf_in6_addr addr → 0 ≤ host < 2 ^ 64 →
  wf_in6_addr (setaddr6part addr host) ∧
  addr6part (setaddr6part addr host) = host ∧
  take 8 (setaddr6part addr host) = take 8 addr ∧
  setaddr6part addr (addr6part addr) = addr.
Proof.
  intros Hw Hh. assert (∀ h, 0 ≤ h < 2 ^ 64 →
    setaddr6part addr h = take 8 addr ++ be_bytes 8 h) as Hset.
  { intros h Hh'. unfold setaddr6part. rewrite u64_id by exact Hh'.
    rewrite setaddr6_loop_spec by (lia || done). rewrite drop_ge by (destruct Hw; lia).
    by rewrite app_nil_r. }
  destruct (addr6part_val addr Hw) as [Hv Hvb]. destruct Hw as [Hl Hb].
  assert (length (take 8 addr) = 8%nat) as Hl8 by (rewrite length_take; lia).
  assert (wf_in6_addr (setaddr6part addr host)) as Hw'.
  { rewrite Hset by done. split; [by rewrite length_app, length_be_bytes, Hl8|].
    apply Forall_app. split; [by apply Forall_take|apply be_bytes_byte]. }
  split_and!; [done| | |].
  - destruct (addr6part_val _ Hw') as [-> _]. rewrite Hset, drop_app_length' by done.
    by apply be_val_bytes.
  - rewrite Hset by done. by rewrite take_app_length'.
  - rewrite Hset, Hv by done. rewrite <- (take_drop 8 addr) at 3. f_equal.
    apply be_val_inj; [rewrite length_be_bytes, length_drop; lia|apply be_bytes_byte|by apply Forall_drop|].
    apply be_val_bytes. rewrite <- Hv. exact Hvb.
Qed.

Lemma addr6part_round_trip_witness :
  addr6part (setaddr6part (repeat 32 16) 258) = 258.
Proof.
  apply (addr6part_round_trip (repeat 32 16) 258); [|lia].
  split; [reflexivity|]. unfold is_byte. repeat constructor; lia.
Defined.

(** * The rebind ranges *)

Definition in_net (ip net size : Z) : Prop := net ≤ ip < net + size.

Lemma in_net_mask ip k q :
  0 ≤ k ≤ 32 → 0 ≤ ip < 2 ^ 32 →
  (Z.land ip (2 ^ 32 - 2 ^ k) =? q * 2 ^ k) = true ↔ in_net ip (q * 2 ^ k) (2 ^ k).
Proof.
  intros Hk Hip. rewrite land_high_mask by lia. rewrite Z.eqb_eq. unfold in_net.
  pose proof (Z.pow_pos_nonneg 2 k). split.
  - intros E. apply Z.mul_cancel_r in E; [|lia]. subst q.
    pose proof (Z.div_mod ip (2 ^ k)). pose proof (Z.mod_pos_bound ip (2 ^ k)). lia.
  - intros Hr. f_equal. symmetry. apply (Z.div_unique_pos ip (2 ^ k) q (ip - q * 2 ^ k)); lia.
Qed.

(** The rebind protection's [private_net] answers yes exactly for the
    loopback and "this" networks when they are banned, and always for
    10/8, 172.16/12, 192.168/16, 169.254/16, the three test networks and the
    broadcast address. *)
Theorem private_net_correct addr ban :
  wf_in_addr addr →
  private_net addr ban = true ↔
  (ban = true ∧ (in_net (ntohl addr) 0x7F000000 (2 ^ 24) ∨ in_net (ntohl addr) 0 (2 ^ 24))) ∨
  in_net (ntohl addr) 0x0A000000 (2 ^ 24) ∨
  in_net (ntohl addr) 0xAC100000 (2 ^ 20) ∨
  in_net (ntohl addr) 0xC0A80000 (2 ^ 16) ∨
  in_net (ntohl addr) 0xA9FE0000 (2 ^ 16) ∨
  in_net (ntohl addr) 0xC0000200 (2 ^ 8) ∨
  in_net (ntohl addr) 0xC6336400 (2 ^ 8) ∨
  in_net (ntohl addr) 0xCB007100 (2 ^ 8) ∨
  ntohl addr = 0xFFFFFFFF.
Proof.
  intros Hw%wf_in_addr_val. unfold private_net. set (ip := ntohl addr) in *. clearbody ip.
  rewrite !orb_true_iff, !andb_true_iff.
  assert (∀ k q m n, 0 ≤ k ≤ 32 → m = 2 ^ 32 - 2 ^ k → n = q * 2 ^ k →
    (Z.land ip m =? n) = true ↔ in_net ip n (2 ^ k)) as H
    by (intros k q m n Hk -> ->; by apply in_net_mask).
  rewrite (H 24 0x7F 0xFF000000 0x7F000000), (H 24 0 0xFF000000 0), (H 24 0x0A 0xFF000000),
    (H 20 0xAC1), (H 16 0xC0A8), (H 16 0xA9FE), (H 8 0xC00002), (H 8 0xC63364), (H 8 0xCB0071),
    (H 0 0xFFFFFFFF) by (lia || reflexivity).
  assert (in_net ip 0xFFFFFFFF (2 ^ 0) ↔ ip = 0xFFFFFFFF) as ->
    by (unfold in_net; change (2 ^ 0) with 1; lia).
  tauto.
Qed.

Lemma private_net_correct_witness :
  private_net [172; 31; 255; 1] false = true.
Proof.
  apply (private_net_correct [172; 31; 255; 1] false).
  - split; [reflexivity|]. unfold is_byte. repeat constructor; lia.
  - right. right. left. vm_compute. split; [discriminate|reflexivity].
Defined.

(** * Masked comparison *)

(** The positions compared: those whose bit is clear. *)
Definition compared (len : nat) (mask : Z) : list nat :=
  filter (λ i, Z.testbit mask (Z.of_nat (len - 1 - i)) = false) (seq 0 len).

Lemma compared_S len mask :
  compared (S len) mask =
    compared len (Z.shiftr mask 1) ++ if Z.testbit mask 0 then [] else [len].
Proof.
  unfold compared. rewrite seq_S, filter_app. f_equal.
  - apply filter_iff_in. intros i [_ Hi]%elem_of_seq. rewrite Z.shiftr_spec by lia.
    replace (Z.of_nat (len - 1 - i) + 1) with (Z.of_nat (S len - 1 - i)) by lia. done.
  - rewrite filter_cons, filter_nil. replace (S len - 1 - (0 + len))%nat with 0%nat by lia.
    change (Z.of_nat 0) with 0. case_decide as E; destruct (Z.testbit mask 0); done.
Qed.

Lemma memcmp_masked_loop_spec a b n mask count :
  0 ≤ mask → 0 < count →
  memcmp_masked_loop a b n mask count =
    if decide (Forall (λ i, a !!! i = b !!! i) (compared n mask))
    then count + zlen (compared n mask) else 0.
Proof.
  revert mask count. induction n as [|n IH]; intros mask count Hm Hc.
  { rewrite decide_True by constructor. change (count = count + 0). lia. }
  cbn [memcmp_masked_loop]. rewrite compared_S.
  assert (Z.land mask 1 = Z.b2z (Z.testbit mask 0)) as ->
    by (rewrite Z.bit0_mod; apply (Z.land_ones mask 1); lia).
  assert (0 ≤ Z.shiftr mask 1) by by apply Z.shiftr_nonneg.
  destruct (Z.testbit mask 0) eqn:Eb; cbn [Z.b2z].
  - rewrite app_nil_r. change (1 =? 0) with false. cbn iota. by rewrite IH by lia.
  - rewrite Z.eqb_refl, zlen_app. change (zlen [n]) with 1.
    destruct (Z.eqb_spec (a !!! n) (b !!! n)) as [E|E].
    + rewrite IH by lia. rewrite <- Z.add_assoc, (Z.add_comm 1).
      apply decide_ext. rewrite Forall_snoc. naive_solver.
    + rewrite decide_False; [done|]. rewrite Forall_snoc. naive_solver.
Qed.

(** Hardware address matching with wildcards: [memcmp_masked] is zero when
    some byte outside the wildcards differs and otherwise one more than the
    number of bytes compared, so that a more specific match scores higher. *)
Theorem memcmp_masked_correct a b len mask :
  0 ≤ mask →
  memcmp_masked a b len mask =
    if decide (Forall (λ i, a !!! i = b !!! i) (compared len mask))
    then 1 + zlen (compared len mask) else 0.
Proof. intros. by apply memcmp_masked_loop_spec. Qed.

Lemma memcmp_masked_correct_witness :
  memcmp_masked [1; 2; 3; 4; 5; 6] [1; 9; 3; 4; 5; 6] 6 16 = 6.
Proof. rewrite (memcmp_masked_correct _ _ 6 16); [reflexivity|lia]. Defined.

(** * Hardware addresses, printed and parsed *)

Lemma hexdigit_facts n :
  0 ≤ n < 16 →
  isxdigit (hexdigit n) = true ∧ xval (hexdigit n) = n ∧
  hexdigit n ≠ 58 ∧ hexdigit n ≠ 45 ∧ hexdigit n ≠ space ∧ hexdigit n ≠ star.
Proof.
  intros Hn. unfold isxdigit, xval, hexdigit, isdigit, space, star.
  destruct (Z.ltb_spec n 10); repeat split; try lia.
  - replace (48 <=? 48 + n) with true by lia. replace (48 + n <=? 57) with true by lia. simpl. lia.
  - replace (87 + n <=? 57) with false by lia. rewrite andb_false_r.
    replace (87 + n <=? 70) with false by lia. lia.
Qed.

Lemma hex_token_hex2 b s t r :
  is_byte b → hex_token s = Some (t, r) → hex_token (hex2 b ++ s) = Some (hex2 b ++ t, r).
Proof.
  unfold is_byte. intros Hb Es. unfold hex2.
  destruct (hexdigit_facts (b / 16)) as (A1 & _ & A2 & A3 & A4 & A5); [dlia|].
  destruct (hexdigit_facts (b mod 16)) as (B1 & _ & B2 & B3 & B4 & B5); [dlia|].
  apply Z.eqb_neq in A2, A3, A4, A5, B2, B3, B4, B5.
  simpl. rewrite A1, A2, A3, A4, A5, B1, B2, B3, B4, B5. simpl. by rewrite Es.
Qed.

Lemma strtol16_hex2 b : is_byte b → strtol16 (hex2 b) = b.
Proof.
  unfold is_byte. intros Hb. unfold strtol16, hex2.
  destruct (hexdigit_facts (b / 16)) as (A1 & A2 & _); [dlia|].
  destruct (hexdigit_facts (b mod 16)) as (B1 & B2 & _); [dlia|].
  simpl. rewrite A1, A2, B1, B2. unfold LONG_MAX. dlia.
Qed.

Lemma hex_bytes_hex2 maxlen b i out out' ty :
  is_byte b → wr out i b = Ok out' →
  hex_bytes maxlen 2 (hex2 b) (HexSt i out 0 ty) = Ok (HexSt (i + 1) out' 0 ty).
Proof.
  intros Hb Hw. cbn [hex_bytes]. change (take 2 (hex2 b)) with (hex2 b).
  rewrite strtol16_hex2 by done.
  destruct (hexdigit_facts (b / 16)) as (_ & _ & _ & _ & _ & A); [unfold is_byte in *; dlia|].
  destruct (hexdigit_facts (b mod 16)) as (_ & _ & _ & _ & _ & B); [unfold is_byte in *; dlia|].
  unfold hex2 at 1 2. cbn [existsb].
  replace (star =? hexdigit (b / 16)) with false by lia.
  replace (star =? hexdigit (b mod 16)) with false by lia.
  cbn [orb hx_i hx_out hx_mask hx_type]. rewrite Hw. simpl. by case_match.
Qed.

Lemma wr_at (pre : list Z) old rest b :
  is_byte b → wr (pre ++ old :: rest) (zlen pre) b = Ok ((pre ++ [b]) ++ rest).
Proof. intros Hb. by rewrite wr_middle, u8_id, <- app_assoc. Qed.

Lemma parse_hex_loop_mac maxlen w mac fuel pre old rest ty :
  Forall is_byte mac → mac ≠ [] → length old = length mac →
  zlen pre + zlen mac ≤ maxlen → (length mac < fuel)%nat →
  parse_hex_loop maxlen w fuel (print_mac_loop mac) (HexSt (zlen pre) (pre ++ old ++ rest) 0 ty) =
    Ok (HexSt (zlen pre + zlen mac) (pre ++ mac ++ rest) 0 ty).
Proof.
  revert fuel pre old. induction mac as [|b mac IH]; intros fuel pre old Hb Hne Hlen Hmax Hfuel; [done|].
  apply Forall_cons in Hb as [Hb Hmac]. destruct old as [|o old]; [done|].
  destruct fuel as [|fuel]; [simpl in *; lia|]. rewrite zlen_cons in *.
  cbn [parse_hex_loop hx_i]. pose proof (zlen_nonneg mac).
  replace (zlen pre <? maxlen) with true by lia. rewrite orb_true_r.
  pose proof (wr_at pre o (old ++ rest) b Hb) as Hw.
  pose proof (hex_bytes_hex2 maxlen b (zlen pre) _ _ ty Hb Hw) as Hhb.
  destruct mac as [|b' mac].
  - pose proof (hex_token_hex2 b [] [] [] Hb eq_refl) as Ht. rewrite !app_nil_r in Ht.
    cbn [print_mac_loop]. rewrite Ht. cbn [hex2]. fold (hex2 b). change (deref []) with 0. cbn [andb].
    change (0 =? 45) with false. cbn [andb].
    rewrite bool_decide_false by done. change (length (hex2 b)) with 2%nat.
    cbn [app] in *. rewrite Hhb. simpl. destruct old; [|done].
    by rewrite <- app_assoc.
  - change (print_mac_loop (b :: b' :: mac)) with (hex2 b ++ 58 :: print_mac_loop (b' :: mac)).
    rewrite (hex_token_hex2 b (58 :: print_mac_loop (b' :: mac)) [] _ Hb eq_refl), app_nil_r.
    cbn [hex2]. fold (hex2 b). cbn [deref]. change (58 =? 45) with false. cbn [andb].
    rewrite bool_decide_false by done. change (length (hex2 b)) with 2%nat.
    cbn [app] in *. rewrite Hhb. cbn [mbind res_bind fst snd].
    replace (zlen pre + 1) with (zlen (pre ++ [b])) by (rewrite zlen_app; done).
    rewrite (IH fuel (pre ++ [b]) old) by (done || simpl in *; rewrite ?zlen_app; unfold zlen in *; simpl in *; lia).
    rewrite zlen_app. change (zlen [b]) with 1. rewrite <- !app_assoc. do 2 f_equal. lia.
Qed.

Lemma print_mac_loop_length mac : mac ≠ [] → (length mac ≤ length (print_mac_loop mac))%nat.
Proof. induction mac as [|b [|b' mac] IH]; simpl in *; [done|lia|]. intros _. specialize (IH ltac:(done)). lia. Qed.

(** Printing a hardware address and parsing it back is the identity: the
    bytes land at the start of the output buffer, the wildcard mask is empty
    and the hardware type stays 0. *)
Theorem mac_round_trip mac old rest maxlen want_type :
  Forall is_byte mac → mac ≠ [] → length old = length mac → zlen mac ≤ maxlen →
  parse_hex (print_mac mac) (old ++ rest) maxlen want_type =
    Ok (zlen mac, mac ++ rest, 0, if want_type then Some 0 else None).
Proof.
  intros Hb Hne Hl Hm. assert (print_mac mac = print_mac_loop mac) as -> by by destruct mac.
  unfold parse_hex. pose proof (print_mac_loop_length mac Hne).
  rewrite (parse_hex_loop_mac maxlen want_type mac _ [] old rest) by (done || rewrite ?zlen_nil; lia).
  done.
Qed.

Lemma mac_round_trip_witness :
  parse_hex (print_mac [0; 26; 255]) [9; 9; 9; 9] 16 true = Ok (3, [0; 26; 255; 9], 0, Some 0).
Proof.
  apply (mac_round_trip [0; 26; 255] [9; 9; 9] [9] 16 true); try done.
  unfold is_byte. repeat constructor; lia.
Defined.
