(* ===== verification/RRFilter.v ===== *)
(** Removing resource records from a packet (src/src/rrfilter.c): the four
    passes of [rrfilter], the descriptor table of the types that hold names and
    the growing workspace.

    The static array [rrs] is a list, its capacity the length of the list; its
    contents at entry, left by an earlier call, are an argument. *)
From S2P Require Import Prelude Hostname Wire WireSafe WireSpec.

Definition RRFILTER_EDNS0 : Z := 0.
Definition RRFILTER_DNSSEC : Z := 1.
Definition RRFILTER_A : Z := 2.
Definition RRFILTER_AAAA : Z := 3.

(** * Types that hold names *)

(** [(u16)-1], the end of a descriptor. *)
Definition END_DESC : Z := 65535.

Definition rr_desc : list Z :=
  [ T_NS; 0; END_DESC;
    T_MD; 0; END_DESC;
    T_MF; 0; END_DESC;
    T_CNAME; 0; END_DESC;
    T_SOA; 0; 0; END_DESC;
    T_MB; 0; END_DESC;
    T_MG; 0; END_DESC;
    T_MR; 0; END_DESC;
    T_PTR; 0; END_DESC;
    T_MINFO; 0; 0; END_DESC;
    T_MX; 2; 0; END_DESC;
    T_RP; 0; 0; END_DESC;
    T_AFSDB; 2; 0; END_DESC;
    T_RT; 2; 0; END_DESC;
    T_SIG; 18; 0; END_DESC;
    T_PX; 2; 0; 0; END_DESC;
    T_NXT; 0; END_DESC;
    T_KX; 2; 0; END_DESC;
    T_SRV; 6; 0; END_DESC;
    T_DNAME; 0; END_DESC;
    0; END_DESC ].

(** [while (p++[0] != (u16)-1)]: what follows the descriptor. *)
Fixpoint skip_desc (p : list Z) : list Z :=
  match p with
  | [] => []
  | d :: p => if d =? END_DESC then p else skip_desc p
  end.

Fixpoint find_desc (fuel : nat) (type : Z) (p : list Z) : res (list Z) :=
  match fuel, p with
  | O, _ => NoFuel
  | _, [] => Oob
  | S fuel, d :: q => if negb (d =? type) && negb (d =? 0) then find_desc fuel type (skip_desc p) else Ok q
  end.

(** What follows the type in the table, up to the end of the table: the caller
    stops at [END_DESC]. One turn per row. *)
Definition rrfilter_desc (type : Z) : res (list Z) := find_desc 22 type rr_desc.

(** * The workspace *)

(** [alloc] is the result of [whine_malloc]. [None] is the result 0. The new
    array holds the old entries, and junk (zero here) after them. *)
Definition expand_workspace (alloc : Z → bool) (wkspc : list Z) (new : Z) : option (list Z) :=
  let old := zlen wkspc in
  if new + 1 <=? old then Some wkspc
  else if 100 <=? new then None
  else
    let new := new + 5 in
    if alloc new then Some (wkspc ++ repeat 0 (Z.to_nat (new - old))) else None.

(** A store into the workspace. *)
Definition set_rr (rrs : list Z) (i v : Z) : res (list Z) :=
  if (i <? 0) || (zlen rrs <=? i) then Oob else Ok (<[Z.to_nat i := v]> rrs).

(** * Names *)

(** The loop over [rrs]: its final index and the scaled offset. [prev] is the
    entry before the one at hand. *)
Fixpoint scale_pointer (p : Z) (rrs : list Z) (i : nat) (prev offset : Z) : nat * Z :=
  match rrs with
  | [] => (i, offset)
  | r :: rrs =>
      if p <? r then (i, offset)
      else scale_pointer p rrs (S i) r (if Nat.odd i then u32 (offset - (r - prev)) else offset)
  end.

Section pass.
Context (plen : Z) (fixup : bool) (rrs : list Z).

(** The buffer and the advanced [*namep]; [Bad] is the result 0. *)
Fixpoint check_name_loop (fuel : nat) (buf : list Z) (ansp : Z) : res (list Z * Z) :=
  match fuel with
  | O => NoFuel
  | S fuel =>
      _ ← guard_ok (CHECK_LEN ansp plen 1);
      b ← rd buf ansp;
      let label_type := Z.land b 192 in
      if label_type =? 192 then
        _ ← guard_ok (CHECK_LEN ansp plen 2);
        b1 ← rd buf (ansp + 1);
        let offset := Z.lor (Z.shiftl (Z.land b 63) 8) b1 in
        let '(i, offset) := scale_pointer offset rrs 0 0 offset in
        if Nat.odd i then Bad
        else if fixup then
          buf ← wr buf ansp (Z.lor (Z.shiftr offset 8) 192);
          buf ← wr buf (ansp + 1) (Z.land offset 255);
          Ok (buf, ansp + 2)
        else Ok (buf, ansp + 2)
      else if label_type =? 128 then Bad
      else if label_type =? 64 then
        _ ← guard_ok (CHECK_LEN ansp plen 2);
        _ ← guard_ok (Z.land b 63 =? 1);
        count ← rd buf (ansp + 1);
        let ansp := ansp + 2 in
        check_name_loop fuel buf
          (if count =? 0 then ansp + 32 else ansp + (Z.shiftr (count - 1) 3 + 1))
      else
        let len := Z.land b 63 in
        ansp ← ADD_RDLEN (ansp + 1) plen len;
        if len =? 0 then Ok (buf, ansp) else check_name_loop fuel buf ansp
  end.

Definition check_name (buf : list Z) (namep : Z) : res (list Z * Z) :=
  check_name_loop (S (Z.to_nat plen)) buf namep.

(** * Records *)

(** The names in the data of a record, as its descriptor [ds] places them. The
    second result is false for [return 0]; what was fixed up before stays. *)
Fixpoint check_desc (ds : list Z) (buf : list Z) (pp : Z) : res (list Z * bool) :=
  match ds with
  | [] => Oob
  | d :: ds =>
      if d =? END_DESC then Ok (buf, true)
      else if negb (d =? 0) then check_desc ds buf (pp + d)
      else
        r ← catch (check_name buf pp);
        match r with
        | None => Ok (buf, false)
        | Some (buf, pp) => check_desc ds buf pp
        end
  end.

(** Is the record that starts at [pp] to be elided? *)
Fixpoint is_start (rrs : list Z) (pp : Z) : bool :=
  match rrs with
  | s :: _ :: rrs => (s =? pp) || is_start rrs pp
  | [s] => s =? pp
  | [] => false
  end.

(** Type, class and data length of the record at [p], and where the data is. *)
Definition rr_header (buf : list Z) (p : Z) : res (Z * Z * Z * Z) :=
  p ← skip_name buf plen p 10;
  '(type, p) ← GETSHORT buf p;
  '(class, p) ← GETSHORT buf p;
  '(rdlen, p) ← GETSHORT buf (p + 4);
  Ok (type, class, rdlen, p).

Definition check_rr (buf : list Z) (pp p type class : Z) : res (list Z * bool) :=
  if is_start rrs pp then Ok (buf, true)
  else
    r ← catch (check_name buf pp);
    match r with
    | None => Ok (buf, false)
    | Some (buf, _) =>
        if class =? C_IN then ds ← rrfilter_desc type; check_desc ds buf p
        else Ok (buf, true)
    end.

Fixpoint check_rrs_loop (n : nat) (buf : list Z) (p : Z) : res (list Z * bool) :=
  match n with
  | O => Ok (buf, true)
  | S n =>
      h ← catch (rr_header buf p);
      match h with
      | None => Ok (buf, false)
      | Some (type, class, rdlen, q) =>
          '(buf, ok) ← check_rr buf p q type class;
          if ok && CHECK_LEN q plen rdlen then check_rrs_loop n buf (q + rdlen) else Ok (buf, false)
      end
  end.

(** The counts are read once: no fix-up touches the header. *)
Definition check_rrs (buf : list Z) (p : Z) : res (list Z * bool) :=
  an ← ancount buf; ns ← nscount buf; ar ← arcount buf;
  check_rrs_loop (Z.to_nat (an + ns + ar)) buf p.
End pass.

(** * The filter *)

Inductive verdict := Elide | Continue | Break.

(** What the first pass does with record number [i]. *)
Definition rr_verdict (mode an ns qtype qclass i type class : Z) : verdict :=
  if mode =? RRFILTER_EDNS0 then
    if (i <? ns + an) || negb (type =? T_OPT) then Continue else Elide
  else if mode =? RRFILTER_DNSSEC then
    if negb (type =? T_NSEC) && negb (type =? T_NSEC3) && negb (type =? T_RRSIG) then Continue
    else if (i <? an) && (type =? qtype) && (class =? qclass) then Continue else Elide
  else
    if an <=? i then Break
    else if negb (class =? C_IN) then Continue
    else if (mode =? RRFILTER_A) && negb (type =? T_A) then Continue
    else if (mode =? RRFILTER_AAAA) && negb (type =? T_AAAA) then Continue
    else Elide.

Record found := Found { f_rrs : list Z; rr_found : Z; chop_an : Z; chop_ns : Z; chop_ar : Z }.

(** The first pass; [Bad] is [return plen]. *)
Fixpoint find_rrs (alloc : Z → bool) (buf : list Z) (plen mode an ns qtype qclass : Z)
    (n : nat) (i p : Z) (f : found) : res found :=
  match n with
  | O => Ok f
  | S n =>
      '(type, class, rdlen, q) ← rr_header plen buf p;
      q ← ADD_RDLEN q plen rdlen;
      match rr_verdict mode an ns qtype qclass i type class with
      | Break => Ok f
      | Continue => find_rrs alloc buf plen mode an ns qtype qclass n (i + 1) q f
      | Elide =>
          match expand_workspace alloc (f_rrs f) (rr_found f + 1) with
          | None => Bad
          | Some rrs =>
              rrs ← set_rr rrs (rr_found f) p;
              rrs ← set_rr rrs (rr_found f + 1) q;
              find_rrs alloc buf plen mode an ns qtype qclass n (i + 1) q
                (Found rrs (rr_found f + 2)
                   (if i <? an then chop_an f + 1 else chop_an f)
                   (if (an <=? i) && (i <? ns + an) then chop_ns f + 1 else chop_ns f)
                   (if ns + an <=? i then chop_ar f + 1 else chop_ar f))
          end
      end
  end.

(** [memmove(p, start, end - start)]. *)
Definition memmove (buf : list Z) (p start len : Z) : res (list Z) :=
  if (len <? 0) || (start <? 0) || (zlen buf <? start + len) then Oob
  else put_bytes buf p (slice buf start (Z.to_nat len)).

(** The fourth pass. [ends] is [rrs] from index [i] on: the end of an elided
    record, then the start of the next one if there is one. *)
Fixpoint elide (plen : Z) (ends : list Z) (buf : list Z) (p : Z) : res (list Z * Z) :=
  match ends with
  | [] => Ok (buf, p)
  | [start] =>
      buf ← memmove buf p start (plen - start);
      Ok (buf, p + (plen - start))
  | start :: next :: ends =>
      buf ← memmove buf p start (next - start);
      elide plen ends buf (p + (next - start))
  end.

(** The third pass: a question or record that fails ends it, what was fixed up
    before stays. *)
Definition fixup_names (plen : Z) (rrs : list Z) (buf : list Z) : res (list Z) :=
  q ← catch (check_name plen true rrs buf HDRSZ);
  let '(buf, p) := default (buf, HDRSZ) q in
  '(buf, _) ← check_rrs plen true rrs buf (p + 4);
  Ok buf.

(** The packet and its new length. *)
Definition rrfilter (alloc : Z → bool) (wkspc : list Z) (buf : list Z) (plen mode : Z)
    : res (list Z * Z) :=
  qd ← qdcount buf;
  if negb (qd =? 1) then Ok (buf, plen)
  else
    an ← ancount buf; ns ← nscount buf; ar ← arcount buf;
    r ← catch (
      p ← skip_name buf plen HDRSZ 4;
      '(qtype, p) ← GETSHORT buf p;
      '(qclass, p) ← GETSHORT buf p;
      find_rrs alloc buf plen mode an ns qtype qclass (Z.to_nat (an + ns + ar)) 0 p
        (Found wkspc 0 0 0 0));
    match r with
    | None => Ok (buf, plen)
    | Some f =>
        if rr_found f =? 0 then Ok (buf, plen)
        else
          let rrs := take (Z.to_nat (rr_found f)) (f_rrs f) in
          q ← catch (check_name plen false rrs buf HDRSZ);
          match q with
          | None => Ok (buf, plen)
          | Some (_, p) =>
              '(_, ok) ← check_rrs plen false rrs buf (p + 4);
              if negb ok then Ok (buf, plen)
              else
                buf ← fixup_names plen rrs buf;
                '(buf, p) ← elide plen (tail rrs) buf (hd 0 rrs);
                '(buf, _) ← PUTSHORT buf 6 (an - chop_an f);
                '(buf, _) ← PUTSHORT buf 8 (ns - chop_ns f);
                '(buf, _) ← PUTSHORT buf 10 (ar - chop_ar f);
                Ok (buf, p)
          end
    end.
