(* ===== verification/RRFilterSpec.v ===== *)
(** Correctness of [RRFilter]: which records are elided, where every byte that
    stays ends up, that compression pointers follow, and that no packet takes
    the filter outside its buffer. *)
From S2P Require Import Prelude Hostname Wire WireSafe WireSpec RRFilter.

(** * The layout the filter aims at *)

(** The elided records as intervals of offsets; the workspace holds them
    flattened. *)
Fixpoint flat (ivs : list (Z * Z)) : list Z :=
  match ivs with [] => [] | (s, e) :: ivs => s :: e :: flat ivs end.

(** Disjoint, in order, between [lo] and [hi]. *)
Fixpoint spans (lo hi : Z) (ivs : list (Z * Z)) : Prop :=
  match ivs with
  | [] => lo ≤ hi
  | (s, e) :: ivs => lo ≤ s ∧ s < e ∧ spans e hi ivs
  end.

Definition elided (ivs : list (Z * Z)) (o : Z) : Prop := Exists (λ iv, iv.1 ≤ o < iv.2) ivs.

Lemma elided_cons s e ivs o : elided ((s, e) :: ivs) o ↔ s ≤ o < e ∨ elided ivs o.
Proof. unfold elided. by rewrite Exists_cons. Qed.

(** Bytes elided before offset [o], and in total. *)
Fixpoint removed (ivs : list (Z * Z)) (o : Z) : Z :=
  match ivs with
  | [] => 0
  | (s, e) :: ivs => (if e <=? o then e - s else 0) + removed ivs o
  end.
Definition total (ivs : list (Z * Z)) : Z := foldr (λ iv n, iv.2 - iv.1 + n) 0 ivs.

(** Where the byte at [o] moves. *)
Definition reloc (ivs : list (Z * Z)) (o : Z) : Z := o - removed ivs o.

Lemma flat_app a b : flat (a ++ b) = flat a ++ flat b.
Proof. induction a as [|[s e] a IH]; simpl; [done|]. by rewrite IH. Qed.

Lemma spans_le lo hi ivs : spans lo hi ivs → lo ≤ hi.
Proof. revert lo. induction ivs as [|[s e] ivs IH]; intros lo; simpl; [done|]. intros (? & ? & ?%IH). lia. Qed.

Lemma spans_snoc lo mid hi ivs s e :
  spans lo mid ivs → mid ≤ s → s < e → e ≤ hi → spans lo hi (ivs ++ [(s, e)]).
Proof. revert lo. induction ivs as [|[s' e'] ivs IH]; intros lo; simpl; [lia|]. naive_solver. Qed.

Lemma spans_weaken lo lo' hi hi' ivs : spans lo hi ivs → lo' ≤ lo → hi ≤ hi' → spans lo' hi' ivs.
Proof.
  revert lo lo'. induction ivs as [|[s e] ivs IH]; intros lo lo'; simpl; [lia|].
  intros (? & ? & ?) ? ?. split_and!; [lia..|]. by eapply IH.
Qed.

Lemma spans_below lo hi ivs o : spans lo hi ivs → o < lo → ¬ elided ivs o ∧ removed ivs o = 0.
Proof.
  revert lo. induction ivs as [|[s e] ivs IH]; intros lo; simpl.
  { intros _ _. split; [|done]. intros H; by apply Exists_nil in H. }
  intros (? & ? & Hs) Ho. destruct (IH e Hs) as [Hn Hr]; [lia|].
  replace (e <=? o) with false by lia. split; [|lia].
  rewrite elided_cons. intros [?|?]; [lia|done].
Qed.

Lemma total_bound lo hi ivs : spans lo hi ivs → 0 ≤ total ivs ≤ hi - lo.
Proof.
  revert lo. induction ivs as [|[s e] ivs IH]; intros lo; [simpl; lia|].
  intros (? & ? & Hs). specialize (IH e Hs). unfold total in *. simpl. lia.
Qed.

Lemma removed_total lo hi ivs o : spans lo hi ivs → hi ≤ o → removed ivs o = total ivs.
Proof.
  revert lo. induction ivs as [|[s e] ivs IH]; intros lo; [done|]. intros (? & ? & Hs) Ho.
  pose proof (spans_le _ _ _ Hs). unfold total in *. simpl.
  replace (e <=? o) with true by lia. rewrite (IH e Hs) by lia. done.
Qed.

#[global] Instance elided_dec ivs o : Decision (elided ivs o).
Proof. unfold elided. apply _. Defined.

(** * Pointers *)

(** The loop over [rrs] stops at an odd index exactly when the pointer leads
    into an elided record; otherwise the offset is the one the target moves
    to. *)
Lemma scale_pointer_flat lo hi ivs p i prev offset :
  spans lo hi ivs → Nat.odd i = false → 0 ≤ offset < 4294967296 → lo ≤ p → p - lo ≤ offset →
  let '(j, o) := scale_pointer p (flat ivs) i prev offset in
  Nat.odd j = bool_decide (elided ivs p) ∧ (¬ elided ivs p → o = offset - removed ivs p).
Proof.
  revert lo i prev offset. induction ivs as [|[s e] ivs IH]; intros lo i prev offset Hs Hi Ho Hlo Hp.
  { cbn [flat scale_pointer removed]. rewrite Hi, bool_decide_false by (intros H; by apply Exists_nil in H). split; [done|]. lia. }
  destruct Hs as (Hls & Hse & Hs). cbn [flat scale_pointer].
  pose proof (elided_cons s e ivs p) as Hel. cbn [removed]. destruct (Z.ltb_spec p s).
  { destruct (spans_below e hi ivs p Hs) as [Hn Hr]; [lia|]. rewrite Hr.
    rewrite Hi, bool_decide_false by (rewrite Hel; intros [?|?]; [lia|done]). split; [done|].
    replace (e <=? p) with false by lia. lia. }
  rewrite Hi. destruct (Z.ltb_spec p e).
  { rewrite Nat.odd_succ, <- Nat.negb_odd, Hi, bool_decide_true by (rewrite Hel; left; lia).
    split; [done|]. rewrite Hel. intros []. left. lia. }
  rewrite Nat.odd_succ, <- Nat.negb_odd, Hi. cbn [negb].
  rewrite u32_id by lia.
  specialize (IH e (S (S i)) e (offset - (e - s)) Hs).
  destruct (scale_pointer _ _ _ _ _) as [j o].
  destruct IH as [IH1 IH2]; [by rewrite Nat.odd_succ_succ|lia..|].
  rewrite IH1. replace (e <=? p) with true by lia. split.
  - apply bool_decide_ext. rewrite Hel. split; [by right|]. intros [?|?]; [lia|done].
  - rewrite Hel. intros Hn. rewrite IH2 by (contradict Hn; by right). lia.
Qed.

(** The target of a compression pointer from its two bytes. *)
Definition target (l b : Z) : Z := Z.lor (Z.shiftl (Z.land l 63) 8) b.

Lemma target_bound l b : is_byte l → is_byte b → 0 ≤ target l b < 16384.
Proof.
  intros Hl Hb. unfold target, is_byte in *. rewrite (lor_shiftl _ b 8) by lia.
  change 63 with (Z.ones 6). rewrite Z.land_ones by lia. change (2 ^ 6) with 64. dlia.
Qed.

(** The two bytes the fix-up stores encode the new offset. *)
Lemma target_encode o :
  0 ≤ o < 16384 →
  let l := u8 (Z.lor (Z.shiftr o 8) 192) in
  Z.land l 192 = 192 ∧ target l (u8 (Z.land o 255)) = o.
Proof.
  intros Ho l.
  assert (Z.shiftr o 8 = o / 256) as E by (rewrite Z.shiftr_div_pow2 by lia; done).
  assert (is_byte (o / 256)) as Hb by (unfold is_byte; dlia).
  assert (Z.land o 255 = o mod 256) as El by (change 255 with (Z.ones 8); by rewrite Z.land_ones by lia).
  assert (implb (o / 256 <? 64) ((Z.land (u8 (Z.lor (o / 256) 192)) 192 =? 192) &&
    (Z.land (u8 (Z.lor (o / 256) 192)) 63 =? o / 256)) = true) as Hc.
  { by apply (byte_cases (λ h, implb (h <? 64) ((Z.land (u8 (Z.lor h 192)) 192 =? 192) &&
      (Z.land (u8 (Z.lor h 192)) 63 =? h)))). }
  replace (o / 256 <? 64) with true in Hc by dlia. simpl in Hc. bool_hyps.
  unfold target. subst l. rewrite E, El. split; [done|].
  rewrite (lor_shiftl _ _ 8) by (unfold u8; dlia). replace (Z.land _ 63) with (o / 256) by done.
  unfold u8. dlia.
Qed.

Lemma removed_bound lo hi ivs o : spans lo hi ivs → lo ≤ o → 0 ≤ removed ivs o ≤ o - lo.
Proof.
  revert lo. induction ivs as [|[s e] ivs IH]; intros lo Hs Hlo; simpl in *; [lia|].
  destruct Hs as (? & ? & Hs). destruct (Z.leb_spec e o).
  - specialize (IH e Hs). lia.
  - destruct (spans_below e hi ivs o Hs) as [_ ->]; lia.
Qed.

Lemma reloc_ge lo hi ivs o m : spans lo hi ivs → m ≤ lo → m ≤ o → m ≤ reloc ivs o.
Proof.
  intros Hs Hm Ho. unfold reloc. destruct (Z.le_gt_cases lo o).
  - pose proof (removed_bound lo hi ivs o Hs). lia.
  - destruct (spans_below lo hi ivs o Hs) as [_ ->]; lia.
Qed.

(** Fixing up a compression pointer: a name that starts with a pointer into an
    elided record is refused; any other pointer is rewritten, in place and
    leaving every other byte alone, to the offset its target moves to. *)
Theorem check_name_pointer buf plen ivs a l b :
  Forall is_byte buf → spans 0 plen ivs → 0 ≤ a → a + 2 ≤ plen → plen ≤ zlen buf →
  rd buf a = Ok l → rd buf (a + 1) = Ok b → Z.land l 192 = 192 →
  if decide (elided ivs (target l b)) then check_name plen true (flat ivs) buf a = Bad
  else ∃ buf' l' b', check_name plen true (flat ivs) buf a = Ok (buf', a + 2) ∧
    rd buf' a = Ok l' ∧ rd buf' (a + 1) = Ok b' ∧
    Z.land l' 192 = 192 ∧ target l' b' = reloc ivs (target l b) ∧
    ∀ o, o ≠ a → o ≠ a + 1 → rd buf' o = rd buf o.
Proof.
  intros Hb Hs Ha Hal Hpl El Eb Hl.
  assert (is_byte l ∧ is_byte b) as [Hbl Hbb].
  { apply rd_Ok in El as [_ El], Eb as [_ Eb]. split; by eapply Forall_lookup_1. }
  pose proof (target_bound l b Hbl Hbb) as Ht. pose proof (removed_bound _ _ _ (target l b) Hs) as Hr.
  pose proof (scale_pointer_flat 0 plen ivs (target l b) 0 0 (target l b) Hs) as Hsc.
  unfold check_name. cbn [check_name_loop]. unfold CHECK_LEN.
  replace (a + 1 <=? plen) with true by lia. replace (a + 2 <=? plen) with true by lia.
  cbn [guard_ok mbind res_bind]. rewrite El. cbn [mbind res_bind].
  rewrite Hl, Z.eqb_refl. rewrite Eb. cbn [mbind res_bind]. fold (target l b).
  destruct (scale_pointer _ _ _ _ _) as [j o]. destruct Hsc as [Hj Ho]; [done|lia..|].
  rewrite Hj. destruct (decide (elided ivs (target l b))) as [He|Hn].
  { by rewrite bool_decide_true. }
  rewrite bool_decide_false by done. rewrite (Ho Hn).
  destruct (target_encode (reloc ivs (target l b))) as [E1 E2]; [unfold reloc; lia|].
  unfold reloc in *. set (o' := target l b - removed ivs (target l b)) in *.
  destruct (wr_ok buf a (Z.lor (Z.shiftr o' 8) 192)) as [b1 W1]; [lia|].
  pose proof (wr_bytes _ _ _ _ Hb W1) as [Hb1 Hz1].
  destruct (wr_ok b1 (a + 1) (Z.land o' 255)) as [b2 W2]; [lia|].
  rewrite W1. cbn [mbind res_bind]. rewrite W2. cbn [mbind res_bind].
  eexists _, _, _. split; [done|]. split_and!.
  - rewrite (rd_wr _ _ _ _ _ W2), (rd_wr _ _ _ _ _ W1). rewrite Z.eqb_refl.
    replace (a =? a + 1) with false by lia. done.
  - rewrite (rd_wr _ _ _ _ _ W2), Z.eqb_refl. done.
  - done.
  - done.
  - intros i Hi1 Hi2. rewrite (rd_wr _ _ _ _ _ W2), (rd_wr _ _ _ _ _ W1).
    replace (i =? a) with false by lia. by replace (i =? a + 1) with false by lia.
Qed.

Lemma check_name_pointer_witness :
  ∃ buf' l' b', check_name 30 true (flat [(2, 6)]) ([192; 9] ++ repeat 0 28) 0 = Ok (buf', 2) ∧
    rd buf' 0 = Ok l' ∧ rd buf' 1 = Ok b' ∧ Z.land l' 192 = 192 ∧ target l' b' = 5 ∧
    ∀ o, o ≠ 0 → o ≠ 1 → rd buf' o = rd ([192; 9] ++ repeat 0 28) o.
Proof.
  assert (Forall is_byte ([192; 9] ++ repeat 0 28)).
  { unfold is_byte. repeat constructor; lia. }
  apply (check_name_pointer ([192; 9] ++ repeat 0 28) 30 [(2, 6)] 0 192 9); done.
Defined.

(** * Moving bytes *)

Lemma put_bytes_spec bs buf p :
  Forall is_byte buf → Forall is_byte bs → 0 ≤ p → p + zlen bs ≤ zlen buf →
  ∃ buf', put_bytes buf p bs = Ok buf' ∧ Forall is_byte buf' ∧ zlen buf' = zlen buf ∧
    ∀ o, rd buf' o = if (p <=? o) && (o <? p + zlen bs) then rd bs (o - p) else rd buf o.
Proof.
  revert buf p. induction bs as [|b bs IH]; intros buf p Hb Hbs Hp Hl.
  { exists buf. split_and!; try done. intros o. rewrite zlen_nil.
    replace ((p <=? o) && (o <? p + 0)) with false by lia. done. }
  apply Forall_cons in Hbs as [Hb0 Hbs]. rewrite zlen_cons in *. pose proof (zlen_nonneg bs).
  destruct (wr_ok buf p b) as [b1 W]; [lia|]. destruct (wr_bytes _ _ _ _ Hb W) as [Hb1 Hz].
  destruct (IH b1 (p + 1)) as (b2 & E & Hb2 & Hz2 & Hrd); [done..|lia|lia|].
  exists b2. simpl. rewrite W. simpl. split_and!; [done..|lia|].
  intros o. rewrite Hrd, (rd_wr _ _ _ _ _ W).
  destruct ((p + 1 <=? o) && (o <? p + 1 + zlen bs)) eqn:E1.
  - replace ((p <=? o) && (o <? p + (1 + zlen bs))) with true by lia.
    bool_hyps. unfold rd. replace (o - (p + 1) <? 0) with false by lia.
    replace (o - p <? 0) with false by lia.
    replace (Z.to_nat (o - p)) with (S (Z.to_nat (o - (p + 1)))) by lia. done.
  - destruct (Z.eqb_spec o p) as [->|Hne].
    + replace ((p <=? p) && (p <? p + (1 + zlen bs))) with true by lia.
      rewrite u8_id by done. by rewrite Z.sub_diag.
    + by replace ((p <=? o) && (o <? p + (1 + zlen bs))) with false by lia.
Qed.

Lemma rd_slice buf p n o :
  0 ≤ p → 0 ≤ o < Z.of_nat n → rd (slice buf p n) o = rd buf (p + o).
Proof.
  intros Hp Ho. unfold rd, slice. replace (o <? 0) with false by lia.
  replace (p + o <? 0) with false by lia.
  rewrite lookup_take_lt, lookup_drop by lia. by replace (Z.to_nat p + Z.to_nat o)%nat with (Z.to_nat (p + o)) by lia.
Qed.

Lemma memmove_spec buf p start len :
  Forall is_byte buf → 0 ≤ p → p + len ≤ zlen buf → 0 ≤ start → start + len ≤ zlen buf → 0 ≤ len →
  ∃ buf', memmove buf p start len = Ok buf' ∧ Forall is_byte buf' ∧ zlen buf' = zlen buf ∧
    ∀ o, rd buf' o = if (p <=? o) && (o <? p + len) then rd buf (start + (o - p)) else rd buf o.
Proof.
  intros Hb Hp Hpl Hs Hsl Hlen. unfold memmove.
  replace ((len <? 0) || (start <? 0) || (zlen buf <? start + len)) with false by lia.
  assert (zlen (slice buf start (Z.to_nat len)) = len) as Hz.
  { unfold zlen, slice in *. rewrite length_take, length_drop. lia. }
  destruct (put_bytes_spec (slice buf start (Z.to_nat len)) buf p) as (b' & E & ? & ? & Hrd); try done.
  { apply Forall_take. by apply Forall_drop. }
  { lia. }
  exists b'. split_and!; try done. intros o. rewrite Hrd, Hz.
  destruct ((p <=? o) && (o <? p + len)) eqn:E1; [|done]. bool_hyps. by apply rd_slice; lia.
Qed.

(** The fourth pass from the end [e] of an elided record on, when the bytes
    from [e] move down to [p]. *)
Lemma elide_spec plen ivs buf p e :
  Forall is_byte buf → plen ≤ zlen buf → 0 ≤ p ≤ e → spans e plen ivs →
  ∃ buf', elide plen (e :: flat ivs) buf p = Ok (buf', p + (plen - e) - total ivs) ∧
    Forall is_byte buf' ∧ zlen buf' = zlen buf ∧
    (∀ o, o < p → rd buf' o = rd buf o) ∧
    (∀ o, e ≤ o < plen → ¬ elided ivs o → rd buf' (o - (e - p) - removed ivs o) = rd buf o).
Proof.
  revert buf p e. induction ivs as [|[s e'] ivs IH]; intros buf p e Hb Hl Hp Hs.
  - simpl in Hs. cbn [flat elide].
    destruct (memmove_spec buf p e (plen - e)) as (b1 & -> & Hb1 & Hz1 & Hrd); [done|lia..|].
    exists b1. split; [unfold total; simpl; do 2 f_equal; lia|]. split_and!; try done.
    + intros o Ho. rewrite Hrd. by replace (p <=? o) with false by lia.
    + intros o Ho _. simpl. rewrite Hrd.
      replace ((p <=? o - (e - p) - 0) && (o - (e - p) - 0 <? p + (plen - e))) with true by lia.
      f_equal. lia.
  - destruct Hs as (He & Hse & Hs). pose proof (spans_le _ _ _ Hs).
    change (elide plen (e :: flat ((s, e') :: ivs)) buf p) with
      (buf ← memmove buf p e (s - e); elide plen (e' :: flat ivs) buf (p + (s - e))).
    destruct (memmove_spec buf p e (s - e)) as (b1 & -> & Hb1 & Hz1 & Hrd); [done|lia..|].
    cbn [mbind res_bind].
    destruct (IH b1 (p + (s - e)) e') as (b2 & -> & Hb2 & Hz2 & Hlow & Hhigh); [done|lia|lia|done|].
    exists b2. split; [unfold total; simpl; do 2 f_equal; lia|]. split_and!; [done|lia|..].
    + intros o Ho. rewrite Hlow, Hrd by lia. by replace (p <=? o) with false by lia.
    + intros o Ho. rewrite elided_cons. intros Hn. cbn [removed]. destruct (Z.leb_spec e' o).
      * replace (o - (e - p) - (e' - s + removed ivs o)) with (o - (e' - (p + (s - e))) - removed ivs o) by lia.
        rewrite Hhigh, Hrd by (lia || tauto).
        by replace ((p <=? o) && (o <? p + (s - e))) with false by lia.
      * destruct (spans_below e' plen ivs o Hs) as [_ ->]; [lia|].
        assert (o < s) by lia. rewrite Hlow, Hrd by lia.
        replace ((p <=? _) && _) with true by lia. f_equal. lia.
Qed.

(** * The first pass *)

(** A record of the packet: its number, extent, type and class. *)
Record rr := RR { rr_i : Z; rr_start : Z; rr_end : Z; rr_type : Z; rr_class : Z }.

(** [L] are the records from [p] on, the first being number [i]. *)
Fixpoint rr_seq (buf : list Z) (plen i p : Z) (L : list rr) : Prop :=
  match L with
  | [] => True
  | r :: L =>
      rr_i r = i ∧ rr_start r = p ∧ rr_end r ≤ plen ∧
      (∃ rdlen q, rr_header plen buf p = Ok (rr_type r, rr_class r, rdlen, q) ∧ rr_end r = q + rdlen) ∧
      rr_seq buf plen (i + 1) (rr_end r) L
  end.

Definition rr_span (r : rr) : Z * Z := (rr_start r, rr_end r).

#[global] Instance verdict_eq_dec : EqDecision verdict.
Proof. solve_decision. Defined.

Lemma expand_workspace_spec alloc wk new wk' :
  0 ≤ new → expand_workspace alloc wk new = Some wk' → new + 1 ≤ zlen wk' ∧ ∃ junk, wk' = wk ++ junk.
Proof.
  intros Hn. unfold expand_workspace. destruct (Z.leb_spec (new + 1) (zlen wk)).
  { intros [= <-]. split; [done|]. exists []. by rewrite app_nil_r. }
  destruct (100 <=? new); [done|]. destruct (alloc _); [|done]. intros [= <-].
  split; [|eauto]. rewrite zlen_app. unfold zlen in *. rewrite repeat_length. lia.
Qed.

Lemma set_rr_two (wk : list Z) k p q :
  0 ≤ k → k + 2 ≤ zlen wk →
  ∃ wk', (w ← set_rr wk k p; set_rr w (k + 1) q) = Ok wk' ∧ zlen wk' = zlen wk ∧
    take (Z.to_nat (k + 2)) wk' = take (Z.to_nat k) wk ++ [p; q].
Proof.
  intros Hk Hl. unfold set_rr. replace ((k <? 0) || (zlen wk <=? k)) with false by lia.
  cbn [mbind res_bind]. rewrite zlen_insert.
  replace ((k + 1 <? 0) || (zlen wk <=? k + 1)) with false by lia.
  eexists. split; [done|]. rewrite !zlen_insert. split; [done|]. unfold zlen in Hl.
  replace (Z.to_nat (k + 2)) with (S (S (Z.to_nat k))) by lia.
  replace (Z.to_nat (k + 1)) with (S (Z.to_nat k)) by lia.
  erewrite take_S_r by (apply list_lookup_insert_eq; rewrite length_insert; lia).
  erewrite take_S_r; [|rewrite list_lookup_insert_ne by lia; apply list_lookup_insert_eq; lia].
  rewrite !take_insert_ge by lia. by rewrite <- app_assoc.
Qed.

Section first.
Context (buf : list Z) (plen : Z).
Hypothesis (Hbytes : Forall is_byte buf).
Hypothesis (Hplen : 0 ≤ plen ≤ zlen buf).

Lemma wp_rr_header p (Q : Z * Z * Z * Z → Prop) :
  0 ≤ p →
  (∀ type class rdlen q, p < q ≤ plen → 0 ≤ rdlen → Q (type, class, rdlen, q)) →
  wp (rr_header plen buf p) Q.
Proof.
  intros Hp HQ. unfold rr_header. wp_step. apply wp_skip_name; [done..|]. intros q Hq Hl.
  do 3 (wp_step; apply wp_GETSHORT; [done|lia..|]; intros ? ?; simpl). apply HQ; lia.
Qed.

Context (alloc : Z → bool) (mode an ns qtype qclass : Z).

Definition elides (r : rr) : Prop :=
  rr_verdict mode an ns qtype qclass (rr_i r) (rr_type r) (rr_class r) = Elide.
#[global] Instance elides_dec r : Decision (elides r).
Proof. unfold elides. apply _. Defined.

(** What the variables of the first pass hold after the records [L]. *)
Record found_ok (lo p : Z) (L : list rr) (f : found) : Prop := {
  fo_rrs : take (Z.to_nat (rr_found f)) (f_rrs f) = flat (rr_span <$> filter elides L);
  fo_count : rr_found f = 2 * zlen (filter elides L);
  fo_cap : rr_found f ≤ zlen (f_rrs f);
  fo_spans : spans lo p (rr_span <$> filter elides L);
  fo_an : chop_an f = zlen (filter (λ r, elides r ∧ rr_i r < an) L);
  fo_ns : chop_ns f = zlen (filter (λ r, elides r ∧ an ≤ rr_i r < ns + an) L);
  fo_ar : chop_ar f = zlen (filter (λ r, elides r ∧ ns + an ≤ rr_i r) L)
}.

Lemma zlen_filter_snoc {A} (P : A → Prop) `{∀ x, Decision (P x)} (l : list A) x :
  zlen (filter P (l ++ [x])) = zlen (filter P l) + zb (bool_decide (P x)).
Proof.
  rewrite filter_app, zlen_app. f_equal. rewrite filter_cons, filter_nil.
  case_decide; [rewrite bool_decide_true by done|rewrite bool_decide_false by done]; done.
Qed.

Lemma found_ok_continue lo p L f r :
  found_ok lo p L f → ¬ elides r → p ≤ rr_end r → found_ok lo (rr_end r) (L ++ [r]) f.
Proof.
  intros [H1 H2 H3 H4 H5 H6 H7] Hn Hp.
  assert (filter elides (L ++ [r]) = filter elides L) as E.
  { rewrite filter_app, filter_cons, filter_nil. rewrite decide_False by done. apply app_nil_r. }
  split; rewrite ?E; try done.
  - by eapply spans_weaken.
  - rewrite zlen_filter_snoc, bool_decide_false by tauto. simpl. lia.
  - rewrite zlen_filter_snoc, bool_decide_false by tauto. simpl. lia.
  - rewrite zlen_filter_snoc, bool_decide_false by tauto. simpl. lia.
Qed.

Lemma found_ok_elide lo L f r rrs rrs' :
  0 ≤ ns →
  found_ok lo (rr_start r) L f → elides r → rr_start r < rr_end r →
  (∃ junk, rrs = f_rrs f ++ junk) → rr_found f + 2 ≤ zlen rrs → zlen rrs' = zlen rrs →
  take (Z.to_nat (rr_found f + 2)) rrs' = take (Z.to_nat (rr_found f)) rrs ++ [rr_start r; rr_end r] →
  found_ok lo (rr_end r) (L ++ [r])
    (Found rrs' (rr_found f + 2)
       (if rr_i r <? an then chop_an f + 1 else chop_an f)
       (if (an <=? rr_i r) && (rr_i r <? ns + an) then chop_ns f + 1 else chop_ns f)
       (if ns + an <=? rr_i r then chop_ar f + 1 else chop_ar f)).
Proof.
  intros Hns [H1 H2 H3 H4 H5 H6 H7] He Hlt [junk ->] Hcap Hz Ht.
  assert (filter elides (L ++ [r]) = filter elides L ++ [r]) as E.
  { rewrite filter_app, filter_cons, filter_nil. by rewrite decide_True. }
  split; cbn [f_rrs rr_found chop_an chop_ns chop_ar]; rewrite ?E, ?fmap_app, ?zlen_app.
  - rewrite Ht, flat_app. rewrite take_app_le by (unfold zlen in *; lia). by rewrite H1.
  - rewrite H2. change (zlen [r]) with 1. lia.
  - lia.
  - eapply spans_snoc; [done|simpl; lia..].
  - rewrite zlen_filter_snoc, H5, (bool_decide_ext _ (rr_i r < an)) by tauto.
    case_bool_decide; simpl; case_match; lia.
  - rewrite zlen_filter_snoc, H6, (bool_decide_ext _ (an ≤ rr_i r < ns + an)) by tauto.
    case_bool_decide; simpl; case_match; lia.
  - rewrite zlen_filter_snoc, H7, (bool_decide_ext _ (ns + an ≤ rr_i r)) by tauto.
    case_bool_decide; simpl; case_match; lia.
Qed.

Lemma rr_seq_app i p L r :
  rr_seq buf plen i p L → rr_i r = i + zlen L → rr_start r = default p (rr_end <$> last L) →
  rr_seq buf plen (rr_i r) (rr_start r) [r] → rr_seq buf plen i p (L ++ [r]).
Proof.
  revert i p. induction L as [|r' L IH]; intros i p; simpl.
  { rewrite zlen_nil, Z.add_0_r. by intros _ -> ->. }
  rewrite zlen_cons. intros (? & ? & ? & ? & Hseq) Hi Hs Hr. split_and!; try done.
  apply IH; [done|lia| |done]. rewrite Hs. rewrite last_cons. by destruct (last L).
Qed.

Lemma find_rrs_spec lo n i p L f :
  0 ≤ ns → 0 ≤ p ≤ plen → found_ok lo p L f → rr_seq buf plen 0 lo L → i = zlen L →
  p = default lo (rr_end <$> last L) →
  wp (find_rrs alloc buf plen mode an ns qtype qclass n i p f) (λ f', ∃ L',
    rr_seq buf plen 0 lo L' ∧ found_ok lo plen L' f' ∧ zlen L' ≤ i + Z.of_nat n ∧
    (zlen L' = i + Z.of_nat n ∨ (an ≤ zlen L' ∧ mode ≠ RRFILTER_EDNS0 ∧ mode ≠ RRFILTER_DNSSEC))).
Proof.
  intros Hns. revert i p L f. induction n as [|n IH]; intros i p L f Hp Hf Hseq Hi Hlast.
  { simpl. exists L. split_and!; [done| |lia..].
    destruct Hf as [H1 H2 H3 H4 H5 H6 H7]. split; try done. eapply spans_weaken; [done|lia..]. }
  cbn [find_rrs]. apply wp_bind_eq, wp_rr_header; [lia|]. intros type class rdlen q Hq Hrd Ehdr.
  wp_step. apply wp_ADD_RDLEN. intros Hadd.
  set (r := RR i p (q + rdlen) type class).
  assert (rr_seq buf plen 0 lo (L ++ [r])) as Hseq'.
  { apply rr_seq_app; [done|simpl; lia|done|]. simpl. split_and!; [done..| |done]. eauto. }
  assert (default lo (rr_end <$> last (L ++ [r])) = q + rdlen) as Hl by by rewrite last_snoc.
  assert (zlen (L ++ [r]) = i + 1) as Hz by (rewrite zlen_app; subst i; done).
  destruct (rr_verdict _ _ _ _ _ _ _ _) eqn:Ev.
  - destruct (expand_workspace alloc (f_rrs f) (rr_found f + 1)) as [rrs|] eqn:Ew; [|done].
    pose proof (fo_count _ _ _ _ Hf) as Hcnt. pose proof (zlen_nonneg (filter elides L)).
    apply expand_workspace_spec in Ew as [Hcap Hjunk]; [|lia].
    destruct (set_rr_two rrs (rr_found f) p (q + rdlen)) as (rrs' & Eset & Hz' & Htake); [lia..|].
    apply bind_ok in Eset as (w & -> & Eset). cbn [mbind res_bind]. rewrite Eset. cbn [mbind res_bind].
    eapply wp_mono; [apply (IH (i + 1) (q + rdlen) (L ++ [r])); [lia| |done..]|].
    + apply (found_ok_elide lo L f r rrs rrs'); simpl; try done; lia.
    + simpl. intros f' (L' & ? & ? & ? & Hc). exists L'. split_and!; try done; lia.
  - eapply wp_mono; [apply (IH (i + 1) (q + rdlen) (L ++ [r]) f); [lia| |done..]|].
    + apply (found_ok_continue lo p L f r); [done| |simpl; lia]. unfold elides. simpl. by rewrite Ev.
    + simpl. intros f' (L' & ? & ? & ? & Hc). exists L'. split_and!; try done; lia.
  - simpl. exists L. split_and!; [done| |lia|].
    + destruct Hf as [H1 H2 H3 H4 H5 H6 H7]. split; try done. eapply spans_weaken; [done|lia..].
    + right. unfold rr_verdict in Ev. repeat (case_match; try done). lia.
Qed.
End first.

(** * Safety of the second and third passes *)

(** The packet may have been fixed up, but not its header. *)
Record kept (buf buf' : list Z) : Prop := {
  kept_zlen : zlen buf' = zlen buf;
  kept_bytes : Forall is_byte buf';
  kept_header o : o < HDRSZ → rd buf' o = rd buf o
}.

Lemma kept_refl buf : Forall is_byte buf → kept buf buf.
Proof. by split. Qed.
Lemma kept_trans a b c : kept a b → kept b c → kept a c.
Proof. intros [? ? H1] [? ? H2]. split; [congruence|done|]. intros. by rewrite H2, H1. Qed.
Lemma kept_wr buf buf' i b :
  Forall is_byte buf → HDRSZ ≤ i → wr buf i b = Ok buf' → kept buf buf'.
Proof.
  intros Hb Hi W. destruct (wr_bytes _ _ _ _ Hb W). split; [done..|].
  intros o Ho. rewrite (rd_wr _ _ _ _ _ W). by replace (o =? i) with false by lia.
Qed.

(** A row of the table: a type and its descriptor. *)
Definition row (r : Z * list Z) : list Z := r.1 :: r.2 ++ [END_DESC].
Definition small (d : Z) : Prop := 0 ≤ d < END_DESC.

Lemma skip_desc_row ds rest : Forall small ds → skip_desc (ds ++ END_DESC :: rest) = rest.
Proof.
  unfold small. induction 1 as [|x xs Hx _ IH]; simpl; [done|].
  by replace (x =? END_DESC) with false by lia.
Qed.

Lemma find_desc_rows type rows fuel :
  (length rows < fuel)%nat → Forall (λ r, small r.1 ∧ Forall small r.2) rows →
  ∃ ds rest, find_desc fuel type (concat (row <$> rows) ++ [0; END_DESC]) =
    Ok (ds ++ END_DESC :: rest) ∧ Forall small ds.
Proof.
  intros Hf Hr. revert fuel Hf. induction Hr as [|[t ds] rows [Ht Hds] _ IH]; intros [|fuel] Hf;
    try (simpl in Hf; lia).
  { exists [], []. split; [|constructor]. cbn [fmap list_fmap concat app find_desc].
    rewrite Z.eqb_refl, andb_false_r. done. }
  cbn [fmap list_fmap concat row fst snd app find_desc].
  rewrite <- !app_assoc. cbn [app]. case_match.
  - rewrite app_comm_cons, skip_desc_row by by constructor.
    apply IH. simpl in Hf. lia.
  - eauto.
Qed.

(** Every type has a descriptor: a terminated list of skips and names. *)
Lemma rrfilter_desc_ok type :
  ∃ ds rest, rrfilter_desc type = Ok (ds ++ END_DESC :: rest) ∧ Forall small ds.
Proof.
  set (rows := [(T_NS, [0]); (T_MD, [0]); (T_MF, [0]); (T_CNAME, [0]); (T_SOA, [0; 0]); (T_MB, [0]);
    (T_MG, [0]); (T_MR, [0]); (T_PTR, [0]); (T_MINFO, [0; 0]); (T_MX, [2; 0]); (T_RP, [0; 0]);
    (T_AFSDB, [2; 0]); (T_RT, [2; 0]); (T_SIG, [18; 0]); (T_PX, [2; 0; 0]); (T_NXT, [0]);
    (T_KX, [2; 0]); (T_SRV, [6; 0]); (T_DNAME, [0])]).
  apply (find_desc_rows type rows 22); [simpl; lia|].
  unfold small. repeat constructor; simpl; done.
Qed.

Section passes.
Context (plen : Z) (fixup : bool) (rrs : list Z).

Lemma check_name_loop_safe fuel buf ansp :
  Forall is_byte buf → plen ≤ zlen buf → HDRSZ ≤ ansp → plen - ansp < Z.of_nat fuel → 0 < Z.of_nat fuel →
  wp (check_name_loop plen fixup rrs fuel buf ansp) (λ '(buf', q), kept buf buf' ∧ ansp < q ≤ plen).
Proof.
  intros Hb Hl. revert ansp. induction fuel as [|fuel IH]; intros ansp Ha Hf Hf0; [lia|].
  assert (0 ≤ ansp) by (unfold HDRSZ in *; lia). cbn [check_name_loop].
  wp_step. apply (wp_CHECK_LEN plen). intros Hc.
  wp_step. apply wp_rd_byte; [done|lia|]. intros b Hbb _. wp_step; [|wp_step; [done|wp_step]].
  - wp_step. apply (wp_CHECK_LEN plen). intros Hc2.
    wp_step. apply wp_rd_byte; [done|lia|]. intros b1 Hb1 _.
    destruct (scale_pointer _ _ _ _ _) as [i o]. wp_step; [done|]. wp_step; [|].
    + wp_step. apply wp_wr; [lia|]. intros buf1 W1 Hz1 Hf1.
      wp_step. apply wp_wr; [lia|]. intros buf2 W2 Hz2 Hf2. wp_step. split; [|lia].
      eapply kept_trans; [by eapply kept_wr|]. eapply (kept_wr _ _ (ansp + 1)); [by apply Hf1|lia|done].
    + wp_step. split; [by apply kept_refl|lia].
  - wp_step. apply (wp_CHECK_LEN plen). intros Hc2. wp_step. wp_step.
    wp_step. apply wp_rd_byte; [done|lia|]. intros count Hcount _.
    assert (0 ≤ Z.shiftr (count - 1) 3 ∨ count = 0).
    { unfold is_byte in Hcount. destruct (Z.eq_dec count 0); [by right|left].
      apply Z.shiftr_nonneg. lia. }
    match goal with |- wp (check_name_loop _ _ _ _ _ ?n) _ => assert (ansp + 2 ≤ n) end.
    { case_match; bool_hyps; lia. }
    eapply wp_mono; [apply IH; lia|]. intros [buf' q] [? ?]. split; [done|lia].
  - wp_step. apply (wp_ADD_RDLEN plen). intros Hadd.
    assert (0 ≤ Z.land b 63) by (apply Z.land_nonneg; lia).
    wp_step; [wp_step; split; [by apply kept_refl|lia]|].
    eapply wp_mono; [apply IH; lia|]. intros [buf' q] [? ?]. split; [done|lia].
Qed.

Lemma check_name_safe buf ansp :
  Forall is_byte buf → 0 ≤ plen ≤ zlen buf → HDRSZ ≤ ansp →
  wp (check_name plen fixup rrs buf ansp) (λ '(buf', q), kept buf buf' ∧ ansp < q ≤ plen).
Proof. intros. apply check_name_loop_safe; [done|lia|done|unfold HDRSZ in *; lia|lia]. Qed.

Lemma check_desc_safe ds rest buf pp :
  Forall is_byte buf → 0 ≤ plen ≤ zlen buf → HDRSZ ≤ pp → Forall small ds →
  twp (check_desc plen fixup rrs (ds ++ END_DESC :: rest) buf pp) (λ '(buf', _), kept buf buf').
Proof.
  intros Hb Hl Hp Hds. revert buf pp Hb Hl Hp. induction Hds as [|d ds Hd _ IH]; intros buf pp Hb Hl Hp.
  { simpl. by apply kept_refl. }
  cbn [app check_desc]. unfold small in Hd. replace (d =? END_DESC) with false by lia.
  twp_step; [apply IH; [done..|lia]|]. twp_step. apply twp_catch.
  - eapply wp_mono; [by apply check_name_safe|]. intros [buf' q] [Hk Hq] _.
    eapply twp_mono; [apply IH; [by apply Hk|rewrite (kept_zlen _ _ Hk); lia|lia]|].
    intros [buf'' ok] ?. by eapply kept_trans.
  - simpl. by apply kept_refl.
Qed.

Lemma check_rr_safe buf pp p type class :
  Forall is_byte buf → 0 ≤ plen ≤ zlen buf → HDRSZ ≤ pp → HDRSZ ≤ p →
  twp (check_rr plen fixup rrs buf pp p type class) (λ '(buf', _), kept buf buf').
Proof.
  intros Hb Hl Hpp Hp. unfold check_rr. twp_step; [simpl; by apply kept_refl|].
  twp_step. apply twp_catch; [|simpl; by apply kept_refl].
  eapply wp_mono; [by apply check_name_safe|]. intros [buf' q] [Hk Hq] _.
  twp_step; [|done]. destruct (rrfilter_desc_ok type) as (ds & rest & -> & Hds). cbn [mbind res_bind].
  eapply twp_mono; [apply check_desc_safe; [by apply Hk|rewrite (kept_zlen _ _ Hk); lia|done..]|].
  intros [buf'' ok] ?. by eapply kept_trans.
Qed.

Lemma check_rrs_loop_safe n buf p :
  Forall is_byte buf → 0 ≤ plen ≤ zlen buf → HDRSZ ≤ p →
  twp (check_rrs_loop plen fixup rrs n buf p) (λ '(buf', _), kept buf buf').
Proof.
  revert buf p. induction n as [|n IH]; intros buf p Hb Hl Hp; [simpl; by apply kept_refl|].
  cbn [check_rrs_loop]. twp_step. apply twp_catch; [|simpl; by apply kept_refl].
  apply wp_rr_header; [done|lia|unfold HDRSZ in *; lia|]. intros type class rdlen q Hq Hrd _.
  twp_step. eapply twp_mono; [apply check_rr_safe; [done..|lia]|]. intros [buf' ok] Hk.
  twp_step; [|done].
  eapply twp_mono; [apply IH; [by apply Hk|rewrite (kept_zlen _ _ Hk); lia|lia]|].
  intros [buf'' ok'] ?. by eapply kept_trans.
Qed.
End passes.

(** * The whole filter *)

Lemma header_counts buf :
  Forall is_byte buf → HDRSZ ≤ zlen buf →
  ∃ qd an ns ar, qdcount buf = Ok qd ∧ ancount buf = Ok an ∧ nscount buf = Ok ns ∧ arcount buf = Ok ar ∧
    0 ≤ qd < 65536 ∧ 0 ≤ an < 65536 ∧ 0 ≤ ns < 65536 ∧ 0 ≤ ar < 65536.
Proof.
  unfold HDRSZ. intros Hb Hl. unfold qdcount, ancount, nscount, arcount.
  destruct (GETSHORT_total buf 4) as (a1 & b1 & _ & _ & ? & ? & ->); [done|lia..|].
  destruct (GETSHORT_total buf 6) as (a2 & b2 & _ & _ & ? & ? & ->); [done|lia..|].
  destruct (GETSHORT_total buf 8) as (a3 & b3 & _ & _ & ? & ? & ->); [done|lia..|].
  destruct (GETSHORT_total buf 10) as (a4 & b4 & _ & _ & ? & ? & ->); [done|lia..|].
  unfold is_byte in *. simpl. eexists _, _, _, _. do 4 (split; [done|]). lia.
Qed.

(** Records of a section are at most its count. *)
Lemma section_bound buf plen (P : rr → Prop) `{∀ r, Decision (P r)} i p L lo hi :
  rr_seq buf plen i p L → lo ≤ hi → (∀ r, P r → lo ≤ rr_i r < hi) →
  zlen (filter P L) ≤ Z.max 0 (hi - Z.max lo i).
Proof.
  intros Hseq Hlh HP. revert i p Hseq. induction L as [|r L IH]; intros i p Hseq.
  { rewrite filter_nil, zlen_nil. lia. }
  destruct Hseq as (Hi & _ & _ & _ & Hseq). specialize (IH _ _ Hseq). rewrite filter_cons.
  case_decide as Hd; [|lia]. specialize (HP r Hd). rewrite zlen_cons. lia.
Qed.

Lemma rr_seq_index buf plen i p L r : rr_seq buf plen i p L → r ∈ L → i ≤ rr_i r < i + zlen L.
Proof.
  revert i p. induction L as [|r' L IH]; intros i p Hseq; [set_solver|].
  destruct Hseq as (Hi & _ & _ & _ & Hseq). pose proof (zlen_nonneg L). rewrite zlen_cons.
  intros [->|Hr]%elem_of_cons; [lia|]. specialize (IH _ _ Hseq Hr). lia.
Qed.

(** The fourth pass and the new counts. *)
Lemma elide_and_count plen lo ivs buf a b c :
  Forall is_byte buf → plen ≤ zlen buf → HDRSZ ≤ lo → spans lo plen ivs → ivs ≠ [] →
  0 ≤ a < 65536 → 0 ≤ b < 65536 → 0 ≤ c < 65536 →
  ∃ buf',
    ('(buf, p) ← elide plen (tail (flat ivs)) buf (hd 0 (flat ivs));
     '(buf, _) ← PUTSHORT buf 6 a; '(buf, _) ← PUTSHORT buf 8 b; '(buf, _) ← PUTSHORT buf 10 c;
     Ok (buf, p)) = Ok (buf', plen - total ivs) ∧
    Forall is_byte buf' ∧ zlen buf' = zlen buf ∧
    ancount buf' = Ok a ∧ nscount buf' = Ok b ∧ arcount buf' = Ok c ∧
    (∀ o, o < 6 → rd buf' o = rd buf o) ∧
    (∀ o, HDRSZ ≤ o < plen → ¬ elided ivs o → rd buf' (reloc ivs o) = rd buf o).
Proof.
  unfold HDRSZ. intros Hb Hl Hlo Hs Hne Ha Hbb Hc. pose proof (spans_le _ _ _ Hs).
  destruct ivs as [|[s e] ivs]; [done|]. pose proof Hs as (H1 & H2 & H3).
  pose proof (spans_le _ _ _ H3).
  destruct (elide_spec plen ivs buf s e) as (b1 & E & Hb1 & Hz1 & Hlow & Hhigh); [done|lia|lia|done|].
  cbn [flat tail hd]. rewrite E. cbn [mbind res_bind].
  destruct (PUTSHORT_spec b1 6 a) as (b2 & -> & Hb2 & Hz2 & G2 & R2); [done|lia..|]. cbn [mbind res_bind].
  destruct (PUTSHORT_spec b2 8 b) as (b3 & -> & Hb3 & Hz3 & G3 & R3); [done|lia..|]. cbn [mbind res_bind].
  destruct (PUTSHORT_spec b3 10 c) as (b4 & -> & Hb4 & Hz4 & G4 & R4); [done|lia..|]. cbn [mbind res_bind].
  exists b4. split; [unfold total; simpl; do 2 f_equal; lia|].
  unfold ancount, nscount, arcount. rewrite G4. rewrite (GETSHORT_ext b3 b4 8) by (apply R4; lia).
  rewrite G3. rewrite (GETSHORT_ext b3 b4 6), (GETSHORT_ext b2 b3 6), G2 by ((apply R4 || apply R3); lia).
  rewrite !u16_id by done. cbn [mbind res_bind].
  split_and!; [done|lia|done..| |].
  - intros o Ho. rewrite R4, R3, R2 by lia. apply Hlow. lia.
  - intros o Ho Hn. pose proof (reloc_ge lo plen _ o 12 Hs). rewrite R4, R3, R2 by lia.
    rewrite elided_cons in Hn. unfold reloc in *. cbn [removed] in *. destruct (Z.leb_spec e o).
    + replace (o - (e - s + removed ivs o)) with (o - (e - s) - removed ivs o) by lia.
      apply Hhigh; [lia|tauto].
    + destruct (spans_below e plen ivs o H3) as [_ Hr]; [lia|]. rewrite Hr in *.
      replace (o - (0 + 0)) with o by lia. apply Hlow. lia.
Qed.

(** The packet [buf'] of length [plen'] is [buf] without the records the mode
    selects: [an], [ns], [ar] are the counts, [qtype] and [qclass] the question,
    whose name ends before [p], [L] the records, [E] those elided; [buf1] is the
    packet with its pointers fixed up, none of which led into an elided
    record. *)
Record filtered (mode : Z) (buf : list Z) (plen : Z) (buf' : list Z) (plen' : Z)
    (an ns ar qtype qclass p : Z) (L E : list rr) (buf1 : list Z) : Prop := Filtered {
  fi_counts : ancount buf = Ok an ∧ nscount buf = Ok ns ∧ arcount buf = Ok ar;
  fi_question : skip_name buf plen HDRSZ 4 = Ok p ∧
    GETSHORT buf p = Ok (qtype, p + 2) ∧ GETSHORT buf (p + 2) = Ok (qclass, p + 4);
  fi_records : rr_seq buf plen 0 (p + 4) L;
  fi_all : zlen L = an + ns + ar ∨ (an ≤ zlen L ∧ mode ≠ RRFILTER_EDNS0 ∧ mode ≠ RRFILTER_DNSSEC);
  fi_elided : E = filter (elides mode an ns qtype qclass) L ∧ E ≠ [];
  fi_checked : ∃ q b, check_name plen false (flat (rr_span <$> E)) buf HDRSZ = Ok q ∧
    check_rrs plen false (flat (rr_span <$> E)) buf (q.2 + 4) = Ok (b, true);
  fi_fixed : fixup_names plen (flat (rr_span <$> E)) buf = Ok buf1;
  fi_plen : plen' = plen - total (rr_span <$> E);
  fi_moved o : HDRSZ ≤ o < plen → ¬ elided (rr_span <$> E) o →
    rd buf' (reloc (rr_span <$> E) o) = rd buf1 o;
  fi_header o : o < 6 → rd buf' o = rd buf o;
  fi_ancount : ancount buf' = Ok (an - zlen (filter (λ r, rr_i r < an) E));
  fi_nscount : nscount buf' = Ok (ns - zlen (filter (λ r, an ≤ rr_i r < ns + an) E));
  fi_arcount : arcount buf' = Ok (ar - zlen (filter (λ r, ns + an ≤ rr_i r) E))
}.

Lemma check_rrs_safe plen fixup rrs buf p :
  Forall is_byte buf → HDRSZ ≤ plen ≤ zlen buf → HDRSZ ≤ p →
  twp (check_rrs plen fixup rrs buf p) (λ '(buf', _), kept buf buf').
Proof.
  intros Hb Hl Hp. unfold check_rrs.
  destruct (header_counts buf) as (qd & an & ns & ar & _ & -> & -> & -> & _); [done|lia|].
  cbn [mbind res_bind]. apply check_rrs_loop_safe; [done|unfold HDRSZ in *; lia|done].
Qed.

Lemma fixup_names_safe plen rrs buf :
  Forall is_byte buf → HDRSZ ≤ plen ≤ zlen buf → twp (fixup_names plen rrs buf) (kept buf).
Proof.
  intros Hb Hl. unfold fixup_names. twp_step. apply twp_catch.
  - eapply wp_mono; [apply check_name_safe; [done|unfold HDRSZ in *; lia|lia]|].
    intros [buf' q] [Hk Hq] _. simpl.
    twp_step. eapply twp_mono; [apply check_rrs_safe; [by apply Hk|rewrite (kept_zlen _ _ Hk); lia|lia]|].
    intros [buf'' ok] Hk'. simpl. by eapply kept_trans.
  - simpl. twp_step.
    eapply twp_mono; [apply check_rrs_safe; [done..|lia]|]. by intros [buf'' ok] Hk'.
Qed.

Lemma filter_filter_and {A} (P Q : A → Prop) `{∀ x, Decision (P x), ∀ x, Decision (Q x)} (l : list A) :
  filter (λ x, P x ∧ Q x) l = filter Q (filter P l).
Proof.
  induction l as [|x l IH]; [done|]. rewrite !filter_cons.
  destruct (decide (P x)) as [HP|HP].
  - rewrite filter_cons. repeat case_decide; rewrite ?IH; tauto.
  - rewrite decide_False by tauto. done.
Qed.

(** The index bounds are used through membership, not only through the
    predicate. *)
Lemma section_count buf plen (P : rr → Prop) `{∀ r, Decision (P r)} p L lo hi :
  rr_seq buf plen 0 p L → 0 ≤ lo ≤ hi → (∀ r, P r → r ∈ L → lo ≤ rr_i r < hi) →
  0 ≤ zlen (filter P L) ≤ hi - lo.
Proof.
  intros Hseq Hlh HP. split; [apply zlen_nonneg|].
  rewrite (filter_iff_in P (λ r, P r ∧ lo ≤ rr_i r < hi)) by naive_solver.
  pose proof (section_bound buf plen (λ r, P r ∧ lo ≤ rr_i r < hi) 0 p L lo hi Hseq) as B.
  specialize (B ltac:(lia) ltac:(naive_solver)). lia.
Qed.

Lemma found_counts buf plen mode an ns ar qtype qclass lo L f :
  0 ≤ an → 0 ≤ ns → 0 ≤ ar →
  found_ok mode an ns qtype qclass lo plen L f → rr_seq buf plen 0 lo L → zlen L ≤ an + ns + ar →
  0 ≤ chop_an f ≤ an ∧ 0 ≤ chop_ns f ≤ ns ∧ 0 ≤ chop_ar f ≤ ar.
Proof.
  intros Han Hns Har [_ _ _ _ -> -> ->] Hseq Hl. split; [|split].
  - pose proof (section_count buf plen (λ r, elides mode an ns qtype qclass r ∧ rr_i r < an)
      lo L 0 an Hseq ltac:(lia)) as B. lapply B; [lia|]. intros r [_ ?] Hr.
    pose proof (rr_seq_index _ _ _ _ _ _ Hseq Hr). lia.
  - pose proof (section_count buf plen (λ r, elides mode an ns qtype qclass r ∧ an ≤ rr_i r < ns + an)
      lo L an (ns + an) Hseq ltac:(lia)) as B. lapply B; [lia|]. naive_solver.
  - pose proof (section_count buf plen (λ r, elides mode an ns qtype qclass r ∧ ns + an ≤ rr_i r)
      lo L (ns + an) (an + ns + ar) Hseq ltac:(lia)) as B. lapply B; [lia|]. intros r [_ ?] Hr.
    pose proof (rr_seq_index _ _ _ _ _ _ Hseq Hr). lia.
Qed.

(** What is left to do once the records to elide are found. *)
Lemma rrfilter_passes buf plen mode an ns ar qtype qclass p L f (Q : list Z * Z → Prop) :
  Forall is_byte buf → HDRSZ ≤ plen ≤ zlen buf →
  0 ≤ an < 65536 → 0 ≤ ns < 65536 → 0 ≤ ar < 65536 →
  ancount buf = Ok an → nscount buf = Ok ns → arcount buf = Ok ar →
  HDRSZ < p → skip_name buf plen HDRSZ 4 = Ok p →
  GETSHORT buf p = Ok (qtype, p + 2) → GETSHORT buf (p + 2) = Ok (qclass, p + 4) →
  rr_seq buf plen 0 (p + 4) L → found_ok mode an ns qtype qclass (p + 4) plen L f →
  zlen L ≤ an + ns + ar →
  (zlen L = an + ns + ar ∨ (an ≤ zlen L ∧ mode ≠ RRFILTER_EDNS0 ∧ mode ≠ RRFILTER_DNSSEC)) →
  Q (buf, plen) →
  (∀ buf' plen' E buf1, filtered mode buf plen buf' plen' an ns ar qtype qclass p L E buf1 →
    zlen buf' = zlen buf → Forall is_byte buf' → Q (buf', plen')) →
  let rrs := take (Z.to_nat (rr_found f)) (f_rrs f) in
  twp (if rr_found f =? 0 then Ok (buf, plen)
       else
         q ← catch (check_name plen false rrs buf HDRSZ);
         match q with
         | None => Ok (buf, plen)
         | Some (_, p) =>
             '(_, ok) ← check_rrs plen false rrs buf (p + 4);
             if negb ok then Ok (buf, plen)
             else
               buf ← fixup_names plen rrs buf;
               '(buf, p) ← elide plen (tail rrs) buf (hd 0 rrs);
               '(buf, _) ← PUTSHORT buf 6 (an - chop_an f);
               '(buf, _) ← PUTSHORT buf 8 (ns - chop_ns f);
               '(buf, _) ← PUTSHORT buf 10 (ar - chop_ar f);
               Ok (buf, p)
         end) Q.
Proof.
  intros Hb Hl Han Hns Har Ean Ens Ear Hp Ep Eqt Eqc Hseq Hf Hlen Hall Hsame HQ rrs.
  assert (0 ≤ plen ≤ zlen buf) as Hl0 by (unfold HDRSZ in *; lia).
  destruct (found_counts buf plen mode an ns ar qtype qclass (p + 4) L f) as (C1 & C2 & C3);
    [lia..|done|done|done|].
  destruct Hf as [F1 F2 F3 F4 F5 F6 F7]. rewrite !filter_filter_and in *.
  set (E := filter (elides mode an ns qtype qclass) L) in *.
  assert (rrs = flat (rr_span <$> E)) as -> by done.
  twp_step; [done|]. bool_hyps.
  assert (E ≠ []) by (intros HE; rewrite HE in F2; done).
  twp_step. apply twp_catch; [|done].
  eapply wp_mono; [apply check_name_safe; [done|lia|done]|]. intros [b0 q] [_ Hq] Ecn.
  apply twp_bind_eq. eapply twp_mono; [apply check_rrs_safe; [done..|lia]|]. intros [b1 ok] _ Ecr.
  twp_step; [done|]. bool_hyps. subst ok.
  apply twp_bind_eq. eapply twp_mono; [by apply fixup_names_safe|]. intros buf1 [K1 K2 K3] Efx.
  destruct (elide_and_count plen (p + 4) (rr_span <$> E) buf1 (an - chop_an f) (ns - chop_ns f)
    (ar - chop_ar f)) as (buf' & -> & Hb' & Hz' & R1 & R2 & R3 & R4 & R5); try done; try lia.
  { by destruct E. }
  apply (HQ _ _ E buf1); [|congruence|done].
  rewrite F5 in R1. rewrite F6 in R2. rewrite F7 in R3. split; try done; eauto.
  - intros o Ho. rewrite R4, K3; [done|unfold HDRSZ; lia|done].
  - by rewrite filter_filter_and.
Qed.

(** What filtering gives, on any packet. *)
Lemma rrfilter_total alloc wkspc buf plen mode :
  Forall is_byte buf → HDRSZ ≤ plen ≤ zlen buf →
  ∃ buf' plen', rrfilter alloc wkspc buf plen mode = Ok (buf', plen') ∧
    zlen buf' = zlen buf ∧ Forall is_byte buf' ∧
    (buf' = buf ∧ plen' = plen ∨
     ∃ an ns ar qtype qclass p L E buf1,
       filtered mode buf plen buf' plen' an ns ar qtype qclass p L E buf1).
Proof.
  intros Hb Hl. assert (0 ≤ plen ≤ zlen buf) as Hl0 by (unfold HDRSZ in *; lia).
  set (Q := λ '(buf', plen'), zlen buf' = zlen buf ∧ Forall is_byte buf' ∧
    (buf' = buf ∧ plen' = plen ∨ ∃ an ns ar qtype qclass p L E buf1,
       filtered mode buf plen buf' plen' an ns ar qtype qclass p L E buf1)).
  enough (twp (rrfilter alloc wkspc buf plen mode) Q) as ([buf' plen'] & ? & ?)%twp_ok by eauto.
  assert (Q (buf, plen)) as Hsame by (repeat split; auto).
  destruct (header_counts buf) as (qd & an & ns & ar & Eqd & Ean & Ens & Ear & Hqd & Han & Hns & Har);
    [done|lia|].
  unfold rrfilter. rewrite Eqd, Ean, Ens, Ear. cbn [mbind res_bind]. twp_step; [done|].
  twp_step. apply twp_catch; [|done].
  apply wp_bind_eq, wp_skip_name; [done..|unfold HDRSZ; lia|]. intros p Hp Hpl Ep.
  apply wp_bind_eq, wp_GETSHORT; [done|unfold HDRSZ in *; lia..|]. intros qtype Hqt Eqt.
  apply wp_bind_eq, wp_GETSHORT; [done|unfold HDRSZ in *; lia..|]. intros qclass Hqc Eqc.
  replace (p + 2 + 2) with (p + 4) in * by lia.
  eapply wp_mono; [apply (find_rrs_spec buf plen Hb Hl0 alloc mode an ns qtype qclass (p + 4) _ 0 (p + 4) []);
    try (done || (unfold HDRSZ in *; lia))|].
  { split; simpl; first [done|apply zlen_nonneg|lia]. }
  intros f (L & Hseq & Hf & Hlen & Hall) _. apply (rrfilter_passes buf plen mode an ns ar qtype qclass p L f Q); try done; try lia.
  intros buf' plen' E buf1 HF ? ?. unfold Q. eauto 20.
Qed.


(** A response to a query for the root with an address and an OPT record. *)
Definition sample : list Z :=
  [0; 0; 0; 0; 0; 1; 0; 1; 0; 0; 0; 1] ++ [0; 0; 1; 0; 1] ++
  [0; 0; 1; 0; 1; 0; 0; 0; 0; 0; 4; 10; 0; 0; 1] ++ [0; 0; 41; 0; 0; 0; 0; 0; 0; 0; 0].

