(* ===== verification/WireExt.v ===== *)
(** The skippers of [Wire] depend only on the bytes they pass over: on a packet
    with the same bytes there, longer or not, they give the same result. Writes
    as total steps, with what they leave unchanged, and bytes stored in a row
    with the numbers read back from them, shared by the parts that build
    packets. *)
From S2P Require Import Prelude Hostname Wire WireSafe WireSpec RRFilter RRFilterSpec.

(** The packets have the same bytes from [a] up to [b]. *)
Definition agree (buf buf' : list Z) (a b : Z) : Prop := ∀ o, a ≤ o < b → rd buf' o = rd buf o.

Lemma agree_refl buf a b : agree buf buf a b.
Proof. by intros o _. Qed.
Lemma agree_sub buf buf' a b a' b' : agree buf buf' a b → a ≤ a' → b' ≤ b → agree buf buf' a' b'.
Proof. intros H Ha Hb o Ho. apply H. lia. Qed.
Lemma agree_trans b1 b2 b3 a b : agree b1 b2 a b → agree b2 b3 a b → agree b1 b3 a b.
Proof. intros H1 H2 o Ho. rewrite H2 by done. by apply H1. Qed.
Lemma agree_sym buf buf' a b : agree buf buf' a b → agree buf' buf a b.
Proof. intros H o Ho. symmetry. by apply H. Qed.

Lemma GETSHORT_agree buf buf' a b p : agree buf buf' a b → a ≤ p → p + 2 ≤ b → GETSHORT buf' p = GETSHORT buf p.
Proof. intros H Ha Hb. apply GETSHORT_ext; apply H; lia. Qed.

(** A result of a bind comes from a result of its first part. *)
Lemma bind_inv {A B} (m : res A) (f : A → res B) b : mbind f m = Ok b → ∃ a, m = Ok a ∧ f a = Ok b.
Proof. destruct m; cbn; [|done..]. intros E. by exists a. Qed.
Lemma guard_inv {B} c (f : unit → res B) b : mbind f (guard_ok c) = Ok b → c = true ∧ f tt = Ok b.
Proof. by destruct c. Qed.

Lemma skip_name_loop_agree buf buf' plen plen' fuel fuel' a q :
  Forall is_byte buf → 0 ≤ a → skip_name_loop buf plen fuel a = Ok q → agree buf buf' a q → q ≤ plen' → q - a ≤ Z.of_nat fuel' →
  a < q ∧ skip_name_loop buf' plen' fuel' a = Ok q.
Proof.
  intros Hb. revert a fuel'. induction fuel as [|fuel IH]; intros a fuel' Ha E Hag Hq Hf; [done|]. cbn [skip_name_loop] in E.
  apply guard_inv in E as [_ E]. apply bind_inv in E as (x & Ex & E).
  assert (is_byte x) as Hx by (apply rd_Ok in Ex as [_ Ex]; by eapply Forall_lookup_1).
  assert (∀ a', a < a' → (a' ≤ q → rd buf' a = Ok x ∧ ∃ n, fuel' = S n ∧ q - a' ≤ Z.of_nat n ∧ a < q)) as Hstep.
  { intros a' Haa' Hq'. rewrite Hag by lia. split; [done|]. exists (fuel' - 1)%nat. lia. }
  assert (∀ a', a < a' → skip_name_loop buf plen fuel a' = Ok q → a' < q) as Hlt.
  { intros a' Haa' E'. destruct (IH a' (Z.to_nat (q - a')) ltac:(lia) E') as [? _]; [by apply (agree_sub _ _ a q); [|lia|lia]|lia|lia|done]. }
  destruct (Z.land x 192 =? 192) eqn:E1.
  { injection E as <-. destruct (Hstep (a + 2)) as (Hr & n & -> & _ & _); [lia|lia|]. split; [lia|]. cbn [skip_name_loop]; cbv zeta.
    unfold CHECK_LEN. rewrite (proj2 (Z.leb_le (a + 1) plen')) by lia. cbn [guard_ok mbind res_bind]. rewrite Hr. cbn [mbind res_bind]. by rewrite E1. }
  destruct (Z.land x 192 =? 128) eqn:E2; [done|]. destruct (Z.land x 192 =? 64) eqn:E3.
  - apply guard_inv in E as [_ E]. apply guard_inv in E as [G E]. apply bind_inv in E as (c & Ec & E). cbv zeta in E.
    set (a' := if c =? 0 then a + 2 + 32 else a + 2 + (Z.shiftr (c - 1) 3 + 1)) in *.
    assert (is_byte c) as Hc by (apply rd_Ok in Ec as [_ Ec]; by eapply Forall_lookup_1).
    assert (a + 2 < a') as Ha'.
    { unfold a'. destruct (Z.eqb_spec c 0); [lia|]. assert (0 ≤ Z.shiftr (c - 1) 3) by (apply Z.shiftr_nonneg; unfold is_byte in *; lia). lia. }
    pose proof (Hlt a' ltac:(lia) E) as Hlq. destruct (Hstep a') as (Hr & n & -> & Hn & Hlq2); [lia|lia|]. split; [done|]. cbn [skip_name_loop]; cbv zeta.
    unfold CHECK_LEN. rewrite (proj2 (Z.leb_le (a + 1) plen')) by lia. cbn [guard_ok mbind res_bind]. rewrite Hr. cbn [mbind res_bind]. rewrite E1, E2, E3.
    rewrite (proj2 (Z.leb_le (a + 2) plen')) by lia. cbn [guard_ok mbind res_bind]. rewrite G. cbn [guard_ok mbind res_bind].
    rewrite Hag, Ec by lia. cbn [mbind res_bind]. fold a'. apply (IH a' n); [lia|done| |lia|lia]. by apply (agree_sub _ _ a q); [|lia|lia].
  - unfold ADD_RDLEN in E. apply bind_inv in E as (a' & Ea & E). apply guard_inv in Ea as [_ Ea]. injection Ea as Ea.
    assert (0 ≤ Z.land x 63) by (apply Z.land_nonneg; lia).
    assert (a' ≤ q) as Haq. { destruct (Z.land x 63 =? 0); [by injection E as <-|]. apply Hlt in E; lia. }
    destruct (Hstep a') as (Hr & n & -> & Hn & Hlq2); [lia|lia|]. split; [done|]. cbn [skip_name_loop]; cbv zeta.
    unfold ADD_RDLEN, CHECK_LEN. rewrite (proj2 (Z.leb_le (a + 1) plen')) by lia. cbn [guard_ok mbind res_bind]. rewrite Hr. cbn [mbind res_bind].
    rewrite E1, E2, E3. rewrite Ea, (proj2 (Z.leb_le a' plen')) by lia. cbn [guard_ok mbind res_bind].
    destruct (Z.land x 63 =? 0); [done|]. apply (IH a' n); [lia|done| |lia|lia]. by apply (agree_sub _ _ a q); [|lia|lia].
Qed.

Section agree.
Context (buf buf' : list Z) (plen plen' : Z).
Hypothesis (Hb : Forall is_byte buf).

Lemma skip_name_agree a k k' q :
  0 ≤ a → skip_name buf plen a k = Ok q → agree buf buf' a q → q + k' ≤ plen' → 0 ≤ k' → a < q ∧ skip_name buf' plen' a k' = Ok q.
Proof.
  intros Ha E Hag Hq Hk. unfold skip_name in *. apply bind_inv in E as (q' & E & E'). apply guard_inv in E' as [_ [= ->]].
  destruct (skip_name_loop_agree buf buf' plen plen' _ (S (Z.to_nat plen')) a q Hb Ha E Hag) as [Hlt ->]; [lia|lia|].
  split; [done|]. cbn [mbind res_bind]. unfold CHECK_LEN. by rewrite (proj2 (Z.leb_le _ _)) by lia.
Qed.

Lemma skip_name_lt a k q : 0 ≤ a → skip_name buf plen a k = Ok q → a < q ∧ q + k ≤ plen.
Proof.
  intros Ha E. unfold skip_name in E. apply bind_inv in E as (z & Ez & E). apply guard_inv in E as [G [= ->]].
  destruct (skip_name_loop_agree buf buf plen q _ (Z.to_nat (q - a)) a q Hb Ha Ez (agree_refl _ _ _)) as [Hlt _]; [lia|lia|].
  unfold CHECK_LEN in G. lia.
Qed.

Lemma skip_questions_le n a q : 0 ≤ a → skip_questions_loop buf plen n a = Ok q → a ≤ q.
Proof.
  revert a. induction n as [|n IH]; intros a Ha E; [injection E as <-; lia|]. cbn [skip_questions_loop] in E.
  apply bind_inv in E as (p & Ep & E). apply skip_name_lt in Ep as [? _]; [|done]. apply IH in E; lia.
Qed.

Lemma skip_questions_loop_agree n a q :
  0 ≤ a → skip_questions_loop buf plen n a = Ok q → agree buf buf' a q → q ≤ plen' → skip_questions_loop buf' plen' n a = Ok q.
Proof.
  revert a. induction n as [|n IH]; intros a Ha E Hag Hq; [done|]. cbn [skip_questions_loop] in *.
  apply bind_inv in E as (p & Ep & E). destruct (skip_name_lt a 4 p Ha Ep) as [Hap _].
  assert (p + 4 ≤ q) as Hpq by (apply (skip_questions_le n); [lia|done]).
  destruct (skip_name_agree a 4 4 p Ha Ep) as [_ ->]; [by apply (agree_sub _ _ a q); [|lia|lia]|lia|lia|]. cbn [mbind res_bind].
  apply IH; [lia|done| |done]. by apply (agree_sub _ _ a q); [|lia|lia].
Qed.

Lemma GETSHORT_bound p v q : GETSHORT buf p = Ok (v, q) → 0 ≤ v < 65536 ∧ q = p + 2 ∧ 0 ≤ p ∧ p + 2 ≤ zlen buf.
Proof.
  intros E. unfold GETSHORT in E. apply bind_inv in E as (x & Ex & E). apply bind_inv in E as (y & Ey & [= <- <-]).
  apply rd_Ok in Ex as [H0 Ex], Ey as [_ Ey]. pose proof (Forall_lookup_1 _ _ _ _ Hb Ex) as Hx. pose proof (Forall_lookup_1 _ _ _ _ Hb Ey) as Hy.
  apply lookup_lt_Some in Ey. cbn beta in Hx, Hy. unfold is_byte in Hx, Hy. rewrite (lor_shiftl x y 8) by lia. unfold zlen. lia.
Qed.

(** One record: its name, type, class and data. *)
Lemma skip_record_inv n a q :
  0 ≤ a → skip_section buf plen (S n) a = Ok q →
  ∃ p rdlen, skip_name buf plen a 10 = Ok p ∧ a < p ∧ GETSHORT buf (p + 8) = Ok (rdlen, p + 10) ∧ 0 ≤ rdlen < 65536 ∧
    p + 10 + rdlen ≤ plen ∧ skip_section buf plen n (p + 10 + rdlen) = Ok q.
Proof.
  intros Ha E. cbn [skip_section] in E. apply bind_inv in E as (p & Ep & E). apply bind_inv in E as ([rdlen r] & Er & E).
  destruct (GETSHORT_bound _ _ _ Er) as (Hv & -> & _). apply bind_inv in E as (s & Es & E). unfold ADD_RDLEN, CHECK_LEN in Es.
  apply guard_inv in Es as [G [= <-]]. exists p, rdlen. destruct (skip_name_lt a 10 p Ha Ep).
  replace (p + 8 + 2) with (p + 10) in * by lia. split_and!; try done; lia.
Qed.

Lemma skip_section_le n a q : 0 ≤ a → skip_section buf plen n a = Ok q → a ≤ q ∧ (0 < Z.of_nat n → q ≤ plen).
Proof.
  revert a. induction n as [|n IH]; intros a Ha E; [injection E as <-; lia|].
  destruct (skip_record_inv n a q Ha E) as (p & rdlen & _ & Hp & _ & Hr & Hle & E'). destruct (IH (p + 10 + rdlen) ltac:(lia) E') as [? Hq].
  split; [lia|]. intros _. destruct n; [injection E' as <-; lia|]. apply Hq. lia.
Qed.

Lemma skip_section_agree n a q :
  0 ≤ a → skip_section buf plen n a = Ok q → agree buf buf' a q → q ≤ plen' → skip_section buf' plen' n a = Ok q.
Proof.
  revert a. induction n as [|n IH]; intros a Ha E Hag Hq; [done|].
  destruct (skip_record_inv n a q Ha E) as (p & rdlen & Ep & Hp & Er & Hr & Hle & E').
  destruct (skip_section_le n (p + 10 + rdlen) q ltac:(lia) E') as [Hpq _]. cbn [skip_section].
  destruct (skip_name_agree a 10 10 p Ha Ep) as [_ ->]; [by apply (agree_sub _ _ a q); [|lia|lia]|lia|lia|]. cbn [mbind res_bind].
  rewrite (GETSHORT_agree buf buf' a q) by (done || lia). rewrite Er. cbn [mbind res_bind]. unfold ADD_RDLEN, CHECK_LEN.
  rewrite (proj2 (Z.leb_le (p + 10 + rdlen) plen')) by lia. cbn [guard_ok mbind res_bind].
  apply IH; [lia|done| |done]. by apply (agree_sub _ _ a q); [|lia|lia].
Qed.
End agree.

Lemma skip_section_split buf plen n m a r :
  skip_section buf plen (n + m) a = Ok r → ∃ q, skip_section buf plen n a = Ok q ∧ skip_section buf plen m q = Ok r.
Proof.
  revert a. induction n as [|n IH]; intros a E; [by exists a|]. cbn [Nat.add skip_section] in *.
  apply bind_inv in E as (p & -> & E). cbn [mbind res_bind]. apply bind_inv in E as ([rdlen p'] & -> & E). cbn [mbind res_bind].
  apply bind_inv in E as (p2 & -> & E). cbn [mbind res_bind]. by apply IH.
Qed.

Lemma skip_section_app buf plen n m a q r :
  skip_section buf plen n a = Ok q → skip_section buf plen m q = Ok r → skip_section buf plen (n + m) a = Ok r.
Proof.
  revert a. induction n as [|n IH]; intros a E1 E2; [by injection E1 as <-|]. cbn [Nat.add skip_section] in *.
  apply bind_inv in E1 as (p & -> & E1). cbn [mbind res_bind]. apply bind_inv in E1 as ([rdlen p'] & -> & E1). cbn [mbind res_bind].
  apply bind_inv in E1 as (p2 & -> & E1). cbn [mbind res_bind]. by apply IH.
Qed.

(** * Reads and writes as total steps *)

Lemma twp_GETSHORT buf p (Q : Z * Z → Prop) :
  Forall is_byte buf → 0 ≤ p → p + 2 ≤ zlen buf → (∀ v, 0 ≤ v < 65536 → GETSHORT buf p = Ok (v, p + 2) → Q (v, p + 2)) → twp (GETSHORT buf p) Q.
Proof.
  intros Hb Hp Hl HQ. destruct (rd_in buf p) as (x & Ex & Hx); [lia|]. destruct (rd_in buf (p + 1)) as (y & Ey & Hy); [lia|].
  rewrite Forall_forall in Hb. apply Hb in Hx, Hy. unfold is_byte in *.
  assert (GETSHORT buf p = Ok (Z.lor (Z.shiftl x 8) y, p + 2)) as E by (unfold GETSHORT; by rewrite Ex, Ey).
  rewrite E. apply HQ; [|done]. rewrite (lor_shiftl x y 8) by lia. lia.
Qed.

(** What a write may change. *)
Record patched (buf buf' : list Z) (a b : Z) : Prop := {
  pa_bytes : Forall is_byte buf';
  pa_len : zlen buf' = zlen buf;
  pa_same : ∀ o, o < a ∨ b ≤ o → rd buf' o = rd buf o }.

Lemma patched_refl buf a b : Forall is_byte buf → patched buf buf a b.
Proof. by split. Qed.
Lemma patched_trans b1 b2 b3 a b c d : patched b1 b2 a b → patched b2 b3 c d → patched b1 b3 (Z.min a c) (Z.max b d).
Proof. intros [H1 H2 H3] [K1 K2 K3]. split; [done|congruence|]. intros o Ho. rewrite K3 by lia. apply H3. lia. Qed.
Lemma patched_weaken buf buf' a b a' b' : patched buf buf' a b → a' ≤ a → b ≤ b' → patched buf buf' a' b'.
Proof. intros [H1 H2 H3] Ha Hb. split; [done|done|]. intros o Ho. apply H3. lia. Qed.
Lemma patched_agree buf buf' a b c d : patched buf buf' a b → d ≤ a ∨ b ≤ c → agree buf buf' c d.
Proof. intros [_ _ H] Hc o Ho. apply H. lia. Qed.

Lemma twp_PUTSHORT buf p v (Q : list Z * Z → Prop) :
  Forall is_byte buf → 0 ≤ p → p + 2 ≤ zlen buf →
  (∀ buf', patched buf buf' p (p + 2) → GETSHORT buf' p = Ok (u16 v, p + 2) → Q (buf', p + 2)) → twp (PUTSHORT buf p v) Q.
Proof.
  intros Hb Hp Hl HQ. destruct (PUTSHORT_spec buf p v Hb Hp Hl) as (b & -> & H1 & H2 & H3 & H4).
  apply HQ; [|done]. split; [done|done|]. intros o Ho. apply H4; lia.
Qed.

Lemma twp_put_bytes buf p bs (Q : list Z → Prop) :
  Forall is_byte buf → Forall is_byte bs → 0 ≤ p → p + zlen bs ≤ zlen buf →
  (∀ buf', patched buf buf' p (p + zlen bs) → (∀ o, 0 ≤ o < zlen bs → rd buf' (p + o) = rd bs o) → Q buf') → twp (put_bytes buf p bs) Q.
Proof.
  intros Hb Hbs Hp Hl HQ. destruct (put_bytes_spec bs buf p Hb Hbs Hp Hl) as (b & -> & H1 & H2 & H3). apply HQ.
  - split; [done|done|]. intros o Ho. rewrite H3. replace ((p <=? o) && (o <? p + zlen bs)) with false by lia. done.
  - intros o Ho. rewrite H3. replace ((p <=? p + o) && (p + o <? p + zlen bs)) with true by lia. f_equal. lia.
Qed.

Lemma twp_wr_patched buf p v (Q : list Z → Prop) :
  Forall is_byte buf → 0 ≤ p < zlen buf → (∀ buf', patched buf buf' p (p + 1) → rd buf' p = Ok (u8 v) → Q buf') → twp (wr buf p v) Q.
Proof.
  intros Hb Hp HQ. apply twp_wr; [done|]. intros b' W. destruct (wr_bytes _ _ _ _ Hb W). apply HQ.
  - split; [done|done|]. intros o Ho. rewrite (rd_wr _ _ _ _ _ W). by rewrite (proj2 (Z.eqb_neq o p)) by lia.
  - rewrite (rd_wr _ _ _ _ _ W). by rewrite Z.eqb_refl.
Qed.

Lemma twp_memmove buf p start len (Q : list Z → Prop) :
  Forall is_byte buf → 0 ≤ p → p + len ≤ zlen buf → 0 ≤ start → start + len ≤ zlen buf → 0 ≤ len →
  (∀ buf', patched buf buf' p (p + len) → (∀ o, 0 ≤ o < len → rd buf' (p + o) = rd buf (start + o)) → Q buf') → twp (memmove buf p start len) Q.
Proof.
  intros Hb Hp Hl Hs Hsl Hlen HQ. destruct (memmove_spec buf p start len Hb Hp Hl Hs Hsl Hlen) as (b & -> & H1 & H2 & H3). apply HQ.
  - split; [done|done|]. intros o Ho. rewrite H3. replace ((p <=? o) && (o <? p + len)) with false by lia. done.
  - intros o Ho. rewrite H3. replace ((p <=? p + o) && (p + o <? p + len)) with true by lia. f_equal. lia.
Qed.

(** A caught skipper. *)
Lemma twp_catch_wp {A} (m : res A) (Q : option A → Prop) : wp m (λ _, True) → (∀ a, m = Ok a → Q (Some a)) → (m = Bad → Q None) → twp (catch m) Q.
Proof. destruct m; cbn; auto. Qed.

(** A run of bytes stored over another. *)
Lemma put_bytes_at bs pre old post :
  Forall is_byte bs → zlen old = zlen bs → put_bytes (pre ++ old ++ post) (zlen pre) bs = Ok (pre ++ bs ++ post).
Proof.
  intros Hb. revert pre old. induction Hb as [|b bs Hb Hbs IH]; intros pre old Ho.
  - rewrite zlen_nil in Ho. destruct old; [done|]. rewrite zlen_cons in Ho. pose proof (zlen_nonneg old). lia.
  - destruct old as [|o old]; [rewrite zlen_nil, zlen_cons in Ho; pose proof (zlen_nonneg bs); lia|]. rewrite !zlen_cons in Ho.
    cbn [put_bytes app]. rewrite wr_middle. cbn [mbind res_bind]. rewrite u8_id by done.
    specialize (IH (pre ++ [b]) old ltac:(lia)). rewrite zlen_snoc, <- !app_assoc in IH. exact IH.
Qed.

(** Lists of a known length. *)
Lemma zlen_inv (l : list Z) n : zlen l = Z.of_nat n → length l = n.
Proof. unfold zlen. lia. Qed.

(** [PUTSHORT] and [PUTLONG]. *)
Definition short_bytes (v : Z) : list Z := [u8 (Z.shiftr (u16 v) 8); u8 (u16 v)].
Definition long_bytes (v : Z) : list Z :=
  [u8 (Z.shiftr (u32 v) 24); u8 (Z.shiftr (u32 v) 16); u8 (Z.shiftr (u32 v) 8); u8 (u32 v)].

Lemma rd_at pre k x post i : i = zlen pre + zlen k → rd (pre ++ k ++ x :: post) i = Ok x.
Proof. intros ->. rewrite (app_assoc pre), <- zlen_app. by apply rd_middle. Qed.

Lemma get_short pre v post : GETSHORT (pre ++ short_bytes v ++ post) (zlen pre) = Ok (u16 v, zlen pre + 2).
Proof.
  rewrite (GETSHORT_spec _ _ (u8 (Z.shiftr (u16 v) 8)) (u8 (u16 v))); try apply u8_byte.
  - do 2 f_equal. rewrite Z.shiftr_div_pow2 by lia. change (2 ^ 8) with 256. unfold u8, u16. dlia.
  - by apply rd_middle.
  - apply (rd_at pre [u8 (Z.shiftr (u16 v) 8)] (u8 (u16 v)) post). done.
Qed.

Lemma lor_bytes a b c d :
  is_byte b → is_byte c → is_byte d → 0 ≤ a →
  Z.lor (Z.lor (Z.lor (Z.shiftl a 24) (Z.shiftl b 16)) (Z.shiftl c 8)) d = a * 16777216 + b * 65536 + c * 256 + d.
Proof.
  unfold is_byte. intros Hb Hc Hd Ha.
  assert (Z.lor (Z.lor (Z.shiftl a 24) (Z.shiftl b 16)) (Z.shiftl c 8) = Z.shiftl (a * 65536 + b * 256 + c) 8) as ->.
  { assert (Z.lor (Z.shiftl a 24) (Z.shiftl b 16) = Z.shiftl (a * 256 + b) 16) as ->.
    { change 24 with (8 + 16). rewrite <- Z.shiftl_shiftl, <- Z.shiftl_lor by lia. by rewrite (lor_shiftl a b 8). }
    change 16 with (8 + 8) at 1. rewrite <- Z.shiftl_shiftl, <- Z.shiftl_lor by lia.
    rewrite (lor_shiftl (a * 256 + b) c 8) by (done || lia). f_equal. lia. }
  rewrite (lor_shiftl (a * 65536 + b * 256 + c) d 8) by (done || lia). lia.
Qed.

Lemma get_long pre v post : GETLONG (pre ++ long_bytes v ++ post) (zlen pre) = Ok (u32 v, zlen pre + 4).
Proof.
  unfold GETLONG, long_bytes. set (a := u8 (Z.shiftr (u32 v) 24)). set (b := u8 (Z.shiftr (u32 v) 16)).
  set (c := u8 (Z.shiftr (u32 v) 8)). set (d := u8 (u32 v)).
  assert (rd (pre ++ [a; b; c; d] ++ post) (zlen pre) = Ok a) as -> by exact (rd_middle pre a (b :: c :: d :: post) _ eq_refl).
  assert (rd (pre ++ [a; b; c; d] ++ post) (zlen pre + 1) = Ok b) as R1 by exact (rd_at pre [a] b (c :: d :: post) _ eq_refl).
  assert (rd (pre ++ [a; b; c; d] ++ post) (zlen pre + 2) = Ok c) as R2 by exact (rd_at pre [a; b] c (d :: post) _ eq_refl).
  assert (rd (pre ++ [a; b; c; d] ++ post) (zlen pre + 3) = Ok d) as R3 by exact (rd_at pre [a; b; c] d post _ eq_refl).
  cbn [mbind res_bind]. rewrite R1. cbn [mbind res_bind]. rewrite R2. cbn [mbind res_bind]. rewrite R3. cbn [mbind res_bind].
  do 2 f_equal. rewrite lor_bytes; [|apply u8_byte..|unfold a; pose proof (u8_byte (Z.shiftr (u32 v) 24)); unfold is_byte in *; lia].
  unfold a, b, c, d. rewrite !Z.shiftr_div_pow2 by lia. change (2 ^ 24) with 16777216. change (2 ^ 16) with 65536. change (2 ^ 8) with 256.
  unfold u8, u32. dlia.
Qed.

Lemma rd_here pre x post : rd (pre ++ x :: post) (zlen pre) = Ok x.
Proof. by apply rd_middle. Qed.
Lemma rd_next pre x y post : rd (pre ++ x :: y :: post) (zlen pre + 1) = Ok y.
Proof.
  replace (pre ++ x :: y :: post) with ((pre ++ [x]) ++ y :: post) by by rewrite <- app_assoc.
  apply rd_middle. by rewrite zlen_snoc.
Qed.
