(* ===== verification/DList.v ===== *)
(** The LRU list of src/src/cache.c at the level of its pointers: cache_head,
    cache_tail and the [prev] and [next] fields of the records. [cache_link],
    [cache_unlink] and the relinking done by [cache_free] are shown to
    implement adding at the front, removing and adding at the back of a
    sequence, which is how [Cache] models the list. *)
From S2P Require Import Prelude.

(** A record is named by its address. *)
Record node := Node { prev : option Z; next : option Z }.
Record dll := Dll { nodes : gmap Z node; cache_head : option Z; cache_tail : option Z }.

(** [crecp->prev = v] and [crecp->next = v]. *)
Definition set_prev (v : option Z) (m : gmap Z node) (id : Z) : gmap Z node :=
  alter (λ n, Node v (next n)) id m.
Definition set_next (v : option Z) (m : gmap Z node) (id : Z) : gmap Z node :=
  alter (λ n, Node (prev n) v) id m.

Definition link_front (crecp : Z) (d : dll) : dll :=
  let m := match cache_head d with Some h => set_prev (Some crecp) (nodes d) h | None => nodes d end in
  let m := set_next (cache_head d) m crecp in
  let m := set_prev None m crecp in
  Dll m (Some crecp) (match cache_tail d with None => Some crecp | t => t end).

Definition unlink (crecp : Z) (d : dll) : dll :=
  match nodes d !! crecp with
  | None => d
  | Some n =>
      let '(m, head) :=
        match prev n with
        | Some p => (set_next (next n) (nodes d) p, cache_head d)
        | None => (nodes d, next n)
        end in
      let '(m, tail) :=
        match next n with
        | Some x => (set_prev (prev n) m x, cache_tail d)
        | None => (m, prev n)
        end in
      Dll m head tail
  end.

(** The list part of [cache_free]. *)
Definition link_back (crecp : Z) (d : dll) : dll :=
  let '(m, head) :=
    match cache_tail d with
    | Some t => (set_next (Some crecp) (nodes d) t, cache_head d)
    | None => (nodes d, Some crecp)
    end in
  let m := set_prev (cache_tail d) m crecp in
  let m := set_next None m crecp in
  Dll m head (Some crecp).

(** * Representation *)

Definition hd_or (l : list Z) (n : option Z) : option Z := match l with [] => n | y :: _ => Some y end.
Definition last_or (p : option Z) (l : list Z) : option Z := match last l with Some y => Some y | None => p end.

(** The records [l], linked both ways, between the neighbours [p] and [n]. *)
Fixpoint seg (m : gmap Z node) (p : option Z) (l : list Z) (n : option Z) : Prop :=
  match l with
  | [] => True
  | x :: l => m !! x = Some (Node p (hd_or l n)) ∧ seg m (Some x) l n
  end.

Record is_list (d : dll) (l : list Z) : Prop := {
  il_seg : seg (nodes d) None l None;
  il_head : cache_head d = hd_or l None;
  il_tail : cache_tail d = last_or None l;
  il_nodup : NoDup l
}.

Lemma last_or_cons p x l : last_or p (x :: l) = last_or (Some x) l.
Proof. unfold last_or. rewrite last_cons. by destruct (last l). Qed.
Lemma last_or_snoc p l x : last_or p (l ++ [x]) = Some x.
Proof. unfold last_or. by rewrite last_snoc. Qed.

Lemma seg_cons m p x l n :
  seg m p (x :: l) n ↔ m !! x = Some (Node p (hd_or l n)) ∧ seg m (Some x) l n.
Proof. done. Qed.

Lemma seg_app m p l1 l2 n :
  seg m p (l1 ++ l2) n ↔ seg m p l1 (hd_or l2 n) ∧ seg m (last_or p l1) l2 n.
Proof.
  revert p. induction l1 as [|x l1 IH]; intros p; simpl.
  { change (last_or p []) with p. tauto. }
  rewrite IH, last_or_cons. destruct l1; simpl; tauto.
Qed.

Lemma seg_alter m p l n x f : x ∉ l → seg m p l n → seg (alter f x m) p l n.
Proof.
  revert p. induction l as [|y l IH]; intros p Hx; simpl; [done|]. intros [Hy Hl].
  split; [rewrite lookup_alter_ne by set_solver; done|]. apply IH; [set_solver|done].
Qed.

(** Redirecting the end of a segment. *)
Lemma seg_set_next m p l x n n' :
  NoDup (l ++ [x]) → seg m p (l ++ [x]) n → seg (set_next n' m x) p (l ++ [x]) n'.
Proof.
  intros [_ [Hx _]]%NoDup_app. rewrite !seg_app. simpl. intros [Hl [Hn _]]. split.
  - apply seg_alter; [set_solver|done].
  - unfold set_next. by rewrite lookup_alter_eq, Hn.
Qed.

(** Redirecting its start. *)
Lemma seg_set_prev m p p' l x n :
  x ∉ l → seg m p (x :: l) n → seg (set_prev p' m x) p' (x :: l) n.
Proof.
  simpl. intros Hx [Hn Hl]. split; [unfold set_prev; by rewrite lookup_alter_eq, Hn|].
  by apply seg_alter.
Qed.

#[local] Arguments seg : simpl never.

Lemma link_front_ok d l id :
  is_list d l → id ∉ l → is_Some (nodes d !! id) → is_list (link_front id d) (id :: l).
Proof.
  intros [Hs Hh Ht Hn] Hid [n0 Hid0]. unfold link_front. split; simpl.
  - rewrite Hh, seg_cons. unfold set_prev at 1, set_next at 1. rewrite lookup_alter_eq, lookup_alter_eq.
    destruct l as [|h l]; simpl; [by rewrite Hid0|]. split.
    + unfold set_prev. by rewrite lookup_alter_ne, Hid0 by set_solver.
    + do 2 (apply seg_alter; [done|]).
      apply (seg_set_prev _ None); [by apply NoDup_cons in Hn as [? _]|done].
  - done.
  - rewrite Ht, last_or_cons. unfold last_or. destruct l as [|h l _] using rev_ind; [done|]. by rewrite !last_snoc.
  - by constructor.
Qed.

Lemma link_back_ok d l id :
  is_list d l → id ∉ l → is_Some (nodes d !! id) → is_list (link_back id d) (l ++ [id]).
Proof.
  intros [Hs Hh Ht Hn] Hid [n0 Hid0]. unfold link_back. rewrite Ht.
  destruct l as [|h l _] using rev_ind.
  - simpl. split; simpl; [|done..|apply NoDup_singleton]. rewrite seg_cons. split; [|done].
    unfold set_prev, set_next. by rewrite lookup_alter_eq, lookup_alter_eq, Hid0.
  - rewrite last_or_snoc. split; cbn [nodes cache_head cache_tail].
    + apply seg_app. rewrite last_or_snoc, seg_cons. split_and!; [| |done].
      * do 2 (apply seg_alter; [done|]). by eapply seg_set_next.
      * unfold set_prev, set_next. rewrite lookup_alter_eq, lookup_alter_eq, lookup_alter_ne by set_solver.
        by rewrite Hid0.
    + rewrite Hh. by destruct l.
    + by rewrite last_or_snoc.
    + apply NoDup_app. split_and!; [done|set_solver|apply NoDup_singleton].
Qed.

Lemma unlink_ok d l1 id l2 :
  is_list d (l1 ++ id :: l2) → is_list (unlink id d) (l1 ++ l2).
Proof.
  intros [Hs Hh Ht Hn]. apply NoDup_app in Hn as Hn'. destruct Hn' as (Hn1 & Hd & [Hi Hn2]%NoDup_cons).
  apply seg_app in Hs as [Hs1 [Hx Hs2]%seg_cons]. unfold unlink. rewrite Hx. cbn [prev next].
  assert (NoDup (l1 ++ l2)) as Hnd by (apply NoDup_app; set_solver).
  destruct l1 as [|y l1 _] using rev_ind; destruct l2 as [|z l2].
  - split; done.
  - simpl. split; simpl; [|done| |done].
    + eapply seg_set_prev; [by apply NoDup_cons in Hn2 as [? _]|done].
    + rewrite Ht. simpl. by rewrite !last_or_cons.
  - rewrite last_or_snoc. simpl. rewrite app_nil_r in *. split; simpl; [|..|done].
    + by eapply seg_set_next.
    + rewrite Hh. by destruct l1.
    + by rewrite last_or_snoc.
  - rewrite last_or_snoc in *. simpl in *. split; simpl; [|..|done].
    + apply seg_app. rewrite last_or_snoc. simpl. split.
      * apply seg_alter; [set_solver|]. by eapply seg_set_next.
      * eapply seg_set_prev; [by apply NoDup_cons in Hn2 as [? _]|]. apply seg_alter; [set_solver|done].
    + rewrite Hh. by destruct l1.
    + rewrite Ht. unfold last_or. rewrite !last_app, !last_cons. by destruct (last l2).
Qed.

(** The pointer manipulations of the LRU list implement a sequence: linking adds
    at the front, unlinking removes the record wherever it is, and freeing
    adds at the back; the list stays doubly linked with its head and tail. *)
Theorem lru_list_refines d l id :
  is_list d l → is_Some (nodes d !! id) →
  (id ∉ l → is_list (link_front id d) (id :: l) ∧ is_list (link_back id d) (l ++ [id])) ∧
  (id ∈ l → is_list (unlink id d) (filter (λ x, x ≠ id) l)).
Proof.
  intros Hl Hid. split; [intros; split; [by apply link_front_ok|by apply link_back_ok]|].
  intros (l1 & l2 & ->)%list_elem_of_split. pose proof (il_nodup _ _ Hl) as Hn.
  rewrite filter_app, filter_cons_False, !filter_id; [by apply unlink_ok|..|auto].
  all: apply Forall_forall; intros x Hx ->; apply NoDup_app in Hn as (_ & Hd & [? _]%NoDup_cons); set_solver.
Qed.

(** Two records linked into the empty list, the older one then freed to the
    back. *)
Lemma lru_list_refines_witness :
  is_list (unlink 1 (link_front 2 (link_front 1 (Dll {[1 := Node None None; 2 := Node None None]} None None)))) [2].
Proof.
  set (d0 := Dll {[1 := Node None None; 2 := Node None None]} None None).
  assert (is_list d0 []) as H0 by (split; try done; constructor).
  destruct (lru_list_refines d0 [] 1 H0) as [H1 _]; [by eexists|].
  destruct H1 as [H1 _]; [set_solver|].
  destruct (lru_list_refines _ [1] 2 H1) as [H2 _]; [by eexists|].
  destruct H2 as [H2 _]; [set_solver|].
  destruct (lru_list_refines _ [2; 1] 1 H2) as [_ H3]; [by eexists|].
  apply H3. set_solver.
Defined.
