(* ===== verification/Cache.v ===== *)
(** The DNS cache (src/src/cache.c): the records, the LRU list, the hash table
    with its chains, the chain of records being inserted, and the operations on
    them.

    A record is named by its address, an integer. The LRU list, a hash chain
    and the insertion chain are sequences of addresses; [DList] shows that the
    pointer manipulations of the source implement the operations used here.
    Unlinking a record that is not on the list, or linking one that is, would
    corrupt it: both are [Oob] in the model. Build options: [dnssec] is
    HAVE_DNSSEC. *)
From S2P Require Import Prelude Hostname.

Definition F_IMMORTAL : Z := 1.
Definition F_NAMEP : Z := 2.
Definition F_REVERSE : Z := 4.
Definition F_FORWARD : Z := 8.
Definition F_DHCP : Z := 16.
Definition F_NEG : Z := 32.
Definition F_HOSTS : Z := 64.
Definition F_IPV4 : Z := 128.
Definition F_IPV6 : Z := 256.
Definition F_BIGNAME : Z := 512.
Definition F_NXDOMAIN : Z := 1024.
Definition F_CNAME : Z := 2048.
Definition F_DNSKEY : Z := 4096.
Definition F_CONFIG : Z := 8192.
Definition F_DS : Z := 16384.
Definition F_NO_RR : Z := 33554432.
Definition F_SRV : Z := 1073741824.
Definition UID_NONE : Z := 0.
Definition SMALLDNAME : Z := 50.
Definition DNSSEC_MIN_TTL : Z := 60.

(** [x & ~m] on 32 bits. *)
Definition clear_flag (x m : Z) : Z := Z.ldiff x m.

(** * Records *)

(** union all_addr, by what the record's flags say it holds. Block data is
    named by its address. *)
Inductive all_addr :=
| A_addr (bytes : list Z)
| A_cname (target : option Z) (uid : Z)
| A_cname_name (name : cstring)
| A_srv (target : Z) (targetlen : Z)
| A_key (keydata keylen algo keytag kflags : Z)
| A_ds (keydata keylen digest algo keytag : Z)
| A_none.

(** struct crec; the three forms of the name are one string, [F_BIGNAME] says
    whether a big name is held. [nxt] is the [next] field of a record that is
    not on the LRU list: the chain of answers built by a lookup. *)
Record crec := Crec {
  flags : Z; ttd : Z; uid : Z; addr : all_addr; cname_str : cstring; nxt : option Z
}.
#[global] Instance crec_inhabited : Inhabited crec := populate (Crec 0 0 0 A_none [] None).

(** The variables of the module. [big_free] counts the big names on the free
    list, [blocks_freed] records the calls of blockdata_free. *)
Record cache := Cache {
  store : gmap Z crec;
  lru : list Z;
  hash_table : list (list Z);
  new_chain : list Z;
  insert_error : bool;
  big_free : Z;
  bignames_left : Z;
  next_uid_ctr : Z;
  blocks_freed : list Z;
  live_freed : Z;
  inserted : Z
}.

Definition set_store (s : gmap Z crec) (c : cache) : cache :=
  Cache s (lru c) (hash_table c) (new_chain c) (insert_error c) (big_free c) (bignames_left c)
    (next_uid_ctr c) (blocks_freed c) (live_freed c) (inserted c).
Definition set_lru (l : list Z) (c : cache) : cache :=
  Cache (store c) l (hash_table c) (new_chain c) (insert_error c) (big_free c) (bignames_left c)
    (next_uid_ctr c) (blocks_freed c) (live_freed c) (inserted c).
Definition set_table (t : list (list Z)) (c : cache) : cache :=
  Cache (store c) (lru c) t (new_chain c) (insert_error c) (big_free c) (bignames_left c)
    (next_uid_ctr c) (blocks_freed c) (live_freed c) (inserted c).
Definition set_new_chain (l : list Z) (c : cache) : cache :=
  Cache (store c) (lru c) (hash_table c) l (insert_error c) (big_free c) (bignames_left c)
    (next_uid_ctr c) (blocks_freed c) (live_freed c) (inserted c).
Definition set_insert_error (b : bool) (c : cache) : cache :=
  Cache (store c) (lru c) (hash_table c) (new_chain c) b (big_free c) (bignames_left c)
    (next_uid_ctr c) (blocks_freed c) (live_freed c) (inserted c).
Definition set_big (free left : Z) (c : cache) : cache :=
  Cache (store c) (lru c) (hash_table c) (new_chain c) (insert_error c) free left
    (next_uid_ctr c) (blocks_freed c) (live_freed c) (inserted c).
Definition set_uid_ctr (u : Z) (c : cache) : cache :=
  Cache (store c) (lru c) (hash_table c) (new_chain c) (insert_error c) (big_free c) (bignames_left c)
    u (blocks_freed c) (live_freed c) (inserted c).
Definition add_block_freed (b : Z) (c : cache) : cache :=
  Cache (store c) (lru c) (hash_table c) (new_chain c) (insert_error c) (big_free c) (bignames_left c)
    (next_uid_ctr c) (b :: blocks_freed c) (live_freed c) (inserted c).
Definition count_live_freed (c : cache) : cache :=
  Cache (store c) (lru c) (hash_table c) (new_chain c) (insert_error c) (big_free c) (bignames_left c)
    (next_uid_ctr c) (blocks_freed c) (live_freed c + 1) (inserted c).
Definition count_inserted (c : cache) : cache :=
  Cache (store c) (lru c) (hash_table c) (new_chain c) (insert_error c) (big_free c) (bignames_left c)
    (next_uid_ctr c) (blocks_freed c) (live_freed c) (inserted c + 1).

(** The record at an address, and the store with one of its fields replaced. *)
Definition get (c : cache) (id : Z) : crec := store c !!! id.
Definition upd (f : crec → crec) (id : Z) (c : cache) : cache := set_store (alter f id (store c)) c.
Definition with_flags (v : Z) (r : crec) : crec := Crec v (ttd r) (uid r) (addr r) (cname_str r) (nxt r).
Definition with_ttd (v : Z) (r : crec) : crec := Crec (flags r) v (uid r) (addr r) (cname_str r) (nxt r).
Definition with_uid (v : Z) (r : crec) : crec := Crec (flags r) (ttd r) v (addr r) (cname_str r) (nxt r).
Definition with_addr (v : all_addr) (r : crec) : crec := Crec (flags r) (ttd r) (uid r) v (cname_str r) (nxt r).
Definition with_name (v : cstring) (r : crec) : crec := Crec (flags r) (ttd r) (uid r) (addr r) v (nxt r).
Definition with_nxt (v : option Z) (r : crec) : crec := Crec (flags r) (ttd r) (uid r) (addr r) (cname_str r) v.

(** [crecp->flags & m] as a condition. *)
Definition has (r : crec) (m : Z) : bool := flag (flags r) m.
(** Records that are not in the pool of the LRU list. *)
Definition F_LOCAL : Z := 8272. (* F_HOSTS | F_DHCP | F_CONFIG *)

(** The static counter wraps at 32 bits; 0 is not used. *)
Definition next_uid (id : Z) (c : cache) : cache :=
  if uid (get c id) =? UID_NONE then
    let u := u32 (next_uid_ctr c + 1) in
    let u := if u =? UID_NONE then u32 (u + 1) else u in
    upd (with_uid u) id (set_uid_ctr u c)
  else c.

(** * The LRU list *)

Definition cache_link (id : Z) (c : cache) : res cache :=
  if bool_decide (id ∈ lru c) then Oob else Ok (set_lru (id :: lru c) c).

Definition cache_unlink (id : Z) (c : cache) : res cache :=
  if bool_decide (id ∈ lru c) then Ok (set_lru (filter (λ x, x ≠ id) (lru c)) c) else Oob.

Section build.
Context (dnssec : bool).

Definition cache_blockdata_free (id : Z) (c : cache) : cache :=
  let r := get c id in
  if negb (has r F_NEG) then
    if has r F_SRV then
      match addr r with A_srv t _ => add_block_freed t c | _ => c end
    else if dnssec && has r F_DNSKEY then
      match addr r with A_key k _ _ _ _ => add_block_freed k c | _ => c end
    else if dnssec && has r F_DS then
      match addr r with A_ds k _ _ _ _ => add_block_freed k c | _ => c end
    else c
  else c.

Definition cache_free (id : Z) (c : cache) : res cache :=
  let c := upd (λ r, with_uid UID_NONE
             (with_flags (clear_flag (clear_flag (flags r) F_FORWARD) F_REVERSE) r)) id c in
  if bool_decide (id ∈ lru c) then Oob
  else
    let c := set_lru (lru c ++ [id]) c in
    let c := if has (get c id) F_BIGNAME
             then upd (λ r, with_flags (clear_flag (flags r) F_BIGNAME) r) id
                    (set_big (big_free c + 1) (bignames_left c) c)
             else c in
    Ok (cache_blockdata_free id c).

(** Taking a record off its hash chain is dropping it from the chain; a record
    of the pool also goes back to the end of the LRU list. *)
Definition unlink_free (id : Z) (c : cache) : res cache :=
  c ← cache_unlink id c; cache_free id c.

(** * Hashing *)

(** [mix_tab] is the table typestr read as bytes. *)
Context (mix_tab : Z → Z).

Fixpoint hash_name (name : cstring) (val : Z) : Z :=
  match name with
  | [] => val
  | c :: name =>
      let c := lower c in
      let rot := Z.lor (u32 (Z.shiftl val 7)) (Z.shiftr val 25) in
      hash_name name (u32 (rot + Z.lxor (mix_tab (Z.land (u32 (val + c)) 63)) c))
  end.

(** The index of the bucket; the table size is a power of two. *)
Definition hash_bucket (c : cache) (name : cstring) : nat :=
  let val := hash_name name 7989 in
  Z.to_nat (Z.land (Z.lxor val (Z.shiftr val 16)) (zlen (hash_table c) - 1)).

Definition cache_get_name (c : cache) (id : Z) : cstring := cname_str (get c id).

(** Insertion into a chain: reverse records first, then the others, the
    immortal ones of them last. *)
Fixpoint skip_while (p : crec → bool) (c : cache) (chain : list Z) : list Z * list Z :=
  match chain with
  | [] => ([], [])
  | x :: rest =>
      if p (get c x) then let '(a, b) := skip_while p c rest in (x :: a, b) else ([], chain)
  end.

Definition chain_insert (c : cache) (id : Z) (chain : list Z) : list Z :=
  let r := get c id in
  if has r F_REVERSE then id :: chain
  else
    let '(rev, rest) := skip_while (λ r, has r F_REVERSE) c chain in
    let '(mortal, rest) :=
      if has r F_IMMORTAL then skip_while (λ r, negb (has r F_IMMORTAL)) c rest else ([], rest) in
    rev ++ mortal ++ id :: rest.

Definition cache_hash (id : Z) (c : cache) : cache :=
  let b := hash_bucket c (cache_get_name c id) in
  set_table (alter (chain_insert c id) b (hash_table c)) c.

(** [for (new_size = 64; new_size < size/10; new_size = new_size << 1)]. *)
Fixpoint table_size (fuel : nat) (new_size size : Z) : Z :=
  match fuel with
  | O => new_size
  | S fuel => if new_size <? size / 10 then table_size fuel (Z.shiftl new_size 1) size else new_size
  end.

(** [alloc] is the result of whine_malloc. An empty table is the NULL one. *)
Definition rehash (alloc : bool) (size : Z) (c : cache) : cache :=
  let new_size := table_size 32 64 size in
  let old := hash_table c in
  if bool_decide (old = []) || ((zlen old <? new_size) && alloc)
  then foldl (λ c id, cache_hash id c) (set_table (repeat [] (Z.to_nat new_size)) c) (concat old)
  else c.

(** * Life of a record *)

Definition is_expired (now : Z) (r : crec) : bool :=
  if has r F_IMMORTAL then false else negb (now <? ttd r).

(** A CNAME record whose target record has been reused. *)
Definition is_outdated_cname_pointer (c : cache) (r : crec) : bool :=
  if negb (has r F_CNAME) then false
  else
    match addr r with
    | A_cname_name _ => false
    | A_cname (Some t) u => negb (negb (has (get c t) (Z.lor F_DNSKEY F_DS)) && (u =? uid (get c t)))
    | _ => true
    end.

(** [cache_unlink(crecp); cache_free(crecp);] unless the record is local. *)
Definition drop_dead (id : Z) (c : cache) : res cache :=
  if has (get c id) F_LOCAL then Ok c else unlink_free id c.

(** The first condition for replacing a record by one with flags [fl]. *)
Definition conflicts (fl : Z) (r : crec) : bool :=
  negb (Z.land (Z.land fl (flags r)) (Z.lor (Z.lor F_IPV4 F_IPV6) (Z.lor F_SRV F_NXDOMAIN)) =? 0) ||
  (flag (Z.lor (flags r) fl) F_CNAME && negb (has r (Z.lor F_DNSKEY F_DS))).

(** The scan of one chain for [name]. The results are the chain left, the local
    record that stops the scan ([return crecp]), and the record of [name]
    that is the target of a CNAME with its uid. *)
Fixpoint scan_name (name : cstring) (class now fl : Z) (chain : list Z) (target : option (Z * Z))
    (c : cache) : res (cache * list Z * option Z * option (Z * Z)) :=
  match chain with
  | [] => Ok (c, [], None, target)
  | id :: rest =>
      let r := get c id in
      let mine := has r F_FORWARD && hostname_isequal (cname_str r) name in
      if mine && conflicts fl r then
        if has r F_LOCAL then Ok (c, chain, Some id, target)
        else
          let target := if uid r =? UID_NONE then target else Some (id, uid r) in
          c ← unlink_free id c;
          scan_name name class now fl rest target c
      else if mine && dnssec && flag (Z.land fl (flags r)) (Z.lor F_DNSKEY F_DS) && (uid r =? class) then
        if has r F_CONFIG then Ok (c, chain, Some id, target)
        else
          c ← unlink_free id c;
          scan_name name class now fl rest target c
      else if is_expired now r || is_outdated_cname_pointer c r then
        c ← drop_dead id c;
        scan_name name class now fl rest target c
      else
        '(c, kept, stop, target) ← scan_name name class now fl rest target c;
        Ok (c, id :: kept, stop, target)
  end.

(** [memcmp(&crecp->addr, addr, addrlen) == 0]. *)
Definition addr_is (a : all_addr) (bytes : list Z) (addrlen : nat) : bool :=
  match a with A_addr b => bool_decide (take addrlen b = take addrlen bytes) | _ => false end.

(** A reverse record of the address, to be replaced. *)
Definition rev_hit (a : option (list Z)) (fl : Z) (r : crec) : bool :=
  let addrlen := if flag fl F_IPV6 then 16%nat else 4%nat in
  match a with
  | Some a => negb (has r F_LOCAL) && flag (Z.land fl (flags r)) F_REVERSE &&
              flag (Z.land fl (flags r)) (Z.lor F_IPV4 F_IPV6) && addr_is (addr r) a addrlen
  | None => false
  end.

(** The scan of one chain for reverse records of an address, or only for
    expired ones; it stops at the immortal forward records. *)
Fixpoint scan_addr (addr : option (list Z)) (now fl : Z) (chain : list Z) (c : cache)
    : res (cache * list Z) :=
  match chain with
  | [] => Ok (c, [])
  | id :: rest =>
      let r := get c id in
      if has r F_REVERSE || negb (has r F_IMMORTAL) then
        if is_expired now r then c ← drop_dead id c; scan_addr addr now fl rest c
        else if rev_hit addr fl r then c ← unlink_free id c; scan_addr addr now fl rest c
        else '(c, kept) ← scan_addr addr now fl rest c; Ok (c, id :: kept)
      else Ok (c, chain)
  end.

Fixpoint scan_table (addr : option (list Z)) (now fl : Z) (table : list (list Z)) (c : cache)
    : res (cache * list (list Z)) :=
  match table with
  | [] => Ok (c, [])
  | chain :: table =>
      '(c, chain) ← scan_addr addr now fl chain c;
      '(c, table) ← scan_table addr now fl table c;
      Ok (c, chain :: table)
  end.

(** The record found in the way, and the target record and its uid. *)
Definition cache_scan_free (name : cstring) (addr : option (list Z)) (class now fl : Z) (c : cache)
    : res (cache * option Z * option (Z * Z)) :=
  if flag fl F_FORWARD then
    let b := hash_bucket c name in
    '(c, chain, stop, target) ← scan_name name class now fl (hash_table c !!! b) None c;
    Ok (set_table (<[b := chain]> (hash_table c)) c, stop, target)
  else
    '(c, table) ← scan_table addr now fl (hash_table c) c;
    Ok (set_table table c, None, None).

(** * Insertion *)

(** The records that did not get committed. *)
Fixpoint free_all (l : list Z) (c : cache) : res cache :=
  match l with
  | [] => Ok c
  | id :: l => c ← cache_free id c; free_all l (set_new_chain l c)
  end.

Definition cache_start_insert (c : cache) : res cache :=
  c ← free_all (new_chain c) c;
  Ok (set_insert_error false (set_new_chain [] c)).

(** The address bytes of a record as [&new->addr] passes them. *)
Definition addr_bytes (a : all_addr) : option (list Z) :=
  match a with A_addr b => Some b | _ => Some [] end.

(** The loop that gets a record from the end of the LRU list. [None]: none can
    be had. [freed_all] and [free_avail] are the two C variables. *)
Fixpoint get_free (fuel : nat) (class now : Z) (freed_all free_avail : bool) (c : cache)
    : res (cache * option Z) :=
  match fuel with
  | O => NoFuel
  | S fuel =>
      match last (lru c) with
      | None => Ok (set_insert_error true c, None)
      | Some new =>
          let r := get c new in
          if negb (has r (Z.lor F_FORWARD F_REVERSE)) then Ok (c, Some new)
          else if free_avail then Ok (set_insert_error true c, None)
          else if freed_all then
            '(c, _, _) ← cache_scan_free (cname_str r) (addr_bytes (addr r)) (uid r) now (flags r) c;
            get_free fuel class now freed_all true (count_live_freed c)
          else
            '(c, _, _) ← cache_scan_free [] None class now 0 c;
            get_free fuel class now true free_avail c
      end
  end.

(** Extra memory for a long name: whether to use it, or [None]. *)
Definition get_bigname (alloc : bool) (name : option cstring) (fl : Z) (c : cache)
    : option (cache * bool) :=
  match name with
  | Some n =>
      if SMALLDNAME - 1 <? strlen n then
        if 0 <? big_free c then Some (set_big (big_free c - 1) (bignames_left c) c, true)
        else if ((bignames_left c =? 0) && negb (flag fl (Z.lor F_DS F_DNSKEY))) || negb alloc then None
        else if negb (bignames_left c =? 0)
        then Some (set_big (big_free c) (bignames_left c - 1) c, true)
        else Some (c, true)
      else Some (c, false)
  | None => Some (c, false)
  end.

(** The same address record is already there from a local source. *)
Definition same_local (fl : Z) (r : crec) (a : option all_addr) : bool :=
  match a with
  | Some (A_addr b) =>
      flag fl (Z.lor F_IPV4 F_IPV6) && flag fl F_FORWARD &&
      ((flag fl F_IPV4 && has r F_IPV4 && addr_is (addr r) b 4) ||
       (flag fl F_IPV6 && has r F_IPV6 && addr_is (addr r) b 16))
  | _ => false
  end.

(** The new record, or a local one that already says the same. [alloc] is the
    result of whine_malloc. *)
Definition really_insert (alloc : bool) (name : option cstring) (a : option all_addr)
    (class now ttl fl : Z) (c : cache) : res (cache * option Z) :=
  if insert_error c then Ok (c, None)
  else if ttl =? 0 then Ok (set_insert_error true c, None)
  else if flag fl F_FORWARD && bool_decide (name = None) then Oob
  else
    '(c, stop, target) ← cache_scan_free (default [] name) (a ≫= addr_bytes) class now fl c;
    match stop with
    | Some new =>
        if same_local fl (get c new) a then Ok (c, Some new) else Ok (set_insert_error true c, None)
    | None =>
        '(c, new) ← match target with
                    | Some (t, _) => Ok (c, Some t)
                    | None => get_free 3 class now (flag fl F_REVERSE) false c
                    end;
        match new with
        | None => Ok (c, None)
        | Some new =>
            match get_bigname alloc name fl c with
            | None => Ok (set_insert_error true c, None)
            | Some (c, big) =>
                let c := match target with Some (t, u) => upd (with_uid u) t c | None => c end in
                c ← cache_unlink new c;
                let c := upd (λ r, Crec (if big then Z.lor fl F_BIGNAME else fl) (now + ttl)
                               (if dnssec && flag fl (Z.lor F_DS F_DNSKEY) then class else uid r)
                               (default (addr r) a) (default [] name) (nxt r)) new c in
                Ok (set_new_chain (new :: new_chain c) c, Some new)
            end
        end
    end.

(** [max_cache_ttl] and [min_cache_ttl] are the daemon's settings, 0 when
    unset. *)
Definition cache_ttl (max_cache_ttl min_cache_ttl ttl fl : Z) : Z :=
  if dnssec && flag fl (Z.lor F_DNSKEY F_DS) then
    if ttl <? DNSSEC_MIN_TTL then DNSSEC_MIN_TTL else ttl
  else
    let ttl := if negb (max_cache_ttl =? 0) && (max_cache_ttl <? ttl) then max_cache_ttl else ttl in
    if negb (min_cache_ttl =? 0) && (ttl <? min_cache_ttl) then min_cache_ttl else ttl.

Definition cache_insert (max_cache_ttl min_cache_ttl : Z) (alloc : bool) (name : option cstring)
    (a : option all_addr) (class now ttl fl : Z) (c : cache) : res (cache * option Z) :=
  really_insert alloc name a class now (cache_ttl max_cache_ttl min_cache_ttl ttl fl) fl c.

(** The commit; a process without a parent to send the records to. *)
Fixpoint commit (l : list Z) (c : cache) : res cache :=
  match l with
  | [] => Ok c
  | id :: l =>
      c ← (if is_outdated_cname_pointer c (get c id) then cache_free id c
           else c ← cache_link id (cache_hash id c); Ok (count_inserted c));
      commit l (set_new_chain l c)
  end.

Definition cache_end_insert (c : cache) : res cache :=
  if insert_error c then Ok c else commit (new_chain c) c.

(** [cache_init] for the records at the addresses [ids]. *)
Definition cache_init (ids : list Z) : res cache :=
  let c := Cache ∅ [] [] [] false 0 (zlen ids / 10) 0 [] 0 0 in
  c ← foldl (λ m id, c ← m; c ← cache_link id c;
                 Ok (set_store (<[id := Crec 0 0 UID_NONE A_none [] None]> (store c)) c)) (Ok c) ids;
  Ok (rehash true (zlen ids) c).

(** A record of local data (/etc/hosts, DHCP, configuration), allocated on its
    own, is put on its hash chain only. *)
Definition add_local (id : Z) (r : crec) (c : cache) : cache :=
  cache_hash id (set_store (<[id := r]> (store c)) c).

(** The target of a CNAME being inserted. *)
Definition set_cname_target (newc : Z) (target : option Z) (c : cache) : cache :=
  match target with
  | None => upd (with_addr (A_cname None UID_NONE)) newc c
  | Some t => let c := next_uid t c in upd (with_addr (A_cname (Some t) (uid (get c t)))) newc c
  end.

(** * Lookup *)

Definition cache_find_non_terminal (name : cstring) (now : Z) (c : cache) : bool :=
  existsb (λ id,
    let r := get c id in
    negb (is_outdated_cname_pointer c r) && negb (is_expired now r) && has r F_FORWARD &&
    negb (has r F_NXDOMAIN) && hostname_isequal name (cname_str r))
    (hash_table c !!! hash_bucket c name).

(** [crecp->next]: the successor on the LRU list, or the link of an answer
    chain. *)
Fixpoint succ (l : list Z) (id : Z) : option Z :=
  match l with
  | [] => None
  | x :: l => if x =? id then head l else succ l id
  end.
Definition next_ptr (c : cache) (id : Z) : option Z :=
  if bool_decide (id ∈ lru c) then succ (lru c) id else nxt (get c id).

(** Chaining the answers found in local records, then the LRU list. *)
Fixpoint set_answers (hosts : list Z) (last : option Z) (c : cache) : cache :=
  match hosts with
  | [] => c
  | h :: hs => upd (with_nxt (match hs with [] => last | h' :: _ => Some h' end)) h (set_answers hs last c)
  end.

(** A hit: local records are added to the answers, the others go to the front
    of the LRU list. *)
Definition hit (id : Z) (hosts : list Z) (c : cache) : res (cache * list Z) :=
  if has (get c id) F_LOCAL then Ok (c, hosts ++ [id])
  else c ← cache_unlink id c; c ← cache_link id c; Ok (c, hosts).

Definition order_flags (r : crec) : Z := Z.land (flags r) (Z.lor F_REVERSE F_IMMORTAL).

Definition name_match (name : cstring) (prot : Z) (r : crec) : bool :=
  has r F_FORWARD && has r prot && hostname_isequal (cname_str r) name.

(** The walk down the chain. Once the first record is found, [ins] is the part
    of the chain before the insertion point and the flags that records moved
    there must have; [after] is the chain from there to the current
    record. *)
Fixpoint find_name (name : cstring) (now prot : Z) (no_rr : bool) (chain : list Z)
    (ins : option (list Z * Z)) (after hosts : list Z) (c : cache) : res (cache * list Z * list Z) :=
  match chain with
  | [] => Ok (c, from_option fst [] ins ++ after, hosts)
  | id :: rest =>
      let r := get c id in
      if negb (is_expired now r) && negb (is_outdated_cname_pointer c r) then
        if name_match name prot r then
          '(c, hosts) ← hit id hosts c;
          match ins with
          | Some (before, fl) =>
              if order_flags r =? fl
              then find_name name now prot no_rr rest (Some (before ++ [id], fl)) after hosts c
              else find_name name now prot no_rr rest ins (after ++ [id]) hosts c
          | None =>
              if no_rr then find_name name now prot no_rr rest None (after ++ [id]) hosts c
              else find_name name now prot no_rr rest (Some (after, order_flags r)) [id] hosts c
          end
        else find_name name now prot no_rr rest ins (after ++ [id]) hosts c
      else
        c ← drop_dead id c;
        find_name name now prot no_rr rest ins after hosts c
  end.

Definition cache_find_by_name (crecp : option Z) (name : cstring) (now prot : Z) (c : cache)
    : res (cache * option Z) :=
  let no_rr := flag prot F_NO_RR in
  let prot := clear_flag prot F_NO_RR in
  '(c, ans) ←
    match crecp with
    | Some id => Ok (c, next_ptr c id)
    | None =>
        let b := hash_bucket c name in
        '(c, chain, hosts) ← find_name name now prot no_rr (hash_table c !!! b) None [] [] c;
        let c := set_table (<[b := chain]> (hash_table c)) c in
        Ok (set_answers hosts (head (lru c)) c, head (hosts ++ lru c))
    end;
  match ans with
  | Some id => if name_match name prot (get c id) then Ok (c, Some id) else Ok (c, None)
  | None => Ok (c, None)
  end.

(** Lookup by address: all chains, as far as their reverse records go. *)
Definition addr_match (a : list Z) (prot : Z) (r : crec) : bool :=
  has r prot && addr_is (addr r) a (if prot =? F_IPV6 then 16%nat else 4%nat).

Fixpoint find_addr (a : list Z) (now prot : Z) (chain : list Z) (hosts : list Z) (c : cache)
    : res (cache * list Z * list Z) :=
  match chain with
  | [] => Ok (c, [], hosts)
  | id :: rest =>
      let r := get c id in
      if negb (has r F_REVERSE) then Ok (c, chain, hosts)
      else if negb (is_expired now r) then
        '(c, hosts) ← (if addr_match a prot r then hit id hosts c else Ok (c, hosts));
        '(c, kept, hosts) ← find_addr a now prot rest hosts c;
        Ok (c, id :: kept, hosts)
      else
        c ← drop_dead id c;
        find_addr a now prot rest hosts c
  end.

Fixpoint find_addr_table (a : list Z) (now prot : Z) (table : list (list Z)) (hosts : list Z) (c : cache)
    : res (cache * list (list Z) * list Z) :=
  match table with
  | [] => Ok (c, [], hosts)
  | chain :: table =>
      '(c, chain, hosts) ← find_addr a now prot chain hosts c;
      '(c, table, hosts) ← find_addr_table a now prot table hosts c;
      Ok (c, chain :: table, hosts)
  end.

Definition cache_find_by_addr (crecp : option Z) (a : list Z) (now prot : Z) (c : cache)
    : res (cache * option Z) :=
  '(c, ans) ←
    match crecp with
    | Some id => Ok (c, next_ptr c id)
    | None =>
        '(c, table, hosts) ← find_addr_table a now prot (hash_table c) [] c;
        let c := set_table table c in
        Ok (set_answers hosts (head (lru c)) c, head (hosts ++ lru c))
    end;
  match ans with
  | Some id => if has (get c id) F_REVERSE && addr_match a prot (get c id) then Ok (c, Some id) else Ok (c, None)
  | None => Ok (c, None)
  end.
End build.
