(* ===== verification/CacheInv.v ===== *)
(** The invariant of the cache ([Cache]) and its preservation: every record of
    the pool is on the LRU list or being inserted, the records in use are
    exactly those on the hash chains, each in the bucket of its name, and a
    chain has its reverse records first and its immortal forward ones last. *)
From stdpp Require Import sorting.
From S2P Require Import Prelude Hostname Cache.

Create HintDb cache.

Definition used (r : crec) : bool := has r (Z.lor F_FORWARD F_REVERSE).
Definition local (r : crec) : bool := has r F_LOCAL.
(** The order of a chain. *)
Definition rank (r : crec) : Z := if has r F_REVERSE then 0 else if has r F_IMMORTAL then 2 else 1.
Definition rank_le (c : cache) (x y : Z) : Prop := rank (get c x) ≤ rank (get c y).

(** * Flags *)

Lemma flag_lor x a b : flag x (Z.lor a b) = flag x a || flag x b.
Proof.
  unfold flag. rewrite Z.land_lor_distr_r.
  destruct (Z.eqb_spec (Z.lor (Z.land x a) (Z.land x b)) 0) as [E|E].
  - apply Z.lor_eq_0_iff in E as [-> ->]. done.
  - destruct (Z.eqb_spec (Z.land x a) 0) as [Ea|Ea], (Z.eqb_spec (Z.land x b) 0) as [Eb|Eb]; try done.
    rewrite Ea, Eb in E. done.
Qed.

Lemma flag_comm x y : flag x y = flag y x.
Proof. unfold flag. by rewrite Z.land_comm. Qed.

Lemma flag_lor_l x y m : flag (Z.lor x y) m = flag x m || flag y m.
Proof. rewrite !(flag_comm _ m). apply flag_lor. Qed.

Lemma used_or r : used r = has r F_FORWARD || has r F_REVERSE.
Proof. apply flag_lor. Qed.

Lemma flag_ldiff x m a : Z.land m a = 0 → flag (Z.ldiff x m) a = flag x a.
Proof.
  intros E. unfold flag. rewrite Z.ldiff_land, <- Z.land_assoc.
  replace (Z.land (Z.lnot m) a) with a; [done|].
  apply Z.bits_inj'. intros n Hn. rewrite Z.land_spec, Z.lnot_spec by done.
  assert (Z.testbit (Z.land m a) n = false) as Hb by by rewrite E, Z.bits_0.
  rewrite Z.land_spec in Hb. by destruct (Z.testbit m n), (Z.testbit a n).
Qed.

Lemma flag_ldiff_false x m a : flag x a = false → flag (Z.ldiff x m) a = false.
Proof.
  unfold flag. intros ?%negb_false_iff%Z.eqb_eq. apply negb_false_iff, Z.eqb_eq.
  rewrite Z.ldiff_land, <- Z.land_assoc, (Z.land_comm _ a), Z.land_assoc. by rewrite H.
Qed.

Lemma flag_ldiff_same x m : flag (Z.ldiff x m) m = false.
Proof.
  unfold flag. apply negb_false_iff, Z.eqb_eq. rewrite Z.ldiff_land, <- Z.land_assoc.
  rewrite (Z.land_comm _ m), Z.land_lnot_diag. apply Z.land_0_r.
Qed.

Lemma config_local r : has r F_CONFIG = true → local r = true.
Proof.
  unfold local, has. change F_LOCAL with (Z.lor (Z.lor F_HOSTS F_DHCP) F_CONFIG). intros H.
  by rewrite flag_lor, H, orb_true_r.
Qed.

Lemma flag_land_r fl x m : flag (Z.land fl x) m = true → flag x m = true.
Proof.
  unfold flag. rewrite <- Z.land_assoc. intros H%negb_true_iff%Z.eqb_neq. apply negb_true_iff, Z.eqb_neq.
  intros E. by rewrite E, Z.land_0_r in H.
Qed.

Lemma get_upd c f id x :
  is_Some (store c !! id) → get (upd f id c) x = if decide (x = id) then f (get c x) else get c x.
Proof.
  intros [r Hr]. unfold get, upd. simpl. rewrite !lookup_total_alt. case_decide as E.
  - subst x. by rewrite lookup_alter_eq, Hr.
  - by rewrite lookup_alter_ne.
Qed.

Lemma is_Some_upd c f id x : is_Some (store (upd f id c) !! x) ↔ is_Some (store c !! x).
Proof. simpl. apply lookup_alter_is_Some. Qed.

(** * Tables *)

(** Replacing a chain of the table, up to the order of the records. *)
Lemma concat_insert {A} (t : list (list A)) b chain chain' :
  t !! b = Some chain → ∃ rest, concat t ≡ₚ chain ++ rest ∧ concat (<[b:=chain']> t) ≡ₚ chain' ++ rest.
Proof.
  intros Hb. apply take_drop_middle in Hb as E. apply lookup_lt_Some in Hb as Hlt.
  exists (concat (take b t) ++ concat (drop (S b) t)). split.
  - rewrite <- E at 1. rewrite concat_app. simpl. solve_Permutation.
  - rewrite insert_take_drop by done. rewrite concat_app. simpl. solve_Permutation.
Qed.

Lemma elem_of_table {A} (t : list (list A)) b chain x : t !! b = Some chain → x ∈ chain → x ∈ concat t.
Proof.
  intros Hb Hx. rewrite list_elem_of_In, in_concat. exists chain.
  rewrite <- !list_elem_of_In. split; [by eapply list_elem_of_lookup_2|done].
Qed.

Section inv.
Context (mix_tab : Z → Z).

Definition chain_ok (c : cache) (b : nat) (chain : list Z) : Prop :=
  Forall (λ id, hash_bucket mix_tab c (cname_str (get c id)) = b) chain ∧
  StronglySorted (rank_le c) chain.

(** The invariant, for a table that an operation is still working on; between
    operations it is the table of the cache. *)
Record inv (c : cache) (t : list (list Z)) : Prop := {
  inv_len : length t = length (hash_table c);
  inv_size : ∃ k : nat, zlen (hash_table c) = 2 ^ Z.of_nat k;
  inv_lru : NoDup (lru c);
  inv_table : NoDup (concat t);
  inv_new : NoDup (new_chain c);
  inv_lru_new id : id ∈ lru c → id ∉ new_chain c;
  inv_table_new id : id ∈ concat t → id ∉ new_chain c;
  inv_alloc id : id ∈ lru c ++ concat t ++ new_chain c → is_Some (store c !! id);
  inv_used id : id ∈ concat t → used (get c id) = true;
  inv_lru_used id : id ∈ lru c → used (get c id) = true → id ∈ concat t;
  inv_local id : id ∈ concat t → id ∈ lru c ↔ local (get c id) = false;
  inv_config id : id ∈ concat t → local (get c id) = true → has (get c id) (Z.lor F_DNSKEY F_DS) = true →
    has (get c id) F_CONFIG = true;
  inv_new_flags id : id ∈ new_chain c → used (get c id) = true ∧ local (get c id) = false;
  inv_chain b chain : t !! b = Some chain → chain_ok c b chain
}.
Definition cache_ok (c : cache) : Prop := inv c (hash_table c).

Lemma chain_ok_ext c c' b chain :
  length (hash_table c') = length (hash_table c) →
  (∀ x, x ∈ chain → get c' x = get c x) → chain_ok c b chain → chain_ok c' b chain.
Proof.
  intros Hl Hx [Hf Hs]. split.
  - rewrite Forall_forall in *. intros x Hin. rewrite Hx by done. rewrite <- (Hf x Hin).
    unfold hash_bucket, zlen. by rewrite Hl.
  - clear Hf. induction Hs as [|x l Hs IH Hall]; [constructor|]. constructor.
    + apply IH. set_solver.
    + rewrite Forall_forall in *. intros y Hy. unfold rank_le. rewrite !Hx by set_solver. by apply Hall.
Qed.

Lemma chain_ok_app c b l1 l2 :
  chain_ok c b (l1 ++ l2) ↔
  chain_ok c b l1 ∧ chain_ok c b l2 ∧ ∀ x y, x ∈ l1 → y ∈ l2 → rank_le c x y.
Proof. unfold chain_ok. rewrite Forall_app, StronglySorted_app. tauto. Qed.

Lemma chain_ok_drop c b pre id rest : chain_ok c b (pre ++ id :: rest) → chain_ok c b (pre ++ rest).
Proof.
  change (id :: rest) with ([id] ++ rest). rewrite !chain_ok_app. set_solver.
Qed.

(** * Freeing records *)

(** [c'] is [c] with the record [id] freed: it is at the end of the LRU list and
    no longer in use. *)
Record freed (id : Z) (c c' : cache) : Prop := {
  fr_other x : x ≠ id → get c' x = get c x;
  fr_alloc x : is_Some (store c' !! x) ↔ is_Some (store c !! x);
  fr_name : cname_str (get c' id) = cname_str (get c id);
  fr_unused : used (get c' id) = false;
  fr_uid : uid (get c' id) = UID_NONE;
  fr_lru : lru c' = filter (λ x, x ≠ id) (lru c) ++ [id];
  fr_table : hash_table c' = hash_table c;
  fr_new : new_chain c' = new_chain c;
  fr_error : insert_error c' = insert_error c
}.

Context (dnssec : bool).

Lemma blockdata_free_frame id c :
  let c' := cache_blockdata_free dnssec id c in
  store c' = store c ∧ lru c' = lru c ∧ hash_table c' = hash_table c ∧ new_chain c' = new_chain c ∧
  insert_error c' = insert_error c.
Proof. unfold cache_blockdata_free. repeat case_match; done. Qed.

Lemma cache_free_spec id c :
  is_Some (store c !! id) → id ∉ lru c → twp (cache_free dnssec id c) (freed id c).
Proof.
  intros Hid Hlru. unfold cache_free.
  set (c1 := upd _ id c). assert (lru c1 = lru c) as -> by done.
  rewrite bool_decide_false by done.
  set (c2 := set_lru (lru c ++ [id]) c1).
  set (c3 := if has (get c2 id) F_BIGNAME then _ else c2).
  destruct (blockdata_free_frame id c3) as (Hs & Hl & Ht & Hn & He).
  assert (∀ x, get (cache_blockdata_free dnssec id c3) x = get c3 x) as Hget
    by (intros x; unfold get; by rewrite Hs).
  assert (∀ x, get c2 x = if decide (x = id)
    then with_uid UID_NONE (with_flags (clear_flag (clear_flag (flags (get c x)) F_FORWARD) F_REVERSE) (get c x))
    else get c x) as H2 by (intros x; apply (get_upd c); done).
  assert (is_Some (store c2 !! id)) as Hid2 by (by apply is_Some_upd).
  assert (used (get c2 id) = false) as Hu.
  { rewrite H2, decide_True by done. unfold used, has. rewrite flag_lor. cbn [flags with_uid with_flags].
    unfold clear_flag. rewrite flag_ldiff_same, orb_false_r. apply flag_ldiff_false, flag_ldiff_same. }
  assert (∀ x, get c3 x = if decide (x = id) then with_flags (flags (get c3 id)) (get c2 id) else get c2 x) as H3.
  { intros x. subst c3. case_match.
    - rewrite !get_upd by exact Hid2. rewrite (decide_True (P := id = id)) by done.
      case_decide; [by subst x|done].
    - case_decide; [subst x; by destruct (get c2 id)|done]. }
  assert (used (get c3 id) = false) as Hu3.
  { subst c3. case_match; [|done].
    rewrite get_upd, decide_True by (exact Hid2 || done).
    by apply flag_ldiff_false. }
  split.
  - intros x Hx. by rewrite Hget, H3, decide_False, H2, decide_False.
  - intros x. rewrite Hs. subst c3. case_match; rewrite ?is_Some_upd; apply is_Some_upd.
  - rewrite Hget, H3, decide_True by done. simpl. by rewrite H2, decide_True.
  - by rewrite Hget.
  - rewrite Hget, H3, decide_True by done. simpl. by rewrite H2, decide_True.
  - rewrite Hl. subst c3. rewrite filter_id by (apply Forall_forall; intros x Hx ->; done). by case_match.
  - rewrite Ht. subst c3. by case_match.
  - rewrite Hn. subst c3. by case_match.
  - rewrite He. subst c3. by case_match.
Qed.

Lemma unlink_free_spec id c :
  is_Some (store c !! id) → id ∈ lru c → twp (unlink_free dnssec id c) (freed id c).
Proof.
  intros Hid Hl. unfold unlink_free, cache_unlink. rewrite bool_decide_true by done. cbn [mbind res_bind].
  eapply twp_mono; [apply cache_free_spec; [done|]|].
  - simpl. rewrite list_elem_of_filter. tauto.
  - intros c' [H1 H2 H3 H4 H5 H6 H7 H8 H9]. split; try done. rewrite H6. simpl.
    f_equal. apply filter_id, Forall_forall. intros x [? _]%list_elem_of_filter. done.
Qed.

Lemma freed_lru id c c' x : freed id c c' → id ∈ lru c → x ∈ lru c' ↔ x ∈ lru c.
Proof.
  intros Hf Hid. rewrite (fr_lru _ _ _ Hf), elem_of_app, list_elem_of_filter, list_elem_of_singleton.
  destruct (decide (x = id)); naive_solver.
Qed.

Lemma freed_lru_perm id c c' : freed id c c' → id ∈ lru c → NoDup (lru c) → lru c' ≡ₚ lru c.
Proof.
  intros Hf Hid Hn. apply NoDup_Permutation; [|done|intros x; by apply (freed_lru _ _ _ _ Hf Hid)].
  rewrite (fr_lru _ _ _ Hf). apply NoDup_app. split_and!; [by apply NoDup_filter| |apply NoDup_singleton].
  intros x [? _]%list_elem_of_filter. by rewrite list_elem_of_singleton.
Qed.

Lemma get_alloc c x : is_Some (store c !! x) → store c !! x = Some (get c x).
Proof. intros [r Hr]. unfold get. by rewrite lookup_total_alt, Hr. Qed.

(** Taking a pool record off its chain and freeing it. *)
Lemma inv_free c c' t b pre id rest :
  inv c t → t !! b = Some (pre ++ id :: rest) → id ∈ lru c → freed id c c' →
  inv c' (<[b := pre ++ rest]> t).
Proof.
  intros Hi Hb Hid Hf. destruct (concat_insert t b _ (pre ++ rest) Hb) as (others & P1 & P2).
  assert (concat t ≡ₚ id :: concat (<[b:=pre ++ rest]> t)) as HP.
  { rewrite P1, P2. solve_Permutation. }
  pose proof (inv_table _ _ Hi) as Hnd. rewrite HP in Hnd. apply NoDup_cons in Hnd as [Hnot Hnd].
  assert (∀ x, x ∈ concat (<[b:=pre ++ rest]> t) → x ≠ id ∧ x ∈ concat t) as Hin.
  { intros x Hx. split; [by intros ->|]. rewrite HP. by right. }
  assert (id ∉ new_chain c) as Hidn by by apply (inv_lru_new _ _ Hi).
  split.
  - rewrite length_insert, (fr_table _ _ _ Hf). apply (inv_len _ _ Hi).
  - rewrite (fr_table _ _ _ Hf). apply (inv_size _ _ Hi).
  - rewrite (freed_lru_perm _ _ _ Hf) by (done || apply (inv_lru _ _ Hi)). apply (inv_lru _ _ Hi).
  - done.
  - rewrite (fr_new _ _ _ Hf). apply (inv_new _ _ Hi).
  - intros x Hx. rewrite (fr_new _ _ _ Hf). apply (inv_lru_new _ _ Hi). by apply (freed_lru _ _ _ _ Hf Hid).
  - intros x [_ Hx]%Hin. rewrite (fr_new _ _ _ Hf). by apply (inv_table_new _ _ Hi).
  - intros x Hx. apply (fr_alloc _ _ _ Hf), (inv_alloc _ _ Hi). revert Hx.
    rewrite !elem_of_app, (freed_lru _ _ _ _ Hf), (fr_new _ _ _ Hf) by done.
    intros [?|[[_ ?]%Hin|?]]; tauto.
  - intros x [Hne Hx]%Hin. rewrite (fr_other _ _ _ Hf) by done. by apply (inv_used _ _ Hi).
  - intros x Hx Hu. assert (x ≠ id) as Hne by (intros ->; by rewrite (fr_unused _ _ _ Hf) in Hu).
    rewrite (fr_other _ _ _ Hf) in Hu by done.
    assert (x ∈ concat t) as Hx' by (apply (inv_lru_used _ _ Hi); [by apply (freed_lru _ _ _ _ Hf Hid)|done]).
    rewrite HP in Hx'. apply elem_of_cons in Hx' as [?|?]; done.
  - intros x [Hne Hx]%Hin. rewrite (freed_lru _ _ _ _ Hf), (fr_other _ _ _ Hf) by done. by apply (inv_local _ _ Hi).
  - intros x [Hne Hx]%Hin. rewrite (fr_other _ _ _ Hf) by done. by apply (inv_config _ _ Hi).
  - intros x. rewrite (fr_new _ _ _ Hf). intros Hx.
    rewrite (fr_other _ _ _ Hf) by (intros ->; done). by apply (inv_new_flags _ _ Hi).
  - intros b' chain Hc. assert (∀ x, x ∈ chain → get c' x = get c x) as Hget.
    { intros x Hx. apply (fr_other _ _ _ Hf). by apply (Hin x (elem_of_table _ _ _ _ Hc Hx)). }
    apply (chain_ok_ext c); [by rewrite (fr_table _ _ _ Hf)|done|].
    destruct (decide (b' = b)) as [->|Hne].
    + rewrite list_lookup_insert_eq in Hc by by eapply lookup_lt_Some. simplify_eq.
      apply (chain_ok_drop _ _ _ id). by apply (inv_chain _ _ Hi).
    + rewrite list_lookup_insert_ne in Hc by done. by apply (inv_chain _ _ Hi).
Qed.

(** Taking a local record off its chain. *)
Lemma inv_forget c t b pre id rest :
  inv c t → t !! b = Some (pre ++ id :: rest) → local (get c id) = true → inv c (<[b := pre ++ rest]> t).
Proof.
  intros Hi Hb Hl. destruct (concat_insert t b _ (pre ++ rest) Hb) as (others & P1 & P2).
  assert (concat t ≡ₚ id :: concat (<[b:=pre ++ rest]> t)) as HP.
  { rewrite P1, P2. solve_Permutation. }
  pose proof (inv_table _ _ Hi) as Hnd. rewrite HP in Hnd. apply NoDup_cons in Hnd as [Hnot Hnd].
  assert (id ∈ concat t) as Hid by (rewrite HP; left).
  assert (∀ x, x ∈ concat (<[b:=pre ++ rest]> t) → x ∈ concat t) as Hin.
  { intros x Hx. rewrite HP. by right. }
  destruct Hi as [I1 I2 I3 I4 I5 I6 I7 I8 I9 I10 I11 Ic I12 I13]. split; try done; auto.
  - by rewrite length_insert.
  - intros x. rewrite !elem_of_app. intros Hx. apply I8. rewrite !elem_of_app. naive_solver.
  - intros x Hx Hu. specialize (I10 x Hx Hu). rewrite HP in I10.
    apply elem_of_cons in I10 as [->|?]; [|done]. apply I11 in Hx; [congruence|done].
  - intros b' chain Hc. destruct (decide (b' = b)) as [->|Hne].
    + rewrite list_lookup_insert_eq in Hc by by eapply lookup_lt_Some. simplify_eq.
      apply (chain_ok_drop _ _ _ id). by apply I13.
    + rewrite list_lookup_insert_ne in Hc by done. by apply I13.
Qed.

(** * Scanning chains *)

(** [c'] is [c] with some records of the pool freed. *)
Record scanned (c c' : cache) : Prop := {
  sw_table : hash_table c' = hash_table c;
  sw_new : new_chain c' = new_chain c;
  sw_error : insert_error c' = insert_error c;
  sw_lru : lru c' ≡ₚ lru c;
  sw_alloc x : is_Some (store c' !! x) ↔ is_Some (store c !! x);
  sw_name x : cname_str (get c' x) = cname_str (get c x);
  sw_get x : get c' x = get c x ∨ (used (get c' x) = false ∧ x ∈ lru c);
  sw_last : lru c' = lru c ∨ ∃ x, last (lru c') = Some x ∧ used (get c' x) = false
}.

Lemma scanned_refl c : scanned c c.
Proof. split; auto. Qed.

Lemma scanned_trans c1 c2 c3 : scanned c1 c2 → scanned c2 c3 → scanned c1 c3.
Proof.
  intros [A1 A2 A3 A4 A5 A6 A7 A8] [B1 B2 B3 B4 B5 B6 B7 B8]. split; try congruence.
  - by rewrite B4.
  - intros x. by rewrite B5.
  - intros x. destruct (B7 x) as [->|[? Hx]]; [done|]. rewrite A4 in Hx. auto.
  - destruct B8 as [Hl|?]; [|by right]. destruct A8 as [?|(x & Hx & Hu)]; [left; congruence|right].
    exists x. rewrite Hl. split; [done|]. destruct (B7 x) as [->|[? _]]; done.
Qed.

Lemma freed_swept id c c' : freed id c c' → id ∈ lru c → NoDup (lru c) → scanned c c'.
Proof.
  intros Hf Hid Hn. split; try apply Hf; try by eapply freed_lru_perm.
  - intros x. destruct (decide (x = id)) as [->|Hne]; [apply Hf|]. by rewrite (fr_other _ _ _ Hf).
  - intros x. destruct (decide (x = id)) as [->|Hne]; [right; split; [apply Hf|done]|].
    left. by apply Hf.
  - right. exists id. split; [|apply Hf]. rewrite (fr_lru _ _ _ Hf). apply last_snoc.
Qed.

(** A record still in use has not changed. *)
Lemma scanned_used c c' x : scanned c c' → used (get c' x) = true → get c' x = get c x.
Proof. intros Hs Hu. destruct (sw_get _ _ Hs x) as [?|[? _]]; congruence. Qed.

Lemma twp_unlink_free c t b pre id rest (Q : cache → Prop) :
  inv c t → t !! b = Some (pre ++ id :: rest) → local (get c id) = false →
  (∀ c', freed id c c' → scanned c c' → inv c' (<[b := pre ++ rest]> t) → id ∈ lru c' → Q c') →
  twp (unlink_free dnssec id c) Q.
Proof.
  intros Hi Hb Hl HQ. assert (id ∈ concat t) as Hid by (eapply elem_of_table; [done|set_solver]).
  assert (id ∈ lru c) as Hlru by by apply (inv_local _ _ Hi).
  eapply twp_mono; [apply unlink_free_spec; [|done]|].
  - apply (inv_alloc _ _ Hi). set_solver.
  - intros c' Hf. apply HQ; [done|..].
    + eapply freed_swept; [done|done|apply (inv_lru _ _ Hi)].
    + by eapply inv_free.
    + by apply (freed_lru _ _ _ _ Hf Hlru).
Qed.

Lemma twp_drop_dead c t b pre id rest (Q : cache → Prop) :
  inv c t → t !! b = Some (pre ++ id :: rest) →
  (∀ c', scanned c c' → inv c' (<[b := pre ++ rest]> t) → c' = c ∨ freed id c c' → Q c') →
  twp (drop_dead dnssec id c) Q.
Proof.
  intros Hi Hb HQ. unfold drop_dead. twp_step.
  - apply HQ; [apply scanned_refl|by eapply inv_forget|by left].
  - eapply twp_unlink_free; eauto.
Qed.

Lemma table_shrink {A} (t : list (list A)) b chain chain' :
  t !! b = Some chain → <[b := chain']> t !! b = Some chain'.
Proof. intros Hb. apply list_lookup_insert_eq. by eapply lookup_lt_Some. Qed.

(** The records of [name] that one with flags [fl] and class [class] replaces. *)
Definition replaces (name : cstring) (class fl : Z) (r : crec) : bool :=
  (has r F_FORWARD && hostname_isequal (cname_str r) name) &&
  (conflicts fl r || (dnssec && flag (Z.land fl (flags r)) (Z.lor F_DNSKEY F_DS) && (uid r =? class))).
(** The records a forward scan may leave. *)
Definition stays (name : cstring) (class fl now : Z) (r : crec) : Prop :=
  replaces name class fl r = false ∧ is_expired now r = false.

Lemma scan_name_spec name class now fl chain target c t b pre :
  inv c t → t !! b = Some (pre ++ chain) →
  (∀ x u, target = Some (x, u) → x ∈ lru c ∧ used (get c x) = false) →
  twp (scan_name dnssec name class now fl chain target c) (λ '(c', kept, stop, target'),
    scanned c c' ∧ inv c' (<[b := pre ++ kept]> t) ∧
    (∀ id, stop = Some id → id ∈ kept ∧ local (get c' id) = true ∧ replaces name class fl (get c' id) = true) ∧
    (∀ x u, target' = Some (x, u) → x ∈ lru c' ∧ used (get c' x) = false) ∧
    (∀ x, x ∈ kept → x ∈ chain) ∧
    (stop = None → Forall (λ id, stays name class fl now (get c' id)) kept)).
Proof.
  revert target c t pre. induction chain as [|id rest IH]; intros target c t pre Hi Hb Ht.
  { simpl. rewrite list_insert_id by done. split_and!; [apply scanned_refl|done|done|done|done|]. constructor. }
  set (Q := λ '(c', kept, stop, target'),
    scanned c c' ∧ inv c' (<[b := pre ++ kept]> t) ∧
    (∀ id, stop = Some id → id ∈ kept ∧ local (get c' id) = true ∧ replaces name class fl (get c' id) = true) ∧
    (∀ x u, target' = Some (x, u) → x ∈ lru c' ∧ used (get c' x) = false) ∧
    (∀ x, x ∈ kept → x ∈ id :: rest) ∧
    (stop = None → Forall (λ id, stays name class fl now (get c' id)) kept)).
  assert (∀ c' tg, scanned c c' → inv c' (<[b := pre ++ rest]> t) →
    (∀ x u, tg = Some (x, u) → x ∈ lru c' ∧ used (get c' x) = false) →
    twp (scan_name dnssec name class now fl rest tg c') Q) as Hdrop.
  { intros c' tg Hsw Hi' Ht'. eapply twp_mono; [eapply IH; [exact Hi'|by eapply table_shrink|done]|].
    intros [[[c'' kept] stop] tg'] (H1 & H2 & H3 & H4 & H5 & H6). rewrite list_insert_insert_eq in H2.
    unfold Q. split_and!; try done; [by eapply scanned_trans|]. intros x Hx. right. by apply H5. }
  assert (∀ c', scanned c c' → ∀ x u, target = Some (x, u) → x ∈ lru c' ∧ used (get c' x) = false) as Htg.
  { intros c' Hsw x u Hx. destruct (Ht x u Hx) as [Hl Hu]. split; [by rewrite (sw_lru _ _ Hsw)|].
    destruct (sw_get _ _ Hsw x) as [->|[? _]]; done. }
  assert (local (get c id) = true → replaces name class fl (get c id) = true →
    Q (c, id :: rest, Some id, target)) as Hstop.
  { intros El Er. unfold Q.
    rewrite list_insert_id by done. split_and!; try done; [apply scanned_refl|]. intros x [= <-]. split; [left|done]. }
  assert (id ∈ concat t) as Hid by (eapply elem_of_table; [done|]; apply elem_of_app; right; left).
  cbn [scan_name]. fold (local (get c id)). twp_step; [twp_step|twp_step; [twp_step|twp_step]].
  - apply Hstop; [done|]. unfold replaces. bool_hyps. by rewrite H, H2, H1.
  - twp_step. eapply twp_unlink_free; [done..|]. intros c' Hf Hsw Hi' Hl'. apply Hdrop; [done..|].
    intros x u. case_match; [by apply Htg|]. intros [= <- <-]. split; [done|apply Hf].
  - apply Hstop; [by apply config_local|]. unfold replaces. bool_hyps.
    rewrite H0, H5, H4, H3, (proj2 (Z.eqb_eq _ _) H2). apply orb_true_r.
  - twp_step. assert (local (get c id) = false) as Hl.
    { destruct (local (get c id)) eqn:El; [|done]. bool_hyps.
      rewrite (inv_config _ _ Hi id Hid El) in *; [done|]. by eapply flag_land_r. }
    eapply twp_unlink_free; [done..|]. intros c' Hf Hsw Hi' Hl'. apply Hdrop; [done..|]. by apply Htg.
  - twp_step. eapply twp_drop_dead; [done..|]. intros c' Hsw Hi' _. apply Hdrop; [done..|]. by apply Htg.
  - twp_step. eapply twp_mono; [eapply (IH target c t (pre ++ [id])); [done|by rewrite <- app_assoc|done]|].
    intros [[[c' kept] stop] tg] (R1 & R2 & R3 & R4 & R5 & R6). rewrite <- app_assoc in R2. unfold Q; simpl.
    split_and!; try done.
    + intros x Hx. split; [right|]; by apply R3.
    + intros x [->|Hx]%elem_of_cons; [left|right; by apply R5].
    + intros Hs. constructor; [|by apply R6].
      assert (get c' id = get c id) as ->.
      { eapply scanned_used; [done|]. apply (inv_used _ _ R2). eapply elem_of_table; [by eapply table_shrink|].
        apply elem_of_app. right. left. }
      split; [|by apply orb_false_iff in H1 as [? _]]. unfold replaces.
      destruct (_ && hostname_isequal _ _); [|done]. simpl in *. by rewrite H, H0.
Qed.

(** The records a scan for an address may leave. *)
Definition stays_addr (a : option (list Z)) (fl now : Z) (r : crec) : Prop :=
  rank r ≤ 1 → is_expired now r = false ∧ rev_hit a fl r = false.

Lemma rank_scanned r : rank r ≤ 1 ↔ has r F_REVERSE || negb (has r F_IMMORTAL) = true.
Proof. unfold rank. destruct (has r F_REVERSE), (has r F_IMMORTAL); simpl; split; (lia || done). Qed.

Lemma rev_hit_local a fl r : rev_hit a fl r = true → local r = false.
Proof. unfold rev_hit. destruct a; [|done]. intros ?. bool_hyps. done. Qed.

Lemma scan_addr_spec a now fl chain c t b pre :
  inv c t → t !! b = Some (pre ++ chain) →
  twp (scan_addr dnssec a now fl chain c) (λ '(c', kept),
    scanned c c' ∧ inv c' (<[b := pre ++ kept]> t) ∧ (∀ x, x ∈ kept → x ∈ chain) ∧
    Forall (λ id, stays_addr a fl now (get c' id)) kept).
Proof.
  revert c t pre. induction chain as [|id rest IH]; intros c t pre Hi Hb.
  { simpl. rewrite list_insert_id by done. split_and!; [apply scanned_refl|done|done|]. constructor. }
  set (Q := λ '(c', kept), scanned c c' ∧ inv c' (<[b := pre ++ kept]> t) ∧
    (∀ x, x ∈ kept → x ∈ id :: rest) ∧ Forall (λ id, stays_addr a fl now (get c' id)) kept).
  assert (∀ c', scanned c c' → inv c' (<[b := pre ++ rest]> t) →
    twp (scan_addr dnssec a now fl rest c') Q) as Hdrop.
  { intros c' Hsw Hi'. eapply twp_mono; [eapply IH; [exact Hi'|by eapply table_shrink]|].
    intros [c'' kept] (R1 & R2 & R3 & R4). rewrite list_insert_insert_eq in R2.
    unfold Q. split_and!; try done; [by eapply scanned_trans|]. intros x Hx. right. by apply R3. }
  cbn [scan_addr]. twp_step; [twp_step; [|twp_step]|].
  - twp_step. eapply twp_drop_dead; eauto.
  - twp_step. eapply twp_unlink_free; [done..|by eapply rev_hit_local|]. auto.
  - twp_step. eapply twp_mono; [eapply (IH c t (pre ++ [id])); [done|by rewrite <- app_assoc]|].
    intros [c' kept] (R1 & R2 & R3 & R4). rewrite <- app_assoc in R2. unfold Q; simpl.
    split_and!; try done.
    + intros x [->|Hx]%elem_of_cons; [left|right; by apply R3].
    + constructor; [|done]. rewrite (scanned_used c c'); [done|done|]. apply (inv_used _ _ R2).
      eapply elem_of_table; [by eapply table_shrink|]. apply elem_of_app. right. left.
  - simpl. unfold Q. rewrite list_insert_id by done. split_and!; [apply scanned_refl|done..|].
    apply (inv_chain _ _ Hi) in Hb as (_ & [_ Hs] & _)%chain_ok_app.
    apply StronglySorted_inv in Hs as [_ Hs].
    assert (¬ rank (get c id) ≤ 1) as Hr by (rewrite rank_scanned; congruence).
    constructor; [done|]. eapply Forall_impl; [exact Hs|]. intros x Hx ?. unfold rank_le in Hx. lia.
Qed.

Lemma scan_table_spec a now fl table c done_ :
  inv c (done_ ++ table) →
  twp (scan_table dnssec a now fl table c) (λ '(c', table'),
    scanned c c' ∧ inv c' (done_ ++ table') ∧ (∀ x, x ∈ concat table' → x ∈ concat table) ∧
    Forall (λ id, stays_addr a fl now (get c' id)) (concat table')).
Proof.
  revert c done_. induction table as [|chain table IH]; intros c done_ Hi.
  { simpl. split_and!; [apply scanned_refl|done|done|constructor]. }
  cbn [scan_table]. twp_step.
  eapply twp_mono; [apply (scan_addr_spec a now fl chain c (done_ ++ chain :: table) (length done_) []);
    [done|by apply list_lookup_middle]|].
  intros [c1 kept] (R1 & R2 & R3 & R4). cbn [app] in R2.
  rewrite insert_app_r_alt, Nat.sub_diag in R2 by lia. cbn [insert list_insert] in R2.
  twp_step. eapply twp_mono; [apply (IH c1 (done_ ++ [kept])); by rewrite <- app_assoc|].
  intros [c2 table'] (S1 & S2 & S3 & S4). rewrite <- app_assoc in S2. simpl.
  split_and!; [by eapply scanned_trans|done|..].
  - intros x. rewrite !elem_of_app. intros [?|?]; [left; by apply R3|right; by apply S3].
  - apply Forall_app. split; [|done]. rewrite Forall_forall in *. intros x Hx.
    rewrite (scanned_used c1 c2); [by apply R4|done|]. apply (inv_used _ _ S2).
    rewrite concat_app. apply elem_of_app. right. simpl. apply elem_of_app. by left.
Qed.

(** * Whole operations *)

(** The invariant depends on the flags and names of the records only, and not on
    the order of the LRU list. *)
Lemma inv_frame c c' t :
  length (hash_table c') = length (hash_table c) → lru c' ≡ₚ lru c → new_chain c' = new_chain c →
  (∀ x, is_Some (store c' !! x) ↔ is_Some (store c !! x)) →
  (∀ x, flags (get c' x) = flags (get c x) ∧ cname_str (get c' x) = cname_str (get c x)) →
  inv c t → inv c' t.
Proof.
  intros Hlen Hlru Hnew Hal Hget [I1 I2 I3 I4 I5 I6 I7 I8 I9 I10 I11 Ic I12 I13].
  assert (∀ x m, has (get c' x) m = has (get c x) m) as Hhas by (intros; unfold has; by rewrite (proj1 (Hget x))).
  assert (∀ x, used (get c' x) = used (get c x)) as Hu by (intros; apply Hhas).
  assert (∀ x, local (get c' x) = local (get c x)) as Hl by (intros; apply Hhas).
  assert (∀ x, rank (get c' x) = rank (get c x)) as Hr by (intros; unfold rank; by rewrite !Hhas).
  split; try done.
  - congruence.
  - unfold zlen in *. by rewrite Hlen.
  - by rewrite Hlru.
  - by rewrite Hnew.
  - intros x. rewrite Hlru, Hnew. apply I6.
  - intros x. rewrite Hnew. apply I7.
  - intros x. rewrite Hal, Hnew, !elem_of_app, Hlru, <- !elem_of_app. apply I8.
  - intros x. rewrite Hu. apply I9.
  - intros x. rewrite Hu, Hlru. apply I10.
  - intros x. rewrite Hl, Hlru. apply I11.
  - intros x. rewrite Hl, !Hhas. apply Ic.
  - intros x. rewrite Hnew, Hu, Hl. apply I12.
  - intros b chain [Hf Hs]%I13. split.
    + eapply Forall_impl; [exact Hf|]. intros x. simpl. rewrite (proj2 (Hget x)).
      unfold hash_bucket, zlen. by rewrite Hlen.
    + clear Hf. induction Hs as [|x l _ IH Hall]; constructor; [done|].
      eapply Forall_impl; [exact Hall|]. intros y. unfold rank_le. by rewrite !Hr.
Qed.

Lemma inv_upd c t f id :
  (∀ r, flags (f r) = flags r ∧ cname_str (f r) = cname_str r) →
  is_Some (store c !! id) → inv c t → inv (upd f id c) t.
Proof.
  intros Hf Hid. apply inv_frame; try done.
  - intros x. apply is_Some_upd.
  - intros x. rewrite get_upd by done. case_decide; [apply Hf|done].
Qed.

Lemma cache_ok_set_table c t : inv c t → cache_ok (set_table t c).
Proof. intros Hi. apply (inv_frame c); try done. simpl. apply (inv_len _ _ Hi). Qed.

Lemma hash_bucket_lt c name :
  (∃ k : nat, zlen (hash_table c) = 2 ^ Z.of_nat k) → (hash_bucket mix_tab c name < length (hash_table c))%nat.
Proof.
  intros [k Hk]. unfold hash_bucket. rewrite Hk.
  rewrite Z.sub_1_r, <- Z.ones_equiv, Z.land_ones by lia.
  pose proof (Z.mod_pos_bound (Z.lxor (hash_name mix_tab name 7989) (Z.shiftr (hash_name mix_tab name 7989) 16))
    (2 ^ Z.of_nat k)). unfold zlen in Hk. pose proof (Z.pow_pos_nonneg 2 (Z.of_nat k)). lia.
Qed.

Lemma bucket_lookup c name :
  (∃ k : nat, zlen (hash_table c) = 2 ^ Z.of_nat k) →
  hash_table c !! hash_bucket mix_tab c name = Some (hash_table c !!! hash_bucket mix_tab c name).
Proof. intros Hk. apply list_lookup_lookup_total_lt. by apply hash_bucket_lt. Qed.

(** [c'] is [c] with some pool records freed and their chains shortened. *)
Record swept (c c' : cache) : Prop := {
  sw_len : length (hash_table c') = length (hash_table c);
  sw_new' : new_chain c' = new_chain c;
  sw_lru' : lru c' ≡ₚ lru c;
  sw_alloc' x : is_Some (store c' !! x) ↔ is_Some (store c !! x);
  sw_name' x : cname_str (get c' x) = cname_str (get c x);
  sw_get' x : get c' x = get c x ∨ (used (get c' x) = false ∧ x ∈ lru c);
  sw_last' : lru c' = lru c ∨ ∃ x, last (lru c') = Some x ∧ used (get c' x) = false;
  sw_sub x : x ∈ concat (hash_table c') → x ∈ concat (hash_table c)
}.

Lemma swept_refl c : swept c c.
Proof. split; auto. Qed.
Lemma swept_trans c1 c2 c3 : swept c1 c2 → swept c2 c3 → swept c1 c3.
Proof.
  intros [A1 A2 A3 A4 A5 A6 A8 A7] [B1 B2 B3 B4 B5 B6 B8 B7]. split; try congruence.
  - by rewrite B3.
  - intros x. by rewrite B4.
  - intros x. destruct (B6 x) as [->|[? Hx]]; [done|]. rewrite A3 in Hx. auto.
  - destruct B8 as [Hl|?]; [|by right]. destruct A8 as [?|(x & Hx & Hu)]; [left; congruence|right].
    exists x. rewrite Hl. split; [done|]. destruct (B6 x) as [->|[? _]]; done.
  - auto.
Qed.
Lemma scanned_swept c c' t :
  scanned c c' → length t = length (hash_table c) → (∀ x, x ∈ concat t → x ∈ concat (hash_table c)) →
  swept c (set_table t c').
Proof. intros [] ? ?. split; done. Qed.
Lemma swept_used c c' x : swept c c' → used (get c' x) = true → get c' x = get c x.
Proof. intros Hs Hu. destruct (sw_get' _ _ Hs x) as [?|[? _]]; congruence. Qed.

Lemma cache_scan_free_spec name a class now fl c :
  cache_ok c →
  twp (cache_scan_free dnssec mix_tab name a class now fl c) (λ '(c', stop, target),
    cache_ok c' ∧ swept c c' ∧ insert_error c' = insert_error c ∧
    (∀ id, stop = Some id → id ∈ concat (hash_table c') ∧ local (get c' id) = true ∧
      replaces name class fl (get c' id) = true) ∧
    (∀ x u, target = Some (x, u) → x ∈ lru c' ∧ used (get c' x) = false) ∧
    (flag fl F_FORWARD = true → stop = None →
      Forall (λ id, stays name class fl now (get c' id)) (hash_table c' !!! hash_bucket mix_tab c name)) ∧
    (flag fl F_FORWARD = false → Forall (λ id, stays_addr a fl now (get c' id)) (concat (hash_table c')))).
Proof.
  intros Hi. unfold cache_scan_free. twp_step; twp_step.
  - pose proof (bucket_lookup c name (inv_size _ _ Hi)) as Hb. set (b := hash_bucket mix_tab c name) in *.
    eapply twp_mono; [apply (scan_name_spec name class now fl _ None c (hash_table c) b []); done|].
    intros [[[c' kept] stop] target] (R1 & R2 & R3 & R4 & R5 & R6). cbn [app] in R2.
    rewrite (sw_table _ _ R1). pose proof (table_shrink _ _ _ kept Hb) as Hb'.
    destruct (concat_insert (hash_table c) b _ kept Hb) as (others & P1 & P2). cbn [twp].
    split_and!.
    + by apply cache_ok_set_table.
    + apply scanned_swept; [done|by rewrite length_insert|]. intros x. rewrite P1, P2, !elem_of_app.
      intros [?|?]; [left; by apply R5|by right].
    + apply R1.
    + intros id Hs. destruct (R3 id Hs) as (? & ? & ?). split_and!; [|done..]. simpl. by eapply elem_of_table.
    + done.
    + intros _ Hs. simpl. rewrite (list_lookup_total_correct _ _ _ Hb'). by apply R6.
    + congruence.
  - eapply twp_mono; [apply (scan_table_spec a now fl (hash_table c) c []); done|].
    intros [c' t] (R1 & R2 & R3 & R4). cbn [app] in R2. cbn [twp]. split_and!; try done.
    + by apply cache_ok_set_table.
    + apply scanned_swept; [done| |done]. rewrite (inv_len _ _ R2). by rewrite (sw_table _ _ R1).
    + apply R1.
    + congruence.
Qed.
End inv.
