(* ===== verification/CacheOps.v ===== *)
(** The operations of the cache keep its invariant: insertion, which always
    finds a record to reuse, commit, and lookup, which returns live records of
    the name asked for and all of them. *)
From stdpp Require Import sorting.
From S2P Require Import Prelude Hostname Cache CacheInv.

Section ops.
Context (mix_tab : Z → Z) (dnssec : bool).

Abbreviation cache_ok := (cache_ok mix_tab).

(** The records of the pool, free, in use or being inserted. *)
Definition pool (c : cache) : list Z := lru c ++ new_chain c.

Lemma swept_pool c c' : swept c c' → pool c' ≡ₚ pool c.
Proof. intros Hs. unfold pool. by rewrite (sw_lru' _ _ Hs), (sw_new' _ _ Hs). Qed.

Lemma has_land_self r m : flag (Z.land (flags r) (flags r)) m = has r m.
Proof. unfold has. by rewrite Z.land_diag. Qed.

(** * Getting a record *)

(** A record can be spilled: a scan with its own flags, name and address hits
    it. Every record the program inserts is one: an address, SRV, NXDOMAIN or
    CNAME record of a name, a DNSKEY or DS record, or a reverse record of an
    address. *)
Definition kind_ok (r : crec) : Prop :=
  if has r F_FORWARD
  then conflicts (flags r) r || (dnssec && has r (Z.lor F_DNSKEY F_DS)) = true
  else has r (Z.lor F_IPV4 F_IPV6) = true ∧ ∃ b, addr r = A_addr b.

(** No local record stands in the way of spilling the record [id]: the program
    does not cache over local data, and removes what it has cached when local
    data is added. *)
Definition unshadowed (c : cache) (id : Z) : Prop :=
  ∀ y, y ∈ concat (hash_table c) → local (get c y) = true →
    replaces dnssec (cname_str (get c id)) (uid (get c id)) (flags (get c id)) (get c y) = false.

Definition spillable (c : cache) : Prop :=
  ∀ id, id ∈ lru c → used (get c id) = true → kind_ok (get c id) ∧ unshadowed c id.

Lemma spillable_swept c c' : spillable c → swept c c' → cache_ok c' → spillable c'.
Proof.
  intros Hsp Hs Hok id Hid Hu. pose proof (swept_used _ _ _ Hs Hu) as E.
  rewrite E in Hu. destruct (Hsp id) as [Hk Hun]; [by rewrite <- (sw_lru' _ _ Hs)|done|].
  rewrite E. split; [done|]. intros y Hy Hl. rewrite E.
  rewrite (swept_used _ _ y Hs) in * by by apply (inv_used _ _ _ Hok).
  apply Hun; [by apply (sw_sub _ _ Hs)|done].
Qed.

(** A scan for a record frees it. *)
Lemma spill_frees c id now :
  cache_ok c → id ∈ lru c → used (get c id) = true → kind_ok (get c id) → unshadowed c id →
  let r := get c id in
  twp (cache_scan_free dnssec mix_tab (cname_str r) (addr_bytes (addr r)) (uid r) now (flags r) c)
    (λ '(c', _, _), cache_ok c' ∧ swept c c' ∧ insert_error c' = insert_error c ∧ used (get c' id) = false).
Proof.
  intros Hok Hid Hu Hk Hun r. subst r. eapply twp_mono; [by apply cache_scan_free_spec|].
  intros [[c' stop] target] (R1 & R2 & R3 & R4 & _ & R6 & R7). split_and!; [done..|].
  destruct (used (get c' id)) eqn:Hu'; [exfalso|done]. pose proof (swept_used _ _ _ R2 Hu') as E.
  assert (id ∈ lru c') as Hid' by by rewrite (sw_lru' _ _ R2).
  assert (id ∈ concat (hash_table c')) as Hin by by apply (inv_lru_used _ _ _ R1).
  unfold kind_ok in Hk. change (flag (flags (get c id)) F_FORWARD) with (has (get c id) F_FORWARD) in *.
  destruct (has (get c id) F_FORWARD) eqn:Ef.
  - destruct stop as [y|].
    + destruct (R4 y eq_refl) as (Hy & Hl & Hr).
      rewrite (swept_used _ _ y R2) in Hl, Hr by by apply (inv_used _ _ _ R1).
      rewrite Hun in Hr; [done|by apply (sw_sub _ _ R2)|done].
    + specialize (R6 eq_refl eq_refl). rewrite Forall_forall in R6.
      assert (id ∈ hash_table c' !!! hash_bucket mix_tab c (cname_str (get c id))) as Hin'.
      { rewrite list_elem_of_In, in_concat in Hin. destruct Hin as (chain & Hc & Hx).
        apply list_elem_of_In in Hc, Hx. apply list_elem_of_lookup in Hc as [b Hb].
        destruct (inv_chain _ _ _ R1 b chain Hb) as [Hf _]. rewrite Forall_forall in Hf.
        specialize (Hf id Hx). rewrite E in Hf.
        assert (hash_bucket mix_tab c' (cname_str (get c id)) = hash_bucket mix_tab c (cname_str (get c id))) as Eb.
        { unfold hash_bucket, zlen. by rewrite (sw_len _ _ R2). }
        rewrite <- Eb, Hf. by rewrite (list_lookup_total_correct _ _ _ Hb). }
      destruct (R6 id Hin') as [Hst _]. rewrite E in Hst. unfold replaces in Hst.
      rewrite Ef, has_land_self, hostname_isequal_refl, Z.eqb_refl in Hst.
      simpl in Hst. rewrite andb_true_r in Hst. congruence.
  - specialize (R7 eq_refl). rewrite Forall_forall in R7. destruct Hk as [Hv [b Hb]].
    assert (has (get c id) F_REVERSE = true) as Er by (rewrite used_or, Ef in Hu; done).
    destruct (R7 id Hin) as [_ Hst]; [rewrite E; unfold rank; rewrite Er; lia|].
    rewrite E in Hst. unfold rev_hit in Hst. rewrite Hb in Hst. simpl in Hst.
    rewrite !has_land_self, Er, Hv, bool_decide_true, !andb_true_r in Hst by done.
    apply negb_false_iff in Hst. fold (local (get c id)) in Hst.
    rewrite (proj1 (inv_local _ _ _ Hok id (sw_sub _ _ R2 _ Hin)) Hid) in Hst. done.
Qed.

Lemma last_lru c c' id :
  swept c c' → last (lru c) = Some id → used (get c' id) = false →
  ∃ x, last (lru c') = Some x ∧ used (get c' x) = false.
Proof. intros Hs Hl Hu. destruct (sw_last' _ _ Hs) as [->|?]; [eauto|done]. Qed.

(** What [get_free] promises; when every record can be spilled it finds one. *)
Definition got (c : cache) : cache * option Z → Prop := λ '(c', new),
  cache_ok c' ∧ swept c c' ∧
  match new with
  | Some id => id ∈ lru c' ∧ used (get c' id) = false ∧ insert_error c' = insert_error c
  | None => insert_error c' = true ∧ (spillable c → lru c = [])
  end.

Lemma cache_ok_error c b : cache_ok c → cache_ok (set_insert_error b c).
Proof. by apply inv_frame. Qed.
Lemma swept_error c c' b : swept c c' → swept c (set_insert_error b c').
Proof. intros []. by split. Qed.
Lemma cache_ok_live_freed c : cache_ok c → cache_ok (count_live_freed c).
Proof. by apply inv_frame. Qed.

(** The third turn, after a live record was spilled. *)
Lemma get_free_last fuel class now freed_all c0 c :
  cache_ok c → swept c0 c → insert_error c = insert_error c0 →
  (spillable c0 → lru c0 ≠ [] → ∃ x, last (lru c) = Some x ∧ used (get c x) = false) →
  twp (get_free dnssec mix_tab (S fuel) class now freed_all true c) (got c0).
Proof.
  intros Hok Hs He Hlast. cbn [get_free].
  destruct (last (lru c)) as [new|] eqn:El.
  - fold (used (get c new)). destruct (used (get c new)) eqn:Eu; simpl.
    + split_and!; [by apply cache_ok_error|by apply swept_error|done|].
      intros Hsp. destruct (decide (lru c0 = [])) as [?|Hne]; [done|].
      destruct (Hlast Hsp Hne) as (x & Hx & Hu). congruence.
    + split_and!; try done. by apply last_Some_elem_of.
  - simpl. split_and!; [by apply cache_ok_error|by apply swept_error|done|].
    intros _. apply last_None in El. pose proof (sw_lru' _ _ Hs) as HP. rewrite El in HP.
    by apply Permutation_nil_l in HP.
Qed.

(** The turn that spills the last record, when a scan for expired ones has been
    done already. *)
Lemma get_free_spill fuel class now c0 c :
  cache_ok c → swept c0 c → insert_error c = insert_error c0 →
  twp (get_free dnssec mix_tab (S (S fuel)) class now true false c) (got c0).
Proof.
  intros Hok Hs He. remember (S fuel) as fuel' eqn:Ef. cbn [get_free]. subst fuel'.
  destruct (last (lru c)) as [new|] eqn:El.
  - fold (used (get c new)). assert (new ∈ lru c) as Hnew by by apply last_Some_elem_of.
    destruct (used (get c new)) eqn:Eu; cbn [negb].
    + twp_step. eapply twp_mono; [eapply (twp_and_impl _ _ _ (spillable c));
        [by apply cache_scan_free_spec|intros Hsp; destruct (Hsp new Hnew Eu); by apply spill_frees]|].
      intros [[c' st] tg] [(R1 & R2 & R3 & _) R4].
      apply get_free_last; [by apply cache_ok_live_freed| |simpl; congruence|].
      * eapply swept_trans in R2 as R5; [|exact Hs]. by destruct R5.
      * intros Hsp _. apply (last_lru c c' new R2 El).
        apply R4. by eapply spillable_swept.
    + simpl. split_and!; try done.
  - simpl. split_and!; [by apply cache_ok_error|by apply swept_error|done|].
    intros _. apply last_None in El. pose proof (sw_lru' _ _ Hs) as HP. rewrite El in HP.
    by apply Permutation_nil_l in HP.
Qed.

Lemma get_free_spec class now freed_all c :
  cache_ok c → twp (get_free dnssec mix_tab 3 class now freed_all false c) (got c).
Proof.
  intros Hok. destruct freed_all; [by apply get_free_spill; [|apply swept_refl|]|].
  remember 2%nat as fuel eqn:Ef. cbn [get_free]. subst fuel.
  destruct (last (lru c)) as [new|] eqn:El.
  - fold (used (get c new)). destruct (used (get c new)) eqn:Eu; cbn [negb].
    + twp_step. eapply twp_mono; [by apply cache_scan_free_spec|].
      intros [[c' st] tg] (R1 & R2 & R3 & _). by apply get_free_spill.
    + simpl. split_and!; try done; [apply swept_refl|by apply last_Some_elem_of].
  - simpl. split_and!; [by apply cache_ok_error|apply swept_error, swept_refl|done|].
    intros _. by apply last_None in El.
Qed.

(** * Insertion *)

(** A free record moves from the LRU list to the insertion chain. *)
Lemma inv_take c id f :
  cache_ok c → id ∈ lru c → used (get c id) = false →
  used (f (get c id)) = true → local (f (get c id)) = false →
  let c' := set_new_chain (id :: new_chain c) (upd f id (set_lru (filter (λ x, x ≠ id) (lru c)) c)) in
  cache_ok c' ∧ pool c' ≡ₚ pool c.
Proof.
  intros Hok Hid Hu Hu' Hl' c'.
  assert (id ∉ concat (hash_table c)) as Hnt by (intros H; apply (inv_used _ _ _ Hok) in H; congruence).
  assert (id ∉ new_chain c) as Hnn by by apply (inv_lru_new _ _ _ Hok).
  assert (is_Some (store c !! id)) as Hal by (apply (inv_alloc _ _ _ Hok); apply elem_of_app; by left).
  assert (∀ x, get c' x = if decide (x = id) then f (get c x) else get c x) as Hget.
  { intros x. by apply (get_upd (set_lru (filter (λ x, x ≠ id) (lru c)) c)). }
  assert (∀ x, x ≠ id → get c' x = get c x) as Hne by (intros x Hx; by rewrite Hget, decide_False).
  assert (∀ x, x ∈ concat (hash_table c) → get c' x = get c x) as Htb by (intros x Hx; apply Hne; by intros ->).
  assert (∀ x, x ∈ lru c' ↔ x ∈ lru c ∧ x ≠ id) as Hlru by (intros x; simpl; rewrite list_elem_of_filter; tauto).
  pose proof (filter_ne_perm (lru c) id (inv_lru _ _ _ Hok) Hid) as HP.
  split; [|unfold pool; simpl; rewrite HP at 2; solve_Permutation].
  destruct Hok as [I1 I2 I3 I4 I5 I6 I7 I8 I9 I10 I11 Ic I12 I13].
  split; try done.
  - simpl. by apply NoDup_filter.
  - simpl. by constructor.
  - intros x [Hx ?]%Hlru. simpl. rewrite elem_of_cons. intros [?|?]; [done|]. by apply (I6 x).
  - intros x Hx. simpl. rewrite elem_of_cons. intros [->|?]; [done|]. by apply (I7 x).
  - intros x Hx. apply is_Some_upd. rewrite !elem_of_app, Hlru in Hx. simpl in Hx. rewrite elem_of_cons in Hx.
    destruct Hx as [[? _]|[?|[->|?]]]; [..|done|]; apply I8; rewrite !elem_of_app; tauto.
  - intros x Hx. rewrite Htb by done. by apply I9.
  - intros x [Hx Hxid]%Hlru Hux. rewrite Hne in Hux by done. by apply I10.
  - intros x Hx. rewrite Htb, Hlru by done. rewrite <- I11 by done. naive_solver.
  - intros x Hx. rewrite Htb by done. by apply Ic.
  - intros x. simpl. rewrite elem_of_cons. intros [->|Hx]; rewrite Hget.
    + by rewrite decide_True.
    + rewrite decide_False; [by apply I12|by intros ->].
  - intros b chain Hb. apply (chain_ok_ext _ c); [done| |by apply I13].
    intros x Hx. apply Htb. by eapply elem_of_table.
Qed.

Lemma get_bigname_frame alloc name fl c c' big :
  get_bigname alloc name fl c = Some (c', big) →
  store c' = store c ∧ lru c' = lru c ∧ hash_table c' = hash_table c ∧ new_chain c' = new_chain c ∧
  insert_error c' = insert_error c.
Proof. unfold get_bigname. intros. repeat case_match; simplify_eq; done. Qed.

(** The contents of the record inserted. *)
Record is_new (name : option cstring) (a : option all_addr) (now ttl fl : Z) (r : crec) : Prop := {
  nw_flags : flags r = fl ∨ flags r = Z.lor fl F_BIGNAME;
  nw_ttd : ttd r = now + ttl;
  nw_name : cname_str r = default [] name;
  nw_addr x : a = Some x → addr r = x
}.

(** What an insertion leaves. *)
Definition insertion (name : option cstring) (a : option all_addr) (now ttl fl : Z) (c : cache)
    : cache * option Z → Prop := λ '(c', r),
  cache_ok c' ∧ pool c' ≡ₚ pool c ∧
  match r with
  | None => insert_error c' = true
  | Some id =>
      insert_error c' = false ∧
      ((id ∈ concat (hash_table c') ∧ local (get c' id) = true ∧ new_chain c' = new_chain c) ∨
       (new_chain c' = id :: new_chain c ∧ id ∈ pool c ∧ is_new name a now ttl fl (get c' id)))
  end.

(** The last part: the record [new] is taken. *)
Lemma take_record alloc name a class now ttl fl target new c c1 :
  flag fl (Z.lor F_FORWARD F_REVERSE) = true → flag fl F_LOCAL = false →
  cache_ok c → insert_error c = false → new ∈ lru c → used (get c new) = false →
  (∀ t u, target = Some (t, u) → t ∈ lru c) →
  pool c ≡ₚ pool c1 → new_chain c = new_chain c1 →
  twp (match get_bigname alloc name fl c with
       | None => Ok (set_insert_error true c, None)
       | Some (c, big) =>
           let c := match target with Some (t, u) => upd (with_uid u) t c | None => c end in
           c ← cache_unlink new c;
           let c := upd (λ r, Crec (if big then Z.lor fl F_BIGNAME else fl) (now + ttl)
                          (if dnssec && flag fl (Z.lor F_DS F_DNSKEY) then class else uid r)
                          (default (addr r) a) (default [] name) (nxt r)) new c in
           Ok (set_new_chain (new :: new_chain c) c, Some new)
       end) (insertion name a now ttl fl c1).
Proof.
  intros Hfl Hloc Hok He Hnew Hu Htg HP Hch.
  destruct (get_bigname alloc name fl c) as [[c2 big]|] eqn:Eb; cbn [twp].
  2: { simpl. split_and!; [by apply cache_ok_error|done|done]. }
  apply get_bigname_frame in Eb as (E1 & E2 & E3 & E4 & E5).
  set (c3 := match target with Some (t, u) => upd (with_uid u) t c2 | None => c2 end).
  assert (cache_ok c3 ∧ lru c3 = lru c ∧ new_chain c3 = new_chain c ∧ insert_error c3 = false ∧
    used (get c3 new) = false ∧ is_Some (store c3 !! new)) as (Hok3 & L3 & N3 & X3 & U3 & S3).
  { assert (cache_ok c2) as Hok2.
    { apply (inv_frame _ c); rewrite ?E1, ?E2, ?E3; try done. intros x. unfold get. by rewrite E1. }
    assert (is_Some (store c2 !! new)) as Hs2.
    { rewrite E1. apply (inv_alloc _ _ _ Hok). apply elem_of_app. by left. }
    subst c3. destruct target as [[t u]|];
      [|split_and!; [done..|congruence| |done]; unfold get in *; by rewrite E1].
    assert (is_Some (store c2 !! t)) as Ht.
    { rewrite E1. apply (inv_alloc _ _ _ Hok). apply elem_of_app. left. by eapply Htg. }
    split_and!; simpl; [by apply inv_upd|congruence..| |by apply is_Some_upd].
    rewrite get_upd by done. unfold get in *. rewrite E1. by case_decide. }
  unfold cache_unlink. rewrite L3, bool_decide_true by done. cbn [mbind res_bind twp].
  set (f := λ r, Crec (if big then Z.lor fl F_BIGNAME else fl) _ _ _ _ _).
  assert (∀ m, Z.land F_BIGNAME m = 0 → ∀ r, has (f r) m = flag fl m) as Hf.
  { intros m Hm r. unfold has; simpl. destruct big; [|done]. rewrite flag_lor_l.
    unfold flag at 2. by rewrite Hm, orb_false_r. }
  destruct (inv_take c3 new f) as [Hok' HP']; [done|by rewrite L3|done|unfold used; by rewrite Hf|unfold local; by rewrite Hf|].
  rewrite L3 in Hok', HP'.
  split_and!; [done| |done|].
  { rewrite <- HP, HP'. unfold pool. by rewrite L3, N3. }
  right. split_and!; [simpl; congruence| |].
  - rewrite <- HP. apply elem_of_app. by left.
  - change (is_new name a now ttl fl (get (upd f new (set_lru (filter (λ x, x ≠ new) (lru c)) c3)) new)).
    rewrite get_upd, decide_True by done. split; simpl; [by destruct big; auto|done|done|]. by intros x ->.
Qed.

(** An insertion that nothing prevents. *)
Record insertable (name : option cstring) (class ttl fl : Z) (c : cache) : Prop := {
  ia_error : insert_error c = false;
  ia_ttl : ttl ≠ 0;
  ia_room : lru c ≠ [];
  ia_spill : spillable c;
  ia_short : strlen (default [] name) < SMALLDNAME;
  ia_clear y : y ∈ concat (hash_table c) → local (get c y) = true →
    replaces dnssec (default [] name) class fl (get c y) = false
}.

Lemma get_bigname_short alloc name fl c :
  strlen (default [] name) < SMALLDNAME → get_bigname alloc name fl c = Some (c, false).
Proof.
  intros Hn. unfold get_bigname. destruct name as [n|]; [|done]. simpl in Hn.
  by replace (SMALLDNAME - 1 <? strlen n) with false by lia.
Qed.

Lemma really_insert_spec alloc name a class now ttl fl c :
  cache_ok c → flag fl (Z.lor F_FORWARD F_REVERSE) = true → flag fl F_LOCAL = false →
  (flag fl F_FORWARD = true → name ≠ None) →
  twp (really_insert dnssec mix_tab alloc name a class now ttl fl c) (λ r,
    insertion name a now ttl fl c r ∧
    (insertable name class ttl fl c → ∃ id, r.2 = Some id ∧ new_chain r.1 = id :: new_chain c)).
Proof.
  intros Hok Hfl Hloc Hname. unfold really_insert. twp_step.
  { simpl. split; [by split_and!|]. intros []. congruence. }
  twp_step.
  { simpl. split; [split_and!; [by apply cache_ok_error|done|done]|]. intros []. bool_hyps. done. }
  twp_step.
  { exfalso. bool_hyps. case_bool_decide; [|done]. by apply Hname. }
  twp_step. eapply twp_mono; [by apply cache_scan_free_spec|].
  intros [[c1 stop] target] (R1 & R2 & R3 & R4 & R5 & _).
  destruct stop as [new|].
  { destruct (R4 new eq_refl) as (Hin & Hl & Hr).
    assert (insertable name class ttl fl c → False) as Hno.
    { intros Hia. rewrite (swept_used _ _ new R2) in Hl, Hr by by apply (inv_used _ _ _ R1).
      rewrite (ia_clear _ _ _ _ _ Hia) in Hr; [done|by apply (sw_sub _ _ R2)|done]. }
    twp_step; cbn [twp]; (split; [|by intros ?%Hno]).
    - split_and!; [done|by apply swept_pool|congruence|]. left. split_and!; [done..|apply R2].
    - split_and!; [by apply cache_ok_error|by apply swept_pool, swept_error|done]. }
  destruct target as [[t u]|]; cbn [mbind res_bind].
  - destruct (R5 t u eq_refl) as [Ht Hu].
    apply twp_conj.
    + apply (take_record alloc name a class now ttl fl (Some (t, u)) t c1 c); try done; [congruence|naive_solver|by apply swept_pool|apply R2].
    + destruct (get_bigname _ _ _ _) as [[c2 big]|] eqn:Eb.
      * unfold cache_unlink. apply get_bigname_frame in Eb as (_ & E2 & _ & E4 & _). simpl.
        rewrite E2, bool_decide_true by done. simpl. rewrite E4, (sw_new' _ _ R2). eauto.
      * simpl. intros Hia. rewrite get_bigname_short in Eb by apply Hia. done.
  - twp_step. eapply twp_mono; [by apply get_free_spec|]. intros [c2 [new|]] (S1 & S2 & S3).
    + destruct S3 as (Hn & Hu & He). apply twp_conj.
      * apply (take_record alloc name a class now ttl fl None new c2 c); try done; [congruence| |].
        -- rewrite (swept_pool _ _ S2). by apply swept_pool.
        -- rewrite (sw_new' _ _ S2). apply R2.
      * destruct (get_bigname _ _ _ _) as [[c3 big]|] eqn:Eb.
        -- unfold cache_unlink. apply get_bigname_frame in Eb as (_ & E2 & _ & E4 & _). simpl.
           rewrite E2, bool_decide_true by done. simpl. rewrite E4, (sw_new' _ _ S2), (sw_new' _ _ R2). eauto.
        -- simpl. intros Hia. rewrite get_bigname_short in Eb by apply Hia. done.
    + destruct S3 as [He Hempty]. simpl. split.
      * split_and!; [done| |done]. rewrite (swept_pool _ _ S2). by apply swept_pool.
      * intros Hia. exfalso. apply (ia_room _ _ _ _ _ Hia).
        pose proof (sw_lru' _ _ R2) as HP. rewrite Hempty in HP; [by apply Permutation_nil_l in HP|].
        eapply spillable_swept; [apply Hia|done..].
Qed.

(** * Hash chains *)

Lemma skip_while_spec p c chain a rest :
  skip_while p c chain = (a, rest) →
  chain = a ++ rest ∧ Forall (λ x, p (get c x) = true) a ∧
  match rest with [] => True | x :: _ => p (get c x) = false end.
Proof.
  revert a. induction chain as [|x chain IH]; intros a; simpl; [by intros [= <- <-]|].
  destruct (p (get c x)) eqn:Ep; [|by intros [= <- <-]].
  destruct (skip_while p c chain) as [a' rest'] eqn:E. intros [= <- <-].
  destruct (IH _ eq_refl) as (-> & Hf & Hr). split_and!; [done|by constructor|done].
Qed.

(** In a sorted chain a lower bound of the first rank bounds them all. *)
Lemma sorted_rank c m rest :
  StronglySorted (rank_le c) rest → match rest with [] => True | x :: _ => m ≤ rank (get c x) end →
  Forall (λ x, m ≤ rank (get c x)) rest.
Proof.
  destruct 1 as [|x rest _ Hall]; intros Hm; [constructor|]. constructor; [done|].
  eapply Forall_impl; [exact Hall|]. unfold rank_le. lia.
Qed.

Lemma rank_0 r : has r F_REVERSE = true → rank r = 0.
Proof. unfold rank. by intros ->. Qed.
Lemma rank_ge1 r : has r F_REVERSE = false → 1 ≤ rank r.
Proof. unfold rank. intros ->. case_match; lia. Qed.
Lemma rank_range r : 0 ≤ rank r ≤ 2.
Proof. unfold rank. repeat case_match; lia. Qed.

(** Inserting between records of lower and of higher rank. *)
Lemma chain_ok_insert c b id pre post :
  chain_ok mix_tab c b (pre ++ post) → hash_bucket mix_tab c (cname_str (get c id)) = b →
  Forall (λ x, rank (get c x) ≤ rank (get c id)) pre → Forall (λ x, rank (get c id) ≤ rank (get c x)) post →
  chain_ok mix_tab c b (pre ++ id :: post).
Proof.
  intros (H1 & H2 & H3)%chain_ok_app Hb Hpre Hpost.
  change (id :: post) with ([id] ++ post). rewrite !chain_ok_app. rewrite Forall_forall in Hpre, Hpost.
  split_and!; [done|split; [by constructor|constructor; constructor]|done| |].
  - intros x y ->%list_elem_of_singleton Hy. by apply Hpost.
  - intros x y Hx. rewrite elem_of_app, list_elem_of_singleton. intros [->|Hy]; [by apply Hpre|by apply H3].
Qed.

Lemma chain_insert_spec c b id chain :
  chain_ok mix_tab c b chain → hash_bucket mix_tab c (cname_str (get c id)) = b →
  chain_ok mix_tab c b (chain_insert c id chain) ∧ chain_insert c id chain ≡ₚ id :: chain.
Proof.
  intros Hok Hb. unfold chain_insert. destruct (has (get c id) F_REVERSE) eqn:Er.
  { split; [|done]. apply (chain_ok_insert c b id [] chain); [done..|constructor|].
    rewrite (rank_0 _ Er). apply Forall_true. intros x. pose proof (rank_range (get c x)). lia. }
  destruct (skip_while _ c chain) as [rev rest] eqn:E1.
  apply skip_while_spec in E1 as (-> & Hrev & Hrest).
  apply chain_ok_app in Hok as Hok'. destruct Hok' as (_ & [_ Hsr] & _).
  pose proof (rank_ge1 _ Er) as Hid.
  assert (Forall (λ x, rank (get c x) ≤ rank (get c id)) rev) as Hrev'.
  { eapply Forall_impl; [exact Hrev|]. intros x Hx. simpl in Hx. rewrite (rank_0 _ Hx). lia. }
  assert (Forall (λ x, 1 ≤ rank (get c x)) rest) as Hge.
  { apply sorted_rank; [done|]. destruct rest; [done|]. by apply rank_ge1. }
  destruct (has (get c id) F_IMMORTAL) eqn:Ei.
  - assert (rank (get c id) = 2) as E2 by (unfold rank; by rewrite Er, Ei).
    destruct (skip_while _ c rest) as [mortal rest'] eqn:E3.
    apply skip_while_spec in E3 as (-> & _ & Hrest').
    split; [|solve_Permutation]. rewrite app_assoc. apply chain_ok_insert; [by rewrite <- app_assoc|done|..].
    + apply Forall_true. intros x. pose proof (rank_range (get c x)). lia.
    + apply Forall_app in Hge as [_ Hge]. apply StronglySorted_app in Hsr as (_ & _ & Hsr).
      rewrite E2. apply sorted_rank; [done|]. destruct rest' as [|y rest']; [done|].
      apply Forall_cons in Hge as [Hy _]. apply negb_false_iff in Hrest'. revert Hy. unfold rank.
      rewrite Hrest'. destruct (has (get c y) F_REVERSE); lia.
  - assert (rank (get c id) = 1) as E2 by (unfold rank; by rewrite Er, Ei).
    split; [|solve_Permutation]. simpl. apply chain_ok_insert; [done..|]. by rewrite E2.
Qed.

(** A table of a power of two of chains, each in order. *)
Definition chains_ok (c : cache) : Prop :=
  (∃ k : nat, zlen (hash_table c) = 2 ^ Z.of_nat k) ∧
  ∀ b chain, hash_table c !! b = Some chain → chain_ok mix_tab c b chain.

Lemma cache_ok_chains c : cache_ok c → chains_ok c.
Proof. intros Hok. split; [apply (inv_size _ _ _ Hok)|apply (inv_chain _ _ _ Hok)]. Qed.

(** Putting a record on the chain of its name. *)
Lemma cache_hash_spec id c :
  chains_ok c →
  let c' := cache_hash mix_tab id c in
  concat (hash_table c') ≡ₚ id :: concat (hash_table c) ∧
  length (hash_table c') = length (hash_table c) ∧ chains_ok c'.
Proof.
  intros [Hk Hok] c'. pose proof (bucket_lookup mix_tab c (cname_str (get c id)) Hk) as Hb.
  unfold cache_hash in c'. unfold cache_get_name in c'.
  set (b := hash_bucket mix_tab c (cname_str (get c id))) in *. set (chain := hash_table c !!! b) in *.
  destruct (chain_insert_spec c b id chain) as [Hc HP]; [by apply Hok|done|].
  assert (hash_table c' = <[b := chain_insert c id chain]> (hash_table c)) as Ht.
  { subst c'. simpl. by rewrite (alter_as_insert _ _ _ _ Hb). }
  assert (length (hash_table c') = length (hash_table c)) as Hlen by (rewrite Ht; by rewrite length_insert).
  destruct (concat_insert (hash_table c) b chain (chain_insert c id chain) Hb) as (o & P1 & P2).
  split_and!; [rewrite Ht, P1, P2, HP; done|done|].
  split; [unfold zlen in *; by rewrite Hlen|].
  intros b' chain' Hb'. apply (chain_ok_ext _ c); [done|done|]. rewrite Ht in Hb'.
  destruct (decide (b' = b)) as [->|Hne].
  - rewrite list_lookup_insert_eq in Hb' by (by eapply lookup_lt_Some). by simplify_eq.
  - rewrite list_lookup_insert_ne in Hb' by done. by apply Hok.
Qed.

(** * Commit and abort *)

(** The first record of the insertion chain is freed. *)
Lemma inv_abort c c' id l :
  cache_ok c → new_chain c = id :: l → freed id c c' →
  cache_ok (set_new_chain l c') ∧ pool (set_new_chain l c') ≡ₚ pool c.
Proof.
  intros Hok En Hf. pose proof (inv_new _ _ _ Hok) as Hnd. rewrite En in Hnd. apply NoDup_cons in Hnd as [Hidl Hnd].
  assert (id ∈ new_chain c) as Hidn by (rewrite En; left).
  assert (id ∉ lru c) as Hidlru by (intros H; by apply (inv_lru_new _ _ _ Hok) in H).
  assert (id ∉ concat (hash_table c)) as Hidt by (intros H; by apply (inv_table_new _ _ _ Hok) in H).
  assert (lru c' = lru c ++ [id]) as El.
  { rewrite (fr_lru _ _ _ Hf), filter_id; [done|]. apply Forall_forall. by intros x Hx ->. }
  assert (∀ x, x ∈ lru c' ↔ x ∈ lru c ∨ x = id) as Hlru by (intros x; rewrite El, elem_of_app, list_elem_of_singleton; done).
  assert (∀ x, x ∈ concat (hash_table c) → get c' x = get c x) as Hget
    by (intros x Hx; apply (fr_other _ _ _ Hf); by intros ->).
  assert (∀ x, x ∈ l → x ∈ new_chain c ∧ x ≠ id) as Hl by (intros x Hx; rewrite En; split; [by right|by intros ->]).
  split; [|unfold pool; simpl; rewrite El, En; solve_Permutation].
  unfold CacheInv.cache_ok. cbn [hash_table set_new_chain]. rewrite (fr_table _ _ _ Hf).
  destruct Hok as [I1 I2 I3 I4 I5 I6 I7 I8 I9 I10 I11 Ic I12 I13].
  split; cbn [hash_table set_new_chain lru new_chain store]; rewrite ?(fr_table _ _ _ Hf); try done.
  - rewrite El. apply NoDup_app. split_and!; [done|intros x Hx ->%list_elem_of_singleton; done|apply NoDup_singleton].
  - intros x [Hx| ->]%Hlru; [|done]. intros [? _]%Hl. by apply (I6 x).
  - intros x Hx [? _]%Hl. by apply (I7 x).
  - intros x Hx. apply (fr_alloc _ _ _ Hf), I8. rewrite !elem_of_app in *. rewrite Hlru in Hx.
    destruct Hx as [[?| ->]|[?|[? _]%Hl]]; tauto.
  - intros x Hx. change (used (get c' x) = true). rewrite Hget by done. by apply I9.
  - intros x Hx Hu. change (used (get c' x) = true) in Hu.
    assert (x ≠ id) as Hne by (intros ->; rewrite (fr_unused _ _ _ Hf) in Hu; done).
    rewrite (fr_other _ _ _ Hf) in Hu by done. apply Hlru in Hx as [?|?]; [by apply I10|done].
  - intros x Hx. change (x ∈ lru c' ↔ local (get c' x) = false). rewrite Hlru, Hget by done. rewrite <- I11 by done. naive_solver.
  - intros x Hx. change (local (get c' x) = true → has (get c' x) (Z.lor F_DNSKEY F_DS) = true → has (get c' x) F_CONFIG = true).
    rewrite Hget by done. by apply Ic.
  - intros x [Hx Hne]%Hl. change (used (get c' x) = true ∧ local (get c' x) = false).
    rewrite (fr_other _ _ _ Hf) by done. by apply I12.
  - intros b chain Hb. apply (chain_ok_ext _ c); [simpl; by rewrite (fr_table _ _ _ Hf)| |by apply I13].
    intros x Hx. apply Hget. by eapply elem_of_table.
Qed.

(** The first record of the insertion chain is hashed and linked. *)
Lemma inv_commit c id l :
  cache_ok c → new_chain c = id :: l →
  let c' := set_new_chain l (set_lru (id :: lru c) (cache_hash mix_tab id c)) in
  cache_ok c' ∧ pool c' ≡ₚ pool c ∧ concat (hash_table c') ≡ₚ id :: concat (hash_table c) ∧ store c' = store c.
Proof.
  intros Hok En c'. pose proof (inv_new _ _ _ Hok) as Hnd. rewrite En in Hnd. apply NoDup_cons in Hnd as [Hidl Hnd].
  assert (id ∈ new_chain c) as Hidn by (rewrite En; left).
  assert (id ∉ lru c) as Hidlru by (intros H; by apply (inv_lru_new _ _ _ Hok) in H).
  assert (id ∉ concat (hash_table c)) as Hidt by (intros H; by apply (inv_table_new _ _ _ Hok) in H).
  destruct (cache_hash_spec id c (cache_ok_chains c Hok)) as (HP & Hlen & _ & Hch).
  assert (∀ x, get c' x = get c x) as Hget by done.
  assert (∀ x, x ∈ concat (hash_table c') ↔ x = id ∨ x ∈ concat (hash_table c)) as Ht
    by (intros x; unfold c'; cbn [hash_table set_new_chain set_lru]; rewrite HP; apply elem_of_cons).
  assert (∀ x, x ∈ l → x ∈ new_chain c ∧ x ≠ id) as Hll by (intros x Hx; rewrite En; split; [by right|by intros ->]).
  destruct (inv_new_flags _ _ _ Hok id Hidn) as [Hidu Hidloc].
  split_and!; [|unfold pool, c'; simpl; rewrite En; solve_Permutation|done|done].
  destruct Hok as [I1 I2 I3 I4 I5 I6 I7 I8 I9 I10 I11 Ic I12 I13].
  split; [done|unfold zlen, c' in *; cbn [hash_table set_new_chain set_lru]; by rewrite Hlen|by constructor| |done|..].
  - unfold c'. cbn [hash_table set_new_chain set_lru]. rewrite HP. by constructor.
  - intros x [->|Hx]%elem_of_cons; [done|]. intros [? _]%Hll. by apply (I6 x).
  - intros x [->|Hx]%Ht; [done|]. intros [? _]%Hll. by apply (I7 x).
  - intros x Hx. change (is_Some (store c !! x)). rewrite !elem_of_app, Ht in Hx. simpl in Hx. rewrite elem_of_cons in Hx.
    apply I8. rewrite !elem_of_app. destruct Hx as [[->|?]|[[->|?]|[? _]%Hll]]; tauto.
  - intros x Hx. rewrite Hget. apply Ht in Hx as [->|?]; auto.
  - intros x Hx. rewrite Hget, Ht. intros Hu. apply elem_of_cons in Hx as [?|?]; [by left|right; by apply I10].
  - intros x Hx. rewrite Hget. simpl. rewrite elem_of_cons. apply Ht in Hx as [->|Hx]; [tauto|].
    rewrite <- I11 by done. naive_solver.
  - intros x Hx. rewrite Hget. apply Ht in Hx as [->|Hx]; [congruence|by apply Ic].
  - intros x [Hx _]%Hll. rewrite Hget. by apply I12.
  - intros b chain Hb. apply (chain_ok_ext _ (cache_hash mix_tab id c)); [done|done|by apply Hch].
Qed.

Lemma free_all_spec l c :
  cache_ok c → new_chain c = l →
  twp (free_all dnssec l c) (λ c', cache_ok c' ∧ pool c' ≡ₚ pool c ∧ new_chain c' = [] ∧
    hash_table c' = hash_table c ∧ ∀ x, x ∈ concat (hash_table c) → get c' x = get c x).
Proof.
  revert c. induction l as [|id l IH]; intros c Hok En; [by simpl|]. cbn [free_all]. twp_step.
  assert (id ∈ new_chain c) as Hidn by (rewrite En; left).
  eapply twp_mono; [apply cache_free_spec|].
  - apply (inv_alloc _ _ _ Hok). rewrite !elem_of_app. auto.
  - intros H. by apply (inv_lru_new _ _ _ Hok) in H.
  - intros c1 Hf. destruct (inv_abort c c1 id l Hok En Hf) as [Hok1 HP1].
    eapply twp_mono; [by apply IH|]. simpl. intros c' (? & HP & ? & Ht & Hg). rewrite (fr_table _ _ _ Hf) in *.
    split_and!; try done; [by rewrite HP|]. intros x Hx. rewrite Hg by done. apply (fr_other _ _ _ Hf).
    intros ->. by apply (inv_table_new _ _ _ Hok) in Hx.
Qed.

Lemma cache_start_insert_spec c :
  cache_ok c →
  twp (cache_start_insert dnssec c) (λ c', cache_ok c' ∧ pool c' ≡ₚ pool c ∧ new_chain c' = [] ∧
    insert_error c' = false ∧ hash_table c' = hash_table c).
Proof.
  intros Hok. unfold cache_start_insert. twp_step. eapply twp_mono; [by apply free_all_spec|].
  intros c' (H1 & H2 & H3 & H4 & _). simpl. split_and!; try done.
  - apply (inv_frame _ c'); simpl; done.
  - unfold pool in *. simpl. by rewrite H3 in H2.
Qed.

Lemma commit_spec l c :
  cache_ok c → new_chain c = l →
  twp (commit dnssec mix_tab l c) (λ c', cache_ok c' ∧ pool c' ≡ₚ pool c ∧ new_chain c' = [] ∧
    (∀ x, x ∈ concat (hash_table c) → x ∈ concat (hash_table c') ∧ get c' x = get c x) ∧
    (∀ x, x ∈ l → has (get c x) F_CNAME = false → x ∈ concat (hash_table c') ∧ get c' x = get c x)).
Proof.
  revert c. induction l as [|id l IH]; intros c Hok En.
  { simpl. split_and!; try done. intros x Hx. by apply elem_of_nil in Hx. }
  assert (id ∈ new_chain c) as Hidn by (rewrite En; left).
  assert (id ∉ lru c) as Hidlru by (intros H; by apply (inv_lru_new _ _ _ Hok) in H).
  assert (NoDup (id :: l)) as Hnd by (rewrite <- En; apply (inv_new _ _ _ Hok)).
  apply NoDup_cons in Hnd as [Hidl _].
  assert (∀ x, x ∈ concat (hash_table c) → x ≠ id) as Hne by (intros x Hx ->; by apply (inv_table_new _ _ _ Hok) in Hx).
  cbn [commit]. twp_step. twp_step.
  - eapply twp_mono; [apply cache_free_spec; [|done]|].
    { apply (inv_alloc _ _ _ Hok). rewrite !elem_of_app. auto. }
    intros c1 Hf. destruct (inv_abort c c1 id l Hok En Hf) as [Hok1 HP1].
    eapply twp_mono; [by apply IH|]. simpl. rewrite (fr_table _ _ _ Hf). intros c' (? & HP & ? & Ht & Hg).
    assert (∀ x, x ≠ id → get (set_new_chain l c1) x = get c x) as Eg by apply (fr_other _ _ _ Hf).
    split_and!; try done; [by rewrite HP|..].
    + intros x Hx. destruct (Ht x Hx) as [? ->]. split; [done|]. by apply Eg, Hne.
    + intros x [->|Hx]%elem_of_cons Hc.
      * unfold is_outdated_cname_pointer in *. by rewrite Hc in *.
      * assert (x ≠ id) by (by intros ->). rewrite <- (Eg x) in Hc |- * by done. by apply Hg.
  - twp_step. unfold cache_link. assert (lru (cache_hash mix_tab id c) = lru c) as -> by done.
    rewrite bool_decide_false by done. cbn [mbind res_bind twp].
    destruct (inv_commit c id l Hok En) as (Hok1 & HP1 & Hp & Hst).
    eapply twp_mono; [apply IH; [by eapply inv_frame; [..|exact Hok1]|done]|].
    intros c' (? & HP & ? & Ht & Hg). split_and!; try done.
    + by rewrite HP.
    + intros x Hx. apply (Ht x). cbn [hash_table count_inserted set_new_chain set_lru] in *.
      change (x ∈ concat (hash_table (cache_hash mix_tab id c))). rewrite Hp. by right.
    + intros x [->|Hx]%elem_of_cons Hc; [|by apply Hg].
      apply (Ht id). change (id ∈ concat (hash_table (cache_hash mix_tab id c))). rewrite Hp. by left.
Qed.
End ops.
