(* ===== verification/CacheFind.v ===== *)
(** Lookup in the cache: [cache_find_by_name] keeps the invariant, answers with
    live records of the name only, and answers nothing only when there are
    none. *)
From stdpp Require Import sorting.
From S2P Require Import Prelude Hostname Cache CacheInv CacheOps.

Section find.
Context (mix_tab : Z → Z) (dnssec : bool).

Abbreviation inv := (inv mix_tab).
Abbreviation cache_ok := (cache_ok mix_tab).

(** [c'] is [c] with records freed or moved to the front of the LRU list. *)
Record walked (c c' : cache) : Prop := {
  wk_table : hash_table c' = hash_table c;
  wk_new : new_chain c' = new_chain c;
  wk_error : insert_error c' = insert_error c;
  wk_lru : lru c' ≡ₚ lru c;
  wk_alloc x : is_Some (store c' !! x) ↔ is_Some (store c !! x);
  wk_get x : get c' x = get c x ∨ (used (get c' x) = false ∧ x ∈ lru c)
}.

Lemma walked_refl c : walked c c.
Proof. split; auto. Qed.
Lemma walked_trans c1 c2 c3 : walked c1 c2 → walked c2 c3 → walked c1 c3.
Proof.
  intros [A1 A2 A3 A4 A5 A6] [B1 B2 B3 B4 B5 B6]. split; try congruence.
  - by rewrite B4.
  - intros x. by rewrite B5.
  - intros x. destruct (B6 x) as [->|[? Hx]]; [done|]. rewrite A4 in Hx. auto.
Qed.
Lemma scanned_walked c c' : scanned c c' → walked c c'.
Proof. intros []. by split. Qed.
Lemma walked_used c c' x : walked c c' → used (get c' x) = true → get c' x = get c x.
Proof. intros Hs Hu. destruct (wk_get _ _ Hs x) as [?|[? _]]; congruence. Qed.

Lemma hit_spec id hosts c t :
  inv c t → id ∈ concat t →
  twp (hit id hosts c) (λ '(c', hosts'), inv c' t ∧ walked c c' ∧ store c' = store c ∧
    if local (get c id) then c' = c ∧ hosts' = hosts ++ [id]
    else lru c' = id :: filter (λ x, x ≠ id) (lru c) ∧ hosts' = hosts).
Proof.
  intros Hi Hid. unfold hit. fold (local (get c id)). destruct (local (get c id)) eqn:El.
  { simpl. split_and!; try done. apply walked_refl. }
  assert (id ∈ lru c) as Hl by by apply (inv_local _ _ _ Hi).
  unfold cache_unlink, cache_link. rewrite bool_decide_true by done. simpl.
  rewrite bool_decide_false by (rewrite list_elem_of_filter; tauto). simpl.
  pose proof (filter_ne_perm (lru c) id (inv_lru _ _ _ Hi) Hl) as HP.
  split_and!; try done.
  - apply (inv_frame _ c); try done.
  - split; try done. auto.
Qed.

Lemma order_flags_rank r r' : order_flags r = order_flags r' → rank r = rank r'.
Proof.
  unfold order_flags, rank, has. intros E.
  assert (∀ m, Z.land m (Z.lor F_REVERSE F_IMMORTAL) = m → flag (flags r) m = flag (flags r') m) as H.
  { intros m Hm. unfold flag. rewrite <- Hm, (Z.land_comm m), !Z.land_assoc, E. done. }
  by rewrite !H.
Qed.

(** Moving a record up to the insertion point. *)
Lemma inv_move c t b before f after id rest :
  inv c t → t !! b = Some (before ++ (f :: after) ++ id :: rest) →
  order_flags (get c id) = order_flags (get c f) →
  inv c (<[b := (before ++ [id]) ++ (f :: after) ++ rest]> t).
Proof.
  intros Hi Hb Ho. pose proof (inv_chain _ _ _ Hi _ _ Hb) as Hc.
  destruct (concat_insert t b _ ((before ++ [id]) ++ (f :: after) ++ rest) Hb) as (o & P1 & P2).
  assert (concat (<[b := (before ++ [id]) ++ (f :: after) ++ rest]> t) ≡ₚ concat t) as HP.
  { rewrite P1, P2. solve_Permutation. }
  assert (∀ x, x ∈ concat (<[b := (before ++ [id]) ++ (f :: after) ++ rest]> t) ↔ x ∈ concat t) as Hel
    by (intros x; by rewrite HP).
  apply order_flags_rank in Ho.
  destruct Hi as [I1 I2 I3 I4 I5 I6 I7 I8 I9 I10 I11 Ic I12 I13].
  split; try done; try (intros x; rewrite Hel; auto).
  - by rewrite length_insert.
  - by rewrite HP.
  - intros x. rewrite !elem_of_app, Hel, <- !elem_of_app. auto.
  - intros b' chain Hb'. destruct (decide (b' = b)) as [->|Hne].
    2: { rewrite list_lookup_insert_ne in Hb' by done. by apply I13. }
    rewrite list_lookup_insert_eq in Hb' by (by eapply lookup_lt_Some). injection Hb' as <-.
    rewrite <- app_assoc. apply (chain_ok_insert mix_tab c b id before ((f :: after) ++ rest)).
    + rewrite app_assoc in Hc |- *. by apply chain_ok_drop in Hc.
    + destruct Hc as [Hf _]. rewrite Forall_forall in Hf. apply Hf. set_solver.
    + apply chain_ok_app in Hc as (_ & _ & Hlt). apply Forall_forall. intros x Hx. rewrite Ho.
      apply Hlt; [done|left].
    + apply chain_ok_app in Hc as (_ & Hc & _). apply chain_ok_app in Hc as (Hfa & Hir & _).
      apply Forall_app. split.
      * destruct Hfa as [_ Hs]. rewrite Ho. by apply sorted_rank.
      * destruct Hir as [_ Hs]. by eapply Forall_inv_tail, (sorted_rank _ _ (id :: rest)).
Qed.

(** The result of walking down [chain], a part of the whole chain [whole] of
    bucket [b]: [M] are the records found, in order; those that are local join
    the answers, the others are at the front of the LRU list, before the
    records [P] found earlier. *)
Record walk_post (name : cstring) (now prot : Z) (whole chain hosts P : list Z) (b : nat) (t : list (list Z))
    (c c' : cache) (chain' hosts' M tl : list Z) : Prop := {
  wp_inv : inv c' (<[b := chain']> t);
  wp_walked : walked c c';
  wp_nodup : NoDup M;
  wp_sound x : x ∈ M → x ∈ chain ∧ x ∈ chain' ∧ name_match name prot (get c' x) = true ∧
    is_expired now (get c' x) = false;
  wp_sub x : x ∈ chain' → x ∈ whole;
  wp_complete x : x ∈ chain' → x ∈ chain → name_match name prot (get c' x) = true → x ∈ M;
  wp_keep x : x ∈ chain → is_expired now (get c x) = false → has (get c x) F_CNAME = false → x ∈ chain';
  wp_done x : x ∈ whole → x ∉ chain → x ∈ chain';
  wp_hosts : hosts' = hosts ++ filter (λ x, local (get c' x) = true) M;
  wp_front : lru c' = reverse (filter (λ x, local (get c' x) = false) M) ++ P ++ tl
}.

Definition walk_ok name now prot whole chain hosts P b t c : cache * list Z * list Z → Prop :=
  λ '(c', chain', hosts'), ∃ M tl, walk_post name now prot whole chain hosts P b t c c' chain' hosts' M tl.

(** A record that is left alone. *)
Lemma walk_skip name now prot whole id rest hosts P b t c r :
  NoDup (id :: rest) → id ∈ whole →
  name_match name prot (get c id) = false → inv c t → t !! b = Some whole →
  walk_ok name now prot whole rest hosts P b t c r → walk_ok name now prot whole (id :: rest) hosts P b t c r.
Proof.
  intros [Hid _]%NoDup_cons Hw Hm Hi Hb. destruct r as [[c' chain'] hosts'].
  intros (M & tl & [I W N S B C K D H F]). exists M, tl.
  assert (id ∈ chain') as Hid' by by apply D.
  assert (get c' id = get c id) as Eg.
  { apply walked_used; [done|]. apply (inv_used _ _ _ I). eapply elem_of_table; [by eapply table_shrink|done]. }
  split; try done.
  - intros x Hx. destruct (S x Hx) as (? & ? & ? & ?). split_and!; try done. by right.
  - intros x Hx [->|Hr]%elem_of_cons Hmx; [by rewrite Eg, Hm in Hmx|by apply C].
  - intros x [->|Hr]%elem_of_cons; [done|by apply K].
  - intros x Hx Hn. apply D; [done|]. contradict Hn. by right.
Qed.

(** A record that is found. *)
Lemma walk_hit name now prot whole whole1 id rest hosts hosts1 P b t c c1 r :
  NoDup (id :: rest) → (∀ x, x ∈ whole1 ↔ x ∈ whole) → id ∈ whole →
  name_match name prot (get c id) = true → is_expired now (get c id) = false →
  walked c c1 → store c1 = store c → t !! b = Some whole →
  (if local (get c id) then c1 = c ∧ hosts1 = hosts ++ [id]
   else lru c1 = id :: filter (λ x, x ≠ id) (lru c) ∧ hosts1 = hosts) →
  (∃ tl, lru c = P ++ tl) → id ∉ P →
  walk_ok name now prot whole1 rest hosts1 (if local (get c id) then P else id :: P) b (<[b := whole1]> t) c1 r →
  walk_ok name now prot whole (id :: rest) hosts P b t c r.
Proof.
  intros [Hid _]%NoDup_cons Hw Hwid Hm He Hwk Hst Hb Hh Hl HidP. destruct r as [[c' chain'] hosts'].
  assert (∀ x, get c1 x = get c x) as Hg by (intros x; unfold get; by rewrite Hst).
  intros (M & tl & [I W N S B C K D H F]). rewrite list_insert_insert_eq in I. exists (id :: M), tl.
  assert (id ∈ chain') as Hid' by (apply D; [by apply Hw|done]).
  assert (get c' id = get c id) as Eg.
  { rewrite <- Hg. apply walked_used; [done|]. apply (inv_used _ _ _ I).
    eapply elem_of_table; [by eapply table_shrink|done]. }
  split.
  - done.
  - by eapply walked_trans.
  - constructor; [|done]. intros Hx. by apply S in Hx as [? _].
  - intros x [->|Hx]%elem_of_cons; [rewrite Eg; split_and!; try done; left|].
    destruct (S x Hx) as (? & ? & ? & ?). split_and!; try done. by right.
  - intros x Hx. by apply Hw, B.
  - intros x Hx [->|Hr]%elem_of_cons Hmx; [left|right; by apply C].
  - intros x [->|Hr]%elem_of_cons; [done|]. rewrite <- Hg. by apply K.
  - intros x Hx Hn. apply D; [by apply Hw|]. contradict Hn. by right.
  - rewrite H, filter_cons, Eg. destruct (local (get c id)); destruct Hh as [_ ->]; simpl; [by rewrite <- app_assoc|done].
  - rewrite F, filter_cons, Eg. destruct (local (get c id)); simpl; [done|].
    by rewrite reverse_cons, <- app_assoc.
Qed.

(** A dead record. *)
Lemma walk_drop name now prot pre id rest hosts P b t c c1 r :
  NoDup (pre ++ id :: rest) → is_expired now (get c id) || is_outdated_cname_pointer c (get c id) = true →
  walked c c1 → t !! b = Some (pre ++ id :: rest) → inv c1 (<[b := pre ++ rest]> t) →
  walk_ok name now prot (pre ++ rest) rest hosts P b (<[b := pre ++ rest]> t) c1 r →
  walk_ok name now prot (pre ++ id :: rest) (id :: rest) hosts P b t c r.
Proof.
  intros Hnd Hdead Hwk Hb Hi1. destruct r as [[c' chain'] hosts'].
  intros (M & tl & [I W N S B C K D H F]). rewrite list_insert_insert_eq in I. exists M, tl.
  apply NoDup_app in Hnd as (_ & Hdis & [Hid _]%NoDup_cons).
  assert (∀ x, x ∈ rest → get c1 x = get c x) as Hg.
  { intros x Hx. apply walked_used; [done|]. apply (inv_used _ _ _ Hi1).
    eapply elem_of_table; [by eapply table_shrink|]. apply elem_of_app. by right. }
  assert (∀ x, x ∈ chain' → x ≠ id) as Hne.
  { intros x [Hx|Hx]%B%elem_of_app ->; [by eapply Hdis; [|left]|done]. }
  split; try done.
  - by eapply walked_trans.
  - intros x Hx. destruct (S x Hx) as (? & ? & ? & ?). split_and!; try done. by right.
  - intros x [Hx|Hx]%B%elem_of_app; apply elem_of_app; [by left|right; by right].
  - intros x Hx [->|Hr]%elem_of_cons Hmx; [by apply Hne in Hx|by apply C].
  - intros x [->|Hr]%elem_of_cons He Hc; [|rewrite <- Hg in He, Hc by done; by apply K].
    unfold is_outdated_cname_pointer in Hdead. by rewrite He, Hc in Hdead.
  - intros x [Hx|[->|Hx]%elem_of_cons]%elem_of_app Hn; [..|exfalso; apply Hn; by right].
    + apply D; [apply elem_of_app; by left|]. contradict Hn. by right.
    + exfalso. apply Hn. left.
Qed.

Lemma filter_ne_app (P tl : list Z) id :
  id ∉ P → filter (λ x, x ≠ id) (P ++ tl) = P ++ filter (λ x, x ≠ id) tl.
Proof. intros Hid. rewrite filter_app. f_equal. apply filter_id, Forall_forall. by intros x Hx ->. Qed.

Lemma find_name_spec name now prot no_rr chain ins after hosts c t b P :
  inv c t → t !! b = Some (from_option fst [] ins ++ after ++ chain) →
  (∀ before fl, ins = Some (before, fl) → ∃ f after', after = f :: after' ∧ order_flags (get c f) = fl) →
  (∃ tl, lru c = P ++ tl) → (∀ x, x ∈ P → x ∉ chain) →
  twp (find_name dnssec name now prot no_rr chain ins after hosts c)
    (walk_ok name now prot (from_option fst [] ins ++ after ++ chain) chain hosts P b t c).
Proof.
  revert ins after hosts c t P. induction chain as [|id rest IH]; intros ins after hosts c t P Hi Hb Hins Hl HP.
  { destruct Hl as [tl Htl]. cbn [find_name twp]. exists [], tl. rewrite app_nil_r in *.
    split; try done; try (intros x Hx; by apply elem_of_nil in Hx).
    - by rewrite list_insert_id.
    - apply walked_refl.
    - constructor.
    - by rewrite filter_nil, app_nil_r. }
  assert (NoDup ((from_option fst [] ins ++ after) ++ id :: rest)) as Hnd.
  { rewrite <- app_assoc. pose proof (inv_table _ _ _ Hi) as H.
    destruct (concat_insert t b _ [] Hb) as (o & P1 & _). rewrite P1 in H. by apply NoDup_app in H as [? _]. }
  apply NoDup_app in Hnd as Hnd'. destruct Hnd' as (_ & _ & Hnd2).
  assert (id ∈ concat t) as Hidt by (eapply elem_of_table; [done|]; rewrite !elem_of_app; right; right; left).
  assert (id ∈ from_option fst [] ins ++ after ++ id :: rest) as Hidw by (rewrite !elem_of_app; right; right; left).
  assert (id ∉ P) as HidP by (intros H; apply (HP _ H); left).
  assert (∀ x, x ∈ P → x ∉ rest) as HP' by (intros x Hx Hr; apply (HP _ Hx); by right).
  assert (name_match name prot (get c id) = false →
    twp (find_name dnssec name now prot no_rr rest ins (after ++ [id]) hosts c)
      (walk_ok name now prot (from_option fst [] ins ++ after ++ id :: rest) (id :: rest) hosts P b t c)) as Hskip.
  { intros Hm. eapply twp_mono; [apply (IH ins (after ++ [id]) hosts c t P); try done|].
    - by rewrite <- app_assoc.
    - intros before fl Hx. destruct (Hins _ _ Hx) as (f & a' & -> & ?). by exists f, (a' ++ [id]).
    - rewrite <- app_assoc. intros r. by apply walk_skip. }
  cbn [find_name]. destruct (negb (is_expired now (get c id)) && _) eqn:Elive.
  2: { twp_step. rewrite app_assoc in Hb. eapply twp_drop_dead; [done..|]. intros c1 Hsc Hi1 Hfr.
    assert (∃ tl, lru c1 = P ++ tl) as Hl1.
    { destruct Hfr as [->|Hfr]; [done|]. destruct Hl as [tl Htl].
      rewrite (fr_lru _ _ _ Hfr), Htl, filter_ne_app, <- app_assoc by done. eauto. }
    eapply twp_mono; [apply (IH ins after hosts c1 (<[b := (from_option fst [] ins ++ after) ++ rest]> t) P); try done|].
    - rewrite <- app_assoc. by eapply table_shrink.
    - intros before fl Hx. destruct (Hins _ _ Hx) as (f & a' & -> & Hf). exists f, a'. split; [done|].
      rewrite <- Hf. f_equal. apply (scanned_used c c1); [done|]. apply (inv_used _ _ _ Hi1).
      eapply elem_of_table; [by eapply table_shrink|]. rewrite !elem_of_app. left. right. left.
    - rewrite !app_assoc. intros r. apply walk_drop; try done.
      + destruct (is_expired _ _), (is_outdated_cname_pointer _ _); done.
      + by apply scanned_walked. }
  destruct (name_match name prot (get c id)) eqn:Em; [|by apply Hskip].
  apply andb_true_iff in Elive as [He%negb_true_iff _].
  twp_step. eapply twp_mono; [by apply (hit_spec id hosts c t)|]. intros [c1 hosts1] (Hi1 & Hwk & Hst & Hh).
  assert (∀ x, get c1 x = get c x) as Hg by (intros x; unfold get; by rewrite Hst).
  set (P1 := if local (get c id) then P else id :: P).
  assert (∃ tl, lru c1 = P1 ++ tl) as Hl1.
  { unfold P1. destruct (local (get c id)); destruct Hh as [Hc1 _]; [by rewrite Hc1|].
    destruct Hl as [tl Htl]. rewrite Hc1, Htl, filter_ne_app by done. by eexists. }
  assert (∀ x, x ∈ P1 → x ∉ rest) as HP1.
  { unfold P1. destruct (local (get c id)); [done|]. intros x [->|Hx]%elem_of_cons; [|by apply HP'].
    by apply NoDup_cons in Hnd2 as [? _]. }
  assert (∀ ins1 after1, (∀ x, x ∈ from_option fst [] ins1 ++ after1 ++ rest ↔ x ∈ from_option fst [] ins ++ after ++ id :: rest) →
    inv c1 (<[b := from_option fst [] ins1 ++ after1 ++ rest]> t) →
    (∀ before fl, ins1 = Some (before, fl) → ∃ f after', after1 = f :: after' ∧ order_flags (get c f) = fl) →
    twp (find_name dnssec name now prot no_rr rest ins1 after1 hosts1 c1)
      (walk_ok name now prot (from_option fst [] ins ++ after ++ id :: rest) (id :: rest) hosts P b t c)) as Hhit.
  { intros ins1 after1 Hel Hi' Hins1. eapply twp_mono; [apply (IH ins1 after1 hosts1 c1 (<[b := from_option fst [] ins1 ++ after1 ++ rest]> t) P1); try done|].
    - by eapply table_shrink.
    - intros before fl Hx. setoid_rewrite Hg. by apply (Hins1 before).
    - intros r. by eapply walk_hit. }
  assert (∀ a, <[b := a ++ id :: rest]> t = <[b := (a ++ [id]) ++ rest]> t) as Hsame by (intros a; by rewrite <- app_assoc).
  destruct ins as [[before fl]|]; cbn [from_option fst app] in *.
  - destruct (Hins before fl eq_refl) as (f & a' & -> & Hf). destruct (Z.eqb_spec (order_flags (get c id)) fl) as [Ho|Ho].
    + apply Hhit; [|apply (inv_move c1); [done..|by rewrite !Hg, Ho]|].
      * intros x. cbn [from_option fst]. rewrite !elem_of_app, !elem_of_cons, elem_of_nil. tauto.
      * intros ? ? [= <- <-]. eauto.
    + apply Hhit; cbn [from_option fst]; rewrite <- ?app_assoc; [done| |].
      * simpl. by rewrite list_insert_id.
      * intros ? ? [= <- <-]. eexists _, _. split; [done|done].
  - destruct no_rr.
    + apply Hhit; cbn [from_option fst app]; rewrite <- ?app_assoc; [done| |done]. simpl. by rewrite list_insert_id.
    + apply Hhit; cbn [from_option fst app]; [done| |].
      * simpl. by rewrite list_insert_id.
      * intros ? ? [= <- <-]. eauto.
Qed.

Lemma set_answers_spec hosts l c t :
  inv c t → (∀ x, x ∈ hosts → is_Some (store c !! x)) →
  let c' := set_answers hosts l c in
  inv c' t ∧ lru c' = lru c ∧ new_chain c' = new_chain c ∧ hash_table c' = hash_table c ∧
  (∀ x, is_Some (store c' !! x) ↔ is_Some (store c !! x)) ∧
  ∀ x, get c' x = with_nxt (nxt (get c' x)) (get c x).
Proof.
  intros Hi. induction hosts as [|h hosts IH]; intros Hal.
  { simpl. split_and!; try done. intros x. by destruct (get c x). }
  destruct IH as (I1 & I2 & I3 & I4 & I5 & I6); [intros x Hx; apply Hal; by right|].
  assert (is_Some (store (set_answers hosts l c) !! h)) as Hh by (apply I5, Hal; left).
  cbn [set_answers]. split_and!; try done.
  - by apply inv_upd.
  - intros x. by rewrite is_Some_upd.
  - intros x. rewrite get_upd by done. case_decide; [|done]. by rewrite I6.
Qed.

Lemma hash_name_ci a b v : ci_eq a b → hash_name mix_tab a v = hash_name mix_tab b v.
Proof.
  unfold ci_eq. revert b v. induction a as [|x a IH]; intros [|y b] v; try done.
  intros [= E1 E2]. simpl. rewrite E1. by apply IH.
Qed.

Lemma hash_bucket_ci c a b : ci_eq a b → hash_bucket mix_tab c a = hash_bucket mix_tab c b.
Proof. intros H. unfold hash_bucket. by rewrite (hash_name_ci a b _ H). Qed.

(** A record that matches a name is in the bucket of the name. *)
Lemma match_in_bucket name prot c t id :
  inv c t → wf_cstring name → wf_cstring (cname_str (get c id)) → id ∈ concat t →
  name_match name prot (get c id) = true → id ∈ t !!! hash_bucket mix_tab c name.
Proof.
  intros Hi Hw Hw' Hid Hm. apply andb_true_iff in Hm as [_ Hm].
  rewrite hostname_isequal_spec in Hm by done. apply bool_decide_eq_true in Hm.
  rewrite <- (hash_bucket_ci c _ _ Hm).
  rewrite list_elem_of_In, in_concat in Hid. destruct Hid as (chain & Hc & Hx).
  apply list_elem_of_In in Hc, Hx. apply list_elem_of_lookup in Hc as [b Hb].
  destruct (inv_chain _ _ _ Hi b chain Hb) as [Hf _]. rewrite Forall_forall in Hf.
  rewrite (Hf id Hx). by rewrite (list_lookup_total_correct _ _ _ Hb).
Qed.

Lemma name_match_used name prot r : name_match name prot r = true → used r = true.
Proof. unfold name_match. rewrite used_or. intros ?. bool_hyps. by rewrite H. Qed.

Lemma head_answers (M tl : list Z) (f : Z → bool) :
  M ≠ [] → ∃ id, head ((filter (λ x, f x = true) M ++ []) ++ reverse (filter (λ x, f x = false) M) ++ tl) = Some id ∧ id ∈ M.
Proof.
  intros Hne. rewrite app_nil_r. destruct (filter (λ x, f x = true) M) as [|y l] eqn:E1.
  - destruct (reverse (filter (λ x, f x = false) M)) as [|y l] eqn:E2.
    + exfalso. destruct M as [|x M]; [done|]. apply (f_equal reverse) in E2. rewrite reverse_involutive in E2.
      rewrite filter_cons in E1, E2. destruct (f x); done.
    + exists y. split; [done|]. assert (y ∈ reverse (filter (λ x, f x = false) M)) as Hy by (rewrite E2; left).
      rewrite elem_of_reverse, list_elem_of_filter in Hy. tauto.
  - exists y. split; [done|]. assert (y ∈ filter (λ x, f x = true) M) as Hy by (rewrite E1; left).
    rewrite list_elem_of_filter in Hy. tauto.
Qed.

(** What a lookup of a name answers: a record of the name, of a kind asked for
    and not expired, as it was, or nothing, and then there is no such record
    (CNAMEs apart, which die with their targets). *)
Definition answers (name : cstring) (now prot : Z) (c : cache) : cache * option Z → Prop := λ '(c', r),
  cache_ok c' ∧ pool c' ≡ₚ pool c ∧
  match r with
  | Some id => id ∈ concat (hash_table c') ∧ name_match name prot (get c' id) = true ∧
      is_expired now (get c' id) = false ∧ ∃ n, get c' id = with_nxt n (get c id)
  | None => ∀ id, id ∈ concat (hash_table c) → name_match name prot (get c id) = true →
      is_expired now (get c id) = false → has (get c id) F_CNAME = false → False
  end.

Lemma cache_find_by_name_spec name now prot c :
  cache_ok c → wf_cstring name → (∀ id, wf_cstring (cname_str (get c id))) →
  twp (cache_find_by_name dnssec mix_tab None name now prot c) (answers name now (clear_flag prot F_NO_RR) c).
Proof.
  intros Hok Hw Hws. unfold cache_find_by_name. set (pr := clear_flag prot F_NO_RR).
  pose proof (bucket_lookup mix_tab c name (inv_size _ _ _ Hok)) as Hb. set (b := hash_bucket mix_tab c name) in *.
  twp_step. twp_step.
  eapply twp_mono; [apply (find_name_spec name now pr _ (hash_table c !!! b) None [] [] c (hash_table c) b []); try done|].
  { by exists (lru c). }
  { intros x Hx. by apply elem_of_nil in Hx. }
  intros [[c1 chain'] hosts'] (M & tl & [I W N S B C K D H F]). cbn [from_option fst app] in *.
  rewrite (wk_table _ _ W). set (t1 := <[b := chain']> (hash_table c)) in *.
  assert (t1 !! b = Some chain') as Hb1 by by eapply table_shrink.
  apply cache_ok_set_table in I as Hok2. set (c2 := set_table t1 c1) in *.
  assert (∀ x, x ∈ chain' → x ∈ concat t1) as Ht1 by (intros x Hx; by eapply elem_of_table).
  destruct (set_answers_spec hosts' (head (lru c2)) c2 t1 Hok2) as (I3 & L3 & N3 & T3 & A3 & G3).
  { intros x Hx. rewrite H in Hx. cbn [app] in Hx. apply list_elem_of_filter in Hx as [_ Hx]. apply S in Hx as (_ & Hx & _).
    apply (inv_alloc _ _ _ Hok2). apply elem_of_app. right. apply elem_of_app. left. by apply Ht1. }
  set (c3 := set_answers hosts' (head (lru c2)) c2) in *.
  assert (cache_ok c3) as Hok3 by (unfold CacheInv.cache_ok; by rewrite T3).
  assert (pool c3 ≡ₚ pool c) as HP by (unfold pool; rewrite L3, N3; simpl; rewrite (wk_lru _ _ W), (wk_new _ _ W); done).
  assert (∀ x, name_match name pr (get c3 x) = name_match name pr (get c1 x) ∧
    is_expired now (get c3 x) = is_expired now (get c1 x)) as Hsame by (intros x; rewrite (G3 x); done).
  assert (∀ x, x ∈ concat t1 → get c1 x = get c x) as Hold.
  { intros x Hx. apply walked_used; [done|]. by apply (inv_used _ _ _ I). }
  cbn [twp]. destruct (decide (M = [])) as [->|HM].
  - assert (∀ x, x ∈ concat t1 → name_match name pr (get c1 x) = true → False) as Hno.
    { intros x Hx Hm. assert (x ∈ chain') as Hc'.
      { pose proof (match_in_bucket name pr c1 t1 x I Hw) as Hin.
        rewrite (Hold x Hx) in Hin. specialize (Hin (Hws x) Hx). rewrite <- (Hold x Hx) in Hin.
        specialize (Hin Hm). unfold hash_bucket in Hin. rewrite (wk_table _ _ W) in Hin. fold (hash_bucket mix_tab c name) b in Hin.
        by rewrite (list_lookup_total_correct _ _ _ Hb1) in Hin. }
      pose proof (C x Hc' (B x Hc') Hm) as Hnil. by apply elem_of_nil in Hnil. }
    assert (∀ id, id ∈ concat (hash_table c) → name_match name pr (get c id) = true →
      is_expired now (get c id) = false → has (get c id) F_CNAME = false → False) as Hnone.
    { intros x Hx Hm He Hc. assert (x ∈ hash_table c !!! b) as Hxb by by eapply match_in_bucket.
      specialize (K x Hxb He Hc). apply (Hno x (Ht1 _ K)). by rewrite Hold by by apply Ht1. }
    destruct (head (hosts' ++ lru c2)) as [id|] eqn:Eh; [|by split_and!].
    destruct (name_match name pr (get c3 id)) eqn:Em; [exfalso|by split_and!].
    rewrite H in Eh. cbn [app] in Eh. rewrite filter_nil in Eh. cbn [app] in Eh.
    rewrite (proj1 (Hsame id)) in Em. apply (Hno id); [|done].
    apply (inv_lru_used _ _ _ I); [|by eapply name_match_used].
    change (lru c1) with (lru c2). destruct (lru c2); [done|]. injection Eh as ->. left.
  - destruct (head_answers M tl (λ x, local (get c1 x)) HM) as (id & Eh & Hid).
    assert (head (hosts' ++ lru c2) = Some id) as ->.
    { change (lru c2) with (lru c1). rewrite F, H. cbn [app]. by rewrite app_nil_r in Eh. }
    destruct (S id Hid) as (_ & Hc' & Hm & He). destruct (Hsame id) as [E1 E2]. rewrite E1, Hm.
    split_and!; [done..|rewrite T3; by apply Ht1|congruence|congruence|].
    exists (nxt (get c3 id)). rewrite (G3 id) at 1. f_equal. apply Hold. by apply Ht1.
Qed.

(** The invariant alone, whatever the names hold. *)
Lemma cache_find_by_name_inv name now prot c :
  cache_ok c →
  twp (cache_find_by_name dnssec mix_tab None name now prot c) (λ '(c', _), cache_ok c' ∧ pool c' ≡ₚ pool c).
Proof.
  intros Hok. unfold cache_find_by_name. set (pr := clear_flag prot F_NO_RR).
  pose proof (bucket_lookup mix_tab c name (inv_size _ _ _ Hok)) as Hb. set (b := hash_bucket mix_tab c name) in *.
  twp_step. twp_step.
  eapply twp_mono; [apply (find_name_spec name now pr _ (hash_table c !!! b) None [] [] c (hash_table c) b []); try done|].
  { by exists (lru c). }
  { intros x Hx. by apply elem_of_nil in Hx. }
  intros [[c1 chain'] hosts'] (M & tl & [I W N S B C K D H F]). cbn [from_option fst app] in *.
  rewrite (wk_table _ _ W). apply cache_ok_set_table in I as Hok2.
  set (c2 := set_table (<[b := chain']> (hash_table c)) c1) in *.
  destruct (set_answers_spec hosts' (head (lru c2)) c2 _ Hok2) as (I3 & L3 & N3 & T3 & _).
  { intros x Hx. rewrite H in Hx. cbn [app] in Hx. apply list_elem_of_filter in Hx as [_ Hx].
    apply S in Hx as (_ & Hx & _). apply (inv_alloc _ _ _ Hok2). rewrite !elem_of_app. right. left.
    eapply elem_of_table; [by eapply table_shrink|done]. }
  set (c3 := set_answers hosts' (head (lru c2)) c2) in *.
  assert (cache_ok c3) as Hok3 by (unfold CacheInv.cache_ok; by rewrite T3).
  assert (pool c3 ≡ₚ pool c) as HP by (unfold pool; rewrite L3, N3; simpl; rewrite (wk_lru _ _ W), (wk_new _ _ W); done).
  cbn [twp]. repeat case_match; done.
Qed.
End find.
