(* ===== verification/CacheReach.v ===== *)
(** The cache as a state machine: from [cache_init], every sequence of
    operations keeps the invariant and the pool of records. *)
From stdpp Require Import sorting.
From S2P Require Import Prelude Hostname Cache CacheInv CacheOps CacheFind.

Section reach.
Context (mix_tab : Z → Z) (dnssec : bool).

Abbreviation inv := (inv mix_tab).
Abbreviation cache_ok := (cache_ok mix_tab).

(** * Lookup by address *)

Lemma find_addr_spec a now prot chain hosts c t b pre :
  inv c t → t !! b = Some (pre ++ chain) → (∀ x, x ∈ hosts → is_Some (store c !! x)) →
  twp (find_addr dnssec a now prot chain hosts c) (λ '(c', kept, hosts'),
    walked c c' ∧ inv c' (<[b := pre ++ kept]> t) ∧ (∀ x, x ∈ hosts' → is_Some (store c' !! x))).
Proof.
  revert hosts c t pre. induction chain as [|id rest IH]; intros hosts c t pre Hi Hb Hh.
  { simpl. rewrite list_insert_id by done. split_and!; [apply walked_refl|done|done]. }
  assert (id ∈ concat t) as Hid by (eapply elem_of_table; [done|]; apply elem_of_app; right; left).
  cbn [find_addr]. twp_step; [|twp_step].
  - simpl. rewrite list_insert_id by done. split_and!; [apply walked_refl|done|done].
  - assert (∀ c1 hosts1, walked c c1 → inv c1 t → (∀ x, x ∈ hosts1 → is_Some (store c1 !! x)) →
      twp ('(c, kept, hosts) ← find_addr dnssec a now prot rest hosts1 c1; Ok (c, id :: kept, hosts))
        (λ '(c', kept, hosts'), walked c c' ∧ inv c' (<[b := pre ++ kept]> t) ∧
          (∀ x, x ∈ hosts' → is_Some (store c' !! x)))) as Hk.
    { intros c1 hosts1 Hw Hi1 Hh1. twp_step.
      eapply twp_mono; [apply (IH hosts1 c1 t (pre ++ [id])); [done|by rewrite <- app_assoc|done]|].
      intros [[c' kept] hosts'] (R1 & R2 & R3). rewrite <- app_assoc in R2. simpl.
      split_and!; [by eapply walked_trans|done|done]. }
    twp_step. twp_step.
    + eapply twp_mono; [by apply (hit_spec mix_tab id hosts c t)|]. intros [c1 hosts1] (Hi1 & Hw & Hst & Hl).
      apply Hk; [done..|]. rewrite Hst. destruct (local (get c id)); destruct Hl as [_ ->]; [|done].
      intros x [?|Hx]%elem_of_app; [by apply Hh|]. apply list_elem_of_singleton in Hx as ->.
      apply (inv_alloc _ _ _ Hi). rewrite !elem_of_app. auto.
    + simpl. apply Hk; [apply walked_refl|done|done].
  - twp_step. eapply twp_drop_dead; [done..|]. intros c1 Hsc Hi1 _.
    eapply twp_mono; [eapply (IH hosts c1); [exact Hi1|by eapply table_shrink|]|].
    + intros x Hx. apply (sw_alloc _ _ Hsc). by apply Hh.
    + intros [[c' kept] hosts'] (R1 & R2 & R3). rewrite list_insert_insert_eq in R2.
      split_and!; [|done|done]. eapply walked_trans; [by apply scanned_walked|done].
Qed.

Lemma find_addr_table_spec a now prot table hosts c done_ :
  inv c (done_ ++ table) → (∀ x, x ∈ hosts → is_Some (store c !! x)) →
  twp (find_addr_table dnssec a now prot table hosts c) (λ '(c', table', hosts'),
    walked c c' ∧ inv c' (done_ ++ table') ∧ (∀ x, x ∈ hosts' → is_Some (store c' !! x))).
Proof.
  revert hosts c done_. induction table as [|chain table IH]; intros hosts c done_ Hi Hh.
  { simpl. split_and!; [apply walked_refl|done|done]. }
  cbn [find_addr_table]. twp_step.
  eapply twp_mono; [apply (find_addr_spec a now prot chain hosts c (done_ ++ chain :: table) (length done_) []);
    [done|by apply list_lookup_middle|done]|].
  intros [[c1 kept] hosts1] (R1 & R2 & R3). cbn [app] in R2.
  rewrite insert_app_r_alt, Nat.sub_diag in R2 by lia. cbn [insert list_insert] in R2.
  twp_step. eapply twp_mono; [apply (IH hosts1 c1 (done_ ++ [kept])); [by rewrite <- app_assoc|done]|].
  intros [[c2 table'] hosts2] (S1 & S2 & S3). rewrite <- app_assoc in S2. simpl.
  split_and!; [by eapply walked_trans|done|done].
Qed.

Lemma cache_find_by_addr_spec a now prot c :
  cache_ok c →
  twp (cache_find_by_addr dnssec None a now prot c) (λ '(c', r), cache_ok c' ∧ pool c' ≡ₚ pool c ∧
    ∀ id, r = Some id → has (get c' id) F_REVERSE = true ∧ addr_match a prot (get c' id) = true).
Proof.
  intros Hok. unfold cache_find_by_addr. twp_step. twp_step.
  eapply twp_mono; [apply (find_addr_table_spec a now prot (hash_table c) [] c []); [done|]|].
  { intros x Hx. by apply elem_of_nil in Hx. }
  intros [[c1 t1] hosts] (W & I & Hh). cbn [app] in I. apply cache_ok_set_table in I as Hok2.
  set (c2 := set_table t1 c1) in *.
  destruct (set_answers_spec mix_tab hosts (head (lru c2)) c2 t1 Hok2 Hh) as (I3 & L3 & N3 & T3 & _).
  set (c3 := set_answers hosts (head (lru c2)) c2) in *.
  assert (cache_ok c3) as Hok3 by (unfold CacheInv.cache_ok; by rewrite T3).
  assert (pool c3 ≡ₚ pool c) as HP by (unfold pool; rewrite L3, N3; simpl; rewrite (wk_lru _ _ W), (wk_new _ _ W); done).
  cbn [twp]. case_match; [|by split_and!]. case_match; [|by split_and!].
  cbn [twp]. split_and!; [done..|]. intros x [= <-]. by apply andb_true_iff.
Qed.

(** * The table *)

Lemma inv_retable c t t' k :
  inv c t → zlen t' = 2 ^ Z.of_nat k → concat t' ≡ₚ concat t →
  (∀ b chain, t' !! b = Some chain → chain_ok mix_tab (set_table t' c) b chain) → cache_ok (set_table t' c).
Proof.
  intros [I1 I2 I3 I4 I5 I6 I7 I8 I9 I10 I11 Ic I12 I13] Hk HP Hch.
  assert (∀ x, x ∈ concat t' ↔ x ∈ concat t) as Hel by (intros x; by rewrite HP).
  split; simpl; try done.
  - eauto.
  - by rewrite HP.
  - intros x. rewrite Hel. apply I7.
  - intros x. rewrite !elem_of_app, Hel, <- !elem_of_app. apply I8.
  - intros x. rewrite Hel. apply I9.
  - intros x. rewrite Hel. apply I10.
  - intros x. rewrite Hel. apply I11.
  - intros x. rewrite Hel. apply Ic.
Qed.

Lemma table_size_pow2 fuel n size : ∃ k : nat, table_size fuel n size = n * 2 ^ Z.of_nat k.
Proof.
  revert n. induction fuel as [|fuel IH]; intros n; simpl; [exists 0%nat; lia|].
  case_match; [|exists 0%nat; lia]. destruct (IH (Z.shiftl n 1)) as [k ->]. exists (S k).
  rewrite Z.shiftl_mul_pow2 by lia. rewrite Nat2Z.inj_succ, Z.pow_succ_r by lia. lia.
Qed.

Lemma concat_repeat_nil {A} n : concat (repeat (@nil A) n) = [].
Proof. induction n; done. Qed.

Lemma foldl_cache_hash ids c :
  chains_ok mix_tab c →
  let c' := foldl (λ c id, cache_hash mix_tab id c) c ids in
  chains_ok mix_tab c' ∧ concat (hash_table c') ≡ₚ ids ++ concat (hash_table c) ∧
  c' = set_table (hash_table c') c.
Proof.
  revert c. induction ids as [|id ids IH]; intros c Hc; simpl.
  { split_and!; [done..|by destruct c]. }
  destruct (cache_hash_spec mix_tab id c Hc) as (HP & _ & Hc').
  destruct (IH _ Hc') as (H1 & H2 & H3). split_and!; [done|rewrite H2, HP; solve_Permutation|].
  rewrite H3 at 1. done.
Qed.

(** Growing the table keeps the records of every chain. *)
Lemma rehash_spec alloc size c t :
  inv c t → t = hash_table c →
  cache_ok (rehash mix_tab alloc size c) ∧ pool (rehash mix_tab alloc size c) = pool c ∧
  store (rehash mix_tab alloc size c) = store c ∧
  concat (hash_table (rehash mix_tab alloc size c)) ≡ₚ concat (hash_table c).
Proof.
  intros Hok ->. unfold rehash. case_match; [|done].
  destruct (table_size_pow2 32 64 size) as [k Hk]. set (n := table_size 32 64 size) in *.
  set (c0 := set_table (repeat [] (Z.to_nat n)) c).
  assert (zlen (hash_table c0) = 2 ^ Z.of_nat (6 + k)) as Hlen.
  { unfold zlen, c0. cbn [hash_table set_table]. rewrite repeat_length, Z2Nat.id by lia. rewrite Hk.
    rewrite Nat2Z.inj_add, Z.pow_add_r by lia. done. }
  assert (chains_ok mix_tab c0) as Hc0.
  { split; [eauto|]. intros b chain Hb.
    simpl in Hb. apply list_elem_of_lookup_2, list_elem_of_In, repeat_spec in Hb as ->.
    split; constructor. }
  destruct (foldl_cache_hash (concat (hash_table c)) c0 Hc0) as (H1 & H2 & H3).
  set (c1 := foldl _ c0 _) in *. change (concat (hash_table c0)) with (concat (repeat (@nil Z) (Z.to_nat n))) in H2.
  rewrite concat_repeat_nil, app_nil_r in H2. rewrite H3. cbn [hash_table set_table store].
  split_and!; [|done..]. destruct H1 as [[k' Hk'] H1].
  eapply (inv_retable c); [exact Hok|exact Hk'|done|].
  intros b chain Hb. specialize (H1 b chain Hb). rewrite H3 in H1. done.
Qed.

(** * Initial state *)

Lemma init_loop ids c :
  NoDup (reverse ids ++ lru c) → 
  (∀ x, x ∈ lru c → is_Some (store c !! x) ∧ flags (get c x) = 0) →
  twp (foldl (λ m id, c ← m; c ← cache_link id c;
          Ok (set_store (<[id := Crec 0 0 UID_NONE A_none [] None]> (store c)) c)) (Ok c) ids)
    (λ c', lru c' = reverse ids ++ lru c ∧ hash_table c' = hash_table c ∧ new_chain c' = new_chain c ∧
      insert_error c' = insert_error c ∧
      ∀ x, x ∈ lru c' → is_Some (store c' !! x) ∧ flags (get c' x) = 0).
Proof.
  revert c. induction ids as [|id ids IH]; intros c Hnd Hx; [done|].
  rewrite reverse_cons, <- app_assoc in Hnd. cbn [app] in Hnd.
  assert (id ∉ lru c) as Hid by (apply NoDup_app in Hnd as (_ & _ & [? _]%NoDup_cons); done).
  cbn [foldl mbind res_bind]. unfold cache_link at 2. rewrite bool_decide_false by done. cbn [mbind res_bind].
  set (c1 := set_store _ _).
  eapply twp_mono; [apply (IH c1); [done|]|].
  - intros x. unfold get, c1. simpl. intros [->|Hin]%elem_of_cons.
    + rewrite lookup_insert_eq, lookup_total_insert_eq. eauto.
    + assert (x ≠ id) by (by intros ->). rewrite lookup_insert_ne, lookup_total_insert_ne by done. by apply Hx.
  - intros c' (H1 & H2 & H3 & H4 & H5). split_and!; try done.
    rewrite H1, reverse_cons, <- app_assoc. done.
Qed.

Lemma cache_init_spec ids :
  NoDup ids → twp (cache_init mix_tab ids) (λ c, cache_ok c ∧ pool c = reverse ids).
Proof.
  intros Hnd. unfold cache_init. twp_step. eapply twp_mono; [apply init_loop|].
  { simpl. rewrite app_nil_r. by rewrite reverse_Permutation. }
  { intros x Hx. by apply elem_of_nil in Hx. }
  intros c (H1 & H2 & H3 & H4 & H5). simpl in H1, H2, H3. rewrite app_nil_r in H1. simpl.
  destruct (table_size_pow2 32 64 (zlen ids)) as [k Hk]. unfold rehash. rewrite H2.
  cbn [bool_decide decide]. rewrite bool_decide_true by done. cbn [orb foldl concat].
  set (n := table_size 32 64 (zlen ids)) in *.
  assert (∀ x, x ∈ lru c → used (get c x) = false) as Hu.
  { intros x [_ Hf]%H5. unfold used, has. by rewrite Hf. }
  split; [|unfold pool; simpl; by rewrite H1, H3, app_nil_r].
  unfold CacheInv.cache_ok. cbn [hash_table set_table].
  split; cbn [hash_table set_table lru new_chain store]; rewrite ?concat_repeat_nil, ?H3;
    try done; try (intros x Hx; by apply elem_of_nil in Hx); try constructor.
  - exists (6 + k)%nat. unfold zlen. rewrite repeat_length, Z2Nat.id by lia. rewrite Hk.
    rewrite Nat2Z.inj_add, Z.pow_add_r by lia. done.
  - rewrite H1. by rewrite reverse_Permutation.
  - intros x Hx. by apply not_elem_of_nil.
  - intros x. rewrite app_nil_r. by intros [? _]%H5.
  - intros x Hx Hux. change (used (get c x) = true) in Hux. by rewrite Hu in Hux.
  - apply list_elem_of_lookup_2, list_elem_of_In, repeat_spec in H as ->. constructor.
  - apply list_elem_of_lookup_2, list_elem_of_In, repeat_spec in H as ->. constructor.
Qed.

(** * Local records and CNAMEs *)

Lemma inv_add_local c id r :
  cache_ok c → store c !! id = None → used r = true → local r = true →
  (has r (Z.lor F_DNSKEY F_DS) = true → has r F_CONFIG = true) →
  cache_ok (add_local mix_tab id r c) ∧ pool (add_local mix_tab id r c) = pool c.
Proof.
  intros Hok Hid Hu Hl Hc. split; [|done]. unfold add_local.
  set (c0 := set_store (<[id := r]> (store c)) c).
  assert (∀ x, x ∈ lru c ++ concat (hash_table c) ++ new_chain c → x ≠ id) as Hne.
  { intros x Hx ->. apply (inv_alloc _ _ _ Hok) in Hx. rewrite Hid in Hx. by destruct Hx. }
  assert (∀ x, x ≠ id → get c0 x = get c x) as Hget.
  { intros x Hx. unfold get, c0. simpl. by rewrite lookup_total_insert_ne. }
  assert (get c0 id = r) as Hgid by (unfold get, c0; simpl; by rewrite lookup_total_insert_eq).
  assert (∀ x, x ∈ concat (hash_table c) → get c0 x = get c x) as Hgt.
  { intros x Hx. apply Hget, Hne. rewrite !elem_of_app. auto. }
  assert (chains_ok mix_tab c0) as Hch.
  { split; [apply (inv_size _ _ _ Hok)|]. intros b chain Hb. apply (chain_ok_ext _ c); [done| |].
    - intros x Hx. apply Hgt. by eapply elem_of_table.
    - by apply (inv_chain _ _ _ Hok). }
  destruct (cache_hash_spec mix_tab id c0 Hch) as (HP & Hlen & Hk & Hch').
  set (c1 := cache_hash mix_tab id c0) in *.
  assert (∀ x, x ∈ concat (hash_table c1) ↔ x = id ∨ x ∈ concat (hash_table c)) as Hel.
  { intros x. rewrite HP. apply elem_of_cons. }
  assert (∀ x, get c1 x = get c0 x) as Hg1 by done.
  destruct Hok as [I1 I2 I3 I4 I5 I6 I7 I8 I9 I10 I11 Ic I12 I13].
  assert (id ∉ concat (hash_table c)) as Hidt by (intros Hx; eapply Hne; [|done]; rewrite !elem_of_app; auto).
  split; try done.
  - rewrite HP. by constructor.
  - intros x [->|Hx]%Hel; [|by apply I7]. intros Hx. eapply Hne; [|done]. rewrite !elem_of_app. auto.
  - intros x Hx. change (is_Some (store c0 !! x)). unfold c0. simpl. destruct (decide (x = id)) as [->|Hxn].
    + rewrite lookup_insert_eq. eauto.
    + rewrite lookup_insert_ne by done. apply I8. rewrite !elem_of_app, Hel in Hx. rewrite !elem_of_app. tauto.
  - intros x [->|Hx]%Hel; rewrite Hg1; [by rewrite Hgid|rewrite Hgt by done; by apply I9].
  - intros x Hx Hux. rewrite Hg1, Hget in Hux by (apply Hne; rewrite !elem_of_app; auto). apply Hel. right. by apply I10.
  - intros x Hx. rewrite Hg1. apply Hel in Hx as [->|Hx]; [|rewrite Hgt by done; by apply I11].
    rewrite Hgid, Hl. split; [|done]. intros Hx. exfalso. eapply Hne; [|done]. rewrite !elem_of_app. auto.
  - intros x [->|Hx]%Hel; rewrite Hg1; [by rewrite Hgid|rewrite Hgt by done; by apply Ic].
  - intros x Hx. rewrite Hg1, Hget by (apply Hne; rewrite !elem_of_app; auto). by apply I12.
Qed.

Lemma next_uid_ok id c :
  cache_ok c → is_Some (store c !! id) → cache_ok (next_uid id c) ∧ pool (next_uid id c) = pool c.
Proof.
  intros Hok Hid. unfold next_uid. case_match; [|done]. split; [|done].
  apply inv_upd; [done|done|]. by eapply inv_frame; [..|exact Hok].
Qed.

Lemma set_cname_target_ok newc target c :
  cache_ok c → is_Some (store c !! newc) → (∀ t, target = Some t → is_Some (store c !! t)) →
  cache_ok (set_cname_target newc target c) ∧ pool (set_cname_target newc target c) = pool c.
Proof.
  intros Hok Hn Ht. unfold set_cname_target. destruct target as [t|]; [|by split; [apply inv_upd|]].
  destruct (next_uid_ok t c Hok (Ht t eq_refl)) as [H1 H2]. split; [|done].
  apply inv_upd; [done| |done]. unfold next_uid. case_match; [by apply is_Some_upd|done].
Qed.

(** * Sequences of operations *)

Inductive op :=
| OStart
| OInsert (max_ttl min_ttl : Z) (alloc : bool) (name : option cstring) (a : option all_addr) (class now ttl fl : Z)
| OCname (newc : Z) (target : option Z)
| OEnd
| OFind (name : cstring) (now prot : Z)
| OFindAddr (a : list Z) (now prot : Z)
| OLocal (id : Z) (r : crec).

Definition run (o : op) (c : cache) : res cache :=
  match o with
  | OStart => cache_start_insert dnssec c
  | OInsert max min alloc name a class now ttl fl =>
      '(c, _) ← cache_insert dnssec mix_tab max min alloc name a class now ttl fl c; Ok c
  | OCname newc target => Ok (set_cname_target newc target c)
  | OEnd => cache_end_insert dnssec mix_tab c
  | OFind name now prot => '(c, _) ← cache_find_by_name dnssec mix_tab None name now prot c; Ok c
  | OFindAddr a now prot => '(c, _) ← cache_find_by_addr dnssec None a now prot c; Ok c
  | OLocal id r => Ok (add_local mix_tab id r c)
  end.

(** How the program calls the operations: records inserted are forward or
    reverse records and not local, local records are new ones, and a CNAME's
    target is a record. *)
Definition op_ok (o : op) (c : cache) : Prop :=
  match o with
  | OInsert _ _ _ name _ _ _ _ fl =>
      flag fl (Z.lor F_FORWARD F_REVERSE) = true ∧ flag fl F_LOCAL = false ∧
      (flag fl F_FORWARD = true → name ≠ None)
  | OCname newc target => newc ∈ new_chain c ∧ (∀ t, target = Some t → t ∈ pool c)
  | OLocal id r => store c !! id = None ∧ used r = true ∧ local r = true ∧
      (has r (Z.lor F_DNSKEY F_DS) = true → has r F_CONFIG = true)
  | _ => True
  end.

Fixpoint run_all (ops : list op) (c : cache) : res cache :=
  match ops with [] => Ok c | o :: ops => c ← run o c; run_all ops c end.
Fixpoint all_ok (ops : list op) (c : cache) : Prop :=
  match ops with [] => True | o :: ops => op_ok o c ∧ ∀ c', run o c = Ok c' → all_ok ops c' end.

Lemma pool_alloc c x : cache_ok c → x ∈ pool c → is_Some (store c !! x).
Proof. intros Hok Hx. apply (inv_alloc _ _ _ Hok). unfold pool in Hx. rewrite !elem_of_app in *. tauto. Qed.

Lemma run_ok o c : cache_ok c → op_ok o c → twp (run o c) (λ c', cache_ok c' ∧ pool c' ≡ₚ pool c).
Proof.
  intros Hok Ho. destruct o; simpl in *.
  - eapply twp_mono; [by apply cache_start_insert_spec|]. simpl. tauto.
  - destruct Ho as (H1 & H2 & H3). twp_step. eapply twp_mono; [by apply really_insert_spec|].
    intros [c' r] [(H & HP & _) _]. simpl. done.
  - destruct Ho as [H1 H2]. destruct (set_cname_target_ok newc target c) as [H ->]; try done.
    + apply pool_alloc; [done|]. apply elem_of_app. by right.
    + intros t Ht. by apply pool_alloc, H2.
  - unfold cache_end_insert. twp_step; [by simpl|]. eapply twp_mono; [by apply commit_spec|]. simpl. tauto.
  - twp_step. eapply twp_mono; [by apply cache_find_by_name_inv|]. by intros [c' r].
  - twp_step. eapply twp_mono; [by apply cache_find_by_addr_spec|]. intros [c' r] (? & ? & _). by simpl.
  - destruct Ho as (H1 & H2 & H3 & H4). destruct (inv_add_local c id r) as [H ->]; done.
Qed.

Lemma run_all_ok ops c :
  cache_ok c → all_ok ops c → twp (run_all ops c) (λ c', cache_ok c' ∧ pool c' ≡ₚ pool c).
Proof.
  revert c. induction ops as [|o ops IH]; intros c Hok Ho; [by simpl|]. destruct Ho as [Ho Hops].
  cbn [run_all]. apply twp_bind_eq. eapply twp_mono; [by apply run_ok|]. intros c1 [Hok1 HP1] E.
  eapply twp_mono; [apply IH; [done|by apply Hops]|]. simpl. intros c' [? HP]. by rewrite HP.
Qed.
End reach.

(** C7. Any sequence of cache operations, started from an initialised cache,
    returns and keeps the cache consistent: no record of the pool is lost,
    duplicated or linked twice, the records in use are exactly those on the
    hash chains, each in the bucket of its name, and each chain has its reverse
    records first and its immortal forward records last. *)
Theorem cache_operations_safe mix_tab dnssec ids ops c0 :
  NoDup ids → cache_init mix_tab ids = Ok c0 → all_ok mix_tab dnssec ops c0 →
  ∃ c, run_all mix_tab dnssec ops c0 = Ok c ∧ cache_ok mix_tab c ∧ pool c ≡ₚ ids.
Proof.
  intros Hnd E0 Hops. pose proof (cache_init_spec mix_tab ids Hnd) as H0. rewrite E0 in H0.
  destruct H0 as [Hok0 HP0]. pose proof (run_all_ok mix_tab dnssec ops c0 Hok0 Hops) as (c & Hc & Hok & HP)%twp_ok.
  exists c. split_and!; [done..|]. by rewrite HP, HP0, reverse_Permutation.
Qed.

Lemma cache_operations_safe_witness :
  ∃ c, run_all (λ _, 0) true
         [OStart; OInsert 0 0 true (Some [97]) (Some (A_addr [10; 0; 0; 1])) 1 100 60 (F_FORWARD + F_IPV4); OEnd;
          OFind [65] 130 F_IPV4]
         (default (Cache ∅ [] [] [] false 0 0 0 [] 0 0)
            (match cache_init (λ _, 0) [1; 2; 3] with Ok c => Some c | _ => None end)) = Ok c ∧
    cache_ok (λ _, 0) c ∧ pool c ≡ₚ [1; 2; 3].
Proof.
  apply (cache_operations_safe (λ _, 0) true [1; 2; 3]).
  - apply (bool_decide_unpack _). vm_compute. exact I.
  - vm_compute. reflexivity.
  - simpl. split; [done|]. intros c1 _. split; [by split_and!|]. intros c2 _. split; [done|]. intros c3 _. done.
Defined.



(** C11. Looking up a name returns with the cache consistent; the answer is a record
    of that name (whatever the case), of a kind asked for, and not expired, and
    there is no answer only when no such record exists, CNAMEs apart. *)
Theorem cache_find_by_name_correct mix_tab dnssec name now prot c :
  cache_ok mix_tab c → wf_cstring name → (∀ id, wf_cstring (cname_str (get c id))) →
  ∃ c' r, cache_find_by_name dnssec mix_tab None name now prot c = Ok (c', r) ∧
    answers mix_tab name now (clear_flag prot F_NO_RR) c (c', r).
Proof.
  intros Hok Hw Hws. pose proof (cache_find_by_name_spec mix_tab dnssec name now prot c Hok Hw Hws) as
    ([c' r] & E & H)%twp_ok. eauto.
Qed.

(** Checking the names of a concrete cache. *)
Definition names_wf (c : cache) : bool := bool_decide (map_Forall (λ _ r, wf_cstring (cname_str r)) (store c)).

Lemma names_wf_spec c : names_wf c = true → ∀ id, wf_cstring (cname_str (get c id)).
Proof.
  intros H%bool_decide_eq_true id. unfold get. rewrite lookup_total_alt.
  destruct (store c !! id) as [r|] eqn:E; [by apply (H id)|constructor].
Qed.

(** A concrete cache of three records. *)
Lemma small_cache :
  ∃ c0, cache_init (λ _, 0) [1; 2; 3] = Ok c0 ∧ cache_ok (λ _, 0) c0 ∧ names_wf c0 = true ∧
    spillable true c0 ∧ lru c0 ≠ [] ∧ insert_error c0 = false ∧ new_chain c0 = [] ∧ concat (hash_table c0) = [].
Proof.
  assert (NoDup [1; 2; 3]) as Hnd by (apply (bool_decide_unpack _); vm_compute; exact I).
  pose proof (cache_init_spec (λ _, 0) [1; 2; 3] Hnd) as Hi.
  assert (match cache_init (λ _, 0) [1; 2; 3] with
    | Ok c => names_wf c && bool_decide (lru c = [3; 2; 1]) && forallb (λ x, negb (used (get c x))) [3; 2; 1] &&
              negb (insert_error c) && bool_decide (new_chain c = []) && bool_decide (concat (hash_table c) = [])
    | _ => false end = true) as Hc by (vm_compute; reflexivity).
  destruct (cache_init (λ _, 0) [1; 2; 3]) as [c0| | |]; try done. exists c0.
  rewrite !andb_true_iff, !bool_decide_eq_true, forallb_forall, negb_true_iff in Hc.
  destruct Hc as (((((H1 & H2) & H3) & H4) & H5) & H6). split_and!; try done; [apply Hi| |by rewrite H2].
  intros id Hid Hu. rewrite H2, list_elem_of_In in Hid. apply H3 in Hid. by rewrite Hu in Hid.
Qed.

Lemma cache_find_by_name_correct_witness :
  ∃ c0, cache_init (λ _, 0) [1; 2; 3] = Ok c0 ∧
  ∃ c' r, cache_find_by_name true (λ _, 0) None [97] 100 F_IPV4 c0 = Ok (c', r) ∧
    answers (λ _, 0) [97] 100 (clear_flag F_IPV4 F_NO_RR) c0 (c', r).
Proof.
  destruct small_cache as (c0 & E & Hok & Hwf & _). exists c0. split; [done|].
  apply (cache_find_by_name_correct (λ _, 0) true [97] 100 F_IPV4 c0); [done|repeat constructor; lia|].
  by apply names_wf_spec.
Defined.

Lemma new_matches name a now ttl fl r prot :
  is_new (Some name) a now ttl fl r → flag fl F_FORWARD = true → flag fl prot = true → flag fl F_CNAME = false →
  name_match name prot r = true ∧ has r F_CNAME = false ∧ ∀ now', now' < now + ttl → is_expired now' r = false.
Proof.
  intros [Hf Ht Hn _] H1 H2 H3. simpl in Hn.
  assert (∀ m, flag fl m = true → has r m = true) as Hh.
  { intros m Hm. unfold has. destruct Hf as [->| ->]; [done|]. by rewrite flag_lor_l, Hm. }
  split_and!.
  - unfold name_match. rewrite (Hh _ H1), (Hh _ H2), Hn. apply hostname_isequal_refl.
  - unfold has. destruct Hf as [->| ->]; [done|]. by rewrite flag_lor_l, H3.
  - intros now' Hlt. unfold is_expired. case_match; [done|]. rewrite Ht. by replace (now' <? now + ttl) with true by lia.
Qed.


