(* ===== verification/DomainMatch.v ===== *)
(** Choosing upstream servers by domain (src/src/domain-match.c): the sorted
    array of servers, its order, the binary search for the longest matching
    domain and the selection within a group, and the upkeep of the server
    lists. *)
From S2P Require Import Prelude Hostname Cache.

Definition F_NOERR : Z := 1048576.
Definition F_DNSSECOK : Z := 32768.
Definition F_SERVER : Z := 262144.
Definition F_DOMAINSRV : Z := 268435456.

Definition SERV_LITERAL_ADDRESS : Z := 1.
Definition SERV_USE_RESOLV : Z := 2.
Definition SERV_ALL_ZEROS : Z := 4.
Definition SERV_4ADDR : Z := 8.
Definition SERV_6ADDR : Z := 16.
Definition SERV_FOR_NODOTS : Z := 64.
Definition SERV_MARK : Z := 512.
Definition SERV_WILDCARD : Z := 1024.
Definition SERV_LOOP : Z := 8192.
Definition SERV_DO_DNSSEC : Z := 16384.
(** SERV_IS_LOCAL is (SERV_USE_RESOLV | SERV_LITERAL_ADDRESS). *)
Definition SERV_IS_LOCAL : Z := 3.
(** SERV_6ADDR | SERV_4ADDR | SERV_ALL_ZEROS. *)
Definition SERV_LOCAL_ADDRESS : Z := 28.

(** struct server, with the address of struct serv_addr4 and serv_addr6; [sid]
    is the address of the object. *)
Record server := Server {
  sid : Z; sflags : Z; domain_len : Z; domain : cstring; serial : Z; arrayposn : Z; last_server : Z;
  local_addr : list Z
}.
#[global] Instance server_inhabited : Inhabited server := populate (Server 0 0 0 [] 0 0 0 []).

Definition sflag (s : server) (m : Z) : bool := flag (sflags s) m.

(** * Order *)

Definition order (qdomain : cstring) (qlen : Z) (serv : server) : Z :=
  if sflag serv SERV_FOR_NODOTS then -1
  else if qlen <? domain_len serv then 1
  else if domain_len serv <? qlen then -1
  else hostname_order qdomain (domain serv).

Definition order_servers (s1 s2 : server) : Z :=
  if sflag s1 SERV_FOR_NODOTS then (if sflag s2 SERV_FOR_NODOTS then 0 else 1)
  else
    let rc := order (domain s1) (domain_len s1) s2 in
    if negb (rc =? 0) then rc
    else if sflag s1 SERV_WILDCARD then (if sflag s2 SERV_WILDCARD then 0 else 1)
    else (if sflag s2 SERV_WILDCARD then -1 else 0).

Definition server_samegroup (a b : server) : bool := order_servers a b =? 0.

(** The kinds of answer, in the order they are sorted in. *)
Definition kind_mask : Z := 31. (* LITERAL_ADDRESS | 4ADDR | 6ADDR | USE_RESOLV | ALL_ZEROS *)
Definition kind_key (s : server) : Z := Z.lxor (Z.land (sflags s) kind_mask) SERV_LITERAL_ADDRESS.

Definition order_qsort (s1 s2 : server) : Z :=
  let rc := order_servers s1 s2 in
  let rc := if rc =? 0 then kind_key s2 - kind_key s1 else rc in
  if rc =? 0 then
    if negb (sflag s1 SERV_LITERAL_ADDRESS) then serial s1 - serial s2 else rc
  else rc.

(** * Groups *)

(** An element of the array. *)
Definition at_ (arr : list server) (i : nat) : res server :=
  match arr !! i with Some s => Ok s | None => Oob end.

(** [while (nlow > 0 && order_servers(arr[nlow-1], arr[nlow]) == 0) nlow--]. *)
Fixpoint group_low (arr : list server) (nlow : nat) : res nat :=
  match nlow with
  | O => Ok O
  | S n =>
      a ← at_ arr n; b ← at_ arr (S n);
      if order_servers a b =? 0 then group_low arr n else Ok nlow
  end.

(** [while (nhigh < sz-1 && order_servers(arr[nhigh], arr[nhigh+1]) == 0) nhigh++]. *)
Fixpoint group_high (fuel : nat) (arr : list server) (nhigh : nat) : res nat :=
  match fuel with
  | O => NoFuel
  | S fuel =>
      if (S nhigh <? length arr)%nat then
        a ← at_ arr nhigh; b ← at_ arr (S nhigh);
        if order_servers a b =? 0 then group_high fuel arr (S nhigh) else Ok nhigh
      else Ok nhigh
  end.

(** [for (i = nlow; i < nhigh && (p arr[i]); i++)], on the slice from [nlow] to
    [nhigh]: the number of steps. *)
Fixpoint run_length (p : server → bool) (l : list server) : nat :=
  match l with
  | [] => O
  | s :: l => if p s then S (run_length p l) else O
  end.

(** The narrowing of one group, [grp] being the slice at [nlow]: the new slice
    as an offset and a length. [fl] are the flags of the query. *)
Definition filter_group (fl : Z) (grp : list server) : nat * nat :=
  if flag fl F_CONFIG then
    if existsb (λ s, sflag s SERV_LOCAL_ADDRESS) grp then (0%nat, length grp) else (0%nat, 0%nat)
  else
    let n6 := run_length (λ s, sflag s SERV_6ADDR) grp in
    if negb (n6 =? 0)%nat && flag fl F_IPV6 then (0%nat, n6)
    else
      let grp4 := drop n6 grp in
      let n4 := run_length (λ s, sflag s SERV_4ADDR) grp4 in
      if negb (n4 =? 0)%nat && flag fl F_IPV4 then (n6, n4)
      else
        let grpz := drop n4 grp4 in
        let nz := run_length (λ s, sflag s SERV_ALL_ZEROS) grpz in
        if negb (nz =? 0)%nat && flag fl (Z.lor F_IPV4 F_IPV6) then ((n6 + n4)%nat, nz)
        else
          let grpr := drop nz grpz in
          let base := (n6 + n4 + nz)%nat in
          let nr := run_length (λ s, sflag s SERV_USE_RESOLV) grpr in
          if negb (nr =? 0)%nat then (base, nr)
          else
            let ns := run_length (λ s, negb (sflag s SERV_LITERAL_ADDRESS)) grpr in
            match grpr with
            | s :: _ =>
                if negb (ns =? 0)%nat then
                  if flag fl F_DNSSECOK && negb (sflag s SERV_DO_DNSSEC) then (length grp, 0%nat)
                  else if flag fl F_DOMAINSRV && (domain_len s =? 0) then (length grp, 0%nat)
                  else (base, ns)
                else if flag fl (Z.lor F_DNSSECOK (Z.lor F_DOMAINSRV F_SERVER)) then (base, 0%nat)
                else (base, length grpr)
            | [] => (base, 0%nat)
            end.

(** The result and the bounds stored through the pointers. *)
Definition filter_servers (arr : list server) (seed : nat) (fl : Z) : res (bool * nat * nat) :=
  nlow ← group_low arr seed;
  nhigh ← group_high (length arr) arr seed;
  let grp := take (S nhigh - nlow) (drop nlow arr) in
  let '(off, len) := filter_group fl grp in
  Ok (negb (len =? 0)%nat, (nlow + off)%nat, (nlow + off + len)%nat).

(** * Search *)

(** [crop_query] when the search ends after the element: the next length. *)
Fixpoint next_length (qlen old : Z) (rest : list server) : Z :=
  match rest with
  | [] => 1
  | s :: rest => if negb (old =? domain_len s) then qlen - domain_len s else next_length qlen old rest
  end.

(** The binary search: where it found the query, the final [low], and
    [crop_query]. *)
Fixpoint bsearch (fuel : nat) (arr : list server) (qdomain : cstring) (qlen : Z) (low high : nat)
    : res (option nat * nat * Z) :=
  match fuel with
  | O => NoFuel
  | S fuel =>
      let try := ((low + high) / 2)%nat in
      s ← at_ arr try;
      let rc := order qdomain qlen s in
      if rc =? 0 then Ok (Some try, low, 1)
      else if rc <? 0 then
        if (high =? try)%nat then Ok (None, low, qlen - domain_len s)
        else bsearch fuel arr qdomain qlen low try
      else
        if (low =? try)%nat then Ok (None, low, next_length qlen (domain_len s) (drop (S try) arr))
        else bsearch fuel arr qdomain qlen try high
  end.

(** [while (try != 0 && order(qdomain, qlen, arr[try-1]) == 0) try--]. *)
Fixpoint first_equal (arr : list server) (qdomain : cstring) (qlen : Z) (try : nat) : res nat :=
  match try with
  | O => Ok O
  | S n => s ← at_ arr n; if order qdomain qlen s =? 0 then first_equal arr qdomain qlen n else Ok try
  end.

Fixpoint last_equal (fuel : nat) (arr : list server) (qdomain : cstring) (qlen : Z) (try : nat) : res nat :=
  match fuel with
  | O => NoFuel
  | S fuel =>
      if (S try <? length arr)%nat then
        s ← at_ arr (S try);
        if order qdomain qlen s =? 0 then last_equal fuel arr qdomain qlen (S try) else Ok try
      else Ok try
  end.

(** With wildcards, whether the match at [try] counts, and the index to use. *)
Definition wildcard_match_at (arr : list server) (name : cstring) (off : nat) (qlen : Z) (try : nat)
    : res (bool * nat) :=
  let qdomain := drop off name in
  try ← first_equal arr qdomain qlen try;
  if (off =? 0)%nat || (deref qdomain =? 0) || (deref (drop (off - 1) name) =? dot) then Ok (true, try)
  else
    try ← last_equal (length arr) arr qdomain qlen try;
    s ← at_ arr try;
    Ok (sflag s SERV_WILDCARD, try).

(** [while (qlen > 0 && qdomain[-1] != '.') qlen--, qdomain++]. *)
Fixpoint next_label (fuel : nat) (name : cstring) (off : nat) (qlen : Z) : nat * Z :=
  match fuel with
  | O => (off, qlen)
  | S fuel =>
      if (0 <? qlen) && negb (deref (drop (off - 1) name) =? dot)
      then next_label fuel name (S off) (qlen - 1) else (off, qlen)
  end.

(** The end of a turn: the query shortened by [crop] characters, at least one,
    and without wildcards to the start of a label. *)
Definition crop_query (wild : bool) (name : cstring) (off : nat) (qlen crop : Z) : nat * Z :=
  let crop := if crop =? 0 then 1 else crop in
  let qlen := qlen - crop in
  let off := (off + Z.to_nat crop)%nat in
  if wild then (off, qlen) else next_label (length name) name off qlen.

Fixpoint lookup_loop (fuel : nat) (arr : list server) (wild : bool) (name : cstring) (fl : Z)
    (off : nat) (qlen : Z) (low nlow nhigh : nat) : res (nat * nat) :=
  match fuel with
  | O => NoFuel
  | S fuel =>
      if qlen <? 0 then Ok (nlow, nhigh)
      else
        let continue low nlow nhigh crop :=
          let '(off, qlen) := crop_query wild name off qlen crop in
          lookup_loop fuel arr wild name fl off qlen low nlow nhigh in
        '(hit, low, crop) ← bsearch (S (length arr)) arr (drop off name) qlen low (length arr);
        match hit with
        | None => continue low nlow nhigh crop
        | Some try =>
            '(found, try) ← (if wild then wildcard_match_at arr name off qlen try else Ok (true, try));
            if negb found then continue low nlow nhigh crop
            else
              '(ok, nlow, nhigh) ← filter_servers arr try fl;
              if negb ok then continue low nlow nhigh crop
              else
                s ← at_ arr nlow;
                if sflag s SERV_USE_RESOLV then continue low nlow nhigh qlen
                else Ok (nlow, nhigh)
        end
  end.

(** The C result and the bounds stored. *)
Definition lookup_domain (arr : list server) (wild : bool) (name : cstring) (fl : Z)
    : res (bool * nat * nat) :=
  match last arr with
  | None => Ok (false, 0%nat, 0%nat)
  | Some final =>
      let nodots := negb (existsb (Z.eqb dot) name) && negb (strlen name =? 0) && negb (flag fl F_DNSSECOK) in
      '(nlow, nhigh) ← lookup_loop (S (S (length name))) arr wild name fl 0 (strlen name) 0 0 0;
      empty ← (if (nlow =? nhigh)%nat then Ok true else s ← at_ arr nlow; Ok (domain_len s =? 0));
      '(nlow, nhigh) ←
        (if nodots && sflag final SERV_FOR_NODOTS && empty then
           '(_, nlow, nhigh) ← filter_servers arr (length arr - 1) fl; Ok (nlow, nhigh)
         else Ok (nlow, nhigh));
      Ok (negb (nlow =? nhigh)%nat, nlow, nhigh)
  end.

(** * Answers from the array *)

(** The flags of the answer the configuration gives, [F_NXDOMAIN] and [F_NOERR]
    included; [local] is the result of check_for_local_domain for the name. *)
Definition is_local_answer (arr : list server) (first : nat) (local : bool) : res Z :=
  s ← at_ arr first;
  if sflag s SERV_LITERAL_ADDRESS then
    if sflag s SERV_4ADDR then Ok F_IPV4
    else if sflag s SERV_6ADDR then Ok F_IPV6
    else if sflag s SERV_ALL_ZEROS then Ok (Z.lor F_IPV4 F_IPV6)
    else
      first ← group_low arr first;
      s ← at_ arr first;
      Ok (if sflag s SERV_LOCAL_ADDRESS || local then F_NOERR else F_NXDOMAIN)
  else Ok 0.

(** [for (index = first; index != last; index++) if (arr[index] == server) break]. *)
Fixpoint find_server (fuel : nat) (arr : list server) (server : Z) (index last : nat) : res nat :=
  match fuel with
  | O => NoFuel
  | S fuel =>
      if (index =? last)%nat then Ok index
      else
        s ← at_ arr index;
        if sid s =? server then Ok index else find_server fuel arr server (S index) last
  end.

(** The index of the server for a DNSSEC query and the bounds of its group;
    [None] is the result -1. *)
Definition dnssec_server (arr : list server) (wild : bool) (server : Z) (keyname : cstring)
    : res (option (Z * nat * nat)) :=
  '(ok, first, last) ← lookup_domain arr wild keyname F_DNSSECOK;
  if negb ok then Ok None
  else
    index ← find_server (S (length arr)) arr server first last;
    index ←
      (if (index =? last)%nat then
         s ← at_ arr first;
         Ok (if last_server s =? -1 then Z.of_nat first else last_server s)
       else Ok (Z.of_nat index));
    Ok (Some (index, first, last)).
