(* ===== verification/DomainLookup.v ===== *)
(** The order of the server array of [DomainMatch] is a total preorder, so that
    sorting by it is well defined, and the comparison of a query with the
    servers is monotone along a sorted array. On a sorted array the binary
    search with cropping finds what trying every suffix of the name that
    starts a label, longest first, against every server finds. *)
From stdpp Require Import sorting.
From S2P Require Import Prelude Hostname Cache DomainMatch.

(** Servers as the program builds them: the length is that of the domain, and
    servers for names without dots have none. *)
Record wf_server (s : server) : Prop := {
  ws_domain : wf_cstring (domain s);
  ws_len : domain_len s = strlen (domain s);
  ws_nodots : sflag s SERV_FOR_NODOTS = true → domain_len s = 0
}.

Lemma hostname_order_refl a : hostname_order a a = 0.
Proof. pose proof (hostname_isequal_refl a) as H. unfold hostname_isequal in H. lia. Qed.

Lemma hostname_order_lt_le a b c :
  wf_cstring a → wf_cstring b → wf_cstring c →
  (hostname_order a b < 0 → hostname_order b c ≤ 0 → hostname_order a c < 0) ∧
  (hostname_order a b ≤ 0 → hostname_order b c < 0 → hostname_order a c < 0).
Proof.
  intros Ha Hb Hc. pose proof (hostname_order_antisym a b Ha Hb). pose proof (hostname_order_antisym a c Ha Hc).
  pose proof (hostname_order_antisym b c Hb Hc). pose proof (hostname_order_trans b c a Hb Hc Ha).
  pose proof (hostname_order_trans c a b Hc Ha Hb). lia.
Qed.

(** The sign of the comparison of two keys. *)
Lemma order_mono q qlen a b :
  wf_cstring q → wf_server a → wf_server b → order_servers a b ≤ 0 →
  (order q qlen a ≤ 0 → order q qlen b ≤ 0) ∧ (order q qlen a < 0 → order q qlen b < 0).
Proof.
  intros Hq [Da La _] [Db Lb _]. unfold order_servers, order.
  destruct (sflag a SERV_FOR_NODOTS), (sflag b SERV_FOR_NODOTS); try (simpl; lia).
  destruct (Z.ltb_spec (domain_len a) (domain_len b)); [simpl; lia|].
  destruct (Z.ltb_spec (domain_len b) (domain_len a)).
  { intros _. destruct (Z.ltb_spec qlen (domain_len a)), (Z.ltb_spec (domain_len a) qlen),
      (Z.ltb_spec qlen (domain_len b)), (Z.ltb_spec (domain_len b) qlen); lia. }
  intros Hab. assert (hostname_order (domain a) (domain b) ≤ 0) as Hle.
  { revert Hab. destruct (Z.eqb_spec (hostname_order (domain a) (domain b)) 0); [lia|]. done. }
  assert (domain_len a = domain_len b) as -> by lia.
  destruct (qlen <? domain_len b); [lia|]. destruct (domain_len b <? qlen); [lia|].
  pose proof (hostname_order_lt_le q (domain a) (domain b) Hq Da Db).
  pose proof (hostname_order_trans q (domain a) (domain b) Hq Da Db). lia.
Qed.

Lemma order_servers_antisym a b :
  wf_server a → wf_server b → order_servers b a = - order_servers a b.
Proof.
  intros [Da La _] [Db Lb _]. unfold order_servers, order.
  destruct (sflag a SERV_FOR_NODOTS), (sflag b SERV_FOR_NODOTS); try done.
  destruct (Z.ltb_spec (domain_len a) (domain_len b)), (Z.ltb_spec (domain_len b) (domain_len a)); try (done || lia).
  rewrite (hostname_order_antisym (domain a) (domain b)) by done.
  destruct (Z.eqb_spec (hostname_order (domain a) (domain b)) 0) as [E|E].
  - rewrite E. by destruct (sflag a SERV_WILDCARD), (sflag b SERV_WILDCARD).
  - by destruct (Z.eqb_spec (- hostname_order (domain a) (domain b)) 0); [lia|].
Qed.

(** Equality of servers: the same group. *)
Lemma order_servers_0 a b :
  wf_server a → wf_server b →
  order_servers a b = 0 ↔
  (sflag a SERV_FOR_NODOTS = true ∧ sflag b SERV_FOR_NODOTS = true) ∨
  (sflag a SERV_FOR_NODOTS = false ∧ sflag b SERV_FOR_NODOTS = false ∧
   domain_len a = domain_len b ∧ hostname_order (domain a) (domain b) = 0 ∧
   sflag a SERV_WILDCARD = sflag b SERV_WILDCARD).
Proof.
  intros [Da La _] [Db Lb _]. unfold order_servers, order.
  destruct (sflag a SERV_FOR_NODOTS), (sflag b SERV_FOR_NODOTS); [naive_solver..|].
  destruct (Z.ltb_spec (domain_len a) (domain_len b)), (Z.ltb_spec (domain_len b) (domain_len a)); try (simpl; naive_solver lia).
  destruct (Z.eqb_spec (hostname_order (domain a) (domain b)) 0) as [E|E]; simpl; [|naive_solver].
  destruct (sflag a SERV_WILDCARD), (sflag b SERV_WILDCARD); naive_solver lia.
Qed.

Lemma order_servers_trans a b c :
  wf_server a → wf_server b → wf_server c →
  order_servers a b ≤ 0 → order_servers b c ≤ 0 → order_servers a c ≤ 0.
Proof.
  intros [Da La _] [Db Lb _] [Dc Lc _]. unfold order_servers, order.
  destruct (sflag a SERV_FOR_NODOTS), (sflag b SERV_FOR_NODOTS), (sflag c SERV_FOR_NODOTS); try (simpl; lia).
  pose proof (hostname_order_lt_le _ _ _ Da Db Dc). pose proof (hostname_order_trans _ _ _ Da Db Dc).
  pose proof (hostname_order_trans _ _ _ Dc Da Db). pose proof (hostname_order_trans _ _ _ Db Dc Da).
  pose proof (hostname_order_antisym _ _ Da Db). pose proof (hostname_order_antisym _ _ Da Dc).
  pose proof (hostname_order_antisym _ _ Db Dc).
  destruct (Z.ltb_spec (domain_len a) (domain_len b)), (Z.ltb_spec (domain_len b) (domain_len a)),
    (Z.ltb_spec (domain_len b) (domain_len c)), (Z.ltb_spec (domain_len c) (domain_len b)),
    (Z.ltb_spec (domain_len a) (domain_len c)), (Z.ltb_spec (domain_len c) (domain_len a)); try (simpl; lia).
  destruct (sflag a SERV_WILDCARD), (sflag b SERV_WILDCARD), (sflag c SERV_WILDCARD);
    repeat match goal with |- context [negb (?x =? 0)] => destruct (Z.eqb_spec x 0) end; simpl; lia.
Qed.

Lemma order_servers_trans_0 a b c :
  wf_server a → wf_server b → wf_server c →
  order_servers a b = 0 → order_servers b c = 0 → order_servers a c = 0.
Proof.
  intros Ha Hb Hc E1 E2. pose proof (order_servers_trans a b c Ha Hb Hc).
  pose proof (order_servers_trans c b a Hc Hb Ha).
  pose proof (order_servers_antisym a b Ha Hb). pose proof (order_servers_antisym b c Hb Hc).
  pose proof (order_servers_antisym a c Ha Hc). lia.
Qed.

(** Equal keys agree on being literal. *)
Lemma kind_key_literal a b : kind_key a = kind_key b → sflag a SERV_LITERAL_ADDRESS = sflag b SERV_LITERAL_ADDRESS.
Proof.
  unfold kind_key, sflag, flag. intros E. apply (f_equal (λ x, Z.lxor x SERV_LITERAL_ADDRESS)) in E.
  rewrite !Z.lxor_assoc, !Z.lxor_nilpotent, !Z.lxor_0_r in E.
  change SERV_LITERAL_ADDRESS with (Z.land kind_mask 1). by rewrite !Z.land_assoc, E.
Qed.

Lemma order_qsort_antisym a b :
  wf_server a → wf_server b → order_qsort b a = - order_qsort a b.
Proof.
  intros Ha Hb. unfold order_qsort. rewrite (order_servers_antisym a b Ha Hb).
  destruct (Z.eqb_spec (order_servers a b) 0) as [->|E].
  - simpl. destruct (Z.eq_dec (kind_key a) (kind_key b)) as [Ek|Ek].
    + rewrite Ek, Z.sub_diag. simpl. rewrite (kind_key_literal a b Ek). destruct (sflag b SERV_LITERAL_ADDRESS); simpl; lia.
    + replace (kind_key b - kind_key a =? 0) with false by lia.
      replace (kind_key a - kind_key b =? 0) with false by lia. lia.
  - replace (- order_servers a b =? 0) with false by lia. cbn [negb].
    replace (order_servers a b =? 0) with false by lia. replace (- order_servers a b =? 0) with false by lia. done.
Qed.

(** Lexicographic: first the group, then the kind, then the serial number of
    the servers that are not literal. *)
Lemma order_qsort_le a b :
  order_qsort a b ≤ 0 ↔
  order_servers a b < 0 ∨
  (order_servers a b = 0 ∧
   (kind_key b < kind_key a ∨
    (kind_key b = kind_key a ∧ (sflag a SERV_LITERAL_ADDRESS = true ∨ serial a ≤ serial b)))).
Proof.
  unfold order_qsort. destruct (Z.eqb_spec (order_servers a b) 0) as [->|E].
  - destruct (Z.eqb_spec (kind_key b - kind_key a) 0).
    + destruct (sflag a SERV_LITERAL_ADDRESS); simpl; naive_solver lia.
    + naive_solver lia.
  - destruct (Z.eqb_spec (order_servers a b) 0); [done|]. lia.
Qed.

Lemma order_qsort_trans a b c :
  wf_server a → wf_server b → wf_server c →
  order_qsort a b ≤ 0 → order_qsort b c ≤ 0 → order_qsort a c ≤ 0.
Proof.
  intros Ha Hb Hc. rewrite !order_qsort_le.
  pose proof (order_servers_trans a b c Ha Hb Hc) as T1.
  pose proof (order_servers_trans b c a Hb Hc Ha) as T2.
  pose proof (order_servers_trans c a b Hc Ha Hb) as T3.
  pose proof (order_servers_antisym a b Ha Hb). pose proof (order_servers_antisym b c Hb Hc).
  pose proof (order_servers_antisym a c Ha Hc).
  pose proof (λ E : kind_key b = kind_key a, kind_key_literal b a E) as K.
  intros [Q1|[Q1 K1]] [Q2|[Q2 K2]]; [left; lia|left; lia|left; lia|].
  right. split; [by apply (order_servers_trans_0 a b c)|]. destruct K1 as [K1|[E1 K1]], K2 as [K2|[E2 K2]]; [left; lia|left; lia|left; lia|].
  right. split; [lia|]. specialize (K E1). rewrite K in K2. destruct K1, K2; auto. right. lia.
Qed.

(** The comparison function given to qsort is a total preorder on servers:
    swapping its arguments negates it and it is transitive, so the sorted
    array is well defined up to equivalent servers. *)
Theorem order_qsort_preorder a b c :
  wf_server a → wf_server b → wf_server c →
  order_qsort b a = - order_qsort a b ∧
  (order_qsort a b ≤ 0 → order_qsort b c ≤ 0 → order_qsort a c ≤ 0).
Proof.
  intros Ha Hb Hc. split; [by apply order_qsort_antisym|by apply order_qsort_trans].
Qed.

Lemma order_qsort_preorder_witness :
  order_qsort (Server 1 0 3 [99; 111; 109] 0 0 0 []) (Server 2 0 0 [] 1 0 0 []) =
  - order_qsort (Server 2 0 0 [] 1 0 0 []) (Server 1 0 3 [99; 111; 109] 0 0 0 []).
Proof.
  apply (order_qsort_preorder (Server 2 0 0 [] 1 0 0 []) (Server 1 0 3 [99; 111; 109] 0 0 0 []) (Server 2 0 0 [] 1 0 0 []));
    split; try done; repeat constructor; lia.
Defined.

Section array.
Context (arr : list server).
Hypothesis (Hwf : Forall wf_server arr).
Hypothesis (Hsorted : StronglySorted (λ a b, order_servers a b ≤ 0) arr).

Lemma arr_wf i s : arr !! i = Some s → wf_server s.
Proof. intros H. by eapply Forall_lookup_1. Qed.

Lemma arr_sorted i j a b : (i ≤ j)%nat → arr !! i = Some a → arr !! j = Some b → order_servers a b ≤ 0.
Proof.
  intros Hij Ha Hb. destruct (decide (i = j)) as [->|Hne].
  { rewrite Ha in Hb. injection Hb as <-.
    pose proof (order_servers_antisym a a (arr_wf _ _ Ha) (arr_wf _ _ Ha)). lia. }
  assert (i < j)%nat as Hlt by lia. clear Hij Hne Hwf. revert i j Ha Hb Hlt.
  induction Hsorted as [|x l Hs IH Hall]; intros [|i] [|j] Ha Hb Hlt; simpl in *; try lia; try done.
  - simplify_eq. rewrite Forall_forall in Hall. apply Hall. by eapply list_elem_of_lookup_2.
  - apply (IH Hs i j); [done|done|lia].
Qed.

(** Lengths do not grow along the array. *)
Lemma arr_lengths i j a b :
  (i ≤ j)%nat → arr !! i = Some a → arr !! j = Some b →
  sflag a SERV_FOR_NODOTS = false → domain_len b ≤ domain_len a.
Proof.
  intros Hij Ha Hb Hn. pose proof (arr_sorted i j a b Hij Ha Hb) as Hs.
  pose proof (ws_nodots b (arr_wf _ _ Hb)) as Hz. pose proof (ws_len a (arr_wf _ _ Ha)) as Hl.
  pose proof (zlen_nonneg (domain a)). unfold strlen in Hl.
  unfold order_servers, order in Hs. rewrite Hn in Hs.
  destruct (sflag b SERV_FOR_NODOTS); [lia|].
  destruct (Z.ltb_spec (domain_len a) (domain_len b)); [simpl in Hs; lia|lia].
Qed.

(** Servers after one for dotless names are for dotless names. *)
Lemma arr_nodots i j a b :
  (i ≤ j)%nat → arr !! i = Some a → arr !! j = Some b →
  sflag a SERV_FOR_NODOTS = true → sflag b SERV_FOR_NODOTS = true.
Proof.
  intros Hij Ha Hb Hn. pose proof (arr_sorted i j a b Hij Ha Hb) as Hs.
  unfold order_servers in Hs. rewrite Hn in Hs. destruct (sflag b SERV_FOR_NODOTS); [done|lia].
Qed.

Lemma at_lookup i s : arr !! i = Some s → at_ arr i = Ok s.
Proof. unfold at_. by intros ->. Qed.

(** * Groups *)

Definition same_group (i j : nat) : Prop :=
  ∃ a b, arr !! i = Some a ∧ arr !! j = Some b ∧ order_servers a b = 0.

Lemma same_group_sym i j : same_group i j → same_group j i.
Proof.
  intros (a & b & Ha & Hb & E). exists b, a. split_and!; [done..|].
  rewrite (order_servers_antisym a b) by (by eapply arr_wf). lia.
Qed.
Lemma same_group_trans i j k : same_group i j → same_group j k → same_group i k.
Proof.
  intros (a & b & Ha & Hb & E) (b' & c & Hb' & Hc & E'). rewrite Hb in Hb'. injection Hb' as <-.
  exists a, c. split_and!; [done..|]. apply (order_servers_trans_0 a b c); try done; by eapply arr_wf.
Qed.
Lemma same_group_refl i : (i < length arr)%nat → same_group i i.
Proof.
  intros [a Ha]%lookup_lt_is_Some_2. exists a, a. split_and!; [done..|].
  pose proof (order_servers_antisym a a (arr_wf _ _ Ha) (arr_wf _ _ Ha)). lia.
Qed.
(** What lies between two members of a group is in it. *)
Lemma same_group_between i j k : (i ≤ k ≤ j)%nat → same_group i j → same_group i k.
Proof.
  intros Hk (a & b & Ha & Hb & E). destruct (lookup_lt_is_Some_2 arr k) as [c Hc].
  { apply lookup_lt_Some in Hb. lia. }
  exists a, c. split_and!; [done..|]. pose proof (arr_sorted i k a c ltac:(lia) Ha Hc).
  pose proof (arr_sorted k j c b ltac:(lia) Hc Hb) as H2.
  pose proof (order_servers_trans c b a (arr_wf _ _ Hc) (arr_wf _ _ Hb) (arr_wf _ _ Ha) H2).
  pose proof (order_servers_antisym a b (arr_wf _ _ Ha) (arr_wf _ _ Hb)).
  pose proof (order_servers_antisym a c (arr_wf _ _ Ha) (arr_wf _ _ Hc)). lia.
Qed.

Lemma group_low_spec i :
  (i < length arr)%nat →
  ∃ l, group_low arr i = Ok l ∧ (l ≤ i)%nat ∧ same_group l i ∧ ∀ k, (k < l)%nat → ¬ same_group k i.
Proof.
  induction i as [|n IH]; intros Hi.
  { exists 0%nat. split_and!; [done|done|by apply same_group_refl|lia]. }
  destruct (lookup_lt_is_Some_2 arr n) as [a Ha]; [lia|]. destruct (lookup_lt_is_Some_2 arr (S n)) as [b Hb]; [lia|].
  cbn [group_low]. rewrite (at_lookup _ _ Ha), (at_lookup _ _ Hb). cbn [mbind res_bind].
  destruct (Z.eqb_spec (order_servers a b) 0) as [E|E].
  - destruct IH as (l & -> & Hl & Hg & Hk); [lia|]. assert (same_group n (S n)) as Hn by (by exists a, b).
    exists l. split_and!; [done|lia|by eapply same_group_trans|].
    intros k Hkl Hks. apply (Hk k Hkl). eapply same_group_trans; [done|]. by apply same_group_sym.
  - exists (S n). split_and!; [done|done|by apply same_group_refl|].
    intros k Hk Hks. apply E. pose proof (same_group_between k (S n) n ltac:(lia) Hks) as Hkn.
    assert (same_group n (S n)) as (a' & b' & Ha' & Hb' & E').
    { eapply same_group_trans; [by apply same_group_sym|done]. }
    by simplify_eq.
Qed.

Lemma group_high_spec fuel i :
  (i < length arr)%nat → (length arr - i ≤ fuel)%nat →
  ∃ h, group_high fuel arr i = Ok h ∧ (i ≤ h < length arr)%nat ∧ same_group i h ∧
    ∀ k, (h < k)%nat → ¬ same_group i k.
Proof.
  revert i. induction fuel as [|fuel IH]; intros i Hi Hf; [lia|]. cbn [group_high].
  destruct (Nat.ltb_spec (S i) (length arr)) as [Hlt|Hge].
  - destruct (lookup_lt_is_Some_2 arr i Hi) as [a Ha]. destruct (lookup_lt_is_Some_2 arr (S i) Hlt) as [b Hb].
    rewrite (at_lookup _ _ Ha), (at_lookup _ _ Hb). cbn [mbind res_bind].
    destruct (Z.eqb_spec (order_servers a b) 0) as [E|E].
    + destruct (IH (S i)) as (h & -> & Hh & Hg & Hk); [lia..|]. assert (same_group i (S i)) as Hn by (by exists a, b).
      exists h. split_and!; [done|lia|lia|by eapply same_group_trans|].
      intros k Hkl Hks. apply (Hk k Hkl). eapply same_group_trans; [by apply same_group_sym|done].
    + exists i. split_and!; [done|lia|lia|by apply same_group_refl|].
      intros k Hk Hks. apply E. pose proof (same_group_between i k (S i) ltac:(lia) Hks) as (a' & b' & Ha' & Hb' & E').
      by simplify_eq.
  - exists i. split_and!; [done|lia|lia|by apply same_group_refl|].
    intros k Hk (a & b & Ha & Hb & _). apply lookup_lt_Some in Hb. lia.
Qed.

(** The selection does not depend on which member of the group it starts at. *)
Lemma filter_servers_group i j fl :
  (i < length arr)%nat → same_group i j → filter_servers arr i fl = filter_servers arr j fl.
Proof.
  intros Hi Hg. assert (j < length arr)%nat as Hj by (destruct Hg as (? & ? & _ & ?%lookup_lt_Some & _); done).
  unfold filter_servers.
  destruct (group_low_spec i Hi) as (l & -> & Hl & Gl & Kl). destruct (group_low_spec j Hj) as (l' & -> & Hl' & Gl' & Kl').
  destruct (group_high_spec (length arr) i Hi) as (h & -> & Hh & Gh & Kh); [lia|].
  destruct (group_high_spec (length arr) j Hj) as (h' & -> & Hh' & Gh' & Kh'); [lia|].
  assert (l = l') as ->.
  { destruct (Nat.lt_trichotomy l l') as [H|[H|H]]; [|done|].
    - destruct (Kl' l H). exact (same_group_trans _ _ _ Gl Hg).
    - destruct (Kl l' H). exact (same_group_trans _ _ _ Gl' (same_group_sym _ _ Hg)). }
  assert (h = h') as ->; [|done].
  destruct (Nat.lt_trichotomy h h') as [H|[H|H]]; [|done|].
  - destruct (Kh h' H). exact (same_group_trans _ _ _ Hg Gh').
  - destruct (Kh' h H). exact (same_group_trans _ _ _ (same_group_sym _ _ Hg) Gh).
Qed.

(** * The binary search *)

Section query.
Context (q : cstring) (qlen : Z).
Hypothesis (Hq : wf_cstring q) (Hqlen : 0 ≤ qlen).

Lemma order_after i j a b :
  (i ≤ j)%nat → arr !! i = Some a → arr !! j = Some b →
  (order q qlen a ≤ 0 → order q qlen b ≤ 0) ∧ (order q qlen a < 0 → order q qlen b < 0).
Proof.
  intros Hij Ha Hb. apply order_mono; [done|by eapply arr_wf|by eapply arr_wf|by eapply arr_sorted].
Qed.

(** A server that sorts before the query is at least as long, one that sorts
    after it at most. *)
Lemma order_pos s : 0 < order q qlen s → sflag s SERV_FOR_NODOTS = false ∧ qlen ≤ domain_len s.
Proof.
  unfold order. destruct (sflag s SERV_FOR_NODOTS); [lia|]. intros H. split; [done|].
  destruct (Z.ltb_spec qlen (domain_len s)); [lia|]. destruct (Z.ltb_spec (domain_len s) qlen); lia.
Qed.
Lemma order_neg i s : arr !! i = Some s → order q qlen s < 0 → domain_len s ≤ qlen.
Proof.
  intros Hs. unfold order. destruct (sflag s SERV_FOR_NODOTS) eqn:En.
  { rewrite (ws_nodots s) by (done || by eapply arr_wf). lia. }
  destruct (Z.ltb_spec qlen (domain_len s)); [lia|]. intros _. done.
Qed.

(** What cropping [crop] characters may not skip: a domain shorter than the
    query. *)
Definition gap (crop : Z) : Prop :=
  0 ≤ crop ∧ ∀ i s, arr !! i = Some s → sflag s SERV_FOR_NODOTS = false → domain_len s < qlen →
    domain_len s ≤ qlen - (if crop =? 0 then 1 else crop).

Lemma gap_1 : gap 1.
Proof. split; [lia|]. intros i s _ _ H. simpl. lia. Qed.

(** The search ended just before [k], whose server has a smaller length than
    those before. *)
Lemma gap_at k s :
  arr !! k = Some s → order q qlen s < 0 →
  (∀ i a, (i < k)%nat → arr !! i = Some a → sflag a SERV_FOR_NODOTS = false → qlen ≤ domain_len a) →
  gap (qlen - domain_len s).
Proof.
  intros Hs Ho Hbefore. pose proof (order_neg k s Hs Ho). split; [lia|].
  intros i a Ha Hn Hlt. destruct (Nat.lt_ge_cases i k) as [Hi|Hi].
  { specialize (Hbefore i a Hi Ha Hn). lia. }
  assert (sflag s SERV_FOR_NODOTS = false) as Hns.
  { destruct (sflag s SERV_FOR_NODOTS) eqn:E; [|done].
    pose proof (arr_nodots k i s a Hi Hs Ha E). congruence. }
  pose proof (arr_lengths k i s a Hi Hs Ha Hns). destruct (Z.eqb_spec (qlen - domain_len s) 0); lia.
Qed.

Lemma next_length_gap k old :
  qlen ≤ old → (k ≤ length arr)%nat →
  (∀ i a, (i < k)%nat → arr !! i = Some a → sflag a SERV_FOR_NODOTS = false → qlen ≤ domain_len a) →
  (∀ i a, (k ≤ i)%nat → arr !! i = Some a → order q qlen a < 0) →
  gap (next_length qlen old (drop k arr)).
Proof.
  intros Hold Hk. remember (length arr - k)%nat as n eqn:En. revert k Hk En.
  induction n as [|n IH]; intros k Hk En Hbefore Hafter.
  { rewrite drop_ge by lia. apply gap_1. }
  destruct (lookup_lt_is_Some_2 arr k) as [s Hs]; [lia|]. rewrite (drop_S _ _ _ Hs). cbn [next_length].
  destruct (Z.eqb_spec old (domain_len s)) as [E|E]; cbn [negb].
  - apply IH; [lia|lia| |].
    + intros i a Hi Ha Hn. destruct (decide (i = k)) as [->|Hne]; [|apply (Hbefore i); [lia|done..]].
      rewrite Hs in Ha. injection Ha as <-. lia.
    + intros i a Hi. apply Hafter. lia.
  - apply (gap_at k); [done|by apply (Hafter k)|done].
Qed.

Definition above (low : nat) : Prop := ∀ i s, (i < low)%nat → arr !! i = Some s → 0 < order q qlen s.

Lemma bsearch_spec fuel low high :
  (low ≤ high ≤ length arr)%nat → (low < length arr)%nat → (high - low < fuel)%nat →
  above low → (∀ i s, (high ≤ i)%nat → arr !! i = Some s → order q qlen s < 0) →
  ∃ r low' crop, bsearch fuel arr q qlen low high = Ok (r, low', crop) ∧ (low' < length arr)%nat ∧ above low' ∧
    gap crop ∧
    match r with
    | Some try => ∃ s, arr !! try = Some s ∧ order q qlen s = 0
    | None => ∀ i s, arr !! i = Some s → order q qlen s ≠ 0
    end.
Proof.
  revert low high. induction fuel as [|fuel IH]; intros low high Hlh Hl Hf Ha Hb; [lia|]. cbn [bsearch].
  set (try := ((low + high) / 2)%nat).
  assert (low ≤ try ≤ high)%nat as Ht.
  { pose proof (Nat.div_mod (low + high) 2). pose proof (Nat.mod_upper_bound (low + high) 2). unfold try. lia. }
  assert (try < length arr)%nat as Htl.
  { pose proof (Nat.div_mod (low + high) 2). pose proof (Nat.mod_upper_bound (low + high) 2). unfold try. lia. }
  destruct (lookup_lt_is_Some_2 arr try Htl) as [s Hs]. rewrite (at_lookup _ _ Hs). cbn [mbind res_bind].
  destruct (Z.eqb_spec (order q qlen s) 0) as [E0|E0].
  { eexists _, _, _. refine (conj eq_refl (conj Hl (conj Ha (conj gap_1 _)))). by exists s. }
  destruct (Z.ltb_spec (order q qlen s) 0) as [Eneg|Epos].
  - assert (∀ i a, (try ≤ i)%nat → arr !! i = Some a → order q qlen a < 0) as Hb'.
    { intros i a Hi Hai. by apply (order_after try i s a). }
    destruct (Nat.eqb_spec high try) as [Eh|Eh].
    + assert (low = try) as El.
      { pose proof (Nat.div_mod (low + high) 2). pose proof (Nat.mod_upper_bound (low + high) 2). unfold try in *. lia. }
      eexists _, _, _. refine (conj eq_refl (conj Hl (conj Ha (conj _ _)))).
      * apply (gap_at try); [done..|]. intros i a Hi Hai _. apply order_pos. apply (Ha i); [lia|done].
      * intros i a Hai. destruct (Nat.lt_ge_cases i low) as [Hi|Hi].
        -- specialize (Ha i a Hi Hai). lia.
        -- specialize (Hb' i a). rewrite <- El in Hb'. specialize (Hb' Hi Hai). lia.
    + apply IH; [lia|done|lia|done|done].
  - assert (above (S try)) as Ha'.
    { intros i a Hi Hai. destruct (Z.lt_ge_cases 0 (order q qlen a)) as [|Hle]; [done|].
      pose proof (order_after i try a s ltac:(lia) Hai Hs). lia. }
    destruct (Nat.eqb_spec low try) as [El|El].
    + assert (high = S low) as Eh.
      { assert (high ≠ low) by (intros ->; specialize (Hb try s ltac:(lia) Hs); lia).
        pose proof (Nat.div_mod (low + high) 2). pose proof (Nat.mod_upper_bound (low + high) 2). unfold try in *. lia. }
      eexists _, _, _. refine (conj eq_refl (conj Hl (conj Ha (conj _ _)))).
      * apply next_length_gap; [by apply order_pos; lia|lia| |].
        -- intros i a Hi Hai _. by apply order_pos, (Ha' i).
        -- intros i a Hi. apply Hb. lia.
      * intros i a Hai. destruct (Nat.lt_ge_cases i (S try)) as [Hi|Hi].
        -- specialize (Ha' i a Hi Hai). lia.
        -- specialize (Hb i a ltac:(lia) Hai). lia.
    + apply IH; [lia|done|lia| |done]. intros i a Hi. apply Ha'. lia.
Qed.
End query.

(** * The selection stays in the group *)

Lemma run_length_le p l : (run_length p l ≤ length l)%nat.
Proof. induction l as [|s l IH]; simpl; [lia|]. destruct (p s); lia. Qed.

Lemma filter_group_le fl grp : (fst (filter_group fl grp) + snd (filter_group fl grp) ≤ length grp)%nat.
Proof.
  unfold filter_group. destruct (flag fl F_CONFIG); [destruct (existsb _ _); simpl; lia|].
  set (n6 := run_length _ grp). set (n4 := run_length _ (drop n6 grp)).
  set (nz := run_length _ (drop n4 (drop n6 grp))). set (grpr := drop nz (drop n4 (drop n6 grp))).
  set (nr := run_length (λ s, sflag s SERV_USE_RESOLV) grpr). set (ns := run_length _ grpr).
  assert (n6 + (n4 + (nz + length grpr)) = length grp)%nat as El.
  { assert (n6 ≤ length grp)%nat by apply run_length_le.
    assert (n4 ≤ length (drop n6 grp))%nat as H4 by apply run_length_le.
    assert (nz ≤ length (drop n4 (drop n6 grp)))%nat as Hz by apply run_length_le.
    unfold grpr. rewrite !length_drop in *. lia. }
  assert (nr ≤ length grpr)%nat by apply run_length_le. assert (ns ≤ length grpr)%nat by apply run_length_le.
  destruct (negb (n6 =? 0)%nat && flag fl F_IPV6); [simpl; lia|].
  destruct (negb (n4 =? 0)%nat && flag fl F_IPV4); [simpl; lia|].
  destruct (negb (nz =? 0)%nat && flag fl (Z.lor F_IPV4 F_IPV6)); [simpl; lia|].
  destruct (negb (nr =? 0)%nat); [simpl; lia|].
  destruct grpr as [|s r]; [simpl; simpl in El; lia|]. destruct (negb (ns =? 0)%nat).
  - destruct (flag fl F_DNSSECOK && _); [simpl; lia|]. destruct (flag fl F_DOMAINSRV && _); simpl in *; lia.
  - destruct (flag fl _); simpl in *; lia.
Qed.

Lemma filter_servers_spec seed fl :
  (seed < length arr)%nat →
  ∃ nlow nhigh, filter_servers arr seed fl = Ok (negb (nlow =? nhigh)%nat, nlow, nhigh) ∧
    (nlow ≤ nhigh ≤ length arr)%nat ∧ ∀ i, (nlow ≤ i < nhigh)%nat → same_group seed i.
Proof.
  intros Hs. unfold filter_servers.
  destruct (group_low_spec seed Hs) as (l & -> & Hl & Gl & _).
  destruct (group_high_spec (length arr) seed Hs) as (h & -> & Hh & Gh & _); [lia|]. cbn [mbind res_bind].
  set (grp := take (S h - l) (drop l arr)). pose proof (filter_group_le fl grp) as Hle.
  assert (length grp = S h - l)%nat as Eg by (unfold grp; rewrite length_take, length_drop; lia).
  destruct (filter_group fl grp) as [o n]. simpl in Hle. exists (l + o)%nat, (l + o + n)%nat. split_and!; [|lia|lia|].
  - do 3 f_equal. destruct (Nat.eqb_spec n 0), (Nat.eqb_spec (l + o) (l + o + n)); done || lia.
  - intros i Hi. destruct (Nat.lt_ge_cases i seed).
    + apply (same_group_trans _ l); [by apply same_group_sym|].
      apply (same_group_between l h); [lia|]. by apply (same_group_trans _ seed).
    + apply (same_group_between seed h); [lia|done].
Qed.

(** * The reference search *)

(** The indices of the servers that [order] says are for the query. *)
Definition matching (q : cstring) (qlen : Z) : list nat :=
  filter (λ i, (default 1 (order q qlen <$> arr !! i) =? 0) = true) (seq 0 (length arr)).

(** A suffix that starts a label, or is empty. *)
Definition label_start (name : cstring) (off : nat) : bool :=
  (off =? 0)%nat || (deref (drop off name) =? 0) || (deref (drop (off - 1) name) =? dot).

(** The server a suffix selects, if one does: at the start of a label the first
    that matches, elsewhere the last if it is a wildcard. *)
Definition seed_at (name : cstring) (off : nat) : option nat :=
  let ms := matching (drop off name) (strlen name - Z.of_nat off) in
  if label_start name off then head ms
  else i ← last ms; s ← arr !! i; if sflag s SERV_WILDCARD then Some i else None.

(** Every suffix, longest first, until one selects a usable group; once a group
    has said to use the default servers ([resolv]) only the empty suffix
    counts. *)
Fixpoint ref_loop (name : cstring) (fl : Z) (resolv : bool) (offs : list nat) (nlow nhigh : nat)
    : res (nat * nat) :=
  match offs with
  | [] => Ok (nlow, nhigh)
  | off :: offs =>
      match (if resolv && negb (off =? length name)%nat then None else seed_at name off) with
      | None => ref_loop name fl resolv offs nlow nhigh
      | Some seed =>
          '(ok, nlow, nhigh) ← filter_servers arr seed fl;
          if negb ok then ref_loop name fl resolv offs nlow nhigh
          else
            s ← at_ arr nlow;
            if sflag s SERV_USE_RESOLV then ref_loop name fl true offs nlow nhigh
            else Ok (nlow, nhigh)
      end
  end.

Lemma matching_spec q qlen i : i ∈ matching q qlen ↔ ∃ s, arr !! i = Some s ∧ order q qlen s = 0.
Proof.
  unfold matching. rewrite list_elem_of_filter, elem_of_seq. split.
  - intros [H _]. destruct (arr !! i) as [s|]; simpl in H; [|lia]. exists s. split; [done|lia].
  - intros (s & Hs & E). rewrite Hs. simpl. split; [lia|]. apply lookup_lt_Some in Hs. lia.
Qed.

Lemma matching_nil q qlen : (∀ i s, arr !! i = Some s → order q qlen s ≠ 0) → matching q qlen = [].
Proof.
  intros H. apply elem_of_nil_inv. intros i (s & Hs & E)%matching_spec. by apply (H i s).
Qed.

Lemma head_filter_seq (P : nat → Prop) `{!∀ x, Decision (P x)} n i :
  (i < n)%nat → P i → (∀ j, (j < i)%nat → ¬ P j) → head (filter P (seq 0 n)) = Some i.
Proof.
  intros Hi Hp Hn. replace n with (i + (n - i))%nat by lia. rewrite seq_app, filter_app.
  assert (filter P (seq 0 i) = []) as ->.
  { apply elem_of_nil_inv. intros j [Hj ?%elem_of_seq]%list_elem_of_filter. apply (Hn j); [lia|done]. }
  replace (n - i)%nat with (S (n - S i)) by lia. cbn [seq]. rewrite filter_cons_True by done. done.
Qed.

Lemma last_filter_seq (P : nat → Prop) `{!∀ x, Decision (P x)} n i :
  (i < n)%nat → P i → (∀ j, (i < j < n)%nat → ¬ P j) → last (filter P (seq 0 n)) = Some i.
Proof.
  intros Hi Hp Hn. replace n with (S i + (n - S i))%nat by lia. rewrite seq_app, filter_app.
  assert (filter P (seq (0 + S i) (n - S i)) = []) as ->.
  { apply elem_of_nil_inv. intros j [Hj ?%elem_of_seq]%list_elem_of_filter. apply (Hn j); [lia|done]. }
  rewrite app_nil_r, seq_S, filter_app. cbn [plus]. rewrite filter_cons_True by done.
  rewrite filter_nil. apply last_snoc.
Qed.

Section matches.
Context (q : cstring) (qlen : Z).
Hypothesis (Hq : wf_cstring q).

Definition hits (i : nat) : Prop := ∃ s, arr !! i = Some s ∧ order q qlen s = 0.

(** The servers that match are consecutive. *)
Lemma hits_between i j k : (i ≤ k ≤ j)%nat → hits i → hits j → hits k.
Proof.
  intros Hk (a & Ha & Ea) (b & Hb & Eb).
  destruct (lookup_lt_is_Some_2 arr k) as [c Hc]; [apply lookup_lt_Some in Hb; lia|].
  pose proof (order_after q qlen Hq i k a c ltac:(lia) Ha Hc).
  pose proof (order_after q qlen Hq k j c b ltac:(lia) Hc Hb). exists c. split; [done|lia].
Qed.

Lemma first_equal_spec try :
  hits try → ∃ i, first_equal arr q qlen try = Ok i ∧ (i ≤ try)%nat ∧ hits i ∧ head (matching q qlen) = Some i.
Proof.
  induction try as [|n IH]; intros Ht; cbn [first_equal].
  - exists 0%nat. split_and!; [done..|]. destruct Ht as (s & Hs & E).
    apply head_filter_seq; [by apply lookup_lt_Some in Hs| |lia]. rewrite Hs. simpl. lia.
  - destruct Ht as (s & Hs & E). assert (S n < length arr)%nat as Hl by (by apply lookup_lt_Some in Hs).
    destruct (lookup_lt_is_Some_2 arr n) as [a Ha]; [lia|]. rewrite (at_lookup _ _ Ha). cbn [mbind res_bind].
    destruct (Z.eqb_spec (order q qlen a) 0) as [Ea|Ea].
    + destruct IH as (i & -> & Hi & Hh & Hm); [by exists a|]. exists i. split_and!; [done|lia|done..].
    + exists (S n). split_and!; [done..|by exists s|]. apply head_filter_seq; [done|rewrite Hs; simpl; lia|].
      intros j Hj Hz. destruct (arr !! j) as [b|] eqn:Hb; simpl in Hz; [|lia].
      destruct (hits_between j (S n) n) as (a' & Ha' & Ea'); [lia|exists b; split; [done|lia]|by exists s|].
      rewrite Ha in Ha'. by injection Ha' as <-.
Qed.

Lemma last_equal_spec fuel try :
  hits try → (length arr - try ≤ fuel)%nat →
  ∃ i, last_equal fuel arr q qlen try = Ok i ∧ hits i ∧ last (matching q qlen) = Some i.
Proof.
  revert try. induction fuel as [|fuel IH]; intros try Ht Hf; pose proof Ht as (s & Hs & E);
    assert (try < length arr)%nat as Hl by (by apply lookup_lt_Some in Hs); [lia|]. cbn [last_equal].
  destruct (Nat.ltb_spec (S try) (length arr)) as [Hlt|Hge].
  - destruct (lookup_lt_is_Some_2 arr (S try) Hlt) as [a Ha]. rewrite (at_lookup _ _ Ha). cbn [mbind res_bind].
    destruct (Z.eqb_spec (order q qlen a) 0) as [Ea|Ea].
    + apply IH; [by exists a|lia].
    + exists try. split_and!; [done..|]. apply last_filter_seq; [done|rewrite Hs; simpl; lia|].
      intros j Hj Hz. destruct (arr !! j) as [b|] eqn:Hb; simpl in Hz; [|lia].
      destruct (hits_between try j (S try)) as (a' & Ha' & Ea'); [lia|done|exists b; split; [done|lia]|].
      rewrite Ha in Ha'. by injection Ha' as <-.
  - exists try. split_and!; [done..|]. apply last_filter_seq; [done|rewrite Hs; simpl; lia|lia].
Qed.

(** Without wildcards, the servers that match are one group. *)
Lemma hits_group i j :
  Forall (λ s, sflag s SERV_WILDCARD = false) arr → hits i → hits j → same_group i j.
Proof.
  intros Hw (a & Ha & Ea) (b & Hb & Eb). exists a, b. split_and!; [done..|].
  pose proof (Forall_lookup_1 _ _ _ _ Hw Ha) as Wa. pose proof (Forall_lookup_1 _ _ _ _ Hw Hb) as Wb. simpl in Wa, Wb.
  pose proof (arr_wf _ _ Ha) as [Da La _]. pose proof (arr_wf _ _ Hb) as [Db Lb _].
  unfold order in Ea, Eb. destruct (sflag a SERV_FOR_NODOTS) eqn:Na; [lia|].
  destruct (sflag b SERV_FOR_NODOTS) eqn:Nb; [lia|].
  destruct (Z.ltb_spec qlen (domain_len a)); [lia|]. destruct (Z.ltb_spec (domain_len a) qlen); [lia|].
  destruct (Z.ltb_spec qlen (domain_len b)); [lia|]. destruct (Z.ltb_spec (domain_len b) qlen); [lia|].
  assert (hostname_order (domain a) (domain b) = 0) as Eab.
  { pose proof (hostname_order_antisym q (domain a) Hq Da).
    pose proof (hostname_order_antisym (domain a) (domain b) Da Db).
    pose proof (hostname_order_antisym q (domain b) Hq Db).
    pose proof (hostname_order_trans (domain a) q (domain b) Da Hq Db).
    pose proof (hostname_order_trans (domain b) q (domain a) Db Hq Da). lia. }
  unfold order_servers, order. rewrite Na, Nb, Wa, Wb, Eab.
  rewrite (proj2 (Z.ltb_ge (domain_len a) (domain_len b))) by lia.
  rewrite (proj2 (Z.ltb_ge (domain_len b) (domain_len a))) by lia. done.
Qed.
End matches.

(** * The loop agrees with the reference *)

Section name.
Context (name : cstring) (fl : Z) (wild : bool).
Hypothesis (Hname : wf_cstring name).
Hypothesis (no_wildcards : wild = false → Forall (λ s, sflag s SERV_WILDCARD = false) arr).
Abbreviation L := (length name).
Abbreviation rest off := (Z.of_nat L - Z.of_nat off).
Abbreviation offsets off := (seq off (S L - off)).

Lemma wf_drop off : wf_cstring (drop off name).
Proof. by apply Forall_drop. Qed.

Lemma deref_drop off : (off < L)%nat → 1 ≤ deref (drop off name).
Proof.
  intros [c Hc]%lookup_lt_is_Some_2. rewrite (drop_S _ _ _ Hc). pose proof (Forall_lookup_1 _ _ _ _ Hname Hc). simpl in *. lia.
Qed.

Lemma seed_at_nil off : matching (drop off name) (rest off) = [] → seed_at name off = None.
Proof. intros E. unfold seed_at, strlen, zlen. rewrite E. by destruct (label_start name off). Qed.

Lemma seed_at_unstarted off : wild = false → label_start name off = false → seed_at name off = None.
Proof.
  intros Hw Hl. unfold seed_at. rewrite Hl. destruct (last _) as [i|]; [|done]. simpl.
  destruct (arr !! i) as [s|] eqn:Hs; [|done]. simpl.
  by rewrite (Forall_lookup_1 _ _ _ _ (no_wildcards Hw) Hs).
Qed.

Lemma next_label_spec fuel off :
  (1 ≤ off)%nat → rest off ≤ Z.of_nat fuel →
  ∃ off', next_label fuel name off (rest off) = (off', rest off') ∧ (off ≤ off')%nat ∧
    (∀ o, (off ≤ o < off')%nat → (o < L)%nat ∧ label_start name o = false) ∧
    ((off' ≤ L)%nat → label_start name off' = true).
Proof.
  revert off. induction fuel as [|fuel IH]; intros off Ho Hf; cbn [next_label].
  { exists off. split_and!; [done..|lia|]. intros H. unfold label_start.
    rewrite drop_ge by lia. simpl. by rewrite orb_true_r. }
  destruct (Z.ltb_spec 0 (rest off)) as [Hr|Hr]; cbn [andb].
  - destruct (Z.eqb_spec (deref (drop (off - 1) name)) dot) as [E|E]; cbn [negb].
    + exists off. split_and!; [done..|lia|]. intros _. unfold label_start. rewrite E. by rewrite orb_true_r.
    + replace (rest off - 1) with (rest (S off)) by lia.
      destruct (IH (S off)) as (off' & -> & H1 & H2 & H3); [lia..|].
      exists off'. split_and!; [done|lia| |done]. intros o Hoo.
      destruct (decide (o = off)) as [->|]; [|apply H2; lia]. split; [lia|]. unfold label_start.
      pose proof (deref_drop off ltac:(lia)). rewrite (proj2 (Nat.eqb_neq off 0)) by lia.
      rewrite (proj2 (Z.eqb_neq _ 0)) by lia. by rewrite (proj2 (Z.eqb_neq _ dot)).
  - exists off. split_and!; [done..|lia|]. intros H. unfold label_start.
    rewrite drop_ge by lia. simpl. by rewrite orb_true_r.
Qed.

Definition step (crop : Z) : nat := Z.to_nat (if crop =? 0 then 1 else crop).

Lemma crop_query_spec off crop :
  0 ≤ crop →
  ∃ off', crop_query wild name off (rest off) crop = (off', rest off') ∧ (off + step crop ≤ off')%nat ∧
    (off < off')%nat ∧
    (∀ o, (off + step crop ≤ o < off')%nat → (o < L)%nat ∧ seed_at name o = None) ∧
    (wild = false → (off' ≤ L)%nat → label_start name off' = true).
Proof.
  intros Hc. unfold crop_query. fold (step crop).
  assert (1 ≤ step crop)%nat as H1 by (unfold step; destruct (Z.eqb_spec crop 0); lia).
  replace (rest off - (if crop =? 0 then 1 else crop)) with (rest (off + step crop))
    by (unfold step; destruct (Z.eqb_spec crop 0); lia).
  destruct (sumbool_of_bool wild) as [Ew|Ew]; rewrite Ew.
  - exists (off + step crop)%nat. split_and!; [done|lia|lia|lia|done].
  - destruct (next_label_spec L (off + step crop)) as (off' & -> & Q1 & Q2 & Q3); [lia|lia|].
    exists off'. split_and!; [done|lia|lia| |done].
    intros o Ho. destruct (Q2 o Ho) as [? Hs]. split; [done|]. by apply seed_at_unstarted.
Qed.

(** Suffixes that select nothing can be passed over. *)
Lemma ref_skip rs off off' a b :
  (off ≤ off')%nat →
  (∀ o, (off ≤ o < off')%nat → (o ≤ L)%nat → (rs = true ∧ o ≠ L) ∨ seed_at name o = None) →
  ref_loop name fl rs (offsets off) a b = ref_loop name fl rs (offsets off') a b.
Proof.
  intros Hle. remember (off' - off)%nat as n eqn:En. revert off Hle En.
  induction n as [|n IH]; intros off Hle En Hs; [by replace off' with off by lia|].
  destruct (decide (off ≤ L)%nat) as [Ho|Ho].
  - replace (S L - off)%nat with (S (S L - S off)) by lia. cbn [seq ref_loop].
    assert ((if rs && negb (off =? L)%nat then None else seed_at name off) = None) as ->.
    { destruct (Hs off) as [[-> Hn]|E]; [lia..| |].
      - by rewrite (proj2 (Nat.eqb_neq off L)).
      - rewrite E. by destruct (_ && _). }
    apply IH; [lia..|]. intros o Hoo. apply Hs. lia.
  - by replace (S L - off)%nat with 0%nat by lia; replace (S L - off')%nat with 0%nat by lia.
Qed.

Lemma ref_resolv_end a b rs off : (L ≤ off)%nat → ref_loop name fl rs (offsets off) a b = ref_loop name fl false (offsets off) a b.
Proof.
  intros Ho. destruct (decide (off = L)) as [->|].
  - replace (S L - L)%nat with 1%nat by lia. cbn [seq ref_loop]. by rewrite Nat.eqb_refl, andb_false_r.
  - by replace (S L - off)%nat with 0%nat by lia.
Qed.

(** What the tests after the binary search select is the reference's choice. *)
Lemma turn_seed off try :
  (wild = false → label_start name off = true) → hits (drop off name) (rest off) try →
  ∃ found try', (if wild then wildcard_match_at arr name off (rest off) try else Ok (true, try)) = Ok (found, try') ∧
    if found : bool then (try' < length arr)%nat ∧
      ∃ i, seed_at name off = Some i ∧ filter_servers arr try' fl = filter_servers arr i fl
    else seed_at name off = None.
Proof.
  intros Hl Ht. destruct (first_equal_spec _ _ (wf_drop off) try Ht) as (i & Ei & Hi & Hhi & Hm).
  assert (∀ k, hits (drop off name) (rest off) k → k < length arr)%nat as Hlt.
  { intros k (s & Hs & _). by apply lookup_lt_Some in Hs. }
  unfold seed_at, strlen, zlen. destruct (sumbool_of_bool wild) as [Ew|Ew]; rewrite Ew.
  - unfold wildcard_match_at. rewrite Ei. cbn [mbind res_bind]. fold (label_start name off).
    destruct (label_start name off).
    { exists true, i. split_and!; [done|by apply Hlt|by exists i]. }
    destruct (last_equal_spec _ _ (wf_drop off) (length arr) i Hhi) as (j & -> & Hhj & ->); [lia|].
    destruct Hhj as (s & Hs & E). cbn [mbind res_bind option_bind].
    rewrite (at_lookup _ _ Hs), Hs. simpl.
    exists (sflag s SERV_WILDCARD), j. split; [done|]. destruct (sflag s SERV_WILDCARD); [|done].
    split; [by apply lookup_lt_Some in Hs|by exists j].
  - exists true, try. split; [done|]. split; [by apply Hlt|]. rewrite Hl by done. exists i. split; [done|].
    apply filter_servers_group; [by apply Hlt|].
    apply (hits_group (drop off name) (rest off)); [apply wf_drop|by apply no_wildcards|done|done].
Qed.

Lemma above_shorter off off' low :
  (off < off')%nat → above (drop off name) (rest off) low → above (drop off' name) (rest off') low.
Proof.
  intros Ho Ha i s Hi Hs. destruct (order_pos _ _ _ (Ha i s Hi Hs)) as [Hn Hl]. unfold order.
  rewrite Hn, (proj2 (Z.ltb_lt (rest off') (domain_len s))) by lia. lia.
Qed.

(** The cropped suffixes select nothing. *)
Lemma gap_seed off crop o :
  gap (rest off) crop → (off < o < off + step crop)%nat → (o ≤ L)%nat → seed_at name o = None.
Proof.
  intros [Hc Hg] Ho Hle. apply seed_at_nil, matching_nil. intros i s Hs E. unfold order in E.
  destruct (sflag s SERV_FOR_NODOTS) eqn:Hn; [lia|]. destruct (Z.ltb_spec (rest o) (domain_len s)); [lia|].
  destruct (Z.ltb_spec (domain_len s) (rest o)); [lia|]. specialize (Hg i s Hs Hn).
  unfold step in Ho. destruct (Z.eqb_spec crop 0); lia.
Qed.

Definition selection (l h : nat) : Prop :=
  (l ≤ h ≤ length arr)%nat ∧ ∀ i j, (l ≤ i < h)%nat → (l ≤ j < h)%nat → same_group i j.

Lemma filter_servers_selection seed :
  (seed < length arr)%nat →
  ∃ l h, filter_servers arr seed fl = Ok (negb (l =? h)%nat, l, h) ∧ selection l h.
Proof.
  intros Hs. destruct (filter_servers_spec seed fl Hs) as (l & h & E & Hlh & Hg). exists l, h. split; [done|]. split; [lia|].
  intros i j Hi Hj. apply (same_group_trans _ seed); [apply same_group_sym|]; by apply Hg.
Qed.

(** The result of a turn that goes on. *)
Lemma lookup_loop_ref fuel off low a b :
  (S L - off < fuel)%nat → (low < length arr)%nat → above (drop off name) (rest off) low →
  (wild = false → (off ≤ L)%nat → label_start name off = true) → selection a b →
  ∃ l h, lookup_loop fuel arr wild name fl off (rest off) low a b = Ok (l, h) ∧
    ref_loop name fl false (offsets off) a b = Ok (l, h) ∧ selection l h.
Proof.
  revert off low a b. induction fuel as [|fuel IH]; intros off low a b Hf Hlow Hab Hst Hsel; [lia|].
  cbn [lookup_loop]. destruct (Z.ltb_spec (rest off) 0) as [Hneg|Hpos].
  { replace (S L - off)%nat with 0%nat by lia. eauto. }
  destruct (bsearch_spec _ _ (wf_drop off) Hpos (S (length arr)) low (length arr)) as
    (hit & low' & crop & -> & Hlow' & Hab' & Hgap & Hhit); [lia|lia|lia|done| |].
  { intros i s Hi Hs. apply lookup_lt_Some in Hs. lia. }
  cbn [mbind res_bind].
  assert (∀ a b, selection a b → ∃ l h,
    (let '(off', qlen) := crop_query wild name off (rest off) crop in
     lookup_loop fuel arr wild name fl off' qlen low' a b) = Ok (l, h) ∧
    ref_loop name fl false (offsets (S off)) a b = Ok (l, h) ∧ selection l h) as Hnext.
  { intros a' b' Hs'. destruct (crop_query_spec off crop) as (off' & -> & Q1 & Q2 & Q3 & Q4); [apply Hgap|].
    rewrite (ref_skip false (S off) off'); [|lia|].
    - apply IH; [lia|done|by eapply above_shorter|done|done].
    - intros o Ho HoL. right. destruct (Nat.lt_ge_cases o (off + step crop)).
      + apply (gap_seed off crop); [done|lia|done].
      + apply Q3. lia. }
  replace (S L - off)%nat with (S (S L - S off)) by lia. cbn [seq ref_loop andb].
  destruct hit as [try|]; [|rewrite (seed_at_nil off) by (by apply matching_nil); by apply Hnext].
  destruct (turn_seed off try) as (found & try' & -> & Hfound); [intros ?; apply Hst; [done|lia]|done|].
  cbn [mbind res_bind]. destruct found; cbn [negb]; [|rewrite Hfound; by apply Hnext].
  destruct Hfound as (Htry & i & -> & Ef). rewrite <- Ef.
  destruct (filter_servers_selection try' Htry) as (l & h & -> & Hlh). cbn [mbind res_bind].
  destruct (Nat.eqb_spec l h) as [E|E]; cbn [negb]; [by apply Hnext|].
  destruct (lookup_lt_is_Some_2 arr l) as [s Hs]; [destruct Hlh; lia|]. rewrite (at_lookup _ _ Hs). cbn [mbind res_bind].
  destruct (sflag s SERV_USE_RESOLV); [|eauto].
  destruct (crop_query_spec off (rest off)) as (off' & -> & Q1 & Q2 & Q3 & Q4); [lia|].
  assert (L ≤ off')%nat as HL by (unfold step in Q1; destruct (Z.eqb_spec (rest off) 0); lia).
  rewrite (ref_skip true (S off) off'), ref_resolv_end; [|done|lia|].
  - apply IH; [lia|done|by eapply above_shorter|done|done].
  - intros o Ho HoL. destruct (decide (o = L)) as [->|]; [|auto].
    right. apply Q3. unfold step. destruct (Z.eqb_spec (rest off) 0); lia.
Qed.
End name.
End array.

(** The reference for a whole lookup: every suffix of the name, then the
    servers for dotless names where nothing better than a default was found. *)
Definition ref_lookup (arr : list server) (name : cstring) (fl : Z) : res (bool * nat * nat) :=
  match last arr with
  | None => Ok (false, 0%nat, 0%nat)
  | Some final =>
      '(nlow, nhigh) ← ref_loop arr name fl false (seq 0 (S (length name))) 0 0;
      let dotless := negb (existsb (Z.eqb dot) name) && negb (strlen name =? 0) in
      let default := (nlow =? nhigh)%nat || forallb (λ s, domain_len s =? 0) (take 1 (drop nlow arr)) in
      if dotless && negb (flag fl F_DNSSECOK) && sflag final SERV_FOR_NODOTS && default
      then filter_servers arr (length arr - 1) fl
      else Ok (negb (nlow =? nhigh)%nat, nlow, nhigh)
  end.

Lemma last_lookup_Some (arr : list server) s : last arr = Some s → arr !! (length arr - 1)%nat = Some s.
Proof. rewrite last_lookup. by replace (Init.Nat.pred (length arr)) with (length arr - 1)%nat by lia. Qed.

(** C2. [lookup_domain] on a sorted array, with wildcards or not: the binary
    search with its retained lower bound, its cropping to the next shorter
    length and its skip to the next label reads within the array, terminates
    and selects what trying every suffix of the name against every server in
    turn selects. What it selects is a slice of one group of servers. *)
Theorem lookup_domain_correct arr wild name fl :
  Forall wf_server arr → StronglySorted (λ a b, order_servers a b ≤ 0) arr → wf_cstring name →
  (wild = false → Forall (λ s, sflag s SERV_WILDCARD = false) arr) →
  ∃ l h, lookup_domain arr wild name fl = Ok (negb (l =? h)%nat, l, h) ∧
    ref_lookup arr name fl = Ok (negb (l =? h)%nat, l, h) ∧ selection arr l h.
Proof.
  intros Hwf Hs Hn Hw. unfold lookup_domain, ref_lookup. destruct (last arr) as [final|] eqn:El.
  2: { apply last_None in El. subst. exists 0%nat, 0%nat. split_and!; [done..|]. split; [done|lia]. }
  apply last_lookup_Some in El. pose proof (lookup_lt_Some _ _ _ El) as Hlt.
  destruct (lookup_loop_ref arr Hwf Hs name fl _ Hn Hw (S (S (length name))) 0 0 0 0)
    as (l & h & E1 & E2 & Hsel); [lia|lia|intros ? ? ?; lia|done|split; [lia|intros; lia]|].
  replace (Z.of_nat (length name) - Z.of_nat 0) with (strlen name) in E1 by (unfold strlen, zlen; lia).
  rewrite Nat.sub_0_r in E2. rewrite E1, E2. cbn [mbind res_bind].
  destruct (filter_servers_selection arr Hwf Hs fl (length arr - 1)) as (l' & h' & E3 & Hsel'); [done|].
  rewrite E3. cbn [mbind res_bind]. set (nd := _ && negb (flag fl F_DNSSECOK)). fold nd.
  destruct (Nat.eqb_spec l h) as [E|E]; cbn [mbind res_bind orb].
  - subst h. rewrite !andb_true_r. destruct (nd && _); cbn [mbind res_bind].
    + by exists l', h'.
    + exists l, l. by rewrite Nat.eqb_refl.
  - destruct (lookup_lt_is_Some_2 arr l) as [s Hl]; [destruct Hsel; lia|].
    rewrite (at_lookup _ _ _ Hl), (drop_S _ _ _ Hl). cbn [mbind res_bind take forallb]. rewrite andb_true_r.
    destruct (nd && _ && _); cbn [mbind res_bind]; [by exists l', h'|].
    exists l, h. by rewrite (proj2 (Nat.eqb_neq l h)).
Qed.

Lemma lookup_domain_correct_witness :
  ∃ l h, ref_lookup [Server 1 0 3 [99; 111; 109] 0 0 0 []; Server 2 0 0 [] 1 0 0 []] [97; 46; 67; 111; 109] F_SERVER =
    Ok (negb (l =? h)%nat, l, h) ∧ (l, h) = (0%nat, 1%nat).
Proof.
  destruct (lookup_domain_correct [Server 1 0 3 [99; 111; 109] 0 0 0 []; Server 2 0 0 [] 1 0 0 []]
    false [97; 46; 67; 111; 109] F_SERVER) as (l & h & E1 & E2 & _).
  - repeat constructor; try done; lia.
  - repeat constructor; vm_compute; congruence.
  - repeat constructor; lia.
  - intros _. repeat constructor.
  - exists l, h. split; [exact E2|]. vm_compute in E1. congruence.
Defined.
