(* ===== verification/Chain.v ===== *)
(** Singly linked lists in a heap: a map from the address of an object to its
    [next] field, 0 for NULL, and the lists that start at a pointer. *)
From S2P Require Import Prelude.

(** The list at [p]: the objects [l] linked by their [next] fields. *)
Fixpoint chain (m : gmap Z Z) (p : Z) (l : list Z) : Prop :=
  match l with
  | [] => p = 0
  | x :: l => p = x ∧ x ≠ 0 ∧ ∃ n, m !! x = Some n ∧ chain m n l
  end.

Lemma chain_fun m p l l' : chain m p l → chain m p l' → l = l'.
Proof.
  revert p l'. induction l as [|x l IH]; intros p [|y l']; simpl; [done|intros -> (? & ? & _); congruence|intros (-> & ? & _) ?; congruence|].
  intros (-> & _ & n & Hn & H) (-> & _ & n' & Hn' & H'). f_equal. rewrite Hn in Hn'. injection Hn' as <-. by apply (IH n).
Qed.

Lemma chain_app m p l1 x l2 : chain m p (l1 ++ x :: l2) → chain m x (x :: l2).
Proof.
  revert p. induction l1 as [|y l1 IH]; intros p; simpl; [naive_solver|].
  intros (_ & _ & n & _ & H). by apply (IH n).
Qed.

Lemma chain_NoDup m p l : chain m p l → NoDup l.
Proof.
  revert p. induction l as [|x l IH]; intros p H; constructor.
  - intros (l1 & l2 & ->)%list_elem_of_split.
    pose proof (chain_app m p (x :: l1) x l2 H) as H2. assert (p = x) as -> by apply H.
    pose proof (chain_fun m x _ _ H H2) as E. apply (f_equal length) in E. simpl in E.
    rewrite length_app in E. simpl in E. lia.
  - destruct H as (_ & _ & n & _ & H). by apply (IH n).
Qed.

Lemma chain_lookup m p l x : chain m p l → x ∈ l → x ≠ 0 ∧ ∃ n, m !! x = Some n.
Proof.
  intros H (l1 & l2 & ->)%list_elem_of_split. apply chain_app in H as (_ & ? & n & ? & _). eauto.
Qed.

Lemma chain_length m p l : chain m p l → (length l ≤ size m)%nat.
Proof.
  intros H. rewrite <- size_dom. rewrite <- (size_list_to_set (C := gset Z) l) by (by eapply chain_NoDup).
  apply subseteq_size. intros x [_ [n Hn]]%elem_of_list_to_set%(chain_lookup m p l x H). by apply elem_of_dom_2 in Hn.
Qed.

(** A list is unaffected by what happens to other objects. *)
Lemma chain_ext m m' p l : (∀ x, x ∈ l → m' !! x = m !! x) → chain m p l → chain m' p l.
Proof.
  revert p. induction l as [|x l IH]; intros p He; simpl; [done|]. intros (-> & Hx & n & Hn & H).
  split_and!; [done..|]. exists n. split; [by rewrite He by constructor|].
  apply IH; [|done]. intros y Hy. apply He. by constructor.
Qed.

(** Taking the element after [v] out, through the field that points to it. *)
Lemma chain_unlink m p v x l n :
  chain m p (v ++ x :: l) → m !! x = Some n →
  match last v with
  | None => chain m n l
  | Some y => chain (<[y := n]> m) p (v ++ l)
  end.
Proof.
  intros Hc Hx. pose proof (chain_NoDup _ _ _ Hc) as Hnd. revert p Hc Hnd. induction v as [|y v IH]; intros p Hc Hnd.
  { simpl in *. destruct Hc as (_ & _ & n' & Hn & H). congruence. }
  destruct Hc as (-> & Hy & n' & Hn & Hc). apply NoDup_cons in Hnd as [Hyv Hnd]. specialize (IH n' Hc Hnd).
  rewrite last_cons. destruct (last v) as [z|] eqn:Ez.
  - simpl. split_and!; [done..|]. exists n'. split; [|done]. rewrite lookup_insert_ne; [done|]. intros ->.
    apply Hyv, elem_of_app. left. by apply last_Some_elem_of.
  - apply last_None in Ez. subst v. simpl in *. split_and!; [done..|]. exists n. rewrite lookup_insert_eq. split; [done|].
    eapply chain_ext; [|exact IH]. intros z Hz. rewrite lookup_insert_ne; [done|]. intros ->. apply Hyv. by constructor.
Qed.

(** Linking [x] after the last element. *)
Lemma chain_append m p r t x :
  chain m p r → last r = Some t → x ∉ r → x ≠ 0 → chain (<[x := 0]> (<[t := x]> m)) p (r ++ [x]).
Proof.
  revert p. induction r as [|y r IH]; intros p; [done|]. intros Hc Ht Hx Hx0. pose proof (chain_NoDup _ _ _ Hc) as [Hyr _]%NoDup_cons.
  apply not_elem_of_cons in Hx as [Hxy Hxr]. destruct Hc as (-> & Hy & n & Hn & Hc).
  rewrite last_cons in Ht. simpl. split_and!; [done..|]. destruct (last r) as [z|] eqn:Ez.
  - injection Ht as ->. exists n. rewrite lookup_insert_ne by done. rewrite lookup_insert_ne.
    + split; [done|by apply IH].
    + intros ->. apply Hyr. by apply last_Some_elem_of.
  - injection Ht as ->. apply last_None in Ez. subst r. exists x. rewrite lookup_insert_ne, lookup_insert_eq by done.
    split; [done|]. simpl. split_and!; [done..|]. exists 0. by rewrite lookup_insert_eq.
Qed.

(** Joining two lists through the last field of the first. *)
Lemma chain_join m p q l k y :
  chain m p l → last l = Some y → chain m q k → (∀ x, x ∈ l → x ∈ k → False) → chain (<[y := q]> m) p (l ++ k).
Proof.
  intros Hl Hy Hk Hd.
  assert (chain (<[y := q]> m) q k) as Hk'.
  { eapply chain_ext; [|exact Hk]. intros x Hx. rewrite lookup_insert_ne; [done|]. intros ->.
    apply (Hd x); [by apply last_Some_elem_of|done]. }
  clear Hk Hd. revert p Hl Hy. induction l as [|x l IH]; intros p Hl Hy; [done|].
  pose proof (chain_NoDup _ _ _ Hl) as [Hxl _]%NoDup_cons. destruct Hl as (-> & Hx & n & Hn & Hl). simpl. split_and!; [done..|].
  rewrite last_cons in Hy. destruct (last l) as [z|] eqn:Ez.
  - injection Hy as ->. exists n. rewrite lookup_insert_ne; [split; [done|by apply IH]|].
    intros ->. apply Hxl. by apply last_Some_elem_of.
  - injection Hy as ->. apply last_None in Ez. subst l. exists q. by rewrite lookup_insert_eq.
Qed.

Lemma chain_head m p l : chain m p l → p = default 0 (head l).
Proof. destruct l; [done|by intros [-> _]]. Qed.
