(* ===== verification/Servers.v ===== *)
(** Upkeep of the server lists (src/src/domain-match.c): building the sorted
    array, marking, unlinking and adding servers. The lists are modelled at the
    level of their [next] pointers, because the code relinks them in place and
    frees what it unlinks. *)
From stdpp Require Import sorting.
From S2P Require Import Prelude Hostname Cache DomainMatch DomainLookup.

(** The fields of struct server that only upstream servers use. *)
Record endpoint := Endpoint { interface : cstring; saddr : list Z; source_addr : list Z; uid : Z }.

(** The heap of servers and the fields of [daemon] that refer to it. A pointer
    is the address of an object, 0 is NULL; an address that is not in the heap
    has been freed or was never allocated. *)
Record servers_state := SS {
  objs : gmap Z server; nexts : gmap Z Z; endpoints : gmap Z endpoint;
  servers : Z; servers_tail : Z; local_domains : Z;
  serverarray : list Z; serverarraysz : nat; server_has_wildcard : bool;
  gone : list Z (* the calls of server_gone, in order *)
}.

Definition obj (d : servers_state) (p : Z) : res server :=
  match objs d !! p with Some s => Ok s | None => Oob end.
Definition nxt (d : servers_state) (p : Z) : res Z :=
  match nexts d !! p with Some n => Ok n | None => Oob end.

Definition set_obj (p : Z) (s : server) (d : servers_state) : servers_state :=
  SS (<[p := s]> (objs d)) (nexts d) (endpoints d) (servers d) (servers_tail d) (local_domains d)
    (serverarray d) (serverarraysz d) (server_has_wildcard d) (gone d).
Definition set_nexts (m : gmap Z Z) (d : servers_state) : servers_state :=
  SS (objs d) m (endpoints d) (servers d) (servers_tail d) (local_domains d)
    (serverarray d) (serverarraysz d) (server_has_wildcard d) (gone d).
Definition set_servers (h : Z) (d : servers_state) : servers_state :=
  SS (objs d) (nexts d) (endpoints d) h (servers_tail d) (local_domains d)
    (serverarray d) (serverarraysz d) (server_has_wildcard d) (gone d).
Definition set_tail (t : Z) (d : servers_state) : servers_state :=
  SS (objs d) (nexts d) (endpoints d) (servers d) t (local_domains d)
    (serverarray d) (serverarraysz d) (server_has_wildcard d) (gone d).
Definition set_local (h : Z) (d : servers_state) : servers_state :=
  SS (objs d) (nexts d) (endpoints d) (servers d) (servers_tail d) h
    (serverarray d) (serverarraysz d) (server_has_wildcard d) (gone d).
Definition set_array (arr : list Z) (sz : nat) (w : bool) (d : servers_state) : servers_state :=
  SS (objs d) (nexts d) (endpoints d) (servers d) (servers_tail d) (local_domains d) arr sz w (gone d).
Definition set_endpoint (p : Z) (e : endpoint) (d : servers_state) : servers_state :=
  SS (objs d) (nexts d) (<[p := e]> (endpoints d)) (servers d) (servers_tail d) (local_domains d)
    (serverarray d) (serverarraysz d) (server_has_wildcard d) (gone d).
Definition add_gone (p : Z) (d : servers_state) : servers_state :=
  SS (objs d) (nexts d) (endpoints d) (servers d) (servers_tail d) (local_domains d)
    (serverarray d) (serverarraysz d) (server_has_wildcard d) (gone d ++ [p]).

(** [p->next = n], on an object that is still allocated. *)
Definition store_next (p n : Z) (d : servers_state) : res servers_state :=
  match nexts d !! p with Some _ => Ok (set_nexts (<[p := n]> (nexts d)) d) | None => Oob end.
(** [free(p->domain); free(p)]. *)
Definition free_server (p : Z) (d : servers_state) : servers_state :=
  SS (delete p (objs d)) (delete p (nexts d)) (delete p (endpoints d)) (servers d) (servers_tail d) (local_domains d)
    (serverarray d) (serverarraysz d) (server_has_wildcard d) (gone d).

(** [for (serv = p; serv; serv = serv->next) body]: [next] is read after the
    body has run. *)
Fixpoint walk {A} (fuel : nat) (body : Z → A → servers_state → res (A * servers_state))
    (p : Z) (a : A) (d : servers_state) : res (A * servers_state) :=
  if p =? 0 then Ok (a, d)
  else
    match fuel with
    | O => NoFuel
    | S fuel => '(a, d) ← body p a d; n ← nxt d p; walk fuel body n a d
    end.

(** More steps than a list can have. *)
Definition heap_fuel (d : servers_state) : nat := S (size (nexts d)).

(** * Building the array *)

(** The C library's qsort. *)
Class Qsort := {
  qsort : (Z → Z → Z) → list Z → list Z;
  qsort_perm cmp l : qsort cmp l ≡ₚ l;
  qsort_sorted cmp l :
    (∀ a b, a ∈ l → b ∈ l → cmp b a = - cmp a b) →
    (∀ a b c, a ∈ l → b ∈ l → c ∈ l → cmp a b ≤ 0 → cmp b c ≤ 0 → cmp a c ≤ 0) →
    StronglySorted (λ a b, cmp a b ≤ 0) (qsort cmp l)
}.

Definition count_server (skip_loop : bool) (p : Z) (a : nat * bool) (d : servers_state) : res (nat * bool * servers_state) :=
  s ← obj d p;
  let '(count, wild) := a in
  if skip_loop && sflag s SERV_LOOP then Ok (a, d)
  else Ok ((S count, wild || sflag s SERV_WILDCARD), d).

(** [daemon->serverarray[i] = p]. *)
Definition store_array (i : nat) (p : Z) (d : servers_state) : res servers_state :=
  if (i <? length (serverarray d))%nat
  then Ok (set_array (<[i := p]> (serverarray d)) (serverarraysz d) (server_has_wildcard d) d) else Oob.

Definition with_serial (n last : Z) (s : server) : server :=
  Server (sid s) (sflags s) (domain_len s) (domain s) n (arrayposn s) last (local_addr s).
Definition with_posn (n : Z) (s : server) : server :=
  Server (sid s) (sflags s) (domain_len s) (domain s) (serial s) n (last_server s) (local_addr s).
Definition with_flags (f : Z) (s : server) : server :=
  Server (sid s) f (domain_len s) (domain s) (serial s) (arrayposn s) (last_server s) (local_addr s).

Definition fill_server (p : Z) (count : nat) (d : servers_state) : res (nat * servers_state) :=
  s ← obj d p;
  if sflag s SERV_LOOP then Ok (count, d)
  else
    d ← store_array count p d;
    Ok (S count, set_obj p (with_serial (Z.of_nat count) (-1) s) d).
Definition fill_local (p : Z) (count : nat) (d : servers_state) : res (nat * servers_state) :=
  d ← store_array count p d; Ok (S count, d).

Fixpoint set_posns (arr : list Z) (count : nat) (d : servers_state) : res servers_state :=
  match arr with
  | [] => Ok d
  | p :: arr =>
      s ← obj d p;
      set_posns arr (S count) (if sflag s SERV_IS_LOCAL then d else set_obj p (with_posn (Z.of_nat count) s) d)
  end.

(** The comparison that qsort is given, on pointers. *)
Definition cmp_ptr (m : gmap Z server) (a b : Z) : Z := order_qsort (m !!! a) (m !!! b).

(** [malloc_ok] is the outcome of the allocation of a larger array, whose
    contents are not initialised. *)
Definition build_server_array `{Qsort} (malloc_ok : bool) (d : servers_state) : res servers_state :=
  '(cw, d) ← walk (heap_fuel d) (count_server true) (servers d) (0%nat, server_has_wildcard d) d;
  '((count, wild), d) ← walk (heap_fuel d) (count_server false) (local_domains d) cw d;
  let arr := if (length (serverarray d) <? count)%nat && malloc_ok then replicate (count + 10) 0 else serverarray d in
  let d := set_array arr count wild d in
  '(count, d) ← walk (heap_fuel d) fill_server (servers d) 0%nat d;
  '(_, d) ← walk (heap_fuel d) fill_local (local_domains d) count d;
  let sz := serverarraysz d in
  let arr := qsort (cmp_ptr (objs d)) (take sz (serverarray d)) ++ drop sz (serverarray d) in
  let d := set_array arr sz (server_has_wildcard d) d in
  set_posns (take sz arr) 0 d.

(** The array as [lookup_domain] reads it. *)
Definition array_of (d : servers_state) : list server :=
  (λ p, objs d !!! p) <$> take (serverarraysz d) (serverarray d).

(** * Marking and removing *)

Definition mark_server (fl : Z) (p : Z) (_ : unit) (d : servers_state) : res (unit * servers_state) :=
  s ← obj d p;
  let f := if sflag s fl then Z.lor (sflags s) SERV_MARK else Z.land (sflags s) (Z.lnot SERV_MARK) in
  Ok (tt, set_tail p (set_obj p (with_flags f s) d)).

(** [up] is the address of [daemon->local_domains] or of the [next] field of a
    server. *)
Definition store_up (local : bool) (up : option Z) (n : Z) (d : servers_state) : res servers_state :=
  match up with
  | None => Ok (if local then set_local n d else set_servers n d)
  | Some p => store_next p n d
  end.

Definition delete_local (fl : Z) (p : Z) (up : option Z) (d : servers_state) : res (option Z * servers_state) :=
  s ← obj d p;
  if sflag s fl then
    n ← nxt d p;
    d ← store_up true up n d;
    Ok (up, free_server p d)
  else Ok (Some p, d).

Definition mark_servers (fl : Z) (d : servers_state) : res servers_state :=
  let d := set_tail 0 d in
  '(_, d) ← walk (heap_fuel d) (mark_server fl) (servers d) tt d;
  if negb (fl =? 0) then
    '(_, d) ← walk (heap_fuel d) (delete_local fl) (local_domains d) None d;
    Ok d
  else Ok d.

Fixpoint cleanup_loop (fuel : nat) (serv : Z) (up : option Z) (d : servers_state) : res servers_state :=
  if serv =? 0 then Ok d
  else
    match fuel with
    | O => NoFuel
    | S fuel =>
        tmp ← nxt d serv;
        s ← obj d serv;
        if sflag s SERV_MARK then
          let d := add_gone serv d in
          d ← store_up false up tmp d;
          cleanup_loop fuel tmp up (free_server serv d)
        else cleanup_loop fuel tmp (Some serv) (set_tail serv d)
    end.
Definition cleanup_servers (d : servers_state) : res servers_state :=
  cleanup_loop (heap_fuel d) (servers d) None (set_tail 0 d).

(** * Adding *)

(** The leading dots or star of the domain in the configuration. *)
Fixpoint skip_dots (s : cstring) : cstring :=
  match s with c :: s' => if c =? dot then skip_dots s' else s | [] => [] end.
Definition strip_domain (s : cstring) (fl : Z) : cstring * Z :=
  if deref s =? dot then (skip_dots s, fl)
  else if deref s =? 42 then
    let s := tail s in (s, if negb (deref s =? 0) then Z.lor fl SERV_WILDCARD else fl)
  else (s, fl).

(** The search for a marked server of the same domain, moved to the end when
    it has a successor. [up] is not advanced by the loop. *)
Fixpoint reuse_loop (fuel : nat) (dom : cstring) (serv : Z) (up : option Z) (d : servers_state)
    : res (Z * servers_state) :=
  if serv =? 0 then Ok (0, d)
  else
    match fuel with
    | O => NoFuel
    | S fuel =>
        tmp ← nxt d serv;
        s ← obj d serv;
        if sflag s SERV_MARK && hostname_isequal dom (domain s) then
          if negb (tmp =? 0) then
            d ← store_up false up tmp d;
            d ← store_next (servers_tail d) serv d;
            d ← store_next serv 0 (set_tail serv d);
            Ok (serv, d)
          else Ok (serv, d)
        else reuse_loop fuel dom tmp up d
    end.

(** A new object at the address [p] that the allocator returned. *)
Definition alloc_server (p n : Z) (d : servers_state) : servers_state :=
  SS (<[p := Server p 0 0 [] 0 0 0 []]> (objs d)) (<[p := n]> (nexts d)) (endpoints d)
    (servers d) (servers_tail d) (local_domains d)
    (serverarray d) (serverarraysz d) (server_has_wildcard d) (gone d).

(** The server for the domain: one that is marked, or a new one at the end of
    the list. *)
Definition place_server (dom : cstring) (new : Z) (d : servers_state) : res (Z * cstring * servers_state) :=
  '(p, d) ← reuse_loop (heap_fuel d) dom (servers d) None d;
  if negb (p =? 0) then s ← obj d p; Ok (p, domain s, d)
  else if new =? 0 then Ok (0, dom, d)
  else
    let d := set_endpoint new (Endpoint [] [] [] 0) (alloc_server new 0 d) in
    d ← (if negb (servers_tail d =? 0) then store_next (servers_tail d) new d else Ok (set_servers new d));
    Ok (new, dom, set_tail new d).

(** [serv->flags = flags; serv->domain = ...; serv->domain_len = ...]. *)
Definition finish_server (p fl : Z) (dom : cstring) (s : server) (d : servers_state) : servers_state :=
  set_obj p (Server p (u16 fl) (u16 (strlen dom)) dom (serial s) (arrayposn s) (last_server s) (local_addr s)) d.

(** [dom_ok] is the outcome of the allocation of the domain, [new] the address
    the allocator returns for a new object, 0 if it fails, and [rand] the value
    of rand32. The C result and the state. *)
Definition add_update_server (dom_ok : bool) (new rand fl : Z)
    (addr source : option (list Z)) (iface : option cstring) (dom : cstring) (local : list Z)
    (d : servers_state) : res (bool * servers_state) :=
  let '(dom, fl) := strip_domain dom fl in
  match (if deref dom =? 0 then if dom_ok then Some [] else None else fst (canonicalise dom_ok dom)) with
  | None => Ok (false, d)
  | Some dom =>
      if flag fl SERV_IS_LOCAL then
        if new =? 0 then Ok (false, d)
        else
          let d := set_local new (alloc_server new (local_domains d) d) in
          s ← obj d new;
          let s := if flag fl SERV_4ADDR || flag fl SERV_6ADDR
            then Server new (sflags s) (domain_len s) (domain s) (serial s) (arrayposn s) (last_server s) local else s in
          Ok (true, finish_server new fl dom s d)
      else
        '(p, dom, d) ← place_server dom new d;
        if p =? 0 then Ok (false, d)
        else
          s ← obj d p;
          e ← match endpoints d !! p with Some e => Ok e | None => Oob end;
          let e := Endpoint (match iface with Some i => take 16 i | None => interface e end)
            (default (saddr e) addr) (default (source_addr e) source) rand in
          Ok (true, finish_server p fl dom s (set_endpoint p e d))
  end.
