(* ===== verification/ServersSpec.v ===== *)
(** What the upkeep of the server lists establishes: the array that
    [lookup_domain] needs, and the lists as sequences of servers. *)
From stdpp Require Import sorting.
From S2P Require Import Prelude Hostname Cache DomainMatch DomainLookup Chain Servers.

(** Loops over a list. *)
Lemma walk_spec {A} (body : Z → A → servers_state → res (A * servers_state)) (I : list Z → A → servers_state → Prop)
    L fuel v l p a d :
  L = v ++ l → chain (nexts d) p l → (length l ≤ fuel)%nat → I v a d →
  (∀ v x r a d, L = v ++ x :: r → I v a d →
    ∃ a' d', body x a d = Ok (a', d') ∧ nexts d' = nexts d ∧ I (v ++ [x]) a' d') →
  ∃ a' d', walk fuel body p a d = Ok (a', d') ∧ nexts d' = nexts d ∧ I L a' d'.
Proof.
  intros EL Hc Hf HI Hb. revert fuel v p a d EL Hc Hf HI. induction l as [|x l IH]; intros fuel v p a d EL Hc Hf HI.
  - simpl in Hc. subst p. exists a, d. rewrite app_nil_r in EL. subst L. destruct fuel; done.
  - destruct Hc as (-> & Hx & n & Hn & Hc). destruct fuel as [|fuel]; [simpl in Hf; lia|]. cbn [walk].
    rewrite (proj2 (Z.eqb_neq x 0)) by done.
    destruct (Hb v x l a d EL HI) as (a' & d' & -> & En & HI'). cbn [mbind res_bind].
    unfold nxt. rewrite En, Hn. cbn [mbind res_bind].
    destruct (IH fuel (v ++ [x]) n a' d') as (a2 & d2 & E & En2 & HI2);
      [by rewrite EL, <- app_assoc|by rewrite En|simpl in Hf; lia|done|].
    exists a2, d2. split_and!; [done|congruence|done].
Qed.

(** * The array *)

Record lists (d : servers_state) (ls lo : list Z) : Prop := {
  l_servers : chain (nexts d) (servers d) ls;
  l_local : chain (nexts d) (local_domains d) lo;
  l_disjoint : ∀ x, x ∈ ls → x ∈ lo → False;
  l_objs : ∀ x, x ∈ ls ++ lo → ∃ s, objs d !! x = Some s ∧ wf_server s
}.

Definition kept (b : bool) (m : gmap Z server) (l : list Z) : list Z :=
  filter (λ p, b && sflag (m !!! p) SERV_LOOP = false) l.

Lemma kept_snoc b m l x :
  kept b m (l ++ [x]) = if b && sflag (m !!! x) SERV_LOOP then kept b m l else kept b m l ++ [x].
Proof.
  unfold kept. rewrite filter_app. destruct (b && sflag (m !!! x) SERV_LOOP) eqn:E.
  - by rewrite filter_cons_False, app_nil_r by congruence.
  - by rewrite filter_cons_True by done.
Qed.

Definition wild_in (m : gmap Z server) (l : list Z) : bool := existsb (λ p, sflag (m !!! p) SERV_WILDCARD) l.

Lemma count_spec b d p l n w :
  chain (nexts d) p l → (∀ x, x ∈ l → is_Some (objs d !! x)) →
  walk (heap_fuel d) (count_server b) p (n, w) d =
  Ok ((n + length (kept b (objs d) l))%nat, w || wild_in (objs d) (kept b (objs d) l), d).
Proof.
  intros Hc Ho. destruct (walk_spec (count_server b) (λ v a d', d' = d ∧
    a = ((n + length (kept b (objs d) v))%nat, w || wild_in (objs d) (kept b (objs d) v))) l (heap_fuel d) [] l p (n, w) d)
    as (a' & d' & E & _ & -> & ->); [done|done|unfold heap_fuel; pose proof (chain_length _ _ _ Hc); lia| | |done].
  { split; [done|]. by rewrite orb_false_r, Nat.add_0_r. }
  intros v x r a d' El [-> ->]. destruct (Ho x) as [s Hs]; [rewrite El; apply elem_of_app; right; constructor|].
  unfold count_server, obj. rewrite Hs. cbn [mbind res_bind]. rewrite kept_snoc, (lookup_total_correct _ _ _ Hs).
  destruct (b && sflag s SERV_LOOP); [by eexists _, _|]. eexists _, _. split_and!; [done..|].
  rewrite length_app. unfold wild_in. rewrite existsb_app. simpl. rewrite (lookup_total_correct _ _ _ Hs), orb_false_r, orb_assoc.
  f_equal. lia.
Qed.

(** Everything but the objects and the contents of the array. *)
Definition frame (d d' : servers_state) : Prop :=
  nexts d' = nexts d ∧ endpoints d' = endpoints d ∧ servers d' = servers d ∧ servers_tail d' = servers_tail d ∧
  local_domains d' = local_domains d ∧ serverarraysz d' = serverarraysz d ∧
  server_has_wildcard d' = server_has_wildcard d ∧ gone d' = gone d ∧ length (serverarray d') = length (serverarray d).

Lemma frame_refl d : frame d d.
Proof. done. Qed.
Lemma frame_trans d1 d2 d3 : frame d1 d2 → frame d2 d3 → frame d1 d3.
Proof.
  intros (? & ? & ? & ? & ? & ? & ? & ? & ?) (? & ? & ? & ? & ? & ? & ? & ? & ?). unfold frame. split_and!; congruence.
Qed.

Lemma store_array_spec i p d :
  (i < length (serverarray d))%nat →
  ∃ d', store_array i p d = Ok d' ∧ frame d d' ∧ objs d' = objs d ∧ take (S i) (serverarray d') = take i (serverarray d) ++ [p].
Proof.
  intros Hi. unfold store_array. rewrite (proj2 (Nat.ltb_lt _ _) Hi). eexists. split; [done|].
  split_and!; [unfold frame; simpl; rewrite length_insert; by split_and!|done|]. simpl.
  rewrite (take_S_r _ _ p); [|by apply list_lookup_insert_eq]. by rewrite take_insert_ge.
Qed.

(** The objects after the servers of [K] have been numbered. *)
Definition numbered (K : list Z) (m m' : gmap Z server) : Prop :=
  (∀ i x s, K !! i = Some x → m !! x = Some s → m' !! x = Some (with_serial (Z.of_nat i) (-1) s)) ∧
  (∀ x, x ∉ K → m' !! x = m !! x).

Lemma numbered_snoc K m m' x s :
  x ∉ K → m !! x = Some s → numbered K m m' →
  numbered (K ++ [x]) m (<[x := with_serial (Z.of_nat (length K)) (-1) s]> m').
Proof.
  intros Hx Hs [H1 H2]. split.
  - intros i y sy Hy Hsy. apply lookup_app_Some in Hy as [Hy|[Hi Hy]].
    + rewrite lookup_insert_ne; [by apply H1|]. intros ->. apply Hx. by eapply list_elem_of_lookup_2.
    + apply list_lookup_singleton_Some in Hy as [Hz <-]. rewrite lookup_insert_eq.
      replace i with (length K) by lia. rewrite Hs in Hsy. by injection Hsy as <-.
  - intros y Hy. rewrite lookup_insert_ne; [apply H2|]; intros ?; apply Hy; apply elem_of_app; [by left|right].
    subst. by apply list_elem_of_singleton.
Qed.

Lemma kept_incl b m l x : x ∈ kept b m l → x ∈ l.
Proof. unfold kept. by intros [_ ?]%list_elem_of_filter. Qed.

Lemma fill_server_spec d p l :
  chain (nexts d) p l → (∀ x, x ∈ l → is_Some (objs d !! x)) →
  (length (kept true (objs d) l) ≤ length (serverarray d))%nat →
  ∃ d', walk (heap_fuel d) fill_server p 0%nat d = Ok (length (kept true (objs d) l), d') ∧ frame d d' ∧
    take (length (kept true (objs d) l)) (serverarray d') = kept true (objs d) l ∧
    numbered (kept true (objs d) l) (objs d) (objs d').
Proof.
  intros Hc Ho Hlen. pose proof (chain_NoDup _ _ _ Hc) as Hnd.
  destruct (walk_spec fill_server (λ v c d', c = length (kept true (objs d) v) ∧ frame d d' ∧
    take c (serverarray d') = kept true (objs d) v ∧ numbered (kept true (objs d) v) (objs d) (objs d'))
    l (heap_fuel d) [] l p 0%nat d) as (c & d' & E & _ & -> & Q);
    [done|done|unfold heap_fuel; pose proof (chain_length _ _ _ Hc); lia| | |by exists d'].
  { split_and!; [done|done|done|]. split; [intros i ? ? H; apply lookup_lt_Some in H; change (i < 0)%nat in H; lia|done]. }
  intros v x r c d' El (-> & Hf & Ht & Hn). destruct (Ho x) as [s Hs]; [rewrite El; apply elem_of_app; right; constructor|].
  assert (x ∉ v) as Hxv.
  { intros Hv. rewrite El in Hnd. apply NoDup_app in Hnd as (_ & Hd & _). apply (Hd x Hv). constructor. }
  assert (x ∉ kept true (objs d) v) as Hxk by (intros ?%kept_incl; done).
  unfold fill_server, obj. rewrite (proj2 Hn x Hxk), Hs. cbn [mbind res_bind].
  rewrite kept_snoc, (lookup_total_correct _ _ _ Hs). cbn [andb]. destruct (sflag s SERV_LOOP) eqn:Elp; [by eexists _, _|].
  destruct (store_array_spec (length (kept true (objs d) v)) x d') as (d2 & -> & Hf2 & Eo & Ht2).
  { destruct Hf as (_ & _ & _ & _ & _ & _ & _ & _ & ->). rewrite El in Hlen. replace (v ++ x :: r) with ((v ++ [x]) ++ r) in Hlen by (by rewrite <- app_assoc).
    unfold kept in Hlen at 1. rewrite filter_app, length_app in Hlen. fold (kept true (objs d) (v ++ [x])) in Hlen.
    rewrite kept_snoc, (lookup_total_correct _ _ _ Hs), Elp in Hlen. simpl in Hlen. rewrite length_app in Hlen. simpl in Hlen. lia. }
  cbn [mbind res_bind]. eexists _, _. split; [done|]. split; [apply Hf2|]. rewrite length_app. split_and!.
  - simpl. lia.
  - by eapply frame_trans.
  - replace (length (kept true (objs d) v) + length [x])%nat with (S (length (kept true (objs d) v))) by (simpl; lia).
    simpl. by rewrite Ht2, Ht.
  - simpl. rewrite Eo. by apply numbered_snoc.
Qed.

Lemma fill_local_spec d p l n :
  chain (nexts d) p l → (n + length l ≤ length (serverarray d))%nat →
  ∃ d', walk (heap_fuel d) fill_local p n d = Ok ((n + length l)%nat, d') ∧ frame d d' ∧ objs d' = objs d ∧
    take (n + length l) (serverarray d') = take n (serverarray d) ++ l.
Proof.
  intros Hc Hlen.
  destruct (walk_spec fill_local (λ v c d', c = (n + length v)%nat ∧ frame d d' ∧ objs d' = objs d ∧
    take c (serverarray d') = take n (serverarray d) ++ v)
    l (heap_fuel d) [] l p n d) as (c & d' & E & _ & -> & Q);
    [done|done|unfold heap_fuel; pose proof (chain_length _ _ _ Hc); lia| | |by exists d'].
  { split_and!; [simpl; lia|done|done|by rewrite app_nil_r]. }
  intros v x r c d' El (-> & Hf & Eo & Ht). unfold fill_local.
  destruct (store_array_spec (n + length v) x d') as (d2 & -> & Hf2 & Eo2 & Ht2).
  { destruct Hf as (_ & _ & _ & _ & _ & _ & _ & _ & ->). rewrite El, length_app in Hlen. simpl in Hlen. lia. }
  cbn [mbind res_bind]. eexists _, _. split; [done|]. split; [apply Hf2|]. rewrite length_app. split_and!.
  - simpl. lia.
  - by eapply frame_trans.
  - congruence.
  - replace (n + (length v + length [x]))%nat with (S (n + length v)) by (simpl; lia).
    by rewrite Ht2, Ht, app_assoc.
Qed.

(** The objects after the positions have been stored. *)
Lemma set_posns_spec arr n d :
  NoDup arr → (∀ x, x ∈ arr → is_Some (objs d !! x)) →
  ∃ d', set_posns arr n d = Ok d' ∧ frame d d' ∧ serverarray d' = serverarray d ∧
    (∀ x, x ∉ arr → objs d' !! x = objs d !! x) ∧
    (∀ i x s, arr !! i = Some x → objs d !! x = Some s →
      objs d' !! x = Some (if sflag s SERV_IS_LOCAL then s else with_posn (Z.of_nat (n + i)) s)).
Proof.
  intros Hnd. revert n d. induction Hnd as [|x arr Hx Hnd IH]; intros n d Ho; cbn [set_posns].
  { exists d. split_and!; [done..|]. intros i x s H. by rewrite lookup_nil in H. }
  destruct (Ho x) as [s Hs]; [constructor|]. unfold obj. rewrite Hs. cbn [mbind res_bind].
  set (d1 := if sflag s SERV_IS_LOCAL then d else set_obj x (with_posn (Z.of_nat n) s) d).
  assert (∀ y, y ≠ x → objs d1 !! y = objs d !! y) as Hd1.
  { intros y Hy. unfold d1. destruct (sflag s SERV_IS_LOCAL); [done|]. simpl. by rewrite lookup_insert_ne. }
  destruct (IH (S n) d1) as (d' & -> & Hf & Ea & Hout & Hin).
  { intros y Hy. rewrite Hd1 by (intros ->; done). apply Ho. by constructor. }
  exists d'. split; [done|]. split; [unfold d1 in Hf; destruct (sflag s SERV_IS_LOCAL); done|].
  split; [rewrite Ea; unfold d1; by destruct (sflag s SERV_IS_LOCAL)|]. split.
  - intros y [Hy1 Hy2]%not_elem_of_cons. by rewrite Hout, Hd1.
  - intros [|i] y sy Hy Hsy; simpl in Hy.
    + injection Hy as <-. rewrite Hs in Hsy. injection Hsy as <-. rewrite Hout by done. unfold d1. rewrite Nat.add_0_r.
      destruct (sflag s SERV_IS_LOCAL); [done|]. simpl. by rewrite lookup_insert_eq.
    + replace (n + S i)%nat with (S n + i)%nat by lia. apply Hin; [done|]. rewrite Hd1; [done|].
      intros ->. apply Hx. by eapply list_elem_of_lookup_2.
Qed.

Lemma StronglySorted_map {A B} (R : A → A → Prop) (R' : B → B → Prop) (f : A → B) l :
  StronglySorted R l → (∀ x y, x ∈ l → y ∈ l → R x y → R' (f x) (f y)) → StronglySorted R' (f <$> l).
Proof.
  induction 1 as [|x l Hs IH Hall]; intros Hf; [constructor|]. rewrite fmap_cons. constructor.
  - apply IH. intros a b Ha Hb. apply Hf; by constructor.
  - rewrite Forall_fmap. rewrite Forall_forall in Hall |- *. intros y Hy. apply Hf; [constructor|by constructor|by apply Hall].
Qed.

(** What an object keeps when its serial number and position are stored. *)
Definition resembles (s s' : server) : Prop :=
  sflags s' = sflags s ∧ domain_len s' = domain_len s ∧ domain s' = domain s.

Lemma resembles_wf s s' : resembles s s' → wf_server s → wf_server s'.
Proof. intros (Ef & El & Ed) [H1 H2 H3]. split; unfold sflag in *; by rewrite ?Ef, ?El, ?Ed. Qed.

Lemma resembles_order a a' b b' :
  resembles a a' → resembles b b' → serial a' = serial a → serial b' = serial b → order_qsort a' b' = order_qsort a b.
Proof.
  intros (Ef & El & Ed) (Ef' & El' & Ed') Es Es'. unfold order_qsort, order_servers, order, kind_key, sflag.
  by rewrite Ef, El, Ed, Ef', El', Ed', Es, Es'.
Qed.

Lemma wild_in_resembles m m' l :
  (∀ x s, m !! x = Some s → ∃ s', m' !! x = Some s' ∧ resembles s s') →
  (∀ x, x ∈ l → is_Some (m !! x)) → wild_in m l = false → wild_in m' l = false.
Proof.
  intros Hre. unfold wild_in. induction l as [|x l IH]; [done|]. intros Hl. simpl. rewrite !orb_false_iff. intros [Hx Hl2]. split.
  - destruct (Hl x) as [s Hs]; [constructor|]. destruct (Hre x s Hs) as (s' & Hs' & Ef & _).
    rewrite (lookup_total_correct _ _ _ Hs) in Hx. rewrite (lookup_total_correct _ _ _ Hs'). unfold sflag in *. by rewrite Ef.
  - apply IH; [|done]. intros y Hy. apply Hl. by constructor.
Qed.

(** The state of the array between calls: sorted, positions stored, and the
    wildcard flag set if there is a wildcard. *)
Record built (d : servers_state) (ids : list Z) : Prop := {
  b_ids : take (serverarraysz d) (serverarray d) = ids;
  b_wf : Forall wf_server (array_of d);
  b_sorted : StronglySorted (λ a b, order_qsort a b ≤ 0) (array_of d);
  b_wild : server_has_wildcard d = false → Forall (λ s, sflag s SERV_WILDCARD = false) (array_of d);
  b_posn : ∀ i p s, ids !! i = Some p → objs d !! p = Some s → sflag s SERV_IS_LOCAL = false → arrayposn s = Z.of_nat i
}.

Lemma built_lookup d ids :
  built d ids → StronglySorted (λ a b, order_servers a b ≤ 0) (array_of d).
Proof.
  intros [_ _ Hs _ _]. rewrite <- (list_fmap_id (array_of d)). eapply StronglySorted_map; [exact Hs|].
  intros a b _ _ [|[]]%order_qsort_le; simpl; lia.
Qed.

Section sorted.
Context `{Qsort}.

(** Sorting objects that are well formed. *)
Lemma qsort_objs m l :
  (∀ x, x ∈ l → ∃ s, m !! x = Some s ∧ wf_server s) → StronglySorted (λ a b, cmp_ptr m a b ≤ 0) (qsort (cmp_ptr m) l).
Proof.
  intros Ho. assert (∀ x, x ∈ l → wf_server (m !!! x)) as Hw.
  { intros x (s & Hs & Hw)%Ho. by rewrite (lookup_total_correct _ _ _ Hs). }
  apply qsort_sorted; unfold cmp_ptr.
  - intros a b Ha Hb. apply order_qsort_antisym; by apply Hw.
  - intros a b c Ha Hb Hc. apply order_qsort_trans; by apply Hw.
Qed.

(** The end of the function: the pointers sorted, then the positions stored. *)
Lemma sort_spec d l :
  take (serverarraysz d) (serverarray d) = l → NoDup l →
  (∀ x, x ∈ l → ∃ s, objs d !! x = Some s ∧ wf_server s) →
  (server_has_wildcard d = false → wild_in (objs d) l = false) →
  let arr := qsort (cmp_ptr (objs d)) l ++ drop (serverarraysz d) (serverarray d) in
  let d1 := set_array arr (serverarraysz d) (server_has_wildcard d) d in
  ∃ d', set_posns (take (serverarraysz d) arr) 0 d1 = Ok d' ∧ built d' (qsort (cmp_ptr (objs d)) l) ∧
    nexts d' = nexts d ∧ servers d' = servers d ∧ local_domains d' = local_domains d ∧
    ∀ x s, objs d !! x = Some s → ∃ s', objs d' !! x = Some s' ∧ resembles s s' ∧ serial s' = serial s ∧ last_server s' = last_server s.
Proof.
  intros Hl Hnd Ho Hw arr d1. set (sz := serverarraysz d) in *. set (K := qsort (cmp_ptr (objs d)) l) in *.
  pose proof (qsort_perm (cmp_ptr (objs d)) l) as Hp. fold K in Hp.
  assert (take sz arr = K) as Et.
  { unfold arr. destruct (Nat.le_gt_cases sz (length (serverarray d))).
    - rewrite take_app_length'; [done|]. rewrite (Permutation_length Hp), <- Hl, length_take. lia.
    - rewrite drop_ge, app_nil_r by lia. apply take_ge. rewrite (Permutation_length Hp), <- Hl, length_take. lia. }
  assert (NoDup K) as HndK by (by rewrite Hp). assert (∀ x, x ∈ K → x ∈ l) as HK by (intros x; by rewrite Hp).
  rewrite Et. destruct (set_posns_spec K 0 d1 HndK) as (d' & E & Hf & Ea & Hout & Hin).
  { intros x (s & Hs & _)%HK%Ho. by exists s. }
  assert (∀ x s, objs d !! x = Some s → ∃ s', objs d' !! x = Some s' ∧ resembles s s' ∧ serial s' = serial s ∧ last_server s' = last_server s) as Hre.
  { intros x s Hs. destruct (decide (x ∈ K)) as [[i Hi]%list_elem_of_lookup|Hn].
    - rewrite (Hin i x s Hi Hs). eexists. split; [done|]. by destruct (sflag s SERV_IS_LOCAL).
    - exists s. by rewrite Hout. }
  assert (∀ x, x ∈ l → ∃ s, objs d !! x = Some s ∧ wf_server s ∧ resembles s (objs d' !!! x) ∧ serial (objs d' !!! x) = serial s) as Hob.
  { intros x (s & Hs & Hws)%Ho. destruct (Hre x s Hs) as (s' & Hs' & Hr & Hser & _). exists s.
    by rewrite (lookup_total_correct _ _ _ Hs'). }
  destruct Hf as (Fn & _ & Fs & _ & Fl & Fz & Fw & _ & _). simpl in Fz, Fw.
  exists d'. split; [done|]. split; [|by split_and!].
  assert (array_of d' = (λ p, objs d' !!! p) <$> K) as Earr by (unfold array_of; by rewrite Fz, Ea; simpl; fold sz; rewrite Et).
  split; [by rewrite Fz, Ea|rewrite Earr..|].
  - rewrite Forall_fmap, Forall_forall. intros x (s & _ & Hws & Hr & _)%HK%Hob. by eapply resembles_wf.
  - eapply StronglySorted_map; [by apply (qsort_objs (objs d) l)|]. intros x y Hx%HK%Hob Hy%HK%Hob. unfold cmp_ptr.
    destruct Hx as (sx & Ex & _ & Rx & Sx), Hy as (sy & Ey & _ & Ry & Sy).
    by rewrite (lookup_total_correct _ _ _ Ex), (lookup_total_correct _ _ _ Ey), (resembles_order sx (objs d' !!! x) sy (objs d' !!! y)).
  - rewrite Fw. intros Hwf%Hw. rewrite Forall_fmap, Forall_forall. intros x Hx%HK. simpl.
    destruct (Hob x Hx) as (s & Es & _ & (Ef & _) & _). unfold sflag. rewrite Ef. fold (sflag s SERV_WILDCARD).
    destruct (sflag s SERV_WILDCARD) eqn:Esw; [|done]. assert (wild_in (objs d) l = true); [|congruence].
    apply existsb_exists. exists x. split; [by apply list_elem_of_In|]. by rewrite (lookup_total_correct _ _ _ Es).
  - intros i p s Hi Hs Hloc. destruct (Hob p) as (s0 & Es0 & _ & (Ef & _) & _); [apply HK; by eapply list_elem_of_lookup_2|].
    pose proof (Hin i p s0 Hi Es0) as Ep. rewrite Hs in Ep. rewrite (lookup_total_correct _ _ _ Hs) in Ef.
    unfold sflag in Hloc, Ep. rewrite Ef in Hloc. rewrite Hloc in Ep. injection Ep as ->. simpl. done.
Qed.

(** C38. Building the array when memory is found: the array holds the servers
    that are not in a loop and the local domains, sorted by [order_qsort], every
    upstream server knows its position and its place in the configuration, and
    the wildcard flag is set if one of them is a wildcard. So it is an array on
    which [lookup_domain] is correct. *)
Theorem build_server_array_correct d ls lo :
  lists d ls lo →
  ∃ d' ids, build_server_array true d = Ok d' ∧ lists d' ls lo ∧ built d' ids ∧
    ids ≡ₚ kept true (objs d) ls ++ lo ∧
    (∀ i p s, kept true (objs d) ls !! i = Some p → objs d' !! p = Some s → serial s = Z.of_nat i ∧ last_server s = -1).
Proof.
  intros [Hls Hlo Hdis Hobj].
  assert (∀ x, x ∈ ls → is_Some (objs d !! x)) as Ols by (intros x Hx; destruct (Hobj x) as (s & ? & _); [apply elem_of_app; by left|by exists s]).
  assert (∀ x, x ∈ lo → is_Some (objs d !! x)) as Olo by (intros x Hx; destruct (Hobj x) as (s & ? & _); [apply elem_of_app; by right|by exists s]).
  unfold build_server_array. rewrite (count_spec true d (servers d) ls) by done. cbn [mbind res_bind].
  rewrite (count_spec false d (local_domains d) lo) by done. cbn [mbind res_bind]. set (K := kept true (objs d) ls).
  assert (kept false (objs d) lo = lo) as -> by (by apply filter_id, Forall_true).
  set (arr := if (length (serverarray d) <? _)%nat && true then replicate _ 0 else serverarray d).
  assert (length K + length lo ≤ length arr)%nat as Harr.
  { unfold arr. destruct (Nat.ltb_spec (length (serverarray d)) (0 + length K + length lo)); simpl; rewrite ?length_replicate; lia. }
  set (d1 := set_array arr _ _ d).
  destruct (fill_server_spec d1 (servers d1) ls) as (d2 & -> & F2 & T2 & N2); [done|done|unfold d1; simpl; fold K; lia|].
  cbn [mbind res_bind]. simpl in T2, N2. fold K in T2, N2.
  destruct F2 as (Fn & _ & Fs & _ & Fl & Fz & Fw & _ & Fa). simpl in Fn, Fs, Fl, Fz, Fw, Fa. change (objs d1) with (objs d). fold K. rewrite Fl.
  destruct (fill_local_spec d2 (local_domains d) lo (length K)) as (d3 & -> & F3 & O3 & T3); [by rewrite Fn|lia|].
  cbn [mbind res_bind]. destruct F3 as (Gn & _ & Gs & _ & Gl & Gz & Gw & _ & _).
  rewrite T2 in T3. assert (take (serverarraysz d3) (serverarray d3) = K ++ lo) as Et by (by rewrite Gz, Fz).
  assert (NoDup (K ++ lo)) as Hnd.
  { apply NoDup_app. split_and!; [apply NoDup_filter; by eapply chain_NoDup|intros x ?%kept_incl ?; by apply (Hdis x)|by eapply chain_NoDup]. }
  assert (∀ x s, objs d !! x = Some s → ∃ s', objs d3 !! x = Some s' ∧ resembles s s') as Hre.
  { intros x s Hs. rewrite O3. destruct (decide (x ∈ K)) as [[i Hi]%list_elem_of_lookup|Hn].
    - rewrite (proj1 N2 i x s Hi Hs). by eexists.
    - rewrite (proj2 N2 x Hn). by exists s. }
  assert (∀ x, x ∈ ls ++ lo → ∃ s, objs d3 !! x = Some s ∧ wf_server s) as Hwf.
  { intros x (s & Hs & Hw)%Hobj. destruct (Hre x s Hs) as (s' & Hs' & Hr). exists s'. split; [done|by eapply resembles_wf]. }
  rewrite Et. destruct (sort_spec d3 (K ++ lo) Et Hnd) as (d' & -> & Hb & Sn & Ss & Sl & Hre').
  { intros x Hx. apply Hwf. rewrite elem_of_app in Hx |- *. destruct Hx as [?%kept_incl|]; auto. }
  { rewrite Gw, Fw. rewrite !orb_false_iff. unfold wild_in. rewrite existsb_app. intros [[_ H1] H2]. apply orb_false_iff.
    pose proof (λ l, wild_in_resembles (objs d) (objs d3) l Hre) as Hex.
    split; [apply Hex; [intros x ?%kept_incl; by apply Ols|done]|by apply Hex]. }
  eexists _, _. split; [done|]. split; [|split; [exact Hb|split; [apply qsort_perm|]]].
  - split; [by rewrite Sn, Ss, Gn, Gs, Fn, Fs|by rewrite Sn, Sl, Gn, Gl, Fn, Fl|done|].
    intros x (s & Hs & Hw)%Hwf. destruct (Hre' x s Hs) as (s' & Hs' & Hr & _). exists s'. split; [done|by eapply resembles_wf].
  - intros i p s Hi Hs. destruct (Ols p) as [s0 Hs0]; [apply (kept_incl true (objs d)); by eapply list_elem_of_lookup_2|].
    pose proof (proj1 N2 i p s0 Hi Hs0) as E. rewrite <- O3 in E. destruct (Hre' _ _ E) as (s' & Hs' & _ & E1 & E2).
    rewrite Hs in Hs'. injection Hs' as <-. by rewrite E1, E2.
Qed.
End sorted.

(** A sorting routine with the laws of qsort. *)
Fixpoint isort_insert (cmp : Z → Z → Z) (x : Z) (l : list Z) : list Z :=
  match l with [] => [x] | y :: l' => if cmp x y <=? 0 then x :: l else y :: isort_insert cmp x l' end.
Definition isort (cmp : Z → Z → Z) (l : list Z) : list Z := foldr (isort_insert cmp) [] l.

Lemma isort_insert_perm cmp x l : isort_insert cmp x l ≡ₚ x :: l.
Proof.
  induction l as [|y l IH]; simpl; [done|]. destruct (cmp x y <=? 0); [done|]. rewrite IH. by constructor.
Qed.
Lemma isort_perm cmp l : isort cmp l ≡ₚ l.
Proof. induction l as [|x l IH]; simpl; [done|]. rewrite isort_insert_perm. by constructor. Qed.

Lemma isort_insert_sorted cmp x l :
  (∀ a b, a ∈ x :: l → b ∈ x :: l → cmp b a = - cmp a b) →
  (∀ a b c, a ∈ x :: l → b ∈ x :: l → c ∈ x :: l → cmp a b ≤ 0 → cmp b c ≤ 0 → cmp a c ≤ 0) →
  StronglySorted (λ a b, cmp a b ≤ 0) l → StronglySorted (λ a b, cmp a b ≤ 0) (isort_insert cmp x l).
Proof.
  intros Ha Ht Hs. induction Hs as [|y l Hs IH Hall]; simpl; [repeat constructor|].
  assert (x ∈ x :: y :: l) as Ex by constructor. assert (y ∈ x :: y :: l) as Ey by (do 2 constructor).
  assert (∀ z, z ∈ l → z ∈ x :: y :: l) as El by (intros; by do 2 constructor).
  destruct (Z.leb_spec (cmp x y) 0) as [Hle|Hgt].
  - constructor; [by constructor|]. constructor; [done|]. rewrite Forall_forall in Hall |- *. intros z Hz.
    apply (Ht x y z); auto.
  - constructor.
    + assert (∀ z, z ∈ x :: l → z ∈ x :: y :: l) as Hin by (intros z; rewrite !elem_of_cons; tauto).
      apply IH; [intros a b Hia Hib; apply Ha|intros a b c Hia Hib Hic; apply Ht]; by apply Hin.
    + rewrite Forall_forall in Hall |- *. intros z. rewrite isort_insert_perm, elem_of_cons. intros [->|Hz]; [|by apply Hall].
      rewrite (Ha x y Ex Ey). lia.
Qed.

#[export] Instance isort_qsort : Qsort.
Proof.
  refine {| qsort := isort; qsort_perm := isort_perm |}. intros cmp l Ha Ht.
  induction l as [|x l IH]; simpl; [constructor|]. apply isort_insert_sorted.
  - intros a b. rewrite !elem_of_cons, !isort_perm, <- !elem_of_cons. apply Ha.
  - intros a b c. rewrite !elem_of_cons, !isort_perm, <- !elem_of_cons. apply Ht.
  - apply IH; [intros; apply Ha|intros a b c ? ? ?; apply Ht]; by constructor.
Defined.

(** Two upstream servers, the second for com, and a local domain. *)
Definition three_servers : servers_state :=
  SS {[1 := Server 1 0 0 [] 0 0 0 []; 2 := Server 2 0 3 [99; 111; 109] 0 0 0 []; 3 := Server 3 1 3 [108; 97; 110] 0 0 0 []]}
    {[1 := 2; 2 := 0; 3 := 0]} {[1 := Endpoint [] [] [] 0; 2 := Endpoint [] [] [] 0]} 1 2 3 [] 0 false [].

Lemma three_lists : lists three_servers [1; 2] [3].
Proof.
  split.
  - simpl. split_and!; [done..|]. exists 2. split_and!; [done..|]. by exists 0.
  - simpl. split_and!; [done..|]. by exists 0.
  - intros x. rewrite !elem_of_cons, elem_of_nil. lia.
  - intros x. cbn [app]. rewrite !elem_of_cons, elem_of_nil. intros [->|[->|[->|[]]]]; eexists; (split; [reflexivity|]); repeat constructor; (done || lia).
Qed.

Lemma build_server_array_correct_witness :
  ∃ d' ids, build_server_array true three_servers = Ok d' ∧ built d' ids ∧ ids = [2; 3; 1].
Proof.
  destruct (build_server_array_correct three_servers [1; 2] [3] three_lists) as (d' & ids & E & _ & Hb & _).
  exists d', ids. split_and!; [done..|]. rewrite <- (b_ids _ _ Hb). vm_compute in E. injection E as <-. reflexivity.
Defined.

(** * Removing servers *)

Definition unmarked (m : gmap Z server) (l : list Z) : list Z := filter (λ p, sflag (m !!! p) SERV_MARK = false) l.
Definition marked (m : gmap Z server) (l : list Z) : list Z := filter (λ p, sflag (m !!! p) SERV_MARK = true) l.

(** Unlinking [x], the server after [v], through [up], and freeing it. *)
Lemma unlink_lists d v x l lo n :
  lists d (v ++ x :: l) lo → nexts d !! x = Some n →
  ∃ d1, store_up false (last v) n (add_gone x d) = Ok d1 ∧ lists (free_server x d1) (v ++ l) lo ∧
    objs d1 = objs d ∧ gone d1 = gone d ++ [x] ∧ servers_tail d1 = servers_tail d ∧ dom (nexts d1) = dom (nexts d).
Proof.
  intros [Hls Hlo Hdis Hobj] Hx. pose proof (chain_unlink _ _ _ _ _ _ Hls Hx) as Hu.
  pose proof (chain_NoDup _ _ _ Hls) as Hnd. rewrite <- Permutation_middle in Hnd. apply NoDup_cons in Hnd as [Hxv Hnd].
  assert (∀ y, y ∈ v ++ l → y ∈ v ++ x :: l) as Hin by (intros y; rewrite !elem_of_app, elem_of_cons; tauto).
  assert (x ∉ lo) as Hxo by (intros ?; apply (Hdis x); [apply elem_of_app; right; constructor|done]).
  assert (∀ m (p : Z) k, x ∉ k → chain m p k → chain (delete x m) p k) as Hdel.
  { intros m p k Hk. apply chain_ext. intros y Hy. rewrite lookup_delete_ne; [done|]. by intros ->. }
  assert (∀ y, y ∈ (v ++ l) ++ lo → ∃ s, delete x (objs d) !! y = Some s ∧ wf_server s) as Hob.
  { intros y Hy. rewrite lookup_delete_ne.
    - apply Hobj. rewrite elem_of_app in Hy |- *. destruct Hy; [left; by apply Hin|by right].
    - intros ->. rewrite elem_of_app in Hy. tauto. }
  unfold store_up. destruct (last v) as [y|] eqn:Ey.
  - assert (y ∈ v) as Hyv by (by apply last_Some_elem_of).
    destruct (chain_lookup _ _ _ y Hls) as (_ & n' & Hn'); [apply elem_of_app; by left|].
    unfold store_next. simpl. rewrite Hn'. eexists. split; [done|]. split; [|split_and!; try done; simpl; by rewrite dom_insert_lookup_L by (by exists n')].
    split; simpl; [by apply Hdel| |intros z ?%Hin; by apply Hdis|done].
    apply Hdel; [done|]. eapply chain_ext; [|exact Hlo]. intros z Hz. rewrite lookup_insert_ne; [done|]. intros ->.
    apply (Hdis z); [apply elem_of_app; by left|done].
  - apply last_None in Ey. subst v. simpl in *. eexists. split; [done|]. split; [|done].
    split; simpl; [by apply Hdel|by apply Hdel|intros z ?%Hin; by apply Hdis|done].
Qed.

Lemma cleanup_loop_spec m lo fuel d v l :
  lists d (v ++ l) lo → (∀ x, x ∈ l → objs d !! x = m !! x) → servers_tail d = default 0 (last v) → (length l ≤ fuel)%nat →
  ∃ d', cleanup_loop fuel (default 0 (head l)) (last v) d = Ok d' ∧ lists d' (v ++ unmarked m l) lo ∧
    servers_tail d' = default 0 (last (v ++ unmarked m l)) ∧ gone d' = gone d ++ marked m l ∧
    (∀ x, objs d' !! x = if bool_decide (x ∈ marked m l) then None else objs d !! x).
Proof.
  revert fuel d v. induction l as [|x l IH]; intros fuel d v Hl Hm Ht Hf.
  { exists d. rewrite app_nil_r in *. unfold unmarked, marked. rewrite !filter_nil, !app_nil_r. destruct fuel; by split_and!. }
  pose proof Hl as [Hls _ _ Hobj]. destruct (chain_app _ _ _ _ _ Hls) as (_ & Hx0 & n & Hn & Hc).
  assert (n = default 0 (head l)) as En by (destruct l; [done|apply Hc]).
  pose proof (chain_NoDup _ _ _ Hls) as Hnd. apply NoDup_app in Hnd as (_ & _ & Hnd). apply NoDup_cons in Hnd as [Hxl Hnd].
  destruct (Hobj x) as (s & Hs & _); [rewrite !elem_of_app, elem_of_cons; auto|].
  assert (m !!! x = s) as Ems by (rewrite Hm in Hs by constructor; by apply lookup_total_correct).
  destruct fuel as [|fuel]; [simpl in Hf; lia|]. change (default 0 (head (x :: l))) with x. cbn [cleanup_loop].
  rewrite (proj2 (Z.eqb_neq x 0)) by done. unfold nxt, obj. rewrite Hn, Hs. cbn [mbind res_bind].
  unfold unmarked, marked. destruct (sflag s SERV_MARK) eqn:Emk.
  - rewrite filter_cons_False, filter_cons_True by (rewrite Ems; congruence). fold (unmarked m l) (marked m l).
    destruct (unlink_lists d v x l lo n Hl Hn) as (d1 & -> & Hl1 & Ho1 & Hg1 & Ht1 & _). cbn [mbind res_bind]. rewrite En.
    destruct (IH fuel (free_server x d1) v) as (d' & -> & Hl' & Ht' & Hg' & Ho'); [done| |simpl; congruence|simpl in Hf; lia|].
    { intros y Hy. simpl. rewrite lookup_delete_ne by (by intros ->). rewrite Ho1. apply Hm. by constructor. }
    exists d'. split_and!; [done..| |].
    + rewrite Hg'. simpl. by rewrite Hg1, <- app_assoc.
    + intros y. rewrite Ho'. simpl. rewrite Ho1. destruct (decide (y = x)) as [->|Hne].
      * rewrite lookup_delete_eq, (bool_decide_eq_true_2 (x ∈ x :: _)) by constructor. by destruct (bool_decide _).
      * rewrite lookup_delete_ne by done. rewrite (bool_decide_ext (y ∈ x :: marked m l) (y ∈ marked m l)); [done|].
        rewrite elem_of_cons. tauto.
  - rewrite filter_cons_True, filter_cons_False by (rewrite Ems; congruence). fold (unmarked m l) (marked m l). rewrite En.
    destruct (IH fuel (set_tail x d) (v ++ [x])) as (d' & E & Hl' & Ht' & Hg' & Ho').
    { rewrite <- app_assoc. destruct Hl as [L1 L2 L3 L4]. by split. }
    { intros y Hy. apply Hm. by constructor. }
    { simpl. by rewrite last_snoc. }
    { simpl in Hf. lia. }
    rewrite last_snoc in E. exists d'. rewrite <- app_assoc in Hl', Ht'. by split_and!.
Qed.

(** [cleanup_servers] removes exactly the marked servers from the list,
    keeping the others in order, sets the tail to the last of them, frees
    each marked one once, after telling [server_gone], and touches no freed
    object; the local domains are unaffected. *)
Theorem cleanup_servers_correct d ls lo :
  lists d ls lo →
  ∃ d', cleanup_servers d = Ok d' ∧ lists d' (unmarked (objs d) ls) lo ∧
    servers_tail d' = default 0 (last (unmarked (objs d) ls)) ∧ gone d' = gone d ++ marked (objs d) ls ∧
    (∀ x, objs d' !! x = if bool_decide (x ∈ marked (objs d) ls) then None else objs d !! x).
Proof.
  intros Hl. pose proof (l_servers _ _ _ Hl) as Hc. unfold cleanup_servers.
  destruct (cleanup_loop_spec (objs d) lo (heap_fuel d) (set_tail 0 d) [] ls) as (d' & E & Q);
    [by destruct Hl; split|done|done|pose proof (chain_length _ _ _ Hc); unfold heap_fuel; lia|].
  assert (servers d = default 0 (head ls)) as -> by (destruct ls; [done|apply Hc]). exists d'. by split.
Qed.

(** The first upstream server marked. *)
Definition marked_servers : servers_state := set_obj 1 (Server 1 512 0 [] 0 0 0 []) three_servers.
Lemma marked_lists : lists marked_servers [1; 2] [3].
Proof.
  destruct three_lists as [H1 H2 H3 _]. split; [done..|].
  intros x. cbn [app]. rewrite !elem_of_cons, elem_of_nil.
  intros [->|[->|[->|[]]]]; eexists; (split; [reflexivity|]); repeat constructor; (done || lia).
Qed.

Lemma cleanup_servers_correct_witness :
  ∃ d', cleanup_servers marked_servers = Ok d' ∧ lists d' [2] [3] ∧ servers_tail d' = 2 ∧ gone d' = [1].
Proof.
  destruct (cleanup_servers_correct marked_servers [1; 2] [3] marked_lists) as (d' & E & Hl & Ht & Hg & _).
  exists d'. by split_and!.
Defined.

(** * Marking *)

Definition remark (fl : Z) (s : server) : server :=
  with_flags (if sflag s fl then Z.lor (sflags s) SERV_MARK else Z.land (sflags s) (Z.lnot SERV_MARK)) s.

Lemma land_lnot_other a f k : Z.land k f = 0 → Z.land (Z.land a (Z.lnot k)) f = Z.land a f.
Proof.
  intros E. apply Z.bits_inj'. intros n Hn. apply (f_equal (λ z, Z.testbit z n)) in E.
  rewrite Z.land_spec, Z.bits_0 in E. rewrite !Z.land_spec, Z.lnot_spec by done.
  destruct (Z.testbit a n), (Z.testbit f n), (Z.testbit k n); done.
Qed.
Lemma lor_land_other a f k : Z.land k f = 0 → Z.land (Z.lor a k) f = Z.land a f.
Proof.
  intros E. apply Z.bits_inj'. intros n Hn. apply (f_equal (λ z, Z.testbit z n)) in E.
  rewrite Z.land_spec, Z.bits_0 in E. rewrite !Z.land_spec, Z.lor_spec.
  destruct (Z.testbit a n), (Z.testbit f n), (Z.testbit k n); done.
Qed.

(** Marking changes no other flag. *)
Lemma remark_flag fl s f : Z.land SERV_MARK f = 0 → sflag (remark fl s) f = sflag s f.
Proof.
  intros E. unfold remark, sflag, flag. simpl. destruct (negb (Z.land (sflags s) fl =? 0)).
  - by rewrite lor_land_other.
  - by rewrite land_lnot_other.
Qed.

Lemma remark_mark fl s : sflag (remark fl s) SERV_MARK = sflag s fl.
Proof.
  unfold remark, sflag at 1, flag. cbn [with_flags sflags]. destruct (sflag s fl).
  - rewrite Z.land_lor_distr_l, Z.land_diag. apply negb_true_iff, Z.eqb_neq. intros [_ E]%Z.lor_eq_0_iff. done.
  - rewrite <- Z.land_assoc, (Z.land_comm (Z.lnot _)), Z.land_lnot_diag, Z.land_0_r. done.
Qed.

Lemma remark_wf fl s : wf_server s → wf_server (remark fl s).
Proof. intros [H1 H2 H3]. split; [done..|]. rewrite remark_flag by done. done. Qed.

Lemma mark_loop_spec fl d l :
  chain (nexts d) (servers d) l → (∀ x, x ∈ l → is_Some (objs d !! x)) →
  ∃ d', walk (heap_fuel d) (mark_server fl) (servers d) tt (set_tail 0 d) = Ok (tt, d') ∧
    nexts d' = nexts d ∧ servers d' = servers d ∧ local_domains d' = local_domains d ∧
    servers_tail d' = default 0 (last l) ∧
    (∀ x, objs d' !! x = if bool_decide (x ∈ l) then remark fl <$> objs d !! x else objs d !! x).
Proof.
  intros Hc Ho. pose proof (chain_NoDup _ _ _ Hc) as Hnd.
  destruct (walk_spec (mark_server fl) (λ v _ d', servers d' = servers d ∧ local_domains d' = local_domains d ∧
    servers_tail d' = default 0 (last v) ∧
    (∀ x, objs d' !! x = if bool_decide (x ∈ v) then remark fl <$> objs d !! x else objs d !! x))
    l (heap_fuel d) [] l (servers d) tt (set_tail 0 d)) as ([] & d' & E & En & Q);
    [done|done|unfold heap_fuel; pose proof (chain_length _ _ _ Hc); lia|done| |by exists d'].
  intros v x r [] d' El (Es & Eld & Et & Hob). unfold mark_server, obj.
  destruct (Ho x) as [s Hs]; [rewrite El; apply elem_of_app; right; constructor|].
  assert (x ∉ v) as Hxv.
  { intros Hv. rewrite El in Hnd. apply NoDup_app in Hnd as (_ & Hd & _). apply (Hd x Hv). constructor. }
  rewrite Hob, bool_decide_eq_false_2, Hs by done. cbn [mbind res_bind]. eexists _, _. split; [done|]. split; [done|].
  split_and!; [done..|by rewrite last_snoc|]. intros y. simpl. fold (remark fl s). destruct (decide (y = x)) as [->|Hne].
  - rewrite lookup_insert_eq, bool_decide_eq_true_2, Hs; [done|]. apply elem_of_app. right. by apply list_elem_of_singleton.
  - rewrite lookup_insert_ne, Hob by done. rewrite (bool_decide_ext (y ∈ v ++ [x]) (y ∈ v)); [done|].
    rewrite elem_of_app, list_elem_of_singleton. tauto.
Qed.

(** The deletion of local domains passes over those without the flag. *)
Lemma delete_local_spec fl d l :
  chain (nexts d) (local_domains d) l → (∀ x, x ∈ l → ∃ s, objs d !! x = Some s ∧ sflag s fl = false) →
  ∃ up, walk (heap_fuel d) (delete_local fl) (local_domains d) None d = Ok (up, d).
Proof.
  intros Hc Ho. destruct (walk_spec (delete_local fl) (λ _ _ d', d' = d) l (heap_fuel d) [] l (local_domains d) None d)
    as (up & d' & E & _ & ->); [done|done|unfold heap_fuel; pose proof (chain_length _ _ _ Hc); lia|done| |by exists up].
  intros v x r up d' El ->. destruct (Ho x) as (s & Hs & Hfl); [rewrite El; apply elem_of_app; right; constructor|].
  unfold delete_local, obj. rewrite Hs. cbn [mbind res_bind]. rewrite Hfl. by eexists _, _.
Qed.

(** The first local domain that has the flag is freed, and then read. *)
Lemma delete_local_oob fl d l fuel p up :
  chain (nexts d) p l → (∀ x, x ∈ l → ∃ s, objs d !! x = Some s) →
  (∃ x s, x ∈ l ∧ objs d !! x = Some s ∧ sflag s fl = true) → (length l ≤ fuel)%nat →
  (match up with Some y => is_Some (nexts d !! y) ∧ y ∉ l | None => True end) →
  walk fuel (delete_local fl) p up d = Oob.
Proof.
  revert fuel p up. induction l as [|x l IH]; intros fuel p up Hc Ho (z & sz & Hz & Hsz & Hfz) Hf Hup; [by apply not_elem_of_nil in Hz|].
  pose proof (chain_NoDup _ _ _ Hc) as [Hxl _]%NoDup_cons. destruct Hc as (-> & Hx0 & n & Hn & Hc).
  destruct fuel as [|fuel]; [simpl in Hf; lia|]. cbn [walk]. rewrite (proj2 (Z.eqb_neq x 0)) by done.
  destruct (Ho x) as (s & Hs); [constructor|]. unfold delete_local at 2, obj. rewrite Hs. cbn [mbind res_bind].
  destruct (sflag s fl) eqn:Efl.
  - unfold nxt. rewrite Hn. cbn [mbind res_bind]. unfold store_up.
    destruct up as [y|]; [destruct Hup as [[ny Hy] Hyl]; unfold store_next; rewrite Hy|];
      cbn [mbind res_bind]; simpl; by rewrite lookup_delete_eq.
  - cbn [mbind res_bind]. unfold nxt. rewrite Hn. cbn [mbind res_bind]. apply IH; [done| | |simpl in Hf; lia|].
    + intros y Hy. apply Ho. by constructor.
    + exists z, sz. split_and!; [|done..]. apply elem_of_cons in Hz as [->|]; [congruence|done].
    + split; [by exists n|done].
Qed.

(** [mark_servers] when it deletes nothing: every upstream server with one
    of the flags is marked, the mark of the others is cleared, no other flag
    changes, and the tail is the last server, also where it was wrong. *)
Theorem mark_servers_marks fl d ls lo :
  lists d ls lo → (∀ x s, x ∈ lo → objs d !! x = Some s → sflag s fl = false) →
  ∃ d', mark_servers fl d = Ok d' ∧ lists d' ls lo ∧ servers_tail d' = default 0 (last ls) ∧
    ∀ x s, x ∈ ls → objs d !! x = Some s → ∃ s', objs d' !! x = Some s' ∧ sflag s' SERV_MARK = sflag s fl ∧
      ∀ f, Z.land SERV_MARK f = 0 → sflag s' f = sflag s f.
Proof.
  intros [L1 L2 L3 L4] Hlo. unfold mark_servers.
  destruct (mark_loop_spec fl d ls L1) as (d' & E & En & Es & El & Et & Ho).
  { intros x Hx. destruct (L4 x) as (s & Hs & _); [apply elem_of_app; by left|by exists s]. }
  change (heap_fuel (set_tail 0 d)) with (heap_fuel d). change (servers (set_tail 0 d)) with (servers d).
  rewrite E. cbn [mbind res_bind].
  assert (lists d' ls lo) as Hl.
  { split; [by rewrite En, Es|by rewrite En, El|done|]. intros x Hx. destruct (L4 x Hx) as (s & Hs & Hw). rewrite Ho, Hs.
    destruct (bool_decide (x ∈ ls)); [|by exists s]. exists (remark fl s). split; [done|by apply remark_wf]. }
  assert ((if negb (fl =? 0) then '(_, d2) ← walk (heap_fuel d') (delete_local fl) (local_domains d') None d'; Ok d2 else Ok d') = Ok d') as ->.
  { destruct (negb (fl =? 0)); [|done]. destruct (delete_local_spec fl d' lo) as [up ->]; [by apply Hl| |done].
    intros x Hx. destruct (L4 x) as (s & Hs & _); [apply elem_of_app; by right|]. exists s.
    rewrite Ho, bool_decide_eq_false_2; [|intros ?; by apply (L3 x)]. split; [done|by eapply Hlo]. }
  exists d'. split_and!; [done..|]. intros x s Hx Hs. rewrite Ho, bool_decide_eq_true_2, Hs by done. exists (remark fl s).
  split_and!; [done|apply remark_mark|intros f; apply remark_flag].
Qed.

Lemma mark_servers_marks_witness :
  ∃ d', mark_servers 2048 marked_servers = Ok d' ∧ ∀ s, objs marked_servers !! 1 = Some s →
    ∃ s', objs d' !! 1 = Some s' ∧ sflag s' SERV_MARK = sflag s 2048.
Proof.
  destruct (mark_servers_marks 2048 marked_servers [1; 2] [3] marked_lists) as (d' & E & _ & _ & H).
  - intros x s Hx%list_elem_of_singleton Hs. subst x. vm_compute in Hs. injection Hs as <-. reflexivity.
  - exists d'. split; [done|]. intros s Hs. destruct (H 1 s) as (s' & ? & ? & _); [constructor|done|by exists s'].
Defined.

(** Deleting a local domain reads the [next] field of an object that has just
    been freed. *)
Lemma mark_servers_use_after_free fl d ls lo x s :
  lists d ls lo → fl ≠ 0 → x ∈ lo → objs d !! x = Some s → sflag s fl = true → mark_servers fl d = Oob.
Proof.
  intros [L1 L2 L3 L4] Hfl Hx Hs Hsf. unfold mark_servers.
  destruct (mark_loop_spec fl d ls L1) as (d' & E & En & Es & El & Et & Ho).
  { intros y Hy. destruct (L4 y) as (sy & Hsy & _); [apply elem_of_app; by left|by exists sy]. }
  change (heap_fuel (set_tail 0 d)) with (heap_fuel d). change (servers (set_tail 0 d)) with (servers d).
  rewrite E. cbn [mbind res_bind]. rewrite (proj2 (Z.eqb_neq fl 0)) by done. cbn [negb].
  assert (∀ y, y ∈ lo → objs d' !! y = objs d !! y) as Hlo'.
  { intros y Hy. rewrite Ho, bool_decide_eq_false_2; [done|]. intros ?. by apply (L3 y). }
  rewrite (delete_local_oob fl d' lo); [done|by rewrite En, El| | | |done].
  - intros y Hy. rewrite Hlo' by done. destruct (L4 y) as (sy & Hsy & _); [apply elem_of_app; by right|by exists sy].
  - exists x, s. by rewrite Hlo'.
  - unfold heap_fuel. rewrite En. pose proof (chain_length _ _ _ L2). lia.
Qed.

(** * Adding *)

Lemma removelast_wf s : wf_cstring s → wf_cstring (removelast s) ∧ strlen (removelast s) ≤ strlen s.
Proof.
  unfold strlen. induction 1 as [|c s Hc Hs IH]; [by split; [constructor|]|]. destruct s as [|c' s]; [split; [constructor|by vm_compute]|].
  change (removelast (c :: c' :: s)) with (c :: removelast (c' :: s)). destruct IH as [IH1 IH2]. split; [by constructor|].
  unfold zlen in *. simpl in *. lia.
Qed.

Lemma canonicalise_wf s s' : wf_cstring s → fst (canonicalise true s) = Some s' → wf_cstring s' ∧ strlen s' < 65536.
Proof.
  intros Hs. unfold canonicalise, check_name. destruct (Z.eqb_spec (strlen s) 0) as [E|E]; [done|]. cbn [orb].
  destruct (Z.ltb_spec MAXDNAME (strlen s)) as [El|El]; [done|]. unfold MAXDNAME in El.
  set (t := default 0 (last s) =? dot). set (k := if t then removelast s else s).
  assert (wf_cstring k ∧ strlen k ≤ strlen s) as [Hk Hlk] by (unfold k; destruct t; [by apply removelast_wf|done]).
  destruct (check_name_loop false k 0 t false) as [[[] []]|]; cbn; intros [= <-]; (split; [done|lia]).
Qed.

Lemma skip_dots_wf s : wf_cstring s → wf_cstring (skip_dots s).
Proof. induction 1 as [|c s Hc Hs IH]; simpl; [constructor|]. destruct (c =? dot); [done|by constructor]. Qed.
Lemma strip_domain_wf s fl : wf_cstring s → wf_cstring (fst (strip_domain s fl)).
Proof.
  intros Hs. unfold strip_domain. destruct (deref s =? dot); [by apply skip_dots_wf|].
  destruct (deref s =? 42); [|done]. simpl. destruct Hs; simpl; [constructor|done].
Qed.

(** The domain as it is stored, if the configured one is valid. *)
Definition stored_domain (dom : cstring) : option cstring :=
  if deref dom =? 0 then Some [] else fst (canonicalise true dom).

Lemma stored_domain_wf dom s : wf_cstring dom → stored_domain dom = Some s → wf_cstring s ∧ strlen s < 65536.
Proof.
  intros Hd. unfold stored_domain. destruct (deref dom =? 0); [intros [= <-]; split; [constructor|by vm_compute]|].
  by apply canonicalise_wf.
Qed.

(** The server that is updated, and the list after the call. *)
Definition reusable (m : gmap Z server) (dom : cstring) (p : Z) : bool :=
  sflag (m !!! p) SERV_MARK && hostname_isequal dom (domain (m !!! p)).
Definition placed (m : gmap Z server) (dom : cstring) (new : Z) (ls : list Z) : list Z * Z :=
  match list_find (λ p, reusable m dom p = true) ls with
  | None => (ls ++ [new], new)
  | Some (i, p) => (if decide (last ls = Some p) then ls else drop (S i) ls ++ [p], p)
  end.

Lemma reuse_loop_spec dom fuel d v l :
  chain (nexts d) (servers d) (v ++ l) → servers_tail d = default 0 (last (v ++ l)) → (length l ≤ fuel)%nat →
  (∀ x, x ∈ l → is_Some (objs d !! x)) →
  ∃ d', reuse_loop fuel dom (default 0 (head l)) None d =
      Ok (match list_find (λ p, reusable (objs d) dom p = true) l with Some (_, p) => p | None => 0 end, d') ∧
    match list_find (λ p, reusable (objs d) dom p = true) l with
    | None => d' = d
    | Some (i, p) =>
        if decide (last l = Some p) then d' = d
        else d' = set_nexts (<[p := 0]> (<[servers_tail d := p]> (nexts d))) (set_tail p (set_servers (default 0 (head (drop (S i) l))) d))
    end.
Proof.
  revert fuel v. induction l as [|x l IH]; intros fuel v Hc Ht Hf Ho; [exists d; by destruct fuel|].
  destruct (chain_app _ _ _ _ _ Hc) as (_ & Hx0 & n & Hn & Hcl).
  assert (n = default 0 (head l)) as En by (destruct l; [done|apply Hcl]).
  destruct (Ho x) as (s & Hs); [constructor|]. destruct fuel as [|fuel]; [simpl in Hf; lia|].
  change (default 0 (head (x :: l))) with x. cbn [reuse_loop]. rewrite (proj2 (Z.eqb_neq x 0)) by done.
  unfold nxt, obj. rewrite Hn, Hs. cbn [mbind res_bind list_find].
  assert (reusable (objs d) dom x = sflag s SERV_MARK && hostname_isequal dom (domain s)) as Er
    by (unfold reusable; by rewrite (lookup_total_correct _ _ _ Hs)).
  rewrite <- Er. destruct (decide (reusable (objs d) dom x = true)) as [Hr|Hr].
  - rewrite Hr. pose proof (chain_NoDup _ _ _ Hc) as Hnd. apply NoDup_app in Hnd as (_ & _ & [Hxl _]%NoDup_cons).
    destruct l as [|y l].
    + simpl in En. subst n. exists d. by rewrite decide_True.
    + simpl in En. subst n. destruct (chain_lookup _ _ _ y Hc) as [Hy _]; [apply elem_of_app; right; by do 2 constructor|].
      rewrite (proj2 (Z.eqb_neq y 0)) by done. cbn [negb store_up mbind res_bind].
      rewrite last_app in Ht. rewrite last_cons in Ht. destruct (last (y :: l)) as [t|] eqn:Elt; [|by apply last_None in Elt].
      simpl in Ht. assert (t ∈ y :: l) as Htl by (by apply last_Some_elem_of).
      destruct (chain_lookup _ _ _ t Hc) as [_ [nt Hnt]]; [apply elem_of_app; right; by constructor|].
      unfold store_next. simpl. rewrite Ht, Hnt. simpl.
      rewrite lookup_insert_ne, Hn by (intros ->; done). cbn [mbind res_bind].
      eexists. split; [done|]. destruct (decide _) as [E|_]; [|done]. simpl in Elt, E. rewrite Elt in E. by injection E as ->.
  - apply not_true_is_false in Hr. rewrite Hr, En.
    destruct (IH fuel (v ++ [x])) as (d' & E & Q); [by rewrite <- app_assoc|by rewrite <- app_assoc|simpl in Hf; lia| |].
    { intros z Hz. apply Ho. by constructor. }
    exists d'. destruct (list_find (λ p, reusable (objs d) dom p = true) l) as [[i p]|] eqn:Ef; simpl; [|done].
    split; [done|]. rewrite last_cons. destruct (last l) as [t|] eqn:Elt; [exact Q|].
    apply last_None in Elt. subst l. done.
Qed.

Lemma isequal_length a b : wf_cstring a → wf_cstring b → hostname_isequal a b = true → strlen a = strlen b.
Proof.
  intros Ha Hb E. unfold hostname_isequal in E. apply Z.eqb_eq, hostname_order_eq in E; [|done..].
  unfold ci_eq in E. apply (f_equal length) in E. rewrite !length_map in E. unfold strlen, zlen. lia.
Qed.

(** What the call needs of the allocator: an address that is not in use. *)
Record fresh (d : servers_state) (new : Z) : Prop := {
  f_nonzero : new ≠ 0;
  f_nexts : nexts d !! new = None;
  f_objs : objs d !! new = None
}.

Lemma fresh_not_in d new p l : fresh d new → chain (nexts d) p l → new ∉ l.
Proof. intros [_ Hn _] Hc Hin. destruct (chain_lookup _ _ _ _ Hc Hin) as [_ [n Hn']]. congruence. Qed.

(** A new server at the end of the list. *)
Lemma append_new d new ls lo e :
  lists d ls lo → fresh d new → servers_tail d = default 0 (last ls) →
  let d1 := set_endpoint new e (alloc_server new 0 d) in
  ∃ d2, (if negb (servers_tail d1 =? 0) then store_next (servers_tail d1) new d1 else Ok (set_servers new d1)) = Ok d2 ∧
    chain (nexts d2) (servers d2) (ls ++ [new]) ∧ chain (nexts d2) (local_domains d2) lo ∧
    objs d2 = <[new := Server new 0 0 [] 0 0 0 []]> (objs d) ∧ endpoints d2 !! new = Some e.
Proof.
  intros [L1 L2 L3 L4] Hfr Ht d1. pose proof (fresh_not_in _ _ _ _ Hfr L1) as Hn1. pose proof (fresh_not_in _ _ _ _ Hfr L2) as Hn2.
  destruct Hfr as [Hn0 Hnn Hno]. assert (servers_tail d1 = default 0 (last ls)) as -> by done.
  assert (chain (<[new:=0]> (nexts d)) (local_domains d) lo) as Hlo.
  { eapply chain_ext; [|exact L2]. intros x Hx. rewrite lookup_insert_ne; [done|]. by intros ->. }
  destruct (last ls) as [t|] eqn:Et; simpl.
  - assert (t ∈ ls) as Htl by (by apply last_Some_elem_of). destruct (chain_lookup _ _ _ t L1 Htl) as [Ht0 [n Hn]].
    assert (new ≠ t) as Hnt by (intros ->; done).
    rewrite (proj2 (Z.eqb_neq t 0)) by done. cbn [negb]. unfold store_next. simpl. rewrite lookup_insert_ne, Hn by done.
    eexists. split; [done|]. simpl. split_and!; [| |done|by rewrite lookup_insert_eq].
    + rewrite insert_insert_ne by done. by apply chain_append.
    + eapply chain_ext; [|exact Hlo]. intros x Hx. rewrite (lookup_insert_ne _ t); [done|]. intros ->. by apply (L3 x).
  - apply last_None in Et. subst ls. eexists. split; [done|]. simpl. split_and!; [done..| |done|done|by rewrite lookup_insert_eq].
    exists 0. by rewrite lookup_insert_eq.
Qed.

(** A server moved to the end of the list by the search for one to reuse. *)
Lemma move_to_end d v x r lo t :
  lists d (v ++ x :: r) lo → last r = Some t →
  chain (<[x := 0]> (<[t := x]> (nexts d))) (default 0 (head r)) (r ++ [x]) ∧
  chain (<[x := 0]> (<[t := x]> (nexts d))) (local_domains d) lo.
Proof.
  intros [L1 L2 L3 L4] Ht. pose proof (chain_NoDup _ _ _ L1) as Hnd. apply NoDup_app in Hnd as (_ & _ & [Hxr _]%NoDup_cons).
  destruct (chain_app _ _ _ _ _ L1) as (_ & Hx0 & n & Hn & Hc).
  assert (default 0 (head r) = n) as -> by (destruct r; [done|by destruct Hc as (-> & _)]).
  split; [by apply chain_append|]. assert (t ∈ r) as Htr by (by apply last_Some_elem_of).
  eapply chain_ext; [|exact L2]. intros y Hy. rewrite !lookup_insert_ne; [done|..]; intros ->; apply (L3 y); try done;
    rewrite elem_of_app, elem_of_cons; auto.
Qed.

(** The state that [add_update_server] gives the server its fields in. *)
Record placing (d d1 : servers_state) (dom dom1 : cstring) (new p : Z) (ls' lo : list Z) : Prop := {
  pl_servers : chain (nexts d1) (servers d1) ls';
  pl_local : chain (nexts d1) (local_domains d1) lo;
  pl_tail : servers_tail d1 = default 0 (last ls');
  pl_objs : ∀ x, x ≠ new → objs d1 !! x = objs d !! x;
  pl_obj : is_Some (objs d1 !! p);
  pl_endpoint : is_Some (endpoints d1 !! p);
  pl_zero : p ≠ 0;
  pl_dom : hostname_isequal dom dom1 = true;
  pl_wf : wf_cstring dom1
}.

Lemma place_server_spec dom new d ls lo :
  lists d ls lo → fresh d new → servers_tail d = default 0 (last ls) → wf_cstring dom →
  (∀ x, x ∈ ls → is_Some (endpoints d !! x)) →
  ∃ d1 dom1, place_server dom new d = Ok ((placed (objs d) dom new ls).2, dom1, d1) ∧
    placing d d1 dom dom1 new (placed (objs d) dom new ls).2 (placed (objs d) dom new ls).1 lo.
Proof.
  intros Hl Hfr Ht Hd He. pose proof Hl as [L1 L2 L3 L4]. unfold place_server, placed.
  assert (servers d = default 0 (head ls)) as Es by (destruct ls; [done|apply L1]).
  destruct (reuse_loop_spec dom (heap_fuel d) d [] ls) as (d' & E & Q); [done|done|unfold heap_fuel; pose proof (chain_length _ _ _ L1); lia| |].
  { intros x Hx. destruct (L4 x) as (s & Hs & _); [apply elem_of_app; by left|by exists s]. }
  rewrite Es, E. cbn [mbind res_bind]. clear E. destruct (list_find _ ls) as [[i p]|] eqn:Ef.
  - apply list_find_Some in Ef as (Hi & Hr & _). apply list_elem_of_split_length in Hi as (v & r & -> & Ei).
    destruct (L4 p) as (s & Hs & Hw); [rewrite !elem_of_app, elem_of_cons; auto|].
    destruct (chain_app _ _ _ _ _ L1) as (_ & Hp0 & _).
    unfold reusable in Hr. rewrite (lookup_total_correct _ _ _ Hs) in Hr. apply andb_prop in Hr as [_ Hr].
    assert (objs d' = objs d ∧ endpoints d' = endpoints d) as [Eo Ee] by (destruct (decide _); subst d'; done).
    rewrite (proj2 (Z.eqb_neq p 0)) by done. cbn [negb]. unfold obj. rewrite Eo, Hs. cbn [mbind res_bind].
    eexists _, _. split; [done|]. cbn [fst snd].
    assert (is_Some (endpoints d' !! p)) as Hep by (rewrite Ee; apply He; rewrite elem_of_app, elem_of_cons; auto).
    destruct (decide (last (v ++ p :: r) = Some p)) as [El|El].
    + subst d'. split; try done; first [by rewrite Hs|by apply Hw].
    + destruct (last r) as [t|] eqn:Etr; [|apply last_None in Etr; subst r; by rewrite last_snoc in El].
      replace (drop (S i) (v ++ p :: r)) with r in * by (subst i; rewrite drop_app_ge by lia; by replace (S (length v) - length v)%nat with 1%nat by lia).
      assert (servers_tail d = t) as Ett by (rewrite Ht, last_app, last_cons, Etr; done). rewrite Ett in Q.
      destruct (move_to_end d v p r lo t Hl Etr) as [M1 M2]. subst d'. simpl in *.
      split; simpl; try done; first [by rewrite last_snoc|by rewrite Hs|by apply Hw].
  - subst d'. rewrite (proj2 (Z.eqb_neq new 0)) by apply Hfr. cbn [negb Z.eqb].
    destruct (append_new d new ls lo (Endpoint [] [] [] 0) Hl Hfr Ht) as (d2 & -> & A1 & A2 & A3 & A4).
    cbn [mbind res_bind]. eexists _, _. split; [done|]. split; simpl;
      first [done|by rewrite last_snoc|by rewrite A3, lookup_insert_eq|by rewrite A4|apply Hfr|apply hostname_isequal_refl|idtac].
    intros x Hx. by rewrite A3, lookup_insert_ne.
Qed.

Lemma placed_incl m dom new ls x :
  x ∈ (placed m dom new ls).1 → x ∈ ls ∨ (x = new ∧ (placed m dom new ls).2 = new).
Proof.
  unfold placed. destruct (list_find _ ls) as [[i p]|] eqn:Ef; simpl.
  - apply list_find_Some in Ef as (Hi & _). apply list_elem_of_lookup_2 in Hi.
    destruct (decide (last ls = Some p)); [auto|]. rewrite elem_of_app, list_elem_of_singleton.
    intros [H| ->]; [|auto]. left. rewrite <- (take_drop (S i) ls). apply elem_of_app. by right.
  - rewrite elem_of_app, list_elem_of_singleton. tauto.
Qed.

(** Adding or updating an upstream server, with memory available and a
    valid domain. Where a marked server of the same domain exists the first
    such is reused: in place if it is the last, and else moved to the end, the
    list then starting after it. Where none exists a new server goes to the end
    of the list. The server gets the flags and the domain, the tail is
    the last server and the local domains keep their list. *)
Theorem add_update_server_correct new rand fl addr source iface dom local d ls lo dom1 fl1 dom2 :
  lists d ls lo → fresh d new → servers_tail d = default 0 (last ls) → wf_cstring dom →
  (∀ x, x ∈ ls → is_Some (endpoints d !! x)) →
  strip_domain dom fl = (dom1, fl1) → stored_domain dom1 = Some dom2 →
  flag fl1 SERV_IS_LOCAL = false → (flag (u16 fl1) SERV_FOR_NODOTS = true → dom2 = []) →
  let '(ls', p) := placed (objs d) dom2 new ls in
  ∃ d', add_update_server true new rand fl addr source iface dom local d = Ok (true, d') ∧ lists d' ls' lo ∧
    servers_tail d' = default 0 (last ls') ∧
    ∃ s, objs d' !! p = Some s ∧ sflags s = u16 fl1 ∧ hostname_isequal dom2 (domain s) = true ∧ domain_len s = strlen dom2.
Proof.
  intros Hl Hfr Ht Hd He Est Esd Hloc Hnd. unfold add_update_server. rewrite Est.
  change (if deref dom1 =? 0 then Some [] else fst (canonicalise true dom1)) with (stored_domain dom1).
  destruct (stored_domain_wf dom1 dom2) as [Hw2 Hl2]; [pose proof (strip_domain_wf dom fl Hd) as H; by rewrite Est in H|done|].
  rewrite Esd, Hloc. destruct (place_server_spec dom2 new d ls lo Hl Hfr Ht Hw2 He) as (d1 & dom3 & -> & [P1 P2 P3 P4 P5 P6 P7 P8 P9]).
  pose proof (placed_incl (objs d) dom2 new ls) as Hpi.
  destruct (placed (objs d) dom2 new ls) as [ls' p]. cbn [fst snd mbind res_bind] in *.
  destruct P5 as [s Hs], P6 as [e Hep]. rewrite (proj2 (Z.eqb_neq p 0)) by done. unfold obj. rewrite Hs. cbn [mbind res_bind].
  rewrite Hep. cbn [mbind res_bind]. pose proof (isequal_length _ _ Hw2 P9 P8) as El.
  eexists. split; [done|]. split; [|split; [done|]].
  - destruct Hl as [L1 L2 L3 L4]. split; [done..| |].
    + intros x [Hx|[-> _]]%Hpi; [by apply L3|]. by eapply fresh_not_in.
    + intros x Hx. simpl. destruct (decide (x = p)) as [->|Hne].
      * rewrite lookup_insert_eq. eexists. split; [done|]. split; simpl; [done| |].
        -- rewrite u16_id; [done|]. unfold strlen in *. pose proof (zlen_nonneg dom3). lia.
        -- intros ->%Hnd. rewrite <- El. done.
      * assert (x ∈ ls ++ lo) as Hin by (rewrite elem_of_app in Hx |- *; destruct Hx as [[|[]]%Hpi|]; [auto|congruence|auto]).
        rewrite lookup_insert_ne by done. rewrite P4; [by apply L4|]. intros ->.
        destruct (L4 new Hin) as (s' & Hs' & _). destruct Hfr. congruence.
  - simpl. rewrite lookup_insert_eq. eexists. split_and!; [done..|]. simpl. rewrite u16_id; [done|].
    unfold strlen in *. pose proof (zlen_nonneg dom3). lia.
Qed.

Lemma add_update_server_correct_witness :
  ∃ d', add_update_server true 4 7 2048 None None None [] [] marked_servers = Ok (true, d') ∧ lists d' [2; 1] [3] ∧
    servers_tail d' = 1.
Proof.
  pose proof (add_update_server_correct 4 7 2048 None None None [] [] marked_servers [1; 2] [3] [] 2048 []) as H.
  change (placed (objs marked_servers) [] 4 [1; 2]) with ([2; 1], 1) in H.
  destruct H as (d' & E & Hl & Ht & _); try done.
  - exact marked_lists.
  - constructor.
  - intros x. rewrite !elem_of_cons, elem_of_nil. intros [->|[->|[]]]; by eexists.
  - by exists d'.
Defined.

(** A marked server that is neither first nor last: reusing it takes the
    servers before it off the list, here server 1. *)
Lemma add_update_server_drops :
  let d := SS {[1 := Server 1 0 0 [] 0 0 0 []; 2 := Server 2 512 3 [99; 111; 109] 0 0 0 []; 4 := Server 4 0 0 [] 0 0 0 []]}
    {[1 := 2; 2 := 4; 4 := 0]} {[2 := Endpoint [] [] [] 0]} 1 4 0 [] 0 false [] in
  chain (nexts d) (servers d) [1; 2; 4] ∧
  ∃ d', add_update_server true 9 7 2048 None None None [99; 111; 109] [] d = Ok (true, d') ∧
    chain (nexts d') (servers d') [4; 2].
Proof.
  split.
  - repeat (split; [done|]; split; [done|]; eexists; split; [reflexivity|]). done.
  - eexists. split; [vm_compute; reflexivity|].
    repeat (split; [done|]; split; [done|]; eexists; split; [vm_compute; reflexivity|]). done.
Qed.
