(* ===== verification/Records.v ===== *)
(** Writing answers (src/src/rfc1035.c): [add_resource_record] with its
    size limit, and the header operations [extract_request] and
    [setup_reply]; [make_local_answer] of src/src/domain-match.c, which uses
    them. *)
From S2P Require Import Prelude Hostname Wire Cache DomainMatch.

(** * Resource records *)

(** A character of the format string with its arguments. The second argument
    of [FText] is the memory the pointer argument refers to. *)
Inductive rr_item :=
| F6 (addr : list Z)
| F4 (addr : list Z)
| FByte (v : Z)
| FShort (v : Z)
| FLong (v : Z)
| FName (name : cstring)
| FText (len : Z) (sval : list Z)
| FString (sval : option cstring).

(** [memcpy(p, sval, n)] after its limit check; [None] is the jump to
    [truncated]. *)
Definition put_mem (limit : option Z) (buf : list Z) (p n : Z) (sval : list Z) : res (list Z * option Z) :=
  if over limit (p + n) then Ok (buf, None)
  else if zlen sval <? n then Oob
  else buf ← put_bytes buf p (take (Z.to_nat n) sval); Ok (buf, Some (p + n)).

(** A name and its terminating zero. *)
Definition put_name (dnssec : bool) (limit : option Z) (buf : list Z) (p : Z) (name : cstring)
    : res (list Z * option Z) :=
  '(buf, r) ← do_rfc1035_name dnssec buf p name limit;
  match r with
  | None => Ok (buf, None)
  | Some p =>
      if over limit (p + 1) then Ok (buf, None)
      else buf ← wr buf p 0; Ok (buf, Some (p + 1))
  end.

Definition put_short (limit : option Z) (buf : list Z) (p v : Z) : res (list Z * option Z) :=
  if over limit (p + 2) then Ok (buf, None)
  else '(buf, p) ← PUTSHORT buf p v; Ok (buf, Some p).

Definition put_item (dnssec : bool) (limit : option Z) (buf : list Z) (p : Z) (i : rr_item)
    : res (list Z * option Z) :=
  match i with
  | F6 addr => put_mem limit buf p 16 addr
  | F4 addr => put_mem limit buf p 4 addr
  | FByte v => if over limit (p + 1) then Ok (buf, None) else buf ← wr buf p (u16 v); Ok (buf, Some (p + 1))
  | FShort v => put_short limit buf p (u16 v)
  | FLong v =>
      if over limit (p + 4) then Ok (buf, None)
      else '(buf, p) ← PUTLONG buf p v; Ok (buf, Some p)
  | FName name => put_name dnssec limit buf p name
  | FText len sval => put_mem limit buf p (u16 len) sval
  | FString sval =>
      let usval := u16 (strlen (default [] sval)) in
      let usval := if 255 <? usval then 255 else usval in
      if over limit (p + (usval + 1)) then Ok (buf, None)
      else
        buf ← wr buf p usval;
        buf ← put_bytes buf (p + 1) (take (Z.to_nat usval) (default [] sval));
        Ok (buf, Some (p + 1 + usval))
  end.

(** The loop over the format; [off] is [*offset], where the last name was
    put. *)
Fixpoint put_items (dnssec : bool) (limit : option Z) (buf : list Z) (p : Z) (off : option Z)
    (items : list rr_item) : res (list Z * option Z * option Z) :=
  match items with
  | [] => Ok (buf, Some p, off)
  | i :: items =>
      let off := match i with FName _ => Some p | _ => off end in
      '(buf, r) ← put_item dnssec limit buf p i;
      match r with
      | None => Ok (buf, None, off)
      | Some p => put_items dnssec limit buf p off items
      end
  end.

(** The owner name: [name] is the first variable argument, used when
    [nameoffset] is not positive. *)
Definition put_owner (dnssec : bool) (limit : option Z) (buf : list Z) (p nameoffset : Z)
    (name : option cstring) : res (list Z * option Z) :=
  if 0 <? nameoffset then put_short limit buf p (Z.lor nameoffset 49152)
  else
    '(buf, r) ← match name with Some n => do_rfc1035_name dnssec buf p n limit | None => Ok (buf, Some p) end;
    match r with
    | None => Ok (buf, None)
    | Some p =>
        if nameoffset <? 0 then put_short limit buf p (Z.lor (- nameoffset) 49152)
        else if over limit (p + 1) then Ok (buf, None)
        else buf ← wr buf p 0; Ok (buf, Some (p + 1))
    end.

(** The type, class, lifetime and a placeholder for the length, ten bytes. *)
Definition put_fixed (limit : option Z) (buf : list Z) (p type class ttl : Z) : res (list Z * option Z) :=
  if over limit (p + 10) then Ok (buf, None)
  else
    '(buf, p) ← PUTSHORT buf p type; '(buf, p) ← PUTSHORT buf p class; '(buf, p) ← PUTLONG buf p ttl;
    '(buf, p) ← PUTSHORT buf p 0; Ok (buf, Some p).

(** The whole record from [p] on, up to a jump to [truncated]. *)
Definition put_record (dnssec : bool) (limit : option Z) (buf : list Z) (p nameoffset : Z) (name : option cstring)
    (type class ttl : Z) (items : list rr_item) : res (list Z * option Z * option Z) :=
  '(buf, r) ← put_owner dnssec limit buf p nameoffset name;
  match r with
  | None => Ok (buf, None, None)
  | Some p =>
      '(buf, r) ← put_fixed limit buf p type class ttl;
      match r with
      | None => Ok (buf, None, None)
      | Some p =>
          let sav := p - 2 in
          '(buf, r, off) ← put_items dnssec limit buf p None items;
          match r with
          | None => Ok (buf, None, off)
          | Some p => '(buf, _) ← PUTSHORT buf sav (p - sav - 2); Ok (buf, Some p, off)
          end
      end
  end.

(** What the caller sees: the result, the buffer, [*pp], [*truncp] ([None] for a
    null pointer) and what was stored in [*offset]. *)
Record added := Added { a_ok : bool; a_buf : list Z; a_p : Z; a_trunc : option bool; a_offset : option Z }.

Definition add_resource_record (dnssec : bool) (buf : list Z) (limit : option Z) (truncp : option bool)
    (nameoffset pp ttl type class : Z) (name : option cstring) (items : list rr_item) : res added :=
  let truncated buf off := Added false buf pp (match truncp with Some _ => Some true | None => None end) off in
  if default false truncp then Ok (truncated buf None)
  else
    '(buf, r, off) ← put_record dnssec limit buf pp nameoffset name type class ttl items;
    match r with
    | None => Ok (truncated buf off)
    | Some p => Ok (Added true buf p truncp off)
    end.

(** * The header *)

Definition HB3_QR : Z := 128.
Definition HB3_OPCODE : Z := 120.
Definition HB3_AA : Z := 4.
Definition HB3_TC : Z := 2.
Definition HB4_RA : Z := 128.
Definition HB4_AD : Z := 32.
Definition HB4_RCODE : Z := 15.
Definition NOERROR : Z := 0.
Definition NXDOMAIN : Z := 3.
Definition REFUSED : Z := 5.
Definition F_QUERY : Z := 524288.

Definition SET_RCODE (buf : list Z) (code : Z) : res (list Z) :=
  b ← rd buf 3; wr buf 3 (Z.lor (Z.land b (Z.lnot HB4_RCODE)) code).

(** The flags of the question, its name and its type. With the result 0 there
    is no question, and what a malformed one left in the buffer for the name is
    not represented. *)
Definition extract_request (dnssec : bool) (buf : list Z) (qlen : Z) : res (Z * cstring * Z) :=
  qd ← qdcount buf; hb3 ← rd buf 2;
  if negb (qd =? 1) || negb (Z.land hb3 HB3_OPCODE =? 0) then Ok (0, [], 0)
  else
    an ← ancount buf; ns ← nscount buf;
    if negb (flag hb3 HB3_QR) && (negb (an =? 0) || negb (ns =? 0)) then Ok (0, [], 0)
    else
      r ← catch (extract_name dnssec buf qlen HDRSZ [] true 4);
      match r with
      | None => Ok (0, [], 0)
      | Some (_, p, name) =>
          '(qtype, p) ← GETSHORT buf p; '(qclass, p) ← GETSHORT buf p;
          Ok (if (qclass =? C_IN) && (qtype =? T_A) then F_IPV4
              else if (qclass =? C_IN) && (qtype =? T_AAAA) then F_IPV6
              else if (qclass =? C_IN) && (qtype =? T_ANY) then Z.lor F_IPV4 F_IPV6
              else if dnssec && ((qtype =? T_DS) || (qtype =? T_DNSKEY)) then F_DNSSECOK
              else F_QUERY, name, qtype)
      end.

Definition setup_reply (buf : list Z) (flags : Z) : res (list Z) :=
  hb3 ← rd buf 2;
  buf ← wr buf 2 (Z.lor (Z.land hb3 (Z.lnot (Z.lor HB3_AA HB3_TC))) HB3_QR);
  hb4 ← rd buf 3;
  buf ← wr buf 3 (Z.lor (Z.land hb4 (Z.lnot HB4_AD)) HB4_RA);
  '(buf, _) ← PUTSHORT buf 8 0; '(buf, _) ← PUTSHORT buf 10 0; '(buf, _) ← PUTSHORT buf 6 0;
  if flags =? F_NOERR then SET_RCODE buf NOERROR
  else if flags =? F_NXDOMAIN then SET_RCODE buf NXDOMAIN
  else if flag flags (Z.lor F_IPV4 F_IPV6) then
    buf ← SET_RCODE buf NOERROR;
    hb3 ← rd buf 2; wr buf 2 (Z.lor hb3 HB3_AA)
  else SET_RCODE buf REFUSED.

(** * Answers from the configuration *)

(** One of the two loops of [make_local_answer] over the servers from [first]
    to [last]: the records added to those counted in [count]. *)
Fixpoint local_records (buf : list Z) (limit : option Z) (trunc : bool) (p ttl type : Z) (v6 : bool)
    (servers : list server) (count : Z) : res (list Z * Z * bool * Z) :=
  match servers with
  | [] => Ok (buf, p, trunc, count)
  | srv :: servers =>
      let addr := if sflag srv SERV_ALL_ZEROS then repeat 0 16 else local_addr srv in
      a ← add_resource_record false buf limit (Some trunc) HDRSZ p ttl type C_IN None [if v6 then F6 addr else F4 addr];
      local_records (a_buf a) limit (default false (a_trunc a)) (a_p a) ttl type v6 servers
        (count + zb (a_ok a))
  end.

(** The length of the reply and the packet; [servers] is the slice of the
    array from [first] to [last]. *)
Definition make_local_answer (flags gotname size : Z) (buf : list Z) (limit : option Z) (ttl : Z)
    (servers : list server) : res (Z * list Z) :=
  buf ← setup_reply buf flags;
  r ← catch (skip_questions buf size);
  match r with
  | None => Ok (0, buf)
  | Some p =>
      '(buf, p, trunc, count) ←
        (if flag (Z.land flags gotname) F_IPV4 then local_records buf limit false p ttl T_A false servers 0
         else Ok (buf, p, false, 0));
      '(buf, p, trunc, count) ←
        (if flag (Z.land flags gotname) F_IPV6 then local_records buf limit trunc p ttl T_AAAA true servers count
         else Ok (buf, p, trunc, count));
      buf ← (if trunc : bool then hb3 ← rd buf 2; wr buf 2 (Z.lor hb3 HB3_TC) else Ok buf);
      '(buf, _) ← PUTSHORT buf 6 count;
      Ok (p, buf)
  end.
