(* ===== verification/RecordsSpec.v ===== *)
(** What [Records] writes: the bytes of a resource record when they fit below
    the limit and nothing past it otherwise, and that the records written are
    those the section skippers read. *)
From S2P Require Import Prelude Hostname Wire WireSafe WireSpec WireExt Cache DomainMatch Records.

(** * Writers *)

(** [raw] stores [bs] at the pointer and advances it. *)
Definition writes (raw : list Z → Z → res (list Z * Z)) (bs : list Z) : Prop :=
  ∀ pre old post, zlen old = zlen bs → raw (pre ++ old ++ post) (zlen pre) = Ok (pre ++ bs ++ post, zlen pre + zlen bs).

(** [e] stores [bs] when that ends by the limit. Otherwise it reports
    truncation, having changed nothing before the pointer or from the limit
    on. *)
Definition emits (e : option Z → list Z → Z → res (list Z * option Z)) (bs : list Z) : Prop :=
  ∀ limit pre, over limit (zlen pre) = false →
    (∀ old post, over limit (zlen pre + zlen bs) = false → zlen old = zlen bs →
      e limit (pre ++ old ++ post) (zlen pre) = Ok (pre ++ bs ++ post, Some (zlen pre + zlen bs))) ∧
    (∀ l old post, limit = Some l → l < zlen pre + zlen bs → zlen pre + zlen old = l →
      ∃ old', zlen old' = zlen old ∧ e limit (pre ++ old ++ post) (zlen pre) = Ok (pre ++ old' ++ post, None)).

Lemma split_zlen (l : list Z) n : 0 ≤ n ≤ zlen l → ∃ a b, l = a ++ b ∧ zlen a = n.
Proof.
  intros Hn. exists (take (Z.to_nat n) l), (drop (Z.to_nat n) l). rewrite take_drop. split; [done|].
  unfold zlen in *. rewrite length_take. lia.
Qed.

Lemma writes_byte v : writes (λ buf p, buf ← wr buf p v; Ok (buf, p + 1)) [u8 v].
Proof.
  intros pre [|o [|? ?]] post Ho; rewrite ?zlen_cons, ?zlen_nil in Ho; [lia| |pose proof (zlen_nonneg l); lia].
  cbn [app]. by rewrite wr_middle.
Qed.

Lemma writes_app r1 r2 b1 b2 :
  writes r1 b1 → writes r2 b2 → writes (λ buf p, '(buf, p) ← r1 buf p; r2 buf p) (b1 ++ b2).
Proof.
  intros H1 H2 pre old post Ho. rewrite zlen_app in Ho. pose proof (zlen_nonneg b1). pose proof (zlen_nonneg b2).
  destruct (split_zlen old (zlen b1)) as (o1 & o2 & -> & E1); [lia|]. rewrite zlen_app in Ho.
  rewrite <- app_assoc, H1 by done. cbn [mbind res_bind].
  rewrite (app_assoc pre), <- zlen_app, H2 by lia. by rewrite !zlen_app, <- !app_assoc, Z.add_assoc.
Qed.

Lemma wr_after pre k x post b i : i = zlen pre + zlen k → wr (pre ++ k ++ x :: post) i b = Ok (pre ++ k ++ u8 b :: post).
Proof. intros ->. rewrite !(app_assoc pre), <- zlen_app. apply wr_middle. Qed.

Lemma writes_short v : writes (λ buf p, PUTSHORT buf p v) (short_bytes v).
Proof.
  intros pre old post Ho. apply (zlen_inv _ 2) in Ho. destruct old as [|a [|b [|? ?]]]; try done.
  unfold PUTSHORT. cbn [app]. rewrite wr_middle. cbn [mbind res_bind].
  set (x := u8 (Z.shiftr (u16 v) 8)). pose proof (wr_after pre [x] b post (u16 v) (zlen pre + 1) eq_refl) as H. cbn [app] in H.
  by rewrite H.
Qed.

Lemma writes_long v : writes (λ buf p, PUTLONG buf p v) (long_bytes v).
Proof.
  intros pre old post Ho. apply (zlen_inv _ 4) in Ho. destruct old as [|a [|b [|c [|d [|? ?]]]]]; try done.
  unfold PUTLONG. cbn [app]. rewrite wr_middle. cbn [mbind res_bind].
  set (x := u8 (Z.shiftr (u32 v) 24)). set (y := Z.shiftr (u32 v) 16). set (z := Z.shiftr (u32 v) 8).
  pose proof (wr_after pre [x] b (c :: d :: post) y (zlen pre + 1) eq_refl) as H1. cbn [app] in H1. rewrite H1. cbn [mbind res_bind].
  pose proof (wr_after pre [x; u8 y] c (d :: post) z (zlen pre + 2) eq_refl) as H2. cbn [app] in H2. rewrite H2. cbn [mbind res_bind].
  pose proof (wr_after pre [x; u8 y; u8 z] d post (u32 v) (zlen pre + 3) eq_refl) as H3. cbn [app] in H3. by rewrite H3.
Qed.

(** A block behind one limit check. *)
Lemma emits_block raw bs :
  bs ≠ [] → writes raw bs →
  emits (λ limit buf p, if over limit (p + zlen bs) then Ok (buf, None) else '(buf, p) ← raw buf p; Ok (buf, Some p)) bs.
Proof.
  intros Hne Hw limit pre Hpre. split.
  - intros old post -> Ho. by rewrite Hw.
  - intros l old post -> Hl Ho. exists old. split; [done|]. simpl. by rewrite (proj2 (Z.ltb_lt l _) Hl).
Qed.

Lemma emits_app e1 e2 b1 b2 :
  emits e1 b1 → emits e2 b2 →
  emits (λ limit buf p, '(buf, r) ← e1 limit buf p; match r with None => Ok (buf, None) | Some p => e2 limit buf p end) (b1 ++ b2).
Proof.
  intros H1 H2 limit pre Hpre. pose proof (zlen_nonneg b1). pose proof (zlen_nonneg b2).
  destruct (over limit (zlen pre + zlen b1)) eqn:Eo.
  { split.
    - intros old post Ho. exfalso. rewrite zlen_app in Ho. destruct limit; simpl in *; lia.
    - intros l old post -> Hl Ho. simpl in Eo. destruct (proj2 (H1 (Some l) pre Hpre) l old post eq_refl ltac:(lia) Ho) as (old' & E & ->).
      exists old'. by split. }
  split.
  - intros old post Ho El. rewrite zlen_app in Ho, El. destruct (split_zlen old (zlen b1)) as (o1 & o2 & -> & E1); [lia|].
    rewrite zlen_app in El. rewrite <- app_assoc. rewrite (proj1 (H1 limit pre Hpre)) by done. cbn [mbind res_bind].
    rewrite (app_assoc pre), <- zlen_app. rewrite (proj1 (H2 limit (pre ++ b1) ltac:(by rewrite zlen_app)));
      [by rewrite !zlen_app, <- !app_assoc, Z.add_assoc| |lia]. rewrite zlen_app. by rewrite <- Z.add_assoc.
  - intros l old post -> Hl El. rewrite zlen_app in Hl. simpl in Eo. destruct (split_zlen old (zlen b1)) as (o1 & o2 & -> & E1); [lia|].
    rewrite zlen_app in El. rewrite <- app_assoc. rewrite (proj1 (H1 (Some l) pre Hpre)) by done. cbn [mbind res_bind].
    rewrite (app_assoc pre), <- zlen_app.
    destruct (proj2 (H2 (Some l) (pre ++ b1) ltac:(by rewrite zlen_app)) l o2 post eq_refl) as (o2' & E2 & ->);
      [rewrite zlen_app; lia|rewrite zlen_app; lia|].
    exists (b1 ++ o2'). rewrite !zlen_app, <- !app_assoc. split; [lia|done].
Qed.

(** * Names *)

Lemma put_label_trunc dnssec limit l t pre old post rest j :
  enc_label dnssec l = Some t → zlen pre + zlen old = limit → limit < zlen pre + zlen l →
  ∃ old', zlen old' = zlen old ∧
    put_label dnssec (Some limit) (pre ++ old ++ post) (zlen pre) (t ++ rest) j = Ok (pre ++ old' ++ post, None).
Proof.
  revert t pre old j. induction l as [|c l IH]; intros t pre old j Ht Hlim Hl.
  { rewrite zlen_nil in Hl. pose proof (zlen_nonneg old). lia. }
  simpl in Ht. apply bind_Some in Ht as (u & Hu & (v & Hv & [= <-])%bind_Some). rewrite zlen_cons in Hl.
  assert (∀ b, ∃ old', zlen old' = zlen old ∧
    (if over (Some limit) (zlen pre + 1) then Ok (pre ++ old ++ post, None)
     else buf ← wr (pre ++ old ++ post) (zlen pre) b; put_label dnssec (Some limit) buf (zlen pre + 1) (v ++ rest) (j + 1))
    = Ok (pre ++ old' ++ post, None)) as Hstep.
  { intros b. destruct old as [|o old].
    - exists []. split; [done|]. rewrite zlen_nil in Hlim. simpl. by rewrite (proj2 (Z.ltb_lt limit _)) by lia.
    - rewrite zlen_cons in Hlim. simpl. rewrite (proj2 (Z.ltb_ge limit _)) by (pose proof (zlen_nonneg old); lia).
      rewrite wr_middle. cbn [mbind res_bind].
      destruct (IH v (pre ++ [u8 b]) old (j + 1) Hv) as (old' & E & H); [rewrite zlen_snoc; lia|rewrite zlen_snoc; lia|].
      rewrite zlen_snoc, <- !app_assoc in H. exists (u8 b :: old'). rewrite !zlen_cons. split; [lia|exact H]. }
  unfold enc_byte in Hu. destruct dnssec.
  - destruct ((c =? 0) || (c =? dot) || (c =? NAME_ESCAPE)) eqn:Esp; simplify_eq.
    + cbn [app put_label]. replace (NAME_ESCAPE =? dot) with false by done. cbn [andb]. rewrite Z.eqb_refl. apply Hstep.
    + bool_hyps. cbn [app put_label]. rewrite (proj2 (Z.eqb_neq c dot)) by done.
      rewrite (proj2 (Z.eqb_neq c NAME_ESCAPE)) by done. cbn [andb]. apply Hstep.
  - destruct (negb (c =? 0) && negb (c =? dot)) eqn:Esp; simplify_eq. bool_hyps.
    cbn [app put_label]. rewrite (proj2 (Z.eqb_neq c dot)) by done. cbn [andb]. apply Hstep.
Qed.

Lemma rfc1035_name_loop_trunc dnssec limit fuel L name pre old post :
  Forall good_label L → join dnssec L = Some name → (length L < fuel)%nat →
  zlen pre + zlen old = limit → limit < zlen pre + wire_len L →
  ∃ old', zlen old' = zlen old ∧
    rfc1035_name_loop dnssec (Some limit) fuel (pre ++ old ++ post) (zlen pre) name = Ok (pre ++ old' ++ post, None).
Proof.
  intros HL. revert fuel name pre old. induction HL as [|l L [Hl Hb] HL IH]; intros fuel name pre old Hj Hf Ho Hlt.
  { simpl in Hlt. pose proof (zlen_nonneg old). lia. }
  destruct fuel as [|fuel]; [simpl in Hf; lia|]. simpl in Hf. cbn [wire_len foldr] in Hlt. fold (wire_len L) in Hlt.
  apply join_cons in Hj as (t & rest & Ht & -> & Hr & Hj & _). pose proof (enc_label_length _ _ _ Ht) as Htl.
  destruct (t ++ rest) as [|c s] eqn:Es.
  { apply app_eq_nil in Es as [-> _]. unfold zlen in Hl. simpl in Htl. lia. }
  cbn [rfc1035_name_loop over]. rewrite <- Es. destruct old as [|o old].
  { exists []. rewrite zlen_nil in Ho. rewrite (proj2 (Z.ltb_lt limit _)) by lia. done. }
  rewrite zlen_cons in Ho. pose proof (zlen_nonneg old). rewrite (proj2 (Z.ltb_ge limit _)) by lia.
  rewrite <- (zlen_snoc pre o). replace (pre ++ (o :: old) ++ post) with ((pre ++ [o]) ++ old ++ post) by (by rewrite <- app_assoc).
  destruct (Z.lt_ge_cases limit (zlen pre + 1 + zlen l)) as [Hlab|Hlab].
  - destruct (put_label_trunc dnssec limit l t (pre ++ [o]) old post rest 0 Ht) as (old' & E & ->); [rewrite zlen_snoc; lia..|].
    cbn [mbind res_bind]. exists (o :: old'). rewrite !zlen_cons, <- app_assoc. split; [lia|done].
  - destruct (split_zlen old (zlen l)) as (m1 & m2 & -> & E1); [lia|]. rewrite zlen_app in Ho.
    rewrite <- (app_assoc m1).
    rewrite (put_label_spec dnssec (Some limit) l t (pre ++ [o]) m1 (m2 ++ post) rest 0 Ht Hb);
      [|unfold zlen in E1; lia|done|rewrite zlen_snoc; simpl; lia].
    cbn [mbind res_bind]. rewrite <- app_assoc. cbn [app]. rewrite wr_middle. cbn [mbind res_bind].
    rewrite (u8_id (0 + zlen l)) by (unfold is_byte; lia). rewrite Z.add_0_l, zlen_snoc.
    specialize (IH fuel (tail rest) (pre ++ zlen l :: l) m2 Hj ltac:(lia)).
    rewrite zlen_app, zlen_cons, <- !app_assoc in IH. cbn [app] in IH.
    destruct IH as (m2' & E2 & H2); [lia..|]. exists (zlen l :: l ++ m2'). rewrite !zlen_cons, !zlen_app. split; [lia|].
    replace (zlen pre + 1 + zlen l) with (zlen pre + (1 + zlen l)) by lia. rewrite H2. cbn [app]. by rewrite <- !app_assoc.
Qed.

(** A name that can be written, and its labels. *)
Definition name_labels (dnssec : bool) (name : cstring) (L : list (list Z)) : Prop :=
  Forall good_label L ∧ join dnssec L = Some name.

Lemma emits_name dnssec name L :
  name_labels dnssec name L → emits (λ limit buf p, do_rfc1035_name dnssec buf p name limit) (wire L).
Proof.
  intros [HL Hj] limit pre Hpre. pose proof (join_length _ _ _ HL Hj). unfold do_rfc1035_name. rewrite zlen_wire. split.
  - intros old post Ho El. apply rfc1035_name_loop_spec; try done. lia.
  - intros l old post -> Hl Ho. apply (rfc1035_name_loop_trunc dnssec l (S (length name)) L name pre old post HL Hj); [lia|done..].
Qed.

Lemma emits_ext e e' bs : (∀ limit buf p, e limit buf p = e' limit buf p) → emits e bs → emits e' bs.
Proof.
  intros He H limit pre Hpre. destruct (H limit pre Hpre) as [H1 H2]. split.
  - intros old post Ho El. rewrite <- He. by apply H1.
  - intros l old post Hl Hlt Ho. rewrite <- He. by apply (H2 l).
Qed.

Lemma emits_short v : emits (λ limit buf p, put_short limit buf p v) (short_bytes v).
Proof. eapply emits_ext; [|by apply emits_block, writes_short]. done. Qed.

Lemma emits_zero : emits (λ limit buf p, if over limit (p + 1) then Ok (buf, None) else buf ← wr buf p 0; Ok (buf, Some (p + 1))) [0].
Proof.
  eapply emits_ext; [|apply emits_block; [|apply (writes_byte 0)]; done]. intros limit buf p. cbn beta. change (zlen [0]) with 1.
  destruct (over limit (p + 1)); [done|]. by destruct (wr buf p 0).
Qed.

Lemma emits_put_name dnssec name L :
  name_labels dnssec name L → emits (λ limit buf p, put_name dnssec limit buf p name) (wire L ++ [0]).
Proof. intros H. by apply (emits_app _ _ _ _ (emits_name dnssec name L H) emits_zero). Qed.

(** * Items *)

(** The bytes of an item. *)
Inductive item_bytes (dnssec : bool) : rr_item → list Z → Prop :=
| ib_6 a : length a = 16%nat → Forall is_byte a → item_bytes dnssec (F6 a) a
| ib_4 a r : length a = 4%nat → Forall is_byte a → item_bytes dnssec (F4 (a ++ r)) a
| ib_byte v : item_bytes dnssec (FByte v) [u8 v]
| ib_short v : item_bytes dnssec (FShort v) (short_bytes v)
| ib_long v : item_bytes dnssec (FLong v) (long_bytes v)
| ib_name name L : name_labels dnssec name L → item_bytes dnssec (FName name) (wire L ++ [0])
| ib_text t r : zlen t < 65536 → Forall is_byte t → item_bytes dnssec (FText (zlen t) (t ++ r)) t
| ib_string s : zlen s < 65536 → Forall is_byte s →
    item_bytes dnssec (FString (Some s)) (Z.min 255 (zlen s) :: take 255 s).

Lemma u8_u16 v : u8 (u16 v) = u8 v.
Proof. unfold u8, u16. dlia. Qed.
Lemma short_bytes_u16 v : short_bytes (u16 v) = short_bytes v.
Proof. unfold short_bytes. replace (u16 (u16 v)) with (u16 v) by (unfold u16; dlia). done. Qed.

Lemma emits_mem bs r :
  Forall is_byte bs → emits (λ limit buf p, put_mem limit buf p (zlen bs) (bs ++ r)) bs.
Proof.
  intros Hb limit pre Hpre. unfold put_mem. split.
  - intros old post -> Ho. rewrite zlen_app, (proj2 (Z.ltb_ge _ _)) by (pose proof (zlen_nonneg r); lia).
    replace (take (Z.to_nat (zlen bs)) (bs ++ r)) with bs by (unfold zlen; by rewrite Nat2Z.id, take_app_length).
    by rewrite put_bytes_at.
  - intros l old post -> Hl Ho. exists old. simpl. by rewrite (proj2 (Z.ltb_lt l _) Hl).
Qed.

Lemma emits_item dnssec i bs : item_bytes dnssec i bs → emits (λ limit buf p, put_item dnssec limit buf p i) bs.
Proof.
  intros [a Ha Hb|a r Ha Hb|v|v|v|name L H|t r Ht Hb|s Hs Hb]; cbn [put_item].
  - replace 16 with (zlen a) by (unfold zlen; lia). eapply emits_ext; [|by apply (emits_mem a [])]. intros. by rewrite app_nil_r.
  - replace 4 with (zlen a) by (unfold zlen; lia). by apply emits_mem.
  - rewrite <- u8_u16. eapply emits_ext; [|by apply emits_block, writes_byte]. intros limit buf p.
    cbn beta. change (zlen [u8 (u16 v)]) with 1. destruct (over limit (p + 1)); [done|]. by destruct (wr buf p _).
  - rewrite <- short_bytes_u16. apply emits_short.
  - eapply emits_ext; [|by apply emits_block, writes_long]. done.
  - by apply emits_put_name.
  - replace (u16 (zlen t)) with (zlen t) by (pose proof (zlen_nonneg t); by rewrite u16_id by lia). by apply emits_mem.
  - pose proof (zlen_nonneg s). unfold strlen. cbn [default from_option id]. rewrite u16_id by lia.
    set (n := if 255 <? zlen s then 255 else zlen s). replace (Z.min 255 (zlen s)) with n by (unfold n; destruct (Z.ltb_spec 255 (zlen s)); lia).
    assert (take (Z.to_nat n) s = take 255 s) as Et.
    { unfold n. destruct (Z.ltb_spec 255 (zlen s)); [done|]. unfold zlen in *. rewrite Nat2Z.id. rewrite !take_ge by lia. done. }
    assert (zlen (take 255 s) = n) as En.
    { rewrite <- Et. unfold n, zlen in *. rewrite length_take. destruct (Z.ltb_spec 255 (Z.of_nat (length s))); lia. }
    assert (is_byte n) as Hn by (unfold is_byte, n; destruct (Z.ltb_spec 255 (zlen s)); lia).
    eapply emits_ext; [|apply (emits_block (λ buf p, buf ← wr buf p n; buf ← put_bytes buf (p + 1) (take 255 s); Ok (buf, p + 1 + n)) (n :: take 255 s)); [done|]].
    + intros limit buf p. cbn beta. rewrite Et, zlen_cons, En, (Z.add_comm 1 n). destruct (over limit (p + (n + 1))); [done|].
      destruct (wr buf p n) as [b| | |]; [|done..]. cbn [mbind res_bind]. by destruct (put_bytes b _ _).
    + intros pre [|o old] post Ho; rewrite !zlen_cons in Ho; [pose proof (zlen_nonneg (take 255 s)); rewrite zlen_nil in Ho; lia|].
      cbn [app]. rewrite wr_middle, u8_id by done. cbn [mbind res_bind].
      pose proof (put_bytes_at (take 255 s) (pre ++ [n]) old post) as H'. rewrite zlen_snoc, <- !app_assoc in H'.
      cbn [app] in H'. rewrite H' by (lia || by apply Forall_take). cbn [mbind res_bind]. by rewrite zlen_cons, En, Z.add_assoc.
Qed.

Lemma emits_nil : emits (λ _ buf p, Ok (buf, Some p)) [].
Proof.
  intros limit pre Hpre. split.
  - intros [|o old] post _ Ho; [by rewrite zlen_nil, Z.add_0_r|]. rewrite zlen_cons, zlen_nil in Ho. pose proof (zlen_nonneg old). lia.
  - intros l old post -> Hl Ho. rewrite zlen_nil in Hl. pose proof (zlen_nonneg old). lia.
Qed.

(** [*offset] does not influence what is written. *)
Lemma put_items_off dnssec limit buf p off off' items :
  ('(buf, r, _) ← put_items dnssec limit buf p off items; Ok (buf, r)) =
  ('(buf, r, _) ← put_items dnssec limit buf p off' items; Ok (buf, r)).
Proof.
  revert buf p off off'. induction items as [|i items IH]; intros buf p off off'; [done|]. cbn [put_items].
  destruct (put_item dnssec limit buf p i) as [[b [p'|]]| | |]; cbn [mbind res_bind]; try done.
Qed.

Lemma emits_items dnssec off items bss :
  Forall2 (item_bytes dnssec) items bss →
  emits (λ limit buf p, '(buf, r, _) ← put_items dnssec limit buf p off items; Ok (buf, r)) (mjoin bss).
Proof.
  intros H. revert off. induction H as [|i bs items bss Hi H IH]; intros off; [apply emits_nil|].
  cbn [mjoin list_join]. eapply emits_ext; [|apply emits_app; [by apply (emits_item dnssec i)|apply (IH None)]].
  intros limit buf p. cbn beta. cbn [put_items].
  destruct (put_item dnssec limit buf p i) as [[b [p'|]]| | |]; cbn [mbind res_bind]; try done. apply put_items_off.
Qed.

(** * Owner names *)

Inductive owner_bytes (dnssec : bool) (nameoffset : Z) : option cstring → list Z → Prop :=
| ob_pointer name : 0 < nameoffset → owner_bytes dnssec nameoffset name (short_bytes (Z.lor nameoffset 49152))
| ob_root : nameoffset = 0 → owner_bytes dnssec nameoffset None [0]
| ob_name n L : nameoffset = 0 → name_labels dnssec n L → owner_bytes dnssec nameoffset (Some n) (wire L ++ [0])
| ob_under n L : nameoffset < 0 → name_labels dnssec n L →
    owner_bytes dnssec nameoffset (Some n) (wire L ++ short_bytes (Z.lor (- nameoffset) 49152))
| ob_bare : nameoffset < 0 → owner_bytes dnssec nameoffset None (short_bytes (Z.lor (- nameoffset) 49152)).

Lemma emits_owner dnssec nameoffset name bs :
  owner_bytes dnssec nameoffset name bs → emits (λ limit buf p, put_owner dnssec limit buf p nameoffset name) bs.
Proof.
  intros [name' Hn|Hn|n L Hn HL|n L Hn HL|Hn]; unfold put_owner.
  - rewrite (proj2 (Z.ltb_lt 0 _)) by done. apply emits_short.
  - subst nameoffset. apply (emits_app _ _ [] _ emits_nil emits_zero).
  - subst nameoffset. apply (emits_app _ _ _ _ (emits_name dnssec n L HL) emits_zero).
  - rewrite (proj2 (Z.ltb_ge 0 _)), (proj2 (Z.ltb_lt nameoffset 0)) by lia. apply (emits_app _ _ _ _ (emits_name dnssec n L HL) (emits_short _)).
  - rewrite (proj2 (Z.ltb_ge 0 _)), (proj2 (Z.ltb_lt nameoffset 0)) by lia. apply (emits_app _ _ [] _ emits_nil (emits_short _)).
Qed.

Definition fixed_bytes (type class ttl rdlen : Z) : list Z :=
  short_bytes type ++ short_bytes class ++ long_bytes ttl ++ short_bytes rdlen.

Lemma emits_fixed type class ttl : emits (λ limit buf p, put_fixed limit buf p type class ttl) (fixed_bytes type class ttl 0).
Proof.
  eapply emits_ext; [|apply emits_block; [done|]].
  2: exact (writes_app _ _ _ _ (writes_short type) (writes_app _ _ _ _ (writes_short class) (writes_app _ _ _ _ (writes_long ttl) (writes_short 0)))).
  intros limit buf p. cbn beta. unfold put_fixed. change (zlen (fixed_bytes type class ttl 0)) with 10. destruct (over limit (p + 10)); [done|].
  destruct (PUTSHORT buf p type) as [[b1 p1]| | |]; [|done..]. cbn [mbind res_bind].
  destruct (PUTSHORT b1 p1 class) as [[b2 p2]| | |]; [|done..]. cbn [mbind res_bind].
  destruct (PUTLONG b2 p2 ttl) as [[b3 p3]| | |]; done.
Qed.

(** * Records *)

Definition record_bytes (own : list Z) (type class ttl : Z) (rd : list Z) : list Z :=
  own ++ fixed_bytes type class ttl (zlen rd) ++ rd.

Lemma emits_record dnssec nameoffset name type class ttl items own bss :
  owner_bytes dnssec nameoffset name own → Forall2 (item_bytes dnssec) items bss →
  emits (λ limit buf p, '(buf, r, _) ← put_record dnssec limit buf p nameoffset name type class ttl items; Ok (buf, r))
    (record_bytes own type class ttl (mjoin bss)).
Proof.
  intros Ho Hi. set (rd := mjoin bss). pose proof (emits_owner _ _ _ _ Ho) as Eo. pose proof (emits_fixed type class ttl) as Ef.
  pose proof (emits_items dnssec None items bss Hi) as Ei. intros limit pre Hpre. unfold put_record, record_bytes.
  set (f0 := fixed_bytes type class ttl 0) in *. set (f := fixed_bytes type class ttl (zlen rd)).
  assert (zlen f0 = 10 ∧ zlen f = 10) as [Ef0 Ef1] by done.
  pose proof (zlen_nonneg own). pose proof (zlen_nonneg rd). split.
  - intros old post Hlim Hold. rewrite !zlen_app in Hlim, Hold.
    destruct (split_zlen old (zlen own)) as (o1 & o2' & -> & E1); [lia|]. rewrite zlen_app in Hold.
    destruct (split_zlen o2' (zlen f0)) as (o2 & o3 & -> & E2); [lia|]. rewrite zlen_app in Hold.
    rewrite <- !app_assoc. rewrite (proj1 (Eo limit pre Hpre)) by (done || (destruct limit; simpl in *; lia)). cbn [mbind res_bind].
    rewrite (app_assoc pre own), <- zlen_app.
    rewrite (proj1 (Ef limit (pre ++ own) ltac:(rewrite zlen_app; destruct limit; simpl in *; lia))) by (done || (rewrite zlen_app; destruct limit; simpl in *; lia)).
    cbn [mbind res_bind]. rewrite (app_assoc (pre ++ own) f0), <- zlen_app.
    assert (over limit (zlen ((pre ++ own) ++ f0)) = false) as Hpre3 by (rewrite !zlen_app; destruct limit; simpl in *; lia).
    pose proof (proj1 (Ei limit ((pre ++ own) ++ f0) Hpre3) o3 post ltac:(rewrite !zlen_app; fold rd; destruct limit; simpl in *; lia) ltac:(fold rd; lia)) as H3.
    cbn beta in H3. destruct (put_items dnssec limit _ _ None items) as [[[b3 [p3|]] off3]| | |]; cbn [mbind res_bind] in *; try done.
    injection H3 as -> ->. fold rd.
    replace (zlen ((pre ++ own) ++ f0) + zlen rd - (zlen ((pre ++ own) ++ f0) - 2) - 2) with (zlen rd) by lia.
    pose proof (writes_short (zlen rd) (pre ++ own ++ take 8 f0) (short_bytes 0) (rd ++ post) eq_refl) as W. cbn beta in W.
    replace (((pre ++ own) ++ f0) ++ rd ++ post) with ((pre ++ own ++ take 8 f0) ++ short_bytes 0 ++ rd ++ post) by (by rewrite <- !app_assoc).
    replace (zlen ((pre ++ own) ++ f0) - 2) with (zlen (pre ++ own ++ take 8 f0)) by (rewrite !zlen_app, Ef0; change (zlen (take 8 f0)) with 8; lia).
    rewrite W. cbn [mbind res_bind]. rewrite !zlen_app, Ef0, Ef1. f_equal. f_equal; [by rewrite <- !app_assoc|]. f_equal. lia.
  - intros l old post -> Hl Hold. destruct (proj2 (emits_app _ _ _ _ Eo (emits_app _ _ _ _ Ef Ei) (Some l) pre Hpre) l old post eq_refl) as (old' & E & H2).
    { rewrite !zlen_app in *. fold rd. lia. }
    { done. }
    exists old'. split; [done|]. destruct (put_owner _ _ _ _ _ _) as [[b1 [p1|]]| | |]; cbn [mbind res_bind] in *; try done.
    destruct (put_fixed _ b1 _ _ _ _) as [[b2 [p2|]]| | |]; cbn [mbind res_bind] in *; try done.
    destruct (put_items _ _ b2 _ _ _) as [[[b3 [p3|]] o3]| | |]; cbn [mbind res_bind] in *; done.
Qed.

(** * Reading records back *)

(** The first byte of a compression pointer. *)
Lemma pointer_type n : Z.land (u8 (Z.shiftr (u16 (Z.lor n 49152)) 8)) 192 = 192.
Proof.
  unfold u8, u16. change 256 with (2 ^ 8). change 65536 with (2 ^ 16).
  assert (∀ i, i = 6 ∨ i = 7 → Z.testbit (Z.shiftr (Z.lor n 49152 mod 2 ^ 16) 8 mod 2 ^ 8) i = true) as Hbit.
  { intros i Hi. rewrite Z.mod_pow2_bits_low, Z.shiftr_spec, Z.mod_pow2_bits_low, Z.lor_spec by lia.
    destruct Hi as [-> | ->]; apply orb_true_r. }
  apply Z.bits_inj'. intros i Hi. rewrite Z.land_spec.
  destruct (Z.eq_dec i 6) as [->|]; [by rewrite Hbit by auto|]. destruct (Z.eq_dec i 7) as [->|]; [by rewrite Hbit by auto|].
  assert (Z.testbit 192 i = false) as ->; [|apply andb_false_r].
  destruct (Z.lt_ge_cases i 8); [|apply Z.bits_above_log2; [lia|simpl; lia]].
  assert (i = 0 ∨ i = 1 ∨ i = 2 ∨ i = 3 ∨ i = 4 ∨ i = 5) as [->|[->|[->|[->|[->| ->]]]]] by lia; done.
Qed.

Lemma label_land l : 0 ≤ l < 64 → Z.land l 63 = l.
Proof. intros Hl. change 63 with (Z.ones 6). rewrite Z.land_ones by lia. apply Z.mod_small. change (2 ^ 6) with 64. lia. Qed.

Lemma skip_labels L pre post plen fuel :
  Forall good_label L → zlen pre + wire_len L ≤ plen →
  skip_name_loop (pre ++ wire L ++ post) plen (length L + fuel) (zlen pre) =
  skip_name_loop (pre ++ wire L ++ post) plen fuel (zlen pre + wire_len L).
Proof.
  intros HL. revert pre. induction HL as [|l L [Hl Hb] HL IH]; intros pre Hle; [by rewrite Z.add_0_r|].
  cbn [wire_len foldr] in Hle |- *. fold (wire_len L) in *. pose proof (wire_len_nonneg L) as [_ Hwl].
  rewrite wire_cons. cbn [length Nat.add skip_name_loop app]. unfold CHECK_LEN.
  rewrite (proj2 (Z.leb_le (zlen pre + 1) plen)) by lia. cbn [guard_ok mbind res_bind].
  rewrite (rd_middle pre (zlen l) _ (zlen pre)) by done. cbn [mbind res_bind].
  rewrite (label_type (zlen l)) by done. change (0 =? 192) with false. change (0 =? 128) with false. change (0 =? 64) with false.
  cbv iota. rewrite label_land by lia. unfold ADD_RDLEN, CHECK_LEN.
  rewrite (proj2 (Z.leb_le (zlen pre + 1 + zlen l) plen)) by lia. cbn [guard_ok mbind res_bind].
  rewrite (proj2 (Z.eqb_neq (zlen l) 0)) by lia.
  specialize (IH (pre ++ zlen l :: l)). rewrite zlen_app, zlen_cons, <- !app_assoc in IH. cbn [app] in IH.
  rewrite <- app_assoc. replace (zlen pre + 1 + zlen l) with (zlen pre + (1 + zlen l)) by lia. rewrite IH by lia. f_equal. lia.
Qed.

Lemma wire_zlen_le L : Forall good_label L → zlen L ≤ wire_len L.
Proof. induction 1 as [|l L [Hl _] HL IH]; [done|]. rewrite zlen_cons. simpl. lia. Qed.

(** The owner name of a record is skipped. *)
Lemma skip_owner dnssec nameoffset name own pre post plen extra :
  owner_bytes dnssec nameoffset name own → zlen pre + zlen own + extra ≤ plen → 0 ≤ extra →
  skip_name (pre ++ own ++ post) plen (zlen pre) extra = Ok (zlen pre + zlen own).
Proof.
  intros Ho Hle Hex. unfold skip_name.
  assert (∃ L e, own = wire L ++ e ∧ Forall good_label L ∧ (e = [0] ∨ ∃ n, e = short_bytes (Z.lor n 49152))) as (L & e & -> & HL & He).
  { destruct Ho as [name' Hn|Hn|n L Hn [HL _]|n L Hn [HL _]|Hn].
    - exists [], (short_bytes (Z.lor nameoffset 49152)). split_and!; [done|constructor|right; eauto].
    - exists [], [0]. split_and!; [done|constructor|by left].
    - exists L, [0]. split_and!; [done..|by left].
    - exists L, (short_bytes (Z.lor (- nameoffset) 49152)). split_and!; [done..|right; eauto].
    - exists [], (short_bytes (Z.lor (- nameoffset) 49152)). split_and!; [done|constructor|right; eauto]. }
  rewrite zlen_app, zlen_wire in Hle |- *. pose proof (zlen_nonneg pre). pose proof (wire_zlen_le L HL) as Hwz. pose proof (zlen_nonneg e).
  assert (0 < zlen e) by (destruct He as [->|[n ->]]; by vm_compute).
  rewrite <- app_assoc. replace (S (Z.to_nat plen)) with (length L + S (Z.to_nat plen - length L))%nat by (unfold zlen in *; lia).
  rewrite skip_labels by (done || lia). rewrite (app_assoc pre).
  replace (zlen pre + wire_len L) with (zlen (pre ++ wire L)) by (by rewrite zlen_app, zlen_wire).
  cbn [skip_name_loop]. set (q := zlen (pre ++ wire L)). assert (q = zlen pre + wire_len L) as Eq by (unfold q; by rewrite zlen_app, zlen_wire).
  unfold CHECK_LEN. rewrite (proj2 (Z.leb_le (q + 1) plen)) by lia. cbn [guard_ok mbind res_bind].
  destruct He as [->|[n ->]]; cbn [short_bytes app]; rewrite (rd_middle (pre ++ wire L) _ _ q) by done; cbn [mbind res_bind].
  - change (Z.land 0 192 =? 192) with false. change (Z.land 0 192 =? 128) with false. change (Z.land 0 192 =? 64) with false.
    change (Z.land 0 63) with 0. cbv iota. unfold ADD_RDLEN, CHECK_LEN. change (zlen [0]) with 1 in *.
    rewrite (proj2 (Z.leb_le (q + 1 + 0) plen)) by lia. cbn [guard_ok mbind res_bind]. change (0 =? 0) with true. cbv iota. cbn [mbind res_bind].
    rewrite (proj2 (Z.leb_le (q + 1 + 0 + extra) plen)) by lia. cbn [guard_ok mbind res_bind]. f_equal. lia.
  - rewrite pointer_type. change (192 =? 192) with true. cbv iota. cbn [mbind res_bind]. change (zlen (short_bytes (Z.lor n 49152))) with 2 in *.
    rewrite (proj2 (Z.leb_le (q + 2 + extra) plen)) by lia. cbn [guard_ok mbind res_bind]. f_equal. lia.
Qed.

(** C33. [add_resource_record] on a buffer with the room [room] at the pointer.
    When the encoded record ends by the limit it is stored there, nothing else
    changes and the pointer moves past it. When it does not, the truncation
    flag is set, the pointer stays and nothing before it or from the limit on
    changes. After an earlier truncation nothing is written. *)
Theorem add_resource_record_correct dnssec nameoffset name type class ttl items own bss limit pre room post trunc :
  owner_bytes dnssec nameoffset name own → Forall2 (item_bytes dnssec) items bss → over limit (zlen pre) = false →
  let bs := record_bytes own type class ttl (mjoin bss) in
  let add t := add_resource_record dnssec (pre ++ room ++ post) limit t nameoffset (zlen pre) ttl type class name items in
  (over limit (zlen pre + zlen bs) = false → zlen room = zlen bs → default false trunc = false →
    ∃ off, add trunc = Ok (Added true (pre ++ bs ++ post) (zlen pre + zlen bs) trunc off)) ∧
  (∀ l, limit = Some l → l < zlen pre + zlen bs → zlen pre + zlen room = l → default false trunc = false →
    ∃ room' off, zlen room' = zlen room ∧
      add trunc = Ok (Added false (pre ++ room' ++ post) (zlen pre) ((λ _, true) <$> trunc) off)) ∧
  add (Some true) = Ok (Added false (pre ++ room ++ post) (zlen pre) (Some true) None).
Proof.
  intros Ho Hi Hpre bs add.
  destruct (emits_record dnssec nameoffset name type class ttl items own bss Ho Hi limit pre Hpre) as [H1 H2].
  unfold add, add_resource_record. split_and!; [| |done].
  - intros Hlim Hroom ->. specialize (H1 room post Hlim Hroom). cbn beta in H1. fold bs in H1.
    destruct (put_record _ _ _ _ _ _ _ _ _ _) as [[[b r] off]| | |]; cbn [mbind res_bind] in *; try done.
    injection H1 as -> ->. by exists off.
  - intros l El Hlt Hroom ->. destruct (H2 l room post El Hlt Hroom) as (room' & E & H). exists room'. cbn beta in H.
    destruct (put_record _ _ _ _ _ _ _ _ _ _) as [[[b r] off]| | |]; cbn [mbind res_bind] in *; try done.
    injection H as -> ->. exists off. split; [done|]. by destruct trunc.
Qed.

(** An address record for the name of the question, with a text that does not fit. *)
Lemma add_resource_record_correct_witness :
  let add limit := add_resource_record false (repeat 0 12 ++ repeat 7 16) limit (Some false) 12 12 300 T_A C_IN None [F4 [192; 0; 2; 1]] in
  (∃ off, add (Some 28) = Ok (Added true (repeat 0 12 ++ [192; 12; 0; 1; 0; 1; 0; 0; 1; 44; 0; 4; 192; 0; 2; 1]) 28 (Some false) off)) ∧
  ∃ room' off, zlen room' = 15 ∧ add (Some 27) = Ok (Added false (repeat 0 12 ++ room' ++ [7]) 12 (Some true) off).
Proof.
  assert (Forall2 (item_bytes false) [F4 ([192; 0; 2; 1] ++ [])] [[192; 0; 2; 1]]) as Hi.
  { repeat constructor; unfold is_byte; lia. }
  split.
  - pose proof (add_resource_record_correct false 12 None T_A C_IN 300 _ (short_bytes (Z.lor 12 49152)) _ (Some 28)
      (repeat 0 12) (repeat 7 16) [] (Some false) ltac:(by constructor) Hi eq_refl) as (H & _). exact (H eq_refl eq_refl eq_refl).
  - pose proof (add_resource_record_correct false 12 None T_A C_IN 300 _ (short_bytes (Z.lor 12 49152)) _ (Some 27)
      (repeat 0 12) (repeat 7 15) [7] (Some false) ltac:(by constructor) Hi eq_refl) as (_ & H & _). exact (H 27 eq_refl eq_refl eq_refl eq_refl).
Defined.

(** The fields of a record that is somewhere in a packet. *)
Lemma fixed_fields pre type class ttl rdlen post :
  let buf := pre ++ fixed_bytes type class ttl rdlen ++ post in
  GETSHORT buf (zlen pre) = Ok (u16 type, zlen pre + 2) ∧ GETSHORT buf (zlen pre + 2) = Ok (u16 class, zlen pre + 4) ∧
  GETLONG buf (zlen pre + 4) = Ok (u32 ttl, zlen pre + 8) ∧ GETSHORT buf (zlen pre + 8) = Ok (u16 rdlen, zlen pre + 10).
Proof.
  intros buf. unfold buf, fixed_bytes. split_and!.
  - rewrite <- app_assoc. apply get_short.
  - pose proof (get_short (pre ++ short_bytes type) class (long_bytes ttl ++ short_bytes rdlen ++ post)) as H.
    rewrite zlen_app, <- !app_assoc in H. change (zlen (short_bytes type)) with 2 in H. rewrite <- !app_assoc. rewrite H. f_equal. f_equal. lia.
  - pose proof (get_long (pre ++ short_bytes type ++ short_bytes class) ttl (short_bytes rdlen ++ post)) as H.
    rewrite zlen_app, <- !app_assoc in H. change (zlen (short_bytes type ++ short_bytes class)) with 4 in H. rewrite <- !app_assoc. rewrite H. f_equal. f_equal. lia.
  - pose proof (get_short (pre ++ short_bytes type ++ short_bytes class ++ long_bytes ttl) rdlen post) as H.
    rewrite zlen_app, <- !app_assoc in H. change (zlen (short_bytes type ++ short_bytes class ++ long_bytes ttl)) with 8 in H.
    rewrite <- !app_assoc. rewrite H. f_equal. f_equal. lia.
Qed.

(** Skipping a record. *)
Lemma skip_record dnssec nameoffset name own type class ttl rd pre post plen n :
  owner_bytes dnssec nameoffset name own → zlen rd < 65536 →
  zlen pre + zlen (record_bytes own type class ttl rd) ≤ plen →
  skip_section (pre ++ record_bytes own type class ttl rd ++ post) plen (S n) (zlen pre) =
  skip_section (pre ++ record_bytes own type class ttl rd ++ post) plen n (zlen pre + zlen (record_bytes own type class ttl rd)).
Proof.
  intros Ho Hrd Hle. unfold record_bytes in *. rewrite !zlen_app in Hle |- *. change (zlen (fixed_bytes type class ttl (zlen rd))) with 10 in *.
  pose proof (zlen_nonneg rd). rewrite <- !app_assoc. cbn [skip_section]. rewrite (skip_owner _ _ _ _ _ _ _ _ Ho) by lia. cbn [mbind res_bind].
  destruct (fixed_fields (pre ++ own) type class ttl (zlen rd) (rd ++ post)) as (_ & _ & _ & H4).
  rewrite <- app_assoc, zlen_app in H4. rewrite H4. cbn [mbind res_bind]. rewrite u16_id by lia.
  unfold ADD_RDLEN, CHECK_LEN. rewrite (proj2 (Z.leb_le _ plen)) by lia. cbn [guard_ok mbind res_bind]. f_equal. lia.
Qed.

(** What was written is what is read: after a successful
    [add_resource_record] the section skipper passes from the start of the
    record to the new pointer, and the type, class, lifetime, length and data
    read there are those given. *)
Theorem record_read_back dnssec nameoffset name type class ttl items own bss pre room post trunc plen :
  owner_bytes dnssec nameoffset name own → Forall2 (item_bytes dnssec) items bss →
  let rd := mjoin bss in let bs := record_bytes own type class ttl rd in
  zlen rd < 65536 → zlen room = zlen bs → zlen pre + zlen bs ≤ plen → default false trunc = false →
  ∃ a, add_resource_record dnssec (pre ++ room ++ post) (Some plen) trunc nameoffset (zlen pre) ttl type class name items = Ok a ∧
    a_ok a = true ∧ skip_section (a_buf a) plen 1 (zlen pre) = Ok (a_p a) ∧
    let q := zlen pre + zlen own in
    skip_name (a_buf a) plen (zlen pre) 10 = Ok q ∧
    GETSHORT (a_buf a) q = Ok (u16 type, q + 2) ∧ GETSHORT (a_buf a) (q + 2) = Ok (u16 class, q + 4) ∧
    GETLONG (a_buf a) (q + 4) = Ok (u32 ttl, q + 8) ∧ GETSHORT (a_buf a) (q + 8) = Ok (zlen rd, q + 10) ∧
    slice (a_buf a) (q + 10) (length rd) = rd ∧ a_p a = q + 10 + zlen rd.
Proof.
  intros Ho Hi rd bs Hrd Hroom Hle Ht. pose proof (zlen_nonneg rd). pose proof (zlen_nonneg own). pose proof (zlen_nonneg bs).
  assert (zlen bs = zlen own + 10 + zlen rd) as Ebs by (unfold bs, record_bytes; rewrite !zlen_app; change (zlen (fixed_bytes _ _ _ _)) with 10; lia).
  destruct (emits_record dnssec nameoffset name type class ttl items own bss Ho Hi (Some plen) pre ltac:(simpl; lia)) as [Hem _].
  specialize (Hem room post ltac:(simpl; fold rd bs; lia) Hroom). cbn beta in Hem. fold rd bs in Hem. unfold add_resource_record. rewrite Ht.
  destruct (put_record _ _ _ _ _ _ _ _ _ _) as [[[b r] off]| | |]; cbn [mbind res_bind] in *; try done.
  injection Hem as -> ->. eexists. split; [done|]. cbn [a_ok a_buf a_p]. split; [done|].
  split; [unfold bs; rewrite (skip_record dnssec nameoffset name) by (done || lia); done|]. cbv zeta.
  destruct (fixed_fields (pre ++ own) type class ttl (zlen rd) (rd ++ post)) as (F1 & F2 & F3 & F4).
  assert (pre ++ bs ++ post = (pre ++ own) ++ fixed_bytes type class ttl (zlen rd) ++ rd ++ post) as Eb
    by (unfold bs, record_bytes; by rewrite <- !app_assoc).
  rewrite zlen_app in *. rewrite Eb. rewrite u16_id in F4 by lia.
  split_and!; [|done..| |lia].
  - rewrite <- app_assoc. apply (skip_owner dnssec nameoffset name); [done|lia|lia].
  - rewrite (app_assoc (pre ++ own)). apply slice_middle. rewrite !zlen_app. change (zlen (fixed_bytes _ _ _ _)) with 10. lia.
Qed.

Lemma record_read_back_witness :
  ∃ a, add_resource_record false (repeat 0 12 ++ repeat 7 21 ++ [9]) (Some 33) None (-12) 12 60 T_CNAME C_IN
      (Some [97; 98]) [FName [99]] = Ok a ∧ a_ok a = true ∧ skip_section (a_buf a) 33 1 12 = Ok (a_p a).
Proof.
  assert (name_labels false [97; 98] [[97; 98]]) as H1 by (split; [unfold good_label, is_byte, zlen; repeat constructor; simpl; lia|done]).
  assert (name_labels false [99] [[99]]) as H2 by (split; [unfold good_label, is_byte, zlen; repeat constructor; simpl; lia|done]).
  destruct (record_read_back false (-12) (Some [97; 98]) T_CNAME C_IN 60 [FName [99]] (wire [[97; 98]] ++ short_bytes (Z.lor 12 49152))
    [wire [[99]] ++ [0]] (repeat 0 12) (repeat 7 18) (repeat 7 3 ++ [9]) None 33) as (a & E & Ea & Es & _).
  - by apply ob_under.
  - constructor; [by apply ib_name|constructor].
  - by vm_compute.
  - reflexivity.
  - by vm_compute.
  - reflexivity.
  - exists a. split_and!; [exact E|exact Ea|exact Es].
Defined.
