(* ===== verification/AnswerSpec.v ===== *)
(** The replies made from the configuration ([make_local_answer] of
    src/src/domain-match.c and [setup_reply] of src/src/rfc1035.c): the header
    of the reply and the records in it. *)
From S2P Require Import Prelude Hostname Wire WireSafe WireSpec WireExt Cache DomainMatch Records RecordsSpec.

(** * The header of a reply *)

(** The result of a store, as the reads it changes. *)
Lemma wr_total buf i b : Forall is_byte buf → 0 ≤ i < zlen buf → ∃ buf', wr buf i b = Ok buf' ∧ Forall is_byte buf' ∧ zlen buf' = zlen buf ∧
  rd buf' i = Ok (u8 b) ∧ ∀ j, j ≠ i → rd buf' j = rd buf j.
Proof.
  intros Hb Hi. destruct (wr_ok buf i b) as [buf' W]; [done|]. destruct (wr_bytes _ _ _ _ Hb W) as [Hb' Hz].
  exists buf'. split_and!; [done..| |].
  - by rewrite (rd_wr _ _ _ _ _ W), Z.eqb_refl.
  - intros j Hj. by rewrite (rd_wr _ _ _ _ _ W), (proj2 (Z.eqb_neq j i)).
Qed.

Definition reply_hb3 (hb3 flags : Z) : Z :=
  let b := Z.lor (Z.land hb3 (Z.lnot 6)) 128 in
  if (flags =? F_NOERR) || (flags =? F_NXDOMAIN) then b
  else if flag flags (Z.lor F_IPV4 F_IPV6) then Z.lor b HB3_AA else b.
Definition reply_code (flags : Z) : Z :=
  if flags =? F_NOERR then NOERROR else if flags =? F_NXDOMAIN then NXDOMAIN
  else if flag flags (Z.lor F_IPV4 F_IPV6) then NOERROR else REFUSED.
Definition reply_hb4 (hb4 flags : Z) : Z :=
  Z.lor (Z.land (Z.lor (Z.land hb4 (Z.lnot HB4_AD)) HB4_RA) (Z.lnot HB4_RCODE)) (reply_code flags).

(** Bytes as values to compute with. *)
Lemma reply_bytes b : is_byte b →
  is_byte (Z.lor (Z.land b (Z.lnot 6)) 128) ∧ is_byte (Z.lor (Z.lor (Z.land b (Z.lnot 6)) 128) HB3_AA) ∧
  is_byte (Z.lor (Z.land b (Z.lnot HB4_AD)) HB4_RA) ∧
  (∀ c, c = NOERROR ∨ c = NXDOMAIN ∨ c = REFUSED →
     is_byte (Z.lor (Z.land (Z.lor (Z.land b (Z.lnot HB4_AD)) HB4_RA) (Z.lnot HB4_RCODE)) c)).
Proof.
  intros Hb.
  pose proof (byte_cases (λ b, let in_ x := (0 <=? x) && (x <? 256) in
    in_ (Z.lor (Z.land b (Z.lnot 6)) 128) && in_ (Z.lor (Z.lor (Z.land b (Z.lnot 6)) 128) HB3_AA) &&
    in_ (Z.lor (Z.land b (Z.lnot HB4_AD)) HB4_RA) &&
    forallb (λ c, in_ (Z.lor (Z.land (Z.lor (Z.land b (Z.lnot HB4_AD)) HB4_RA) (Z.lnot HB4_RCODE)) c)) [NOERROR; NXDOMAIN; REFUSED]) b Hb) as H.
  cbv zeta in H. specialize (H eq_refl). rewrite !andb_true_iff in H. destruct H as [[[H1 H2] H3] H4]. unfold is_byte.
  split_and!; [lia..|]. intros c Hc. cbn [forallb] in H4. rewrite !andb_true_iff in H4. destruct Hc as [->|[->| ->]]; lia.
Qed.

Lemma setup_reply_spec buf flags :
  Forall is_byte buf → HDRSZ ≤ zlen buf →
  ∃ buf' h3 h4, setup_reply buf flags = Ok buf' ∧ Forall is_byte buf' ∧ zlen buf' = zlen buf ∧
    rd buf 2 = Ok h3 ∧ rd buf 3 = Ok h4 ∧ rd buf' 2 = Ok (reply_hb3 h3 flags) ∧ rd buf' 3 = Ok (reply_hb4 h4 flags) ∧
    GETSHORT buf' 6 = Ok (0, 8) ∧ GETSHORT buf' 8 = Ok (0, 10) ∧ GETSHORT buf' 10 = Ok (0, 12) ∧
    (∀ i, i ≤ 1 ∨ i = 4 ∨ i = 5 ∨ 12 ≤ i → rd buf' i = rd buf i).
Proof.
  unfold HDRSZ. intros Hb Hl. unfold setup_reply.
  destruct (rd_in buf 2) as (h3 & E3 & H3); [lia|]. destruct (rd_in buf 3) as (h4 & E4 & H4); [lia|].
  rewrite Forall_forall in Hb. pose proof (reply_bytes h3 (Hb _ H3)) as (B1 & B2 & _). pose proof (reply_bytes h4 (Hb _ H4)) as (_ & _ & B3 & B4).
  rewrite <- Forall_forall in Hb. rewrite E3. cbn [mbind res_bind].
  change (Z.lor HB3_AA HB3_TC) with 6. change HB3_QR with 128.
  destruct (wr_total buf 2 (Z.lor (Z.land h3 (Z.lnot 6)) 128) Hb) as (b1 & -> & Hb1 & L1 & R1 & O1); [lia|]. cbn [mbind res_bind].
  rewrite u8_id in R1 by done. rewrite (O1 3) by done. rewrite E4. cbn [mbind res_bind].
  destruct (wr_total b1 3 (Z.lor (Z.land h4 (Z.lnot HB4_AD)) HB4_RA) Hb1) as (b2 & -> & Hb2 & L2 & R2 & O2); [lia|]. cbn [mbind res_bind].
  rewrite u8_id in R2 by done.
  destruct (PUTSHORT_spec b2 8 0 Hb2) as (b3 & -> & Hb3 & L3 & G3 & O3); [lia..|]. cbn [mbind res_bind].
  destruct (PUTSHORT_spec b3 10 0 Hb3) as (b4 & -> & Hb4 & L4 & G4 & O4); [lia..|]. cbn [mbind res_bind].
  destruct (PUTSHORT_spec b4 6 0 Hb4) as (b5 & -> & Hb5 & L5 & G5 & O5); [lia..|]. cbn [mbind res_bind].
  assert (rd b5 2 = Ok (Z.lor (Z.land h3 (Z.lnot 6)) 128)) as S2 by (rewrite O5, O4, O3, O2 by lia; done).
  assert (rd b5 3 = Ok (Z.lor (Z.land h4 (Z.lnot HB4_AD)) HB4_RA)) as S3 by (rewrite O5, O4, O3 by lia; done).
  assert (∀ c, c = NOERROR ∨ c = NXDOMAIN ∨ c = REFUSED → ∃ b6, SET_RCODE b5 c = Ok b6 ∧ Forall is_byte b6 ∧ zlen b6 = zlen buf ∧
    rd b6 3 = Ok (Z.lor (Z.land (Z.lor (Z.land h4 (Z.lnot HB4_AD)) HB4_RA) (Z.lnot HB4_RCODE)) c) ∧ ∀ i, i ≠ 3 → rd b6 i = rd b5 i) as HR.
  { intros c Hc. unfold SET_RCODE. rewrite S3. cbn [mbind res_bind].
    destruct (wr_total b5 3 (Z.lor (Z.land (Z.lor (Z.land h4 (Z.lnot HB4_AD)) HB4_RA) (Z.lnot HB4_RCODE)) c) Hb5) as (b6 & E6 & Hb6 & L6 & R6 & O6); [lia|].
    rewrite u8_id in R6 by (by apply B4). exists b6. split_and!; [done|done|lia|done|done]. }
  assert (∀ b6, (∀ i, i ≠ 2 → i ≠ 3 → rd b6 i = rd b5 i) → GETSHORT b6 6 = Ok (0, 8) ∧ GETSHORT b6 8 = Ok (0, 10) ∧ GETSHORT b6 10 = Ok (0, 12) ∧
    (∀ i, i ≤ 1 ∨ i = 4 ∨ i = 5 ∨ 12 ≤ i → rd b6 i = rd buf i)) as HG.
  { intros b6 H6. split_and!.
    - rewrite (GETSHORT_ext b5 b6) by (apply H6; lia). done.
    - rewrite (GETSHORT_ext b3 b6); [done|..]; (rewrite H6 by lia; rewrite O5 by lia; apply O4; lia).
    - rewrite (GETSHORT_ext b4 b6); [done|..]; (rewrite H6 by lia; apply O5; lia).
    - intros i Hi. rewrite H6, O5, O4, O3, O2, O1 by lia. done. }
  unfold reply_hb3, reply_hb4, reply_code. destruct (flags =? F_NOERR); [|destruct (flags =? F_NXDOMAIN)]; cbn [orb].
  - destruct (HR NOERROR) as (b6 & -> & Hb6 & L6 & R6 & O6); [auto|]. exists b6, h3, h4. rewrite O6 by lia.
    destruct (HG b6) as (? & ? & ? & ?); [intros i _ ?; by apply O6|]. by split_and!.
  - destruct (HR NXDOMAIN) as (b6 & -> & Hb6 & L6 & R6 & O6); [auto|]. exists b6, h3, h4. rewrite O6 by lia.
    destruct (HG b6) as (? & ? & ? & ?); [intros i _ ?; by apply O6|]. by split_and!.
  - destruct (flag flags (Z.lor F_IPV4 F_IPV6)).
    + destruct (HR NOERROR) as (b6 & -> & Hb6 & L6 & R6 & O6); [auto|]. cbn [mbind res_bind]. rewrite O6, S2 by lia. cbn [mbind res_bind].
      destruct (wr_total b6 2 (Z.lor (Z.lor (Z.land h3 (Z.lnot 6)) 128) HB3_AA) Hb6) as (b7 & -> & Hb7 & L7 & R7 & O7); [lia|].
      rewrite u8_id in R7 by done. exists b7, h3, h4. rewrite (O7 3), R6 by lia.
      destruct (HG b7) as (? & ? & ? & ?); [intros i ? ?; rewrite O7 by done; by apply O6|]. split_and!; (done || lia).
    + destruct (HR REFUSED) as (b6 & -> & Hb6 & L6 & R6 & O6); [auto|]. exists b6, h3, h4. rewrite O6 by lia.
      destruct (HG b6) as (? & ? & ? & ?); [intros i _ ?; by apply O6|]. by split_and!.
Qed.

(** Bits of the two flag bytes. *)
Lemma reply_hb3_bits h3 flags : is_byte h3 →
  let h := reply_hb3 h3 flags in
  flag h HB3_QR = true ∧ flag h HB3_TC = false ∧ Z.land h 121 = Z.land h3 121 ∧
  flag h HB3_AA = negb (flags =? F_NOERR) && negb (flags =? F_NXDOMAIN) && flag flags (Z.lor F_IPV4 F_IPV6).
Proof.
  intros Hb. unfold reply_hb3, flag.
  pose proof (byte_cases (λ b, let p := Z.lor (Z.land b (Z.lnot 6)) 128 in let q := Z.lor p HB3_AA in
    negb (Z.land p HB3_QR =? 0) && (Z.land p HB3_TC =? 0) && (Z.land p 121 =? Z.land b 121) && (Z.land p HB3_AA =? 0) &&
    (negb (Z.land q HB3_QR =? 0) && (Z.land q HB3_TC =? 0) && (Z.land q 121 =? Z.land b 121) && negb (Z.land q HB3_AA =? 0))) h3 Hb eq_refl) as H.
  cbv zeta in H. rewrite !andb_true_iff in H. destruct H as [[[[H1 H2] H3] H4] [[[H5 H6] H7] H8]]. apply Z.eqb_eq in H3, H7.
  destruct (flags =? F_NOERR), (flags =? F_NXDOMAIN); cbn [orb andb negb];
    try (rewrite H1, H2, H3, H4; done). destruct (negb (Z.land flags (Z.lor F_IPV4 F_IPV6) =? 0)).
  - by rewrite H5, H6, H7, H8.
  - by rewrite H1, H2, H3, H4.
Qed.

Lemma reply_hb4_bits h4 flags : is_byte h4 →
  let h := reply_hb4 h4 flags in
  flag h HB4_RA = true ∧ flag h HB4_AD = false ∧ Z.land h HB4_RCODE = reply_code flags ∧ Z.land h 80 = Z.land h4 80.
Proof.
  intros Hb. unfold reply_hb4, flag.
  assert (reply_code flags = NOERROR ∨ reply_code flags = NXDOMAIN ∨ reply_code flags = REFUSED) as Hc
    by (unfold reply_code; repeat case_match; auto).
  pose proof (byte_cases (λ b, forallb (λ c, let p := Z.lor (Z.land (Z.lor (Z.land b (Z.lnot HB4_AD)) HB4_RA) (Z.lnot HB4_RCODE)) c in
    negb (Z.land p HB4_RA =? 0) && (Z.land p HB4_AD =? 0) && (Z.land p HB4_RCODE =? c) && (Z.land p 80 =? Z.land b 80)) [NOERROR; NXDOMAIN; REFUSED])
    h4 Hb eq_refl) as H.
  cbn [forallb] in H. rewrite !andb_true_iff in H. cbv zeta.
  destruct Hc as [->|[->| ->]]; (split_and!; [apply H|apply negb_false_iff, H|apply Z.eqb_eq, H|apply Z.eqb_eq, H]).
Qed.

(** [setup_reply] turns the header of a question into that of a reply
    without records: a response, not truncated, recursion available, not
    authenticated data, authoritative exactly when addresses are given, with
    the response code of the flags; the opcode and the recursion-desired and
    checking-disabled bits, the identifier, the count of questions and the
    rest of the packet stay. *)
Theorem setup_reply_correct buf flags :
  Forall is_byte buf → HDRSZ ≤ zlen buf →
  ∃ buf' h3 h4 g3 g4, setup_reply buf flags = Ok buf' ∧ zlen buf' = zlen buf ∧
    rd buf 2 = Ok h3 ∧ rd buf 3 = Ok h4 ∧ rd buf' 2 = Ok g3 ∧ rd buf' 3 = Ok g4 ∧
    flag g3 HB3_QR = true ∧ flag g3 HB3_TC = false ∧ Z.land g3 121 = Z.land h3 121 ∧
    flag g3 HB3_AA = negb (flags =? F_NOERR) && negb (flags =? F_NXDOMAIN) && flag flags (Z.lor F_IPV4 F_IPV6) ∧
    flag g4 HB4_RA = true ∧ flag g4 HB4_AD = false ∧ Z.land g4 HB4_RCODE = reply_code flags ∧ Z.land g4 80 = Z.land h4 80 ∧
    ancount buf' = Ok 0 ∧ nscount buf' = Ok 0 ∧ arcount buf' = Ok 0 ∧
    ∀ i, i ≤ 1 ∨ i = 4 ∨ i = 5 ∨ 12 ≤ i → rd buf' i = rd buf i.
Proof.
  intros Hb Hl. destruct (setup_reply_spec buf flags Hb Hl) as (buf' & h3 & h4 & E & _ & El & R3 & R4 & S3 & S4 & G1 & G2 & G3 & O).
  destruct (reply_hb3_bits h3 flags) as (A1 & A2 & A3 & A4); [by eapply byte_at|].
  destruct (reply_hb4_bits h4 flags) as (A5 & A6 & A7 & A8); [by eapply byte_at|].
  exists buf', h3, h4, (reply_hb3 h3 flags), (reply_hb4 h4 flags). unfold ancount, nscount, arcount. rewrite G1, G2, G3.
  split_and!; done.
Qed.

Lemma setup_reply_correct_witness :
  ∃ buf' g3, setup_reply (repeat 255 14) F_NXDOMAIN = Ok buf' ∧ rd buf' 2 = Ok g3 ∧ flag g3 HB3_TC = false.
Proof.
  destruct (setup_reply_correct (repeat 255 14) F_NXDOMAIN) as (buf' & h3 & h4 & g3 & g4 & H).
  - unfold is_byte. repeat constructor; lia.
  - by vm_compute.
  - exists buf', g3. split_and!; apply H.
Defined.

(** * The records of a reply *)

(** Skipping names reads only from the pointer on. *)
Lemma skip_name_loop_from buf buf' plen fuel p :
  Forall is_byte buf → (∀ i, p ≤ i → rd buf' i = rd buf i) → skip_name_loop buf' plen fuel p = skip_name_loop buf plen fuel p.
Proof.
  intros Hb. revert p. induction fuel as [|fuel IH]; intros p Hr; [done|]. cbn [skip_name_loop].
  destruct (guard_ok (CHECK_LEN p plen 1)) as [[]| | |]; cbn [mbind res_bind]; try done.
  rewrite (Hr p) by lia. destruct (rd buf p) as [b| | |] eqn:Eb; cbn [mbind res_bind]; try done.
  destruct (Z.land b 192 =? 192); [done|]. destruct (Z.land b 192 =? 128); [done|]. destruct (Z.land b 192 =? 64).
  - destruct (guard_ok (CHECK_LEN p plen 2)) as [[]| | |]; cbn [mbind res_bind]; try done.
    destruct (guard_ok (Z.land b 63 =? 1)) as [[]| | |]; cbn [mbind res_bind]; try done.
    rewrite (Hr (p + 1)) by lia. destruct (rd buf (p + 1)) as [c| | |] eqn:Ec; cbn [mbind res_bind]; try done.
    apply IH. intros i Hi. apply Hr. apply (byte_at buf Hb) in Ec. unfold is_byte in Ec. destruct (Z.eqb_spec c 0); [lia|].
    pose proof (proj2 (Z.shiftr_nonneg (c - 1) 3)). lia.
  - destruct (ADD_RDLEN (p + 1) plen (Z.land b 63)) as [a| | |] eqn:Ea; cbn [mbind res_bind]; try done.
    destruct (Z.land b 63 =? 0); [done|]. apply IH. intros i Hi. apply Hr. unfold ADD_RDLEN in Ea.
    destruct (guard_ok _) as [[]| | |]; cbn [mbind res_bind] in Ea; try done. injection Ea as <-.
    pose proof (proj2 (Z.land_nonneg b 63)). lia.
Qed.

Lemma skip_name_loop_forward buf plen fuel p q :
  Forall is_byte buf → skip_name_loop buf plen fuel p = Ok q → p ≤ q.
Proof.
  intros Hb. revert p. induction fuel as [|fuel IH]; intros p; [done|]. cbn [skip_name_loop].
  destruct (guard_ok (CHECK_LEN p plen 1)) as [[]| | |]; cbn [mbind res_bind]; try done.
  destruct (rd buf p) as [b| | |] eqn:Eb; cbn [mbind res_bind]; try done.
  destruct (Z.land b 192 =? 192); [intros [= <-]; lia|]. destruct (Z.land b 192 =? 128); [done|]. destruct (Z.land b 192 =? 64).
  - destruct (guard_ok (CHECK_LEN p plen 2)) as [[]| | |]; cbn [mbind res_bind]; try done.
    destruct (guard_ok (Z.land b 63 =? 1)) as [[]| | |]; cbn [mbind res_bind]; try done.
    destruct (rd buf (p + 1)) as [c| | |] eqn:Ec; cbn [mbind res_bind]; try done. intros H%IH.
    apply (byte_at buf Hb) in Ec. unfold is_byte in Ec. destruct (Z.eqb_spec c 0); [lia|].
    pose proof (proj2 (Z.shiftr_nonneg (c - 1) 3)). lia.
  - unfold ADD_RDLEN. destruct (guard_ok _) as [[]| | |]; cbn [mbind res_bind]; try done. pose proof (proj2 (Z.land_nonneg b 63)).
    destruct (Z.land b 63 =? 0); [intros [= <-]; lia|]. intros H'%IH. lia.
Qed.

Lemma skip_questions_loop_from buf buf' plen n p :
  Forall is_byte buf → (∀ i, p ≤ i → rd buf' i = rd buf i) → skip_questions_loop buf' plen n p = skip_questions_loop buf plen n p.
Proof.
  intros Hb. revert p. induction n as [|n IH]; intros p Hr; [done|]. cbn [skip_questions_loop]. unfold skip_name.
  rewrite (skip_name_loop_from buf) by done. destruct (skip_name_loop buf plen _ p) as [q| | |] eqn:Eq; cbn [mbind res_bind]; try done.
  destruct (guard_ok _) as [[]| | |]; cbn [mbind res_bind]; try done. apply IH. intros i Hi. apply Hr.
  apply skip_name_loop_forward in Eq; [lia|done].
Qed.

(** The end of the questions lies in the packet. *)
Lemma skip_questions_loop_bounds buf plen n p q :
  Forall is_byte buf → p ≤ plen → skip_questions_loop buf plen n p = Ok q → p ≤ q ≤ plen.
Proof.
  intros Hb. revert p. induction n as [|n IH]; intros p Hp; [intros [= <-]; lia|]. cbn [skip_questions_loop]. unfold skip_name.
  destruct (skip_name_loop buf plen _ p) as [r| | |] eqn:Er; cbn [mbind res_bind]; try done.
  destruct (CHECK_LEN r plen 4) eqn:Ec; cbn [guard_ok mbind res_bind]; [|done]. unfold CHECK_LEN in Ec. bool_hyps.
  apply skip_name_loop_forward in Er; [|done]. intros H'%IH; [lia|lia].
Qed.

(** A record of the reply for a server of the configuration. *)
Definition answer_size (v6 : bool) : nat := if v6 then 16 else 4.
Definition answer_addr (v6 : bool) (srv : server) : list Z :=
  if sflag srv SERV_ALL_ZEROS then repeat 0 (answer_size v6) else local_addr srv.
Definition answer_bytes (v6 : bool) (type ttl : Z) (srv : server) : list Z :=
  record_bytes (short_bytes (Z.lor HDRSZ 49152)) type C_IN ttl (answer_addr v6 srv).
Definition wf_answer (v6 : bool) (srv : server) : Prop :=
  sflag srv SERV_ALL_ZEROS = true ∨ (length (local_addr srv) = answer_size v6 ∧ Forall is_byte (local_addr srv)).

Lemma answer_item v6 srv :
  wf_answer v6 srv → let addr := if sflag srv SERV_ALL_ZEROS then repeat 0 16 else local_addr srv in
  Forall2 (item_bytes false) [if v6 then F6 addr else F4 addr] [answer_addr v6 srv].
Proof.
  intros Hw addr. constructor; [|constructor]. unfold addr, answer_addr, answer_size. destruct (sflag srv SERV_ALL_ZEROS) eqn:Ez.
  - destruct v6; [|change (repeat 0 16) with (repeat 0 4 ++ repeat 0 12)]; constructor; try done; unfold is_byte; repeat constructor; lia.
  - destruct Hw as [|[Hl Hb]]; [congruence|]. destruct v6; [by constructor|]. rewrite <- (app_nil_r (local_addr srv)) at 1. by constructor.
Qed.

Lemma answer_bytes_size v6 type ttl srv : wf_answer v6 srv → zlen (answer_bytes v6 type ttl srv) = 12 + Z.of_nat (answer_size v6).
Proof.
  intros Hw. unfold answer_bytes, record_bytes. rewrite !zlen_app. change (zlen (short_bytes _)) with 2. change (zlen (fixed_bytes _ _ _ _)) with 10.
  assert (zlen (answer_addr v6 srv) = Z.of_nat (answer_size v6)); [|lia]. unfold answer_addr, zlen.
  destruct (sflag srv SERV_ALL_ZEROS) eqn:Ez; [by rewrite repeat_length|]. destruct Hw as [|[-> _]]; [congruence|done].
Qed.

Lemma local_records_trunc buf limit p ttl type v6 servers count :
  local_records buf limit true p ttl type v6 servers count = Ok (buf, p, true, count).
Proof. revert count. induction servers as [|srv servers IH]; intros count; [done|]. cbn. rewrite Z.add_0_r. apply IH. Qed.

Lemma mjoin_cons {A} (x : list A) l : mjoin (x :: l) = x ++ mjoin l.
Proof. done. Qed.

(** The loop adds the records that fit, in order, and reports whether all
    did. *)
Lemma local_records_spec v6 ttl type post servers : ∀ pre room count,
  Forall (wf_answer v6) servers →
  let size := 12 + Z.of_nat (answer_size v6) in
  let k := Z.min (zlen servers) (zlen room / size) in
  let recs := mjoin (answer_bytes v6 type ttl <$> take (Z.to_nat k) servers) in
  ∃ room', local_records (pre ++ room ++ post) (Some (zlen pre + zlen room)) false (zlen pre) ttl type v6 servers count =
      Ok (pre ++ recs ++ room' ++ post, zlen pre + k * size, k <? zlen servers, count + k) ∧
    zlen recs + zlen room' = zlen room ∧ zlen recs = k * size.
Proof.
  induction servers as [|srv servers IH]; intros pre room count Hw size k recs.
  { pose proof (zlen_nonneg room). assert (0 < size) by (unfold size; lia). pose proof (Z.div_pos (zlen room) size).
    assert (k = 0) as Ek by (unfold k; rewrite zlen_nil; lia). exists room. unfold recs. rewrite Ek. simpl. rewrite !Z.add_0_r. done. }
  apply Forall_cons in Hw as [Hsrv Hw]. pose proof (answer_bytes_size v6 type ttl srv Hsrv) as Es. fold size in Es.
  assert (0 < size) as Hsz by (unfold size; lia). pose proof (zlen_nonneg servers). pose proof (zlen_nonneg room). pose proof (zlen_nonneg pre).
  cbn [local_records]. assert (k = Z.min (1 + zlen servers) (zlen room / size)) as Ekd by (unfold k; by rewrite zlen_cons).
  clearbody k.
  pose proof (answer_item v6 srv Hsrv) as Hi. cbv zeta in Hi.
  assert (owner_bytes false HDRSZ None (short_bytes (Z.lor HDRSZ 49152))) as Ho by (by constructor).
  destruct (emits_record false HDRSZ None type C_IN ttl _ _ _ Ho Hi (Some (zlen pre + zlen room)) pre ltac:(simpl; lia)) as [W1 W2].
  cbn [mjoin list_join] in W1, W2. rewrite app_nil_r in W1, W2. fold (answer_bytes v6 type ttl srv) in W1, W2.
  remember (answer_bytes v6 type ttl srv) as ab eqn:Eab.
  destruct (Z.lt_ge_cases (zlen room) size) as [Hlt|Hge].
  - assert (k = 0) as Ek by (rewrite Ekd, Z.div_small by lia; lia).
    destruct (W2 (zlen pre + zlen room) room post eq_refl ltac:(lia) eq_refl) as (room' & El & E). cbn beta in E.
    unfold add_resource_record at 1. cbn [default from_option id].
    destruct (put_record _ _ _ _ _ _ _ _ _ _) as [[[b r] off]| | |]; cbn [mbind res_bind] in *; try done.
    injection E as -> ->. cbn [mbind res_bind a_buf a_p a_trunc a_ok default from_option id zb]. rewrite local_records_trunc.
    exists room'. unfold recs. rewrite Ek, zlen_cons. change (zlen (mjoin _)) with 0 at 1 2.
    change (mjoin _ ++ room' ++ post) with (room' ++ post). rewrite (proj2 (Z.ltb_lt 0 _)) by lia.
    split_and!; [|lia|lia].
    replace (zlen pre + 0 * size) with (zlen pre) by lia. by rewrite Z.add_0_r.
  - destruct (split_zlen room size) as (r1 & r2 & -> & E1); [lia|]. rewrite zlen_app in *.
    specialize (W1 r1 (r2 ++ post) ltac:(simpl; lia) ltac:(lia)). cbn beta in W1. rewrite <- app_assoc.
    unfold add_resource_record at 1. cbn [default from_option id].
    destruct (put_record _ _ _ _ _ _ _ _ _ _) as [[[b r] off]| | |]; cbn [mbind res_bind] in *; try done.
    injection W1 as -> ->. cbn [mbind res_bind a_buf a_p a_trunc a_ok default from_option id zb].
    destruct (IH (pre ++ ab) r2 (count + 1) Hw) as (room' & E & L1 & L2). cbv zeta in E, L1, L2. fold size in E, L1, L2.
    set (k' := Z.min (zlen servers) (zlen r2 / size)) in *.
    assert (k = 1 + k') as Ek.
    { rewrite Ekd. unfold k'. rewrite E1, <- (Z.mul_1_l size) at 1. rewrite Z.div_add_l by lia. lia. }
    assert (0 ≤ k') as Hk' by (unfold k'; pose proof (zlen_nonneg r2); pose proof (Z.div_pos (zlen r2) size); lia).
    rewrite zlen_app, Es, <- app_assoc, <- Z.add_assoc in E. rewrite E1, Es, E. exists room'. unfold recs. rewrite Ek, zlen_cons.
    replace (Z.to_nat (1 + k')) with (S (Z.to_nat k')) by lia. cbn [take]. rewrite fmap_cons, mjoin_cons.
    rewrite <- Eab, zlen_app, <- !app_assoc, Es. replace (1 + k' <? 1 + zlen servers) with (k' <? zlen servers) by lia.
    split_and!; [|lia|lia].
    replace (zlen pre + size + k' * size) with (zlen pre + (1 + k') * size) by lia. by replace (count + 1 + k') with (count + (1 + k')) by lia.
Qed.

Lemma skip_answers v6 type ttl plen servers : ∀ pre post,
  Forall (wf_answer v6) servers →
  let recs := mjoin (answer_bytes v6 type ttl <$> servers) in zlen pre + zlen recs ≤ plen →
  skip_section (pre ++ recs ++ post) plen (length servers) (zlen pre) = Ok (zlen pre + zlen recs).
Proof.
  induction servers as [|srv servers IH]; intros pre post Hw recs Hle; [change (zlen recs) with 0; by rewrite Z.add_0_r|].
  apply Forall_cons in Hw as [Hsrv Hw]. unfold recs in *. rewrite fmap_cons, mjoin_cons, zlen_app in *. cbn [length].
  pose proof (zlen_nonneg (mjoin (answer_bytes v6 type ttl <$> servers))). pose proof (answer_bytes_size v6 type ttl srv Hsrv) as Es.
  unfold answer_bytes at 1. rewrite <- app_assoc.
  rewrite (skip_record false HDRSZ None); [|by constructor| |fold (answer_bytes v6 type ttl srv); lia].
  - fold (answer_bytes v6 type ttl srv). specialize (IH (pre ++ answer_bytes v6 type ttl srv) post Hw).
    rewrite zlen_app, <- !app_assoc, <- Z.add_assoc in IH. by apply IH.
  - unfold answer_bytes, record_bytes in Es. rewrite !zlen_app in Es. change (zlen (short_bytes _)) with 2 in Es.
    change (zlen (fixed_bytes _ _ _ _)) with 10 in Es. unfold answer_size in Es. destruct v6; lia.
Qed.

(** Stores in the first part of a buffer. *)
Lemma wr_app_l a b i v : 0 ≤ i < zlen a → wr (a ++ b) i v = (a' ← wr a i v; Ok (a' ++ b)).
Proof.
  intros Hi. unfold wr. rewrite zlen_app. pose proof (zlen_nonneg b).
  replace ((i <? 0) || (zlen a + zlen b <=? i)) with false by lia. replace ((i <? 0) || (zlen a <=? i)) with false by lia.
  cbn [mbind res_bind]. rewrite insert_app_l; [done|]. unfold zlen in Hi. lia.
Qed.
Lemma PUTSHORT_app_l a b i v : 0 ≤ i → i + 2 ≤ zlen a → PUTSHORT (a ++ b) i v = ('(a', p) ← PUTSHORT a i v; Ok (a' ++ b, p)).
Proof.
  intros Hi Hl. unfold PUTSHORT. rewrite wr_app_l by lia. destruct (wr_ok a i (Z.shiftr (u16 v) 8)) as [a' W]; [lia|].
  assert (zlen a' = zlen a) as El by (unfold wr in W; destruct (_ || _); [done|]; injection W as <-; apply zlen_insert).
  rewrite W. cbn [mbind res_bind]. rewrite wr_app_l by lia. by destruct (wr a' (i + 1) (u16 v)).
Qed.

(** The end of [make_local_answer]: the truncation flag and the count. *)
Lemma finish_answer pre rest trunc count :
  Forall is_byte pre → HDRSZ ≤ zlen pre → 0 ≤ count < 65536 → (∃ h, rd pre 2 = Ok h ∧ flag h HB3_TC = false) →
  ∃ pre', (buf ← (if trunc : bool then hb3 ← rd (pre ++ rest) 2; wr (pre ++ rest) 2 (Z.lor hb3 HB3_TC) else Ok (pre ++ rest));
     PUTSHORT buf 6 count) = Ok (pre' ++ rest, 8) ∧ zlen pre' = zlen pre ∧ ancount pre' = Ok count ∧
    (∃ h, rd pre' 2 = Ok h ∧ flag h HB3_TC = trunc) ∧ ∀ i, i ≠ 2 → i ≠ 6 → i ≠ 7 → rd pre' i = rd pre i.
Proof.
  unfold HDRSZ. intros Hb Hl Hc (h & Eh & Hh).
  assert (∃ p1 h1, (if trunc then hb3 ← rd (pre ++ rest) 2; wr (pre ++ rest) 2 (Z.lor hb3 HB3_TC) else Ok (pre ++ rest)) = Ok (p1 ++ rest) ∧
    Forall is_byte p1 ∧ zlen p1 = zlen pre ∧ rd p1 2 = Ok h1 ∧ flag h1 HB3_TC = trunc ∧ ∀ i, i ≠ 2 → rd p1 i = rd pre i) as (p1 & h1 & -> & Hb1 & L1 & E1 & F1 & O1).
  { destruct trunc; [|exists pre, h; by split_and!]. rewrite rd_app_l, Eh by lia. cbn [mbind res_bind]. rewrite wr_app_l by lia.
    destruct (wr_total pre 2 (Z.lor h HB3_TC) Hb) as (p1 & -> & Hb1 & L1 & E1 & O1); [lia|]. cbn [mbind res_bind].
    exists p1, (u8 (Z.lor h HB3_TC)). split_and!; try done. apply (byte_at pre Hb) in Eh.
    by apply (byte_cases (λ h, flag (u8 (Z.lor h HB3_TC)) HB3_TC)). }
  cbn [mbind res_bind]. rewrite PUTSHORT_app_l by lia. destruct (PUTSHORT_spec p1 6 count Hb1) as (p2 & -> & Hb2 & L2 & G2 & O2); [lia..|].
  cbn [mbind res_bind]. exists p2. split_and!; [done|lia| | |].
  - unfold ancount. rewrite G2. cbn [mbind res_bind]. by rewrite u16_id.
  - exists h1. by rewrite O2.
  - intros i ? ? ?. by rewrite O2, O1.
Qed.

(** C28. The reply for a name with configured addresses of one family: after
    the question come the records of the servers in order, as many as fit
    below the limit; their number is the count of answers, the truncation flag
    is set exactly when some did not fit, the length returned is the end of the
    last record, and skipping that many records arrives there. *)
Theorem make_local_answer_correct v6 flags gotname size buf lim ttl servers q :
  Forall is_byte buf → HDRSZ ≤ size ≤ zlen buf → skip_questions buf size = Ok q → q ≤ lim ≤ zlen buf →
  Forall (wf_answer v6) servers → zlen servers < 65536 →
  flag (Z.land flags gotname) F_IPV4 = negb v6 → flag (Z.land flags gotname) F_IPV6 = v6 →
  let sz := 12 + Z.of_nat (answer_size v6) in let k := Z.min (zlen servers) ((lim - q) / sz) in
  let recs := mjoin (answer_bytes v6 (if v6 then T_AAAA else T_A) ttl <$> take (Z.to_nat k) servers) in
  ∃ buf', make_local_answer flags gotname size buf (Some lim) ttl servers = Ok (q + k * sz, buf') ∧
    ancount buf' = Ok k ∧ (∃ h, rd buf' 2 = Ok h ∧ flag h HB3_TC = (k <? zlen servers)) ∧
    slice buf' q (Z.to_nat (k * sz)) = recs ∧ skip_section buf' (q + k * sz) (Z.to_nat k) q = Ok (q + k * sz) ∧
    (∀ i, 12 ≤ i < q → rd buf' i = rd buf i) ∧ zlen buf' = zlen buf.
Proof.
  intros Hb Hsize Hq Hlim Hw Hn F4 F6 sz k recs. pose proof (zlen_nonneg servers).
  destruct (setup_reply_spec buf flags Hb ltac:(lia)) as (b1 & h3 & h4 & E1 & Hb1 & L1 & R3 & _ & S3 & _ & _ & _ & _ & O1).
  assert (skip_questions b1 size = Ok q) as Hq1.
  { rewrite <- Hq. unfold skip_questions, qdcount. rewrite (GETSHORT_ext buf b1) by (apply O1; lia).
    destruct (GETSHORT buf 4) as [[n ?]| | |]; cbn [mbind res_bind]; try done. apply skip_questions_loop_from; [done|].
    unfold HDRSZ. intros i Hi. apply O1. lia. }
  assert (HDRSZ ≤ q) as Hq12.
  { unfold skip_questions in Hq. destruct (qdcount buf) as [n| | |]; cbn [mbind res_bind] in Hq; try done.
    apply skip_questions_loop_bounds in Hq; [lia|done|lia]. }
  unfold HDRSZ in *. destruct (split_zlen b1 q) as (pre & tl & -> & Ep); [lia|]. rewrite zlen_app in L1.
  destruct (split_zlen tl (lim - q)) as (room & post & -> & Er); [lia|]. rewrite zlen_app in L1.
  apply Forall_app in Hb1 as [Hbp _].
  destruct (local_records_spec v6 ttl (if v6 then T_AAAA else T_A) post servers pre room 0 Hw) as (room' & EL & L2 & L3).
  cbv zeta in EL, L2, L3. fold sz in EL, L2, L3. rewrite Er in EL, L2, L3. fold k in EL, L2, L3. fold recs in EL, L2, L3. rewrite Ep in EL.
  replace (q + (lim - q)) with lim in EL by lia. rewrite Z.add_0_l in EL.
  assert (0 ≤ k ≤ zlen servers) as Hk.
  { assert (0 ≤ (lim - q) / sz) by (apply Z.div_pos; unfold sz; lia). unfold k. lia. }
  destruct (finish_answer pre (recs ++ room' ++ post) (k <? zlen servers) k Hbp ltac:(unfold HDRSZ; lia) ltac:(lia)) as (pre' & E3 & Lp & A3 & T3 & O3).
  { exists (reply_hb3 h3 flags). rewrite rd_app_l in S3 by lia. split; [done|]. apply reply_hb3_bits. by eapply (byte_at buf Hb). }
  exists (pre' ++ recs ++ room' ++ post). split_and!.
  - unfold make_local_answer. rewrite E1. cbn [mbind res_bind]. rewrite Hq1. cbn [catch mbind res_bind]. rewrite F4, F6.
    assert (('(b, p, t, c) ← (if negb v6 then local_records (pre ++ room ++ post) (Some lim) false q ttl T_A false servers 0
        else Ok (pre ++ room ++ post, q, false, 0));
      (if v6 then local_records b (Some lim) t p ttl T_AAAA true servers c else Ok (b, p, t, c))) =
      Ok (pre ++ recs ++ room' ++ post, q + k * sz, k <? zlen servers, k)) as E2.
    { destruct v6; cbn [negb mbind res_bind]; rewrite EL; done. }
    destruct (if negb v6 then _ else _) as [[[[b p] t] c]| | |]; cbn [mbind res_bind] in E2 |- *; try done.
    rewrite E2. cbn [mbind res_bind]. destruct (if k <? zlen servers then _ else _) as [b'| | |]; cbn [mbind res_bind] in E3 |- *; try done.
    rewrite E3. done.
  - unfold ancount in *. rewrite (GETSHORT_ext pre' (pre' ++ _)) by (apply rd_app_l; lia). done.
  - destruct T3 as (h & Eh & Hh). exists h. by rewrite rd_app_l by lia.
  - rewrite <- L3. replace (Z.to_nat (zlen recs)) with (length recs) by (unfold zlen; lia). apply slice_middle. lia.
  - pose proof (skip_answers v6 (if v6 then T_AAAA else T_A) ttl (q + k * sz) (take (Z.to_nat k) servers) pre' (room' ++ post)) as Hs.
    cbv zeta in Hs. fold recs in Hs. rewrite L3 in Hs. replace (zlen pre') with q in Hs by lia.
    replace (length (take (Z.to_nat k) servers)) with (Z.to_nat k) in Hs by (rewrite length_take; unfold zlen in *; lia).
    apply Hs; [by apply Forall_take|lia].
  - intros i Hi. rewrite rd_app_l by lia. rewrite O3 by lia. rewrite <- O1 by lia. by rewrite rd_app_l by lia.
  - rewrite !zlen_app. lia.
Qed.

(** Two addresses for the question a/A/IN, and room for one. *)
Definition sample_query : list Z := [18; 52; 1; 0; 0; 1; 0; 0; 0; 0; 0; 0; 1; 97; 0; 0; 1; 0; 1] ++ repeat 0 30.

Lemma make_local_answer_correct_witness :
  ∃ buf', make_local_answer F_IPV4 F_IPV4 19 sample_query (Some 40) 5
      [Server 1 9 0 [] 0 0 0 [10; 0; 0; 1]; Server 2 9 0 [] 0 0 0 [10; 0; 0; 2]] = Ok (35, buf') ∧ ancount buf' = Ok 1 ∧
    ∃ h, rd buf' 2 = Ok h ∧ flag h HB3_TC = true.
Proof.
  destruct (make_local_answer_correct false F_IPV4 F_IPV4 19 sample_query 40 5
    [Server 1 9 0 [] 0 0 0 [10; 0; 0; 1]; Server 2 9 0 [] 0 0 0 [10; 0; 0; 2]] 19) as (buf' & E & A & T & _).
  - unfold is_byte, sample_query. repeat constructor; lia.
  - vm_compute. split; congruence.
  - reflexivity.
  - vm_compute. split; congruence.
  - constructor; [|constructor; [|constructor]]; right; (split; [reflexivity|]); unfold is_byte; simpl; repeat (constructor; [lia|]); constructor.
  - reflexivity.
  - reflexivity.
  - reflexivity.
  - exists buf'. split_and!; [exact E|exact A|exact T].
Defined.
