(* ===== verification/Edns0.v ===== *)
(** The pseudoheader of EDNS0 (src/src/edns0.c): finding it in a packet, adding it
    or an option of it, the options that the configuration adds, and the check of
    the subnet in a reply. *)
From Stdlib Require Import Ascii String.
From S2P Require Import Prelude Hostname Wire WireSpec NetAddr RRFilter Records.

Definition T_TKEY : Z := 249.
Definition T_TSIG : Z := 250.
Definition C_ANY : Z := 255.
Definition EDNS0_OPTION_MAC : Z := 65001.
Definition EDNS0_OPTION_CLIENT_SUBNET : Z := 8.
Definition EDNS0_OPTION_NOMDEVICEID : Z := 65073.
Definition EDNS0_OPTION_NOMCPEID : Z := 65074.
Definition EDNS0_OPTION_UMBRELLA : Z := 20292.
Definition PACKETSZ : Z := 512.

(** * Finding *)

(** What find_pseudoheader stores: the start of the record, its length, where the
    UDP size is, and whether it is the last record. *)
Record pseudo := Pseudo { ph_start : Z; ph_len : Z; ph_udp : Z; ph_last : bool }.

(** The questions when [is_sign] is wanted: TKEY queries are signed. The end of
    the questions is None when they do not parse. *)
Fixpoint sign_questions (buf : list Z) (plen : Z) (n : nat) (ansp : Z) (sign : bool) : res (option Z * bool) :=
  match n with
  | O => Ok (Some ansp, sign)
  | S n =>
      r ← catch (skip_name buf plen ansp 4);
      match r with
      | None => Ok (None, sign)
      | Some ansp =>
          '(type, ansp) ← GETSHORT buf ansp;
          '(class, ansp) ← GETSHORT buf ansp;
          sign_questions buf plen n ansp (sign || ((class =? C_IN) && (type =? T_TKEY)))
      end
  end.

(** The additional section, record [i] of [ar]. *)
Fixpoint find_opt (buf : list Z) (plen : Z) (want : bool) (ar : Z) (n : nat) (i ansp : Z) (ret : option pseudo) (sign : bool)
    : res (option pseudo * bool) :=
  match n with
  | O => Ok (ret, sign)
  | S n =>
      let start := ansp in
      r ← catch (skip_name buf plen ansp 10);
      match r with
      | None => Ok (None, sign)
      | Some ansp =>
          '(type, ansp) ← GETSHORT buf ansp;
          let save := ansp in
          '(class, ansp) ← GETSHORT buf ansp;
          '(rdlen, ansp) ← GETSHORT buf (ansp + 4);
          r ← catch (ADD_RDLEN ansp plen rdlen);
          match r with
          | None => Ok (None, sign)
          | Some ansp =>
              if type =? T_OPT then
                find_opt buf plen want ar n (i + 1) ansp (Some (Pseudo start (ansp - start) save (i =? ar - 1))) sign
              else
                find_opt buf plen want ar n (i + 1) ansp ret
                  (sign || (want && (i =? ar - 1) && (class =? C_ANY) && (type =? T_TSIG)))
          end
      end
  end.

(** [want] is that [is_sign] is not NULL; the second result is [*is_sign]. *)
Definition find_pseudoheader (buf : list Z) (plen : Z) (want : bool) : res (option pseudo * bool) :=
  ar ← arcount buf;
  hb3 ← rd buf 2;
  qd ← qdcount buf;
  '(r, sign) ← (if want then
                  if Z.land hb3 HB3_OPCODE =? 0 then sign_questions buf plen (Z.to_nat qd) HDRSZ false
                  else Ok (Some HDRSZ, false)
                else r ← catch (skip_questions buf plen); Ok (r, false));
  match r with
  | None => Ok (None, sign)
  | Some ansp =>
      if ar =? 0 then Ok (None, sign)
      else
        an ← ancount buf; ns ← nscount buf;
        r ← catch (skip_section buf plen (Z.to_nat (an + ns)) ansp);
        match r with
        | None => Ok (None, sign)
        | Some ansp => find_opt buf plen want ar (Z.to_nat ar) 0 ansp None sign
        end
  end.

(** * Adding *)

(** The search for option [optno] among the options from [p] on, [i] bytes into
    the [rdlen]. [None] is the early return; otherwise the packet, the place
    after the options, their length, and whether the record is still the last
    one. [replace] is not 0 when the option is deleted. *)
Fixpoint scan_opts (fuel : nat) (buf : list Z) (lenp p i rdlen optno : Z) (replace : Z) (is_last : bool)
    : res (option (list Z * Z * Z * bool)) :=
  match fuel with
  | O => NoFuel
  | S fuel =>
      if i + 4 <? rdlen then
        '(code, p) ← GETSHORT buf p;
        '(len, p) ← GETSHORT buf p;
        if rdlen <? i + 4 + len then Ok (Some (buf, p, 0, false))
        else if code =? optno then
          if replace =? 0 then Ok None
          else
            let p := p - 4 in
            let rdlen := rdlen - (len + 4) in
            buf ← memmove buf p (p + len + 4) (rdlen - i);
            '(buf, _) ← PUTSHORT buf lenp rdlen;
            scan_opts fuel buf lenp p i rdlen optno replace is_last
        else scan_opts fuel buf lenp (p + len) (i + len + 4) rdlen optno replace is_last
      else Ok (Some (buf, p, rdlen, is_last))
  end.

(** The new option at [p]; [lenp] is where the length of the data at [datap] is. *)
Definition add_option (buf : list Z) (plen limit p datap lenp optno : Z) (opt : list Z) (replace : Z) : res (list Z * Z) :=
  if limit - (p + 4) <? zlen opt then Ok (buf, plen)
  else if negb (optno =? 0) && negb (replace =? 2) then
    if limit <? p + 4 then Ok (buf, plen)
    else
      '(buf, p) ← PUTSHORT buf p optno;
      '(buf, p) ← PUTSHORT buf p (zlen opt);
      if limit <? p + zlen opt then Ok (buf, plen)
      else
        buf ← put_bytes buf p opt;
        let p := p + zlen opt in
        '(buf, _) ← PUTSHORT buf lenp (p - datap);
        Ok (buf, p)
  else Ok (buf, p).

(** The end of the records. *)
Definition packet_end (buf : list Z) (plen : Z) : res Z :=
  p ← skip_questions buf plen;
  an ← ancount buf; ns ← nscount buf; ar ← arcount buf;
  skip_section buf plen (Z.to_nat (an + ns + ar)) p.

(** A new pseudoheader at the end of the packet; [copy] are the options kept. *)
Definition new_header (buf : list Z) (plen limit udp_sz rcode flags rdlen : Z) (copy : option (list Z)) (optno : Z) (opt : list Z) (replace : Z)
    : res (list Z * Z) :=
  r ← catch (packet_end buf plen);
  match r with
  | None => Ok (buf, plen)
  | Some p =>
      if limit <? p + 11 then Ok (buf, plen)
      else
        buf ← wr buf p 0;
        '(buf, p) ← PUTSHORT buf (p + 1) T_OPT;
        '(buf, p) ← PUTSHORT buf p udp_sz;
        '(buf, p) ← PUTSHORT buf p rcode;
        '(buf, p) ← PUTSHORT buf p flags;
        let lenp := p in
        '(buf, p) ← PUTSHORT buf p rdlen;
        let datap := p in
        match copy with
        | Some bs =>
            if limit <? p + rdlen then Ok (buf, plen)
            else
              buf ← put_bytes buf p bs;
              let p := p + rdlen in
              ar ← arcount buf;
              buf ← (if zlen opt <=? limit - (p + 4) then '(buf, _) ← PUTSHORT buf 10 (ar + 1); Ok buf else Ok buf);
              add_option buf plen limit p datap lenp optno opt replace
        | None =>
            ar ← arcount buf;
            buf ← (if zlen opt <=? limit - (p + 4) then '(buf, _) ← PUTSHORT buf 10 (ar + 1); Ok buf else Ok buf);
            add_option buf plen limit p datap lenp optno opt replace
        end
  end.

(** The options of the pseudoheader whose length is at [lenp]: the option is
    added when the record is the last one, otherwise the record is deleted and
    made anew. [alloc] and [wkspc] are the workspace of rrfilter, [malloc_ok] the
    outcome of whine_malloc. *)
Definition extend_header (alloc : Z → bool) (wkspc : list Z) (malloc_ok : bool) (buf : list Z) (plen limit udp_sz rcode flags lenp : Z) (is_last : bool)
    (optno : Z) (opt : list Z) (replace : Z) : res (list Z * Z) :=
  '(rdlen, p) ← GETSHORT buf lenp;
  if negb (CHECK_LEN p plen rdlen) then Ok (buf, plen)
  else
    let datap := p in
    if optno =? 0 then Ok (buf, plen)
    else
      r ← scan_opts (S (Z.to_nat rdlen)) buf lenp p 0 rdlen optno replace is_last;
      match r with
      | None => Ok (buf, plen)
      | Some (buf, p, rdlen, is_last) =>
          if is_last : bool then add_option buf plen limit p datap lenp optno opt replace
          else
            let copy := if negb (rdlen =? 0) && malloc_ok then Some (slice buf datap (Z.to_nat rdlen)) else None in
            '(buf, plen) ← rrfilter alloc wkspc buf plen RRFILTER_EDNS0;
            new_header buf plen limit udp_sz rcode flags rdlen copy optno opt replace
      end.

(** [optno] is 0 for no option; [replace] is 0 to leave an option that is there,
    1 to replace it and 2 to delete it. The result is the packet and its length. *)
Definition add_pseudoheader (alloc : Z → bool) (wkspc : list Z) (malloc_ok : bool) (buf : list Z) (plen limit udp_sz optno : Z) (opt : list Z)
    (set_do : bool) (replace : Z) : res (list Z * Z) :=
  '(ph, is_sign) ← find_pseudoheader buf plen true;
  if is_sign : bool then Ok (buf, plen)
  else match ph with
  | None => new_header buf plen limit udp_sz 0 (if set_do then 32768 else 0) 0 None optno opt replace
  | Some h =>
      '(udp_sz, p) ← GETSHORT buf (ph_udp h);
      '(rcode, p) ← GETSHORT buf p;
      '(flags, p) ← GETSHORT buf p;
      let flags := if set_do then Z.lor flags 32768 else flags in
      buf ← (if set_do then '(buf, _) ← PUTSHORT buf (p - 2) flags; Ok buf else Ok buf);
      extend_header alloc wkspc malloc_ok buf plen limit udp_sz rcode flags p (ph_last h) optno opt replace
  end.

Definition add_do_bit (alloc : Z → bool) (wkspc : list Z) (buf : list Z) (plen limit : Z) : res (list Z * Z) :=
  add_pseudoheader alloc wkspc true buf plen limit PACKETSZ 0 [] true 0.

(** * The options the configuration adds *)

(** struct mysubnet. *)
Record mysubnet := Mysubnet { sn_addr : mysockaddr; addr_used : bool; sn_mask : Z }.

(** The options and the parts of struct daemon that count here. *)
Record edns_config := EdnsConfig {
  opt_add_mac : bool; opt_strip_mac : bool; opt_mac_b64 : bool; opt_mac_hex : bool; opt_client_subnet : bool; opt_strip_ecs : bool;
  opt_umbrella : bool; opt_umbrella_devid : bool; add_subnet4 : option mysubnet; add_subnet6 : option mysubnet;
  dns_client_id : option cstring; umbrella_org : Z; umbrella_asset : Z; umbrella_device : list Z }.

Definition base64_chars : list Z :=
  (λ c, Z.of_N (N_of_ascii c)) <$> list_ascii_of_string "ABCDEFGHIJKLMNOPQRSTUVWXYZabcdefghijklmnopqrstuvwxyz0123456789+/"%string.
Definition char64 (c : Z) : Z := base64_chars !!! Z.to_nat (Z.land c 63).

(** Three bytes of [inp] as four characters. *)
Definition encoder (i0 i1 i2 : Z) : list Z :=
  [char64 (Z.shiftr i0 2); char64 (u8 (Z.lor (Z.shiftl i0 4) (Z.shiftr i1 4)));
   char64 (u8 (Z.lor (Z.shiftl i1 2) (Z.shiftr i2 6))); char64 i2].

(** The string in an array: what is before its first zero. *)
Fixpoint string_in (l : list Z) : res cstring :=
  match l with
  | [] => Oob
  | c :: l => if c =? 0 then Ok [] else s ← string_in l; Ok (c :: s)
  end.

(** The environment of add_pseudoheader. *)
Record edns_env := EdnsEnv { e_alloc : Z → bool; e_wkspc : list Z; e_malloc : bool }.
Definition add_opt (e : edns_env) (buf : list Z) (plen limit optno : Z) (opt : list Z) (replace : Z) : res (list Z * Z) :=
  add_pseudoheader (e_alloc e) (e_wkspc e) (e_malloc e) buf plen limit PACKETSZ optno opt false replace.

(** [mac] is what find_mac gives, empty when it finds none. The packet, its
    length and [*cacheablep]. *)
Definition add_mac (cfg : edns_config) (e : edns_env) (buf : list Z) (plen limit : Z) (mac : list Z) (cacheable : bool) : res (list Z * Z * bool) :=
  let found := opt_add_mac cfg && negb (zlen mac =? 0) in
  let cacheable := if found then false else cacheable in
  let replace := if found then (if opt_strip_mac cfg then 1 else 0) else if opt_strip_mac cfg then 2 else 0 in
  if negb (replace =? 0) || found then
    '(buf, plen) ← add_opt e buf plen limit EDNS0_OPTION_MAC (if opt_add_mac cfg then mac else []) replace;
    Ok (buf, plen, cacheable)
  else Ok (buf, plen, cacheable).

(** [junk] is what is in the array [encode] at entry. *)
Definition add_dns_client (cfg : edns_config) (e : edns_env) (junk : list Z) (buf : list Z) (plen limit : Z) (mac : list Z) (cacheable : bool)
    : res (list Z * Z * bool) :=
  let wanted := opt_mac_b64 cfg || opt_mac_hex cfg in
  let found := wanted && (zlen mac =? 6) in
  let cacheable := if found then false else cacheable in
  let replace := if found then (if opt_strip_mac cfg then 1 else 0) else if opt_strip_mac cfg then 2 else 0 in
  if negb (replace =? 0) || found then
    encode ← (if found then
                match mac with
                | [a; b; c; d; f; g] =>
                    if opt_mac_hex cfg then Ok (print_mac mac)
                    else string_in (encoder a b c ++ encoder d f g ++ [0])
                | _ => Oob
                end
              else string_in junk);
    '(buf, plen) ← add_opt e buf plen limit EDNS0_OPTION_NOMDEVICEID encode replace;
    Ok (buf, plen, cacheable)
  else Ok (buf, plen, cacheable).

(** The address in a socket address. *)
Definition get_addrp (a : mysockaddr) : list Z :=
  match a with SA_in _ addr => addr | SA_in6 _ _ addr => addr | SA_other _ => [] end.
Definition is_in6 (a : mysockaddr) : bool := match a with SA_in6 _ _ _ => true | _ => false end.
Definition is_in (a : mysockaddr) : bool := match a with SA_in _ _ => true | _ => false end.

(** The bytes of a struct subnet_opt that are used: family, two masks and the
    address; and [cacheable]. *)
Definition calc_subnet_opt (cfg : edns_config) (source : mysockaddr) : res (list Z * bool) :=
  let sn := if is_in6 source then add_subnet6 cfg else if is_in source then add_subnet4 cfg else None in
  let '(v6, addrp, mask, cacheable) :=
    match sn with
    | Some s => if addr_used s then (is_in6 (sn_addr s), Some (get_addrp (sn_addr s)), u8 (sn_mask s), true)
                else (is_in6 source, Some (get_addrp source), u8 (sn_mask s), false)
    | None => (is_in6 source, None, 0, false)
    end in
  let family := [0; if v6 then 2 else 1] in
  match addrp with
  | Some a =>
      if mask =? 0 then Ok (family ++ [mask; 0], true)
      else
        let len := Z.shiftr (mask - 1) 3 + 1 in
        if zlen a <? len then Oob
        else
          let addr := take (Z.to_nat len) a in
          let addr := if negb (Z.land mask 7 =? 0)
                      then alter (λ b, Z.land b (u8 (Z.shiftl 255 (8 - Z.land mask 7)))) (Z.to_nat (len - 1)) addr
                      else addr in
          Ok (family ++ [mask; 0] ++ addr, cacheable)
  | None => Ok (family ++ [mask; 0], true)
  end.

Definition add_source_addr (cfg : edns_config) (e : edns_env) (buf : list Z) (plen limit : Z) (source : mysockaddr) (cacheable : bool)
    : res (list Z * Z * bool) :=
  if opt_client_subnet cfg then
    '(opt, cacheable) ← calc_subnet_opt cfg source;
    '(buf, plen) ← add_opt e buf plen limit EDNS0_OPTION_CLIENT_SUBNET opt (if opt_strip_ecs cfg then 1 else 0);
    Ok (buf, plen, cacheable)
  else if opt_strip_ecs cfg then
    '(buf, plen) ← add_opt e buf plen limit EDNS0_OPTION_CLIENT_SUBNET [] 2;
    Ok (buf, plen, cacheable)
  else Ok (buf, plen, cacheable).

(** Big-endian fields of two and four bytes. *)
Definition be16 (v : Z) : list Z := [u8 (Z.shiftr v 8); u8 v].
Definition be32 (v : Z) : list Z := [u8 (Z.shiftr v 24); u8 (Z.shiftr v 16); u8 (Z.shiftr v 8); u8 v].

(** The bytes of struct umbrella_opt up to [u]. *)
Definition umbrella_opt (cfg : edns_config) (source : mysockaddr) : list Z :=
  [79; 68; 78; 83; 1; 0] ++
  (if negb (umbrella_org cfg =? 0) then be16 8 ++ be32 (umbrella_org cfg) else []) ++
  be16 (if is_in source then 16 else 32) ++ get_addrp source ++
  (if opt_umbrella_devid cfg then be16 64 ++ umbrella_device cfg else []) ++
  (if negb (umbrella_asset cfg =? 0) then be16 4 ++ be32 (umbrella_asset cfg) else []).

Definition add_edns0_config (cfg : edns_config) (e : edns_env) (junk : list Z) (buf : list Z) (plen limit : Z) (source : mysockaddr) (mac : list Z)
    : res (list Z * Z * bool) :=
  '(buf, plen, cacheable) ← add_mac cfg e buf plen limit mac true;
  '(buf, plen, cacheable) ← add_dns_client cfg e junk buf plen limit mac cacheable;
  '(buf, plen) ← (match dns_client_id cfg with
                  | Some id => add_opt e buf plen limit EDNS0_OPTION_NOMCPEID id 1
                  | None => Ok (buf, plen)
                  end);
  '(buf, plen, cacheable) ←
    (if opt_umbrella cfg then
       '(buf, plen) ← add_opt e buf plen limit EDNS0_OPTION_UMBRELLA (umbrella_opt cfg source) 1; Ok (buf, plen, false)
     else Ok (buf, plen, cacheable));
  add_source_addr cfg e buf plen limit source cacheable.

(** * The subnet in a reply *)

(** The option [opt] with the scope of the one at [p]. *)
Definition with_scope (opt : list Z) (scope : Z) : list Z := <[3%nat := scope]> opt.

Fixpoint read_bytes (buf : list Z) (p : Z) (n : nat) : res (list Z) :=
  match n with O => Ok [] | S n => b ← rd buf p; l ← read_bytes buf (p + 1) n; Ok (b :: l) end.

Fixpoint check_source_loop (fuel : nat) (buf : list Z) (opt : list Z) (p i rdlen : Z) : res bool :=
  match fuel with
  | O => NoFuel
  | S fuel =>
      if i + 4 <? rdlen then
        '(code, p) ← GETSHORT buf p;
        '(len, p) ← GETSHORT buf p;
        if code =? EDNS0_OPTION_CLIENT_SUBNET then
          scope ← rd buf (p + 3);
          let opt := with_scope opt scope in
          if negb (len =? zlen opt) then Ok false
          else
            l ← read_bytes buf p (Z.to_nat len);
            if negb (bool_decide (l = opt)) then Ok false
            else check_source_loop fuel buf opt (p + len) (i + len + 4) rdlen
        else check_source_loop fuel buf opt (p + len) (i + len + 4) rdlen
      else Ok true
  end.

(** Whether the subnet in the reply is the one sent for [peer]. *)
Definition check_source (cfg : edns_config) (buf : list Z) (plen pseudoheader : Z) (peer : mysockaddr) : res bool :=
  '(opt, _) ← calc_subnet_opt cfg peer;
  r ← catch (skip_name buf plen pseudoheader 10);
  match r with
  | None => Ok true
  | Some p =>
      '(rdlen, p) ← GETSHORT buf (p + 8);
      if negb (CHECK_LEN p plen rdlen) then Ok true
      else check_source_loop (S (Z.to_nat rdlen)) buf opt p 0 rdlen
  end.
