(* ===== verification/Edns0Spec.v ===== *)
(** The pseudoheader: [find_pseudoheader] finds the last OPT record of a packet
    that parses, adding to a packet keeps within it and its limit, what was added
    is found, and an option that is replaced is there once. *)
From S2P Require Import Prelude Hostname Wire WireSafe WireSpec RRFilter RRFilterSpec WireExt NetAddr Records Edns0.

(** * The additional section *)

(** The record number [i] at [p], and [n] records from [p] on. *)
Definition rr_at (buf : list Z) (plen i p : Z) : option rr :=
  match rr_header plen buf p with
  | Ok (type, class, rdlen, q) => if q + rdlen <=? plen then Some (RR i p (q + rdlen) type class) else None
  | _ => None
  end.
Fixpoint rr_list (buf : list Z) (plen : Z) (n : nat) (i p : Z) : option (list rr) :=
  match n with
  | O => Some []
  | S n => r ← rr_at buf plen i p; l ← rr_list buf plen n (i + 1) (rr_end r); Some (r :: l)
  end.

(** The records of the additional section of a packet that parses. *)
Definition additional_from (buf : list Z) (plen q : Z) : option (list rr) :=
  match ancount buf, nscount buf, arcount buf with
  | Ok an, Ok ns, Ok ar =>
      match skip_section buf plen (Z.to_nat (an + ns)) q with Ok a => rr_list buf plen (Z.to_nat ar) 0 a | _ => None end
  | _, _, _ => None
  end.
Definition additional (buf : list Z) (plen : Z) : option (list rr) :=
  match skip_questions buf plen with Ok q => additional_from buf plen q | _ => None end.

(** A record as find_pseudoheader reports it, [ar] being the number of records. *)
Definition ph_of (buf : list Z) (plen ar : Z) (r : rr) : pseudo :=
  Pseudo (rr_start r) (rr_end r - rr_start r) (match skip_name buf plen (rr_start r) 10 with Ok q => q + 2 | _ => 0 end) (rr_i r =? ar - 1).

Definition is_opt (r : rr) : Prop := rr_type r = T_OPT.
Definition last_opt (L : list rr) : option rr := last (filter is_opt L).

(** A signed packet ends in a TSIG record. *)
Definition is_tsig (ar : Z) (r : rr) : bool := (rr_i r =? ar - 1) && (rr_class r =? C_ANY) && (rr_type r =? T_TSIG).

Section packet.
Context (buf : list Z) (plen : Z).
Hypothesis (Hb : Forall is_byte buf).
Hypothesis (Hl : HDRSZ ≤ plen ≤ zlen buf).

Lemma plen_ok : 0 ≤ plen ≤ zlen buf.
Proof. unfold HDRSZ in Hl. lia. Qed.

(** The fields of a record header. *)
Lemma rr_header_ok p type class rdlen q :
  0 ≤ p → rr_header plen buf p = Ok (type, class, rdlen, q) →
  ∃ n, skip_name buf plen p 10 = Ok n ∧ p < n ∧ q = n + 10 ∧ q ≤ plen ∧ GETSHORT buf n = Ok (type, n + 2) ∧
    GETSHORT buf (n + 2) = Ok (class, n + 4) ∧ GETSHORT buf (n + 8) = Ok (rdlen, n + 10) ∧ 0 ≤ rdlen < 65536.
Proof.
  intros Hp E. unfold rr_header in E. apply bind_inv in E as (n & En & E). destruct (skip_name_lt buf plen Hb p 10 n Hp En) as [Hn Hnl].
  apply bind_inv in E as ([t a] & E1 & E). destruct (GETSHORT_bound buf Hb _ _ _ E1) as (_ & -> & _).
  apply bind_inv in E as ([c b] & E2 & E). destruct (GETSHORT_bound buf Hb _ _ _ E2) as (_ & -> & _).
  apply bind_inv in E as ([r d] & E3 & E). destruct (GETSHORT_bound buf Hb _ _ _ E3) as (Hr & -> & _).
  injection E as <- <- <- <-. exists n. replace (n + 2 + 2) with (n + 4) in * by lia. replace (n + 4 + 4) with (n + 8) in * by lia.
  replace (n + 8 + 2) with (n + 10) in * by lia. split_and!; try done; lia.
Qed.

Lemma rr_header_wp p : 0 ≤ p → wp (rr_header plen buf p) (λ _, True).
Proof. intros Hp. apply wp_rr_header; [done|apply plen_ok|done|done]. Qed.

(** One turn of the loop of find_pseudoheader, for a record that parses and one
    that does not. *)
Lemma find_opt_step want ar n i p ret sign :
  0 ≤ p →
  find_opt buf plen want ar (S n) i p ret sign =
    match rr_at buf plen i p with
    | None => Ok (None, sign)
    | Some r =>
        find_opt buf plen want ar n (i + 1) (rr_end r) (if rr_type r =? T_OPT then Some (ph_of buf plen ar r) else ret)
          (sign || (want && negb (rr_type r =? T_OPT) && is_tsig ar r))
    end.
Proof.
  intros Hp. pose proof (rr_header_wp p Hp) as Hw. unfold rr_at. destruct (rr_header plen buf p) as [[[[type class] rdlen] q]| | |] eqn:E; [| |done..].
  - destruct (rr_header_ok p type class rdlen q Hp E) as (m & Em & Hm & -> & Hq & E1 & E2 & E3 & Hr).
    cbn [find_opt]. cbv zeta. rewrite Em. cbn [catch mbind res_bind]. rewrite E1. cbn [mbind res_bind]. rewrite E2. cbn [mbind res_bind].
    replace (m + 4 + 4) with (m + 8) by lia. rewrite E3. cbn [mbind res_bind]. unfold ADD_RDLEN, CHECK_LEN.
    destruct (Z.leb_spec (m + 10 + rdlen) plen) as [Hle|Hgt]; cbn [guard_ok mbind res_bind catch]; [|done]. cbn [rr_end rr_type].
    unfold ph_of, is_tsig. cbn [rr_start rr_end rr_i rr_class rr_type]. rewrite Em.
    destruct (type =? T_OPT); cbn [negb andb]; [by rewrite andb_false_r, orb_false_r|]. by rewrite andb_true_r, !andb_assoc.
  - cbn [find_opt]. cbv zeta. unfold rr_header in E.
    assert (wp (skip_name buf plen p 10) (λ q, p < q ∧ q + 10 ≤ plen)) as Hs by (apply wp_skip_name; [done|apply plen_ok|done|done]).
    destruct (skip_name buf plen p 10) as [m| | |]; [|done..]. exfalso. cbn [mbind res_bind] in E. cbn in Hs. pose proof plen_ok.
    destruct (GETSHORT_total buf m Hb) as (? & ? & _ & _ & _ & _ & G1); [lia|lia|]. rewrite G1 in E. cbn [mbind res_bind] in E.
    destruct (GETSHORT_total buf (m + 2) Hb) as (? & ? & _ & _ & _ & _ & G2); [lia|lia|]. rewrite G2 in E. cbn [mbind res_bind] in E.
    destruct (GETSHORT_total buf (m + 2 + 2 + 4) Hb) as (? & ? & _ & _ & _ & _ & G3); [lia|lia|]. rewrite G3 in E. done.
Qed.

Lemma rr_at_pos i p r : 0 ≤ p → rr_at buf plen i p = Some r → rr_start r = p ∧ p + 11 ≤ rr_end r ≤ plen ∧ rr_i r = i.
Proof.
  unfold rr_at. intros Hp. destruct (rr_header plen buf p) as [[[[type class] rdlen] q]| | |] eqn:E; [|done..].
  destruct (Z.leb_spec (q + rdlen) plen); [|done]. intros [= <-]. destruct (rr_header_ok p type class rdlen q Hp E) as (m & _ & ? & -> & _ & _ & _ & _ & ?).
  cbn. lia.
Qed.

Lemma find_opt_spec want ar n i p ret sign :
  0 ≤ p →
  match rr_list buf plen n i p with
  | Some L => find_opt buf plen want ar n i p ret sign =
      Ok (match last_opt L with Some r => Some (ph_of buf plen ar r) | None => ret end,
          sign || (want && existsb (λ r, negb (rr_type r =? T_OPT) && is_tsig ar r) L))
  | None => ∃ s, find_opt buf plen want ar n i p ret sign = Ok (None, s) ∧ (want = false → s = sign)
  end.
Proof.
  revert i p ret sign. induction n as [|n IH]; intros i p ret sign Hp.
  { cbn. by rewrite andb_false_r, orb_false_r. }
  rewrite find_opt_step by done. cbn [rr_list]. destruct (rr_at buf plen i p) as [r|] eqn:Er; [|by exists sign].
  cbn [mbind option_bind]. destruct (rr_at_pos i p r Hp Er) as (_ & Hr & _).
  specialize (IH (i + 1) (rr_end r) (if rr_type r =? T_OPT then Some (ph_of buf plen ar r) else ret)
    (sign || (want && negb (rr_type r =? T_OPT) && is_tsig ar r)) ltac:(lia)).
  destruct (rr_list buf plen n (i + 1) (rr_end r)) as [L|]; cbn [option_bind].
  - rewrite IH. f_equal. f_equal.
    + unfold last_opt. rewrite filter_cons. unfold is_opt at 2. destruct (Z.eqb_spec (rr_type r) T_OPT) as [E|E].
      * rewrite decide_True by done. destruct (filter is_opt L) as [|x l] eqn:Ef; [done|]. rewrite last_cons_cons.
        destruct (last (x :: l)) eqn:El; [done|]. by apply last_None in El.
      * by rewrite decide_False.
    + cbn [existsb]. destruct sign, want; cbn; done.
  - destruct IH as (s & -> & Hs). exists s. split; [done|]. intros ->. rewrite Hs by done. by rewrite orb_false_r.
Qed.

(** The questions end where skip_questions says, whether or not signatures are
    wanted. *)
Lemma sign_questions_spec n p sign :
  0 ≤ p ≤ plen → ∃ s, sign_questions buf plen n p sign = Ok (match skip_questions_loop buf plen n p with Ok q => Some q | _ => None end, s).
Proof.
  revert p sign. induction n as [|n IH]; intros p sign Hp; [by exists sign|]. cbn [sign_questions skip_questions_loop].
  assert (wp (skip_name buf plen p 4) (λ q, p < q ∧ q + 4 ≤ plen)) as Hs by (apply wp_skip_name; [done|apply plen_ok|lia|done]).
  destruct (skip_name buf plen p 4) as [m| | |]; [|by exists sign|done..]. cbn in Hs. cbn [catch mbind res_bind]. pose proof plen_ok.
  destruct (GETSHORT_total buf m Hb) as (? & ? & _ & _ & _ & _ & ->); [lia|lia|]. cbn [mbind res_bind].
  destruct (GETSHORT_total buf (m + 2) Hb) as (? & ? & _ & _ & _ & _ & ->); [lia|lia|]. cbn [mbind res_bind].
  replace (m + 2 + 2) with (m + 4) by lia. apply IH. lia.
Qed.

(** What find_pseudoheader starts from: with [want] it does not step over the
    questions of a packet whose opcode is not QUERY. *)
Definition questions_end (want : bool) : option Z :=
  match rd buf 2 with
  | Ok hb3 => if want && negb (Z.land hb3 HB3_OPCODE =? 0) then Some HDRSZ
              else match skip_questions buf plen with Ok q => Some q | _ => None end
  | _ => None
  end.

Lemma questions_end_bound want q : questions_end want = Some q → HDRSZ ≤ q ≤ plen.
Proof.
  unfold questions_end. destruct (rd buf 2) as [hb3| | |]; [|done..]. destruct (want && _); [intros [= <-]; lia|].
  assert (wp (skip_questions buf plen) (λ q, HDRSZ ≤ q ≤ plen)) as Hs by (apply wp_skip_questions; [done|apply plen_ok|lia|done]).
  destruct (skip_questions buf plen); [|done..]. by intros [= <-].
Qed.

Lemma find_questions (want : bool) qd hb3 :
  rd buf 2 = Ok hb3 → qdcount buf = Ok qd →
  ∃ s : bool, (want = false → s = false) ∧ (if want then if Z.land hb3 HB3_OPCODE =? 0 then sign_questions buf plen (Z.to_nat qd) HDRSZ false else Ok (Some HDRSZ, false)
        else r ← catch (skip_questions buf plen); Ok (r, false)) = (Ok (questions_end want, s) : res (option Z * bool)).
Proof.
  intros Ehb Eqd. unfold questions_end. rewrite Ehb. destruct want; cbn [andb].
  - destruct (Z.land hb3 HB3_OPCODE =? 0); cbn [negb]; [|by exists false]. unfold skip_questions. rewrite Eqd. cbn [mbind res_bind].
    destruct (sign_questions_spec (Z.to_nat qd) HDRSZ false) as (s & ->); [unfold HDRSZ in *; lia|]. by exists s.
  - assert (wp (skip_questions buf plen) (λ q, True)) as Hs by (apply wp_skip_questions; [done|apply plen_ok|lia|done]).
    exists false. split; [done|]. by destruct (skip_questions buf plen).
Qed.

Lemma find_pseudoheader_spec want :
  ∃ ar s, arcount buf = Ok ar ∧ 0 ≤ ar < 65536 ∧ (want = false → s = false) ∧
    find_pseudoheader buf plen want =
      Ok (q ← questions_end want; L ← additional_from buf plen q; r ← last_opt L; Some (ph_of buf plen ar r), s).
Proof.
  destruct (header_counts buf Hb) as (qd & an & ns & ar & Eqd & Ean & Ens & Ear & Hqd & Han & Hns & Har); [lia|].
  exists ar. unfold find_pseudoheader, additional_from. rewrite Ear, Ean, Ens, Eqd. cbn [mbind res_bind].
  destruct (rd_in buf 2) as (hb3 & Ehb & _); [unfold HDRSZ in Hl; lia|]. rewrite Ehb. cbn [mbind res_bind].
  destruct (find_questions want qd hb3 Ehb Eqd) as (s0 & Hs0 & E0). cbn [mbind] in E0. rewrite E0. cbn [mbind res_bind].
  pose proof (questions_end_bound want) as Hq. destruct (questions_end want) as [q|]; [|by exists s0]. specialize (Hq q eq_refl).
  cbn [mbind option_bind].
  assert (wp (skip_section buf plen (Z.to_nat (an + ns)) q) (λ a, q ≤ a ≤ plen)) as Hs
    by (apply wp_skip_section; [done|apply plen_ok|unfold HDRSZ in *; lia|done]).
  destruct (Z.eqb_spec ar 0) as [->|Hne]; [exists s0; do 3 (split; [done|]); by destruct (skip_section _ _ _ q)|].
  destruct (skip_section buf plen (Z.to_nat (an + ns)) q) as [a| | |]; [|by exists s0|done..]. cbn in Hs. cbn [catch mbind res_bind].
  pose proof (find_opt_spec want ar (Z.to_nat ar) 0 a None s0) as Hf. destruct (rr_list buf plen (Z.to_nat ar) 0 a) as [L|].
  - cbn [mbind option_bind]. eexists. do 2 (split; [done|]). rewrite Hf by (unfold HDRSZ in *; lia). split; [|by destruct (last_opt L)].
    intros ->. by rewrite Hs0.
  - destruct Hf as (s & Hf & Hss); [unfold HDRSZ in *; lia|]. exists s. rewrite Hf. do 2 (split; [done|]). split; [|done]. intros ->. rewrite Hss by done. by apply Hs0.
Qed.

(** The records of a list are where they say. *)
Lemma rr_list_at n i p L r :
  0 ≤ p → rr_list buf plen n i p = Some L → r ∈ L → p ≤ rr_start r ∧ i ≤ rr_i r ∧ rr_at buf plen (rr_i r) (rr_start r) = Some r.
Proof.
  revert i p L. induction n as [|n IH]; intros i p L Hp; cbn [rr_list]; [intros [= <-] []%elem_of_nil|].
  destruct (rr_at buf plen i p) as [r0|] eqn:E; [|done]. cbn [mbind option_bind]. destruct (rr_at_pos i p r0 Hp E) as (H1 & H2 & H3).
  destruct (rr_list buf plen n (i + 1) (rr_end r0)) as [L0|] eqn:EL; [|done]. cbn [option_bind]. intros [= <-] [->|Hr]%elem_of_cons.
  - rewrite H1, H3. split; [lia|]. split; [lia|done].
  - destruct (IH (i + 1) (rr_end r0) L0 ltac:(lia) EL Hr) as (? & ? & ?). split; [lia|]. split; [lia|done].
Qed.

(** A pseudoheader that was found is an OPT record within the packet. *)
Record placed (h : pseudo) := {
  pl_start : HDRSZ ≤ ph_start h;
  pl_name : skip_name buf plen (ph_start h) 10 = Ok (ph_udp h - 2);
  pl_lt : ph_start h + 3 ≤ ph_udp h;
  pl_type : GETSHORT buf (ph_udp h - 2) = Ok (T_OPT, ph_udp h);
  pl_rdlen : ∃ rdlen, GETSHORT buf (ph_udp h + 6) = Ok (rdlen, ph_udp h + 8) ∧ 0 ≤ rdlen < 65536 ∧
      ph_start h + ph_len h = ph_udp h + 8 + rdlen;
  pl_end : ph_start h + ph_len h ≤ plen
}.

Lemma rr_at_placed i p r ar : HDRSZ ≤ p → rr_at buf plen i p = Some r → is_opt r → placed (ph_of buf plen ar r).
Proof.
  unfold rr_at, is_opt. intros Hp. destruct (rr_header plen buf p) as [[[[type class] rdlen] q]| | |] eqn:E; [|done..].
  destruct (Z.leb_spec (q + rdlen) plen); [|done]. intros [= <-] Ht. cbn in Ht. subst type.
  destruct (rr_header_ok p _ class rdlen q ltac:(unfold HDRSZ in *; lia) E) as (m & Em & Hm & -> & Hq & E1 & E2 & E3 & Hr).
  unfold ph_of. cbn [rr_start rr_end rr_i]. rewrite Em. split; cbn [ph_start ph_udp ph_len]; try lia.
  - by replace (m + 2 - 2) with m by lia.
  - by replace (m + 2 - 2) with m by lia.
  - exists rdlen. replace (m + 2 + 6) with (m + 8) by lia. replace (m + 2 + 8) with (m + 10) by lia. split_and!; try done; lia.
Qed.

Lemma additional_from_pos q L r :
  HDRSZ ≤ q ≤ plen → additional_from buf plen q = Some L → r ∈ L → q ≤ rr_start r ∧ 0 ≤ rr_i r ∧ rr_at buf plen (rr_i r) (rr_start r) = Some r.
Proof.
  intros Hq. unfold additional_from. destruct (ancount buf) as [an| | |]; [|done..]. destruct (nscount buf) as [ns| | |]; [|done..].
  destruct (arcount buf) as [ar| | |]; [|done..]. destruct (skip_section buf plen _ q) as [a| | |] eqn:E; [|done..].
  intros EL Hr. assert (0 ≤ q) as Hq0 by (unfold HDRSZ in *; lia). destruct (skip_section_le buf plen Hb _ _ _ Hq0 E) as [? _].
  destruct (rr_list_at (Z.to_nat ar) 0 a L r ltac:(lia) EL Hr) as (? & ? & ?). split; [lia|done].
Qed.

Lemma last_opt_elem L r : last_opt L = Some r → r ∈ L ∧ is_opt r.
Proof. unfold last_opt. intros [l El]%last_Some. assert (r ∈ filter is_opt L) as H by (rewrite El; set_solver). apply list_elem_of_filter in H. tauto. Qed.

Lemma find_pseudoheader_placed want :
  twp (find_pseudoheader buf plen want) (λ r, match r.1 with Some h => placed h | None => True end).
Proof.
  destruct (find_pseudoheader_spec want) as (ar & s & _ & _ & _ & ->). cbn. destruct (questions_end want) as [q|] eqn:Eq; [|done]. cbn.
  destruct (additional_from buf plen q) as [L|] eqn:EL; [|done]. cbn. destruct (last_opt L) as [r|] eqn:Er; [|done]. cbn.
  apply last_opt_elem in Er as [Hr Ho]. pose proof (questions_end_bound want q Eq).
  destruct (additional_from_pos q L r) as (? & _ & Hat); [done..|]. apply (rr_at_placed (rr_i r) (rr_start r)); [lia|done|done].
Qed.
End packet.

(** * Adding stays within the packet *)

(** Deleting records leaves a packet that is not longer. *)
Lemma rr_seq_total buf plen (P : rr → Prop) `{∀ r, Decision (P r)} i p L :
  Forall is_byte buf → 0 ≤ plen ≤ zlen buf → 0 ≤ p ≤ plen → rr_seq buf plen i p L → 0 ≤ total (rr_span <$> filter P L) ≤ plen - p.
Proof.
  intros Hb Hl. revert i p. induction L as [|r L IH]; intros i p Hp; [cbn; lia|]. intros (_ & Es & He & (rdlen & q & Eh & Er) & Hs).
  assert (wp (rr_header plen buf p) (λ '(_, _, rdlen, q), p < q ∧ 0 ≤ rdlen)) as Hw by (apply wp_rr_header; [done|done|lia|]; intros; lia).
  rewrite Eh in Hw. cbn in Hw. specialize (IH (i + 1) (rr_end r) ltac:(lia) Hs). rewrite filter_cons. case_decide; [|lia].
  rewrite fmap_cons. unfold total in *. cbn. lia.
Qed.

Lemma rrfilter_plen alloc wkspc buf plen mode :
  Forall is_byte buf → HDRSZ ≤ plen ≤ zlen buf →
  twp (rrfilter alloc wkspc buf plen mode) (λ '(buf', plen'), Forall is_byte buf' ∧ zlen buf' = zlen buf ∧ HDRSZ ≤ plen' ≤ plen).
Proof.
  intros Hb Hl. destruct (rrfilter_total alloc wkspc buf plen mode Hb Hl) as (buf' & plen' & -> & Hz & Hb' & H). split; [done|]. split; [done|].
  destruct H as [[_ ->]|(an & ns & ar & qt & qc & p & L & E & b1 & F)]; [lia|]. rewrite (fi_plen _ _ _ _ _ _ _ _ _ _ _ _ _ _ F).
  destruct (fi_elided _ _ _ _ _ _ _ _ _ _ _ _ _ _ F) as [-> _]. destruct (fi_question _ _ _ _ _ _ _ _ _ _ _ _ _ _ F) as (Es & _).
  apply (skip_name_lt buf plen Hb) in Es; [|unfold HDRSZ; lia]. assert (0 ≤ plen ≤ zlen buf) as Hl0 by (unfold HDRSZ in *; lia).
  pose proof (rr_seq_total buf plen (elides mode an ns qt qc) 0 (p + 4) L Hb Hl0 ltac:(unfold HDRSZ in *; lia) (fi_records _ _ _ _ _ _ _ _ _ _ _ _ _ _ F)).
  lia.
Qed.

(** Scanning the options, from [i] bytes into the [rdlen] bytes after [lenp]. *)
Lemma scan_opts_safe fuel buf lenp p i rdlen optno replace is_last :
  Forall is_byte buf → 0 ≤ lenp → p = lenp + 2 + i → 0 ≤ i ≤ rdlen → lenp + 2 + rdlen ≤ zlen buf → rdlen - i < Z.of_nat fuel →
  twp (scan_opts fuel buf lenp p i rdlen optno replace is_last)
    (λ r, match r with
          | Some (buf', p', rdlen', _) => patched buf buf' lenp (lenp + 2 + rdlen) ∧ lenp + 2 ≤ p' ≤ lenp + 2 + rdlen ∧ 0 ≤ rdlen' ≤ rdlen
          | None => True
          end).
Proof.
  revert buf p i rdlen. induction fuel as [|fuel IH]; intros buf p i rdlen Hb Hlp -> Hi Hz Hf; [lia|]. cbn [scan_opts].
  destruct (Z.ltb_spec (i + 4) rdlen) as [Hlt|Hge]; [|split; [by apply patched_refl|lia]].
  twp_step. apply twp_GETSHORT; [done|lia|lia|]. intros code Hcode _. cbn beta iota. twp_step. apply twp_GETSHORT; [done|lia|lia|].
  intros len Hlen _. cbn beta iota. destruct (Z.ltb_spec rdlen (i + 4 + len)) as [Hbad|Hok]; [split; [by apply patched_refl|lia]|].
  destruct (code =? optno).
  - destruct (replace =? 0); [done|]. twp_step. apply twp_memmove; [done|lia..|]. intros b1 P1 _. cbn beta. pose proof P1 as [B1 L1 _].
    twp_step. apply twp_PUTSHORT; [done|lia|lia|]. intros b2 P2 _. cbn beta iota. pose proof P2 as [B2 L2 _].
    eapply twp_mono; [apply IH; [done|lia..]|]. intros [[[[b3 p3] r3] l3]|]; [|done]. intros (P3 & Hp3 & Hr3). split; [|lia].
    pose proof (patched_trans _ _ _ _ _ _ _ (patched_trans _ _ _ _ _ _ _ P1 P2) P3) as P. apply (patched_weaken _ _ _ _ _ _ P); lia.
  - eapply twp_mono; [apply IH; [done|lia..]|]. intros [[[[b3 p3] r3] l3]|]; [|done]. intros (P3 & Hp3 & Hr3). split; [done|lia].
Qed.

(** What every way of adding leaves: the bytes of the buffer, and a length that
    is within the old one or the limit. *)
Definition within (buf : list Z) (plen limit : Z) (r : list Z * Z) : Prop :=
  Forall is_byte r.1 ∧ zlen r.1 = zlen buf ∧ HDRSZ ≤ r.2 ≤ Z.max plen limit.

Lemma within_same buf buf' plen limit : Forall is_byte buf' → zlen buf' = zlen buf → HDRSZ ≤ plen → within buf plen limit (buf', plen).
Proof. intros. split; [done|]. split; [done|]. cbn. lia. Qed.

Lemma add_option_safe buf plen limit p datap lenp optno opt replace :
  Forall is_byte buf → Forall is_byte opt → HDRSZ ≤ plen → HDRSZ ≤ p → (p ≤ plen ∨ p ≤ limit) → limit ≤ zlen buf → 0 ≤ lenp → lenp + 2 ≤ zlen buf →
  twp (add_option buf plen limit p datap lenp optno opt replace) (within buf plen limit).
Proof.
  intros Hb Ho Hpl Hp Hpp Hlim Hlp Hlz. unfold add_option, HDRSZ in *. pose proof (zlen_nonneg opt).
  destruct (Z.ltb_spec (limit - (p + 4)) (zlen opt)); [by apply within_same|].
  destruct (negb (optno =? 0) && negb (replace =? 2)); [|split; [done|]; split; [done|]; cbn [snd]; unfold HDRSZ; lia].
  rewrite (proj2 (Z.ltb_ge limit (p + 4))) by lia.
  twp_step. apply twp_PUTSHORT; [done|lia|lia|]. intros b1 [B1 L1 _] _. cbn beta iota.
  twp_step. apply twp_PUTSHORT; [done|lia|lia|]. intros b2 [B2 L2 _] _. cbn beta iota.
  rewrite (proj2 (Z.ltb_ge limit (p + 2 + 2 + zlen opt))) by lia.
  twp_step. apply twp_put_bytes; [done|done|lia|lia|]. intros b3 [B3 L3 _] _. cbn beta.
  twp_step. apply twp_PUTSHORT; [done|lia|lia|]. intros b4 [B4 L4 _] _. split; [done|]. split; [cbn; congruence|]. cbn. unfold HDRSZ. lia.
Qed.

Lemma wp_packet_end buf plen : Forall is_byte buf → HDRSZ ≤ plen ≤ zlen buf → wp (packet_end buf plen) (λ p, HDRSZ ≤ p ≤ plen).
Proof.
  intros Hb Hl. assert (0 ≤ plen ≤ zlen buf) by (unfold HDRSZ in *; lia). unfold packet_end.
  wp_step. apply wp_skip_questions; [done|done|lia|]. intros q Hq.
  wp_step. apply (wp_ancount buf plen); [done|done|lia|]. intros an Han. wp_step. apply (wp_nscount buf plen); [done|done|lia|]. intros ns Hns.
  wp_step. apply (wp_arcount buf plen); [done|done|lia|]. intros ar Har. apply wp_skip_section; [done|done|unfold HDRSZ in *; lia|]. lia.
Qed.

Lemma twp_packet_end buf plen (Q : option Z → Prop) :
  Forall is_byte buf → HDRSZ ≤ plen ≤ zlen buf → (∀ p, packet_end buf plen = Ok p → HDRSZ ≤ p ≤ plen → Q (Some p)) → Q None →
  twp (catch (packet_end buf plen)) Q.
Proof.
  intros Hb Hl HQ Hn. pose proof (wp_packet_end buf plen Hb Hl) as Hw. apply twp_catch_wp; [by apply (wp_mono _ _ _ Hw)| |done].
  intros p E. apply HQ; [done|]. by rewrite E in Hw.
Qed.

(** The count of the additional section is raised when the rest fits. *)
Lemma twp_bump_arcount {A} buf (c : bool) (K : list Z → res A) (Q : A → Prop) :
  Forall is_byte buf → HDRSZ ≤ zlen buf →
  (∀ ar buf', arcount buf = Ok ar → 0 ≤ ar < 65536 → patched buf buf' 10 12 → arcount buf' = Ok (if c then u16 (ar + 1) else ar) → twp (K buf') Q) →
  twp (ar ← arcount buf; buf ← (if c then '(buf, _) ← PUTSHORT buf 10 (ar + 1); Ok buf else Ok buf); K buf) Q.
Proof.
  intros Hb Hl HQ. destruct (header_counts buf Hb Hl) as (_ & _ & _ & ar & _ & _ & _ & Ear & _ & _ & _ & Har). rewrite Ear. cbn [mbind res_bind].
  unfold HDRSZ in *. twp_step. destruct c.
  - twp_step. apply twp_PUTSHORT; [done|lia|lia|]. intros b P E. cbn. apply (HQ ar); [done|done|done|]. unfold arcount. by rewrite E.
  - apply (HQ ar); [done|done|by apply patched_refl|done].
Qed.

Lemma new_header_safe buf plen limit udp_sz rcode flags rdlen copy optno opt replace :
  Forall is_byte buf → Forall is_byte opt → HDRSZ ≤ plen ≤ zlen buf → limit ≤ zlen buf → 0 ≤ rdlen →
  (∀ bs, copy = Some bs → Forall is_byte bs ∧ zlen bs = rdlen) →
  twp (new_header buf plen limit udp_sz rcode flags rdlen copy optno opt replace) (within buf plen limit).
Proof.
  intros Hb Ho Hl Hlim Hrd Hc. unfold new_header. twp_step. apply twp_packet_end; [done|done| |by apply within_same; [..|lia]].
  intros p _ Hp. destruct (Z.ltb_spec limit (p + 11)); [by apply within_same; [..|lia]|]. assert (HDRSZ ≤ zlen buf) by lia.
  twp_step. apply twp_wr_patched; [done|unfold HDRSZ in *; lia|]. intros b0 [B0 L0 _] _. cbn beta.
  twp_step. apply twp_PUTSHORT; [done|unfold HDRSZ in *; lia|lia|]. intros b1 [B1 L1 _] _. cbn beta iota.
  twp_step. apply twp_PUTSHORT; [done|unfold HDRSZ in *; lia|lia|]. intros b2 [B2 L2 _] _. cbn beta iota.
  twp_step. apply twp_PUTSHORT; [done|unfold HDRSZ in *; lia|lia|]. intros b3 [B3 L3 _] _. cbn beta iota.
  twp_step. apply twp_PUTSHORT; [done|unfold HDRSZ in *; lia|lia|]. intros b4 [B4 L4 _] _. cbn beta iota.
  cbv zeta. twp_step. apply twp_PUTSHORT; [done|unfold HDRSZ in *; lia|lia|]. intros b5 [B5 L5 _] _. cbn beta iota.
  assert (zlen b5 = zlen buf) as L by congruence.
  assert (∀ b6 p', Forall is_byte b6 → zlen b6 = zlen buf → p + 11 ≤ p' ≤ limit → twp (ar ← arcount b6;
    buf0 ← (if zlen opt <=? limit - (p' + 4) then '(buf1, _) ← PUTSHORT b6 10 (ar + 1); Ok buf1 else Ok b6);
    add_option buf0 plen limit p' (p + 1 + 2 + 2 + 2 + 2 + 2) (p + 1 + 2 + 2 + 2 + 2) optno opt replace) (within buf plen limit)) as Hadd.
  { intros b6 p' B6 L6 Hp'. apply twp_bump_arcount; [done|lia|]. intros ar b7 _ _ [B7 L7 _] _.
    replace (within buf plen limit) with (within b7 plen limit) by (unfold within; by rewrite L7, L6).
    apply add_option_safe; [done|done|unfold HDRSZ in *; lia..]. }
  destruct copy as [bs|]; [|apply Hadd; [done|lia|lia]]. destruct (Hc bs eq_refl) as [Hbs Hz].
  destruct (Z.ltb_spec limit (p + 1 + 2 + 2 + 2 + 2 + 2 + rdlen)); [apply within_same; [done|lia|lia]|].
  twp_step. apply twp_put_bytes; [done|done|unfold HDRSZ in *; lia|lia|]. intros b6 [B6 L6 _] _. apply Hadd; [done|lia|lia].
Qed.

Lemma slice_bytes buf p n : Forall is_byte buf → Forall is_byte (slice buf p n).
Proof. intros H. unfold slice. by apply Forall_take, Forall_drop. Qed.

Lemma extend_header_safe alloc wkspc malloc_ok buf plen limit udp_sz rcode flags lenp is_last optno opt replace :
  Forall is_byte buf → Forall is_byte opt → HDRSZ ≤ plen ≤ zlen buf → limit ≤ zlen buf → HDRSZ ≤ lenp → lenp + 2 ≤ plen →
  twp (extend_header alloc wkspc malloc_ok buf plen limit udp_sz rcode flags lenp is_last optno opt replace) (within buf plen limit).
Proof.
  intros Hb Ho Hl Hlim Hlp Hlz. unfold extend_header. twp_step. apply twp_GETSHORT; [done|unfold HDRSZ in *; lia|lia|].
  intros rdlen Hrd _. cbn beta iota. unfold CHECK_LEN. destruct (Z.leb_spec (lenp + 2 + rdlen) plen); [|by apply within_same; [..|lia]].
  cbn [negb]. cbv zeta. destruct (optno =? 0); [by apply within_same; [..|lia]|].
  twp_step. eapply twp_mono; [apply scan_opts_safe; [done|unfold HDRSZ in *; lia..]|].
  intros [[[[b1 p1] r1] l1]|] H1; [|by apply within_same; [..|lia]]. destruct H1 as ([B1 L1 _] & Hp1 & Hr1).
  destruct l1.
  - replace (within buf plen limit) with (within b1 plen limit) by (unfold within; by rewrite L1).
    apply add_option_safe; [done|done|unfold HDRSZ in *; lia..].
  - twp_step. eapply twp_mono; [apply rrfilter_plen; [done|lia]|]. intros [b2 plen2] (B2 & L2 & Hp2). cbn beta iota.
    eapply twp_mono; [apply new_header_safe; [done|done|lia..|]|].
    + intros bs E. destruct (negb (r1 =? 0) && malloc_ok); [|done]. injection E as <-. split; [by apply slice_bytes|].
      unfold zlen, slice in *. rewrite length_take, length_drop. unfold HDRSZ in *. lia.
    + intros [b3 plen3] (B3 & L3 & Hp3). cbn [fst snd] in *. split; [done|]. split; cbn [fst snd]; lia.
Qed.

(** Adding an option, or the DO bit, never leaves the buffer and never makes the
    packet longer than the limit. *)
Lemma add_pseudoheader_within alloc wkspc malloc_ok buf plen limit udp_sz optno opt set_do replace :
  Forall is_byte buf → Forall is_byte opt → HDRSZ ≤ plen ≤ zlen buf → limit ≤ zlen buf →
  twp (add_pseudoheader alloc wkspc malloc_ok buf plen limit udp_sz optno opt set_do replace) (within buf plen limit).
Proof.
  intros Hb Ho Hl Hlim. unfold add_pseudoheader. twp_step. eapply twp_mono; [by apply find_pseudoheader_placed|]. intros [ph is_sign] Hpl. cbn [fst] in Hpl.
  cbn beta iota. destruct is_sign; [by apply within_same; [..|lia]|].
  destruct ph as [h|]; [|by apply new_header_safe; [done..|lia|]].
  destruct Hpl as [H1 _ H3 _ (rd0 & Erd & Hrd & Hlen) H5].
  twp_step. apply twp_GETSHORT; [done|unfold HDRSZ in *; lia|lia|]. intros udp Hudp _. cbn beta iota.
  twp_step. apply twp_GETSHORT; [done|unfold HDRSZ in *; lia|lia|]. intros rcode Hrc _. cbn beta iota.
  twp_step. apply twp_GETSHORT; [done|unfold HDRSZ in *; lia|lia|]. intros flags Hfl _. cbn beta iota. cbv zeta. twp_step. destruct set_do.
  - twp_step. apply twp_PUTSHORT; [done|unfold HDRSZ in *; lia|lia|]. intros b0 [B0 L0 _] _. cbn beta iota.
    replace (within buf plen limit) with (within b0 plen limit) by (unfold within; by rewrite L0). apply extend_header_safe; [done|done|lia..].
  - apply extend_header_safe; [done|done|lia..].
Qed.

(** * What was added is there *)

(** The bytes [bs] stand at [p]. *)
Definition stands (buf : list Z) (p : Z) (bs : list Z) : Prop := ∀ o, 0 ≤ o < zlen bs → rd buf (p + o) = rd bs o.

Lemma stands_app buf p a b : stands buf p (a ++ b) ↔ stands buf p a ∧ stands buf (p + zlen a) b.
Proof.
  unfold stands. rewrite zlen_app. pose proof (zlen_nonneg a). pose proof (zlen_nonneg b). split.
  - intros H1. split; intros o Ho.
    + rewrite H1 by lia. apply rd_app_l. lia.
    + rewrite <- Z.add_assoc, H1 by lia. apply rd_app_r. lia.
  - intros [H1 H2] o Ho. destruct (Z.lt_ge_cases o (zlen a)).
    + rewrite rd_app_l by lia. apply H1. lia.
    + replace o with (zlen a + (o - zlen a)) by lia. rewrite rd_app_r by lia. rewrite Z.add_assoc. apply H2. lia.
Qed.

Lemma stands_agree buf buf' p bs a b : stands buf p bs → agree buf buf' a b → a ≤ p → p + zlen bs ≤ b → stands buf' p bs.
Proof. intros Hs Hag Ha Hb o Ho. rewrite (Hag (p + o)) by lia. by apply Hs. Qed.

(** Options are a code, a length and data. *)
Definition option_bytes (o : Z * list Z) : list Z := be16 o.1 ++ be16 (zlen o.2) ++ o.2.
Definition options_bytes (l : list (Z * list Z)) : list Z := concat (option_bytes <$> l).
Definition option_ok (o : Z * list Z) : Prop := 0 ≤ o.1 < 65536 ∧ zlen o.2 < 65536 ∧ Forall is_byte o.2.

Lemma options_bytes_cons o l : options_bytes (o :: l) = option_bytes o ++ options_bytes l.
Proof. done. Qed.
Lemma options_bytes_app l k : options_bytes (l ++ k) = options_bytes l ++ options_bytes k.
Proof. unfold options_bytes. by rewrite fmap_app, concat_app. Qed.
Lemma zlen_option_bytes o : zlen (option_bytes o) = 4 + zlen o.2.
Proof. unfold option_bytes. rewrite !zlen_app. unfold be16. rewrite !zlen_cons, zlen_nil. lia. Qed.

Lemma be16_bytes v : 0 ≤ v < 65536 → ∃ x y, be16 v = [x; y] ∧ is_byte x ∧ is_byte y ∧ x * 256 + y = v.
Proof.
  intros Hv. unfold be16. eexists _, _. split; [done|]. unfold is_byte, u8. rewrite Z.shiftr_div_pow2 by lia. change (2 ^ 8) with 256.
  pose proof (Z.mod_pos_bound v 256). pose proof (Z.div_mod v 256). rewrite (Z.mod_small (v / 256)) by (split; [apply Z.div_pos|apply Z.div_lt_upper_bound]; lia).
  assert (0 ≤ v / 256 < 256) by (split; [apply Z.div_pos|apply Z.div_lt_upper_bound]; lia). lia.
Qed.

Lemma stands_be16 buf p v : Forall is_byte buf → 0 ≤ p → p + 2 ≤ zlen buf → 0 ≤ v < 65536 → stands buf p (be16 v) ↔ GETSHORT buf p = Ok (v, p + 2).
Proof.
  intros Hb Hp Hl Hv. destruct (be16_bytes v Hv) as (x & y & -> & Hx & Hy & Exy).
  destruct (GETSHORT_total buf p Hb Hp Hl) as (a & b & Ea & Eb & Ha & Hbb & EG). split.
  - intros Hs. pose proof (Hs 0 ltac:(change (zlen [x; y]) with 2; lia)) as H0. pose proof (Hs 1 ltac:(change (zlen [x; y]) with 2; lia)) as H1. rewrite Z.add_0_r, Ea in H0. rewrite Eb in H1.
    cbn in H0, H1. rewrite EG. injection H0 as ->. injection H1 as ->. by rewrite Exy.
  - rewrite EG. intros [= E] o Ho. unfold is_byte in *. assert (a = x ∧ b = y) as [-> ->] by lia.
    change (zlen [x; y]) with 2 in Ho. assert (o = 0 ∨ o = 1) as [-> | ->] by lia; [by rewrite Z.add_0_r, Ea|by rewrite Eb].
Qed.

Lemma stands_option buf p o :
  Forall is_byte buf → 0 ≤ p → p + zlen (option_bytes o) ≤ zlen buf → option_ok o → stands buf p (option_bytes o) ↔
  GETSHORT buf p = Ok (o.1, p + 2) ∧ GETSHORT buf (p + 2) = Ok (zlen o.2, p + 4) ∧ stands buf (p + 4) o.2.
Proof.
  intros Hb Hp Hl (H1 & H2 & _). rewrite zlen_option_bytes in Hl. pose proof (zlen_nonneg o.2). unfold option_bytes. rewrite !stands_app.
  change (zlen (be16 _)) with 2. rewrite !stands_be16 by (done || lia). replace (p + 2 + 2) with (p + 4) by lia. done.
Qed.

(** A list of options whose last one has data, which is what the scan sees. *)
Definition ends_ok (l : list (Z * list Z)) : Prop := match last l with Some o => o.2 ≠ [] | None => True end.

Lemma ends_ok_cons o l : ends_ok (o :: l) → ends_ok l ∧ 4 < zlen (options_bytes (o :: l)).
Proof.
  rewrite options_bytes_cons, zlen_app, zlen_option_bytes. unfold ends_ok. pose proof (zlen_nonneg o.2). destruct l as [|o' l].
  - cbn [last]. intros Ho. split; [done|]. destruct o.2 as [|x l]; [done|]. rewrite zlen_cons in *. change (zlen (options_bytes [])) with 0. pose proof (zlen_nonneg l). lia.
  - rewrite last_cons_cons, options_bytes_cons, zlen_app, zlen_option_bytes. pose proof (zlen_nonneg o'.2). pose proof (zlen_nonneg (options_bytes l)). split; [done|lia].
Qed.

Section scan.
Context (lenp optno replace : Z) (is_last : bool).
Hypothesis (Hlenp : 0 ≤ lenp).

Definition other (o : Z * list Z) : Prop := o.1 ≠ optno.

(** The record at [lenp] has the options [l], [n] bytes of them. *)
Record has_options (buf : list Z) (l : list (Z * list Z)) (n : Z) : Prop := {
  ho_len : n = zlen (options_bytes l);
  ho_field : GETSHORT buf lenp = Ok (n, lenp + 2);
  ho_data : stands buf (lenp + 2) (options_bytes l)
}.

(** Deleting the option after [l1]. *)
Lemma has_options_delete buf l1 o l2 n (K : list Z → res (option (list Z * Z * Z * bool))) (Q : option (list Z * Z * Z * bool) → Prop) :
  Forall is_byte buf → lenp + 2 + n ≤ zlen buf → n < 65536 → has_options buf (l1 ++ o :: l2) n →
  let i := zlen (options_bytes l1) in let n' := n - (zlen o.2 + 4) in
  (∀ buf', patched buf buf' lenp (lenp + 2 + n) → has_options buf' (l1 ++ l2) n' → twp (K buf') Q) →
  twp (buf ← memmove buf (lenp + 2 + i) (lenp + 2 + i + zlen o.2 + 4) (n' - i); '(buf, _) ← PUTSHORT buf lenp n'; K buf) Q.
Proof.
  intros Hb Hz Hn [En _ Hs] i n' HK. subst i n'. rewrite options_bytes_app, options_bytes_cons in En, Hs. rewrite !zlen_app, zlen_option_bytes in En.
  apply stands_app in Hs as [Hs1 Hs2]. apply stands_app in Hs2 as [_ Hs2]. rewrite zlen_option_bytes in Hs2. pose proof (zlen_nonneg o.2).
  pose proof (zlen_nonneg (options_bytes l1)). pose proof (zlen_nonneg (options_bytes l2)).
  twp_step. apply twp_memmove; [done|lia..|]. intros b1 P1 M1. cbn beta. pose proof P1 as [B1 L1 _].
  twp_step. apply twp_PUTSHORT; [done|lia|lia|]. intros b2 P2 E2. cbn beta iota. apply HK.
  { pose proof (patched_trans _ _ _ _ _ _ _ P1 P2) as P. apply (patched_weaken _ _ _ _ _ _ P); lia. }
  split.
  - rewrite options_bytes_app, zlen_app. lia.
  - rewrite E2. unfold u16. rewrite Z.mod_small by lia. done.
  - rewrite options_bytes_app. apply stands_app. split.
    + apply (stands_agree b1 b2 (lenp + 2) _ (lenp + 2) (lenp + 2 + n)); [|apply (patched_agree _ _ _ _ _ _ P2); lia|lia|lia].
      apply (stands_agree buf b1 (lenp + 2) _ lenp (lenp + 2 + zlen (options_bytes l1))); [done|apply (patched_agree _ _ _ _ _ _ P1); lia|lia|lia].
    + apply (stands_agree b1 b2 _ _ (lenp + 2) (lenp + 2 + n)); [|apply (patched_agree _ _ _ _ _ _ P2); lia|lia|lia].
      intros k Hk. rewrite M1 by lia. rewrite <- (Hs2 k) by lia. f_equal. lia.
Qed.

Lemma scan_opts_options fuel buf l1 l2 n :
  Forall is_byte buf → lenp + 2 + n ≤ zlen buf → n < 65536 → has_options buf (l1 ++ l2) n → Forall option_ok l2 → ends_ok l2 →
  replace ≠ 0 ∨ Forall other l2 → zlen (options_bytes l2) < Z.of_nat fuel →
  twp (scan_opts fuel buf lenp (lenp + 2 + zlen (options_bytes l1)) (zlen (options_bytes l1)) n optno replace is_last)
    (λ r, ∃ buf' n', r = Some (buf', lenp + 2 + n', n', is_last) ∧ patched buf buf' lenp (lenp + 2 + n) ∧ 0 ≤ n' ≤ n ∧
       has_options buf' (l1 ++ filter other l2) n').
Proof.
  revert fuel buf l1 n. induction l2 as [|o l2 IH]; intros fuel buf l1 n Hb Hz Hn Ho Hok Hend Hr Hf.
  - rewrite app_nil_r in Ho. destruct fuel as [|fuel]; [change (zlen (options_bytes [])) with 0 in Hf; lia|]. cbn [scan_opts]. pose proof (ho_len _ _ _ Ho) as En.
    rewrite (proj2 (Z.ltb_ge _ n)) by lia. exists buf, n. rewrite <- En. split; [done|]. split; [by apply patched_refl|].
    split; [pose proof (zlen_nonneg (options_bytes l1)); lia|]. by rewrite filter_nil, app_nil_r.
  - pose proof (ends_ok_cons o l2 Hend) as [Hend2 Hlen]. destruct fuel as [|fuel]; [lia|]. cbn [scan_opts].
    pose proof Ho as [En _ Hs]. rewrite options_bytes_app in En, Hs. rewrite zlen_app in En. apply stands_app in Hs as [_ Hs].
    rewrite options_bytes_cons in En, Hs, Hlen, Hf. rewrite zlen_app in En, Hlen, Hf. apply stands_app in Hs as [Hs _].
    pose proof (zlen_nonneg (options_bytes l1)). pose proof (zlen_nonneg (options_bytes l2)). pose proof (zlen_nonneg o.2).
    apply Forall_cons in Hok as [Hoo Hok]. apply stands_option in Hs as (G1 & G2 & _); [|done|lia|lia|done].
    rewrite zlen_option_bytes in *. rewrite (proj2 (Z.ltb_lt _ n)) by lia. rewrite G1. cbn [mbind res_bind]. rewrite G2. cbn [mbind res_bind].
    rewrite (proj2 (Z.ltb_ge n _)) by lia. destruct (Z.eqb_spec o.1 optno) as [E|E].
    + assert (replace ≠ 0) as Hr0 by (destruct Hr as [|[Hoo' _]%Forall_cons]; [done|by destruct Hoo']).
      rewrite (proj2 (Z.eqb_neq replace 0)) by done. cbv zeta.
      replace (lenp + 2 + zlen (options_bytes l1) + 4 - 4) with (lenp + 2 + zlen (options_bytes l1)) by lia.
      apply (has_options_delete buf l1 o l2 n); [done|done|done|done|]. intros b P Ho'. pose proof P as [B L _].
      eapply twp_mono; [apply (IH fuel b l1); [done|lia|lia|done|done|done|by left|lia]|]. intros r (b' & n' & -> & P' & Hn' & Ho'').
      exists b', n'. split; [done|]. split; [pose proof (patched_trans _ _ _ _ _ _ _ P P') as PP; apply (patched_weaken _ _ _ _ _ _ PP); lia|].
      split; [lia|]. rewrite filter_cons_False; [done|]. unfold other. tauto.
    + replace (lenp + 2 + zlen (options_bytes l1) + 4 + zlen o.2) with (lenp + 2 + zlen (options_bytes (l1 ++ [o])))
        by (rewrite options_bytes_app, zlen_app, options_bytes_cons, app_nil_r, zlen_option_bytes; lia).
      replace (zlen (options_bytes l1) + zlen o.2 + 4) with (zlen (options_bytes (l1 ++ [o])))
        by (rewrite options_bytes_app, zlen_app, options_bytes_cons, app_nil_r, zlen_option_bytes; lia).
      eapply twp_mono; [apply (IH fuel buf (l1 ++ [o]) n); [done|done|done|by rewrite <- app_assoc|done|done| |lia]|].
      { destruct Hr as [|[_ Hr]%Forall_cons]; [by left|by right]. }
      intros r (b' & n' & -> & P' & Hn' & Ho'). exists b', n'. split; [done|]. split; [done|]. split; [done|].
      rewrite filter_cons_True by done. by rewrite <- app_assoc in Ho'.
Qed.

(** Adding an option after the options [l]. *)
Lemma add_option_options buf plen limit l n opt :
  Forall is_byte buf → has_options buf l n → option_ok (optno, opt) → optno ≠ 0 → replace ≠ 2 →
  n + 4 + zlen opt < 65536 → lenp + 2 + n + 4 + zlen opt ≤ limit → limit ≤ zlen buf →
  twp (add_option buf plen limit (lenp + 2 + n) (lenp + 2) lenp optno opt replace)
    (λ '(buf', plen'), plen' = lenp + 2 + n + 4 + zlen opt ∧ patched buf buf' lenp plen' ∧ has_options buf' (l ++ [(optno, opt)]) (n + 4 + zlen opt)).
Proof.
  intros Hb [En Ef Hs] Hok Ho0 Hr2 Hn Hlim Hz. pose proof Hok as (Hc & Hl & Hbo). cbn [fst snd] in *. unfold add_option. pose proof (zlen_nonneg opt).
  pose proof (zlen_nonneg (options_bytes l)). rewrite (proj2 (Z.ltb_ge _ (zlen opt))) by lia.
  rewrite (proj2 (Z.eqb_neq optno 0)), (proj2 (Z.eqb_neq replace 2)) by done. cbn [negb andb]. rewrite (proj2 (Z.ltb_ge limit _)) by lia.
  twp_step. apply twp_PUTSHORT; [done|lia|lia|]. intros b1 P1 G1. cbn beta iota. pose proof P1 as [B1 L1 _].
  twp_step. apply twp_PUTSHORT; [done|lia|lia|]. intros b2 P2 G2. cbn beta iota. pose proof P2 as [B2 L2 _].
  rewrite (proj2 (Z.ltb_ge limit (lenp + 2 + n + 2 + 2 + zlen opt))) by lia.
  twp_step. apply twp_put_bytes; [done|done|lia|lia|]. intros b3 P3 G3. cbn beta. pose proof P3 as [B3 L3 _].
  twp_step. apply twp_PUTSHORT; [done|lia|lia|]. intros b4 P4 G4. cbn beta iota. unfold u16 in G1, G2, G4.
  rewrite Z.mod_small in G1, G2, G4 by lia. split; [lia|].
  pose proof (patched_trans _ _ _ _ _ _ _ P1 (patched_trans _ _ _ _ _ _ _ P2 P3)) as P13. split.
  { pose proof (patched_trans _ _ _ _ _ _ _ P13 P4) as PP. apply (patched_weaken _ _ _ _ _ _ PP); lia. }
  assert (zlen (options_bytes (l ++ [(optno, opt)])) = n + 4 + zlen opt) as Elen
    by (rewrite options_bytes_app, zlen_app, options_bytes_cons, app_nil_r, zlen_option_bytes; cbn [snd]; lia).
  split; [by rewrite Elen|rewrite G4; do 2 f_equal; lia|]. rewrite options_bytes_app, options_bytes_cons, app_nil_r. apply stands_app. rewrite <- En. split.
  - apply (stands_agree b3 b4 (lenp + 2) _ (lenp + 2) (lenp + 2 + n)); [|apply (patched_agree _ _ _ _ _ _ P4); lia|lia|lia].
    apply (stands_agree buf b3 (lenp + 2) _ (lenp + 2) (lenp + 2 + n)); [done|apply (patched_agree _ _ _ _ _ _ P13); lia|lia|lia].
  - apply stands_option; [by destruct P4|lia|destruct P4 as [_ -> _]; rewrite zlen_option_bytes; cbn [snd]; lia|done|].
    cbn [fst snd]. assert (agree b3 b4 (lenp + 2) limit) as A4 by (apply (patched_agree _ _ _ _ _ _ P4); lia). split; [|split].
    + rewrite (GETSHORT_agree b3 b4 (lenp + 2) limit) by (done || lia).
      rewrite (GETSHORT_agree b2 b3 (lenp + 2) (lenp + 2 + n + 4)) by (lia || apply (patched_agree _ _ _ _ _ _ P3); lia).
      by rewrite (GETSHORT_agree b1 b2 (lenp + 2) (lenp + 2 + n + 2)) by (lia || apply (patched_agree _ _ _ _ _ _ P2); lia).
    + rewrite (GETSHORT_agree b3 b4 (lenp + 2) limit) by (done || lia).
      rewrite (GETSHORT_agree b2 b3 (lenp + 2) (lenp + 2 + n + 4)) by (lia || apply (patched_agree _ _ _ _ _ _ P3); lia).
      rewrite G2. do 2 f_equal. lia.
    + intros k Hk. rewrite A4 by lia. rewrite <- G3 by done. f_equal. lia.
Qed.
End scan.
