(* ===== verification/Edns0Trip.v ===== *)
(** The pseudoheader, end to end: the properties of find_pseudoheader and
    add_pseudoheader, with what the latter wrote read by the former. *)
From S2P Require Import Prelude Hostname Wire WireSafe WireSpec RRFilter RRFilterSpec WireExt NetAddr Records Edns0 Edns0Spec.

(** * Records of two packets that agree *)

Section transport.
Context (buf buf' : list Z) (plen plen' : Z).
Hypothesis (Hb : Forall is_byte buf) (Hb' : Forall is_byte buf').

Lemma rr_at_intro b pl i p n type class rdlen :
  skip_name b pl p 10 = Ok n → GETSHORT b n = Ok (type, n + 2) → GETSHORT b (n + 2) = Ok (class, n + 4) →
  GETSHORT b (n + 8) = Ok (rdlen, n + 10) → n + 10 + rdlen ≤ pl → rr_at b pl i p = Some (RR i p (n + 10 + rdlen) type class).
Proof.
  intros E1 E2 E3 E4 H. unfold rr_at, rr_header. rewrite E1. cbn [mbind res_bind]. rewrite E2. cbn [mbind res_bind]. rewrite E3. cbn [mbind res_bind].
  replace (n + 4 + 4) with (n + 8) by lia. rewrite E4. cbn [mbind res_bind]. by rewrite (proj2 (Z.leb_le _ _)) by lia.
Qed.

Lemma rr_at_inv i p r :
  0 ≤ p → rr_at buf plen i p = Some r →
  ∃ n type class rdlen, skip_name buf plen p 10 = Ok n ∧ p < n ∧ GETSHORT buf n = Ok (type, n + 2) ∧ GETSHORT buf (n + 2) = Ok (class, n + 4) ∧
    GETSHORT buf (n + 8) = Ok (rdlen, n + 10) ∧ 0 ≤ rdlen < 65536 ∧ n + 10 + rdlen ≤ plen ∧ r = RR i p (n + 10 + rdlen) type class.
Proof.
  intros Hp. unfold rr_at. destruct (rr_header plen buf p) as [[[[type class] rdlen] q]| | |] eqn:E; [|done..].
  destruct (Z.leb_spec (q + rdlen) plen); [|done]. intros [= <-].
  destruct (rr_header_ok buf plen Hb p type class rdlen q Hp E) as (n & En & Hn & -> & Hq & E1 & E2 & E3 & Hr).
  exists n, type, class, rdlen. split_and!; try done; lia.
Qed.

Lemma rr_at_agree i p r :
  0 ≤ p → rr_at buf plen i p = Some r → agree buf buf' p (rr_end r) → rr_end r ≤ plen' → rr_at buf' plen' i p = Some r.
Proof.
  intros Hp E Hag Hle. destruct (rr_at_inv i p r Hp E) as (n & type & class & rdlen & E1 & Hn & E2 & E3 & E4 & Hr & Hpl & ->).
  cbn [rr_end] in *. apply rr_at_intro; [|rewrite (GETSHORT_agree _ _ _ _ _ Hag) by lia; done..|lia].
  eapply (skip_name_agree buf buf' plen plen' Hb p 10 10 n Hp E1); [by apply (agree_sub _ _ p (n + 10 + rdlen)); [|lia|lia]|lia|lia].
Qed.

(** A section that is skipped is a list of records, ending there; one more
    record after it is read after it. *)
Lemma skip_section_list n i p e :
  HDRSZ ≤ plen ≤ zlen buf → 0 ≤ p → skip_section buf plen n p = Ok e → agree buf buf' p e → e ≤ plen' →
  ∃ L, ∀ r, rr_at buf' plen' (i + Z.of_nat n) e = Some r → rr_list buf' plen' (S n) i p = Some (L ++ [r]).
Proof.
  intros Hl. revert i p. induction n as [|n IH]; intros i p Hp E Hag He.
  { injection E as <-. exists []. intros r. rewrite Z.add_0_r. intros Er. cbn [rr_list]. by rewrite Er. }
  destruct (skip_record_inv buf plen Hb n p e Hp E) as (m & rdlen & E1 & Hm & E4 & Hr & Hle & E').
  destruct (skip_section_le buf plen Hb n (m + 10 + rdlen) e ltac:(lia) E') as [Hpe _].
  destruct (GETSHORT_total buf m Hb) as (a & b & _ & _ & _ & _ & E2); [lia|lia|].
  destruct (GETSHORT_total buf (m + 2) Hb) as (c & d & _ & _ & _ & _ & E3); [lia|lia|]. replace (m + 2 + 2) with (m + 4) in E3 by lia.
  pose proof (rr_at_intro buf plen i p m _ _ rdlen E1 E2 E3 E4 Hle) as Ea. apply rr_at_agree in Ea; cbn [rr_end]; [|done| |lia].
  2:{ by apply (agree_sub _ _ p e); [|lia|lia]. }
  destruct (IH (i + 1) (m + 10 + rdlen)) as (L & HL); [lia|done|by apply (agree_sub _ _ p e); [|lia|lia]|done|].
  eexists (_ :: L). intros r Er. cbn [rr_list] in *. rewrite Ea. cbn [mbind option_bind rr_end].
  specialize (HL r). replace (i + 1 + Z.of_nat n) with (i + Z.of_nat (S n)) in HL by lia. by rewrite (HL Er).
Qed.
End transport.

(** An OPT record written at the end of a packet is found there. *)
Lemma find_appended buf buf' plen plen' p ar r :
  Forall is_byte buf → Forall is_byte buf' → HDRSZ ≤ plen ≤ zlen buf → HDRSZ ≤ plen' ≤ zlen buf' → packet_end buf plen = Ok p →
  arcount buf = Ok ar → agree buf buf' 0 10 → agree buf buf' HDRSZ p → arcount buf' = Ok (ar + 1) → p ≤ plen' →
  rr_at buf' plen' ar p = Some r → is_opt r → find_pseudoheader buf' plen' false = Ok (Some (ph_of buf' plen' (ar + 1) r), false).
Proof.
  intros Hb Hb' Hl Hl' Ep Ear A0 A1 Ear' Hp Er Ho.
  destruct (find_pseudoheader_spec buf' plen' Hb' Hl' false) as (ar' & s & E' & Har & Hs & ->). rewrite Hs by done. rewrite Ear' in E'. injection E' as <-.
  destruct (header_counts buf Hb ltac:(lia)) as (qd & an & ns & ar0 & Eqd & Ean & Ens & Ear0 & Hqd & Han & Hns & Har0). rewrite Ear in Ear0. injection Ear0 as <-.
  unfold packet_end in Ep. apply bind_inv in Ep as (q & Eq & Ep). rewrite Ean, Ens, Ear in Ep. cbn [mbind res_bind] in Ep.
  replace (Z.to_nat (an + ns + ar)) with (Z.to_nat (an + ns) + Z.to_nat ar)%nat in Ep by lia. apply skip_section_split in Ep as (a & Ea & Ep).
  unfold skip_questions in Eq. rewrite Eqd in Eq. cbn [mbind res_bind] in Eq. assert (0 ≤ HDRSZ) as H0 by (unfold HDRSZ; lia).
  pose proof (skip_questions_le buf plen Hb _ _ _ H0 Eq) as Hq. destruct (skip_section_le buf plen Hb (Z.to_nat (an + ns)) q a ltac:(lia) Ea) as [Ha _].
  destruct (skip_section_le buf plen Hb (Z.to_nat ar) a p ltac:(lia) Ep) as [Hpp _].
  assert (questions_end buf' plen' false = Some q) as ->.
  { unfold questions_end, skip_questions. rewrite (A0 2) by lia. destruct (rd_in buf 2) as (hb3 & -> & _); [unfold HDRSZ in *; lia|]. cbn [andb].
    replace (qdcount buf') with (qdcount buf) by (unfold qdcount; by rewrite (GETSHORT_agree _ _ _ _ _ A0) by lia). rewrite Eqd. cbn [mbind res_bind].
    rewrite (skip_questions_loop_agree buf buf' plen plen' Hb _ _ q H0 Eq); [done|by apply (agree_sub _ _ HDRSZ p); [|lia|lia]|lia]. }
  cbn [mbind option_bind]. unfold additional_from.
  replace (ancount buf') with (ancount buf) by (unfold ancount; by rewrite (GETSHORT_agree _ _ _ _ _ A0) by lia).
  replace (nscount buf') with (nscount buf) by (unfold nscount; by rewrite (GETSHORT_agree _ _ _ _ _ A0) by lia). rewrite Ean, Ens, Ear'.
  rewrite (skip_section_agree buf buf' plen plen' Hb _ q a); [|lia|done|by apply (agree_sub _ _ HDRSZ p); [|lia|lia]|lia].
  destruct (skip_section_list buf buf' plen plen' Hb (Z.to_nat ar) 0 a p) as (L & HL); [done|lia|done|by apply (agree_sub _ _ HDRSZ p); [|lia|lia]|done|].
  replace (Z.to_nat (ar + 1)) with (S (Z.to_nat ar)) by lia. rewrite (HL r) by (by rewrite Z2Nat.id by lia). cbn [mbind option_bind].
  unfold last_opt. rewrite filter_app. rewrite (filter_cons_True is_opt r []) by done. rewrite filter_nil, last_snoc. done.
Qed.

(** The pseudoheader at [p]: a root name, type OPT and the fields. *)
Record header_at (buf : list Z) (p udp_sz rcode flags : Z) : Prop := {
  ha_name : rd buf p = Ok 0;
  ha_type : GETSHORT buf (p + 1) = Ok (T_OPT, p + 3);
  ha_udp : GETSHORT buf (p + 3) = Ok (udp_sz, p + 5);
  ha_rcode : GETSHORT buf (p + 5) = Ok (rcode, p + 7);
  ha_flags : GETSHORT buf (p + 7) = Ok (flags, p + 9)
}.

Lemma header_at_agree buf buf' p udp_sz rcode flags :
  header_at buf p udp_sz rcode flags → agree buf buf' p (p + 9) → header_at buf' p udp_sz rcode flags.
Proof.
  intros [H1 H2 H3 H4 H5] Hag. split; [by rewrite Hag by lia|rewrite (GETSHORT_agree _ _ _ _ _ Hag) by lia; done..].
Qed.

(** The part of new_header that writes the fixed fields. *)
Lemma twp_header_fields {A} buf p udp_sz rcode flags rdlen (K : list Z → Z → Z → res A) (Q : A → Prop) :
  Forall is_byte buf → 0 ≤ p → p + 11 ≤ zlen buf → 0 ≤ udp_sz < 65536 → 0 ≤ rcode < 65536 → 0 ≤ flags < 65536 → 0 ≤ rdlen < 65536 →
  (∀ buf', patched buf buf' p (p + 11) → header_at buf' p udp_sz rcode flags → GETSHORT buf' (p + 9) = Ok (rdlen, p + 11) → twp (K buf' (p + 9) (p + 11)) Q) →
  twp (buf ← wr buf p 0;
       '(buf, p) ← PUTSHORT buf (p + 1) T_OPT;
       '(buf, p) ← PUTSHORT buf p udp_sz;
       '(buf, p) ← PUTSHORT buf p rcode;
       '(buf, p) ← PUTSHORT buf p flags;
       let lenp := p in
       '(buf, p) ← PUTSHORT buf p rdlen; K buf lenp p) Q.
Proof.
  intros Hb Hp Hl Hu Hrc Hf Hr HK.
  twp_step. apply twp_wr_patched; [done|lia|]. intros b0 P0 G0. cbn beta. pose proof P0 as [B0 L0 _].
  twp_step. apply twp_PUTSHORT; [done|lia|lia|]. intros b1 P1 G1. cbn beta iota. pose proof P1 as [B1 L1 _].
  twp_step. apply twp_PUTSHORT; [done|lia|lia|]. intros b2 P2 G2. cbn beta iota. pose proof P2 as [B2 L2 _].
  twp_step. apply twp_PUTSHORT; [done|lia|lia|]. intros b3 P3 G3. cbn beta iota. pose proof P3 as [B3 L3 _].
  twp_step. apply twp_PUTSHORT; [done|lia|lia|]. intros b4 P4 G4. cbn beta iota. pose proof P4 as [B4 L4 _].
  cbv zeta. twp_step. apply twp_PUTSHORT; [done|lia|lia|]. intros b5 P5 G5. cbn beta iota. pose proof P5 as [B5 L5 _].
  unfold u16 in *. change (T_OPT mod 65536) with T_OPT in G1. rewrite Z.mod_small in G2, G3, G4, G5 by lia.
  pose proof (patched_trans _ _ _ _ _ _ _ P4 P5) as P45. pose proof (patched_trans _ _ _ _ _ _ _ P3 P45) as P35.
  pose proof (patched_trans _ _ _ _ _ _ _ P2 P35) as P25. pose proof (patched_trans _ _ _ _ _ _ _ P1 P25) as P15.
  replace (p + 1 + 2 + 2 + 2 + 2) with (p + 9) in * by lia. replace (p + 9 + 2) with (p + 11) in * by lia.
  apply HK; [apply (patched_weaken _ _ _ _ _ _ (patched_trans _ _ _ _ _ _ _ P0 P15)); lia| |done].
  assert (∀ b x v, agree b b5 0 (x + 2) → 0 ≤ x → GETSHORT b x = Ok (v, x + 2) → GETSHORT b5 x = Ok (v, x + 2)) as HG.
  { intros b x v Hag Hx E. by rewrite (GETSHORT_agree b b5 0 (x + 2)) by (done || lia). }
  split.
  - rewrite (pa_same _ _ _ _ P15) by lia. exact G0.
  - replace (p + 3) with (p + 1 + 2) by lia. apply (HG b1); [apply (patched_agree _ _ _ _ _ _ P25); lia|lia|exact G1].
  - replace (p + 5) with (p + 3 + 2) by lia. replace (p + 3) with (p + 1 + 2) by lia. apply (HG b2); [apply (patched_agree _ _ _ _ _ _ P35); lia|lia|exact G2].
  - replace (p + 7) with (p + 1 + 2 + 2 + 2) by lia. replace (p + 5) with (p + 1 + 2 + 2) by lia.
    apply (HG b3); [apply (patched_agree _ _ _ _ _ _ P45); lia|lia|exact G3].
  - replace (p + 9) with (p + 1 + 2 + 2 + 2 + 2) by lia. replace (p + 7) with (p + 1 + 2 + 2 + 2) by lia.
    apply (HG b4); [apply (patched_agree _ _ _ _ _ _ P5); lia|lia|rewrite G4; do 2 f_equal; lia].
Qed.

Lemma new_header_fields buf plen limit udp_sz rcode flags optno opt replace p ar :
  Forall is_byte buf → HDRSZ ≤ plen ≤ zlen buf → packet_end buf plen = Ok p → arcount buf = Ok ar → ar < 65535 →
  0 ≤ udp_sz < 65536 → 0 ≤ rcode < 65536 → 0 ≤ flags < 65536 → option_ok (optno, opt) → optno ≠ 0 → replace ≠ 2 → zlen opt < 65532 →
  p + 15 + zlen opt ≤ limit → limit ≤ zlen buf →
  twp (new_header buf plen limit udp_sz rcode flags 0 None optno opt replace)
    (λ '(buf', plen'), plen' = p + 15 + zlen opt ∧ Forall is_byte buf' ∧ zlen buf' = zlen buf ∧ agree buf buf' 0 10 ∧ agree buf buf' HDRSZ p ∧
       arcount buf' = Ok (ar + 1) ∧ header_at buf' p udp_sz rcode flags ∧ has_options (p + 9) buf' [(optno, opt)] (4 + zlen opt)).
Proof.
  intros Hb Hl Ep Ear Har Hu Hrc Hf Ho Ho0 Hr2 Hz Hlim Hlz. unfold new_header. pose proof (wp_packet_end buf plen Hb Hl) as Hw. rewrite Ep in *. cbn in Hw.
  pose proof (zlen_nonneg opt) as Hz0. cbn [catch mbind res_bind]. rewrite (proj2 (Z.ltb_ge limit _)) by lia.
  eapply (twp_header_fields buf p udp_sz rcode flags 0 (λ b lenp q, ar ← arcount b;
    b1 ← (if zlen opt <=? limit - (q + 4) then '(b2, _) ← PUTSHORT b 10 (ar + 1); Ok b2 else Ok b);
    add_option b1 plen limit q q lenp optno opt replace)); [done|unfold HDRSZ in *; lia|lia|done..|lia|].
  intros b1 P1 H1 G1. pose proof P1 as [B1 L1 _].
  apply twp_bump_arcount; [done|lia|]. intros ar1 b2 Ear1 Har1 P2 Ear2. pose proof P2 as [B2 L2 _].
  assert (arcount b1 = arcount buf) as Eb by (unfold arcount; by rewrite (GETSHORT_agree buf b1 0 HDRSZ)
    by (try apply (patched_agree _ _ _ _ _ _ P1); unfold HDRSZ in *; lia)).
  rewrite Eb, Ear in Ear1. injection Ear1 as <-. rewrite (proj2 (Z.leb_le (zlen opt) _)) in Ear2 by lia. unfold u16 in Ear2. rewrite Z.mod_small in Ear2 by lia.
  assert (agree b1 b2 HDRSZ (p + 11)) as A12 by (apply (patched_agree _ _ _ _ _ _ P2); unfold HDRSZ; lia).
  replace (p + 11) with (p + 9 + 2) at 1 2 by lia. replace (p + 9 + 2) with (p + 9 + 2 + 0) at 1 by lia.
  eapply twp_mono; [apply (add_option_options (p + 9) optno replace ltac:(unfold HDRSZ in *; lia) b2 plen limit [] 0 opt); [done| |done|done|done|lia|lia|lia]|].
  { split; [done| |intros o Hoo; change (zlen (options_bytes [])) with 0 in Hoo; lia].
    rewrite (GETSHORT_agree b1 b2 HDRSZ (p + 11)) by (done || lia). rewrite G1. do 2 f_equal. lia. }
  intros [b3 plen3] (-> & P3 & H3). pose proof P3 as [B3 L3 _]. split; [lia|]. split; [done|]. split; [lia|].
  assert (agree b2 b3 0 (p + 9)) as A23 by (apply (patched_agree _ _ _ _ _ _ P3); lia). split; [|split; [|split; [|split]]].
  - apply (agree_trans _ b1); [apply (patched_agree _ _ _ _ _ _ P1); unfold HDRSZ in *; lia|].
    apply (agree_trans _ b2); [apply (patched_agree _ _ _ _ _ _ P2); lia|by apply (agree_sub _ _ 0 (p + 9)); [|lia|unfold HDRSZ in *; lia]].
  - apply (agree_trans _ b1); [apply (patched_agree _ _ _ _ _ _ P1); lia|].
    apply (agree_trans _ b2); [by apply (agree_sub _ _ HDRSZ (p + 11)); [|lia|lia]|by apply (agree_sub _ _ 0 (p + 9)); [|unfold HDRSZ; lia|lia]].
  - unfold arcount in *. by rewrite (GETSHORT_agree b2 b3 0 (p + 9)) by (done || unfold HDRSZ in *; lia).
  - apply (header_at_agree b2); [apply (header_at_agree b1); [done|]|].
    + by apply (agree_sub _ _ HDRSZ (p + 11)); [|lia|lia].
    + by apply (agree_sub _ _ 0 (p + 9)); [|unfold HDRSZ in *; lia|lia].
  - exact H3.
Qed.

(** * The properties *)

(** find_pseudoheader reports, for every packet, the last OPT record of the
    additional section with its extent, the place of its UDP size and whether it
    is the last record, and NULL when there is none or the packet does not
    parse; it never reads outside the packet. With is_sign wanted this is for
    opcode QUERY. *)
Theorem find_pseudoheader_correct buf plen (want : bool) :
  Forall is_byte buf → HDRSZ ≤ plen ≤ zlen buf → (∀ hb3, want = true → rd buf 2 = Ok hb3 → Z.land hb3 HB3_OPCODE = 0) →
  ∃ ar s, arcount buf = Ok ar ∧
    find_pseudoheader buf plen want = Ok (L ← additional buf plen; r ← last_opt L; Some (ph_of buf plen ar r), s) ∧ (want = false → s = false).
Proof.
  intros Hb Hl Hop. destruct (find_pseudoheader_spec buf plen Hb Hl want) as (ar & s & Ear & _ & Hs & ->). exists ar, s. split; [done|]. split; [|done].
  unfold additional, questions_end. destruct (rd_in buf 2) as (hb3 & Ehb & _); [unfold HDRSZ in Hl; lia|]. specialize (Hop hb3). rewrite Ehb in *.
  assert (want && negb (Z.land hb3 HB3_OPCODE =? 0) = false) as -> by (destruct want; [by rewrite Hop|done]). by destruct (skip_questions buf plen).
Qed.

(** A query for the address of a, in a buffer of 80 bytes. *)
Definition sample_query : list Z := [0; 1; 1; 0; 0; 1; 0; 0; 0; 0; 0; 0; 1; 97; 0; 0; 1; 0; 1] ++ replicate 61 0.
(** The same with an OPT record that has the options 5 and 65001. *)
Definition sample_opt : list Z :=
  [0; 1; 1; 0; 0; 1; 0; 0; 0; 0; 0; 1; 1; 97; 0; 0; 1; 0; 1; 0; 0; 41; 5; 0; 0; 0; 0; 0; 0; 11] ++
  [0; 5; 0; 1; 7; 253; 233; 0; 2; 8; 9] ++ replicate 39 0.

Lemma sample_query_bytes : Forall is_byte sample_query.
Proof. by apply bytes_forallb. Qed.
Lemma sample_opt_bytes : Forall is_byte sample_opt.
Proof. by apply bytes_forallb. Qed.

Lemma find_pseudoheader_correct_witness :
  ∃ ar s, arcount sample_opt = Ok ar ∧
    find_pseudoheader sample_opt 41 true = Ok (L ← additional sample_opt 41; r ← last_opt L; Some (ph_of sample_opt 41 ar r), s) ∧ (true = false → s = false).
Proof.
  apply find_pseudoheader_correct; [exact sample_opt_bytes|vm_compute; split; discriminate|]. intros hb3 _ E. vm_compute in E. by injection E as <-.
Defined.

(** C19. Adding an option or the DO bit, whatever the packet, the option and the
    outcome of the allocations: every access is within the buffer, bytes stay
    bytes, and the packet that is left is at most as long as it was or as the
    limit. *)
Theorem add_pseudoheader_bounds alloc wkspc malloc_ok buf plen limit udp_sz optno opt set_do replace :
  Forall is_byte buf → Forall is_byte opt → HDRSZ ≤ plen ≤ zlen buf → limit ≤ zlen buf →
  ∃ buf' plen', add_pseudoheader alloc wkspc malloc_ok buf plen limit udp_sz optno opt set_do replace = Ok (buf', plen') ∧
    Forall is_byte buf' ∧ zlen buf' = zlen buf ∧ HDRSZ ≤ plen' ≤ Z.max plen limit.
Proof.
  intros Hb Ho Hl Hlim. destruct (proj1 (twp_ok _ _) (add_pseudoheader_within alloc wkspc malloc_ok buf plen limit udp_sz optno opt set_do replace Hb Ho Hl Hlim))
    as ([buf' plen'] & E & H1 & H2 & H3). by exists buf', plen'.
Qed.

Lemma add_pseudoheader_bounds_witness :
  ∃ buf' plen', add_pseudoheader (λ _, true) [] true sample_opt 41 80 1232 5 [1; 2; 3] true 1 = Ok (buf', plen') ∧
    Forall is_byte buf' ∧ zlen buf' = zlen sample_opt ∧ HDRSZ ≤ plen' ≤ Z.max 41 80.
Proof.
  apply add_pseudoheader_bounds; [exact sample_opt_bytes|by apply bytes_forallb|vm_compute; split; discriminate|vm_compute; discriminate].
Defined.

(** C25. An option added to a packet that has no pseudoheader: the packet grows by
    the pseudoheader and the option, find_pseudoheader then finds it where the
    packet ended, with the UDP size and the DO bit that were asked for and this
    one option; nothing before it changes but the count of additional records. *)
Theorem pseudoheader_round_trip alloc wkspc malloc_ok buf plen limit udp_sz optno opt (set_do : bool) replace p ar :
  Forall is_byte buf → HDRSZ ≤ plen ≤ zlen buf → find_pseudoheader buf plen true = Ok (None, false) →
  packet_end buf plen = Ok p → arcount buf = Ok ar → ar < 65535 → 0 ≤ udp_sz < 65536 → option_ok (optno, opt) → optno ≠ 0 → replace ≠ 2 →
  zlen opt < 65532 → p + 15 + zlen opt ≤ limit → limit ≤ zlen buf →
  ∃ buf', add_pseudoheader alloc wkspc malloc_ok buf plen limit udp_sz optno opt set_do replace = Ok (buf', p + 15 + zlen opt) ∧
    find_pseudoheader buf' (p + 15 + zlen opt) false = Ok (Some (Pseudo p (15 + zlen opt) (p + 3) true), false) ∧
    header_at buf' p udp_sz 0 (if set_do then 32768 else 0) ∧ has_options (p + 9) buf' [(optno, opt)] (4 + zlen opt) ∧
    agree buf buf' 0 10 ∧ arcount buf' = Ok (ar + 1) ∧ agree buf buf' HDRSZ p.
Proof.
  intros Hb Hl Ef Ep Ear Har Hu Ho Ho0 Hr Hz Hlim Hlz. unfold add_pseudoheader. rewrite Ef. cbn [mbind res_bind].
  assert (0 ≤ (if set_do then 32768 else 0) < 65536) as Hf by (destruct set_do; lia).
  pose proof (new_header_fields buf plen limit udp_sz 0 (if set_do then 32768 else 0) optno opt replace p ar Hb Hl Ep Ear Har Hu ltac:(lia) Hf Ho Ho0 Hr Hz Hlim Hlz) as Hn.
  apply twp_ok in Hn as ([buf' plen'] & -> & -> & B & L & A0 & A1 & Ear' & Hh & Hop). exists buf'. split; [done|]. split; [|done].
  pose proof (wp_packet_end buf plen Hb Hl) as Hw. rewrite Ep in Hw. cbn in Hw. pose proof (zlen_nonneg opt). set (plen' := p + 15 + zlen opt) in *.
  assert (skip_name buf' plen' p 10 = Ok (p + 1)) as En.
  { unfold skip_name. cbn [skip_name_loop]. unfold CHECK_LEN. rewrite (proj2 (Z.leb_le (p + 1) plen')) by lia. cbn [guard_ok mbind res_bind].
    rewrite (ha_name _ _ _ _ _ Hh). cbn [mbind res_bind]. cbv zeta. change (Z.land 0 63) with 0. change (Z.land 0 192) with 0.
    unfold ADD_RDLEN, CHECK_LEN. rewrite Z.add_0_r, (proj2 (Z.leb_le (p + 1) plen')) by lia. change (0 =? 192) with false. change (0 =? 128) with false.
    change (0 =? 64) with false. change (0 =? 0) with true. cbn [guard_ok mbind res_bind]. by rewrite (proj2 (Z.leb_le (p + 1 + 10) plen')) by lia. }
  assert (rr_at buf' plen' ar p = Some (RR ar p (p + 1 + 10 + (4 + zlen opt)) T_OPT udp_sz)) as Er.
  { apply rr_at_intro; [done|rewrite (ha_type _ _ _ _ _ Hh); do 2 f_equal; lia| | |lia].
    - replace (p + 1 + 2) with (p + 3) by lia. rewrite (ha_udp _ _ _ _ _ Hh). do 2 f_equal. lia.
    - replace (p + 1 + 8) with (p + 9) by lia. rewrite (ho_field _ _ _ _ Hop). do 2 f_equal. lia. }
  assert (HDRSZ ≤ plen' ≤ zlen buf') as Hl' by lia. assert (p ≤ plen') as Hpp by lia.
  rewrite (find_appended buf buf' plen plen' p ar _ Hb B Hl Hl' Ep Ear A0 A1 Ear' Hpp Er eq_refl).
  unfold ph_of. cbn [rr_start rr_end rr_i]. rewrite En. rewrite (proj2 (Z.eqb_eq ar (ar + 1 - 1))) by lia. do 4 f_equal; lia.
Qed.

Lemma pseudoheader_round_trip_witness :
  ∃ buf', add_pseudoheader (λ _, true) [] true sample_query 19 80 1232 8 [0; 1; 24; 0; 192; 0; 2] true 0 = Ok (buf', 19 + 15 + 7) ∧
    find_pseudoheader buf' (19 + 15 + 7) false = Ok (Some (Pseudo 19 (15 + 7) (19 + 3) true), false) ∧
    header_at buf' 19 1232 0 32768 ∧ has_options (19 + 9) buf' [(8, [0; 1; 24; 0; 192; 0; 2])] (4 + 7) ∧
    agree sample_query buf' 0 10 ∧ arcount buf' = Ok (0 + 1) ∧ agree sample_query buf' HDRSZ 19.
Proof.
  apply (pseudoheader_round_trip (λ _, true) [] true sample_query 19 80 1232 8 [0; 1; 24; 0; 192; 0; 2] true 0 19 0);
    [exact sample_query_bytes|vm_compute; split; discriminate|by vm_compute|by vm_compute|by vm_compute|lia|lia| |lia|lia|by vm_compute|vm_compute; discriminate..].
  split; [cbn; lia|]. split; [by vm_compute|by apply bytes_forallb].
Defined.

(** The options of the record whose length is at [lenp], the last of the packet. *)
Lemma extend_header_options alloc wkspc malloc_ok buf plen limit udp_sz rcode flags lenp optno opt replace l n :
  Forall is_byte buf → plen ≤ zlen buf → 0 ≤ lenp → lenp + 2 + n ≤ plen → n < 65536 →
  has_options lenp buf l n → Forall option_ok l → ends_ok l → replace = 1 ∨ replace = 0 ∧ Forall (other optno) l →
  option_ok (optno, opt) → optno ≠ 0 → n + 4 + zlen opt < 65536 → lenp + 2 + n + 4 + zlen opt ≤ limit → limit ≤ zlen buf →
  twp (extend_header alloc wkspc malloc_ok buf plen limit udp_sz rcode flags lenp true optno opt replace)
    (λ '(buf', plen'), ∃ n', plen' = lenp + 2 + n' ∧ has_options lenp buf' (filter (other optno) l ++ [(optno, opt)]) n' ∧
       agree buf buf' 0 lenp ∧ zlen buf' = zlen buf).
Proof.
  intros Hb Hl Hlp Hpl Hn Hop Hlo Hend Hrep Ho Ho0 Hn4 Hlim Hlz. pose proof (zlen_nonneg opt). pose proof (zlen_nonneg (options_bytes l)).
  pose proof (ho_len _ _ _ _ Hop) as En. unfold extend_header. rewrite (ho_field _ _ _ _ Hop). cbn [mbind res_bind]. unfold CHECK_LEN.
  rewrite (proj2 (Z.leb_le _ plen)) by lia. cbn [negb]. cbv zeta. rewrite (proj2 (Z.eqb_neq optno 0)) by done. twp_step.
  pose proof (scan_opts_options lenp optno replace true Hlp (S (Z.to_nat n)) buf [] l n Hb) as Hsc.
  change (zlen (options_bytes [])) with 0 in Hsc. rewrite Z.add_0_r in Hsc.
  eapply twp_mono; [apply Hsc; [lia|lia|done|done|done|destruct Hrep as [-> | [_ ?]]; [by left|by right]|lia]|].
  intros r (b1 & n1 & -> & P1 & Hn1 & Hop1). pose proof P1 as [B1 L1 _]. cbn beta iota. cbn [app] in Hop1.
  eapply twp_mono; [apply (add_option_options lenp optno replace Hlp b1 plen limit (filter (other optno) l) n1 opt B1 Hop1 Ho Ho0); [|lia..]|].
  { destruct Hrep as [-> | [-> _]]; lia. }
  intros [b2 plen2] (-> & P2 & Hop2). pose proof P2 as [B2 L2 _]. exists (n1 + 4 + zlen opt). split; [lia|]. split; [done|]. split; [|lia].
  apply (agree_trans _ b1); [apply (patched_agree _ _ _ _ _ _ P1); lia|]. apply (patched_agree _ _ _ _ _ _ P2); lia.
Qed.

(** An option added to a packet whose last record is its pseudoheader, with
    the options [l]: the options of that number are gone, the others are kept in
    their order, the new one is after them and the length field says so; before
    the length of the options only the flags may change. The last option of [l]
    has data, and without replacing the option was not there. *)
Theorem option_replaced alloc wkspc malloc_ok buf plen limit udp_sz optno opt (set_do : bool) replace h l n :
  Forall is_byte buf → HDRSZ ≤ plen ≤ zlen buf → find_pseudoheader buf plen true = Ok (Some h, false) → ph_last h = true →
  has_options (ph_udp h + 6) buf l n → Forall option_ok l → ends_ok l → replace = 1 ∨ replace = 0 ∧ Forall (other optno) l →
  option_ok (optno, opt) → optno ≠ 0 → n + 4 + zlen opt < 65536 → ph_udp h + 8 + n + 4 + zlen opt ≤ limit → limit ≤ zlen buf →
  ∃ buf' n', add_pseudoheader alloc wkspc malloc_ok buf plen limit udp_sz optno opt set_do replace = Ok (buf', ph_udp h + 8 + n') ∧
    has_options (ph_udp h + 6) buf' (filter (other optno) l ++ [(optno, opt)]) n' ∧ agree buf buf' 0 (ph_udp h + 4) ∧ zlen buf' = zlen buf.
Proof.
  intros Hb Hl Ef Hlast Hop Hlo Hend Hrep Ho Ho0 Hn Hlim Hlz. pose proof (find_pseudoheader_placed buf plen Hb Hl true) as Hp. rewrite Ef in Hp.
  destruct Hp as [H1 _ H3 _ (rdlen & Erd & Hrd & Hlen) H5]. cbn [fst] in *. pose proof (ho_field _ _ _ _ Hop) as Ef'. rewrite Erd in Ef'. injection Ef' as -> _.
  enough (twp (add_pseudoheader alloc wkspc malloc_ok buf plen limit udp_sz optno opt set_do replace)
    (λ '(buf', plen'), ∃ n', plen' = ph_udp h + 8 + n' ∧ has_options (ph_udp h + 6) buf' (filter (other optno) l ++ [(optno, opt)]) n' ∧
         agree buf buf' 0 (ph_udp h + 4) ∧ zlen buf' = zlen buf)) as ([buf' plen'] & E & n' & -> & H)%twp_ok by (by exists buf', n').
  unfold add_pseudoheader. rewrite Ef. cbn [mbind res_bind]. rewrite Hlast. unfold HDRSZ in *.
  twp_step. apply twp_GETSHORT; [done|lia|lia|]. intros udp Hudp _. cbn beta iota.
  twp_step. apply twp_GETSHORT; [done|lia|lia|]. intros rcode Hrc _. cbn beta iota.
  twp_step. apply twp_GETSHORT; [done|lia|lia|]. intros flags Hfl _. cbn beta iota. cbv zeta. twp_step.
  replace (ph_udp h + 2 + 2 + 2) with (ph_udp h + 6) by lia.
  assert (∀ b fl, patched buf b (ph_udp h + 4) (ph_udp h + 6) → twp (extend_header alloc wkspc malloc_ok b plen limit udp rcode fl (ph_udp h + 6) true optno opt replace)
    (λ '(buf', plen'), ∃ n', plen' = ph_udp h + 8 + n' ∧ has_options (ph_udp h + 6) buf' (filter (other optno) l ++ [(optno, opt)]) n' ∧
         agree buf buf' 0 (ph_udp h + 4) ∧ zlen buf' = zlen buf)) as Hext.
  { intros b fl P. pose proof P as [B L _]. assert (agree buf b (ph_udp h + 6) plen) as A by (apply (patched_agree _ _ _ _ _ _ P); lia).
    eapply twp_mono; [apply (extend_header_options _ _ _ b plen limit udp rcode fl (ph_udp h + 6) optno opt replace l n); try done; try lia|].
    - destruct Hop as [E1 E2 E3]. split; [done|rewrite (GETSHORT_agree buf b (ph_udp h + 6) plen) by (done || lia); done|].
      apply (stands_agree buf b _ _ (ph_udp h + 6) plen); [done|done|lia|lia].
    - intros [b2 plen2] (n' & -> & Hop2 & A2 & L2). exists n'. split; [lia|]. split; [done|]. split; [|lia].
      apply (agree_trans _ b); [apply (patched_agree _ _ _ _ _ _ P); lia|by apply (agree_sub _ _ 0 (ph_udp h + 6)); [|lia|lia]]. }
  destruct set_do; [|by apply Hext, patched_refl]. twp_step. apply twp_PUTSHORT; [done|lia|lia|]. intros b P _. apply Hext.
  apply (patched_weaken _ _ _ _ _ _ P); lia.
Qed.

Lemma option_replaced_witness :
  ∃ buf' n', add_pseudoheader (λ _, true) [] true sample_opt 41 80 1232 5 [1; 2; 3] true 1 = Ok (buf', 22 + 8 + n') ∧
    has_options (22 + 6) buf' (filter (other 5) [(5, [7]); (65001, [8; 9])] ++ [(5, [1; 2; 3])]) n' ∧ agree sample_opt buf' 0 (22 + 4) ∧ zlen buf' = zlen sample_opt.
Proof.
  apply (option_replaced (λ _, true) [] true sample_opt 41 80 1232 5 [1; 2; 3] true 1 (Pseudo 19 22 22 true) [(5, [7]); (65001, [8; 9])] 11);
    [exact sample_opt_bytes|vm_compute; split; discriminate|by vm_compute|done| | |done|by left| |lia|by vm_compute|vm_compute; discriminate..].
  - split; [done|by vm_compute|]. intros o Ho. change (zlen (options_bytes _)) with 11 in Ho.
    assert (o ∈ seqZ 0 11) as Hi by (apply elem_of_seqZ; lia). clear Ho. vm_compute in Hi. repeat (apply elem_of_cons in Hi as [-> | Hi]; [done|]). by apply elem_of_nil in Hi.
  - repeat constructor; cbn; lia || by apply bytes_forallb.
  - split; [cbn; lia|]. split; [by vm_compute|by apply bytes_forallb].
Defined.
