(* ===== verification/Edns0Config.v ===== *)
(** The options added from the configuration: no more of a client's address is
    sent than its mask allows, and some of what the code does with unusual
    packets. *)
From S2P Require Import Prelude Hostname Wire WireSafe WireSpec RRFilter RRFilterSpec WireExt NetAddr Records Edns0 Edns0Spec.

(** Bit [i] of an address, the first being the most significant. *)
Definition addr_bit (a : list Z) (i : Z) : bool := Z.testbit (a !!! Z.to_nat (i / 8)) (7 - i mod 8).

Definition subnet_for (cfg : edns_config) (source : mysockaddr) : option mysubnet :=
  if is_in6 source then add_subnet6 cfg else if is_in source then add_subnet4 cfg else None.

(** The last byte of a masked address. *)
Lemma mask_byte_bit b m j : 0 < m < 8 → 0 ≤ j < 8 → Z.testbit (Z.land b (u8 (Z.shiftl 255 (8 - m)))) (7 - j) = (j <? m) && Z.testbit b (7 - j).
Proof.
  intros Hm Hj. rewrite Z.land_spec, andb_comm. f_equal. unfold u8. change 256 with (2 ^ 8). rewrite Z.mod_pow2_bits_low by lia.
  rewrite Z.shiftl_spec by lia. destruct (Z.ltb_spec j m).
  - change 255 with (Z.ones 8). rewrite Z.ones_spec_low; [done|lia].
  - apply Z.testbit_neg_r. lia.
Qed.

Lemma addr_bit_take a n i : 0 ≤ i < 8 * Z.of_nat n → addr_bit (take n a) i = addr_bit a i.
Proof.
  intros Hi. unfold addr_bit. f_equal. rewrite !list_lookup_total_alt, lookup_take.
  assert (i / 8 < Z.of_nat n) by (apply Z.div_lt_upper_bound; lia). pose proof (Z.div_pos i 8). by rewrite decide_True by lia.
Qed.

(** An address cut off after [mask] bits. *)
Definition cut_addr (mask : Z) (a : list Z) : list Z :=
  let len := Z.shiftr (mask - 1) 3 + 1 in
  let addr := take (Z.to_nat len) a in
  if negb (Z.land mask 7 =? 0) then alter (λ b, Z.land b (u8 (Z.shiftl 255 (8 - Z.land mask 7)))) (Z.to_nat (len - 1)) addr else addr.

Lemma cut_addr_bits mask a i :
  0 < mask ≤ 8 * zlen a → zlen (cut_addr mask a) = (mask + 7) / 8 ∧
  (0 ≤ i < 8 * zlen (cut_addr mask a) → addr_bit (cut_addr mask a) i = (i <? mask) && addr_bit a i).
Proof.
  intros Hm. unfold cut_addr. rewrite Z.shiftr_div_pow2 by lia. change (2 ^ 3) with 8. assert (Z.land mask 7 = mask mod 8) as -> by (change 7 with (Z.ones 3); by rewrite Z.land_ones by lia).
  cbv zeta. assert ((mask + 7) / 8 = (mask - 1) / 8 + 1) as -> by (replace (mask + 7) with (mask - 1 + 1 * 8) by lia; by rewrite Z.div_add).
  pose proof (Z.div_mod mask 8). pose proof (Z.mod_pos_bound mask 8). pose proof (Z.div_mod (mask - 1) 8). pose proof (Z.mod_pos_bound (mask - 1) 8).
  set (q := (mask - 1) / 8) in *. assert (0 ≤ q) by lia.
  assert (zlen (take (Z.to_nat (q + 1)) a) = q + 1) as Hz by (unfold zlen in *; rewrite length_take; lia).
  destruct (Z.eqb_spec (mask mod 8) 0) as [E|E]; cbn [negb].
  { split; [done|]. intros Hi. rewrite addr_bit_take by lia. rewrite (proj2 (Z.ltb_lt i mask)) by lia. done. }
  split; [unfold zlen in *; by rewrite length_alter|]. unfold zlen at 1. rewrite length_alter. fold (zlen (take (Z.to_nat (q + 1)) a)). rewrite Hz. intros Hi.
  rewrite <- (addr_bit_take a (Z.to_nat (q + 1))) by lia. unfold addr_bit. rewrite list_lookup_total_alt, list_lookup_alter.
  pose proof (Z.div_mod i 8). pose proof (Z.mod_pos_bound i 8). case_decide as Eq.
  - assert (i / 8 = q) as Ei by (pose proof (Z.div_pos i 8); lia). rewrite Ei, list_lookup_total_alt.
    destruct (take (Z.to_nat (q + 1)) a !! Z.to_nat q) as [b|] eqn:Eb; [|apply lookup_ge_None in Eb; unfold zlen in Hz; lia].
    replace (q + 1 - 1) with q by lia. rewrite Eb. cbn. rewrite mask_byte_bit by lia. f_equal.
    assert (mask / 8 = q) by lia. destruct (Z.ltb_spec (i mod 8) (mask mod 8)), (Z.ltb_spec i mask); lia.
  - rewrite list_lookup_total_alt. rewrite (proj2 (Z.ltb_lt i mask)); [done|]. assert (i / 8 ≠ q) by (intros Ei; apply Eq; rewrite Ei; f_equal; lia).
    assert (i / 8 ≤ q) by lia. lia.
Qed.

(** The client subnet option carries exactly the first bits of the client's
    address that the configured mask names: the address is cut to whole bytes and
    every bit after the mask is zero, and the answer is not cacheable. *)
Theorem subnet_opt_masked cfg source s :
  subnet_for cfg source = Some s → addr_used s = false → 0 < sn_mask s < 256 → sn_mask s ≤ 8 * zlen (get_addrp source) →
  ∃ addr, calc_subnet_opt cfg source = Ok ([0; if is_in6 source then 2 else 1; sn_mask s; 0] ++ addr, false) ∧ zlen addr = (sn_mask s + 7) / 8 ∧
    ∀ i, 0 ≤ i < 8 * zlen addr → addr_bit addr i = (i <? sn_mask s) && addr_bit (get_addrp source) i.
Proof.
  intros Es Hu Hm Hl. unfold calc_subnet_opt. change (if is_in6 source then _ else _) with (subnet_for cfg source) at 1. rewrite Es, Hu. cbv iota beta.
  assert (u8 (sn_mask s) = sn_mask s) as -> by (unfold u8; by rewrite Z.mod_small by lia). rewrite (proj2 (Z.eqb_neq (sn_mask s) 0)) by lia. cbv zeta.
  exists (cut_addr (sn_mask s) (get_addrp source)). destruct (cut_addr_bits (sn_mask s) (get_addrp source) 0) as [Hz _]; [lia|].
  split; [|split; [done|]; intros i; apply cut_addr_bits; lia].
  rewrite (proj2 (Z.ltb_ge _ _)); [done|]. rewrite Z.shiftr_div_pow2 by lia. change (2 ^ 3) with 8.
  pose proof (Z.div_mod (sn_mask s - 1) 8). pose proof (Z.mod_pos_bound (sn_mask s - 1) 8). lia.
Qed.

Definition sample_config : edns_config :=
  EdnsConfig true false false false true false false false (Some (Mysubnet (SA_in 0 [0; 0; 0; 0]) false 20)) None None 0 0 [].

Lemma subnet_opt_masked_witness :
  ∃ addr, calc_subnet_opt sample_config (SA_in 53 [192; 0; 77; 9]) = Ok ([0; 1; 20; 0] ++ addr, false) ∧ zlen addr = (20 + 7) / 8 ∧
    ∀ i, 0 ≤ i < 8 * zlen addr → addr_bit addr i = (i <? 20) && addr_bit [192; 0; 77; 9] i.
Proof.
  apply (subnet_opt_masked sample_config (SA_in 53 [192; 0; 77; 9]) (Mysubnet (SA_in 0 [0; 0; 0; 0]) false 20)); [done|done|cbn; lia|by vm_compute].
Defined.

(** * The subnet in a reply *)

(** An option of a reply is a subnet for this client, but for its scope, or is of
    another kind. *)
Definition same_subnet (opt : list Z) (o : Z * list Z) : bool :=
  negb (o.1 =? EDNS0_OPTION_CLIENT_SUBNET) || bool_decide (o.2 = with_scope opt (o.2 !!! 3%nat)).

Lemma with_scope_twice opt a b : with_scope (with_scope opt a) b = with_scope opt b.
Proof. unfold with_scope. by rewrite list_insert_insert_eq. Qed.

Lemma same_subnet_scope opt a o : same_subnet (with_scope opt a) o = same_subnet opt o.
Proof. unfold same_subnet. by rewrite with_scope_twice. Qed.

Lemma all_same_subnet_scope opt a l : forallb (same_subnet (with_scope opt a)) l = forallb (same_subnet opt) l.
Proof. induction l as [|o l IH]; [done|]. cbn [forallb]. by rewrite same_subnet_scope, IH. Qed.

Lemma read_bytes_stands buf p bs : stands buf p bs → read_bytes buf p (length bs) = Ok bs.
Proof.
  revert p. induction bs as [|b bs IH]; intros p Hs; [done|]. cbn [length read_bytes]. pose proof (zlen_nonneg bs).
  assert (rd buf p = Ok b) as ->. { pose proof (Hs 0) as H0. rewrite Z.add_0_r, zlen_cons in H0. by rewrite H0 by lia. }
  cbn [mbind res_bind]. change (b :: bs) with ([b] ++ bs) in Hs. apply stands_app in Hs as [_ Hs]. change (zlen [b]) with 1 in Hs. by rewrite (IH _ Hs).
Qed.

Lemma check_source_loop_options fuel buf opt p i l :
  Forall is_byte buf → 0 ≤ p → p + zlen (options_bytes l) ≤ zlen buf → stands buf p (options_bytes l) → Forall option_ok l → ends_ok l →
  Forall (λ o, o.1 = EDNS0_OPTION_CLIENT_SUBNET → 4 ≤ zlen o.2) l → 4 ≤ zlen opt → zlen (options_bytes l) < Z.of_nat fuel →
  check_source_loop fuel buf opt p i (i + zlen (options_bytes l)) = Ok (forallb (same_subnet opt) l).
Proof.
  revert fuel opt p i. induction l as [|o l IH]; intros fuel opt p i Hb Hp Hz Hs Hok Hend H4 Ho Hf.
  { destruct fuel as [|fuel]; [change (zlen (options_bytes [])) with 0 in Hf; lia|]. cbn [check_source_loop]. change (zlen (options_bytes [])) with 0.
    by rewrite (proj2 (Z.ltb_ge _ _)) by lia. }
  destruct (ends_ok_cons o l Hend) as [Hend' Hlen]. destruct fuel as [|fuel]; [lia|]. cbn [check_source_loop].
  rewrite (proj2 (Z.ltb_lt (i + 4) _)) by lia. rewrite options_bytes_cons in *. apply stands_app in Hs as [Hs1 Hs2]. rewrite zlen_app, zlen_option_bytes in *.
  pose proof (zlen_nonneg o.2). pose proof (zlen_nonneg (options_bytes l)). apply Forall_cons in Hok as [Hok1 Hok2]. apply Forall_cons in H4 as [H41 H42].
  apply stands_option in Hs1 as (G1 & G2 & G3); [|done|done|rewrite zlen_option_bytes; lia|done].
  rewrite G1. cbn [mbind res_bind]. rewrite G2. cbn [mbind res_bind forallb]. unfold same_subnet at 1.
  assert (∀ opt', 4 ≤ zlen opt' → check_source_loop fuel buf opt' (p + 4 + zlen o.2) (i + zlen o.2 + 4) (i + (4 + zlen o.2 + zlen (options_bytes l))) =
    Ok (forallb (same_subnet opt') l)) as Hgo.
  { intros opt' Ho'. replace (i + (4 + zlen o.2 + zlen (options_bytes l))) with (i + zlen o.2 + 4 + zlen (options_bytes l)) by lia.
    apply IH; [done|lia|lia| |done|done|done|done|lia]. by replace (p + 4 + zlen o.2) with (p + (4 + zlen o.2)) by lia. }
  destruct (Z.eqb_spec o.1 EDNS0_OPTION_CLIENT_SUBNET) as [E|E]; cbn [negb orb andb]; [|by apply Hgo]. specialize (H41 E).
  assert (rd buf (p + 4 + 3) = Ok (o.2 !!! 3%nat)) as ->.
  { rewrite (G3 3) by lia. unfold rd. change (3 <? 0) with false. change (Z.to_nat 3) with 3%nat. cbv iota.
    rewrite list_lookup_total_alt. destruct (o.2 !! 3%nat) eqn:E3; [done|]. apply lookup_ge_None in E3. unfold zlen in *. lia. }
  cbn [mbind res_bind]. set (opt' := with_scope opt (o.2 !!! 3%nat)). assert (zlen opt' = zlen opt) as Hz' by (unfold opt', with_scope; apply zlen_insert).
  destruct (Z.eqb_spec (zlen o.2) (zlen opt')) as [El|El]; cbn [negb].
  - replace (Z.to_nat (zlen o.2)) with (length o.2) by (unfold zlen; lia). rewrite (read_bytes_stands _ _ _ G3). cbn [mbind res_bind]. case_bool_decide as Eq; cbn [negb andb]; [|done].
    rewrite Hgo by lia. unfold opt'. by rewrite all_same_subnet_scope.
  - rewrite bool_decide_eq_false_2; [done|]. intros Eo. apply El. by rewrite Eo at 1.
Qed.

Lemma calc_subnet_opt_len cfg peer opt c : calc_subnet_opt cfg peer = Ok (opt, c) → 4 ≤ zlen opt.
Proof.
  unfold calc_subnet_opt. destruct (if is_in6 peer then _ else _) as [s|]; [|intros [= <- _]; by cbv].
  destruct (addr_used s); destruct (u8 (sn_mask s) =? 0); try (intros [= <- _]; unfold zlen; cbn [app length]; lia);
    destruct (_ <? _); try done; intros [= <- _]; unfold zlen; cbn [app length]; lia.
Qed.

(** A reply whose pseudoheader has the options [l] is accepted exactly when
    every client subnet option in it is the one that is sent for this client, but
    for its scope. *)
Theorem check_source_correct cfg buf plen ph peer opt c p l n :
  Forall is_byte buf → plen ≤ zlen buf → 0 ≤ ph → calc_subnet_opt cfg peer = Ok (opt, c) → skip_name buf plen ph 10 = Ok p →
  has_options (p + 8) buf l n → p + 10 + n ≤ plen → Forall option_ok l → ends_ok l →
  Forall (λ o, o.1 = EDNS0_OPTION_CLIENT_SUBNET → 4 ≤ zlen o.2) l →
  check_source cfg buf plen ph peer = Ok (forallb (same_subnet opt) l).
Proof.
  intros Hb Hl Hph Ec Es Hop Hpl Hok Hend H4. unfold check_source. rewrite Ec. cbn [mbind res_bind]. rewrite Es. cbn [catch mbind res_bind].
  destruct (skip_name_lt buf plen Hb ph 10 p Hph Es). pose proof Hop as [En Ef Hs]. rewrite Ef. cbn [mbind res_bind]. unfold CHECK_LEN.
  rewrite (proj2 (Z.leb_le _ plen)) by lia. cbn [negb]. pose proof (zlen_nonneg (options_bytes l)).
  pose proof (check_source_loop_options (S (Z.to_nat n)) buf opt (p + 8 + 2) 0 l) as Hc. rewrite Z.add_0_l, <- En in Hc. apply Hc; try done; try lia.
  by apply (calc_subnet_opt_len cfg peer _ c).
Qed.

(** A reply to the client above, with its subnet and scope 24. *)
Definition sample_reply : list Z :=
  [0; 1; 129; 128; 0; 1; 0; 0; 0; 0; 0; 1; 1; 97; 0; 0; 1; 0; 1; 0; 0; 41; 5; 0; 0; 0; 0; 0; 0; 11; 0; 8; 0; 7; 0; 1; 20; 24; 192; 0; 64].

Lemma check_source_correct_witness :
  check_source sample_config sample_reply 41 19 (SA_in 53 [192; 0; 77; 9]) =
  Ok (forallb (same_subnet [0; 1; 20; 0; 192; 0; 64]) [(EDNS0_OPTION_CLIENT_SUBNET, [0; 1; 20; 24; 192; 0; 64])]).
Proof.
  apply (check_source_correct sample_config sample_reply 41 19 (SA_in 53 [192; 0; 77; 9]) [0; 1; 20; 0; 192; 0; 64] false 20
    [(EDNS0_OPTION_CLIENT_SUBNET, [0; 1; 20; 24; 192; 0; 64])] 11);
    [by apply bytes_forallb|vm_compute; discriminate|lia|by vm_compute|by vm_compute| |vm_compute; discriminate| |done|].
  - split; [done|by vm_compute|]. intros o Ho. change (zlen (options_bytes _)) with 11 in Ho.
    assert (o ∈ seqZ 0 11) as Hi by (apply elem_of_seqZ; lia). clear Ho. vm_compute in Hi. repeat (apply elem_of_cons in Hi as [-> | Hi]; [done|]). by apply elem_of_nil in Hi.
  - constructor; [|done]. split; [vm_compute; split; [discriminate|done]|]. split; [by vm_compute|by apply bytes_forallb].
  - constructor; [|done]. intros _. vm_compute. discriminate.
Defined.

(** * What the code does with unusual packets *)

(** Whether the [n] bytes at [p] are [bs]. *)
Definition bytes_at (r : res (list Z * Z)) (p : Z) (bs : list Z) : bool :=
  match r with Ok (buf, _) => bool_decide (slice buf p (length bs) = bs) | _ => false end.
Definition len_of (r : res (list Z * Z)) : Z := match r with Ok (_, plen) => plen | _ => -1 end.

(** A query with the empty option NSID, 3, in its pseudoheader. *)
Definition nsid_query : list Z :=
  [0; 1; 1; 0; 0; 1; 0; 0; 0; 0; 0; 1; 1; 97; 0; 0; 1; 0; 1; 0; 0; 41; 5; 0; 0; 0; 0; 0; 0; 4; 0; 3; 0; 0] ++ replicate 46 0.

(** The scan stops before an option without data that is the last one, so that
    the new option is written over it: the request for the NSID is lost. *)
Example empty_option_overwritten :
  let r := add_pseudoheader (λ _, true) [] true nsid_query 34 80 1232 65001 [7] false 0 in
  bytes_at r 28 [0; 5; 253; 233; 0; 1; 7] = true ∧ len_of r = 35.
Proof. by vm_compute. Qed.

(** Stripping an option that is not there cuts such a packet short of the length
    its pseudoheader has. *)
Example strip_truncates :
  let r := add_pseudoheader (λ _, true) [] true nsid_query 34 80 1232 65001 [] false 2 in bytes_at r 28 [0; 4] = true ∧ len_of r = 30.
Proof. by vm_compute. Qed.

(** The MAC address of the client is added, which makes the answer not cacheable;
    a constant subnet added after it makes it cacheable again. *)
Example cacheable_again :
  let cfg := EdnsConfig true false false false true false false false (Some (Mysubnet (SA_in 0 [192; 0; 2; 0]) true 24)) None None 0 0 [] in
  let r := add_edns0_config cfg (EdnsEnv (λ _, true) [] true) [] nsid_query 34 80 (SA_in 53 [192; 0; 77; 9]) [2; 0; 0; 0; 0; 1] in
  match r with Ok (b, l, c) => bytes_at (Ok (b, l)) 30 [253; 233; 0; 6; 2; 0; 0; 0; 0; 1] && c | _ => false end = true.
Proof. by vm_compute. Qed.
