(* ===== verification/SynthDomain.v ===== *)
(** Domains by address and synthetic names (src/src/domain.c): which domain an
    address has, and the names made up for addresses and read back.

    inet_pton and inet_ntop are arguments. The text of a name is the C string;
    what is written into it while it is read is part of the result. *)
From Stdlib Require Import Ascii String.
From S2P Require Import Prelude Hostname NetAddr.

Definition ADDRSTRLEN : Z := 46.
Definition minus : Z := 45.
Definition colon : Z := 58.

(** struct addrlist and struct cond_domain, the fields that are read here. *)
Record addrlist := Addrlist { al_addr : list Z; al_ipv6 : bool; al_prefixlen : Z }.
Record cond_domain := CondDomain {
  cd_domain : cstring; cd_prefix : option cstring; cd_interface : bool; cd_al : list addrlist;
  cd_start : list Z; cd_end : list Z; cd_start6 : list Z; cd_end6 : list Z;
  cd_is6 : bool; cd_indexed : bool; cd_prefixlen : Z }.

(** * The domain of an address *)

(** The addresses of the interface; a shift that C does not define is [Oob]. *)
Fixpoint match_al (addr : list Z) (al : list addrlist) : res bool :=
  match al with
  | [] => Ok false
  | a :: al =>
      if negb (al_ipv6 a) then
        match is_same_net_prefix addr (al_addr a) (al_prefixlen a) with
        | Some true => Ok true
        | Some false => match_al addr al
        | None => Oob
        end
      else match_al addr al
  end.
Definition match_domain (addr : list Z) (c : cond_domain) : res bool :=
  if cd_interface c then match_al addr (cd_al c)
  else Ok (negb (cd_is6 c) && (ntohl (cd_start c) <=? ntohl addr) && (ntohl addr <=? ntohl (cd_end c))).

Definition match_domain6 (addr : list Z) (c : cond_domain) : bool :=
  if cd_interface c then existsb (λ a, al_ipv6 a && is_same_net6 addr (al_addr a) (al_prefixlen a)) (cd_al c)
  else if cd_is6 c then
    if 64 <=? cd_prefixlen c then
      is_same_net6 addr (cd_start6 c) 64 && (addr6part (cd_start6 c) <=? addr6part addr) && (addr6part addr <=? addr6part (cd_end6 c))
    else is_same_net6 addr (cd_start6 c) (cd_prefixlen c)
  else false.

Fixpoint search_domain (addr : list Z) (l : list cond_domain) : res (option cond_domain) :=
  match l with
  | [] => Ok None
  | c :: l => b ← match_domain addr c; if b : bool then Ok (Some c) else search_domain addr l
  end.
Fixpoint search_domain6 (addr : list Z) (l : list cond_domain) : option cond_domain :=
  match l with
  | [] => None
  | c :: l => if match_domain6 addr c then Some c else search_domain6 addr l
  end.

(** [suffix] is daemon->domain_suffix. *)
Definition get_domain (conds : list cond_domain) (suffix : option cstring) (addr : list Z) : res (option cstring) :=
  r ← search_domain addr conds; Ok (match r with Some c => Some (cd_domain c) | None => suffix end).
Definition get_domain6 (conds : list cond_domain) (suffix : option cstring) (addr : option (list Z)) : option cstring :=
  match addr with
  | Some a => match search_domain6 a conds with Some c => Some (cd_domain c) | None => suffix end
  | None => suffix
  end.

(** * Numbers and strings *)

Definition chars (s : string) : cstring := (λ c, Z.of_N (N_of_ascii c)) <$> list_ascii_of_string s.

(** The digits of a number, least significant first. *)
Fixpoint digits_rev (fuel : nat) (n : Z) : cstring :=
  match fuel with
  | O => []
  | S fuel => if n <? 10 then [48 + n] else (48 + n mod 10) :: digits_rev fuel (n / 10)
  end.
(** %u and %llu. A 64-bit number has at most 20 digits. *)
Definition print_u (n : Z) : cstring := reverse (digits_rev 20 n).

(** The number that the leading digits of a string are; white space and signs
    do not occur where atoi and atoll are called. *)
Fixpoint digits_val (acc : Z) (s : cstring) : Z :=
  match s with
  | c :: s => if isdigit c then digits_val (acc * 10 + (c - 48)) s else acc
  | [] => acc
  end.

(** Numbers outside the type are not defined by the C standard: None. *)
Definition atoi (s : cstring) : option Z := let n := digits_val 0 s in if n <? 2147483648 then Some n else None.
Definition atoll (s : cstring) : option Z := let n := digits_val 0 s in if n <? 9223372036854775808 then Some n else None.

Definition isxdigit_nd (c : Z) : bool := ((65 <=? c) && (c <=? 70)) || ((97 <=? c) && (c <=? 102)).
Definition isprefix (a s : cstring) : bool := bool_decide (take (length a) s = a).

Section libc.
(** inet_pton and inet_ntop for the two families. *)
Context (pton4 pton6 : cstring → option (list Z)) (ntop4 ntop6 : list Z → cstring).

(** * The address in a name *)

(** The part of the name after the prefix, or None. *)
Fixpoint skip_prefix (name pref : cstring) : option (cstring * cstring) :=
  match pref, name with
  | [], _ => Some ([], name)
  | p :: pref, c :: name =>
      if lower p =? lower c then '(a, b) ← skip_prefix name pref; Some (c :: a, b) else None
  | _ :: _, [] => None
  end.

(** The leading characters that satisfy [ok], and the rest. *)
Fixpoint span (ok : Z → bool) (s : cstring) : cstring * cstring :=
  match s with
  | c :: s' => if ok c then let '(a, b) := span ok s' in (c :: a, b) else ([], s)
  | [] => ([], [])
  end.

Definition addr_char (v6 : bool) (c : Z) : bool := isdigit c || (c =? minus) || (v6 && isxdigit_nd c).

(** The dashes of a name as the address has them. *)
Definition undash (v6 : bool) (tail : cstring) : cstring :=
  if v6 && isprefix (chars "--ffff-") tail
  then chars "::ffff:" ++ ((λ c, if c =? minus then dot else c) <$> drop 7 tail)
  else (λ c, if c =? minus then if v6 then colon else dot else c) <$> tail.

(** Putting the dashes back. *)
Definition redash (tail : cstring) : cstring := (λ c, if (c =? dot) || (c =? colon) then minus else c) <$> tail.

(** The number of the address. *)
Definition indexed_addr (v6 : bool) (c : cond_domain) (tail : cstring) : res (option (list Z)) :=
  if v6 then
    match atoll tail with
    | None => Oob
    | Some index =>
        Ok (if cd_is6 c && (index <=? u64 (addr6part (cd_end6 c) - addr6part (cd_start6 c)))
            then Some (setaddr6part (cd_start6 c) (u64 (addr6part (cd_start6 c) + index))) else None)
    end
  else
    match atoi tail with
    | None => Oob
    | Some index =>
        Ok (if negb (cd_is6 c) && (index <=? u32 (ntohl (cd_end c) - ntohl (cd_start c)))
            then Some (htonl (u32 (ntohl (cd_start c) + index))) else None)
    end.

Definition dashed_addr (v6 : bool) (c : cond_domain) (tail : cstring) : res (option (list Z)) :=
  match (if v6 then pton6 else pton4) tail with
  | None => Ok None
  | Some addr =>
      b ← (if v6 then Ok (match_domain6 addr c) else match_domain addr c);
      Ok (if b : bool then Some addr else None)
  end.

(** One domain: the address found, and the name as it is left. *)
Definition synth_step (v6 : bool) (c : cond_domain) (name : cstring) : res (option (list Z) * cstring) :=
  match skip_prefix name (default [] (cd_prefix c)) with
  | None => Ok (None, name)
  | Some (pre, tail) =>
      let '(t, rest) := span (if cd_indexed c then isdigit else addr_char v6) tail in
      match rest with
      | d :: dom =>
          if negb (d =? dot) then Ok (None, name)
          else
            let t' := if cd_indexed c then t else undash v6 t in
            found ← (if hostname_isequal (cd_domain c) dom
                     then if cd_indexed c then indexed_addr v6 c t' else dashed_addr v6 c t'
                     else Ok None);
            Ok (found, pre ++ redash t' ++ dot :: dom)
      | [] => Ok (None, name)
      end
  end.

(** The domains in their order. *)
Fixpoint is_name_synthetic (v6 : bool) (l : list cond_domain) (name : cstring) : res (option (list Z) * cstring) :=
  match l with
  | [] => Ok (None, name)
  | c :: l =>
      '(found, name) ← synth_step v6 c name;
      match found with Some a => Ok (Some a, name) | None => is_name_synthetic v6 l name end
  end.

(** * The name of an address *)

(** strncat of a dot and the domain to what is in [name], an array of MAXDNAME. *)
Definition finish_name (name : cstring) (c : cond_domain) : res cstring :=
  let s := name ++ dot :: cd_domain c in if strlen s <? MAXDNAME then Ok s else Oob.

(** snprintf into the array. *)
Definition print_index (c : cond_domain) (index : Z) : cstring :=
  take (Z.to_nat (MAXDNAME - 1)) (default [] (cd_prefix c) ++ print_u index).

(** strncpy of the prefix leaves no terminator when it fills its part. *)
Definition copy_prefix (c : cond_domain) : res cstring :=
  match cd_prefix c with
  | Some p => if strlen p <? MAXDNAME - ADDRSTRLEN then Ok p else Oob
  | None => Ok []
  end.

Definition rev_synth4 (c : cond_domain) (addr : list Z) : res cstring :=
  if cd_indexed c then finish_name (print_index c (u32 (ntohl addr - ntohl (cd_start c)))) c
  else
    pre ← copy_prefix c;
    finish_name ((λ ch, if ch =? dot then minus else ch) <$> (pre ++ ntop4 addr)) c.

Definition rev_synth6 (c : cond_domain) (addr : list Z) : res cstring :=
  if cd_indexed c then finish_name (print_index c (u64 (addr6part addr - addr6part (cd_start6 c)))) c
  else
    pre ← copy_prefix c;
    let name := pre ++ ntop6 addr in
    let name := match cd_prefix c, name with None, ch :: _ => if ch =? colon then 48 :: ntop6 addr else name | _, _ => name end in
    finish_name (redash name) c.

(** [v4] and [v6] are the flags F_IPV4 and F_IPV6; None is the result 0. *)
Definition is_rev_synth (v4 v6 : bool) (l : list cond_domain) (addr : list Z) : res (option cstring) :=
  r ← (if v4 then search_domain addr l else Ok None);
  match r with
  | Some c => name ← rev_synth4 c addr; Ok (Some name)
  | None =>
      match (if v6 then search_domain6 addr l else None) with
      | Some c => name ← rev_synth6 c addr; Ok (Some name)
      | None => Ok None
      end
  end.
End libc.
