(* ===== verification/SynthTrip.v ===== *)
(** Synthetic names: looking a name up leaves it as it was, an address that is
    found is in the range of its domain, and the name made for an address gives
    that address back. *)
From Stdlib Require Import Ascii String.
From S2P Require Import Prelude Hostname NetAddr SynthDomain.

Section libc.
Context (pton4 pton6 : cstring → option (list Z)) (ntop4 ntop6 : list Z → cstring).

(** * The name is put back *)

Lemma skip_prefix_app name pref a b : skip_prefix name pref = Some (a, b) → name = a ++ b.
Proof.
  revert name a. induction pref as [|p pref IH]; intros name a; [by destruct name; intros [= <- <-]|]. destruct name as [|c name]; [done|]. cbn [skip_prefix].
  destruct (lower p =? lower c); [|done]. destruct (skip_prefix name pref) as [[a' b']|] eqn:E; [|done]. cbn. intros [= <- <-].
  by rewrite (IH name a' E).
Qed.

Lemma span_app ok s a b : span ok s = (a, b) → s = a ++ b ∧ Forall (λ c, ok c = true) a ∧ match b with c :: _ => ok c = false | [] => True end.
Proof.
  revert a. induction s as [|c s IH]; intros a; cbn [span]; [by intros [= <- <-]|]. destruct (ok c) eqn:Ec; [|by intros [= <- <-]].
  destruct (span ok s) as [a' b'] eqn:E. intros [= <- <-]. destruct (IH a' eq_refl) as (-> & Ha & Hb). split; [done|]. split; [by constructor|done].
Qed.

(** Characters that redash leaves alone. *)
Definition plain (c : Z) : Prop := c ≠ dot ∧ c ≠ colon.

Lemma redash_plain s : Forall plain s → redash s = s.
Proof.
  unfold redash. induction 1 as [|c s [H1 H2] _ IH]; [done|]. rewrite fmap_cons, IH. f_equal.
  by rewrite (proj2 (Z.eqb_neq c dot)), (proj2 (Z.eqb_neq c colon)).
Qed.

Lemma redash_swap d s : d = dot ∨ d = colon → Forall plain s → redash ((λ c, if c =? minus then d else c) <$> s) = s.
Proof.
  intros Hd. unfold redash. induction 1 as [|c s [H1 H2] _ IH]; [done|]. rewrite !fmap_cons, IH. f_equal. destruct (Z.eqb_spec c minus) as [->|].
  - by destruct Hd as [-> | ->].
  - by rewrite (proj2 (Z.eqb_neq c dot)), (proj2 (Z.eqb_neq c colon)).
Qed.

Lemma isprefix_app a s : isprefix a s = true → s = a ++ drop (length a) s.
Proof. unfold isprefix. intros H%bool_decide_eq_true_1. by rewrite <- H at 1; rewrite take_drop. Qed.

Lemma redash_undash v6 s : Forall plain s → redash (undash v6 s) = s.
Proof.
  intros Hs. unfold undash. destruct (v6 && isprefix (chars "--ffff-") s) eqn:E.
  - apply andb_true_iff in E as [_ E]. apply isprefix_app in E. unfold redash at 1. rewrite fmap_app. fold (redash (chars "::ffff:")).
    change (redash (chars "::ffff:")) with (chars "--ffff-"). rewrite E at 2. f_equal. change (length (chars "--ffff-")) with 7%nat.
    apply redash_swap; [by left|]. by apply Forall_drop.
  - destruct v6; apply redash_swap; auto.
Qed.

Lemma addr_char_plain v6 c : addr_char v6 c = true → plain c.
Proof. unfold addr_char, isdigit, isxdigit_nd, plain, minus, dot, colon. destruct v6; lia. Qed.

Lemma isdigit_plain c : isdigit c = true → plain c.
Proof. unfold isdigit, plain, dot, colon. lia. Qed.

(** The part of a domain that reads the address. *)
Definition synth_found (v6 : bool) (c : cond_domain) (t dom : cstring) : res (option (list Z)) :=
  if hostname_isequal (cd_domain c) dom
  then if cd_indexed c then indexed_addr v6 c t else dashed_addr pton4 pton6 v6 c (undash v6 t)
  else Ok None.

(** A domain in terms of the parts of the name: it may find an address when the
    name is its prefix, an address and its domain, and puts the name back. *)
Lemma synth_step_spec v6 c name :
  synth_step pton4 pton6 v6 c name =
    match skip_prefix name (default [] (cd_prefix c)) with
    | Some (_, tail) =>
        let '(t, rest) := span (if cd_indexed c then isdigit else addr_char v6) tail in
        match rest with d :: dom => if d =? dot then found ← synth_found v6 c t dom; Ok (found, name) else Ok (None, name) | [] => Ok (None, name) end
    | None => Ok (None, name)
    end.
Proof.
  unfold synth_step, synth_found. destruct (skip_prefix name (default [] (cd_prefix c))) as [[pre tail]|] eqn:Ep; [|done].
  apply skip_prefix_app in Ep as ->. destruct (span _ tail) as [t rest] eqn:Es. apply span_app in Es as (-> & Ht & _).
  destruct rest as [|d dom]; [done|]. destruct (Z.eqb_spec d dot) as [->|]; [|done]. cbn [negb].
  assert (redash (if cd_indexed c then t else undash v6 t) = t) as ->; [|by destruct (cd_indexed c)].
  destruct (cd_indexed c); [apply redash_plain|apply redash_undash]; apply (Forall_impl _ _ _ Ht); [exact isdigit_plain|exact (addr_char_plain v6)].
Qed.

(** * What is found is in the domain *)

Definition in_domain (v6 : bool) (addr : list Z) (c : cond_domain) : Prop := if v6 then match_domain6 addr c = true else match_domain addr c = Ok true.

(** Domains as the configuration makes them: numbered ones have a range, which
    for IPv6 lies in one network of 64 bits. *)
Record wf_domain (c : cond_domain) : Prop := {
  wd_start : wf_in_addr (cd_start c); wd_end : wf_in_addr (cd_end c); wd_start6 : wf_in6_addr (cd_start6 c); wd_end6 : wf_in6_addr (cd_end6 c);
  wd_al : Forall (λ a, al_ipv6 a = false → 1 ≤ al_prefixlen a ≤ 32 ∧ wf_in_addr (al_addr a)) (cd_al c);
  wd_indexed : cd_indexed c = true → cd_interface c = false ∧
    (if cd_is6 c then 64 ≤ cd_prefixlen c ∧ addr6part (cd_start6 c) ≤ addr6part (cd_end6 c) else ntohl (cd_start c) ≤ ntohl (cd_end c))
}.

Lemma is_same_net6_take a b : take 8 a = take 8 b → is_same_net6 a b 64 = true.
Proof. intros E. unfold is_same_net6. change (Z.to_nat (Z.shiftr 64 3)) with 8%nat. rewrite bool_decide_eq_true_2 by done. done. Qed.

Lemma indexed4_in c t n :
  wf_domain c → cd_indexed c = true → atoi t = Some n → 0 ≤ n →
  wp (indexed_addr false c t) (λ r, match r with Some a => in_domain false a c | None => True end).
Proof.
  intros Hwf Hi En Hn. unfold indexed_addr. rewrite En. cbn [wp]. destruct (wd_indexed c Hwf Hi) as [Hif Hr].
  destruct (cd_is6 c) eqn:E6; cbn [negb andb]; [done|]. destruct (Z.leb_spec n (u32 (ntohl (cd_end c) - ntohl (cd_start c)))) as [Hle|]; [|done].
  pose proof (wf_in_addr_val _ (wd_start c Hwf)). pose proof (wf_in_addr_val _ (wd_end c Hwf)). unfold u32 in *. change 4294967296 with (2 ^ 32) in *.
  rewrite Z.mod_small in Hle by lia. unfold in_domain, match_domain. rewrite Hif, E6. cbn [negb andb]. f_equal.
  rewrite Z.mod_small by lia. unfold htonl, ntohl in *. rewrite be_val_bytes by (change (256 ^ Z.of_nat 4) with (2 ^ 32); lia). lia.
Qed.

Lemma indexed6_in c t n :
  wf_domain c → cd_indexed c = true → atoll t = Some n → 0 ≤ n →
  wp (indexed_addr true c t) (λ r, match r with Some a => in_domain true a c | None => True end).
Proof.
  intros Hwf Hi En Hn. unfold indexed_addr. rewrite En. cbn [wp]. destruct (wd_indexed c Hwf Hi) as [Hif Hr].
  destruct (cd_is6 c) eqn:E6; cbn [negb andb]; [|done]. destruct Hr as [Hpl Hr].
  destruct (Z.leb_spec n (u64 (addr6part (cd_end6 c) - addr6part (cd_start6 c)))) as [Hle|]; [|done].
  destruct (addr6part_val _ (wd_start6 c Hwf)) as [_ Hs]. destruct (addr6part_val _ (wd_end6 c Hwf)) as [_ He].
  unfold u64 in Hle. change 18446744073709551616 with (2 ^ 64) in Hle. rewrite Z.mod_small in Hle by lia.
  unfold u64. change 18446744073709551616 with (2 ^ 64). rewrite Z.mod_small by lia.
  destruct (addr6part_round_trip (cd_start6 c) (addr6part (cd_start6 c) + n) (wd_start6 c Hwf) ltac:(lia)) as (_ & Hp & Ht & _).
  unfold in_domain, match_domain6. rewrite Hif, E6, (proj2 (Z.leb_le 64 _)) by lia. rewrite is_same_net6_take by done. rewrite Hp. lia.
Qed.

Lemma match_al_total addr l :
  Forall (λ a, al_ipv6 a = false → 1 ≤ al_prefixlen a ≤ 32 ∧ wf_in_addr (al_addr a)) l → ∃ b, match_al addr l = Ok b.
Proof.
  induction 1 as [|a l Ha _ IH]; [by exists false|]. cbn [match_al]. destruct (al_ipv6 a); [done|]. destruct (Ha eq_refl) as [Hp _]. cbn [negb].
  unfold is_same_net_prefix. rewrite (proj2 (Z.leb_le 0 _)), (proj2 (Z.ltb_lt _ 32)) by lia. cbn [andb]. destruct (is_same_net _ _ _); [by exists true|done].
Qed.

Lemma match_domain_total addr c : wf_domain c → ∃ b, match_domain addr c = Ok b.
Proof. intros Hwf. unfold match_domain. destruct (cd_interface c); [apply match_al_total, wd_al, Hwf|by eexists]. Qed.

Lemma dashed_in v6 c t :
  wf_domain c → twp (dashed_addr pton4 pton6 v6 c t) (λ r, match r with Some a => in_domain v6 a c | None => True end).
Proof.
  intros Hwf. unfold dashed_addr, in_domain. destruct ((if v6 then pton6 else pton4) t) as [addr|]; [|done]. destruct v6.
  - cbn. by destruct (match_domain6 addr c) eqn:E.
  - destruct (match_domain_total addr c Hwf) as [b E]. rewrite E. cbn. by destruct b.
Qed.

(** The numbers in a name fit an int. *)
Definition small_numbers (name : cstring) : Prop := ∀ k, digits_val 0 (drop k name) < 2147483648.

Lemma digits_val_app a t s : Forall (λ c, isdigit c = true) t → match s with c :: _ => isdigit c = false | [] => True end → digits_val a (t ++ s) = digits_val a t.
Proof.
  intros Ht Hs. revert a. induction Ht as [|c t Hc Ht IH]; intros a; cbn [app digits_val]; [destruct s as [|d s]; [done|]; cbn [digits_val]; by rewrite Hs|].
  rewrite Hc. apply IH.
Qed.

Lemma digits_val_nonneg a t : 0 ≤ a → 0 ≤ digits_val a t.
Proof. revert a. induction t as [|c t IH]; intros a Ha; cbn [digits_val]; [done|]. destruct (isdigit c) eqn:E; [|done]. apply IH. unfold isdigit in E. lia. Qed.

Lemma indexed_in v6 c t :
  wf_domain c → cd_indexed c = true → digits_val 0 t < 2147483648 →
  twp (indexed_addr v6 c t) (λ r, match r with Some a => in_domain v6 a c | None => True end).
Proof.
  intros Hwf Hi Hn. pose proof (digits_val_nonneg 0 t ltac:(lia)).
  assert (∃ n, (if v6 then atoll t else atoi t) = Some n ∧ 0 ≤ n) as (n & En & Hn0).
  { exists (digits_val 0 t). split; [|done]. destruct v6; unfold atoll, atoi; by rewrite (proj2 (Z.ltb_lt _ _)) by lia. }
  destruct v6.
  - pose proof (indexed6_in c t n Hwf Hi En Hn0) as H1. unfold indexed_addr in *. rewrite En in *. exact H1.
  - pose proof (indexed4_in c t n Hwf Hi En Hn0) as H1. unfold indexed_addr in *. rewrite En in *. exact H1.
Qed.

(** How a name is made up: prefix, address or number, domain. *)
Definition composed (c : cond_domain) (name : cstring) : Prop :=
  ∃ pre t dom, name = pre ++ t ++ dot :: dom ∧ ci_eq pre (default [] (cd_prefix c)) ∧ hostname_isequal (cd_domain c) dom = true.

Lemma skip_prefix_ci name pref a b : skip_prefix name pref = Some (a, b) → ci_eq a pref.
Proof.
  unfold ci_eq. revert name a. induction pref as [|p pref IH]; intros name a; [by destruct name; intros [= <- <-]|]. destruct name as [|c name]; [done|].
  cbn [skip_prefix]. destruct (Z.eqb_spec (lower p) (lower c)) as [E|]; [|done]. destruct (skip_prefix name pref) as [[a' b']|] eqn:E'; [|done].
  cbn. intros [= <- <-]. rewrite !fmap_cons. rewrite (IH name a' E'). by rewrite E.
Qed.

Lemma synth_step_sound v6 c name :
  wf_domain c → small_numbers name →
  twp (synth_step pton4 pton6 v6 c name) (λ '(r, name'), name' = name ∧ match r with Some a => in_domain v6 a c ∧ composed c name | None => True end).
Proof.
  intros Hwf Hnum. rewrite synth_step_spec. destruct (skip_prefix name (default [] (cd_prefix c))) as [[pre tail]|] eqn:Ep; [|done].
  pose proof (skip_prefix_ci _ _ _ _ Ep) as Hci. apply skip_prefix_app in Ep as En. destruct (span _ tail) as [t rest] eqn:Es. apply span_app in Es as (Et & Ht & Hr).
  destruct rest as [|d dom]; [done|]. destruct (Z.eqb_spec d dot) as [->|]; [|done]. unfold synth_found.
  destruct (hostname_isequal (cd_domain c) dom) eqn:Ed; [|done]. twp_step.
  assert (composed c name) as Hc by (exists pre, t, dom; by rewrite <- Et).
  destruct (cd_indexed c) eqn:Ei.
  - eapply twp_mono; [apply indexed_in; [done|done|]|]; [|intros [a|] Ha; cbn; auto].
    specialize (Hnum (length pre)). rewrite En, drop_app_length, Et, digits_val_app in Hnum; done.
  - eapply twp_mono; [by apply dashed_in|]. intros [a|] Ha; cbn; auto.
Qed.
End libc.

(** Looking up whether a name is synthetic leaves the name as it was, although
    it is edited in place on the way, and an address that is found is in the
    range of a domain whose prefix and name it is made of. *)
Theorem synthetic_name_sound pton4 pton6 v6 l name :
  Forall wf_domain l → small_numbers name →
  ∃ r, is_name_synthetic pton4 pton6 v6 l name = Ok (r, name) ∧
    match r with Some a => ∃ c, c ∈ l ∧ in_domain v6 a c ∧ composed c name | None => True end.
Proof.
  intros Hwf Hnum. induction Hwf as [|c l Hc _ IH]; [by exists None|]. cbn [is_name_synthetic].
  destruct (proj1 (twp_ok _ _) (synth_step_sound pton4 pton6 v6 c name Hc Hnum)) as ([r name'] & -> & -> & Hr). cbn [mbind res_bind].
  destruct r as [a|]; [exists (Some a); split; [done|]; exists c; split; [by left|done]|].
  destruct IH as (r & -> & Hr'). exists r. split; [done|]. destruct r as [a|]; [|done]. destruct Hr' as (c' & Hin & Hc'). exists c'. split; [by right|done].
Qed.

(** * Numbers *)

Lemma digits_rev_spec fuel n :
  0 ≤ n < 10 ^ Z.of_nat fuel → (0 < fuel)%nat →
  Forall (λ c, isdigit c = true) (digits_rev fuel n) ∧ digits_val 0 (reverse (digits_rev fuel n)) = n ∧ (length (digits_rev fuel n) ≤ fuel)%nat.
Proof.
  revert n. induction fuel as [|fuel IH]; intros n Hn Hf; [lia|]. cbn [digits_rev].
  destruct (Z.ltb_spec n 10).
  - split; [constructor; [unfold isdigit; lia|done]|]. cbn. unfold isdigit. rewrite (proj2 (Z.leb_le 48 _)), (proj2 (Z.leb_le _ 57)) by lia. cbn. lia.
  - destruct fuel as [|fuel]; [change (10 ^ Z.of_nat 1) with 10 in Hn; lia|].
    destruct (IH (n / 10)) as (H1 & H2 & H3); [|lia|].
    { split; [apply Z.div_pos; lia|]. apply Z.div_lt_upper_bound; [lia|]. rewrite <- Z.pow_succ_r by lia. replace (Z.succ (Z.of_nat (S fuel))) with (Z.of_nat (S (S fuel))) by lia. lia. }
    pose proof (Z.mod_pos_bound n 10). assert (isdigit (48 + n mod 10) = true) as Hd by (unfold isdigit; lia).
    split; [by constructor|]. split; [|cbn [length]; lia]. rewrite reverse_cons.
    assert (∀ a t c, Forall (λ c, isdigit c = true) t → isdigit c = true → digits_val a (t ++ [c]) = digits_val a t * 10 + (c - 48)) as Happ.
    { intros a t. revert a. induction t as [|x t IHt]; intros a c Ht Hc; cbn [app digits_val]; [by rewrite Hc|].
      apply Forall_cons in Ht as [Hx Ht]. rewrite Hx. by apply IHt. }
    rewrite Happ by (done || by apply Forall_reverse). rewrite H2. pose proof (Z.div_mod n 10). lia.
Qed.

Lemma print_u_spec n :
  0 ≤ n < 2 ^ 64 → Forall (λ c, isdigit c = true) (print_u n) ∧ digits_val 0 (print_u n) = n ∧ strlen (print_u n) ≤ 20.
Proof.
  intros Hn. destruct (digits_rev_spec 20 n) as (H1 & H2 & H3); [change (10 ^ Z.of_nat 20) with 100000000000000000000; lia|lia|].
  unfold print_u. split; [by apply Forall_reverse|]. split; [done|]. unfold strlen, zlen. rewrite length_reverse. lia.
Qed.

(** * The parts of a name that was made up *)

Section libc.
Context (pton4 pton6 : cstring → option (list Z)) (ntop4 ntop6 : list Z → cstring).

Lemma skip_prefix_self pre s : skip_prefix (pre ++ s) pre = Some (pre, s).
Proof. induction pre as [|c pre IH]; [by destruct s|]. cbn [app skip_prefix]. rewrite Z.eqb_refl, IH. done. Qed.

Lemma span_all ok t s : Forall (λ c, ok c = true) t → match s with c :: _ => ok c = false | [] => True end → span ok (t ++ s) = (t, s).
Proof.
  intros Ht Hs. induction Ht as [|c t Hc Ht IH]; cbn [app span]; [destruct s as [|d s]; [done|]; cbn [span]; by rewrite Hs|].
  by rewrite Hc, IH.
Qed.

Definition text_ok (c : cond_domain) (v6 : bool) (ch : Z) : bool := if cd_indexed c then isdigit ch else addr_char v6 ch.

Lemma synth_step_composed v6 c t :
  Forall (λ ch, text_ok c v6 ch = true) t →
  synth_step pton4 pton6 v6 c (default [] (cd_prefix c) ++ t ++ dot :: cd_domain c) =
    (found ← synth_found pton4 pton6 v6 c t (cd_domain c); Ok (found, default [] (cd_prefix c) ++ t ++ dot :: cd_domain c)).
Proof.
  intros Ht. rewrite synth_step_spec, skip_prefix_self.
  assert (span (if cd_indexed c then isdigit else addr_char v6) (t ++ dot :: cd_domain c) = (t, dot :: cd_domain c)) as ->.
  { apply span_all.
    - apply (Forall_impl _ _ _ Ht). intros ch. unfold text_ok. by destruct (cd_indexed c).
    - destruct (cd_indexed c); [done|]. by destruct v6. }
  by rewrite Z.eqb_refl.
Qed.

Lemma be_val_4 addr : wf_in_addr addr → htonl (ntohl addr) = addr.
Proof.
  intros Hw. pose proof (wf_in_addr_val addr Hw) as Hv. destruct Hw as [Hl Hb]. apply be_val_inj; [by rewrite Hl; apply length_be_bytes|apply be_bytes_byte|done|].
  apply be_val_bytes. exact Hv.
Qed.

(** A numbered name. *)
Lemma indexed4_back c addr :
  wf_domain c → wf_in_addr addr → cd_indexed c = true → match_domain addr c = Ok true →
  let index := u32 (ntohl addr - ntohl (cd_start c)) in index < 2147483648 →
  indexed_addr false c (print_u index) = Ok (Some addr).
Proof.
  intros Hwf Ha Hi Hm index Hn. destruct (wd_indexed c Hwf Hi) as [Hif Hr]. unfold match_domain in Hm. rewrite Hif in Hm. injection Hm as Hm.
  destruct (cd_is6 c) eqn:E6; [done|]. cbn [negb andb] in Hm. apply andb_true_iff in Hm as [H1%Z.leb_le H2%Z.leb_le].
  pose proof (wf_in_addr_val _ (wd_start c Hwf)). pose proof (wf_in_addr_val _ (wd_end c Hwf)). pose proof (wf_in_addr_val _ Ha).
  assert (index = ntohl addr - ntohl (cd_start c)) as Ei by (unfold index, u32; change 4294967296 with (2 ^ 32); rewrite Z.mod_small; lia).
  unfold indexed_addr, atoi. destruct (print_u_spec index) as (_ & -> & _); [lia|]. rewrite (proj2 (Z.ltb_lt index _)) by lia. rewrite E6. cbn [negb andb].
  unfold u32. change 4294967296 with (2 ^ 32). rewrite Z.mod_small, (proj2 (Z.leb_le index _)) by lia. do 2 f_equal.
  rewrite Z.mod_small by lia. replace (ntohl (cd_start c) + index) with (ntohl addr) by lia. by apply be_val_4.
Qed.

Lemma setaddr6part_take a b h : wf_in6_addr a → wf_in6_addr b → take 8 a = take 8 b → 0 ≤ h < 2 ^ 64 → setaddr6part a h = setaddr6part b h.
Proof.
  intros Ha Hb E Hh. unfold setaddr6part. rewrite u64_id by exact Hh. rewrite !setaddr6_loop_spec by (lia || done). rewrite E.
  by rewrite !drop_ge by (destruct Ha, Hb; lia).
Qed.

Lemma indexed6_back c addr :
  wf_domain c → wf_in6_addr addr → cd_indexed c = true → match_domain6 addr c = true →
  let index := u64 (addr6part addr - addr6part (cd_start6 c)) in index < 9223372036854775808 →
  indexed_addr true c (print_u index) = Ok (Some addr).
Proof.
  intros Hwf Ha Hi Hm index Hn. destruct (wd_indexed c Hwf Hi) as [Hif Hr]. unfold match_domain6 in Hm. rewrite Hif in Hm.
  destruct (cd_is6 c) eqn:E6; [|done]. destruct Hr as [Hpl Hr]. rewrite (proj2 (Z.leb_le 64 _)) in Hm by lia.
  apply andb_true_iff in Hm as [[Hnet H1%Z.leb_le]%andb_true_iff H2%Z.leb_le].
  destruct (addr6part_val _ (wd_start6 c Hwf)) as [_ Hs]. destruct (addr6part_val _ (wd_end6 c Hwf)) as [_ He]. destruct (addr6part_val _ Ha) as [_ Hav].
  assert (index = addr6part addr - addr6part (cd_start6 c)) as Ei by (unfold index, u64; change 18446744073709551616 with (2 ^ 64); rewrite Z.mod_small; lia).
  unfold indexed_addr, atoll. destruct (print_u_spec index) as (_ & -> & _); [lia|]. rewrite (proj2 (Z.ltb_lt index _)) by lia. rewrite E6. cbn [negb andb].
  unfold u64. change 18446744073709551616 with (2 ^ 64). rewrite Z.mod_small, (proj2 (Z.leb_le index _)) by lia. do 2 f_equal.
  rewrite Z.mod_small by lia. replace (addr6part (cd_start6 c) + index) with (addr6part addr) by lia.
  rewrite (setaddr6part_take _ addr) by (lia || apply Hwf || done || (unfold is_same_net6 in Hnet; change (Z.to_nat (Z.shiftr 64 3)) with 8%nat in Hnet;
    destruct (bool_decide_reflect (take 8 addr = take 8 (cd_start6 c))); done)).
  by destruct (addr6part_round_trip addr (addr6part addr) Ha Hav) as (_ & _ & _ & ->).
Qed.

(** * Dashed names *)

Definition digit_dot (c : Z) : Prop := isdigit c = true ∨ c = dot.
Definition hex_text (c : Z) : Prop := isdigit c = true ∨ isxdigit_nd c = true ∨ c = colon ∨ c = dot.

(** The text of an IPv4 address. *)
Lemma undash4 s : Forall digit_dot s → undash false ((λ ch, if ch =? dot then minus else ch) <$> s) = s ∧
  Forall (λ ch, addr_char false ch = true) ((λ ch, if ch =? dot then minus else ch) <$> s).
Proof.
  unfold undash. cbn [andb]. induction 1 as [|c s Hc _ [IH1 IH2]]; [done|]. rewrite !fmap_cons, IH1. split.
  - f_equal. destruct (Z.eqb_spec c dot) as [->|Hne]; [done|]. destruct Hc as [Hc|]; [|done].
    rewrite (proj2 (Z.eqb_neq c minus)); [done|]. unfold isdigit, minus in *. lia.
  - constructor; [|done]. destruct (Z.eqb_spec c dot) as [->|Hne]; [done|]. destruct Hc as [Hc|]; [|done]. unfold addr_char. by rewrite Hc.
Qed.

Lemma redash_text s : Forall hex_text s → Forall (λ ch, addr_char true ch = true) (redash s).
Proof.
  unfold redash. induction 1 as [|c s Hc _ IH]; [done|]. rewrite fmap_cons. constructor; [|done].
  destruct (Z.eqb_spec c dot) as [->|]; [done|]. destruct (Z.eqb_spec c colon) as [->|]; [done|]. cbn [orb]. unfold addr_char.
  destruct Hc as [-> | [-> | [|]]]; [done|by rewrite orb_true_r|done|done].
Qed.

(** Dashes stand for one separator when the other does not occur. *)
Lemma swap_redash d s :
  d = dot ∨ d = colon → Forall hex_text s → Forall (λ ch, ch = dot ∨ ch = colon → ch = d) s → (λ c, if c =? minus then d else c) <$> redash s = s.
Proof.
  intros Hd Hs. unfold redash. induction Hs as [|c l Hc _ IH]; intros Hn; [done|]. apply Forall_cons in Hn as [Hcd Hn]. rewrite !fmap_cons, (IH Hn). f_equal.
  destruct (Z.eqb_spec c dot) as [->|]; [by rewrite Hcd by auto|]. destruct (Z.eqb_spec c colon) as [->|]; [by rewrite Hcd by auto|]. cbn [orb].
  rewrite (proj2 (Z.eqb_neq c minus)); [done|]. intros ->. destruct Hc as [Hc|[Hc|[Hc|Hc]]]; done.
Qed.

(** An IPv6 address without dots, of which the first group is not taken for that
    of a mapped address. *)
Lemma undash6 s : Forall hex_text s → Forall (λ ch, ch ≠ dot) s → isprefix (chars "::ffff:") s = false → undash true (redash s) = s.
Proof.
  intros Hs Hd Hp. assert (∀ l, Forall (λ ch, ch ≠ dot) l → Forall (λ ch, ch = dot ∨ ch = colon → ch = colon) l) as Hnd.
  { intros l Hl. apply (Forall_impl _ _ _ Hl). intros ch Hch [|]; done. }
  unfold undash. cbn [andb]. assert (isprefix (chars "--ffff-") (redash s) = false) as ->; [|apply swap_redash; auto].
  unfold isprefix in *. apply bool_decide_eq_false_2. apply bool_decide_eq_false_1 in Hp. intros E. apply Hp.
  change (length (chars "--ffff-")) with 7%nat in E. change (length (chars "::ffff:")) with 7%nat. unfold redash in E. rewrite <- fmap_take in E.
  rewrite <- (swap_redash colon (take 7 s)); [|by right|by apply Forall_take|by apply Hnd, Forall_take]. unfold redash. by rewrite E.
Qed.

(** A mapped address, with the IPv4 address written with dots. *)
Lemma undash_mapped d : Forall digit_dot d → undash true (redash (chars "::ffff:" ++ d)) = chars "::ffff:" ++ d.
Proof.
  intros Hd. unfold undash. cbn [andb]. unfold redash at 1 2. rewrite fmap_app. fold (redash (chars "::ffff:")) (redash d).
  change (redash (chars "::ffff:")) with (chars "--ffff-"). unfold isprefix. rewrite take_app_length. rewrite bool_decide_eq_true_2 by done. f_equal.
  change 7%nat with (length (chars "--ffff-")). rewrite drop_app_length. apply swap_redash; [by left| |].
  - apply (Forall_impl _ _ _ Hd). intros ch [|]; unfold hex_text; auto.
  - apply (Forall_impl _ _ _ Hd). intros ch [Hch| ->]; [|done]. intros [|]; subst; done.
Qed.

(** * The name of an address *)

(** The name fits: prefix, address and domain. *)
Definition fits_name (c : cond_domain) : Prop :=
  strlen (default [] (cd_prefix c)) + ADDRSTRLEN + strlen (cd_domain c) < MAXDNAME - 1 ∧ (cd_indexed c = false → Forall plain (default [] (cd_prefix c))).

(** What is relied on about the text of an IPv4 address, and on the number of
    the address where the name has that. *)
Definition text4_ok (c : cond_domain) (addr : list Z) : Prop :=
  if cd_indexed c then u32 (ntohl addr - ntohl (cd_start c)) < 2147483648
  else Forall digit_dot (ntop4 addr) ∧ strlen (ntop4 addr) < ADDRSTRLEN - 1 ∧ pton4 (ntop4 addr) = Some addr.

(** The same for IPv6: the text has no dots and is not taken for a mapped
    address, or is one and comes after a prefix. *)
Definition text6_ok (c : cond_domain) (addr : list Z) : Prop :=
  if cd_indexed c then u64 (addr6part addr - addr6part (cd_start6 c)) < 9223372036854775808
  else Forall hex_text (ntop6 addr) ∧ strlen (ntop6 addr) < ADDRSTRLEN - 1 ∧ pton6 (ntop6 addr) = Some addr ∧
    (Forall (λ ch, ch ≠ dot) (ntop6 addr) ∧ isprefix (chars "::ffff:") (ntop6 addr) = false ∧ (cd_prefix c = None → pton6 (48 :: ntop6 addr) = Some addr) ∨
     cd_prefix c ≠ None ∧ ∃ d, ntop6 addr = chars "::ffff:" ++ d ∧ Forall digit_dot d).

Lemma finish_name_ok c pre t :
  strlen pre + strlen t + strlen (cd_domain c) < MAXDNAME - 1 → finish_name (pre ++ t) c = Ok (pre ++ t ++ dot :: cd_domain c).
Proof.
  intros Hl. unfold finish_name, strlen in *. rewrite <- app_assoc. rewrite (proj2 (Z.ltb_lt _ _)); [done|]. rewrite !zlen_app, zlen_cons. lia.
Qed.

Lemma print_index_ok c n : fits_name c → 0 ≤ n < 2 ^ 64 → print_index c n = default [] (cd_prefix c) ++ print_u n.
Proof.
  intros [Hf _] Hn. destruct (print_u_spec n Hn) as (_ & _ & Hl). unfold print_index. apply take_ge. unfold strlen, zlen, MAXDNAME, ADDRSTRLEN in *.
  rewrite length_app. lia.
Qed.

Lemma copy_prefix_ok c : fits_name c → copy_prefix c = Ok (default [] (cd_prefix c)).
Proof.
  intros [Hf _]. unfold copy_prefix. destruct (cd_prefix c) as [p|] eqn:E; [|done]. pose proof (zlen_nonneg (cd_domain c)).
  change (default [] (Some p)) with p in *. unfold strlen in *. rewrite (proj2 (Z.ltb_lt _ _)); [done|]. lia.
Qed.

Lemma plain_keep4 s : Forall plain s → (λ ch, if ch =? dot then minus else ch) <$> s = s.
Proof. induction 1 as [|c s [H1 _] _ IH]; [done|]. rewrite fmap_cons, IH. by rewrite (proj2 (Z.eqb_neq c dot)). Qed.

(** A name made for an address of the domain [c] is composed of its parts and
    the address is read out of it. *)
Definition made (v6 : bool) (c : cond_domain) (addr : list Z) (name : res cstring) : Prop :=
  ∃ t, name = Ok (default [] (cd_prefix c) ++ t ++ dot :: cd_domain c) ∧ Forall (λ ch, text_ok c v6 ch = true) t ∧
    synth_found pton4 pton6 v6 c t (cd_domain c) = Ok (Some addr).

Lemma rev_synth4_made c addr :
  wf_domain c → wf_in_addr addr → match_domain addr c = Ok true → fits_name c → text4_ok c addr → made false c addr (rev_synth4 ntop4 c addr).
Proof.
  intros Hwf Ha Hm Hfit Htext. unfold made, rev_synth4, text4_ok, text_ok, synth_found in *. rewrite hostname_isequal_refl. pose proof Hfit as [Hlen Hpl].
  destruct (cd_indexed c) eqn:Ei.
  - assert (0 ≤ u32 (ntohl addr - ntohl (cd_start c)) < 2 ^ 64) as Hb by (unfold u32; pose proof (Z.mod_pos_bound (ntohl addr - ntohl (cd_start c)) 4294967296); lia).
    destruct (print_u_spec _ Hb) as (Hd & _ & Hl). exists (print_u (u32 (ntohl addr - ntohl (cd_start c)))). rewrite print_index_ok by done.
    split; [apply finish_name_ok; unfold ADDRSTRLEN in *; lia|]. split; [done|]. by apply indexed4_back.
  - destruct Htext as (Hd & Hl & Hp). rewrite copy_prefix_ok by done. cbn [mbind res_bind]. rewrite fmap_app, plain_keep4 by auto.
    destruct (undash4 _ Hd) as [Hu Hok]. eexists. split; [apply finish_name_ok|split; [done|]].
    + unfold strlen, zlen in *. rewrite length_fmap. lia.
    + rewrite Hu. unfold dashed_addr. rewrite Hp, Hm. done.
Qed.

Lemma rev_synth6_made c addr :
  wf_domain c → wf_in6_addr addr → match_domain6 addr c = true → fits_name c → text6_ok c addr → made true c addr (rev_synth6 ntop6 c addr).
Proof.
  intros Hwf Ha Hm Hfit Htext. unfold made, rev_synth6, text6_ok, text_ok, synth_found in *. rewrite hostname_isequal_refl. pose proof Hfit as [Hlen Hpl].
  destruct (cd_indexed c) eqn:Ei.
  - assert (0 ≤ u64 (addr6part addr - addr6part (cd_start6 c)) < 2 ^ 64) as Hb
      by (unfold u64; pose proof (Z.mod_pos_bound (addr6part addr - addr6part (cd_start6 c)) 18446744073709551616); lia).
    destruct (print_u_spec _ Hb) as (Hd & _ & Hl). exists (print_u (u64 (addr6part addr - addr6part (cd_start6 c)))). rewrite print_index_ok by done.
    split; [apply finish_name_ok; unfold ADDRSTRLEN in *; lia|]. split; [done|]. by apply indexed6_back.
  - destruct Htext as (Hd & Hl & Hp & Hcase). rewrite copy_prefix_ok by done. cbn [mbind res_bind]. cbv zeta.
    assert (∀ t, Forall hex_text t → strlen t < ADDRSTRLEN → undash true (redash t) = t → pton6 t = Some addr →
      ∃ t', finish_name (redash (default [] (cd_prefix c) ++ t)) c = Ok (default [] (cd_prefix c) ++ t' ++ dot :: cd_domain c) ∧
        Forall (λ ch, addr_char true ch = true) t' ∧ dashed_addr pton4 pton6 true c (undash true t') = Ok (Some addr)) as Hgo.
    { intros t Ht Hlt Hu Hpt. exists (redash t). split; [|split; [by apply redash_text|]].
      - unfold redash at 1. rewrite fmap_app. fold (redash (default [] (cd_prefix c))) (redash t). rewrite redash_plain by auto. apply finish_name_ok.
        unfold strlen, zlen, redash in *. rewrite length_fmap. lia.
      - rewrite Hu. unfold dashed_addr. rewrite Hpt. cbn [mbind res_bind]. by rewrite Hm. }
    destruct (cd_prefix c) as [pre|] eqn:Epre.
    + apply Hgo; [done|lia| |done]. destruct Hcase as [(Hnd & Hnp & _)|(_ & d & -> & Hdd)]; [by apply undash6|by apply undash_mapped].
    + destruct Hcase as [(Hnd & Hnp & H0)|[? _]]; [|done]. cbn [default from_option app] in *.
      change (from_option id [] (@None cstring)) with (@nil Z) in *. cbn [app] in *. destruct (ntop6 addr) as [|ch s'] eqn:Es; [by apply Hgo; [done|lia|apply undash6|]|].
      destruct (Z.eqb_spec ch colon) as [->|]; [|by apply Hgo; [done|lia|apply undash6|]].
      apply Hgo; [constructor; [by left|done]|unfold strlen in *; rewrite zlen_cons; lia| |by apply H0]. apply undash6; [constructor; [by left|done]|by constructor|done].
Qed.
End libc.

(** The first domain that has the address. *)
Lemma search_first v6 l1 c l2 addr :
  Forall wf_domain (l1 ++ c :: l2) → Forall (λ c', ¬ in_domain v6 addr c') l1 → in_domain v6 addr c →
  if v6 then search_domain6 addr (l1 ++ c :: l2) = Some c else search_domain addr (l1 ++ c :: l2) = Ok (Some c).
Proof.
  intros Hwf Hno Hin. induction l1 as [|c1 l1 IH]; cbn [app] in *.
  - destruct v6; unfold in_domain in Hin; cbn; by rewrite Hin.
  - apply Forall_cons in Hwf as [Hw1 Hwf]. apply Forall_cons in Hno as [Hn1 Hno]. specialize (IH Hwf Hno). unfold in_domain in Hn1. destruct v6; cbn.
    + by destruct (match_domain6 addr c1).
    + destruct (match_domain_total addr c1 Hw1) as [b Eb]. rewrite Eb in *. cbn. destruct b; [done|]. exact IH.
Qed.

Lemma is_name_synthetic_skip pton4 pton6 v6 l1 l2 name :
  Forall (λ c', synth_step pton4 pton6 v6 c' name = Ok (None, name)) l1 →
  is_name_synthetic pton4 pton6 v6 (l1 ++ l2) name = is_name_synthetic pton4 pton6 v6 l2 name.
Proof. induction 1 as [|c l1 Hc _ IH]; [done|]. cbn [app is_name_synthetic]. by rewrite Hc. Qed.


(** * Concrete domains *)

(** Decimal text of IPv4 addresses, as inet_ntop and inet_pton have it. *)
Definition sample_ntop (a : list Z) : cstring :=
  match a with [b0; b1; b2; b3] => print_u b0 ++ dot :: print_u b1 ++ dot :: print_u b2 ++ dot :: print_u b3 | _ => [] end.
Definition sample_pton (s : cstring) : option (list Z) :=
  let '(t0, r0) := span isdigit s in let '(t1, r1) := span isdigit (drop 1 r0) in
  let '(t2, r2) := span isdigit (drop 1 r1) in let '(t3, r3) := span isdigit (drop 1 r2) in
  match r3 with [] => Some [digits_val 0 t0; digits_val 0 t1; digits_val 0 t2; digits_val 0 t3] | _ => None end.

Definition sample_domain (prefix : option cstring) (indexed : bool) : cond_domain :=
  CondDomain (chars "example.org") prefix false [] [192; 0; 2; 0] [192; 0; 2; 255] (replicate 16 0) (replicate 16 0) false indexed 0.

Lemma sample_domain_wf prefix indexed : wf_domain (sample_domain prefix indexed).
Proof.
  split; try (by split; [done|apply bytes_forallb]); [done|]. intros _. split; [done|]. vm_compute. discriminate.
Qed.


Lemma synthetic_name_sound_witness :
  ∃ r, is_name_synthetic sample_pton sample_pton false [sample_domain (Some (chars "pc")) true] (chars "pc12.Example.org") = Ok (r, chars "pc12.Example.org") ∧
    match r with Some a => ∃ c, c ∈ [sample_domain (Some (chars "pc")) true] ∧ in_domain false a c ∧ composed c (chars "pc12.Example.org") | None => True end.
Proof.
  apply synthetic_name_sound; [constructor; [apply sample_domain_wf|done]|]. intros k. do 17 (destruct k as [|k]; [by vm_compute|]).
  rewrite drop_ge by (vm_compute; lia). done.
Defined.

(** What inet_pton is given for a mapped address in a domain without prefix, and
    for an address that only begins like one. *)
Example mapped_address_lost : undash true (redash (48 :: chars "::ffff:192.0.2.1")) = chars "0::ffff:192:0:2:1".
Proof. done. Qed.
Example ffff_group_lost : undash true (redash (chars "::ffff:1:2:3")) = chars "::ffff:1.2.3".
Proof. done. Qed.
