(* ===== verification/SynthConfig.v ===== *)
(** The ranges of domains as the configuration gives them (src/src/option.c, the
    options domain and synth-domain): a network is the addresses with its
    prefix, and a range of IPv6 addresses is not what it says. *)
From S2P Require Import Prelude Hostname NetAddr SynthDomain SynthTrip.

(** domain,address/prefix: a mask that is too long is an error; a shift by 32 is
    not defined. *)
Definition cond_cidr4 (domain : cstring) (start : list Z) (msize : Z) : res cond_domain :=
  if 32 <? msize then Bad
  else if msize <=? 0 then Oob
  else
    let mask := Z.shiftl 1 (32 - msize) - 1 in
    let start := htonl (Z.ldiff (ntohl start) mask) in
    let end_ := htonl (Z.lor (ntohl start) mask) in
    Ok (CondDomain domain None false [] start end_ (replicate 16 0) (replicate 16 0) false false 0).

Definition cond_cidr6 (domain : cstring) (start6 : list Z) (msize : Z) : res cond_domain :=
  if 128 <? msize then Bad
  else
    let addrpart := addr6part start6 in
    let mask := if msize <=? 64 then 18446744073709551615 else Z.shiftl 1 (128 - msize) - 1 in
    Ok (CondDomain domain None false [] (replicate 4 0) (replicate 4 0)
          (setaddr6part start6 (Z.ldiff addrpart mask)) (setaddr6part start6 (Z.lor addrpart mask)) true false msize).

(** domain,start[,end]. *)
Definition cond_range4 (domain : cstring) (start : list Z) (end_ : option (list Z)) : cond_domain :=
  CondDomain domain None false [] start (default start end_) (replicate 16 0) (replicate 16 0) false false 0.
Definition cond_range6 (domain : cstring) (start6 : list Z) (end6 : option (list Z)) : cond_domain :=
  CondDomain domain None false [] (replicate 4 0) (replicate 4 0) start6 (default start6 end6) true false 0.

(** The prefix of synthetic names: a star at its end asks for numbers. *)
Definition set_prefix (c : cond_domain) (prefix : cstring) (indexed : bool) : cond_domain :=
  CondDomain (cd_domain c) (Some prefix) (cd_interface c) (cd_al c) (cd_start c) (cd_end c) (cd_start6 c) (cd_end6 c) (cd_is6 c) indexed (cd_prefixlen c).
Definition add_prefix (c : cond_domain) (maxlen : Z) (prefix : cstring) : res cond_domain :=
  if maxlen <? strlen prefix then Bad
  else match last prefix with
  | Some ch =>
      if ch =? star then
        if cd_is6 c && (cd_prefixlen c <? 64) then Bad else Ok (set_prefix c (take (length prefix - 1) prefix) true)
      else Ok (set_prefix c prefix false)
  | None => Ok (set_prefix c prefix false)
  end.

(** * Networks *)

Lemma lor_ldiff a b : Z.lor (Z.ldiff a b) b = Z.lor a b.
Proof. apply Z.bits_inj'. intros n Hn. rewrite !Z.lor_spec, Z.ldiff_spec. by destruct (Z.testbit a n), (Z.testbit b n). Qed.

(** The numbers between the first and the last of a block are those with its
    high bits. *)
Lemma block_range a s k :
  0 ≤ k → (Z.ldiff s (Z.shiftl 1 k - 1) <=? a) && (a <=? Z.lor (Z.ldiff s (Z.shiftl 1 k - 1)) (Z.shiftl 1 k - 1)) = (a / 2 ^ k =? s / 2 ^ k) ∧
  Z.ldiff s (Z.shiftl 1 k - 1) = s / 2 ^ k * 2 ^ k ∧ Z.lor (Z.ldiff s (Z.shiftl 1 k - 1)) (Z.shiftl 1 k - 1) = s / 2 ^ k * 2 ^ k + (2 ^ k - 1).
Proof.
  intros Hk. assert (Z.shiftl 1 k - 1 = Z.ones k) as -> by (rewrite Z.ones_equiv, Z.shiftl_1_l; lia). rewrite Z.ldiff_ones_r by done.
  pose proof (Z.pow_pos_nonneg 2 k ltac:(lia) Hk) as Hp. rewrite Z.ones_equiv.
  assert (Z.lor (Z.shiftl (Z.shiftr s k) k) (Z.pred (2 ^ k)) = s / 2 ^ k * 2 ^ k + (2 ^ k - 1)) as Hlor.
  { rewrite <- Z.sub_1_r. rewrite lor_shiftl by lia. by rewrite Z.shiftr_div_pow2. }
  rewrite Hlor, Z.shiftl_mul_pow2, Z.shiftr_div_pow2 by done. split; [|done].
  pose proof (Z.div_mod s (2 ^ k)). pose proof (Z.mod_pos_bound s (2 ^ k)). pose proof (Z.div_mod a (2 ^ k)). pose proof (Z.mod_pos_bound a (2 ^ k)).
  destruct (Z.eqb_spec (a / 2 ^ k) (s / 2 ^ k)) as [E|E]; [rewrite E in *; lia|].
  assert (a / 2 ^ k < s / 2 ^ k ∨ s / 2 ^ k < a / 2 ^ k) as [H5|H5] by lia; nia.
Qed.

(** An IPv6 address is its network part and its host part. *)
Lemma be_val_parts a : wf_in6_addr a → be_val a = be_val (take 8 a) * 2 ^ 64 + addr6part a ∧ 0 ≤ addr6part a < 2 ^ 64.
Proof.
  intros Hw. destruct (addr6part_val a Hw) as [E Hb]. rewrite E in *. split; [|done]. rewrite <- (take_drop 8 a) at 1. rewrite be_val_app.
  destruct Hw as [Hl _]. assert (zlen (drop 8 a) = 8) as -> by (unfold zlen; rewrite length_drop; lia). done.
Qed.

(** Comparing the prefixes of two numbers made of parts. *)
Lemma parts_div t h k : 0 ≤ k ≤ 64 → 0 ≤ h < 2 ^ 64 → (t * 2 ^ 64 + h) / 2 ^ k = t * 2 ^ (64 - k) + h / 2 ^ k ∧ 0 ≤ h / 2 ^ k < 2 ^ (64 - k).
Proof.
  intros Hk Hh. pose proof (Z.pow_pos_nonneg 2 k ltac:(lia) ltac:(lia)). pose proof (Z.pow_pos_nonneg 2 (64 - k) ltac:(lia) ltac:(lia)).
  assert (2 ^ 64 = 2 ^ (64 - k) * 2 ^ k) as E by (rewrite <- Z.pow_add_r by lia; f_equal; lia). split.
  - rewrite E. replace (t * (2 ^ (64 - k) * 2 ^ k) + h) with (h + t * 2 ^ (64 - k) * 2 ^ k) by ring. rewrite Z.div_add by lia. lia.
  - split; [apply Z.div_pos; lia|]. apply Z.div_lt_upper_bound; [lia|]. lia.
Qed.

Lemma parts_eqb t h t' h' k :
  0 ≤ k ≤ 64 → 0 ≤ h < 2 ^ 64 → 0 ≤ h' < 2 ^ 64 →
  ((t * 2 ^ 64 + h) / 2 ^ k =? (t' * 2 ^ 64 + h') / 2 ^ k) = (t =? t') && (h / 2 ^ k =? h' / 2 ^ k).
Proof.
  intros Hk Hh Hh'. destruct (parts_div t h k Hk Hh) as [-> H1]. destruct (parts_div t' h' k Hk Hh') as [-> H2].
  destruct (Z.eqb_spec t t') as [->|Hne]; cbn [andb]; [destruct (Z.eqb_spec (h / 2 ^ k) (h' / 2 ^ k)); lia|]. apply Z.eqb_neq. nia.
Qed.

(** The network part alone, for short prefixes. *)
Lemma parts_high t h k : 64 ≤ k → 0 ≤ h < 2 ^ 64 → (t * 2 ^ 64 + h) / 2 ^ k = t / 2 ^ (k - 64).
Proof.
  intros Hk Hh. replace k with (64 + (k - 64)) at 1 by lia. rewrite Z.pow_add_r, <- Z.div_div by lia. f_equal.
  rewrite Z.add_comm, Z.div_add by lia. rewrite Z.div_small by lia. lia.
Qed.

Lemma match_cidr6 domain start6 m addr c :
  wf_in6_addr start6 → wf_in6_addr addr → 0 ≤ m ≤ 128 → cond_cidr6 domain start6 m = Ok c →
  match_domain6 addr c = (be_val addr / 2 ^ (128 - m) =? be_val start6 / 2 ^ (128 - m)).
Proof.
  intros Hs Ha Hm. unfold cond_cidr6. rewrite (proj2 (Z.ltb_ge 128 m)) by lia. intros [= <-]. unfold match_domain6.
  cbn [cd_interface cd_is6 cd_prefixlen cd_start6 cd_end6].
  destruct (be_val_parts _ Hs) as [Es Hsb]. destruct (be_val_parts _ Ha) as [Ea Hab]. rewrite Es, Ea.
  set (mask := if m <=? 64 then 18446744073709551615 else Z.shiftl 1 (128 - m) - 1).
  assert (∀ h, 0 ≤ h < 2 ^ 64 → wf_in6_addr (setaddr6part start6 h) ∧ addr6part (setaddr6part start6 h) = h ∧
    be_val (take 8 (setaddr6part start6 h)) = be_val (take 8 start6)) as Hset.
  { intros h Hh. destruct (addr6part_round_trip start6 h Hs Hh) as (H1 & H2 & H3 & _). by rewrite H3. }
  destruct (Z.leb_spec 64 m) as [H64|H64].
  - assert (mask = Z.shiftl 1 (128 - m) - 1) as -> by (unfold mask; destruct (Z.leb_spec m 64); [by assert (m = 64) as -> by lia|done]).
    destruct (block_range (addr6part addr) (addr6part start6) (128 - m) ltac:(lia)) as (Hr & El & Eh).
    pose proof (Z.div_mod (addr6part start6) (2 ^ (128 - m))). pose proof (Z.mod_pos_bound (addr6part start6) (2 ^ (128 - m))).
    destruct (parts_div 0 (addr6part start6) (128 - m) ltac:(lia) Hsb) as [_ Hq]. pose proof (Z.pow_pos_nonneg 2 (128 - m) ltac:(lia) ltac:(lia)).
    assert (2 ^ 64 = 2 ^ (64 - (128 - m)) * 2 ^ (128 - m)) as E2 by (rewrite <- Z.pow_add_r by lia; f_equal; lia).
    rewrite <- (lor_ldiff (addr6part start6)). set (lo := Z.ldiff (addr6part start6) (Z.shiftl 1 (128 - m) - 1)) in *. set (hi := Z.lor lo (Z.shiftl 1 (128 - m) - 1)) in *.
    assert (0 ≤ lo < 2 ^ 64) as Hlo by (rewrite El; nia). assert (0 ≤ hi < 2 ^ 64) as Hhi by (rewrite Eh; nia).
    destruct (Hset lo Hlo) as (W1 & P1 & T1). destruct (Hset hi Hhi) as (_ & P2 & _).
    rewrite P1, P2. rewrite <- andb_assoc, Hr. rewrite parts_eqb by lia. f_equal.
    rewrite is_same_net6_correct by (done || lia). destruct (be_val_parts _ W1) as [-> Hw1]. rewrite Ea, T1. change (128 - 64) with 64.
    rewrite !parts_high by lia. change (2 ^ (64 - 64)) with 1. by rewrite !Z.div_1_r.
  - destruct (Z.leb_spec 64 m); [lia|]. assert (mask = Z.ones 64) as -> by (unfold mask; by rewrite (proj2 (Z.leb_le m 64)) by lia).
    rewrite Z.ldiff_ones_r, Z.shiftr_div_pow2, Z.div_small by lia. change (Z.shiftl 0 64) with 0. destruct (Hset 0 ltac:(lia)) as (W1 & P1 & T1).
    rewrite is_same_net6_correct by (done || lia). destruct (be_val_parts _ W1) as [-> Hw1]. rewrite Ea, T1. by rewrite !parts_high by lia.
Qed.

Lemma match_cidr4 domain start m addr c :
  wf_in_addr start → wf_in_addr addr → 1 ≤ m ≤ 32 → cond_cidr4 domain start m = Ok c →
  match_domain addr c = Ok (ntohl addr / 2 ^ (32 - m) =? ntohl start / 2 ^ (32 - m)).
Proof.
  intros Hs Ha Hm. unfold cond_cidr4. rewrite (proj2 (Z.ltb_ge 32 m)), (proj2 (Z.leb_gt m 0)) by lia. cbv zeta. intros [= <-].
  unfold match_domain. cbn [cd_interface cd_is6 cd_start cd_end negb andb]. f_equal. pose proof (wf_in_addr_val _ Hs) as Hsv. pose proof (wf_in_addr_val _ Ha).
  destruct (block_range (ntohl addr) (ntohl start) (32 - m) ltac:(lia)) as (Hr & El & Eh). rewrite <- Hr.
  pose proof (Z.pow_pos_nonneg 2 (32 - m) ltac:(lia) ltac:(lia)). pose proof (Z.pow_pos_nonneg 2 m ltac:(lia) ltac:(lia)).
  assert (2 ^ 32 = 2 ^ m * 2 ^ (32 - m)) as E2 by (rewrite <- Z.pow_add_r by lia; f_equal; lia).
  assert (0 ≤ ntohl start / 2 ^ (32 - m) < 2 ^ m) as Hq by (split; [apply Z.div_pos; lia|apply Z.div_lt_upper_bound; lia]).
  set (lo := Z.ldiff (ntohl start) (Z.shiftl 1 (32 - m) - 1)) in *. assert (0 ≤ lo < 2 ^ 32) as Hlo by (rewrite El; nia).
  assert (ntohl (htonl lo) = lo) as Elo by (apply be_val_bytes; exact Hlo). rewrite Elo.
  set (hi := Z.lor lo (Z.shiftl 1 (32 - m) - 1)) in *. assert (0 ≤ hi < 2 ^ 32) as Hhi by (rewrite Eh; nia).
  assert (ntohl (htonl hi) = hi) as -> by (apply be_val_bytes; exact Hhi). done.
Qed.

(** A domain configured with a network has exactly the addresses with that
    prefix, for both families; the network may be written with any of its
    addresses. *)
Theorem network_domain_correct domain start m start6 m6 addr addr6 :
  wf_in_addr start → wf_in_addr addr → 1 ≤ m ≤ 32 → wf_in6_addr start6 → wf_in6_addr addr6 → 0 ≤ m6 ≤ 128 →
  (∃ c, cond_cidr4 domain start m = Ok c ∧ match_domain addr c = Ok (ntohl addr / 2 ^ (32 - m) =? ntohl start / 2 ^ (32 - m))) ∧
  (∃ c, cond_cidr6 domain start6 m6 = Ok c ∧ match_domain6 addr6 c = (be_val addr6 / 2 ^ (128 - m6) =? be_val start6 / 2 ^ (128 - m6))).
Proof.
  intros Hs Ha Hm Hs6 Ha6 Hm6. split.
  - pose proof (match_cidr4 domain start m addr) as H. unfold cond_cidr4 in *. rewrite (proj2 (Z.ltb_ge 32 m)), (proj2 (Z.leb_gt m 0)) in * by lia.
    eexists. split; [done|]. by apply H.
  - pose proof (match_cidr6 domain start6 m6 addr6) as H. unfold cond_cidr6 in *. rewrite (proj2 (Z.ltb_ge 128 m6)) in * by lia.
    eexists. split; [done|]. by apply H.
Qed.

Lemma network_domain_correct_witness :
  (∃ c, cond_cidr4 [108; 97; 110] [192; 0; 2; 77] 20 = Ok c ∧
     match_domain [192; 0; 15; 1] c = Ok (ntohl [192; 0; 15; 1] / 2 ^ (32 - 20) =? ntohl [192; 0; 2; 77] / 2 ^ (32 - 20))) ∧
  (∃ c, cond_cidr6 [108; 97; 110] (32 :: replicate 15 1) 72 = Ok c ∧
     match_domain6 (32 :: replicate 15 2) c = (be_val (32 :: replicate 15 2) / 2 ^ (128 - 72) =? be_val (32 :: replicate 15 1) / 2 ^ (128 - 72))).
Proof.
  apply network_domain_correct; try lia; split; try done; by apply bytes_forallb.
Defined.

(** A domain configured with a first and a last IPv6 address has every IPv6
    address: its prefix length is 0, which match_domain6 takes for a network. *)
Lemma range6_matches_all domain start6 end6 addr : match_domain6 addr (cond_range6 domain start6 end6) = true.
Proof. done. Qed.
