(* ===== verification/Tftp.v ===== *)
(** Packets and blocks of the TFTP server (src/src/tftp.c): reading requests,
    making the blocks of a transfer and stepping it on acknowledgements.

    A packet that is sent is the list of its bytes; the buffer it is made in has
    room for [blocksize + 4] bytes, which is how blocksize is chosen. *)
From Stdlib Require Import Ascii String.
From S2P Require Import Prelude Hostname SynthDomain.

Definition OP_RRQ : Z := 1.
Definition OP_DATA : Z := 3.
Definition OP_ACK : Z := 4.
Definition OP_ERR : Z := 5.
Definition OP_OACK : Z := 6.
Definition ERR_NOTDEF : Z := 0.
Definition ERR_FNF : Z := 1.
Definition ERR_PERM : Z := 2.
Definition ERR_ILL : Z := 4.
Definition ERR_TID : Z := 5.
Definition MAXMESSAGE : Z := 500.
Definition LF : Z := 10.
Definition CR : Z := 13.

(** A field of two bytes in network order. *)
Definition htons (v : Z) : list Z := [u8 (Z.shiftr v 8); u8 v].
Definition ntohs_at (packet : list Z) (i : Z) : res Z := a ← rd packet i; b ← rd packet (i + 1); Ok (Z.lor (Z.shiftl a 8) b).

(** * Requests *)

(** The string at [p]: its bytes before the terminator. *)
Fixpoint strlen_at (fuel : nat) (packet : list Z) (p : Z) : res Z :=
  match fuel with
  | O => NoFuel
  | S fuel => c ← rd packet p; if c =? 0 then Ok 0 else n ← strlen_at fuel packet (p + 1); Ok (n + 1)
  end.
Definition string_at (packet : list Z) (p len : Z) : cstring := take (Z.to_nat len) (drop (Z.to_nat p) packet).

(** The next string before [end_] and where to go on; None at the end. The
    packet has [end_] bytes, so that a string has fewer. *)
Definition next (packet : list Z) (p end_ : Z) : res (option (cstring * Z)) :=
  c ← rd packet (end_ - 1);
  if negb (c =? 0) || (p =? end_) then Ok None
  else
    len ← strlen_at (S (Z.to_nat end_)) packet p;
    if len =? 0 then Ok None else Ok (Some (string_at packet p len, p + len + 1)).

Definition isprint (c : Z) : bool := (32 <=? c) && (c <=? 126).
Definition sanitise (s : cstring) : cstring := filter (λ c, isprint c = true) s.

(** strcasecmp with 0. *)
Definition strcaseeq (a b : cstring) : bool := bool_decide (lower <$> a = lower <$> b).

(** * Transfers *)

(** struct tftp_transfer without its addresses and socket. *)
Record transfer := Transfer {
  timeout : Z; backoff : Z; block : Z; blocksize : Z; expansion : Z; offset : Z;
  opt_blocksize : bool; opt_transize : bool; netascii : bool; carrylf : bool }.

Definition with_timer (t : transfer) (timeout backoff : Z) : transfer :=
  Transfer timeout backoff (block t) (blocksize t) (expansion t) (offset t) (opt_blocksize t) (opt_transize t) (netascii t) (carrylf t).
Definition with_place (t : transfer) (block offset : Z) : transfer :=
  Transfer (timeout t) (backoff t) block (blocksize t) (expansion t) offset (opt_blocksize t) (opt_transize t) (netascii t) (carrylf t).
Definition with_lf (t : transfer) (expansion : Z) (carrylf : bool) : transfer :=
  Transfer (timeout t) (backoff t) (block t) (blocksize t) expansion (offset t) (opt_blocksize t) (opt_transize t) (netascii t) carrylf.

(** A transfer as a request starts it; [junk] is what malloc left in expansion. *)
Definition new_transfer (now junk : Z) : transfer := Transfer (now + 2) 1 1 512 junk 0 false false false false.

(** atoi of any string: white space, a sign and digits. Numbers that are no int
    are not defined by the C standard: [big] says what comes of them. *)
Definition isspace (c : Z) : bool := (c =? 32) || ((9 <=? c) && (c <=? 13)).
Fixpoint skip_space (s : cstring) : cstring := match s with c :: s' => if isspace c then skip_space s' else s | [] => [] end.
Definition signed_atoi (big : cstring → Z) (s : cstring) : Z :=
  let s' := skip_space s in
  let '(neg, digits) := match s' with c :: r => if c =? 45 then (true, r) else if c =? 43 then (false, r) else (false, s') | [] => (false, []) end in
  let n := if neg : bool then - digits_val 0 digits else digits_val 0 digits in
  if (-2147483648 <=? n) && (n <=? 2147483647) then n else big s.

Section request.
Context (big : cstring → Z) (noblock family6 : bool) (mtu buff : Z).

(** The option blksize; [buff] is daemon->packet_buff_sz, [noblock] the option
    OPT_TFTP_NOBLOCK. *)
Definition set_blksize (opt : cstring) (t : transfer) : transfer :=
  let overhead := if family6 then 52 else 32 in
  let b := u32 (signed_atoi big opt) in
  let b := if b <? 1 then 1 else b in
  let b := if u32 (u32 buff - 4) <? b then u32 (u32 buff - 4) else b in
  let b := if negb (mtu =? 0) && (u32 (u32 mtu - overhead) <? b) then u32 (u32 mtu - overhead) else b in
  Transfer (timeout t) (backoff t) 0 b (expansion t) (offset t) true (opt_transize t) (netascii t) (carrylf t).
Definition set_tsize (t : transfer) : transfer :=
  Transfer (timeout t) (backoff t) 0 (blocksize t) (expansion t) (offset t) (opt_blocksize t) true (netascii t) (carrylf t).

(** The options from [p] on. Each turn takes at least two bytes. *)
Fixpoint parse_options (fuel : nat) (packet : list Z) (p end_ : Z) (t : transfer) : res transfer :=
  match fuel with
  | O => NoFuel
  | S fuel =>
      o ← next packet p end_;
      match o with
      | None => Ok t
      | Some (opt, p) =>
          if strcaseeq opt (chars "blksize") then
            v ← next packet p end_;
            match v with
            | Some (opt, p) => parse_options fuel packet p end_ (if noblock then t else set_blksize opt t)
            | None => parse_options fuel packet p end_ t
            end
          else if strcaseeq opt (chars "tsize") then
            v ← next packet p end_;
            match v with
            | Some (_, p) => parse_options fuel packet p end_ (if netascii t then t else set_tsize t)
            | None => parse_options fuel packet p end_ t
            end
          else parse_options fuel packet p end_ t
      end
  end.

(** A read request: file name, transfer and options; None is a request that is
    not supported. [t] is the new transfer. *)
Definition parse_request (packet : list Z) (t : transfer) : res (option (cstring * transfer)) :=
  let end_ := zlen packet in
  op ← ntohs_at packet 0;
  if negb (op =? OP_RRQ) then Ok None
  else
    f ← next packet 2 end_;
    match f with
    | None => Ok None
    | Some (filename, p) =>
        md ← next packet p end_;
        match md with
        | None => Ok None
        | Some (mode, p) =>
            if negb (strcaseeq mode (chars "octet")) && negb (strcaseeq mode (chars "netascii")) then Ok None
            else
              let t := Transfer (timeout t) (backoff t) (block t) (blocksize t) (expansion t) (offset t) (opt_blocksize t) (opt_transize t)
                         (strcaseeq mode (chars "netascii")) (carrylf t) in
              t ← parse_options (S (Z.to_nat end_)) packet p end_ t;
              Ok (Some (filename, t))
        end
    end.
End request.

(** * Error packets *)

(** The message is cut to MAXMESSAGE bytes with its terminator. *)
Definition tftp_err (err : Z) (message : cstring) : list Z :=
  htons OP_ERR ++ htons err ++ take (Z.to_nat (MAXMESSAGE - 1)) message ++ [0].

(** * Blocks *)

(** The expansion of line feeds in the [size] bytes [data], from [i] on: the data,
    its size, the number of line feeds expanded and whether the last one is
    carried to the next block. *)
Fixpoint expand_loop (fuel : nat) (bsize : Z) (carry : bool) (data : list Z) (i expn : Z) (newcarry : bool) : res (list Z * Z * bool) :=
  match fuel with
  | O => NoFuel
  | S fuel =>
      if i <? zlen data then
        c ← rd data i;
        if (c =? LF) && (negb (i =? 0) || negb carry) then
          let room := negb (zlen data =? bsize) in
          let newcarry := if room then newcarry else if i =? zlen data - 1 then true else newcarry in
          let n := if room then length data else (length data - 1)%nat in
          (* memmove within the block, then the CR *)
          let data := take (Z.to_nat i) data ++ CR :: drop (Z.to_nat i) (take n data) in
          expand_loop fuel bsize carry data (i + 2) (expn + 1) newcarry
        else expand_loop fuel bsize carry data (i + 1) expn newcarry
      else Ok (data, expn, newcarry)
  end.

Definition zstring (s : string) : cstring := chars s ++ [0].

(** What a call of get_block gives: the packet and the transfer; Finished is the
    result 0 and Failed the result -1. [content] is the file as it can be read
    and [size] its size when it was opened. *)
Inductive block_result := Block (packet : list Z) | Finished | Failed.

Definition oack (t : transfer) (size : Z) : list Z :=
  htons OP_OACK ++ (if opt_blocksize t then zstring "blksize" ++ print_u (blocksize t) ++ [0] else []) ++
  (if opt_transize t then zstring "tsize" ++ print_u (u32 size) ++ [0] else []).

Definition get_block (content : list Z) (size : Z) (t : transfer) : res (block_result * transfer) :=
  if block t =? 0 then Ok (Block (oack t size), t)
  else if size <? offset t then Ok (Finished, t)
  else
    let n := Z.min (size - offset t) (blocksize t) in
    if (0 <? n) && (zlen content <? offset t + n) then Ok (Failed, t)
    else
      let data := take (Z.to_nat n) (drop (Z.to_nat (offset t)) content) in
      let head := htons OP_DATA ++ htons (u16 (block t)) in
      if netascii t then
        '(data, expn, newcarry) ← expand_loop (S (Z.to_nat (blocksize t))) (blocksize t) (carrylf t) data 0 0 false;
        Ok (Block (head ++ data), with_lf t expn newcarry)
      else Ok (Block (head ++ data), with_lf t 0 (carrylf t)).

(** * Acknowledgements *)

(** handle_tftp: an acknowledgement of the current block moves on, an error
    ends the transfer at the next chance. *)
Definition handle_tftp (now : Z) (packet : list Z) (t : transfer) : res transfer :=
  if zlen packet <? 4 then Ok t
  else
    op ← ntohs_at packet 0; blk ← ntohs_at packet 2;
    if (op =? OP_ACK) && (blk =? u16 (block t)) then
      let t := with_timer t now 0 in
      Ok (if block t =? 0 then with_place t 1 (offset t) else with_place t (u32 (block t + 1)) (offset t + u32 (blocksize t - expansion t)))
    else if op =? OP_ERR then _ ← next packet 4 (zlen packet); Ok (with_timer t now 100)
    else Ok t.
