(* ===== verification/TftpSpec.v ===== *)
(** TFTP transfers: requests are read within the packet and give blocks that fit
    the buffer, and a client that acknowledges every block receives the file. *)
From Stdlib Require Import Ascii String.
From S2P Require Import Prelude Hostname WireSafe SynthDomain Tftp.

(** * Line feeds *)

(** Text with every line feed as CR LF; with [carry] the CR of a leading line
    feed has been sent already. *)
Definition crlf (s : list Z) : list Z := concat ((λ c, if c =? LF then [CR; LF] else [c]) <$> s).
Definition crlfc (carry : bool) (s : list Z) : list Z :=
  match s with c :: r => if carry && (c =? LF) then LF :: crlf r else crlf s | [] => [] end.

Lemma crlf_cons c s : crlf (c :: s) = (if c =? LF then [CR; LF] else [c]) ++ crlf s.
Proof. done. Qed.
Lemma crlfc_false s : crlfc false s = crlf s.
Proof. by destruct s. Qed.

(** A block of at most [room] bytes: the bytes, the number of CRs added, whether
    it ends between a CR and its LF, and what is left of the text. *)
Fixpoint chunk (room : nat) (carry : bool) (s : list Z) : list Z * Z * bool * list Z :=
  match room, s with
  | O, _ => ([], 0, false, s)
  | S _, [] => ([], 0, false, [])
  | S room, c :: r =>
      if (c =? LF) && negb carry then
        match room with
        | O => ([CR], 1, true, s)
        | S room => let '(o, x, nc, r) := chunk room false r in (CR :: LF :: o, x + 1, nc, r)
        end
      else let '(o, x, nc, r) := chunk room false r in (c :: o, x, nc, r)
  end.

Lemma chunk_spec room carry s o x nc r :
  chunk room carry s = (o, x, nc, r) → (0 < room)%nat ∨ carry = false →
  crlfc carry s = o ++ crlfc nc r ∧ (length o ≤ room)%nat ∧ (length o = room ∨ r = [] ∧ nc = false) ∧ 0 ≤ x ≤ zlen o ∧
  r = drop (Z.to_nat (zlen o - x)) s ∧ zlen s = zlen r + (zlen o - x).
Proof.
  revert carry s o x nc r. induction (lt_wf room) as [room _ IH]. intros carry s o x nc r E Hr. destruct room as [|room].
  { destruct Hr as [| ->]; [lia|]. cbn [chunk] in E. injection E as <- <- <- <-. change (zlen (@nil Z)) with 0. split_and!; try done; try lia; auto. }
  destruct s as [|c s]; cbn [chunk] in E.
  { injection E as <- <- <- <-. change (zlen (@nil Z)) with 0. cbn [length]. split_and!; try done; try lia; auto with lia. }
  destruct ((c =? LF) && negb carry) eqn:Ec.
  - apply andb_true_iff in Ec as [->%Z.eqb_eq ->%negb_true_iff]. rewrite crlfc_false, crlf_cons. change (LF =? LF) with true. destruct room as [|room].
    + injection E as <- <- <- <-. change (zlen [CR]) with 1. split_and!; try done; try lia; auto.
    + destruct (chunk room false s) as [[[o' x'] nc'] r'] eqn:E'. injection E as <- <- <- <-.
      destruct (IH room ltac:(lia) false s o' x' nc' r' E' ltac:(by right)) as (H1 & H2 & H3 & H4 & H5 & H6). rewrite crlfc_false in H1.
      rewrite !zlen_cons in *. cbn [length]. split_and!; try lia.
      * by rewrite H1.
      * destruct H3 as [|]; [left; lia|by right].
      * replace (1 + (1 + zlen o') - (x' + 1)) with (1 + (zlen o' - x')) by lia. rewrite Z2Nat.inj_add by lia. exact H5.
  - destruct (chunk room false s) as [[[o' x'] nc'] r'] eqn:E'. injection E as <- <- <- <-.
    destruct (IH room ltac:(lia) false s o' x' nc' r' E' ltac:(by right)) as (H1 & H2 & H3 & H4 & H5 & H6). rewrite crlfc_false in H1.
    rewrite !zlen_cons in *. cbn [length]. split_and!; try lia.
    + cbn [crlfc]. rewrite crlf_cons, H1. destruct (Z.eqb_spec c LF) as [->|]; [|by rewrite andb_false_r]. by destruct carry.
    + destruct H3 as [|]; [left; lia|by right].
    + replace (1 + zlen o' - x') with (1 + (zlen o' - x')) by lia. rewrite Z2Nat.inj_add by lia. exact H5.
Qed.

Lemma rd_at_length (a : list Z) c b : rd (a ++ c :: b) (zlen a) = Ok c.
Proof. replace (zlen a) with (zlen a + 0) by lia. by rewrite rd_app_r by lia. Qed.

(** Making space at the end of [pre] for a CR, within [n] more bytes. *)
Lemma insert_cr pre t n i :
  i = zlen pre → take (Z.to_nat i) (pre ++ t) ++ CR :: drop (Z.to_nat i) (take (length pre + n) (pre ++ t)) = pre ++ CR :: take n t.
Proof.
  intros ->. unfold zlen. rewrite Nat2Z.id, take_app_length. do 2 f_equal. rewrite take_app_add. by rewrite drop_app_length.
Qed.

(** The loop of get_block makes the block: [pre] has been made and [s] is the text
    from there on. *)
Lemma expand_loop_chunk fuel (bsize : nat) carry pre s expn o x nc r :
  (length pre ≤ bsize)%nat → (bsize - length pre < fuel)%nat → chunk (bsize - length pre) (carry && (zlen pre =? 0)) s = (o, x, nc, r) →
  expand_loop fuel (Z.of_nat bsize) carry (pre ++ take (bsize - length pre) s) (zlen pre) expn false = Ok (pre ++ o, expn + x, nc).
Proof.
  revert pre s expn o x nc r. induction fuel as [|fuel IH]; intros pre s expn o x nc r Hp Hf E; [lia|]. cbn [expand_loop]. rewrite zlen_app.
  destruct (bsize - length pre)%nat as [|room] eqn:Er; [|destruct s as [|c s]]; cbn [take chunk] in *.
  - injection E as <- <- <- <-. change (zlen (@nil Z)) with 0. rewrite Z.add_0_r, Z.ltb_irrefl. by rewrite Z.add_0_r.
  - injection E as <- <- <- <-. change (zlen (@nil Z)) with 0. rewrite Z.add_0_r, Z.ltb_irrefl. by rewrite Z.add_0_r.
  - rewrite zlen_cons. pose proof (zlen_nonneg (take room s)). rewrite (proj2 (Z.ltb_lt (zlen pre) _)) by lia. rewrite rd_at_length. cbn [mbind res_bind].
    rewrite negb_andb in E. replace (negb (zlen pre =? 0) || negb carry) with (negb carry || negb (zlen pre =? 0)) by apply orb_comm.
    assert (Z.of_nat bsize = zlen pre + 1 + Z.of_nat room) as Eb by (unfold zlen; lia).
    destruct ((c =? LF) && (negb carry || negb (zlen pre =? 0))) eqn:Ec.
    + apply andb_true_iff in Ec as [->%Z.eqb_eq _].
      assert (∀ room', room = S room' → expand_loop fuel (Z.of_nat bsize) carry ((pre ++ [CR; LF]) ++ take room' s) (zlen pre + 2) (expn + 1) false =
        Ok (pre ++ o, expn + x, nc)) as Hgo.
      { intros room' ->. destruct (chunk room' false s) as [[[o' x'] nc'] r'] eqn:E'. injection E as <- <- <- <-.
        replace (zlen pre + 2) with (zlen (pre ++ [CR; LF])) by (rewrite zlen_app; done). replace room' with (bsize - length (pre ++ [CR; LF]))%nat by (rewrite length_app; cbn [length]; lia).
        rewrite (IH (pre ++ [CR; LF]) s (expn + 1) o' x' nc' r'); [|rewrite length_app; cbn [length]; lia|rewrite length_app; cbn [length]; lia|].
        - rewrite <- app_assoc. do 3 f_equal. lia.
        - rewrite zlen_app. change (zlen [CR; LF]) with 2. rewrite (proj2 (Z.eqb_neq _ 0)) by (pose proof (zlen_nonneg pre); lia). rewrite andb_false_r.
          by replace (bsize - length (pre ++ [CR; LF]))%nat with room' by (rewrite length_app; cbn [length]; lia). }
      destruct (Z.eqb_spec (zlen pre + (1 + zlen (take room s))) (Z.of_nat bsize)) as [Hfull|Hroom]; cbn [negb].
      * replace (length (pre ++ LF :: take room s) - 1)%nat with (length pre + room)%nat
          by (rewrite length_app; cbn [length]; unfold zlen in *; lia).
        rewrite (insert_cr pre (LF :: take room s) room) by done. destruct room as [|room'].
        { injection E as <- <- <- <-. cbn [take]. change (zlen (@nil Z)) with 0. rewrite (proj2 (Z.eqb_eq (zlen pre) _)) by lia.
          destruct fuel as [|fuel]; [lia|]. cbn [expand_loop]. rewrite zlen_app. change (zlen [CR]) with 1. by rewrite (proj2 (Z.ltb_ge _ _)) by lia. }
        rewrite (proj2 (Z.eqb_neq (zlen pre) _)) by lia. cbn [take]. rewrite take_take, Nat.min_l by lia.
        specialize (Hgo room' eq_refl). rewrite <- app_assoc in Hgo. exact Hgo.
      * replace (length (pre ++ LF :: take room s)) with (length pre + S (length (take room s)))%nat by (rewrite length_app; done).
        rewrite (insert_cr pre (LF :: take room s) (S (length (take room s)))) by done. cbn [take]. rewrite take_ge by done.
        assert (length s < room)%nat as Hs by (unfold zlen in *; rewrite length_take in *; lia).
        destruct room as [|room']; [lia|]. specialize (Hgo room' eq_refl). rewrite (take_ge s) in * by lia. rewrite <- app_assoc in Hgo. exact Hgo.
    + destruct (chunk room false s) as [[[o' x'] nc'] r'] eqn:E'. injection E as <- <- <- <-.
      replace (pre ++ c :: take room s) with ((pre ++ [c]) ++ take (bsize - length (pre ++ [c])) s)
        by (rewrite <- app_assoc; cbn [app]; do 3 f_equal; rewrite length_app; cbn [length]; lia).
      replace (zlen pre + 1) with (zlen (pre ++ [c])) by (rewrite zlen_app; done).
      rewrite (IH (pre ++ [c]) s expn o' x' nc' r'); [by rewrite <- app_assoc|rewrite length_app; cbn [length]; lia|rewrite length_app; cbn [length]; lia|].
      rewrite zlen_app. change (zlen [c]) with 1. rewrite (proj2 (Z.eqb_neq _ 0)) by (pose proof (zlen_nonneg pre); lia). rewrite andb_false_r.
      by replace (bsize - length (pre ++ [c]))%nat with room by (rewrite length_app; cbn [length]; lia).
Qed.

(** * Blocks *)

(** What is still to be sent of the file [content]. *)
Definition view (content : list Z) (t : transfer) : list Z :=
  let rest := drop (Z.to_nat (offset t)) content in if netascii t then crlfc (carrylf t) rest else rest.

(** A transfer in the middle of the file. *)
Record sending (content : list Z) (t : transfer) : Prop := {
  se_block : 0 < block t < 4294967296;
  se_size : 1 ≤ blocksize t < 4294967296;
  se_offset : 0 ≤ offset t ≤ zlen content
}.

(** After the block [data] of a transfer: the place of the next one. *)
Definition moved_on (t t' : transfer) (d : Z) : Prop :=
  timeout t' = timeout t ∧ backoff t' = backoff t ∧ block t' = block t ∧ blocksize t' = blocksize t ∧ offset t' = offset t ∧ netascii t' = netascii t ∧
  opt_blocksize t' = opt_blocksize t ∧ opt_transize t' = opt_transize t ∧ u32 (blocksize t' - expansion t') = d.

Lemma zlen_drop {A} (l : list A) n : 0 ≤ n ≤ zlen l → zlen (drop (Z.to_nat n) l) = zlen l - n.
Proof. unfold zlen. rewrite length_drop. lia. Qed.
Lemma zlen_take {A} (l : list A) n : 0 ≤ n → zlen (take (Z.to_nat n) l) = Z.min n (zlen l).
Proof. unfold zlen. rewrite length_take. lia. Qed.

Lemma get_block_data content t :
  sending content t →
  ∃ t' d, get_block content (zlen content) t =
      Ok (Block (htons OP_DATA ++ htons (u16 (block t)) ++ take (Z.to_nat (blocksize t)) (view content t)), t') ∧ moved_on t t' d ∧
    (if blocksize t <=? zlen (view content t)
     then offset t + d ≤ zlen content ∧ 0 ≤ d ∧ view content (with_place t' (block t) (offset t + d)) = drop (Z.to_nat (blocksize t)) (view content t)
     else zlen content < offset t + d).
Proof.
  intros [Hb Hs Ho]. unfold get_block. rewrite (proj2 (Z.eqb_neq (block t) 0)), (proj2 (Z.ltb_ge (zlen content) (offset t))) by lia.
  set (rest := drop (Z.to_nat (offset t)) content). assert (zlen rest = zlen content - offset t) as Hrest by (apply zlen_drop; lia). cbv zeta.
  rewrite (proj2 (Z.ltb_ge (zlen content) (offset t + _))), andb_false_r by lia.
  assert (take (Z.to_nat (Z.min (zlen content - offset t) (blocksize t))) rest = take (Z.to_nat (blocksize t)) rest) as Etake.
  { destruct (Z.min_spec (zlen content - offset t) (blocksize t)) as [[? ->]|[? ->]]; [|done]. rewrite !take_ge; [done|unfold zlen in *; lia..]. }
  rewrite Etake. unfold view. fold rest. destruct (netascii t) eqn:En.
  - destruct (chunk (Z.to_nat (blocksize t)) (carrylf t) rest) as [[[o x] nc] r] eqn:E.
    destruct (chunk_spec _ _ _ _ _ _ _ E) as (H1 & H2 & H3 & H4 & H5 & H6); [left; lia|].
    pose proof (expand_loop_chunk (S (Z.to_nat (blocksize t))) (Z.to_nat (blocksize t)) (carrylf t) [] rest 0 o x nc r) as HL.
    cbn [length app] in HL. rewrite Nat.sub_0_r in HL. change (zlen (@nil Z)) with 0 in HL. rewrite andb_true_r in HL. rewrite Z2Nat.id in HL by lia.
    rewrite HL by (done || lia). cbn [mbind res_bind]. exists (with_lf t x nc), (blocksize t - x).
    assert (u32 (blocksize t - x) = blocksize t - x) as Eu by (unfold u32; apply Z.mod_small; unfold zlen in *; lia).
    assert (take (Z.to_nat (blocksize t)) (crlfc (carrylf t) rest) = o) as Eo.
    { rewrite H1. destruct H3 as [<-|[-> ->]]; [by rewrite take_app_length|]. cbn [crlfc]. rewrite app_nil_r. apply take_ge. lia. }
    rewrite Eo. split; [by rewrite <- app_assoc|]. split; [by split_and!|]. rewrite H1, zlen_app. pose proof (zlen_nonneg (crlfc nc r)).
    destruct H3 as [Hlen|[-> ->]].
    + assert (zlen o = blocksize t) as Ho' by (unfold zlen; lia). rewrite (proj2 (Z.leb_le _ _)) by lia. pose proof (zlen_nonneg r).
      split; [lia|]. split; [lia|]. cbn. rewrite En. rewrite <- Hlen, drop_app_length.
      f_equal. unfold rest in H5. rewrite drop_drop in H5. rewrite H5. f_equal. lia.
    + change (crlfc false []) with (@nil Z). change (zlen (@nil Z)) with 0 in *. destruct (Z.leb_spec (blocksize t) (zlen o + 0)); [|lia].
      assert (zlen o = blocksize t) as Ho' by (unfold zlen in *; lia). split; [lia|]. split; [lia|]. cbn. rewrite En, app_nil_r.
      rewrite !drop_ge by (unfold zlen in *; lia). done.
  - exists (with_lf t 0 (carrylf t)), (blocksize t). rewrite <- app_assoc. split; [done|].
    assert (u32 (blocksize t - 0) = blocksize t) as Eu by (unfold u32; rewrite Z.mod_small; lia). split; [by split_and!|]. rewrite Hrest.
    destruct (Z.leb_spec (blocksize t) (zlen content - offset t)); [|lia]. split; [lia|]. split; [lia|]. cbn. rewrite En. unfold rest. rewrite drop_drop. f_equal. lia.
Qed.

(** * A whole transfer *)

(** A client that acknowledges every packet, and the packets it receives. *)
Definition ack_of (packet : list Z) : list Z := htons OP_ACK ++ (if bool_decide (take 2 packet = htons OP_OACK) then [0; 0] else take 2 (drop 2 packet)).
Fixpoint serve (fuel : nat) (content : list Z) (now : Z) (t : transfer) : res (list (list Z)) :=
  match fuel with
  | O => NoFuel
  | S fuel =>
      '(r, t) ← get_block content (zlen content) t;
      match r with
      | Finished => Ok []
      | Failed => Bad
      | Block p => t ← handle_tftp now (ack_of p) t; ps ← serve fuel content now t; Ok (p :: ps)
      end
  end.

(** The data packets for [v]: numbered from [blk] on, full blocks and a last one
    that is not full. *)
Fixpoint frames (fuel : nat) (bsize blk : Z) (v : list Z) : list (list Z) :=
  match fuel with
  | O => []
  | S fuel => (htons OP_DATA ++ htons (u16 blk) ++ take (Z.to_nat bsize) v) ::
      if bsize <=? zlen v then frames fuel bsize (blk + 1) (drop (Z.to_nat bsize) v) else []
  end.

Lemma ntohs_htons v : 0 ≤ v < 65536 → Z.lor (Z.shiftl (u8 (Z.shiftr v 8)) 8) (u8 v) = v.
Proof.
  intros Hv. rewrite Z.shiftr_div_pow2 by lia. change (2 ^ 8) with 256. unfold u8. rewrite (Z.mod_small (v / 256)) by (split; [apply Z.div_pos|apply Z.div_lt_upper_bound]; lia).
  rewrite (lor_shiftl (v / 256) (v mod 256) 8) by (pose proof (Z.mod_pos_bound v 256); lia). change (2 ^ 8) with 256. pose proof (Z.div_mod v 256). lia.
Qed.

Lemma u16_range v : 0 ≤ u16 v < 65536.
Proof. unfold u16. apply Z.mod_pos_bound. lia. Qed.

Lemma ntohs_at_ack v : 0 ≤ v < 65536 → ntohs_at (htons OP_ACK ++ htons v) 0 = Ok OP_ACK ∧ ntohs_at (htons OP_ACK ++ htons v) 2 = Ok v.
Proof. intros Hv. split; [done|]. rewrite <- (ntohs_htons v Hv) at 2. done. Qed.

(** The acknowledgement of the block that was sent moves the transfer on. *)
Lemma handle_ack now t data :
  block t ≠ 0 →
  handle_tftp now (ack_of (htons OP_DATA ++ htons (u16 (block t)) ++ data)) t =
    Ok (with_place (with_timer t now 0) (u32 (block t + 1)) (offset t + u32 (blocksize t - expansion t))).
Proof.
  intros Hb. unfold ack_of. change (take 2 (htons OP_DATA ++ htons (u16 (block t)) ++ data)) with (htons OP_DATA). rewrite bool_decide_eq_false_2 by done.
  change (take 2 (drop 2 (htons OP_DATA ++ htons (u16 (block t)) ++ data))) with (htons (u16 (block t))). unfold handle_tftp.
  change (zlen (htons OP_ACK ++ htons (u16 (block t))) <? 4) with false. cbv iota. destruct (ntohs_at_ack (u16 (block t)) (u16_range _)) as [-> ->].
  cbn [mbind res_bind]. rewrite !Z.eqb_refl. cbn [andb block with_timer]. by rewrite (proj2 (Z.eqb_neq (block t) 0)).
Qed.

Lemma serve_frames fuel content now t :
  sending content t → zlen (view content t) < Z.of_nat fuel * blocksize t → block t + Z.of_nat fuel < 4294967296 →
  serve (S fuel) content now t = Ok (frames fuel (blocksize t) (block t) (view content t)).
Proof.
  revert t. induction fuel as [|fuel IH]; intros t Hs Hv Hw; [pose proof (zlen_nonneg (view content t)); lia|].
  destruct (get_block_data content t Hs) as (t1 & d & E & Haft & Hd). rewrite <- (Nat.add_1_l (S fuel)). cbn [Nat.add]. remember (S fuel) as fuel1.
  cbn [serve]. rewrite E. cbn [mbind res_bind]. destruct Haft as (Ht & Hbo & Hbl & Hbs & Hof & Hna & _ & _ & Hex).
  pose proof (handle_ack now t1 (take (Z.to_nat (blocksize t)) (view content t))) as Hh. rewrite Hbl in Hh. destruct Hs as [Hs1 Hs2 Hs3].
  rewrite Hh by lia. cbn [mbind res_bind]. rewrite Hof, Hex. clear Hh E. subst fuel1. cbn [frames].
  assert (u32 (block t + 1) = block t + 1) as Eu by (unfold u32; apply Z.mod_small; lia). rewrite Eu.
  set (t2 := with_place (with_timer t1 now 0) (block t + 1) (offset t + d)). destruct (Z.leb_spec (blocksize t) (zlen (view content t))) as [Hle|Hgt].
  - destruct Hd as (Hd1 & Hd2 & Hd3). assert (view content t2 = drop (Z.to_nat (blocksize t)) (view content t)) as Ev by exact Hd3.
    rewrite IH.
    + cbn [mbind res_bind]. rewrite Ev. unfold t2. cbn [block blocksize with_place with_timer]. by rewrite Hbs.
    + split; unfold t2; cbn; lia.
    + rewrite Ev. unfold t2. cbn [blocksize with_place with_timer]. rewrite Hbs, zlen_drop by lia. lia.
    + unfold t2. cbn [block with_place]. lia.
  - cbn [serve]. unfold get_block. unfold t2 at 1. cbn [block with_place]. rewrite (proj2 (Z.eqb_neq (block t + 1) 0)) by lia.
    unfold t2 at 1. cbn [offset with_place]. rewrite (proj2 (Z.ltb_lt _ _)) by lia. done.
Qed.

(** The data of the frames, their numbers and their sizes. *)
Record framed (bsize blk : Z) (v : list Z) (ps : list (list Z)) : Prop := {
  fr_data : concat (drop 4 <$> ps) = v;
  fr_head i p : ps !! i = Some p → take 4 p = htons OP_DATA ++ htons (u16 (blk + Z.of_nat i));
  fr_full i p : ps !! i = Some p → (S i < length ps)%nat → zlen p = bsize + 4;
  fr_last p : last ps = Some p → zlen p < bsize + 4
}.

Lemma frames_framed fuel bsize blk v : 1 ≤ bsize → zlen v < Z.of_nat fuel * bsize → framed bsize blk v (frames fuel bsize blk v).
Proof.
  intros Hb. revert blk v. induction fuel as [|fuel IH]; intros blk v Hv; [pose proof (zlen_nonneg v); lia|]. cbn [frames].
  set (head := htons OP_DATA ++ htons (u16 blk) ++ take (Z.to_nat bsize) v).
  assert (zlen head = 4 + Z.min bsize (zlen v)) as Hh by (unfold head; rewrite !zlen_app, zlen_take by lia; change (zlen (htons _)) with 2; lia).
  destruct (Z.leb_spec bsize (zlen v)) as [Hle|Hgt].
  - destruct (IH (blk + 1) (drop (Z.to_nat bsize) v)) as [H1 H2 H3 H4]; [rewrite zlen_drop; lia|].
    assert (frames fuel bsize (blk + 1) (drop (Z.to_nat bsize) v) ≠ []) as Hne.
    { destruct fuel as [|fuel]; [lia|done]. }
    split.
    + rewrite fmap_cons. cbn [concat]. rewrite H1. change (drop 4 head) with (take (Z.to_nat bsize) v). apply take_drop.
    + intros [|i] p Hp; cbn in Hp; [injection Hp as <-; by rewrite Z.add_0_r|]. rewrite (H2 i p Hp). do 3 f_equal. lia.
    + intros [|i] p Hp Hi; [change (Some head = Some p) in Hp; injection Hp as <-; lia|]. apply (H3 i p Hp). cbn [length] in Hi. lia.
    + intros p. destruct (frames fuel bsize (blk + 1) (drop (Z.to_nat bsize) v)) as [|f l] eqn:E; [done|]. rewrite last_cons_cons. apply H4.
  - split.
    + rewrite fmap_cons. cbn [concat fmap list_fmap]. change (drop 4 head) with (take (Z.to_nat bsize) v). rewrite app_nil_r. apply take_ge. unfold zlen in *. lia.
    + intros [|i] p Hp; cbn in Hp; [injection Hp as <-; by rewrite Z.add_0_r|done].
    + intros [|i] p Hp Hi; cbn [length] in Hi; lia.
    + change (last [head]) with (Some head). intros p [= <-]. lia.
Qed.

Definition text_of (t : transfer) (content : list Z) : list Z := if netascii t then crlf content else content.


(** * Requests *)

Lemma strlen_at_spec fuel packet p e :
  0 ≤ p < e → e ≤ zlen packet → rd packet (e - 1) = Ok 0 → e - p ≤ Z.of_nat fuel →
  twp (strlen_at fuel packet p) (λ n, 0 ≤ n ∧ p + n < e ∧ Forall (λ c, c ≠ 0) (string_at packet p n)).
Proof.
  intros Hp He Hz. revert p Hp. induction fuel as [|fuel IH]; intros p Hp Hf; [lia|]. cbn [strlen_at]. twp_step. apply twp_rd; [lia|]. intros c Ec _.
  destruct (Z.eqb_spec c 0) as [->|Hc]; [split; [lia|]; split; [lia|]; unfold string_at; by rewrite take_0|].
  assert (p + 1 < e) as Hp1 by (destruct (Z.eq_dec p (e - 1)) as [->|]; [congruence|lia]).
  twp_step. eapply twp_mono; [apply IH; lia|]. intros n (Hn & Hne & Hall). cbn. split; [lia|]. split; [lia|].
  unfold string_at in *. replace (Z.to_nat (n + 1)) with (S (Z.to_nat n)) by lia.
  apply rd_Ok in Ec as [Hp0 Ec]. rewrite (drop_S packet c (Z.to_nat p) Ec). cbn [take]. constructor; [done|].
  by replace (S (Z.to_nat p)) with (Z.to_nat (p + 1)) by lia.
Qed.

(** A string of a request, and the place after it. *)
Lemma next_spec packet p (Q : option (cstring * Z) → Prop) :
  0 ≤ p ≤ zlen packet → 0 < zlen packet →
  (∀ s p', p + 2 ≤ p' ≤ zlen packet → s ≠ [] → Forall (λ c, c ≠ 0) s → Q (Some (s, p'))) → Q None → twp (next packet p (zlen packet)) Q.
Proof.
  intros Hp Hl HQ Hn. unfold next. twp_step. apply twp_rd; [lia|]. intros c Ec _. destruct (Z.eqb_spec c 0) as [->|]; cbn [negb orb]; [|done].
  destruct (Z.eqb_spec p (zlen packet)) as [|Hne]; [done|]. twp_step.
  eapply twp_mono; [apply (strlen_at_spec _ packet p (zlen packet)); [lia|lia|done|lia]|]. intros n (H0 & Hlt & Hall).
  destruct (Z.eqb_spec n 0) as [->|]; [done|]. apply HQ; [lia| |done]. intros E. apply (f_equal length) in E. unfold string_at, zlen in *.
  rewrite length_take, length_drop in E. cbn in E. lia.
Qed.

(** Case analysis on comparisons, innermost first. *)
Ltac split_ltb :=
  repeat match goal with
  | |- context [Z.ltb ?a ?c] =>
      lazymatch a with context [Z.ltb _ _] => fail | _ => lazymatch c with context [Z.ltb _ _] => fail | _ => destruct (Z.ltb_spec a c) end end
  end.

Section request.
Context (big : cstring → Z) (noblock family6 : bool) (mtu buff : Z).
Hypothesis (Hbuff : 516 ≤ buff < 2147483648).

(** A transfer that can start: at the beginning, with blocks that fit. *)
Record ready (t : transfer) : Prop := {
  rd_block : block t = 0 ∨ block t = 1;
  rd_offset : offset t = 0;
  rd_carry : carrylf t = false;
  rd_backoff : 0 ≤ backoff t;
  rd_size : 0 ≤ blocksize t ≤ buff - 4;
  rd_pos : u32 mtu ≠ (if family6 then 52 else 32) → 1 ≤ blocksize t
}.

Lemma set_blksize_ready opt t : ready t → ready (set_blksize big family6 mtu buff opt t).
Proof.
  intros [H1 H2 H3 H6 H4 H5]. unfold set_blksize. assert (u32 (u32 buff - 4) = buff - 4) as -> by (unfold u32; rewrite (Z.mod_small buff), Z.mod_small; lia).
  set (b := u32 (signed_atoi big opt)). assert (0 ≤ b) as Hb by (apply Z.mod_pos_bound; lia).
  set (m := u32 (u32 mtu - (if family6 then 52 else 32))). assert (0 ≤ m) as Hm by (apply Z.mod_pos_bound; lia).
  assert (u32 mtu ≠ (if family6 then 52 else 32) → 1 ≤ m) as Hm1.
  { intros Hne. assert (m ≠ 0); [|lia]. unfold m, u32 in *. pose proof (Z.mod_pos_bound mtu 4294967296). intros E. apply Z.mod_divide in E as [q E]; [|lia].
    destruct family6; lia. }
  cbv zeta. split; cbn [block offset carrylf blocksize backoff]; [by left|done|done|done| |].
  - destruct (negb (mtu =? 0)); cbn [andb]; split_ltb; lia.
  - intros Hne. specialize (Hm1 Hne).
    destruct (negb (mtu =? 0)); cbn [andb]; split_ltb; lia.
Qed.

Lemma set_tsize_ready t : ready t → ready (set_tsize t).
Proof. intros [H1 H2 H3 H6 H4 H5]. split; cbn; auto. Qed.

Lemma parse_options_ok fuel packet p t :
  0 ≤ p ≤ zlen packet → 0 < zlen packet → zlen packet - p < Z.of_nat fuel → ready t →
  twp (parse_options big noblock family6 mtu buff fuel packet p (zlen packet) t) ready.
Proof.
  revert p t. induction fuel as [|fuel IH]; intros p t Hp Hl Hf Ht; [lia|]. cbn [parse_options]. twp_step. apply next_spec; [lia|lia| |done].
  intros opt p1 Hp1 _ _. destruct (strcaseeq opt (chars "blksize")).
  - twp_step. apply next_spec; [lia|lia| |].
    + intros v p2 Hp2 _ _. apply IH; [lia|lia|lia|]. destruct noblock; [done|by apply set_blksize_ready].
    + apply IH; [lia|lia|lia|done].
  - destruct (strcaseeq opt (chars "tsize")); [|apply IH; [lia|lia|lia|done]]. twp_step. apply next_spec; [lia|lia| |].
    + intros v p2 Hp2 _ _. apply IH; [lia|lia|lia|]. destruct (netascii t); [done|by apply set_tsize_ready].
    + apply IH; [lia|lia|lia|done].
Qed.

Lemma parse_request_ok packet now junk :
  2 ≤ zlen packet → twp (parse_request big noblock family6 mtu buff packet (new_transfer now junk))
    (λ r, match r with Some (f, t) => f ≠ [] ∧ Forall (λ c, c ≠ 0) f ∧ ready t | None => True end).
Proof.
  intros Hl. unfold parse_request, ntohs_at. twp_step. twp_step. apply twp_rd; [lia|]. intros a _ _. twp_step. apply twp_rd; [lia|]. intros b _ _. cbn beta iota.
  cbn [twp]. destruct (negb _); [done|]. twp_step. apply next_spec; [lia|lia| |done]. intros f p1 Hp1 Hf1 Hf2. cbn beta iota. twp_step.
  apply next_spec; [lia|lia| |done]. intros mode p2 Hp2 _ _. cbn beta iota. destruct (negb _ && negb _); [done|]. twp_step.
  eapply twp_mono; [apply parse_options_ok; [lia|lia|lia|]|].
  - split; cbn; [by right|done|done|lia|lia|lia].
  - intros t Ht. cbn. done.
Qed.
End request.
