(* ===== verification/TftpSrv.v ===== *)
(** The TFTP server (src/src/tftp.c): transfers, the files they share and the
    descriptors they hold, from the arrival of a request to the end of a transfer.

    System calls are arguments: what socket, bind, open, fstat and malloc give.
    Finding the interface and the prefix of a request is not modelled. Files
    have identities, as pointers to struct tftp_file; closing a descriptor that
    is not open and using a file that is gone are [Oob]. *)
From Stdlib Require Import Ascii String.
From stdpp Require Import gmap.
From S2P Require Import Prelude Hostname NetAddr SynthDomain Tftp.

(** struct tftp_file. *)
Record tfile := TFile { tf_fd : Z; tf_size : Z; tf_dev : Z; tf_ino : Z; tf_ref : Z; tf_name : cstring }.

(** The rest of struct tftp_transfer. *)
Record conn := Conn { c_t : transfer; c_sock : Z; c_peer : mysockaddr; c_file : option Z }.
Definition with_t (c : conn) (t : transfer) : conn := Conn t (c_sock c) (c_peer c) (c_file c).

(** daemon->tftp_trans, tftp_done_trans, the files and the open descriptors. *)
Record store := Store { files : gmap Z tfile; fds : gset Z }.
Record tftp_state := TftpState { trans : list conn; done_trans : list conn; st_store : store }.

(** The options and limits that count here. *)
Record tftp_cfg := TftpCfg {
  single_port : bool; noblock : bool; lc : bool; secure : bool; tftp_max : Z; buff_sz : Z; start_port : Z; end_port : Z; euid : Z;
  big : cstring → Z }.

(** * Files and descriptors *)

Definition close_desc (s : store) (fd : Z) : res store := if decide (fd ∈ fds s) then Ok (Store (files s) (fds s ∖ {[fd]})) else Oob.
Definition set_file (s : store) (id : Z) (f : tfile) : store := Store (<[id := f]> (files s)) (fds s).
Definition with_ref (f : tfile) (n : Z) : tfile := TFile (tf_fd f) (tf_size f) (tf_dev f) (tf_ino f) n (tf_name f).

Definition free_transfer (cfg : tftp_cfg) (s : store) (c : conn) : res store :=
  s ← (if single_port cfg then Ok s else close_desc s (c_sock c));
  match c_file c with
  | None => Ok s
  | Some id =>
      match files s !! id with
      | None => Oob
      | Some f =>
          if tf_ref f - 1 =? 0 then s ← close_desc s (tf_fd f); Ok (Store (delete id (files s)) (fds s))
          else Ok (set_file s id (with_ref f (tf_ref f - 1)))
      end
  end.

(** What fstat says. *)
Record statbuf := Stat { st_dev : Z; st_ino : Z; st_size : Z; st_uid : Z; st_iroth : bool }.
Inductive open_result := NotFound | NoAccess | OpenErr | Opened (fd : Z).

(** strstr with a result. *)
Fixpoint contains (s pat : cstring) : bool := isprefix pat s || match s with [] => false | _ :: s => contains s pat end.

(** A file that a transfer has open already. *)
Definition same_file (sb : statbuf) (name : cstring) (f : tfile) : bool :=
  (tf_dev f =? st_dev sb) && (tf_ino f =? st_ino sb) && bool_decide (tf_name f = name).
Fixpoint find_shared (s : store) (sb : statbuf) (name : cstring) (l : list conn) : res (option Z) :=
  match l with
  | [] => Ok None
  | c :: l =>
      match c_file c with
      | None => Oob
      | Some id =>
          match files s !! id with
          | None => Oob
          | Some f => if same_file sb name f then Ok (Some id) else find_shared s sb name l
          end
      end
  end.

(** Why a file is not given: the result that tells the error packet. *)
Inductive denied := FileNotFound | Permission | Oops.

(** [op] is the outcome of open, [sb] that of fstat, [mem] that of malloc, with
    the identity of the new file. The path is checked only when there is a
    prefix. *)
Definition check_tftp_fileperm (cfg : tftp_cfg) (l : list conn) (s : store) (has_prefix : bool) (name : cstring)
    (op : open_result) (sb : option statbuf) (mem : option Z) : res (store * (denied + Z)) :=
  if has_prefix && contains name (chars "/../") then Ok (s, inl Permission)
  else match op with
  | NotFound => Ok (s, inl FileNotFound)
  | NoAccess => Ok (s, inl Permission)
  | OpenErr => Ok (s, inl Oops)
  | Opened fd =>
      let s := Store (files s) (fds s ∪ {[fd]}) in
      let fail why := s ← close_desc s fd; Ok (s, inl why) in
      match sb with
      | None => fail Oops
      | Some sb =>
          if (if euid cfg =? 0 then negb (st_iroth sb) else secure cfg && negb (euid cfg =? st_uid sb)) then fail Permission
          else
            sh ← find_shared s sb name l;
            match sh with
            | Some id =>
                match files s !! id with
                | Some f => s ← close_desc s fd; Ok (set_file s id (with_ref f (tf_ref f + 1)), inr id)
                | None => Oob
                end
            | None =>
                match mem with
                | None => fail Oops
                | Some id => Ok (set_file s id (TFile fd (st_size sb) (st_dev sb) (st_ino sb) 1 name), inr id)
                end
            end
      end
  end.

(** * Paths *)

(** strncat into an array of MAXDNAME bytes, with room for the terminator. *)
Definition ncat (buf s : cstring) : cstring := buf ++ take (Z.to_nat (MAXDNAME - 1 - strlen buf)) s.

Definition slash : Z := 47.
Definition fix_name (lc : bool) (f : cstring) : cstring := (λ c, if c =? 92 then slash else if lc then lower c else c) <$> f.

(** The directory of a client, by address and by hardware address, kept when it
    exists. *)
Definition unique_ip (isdir : cstring → bool) (buf : cstring) (dir : option cstring) : cstring :=
  match dir with
  | None => buf
  | Some d => let b := ncat (ncat buf d) [slash] in if isdir b then b else buf
  end.
Definition unique_mac (isdir : cstring → bool) (buf : cstring) (dir : option cstring) : cstring :=
  match dir with
  | None => buf
  | Some d => let b := buf ++ take (Z.to_nat (MAXDNAME - 2 - strlen buf)) (d ++ [slash]) in if isdir b then b else buf
  end.

(** The prefix with its slashes; an empty prefix is read before its start. *)
Definition prefix_path (prefix : cstring) : res cstring :=
  match prefix with
  | [] => Oob
  | p0 :: _ =>
      let b := ncat (if p0 =? slash then [] else [slash]) prefix in
      Ok (if bool_decide (last prefix = Some slash) then b else ncat b [slash])
  end.

(** The name that is opened. [ip_dir] and [mac_dir] are the directories asked for
    by the options for unique roots. *)
Definition file_path (prefix : option cstring) (isdir : cstring → bool) (ip_dir mac_dir : option cstring) (filename : cstring) : res cstring :=
  match prefix with
  | Some p =>
      b ← prefix_path p;
      let b := unique_mac isdir (unique_ip isdir b ip_dir) mac_dir in
      match filename with
      | c :: rest => if c =? slash then if isprefix b filename then Ok (ncat [] filename) else Ok (ncat b rest) else Ok (ncat b filename)
      | [] => Ok b
      end
  | None => Ok (match filename with c :: _ => if c =? slash then ncat [] filename else ncat [slash] filename | [] => [slash] end)
  end.

(** * Requests *)

(** Packets that are sent: socket, destination and bytes. *)
Record sent := Sent { s_sock : Z; s_to : mysockaddr; s_bytes : list Z }.

Inductive bind_result := BindOk | InUse | BindErr.

(** The outcome of the system calls of one request. [y_content] is what can be
    read through a descriptor, [y_errno] the text of the error. *)
Record sys := Sys {
  y_mem : bool; y_junk : Z; y_socket : option Z; y_bind : Z → bind_result;
  y_open : cstring → open_result; y_stat : option statbuf; y_file : option Z; y_content : Z → list Z; y_errno : cstring;
  y_isdir : cstring → bool; y_ip_dir : option cstring; y_mac_dir : option cstring }.

(** What came with a request: packet, sender as address and as text, family, MTU
    and prefix of the interface, and the listening socket. *)
Record request := Request {
  q_packet : list Z; q_peer : mysockaddr; q_addr : cstring; q_inet6 : bool; q_mtu : Z; q_prefix : option cstring; q_listen : Z }.

(** The ports of the configured range in turn. *)
Fixpoint bind_loop (fuel : nat) (cfg : tftp_cfg) (y : sys) (port : Z) : res bool :=
  match fuel with
  | O => NoFuel
  | S fuel =>
      match y_bind y port with
      | BindOk => Ok true
      | InUse => if negb (start_port cfg =? 0) && (port + 1 <=? end_port cfg) then bind_loop fuel cfg y (port + 1) else Ok false
      | BindErr => Ok false
      end
  end.

(** The transfer of the same client, in single-port mode: before it, it, after it. *)
Fixpoint find_peer (peer : mysockaddr) (pre l : list conn) : list conn * option (conn * list conn) :=
  match l with
  | [] => (pre, None)
  | c :: l => if sockaddr_isequal peer (c_peer c) then (pre, Some (c, l)) else find_peer peer (pre ++ [c]) l
  end.

Definition deny_packet (why : denied) (y : sys) (q : request) (name : cstring) : list Z :=
  let name := sanitise name in
  match why with
  | FileNotFound => tftp_err ERR_FNF (chars "file " ++ name ++ chars " not found for " ++ q_addr q)
  | Permission => tftp_err ERR_PERM (chars "cannot access " ++ name ++ chars ": Permission denied")
  | Oops => tftp_err ERR_NOTDEF (chars "cannot read " ++ name ++ chars ": " ++ y_errno y)
  end.

(** From the packet to the answer, with the transfer [c] in hand: the state, the
    packet, and the transfer when it goes on. *)
Definition answer_request (cfg : tftp_cfg) (y : sys) (q : request) (l : list conn) (s : store) (c : conn) : res (store * list Z * conn * bool) :=
  r ← parse_request (big cfg) (noblock cfg) (q_inet6 q) (q_mtu q) (buff_sz cfg) (q_packet q) (c_t c);
  match r with
  | None => Ok (s, tftp_err ERR_ILL (chars "unsupported request from " ++ sanitise (q_addr q)), c, false)
  | Some (filename, t) =>
      name ← file_path (q_prefix q) (y_isdir y) (y_ip_dir y) (y_mac_dir y) (fix_name (lc cfg) filename);
      '(s, r) ← check_tftp_fileperm cfg l s (bool_decide (is_Some (q_prefix q))) name (y_open y name) (y_stat y) (y_file y);
      match r with
      | inl why => Ok (s, deny_packet why y q name, with_t c t, false)
      | inr id =>
          let c := Conn t (c_sock c) (c_peer c) (Some id) in
          match files s !! id with
          | None => Oob
          | Some f =>
              '(b, t) ← get_block (y_content y (tf_fd f)) (tf_size f) t;
              match b with
              | Block p => Ok (s, p, with_t c t, true)
              | Finished => Ok (s, [], with_t c t, true)
              | Failed => Ok (s, deny_packet Oops y q name, with_t c t, false)
              end
          end
      end
  end.

(** A request with the list of the other transfers [l], once the socket is there. *)
Definition start_with (cfg : tftp_cfg) (now : Z) (y : sys) (q : request) (l dn : list conn) (sock : Z) (s : store) : res (tftp_state * list sent) :=
  let c := Conn (new_transfer now (y_junk y)) sock (q_peer q) None in
  bound ← (if single_port cfg then Ok true else bind_loop (S (Z.to_nat (end_port cfg - start_port cfg))) cfg y (start_port cfg));
  if negb bound then s ← free_transfer cfg s c; Ok (TftpState l dn s, [])
  else
    '(s, p, c, ok) ← answer_request cfg y q l s c;
    let out := [Sent sock (q_peer q) p] in
    if ok : bool then Ok (TftpState (c :: l) dn s, out) else s ← free_transfer cfg s c; Ok (TftpState l dn s, out).

(** The struct of an abandoned transfer is reused or a new one allocated. *)
Definition start_transfer (cfg : tftp_cfg) (now : Z) (y : sys) (q : request) (l dn : list conn) (s : store) (reuse : bool) : res (tftp_state * list sent) :=
  if negb reuse && negb (y_mem y) then Ok (TftpState l dn s, [])
  else if single_port cfg then start_with cfg now y q l dn (q_listen q) s
  else match y_socket y with
  | None => Ok (TftpState l dn s, [])
  | Some fd => start_with cfg now y q l dn fd (Store (files s) (fds s ∪ {[fd]}))
  end.

(** tftp_request from the point where the interface is known. A packet from the
    client of a transfer is for that transfer, in single-port mode, unless it is
    a new request, for which the struct is taken over. *)
Definition tftp_request (cfg : tftp_cfg) (now : Z) (y : sys) (q : request) (st : tftp_state) : res (tftp_state * list sent) :=
  if zlen (q_packet q) <? 2 then Ok (st, [])
  else if single_port cfg then
    match find_peer (q_peer q) [] (trans st) with
    | (pre, Some (c, post)) =>
        op ← ntohs_at (q_packet q) 0;
        if op =? OP_RRQ then start_transfer cfg now y q (pre ++ post) (done_trans st) (st_store st) true
        else t ← handle_tftp now (q_packet q) (c_t c); Ok (TftpState (pre ++ with_t c t :: post) (done_trans st) (st_store st), [])
    | (_, None) =>
        if tftp_max cfg <=? zlen (trans st) then Ok (st, [])
        else start_transfer cfg now y q (trans st) (done_trans st) (st_store st) false
    end
  else start_transfer cfg now y q (trans st) (done_trans st) (st_store st) false.

(** * The progress of transfers *)

(** Packets that have come on the sockets of transfers; [recv] gives packet and
    sender. *)
Fixpoint receive_loop (now : Z) (recv : Z → option (list Z * mysockaddr)) (addr_text : mysockaddr → cstring) (l : list conn) : res (list conn * list sent) :=
  match l with
  | [] => Ok ([], [])
  | c :: l =>
      '(c, out) ← (match recv (c_sock c) with
                   | None => Ok (c, [])
                   | Some (packet, peer) =>
                       if sockaddr_isequal peer (c_peer c) then t ← handle_tftp now packet (c_t c); Ok (with_t c t, [])
                       else Ok (c, [Sent (c_sock c) peer (tftp_err ERR_TID (chars "ignoring packet from " ++ sanitise (addr_text peer) ++ chars " (TID mismatch)"))])
                   end);
      '(l, out') ← receive_loop now recv addr_text l;
      Ok (c :: l, out ++ out')
  end.

(** What becomes of a transfer whose timer has run out. *)
Inductive fate := Goes | Ends | Queued.

(** [shl] is 1 shifted by its argument, whatever an int shifted too far is. *)
Definition expire (shl : Z → Z) (content : Z → list Z) (errno : cstring) (s : store) (c : conn) : res (conn * list Z * fate) :=
  match c_file c with
  | None => Oob
  | Some id =>
      match files s !! id with
      | None => Oob
      | Some f =>
          let t := c_t c in
          let t := with_timer t (timeout t + 1 + shl (Z.quot (backoff t) 2)) (backoff t) in
          '(b, t) ← get_block (content (tf_fd f)) (tf_size f) t;
          match b with
          | Failed => Ok (with_t c t, tftp_err ERR_NOTDEF (chars "cannot read " ++ sanitise (tf_name f) ++ chars ": " ++ errno), Ends)
          | Finished =>
              let t := with_timer t (timeout t) (backoff t + 1) in
              Ok (with_t c t, [], if (7 <? backoff t) && (0 =? u32 (blocksize t + 4)) then Ends else Queued)
          | Block p =>
              let t := with_timer t (timeout t) (backoff t + 1) in
              if 7 <? backoff t then Ok (with_t c t, [], if zlen p =? u32 (blocksize t + 4) then Ends else Queued)
              else Ok (with_t c t, p, Goes)
          end
      end
  end.

Section timers.
Context (cfg : tftp_cfg) (now : Z) (shl : Z → Z) (content : Z → list Z) (errno : cstring).

(** The second loop of check_tftp_listeners. *)
Fixpoint timer_loop (l dn : list conn) (s : store) : res (tftp_state * list sent) :=
  match l with
  | [] => Ok (TftpState [] dn s, [])
  | c :: l =>
      if now <? timeout (c_t c) then
        '(st, out) ← timer_loop l dn s; Ok (TftpState (c :: trans st) (done_trans st) (st_store st), out)
      else
        '(c, p, f) ← expire shl content errno s c;
        let out := if zlen p =? 0 then [] else [Sent (c_sock c) (c_peer c) p] in
        match f with
        | Goes => '(st, out') ← timer_loop l dn s; Ok (TftpState (c :: trans st) (done_trans st) (st_store st), out ++ out')
        | Ends => s ← free_transfer cfg s c; '(st, out') ← timer_loop l dn s; Ok (st, out ++ out')
        | Queued => '(st, out') ← timer_loop l (c :: dn) s; Ok (st, out ++ out')
        end
  end.

Definition check_tftp_listeners (recv : Z → option (list Z * mysockaddr)) (addr_text : mysockaddr → cstring) (st : tftp_state) : res (tftp_state * list sent) :=
  '(l, out) ← (if single_port cfg then Ok (trans st, []) else receive_loop now recv addr_text (trans st));
  '(st, out') ← timer_loop l (done_trans st) (st_store st);
  Ok (st, out ++ out').
End timers.

(** A finished transfer is told to the script and freed. *)
Definition do_tftp_script_run (cfg : tftp_cfg) (st : tftp_state) : res (bool * tftp_state) :=
  match done_trans st with
  | [] => Ok (false, st)
  | c :: dn => s ← free_transfer cfg (st_store st) c; Ok (true, TftpState (trans st) dn s)
  end.
