(* ===== verification/TftpInv.v ===== *)
(** The files and descriptors of the TFTP server are accounted for: every file
    has as many references as transfers that use it, every descriptor belongs to
    a transfer or to a file, and no operation uses or closes one that is not
    there. In single-port mode a repeated request keeps a reference behind. *)
From Stdlib Require Import Ascii String.
From stdpp Require Import gmap.
From S2P Require Import Prelude Hostname WireSafe NetAddr SynthDomain Tftp TftpSpec TftpSrv.

Definition uses (id : Z) (c : conn) : Prop := c_file c = Some id.
#[global] Instance uses_dec id c : Decision (uses id c).
Proof. unfold uses. apply _. Defined.
#[global] Typeclasses Opaque uses.
Definition count_uses (id : Z) (us : list conn) : Z := zlen (filter (uses id) us).

(** [us] are the transfers that hold resources and [base] the descriptors of the
    rest of the daemon. *)
Record tinv (cfg : tftp_cfg) (base : gset Z) (us : list conn) (s : store) : Prop := {
  ti_file c id : c ∈ us → c_file c = Some id → is_Some (files s !! id);
  ti_ref id f : files s !! id = Some f → 1 ≤ tf_ref f ∧ count_uses id us ≤ tf_ref f ∧ (single_port cfg = false → tf_ref f = count_uses id us);
  ti_fd id f : files s !! id = Some f → tf_fd f ∈ fds s ∧ tf_fd f ∉ base;
  ti_fd_inj id1 id2 f1 f2 : files s !! id1 = Some f1 → files s !! id2 = Some f2 → tf_fd f1 = tf_fd f2 → id1 = id2;
  ti_base : base ⊆ fds s;
  ti_sock c : single_port cfg = false → c ∈ us → c_sock c ∈ fds s ∧ (c_sock c ∉ base) ∧ ∀ id f, files s !! id = Some f → tf_fd f ≠ c_sock c;
  ti_sock_inj : single_port cfg = false → NoDup (c_sock <$> us);
  ti_all x : x ∈ fds s → x ∈ base ∨ (∃ id f, files s !! id = Some f ∧ tf_fd f = x) ∨ (single_port cfg = false ∧ (∃ c, c ∈ us ∧ c_sock c = x))
}.

Lemma count_uses_cons id c us : count_uses id (c :: us) = (if bool_decide (c_file c = Some id) then 1 else 0) + count_uses id us.
Proof.
  unfold count_uses. rewrite filter_cons. unfold uses at 1. case_decide as H; [rewrite bool_decide_eq_true_2, zlen_cons by done|rewrite bool_decide_eq_false_2 by done]; lia.
Qed.
Lemma count_uses_nonneg id us : 0 ≤ count_uses id us.
Proof. apply zlen_nonneg. Qed.
Lemma count_uses_perm id us us' : us ≡ₚ us' → count_uses id us = count_uses id us'.
Proof. intros H. unfold count_uses, zlen. by rewrite H. Qed.
Lemma count_uses_elem id us c : c ∈ us → c_file c = Some id → 1 ≤ count_uses id us.
Proof.
  intros H1 H2. unfold count_uses. destruct (filter (uses id) us) as [|x l] eqn:E; [|rewrite zlen_cons; pose proof (zlen_nonneg l); lia].
  assert (c ∈ filter (uses id) us) as Hin by (by apply list_elem_of_filter). rewrite E in Hin. by apply elem_of_nil in Hin.
Qed.

Section inv.
Context (cfg : tftp_cfg) (base : gset Z).

Lemma tinv_perm us us' s : us ≡ₚ us' → tinv cfg base us s → tinv cfg base us' s.
Proof.
  intros Hp [H1 H2 H3 H4 H5 H6 H7 H8]. split; try done.
  - intros c id Hc. apply H1. by rewrite Hp.
  - intros id f Hf. rewrite <- (count_uses_perm id us us' Hp). by apply H2.
  - intros c Hs Hc. apply H6; [done|]. by rewrite Hp.
  - intros Hs. rewrite <- Hp. by apply H7.
  - intros x Hx. destruct (H8 x Hx) as [|[|(Hs & c & Hc & E)]]; auto. right. right. split; [done|]. exists c. by rewrite <- Hp.
Qed.

(** Transfers change without their resources. *)
Lemma tinv_with_t us us' s :
  c_file <$> us = c_file <$> us' → c_sock <$> us = c_sock <$> us' → tinv cfg base us s → tinv cfg base us' s.
Proof.
  intros Ef Es.
  assert (∀ i : nat, c_file <$> us !! i = c_file <$> us' !! i ∧ c_sock <$> us !! i = c_sock <$> us' !! i) as Hi.
  { intros i. rewrite <- !list_lookup_fmap, Ef, Es. done. }
  assert (∀ c, c ∈ us' → ∃ c0, c0 ∈ us ∧ c_file c0 = c_file c ∧ c_sock c0 = c_sock c) as Hback.
  { intros c [i Hc]%list_elem_of_lookup. destruct (Hi i) as [E1 E2]. rewrite Hc in E1, E2. destruct (us !! i) as [c0|] eqn:H0; [|done].
    exists c0. split; [by apply list_elem_of_lookup; exists i|]. injection E1 as E1. injection E2 as E2. done. }
  assert (∀ c, c ∈ us → ∃ c0, c0 ∈ us' ∧ c_sock c0 = c_sock c) as Hforth.
  { intros c [i Hc]%list_elem_of_lookup. destruct (Hi i) as [_ E2]. rewrite Hc in E2. destruct (us' !! i) as [c0|] eqn:H0; [|done].
    exists c0. split; [by apply list_elem_of_lookup; exists i|]. by injection E2 as ->. }
  assert (∀ id, count_uses id us = count_uses id us') as Ec.
  { intros id. clear -Ef. revert us' Ef. induction us as [|c us IH]; intros [|c' us'] E; try done. rewrite !fmap_cons in E. injection E as E1 E2.
    rewrite !count_uses_cons, E1. by rewrite (IH us' E2). }
  intros [H1 H2 H3 H4 H5 H6 H7 H8]. split; try done.
  - intros c id Hc Hf. destruct (Hback c Hc) as (c0 & H0 & E1 & _). apply (H1 c0); [done|congruence].
  - intros id f Hf. rewrite <- Ec. by apply H2.
  - intros c Hs Hc. destruct (Hback c Hc) as (c0 & H0 & _ & <-). by apply H6.
  - intros Hs. rewrite <- Es. by apply H7.
  - intros x Hx. destruct (H8 x Hx) as [|[|(Hs & c & Hc & E)]]; auto. right. right. split; [done|]. destruct (Hforth c Hc) as (c0 & H0 & E0). exists c0. split; [done|congruence].
Qed.

Definition no_file (c : conn) : conn := Conn (c_t c) (c_sock c) (c_peer c) None.

(** Giving up the file. *)
Lemma drop_last_ref c us s id f :
  tinv cfg base (c :: us) s → c_file c = Some id → files s !! id = Some f → tf_ref f - 1 = 0 →
  tinv cfg base (no_file c :: us) (Store (delete id (files s)) (fds s ∖ {[tf_fd f]})).
Proof.
  intros [H1 H2 H3 H4 H5 H6 H7 H8] Ec Ef Er. destruct (H2 id f Ef) as (_ & Hle & _). rewrite count_uses_cons, bool_decide_eq_true_2 in Hle by done.
  pose proof (count_uses_nonneg id us) as Hnn. assert (∀ c', c' ∈ us → c_file c' ≠ Some id) as Hno.
  { intros c' Hc' E. pose proof (count_uses_elem id us c' Hc' E). lia. }
  assert (∀ id' f', delete id (files s) !! id' = Some f' → id' ≠ id ∧ files s !! id' = Some f' ∧ tf_fd f' ≠ tf_fd f) as Hdel.
  { intros id' f' [Hne E]%lookup_delete_Some. split; [done|]. split; [done|]. intros Efd. apply Hne. symmetry. by apply (H4 id' id f' f). }
  destruct (H3 id f Ef) as [Hopen Hbase]. split; cbn [files fds].
  - intros c' id' [->|Hc']%elem_of_cons E; [done|]. rewrite lookup_delete_ne; [apply (H1 c'); [by right|done]|]. intros <-. by apply (Hno c').
  - intros id' f' (Hne & E & _)%Hdel. destruct (H2 id' f' E) as (? & Hc & Heq). rewrite count_uses_cons, bool_decide_eq_false_2 in Hc, Heq by congruence.
    rewrite count_uses_cons, bool_decide_eq_false_2 by done. done.
  - intros id' f' (Hne & E & Hfd)%Hdel. destruct (H3 id' f' E). split; [|done]. apply elem_of_difference. split; [done|]. by rewrite elem_of_singleton.
  - intros id1 id2 f1 f2 (_ & E1 & _)%Hdel (_ & E2 & _)%Hdel. by apply H4.
  - intros x Hx. apply elem_of_difference. split; [by apply H5|]. rewrite elem_of_singleton. intros ->. done.
  - intros c' Hs Hc'. assert (∃ c0, c0 ∈ c :: us ∧ c_sock c0 = c_sock c') as (c0 & Hc0 & <-).
    { apply elem_of_cons in Hc' as [->|Hc']; [exists c; split; [by left|done]|exists c'; split; [by right|done]]. }
    destruct (H6 c0 Hs Hc0) as (Ho & Hb & Hf). split; [apply elem_of_difference; split; [done|]; rewrite elem_of_singleton; intros E; by apply (Hf id f Ef)|].
    split; [done|]. intros id' f' (_ & E & _)%Hdel. by apply (Hf id').
  - exact H7.
  - intros x [Hx Hnx%not_elem_of_singleton]%elem_of_difference. destruct (H8 x Hx) as [|[(id' & f' & E & Efd)|(Hs & c' & Hc' & E)]]; [by left| |].
    + right. left. exists id', f'. split; [|done]. apply lookup_delete_Some. split; [|done]. intros <-. congruence.
    + right. right. split; [done|]. apply elem_of_cons in Hc' as [->|Hc']; [exists (no_file c); split; [by left|done]|exists c'; split; [by right|done]].
Qed.

Lemma drop_ref c us s id f :
  tinv cfg base (c :: us) s → c_file c = Some id → files s !! id = Some f → tf_ref f - 1 ≠ 0 →
  tinv cfg base (no_file c :: us) (set_file s id (with_ref f (tf_ref f - 1))).
Proof.
  intros [H1 H2 H3 H4 H5 H6 H7 H8] Ec Ef Er.
  assert (∀ id' f', <[id := with_ref f (tf_ref f - 1)]> (files s) !! id' = Some f' → ∃ f0, files s !! id' = Some f0 ∧ tf_fd f0 = tf_fd f' ∧
    tf_ref f' = tf_ref f0 - (if bool_decide (id' = id) then 1 else 0)) as Hins.
  { intros id' f' [[<- <-]|[Hne E]]%lookup_insert_Some; [exists f; by rewrite bool_decide_eq_true_2|]. exists f'. rewrite bool_decide_eq_false_2 by done. split_and!; try done. lia. }
  assert (∀ c', c' ∈ no_file c :: us → ∃ c0, c0 ∈ c :: us ∧ c_sock c0 = c_sock c' ∧ (∀ i, c_file c' = Some i → c_file c0 = Some i)) as Hback.
  { intros c' [->|Hc']%elem_of_cons; [exists c; split; [by left|done]|exists c'; split; [by right|done]]. }
  unfold set_file. split; cbn [files fds].
  - intros c' id' Hc' E. destruct (Hback c' Hc') as (c0 & H0 & _ & Hf). apply lookup_insert_is_Some'. right. apply (H1 c0); auto.
  - intros id' f' (f0 & E & _ & ->)%Hins. destruct (H2 id' f0 E) as (? & Hc & Heq). rewrite count_uses_cons in Hc, Heq. rewrite count_uses_cons, (bool_decide_eq_false_2 (c_file (no_file c) = _)) by done.
    destruct (decide (id' = id)) as [->|Hne]; [rewrite (bool_decide_eq_true_2 (id = id)) by done; rewrite bool_decide_eq_true_2 in Hc, Heq by done; replace f0 with f in * by congruence
      |rewrite (bool_decide_eq_false_2 (id' = id)) by done; rewrite bool_decide_eq_false_2 in Hc, Heq by congruence];
    pose proof (count_uses_nonneg id us); (split; [lia|]; split; [lia|]; intros Hs; specialize (Heq Hs); lia).
  - intros id' f' (f0 & E & <- & _)%Hins. by apply (H3 id').
  - intros id1 id2 f1 f2 (g1 & E1 & <- & _)%Hins (g2 & E2 & <- & _)%Hins. by apply H4.
  - done.
  - intros c' Hs Hc'. destruct (Hback c' Hc') as (c0 & H0 & <- & _). destruct (H6 c0 Hs H0) as (Ho & Hb & Hf). split; [done|]. split; [done|].
    intros id' f' (f0 & E & <- & _)%Hins. by apply (Hf id').
  - exact H7.
  - intros x Hx. destruct (H8 x Hx) as [|[(id' & f' & E & Efd)|(Hs & c' & Hc' & E)]]; [by left| |].
    + right. left. destruct (decide (id' = id)) as [->|Hne]; [exists id, (with_ref f (tf_ref f - 1)); rewrite lookup_insert_eq; split; [done|]; cbn; congruence|].
      exists id', f'. by rewrite lookup_insert_ne.
    + right. right. split; [done|]. apply elem_of_cons in Hc' as [->|Hc']; [exists (no_file c); split; [by left|done]|exists c'; split; [by right|done]].
Qed.

(** Giving up the socket. *)
Lemma drop_sock c us s :
  single_port cfg = false → tinv cfg base (c :: us) s → c_file c = None → tinv cfg base us (Store (files s) (fds s ∖ {[c_sock c]})).
Proof.
  intros Hm [H1 H2 H3 H4 H5 H6 H7 H8] Ec. destruct (H6 c Hm ltac:(by left)) as (Ho & Hb & Hf). specialize (H7 Hm). rewrite fmap_cons in H7. apply NoDup_cons in H7 as [Hnin Hnd].
  split; cbn [files fds].
  - intros c' id Hc'. apply H1. by right.
  - intros id f E. destruct (H2 id f E) as (? & Hc & Heq). rewrite count_uses_cons, bool_decide_eq_false_2 in Hc, Heq by congruence. done.
  - intros id f E. destruct (H3 id f E). split; [|done]. apply elem_of_difference. split; [done|]. rewrite elem_of_singleton. by apply (Hf id).
  - done.
  - intros x Hx. apply elem_of_difference. split; [by apply H5|]. rewrite elem_of_singleton. intros ->. done.
  - intros c' _ Hc'. destruct (H6 c' Hm ltac:(by right)) as (Ho' & Hb' & Hf'). split; [|done]. apply elem_of_difference. split; [done|].
    rewrite elem_of_singleton. intros E. apply Hnin. rewrite <- E. by apply list_elem_of_fmap_2.
  - done.
  - intros x [Hx Hne%not_elem_of_singleton]%elem_of_difference. destruct (H8 x Hx) as [|[|(_ & c' & Hc' & E)]]; auto.
    right. right. split; [done|]. apply elem_of_cons in Hc' as [->|Hc']; [done|]. by exists c'.
Qed.

Lemma drop_conn c us s : single_port cfg = true → tinv cfg base (c :: us) s → c_file c = None → tinv cfg base us s.
Proof.
  intros Hm [H1 H2 H3 H4 H5 H6 H7 H8] Ec. split; try done; try congruence.
  - intros c' id Hc'. apply H1. by right.
  - intros id f E. destruct (H2 id f E) as (? & Hc & Heq). rewrite count_uses_cons, bool_decide_eq_false_2 in Hc by congruence. split; [done|]. split; [done|]. congruence.
  - intros x Hx. destruct (H8 x Hx) as [|[|[? _]]]; auto; congruence.
Qed.

(** What free_transfer does to the file. *)
Lemma release_file c us s :
  tinv cfg base (c :: us) s →
  ∃ s', tinv cfg base (no_file c :: us) s' ∧
    match c_file c with
    | None => s' = s
    | Some id => ∃ f, files s !! id = Some f ∧ tf_fd f ∈ fds s ∧ (single_port cfg = false → tf_fd f ≠ c_sock c) ∧
        s' = if tf_ref f - 1 =? 0 then Store (delete id (files s)) (fds s ∖ {[tf_fd f]}) else set_file s id (with_ref f (tf_ref f - 1))
    end.
Proof.
  intros Hi. destruct (c_file c) as [id|] eqn:Ec; [|exists s; split; [|done]; by destruct c as [? ? ? file]; cbn in Ec; subst file].
  destruct (ti_file _ _ _ _ Hi c id) as [f Ef]; [by left|done|]. destruct (ti_fd _ _ _ _ Hi id f Ef) as [Ho _].
  exists (if tf_ref f - 1 =? 0 then Store (delete id (files s)) (fds s ∖ {[tf_fd f]}) else set_file s id (with_ref f (tf_ref f - 1))). split.
  - destruct (Z.eqb_spec (tf_ref f - 1) 0); [by apply drop_last_ref|by apply drop_ref].
  - exists f. split; [done|]. split; [done|]. split; [|done]. intros Hm. destruct (ti_sock _ _ _ _ Hi c Hm ltac:(by left)) as (_ & _ & Hf). by apply (Hf id).
Qed.

Lemma free_transfer_ok c us s : tinv cfg base (c :: us) s → twp (free_transfer cfg s c) (λ s', tinv cfg base us s').
Proof.
  intros Hi. destruct (release_file c us s Hi) as (s1 & Hi1 & Hs1). unfold free_transfer. destruct (single_port cfg) eqn:Hm.
  - apply drop_conn in Hi1; [|done|done]. cbn [mbind res_bind]. destruct (c_file c) as [id|]; [|by subst s1]. destruct Hs1 as (f & Ef & Ho & _ & ->). rewrite Ef.
    destruct (tf_ref f - 1 =? 0); [|done]. unfold close_desc. by rewrite decide_True.
  - pose proof (drop_sock _ _ _ Hm Hi1 eq_refl) as Hi2. destruct (ti_sock _ _ _ _ Hi c Hm ltac:(by left)) as (Hos & _ & _).
    assert (close_desc s (c_sock c) = Ok (Store (files s) (fds s ∖ {[c_sock c]}))) as -> by (unfold close_desc; by rewrite decide_True).
    cbn [mbind res_bind files]. destruct (c_file c) as [id|]; [|by subst s1].
    destruct Hs1 as (f & Ef & Ho & Hne & ->). rewrite Ef. specialize (Hne eq_refl). destruct (tf_ref f - 1 =? 0); [|exact Hi2].
    unfold close_desc. cbn [fds files]. rewrite decide_True by (apply elem_of_difference; split; [done|]; by rewrite elem_of_singleton). cbn.
    cbn [files fds no_file c_sock] in Hi2. by replace (fds s ∖ {[c_sock c]} ∖ {[tf_fd f]}) with (fds s ∖ {[tf_fd f]} ∖ {[c_sock c]}) by set_solver.
Qed.

(** * Opening files *)

Definition with_file (c : conn) (id : Z) : conn := Conn (c_t c) (c_sock c) (c_peer c) (Some id).

Lemma back_file c us id c' : c' ∈ with_file c id :: us → ∃ c0, c0 ∈ c :: us ∧ c_sock c0 = c_sock c' ∧ (c_file c' = Some id ∨ c_file c' = c_file c0).
Proof. intros [->|Hc']%elem_of_cons; [exists c; split; [by left|auto]|exists c'; split; [by right|auto]]. Qed.

Lemma forth_file c us id c' : c' ∈ c :: us → ∃ c0, c0 ∈ with_file c id :: us ∧ c_sock c0 = c_sock c'.
Proof. intros [->|Hc']%elem_of_cons; [exists (with_file c id); split; [by left|done]|exists c'; split; [by right|done]]. Qed.

Lemma count_with_file c us id id' :
  c_file c = None → count_uses id' (with_file c id :: us) = count_uses id' (c :: us) + (if bool_decide (id' = id) then 1 else 0).
Proof.
  intros Ec. rewrite !count_uses_cons, (bool_decide_eq_false_2 (c_file c = Some id')) by congruence. cbn [with_file c_file].
  destruct (decide (id' = id)) as [->|Hne]; [rewrite !bool_decide_eq_true_2 by done|rewrite !bool_decide_eq_false_2 by congruence]; lia.
Qed.

Lemma add_ref c us s id f :
  tinv cfg base (c :: us) s → c_file c = None → files s !! id = Some f →
  tinv cfg base (with_file c id :: us) (set_file s id (with_ref f (tf_ref f + 1))).
Proof.
  intros [H1 H2 H3 H4 H5 H6 H7 H8] Ec Ef.
  assert (∀ id' f', <[id := with_ref f (tf_ref f + 1)]> (files s) !! id' = Some f' → ∃ f0, files s !! id' = Some f0 ∧ tf_fd f0 = tf_fd f' ∧
    tf_ref f' = tf_ref f0 + (if bool_decide (id' = id) then 1 else 0)) as Hins.
  { intros id' f' [[<- <-]|[Hne E]]%lookup_insert_Some; [exists f; by rewrite bool_decide_eq_true_2|]. exists f'. rewrite bool_decide_eq_false_2 by done. split_and!; try done. lia. }
  unfold set_file. split; cbn [files fds].
  - intros c' id' Hc' E. apply lookup_insert_is_Some'. destruct (back_file c us id c' Hc') as (c0 & H0 & _ & [E0|E0]); [left; congruence|]. right. apply (H1 c0); congruence.
  - intros id' f' (f0 & E & _ & ->)%Hins. destruct (H2 id' f0 E) as (? & Hc & Heq). rewrite count_with_file by done.
    destruct (bool_decide (id' = id)); (split; [lia|]; split; [lia|]; intros Hs; specialize (Heq Hs); lia).
  - intros id' f' (f0 & E & <- & _)%Hins. by apply (H3 id').
  - intros id1 id2 f1 f2 (g1 & E1 & <- & _)%Hins (g2 & E2 & <- & _)%Hins. by apply H4.
  - done.
  - intros c' Hs Hc'. destruct (back_file c us id c' Hc') as (c0 & H0 & <- & _). destruct (H6 c0 Hs H0) as (Ho & Hb & Hf). split; [done|]. split; [done|].
    intros id' f' (f0 & E & <- & _)%Hins. by apply (Hf id').
  - exact H7.
  - intros x Hx. destruct (H8 x Hx) as [|[(id' & f' & E & Efd)|(Hs & c' & Hc' & E)]]; [by left| |].
    + right. left. destruct (decide (id' = id)) as [->|Hne]; [exists id, (with_ref f (tf_ref f + 1)); rewrite lookup_insert_eq; split; [done|]; cbn; congruence|].
      exists id', f'. by rewrite lookup_insert_ne.
    + right. right. split; [done|]. destruct (forth_file c us id c' Hc') as (c0 & H0 & E0). exists c0. split; [done|congruence].
Qed.

Lemma new_file c us s id f :
  tinv cfg base (c :: us) s → c_file c = None → files s !! id = None → tf_fd f ∉ fds s → tf_ref f = 1 →
  tinv cfg base (with_file c id :: us) (Store (<[id := f]> (files s)) (fds s ∪ {[tf_fd f]})).
Proof.
  intros [H1 H2 H3 H4 H5 H6 H7 H8] Ec Ef Hfd Hr.
  assert (count_uses id (c :: us) = 0) as H0.
  { destruct (Z.eq_dec (count_uses id (c :: us)) 0) as [|Hne]; [done|]. exfalso. unfold count_uses in Hne. destruct (filter (uses id) (c :: us)) as [|x l] eqn:E; [done|].
    assert (x ∈ filter (uses id) (c :: us)) as [Hx1 Hx2]%list_elem_of_filter by (rewrite E; by left). destruct (H1 x id Hx2 Hx1) as [y Ey]. congruence. }
  split; cbn [files fds].
  - intros c' id' Hc' E. apply lookup_insert_is_Some'. destruct (back_file c us id c' Hc') as (c0 & Hc0 & _ & [E0|E0]); [left; congruence|]. right. apply (H1 c0); congruence.
  - intros id' f' [[<- <-]|[Hne E]]%lookup_insert_Some; rewrite count_with_file by done.
    + rewrite bool_decide_eq_true_2 by done. lia.
    + rewrite bool_decide_eq_false_2 by done. destruct (H2 id' f' E) as (? & Hc & Heq). rewrite Z.add_0_r. done.
  - intros id' f' [[<- <-]|[Hne E]]%lookup_insert_Some; [split; [set_solver|]; intros Hb; apply Hfd; by apply H5|]. destruct (H3 id' f' E). split; [set_solver|done].
  - intros id1 id2 f1 f2 [[<- <-]|[Hn1 E1]]%lookup_insert_Some [[<- <-]|[Hn2 E2]]%lookup_insert_Some Hfds; [done| | |by apply (H4 id1 id2 f1 f2)].
    + exfalso. apply Hfd. rewrite Hfds. by apply (H3 id2).
    + exfalso. apply Hfd. rewrite <- Hfds. by apply (H3 id1).
  - set_solver.
  - intros c' Hs Hc'. destruct (back_file c us id c' Hc') as (c0 & Hc0 & <- & _). destruct (H6 c0 Hs Hc0) as (Ho & Hb & Hf). split; [set_solver|]. split; [done|].
    intros id' f' [[<- <-]|[Hne E]]%lookup_insert_Some; [intros E; apply Hfd; by rewrite E|by apply (Hf id')].
  - exact H7.
  - intros x [Hx| ->%elem_of_singleton]%elem_of_union; [|right; left; exists id, f; by rewrite lookup_insert_eq].
    destruct (H8 x Hx) as [|[(id' & f' & E & Efd)|(Hs & c' & Hc' & E)]]; [by left| |].
    + right. left. exists id', f'. rewrite lookup_insert_ne; [done|]. intros <-. congruence.
    + right. right. split; [done|]. destruct (forth_file c us id c' Hc') as (c0 & Hc0 & E0). exists c0. split; [done|congruence].
Qed.
End inv.
