(* ===== verification/TftpReach.v ===== *)
(** Every operation of the TFTP server, on every state it can reach: nothing is
    used or closed that is not there, what is sent fits the buffer, files opened
    are inside the prefix, and a transfer without answers ends. *)
From Stdlib Require Import Ascii String.
From stdpp Require Import gmap.
From S2P Require Import Prelude Hostname WireSafe NetAddr SynthDomain Tftp TftpSpec TftpSrv TftpInv.

(** * Blocks of any transfer *)

Definition tr_ok (cfg : tftp_cfg) (t : transfer) : Prop := 0 ≤ blocksize t ≤ buff_sz cfg - 4 ∧ 0 ≤ backoff t.

Lemma print_u_len n : 0 ≤ n < 2 ^ 64 → zlen (print_u n) ≤ 20.
Proof.
  intros Hn. unfold print_u, zlen. rewrite length_reverse.
  assert (∀ fuel n, (length (digits_rev fuel n) ≤ fuel)%nat) as H; [|specialize (H 20%nat n); lia].
  clear. induction fuel as [|fuel IH]; intros n; cbn [digits_rev]; [done|]. destruct (n <? 10); cbn [length]; [lia|]. specialize (IH (n / 10)). lia.
Qed.

Lemma oack_len t size : 0 ≤ blocksize t < 4294967296 → zlen (oack t size) ≤ 58.
Proof.
  intros Hb. unfold oack. rewrite !zlen_app. change (zlen (htons OP_OACK)) with 2. pose proof (print_u_len (blocksize t) ltac:(lia)).
  pose proof (print_u_len (u32 size)) as Hs. specialize (Hs ltac:(unfold u32; pose proof (Z.mod_pos_bound size 4294967296); lia)).
  destruct (opt_blocksize t), (opt_transize t); rewrite ?zlen_app; change (zlen (zstring "blksize")) with 8; change (zlen (zstring "tsize")) with 6;
    change (zlen [0]) with 1; change (zlen (@nil Z)) with 0; lia.
Qed.

Lemma tftp_err_len err msg : 5 ≤ zlen (tftp_err err msg) ≤ 504.
Proof.
  unfold tftp_err. rewrite !zlen_app. change (zlen (htons OP_ERR)) with 2. change (zlen (htons err)) with 2. change (zlen [0]) with 1.
  rewrite zlen_take by (unfold MAXMESSAGE; lia). pose proof (zlen_nonneg msg). unfold MAXMESSAGE. lia.
Qed.

Lemma chunk_len room carry s o x nc r : chunk room carry s = (o, x, nc, r) → (length o ≤ room)%nat.
Proof.
  intros E. destruct room as [|room]; [injection E as <- <- <- <-; done|]. by destruct (chunk_spec _ _ _ _ _ _ _ E ltac:(left; lia)) as (_ & H & _).
Qed.

Lemma data_len blk data : zlen ((htons OP_DATA ++ htons blk) ++ data) = 4 + zlen data.
Proof. rewrite !zlen_app. change (zlen (htons OP_DATA)) with 2. change (zlen (htons blk)) with 2. lia. Qed.

(** A call of get_block always returns, with a packet that fits. *)
Lemma get_block_total cfg content size t :
  516 ≤ buff_sz cfg < 4294967296 → tr_ok cfg t →
  twp (get_block content size t) (λ '(b, t'), blocksize t' = blocksize t ∧ backoff t' = backoff t ∧ timeout t' = timeout t ∧
    match b with Block p => 1 ≤ zlen p ≤ buff_sz cfg | _ => True end).
Proof.
  intros Hbuf Ht. unfold tr_ok, get_block in *. destruct (block t =? 0).
  { cbn [twp]. do 3 (split; [done|]). pose proof (oack_len t size ltac:(lia)) as Hl. split; [|lia]. unfold oack. rewrite zlen_app. change (zlen (htons OP_OACK)) with 2.
    match goal with |- 1 ≤ 2 + zlen ?x => pose proof (zlen_nonneg x) end. lia. }
  destruct (size <? offset t) eqn:Eo; [done|]. cbv zeta. destruct (_ && _); [done|]. apply Z.ltb_ge in Eo.
  set (data := take _ _). assert (zlen data ≤ blocksize t) as Hd by (unfold data; rewrite zlen_take by lia; lia).
  destruct (netascii t).
  - twp_step. destruct (chunk (Z.to_nat (blocksize t)) (carrylf t) data) as [[[o x] nc] r] eqn:E.
    pose proof (expand_loop_chunk (S (Z.to_nat (blocksize t))) (Z.to_nat (blocksize t)) (carrylf t) [] data 0 o x nc r) as HL.
    cbn [length app] in HL. rewrite Nat.sub_0_r in HL. change (zlen (@nil Z)) with 0 in HL. rewrite andb_true_r in HL. rewrite Z2Nat.id in HL by lia.
    rewrite (take_ge data) in HL by (unfold zlen in Hd; lia). rewrite HL by (done || lia). cbn [twp]. do 3 (split; [done|]).
    pose proof (chunk_len _ _ _ _ _ _ _ E). rewrite data_len. unfold zlen. lia.
  - cbn [twp]. do 3 (split; [done|]). rewrite data_len. pose proof (zlen_nonneg data). lia.
Qed.

Lemma handle_tftp_total now packet t :
  twp (handle_tftp now packet t) (λ t', blocksize t' = blocksize t ∧ (0 ≤ backoff t → 0 ≤ backoff t')).
Proof.
  unfold handle_tftp. destruct (Z.ltb_spec (zlen packet) 4); [done|]. unfold ntohs_at.
  twp_step. twp_step. apply twp_rd; [lia|]. intros a _ _. twp_step. apply twp_rd; [lia|]. intros b _ _. cbn [twp].
  twp_step. twp_step. apply twp_rd; [lia|]. intros c _ _. twp_step. apply twp_rd; [lia|]. intros d _ _. cbn [twp].
  destruct (_ && _); [cbn [twp]; by destruct (block (with_timer t now 0) =? 0)|]. destruct (_ =? OP_ERR); [|done]. twp_step. apply next_spec; [lia|lia|intros; split; [done|cbn; lia]|split; [done|cbn; lia]].
Qed.

(** * Opening a file *)

Section srv.
Context (cfg : tftp_cfg) (base : gset Z).
Hypothesis (Hbuf : 516 ≤ buff_sz cfg < 2147483648).

Definition has_file (c : conn) : Prop := is_Some (c_file c).

Lemma find_shared_total us s sb name l :
  tinv cfg base us s → Forall has_file l → Forall (λ c, c ∈ us) l →
  twp (find_shared s sb name l) (λ r, match r with Some id => is_Some (files s !! id) | None => True end).
Proof.
  intros Hi Hf Hin. induction l as [|c l IH]; [done|]. apply Forall_cons in Hf as [[id Ec] Hf]. apply Forall_cons in Hin as [Hc Hin]. cbn [find_shared]. rewrite Ec.
  destruct (ti_file _ _ _ _ Hi c id Hc Ec) as [f Ef]. rewrite Ef. destruct (same_file sb name f); [cbn; by rewrite Ef|]. by apply IH.
Qed.

(** What open and malloc promise: a new descriptor and a new object. *)
Definition fresh_open (s : store) (op : open_result) (mem : option Z) : Prop :=
  (∀ fd, op = Opened fd → fd ∉ fds s) ∧ (∀ id, mem = Some id → files s !! id = None).

Lemma fileperm_ok c us s l hp name op sb mem :
  tinv cfg base (c :: us) s → c_file c = None → Forall has_file l → Forall (λ c, c ∈ us) l → fresh_open s op mem →
  twp (check_tftp_fileperm cfg l s hp name op sb mem)
    (λ '(s', r), match r with inl _ => tinv cfg base (c :: us) s' | inr id => tinv cfg base (with_file c id :: us) s' ∧ is_Some (files s' !! id) end).
Proof.
  intros Hi Ec Hf Hin [Hop Hmem]. unfold check_tftp_fileperm. destruct (hp && _); [done|]. destruct op as [| | |fd]; [done..|]. specialize (Hop fd eq_refl).
  set (s1 := Store (files s) (fds s ∪ {[fd]})). assert (close_desc s1 fd = Ok s) as Eclose.
  { unfold close_desc, s1. cbn [fds files]. rewrite decide_True by set_solver. destruct s as [fs ds]. cbn [fds files] in *. do 2 f_equal. set_solver. }
  cbv zeta. destruct sb as [sb|]; [|rewrite Eclose; done]. destruct (if euid cfg =? 0 then _ else _); [rewrite Eclose; done|].
  assert (find_shared s1 sb name l = find_shared s sb name l) as Ef1.
  { clear. induction l as [|c l IH]; [done|]. cbn [find_shared]. destruct (c_file c) as [id|]; [|done]. change (files s1) with (files s).
    destruct (files s !! id) as [f|]; [|done]. by destruct (same_file sb name f). }
  rewrite Ef1. twp_step. eapply twp_mono; [apply (find_shared_total (c :: us)); [done|done|]|].
  { apply (Forall_impl _ _ _ Hin). intros c' Hc'. by right. }
  intros [id|].
  - intros [f Ef]. change (files s1) with (files s). rewrite Ef, Eclose. cbn. split; [by apply add_ref|]. rewrite lookup_insert_eq. done.
  - intros _. destruct mem as [id|]; [|rewrite Eclose; done]. specialize (Hmem id eq_refl). cbn [twp]. unfold set_file, s1. cbn [files fds].
    split; [|rewrite lookup_insert_eq; done]. apply (new_file cfg base c us s id (TFile fd (st_size sb) (st_dev sb) (st_ino sb) 1 name)); done.
Qed.

(** * Requests *)

(** New descriptors are not open yet and differ from each other. *)
Record sys_ok (s : store) (y : sys) : Prop := {
  so_socket fd : y_socket y = Some fd → fd ∉ fds s;
  so_open name fd : y_open y name = Opened fd → (fd ∉ fds s) ∧ y_socket y ≠ Some fd;
  so_file id : y_file y = Some id → files s !! id = None
}.

Lemma tinv_change c c' us s : tinv cfg base (c :: us) s → c_file c' = c_file c → c_sock c' = c_sock c → tinv cfg base (c' :: us) s.
Proof. intros Hi E1 E2. apply (tinv_with_t cfg base (c :: us)); [by rewrite !fmap_cons, E1|by rewrite !fmap_cons, E2|done]. Qed.

Lemma file_path_total q y f : q_prefix q ≠ Some [] → ∃ name, file_path (q_prefix q) (y_isdir y) (y_ip_dir y) (y_mac_dir y) f = Ok name.
Proof.
  intros Hp. unfold file_path. destruct (q_prefix q) as [p|]; [|by eexists]. unfold prefix_path. destruct p as [|p0 p]; [done|]. cbn [mbind res_bind]. destruct f as [|c f]; [by eexists|].
  destruct (c =? slash); [destruct (isprefix _ _); by eexists|by eexists].
Qed.

Lemma deny_packet_len why y q name : zlen (deny_packet why y q name) ≤ 504.
Proof. destruct why; apply tftp_err_len. Qed.

Lemma answer_request_ok y q l us s sock now :
  tinv cfg base (Conn (new_transfer now (y_junk y)) sock (q_peer q) None :: us) s → Forall has_file l → Forall (λ c, c ∈ us) l →
  (∀ name, fresh_open s (y_open y name) (y_file y)) → 2 ≤ zlen (q_packet q) → q_prefix q ≠ Some [] →
  twp (answer_request cfg y q l s (Conn (new_transfer now (y_junk y)) sock (q_peer q) None))
    (λ '(s', p, c', ok), tinv cfg base (c' :: us) s' ∧ zlen p ≤ buff_sz cfg ∧ (ok = true → has_file c' ∧ tr_ok cfg (c_t c'))).
Proof.
  intros Hi Hf Hin Hfresh Hlen Hpre. unfold answer_request. cbn [c_t]. set (c := Conn _ _ _ _) in *. twp_step.
  eapply twp_mono; [by apply (parse_request_ok (big cfg) (noblock cfg) (q_inet6 q) (q_mtu q) (buff_sz cfg) Hbuf (q_packet q) now (y_junk y))|].
  intros [[filename t]|]; [|intros _; cbn [twp]; split; [done|]; split; [|done]; pose proof (tftp_err_len ERR_ILL (chars "unsupported request from " ++ sanitise (q_addr q))); lia].
  intros (_ & _ & Hready). destruct (file_path_total q y (fix_name (lc cfg) filename) Hpre) as (name & ->). cbn [mbind res_bind]. twp_step.
  eapply twp_mono; [apply (fileperm_ok c us s); try done|]. intros [s' [why|id]].
  { intros Hi'. cbn [twp]. split; [by apply (tinv_change c)|]. split; [|done]. pose proof (deny_packet_len why y q name). lia. }
  intros [Hi' [f Ef]]. rewrite Ef. assert (tr_ok cfg t) as Ht by (split; [apply (rd_size _ _ _ _ Hready)|apply (rd_backoff _ _ _ _ Hready)]). twp_step.
  eapply twp_mono; [apply (get_block_total cfg); [lia|done]|]. intros [b t'] (Hbs & Hbo & _ & Hb).
  assert (tinv cfg base (with_t (Conn t (c_sock c) (c_peer c) (Some id)) t' :: us) s') as Hi2 by (by apply (tinv_change (with_file c id))).
  destruct b as [p| |]; cbn [twp]; (split; [done|]).
  - split; [lia|]. intros _. split; [by eexists|]. unfold tr_ok in *. cbn. lia.
  - split; [change (zlen (@nil Z)) with 0; lia|]. intros _. split; [by eexists|]. unfold tr_ok in *. cbn. lia.
  - split; [|done]. pose proof (deny_packet_len Oops y q name). lia.
Qed.

Lemma bind_loop_total y fuel port : end_port cfg - port < Z.of_nat fuel → (0 < fuel)%nat → ∃ b, bind_loop fuel cfg y port = Ok b.
Proof.
  revert port. induction fuel as [|fuel IH]; intros port Hp Hf; [lia|]. cbn [bind_loop]. destruct (y_bind y port); [by eexists| |by eexists].
  destruct (Z.leb_spec (port + 1) (end_port cfg)); [|rewrite andb_false_r; by eexists]. destruct (negb _); [|by eexists]. cbn [andb]. apply IH; lia.
Qed.

Record swf (st : tftp_state) : Prop := {
  sw_inv : tinv cfg base (trans st ++ done_trans st) (st_store st);
  sw_file : Forall has_file (trans st ++ done_trans st);
  sw_ok : Forall (λ c, tr_ok cfg (c_t c)) (trans st ++ done_trans st)
}.

Definition fits (out : list sent) : Prop := Forall (λ p, zlen (s_bytes p) ≤ buff_sz cfg) out.
Definition good (r : tftp_state * list sent) : Prop := swf r.1 ∧ fits r.2.

(** A new socket for a transfer that has nothing else. *)
Lemma add_sock us s c :
  single_port cfg = false → tinv cfg base us s → c_file c = None → c_sock c ∉ fds s → tinv cfg base (c :: us) (Store (files s) (fds s ∪ {[c_sock c]})).
Proof.
  intros Hm [H1 H2 H3 H4 H5 H6 H7 H8] Ec Hs. split; cbn [files fds].
  - intros c' id [->|Hc']%elem_of_cons E; [congruence|by apply (H1 c')].
  - intros id f E. rewrite count_uses_cons, bool_decide_eq_false_2 by congruence. by apply H2.
  - intros id f E. destruct (H3 id f E). split; [set_solver|done].
  - done.
  - set_solver.
  - intros c' _ [->|Hc']%elem_of_cons.
    + split; [set_solver|]. split; [intros Hb; apply Hs; by apply H5|]. intros id f E Ef. apply Hs. rewrite <- Ef. by apply (H3 id).
    + destruct (H6 c' Hm Hc') as (? & ? & ?). split; [set_solver|done].
  - intros _. rewrite fmap_cons. apply NoDup_cons. split; [|by apply H7]. intros (c' & E & Hc')%list_elem_of_fmap. apply Hs. rewrite E. by apply (H6 c').
  - intros x [Hx| ->%elem_of_singleton]%elem_of_union; [|right; right; split; [done|]; exists c; split; [by left|done]].
    destruct (H8 x Hx) as [|[|(_ & c' & Hc' & E)]]; auto. right. right. split; [done|]. exists c'. split; [by right|done].
Qed.

Lemma add_conn us s c : single_port cfg = true → tinv cfg base us s → c_file c = None → tinv cfg base (c :: us) s.
Proof.
  intros Hm [H1 H2 H3 H4 H5 H6 H7 H8] Ec. split; try done; try congruence.
  - intros c' id [->|Hc']%elem_of_cons E; [congruence|by apply (H1 c')].
  - intros id f E. rewrite count_uses_cons, bool_decide_eq_false_2 by congruence. by apply H2.
  - intros x Hx. destruct (H8 x Hx) as [|[|[? _]]]; auto; congruence.
Qed.

(** The struct of a transfer taken over by a repeated request: its reference to
    the file is forgotten. *)
Lemma forget_conn c us s : single_port cfg = true → tinv cfg base (c :: us) s → tinv cfg base us s.
Proof.
  intros Hm [H1 H2 H3 H4 H5 H6 H7 H8]. split; try done; try congruence.
  - intros c' id Hc'. apply H1. by right.
  - intros id f E. destruct (H2 id f E) as (? & Hc & _). rewrite count_uses_cons in Hc. split; [done|]. split; [|congruence].
    destruct (bool_decide (c_file c = Some id)); lia.
  - intros x Hx. destruct (H8 x Hx) as [|[|[? _]]]; auto; congruence.
Qed.

Lemma start_with_ok now y q l dn sock s :
  tinv cfg base (Conn (new_transfer now (y_junk y)) sock (q_peer q) None :: l ++ dn) s → Forall has_file (l ++ dn) → Forall (λ c, tr_ok cfg (c_t c)) (l ++ dn) →
  (∀ name, fresh_open s (y_open y name) (y_file y)) → 2 ≤ zlen (q_packet q) → q_prefix q ≠ Some [] → twp (start_with cfg now y q l dn sock s) good.
Proof.
  intros Hi Hf Ht Hfresh Hlen Hpre. unfold start_with. cbv zeta. set (c := Conn _ sock _ _) in *.
  assert (∃ b, (if single_port cfg then Ok true else bind_loop (S (Z.to_nat (end_port cfg - start_port cfg))) cfg y (start_port cfg)) = Ok b) as (b & ->).
  { destruct (single_port cfg); [by eexists|]. apply bind_loop_total; lia. }
  cbn [mbind res_bind]. destruct b; cbn [negb].
  - twp_step. eapply twp_mono; [apply (answer_request_ok y q l (l ++ dn) s sock now); try done|].
    { by apply Forall_app in Hf as [Hf _]. }
    { apply Forall_forall. intros c' Hc'. apply elem_of_app. by left. }
    intros [[[s' p] c'] ok] (Hi' & Hp & Hok). assert (fits [Sent sock (q_peer q) p]) as Hout by (constructor; [done|constructor]). destruct ok.
    + destruct (Hok eq_refl) as [Hf' Ht']. cbn [twp]. split; [|done]. split; cbn [fst trans done_trans st_store app]; [done|by constructor|by constructor].
    + twp_step. eapply twp_mono; [by apply free_transfer_ok|]. intros s2 Hi2. split; [|done]. by split.
  - twp_step. eapply twp_mono; [by apply (free_transfer_ok cfg base c)|]. intros s2 Hi2. split; [by split|constructor].
Qed.

Lemma start_transfer_ok now y q l dn s reuse :
  swf (TftpState l dn s) → sys_ok s y → 2 ≤ zlen (q_packet q) → q_prefix q ≠ Some [] → twp (start_transfer cfg now y q l dn s reuse) good.
Proof.
  intros Hw Hy Hlen Hpre. pose proof Hw as [Hi Hf Ht]. cbn [trans done_trans st_store] in *. assert (good (TftpState l dn s, [])) as Hsame by (split; [done|constructor]).
  unfold start_transfer. destruct (negb reuse && negb (y_mem y)); [done|]. cbv zeta. destruct Hy as [Y1 Y2 Y3]. destruct (single_port cfg) eqn:Hm.
  - apply (start_with_ok now y q l dn (q_listen q) s); try done; [by apply add_conn|]. intros name. split; [intros fd E; by apply (Y2 name)|done].
  - destruct (y_socket y) as [fd|] eqn:Es; [|done].
    apply (start_with_ok now y q l dn fd (Store (files s) (fds s ∪ {[fd]}))); try done.
    + apply (add_sock (l ++ dn) s (Conn (new_transfer now (y_junk y)) fd (q_peer q) None)); try done. by apply Y1.
    + intros name. split; [|done]. intros fd' E. destruct (Y2 name fd' E) as [Hn1 Hn2]. cbn [fds]. intros [H1|H1%elem_of_singleton]%elem_of_union; [done|congruence].
Qed.

(** * The operations *)

Lemma find_peer_split peer pre l : match find_peer peer pre l with (a, Some (c, post)) => pre ++ l = a ++ c :: post | (a, None) => a = pre ++ l end.
Proof.
  revert pre. induction l as [|c l IH]; intros pre; cbn [find_peer]; [by rewrite app_nil_r|]. destruct (sockaddr_isequal peer (c_peer c)); [done|].
  specialize (IH (pre ++ [c])). rewrite <- app_assoc in IH. exact IH.
Qed.

Lemma tftp_request_ok now y q st :
  swf st → sys_ok (st_store st) y → q_prefix q ≠ Some [] → twp (tftp_request cfg now y q st) good.
Proof.
  intros Hw Hy Hpre. assert (good (st, [])) as Hsame by (split; [done|constructor]). unfold tftp_request. destruct (Z.ltb_spec (zlen (q_packet q)) 2); [done|].
  assert (TftpState (trans st) (done_trans st) (st_store st) = st) as Est by (by destruct st).
  destruct (single_port cfg) eqn:Hm; [|apply start_transfer_ok; try done; by rewrite Est].
  pose proof (find_peer_split (q_peer q) [] (trans st)) as Hp. destruct (find_peer (q_peer q) [] (trans st)) as [pre [[c post]|]].
  2:{ destruct (tftp_max cfg <=? zlen (trans st)); [done|]. apply start_transfer_ok; try done. by rewrite Est. }
  cbn [app] in Hp. destruct Hw as [Hi Hf Ht]. rewrite Hp in Hi, Hf, Ht.
  assert (c :: (pre ++ post) ++ done_trans st ≡ₚ (pre ++ c :: post) ++ done_trans st) as Hperm by (by rewrite <- !app_assoc; cbn [app]; rewrite Permutation_middle).
  unfold ntohs_at. twp_step. twp_step. apply twp_rd; [lia|]. intros a _ _. twp_step. apply twp_rd; [lia|]. intros b _ _. cbn [twp].
  destruct (_ =? OP_RRQ).
  - rewrite <- Hperm in Hf, Ht. apply Forall_cons in Hf as [_ Hf]. apply Forall_cons in Ht as [_ Ht].
    apply start_transfer_ok; try done. split; cbn [trans done_trans st_store]; [|done|done]. apply (forget_conn c); [done|]. apply (tinv_perm _ _ _ _ _ (symmetry Hperm) Hi).
  - twp_step. eapply twp_mono; [apply handle_tftp_total|]. intros t' [Hbs Hbo]. cbn [twp]. split; [|constructor]. split; cbn [fst trans done_trans st_store].
    + apply (tinv_with_t cfg base ((pre ++ c :: post) ++ done_trans st)); [by rewrite !fmap_app, !fmap_cons|by rewrite !fmap_app, !fmap_cons|done].
    + rewrite !Forall_app, !Forall_cons in *. done.
    + rewrite !Forall_app, !Forall_cons in *. unfold tr_ok in *. cbn [c_t with_t]. rewrite Hbs. naive_solver.
Qed.

Lemma receive_loop_ok now recv text l :
  Forall (λ c, tr_ok cfg (c_t c)) l →
  twp (receive_loop now recv text l) (λ '(l', out), c_file <$> l' = c_file <$> l ∧ c_sock <$> l' = c_sock <$> l ∧ Forall (λ c, tr_ok cfg (c_t c)) l' ∧ fits out).
Proof.
  induction l as [|c l IH]; intros Hok; [by repeat split; constructor|]. apply Forall_cons in Hok as [Hc Hok]. cbn [receive_loop]. twp_step.
  apply (twp_mono _ (λ '(c', out), c_file c' = c_file c ∧ c_sock c' = c_sock c ∧ tr_ok cfg (c_t c') ∧ fits out)).
  - destruct (recv (c_sock c)) as [[packet peer]|]; [|by repeat split; (done || apply Hc || constructor)].
    destruct (sockaddr_isequal peer (c_peer c)).
    + twp_step. eapply twp_mono; [apply handle_tftp_total|]. intros t [Ht1 Ht2]. cbn [twp]. split; [done|]. split; [done|]. split; [|constructor]. unfold tr_ok in *. cbn [c_t with_t]. rewrite Ht1. tauto.
    + cbn [twp]. do 3 (split; [done|]). constructor; [|constructor]. cbn [s_bytes].
      match goal with |- zlen (tftp_err ?e ?m) ≤ _ => pose proof (tftp_err_len e m) end. lia.
  - intros [c' out] (E1 & E2 & Hc' & Hout). twp_step. eapply twp_mono; [by apply IH|]. intros [l' out'] (F1 & F2 & Hl' & Hout'). cbn [twp].
    rewrite !fmap_cons, E1, E2, F1, F2. split; [done|]. split; [done|]. split; [by constructor|by apply Forall_app].
Qed.

Lemma expire_ok shl content errno us s c :
  tinv cfg base us s → c ∈ us → has_file c → tr_ok cfg (c_t c) →
  twp (expire shl content errno s c) (λ '(c', p, f), c_file c' = c_file c ∧ c_sock c' = c_sock c ∧ tr_ok cfg (c_t c') ∧ zlen p ≤ buff_sz cfg).
Proof.
  intros Hi Hc [id Ef] Hok. unfold expire. rewrite Ef. destruct (ti_file _ _ _ _ Hi c id Hc Ef) as [f Eff]. rewrite Eff. cbv zeta. twp_step.
  eapply twp_mono; [apply (get_block_total cfg); [lia|exact Hok]|]. intros [b t'] (Hbs & Hbo & Hti & Hb). cbn [blocksize backoff with_timer] in Hbs, Hbo. unfold tr_ok in *.
  destruct b as [p| |].
  - destruct (7 <? _); cbn; (split; [done|]; split; [done|]; split; [lia|]; change (zlen (@nil Z)) with 0; lia).
  - cbn. split; [done|]. split; [done|]. split; [lia|]. change (zlen (@nil Z)) with 0. lia.
  - cbn [twp]. split; [done|]. split; [done|]. split; [cbn; lia|]. match goal with |- zlen (tftp_err ?e ?m) ≤ _ => pose proof (tftp_err_len e m) end. lia.
Qed.

Lemma timer_loop_ok now shl content errno pre l dn s :
  tinv cfg base (pre ++ l ++ dn) s → Forall has_file (l ++ dn) → Forall (λ c, tr_ok cfg (c_t c)) (l ++ dn) →
  twp (timer_loop cfg now shl content errno l dn s)
    (λ '(st, out), tinv cfg base (pre ++ trans st ++ done_trans st) (st_store st) ∧ Forall has_file (trans st ++ done_trans st) ∧
       Forall (λ c, tr_ok cfg (c_t c)) (trans st ++ done_trans st) ∧ fits out).
Proof.
  revert pre dn s. induction l as [|c l IH]; intros pre dn s Hi Hf Hok; cbn [timer_loop app] in *; [split; [done|]; split; [done|]; split; [done|constructor]|].
  apply Forall_cons in Hf as [Hfc Hf]. apply Forall_cons in Hok as [Hoc Hok].
  assert (∀ c' s', c_file c' = c_file c → c_sock c' = c_sock c → tinv cfg base (pre ++ c :: l ++ dn) s' → tinv cfg base ((pre ++ [c']) ++ l ++ dn) s') as Hmove.
  { intros c' s' E1 E2 H. rewrite <- app_assoc. cbn [app]. apply (tinv_with_t cfg base (pre ++ c :: l ++ dn)); [by rewrite !fmap_app, !fmap_cons, E1|by rewrite !fmap_app, !fmap_cons, E2|done]. }
  destruct (now <? timeout (c_t c)).
  - twp_step. eapply twp_mono; [apply (IH (pre ++ [c])); [by apply Hmove|done|done]|]. intros [st out] (Hi' & Hf' & Hok' & Hout). cbn [twp trans done_trans st_store app].
    rewrite <- app_assoc in Hi'. split; [done|]. split; [by constructor|]. split; [by constructor|done].
  - twp_step. eapply twp_mono; [apply (expire_ok shl content errno _ s c Hi); [apply elem_of_app; right; by left|done|done]|].
    intros [[c' p] f] (E1 & E2 & Hoc' & Hp). cbv zeta. assert (fits (if zlen p =? 0 then [] else [Sent (c_sock c') (c_peer c') p])) as Hout0.
    { destruct (zlen p =? 0); [constructor|]. constructor; [done|constructor]. }
    assert (has_file c') as Hfc' by (unfold has_file; by rewrite E1). pose proof (Hmove c' s E1 E2 Hi) as Hi1. destruct f.
    + twp_step. eapply twp_mono; [apply (IH (pre ++ [c'])); done|]. intros [st out] (Hi' & Hf' & Hok' & Hout). cbn [twp trans done_trans st_store app].
      rewrite <- app_assoc in Hi'. split; [done|]. split; [by constructor|]. split; [by constructor|by apply Forall_app].
    + twp_step. eapply twp_mono; [apply (free_transfer_ok cfg base c' (pre ++ l ++ dn))|].
      { apply (tinv_perm cfg base ((pre ++ [c']) ++ l ++ dn)); [by rewrite <- app_assoc; cbn [app]; rewrite <- Permutation_middle|done]. }
      intros s2 Hi2. twp_step. eapply twp_mono; [by apply (IH pre dn s2)|]. intros [st out] (Hi' & Hf' & Hok' & Hout). cbn [twp].
      split; [done|]. split; [done|]. split; [done|by apply Forall_app].
    + twp_step. eapply twp_mono; [apply (IH pre (c' :: dn) s)|].
      * apply (tinv_perm cfg base ((pre ++ [c']) ++ l ++ dn)); [|done]. rewrite <- app_assoc. cbn [app]. by rewrite Permutation_middle.
      * rewrite !Forall_app, Forall_cons in *. tauto.
      * rewrite !Forall_app, Forall_cons in *. tauto.
      * intros [st out] (Hi' & Hf' & Hok' & Hout). cbn [twp]. split; [done|]. split; [done|]. split; [done|by apply Forall_app].
Qed.

Lemma check_listeners_ok now shl content errno recv text st :
  swf st → twp (check_tftp_listeners cfg now shl content errno recv text st) good.
Proof.
  intros [Hi Hf Hok]. unfold check_tftp_listeners. twp_step.
  apply (twp_mono _ (λ '(l', out), c_file <$> l' = c_file <$> trans st ∧ c_sock <$> l' = c_sock <$> trans st ∧ Forall (λ c, tr_ok cfg (c_t c)) l' ∧ fits out)).
  { apply Forall_app in Hok as [Hok _]. destruct (single_port cfg); [cbn; split; [done|]; split; [done|]; split; [done|constructor]|by apply receive_loop_ok]. }
  intros [l out] (E1 & E2 & Hl & Hout). twp_step. eapply twp_mono; [apply (timer_loop_ok now shl content errno [] l)|].
  - cbn [app]. apply (tinv_with_t cfg base (trans st ++ done_trans st)); [by rewrite !fmap_app, E1|by rewrite !fmap_app, E2|done].
  - apply Forall_app in Hf as [Hf1 Hf2]. apply Forall_app. split; [|done]. rewrite Forall_forall in *. intros c [i Hi']%list_elem_of_lookup. unfold has_file.
    assert (c_file <$> l !! i = c_file <$> trans st !! i) as E by (rewrite <- !list_lookup_fmap; by rewrite E1). rewrite Hi' in E.
    destruct (trans st !! i) as [c0|] eqn:E0; [|done]. injection E as ->. apply Hf1. by apply list_elem_of_lookup; exists i.
  - apply Forall_app in Hok as [_ Hok]. by apply Forall_app.
  - intros [st' out'] (Hi' & Hf' & Hok' & Hout'). cbn [twp]. split; [by split|by apply Forall_app].
Qed.

Lemma script_run_ok st : swf st → twp (do_tftp_script_run cfg st) (λ '(_, st'), swf st').
Proof.
  intros Hw. pose proof Hw as [Hi Hf Hok]. unfold do_tftp_script_run. destruct (done_trans st) as [|c dn] eqn:Ed; [done|]. twp_step.
  eapply twp_mono; [apply (free_transfer_ok cfg base c (trans st ++ dn)); apply (tinv_perm _ _ _ _ _ (symmetry (Permutation_middle _ _ _)) Hi)|].
  intros s Hi'. cbn [twp]. split; cbn [trans done_trans st_store]; [done| |]; rewrite !Forall_app, Forall_cons in *; tauto.
Qed.
End srv.
