(* ===== verification/TftpProps.v ===== *)
(** The properties of the TFTP server. *)
From Stdlib Require Import Ascii String.
From stdpp Require Import gmap.
From S2P Require Import Prelude Hostname WireSafe NetAddr SynthDomain SynthTrip Tftp TftpSpec TftpSrv TftpInv TftpReach.

(** * Paths *)

(** The names a path is made of. *)
Fixpoint components_aux (acc s : cstring) : list cstring :=
  match s with [] => [acc] | c :: s => if c =? slash then acc :: components_aux [] s else components_aux (acc ++ [c]) s end.
Definition components (s : cstring) : list cstring := components_aux [] s.

Lemma contains_suffix a b pat : contains (a ++ b) pat = false → contains b pat = false.
Proof. induction a as [|c a IH]; [done|]. cbn [app contains]. intros [_ H]%orb_false_iff. by apply IH. Qed.

Lemma components_aux_ne acc s : components_aux acc s ≠ [].
Proof. revert acc. induction s as [|c s IH]; intros acc; cbn [components_aux]; [done|]. destruct (c =? slash); [done|apply IH]. Qed.

Lemma inner_components acc s :
  contains (slash :: acc ++ s) (chars "/../") = false → Forall (λ d, d ≠ chars "..") (removelast (components_aux acc s)).
Proof.
  revert acc. induction s as [|c s IH]; intros acc Hc; cbn [components_aux]; [constructor|]. destruct (Z.eqb_spec c slash) as [->|Hne].
  - pose proof (components_aux_ne [] s) as Hn. destruct (components_aux [] s) as [|d l] eqn:E; [done|]. cbn [removelast]. constructor.
    + intros ->. cbn [contains] in Hc. apply orb_false_iff in Hc as [Hc _]. unfold isprefix in Hc. by rewrite bool_decide_eq_true_2 in Hc.
    + change (Forall (λ d, d ≠ chars "..") (removelast (d :: l))). rewrite <- E. apply IH. cbn [app]. apply (contains_suffix (slash :: acc)). exact Hc.
  - apply IH. by rewrite <- app_assoc.
Qed.

Lemma isprefix_self_app a b : isprefix a (a ++ b) = true.
Proof. unfold isprefix. rewrite take_app_length. by apply bool_decide_eq_true_2. Qed.

Lemma ncat_app buf s : ∃ t, ncat buf s = buf ++ t.
Proof. by eexists. Qed.
Lemma zlen_take_max n (s : cstring) : zlen (take (Z.to_nat n) s) ≤ Z.max 0 n.
Proof. unfold zlen. rewrite length_take. lia. Qed.
Lemma ncat_len buf s : strlen buf ≤ MAXDNAME - 1 → strlen (ncat buf s) ≤ MAXDNAME - 1.
Proof. unfold ncat, strlen. intros H. rewrite zlen_app. pose proof (zlen_take_max (MAXDNAME - 1 - zlen buf) s). lia. Qed.

Lemma unique_app isdir b ip mac : strlen b ≤ MAXDNAME - 1 → ∃ t, unique_mac isdir (unique_ip isdir b ip) mac = b ++ t ∧ strlen (b ++ t) ≤ MAXDNAME - 1.
Proof.
  intros Hb. assert (∃ t, unique_ip isdir b ip = b ++ t ∧ strlen (b ++ t) ≤ MAXDNAME - 1) as (t & -> & Ht).
  { unfold unique_ip. destruct ip as [d|]; [destruct (isdir _)|]; [| exists []; by rewrite app_nil_r | exists []; by rewrite app_nil_r]. destruct (ncat_app b d) as [t1 E1].
    destruct (ncat_app (ncat b d) [slash]) as [t2 E2]. exists (t1 ++ t2). rewrite E2, E1, app_assoc. split; [done|].
    rewrite <- E1, <- E2. by apply ncat_len, ncat_len. }
  unfold unique_mac. destruct mac as [d|]; [destruct (isdir _)|]; [| by exists t | by exists t]. eexists. rewrite <- app_assoc. split; [done|].
  rewrite app_assoc. unfold strlen in *. rewrite zlen_app. set (n := MAXDNAME - 2 - zlen (b ++ t)).
  pose proof (zlen_take_max n (d ++ [slash])). lia.
Qed.

Lemma prefix_path_shape p dir : prefix_path p = Ok dir → (∃ r, dir = slash :: r) ∧ strlen dir ≤ MAXDNAME - 1.
Proof.
  unfold prefix_path. destruct p as [|p0 p]; [done|]. set (b := ncat _ _). assert ((∃ r, b = slash :: r) ∧ strlen b ≤ MAXDNAME - 1) as [[r Eb] Hb].
  { split; [|unfold b; destruct (p0 =? slash); apply ncat_len; vm_compute; discriminate]. unfold b. destruct (Z.eqb_spec p0 slash) as [->|]; [|by eexists].
    unfold ncat. change (MAXDNAME - 1 - strlen []) with 1024. change (Z.to_nat 1024) with (S 1023). by eexists. }
  intros [= <-]. destruct (bool_decide _); [by eauto|]. split; [|by apply ncat_len]. rewrite Eb. unfold ncat. by eexists.
Qed.

(** C32. With a prefix configured, a file that is given to a client has a name that
    begins with the prefix, and every directory on the way is entered by its
    name: none but the last component is dot-dot. *)
Theorem tftp_path_confined cfg l s prefix isdir ip mac filename dir name op sb mem s' id :
  prefix_path prefix = Ok dir → file_path (Some prefix) isdir ip mac filename = Ok name →
  check_tftp_fileperm cfg l s true name op sb mem = Ok (s', inr id) →
  isprefix dir name = true ∧ Forall (λ d, d ≠ chars "..") (removelast (components name)).
Proof.
  intros Ed En Ec. destruct (prefix_path_shape prefix dir Ed) as [[r Er] Hlen]. unfold file_path in En. rewrite Ed in En. cbn [mbind res_bind] in En.
  destruct (unique_app isdir dir ip mac Hlen) as (t & Et & Ht). rewrite Et in En.
  assert (∃ u, name = dir ++ u) as [u Eu].
  { destruct filename as [|c f]; [injection En as <-; by eexists|]. destruct (c =? slash).
    - destruct (isprefix (dir ++ t) (c :: f)) eqn:Ep; injection En as <-.
      + apply isprefix_app in Ep. rewrite Ep. unfold ncat. change (MAXDNAME - 1 - strlen []) with (MAXDNAME - 1). cbn [app].
        rewrite take_app_ge by (unfold strlen, zlen in Ht; unfold MAXDNAME in *; lia). rewrite <- !app_assoc. by eexists.
      + unfold ncat. rewrite <- app_assoc. by eexists.
    - injection En as <-. unfold ncat. rewrite <- app_assoc. by eexists. }
  split; [rewrite Eu; apply isprefix_self_app|]. unfold check_tftp_fileperm in Ec. destruct (contains name (chars "/../")) eqn:Ecn; [done|]. subst name dir.
  unfold components. cbn [app components_aux]. change (slash =? slash) with true. cbv iota. pose proof (components_aux_ne [] (r ++ u)) as Hn.
  destruct (components_aux [] (r ++ u)) as [|d k] eqn:E; [done|]. cbn [removelast]. constructor; [done|].
  change (Forall (λ d, d ≠ chars "..") (removelast (d :: k))). rewrite <- E. apply inner_components. exact Ecn.
Qed.

(** * The server as a whole *)

Inductive tevent :=
  | Asked (now : Z) (y : sys) (q : request)
  | Checked (now : Z) (shl : Z → Z) (content : Z → list Z) (errno : cstring) (recv : Z → option (list Z * mysockaddr)) (text : mysockaddr → cstring)
  | Reported.

Definition tstep (cfg : tftp_cfg) (ev : tevent) (st : tftp_state) : res (tftp_state * list sent) :=
  match ev with
  | Asked now y q => tftp_request cfg now y q st
  | Checked now shl content errno recv text => check_tftp_listeners cfg now shl content errno recv text st
  | Reported => '(_, st') ← do_tftp_script_run cfg st; Ok (st', [])
  end.

(** New descriptors and files are new, and a prefix is not empty. *)
Definition tevent_ok (ev : tevent) (st : tftp_state) : Prop :=
  match ev with Asked _ y q => sys_ok (st_store st) y ∧ q_prefix q ≠ Some [] | _ => True end.

Inductive treach (cfg : tftp_cfg) (base : gset Z) : tftp_state → Prop :=
  | treach_start : treach cfg base (TftpState [] [] (Store ∅ base))
  | treach_step st ev st' out : treach cfg base st → tevent_ok ev st → tstep cfg ev st = Ok (st', out) → treach cfg base st'.

Section reach.
Context (cfg : tftp_cfg) (base : gset Z).
Hypothesis (Hbuf : 516 ≤ buff_sz cfg < 2147483648).

Lemma tstep_ok ev st : swf cfg base st → tevent_ok ev st → twp (tstep cfg ev st) (good cfg base).
Proof.
  intros Hw He. destruct ev as [now y q|now shl content errno recv text|]; cbn [tstep].
  - destruct He. by apply tftp_request_ok.
  - by apply check_listeners_ok.
  - twp_step. eapply twp_mono; [by apply (script_run_ok cfg base)|]. intros [r st'] Hst. cbn [twp]. split; [done|constructor].
Qed.

Lemma swf_start : swf cfg base (TftpState [] [] (Store ∅ base)).
Proof.
  split; [|constructor..]. split; cbn [trans done_trans st_store files fds app]; try done.
  - by intros c id ?%elem_of_nil.
  - by intros c _ ?%elem_of_nil.
  - intros _. constructor.
  - auto.
Qed.

Lemma treach_swf st : treach cfg base st → swf cfg base st.
Proof.
  induction 1 as [|st ev st' out _ IH He E]; [apply swf_start|]. pose proof (tstep_ok ev st IH He) as H. rewrite E in H. by destruct H.
Qed.

Lemma idle_store us s : single_port cfg = false → tinv cfg base us s → us = [] → files s = ∅ ∧ fds s = base.
Proof.
  intros Hm Hi ->. assert (files s = ∅) as Hf.
  { apply map_empty. intros id. destruct (files s !! id) as [f|] eqn:E; [|done]. destruct (ti_ref _ _ _ _ Hi id f E) as (H1 & _ & H2).
    specialize (H2 Hm). change (count_uses id []) with 0 in H2. lia. }
  split; [done|]. apply set_eq. intros x. split; [|apply (ti_base _ _ _ _ Hi)]. intros Hx.
  destruct (ti_all _ _ _ _ Hi x Hx) as [|[(id & f & E & _)|(_ & c & Hc & _)]]; [done| |by apply elem_of_nil in Hc]. by rewrite Hf, lookup_empty in E.
Qed.
End reach.

(** C16. In every state the server reaches, whatever requests, packets, timers and
    failures come, the next event is handled without use of a file or
    descriptor that is gone, with packets that fit the packet buffer, and every
    transfer has its file. With a socket for each transfer, a file has as many
    references as transfers, and when no transfer is left the descriptors are those
    that were open at the start. *)
Theorem tftp_resources cfg base st ev :
  516 ≤ buff_sz cfg < 2147483648 → treach cfg base st → tevent_ok ev st →
  (∃ st' out, tstep cfg ev st = Ok (st', out) ∧ Forall (λ p, zlen (s_bytes p) ≤ buff_sz cfg) out) ∧
  (∀ c, c ∈ trans st ++ done_trans st → ∃ id f, c_file c = Some id ∧ files (st_store st) !! id = Some f ∧ tf_fd f ∈ fds (st_store st)) ∧
  (single_port cfg = false →
    (∀ id f, files (st_store st) !! id = Some f → tf_ref f = count_uses id (trans st ++ done_trans st)) ∧
    (trans st ++ done_trans st = [] → files (st_store st) = ∅ ∧ fds (st_store st) = base)).
Proof.
  intros Hbuf Hr He. pose proof (treach_swf cfg base Hbuf st Hr) as Hw. pose proof (tstep_ok cfg base Hbuf ev st Hw He) as Hs.
  destruct (tstep cfg ev st) as [[st' out]| | |]; [|done..]. destruct Hs as [_ Hout]. pose proof Hw as [Hi Hf _]. split; [by eauto|]. split; [|intros Hm; split].
  - intros c Hc. rewrite Forall_forall in Hf. destruct (Hf c Hc) as [id Ec]. destruct (ti_file _ _ _ _ Hi c id Hc Ec) as [f Ef].
    exists id, f. split_and!; [done..|]. by destruct (ti_fd _ _ _ _ Hi id f Ef).
  - intros id f E'. by apply (ti_ref _ _ _ _ Hi id f E').
  - by apply (idle_store cfg base).
Qed.

(** * Transfers whose client is gone *)

(** The time at which every timer has run out. *)
Definition latest (l : list conn) : Z := foldr Z.max 0 ((λ c, timeout (c_t c)) <$> l).
Lemma latest_ge l : Forall (λ c, timeout (c_t c) ≤ latest l) l.
Proof.
  unfold latest. induction l as [|c l IH]; [constructor|]. constructor; cbn [fmap list_fmap foldr]; [lia|]. eapply Forall_impl; [exact IH|]. intros d Hd. cbn [fmap list_fmap foldr] in *. lia.
Qed.

Section idle.
Context (cfg : tftp_cfg) (base : gset Z) (shl : Z → Z) (content : Z → list Z) (errno : cstring) (text : mysockaddr → cstring).

(** Rounds of the main loop in which nothing comes from the clients. *)
Fixpoint idle_rounds (n : nat) (st : tftp_state) : res tftp_state :=
  match n with
  | O => Ok st
  | S n => '(st, _) ← check_tftp_listeners cfg (latest (trans st)) shl content errno (λ _, None) text st; idle_rounds n st
  end.

Lemma receive_nothing now l : receive_loop now (λ _, None) text l = Ok (l, []).
Proof. induction l as [|c l IH]; [done|]. cbn [receive_loop mbind res_bind]. by rewrite IH. Qed.

Lemma get_block_backoff data size t b t' : get_block data size t = Ok (b, t') → backoff t' = backoff t.
Proof.
  unfold get_block. destruct (block t =? 0); [by intros [= _ <-]|]. destruct (size <? offset t); [by intros [= _ <-]|]. cbv zeta.
  destruct (_ && _); [by intros [= _ <-]|]. destruct (netascii t); [|by intros [= _ <-]].
  destruct (expand_loop _ _ _ _ _ _ _) as [[[d e] nc]| | |]; [by intros [= _ <-]|done..].
Qed.

Lemma expire_backoff s c c' p :
  expire shl content errno s c = Ok (c', p, Goes) → backoff (c_t c') = backoff (c_t c) + 1 ∧ backoff (c_t c') ≤ 7.
Proof.
  unfold expire. destruct (c_file c) as [id|]; [|done]. destruct (files s !! id) as [f|]; [|done]. cbv zeta.
  set (t := with_timer _ _ _). destruct (get_block _ _ t) as [[b t']| | |] eqn:E; [|done..]. cbn [mbind res_bind].
  destruct b as [q| |]; [|by destruct (_ && _)|done]. pose proof (get_block_backoff _ _ _ _ _ E) as Hb. change (backoff t) with (backoff (c_t c)) in Hb.
  destruct (Z.ltb_spec 7 (backoff (with_timer t' (timeout t') (backoff t' + 1)))) as [|H7]; [by destruct (_ =? _)|]. intros [= <- <-]. cbn [c_t with_t with_timer backoff] in *. lia.
Qed.
Lemma timer_loop_backoff now n l dn s st out :
  Forall (λ c, timeout (c_t c) ≤ now ∧ n ≤ backoff (c_t c)) l → timer_loop cfg now shl content errno l dn s = Ok (st, out) →
  Forall (λ c, n + 1 ≤ backoff (c_t c) ≤ 7) (trans st).
Proof.
  revert dn s st out. induction l as [|c l IH]; intros dn s st out Hl; [intros [= <- <-]; constructor|]. apply Forall_cons in Hl as [[Ht Hn] Hl].
  cbn [timer_loop]. rewrite (proj2 (Z.ltb_ge now (timeout (c_t c)))) by done. destruct (expire shl content errno s c) as [[[c' p] f]| | |] eqn:Ee; [|done..].
  cbn [mbind res_bind]. cbv zeta. destruct f.
  - destruct (timer_loop _ _ _ _ _ l dn s) as [[st1 out1]| | |] eqn:E; [|done..]. intros [= <- <-]. cbn [trans]. constructor; [|by eapply IH].
    destruct (expire_backoff _ _ _ _ Ee). lia.
  - destruct (free_transfer cfg s c') as [s1| | |]; [|done..]. cbn [mbind res_bind].
    destruct (timer_loop _ _ _ _ _ l dn s1) as [[st1 out1]| | |] eqn:E; [|done..]. intros [= <- <-]. by eapply IH.
  - destruct (timer_loop _ _ _ _ _ l (c' :: dn) s) as [[st1 out1]| | |] eqn:E; [|done..]. intros [= <- <-]. by eapply IH.
Qed.

Lemma idle_rounds_backoff n k st :
  516 ≤ buff_sz cfg < 2147483648 → swf cfg base st → Forall (λ c, k ≤ backoff (c_t c)) (trans st) →
  (1 ≤ n)%nat → twp (idle_rounds n st) (λ st', swf cfg base st' ∧ Forall (λ c, k + Z.of_nat n ≤ backoff (c_t c) ≤ 7) (trans st')).
Proof.
  intros Hbuf. revert k st. induction n as [|n IH]; intros k st Hw Hk Hn; [lia|]. cbn [idle_rounds]. set (now := latest (trans st)).
  pose proof (check_listeners_ok cfg base Hbuf now shl content errno (λ _, None) text st Hw) as Hg.
  assert (∀ st' out, check_tftp_listeners cfg now shl content errno (λ _, None) text st = Ok (st', out) → Forall (λ c, k + 1 ≤ backoff (c_t c) ≤ 7) (trans st')) as Hb.
  { intros st' out. unfold check_tftp_listeners. assert ((if single_port cfg then Ok (trans st, []) else receive_loop now (λ _, None) text (trans st)) = Ok (trans st, [])) as ->
      by (destruct (single_port cfg); [done|apply receive_nothing]). cbn [mbind res_bind].
    destruct (timer_loop _ _ _ _ _ _ _ _) as [[st1 out1]| | |] eqn:E; [|done..]. intros [= <- _]. eapply timer_loop_backoff; [|exact E].
    apply Forall_forall. intros c Hc. pose proof (latest_ge (trans st)) as Hl. rewrite Forall_forall in Hl, Hk. split; [by apply Hl|by apply Hk]. }
  destruct (check_tftp_listeners _ _ _ _ _ _ _ _) as [[st' out]| | |]; [|done..]. specialize (Hb st' out eq_refl). destruct Hg as [Hw' _]. cbn [fst] in Hw'. cbn [mbind res_bind].
  destruct n as [|n]; [cbn [idle_rounds twp]; split; [done|]; eapply Forall_impl; [exact Hb|]; intros c Hc; cbv beta in *; lia|].
  eapply twp_mono; [apply (IH (k + 1) st' Hw')|].
  - eapply Forall_impl; [exact Hb|]. intros c Hc. cbv beta in *. lia.
  - lia.
  - intros st2 [Hw2 H2]. split; [done|]. eapply Forall_impl; [exact H2|]. intros c Hc. cbv beta in *. lia.
Qed.
End idle.

(** C30. A client that falls silent does not hold a transfer for ever: when nothing
    comes from the clients, every transfer has ended after its timer has run
    out eight times, whatever its state was. *)
Theorem tftp_transfers_end cfg base shl content errno text st :
  516 ≤ buff_sz cfg < 2147483648 → treach cfg base st →
  ∃ st', idle_rounds cfg shl content errno text 8 st = Ok st' ∧ trans st' = [] ∧ treach cfg base st'.
Proof.
  intros Hbuf Hr. pose proof (treach_swf cfg base Hbuf st Hr) as Hw.
  pose proof (idle_rounds_backoff cfg base shl content errno text 8 0 st Hbuf Hw) as H.
  assert (Forall (λ c, 0 ≤ backoff (c_t c)) (trans st)) as H0.
  { pose proof (sw_ok _ _ _ Hw) as Ho. apply Forall_app in Ho as [Ho _]. eapply Forall_impl; [exact Ho|]. intros c Hc. apply Hc. }
  specialize (H H0 ltac:(lia)). clear H0.
  destruct (idle_rounds _ _ _ _ _ 8 st) as [st'| | |] eqn:E; [|done..]. destruct H as [_ H]. exists st'. split; [done|]. split.
  - destruct (trans st') as [|c l]; [done|]. apply Forall_cons in H as [H _]. lia.
  - clear H Hw. revert st Hr E. generalize 8%nat. intros n. induction n as [|n IH]; intros st Hr; cbn [idle_rounds]; [by intros [= <-]|].
    destruct (check_tftp_listeners _ _ _ _ _ _ _ _) as [[st1 out]| | |] eqn:E; [|done..]. apply IH.
    by apply (treach_step cfg base st (Checked (latest (trans st)) shl content errno (λ _, None) text) st1 out).
Qed.

(** * Requests that are refused *)

Lemma close_open (s : store) fd : fd ∉ fds s → close_desc (Store (files s) (fds s ∪ {[fd]})) fd = Ok s.
Proof.
  intros H. unfold close_desc. cbn [fds files]. rewrite decide_True by set_solver. destruct s as [fs ds]. cbn [fds files] in *. do 2 f_equal. set_solver.
Qed.

(** What a call of check_tftp_fileperm leaves: nothing when the file is denied,
    and a new file or one more reference otherwise. *)
Lemma fileperm_effect cfg l s hp name op sb mem s' r :
  fresh_open s op mem → check_tftp_fileperm cfg l s hp name op sb mem = Ok (s', r) →
  match r with
  | inl _ => s' = s
  | inr id => (∃ fd f, s' = Store (<[id := f]> (files s)) (fds s ∪ {[fd]}) ∧ (fd ∉ fds s) ∧ files s !! id = None ∧ tf_fd f = fd ∧ tf_ref f = 1) ∨
              (∃ f, files s !! id = Some f ∧ s' = set_file s id (with_ref f (tf_ref f + 1)))
  end.
Proof.
  intros [Hop Hmem]. unfold check_tftp_fileperm. destruct (hp && _); [by intros [= <- <-]|]. destruct op as [| | |fd]; [by intros [= <- <-]..|].
  specialize (Hop fd eq_refl). cbv zeta. rewrite (close_open s fd Hop). cbn [mbind res_bind]. destruct sb as [sb|]; [|by intros [= <- <-]].
  destruct (if euid cfg =? 0 then _ else _); [by intros [= <- <-]|]. destruct (find_shared _ sb name l) as [[id|]| | |]; [| |done..]; cbn [mbind res_bind].
  - destruct (files _ !! id) as [f|] eqn:Ef; [|done]. intros [= <- <-]. right. by exists f.
  - destruct mem as [id|]; [|by intros [= <- <-]]. intros [= <- <-]. left. exists fd. eexists. split; [done|]. split_and!; [done|by apply Hmem|done..].
Qed.

(** Freeing the transfer takes it all back. *)
Lemma free_undoes cfg s s' t t' sock peer id :
  single_port cfg = false → sock ∈ fds s → (∀ i f, files s !! i = Some f → 1 ≤ tf_ref f) →
  (∃ fd f, s' = Store (<[id := f]> (files s)) (fds s ∪ {[fd]}) ∧ (fd ∉ fds s) ∧ files s !! id = None ∧ tf_fd f = fd ∧ tf_ref f = 1) ∨
  (∃ f, files s !! id = Some f ∧ s' = set_file s id (with_ref f (tf_ref f + 1))) →
  free_transfer cfg s' (Conn t sock peer (Some id)) = free_transfer cfg s (Conn t' sock peer None).
Proof.
  intros Hm Hs Hr [(fd & f & -> & Hfd & Hid & Ef & E1)|(f & Ef & ->)]; unfold free_transfer, close_desc; rewrite Hm; cbn [c_sock c_file].
  - cbn [fds files]. rewrite !decide_True by set_solver. cbn [mbind res_bind files fds]. rewrite lookup_insert_eq, E1, Ef. change (1 - 1 =? 0) with true. cbv iota.
    rewrite decide_True by set_solver. cbn [mbind res_bind files fds]. rewrite delete_insert_id by done. do 2 f_equal. set_solver.
  - unfold set_file. cbn [fds files]. rewrite !decide_True by done. cbn [mbind res_bind files fds]. rewrite lookup_insert_eq. cbn [with_ref tf_ref].
    replace (tf_ref f + 1 - 1) with (tf_ref f) by lia. rewrite (proj2 (Z.eqb_neq (tf_ref f) 0)) by (specialize (Hr id f Ef); lia). unfold set_file, with_ref. cbn [files fds tf_fd tf_size tf_dev tf_ino tf_name].
    rewrite insert_insert_eq, insert_id; [done|]. rewrite Ef. by destruct f.
Qed.

Lemma answer_refused cfg y q l s c s' p c' :
  single_port cfg = false → c_sock c ∈ fds s → c_file c = None → (∀ i f, files s !! i = Some f → 1 ≤ tf_ref f) → (∀ name, fresh_open s (y_open y name) (y_file y)) →
  answer_request cfg y q l s c = Ok (s', p, c', false) → free_transfer cfg s' c' = free_transfer cfg s c ∧ ∃ err msg, p = tftp_err err msg.
Proof.
  intros Hm Hs Hc Hr Hfresh. destruct c as [t0 sock peer cf]. cbn [c_sock c_file] in Hs, Hc. subst cf. unfold answer_request.
  destruct (parse_request _ _ _ _ _ _ _) as [[[fname t]|]| | |]; [| |done..]; cbn [mbind res_bind]; [|intros [= <- <- <-]; by eauto].
  destruct (file_path _ _ _ _ _) as [name| | |]; [|done..]. cbn [mbind res_bind].
  destruct (check_tftp_fileperm _ _ _ _ _ _ _ _) as [[s1 r]| | |] eqn:Ec; [|done..]. apply fileperm_effect in Ec; [|done]. cbn [mbind res_bind].
  assert (∀ why, ∃ err msg, deny_packet why y q name = tftp_err err msg) as Hd by (intros []; eexists _, _; reflexivity).
  destruct r as [why|id]; [subst s1; intros [= <- <- <-]; by auto|]. cbv zeta. destruct (files s1 !! id) as [f|]; [|done].
  destruct (get_block _ _ t) as [[b t']| | |]; [|done..]. cbn [mbind res_bind]. destruct b as [pk| |]; [done..|]. intros [= <- <- <-]. split; [|exact (Hd Oops)].
  by apply free_undoes.
Qed.

Lemma answer_keeps cfg y q l s c s' p c' ok : answer_request cfg y q l s c = Ok (s', p, c', ok) → c_sock c' = c_sock c ∧ c_peer c' = c_peer c.
Proof.
  unfold answer_request. destruct (parse_request _ _ _ _ _ _ _) as [[[fname t]|]| | |]; [| |done..]; cbn [mbind res_bind]; [|by intros [= _ _ <- _]].
  destruct (file_path _ _ _ _ _) as [name| | |]; [|done..]. cbn [mbind res_bind].
  destruct (check_tftp_fileperm _ _ _ _ _ _ _ _) as [[s1 r]| | |]; [|done..]. cbn [mbind res_bind]. destruct r as [why|id]; [by intros [= _ _ <- _]|]. cbv zeta.
  destruct (files s1 !! id) as [f|]; [|done]. destruct (get_block _ _ t) as [[[pk| |] t']| | |]; [..|done|done|done]; by intros [= _ _ <- _].
Qed.


(** * A server at work *)

Definition demo_cfg : tftp_cfg := TftpCfg false false false false 50 4096 0 0 1 (λ _, 0).
Definition demo_request : request :=
  Request (htons OP_RRQ ++ zstring "boot" ++ zstring "octet") (SA_in 2000 [127; 0; 0; 1]) (chars "127.0.0.1") false 1500 (Some (chars "/srv")) 5.
Definition demo_sys : sys :=
  Sys true 0 (Some 10) (λ _, BindOk) (λ name, if bool_decide (name = chars "/srv/boot") then Opened 11 else NotFound) (Some (Stat 1 2 3 0 true)) (Some 7)
    (λ fd, if fd =? 11 then [65; 10; 66] else []) [] (λ _, false) None None.
Definition demo_start : tftp_state := TftpState [] [] (Store ∅ {[0; 5]}).
Definition demo_busy : tftp_state :=
  TftpState [Conn (Transfer 3 1 1 512 0 0 false false false false) 10 (SA_in 2000 [127; 0; 0; 1]) (Some 7)] []
    (Store {[7 := TFile 11 3 1 2 1 (chars "/srv/boot")]} {[0; 5; 10; 11]}).

Lemma demo_ok : tevent_ok (Asked 1 demo_sys demo_request) demo_start.
Proof.
  split; [|done]. split; cbn [demo_sys y_socket y_open y_file demo_start st_store fds files].
  - intros fd [= <-]. set_solver.
  - intros name fd. case_bool_decide; [|done]. intros [= <-]. split; [set_solver|done].
  - done.
Qed.

Lemma demo_step : tstep demo_cfg (Asked 1 demo_sys demo_request) demo_start = Ok (demo_busy, [Sent 10 (SA_in 2000 [127; 0; 0; 1]) [0; 3; 0; 1; 65; 10; 66]]).
Proof. vm_compute. reflexivity. Qed.

Lemma demo_reach : treach demo_cfg {[0; 5]} demo_busy.
Proof. exact (treach_step demo_cfg {[0; 5]} demo_start _ _ _ (treach_start _ _) demo_ok demo_step). Qed.

Lemma tftp_resources_witness :
  ∃ st' out, tstep demo_cfg (Asked 1 demo_sys demo_request) demo_start = Ok (st', out) ∧ Forall (λ p, zlen (s_bytes p) ≤ buff_sz demo_cfg) out.
Proof. exact (proj1 (tftp_resources demo_cfg {[0; 5]} demo_start (Asked 1 demo_sys demo_request) ltac:(cbn; lia) (treach_start _ _) demo_ok)). Defined.

Lemma tftp_transfers_end_witness :
  ∃ st', idle_rounds demo_cfg (Z.shiftl 1) (y_content demo_sys) [] (λ _, []) 8 demo_busy = Ok st' ∧ trans st' = [] ∧ treach demo_cfg {[0; 5]} st'.
Proof. exact (tftp_transfers_end demo_cfg {[0; 5]} (Z.shiftl 1) (y_content demo_sys) [] (λ _, []) demo_busy ltac:(cbn; lia) demo_reach). Defined.

(** A name that leaves the directory is refused: the state is the same. *)
Definition demo_bad : request :=
  Request (htons OP_RRQ ++ zstring "../../etc/passwd" ++ zstring "octet") (SA_in 2000 [127; 0; 0; 1]) (chars "127.0.0.1") false 1500 (Some (chars "/srv")) 5.
Definition demo_denied : list sent :=
  [Sent 10 (SA_in 2000 [127; 0; 0; 1]) (tftp_err ERR_PERM (chars "cannot access /srv/../../etc/passwd: Permission denied"))].


Lemma tftp_path_confined_witness :
  isprefix (chars "/srv/") (chars "/srv/boot") = true ∧ Forall (λ d, d ≠ chars "..") (removelast (components (chars "/srv/boot"))).
Proof.
  apply (tftp_path_confined demo_cfg [] (st_store demo_start) (chars "/srv") (y_isdir demo_sys) None None (chars "boot") (chars "/srv/") (chars "/srv/boot")
    (Opened 11) (y_stat demo_sys) (Some 7) (Store {[7 := TFile 11 3 1 2 1 (chars "/srv/boot")]} {[0; 5; 11]}) 7); vm_compute; reflexivity.
Defined.


(** * What goes wrong *)

(** In netascii mode a block that is sent again is not the same block when it
    ends between CR and LF: the state says that the CR has gone. *)
Definition resend (content : list Z) (t : transfer) : res (block_result * block_result) :=
  '(p, t) ← get_block content (zlen content) t; '(p', _) ← get_block content (zlen content) t; Ok (p, p').
Example resent_block_differs :
  resend [10; 97; 10] (Transfer 0 0 1 4 0 0 false false true false) = Ok (Block [0; 3; 0; 1; 13; 10; 97; 13], Block [0; 3; 0; 1; 10; 97; 13; 10]).
Proof. vm_compute. reflexivity. Qed.

(** An answer to options that is never acknowledged: the transfer joins the
    list of those that are reported as sent. *)
Definition demo_unanswered : conn := Conn (Transfer 3 7 0 512 0 0 true false false false) 10 (SA_in 2000 [127; 0; 0; 1]) (Some 7).
Example unanswered_is_queued :
  (r ← expire (Z.shiftl 1) (y_content demo_sys) [] (st_store demo_busy) demo_unanswered; Ok r.2) = Ok Queued.
Proof. vm_compute. reflexivity. Qed.

(** In single-port mode a request that is repeated loses the file of the first: a
    second reference is taken and one is given back. *)
Definition single_cfg : tftp_cfg := TftpCfg true false false false 50 4096 0 0 1 (λ _, 0).
Definition demo_again : sys :=
  Sys true 0 None (λ _, BindOk) (λ _, Opened 12) (Some (Stat 1 2 3 0 true)) (Some 8) (λ _, [65; 10; 66]) [] (λ _, false) None None.
Definition repeated : res (list (Z * tfile) * gset Z) :=
  '(st, _) ← tftp_request single_cfg 1 demo_sys demo_request demo_start;
  '(st, _) ← tftp_request single_cfg 2 demo_again demo_request st;
  st ← idle_rounds single_cfg (Z.shiftl 1) (λ _, [65; 10; 66]) [] (λ _, []) 8 st;
  '(_, st) ← do_tftp_script_run single_cfg st;
  Ok (map_to_list (files (st_store st)), fds (st_store st)).
Example repeated_request_leaks : repeated = Ok ([(7, TFile 11 3 1 2 1 (chars "/srv/boot"))], {[0; 5; 11]}).
Proof. vm_compute. reflexivity. Qed.
