(* ===== verification/Blockdata.v ===== *)
(** Storage for keys and signatures in blocks of fixed size
    (src/src/blockdata.c): a pool with a free list from which chains of blocks
    are taken and to which they are returned. *)
From S2P Require Import Prelude Chain.

Definition KEYBLOCK_LEN : Z := 40.

(** The blocks that have been allocated, their [key] and [next] fields, and the
    static variables of the file. *)
Record pool := Pool {
  keys : gmap Z (list Z); bnext : gmap Z Z;
  keyblock_free : Z; blockdata_count : Z; blockdata_hwm : Z; blockdata_alloced : Z
}.

Definition set_bnext (m : gmap Z Z) (d : pool) : pool :=
  Pool (keys d) m (keyblock_free d) (blockdata_count d) (blockdata_hwm d) (blockdata_alloced d).
Definition set_free (p : Z) (d : pool) : pool :=
  Pool (keys d) (bnext d) p (blockdata_count d) (blockdata_hwm d) (blockdata_alloced d).
Definition set_count (n hwm : Z) (d : pool) : pool :=
  Pool (keys d) (bnext d) (keyblock_free d) n hwm (blockdata_alloced d).
Definition set_key (p : Z) (k : list Z) (d : pool) : pool :=
  Pool (<[p := k]> (keys d)) (bnext d) (keyblock_free d) (blockdata_count d) (blockdata_hwm d) (blockdata_alloced d).

Definition block_next (d : pool) (p : Z) : res Z :=
  match bnext d !! p with Some n => Ok n | None => Oob end.
Definition block_key (d : pool) (p : Z) : res (list Z) :=
  match keys d !! p with Some k => Ok k | None => Oob end.
Definition set_next_field (p n : Z) (d : pool) : res pool :=
  match bnext d !! p with Some _ => Ok (set_bnext (<[p := n]> (bnext d)) d) | None => Oob end.

(** The blocks of an array of [n] from the address [base] on, linked in order,
    the last one to [tail]. Addresses count blocks. *)
Fixpoint link_new (n : nat) (base tail : Z) (m : gmap Z Z) : gmap Z Z :=
  match n with
  | O => m
  | S O => <[base := tail]> m
  | S n => <[base := base + 1]> (link_new n (base + 1) tail m)
  end.
Fixpoint clear_new (n : nat) (base : Z) (m : gmap Z (list Z)) : gmap Z (list Z) :=
  match n with
  | O => m
  | S n => <[base := replicate 40 0]> (clear_new n (base + 1) m)
  end.

Section blockdata.
(** The allocator: the address of a new array of the given number of blocks, 0
    if there is no memory. *)
Context (malloc : gmap Z Z → Z → Z).

Definition blockdata_expand (n : Z) (d : pool) : res pool :=
  let new := malloc (bnext d) n in
  if new =? 0 then Ok d
  else if n <=? 0 then Oob
  else
    Ok (Pool (clear_new (Z.to_nat n) new (keys d)) (link_new (Z.to_nat n) new (keyblock_free d) (bnext d)) new
      (blockdata_count d) (blockdata_hwm d) (u32 (blockdata_alloced d + n))).

Definition blockdata_init (dnssec : bool) (cachesize : Z) (d : pool) : res pool :=
  let d := Pool (keys d) (bnext d) 0 0 0 0 in
  if dnssec then blockdata_expand cachesize d else Ok d.

(** [for (tmp = blocks; tmp->next; tmp = tmp->next) blockdata_count--]. *)
Fixpoint last_block (fuel : nat) (tmp : Z) (d : pool) : res (Z * pool) :=
  match fuel with
  | O => NoFuel
  | S fuel =>
      n ← block_next d tmp;
      if n =? 0 then Ok (tmp, d)
      else last_block fuel n (set_count (u32 (blockdata_count d - 1)) (blockdata_hwm d) d)
  end.

Definition blockdata_free (blocks : Z) (d : pool) : res pool :=
  if blocks =? 0 then Ok d
  else
    '(tmp, d) ← last_block (S (size (bnext d))) blocks d;
    d ← set_next_field tmp (keyblock_free d) d;
    Ok (set_count (u32 (blockdata_count d - 1)) (blockdata_hwm d) (set_free blocks d)).

(** Where the data comes from: memory, or a descriptor on which [input] can be
    read; [None] is a failed read_write. *)
Inductive source := Mem (data : list Z) | Fd (input : list Z).
Definition take_source (src : source) (blen : Z) : res (option (list Z * source)) :=
  match src with
  | Mem data =>
      if zlen data <? blen then Oob
      else Ok (Some (take (Z.to_nat blen) data, Mem (drop (Z.to_nat blen) data)))
  | Fd input =>
      if zlen input <? blen then Ok None
      else Ok (Some (take (Z.to_nat blen) input, Fd (drop (Z.to_nat blen) input)))
  end.

(** [block = keyblock_free; keyblock_free = block->next], after an expansion
    if the list is empty; 0 if there is none. *)
Definition take_block (d : pool) : res (Z * pool) :=
  d ← (if keyblock_free d =? 0 then blockdata_expand 50 d else Ok d);
  let block := keyblock_free d in
  if block =? 0 then Ok (0, d)
  else
    n ← block_next d block;
    let count := u32 (blockdata_count d + 1) in
    let hwm := if blockdata_hwm d <? count then count else blockdata_hwm d in
    Ok (block, set_count count hwm (set_free n d)).

(** The loop of [blockdata_alloc_real]: [prev] is the block whose [next] field
    [*prev] is, [None] for the variable [ret]. *)
Fixpoint alloc_loop (fuel : nat) (src : source) (len ret : Z) (prev : option Z) (d : pool) : res (Z * pool) :=
  if len <=? 0 then Ok (ret, d)
  else
    match fuel with
    | O => NoFuel
    | S fuel =>
        '(block, d) ← take_block d;
        if block =? 0 then d ← blockdata_free ret d; Ok (0, d)
        else
          let blen := if KEYBLOCK_LEN <? len then KEYBLOCK_LEN else len in
          r ← take_source src blen;
          match r with
          | None => d ← blockdata_free ret d; Ok (0, d)
          | Some (bytes, src) =>
              k ← block_key d block;
              let d := set_key block (bytes ++ drop (Z.to_nat blen) k) d in
              d ← match prev with None => Ok d | Some p => set_next_field p block d end;
              let ret := match prev with None => block | Some _ => ret end in
              d ← set_next_field block 0 d;
              alloc_loop fuel src (len - blen) ret (Some block) d
          end
    end.

Definition blockdata_alloc (data : list Z) (len : Z) (d : pool) : res (Z * pool) :=
  alloc_loop (S (Z.to_nat len)) (Mem data) len 0 None d.
Definition blockdata_read (input : list Z) (len : Z) (d : pool) : res (Z * pool) :=
  alloc_loop (S (Z.to_nat len)) (Fd input) len 0 None d.
End blockdata.

(** The bytes copied out, in order: what the loops of [blockdata_retrieve]
    store in the buffer and of [blockdata_write] write. *)
Fixpoint copy_loop (fuel : nat) (d : pool) (block len : Z) : res (list Z) :=
  if (len <=? 0) || (block =? 0) then Ok []
  else
    match fuel with
    | O => NoFuel
    | S fuel =>
        let blen := if KEYBLOCK_LEN <? len then KEYBLOCK_LEN else len in
        k ← block_key d block;
        n ← block_next d block;
        rest ← copy_loop fuel d n (len - blen);
        Ok (take (Z.to_nat blen) k ++ rest)
    end.

(** [data] is the caller's buffer, [None] for a buffer of the function's own,
    which [malloc_ok] says could be allocated; the buffer on return. *)
Definition blockdata_retrieve (malloc_ok : bool) (block len : Z) (data : option (list Z)) (d : pool)
    : res (option (list Z)) :=
  match (match data with Some b => Some b | None => if (0 <? len) && negb malloc_ok then None else Some (repeat 0 (Z.to_nat len)) end) with
  | None => Ok None
  | Some buf =>
      bytes ← copy_loop (S (Z.to_nat len)) d block len;
      if zlen buf <? zlen bytes then Oob else Ok (Some (bytes ++ drop (length bytes) buf))
  end.
Definition blockdata_write (block len : Z) (d : pool) : res (list Z) := copy_loop (S (Z.to_nat len)) d block len.
