(* ===== verification/BlockdataSpec.v ===== *)
(** The pool of blocks keeps its blocks apart: every block is on the free list
    or in exactly one chain, the count is the number of blocks in chains, and
    what was stored in a chain is what is read from it until it is freed. *)
From S2P Require Import Prelude Chain Blockdata.

(** The chains [live] in use, beside a free list [F]. *)
Record pool_with (d : pool) (F : list Z) (live : list (list Z)) : Prop := {
  pw_free : chain (bnext d) (keyblock_free d) F;
  pw_live : Forall (λ l, chain (bnext d) (default 0 (head l)) l) live;
  pw_apart : NoDup (F ++ mjoin live);
  pw_keys : ∀ x, x ∈ F ++ mjoin live → ∃ k, keys d !! x = Some k ∧ length k = 40%nat;
  pw_count : blockdata_count d = u32 (zlen (mjoin live))
}.
Definition pool_ok (d : pool) (live : list (list Z)) : Prop := ∃ F, pool_with d F live.

(** The bytes of the blocks of a chain. *)
Definition content (m : gmap Z (list Z)) (l : list Z) : list Z := mjoin ((λ x, m !!! x) <$> l).

Lemma content_ext m m' l : (∀ x, x ∈ l → m' !! x = m !! x) → content m' l = content m l.
Proof.
  intros H. unfold content. f_equal. apply list_fmap_ext. intros i x Hx. rewrite !lookup_total_alt. rewrite H; [done|].
  by eapply list_elem_of_lookup_2.
Qed.
Lemma content_app m l k : content m (l ++ k) = content m l ++ content m k.
Proof. unfold content. by rewrite fmap_app, join_app. Qed.

(** * Freeing *)

Lemma last_block_spec fuel d p l n :
  chain (bnext d) p l → l ≠ [] → (length l ≤ fuel)%nat → blockdata_count d = u32 n →
  ∃ y d', last_block fuel p d = Ok (y, d') ∧ last l = Some y ∧ keys d' = keys d ∧ bnext d' = bnext d ∧
    keyblock_free d' = keyblock_free d ∧ blockdata_count d' = u32 (n - zlen l + 1).
Proof.
  revert d p n fuel. induction l as [|x l IH]; intros d p n fuel Hc Hne Hf Hn; [done|].
  destruct Hc as (-> & Hx & m & Hm & Hc). destruct fuel as [|fuel]; [simpl in Hf; lia|]. cbn [last_block].
  unfold block_next. rewrite Hm. cbn [mbind res_bind]. destruct l as [|z l].
  - simpl in Hc. subst m. exists x, d. split_and!; try done. rewrite Hn. f_equal. rewrite zlen_cons, zlen_nil. lia.
  - pose proof Hc as (-> & Hz & _). rewrite (proj2 (Z.eqb_neq z 0)) by done.
    destruct (IH (set_count (u32 (blockdata_count d - 1)) (blockdata_hwm d) d) z (n - 1) fuel) as (y & d' & -> & Hy & Ek & En & Ef & Ec);
      [done|done|simpl in *; lia|simpl; rewrite Hn; unfold u32; by rewrite Zminus_mod_idemp_l|].
    exists y, d'. split_and!; try done. rewrite Ec. f_equal. rewrite !zlen_cons. lia.
Qed.

(** A chain goes back to the front of the free list. *)
Lemma blockdata_free_with d F l live :
  pool_with d F (l :: live) → l ≠ [] →
  ∃ d', blockdata_free (default 0 (head l)) d = Ok d' ∧ pool_with d' (l ++ F) live ∧ keys d' = keys d ∧ dom (bnext d') = dom (bnext d).
Proof.
  intros [HF HL Hnd Hk Hc] Hne. apply Forall_cons in HL as [Hl HL]. change (mjoin (l :: live)) with (l ++ mjoin live) in *.
  assert (default 0 (head l) ≠ 0) as Hp by (destruct l; [done|apply Hl]). unfold blockdata_free. rewrite (proj2 (Z.eqb_neq _ 0)) by done.
  pose proof (chain_length _ _ _ Hl) as Hlen. rewrite zlen_app in Hc.
  destruct (last_block_spec (S (size (bnext d))) d _ l (zlen l + zlen (mjoin live)) Hl Hne) as (y & d1 & -> & Hy & Ek & En & Ef & Ec); [lia|done|].
  cbn [mbind res_bind]. destruct (chain_lookup _ _ _ y Hl) as [Hy0 [ny Hny]]; [by apply last_Some_elem_of|].
  unfold set_next_field. rewrite En, Hny, Ef. cbn [mbind res_bind]. eexists. split; [done|].
  assert (l ++ F ++ mjoin live ≡ₚ F ++ l ++ mjoin live) as HP by (rewrite !app_assoc; by rewrite (Permutation_app_comm l F)).
  assert (NoDup (l ++ F ++ mjoin live)) as Hnd' by (by rewrite HP).
  apply NoDup_app in Hnd' as (Hndl & Hdl & _).
  split; [|split; [done|simpl; by rewrite dom_insert_lookup_L by (by exists ny)]].
  split; simpl.
  - apply chain_join; [done|done|done|]. intros x Hx HxF. apply (Hdl x Hx), elem_of_app. by left.
  - rewrite Forall_forall in HL |- *. intros k Hk2. eapply chain_ext; [|by apply HL]. intros x Hx. rewrite lookup_insert_ne; [done|].
    intros ->. apply (Hdl x); [by apply last_Some_elem_of|]. apply elem_of_app. right. apply list_elem_of_join. by exists k.
  - by rewrite <- app_assoc, HP.
  - intros x Hx. rewrite Ek. apply Hk. rewrite !elem_of_app in *. tauto.
  - rewrite Ec. replace (zlen l + zlen (mjoin live) - zlen l + 1) with (zlen (mjoin live) + 1) by lia.
    unfold u32. rewrite Zminus_mod_idemp_l. f_equal. lia.
Qed.

(** * Growing the pool *)

Lemma link_new_other n base tail m x : x ∉ seqZ base (Z.of_nat n) → link_new n base tail m !! x = m !! x.
Proof.
  revert base. induction n as [|n IH]; intros base Hx; [done|].
  assert (x ≠ base ∧ x ∉ seqZ (base + 1) (Z.of_nat n)) as [Hb Hn] by (rewrite !elem_of_seqZ in *; lia).
  destruct n as [|n]; cbn [link_new]; rewrite lookup_insert_ne by done; [done|by apply IH].
Qed.

Lemma link_new_chain n base tail m F :
  chain m tail F → (0 < n)%nat → (∀ i, base ≤ i < base + Z.of_nat n → i ≠ 0 ∧ i ∉ F) →
  chain (link_new n base tail m) base (seqZ base (Z.of_nat n) ++ F).
Proof.
  revert base. induction n as [|n IH]; intros base Hc Hn Hi; [lia|]. rewrite seqZ_cons by lia.
  replace (Z.pred (Z.of_nat (S n))) with (Z.of_nat n) by lia.
  assert (base ≠ 0 ∧ base ∉ F) as [Hb0 HbF] by (apply Hi; lia). destruct n as [|n].
  - cbn [link_new]. rewrite seqZ_nil by lia. simpl. split_and!; [done..|]. exists tail. rewrite lookup_insert_eq. split; [done|].
    eapply chain_ext; [|exact Hc]. intros x Hx. rewrite lookup_insert_ne; [done|]. by intros ->.
  - cbn [link_new app]. cbn [chain]. split_and!; [done..|]. exists (base + 1). rewrite lookup_insert_eq. split; [done|].
    replace (Z.succ base) with (base + 1) by lia.
    eapply chain_ext; [|apply (IH (base + 1) Hc); [lia|intros i Hi2; apply Hi; lia]].
    intros x Hx. rewrite lookup_insert_ne; [done|]. intros ->. rewrite elem_of_app, elem_of_seqZ in Hx. destruct Hx; [lia|done].
Qed.

Lemma clear_new_other n base m x : x ∉ seqZ base (Z.of_nat n) → clear_new n base m !! x = m !! x.
Proof.
  revert base. induction n as [|n IH]; intros base Hx; [done|].
  assert (x ≠ base ∧ x ∉ seqZ (base + 1) (Z.of_nat n)) as [Hb Hn] by (rewrite !elem_of_seqZ in *; lia).
  cbn [clear_new]. rewrite lookup_insert_ne by done. by apply IH.
Qed.
Lemma clear_new_in n base m x : x ∈ seqZ base (Z.of_nat n) → clear_new n base m !! x = Some (replicate 40 0).
Proof.
  revert base. induction n as [|n IH]; intros base Hx; [rewrite elem_of_seqZ in Hx; lia|]. cbn [clear_new].
  destruct (decide (x = base)) as [->|Hne]; [by rewrite lookup_insert_eq|]. rewrite lookup_insert_ne by done.
  apply IH. rewrite elem_of_seqZ in *. lia.
Qed.

Lemma pool_with_next d F live x : pool_with d F live → x ∈ F ++ mjoin live → x ≠ 0 ∧ is_Some (bnext d !! x).
Proof.
  intros [HF HL _ _ _] [Hx|Hx]%elem_of_app.
  - destruct (chain_lookup _ _ _ x HF Hx) as [? [n ?]]. split; [done|by exists n].
  - apply list_elem_of_join in Hx as (l & Hx & Hl). rewrite Forall_forall in HL.
    destruct (chain_lookup _ _ _ x (HL l Hl) Hx) as [? [n ?]]. split; [done|by exists n].
Qed.

(** * Reading *)

(** The copying loops read the bytes of the chain in order. *)
Lemma copy_loop_spec d l fuel len :
  chain (bnext d) (default 0 (head l)) l → (∀ x, x ∈ l → ∃ k, keys d !! x = Some k ∧ length k = 40%nat) →
  0 ≤ len → (Z.to_nat len < fuel)%nat →
  ∃ bytes, copy_loop fuel d (default 0 (head l)) len = Ok bytes ∧ bytes = take (Z.to_nat len) (content (keys d) l).
Proof.
  revert l len. induction fuel as [|fuel IH]; intros l len Hc Hk Hlen Hf; [lia|]. cbn [copy_loop].
  destruct (Z.leb_spec len 0) as [Hz|Hpos]; cbn [orb]; [exists []; split; [done|]; by replace (Z.to_nat len) with 0%nat by lia|].
  destruct l as [|x l]; [exists []; split; [done|]; change (content (keys d) []) with (@nil Z); by rewrite take_nil|].
  destruct Hc as (_ & Hx & n & Hn & Hc). change (default 0 (head (x :: l))) with x. rewrite (proj2 (Z.eqb_neq x 0)) by done.
  destruct (Hk x) as (k & Ek & Hl); [constructor|]. unfold block_key, block_next. rewrite Ek, Hn. cbn [mbind res_bind].
  set (blen := if KEYBLOCK_LEN <? len then KEYBLOCK_LEN else len).
  assert (0 < blen ≤ 40 ∧ blen ≤ len ∧ (blen < len → blen = 40)) as (Hb1 & Hb2 & Hb3) by (unfold blen, KEYBLOCK_LEN; destruct (Z.ltb_spec 40 len); lia).
  rewrite (chain_head _ _ _ Hc) in Hc |- *. destruct (IH l (len - blen) Hc) as (bytes & -> & ->); [intros y Hy; apply Hk; by constructor|lia|lia|].
  cbn [mbind res_bind]. eexists. split; [done|]. unfold content. rewrite fmap_cons.
  change (mjoin ((keys d !!! x) :: ((λ y, keys d !!! y) <$> l))) with ((keys d !!! x) ++ content (keys d) l).
  rewrite (lookup_total_correct _ _ _ Ek). destruct (Z.lt_ge_cases blen len) as [Hlt|Hge].
  - rewrite take_app_ge by lia. rewrite (take_ge k) by lia. do 2 f_equal. lia.
  - replace (len - blen) with 0 by lia. rewrite take_0, app_nil_r. rewrite take_app_le by lia. f_equal. lia.
Qed.

Section alloc.
Context (malloc : gmap Z Z → Z → Z).
(** An array from the allocator does not overlap what is in use. *)
Hypothesis (malloc_fresh : ∀ m n, malloc m n ≠ 0 → ∀ i, 0 ≤ i < n → malloc m n + i ≠ 0 ∧ m !! (malloc m n + i) = None).

Lemma blockdata_expand_with n d F live :
  pool_with d F live → 0 < n →
  ∃ d' N, blockdata_expand malloc n d = Ok d' ∧ pool_with d' (N ++ F) live ∧
    (N = [] ↔ malloc (bnext d) n = 0) ∧ (∀ x, x ∈ mjoin live → keys d' !! x = keys d !! x).
Proof.
  intros Hp Hn. rewrite <- (Z2Nat.id n) in * by lia. revert Hn. generalize (Z.to_nat n) as k. clear n. intros k Hn.
  unfold blockdata_expand. rewrite Nat2Z.id. set (n := Z.of_nat k) in *. destruct (Z.eqb_spec (malloc (bnext d) n) 0) as [E|E].
  { exists d, []. by split_and!. }
  rewrite (proj2 (Z.leb_gt n 0)) by done. pose proof (malloc_fresh (bnext d) n E) as Hfr. set (base := malloc (bnext d) n) in *.
  assert (∀ x, x ∈ seqZ base n → x ≠ 0 ∧ bnext d !! x = None) as Hseq.
  { intros x Hx. rewrite elem_of_seqZ in Hx. specialize (Hfr (x - base) ltac:(lia)). by replace (base + (x - base)) with x in Hfr by lia. }
  assert (∀ x, x ∈ F ++ mjoin live → x ∉ seqZ base n) as Hout.
  { intros x Hx Hs. destruct (pool_with_next d F live x Hp Hx) as [_ [z Hz]]. destruct (Hseq x Hs). congruence. }
  eexists _, (seqZ base n). split; [done|].
  pose proof Hp as [HF HL Hnd Hk Hc]. split; [|split].
  - split; simpl.
    + apply link_new_chain; [done|lia|]. intros i Hi. split; [apply Hseq; rewrite elem_of_seqZ; lia|].
      intros HiF. apply (Hout i); [apply elem_of_app; by left|rewrite elem_of_seqZ; lia].
    + rewrite Forall_forall in HL |- *. intros l Hl. eapply chain_ext; [|by apply HL]. intros x Hx. apply link_new_other.
      apply Hout, elem_of_app. right. apply list_elem_of_join. by exists l.
    + rewrite <- app_assoc. apply NoDup_app. split_and!; [apply NoDup_seqZ|intros x Hx Hin; by apply (Hout x)|done].
    + intros x. rewrite <- app_assoc, elem_of_app. intros [Hx|Hx].
      * exists (replicate 40 0). rewrite clear_new_in by done. split; [done|apply length_replicate].
      * rewrite clear_new_other by (by apply Hout). by apply Hk.
    + done.
  - split; [|done]. intros E'. apply (f_equal length) in E'. rewrite length_seqZ in E'. simpl in E'. lia.
  - intros x Hx. simpl. apply clear_new_other, Hout, elem_of_app. by right.
Qed.

(** A block off the free list, its [next] field still to be set. *)
Record taken (d : pool) (b : Z) (F : list Z) (live : list (list Z)) : Prop := {
  tk_free : chain (bnext d) (keyblock_free d) F;
  tk_live : Forall (λ l, chain (bnext d) (default 0 (head l)) l) live;
  tk_apart : NoDup (b :: F ++ mjoin live);
  tk_keys : ∀ x, x ∈ b :: F ++ mjoin live → ∃ k, keys d !! x = Some k ∧ length k = 40%nat;
  tk_next : b ≠ 0 ∧ is_Some (bnext d !! b);
  tk_count : blockdata_count d = u32 (1 + zlen (mjoin live))
}.

Lemma take_block_with d F live :
  pool_with d F live →
  ∃ b d' F', take_block malloc d = Ok (b, d') ∧ (∀ x, x ∈ mjoin live → keys d' !! x = keys d !! x) ∧
    ((b = 0 ∧ pool_with d' F' live ∧ malloc (bnext d) 50 = 0) ∨ taken d' b F' live).
Proof.
  intros Hp. unfold take_block.
  assert (∃ d1 F1, (if keyblock_free d =? 0 then blockdata_expand malloc 50 d else Ok d) = Ok d1 ∧ pool_with d1 F1 live ∧
    (∀ x, x ∈ mjoin live → keys d1 !! x = keys d !! x) ∧ (F1 = [] → malloc (bnext d) 50 = 0)) as (d1 & F1 & -> & Hp1 & Hk1 & Hm1).
  { destruct (Z.eqb_spec (keyblock_free d) 0) as [E|E].
    - destruct (blockdata_expand_with 50 d F live Hp) as (d1 & N & -> & H1 & H2 & H3); [lia|]. exists d1, (N ++ F). split_and!; try done.
      intros [-> _]%app_eq_nil. by apply H2.
    - exists d, F. split_and!; try done. intros ->. destruct Hp as [HF _ _ _ _]. by simpl in HF. }
  cbn [mbind res_bind]. pose proof Hp1 as [HF HL Hnd Hk Hc]. destruct F1 as [|b F1].
  - simpl in HF. rewrite HF. eexists 0, d1, []. split_and!; [done..|]. left. split_and!; auto.
  - destruct HF as (Eb & Hb0 & n & Hn & HF). rewrite Eb, (proj2 (Z.eqb_neq b 0)) by done. unfold block_next. rewrite Hn. cbn [mbind res_bind].
    eexists b, _, F1. split; [done|]. split; [done|]. right. split; try done; simpl.
    rewrite Hc. unfold u32. rewrite Zplus_mod_idemp_l. f_equal. lia.
Qed.

(** The block filled and linked at the end of the chain [c]. *)
Lemma link_block d b F c live bytes blen :
  taken d b F (c :: live) → length bytes = blen → (blen ≤ 40)%nat →
  ∃ k d2 d3, block_key d b = Ok k ∧
    match last c with None => Ok (set_key b (bytes ++ drop blen k) d) | Some p => set_next_field p b (set_key b (bytes ++ drop blen k) d) end = Ok d2 ∧
    set_next_field b 0 d2 = Ok d3 ∧ pool_with d3 F ((c ++ [b]) :: live) ∧
    (∀ x, x ≠ b → keys d3 !! x = keys d !! x) ∧ keys d3 !! b = Some (bytes ++ drop blen k) ∧ length k = 40%nat.
Proof.
  intros [HF HL Hnd Hk [Hb0 [nb Hnb]] Hc] Hlen Hle. destruct (Hk b) as (k & Ek & El); [constructor|].
  apply Forall_cons in HL as [Hcc HL]. change (mjoin (c :: live)) with (c ++ mjoin live) in *.
  apply NoDup_cons in Hnd as [Hbn Hnd]. rewrite !elem_of_app in Hbn.
  set (m2 := match last c with None => bnext d | Some p => (<[p := b]> (bnext d)) end).
  assert (match last c with None => Ok (set_key b (bytes ++ drop blen k) d) | Some p => set_next_field p b (set_key b (bytes ++ drop blen k) d) end =
    Ok (set_bnext m2 (set_key b (bytes ++ drop blen k) d))) as E2.
  { unfold m2. destruct (last c) as [p|] eqn:Ep; [|by destruct d]. unfold set_next_field. simpl.
    destruct (chain_lookup _ _ _ p Hcc) as [_ [np ->]]; [by apply last_Some_elem_of|]. done. }
  assert (∀ x, last c ≠ Some x → m2 !! x = bnext d !! x) as Hm2.
  { intros x Hx. unfold m2. destruct (last c) as [p|]; [|done]. rewrite lookup_insert_ne; [done|]. congruence. }
  assert (m2 !! b = Some nb) as Hb2.
  { rewrite Hm2; [done|]. intros E%last_Some_elem_of. tauto. }
  exists k. eexists _, _. unfold block_key. rewrite Ek. split; [done|]. split; [exact E2|].
  unfold set_next_field. simpl. rewrite Hb2. split; [done|]. split; [|split_and!; [|simpl; by rewrite lookup_insert_eq|done]].
  2: { intros x Hx. simpl. by rewrite lookup_insert_ne. }
  assert (∀ l, (∀ x, x ∈ l → (x ∉ c) ∧ x ≠ b) → ∀ p, chain (bnext d) p l → chain (<[b := 0]> m2) p l) as Hext.
  { intros l Hl p. apply chain_ext. intros x Hx. destruct (Hl x Hx) as [Hxc Hxb]. rewrite lookup_insert_ne by done. apply Hm2.
    by intros E%last_Some_elem_of. }
  assert (NoDup (F ++ mjoin live) ∧ (∀ x, x ∈ c → x ∉ F ++ mjoin live)) as [Hnd' Hdc].
  { apply NoDup_app in Hnd as (N1 & N2 & N3). apply NoDup_app in N3 as (N3 & N4 & N5). split.
    - apply NoDup_app. split_and!; [done| |done]. intros x Hx Hx2. apply (N2 x Hx). apply elem_of_app. by right.
    - intros x Hx. rewrite elem_of_app. intros [H|H]; [apply (N2 x H), elem_of_app; by left|by apply (N4 x)]. }
  split; simpl.
  - apply Hext; [|done]. intros x Hx. split; [intros Hxc; apply (Hdc x Hxc), elem_of_app; by left|]. intros ->. tauto.
  - constructor.
    + destruct (last c) as [p|] eqn:Ep.
      * assert (default 0 (head (c ++ [b])) = default 0 (head c)) as -> by (destruct c; done). apply chain_append; try done. tauto.
      * apply last_None in Ep. subst c. simpl. split_and!; [done..|]. exists 0. by rewrite lookup_insert_eq.
    + rewrite Forall_forall in HL |- *. intros l Hl. apply Hext; [|by apply HL]. intros x Hx.
      assert (x ∈ mjoin live) as Hj by (apply list_elem_of_join; by exists l). split.
      * intros Hxc. apply (Hdc x Hxc), elem_of_app. by right.
      * intros ->. tauto.
  - change (mjoin ((c ++ [b]) :: live)) with ((c ++ [b]) ++ mjoin live).
    assert (F ++ (c ++ [b]) ++ mjoin live ≡ₚ b :: F ++ c ++ mjoin live) as HP by (rewrite <- (app_assoc c); simpl; rewrite <- !Permutation_middle; done).
    rewrite HP. constructor; [rewrite !elem_of_app; tauto|done].
  - intros x Hx. destruct (decide (x = b)) as [->|Hne].
    + rewrite lookup_insert_eq. eexists. split; [done|]. rewrite length_app, length_drop. lia.
    + rewrite lookup_insert_ne by done. apply Hk. change (mjoin ((c ++ [b]) :: live)) with ((c ++ [b]) ++ mjoin live) in Hx.
      rewrite !elem_of_app, list_elem_of_singleton in Hx. rewrite elem_of_cons, !elem_of_app. tauto.
  - rewrite Hc. change (mjoin ((c ++ [b]) :: live)) with ((c ++ [b]) ++ mjoin live). f_equal. rewrite !zlen_app, zlen_cons, zlen_nil. lia.
Qed.

Definition bytes_of (src : source) : list Z := match src with Mem b | Fd b => b end.

Lemma take_source_spec src blen :
  0 ≤ blen ≤ zlen (bytes_of src) →
  ∃ src', take_source src blen = Ok (Some (take (Z.to_nat blen) (bytes_of src), src')) ∧ bytes_of src' = drop (Z.to_nat blen) (bytes_of src).
Proof.
  intros Hb. destruct src as [b|b]; cbn [take_source bytes_of] in *; rewrite (proj2 (Z.ltb_ge _ _)) by lia; by eexists.
Qed.

Lemma pool_with_nil d F live : pool_with d F ([] :: live) ↔ pool_with d F live.
Proof. split; intros [H1 H2 H3 H4 H5]; (split; [done| |done|done|done]); [by apply Forall_cons in H2 as [_ ?]|by constructor]. Qed.

Lemma content_snoc d c b k : keys d !! b = Some k → content (keys d) (c ++ [b]) = content (keys d) c ++ k.
Proof.
  intros Hb. rewrite content_app. f_equal. unfold content. simpl. rewrite app_nil_r. by apply lookup_total_correct.
Qed.

Lemma free_partial d F c live :
  pool_with d F (c :: live) → ∃ d', blockdata_free (default 0 (head c)) d = Ok d' ∧ pool_ok d' live ∧ keys d' = keys d.
Proof.
  intros Hp. destruct c as [|x c]; [exists d; split_and!; [done| |done]; exists F; by apply pool_with_nil|].
  destruct (blockdata_free_with d F (x :: c) live Hp) as (d' & E & Hp' & Ek & _); [done|]. exists d'. split_and!; [done|by eexists|done].
Qed.

Lemma alloc_loop_spec live fuel : ∀ src len c d F pre,
  pool_with d F (c :: live) → take (length pre) (content (keys d) c) = pre → (0 < len → content (keys d) c = pre) →
  0 ≤ len ≤ zlen (bytes_of src) → (Z.to_nat len < fuel)%nat →
  ∃ r d', alloc_loop malloc fuel src len (default 0 (head c)) (last c) d = Ok (r, d') ∧
    (∀ x, x ∈ mjoin live → keys d' !! x = keys d !! x) ∧
    ((∃ c', r = default 0 (head c') ∧ pool_ok d' (c' :: live) ∧ (0 < len → c' ≠ []) ∧
        take (length pre + Z.to_nat len) (content (keys d') c') = pre ++ take (Z.to_nat len) (bytes_of src)) ∨
     (r = 0 ∧ pool_ok d' live ∧ ∃ m, malloc m 50 = 0)).
Proof.
  induction fuel as [|fuel IH]; intros src len c d F pre Hp Ht Hfull Hlen Hf; [lia|]. cbn [alloc_loop].
  destruct (Z.leb_spec len 0) as [Hz|Hpos].
  { assert (len = 0) as -> by lia. eexists _, d. split_and!; [done..|]. left. exists c. split_and!; [done|by exists F|lia|].
    simpl. rewrite app_nil_r, Nat.add_0_r. done. }
  destruct (take_block_with d F (c :: live) Hp) as (b & d1 & F1 & -> & Hk1 & Hb). cbn [mbind res_bind].
  change (mjoin (c :: live)) with (c ++ mjoin live) in Hk1. destruct Hb as [(-> & Hp1 & Hm)|Htk].
  { rewrite Z.eqb_refl. destruct (free_partial d1 F1 c live Hp1) as (d2 & -> & Hp2 & Ek2). cbn [mbind res_bind].
    eexists 0, d2. split_and!; [done| |right; split_and!; eauto]. intros x Hx. rewrite Ek2. apply Hk1, elem_of_app. by right. }
  pose proof (tk_next _ _ _ _ Htk) as [Hb0 _]. rewrite (proj2 (Z.eqb_neq b 0)) by done.
  set (blen := if KEYBLOCK_LEN <? len then KEYBLOCK_LEN else len).
  assert (0 < blen ≤ 40 ∧ blen ≤ len ∧ (blen < len → blen = 40)) as (Hb1 & Hb2 & Hb3) by (unfold blen, KEYBLOCK_LEN; destruct (Z.ltb_spec 40 len); lia).
  destruct (take_source_spec src blen) as (src' & -> & Hsrc); [lia|]. cbn [mbind res_bind].
  set (bytes := take (Z.to_nat blen) (bytes_of src)).
  assert (length bytes = Z.to_nat blen) as Hbl by (unfold bytes, zlen in *; rewrite length_take; lia).
  destruct (link_block d1 b F1 c live bytes (Z.to_nat blen) Htk Hbl) as (k & d2 & d3 & -> & E2 & E3 & Hp3 & Hk3 & Hkb & Hlk); [lia|].
  cbn [mbind res_bind]. rewrite E2. cbn [mbind res_bind]. rewrite E3. cbn [mbind res_bind].
  assert (content (keys d3) c = pre) as Hc3.
  { rewrite <- (Hfull ltac:(lia)). apply content_ext. intros x Hx. pose proof (tk_apart _ _ _ _ Htk) as [Hnb _]%NoDup_cons.
    change (mjoin (c :: live)) with (c ++ mjoin live) in Hnb. rewrite !elem_of_app in Hnb.
    rewrite Hk3 by (intros ->; tauto). apply Hk1, elem_of_app. by left. }
  pose proof (content_snoc d3 c b _ Hkb) as Hs. rewrite Hc3 in Hs.
  assert (match last c with None => b | Some _ => default 0 (head c) end = default 0 (head (c ++ [b]))) as ->
    by (destruct c; [done|]; simpl; by destruct (last_is_Some (z :: c)) as [_ [y ->]]).
  replace (Some b) with (last (c ++ [b])) by apply last_snoc.
  destruct (IH src' (len - blen) (c ++ [b]) d3 F1 (pre ++ bytes) Hp3) as (r & d' & E & Hkeep & Hout).
  { rewrite Hs, app_assoc, take_app_length. done. }
  { intros H. rewrite Hs. rewrite drop_ge by lia. by rewrite app_nil_r. }
  { rewrite Hsrc. unfold zlen in *. rewrite length_drop. lia. }
  { lia. }
  exists r, d'. split; [done|]. split.
  - intros x Hx. pose proof (tk_apart _ _ _ _ Htk) as [Hnb _]%NoDup_cons. change (mjoin (c :: live)) with (c ++ mjoin live) in Hnb.
    rewrite !elem_of_app in Hnb. rewrite Hkeep by done. rewrite Hk3 by (intros ->; tauto). apply Hk1, elem_of_app. by right.
  - destruct Hout as [(c' & -> & Hp' & Hne & Hcont)|Hfail]; [left|by right]. exists c'. split_and!; [done|done| |].
    + intros _ ->. change (content (keys d') []) with (@nil Z) in Hcont. rewrite take_nil in Hcont.
      apply (f_equal length) in Hcont. rewrite !length_app in Hcont. simpl in Hcont. lia.
    + rewrite length_app, Hbl in Hcont. replace (length pre + Z.to_nat len)%nat with (length pre + Z.to_nat blen + Z.to_nat (len - blen))%nat by lia.
      rewrite Hcont, Hsrc, <- app_assoc. f_equal. unfold bytes. replace (Z.to_nat len) with (Z.to_nat blen + Z.to_nat (len - blen))%nat by lia.
      by rewrite take_take_drop.
Qed.

(** C39. Storing and reading back. With a pool whose blocks are free or in one
    of the chains [live], storing [len] bytes either gives a chain of its own
    from which [blockdata_retrieve] and [blockdata_write] read those bytes, the
    other chains keeping theirs, or fails because the allocator did, with the
    blocks already taken back on the free list. *)
Theorem blockdata_round_trip d live data len :
  pool_ok d live → 0 < len ≤ zlen data →
  ∃ r d', blockdata_alloc malloc data len d = Ok (r, d') ∧
    (∀ x, x ∈ mjoin live → keys d' !! x = keys d !! x) ∧
    ((∃ c, r = default 0 (head c) ∧ r ≠ 0 ∧ pool_ok d' (c :: live) ∧
        blockdata_retrieve true r len None d' = Ok (Some (take (Z.to_nat len) data)) ∧
        blockdata_write r len d' = Ok (take (Z.to_nat len) data)) ∨
     (r = 0 ∧ pool_ok d' live ∧ ∃ m, malloc m 50 = 0)).
Proof.
  intros [F Hp] Hlen. unfold blockdata_alloc.
  destruct (alloc_loop_spec live (S (Z.to_nat len)) (Mem data) len [] d F []) as (r & d' & E & Hk & Hout);
    [by apply pool_with_nil|done|done|simpl; lia|lia|].
  exists r, d'. split; [exact E|]. split; [done|]. destruct Hout as [(c & -> & Hp' & Hne & Hc)|Hfail]; [left|by right].
  specialize (Hne ltac:(lia)). pose proof Hp' as [F' Hw]. pose proof (pw_live _ _ _ Hw) as [Hcc _]%Forall_cons.
  exists c. split_and!; [done|destruct c; [done|apply Hcc]|done|..].
  - unfold blockdata_retrieve. rewrite andb_false_r. simpl in Hc.
    destruct (copy_loop_spec d' c (S (Z.to_nat len)) len Hcc) as (bytes & -> & Hb); [|lia|lia|].
    { intros x Hx. apply (pw_keys _ _ _ Hw), elem_of_app. right. change (mjoin (c :: live)) with (c ++ mjoin live). apply elem_of_app. by left. }
    cbn [mbind res_bind]. rewrite Hb, Hc.
    assert (zlen (take (Z.to_nat len) data) = len) as El by (unfold zlen in *; rewrite length_take; lia).
    assert (zlen (repeat 0 (Z.to_nat len)) = len) as Er by (unfold zlen in *; rewrite repeat_length; lia).
    rewrite El, Er, Z.ltb_irrefl. rewrite drop_ge by (unfold zlen in *; lia). by rewrite app_nil_r.
  - unfold blockdata_write. simpl in Hc. destruct (copy_loop_spec d' c (S (Z.to_nat len)) len Hcc) as (bytes & -> & Hb); [|lia|lia|by rewrite Hb, Hc].
    intros x Hx. apply (pw_keys _ _ _ Hw), elem_of_app. right. change (mjoin (c :: live)) with (c ++ mjoin live). apply elem_of_app. by left.
Qed.
End alloc.

(** An allocator that hands out addresses above all those in use. *)
Definition bump (m : gmap Z Z) (_ : Z) : Z := 1 + foldr Z.max 0 (elements (dom m)).

Lemma bump_above m x : x ∈ dom m → x < bump m 0.
Proof.
  intros Hx%elem_of_elements. unfold bump. induction Hx as [x l|x y l _ IH]; simpl; lia.
Qed.
Lemma bump_pos m n : bump m n ≠ 0.
Proof.
  assert (0 ≤ foldr Z.max 0 (elements (dom m))); [|unfold bump; lia]. induction (elements (dom m)) as [|y l IH]; simpl; lia.
Qed.
Lemma bump_fresh m n : bump m n ≠ 0 → ∀ i, 0 ≤ i < n → bump m n + i ≠ 0 ∧ m !! (bump m n + i) = None.
Proof.
  intros _ i Hi. change (bump m n) with (bump m 0). assert (0 < bump m 0) as Hpos.
  { unfold bump. induction (elements (dom m)) as [|y l IH]; simpl; lia. }
  split; [lia|]. destruct (m !! (bump m 0 + i)) eqn:E; [|done]. apply elem_of_dom_2, bump_above in E. lia.
Qed.

Definition no_blocks : pool := Pool ∅ ∅ 0 0 0 0.
Lemma no_blocks_ok : pool_ok no_blocks [].
Proof. exists []. split; try done; [constructor|]. intros x Hx. by apply not_elem_of_nil in Hx. Qed.

Lemma blockdata_round_trip_witness :
  ∃ r d', blockdata_alloc bump [7; 8; 9; 10] 3 no_blocks = Ok (r, d') ∧
    blockdata_retrieve true r 3 None d' = Ok (Some [7; 8; 9]).
Proof.
  destruct (blockdata_round_trip bump bump_fresh no_blocks [] [7; 8; 9; 10] 3 no_blocks_ok) as (r & d' & E & _ & Hout).
  - by vm_compute.
  - exists r, d'. split; [exact E|]. destruct Hout as [(c & _ & _ & _ & H & _)|(_ & _ & m & H)]; [exact H|].
    by apply bump_pos in H.
Defined.

(** Freeing a chain: its blocks return to the free list, the count drops by
    their number, and the other chains stay as they are and keep their
    bytes. *)
Theorem blockdata_free_correct d l live :
  pool_ok d (l :: live) → l ≠ [] →
  ∃ d', blockdata_free (default 0 (head l)) d = Ok d' ∧ pool_ok d' live ∧ keys d' = keys d ∧
    blockdata_count d' = u32 (blockdata_count d - zlen l).
Proof.
  intros [F Hp] Hne. destruct (blockdata_free_with d F l live Hp Hne) as (d' & E & Hp' & Ek & _).
  exists d'. split_and!; [done|by eexists|done|]. rewrite (pw_count _ _ _ Hp'), (pw_count _ _ _ Hp).
  change (mjoin (l :: live)) with (l ++ mjoin live). rewrite zlen_app. unfold u32. rewrite Zminus_mod_idemp_l. f_equal. lia.
Qed.

Definition one_block : pool := Pool {[5 := replicate 40 1]} {[5 := 0]} 0 1 1 1.
Lemma blockdata_free_correct_witness :
  ∃ d', blockdata_free 5 one_block = Ok d' ∧ pool_ok d' [] ∧ blockdata_count d' = 0.
Proof.
  destruct (blockdata_free_correct one_block [5] []) as (d' & E & Hp & _ & Hc).
  - exists []. split; try done.
    + constructor; [|constructor]. simpl. split_and!; [done..|]. by exists 0.
    + apply NoDup_singleton.
    + intros x Hx%list_elem_of_singleton. subst x. by exists (replicate 40 1).
  - done.
  - exists d'. split_and!; [exact E|exact Hp|exact Hc].
Defined.

(** A short read loses the block that was to receive it: it is on no list, and
    the count never drops to zero again. *)
Lemma blockdata_read_leaks :
  ∃ d', blockdata_read bump (repeat 0 45) 50 no_blocks = Ok (0, d') ∧ blockdata_count d' = 1 ∧ ¬ pool_ok d' [].
Proof.
  eexists. split; [vm_compute; reflexivity|]. split; [reflexivity|]. intros [F Hp]. pose proof (pw_count _ _ _ Hp) as H. by vm_compute in H.
Qed.
