(* ===== verification/Sha256.v ===== *)
(** The hash of the questions of a packet (src/src/hash-questions.c), in a build
    without a cryptographic library: the SHA-256 of the file, which takes its
    input in pieces, and [hash_questions]. *)
From S2P Require Import Prelude Hostname Wire.

(** * Word operations: the macros on 32-bit words *)

Definition ROTRIGHT (a b : Z) : Z := Z.lor (Z.shiftr a b) (u32 (Z.shiftl a (32 - b))).
Definition CH (x y z : Z) : Z := Z.lxor (Z.land x y) (Z.land (u32 (Z.lnot x)) z).
Definition MAJ (x y z : Z) : Z := Z.lxor (Z.lxor (Z.land x y) (Z.land x z)) (Z.land y z).
Definition EP0 (x : Z) : Z := Z.lxor (Z.lxor (ROTRIGHT x 2) (ROTRIGHT x 13)) (ROTRIGHT x 22).
Definition EP1 (x : Z) : Z := Z.lxor (Z.lxor (ROTRIGHT x 6) (ROTRIGHT x 11)) (ROTRIGHT x 25).
Definition SIG0 (x : Z) : Z := Z.lxor (Z.lxor (ROTRIGHT x 7) (ROTRIGHT x 18)) (Z.shiftr x 3).
Definition SIG1 (x : Z) : Z := Z.lxor (Z.lxor (ROTRIGHT x 17) (ROTRIGHT x 19)) (Z.shiftr x 10).

(** The round constants, by the rows of the table. *)
Definition k_row0 : list Z := [0x428a2f98; 0x71374491; 0xb5c0fbcf; 0xe9b5dba5; 0x3956c25b; 0x59f111f1; 0x923f82a4; 0xab1c5ed5].
Definition k_row1 : list Z := [0xd807aa98; 0x12835b01; 0x243185be; 0x550c7dc3; 0x72be5d74; 0x80deb1fe; 0x9bdc06a7; 0xc19bf174].
Definition k_row2 : list Z := [0xe49b69c1; 0xefbe4786; 0x0fc19dc6; 0x240ca1cc; 0x2de92c6f; 0x4a7484aa; 0x5cb0a9dc; 0x76f988da].
Definition k_row3 : list Z := [0x983e5152; 0xa831c66d; 0xb00327c8; 0xbf597fc7; 0xc6e00bf3; 0xd5a79147; 0x06ca6351; 0x14292967].
Definition k_row4 : list Z := [0x27b70a85; 0x2e1b2138; 0x4d2c6dfc; 0x53380d13; 0x650a7354; 0x766a0abb; 0x81c2c92e; 0x92722c85].
Definition k_row5 : list Z := [0xa2bfe8a1; 0xa81a664b; 0xc24b8b70; 0xc76c51a3; 0xd192e819; 0xd6990624; 0xf40e3585; 0x106aa070].
Definition k_row6 : list Z := [0x19a4c116; 0x1e376c08; 0x2748774c; 0x34b0bcb5; 0x391c0cb3; 0x4ed8aa4a; 0x5b9cca4f; 0x682e6ff3].
Definition k_row7 : list Z := [0x748f82ee; 0x78a5636f; 0x84c87814; 0x8cc70208; 0x90befffa; 0xa4506ceb; 0xbef9a3f7; 0xc67178f2].

Definition k : list Z := mjoin [k_row0; k_row1; k_row2; k_row3; k_row4; k_row5; k_row6; k_row7].

(** SHA256_CTX: [data] has 64 bytes, [state] 8 words. *)
Record sha256_ctx := Ctx { ctx_data : list Z; datalen : Z; bitlen : Z; state : list Z }.

(** * One block *)

(** The bytes of [data] as big-endian words. *)
Fixpoint load_words (n : nat) (data : list Z) : list Z :=
  match n with
  | O => []
  | S n =>
      Z.lor (Z.lor (Z.lor (Z.shiftl (data !!! 0%nat) 24) (Z.shiftl (data !!! 1%nat) 16)) (Z.shiftl (data !!! 2%nat) 8)) (data !!! 3%nat)
        :: load_words n (drop 4 data)
  end.

(** [for ( ; i < 64; ++i) m[i] = ...], [n] words appended to [m]. *)
Fixpoint extend_words (n : nat) (m : list Z) : list Z :=
  match n with
  | O => m
  | S n =>
      let i := length m in
      extend_words n (m ++ [u32 (SIG1 (m !!! (i - 2)%nat) + m !!! (i - 7)%nat + SIG0 (m !!! (i - 15)%nat) + m !!! (i - 16)%nat)])
  end.

(** The variables a to h. *)
Record regs := Regs { ra : Z; rb : Z; rc : Z; rd_ : Z; re : Z; rf : Z; rg : Z; rh : Z }.

Definition round (r : regs) (km : Z * Z) : regs :=
  let t1 := u32 (rh r + EP1 (re r) + CH (re r) (rf r) (rg r) + fst km + snd km) in
  let t2 := u32 (EP0 (ra r) + MAJ (ra r) (rb r) (rc r)) in
  Regs (u32 (t1 + t2)) (ra r) (rb r) (rc r) (u32 (rd_ r + t1)) (re r) (rf r) (rg r).

Definition sha256_transform (st : list Z) (data : list Z) : list Z :=
  let m := extend_words 48 (load_words 16 data) in
  let r := foldl round (Regs (st !!! 0%nat) (st !!! 1%nat) (st !!! 2%nat) (st !!! 3%nat)
                             (st !!! 4%nat) (st !!! 5%nat) (st !!! 6%nat) (st !!! 7%nat)) (zip k m) in
  [u32 (st !!! 0%nat + ra r); u32 (st !!! 1%nat + rb r); u32 (st !!! 2%nat + rc r); u32 (st !!! 3%nat + rd_ r);
   u32 (st !!! 4%nat + re r); u32 (st !!! 5%nat + rf r); u32 (st !!! 6%nat + rg r); u32 (st !!! 7%nat + rh r)].

(** * Streams *)

Definition sha256_iv : list Z :=
  [0x6a09e667; 0xbb67ae85; 0x3c6ef372; 0xa54ff53a; 0x510e527f; 0x9b05688c; 0x1f83d9ab; 0x5be0cd19].

(** [data] is not initialised. *)
Definition sha256_init (data : list Z) : sha256_ctx := Ctx data 0 0 sha256_iv.

Fixpoint sha256_update (ctx : sha256_ctx) (data : list Z) : res sha256_ctx :=
  match data with
  | [] => Ok ctx
  | b :: data =>
      d ← wr (ctx_data ctx) (datalen ctx) b;
      let n := u32 (datalen ctx + 1) in
      sha256_update
        (if n =? 64 then Ctx d 0 (u64 (bitlen ctx + 512)) (sha256_transform (state ctx) d)
         else Ctx d n (bitlen ctx) (state ctx)) data
  end.

(** A word as four bytes, the most significant first. *)
Definition word_bytes (w : Z) : list Z :=
  [Z.land (Z.shiftr w 24) 255; Z.land (Z.shiftr w 16) 255; Z.land (Z.shiftr w 8) 255; Z.land w 255].

(** The padding of what is left in the buffer; a block that has no room for the
    length is compressed. *)
Definition pad_block (ctx : sha256_ctx) : res (list Z * list Z) :=
  let i := datalen ctx in
  if datalen ctx <? 56 then
    d ← put_bytes (ctx_data ctx) i (128 :: repeat 0 (Z.to_nat (56 - (i + 1)))); Ok (d, state ctx)
  else
    d ← put_bytes (ctx_data ctx) i (128 :: repeat 0 (Z.to_nat (64 - (i + 1))));
    let st := sha256_transform (state ctx) d in
    d ← put_bytes d 0 (repeat 0 56); Ok (d, st).

Definition sha256_final (ctx : sha256_ctx) : res (list Z) :=
  '(d, st) ← pad_block ctx;
  let bits := u64 (bitlen ctx + u32 (datalen ctx * 8)) in
  d ← put_bytes d 56 [Z.shiftr bits 56; Z.shiftr bits 48; Z.shiftr bits 40; Z.shiftr bits 32;
                      Z.shiftr bits 24; Z.shiftr bits 16; Z.shiftr bits 8; bits];
  Ok (mjoin (word_bytes <$> sha256_transform st d)).

(** * Questions *)

(** The loop over the questions; [None] is the result NULL for a bad
    packet. *)
Fixpoint hash_loop (dnssec : bool) (buf : list Z) (plen : Z) (q : nat) (p : Z) (ctx : sha256_ctx)
    : res (option sha256_ctx) :=
  match q with
  | O => Ok (Some ctx)
  | S q =>
      r ← catch (extract_name dnssec buf plen p [] true 4);
      match r with
      | None => Ok None
      | Some (_, p, name) =>
          ctx ← sha256_update ctx (lower <$> name);
          a ← rd buf p; b ← rd buf (p + 1); c ← rd buf (p + 2); d ← rd buf (p + 3);
          ctx ← sha256_update ctx [a; b; c; d];
          let p := p + 4 in
          if negb (CHECK_LEN p plen 0) then Ok None else hash_loop dnssec buf plen q p ctx
      end
  end.

Definition hash_questions (dnssec : bool) (buf : list Z) (plen : Z) (junk : list Z) : res (option (list Z)) :=
  q ← qdcount buf;
  r ← hash_loop dnssec buf plen (Z.to_nat q) HDRSZ (sha256_init junk);
  match r with
  | None => Ok None
  | Some ctx => h ← sha256_final ctx; Ok (Some h)
  end.
