(* ===== verification/Sha256Spec.v ===== *)
(** The hash of hash-questions.c against FIPS 180-4: the streaming
    implementation gives the SHA-256 of the concatenation of its pieces, and
    [hash_questions] that of the questions, names in lower case. *)
From S2P Require Import Prelude Hostname Wire WireSafe WireSpec Sha256.

(** * SHA-256 as FIPS 180-4 defines it *)

(** Rotation to the right of a 32-bit word. *)
Definition ROTR (n x : Z) : Z := x / 2 ^ n + (x mod 2 ^ n) * 2 ^ (32 - n).

Definition Sigma0 (x : Z) : Z := Z.lxor (Z.lxor (ROTR 2 x) (ROTR 13 x)) (ROTR 22 x).
Definition Sigma1 (x : Z) : Z := Z.lxor (Z.lxor (ROTR 6 x) (ROTR 11 x)) (ROTR 25 x).
Definition sigma0 (x : Z) : Z := Z.lxor (Z.lxor (ROTR 7 x) (ROTR 18 x)) (x / 2 ^ 3).
Definition sigma1 (x : Z) : Z := Z.lxor (Z.lxor (ROTR 17 x) (ROTR 19 x)) (x / 2 ^ 10).

(** The message schedule (section 6.2.2, step 1). *)
Definition schedule (block : list Z) (w : list Z) : Prop :=
  length w = 64%nat ∧
  (∀ t, (t < 16)%nat → w !!! t = foldl (λ a b, a * 256 + b) 0 (take 4 (drop (4 * t) block))) ∧
  (∀ t, (16 ≤ t < 64)%nat →
     w !!! t = (sigma1 (w !!! (t - 2)%nat) + w !!! (t - 7)%nat + sigma0 (w !!! (t - 15)%nat) + w !!! (t - 16)%nat) mod 2 ^ 32).

(** Step 3, one round. *)
Definition step (r : regs) (kw : Z * Z) : regs :=
  let T1 := rh r + Sigma1 (re r) + CH (re r) (rf r) (rg r) + fst kw + snd kw in
  let T2 := Sigma0 (ra r) + MAJ (ra r) (rb r) (rc r) in
  Regs ((T1 + T2) mod 2 ^ 32) (ra r) (rb r) (rc r) ((rd_ r + T1) mod 2 ^ 32) (re r) (rf r) (rg r).

Definition regs_of (st : list Z) : regs :=
  Regs (st !!! 0%nat) (st !!! 1%nat) (st !!! 2%nat) (st !!! 3%nat) (st !!! 4%nat) (st !!! 5%nat) (st !!! 6%nat) (st !!! 7%nat).
Definition regs_list (r : regs) : list Z := [ra r; rb r; rc r; rd_ r; re r; rf r; rg r; rh r].

Definition compresses (st block st' : list Z) : Prop :=
  ∃ w, schedule block w ∧
       st' = zip_with (λ a b, (a + b) mod 2 ^ 32) st (regs_list (foldl step (regs_of st) (zip k w))).

Inductive hashes : list Z → list (list Z) → list Z → Prop :=
| hashes_nil st : hashes st [] st
| hashes_cons st block st1 blocks st2 :
    length block = 64%nat → compresses st block st1 → hashes st1 blocks st2 → hashes st (block :: blocks) st2.

(** Section 5.1.1: a one bit, zeros up to 56 modulo 64, the length in bits. *)
Definition pad (msg : list Z) : list Z :=
  msg ++ 128 :: repeat 0 (Z.to_nat ((55 - zlen msg) mod 64)) ++
  ((λ s, 8 * zlen msg / 2 ^ s mod 256) <$> [56; 48; 40; 32; 24; 16; 8; 0]).

Definition sha256_spec (msg digest : list Z) : Prop :=
  ∃ blocks st, mjoin blocks = pad msg ∧ hashes sha256_iv blocks st ∧ digest = mjoin (word_bytes <$> st).

(** * The word operations *)

Definition word (x : Z) : Prop := 0 ≤ x < 2 ^ 32.

Lemma rotright_spec x n : word x → 0 < n < 32 → ROTRIGHT x n = ROTR n x.
Proof.
  unfold word, ROTRIGHT, ROTR, u32. intros Hx Hn.
  assert (2 ^ 32 = 2 ^ n * 2 ^ (32 - n)) as E by (rewrite <- Z.pow_add_r by lia; f_equal; lia).
  assert (0 < 2 ^ n ∧ 0 < 2 ^ (32 - n)) as [? ?] by (split; apply Z.pow_pos_nonneg; lia).
  change 4294967296 with (2 ^ 32). rewrite Z.shiftr_div_pow2, Z.shiftl_mul_pow2 by lia.
  rewrite E, Z.mul_mod_distr_r by lia.
  pose proof (lor_shiftl (x mod 2 ^ n) (x / 2 ^ n) (32 - n) ltac:(lia)) as H'. rewrite Z.shiftl_mul_pow2 in H' by lia.
  rewrite Z.lor_comm, H'; [lia|]. split; [apply Z.div_pos; lia|apply Z.div_lt_upper_bound; lia].
Qed.

Lemma u32_word x : word (u32 x).
Proof. unfold word. pose proof (u32_bound x). lia. Qed.
#[local] Hint Resolve u32_word : core.

Lemma ep0_spec x : word x → EP0 x = Sigma0 x.
Proof. intros. unfold EP0, Sigma0. by rewrite !rotright_spec by (done || lia). Qed.
Lemma ep1_spec x : word x → EP1 x = Sigma1 x.
Proof. intros. unfold EP1, Sigma1. by rewrite !rotright_spec by (done || lia). Qed.
Lemma sig0_spec x : word x → SIG0 x = sigma0 x.
Proof. intros. unfold SIG0, sigma0. by rewrite !rotright_spec, Z.shiftr_div_pow2 by (done || lia). Qed.
Lemma sig1_spec x : word x → SIG1 x = sigma1 x.
Proof. intros. unfold SIG1, sigma1. by rewrite !rotright_spec, Z.shiftr_div_pow2 by (done || lia). Qed.

(** * One block *)

Lemma load_words_length n data : length (load_words n data) = n.
Proof. revert data. induction n; intros; simpl; auto. Qed.

Lemma load_words_lookup n data t :
  Forall is_byte data → length data = (4 * n)%nat → (t < n)%nat →
  load_words n data !!! t = foldl (λ a b, a * 256 + b) 0 (take 4 (drop (4 * t) data)) ∧ word (load_words n data !!! t).
Proof.
  revert data t. induction n as [|n IH]; intros data t Hb Hl Ht; [lia|].
  destruct data as [|a [|b [|c [|d data]]]]; try (simpl in Hl; lia).
  rewrite !Forall_cons in Hb. destruct Hb as (Ha & Hb1 & Hc & Hd & Hb). destruct t as [|t].
  - simpl. change ((a :: b :: c :: d :: data) !!! 0%nat) with a. change ((a :: b :: c :: d :: data) !!! 1%nat) with b.
    change ((a :: b :: c :: d :: data) !!! 2%nat) with c. change ((a :: b :: c :: d :: data) !!! 3%nat) with d.
    assert (Z.lor (Z.lor (Z.lor (Z.shiftl a 24) (Z.shiftl b 16)) (Z.shiftl c 8)) d = a * 16777216 + b * 65536 + c * 256 + d) as ->;
      [|unfold word, is_byte in *; change (2 ^ 32) with 4294967296; split; lia].
    unfold is_byte in *.
    replace (Z.lor (Z.shiftl a 24) (Z.shiftl b 16)) with (Z.shiftl (a * 256 + b) 16);
      [|change 24 with (8 + 16); rewrite <- Z.shiftl_shiftl, <- Z.shiftl_lor, lor_shiftl by lia; done].
    replace (Z.lor (Z.shiftl (a * 256 + b) 16) (Z.shiftl c 8)) with (Z.shiftl ((a * 256 + b) * 256 + c) 8);
      [|change 16 with (8 + 8); rewrite <- Z.shiftl_shiftl, <- Z.shiftl_lor, lor_shiftl by lia; done].
    rewrite lor_shiftl by lia. change (2 ^ 8) with 256. lia.
  - specialize (IH data t Hb). simpl in Hl. replace (4 * S t)%nat with (4 + 4 * t)%nat by lia.
    cbn [load_words drop Nat.add]. apply IH; lia.
Qed.

(** The words after the first [length m]. *)
Lemma extend_words_spec n m :
  (16 ≤ length m)%nat → Forall word m →
  ∃ m', extend_words n m = m ++ m' ∧ length m' = n ∧ Forall word m' ∧
    ∀ t, (length m ≤ t < length m + n)%nat →
      (m ++ m') !!! t = (sigma1 ((m ++ m') !!! (t - 2)%nat) + (m ++ m') !!! (t - 7)%nat +
                         sigma0 ((m ++ m') !!! (t - 15)%nat) + (m ++ m') !!! (t - 16)%nat) mod 2 ^ 32.
Proof.
  revert m. induction n as [|n IH]; intros m Hl Hw.
  - exists []. rewrite app_nil_r. simpl. split; [done|]. split; [done|]. split; [constructor|lia].
  - cbn [extend_words]. set (v := u32 _). destruct (IH (m ++ [v])) as (m' & -> & Hlm & Hwm & Hs).
    { rewrite length_app. lia. }
    { apply Forall_snoc. split; [done|apply u32_word]. }
    exists (v :: m'). rewrite <- app_assoc in *. cbn [app] in *. rewrite length_app in Hs. simpl in Hs.
    split; [done|]. split; [simpl; lia|]. split; [by constructor; [apply u32_word|]|].
    intros t Ht. destruct (decide (t = length m)) as [->|]; [|apply Hs; lia].
    rewrite lookup_total_app_r, Nat.sub_diag by lia. cbn [lookup_total list_lookup_total].
    rewrite !lookup_total_app_l by lia. assert (∀ j, (j < length m)%nat → word (m !!! j)) as Hj.
    { intros j Hj. rewrite Forall_forall in Hw. apply Hw. apply list_elem_of_lookup_total_2. lia. }
    unfold v. by rewrite sig0_spec, sig1_spec by (apply Hj; lia).
Qed.

Lemma words_schedule data :
  Forall is_byte data → length data = 64%nat → schedule data (extend_words 48 (load_words 16 data)).
Proof.
  intros Hb Hl. pose proof (load_words_length 16 data) as Hl16.
  assert (∀ t, (t < 16)%nat → _) as Hw by exact (λ t, load_words_lookup 16 data t Hb Hl).
  assert (Forall word (load_words 16 data)) as HF.
  { apply Forall_forall. intros x Hx. apply list_elem_of_lookup in Hx as [i Hi].
    pose proof (lookup_lt_Some _ _ _ Hi). rewrite <- (list_lookup_total_correct _ _ _ Hi). apply Hw. lia. }
  destruct (extend_words_spec 48 (load_words 16 data)) as (m' & -> & Hlm & _ & Hs); [lia|done|].
  split; [rewrite length_app; lia|]. split.
  - intros t Ht. rewrite lookup_total_app_l by lia. by apply Hw.
  - intros t Ht. apply Hs. lia.
Qed.

Lemma round_step r km : word (ra r) → word (re r) → round r km = step r km ∧ word (ra (round r km)) ∧ word (re (round r km)).
Proof.
  intros Ha He. unfold round, step. rewrite ep0_spec, ep1_spec by done. cbn [ra re]. split; [|auto].
  unfold u32. change 4294967296 with (2 ^ 32). f_equal.
  - by rewrite <- Zplus_mod.
  - by rewrite Zplus_mod_idemp_r.
Qed.

(** [a] and [e] are the only words rotated; both stay within 32 bits, the
    others are former values of them. *)
Definition regs_ok (r : regs) : Prop := Forall word (regs_list r).

Lemma rounds_steps l r : regs_ok r → foldl round r l = foldl step r l ∧ regs_ok (foldl round r l).
Proof.
  revert r. induction l as [|x l IH]; intros r Hr; [done|]. cbn [foldl].
  unfold regs_ok, regs_list in Hr. rewrite !Forall_cons in Hr. destruct Hr as (Ha & ? & ? & ? & He & ? & ? & ? & _).
  destruct (round_step r x) as (E & ? & ?); [done..|]. rewrite <- E. apply IH.
  unfold regs_ok, regs_list. rewrite !Forall_cons. split_and!; done.
Qed.

Lemma transform_compresses st data :
  length st = 8%nat → Forall word st → Forall is_byte data → length data = 64%nat →
  compresses st data (sha256_transform st data) ∧ length (sha256_transform st data) = 8%nat ∧ Forall word (sha256_transform st data).
Proof.
  intros Hl Hw Hb Hd. split; [|split; [done|unfold sha256_transform; repeat constructor; apply u32_bound]].
  destruct st as [|s0 [|s1 [|s2 [|s3 [|s4 [|s5 [|s6 [|s7 [|? ?]]]]]]]]]; try done.
  exists (extend_words 48 (load_words 16 data)). split; [by apply words_schedule|].
  unfold sha256_transform. fold (regs_of [s0; s1; s2; s3; s4; s5; s6; s7]).
  by rewrite (proj1 (rounds_steps (zip k (extend_words 48 (load_words 16 data))) (regs_of [s0; s1; s2; s3; s4; s5; s6; s7]) Hw)).
Qed.

(** * Streams *)

Lemma hashes_snoc st blocks st1 block st2 :
  hashes st blocks st1 → length block = 64%nat → compresses st1 block st2 → hashes st (blocks ++ [block]) st2.
Proof. induction 1; intros; simpl; econstructor; eauto using hashes. Qed.

(** The context after [msg] has been taken in: [blocks] are the full blocks,
    [tail] the bytes that wait in [data]. *)
Definition absorbed (ctx : sha256_ctx) (msg : list Z) : Prop :=
  ∃ blocks tail rest,
    msg = mjoin blocks ++ tail ∧ ctx_data ctx = tail ++ rest ∧ length (tail ++ rest) = 64%nat ∧
    datalen ctx = zlen tail ∧ zlen tail < 64 ∧
    zlen (mjoin blocks) = 64 * zlen blocks ∧ bitlen ctx = u64 (512 * zlen blocks) ∧
    hashes sha256_iv blocks (state ctx) ∧ length (state ctx) = 8%nat ∧ Forall word (state ctx).

Lemma absorbed_init junk : length junk = 64%nat → absorbed (sha256_init junk) [].
Proof.
  intros Hj. exists [], [], junk. split_and!; try done; [constructor|].
  unfold sha256_init, sha256_iv, word. simpl. change (2 ^ 32) with 4294967296. repeat constructor; lia.
Qed.

Lemma absorbed_update data ctx msg :
  absorbed ctx msg → Forall is_byte msg → Forall is_byte data →
  ∃ ctx', sha256_update ctx data = Ok ctx' ∧ absorbed ctx' (msg ++ data).
Proof.
  revert ctx msg. induction data as [|b data IH]; intros ctx msg Ha Hm Hd; [rewrite app_nil_r; eauto|].
  apply Forall_cons in Hd as [Hb Hd]. cbn [sha256_update].
  replace (msg ++ b :: data) with ((msg ++ [b]) ++ data) by by rewrite <- app_assoc.
  assert (Forall is_byte (msg ++ [b])) as Hm' by by apply Forall_snoc.
  destruct Ha as (blocks & tail & rest & -> & Hc & Hl & Hn & Hlt & Hz & Hbl & Hh & Hs & Hw).
  destruct rest as [|x rest]; [rewrite app_nil_r in Hl; unfold zlen in Hlt; lia|].
  rewrite Hc, Hn, wr_middle, u8_id by done. cbn [mbind res_bind].
  pose proof (zlen_nonneg tail). rewrite u32_id by lia. rewrite length_app in Hl. simpl in Hl.
  destruct (Z.eqb_spec (zlen tail + 1) 64) as [E|E]; apply IH; try done.
  - assert (length tail = 63%nat) by (unfold zlen in E; lia). assert (rest = []) as -> by (apply nil_length_inv; lia).
    destruct (transform_compresses (state ctx) (tail ++ [b])) as (? & ? & ?); try done.
    { rewrite <- app_assoc in Hm'. by apply Forall_app in Hm' as [_ Hm']. }
    { rewrite length_app. simpl. lia. }
    exists (blocks ++ [tail ++ [b]]), [], (tail ++ [b]). rewrite join_app, zlen_app, zlen_snoc, Hz.
    simpl. rewrite !app_nil_r, app_assoc, zlen_snoc.
    split_and!; try done; try lia; [rewrite length_app; simpl; lia| |].
    + rewrite Hbl. unfold u64. rewrite Zplus_mod_idemp_l. f_equal. lia.
    + eapply hashes_snoc; [done| |done]. rewrite length_app. simpl. lia.
  - exists blocks, (tail ++ [b]), rest. rewrite !zlen_snoc, <- !app_assoc.
    split_and!; try done; try lia. simpl. rewrite length_app. simpl. lia.
Qed.

Lemma absorbed_updates pieces ctx msg :
  absorbed ctx msg → Forall is_byte msg → Forall (Forall is_byte) pieces →
  ∃ ctx', foldl (λ c piece, c ← c; sha256_update c piece) (Ok ctx) pieces = Ok ctx' ∧ absorbed ctx' (msg ++ mjoin pieces).
Proof.
  intros Ha Hm Hp. revert ctx msg Ha Hm. induction Hp as [|p pieces Hp Hps IH]; intros ctx msg Ha Hm.
  - simpl. rewrite app_nil_r. eauto.
  - destruct (absorbed_update p ctx msg) as (c & E & Hc); [done..|]. cbn [foldl mbind res_bind]. rewrite E.
    destruct (IH c (msg ++ p) Hc) as (c' & -> & Hc'); [by apply Forall_app|].
    exists c'. split; [done|]. simpl. by rewrite app_assoc.
Qed.

(** A run of bytes over [data], each truncated to a byte. *)
Lemma put_bytes_over bs pre old post :
  length old = length bs → put_bytes (pre ++ old ++ post) (zlen pre) bs = Ok (pre ++ (u8 <$> bs) ++ post).
Proof.
  revert pre old. induction bs as [|b bs IH]; intros pre [|o old] Hl; try done.
  cbn [put_bytes app]. rewrite wr_middle. cbn [mbind res_bind]. injection Hl as Hl.
  specialize (IH (pre ++ [u8 b]) old Hl). rewrite zlen_snoc, <- !app_assoc in IH. exact IH.
Qed.

Lemma fmap_u8_repeat n : u8 <$> repeat 0 n = repeat 0 n.
Proof. induction n as [|n IH]; [done|]. cbn [repeat fmap list_fmap]. by f_equal. Qed.

(** The bytes the end of the last block gets. *)
Definition length_bytes (n : Z) : list Z := (λ s, n / 2 ^ s mod 256) <$> [56; 48; 40; 32; 24; 16; 8; 0].

Lemma length_bytes_u8 n :
  u8 <$> [Z.shiftr n 56; Z.shiftr n 48; Z.shiftr n 40; Z.shiftr n 32; Z.shiftr n 24; Z.shiftr n 16; Z.shiftr n 8; n] = length_bytes n.
Proof. unfold length_bytes, u8. simpl. rewrite !Z.shiftr_div_pow2 by lia. change (2 ^ 0) with 1. by rewrite Z.div_1_r. Qed.

Lemma length_bytes_bytes n : Forall is_byte (length_bytes n).
Proof. unfold length_bytes. repeat constructor; apply Z.mod_pos_bound; lia. Qed.

Lemma repeat_zero_bytes n : Forall is_byte (repeat 0 n).
Proof. induction n; constructor; [unfold is_byte; lia|done]. Qed.

(** The first stage of the final step: the padding that fits in the block
    [data], and the block compressed when the length does not fit. *)
Lemma final_pad tail rest n (i := zlen tail) :
  length (tail ++ rest) = n → zlen tail < Z.of_nat n → ∀ j, i < j ≤ Z.of_nat n →
  put_bytes (tail ++ rest) i (128 :: repeat 0 (Z.to_nat (j - (i + 1)))) =
  Ok (tail ++ 128 :: repeat 0 (Z.to_nat (j - (i + 1))) ++ drop (Z.to_nat (j - i)) rest).
Proof.
  unfold i, zlen. rewrite length_app. intros Hl Hi j Hj. set (m := Z.to_nat (j - (_ + 1))).
  rewrite <- (take_drop (Z.to_nat (j - Z.of_nat (length tail))) rest) at 1.
  fold (zlen tail). rewrite put_bytes_over.
  - cbn [fmap list_fmap]. rewrite fmap_u8_repeat. done.
  - rewrite length_take. simpl. rewrite repeat_length. unfold m, zlen in *. lia.
Qed.

(** The last block, its length field written. *)
Lemma final_length d n :
  length d = 64%nat →
  put_bytes d 56 [Z.shiftr n 56; Z.shiftr n 48; Z.shiftr n 40; Z.shiftr n 32; Z.shiftr n 24; Z.shiftr n 16; Z.shiftr n 8; n] =
  Ok (take 56 d ++ length_bytes n).
Proof.
  intros Hl. rewrite <- (take_drop 56 d) at 1. rewrite <- (app_nil_r (drop 56 d)).
  replace 56 with (zlen (take 56 d)) at 1 by (unfold zlen; rewrite length_take; lia).
  rewrite put_bytes_over by (rewrite length_drop, Hl; done). by rewrite length_bytes_u8, app_nil_r.
Qed.

Lemma final_block st blocks block :
  hashes sha256_iv blocks st → length st = 8%nat → Forall word st → Forall is_byte block → length block = 64%nat →
  hashes sha256_iv (blocks ++ [block]) (sha256_transform st block) ∧
  length (sha256_transform st block) = 8%nat ∧ Forall word (sha256_transform st block).
Proof.
  intros Hh Hl Hw Hb Hbl. destruct (transform_compresses st block) as (? & ? & ?); [done..|].
  split; [|done]. by eapply hashes_snoc.
Qed.

Lemma pad_block_spec ctx blocks tail rest :
  ctx_data ctx = tail ++ rest → length (tail ++ rest) = 64%nat → datalen ctx = zlen tail → zlen tail < 64 → Forall is_byte tail →
  hashes sha256_iv blocks (state ctx) → length (state ctx) = 8%nat → Forall word (state ctx) →
  ∃ d st blocks', pad_block ctx = Ok (d, st) ∧ length d = 64%nat ∧ Forall is_byte (take 56 d) ∧
    hashes sha256_iv blocks' st ∧ length st = 8%nat ∧ Forall word st ∧
    mjoin blocks' ++ take 56 d = mjoin blocks ++ tail ++ 128 :: repeat 0 (Z.to_nat ((55 - zlen tail) mod 64)).
Proof.
  intros Hc Hl Hn Hlt Htb Hh Hs Hw. unfold pad_block. rewrite Hc, Hn.
  assert (is_byte 128) by (unfold is_byte; lia). pose proof (zlen_nonneg tail). rewrite length_app in Hl.
  destruct (Z.ltb_spec (zlen tail) 56).
  - rewrite (final_pad tail rest 64) by (rewrite ?length_app; lia). cbn [mbind res_bind].
    set (z := Z.to_nat (56 - (zlen tail + 1))). set (r := drop _ rest).
    assert (length (tail ++ 128 :: repeat 0 z) = 56%nat) as Hp.
    { rewrite length_app. cbn [length]. rewrite repeat_length. unfold z, zlen in *. lia. }
    eexists _, _, blocks. split; [done|]. rewrite app_comm_cons, app_assoc, take_app_length' by done.
    split_and!; try done.
    + rewrite length_app, Hp. unfold r. rewrite length_drop. unfold zlen in *. lia.
    + rewrite Forall_app, Forall_cons. split_and!; try done. apply repeat_zero_bytes.
    + do 4 f_equal. unfold z. dlia.
  - rewrite (final_pad tail rest 64) by (rewrite ?length_app; lia). cbn [mbind res_bind].
    set (z := Z.to_nat (64 - (zlen tail + 1))).
    assert (drop (Z.to_nat (64 - zlen tail)) rest = []) as -> by (apply drop_ge; unfold zlen in *; lia). rewrite app_nil_r.
    set (b1 := tail ++ 128 :: repeat 0 z).
    assert (length b1 = 64%nat) as Hb1.
    { unfold b1, z. rewrite length_app. cbn [length]. rewrite repeat_length. unfold zlen in *. lia. }
    destruct (final_block (state ctx) blocks b1) as (Hh1 & Hs1 & Hw1); try done.
    { unfold b1. rewrite !Forall_app, Forall_cons. split_and!; try done. apply repeat_zero_bytes. }
    pose proof (put_bytes_over (repeat 0 56) [] (take 56 b1) (drop 56 b1)) as E. cbn [app] in E.
    rewrite take_drop in E. change (zlen (@nil Z)) with 0 in E. rewrite E by (rewrite length_take, repeat_length; lia).
    cbn [mbind res_bind]. rewrite fmap_u8_repeat. eexists _, _, (blocks ++ [b1]). split; [done|].
    rewrite take_app_length' by by rewrite repeat_length. split_and!; try done.
    + rewrite length_app, repeat_length, length_drop. lia.
    + apply repeat_zero_bytes.
    + rewrite join_app. cbn [mjoin list_join]. rewrite app_nil_r, <- app_assoc. f_equal. unfold b1. rewrite <- app_assoc.
      f_equal. cbn [app]. f_equal. rewrite <- repeat_app. f_equal. unfold z. dlia.
Qed.

Lemma absorbed_final ctx msg :
  absorbed ctx msg → Forall is_byte msg → 8 * zlen msg < 2 ^ 64 → ∃ h, sha256_final ctx = Ok h ∧ sha256_spec msg h.
Proof.
  intros (blocks & tail & rest & -> & Hc & Hl & Hn & Hlt & Hz & Hbl & Hh & Hs & Hw) Hm Hbits.
  apply Forall_app in Hm as [_ Htb]. pose proof (zlen_nonneg tail). pose proof (zlen_nonneg blocks).
  rewrite zlen_app, Hz in Hbits. unfold sha256_final.
  destruct (pad_block_spec ctx blocks tail rest) as (d & st & blocks' & -> & Hd & Hdb & Hh' & Hs' & Hw' & Hp); [done..|].
  cbn [mbind res_bind].
  assert (u64 (bitlen ctx + u32 (datalen ctx * 8)) = 8 * zlen (mjoin blocks ++ tail)) as ->.
  { rewrite Hbl, Hn, (u32_id (zlen tail * 8)) by lia. rewrite (u64_id (512 * _)), u64_id, zlen_app, Hz by lia. lia. }
  rewrite final_length by done. cbn [mbind res_bind]. set (lb := length_bytes _). eexists; split; [done|].
  destruct (final_block st blocks' (take 56 d ++ lb)) as (? & _); try done.
  { apply Forall_app. split; [done|apply length_bytes_bytes]. }
  { rewrite length_app, length_take. change (length lb) with 8%nat. lia. }
  eexists _, _. split; [|split; done].
  rewrite join_app. cbn [mjoin list_join]. rewrite app_nil_r, app_assoc, Hp. unfold pad.
  replace ((55 - zlen (mjoin blocks ++ tail)) mod 64) with ((55 - zlen tail) mod 64); [by rewrite <- !app_assoc|].
  rewrite zlen_app, Hz. dlia.
Qed.



(** The digest of abc, as the standard's example gives it. *)
Lemma sha256_abc :
  (ctx ← sha256_update (sha256_init (repeat 0 64)) [97; 98; 99]; sha256_final ctx) =
  Ok (mjoin (word_bytes <$> [0xba7816bf; 0x8f01cfea; 0x414140de; 0x5dae2223; 0xb00361a3; 0x96177a9c; 0xb410ff61; 0xf20015ad])).
Proof. vm_compute. reflexivity. Qed.

(** * Questions *)

(** [n] questions at [p]: their names in lower case, each followed by its type
    and class. *)
Inductive questions_at (dnssec : bool) (buf : list Z) (plen : Z) : nat → Z → list Z → Prop :=
| questions_nil p : questions_at dnssec buf plen 0 p []
| questions_cons n p q h L out a b c d msg :
    name_at buf plen p L q h → Z.of_nat h ≤ 255 → wire_len L < MAXDNAME → render dnssec L = Some out → q + 4 ≤ plen →
    rd buf q = Ok a → rd buf (q + 1) = Ok b → rd buf (q + 2) = Ok c → rd buf (q + 3) = Ok d →
    questions_at dnssec buf plen n (q + 4) msg →
    questions_at dnssec buf plen (S n) p ((lower <$> out) ++ [a; b; c; d] ++ msg).

Lemma lower_bytes out : wf_cstring out → Forall is_byte (lower <$> out).
Proof. intros H. apply Forall_fmap. eapply Forall_impl; [done|]. intros c Hc. pose proof (lower_pos c Hc). unfold is_byte. simpl. lia. Qed.

Section questions.
Context (dnssec : bool) (buf : list Z) (plen : Z).
Hypothesis Hbuf : Forall is_byte buf.
Hypothesis Hplen : 0 ≤ plen ≤ zlen buf.

(** The name of the first question, read back from the packet. *)
Lemma questions_inv n p m :
  0 ≤ p → questions_at dnssec buf plen (S n) p m →
  ∃ q out a b c d m', extract_name dnssec buf plen p [] true 4 = Ok (1, q, out) ∧ q + 4 ≤ plen ∧
    rd buf q = Ok a ∧ rd buf (q + 1) = Ok b ∧ rd buf (q + 2) = Ok c ∧ rd buf (q + 3) = Ok d ∧
    questions_at dnssec buf plen n (q + 4) m' ∧ m = (lower <$> out) ++ [a; b; c; d] ++ m'.
Proof.
  intros Hp Hm. inversion_clear Hm. eexists _, _, _, _, _, _, _. split; [apply extract_name_ok; [done..|]|].
  - split; [done|]. split; [done|]. eauto 10.
  - split_and!; done.
Qed.

Lemma hash_loop_spec n p ctx msg :
  0 ≤ p → absorbed ctx msg → Forall is_byte msg →
  twp (hash_loop dnssec buf plen n p ctx) (λ r,
    match r with
    | Some ctx' => ∃ m, questions_at dnssec buf plen n p m ∧ absorbed ctx' (msg ++ m) ∧ Forall is_byte m ∧ zlen m ≤ 2054 * Z.of_nat n
    | None => ∀ m, ¬ questions_at dnssec buf plen n p m
    end).
Proof.
  revert p ctx msg. induction n as [|n IH]; intros p ctx msg Hp Ha Hm.
  { exists []. rewrite app_nil_r. split_and!; try done; constructor. }
  cbn [hash_loop]. pose proof (extract_name_wp dnssec buf plen p [] true 4 Hbuf Hplen Hp ltac:(lia) ltac:(done)) as Hx.
  destruct (extract_name dnssec buf plen p [] true 4) as [[[ret q] out]| | |] eqn:E; try done; cbn [catch mbind res_bind].
  2: { intros m (? & ? & ? & ? & ? & ? & ? & ? & _)%questions_inv; [congruence|done]. }
  destruct Hx as (Hq & Hqp & _ & Ho). destruct (Ho eq_refl) as [Hol How].
  assert (Forall is_byte (lower <$> out)) as Hlow by by apply lower_bytes.
  destruct (absorbed_update (lower <$> out) ctx msg) as (c1 & -> & Ha1); [done..|]. cbn [mbind res_bind].
  assert (∀ i, 0 ≤ i < 4 → ∃ b, rd buf (q + i) = Ok b ∧ b ∈ buf) as Hrd by (intros; apply rd_in; lia).
  destruct (Hrd 0) as (a & Ea & Hia); [lia|]. rewrite Z.add_0_r in Ea. destruct (Hrd 1) as (b & Eb & Hib); [lia|].
  destruct (Hrd 2) as (c & Ec & Hic); [lia|]. destruct (Hrd 3) as (d & Ed & Hid); [lia|]. clear Hrd.
  assert (Forall is_byte [a; b; c; d]) as H4 by (rewrite Forall_forall in Hbuf; repeat constructor; by apply Hbuf).
  rewrite Ea, Eb, Ec, Ed. cbn [mbind res_bind].
  destruct (absorbed_update [a; b; c; d] c1 (msg ++ (lower <$> out))) as (c2 & -> & Ha2); [done|by apply Forall_app|done|].
  cbn [mbind res_bind]. unfold CHECK_LEN. rewrite (proj2 (Z.leb_le (q + 4 + 0) plen)) by lia. cbn [negb].
  eapply twp_mono; [apply (IH (q + 4) c2 _ ltac:(lia) Ha2); rewrite !Forall_app; done|].
  intros [ctx'|].
  - intros (m & Hqs & Ham & Hbm & Hlm). apply extract_name_ok in E as (_ & _ & L & h & ? & ? & ? & ?); [|done..].
    exists ((lower <$> out) ++ [a; b; c; d] ++ m). split; [by eapply questions_cons|].
    split; [by rewrite !app_assoc in *|]. split; [by rewrite !Forall_app|].
    rewrite !zlen_app. unfold MAXDNAME in Hol. unfold zlen in *. rewrite length_fmap. cbn [length] in *. destruct dnssec; lia.
  - intros Hno m Hm'. apply questions_inv in Hm' as (q' & ? & ? & ? & ? & ? & m' & E' & _ & _ & _ & _ & _ & Hq' & _); [|done].
    rewrite E in E'. injection E' as -> -> ->. by eapply Hno.
Qed.
End questions.

(** [hash_questions] is total on any packet with a complete header. It
    returns NULL exactly when the question section is malformed, and otherwise
    the SHA-256 of the questions in order, each as its name in lower case
    followed by its type and class: questions that differ in the case of their
    names only have the same hash, whatever the compression of the names. *)
Theorem hash_questions_correct dnssec buf plen junk qd :
  Forall is_byte buf → HDRSZ ≤ plen ≤ zlen buf → length junk = 64%nat → qdcount buf = Ok qd →
  ∃ r, hash_questions dnssec buf plen junk = Ok r ∧
    match r with
    | Some h => ∃ msg, questions_at dnssec buf plen (Z.to_nat qd) HDRSZ msg ∧ sha256_spec msg h
    | None => ∀ msg, ¬ questions_at dnssec buf plen (Z.to_nat qd) HDRSZ msg
    end.
Proof.
  intros Hb Hpl Hj Hq. unfold hash_questions. rewrite Hq. cbn [mbind res_bind].
  pose proof (hash_loop_spec dnssec buf plen Hb ltac:(unfold HDRSZ in *; lia) (Z.to_nat qd) HDRSZ (sha256_init junk) []
    ltac:(unfold HDRSZ; lia) (absorbed_init junk Hj) ltac:(constructor)) as (r & -> & Hr)%twp_ok.
  cbn [mbind res_bind]. destruct r as [ctx|]; [|eauto].
  destruct Hr as (m & Hm & Ha & Hbm & Hl). assert (qd < 65536) as Hqd.
  { apply bind_ok in Hq as ([v p'] & E & [= ->]). apply bind_ok in E as (a & Ea & E). apply bind_ok in E as (b & Eb & [= <- _]).
    apply rd_Ok in Ea as [_ Ea]. apply rd_Ok in Eb as [_ Eb]. rewrite Forall_lookup in Hb. apply Hb in Ea, Eb. unfold is_byte in *.
    rewrite lor_shiftl by lia. change (2 ^ 8) with 256. lia. }
  destruct (absorbed_final ctx m) as (h & -> & Hh); [done|done|change (2 ^ 64) with 18446744073709551616; lia|].
  cbn [mbind res_bind]. exists (Some h). eauto.
Qed.

Lemma hash_questions_correct_witness :
  ∃ r, hash_questions false [0; 0; 0; 0; 0; 1; 0; 0; 0; 0; 0; 0; 1; 65; 0; 0; 1; 0; 1] 19 (repeat 0 64) = Ok r ∧
    match r with
    | Some h => ∃ msg, questions_at false [0; 0; 0; 0; 0; 1; 0; 0; 0; 0; 0; 0; 1; 65; 0; 0; 1; 0; 1] 19 1 HDRSZ msg ∧ sha256_spec msg h
    | None => ∀ msg, ¬ questions_at false [0; 0; 0; 0; 0; 1; 0; 0; 0; 0; 0; 0; 1; 65; 0; 0; 1; 0; 1] 19 1 HDRSZ msg
    end.
Proof.
  apply (hash_questions_correct false [0; 0; 0; 0; 0; 1; 0; 0; 0; 0; 0; 0; 1; 65; 0; 0; 1; 0; 1] 19 (repeat 0 64) 1);
    [unfold is_byte; repeat constructor; lia|unfold HDRSZ, zlen; simpl; lia|reflexivity|reflexivity].
Defined.
