(* ===== verification/Poll.v ===== *)
(** The descriptors the event loop waits for (src/src/poll.c): an array of
    struct pollfd kept in the order of descriptors and searched by binary chop,
    and its refinement to a map from descriptors to events. *)
From stdpp Require Import sorting.
From S2P Require Import Prelude.

(** * The code *)

Record pollfd := Pollfd { pfd : Z; events : Z; revents : Z }.

(** The static variables. [pollfds] is the allocated array, [] for NULL; its
    first [nfds] entries are in use, [arrsize] is the size the code has
    recorded. *)
Record polls := Polls { pollfds : list pollfd; nfds : Z; arrsize : Z }.

Definition poll_start : polls := Polls [] 0 0.

Definition poll_at (arr : list pollfd) (i : Z) : res pollfd :=
  if i <? 0 then Oob else match arr !! Z.to_nat i with Some p => Ok p | None => Oob end.

Definition poll_put (arr : list pollfd) (i : Z) (p : pollfd) : res (list pollfd) :=
  if (i <? 0) || (zlen arr <=? i) then Oob else Ok (<[Z.to_nat i := p]> arr).

(** The loop of [fd_search]. *)
Fixpoint chop (fuel : nat) (arr : list pollfd) (fd left right : Z) : res Z :=
  match fuel with
  | O => NoFuel
  | S fuel =>
      if right =? left + 1 then
        p ← poll_at arr left; Ok (if fd <=? pfd p then left else right)
      else
        let mid := (left + right) / 2 in
        p ← poll_at arr mid;
        if fd <? pfd p then chop fuel arr fd left mid else chop fuel arr fd mid right
  end.

Definition fd_search (st : polls) (fd : Z) : res Z :=
  if nfds st =? 0 then Ok 0 else chop (Z.to_nat (nfds st)) (pollfds st) fd 0 (nfds st).

Definition poll_reset (st : polls) : polls := Polls (pollfds st) 0 (arrsize st).

(** [i < nfds && pollfds[i].fd == fd] *)
Definition poll_found (st : polls) (i fd : Z) : res bool :=
  if i <? nfds st then p ← poll_at (pollfds st) i; Ok (pfd p =? fd) else Ok false.

Definition poll_check (st : polls) (fd event : Z) : res Z :=
  i ← fd_search st fd;
  found ← poll_found st i fd;
  if found : bool then p ← poll_at (pollfds st) i; Ok (Z.land (revents p) event) else Ok 0.

(** The n - i entries from [i] moved one place up. *)
Definition move_up (arr : list pollfd) (i n : Z) : res (list pollfd) :=
  if (i <? n) && (zlen arr <=? n) then Oob
  else Ok (take (Z.to_nat (i + 1)) arr ++ take (Z.to_nat (n - i)) (drop (Z.to_nat i) arr) ++ drop (Z.to_nat (n + 1)) arr).

(** The same on the way into a new array. *)
Definition copy_up (new arr : list pollfd) (i n : Z) : res (list pollfd) :=
  if (zlen arr <? n) || (zlen new <=? n) then Oob
  else Ok (take (Z.to_nat i) arr ++ take 1 (drop (Z.to_nat i) new) ++ take (Z.to_nat (n - i)) (drop (Z.to_nat i) arr) ++
           drop (Z.to_nat (n + 1)) new).

(** [alloc] is the result of whine_malloc, called when the array is full: an
    array of the size asked for with arbitrary contents, or failure. *)
Definition poll_listen (alloc : Z → option (list pollfd)) (st : polls) (fd event : Z) : res polls :=
  i ← fd_search st fd;
  found ← poll_found st i fd;
  if found : bool then
    p ← poll_at (pollfds st) i;
    arr ← poll_put (pollfds st) i (Pollfd (pfd p) (Z.lor (events p) event) (revents p));
    Ok (Polls arr (nfds st) (arrsize st))
  else if negb (arrsize st =? nfds st) then
    arr ← move_up (pollfds st) i (nfds st);
    old ← poll_at arr i;
    arr ← poll_put arr i (Pollfd fd event (revents old));
    Ok (Polls arr (nfds st + 1) (arrsize st))
  else
    let size := if arrsize st =? 0 then 64 else arrsize st * 2 in
    match alloc size with
    | None => Ok (Polls (pollfds st) (nfds st) size)
    | Some new =>
        arr ← copy_up new (pollfds st) i (nfds st);
        old ← poll_at arr i;
        arr ← poll_put arr i (Pollfd fd event (revents old));
        Ok (Polls arr (nfds st + 1) size)
    end.

(** poll(2) sets the revents of the first [nfds] entries and nothing else:
    [ready] gives them by descriptor and events. *)
Definition do_poll (ready : Z → Z → Z) (st : polls) : polls :=
  let n := Z.to_nat (nfds st) in
  Polls (((λ p, Pollfd (pfd p) (events p) (ready (pfd p) (events p))) <$> take n (pollfds st)) ++ drop n (pollfds st))
        (nfds st) (arrsize st).

(** * The invariant *)

Definition active (st : polls) : list pollfd := take (Z.to_nat (nfds st)) (pollfds st).

Record polls_ok (st : polls) : Prop := {
  po_size : arrsize st = zlen (pollfds st);
  po_nfds : 0 ≤ nfds st ≤ arrsize st;
  po_sorted : StronglySorted Z.lt (pfd <$> active st) }.

(** What the loop waits for. *)
Definition interest (st : polls) : gmap Z Z := list_to_map ((λ p, (pfd p, events p)) <$> active st).

(** The memory allocator gives what is asked for. *)
Definition allocates (alloc : Z → option (list pollfd)) : Prop :=
  ∀ n, 0 < n → ∃ new, alloc n = Some new ∧ zlen new = n.

(** * The search *)

Lemma poll_at_in arr i : 0 ≤ i < zlen arr → ∃ p, poll_at arr i = Ok p ∧ arr !! Z.to_nat i = Some p.
Proof.
  intros Hi. unfold poll_at. rewrite (proj2 (Z.ltb_ge i 0)) by lia.
  destruct (lookup_lt_is_Some_2 arr (Z.to_nat i)) as [p Hp]; [unfold zlen in Hi; lia|]. rewrite Hp. eauto.
Qed.

Lemma strongly_sorted_lookup {A} (R : A → A → Prop) l i j x y :
  StronglySorted R l → l !! i = Some x → l !! j = Some y → (i < j)%nat → R x y.
Proof.
  intros Hs. revert i j. induction Hs as [|a l Hs IH Ha]; intros i j Hi Hj Hij; [done|].
  destruct j as [|j]; [lia|]. destruct i as [|i]; simpl in *.
  - injection Hi as ->. rewrite Forall_lookup in Ha. by eapply Ha.
  - eapply IH; [done|done|lia].
Qed.

(** The position of [fd]: everything before is smaller, nothing from there on
    is. *)
Definition position (l : list pollfd) (fd i : Z) : Prop :=
  0 ≤ i ≤ zlen l ∧ (∀ j p, l !! j = Some p → (Z.of_nat j < i ↔ pfd p < fd)).

Lemma chop_spec fuel l rest fd left right :
  StronglySorted Z.lt (pfd <$> l) → 0 ≤ left → left < right ≤ zlen l → right - left ≤ Z.of_nat fuel →
  (∀ j p, l !! j = Some p → Z.of_nat j < left → pfd p < fd) →
  (∀ j p, l !! j = Some p → right ≤ Z.of_nat j → fd < pfd p) →
  ∃ i, chop fuel (l ++ rest) fd left right = Ok i ∧ position l fd i.
Proof.
  intros Hs. revert left right. induction fuel as [|fuel IH]; intros left right H0 Hlr Hf Hlo Hhi; [lia|].
  assert (∀ i j p q, l !! i = Some p → l !! j = Some q → (i < j)%nat → pfd p < pfd q) as Hlt.
  { intros i j p q Hi Hj Hij. eapply (strongly_sorted_lookup Z.lt _ i j); [exact Hs| | |done]; by rewrite list_lookup_fmap, ?Hi, ?Hj. }
  assert (∀ i, 0 ≤ i < right → ∃ p, poll_at (l ++ rest) i = Ok p ∧ l !! Z.to_nat i = Some p) as Hat.
  { intros i Hi. destruct (poll_at_in (l ++ rest) i) as (p & E & Hp); [rewrite zlen_app; pose proof (zlen_nonneg rest); lia|].
    exists p. split; [done|]. rewrite lookup_app_l in Hp by (unfold zlen in *; lia). done. }
  cbn [chop]. destruct (Z.eqb_spec right (left + 1)) as [E|E].
  - destruct (Hat left) as (p & -> & Hp); [lia|]. cbn [mbind res_bind]. eexists. split; [done|].
    destruct (Z.leb_spec fd (pfd p)); split; try lia; intros j q Hq.
    + split; [intros ?; eapply Hlo; [done|lia]|]. intros Hfd. destruct (Nat.lt_trichotomy j (Z.to_nat left)) as [?|[->|Hj]]; [lia| |].
      * rewrite Hp in Hq. injection Hq as <-. lia.
      * pose proof (Hlt _ _ _ _ Hp Hq Hj). lia.
    + split; [|intros ?; destruct (Z.lt_ge_cases (Z.of_nat j) right) as [?|Hj]; [done|specialize (Hhi _ _ Hq Hj); lia]].
      intros Hj. destruct (decide (j = Z.to_nat left)) as [->|]; [rewrite Hp in Hq; injection Hq as <-; lia|].
      eapply Hlo; [done|lia].
  - assert (left < (left + right) / 2 < right) as Hm by dlia. set (mid := (left + right) / 2) in *.
    destruct (Hat mid) as (p & -> & Hp); [lia|]. cbn [mbind res_bind]. destruct (Z.ltb_spec fd (pfd p)); apply IH; try lia; try done.
    + intros j q Hq Hj. destruct (decide (j = Z.to_nat mid)) as [->|]; [rewrite Hp in Hq; injection Hq as <-; lia|].
      pose proof (Hlt (Z.to_nat mid) j p q Hp Hq). lia.
    + intros j q Hq Hj. pose proof (Hlt j (Z.to_nat mid) q p Hq Hp). lia.
Qed.

(** The array with its entries in use split off. *)
Definition holds (st : polls) (l : list pollfd) : Prop :=
  ∃ rest, pollfds st = l ++ rest ∧ nfds st = zlen l ∧ arrsize st = zlen l + zlen rest.

Lemma holds_active st l : holds st l → active st = l.
Proof.
  intros (rest & E & En & _). unfold active. rewrite E, En. unfold zlen. rewrite Nat2Z.id. by rewrite take_app_length.
Qed.

Lemma holds_ok st l : holds st l → StronglySorted Z.lt (pfd <$> l) → polls_ok st.
Proof.
  intros Hh Hs. pose proof (holds_active _ _ Hh) as Ha. destruct Hh as (rest & E & En & Es).
  pose proof (zlen_nonneg l). pose proof (zlen_nonneg rest).
  split; [rewrite E, zlen_app; lia|lia|by rewrite Ha].
Qed.

Lemma polls_ok_holds st : polls_ok st → holds st (active st).
Proof.
  intros [Hsz Hn _]. exists (drop (Z.to_nat (nfds st)) (pollfds st)). unfold active.
  rewrite take_drop. split; [done|]. unfold zlen in *. rewrite length_take, length_drop. lia.
Qed.

Lemma search_spec st l fd :
  holds st l → StronglySorted Z.lt (pfd <$> l) →
  ∃ a b, l = a ++ b ∧ fd_search st fd = Ok (zlen a) ∧ Forall (λ p, pfd p < fd) a ∧ Forall (λ p, fd ≤ pfd p) b.
Proof.
  intros (rest & E & En & _) Hs. unfold fd_search. rewrite En, E.
  destruct (Z.eqb_spec (zlen l) 0) as [H0|H0].
  { exists [], []. assert (l = []) as -> by (apply nil_length_inv; unfold zlen in H0; lia). done. }
  destruct (chop_spec (Z.to_nat (zlen l)) l rest fd 0 (zlen l)) as (i & -> & [Hi Hp]); try done; try (pose proof (zlen_nonneg l); lia).
  { intros j p Hj Hge. apply lookup_lt_Some in Hj. unfold zlen in Hge. lia. }
  exists (take (Z.to_nat i) l), (drop (Z.to_nat i) l). rewrite take_drop. split; [done|]. split.
  - f_equal. unfold zlen in *. rewrite length_take. lia.
  - split; apply Forall_lookup; intros j p Hj.
    + apply lookup_take_Some in Hj as [Hj ?]. apply (Hp _ _ Hj). lia.
    + rewrite lookup_drop in Hj. specialize (Hp _ _ Hj). lia.
Qed.

(** [found] tells whether the entry at the position is the descriptor's. *)
Lemma found_spec st a b fd :
  holds st (a ++ b) →
  poll_found st (zlen a) fd = Ok (match b with p :: _ => pfd p =? fd | [] => false end).
Proof.
  intros (rest & E & En & _). unfold poll_found, poll_at. rewrite E, En, zlen_app. pose proof (zlen_nonneg a).
  destruct b as [|p b].
  - rewrite zlen_nil. by rewrite (proj2 (Z.ltb_ge _ _)) by lia.
  - rewrite zlen_cons. pose proof (zlen_nonneg b). rewrite (proj2 (Z.ltb_lt _ _)), (proj2 (Z.ltb_ge (zlen a) 0)) by lia.
    unfold zlen. rewrite Nat2Z.id, <- app_assoc. cbn [app]. by rewrite list_lookup_middle.
Qed.

Lemma poll_at_middle (a : list pollfd) p b : poll_at (a ++ p :: b) (zlen a) = Ok p.
Proof.
  unfold poll_at. rewrite (proj2 (Z.ltb_ge (zlen a) 0)) by apply zlen_nonneg.
  unfold zlen. rewrite Nat2Z.id. by rewrite list_lookup_middle.
Qed.

Lemma poll_put_middle (a : list pollfd) p b q : poll_put (a ++ p :: b) (zlen a) q = Ok (a ++ q :: b).
Proof.
  unfold poll_put. rewrite zlen_app, zlen_cons. pose proof (zlen_nonneg a). pose proof (zlen_nonneg b).
  replace ((zlen a <? 0) || (zlen a + (1 + zlen b) <=? zlen a)) with false by lia.
  f_equal. unfold zlen. rewrite Nat2Z.id. by rewrite insert_app_r_alt, Nat.sub_diag by lia.
Qed.

Lemma move_up_spec (a b : list pollfd) x rest :
  ∃ y, move_up (a ++ b ++ x :: rest) (zlen a) (zlen (a ++ b)) = Ok (a ++ y :: b ++ rest).
Proof.
  unfold move_up. rewrite !zlen_app, zlen_cons. pose proof (zlen_nonneg rest).
  replace ((zlen a <? zlen a + zlen b) && (zlen a + (zlen b + (1 + zlen rest)) <=? zlen a + zlen b)) with false by lia.
  exists (match b with y :: _ => y | [] => x end). f_equal. unfold zlen.
  replace (Z.to_nat (Z.of_nat (length a) + 1)) with (length a + 1)%nat by lia.
  replace (Z.to_nat (Z.of_nat (length a) + Z.of_nat (length b) - Z.of_nat (length a))) with (length b) by lia.
  replace (Z.to_nat (Z.of_nat (length a) + Z.of_nat (length b) + 1)) with (length a + (length b + 1))%nat by lia.
  rewrite Nat2Z.id, take_app_add, drop_app_length, drop_app_add, drop_app_add, take_app_length.
  destruct b as [|y b]; simpl; by rewrite <- app_assoc.
Qed.

Lemma copy_up_spec (a b new : list pollfd) :
  zlen (a ++ b) < zlen new →
  ∃ y rest, copy_up new (a ++ b) (zlen a) (zlen (a ++ b)) = Ok (a ++ y :: b ++ rest) ∧ zlen rest = zlen new - zlen (a ++ b) - 1.
Proof.
  intros Hn. unfold copy_up. replace ((zlen (a ++ b) <? zlen (a ++ b)) || (zlen new <=? zlen (a ++ b))) with false by lia.
  destruct (drop (length a) new) as [|y r] eqn:Ed.
  { apply (f_equal length) in Ed. rewrite length_drop in Ed. unfold zlen in Hn. rewrite length_app in Hn. simpl in Ed. lia. }
  exists y, (drop (length (a ++ b) + 1) new). split.
  - f_equal. unfold zlen. rewrite length_app. replace (Z.to_nat (Z.of_nat (length a + length b) - Z.of_nat (length a))) with (length b) by lia.
    replace (Z.to_nat (Z.of_nat (length a + length b) + 1)) with (length a + length b + 1)%nat by lia.
    rewrite Nat2Z.id, Ed, take_app_length, drop_app_length, firstn_all. done.
  - unfold zlen in *. rewrite length_drop. lia.
Qed.

(** * Listening *)

Definition to_map (l : list pollfd) : gmap Z Z := list_to_map ((λ p, (pfd p, events p)) <$> l).

Lemma to_map_middle a x b : Forall (λ p, pfd p < pfd x) a → to_map (a ++ x :: b) = <[pfd x := events x]> (to_map (a ++ b)).
Proof.
  intros Ha. unfold to_map. rewrite !fmap_app, !list_to_map_app. cbn [fmap list_fmap list_to_map foldr fst snd].
  change (foldr _ ∅ _) with (list_to_map ((λ p, (pfd p, events p)) <$> b) : gmap Z Z).
  rewrite insert_union_r; [done|]. apply not_elem_of_list_to_map_1. rewrite <- list_fmap_compose.
  intros Hin. apply list_elem_of_fmap in Hin as (p & E & Hp). rewrite Forall_forall in Ha. specialize (Ha p Hp). simpl in E. lia.
Qed.

Lemma to_map_none a b fd : Forall (λ p, pfd p < fd) a → Forall (λ p, fd < pfd p) b → to_map (a ++ b) !! fd = None.
Proof.
  intros Ha Hb. apply not_elem_of_list_to_map_1. rewrite <- list_fmap_compose. intros Hin.
  apply list_elem_of_fmap in Hin as (p & E & Hp). rewrite Forall_forall in Ha, Hb. simpl in E.
  apply elem_of_app in Hp as [Hp|Hp]; [specialize (Ha p Hp)|specialize (Hb p Hp)]; lia.
Qed.

(** A place in a sorted array. *)
Lemma sorted_place a x b :
  Forall (λ p, pfd p < pfd x) a → Forall (λ p, pfd x < pfd p) b → StronglySorted Z.lt (pfd <$> a ++ b) →
  StronglySorted Z.lt (pfd <$> a ++ x :: b).
Proof.
  rewrite !fmap_app, fmap_cons, !StronglySorted_app, StronglySorted_cons.
  intros Ha Hb (Hab & Hsa & Hsb). split; [|split; [done|split; [|done]]].
  - intros y z Hy Hz. apply elem_of_cons in Hz as [->|Hz]; [|by apply Hab].
    apply list_elem_of_fmap in Hy as (p & -> & Hp). rewrite Forall_forall in Ha. by apply Ha.
  - rewrite Forall_fmap. done.
Qed.

(** Entries from the first that is not [fd]'s on are greater. *)
Lemma rest_greater l a b fd :
  l = a ++ b → StronglySorted Z.lt (pfd <$> l) → Forall (λ p, fd ≤ pfd p) b →
  (∀ p b', b = p :: b' → pfd p ≠ fd) → Forall (λ p, fd < pfd p) b.
Proof.
  intros -> Hs Hb Hne. rewrite fmap_app in Hs. apply StronglySorted_app in Hs as (_ & _ & Hs).
  destruct b as [|p b]; [constructor|]. specialize (Hne p b eq_refl).
  apply Forall_cons in Hb as [Hp _]. rewrite fmap_cons in Hs. apply StronglySorted_cons in Hs as [Hs _].
  constructor; [lia|]. rewrite Forall_fmap in Hs. eapply Forall_impl; [exact Hs|]. simpl. lia.
Qed.

(** The entry for a descriptor already there gets the event. *)
Lemma update_entry st a p b event :
  holds st (a ++ p :: b) → StronglySorted Z.lt (pfd <$> a ++ p :: b) → Forall (λ q, pfd q < pfd p) a →
  ∃ arr, poll_put (pollfds st) (zlen a) (Pollfd (pfd p) (Z.lor (events p) event) (revents p)) = Ok arr ∧
    poll_at (pollfds st) (zlen a) = Ok p ∧ polls_ok (Polls arr (nfds st) (arrsize st)) ∧
    interest (Polls arr (nfds st) (arrsize st)) =
      <[pfd p := Z.lor (default 0 (to_map (a ++ p :: b) !! pfd p)) event]> (to_map (a ++ p :: b)).
Proof.
  intros (rest & Ep & En & Es) Hs Ha. rewrite Ep, <- app_assoc. cbn [app]. rewrite poll_at_middle, poll_put_middle.
  set (q := Pollfd _ _ _). eexists; split; [done|]. split; [done|].
  assert (holds (Polls (a ++ q :: b ++ rest) (nfds st) (arrsize st)) (a ++ q :: b)) as Hh.
  { exists rest. simpl. rewrite <- app_assoc, En, Es, !zlen_app, !zlen_cons. split_and!; done. }
  split; [eapply holds_ok; [done|]|].
  - rewrite fmap_app, fmap_cons in Hs |- *. done.
  - unfold interest. rewrite (holds_active _ _ Hh). fold (to_map (a ++ q :: b)). rewrite !to_map_middle by done.
    simpl. rewrite lookup_insert_eq, insert_insert_eq. done.
Qed.

(** A new entry at its place, room made for it. *)
Lemma place_entry a y b rest fd event (size := zlen (a ++ b) + 1 + zlen rest) :
  StronglySorted Z.lt (pfd <$> a ++ b) → Forall (λ q, pfd q < fd) a → Forall (λ q, fd < pfd q) b →
  ∃ arr, poll_put (a ++ y :: b ++ rest) (zlen a) (Pollfd fd event (revents y)) = Ok arr ∧
    polls_ok (Polls arr (zlen (a ++ b) + 1) size) ∧
    interest (Polls arr (zlen (a ++ b) + 1) size) = <[fd := Z.lor (default 0 (to_map (a ++ b) !! fd)) event]> (to_map (a ++ b)).
Proof.
  intros Hs Ha Hb. rewrite poll_put_middle. set (q := Pollfd _ _ _). eexists; split; [done|].
  assert (holds (Polls (a ++ q :: b ++ rest) (zlen (a ++ b) + 1) size) (a ++ q :: b)) as Hh.
  { exists rest. unfold size. simpl. rewrite <- app_assoc, !zlen_app, !zlen_cons. split_and!; [done|lia..]. }
  split; [eapply holds_ok; [done|by apply sorted_place]|].
  unfold interest. rewrite (holds_active _ _ Hh). fold (to_map (a ++ q :: b)). rewrite to_map_middle by done. by rewrite to_map_none.
Qed.

Lemma poll_listen_spec alloc st fd event :
  allocates alloc → polls_ok st →
  ∃ st', poll_listen alloc st fd event = Ok st' ∧ polls_ok st' ∧
    interest st' = <[fd := Z.lor (default 0 (interest st !! fd)) event]> (interest st).
Proof.
  intros Hal Hok. pose proof (polls_ok_holds _ Hok) as Hh. pose proof (po_sorted _ Hok) as Hs.
  unfold interest at 2 3. fold (to_map (active st)). set (l := active st) in *. clearbody l.
  destruct (search_spec st l fd Hh Hs) as (a & b & -> & E & Ha & Hb). unfold poll_listen. rewrite E. cbn [mbind res_bind].
  rewrite (found_spec st a b fd Hh). cbn [mbind res_bind].
  destruct (match b with p :: _ => pfd p =? fd | [] => false end) eqn:Hf.
  { destruct b as [|p b]; [done|]. apply Z.eqb_eq in Hf as <-.
    destruct (update_entry st a p b event Hh Hs Ha) as (arr & Eq & -> & ? & ?). cbn [mbind res_bind]. rewrite Eq. eexists; eauto. }
  assert (Forall (λ p, fd < pfd p) b) as Hb'.
  { eapply rest_greater; [done|done|done|]. intros p b' ->. by apply Z.eqb_neq in Hf. }
  destruct Hh as (rest & Ep & En & Es). rewrite En, Es, Ep.
  destruct (Z.eqb_spec (zlen (a ++ b) + zlen rest) (zlen (a ++ b))) as [Ez|Ez]; cbn [negb].
  - assert (rest = []) as -> by (apply nil_length_inv; unfold zlen in Ez; lia). rewrite app_nil_r, zlen_nil, Z.add_0_r in *.
    set (size := if zlen (a ++ b) =? 0 then 64 else zlen (a ++ b) * 2). assert (0 < size ∧ zlen (a ++ b) < size) as [Hp Hlt].
    { unfold size. pose proof (zlen_nonneg (a ++ b)). destruct (Z.eqb_spec (zlen (a ++ b)) 0); lia. }
    destruct (Hal size Hp) as (new & -> & Hnew).
    destruct (copy_up_spec a b new ltac:(lia)) as (y & rest & -> & Hr). cbn [mbind res_bind]. rewrite poll_at_middle. cbn [mbind res_bind].
    destruct (place_entry a y b rest fd event Hs Ha Hb') as (arr & -> & Ho & Hi). cbn [mbind res_bind].
    replace (zlen (a ++ b) + 1 + zlen rest) with size in * by lia. eauto.
  - destruct rest as [|x rest]; [rewrite zlen_nil in Ez; lia|].
    destruct (move_up_spec a b x rest) as (y & Em). rewrite <- app_assoc, Em. cbn [mbind res_bind]. rewrite poll_at_middle. cbn [mbind res_bind].
    destruct (place_entry a y b rest fd event Hs Ha Hb') as (arr & -> & Ho & Hi). cbn [mbind res_bind].
    replace (zlen (a ++ b) + zlen (x :: rest)) with (zlen (a ++ b) + 1 + zlen rest) by (rewrite zlen_cons; lia). eauto.
Qed.

(** * The operations of the loop *)

Inductive poll_op :=
| Reset
| Listen (fd event : Z)
| Wait (ready : Z → Z → Z).

Definition poll_step (alloc : Z → option (list pollfd)) (st : polls) (op : poll_op) : res polls :=
  match op with
  | Reset => Ok (poll_reset st)
  | Listen fd event => poll_listen alloc st fd event
  | Wait ready => Ok (do_poll ready st)
  end.

(** The events asked for since the last reset, by descriptor. *)
Definition spec_step (m : gmap Z Z) (op : poll_op) : gmap Z Z :=
  match op with
  | Reset => ∅
  | Listen fd event => <[fd := Z.lor (default 0 (m !! fd)) event]> m
  | Wait _ => m
  end.

Lemma poll_reset_spec st : polls_ok st → polls_ok (poll_reset st) ∧ interest (poll_reset st) = ∅.
Proof.
  intros [Hsz Hn _]. split; [|done]. split; simpl; [done|lia|]. unfold active. simpl. constructor.
Qed.

Lemma do_poll_holds ready st l :
  holds st l → holds (do_poll ready st) ((λ p, Pollfd (pfd p) (events p) (ready (pfd p) (events p))) <$> l).
Proof.
  intros (rest & E & En & Es). exists rest. unfold do_poll. simpl. rewrite E, En, Es. unfold zlen.
  rewrite Nat2Z.id, take_app_length, drop_app_length, length_fmap. done.
Qed.

Lemma do_poll_spec ready st : polls_ok st → polls_ok (do_poll ready st) ∧ interest (do_poll ready st) = interest st.
Proof.
  intros Hok. pose proof (do_poll_holds ready _ _ (polls_ok_holds _ Hok)) as Hh. split.
  - eapply holds_ok; [done|]. rewrite <- list_fmap_compose. apply (po_sorted _ Hok).
  - unfold interest. rewrite (holds_active _ _ Hh), <- list_fmap_compose. done.
Qed.

Lemma poll_check_spec ready st fd event :
  polls_ok st →
  poll_check (do_poll ready st) fd event =
  Ok (match interest st !! fd with Some ev => Z.land (ready fd ev) event | None => 0 end).
Proof.
  intros Hok. pose proof (do_poll_spec ready st Hok) as [Hok' <-]. set (st' := do_poll ready st) in *.
  assert (Forall (λ p, revents p = ready (pfd p) (events p)) (active st')) as Hr.
  { unfold st'. rewrite (holds_active _ _ (do_poll_holds ready _ _ (polls_ok_holds _ Hok))). apply Forall_fmap, Forall_true. done. }
  pose proof (polls_ok_holds _ Hok') as Hh. pose proof (po_sorted _ Hok') as Hs.
  unfold interest. fold (to_map (active st')). set (l := active st') in *. clearbody l.
  destruct (search_spec st' l fd Hh Hs) as (a & b & -> & E & Ha & Hb). unfold poll_check. rewrite E. cbn [mbind res_bind].
  rewrite (found_spec st' a b fd Hh). cbn [mbind res_bind].
  destruct (match b with p :: _ => pfd p =? fd | [] => false end) eqn:Hf.
  - destruct b as [|p b]; [done|]. apply Z.eqb_eq in Hf as <-. destruct Hh as (rest & -> & _).
    rewrite <- app_assoc. cbn [app]. rewrite poll_at_middle. cbn [mbind res_bind]. rewrite to_map_middle, lookup_insert_eq by done.
    apply Forall_app in Hr as [_ Hr]. apply Forall_cons in Hr as [-> _]. done.
  - rewrite to_map_none; [done|done|]. eapply rest_greater; [done|done|done|]. intros p b' ->. by apply Z.eqb_neq in Hf.
Qed.

(** The sorted array is a map: after any sequence of resets, listens and
    waits, with memory available, no access is outside the array, its entries
    are in strictly increasing order of descriptors, the events it holds are
    those asked for since the last reset, joined by descriptor, and after a wait
    poll_check gives the returned events of exactly those descriptors. *)
Theorem poll_refines alloc ready ops :
  allocates alloc →
  ∃ st, foldl (λ r op, st ← r; poll_step alloc st op) (Ok poll_start) ops = Ok st ∧ polls_ok st ∧
    interest st = foldl spec_step ∅ ops ∧
    ∀ fd event, poll_check (do_poll ready st) fd event =
      Ok (match foldl spec_step ∅ ops !! fd with Some ev => Z.land (ready fd ev) event | None => 0 end).
Proof.
  intros Hal. assert (∃ st, foldl (λ r op, st ← r; poll_step alloc st op) (Ok poll_start) ops = Ok st ∧ polls_ok st ∧
    interest st = foldl spec_step ∅ ops) as (st & ? & Hok & Hi).
  { induction ops as [|op ops IH] using rev_ind.
    - exists poll_start. split; [done|]. split; [|done]. split; simpl; [done|lia|constructor].
    - destruct IH as (st & E & Hok & Hi). rewrite !foldl_app. cbn [foldl]. rewrite E, <- Hi. cbn [mbind res_bind].
      destruct op as [|fd event|r]; cbn [poll_step spec_step].
      + destruct (poll_reset_spec st Hok). eauto.
      + by apply poll_listen_spec.
      + destruct (do_poll_spec r st Hok). eauto. }
  exists st. split; [done|]. split; [done|]. split; [done|]. intros fd event. rewrite <- Hi. by apply poll_check_spec.
Qed.

Lemma poll_refines_witness :
  allocates (λ n, Some (repeat (Pollfd 0 0 0) (Z.to_nat n))) ∧
  ∃ st, foldl (λ r op, st ← r; poll_step (λ n, Some (repeat (Pollfd 0 0 0) (Z.to_nat n))) st op) (Ok poll_start)
      [Listen 7 1; Listen 3 4; Listen 7 4] = Ok st ∧ polls_ok st ∧
    interest st = foldl spec_step ∅ [Listen 7 1; Listen 3 4; Listen 7 4] ∧
    ∀ fd event, poll_check (do_poll (λ _ ev, ev) st) fd event =
      Ok (match foldl spec_step ∅ [Listen 7 1; Listen 3 4; Listen 7 4] !! fd with Some ev => Z.land ev event | None => 0 end).
Proof.
  assert (allocates (λ n, Some (repeat (Pollfd 0 0 0) (Z.to_nat n)))) as Hal.
  { intros n Hn. eexists; split; [reflexivity|]. unfold zlen. rewrite repeat_length. lia. }
  split; [exact Hal|]. apply (poll_refines _ (λ _ ev, ev) [Listen 7 1; Listen 3 4; Listen 7 4] Hal).
Defined.

(** poll_listen records the doubled size before the allocation: when the
    allocation fails, the next listen takes the array to be larger than it is
    and stores outside it. *)
Lemma poll_listen_after_failure :
  (st ← poll_listen (λ _, None) poll_start 3 1; poll_listen (λ _, None) st 4 1) = Oob.
Proof. reflexivity. Qed.
