(* ===== verification/Pattern.v ===== *)
(** Patterns of DNS names for the connection-mark allowlists
    (src/src/pattern.c): the matcher of one label with its restarts, the
    validity of names and patterns, and the label by label match. *)
From S2P Require Import Prelude Hostname.

(** * The code *)

Definition upper (c : Z) : Z := if (97 <=? c) && (c <=? 122) then c - 32 else c.
Definition hyphen : Z := 45.

(** The indices of is_string_matching_glob_pattern. *)
Record glob_st := GlobSt { value_index : nat; next_value_index : nat; pattern_index : nat; next_pattern_index : nat }.

(** The end of the loop's body: back to the last wildcard, or failure. *)
Definition glob_restart (st : glob_st) : option glob_st :=
  match next_value_index st with
  | O => None
  | _ => Some (GlobSt (next_value_index st) (next_value_index st) (next_pattern_index st) (next_pattern_index st))
  end.

(** One iteration; [None] is the return of 0. *)
Definition glob_step (value pattern : cstring) (st : glob_st) : option glob_st :=
  match pattern !! pattern_index st with
  | Some pc =>
      if upper pc =? star then
        Some (GlobSt (value_index st)
                     (if (value_index st <? length value)%nat then value_index st + 1 else 0)
                     (pattern_index st + 1) (pattern_index st))
      else
        match value !! value_index st with
        | Some vc =>
            if upper vc =? upper pc then
              Some (GlobSt (value_index st + 1) (next_value_index st) (pattern_index st + 1) (next_pattern_index st))
            else glob_restart st
        | None => glob_restart st
        end
  | None => glob_restart st
  end.

Fixpoint glob_loop (fuel : nat) (value pattern : cstring) (st : glob_st) : res bool :=
  match fuel with
  | O => NoFuel
  | S fuel =>
      if (value_index st <? length value)%nat || (pattern_index st <? length pattern)%nat then
        match glob_step value pattern st with
        | None => Ok false
        | Some st => glob_loop fuel value pattern st
        end
      else Ok true
  end.

(** Each restart moves the value index of a wildcard up by one. *)
Definition glob_fuel (value pattern : cstring) : nat :=
  S (S (length pattern) * (2 * length value + 4) * S (length pattern)).

Definition is_string_matching_glob_pattern (value pattern : cstring) : res bool :=
  glob_loop (glob_fuel value pattern) value pattern (GlobSt 0 0 0 0).

Definition is_digit (c : Z) : bool := (48 <=? c) && (c <=? 57).
Definition name_char (c : Z) : bool :=
  (c =? hyphen) || (c =? dot) || is_digit c || ((65 <=? c) && (c <=? 90)) || ((97 <=? c) && (c <=? 122)).

(** [label] is local in any case. *)
Definition is_local_tld (label : cstring) : bool :=
  match label with
  | [a; b; c; d; e] =>
      ((a =? 108) || (a =? 76)) && ((b =? 111) || (b =? 79)) && ((c =? 99) || (c =? 67)) &&
      ((d =? 97) || (d =? 65)) && ((e =? 108) || (e =? 76))
  | _ => false
  end.

(** The loop of is_valid_dns_name at the string [s]; [label] is the text from
    the label's start to here, [] when [label] is NULL. *)
Fixpoint valid_loop (s : cstring) (num_bytes num_labels : Z) (label : cstring) (numeric : bool) : bool :=
  let c := deref s in
  if negb (c =? 0) && negb (name_char c) then false
  else
    let num_bytes := if negb (c =? 0) then num_bytes + 1 else num_bytes in
    if bool_decide (label = []) && ((c =? 0) || (c =? dot)) then false
    else if bool_decide (label = []) && (c =? hyphen) then false
    else
      match s with
      | x :: s' =>
          if negb (x =? 0) && negb (x =? dot) then
            valid_loop s' num_bytes num_labels (label ++ [x]) (if negb (is_digit x) then false else numeric)
          else if default 0 (last label) =? hyphen then false
          else if 63 <? zlen label then false
          else valid_loop s' num_bytes (num_labels + 1) [] true
      | [] =>
          if default 0 (last label) =? hyphen then false
          else if 63 <? zlen label then false
          else if num_labels + 1 <? 2 then false
          else if numeric then false
          else if is_local_tld label then false
          else if (num_bytes <? 1) || (253 <? num_bytes) then false
          else true
      end.

Definition is_valid_dns_name (value : cstring) : bool := valid_loop value 0 0 [] true.

(** The loop of is_valid_dns_name_pattern. *)
Fixpoint valid_pattern_loop (s : cstring) (num_bytes num_labels : Z) (label : cstring) (numeric : bool)
    (num_wildcards : Z) (previous : bool) : bool :=
  let c := deref s in
  if negb (c =? 0) && negb (c =? star) && negb (name_char c) then false
  else
    let num_bytes := if negb (c =? 0) && negb (c =? star) then num_bytes + 1 else num_bytes in
    if bool_decide (label = []) && ((c =? 0) || (c =? dot)) then false
    else if bool_decide (label = []) && (c =? hyphen) then false
    else
      match s with
      | x :: s' =>
          if negb (x =? 0) && negb (x =? dot) then
            let numeric := if negb (is_digit x) then false else numeric in
            if x =? star then
              if 2 <=? num_wildcards then false
              else valid_pattern_loop s' num_bytes num_labels (label ++ [x]) numeric (num_wildcards + 1) previous
            else valid_pattern_loop s' num_bytes num_labels (label ++ [x]) numeric num_wildcards previous
          else if default 0 (last label) =? hyphen then false
          else if 63 <? zlen label - num_wildcards then false
          else valid_pattern_loop s' num_bytes (num_labels + 1) [] true 0 (negb (num_wildcards =? 0))
      | [] =>
          if default 0 (last label) =? hyphen then false
          else if 63 <? zlen label - num_wildcards then false
          else if num_labels + 1 <? 2 then false
          else if negb (num_wildcards =? 0) || previous then false
          else if numeric then false
          else if is_local_tld label then false
          else if (num_bytes <? 1) || (253 <? num_bytes) then false
          else true
      end.

Definition is_valid_dns_name_pattern (value : cstring) : bool := valid_pattern_loop value 0 0 [] true 0 true.

(** The loop to the end of a label: the label and what is left. *)
Fixpoint split_label (s : cstring) : cstring * cstring :=
  match s with
  | [] => ([], [])
  | c :: s' => if c =? dot then ([], s) else let '(l, r) := split_label s' in (c :: l, r)
  end.

(** The do loop of is_dns_name_matching_pattern; the assertions only log. *)
Fixpoint match_labels (fuel : nat) (n p : cstring) : res bool :=
  match fuel with
  | O => NoFuel
  | S fuel =>
      let '(name_label, n) := split_label n in
      let '(pattern_label, p) := split_label p in
      m ← is_string_matching_glob_pattern name_label pattern_label;
      if negb m then Ok (bool_decide (n = []) && bool_decide (p = []))
      else
        let n := tail n in
        let p := tail p in
        if bool_decide (n ≠ []) && bool_decide (p ≠ []) then match_labels fuel n p
        else Ok (bool_decide (n = []) && bool_decide (p = []))
  end.

Definition is_dns_name_matching_pattern (name pattern : cstring) : res bool :=
  match_labels (S (length name)) name pattern.
