(* ===== verification/PatternSpec.v ===== *)
(** The matcher of labels against the usual meaning of wildcards, the
    validators against their grammar, and what the match of names accepts. *)
From S2P Require Import Prelude Hostname Pattern.

(** * Wildcards *)

(** A star matches any run of characters, any other character itself up to
    case. *)
Fixpoint glob (p : cstring) : cstring → bool :=
  match p with
  | [] => λ v, match v with [] => true | _ => false end
  | c :: p =>
      if c =? star then
        fix anywhere (v : cstring) := glob p v || match v with [] => false | _ :: v => anywhere v end
      else λ v, match v with [] => false | x :: v => (upper x =? upper c) && glob p v end
  end.

Lemma glob_star p v :
  glob (star :: p) v = glob p v || match v with [] => false | _ :: v => glob (star :: p) v end.
Proof. by destruct v. Qed.

Lemma upper_star c : (upper c =? star) = (c =? star).
Proof. unfold upper, star. destruct (_ && _) eqn:E; bool_hyps; [lia|done]. Qed.

Lemma glob_char c p v :
  (c =? star) = false → glob (c :: p) v = match v with [] => false | x :: v => (upper x =? upper c) && glob p v end.
Proof. intros Hc. simpl. by rewrite Hc. Qed.

Lemma glob_star_drop k p v : glob (star :: p) (drop k v) = true → glob (star :: p) v = true.
Proof.
  revert k. induction v as [|x v IH]; intros k H; [by rewrite drop_nil in H|].
  destruct k as [|k]; [done|]. rewrite glob_star. apply orb_true_iff. right. by eapply IH.
Qed.

Definition plain (c : Z) : Prop := (c =? star) = false.

(** A match of plain characters consumes as many. *)
Lemma glob_plain seg p v : Forall plain seg → glob (seg ++ p) v = true → glob p (drop (length seg) v) = true.
Proof.
  intros Hs. revert v. induction Hs as [|c seg Hc Hs IH]; intros v; [done|].
  cbn [app]. rewrite glob_char by done. destruct v as [|x v]; [done|]. intros [_ H]%andb_true_iff. by apply IH.
Qed.

Lemma glob_star_plain seg p v :
  Forall plain seg → glob (star :: seg ++ p) v = true → ∃ k, (length seg ≤ k)%nat ∧ glob p (drop k v) = true.
Proof.
  intros Hs. induction v as [|x v IH]; rewrite glob_star; intros [H|H]%orb_true_iff; try done.
  - exists (length seg). split; [done|]. by apply glob_plain in H.
  - exists (length seg). split; [done|]. by apply glob_plain in H.
  - destruct (IH H) as (k & ? & ?). exists (S k). split; [lia|done].
Qed.

(** * The loop *)

Section loop.
Context (V P : cstring).

(** Where the loop is: before any wildcard, just restarted at one, or past one
    by plain characters that have matched so far. *)
Inductive phase (st : glob_st) : nat → nat → Prop :=
| no_star : next_value_index st = 0%nat → phase st 0 (2 * length V + 3)
| restarted :
    P !! next_pattern_index st = Some star → pattern_index st = next_pattern_index st →
    value_index st = next_value_index st → next_value_index st ≠ 0%nat →
    phase st (S (next_pattern_index st)) (2 * next_value_index st + 1)
| past_end seg :
    drop (next_pattern_index st) P = star :: seg ++ drop (pattern_index st) P → Forall plain seg →
    pattern_index st = (next_pattern_index st + 1 + length seg)%nat → next_value_index st = 0%nat →
    phase st (S (next_pattern_index st)) (2 * length V + 3)
| past seg :
    drop (next_pattern_index st) P = star :: seg ++ drop (pattern_index st) P → Forall plain seg →
    pattern_index st = (next_pattern_index st + 1 + length seg)%nat → next_value_index st ≠ 0%nat →
    (value_index st + 1 = next_value_index st + length seg)%nat →
    phase st (S (next_pattern_index st)) (2 * next_value_index st).

Definition here (st : glob_st) : bool := glob (drop (pattern_index st) P) (drop (value_index st) V).
Definition later (st : glob_st) : bool :=
  negb (next_value_index st =? 0)%nat && glob (drop (next_pattern_index st) P) (drop (next_value_index st) V).

Definition in_range (st : glob_st) : Prop :=
  (pattern_index st ≤ length P)%nat ∧ (value_index st ≤ length V)%nat ∧ (next_value_index st ≤ length V)%nat ∧
  (next_pattern_index st ≤ pattern_index st)%nat.

(** The iterations are bounded by the rank. *)
Definition rank (st : glob_st) (s t : nat) : nat := ((s * (2 * length V + 4) + t) * S (length P) + pattern_index st)%nat.
Definition top : nat := (S (length P) * (2 * length V + 4) * S (length P))%nat.

(** A wildcard that is reached makes the earlier one redundant. *)
Lemma later_here st s t :
  phase st s t → P !! pattern_index st = Some star → (value_index st ≤ length V)%nat → later st = true → here st = true.
Proof.
  intros Hp Hc Hv. unfold later, here. apply drop_S in Hc as Hd. destruct Hp as [->|? -> -> _|? _ _ _ ->|seg Hseg Hpl _ _ Hi]; try done.
  - by intros [_ ?]%andb_true_iff.
  - rewrite Hseg, Hd. intros [_ H]%andb_true_iff. apply glob_star_plain in H as (k & Hk & H); [|done].
    rewrite drop_drop in H. apply (glob_star_drop (next_value_index st + k - value_index st)). rewrite drop_drop.
    by replace (value_index st + (next_value_index st + k - value_index st))%nat with (next_value_index st + k)%nat by lia.
Qed.

Definition advances (st : glob_st) (s t : nat) (r : option glob_st) : Prop :=
  match r with
  | None => here st = false ∧ later st = false
  | Some st' => ∃ s' t', phase st' s' t' ∧ in_range st' ∧ (rank st s t < rank st' s' t')%nat ∧
                         here st' || later st' = here st || later st
  end.

Lemma rank_lt st st' s t s' t' :
  (pattern_index st ≤ length P)%nat → (t < 2 * length V + 4)%nat → (s < s' ∨ s = s' ∧ t < t')%nat →
  (rank st s t < rank st' s' t')%nat.
Proof.
  intros Hp Ht Hl. unfold rank. set (M := (2 * length V + 4)%nat) in *. set (K := S (length P)).
  assert (s * M + t + 1 ≤ s' * M + t')%nat as H by (destruct Hl as [Hl|[-> ?]]; [nia|lia]).
  assert ((s * M + t + 1) * K ≤ (s' * M + t') * K)%nat by (by apply Nat.mul_le_mono_r).
  unfold K in *. lia.
Qed.

Lemma phase_bound st s t : phase st s t → in_range st → (t < 2 * length V + 4)%nat.
Proof. intros Hp (? & ? & ? & ?). destruct Hp; lia. Qed.

Lemma restart_advances st s t :
  phase st s t → in_range st → P !! pattern_index st ≠ Some star → here st = false → advances st s t (glob_restart st).
Proof.
  intros Hp Hr Hc Hh. pose proof Hr as (? & ? & ? & ?). unfold glob_restart.
  destruct (next_value_index st) as [|n] eqn:En.
  { split; [done|]. unfold later. by rewrite En. }
  destruct Hp as [|? E ? ?|seg ? ? ? ?|seg Hseg Hpl Hpi Hnv Hi]; [congruence|by rewrite E in Hc|congruence|].
  rewrite <- En in *. set (st' := GlobSt _ _ _ _).
  assert (P !! next_pattern_index st = Some star) as Hs.
  { rewrite <- (Nat.add_0_r (next_pattern_index st)), <- lookup_drop, Hseg. done. }
  exists (S (next_pattern_index st)), (2 * next_value_index st + 1)%nat. split; [by apply (restarted st')|]. split; [|split].
  - unfold in_range, st'. simpl. lia.
  - apply rank_lt; [lia|lia|]. right. split; [done|lia].
  - rewrite Hh. unfold here, later, st'. simpl. destruct (next_value_index st =? 0)%nat eqn:E0; [apply Nat.eqb_eq in E0; lia|].
    simpl. by rewrite orb_diag.
Qed.

Lemma star_advances st s t :
  phase st s t → in_range st → P !! pattern_index st = Some star → advances st s t (glob_step V P st).
Proof.
  intros Hp Hr Hc. pose proof Hr as (? & Hv & ? & ?). unfold glob_step. rewrite Hc, upper_star, Z.eqb_refl.
  set (nv := if (value_index st <? length V)%nat then _ else _). set (st' := GlobSt _ _ _ _).
  apply lookup_lt_Some in Hc as Hlt. apply drop_S in Hc as Hd.
  assert (here st' || later st' = here st || later st) as Heq.
  { pose proof (later_here st s t Hp Hc Hv) as Hl. unfold here at 1, later at 1, st', nv. simpl.
    transitivity (here st); [|destruct (later st); [by rewrite Hl|by rewrite orb_false_r]].
    unfold here. rewrite Hd, (glob_star _ (drop (value_index st) V)), Nat.add_1_r. destruct (Nat.ltb_spec (value_index st) (length V)) as [Hlv|Hlv].
    - destruct (lookup_lt_is_Some_2 V (value_index st) Hlv) as [x Hx]. apply drop_S in Hx. rewrite Hx, !Nat.add_1_r. done.
    - rewrite (drop_ge V) by lia. done. }
  assert (∀ t', phase st' (S (pattern_index st)) t' → (t < t' ∨ s < S (pattern_index st))%nat → advances st s t (Some st')) as Hgo.
  { intros t' Hp' Ht. exists (S (pattern_index st)), t'. split; [done|]. split; [|split; [|done]].
    - unfold in_range, st', nv. simpl. destruct (Nat.ltb_spec (value_index st) (length V)); lia.
    - apply rank_lt; [lia|by eapply phase_bound|]. destruct Hp; lia. }
  unfold nv in st', Heq. destruct (Nat.ltb_spec (value_index st) (length V)) as [Hlv|Hlv].
  - eapply Hgo; [apply (past st' [])|]; simpl; try done; try lia; [by rewrite Hd, Nat.add_1_r|]. destruct Hp; lia.
  - eapply Hgo; [apply (past_end st' [])|]; simpl; try done; try lia; [by rewrite Hd, Nat.add_1_r|]. destruct Hp; lia.
Qed.

Lemma step_advances st s t :
  phase st s t → in_range st → (value_index st < length V ∨ pattern_index st < length P)%nat →
  advances st s t (glob_step V P st).
Proof.
  intros Hp Hr Hmore. pose proof Hr as (Hpi & Hv & ? & ?). destruct (P !! pattern_index st) as [c|] eqn:Hc.
  2: { unfold glob_step. rewrite Hc. apply restart_advances; [done|done|congruence|]. apply lookup_ge_None in Hc.
       unfold here. rewrite (drop_ge P) by done. destruct (lookup_lt_is_Some_2 V (value_index st)) as [x Hx]; [lia|].
       by rewrite (drop_S _ _ _ Hx). }
  destruct (c =? star) eqn:Hs; [apply Z.eqb_eq in Hs as ->; by apply star_advances|].
  assert (P !! pattern_index st ≠ Some star) as Hns by (rewrite Hc; intros [= ->]; done).
  unfold glob_step. rewrite Hc, upper_star, Hs. apply drop_S in Hc as Hd. apply lookup_lt_Some in Hc as Hlt.
  destruct (V !! value_index st) as [x|] eqn:Hx.
  2: { apply restart_advances; [done..|]. unfold here. apply lookup_ge_None in Hx. by rewrite Hd, glob_char, (drop_ge V) by done. }
  apply drop_S in Hx as Hdx. apply lookup_lt_Some in Hx as Hlx.
  assert (here st = (upper x =? upper c) && glob (drop (S (pattern_index st)) P) (drop (S (value_index st)) V)) as Hh.
  { unfold here. by rewrite Hd, glob_char, Hdx. }
  destruct (upper x =? upper c) eqn:Hu; [|by apply restart_advances].
  set (st' := GlobSt _ _ _ _). assert (phase st' s t) as Hp'.
  { destruct Hp as [?|? ? ? ?|seg Hseg Hpl Hpe ?|seg Hseg Hpl Hpe ? ?].
    - by apply (no_star st').
    - congruence.
    - apply (past_end st' (seg ++ [c])); simpl; [|apply Forall_snoc; done|rewrite length_app; simpl; lia|done].
      rewrite Hseg, Hd, <- app_assoc, Nat.add_1_r. done.
    - apply (past st' (seg ++ [c])); simpl; [|apply Forall_snoc; done|rewrite length_app; simpl; lia|done|rewrite length_app; simpl; lia].
      rewrite Hseg, Hd, <- app_assoc, Nat.add_1_r. done. }
  exists s, t. split; [done|]. split; [unfold in_range, st'; simpl; lia|]. split; [unfold rank, st'; simpl; lia|].
  rewrite Hh. unfold here, later, st'. simpl. by rewrite !Nat.add_1_r.
Qed.

Lemma rank_top st s t : phase st s t → in_range st → (pattern_index st < length P ∨ s ≤ length P)%nat → (rank st s t < top)%nat.
Proof.
  intros Hp Hr Hs. pose proof (phase_bound _ _ _ Hp Hr). destruct Hr as (? & ? & ? & ?). unfold rank, top.
  assert (s ≤ length P)%nat by (destruct Hp; lia). set (M := (2 * length V + 4)%nat) in *.
  assert (s * M + t + 1 ≤ S (length P) * M)%nat by nia.
  assert ((s * M + t + 1) * S (length P) ≤ S (length P) * M * S (length P))%nat by (by apply Nat.mul_le_mono_r). lia.
Qed.

Lemma phase_star st s t : phase st s t → (s ≤ length P)%nat.
Proof.
  destruct 1 as [|Hs _ _ _|seg Hseg _ _ _|seg Hseg _ _ _ _]; [lia|by apply lookup_lt_Some in Hs; lia|..];
    apply (f_equal length) in Hseg; rewrite length_drop in Hseg; simpl in Hseg; lia.
Qed.

Lemma glob_loop_spec fuel st s t :
  phase st s t → in_range st → (top < rank st s t + fuel)%nat → glob_loop fuel V P st = Ok (here st || later st).
Proof.
  revert st s t. induction fuel as [|fuel IH]; intros st s t Hp Hr Hf.
  { pose proof (rank_top st s t Hp Hr ltac:(right; by eapply phase_star)). lia. }
  cbn [glob_loop]. destruct ((value_index st <? length V)%nat || (pattern_index st <? length P)%nat) eqn:Hm.
  - pose proof (step_advances st s t Hp Hr) as Ha. apply orb_true_iff in Hm. rewrite !Nat.ltb_lt in Hm. specialize (Ha Hm).
    destruct (glob_step V P st) as [st'|].
    + destruct Ha as (s' & t' & Hp' & Hr' & Hlt & <-). eapply IH; [done|done|lia].
    + destruct Ha as [-> ->]. done.
  - apply orb_false_iff in Hm. rewrite !Nat.ltb_ge in Hm. unfold here. by rewrite !drop_ge by lia.
Qed.
End loop.

Lemma glob_pattern_spec value pattern : is_string_matching_glob_pattern value pattern = Ok (glob pattern value).
Proof.
  unfold is_string_matching_glob_pattern. erewrite glob_loop_spec; [unfold here, later; simpl; by rewrite orb_false_r|by apply no_star| |].
  - unfold in_range. simpl. lia.
  - unfold rank, top, glob_fuel. simpl. lia.
Qed.

(** * Validity *)

Definition wild (l : cstring) : Z := zlen (filter (λ c, c = star) l).

Lemma wild_cons c l : wild (c :: l) = (if c =? star then 1 else 0) + wild l.
Proof.
  unfold wild. rewrite filter_cons. destruct (Z.eqb_spec c star); case_decide; try done. by rewrite zlen_cons.
Qed.
Lemma wild_app l k : wild (l ++ k) = wild l + wild k.
Proof. unfold wild. by rewrite filter_app, zlen_app. Qed.
Lemma wild_nonneg l : 0 ≤ wild l.
Proof. apply zlen_nonneg. Qed.

Definition label_char (c : Z) : Prop := c ≠ dot ∧ (c = star ∨ name_char c = true).

(** A label of a pattern: letters, digits, hyphens inside and at most two
    stars, at most 63 characters without the stars. *)
Record ok_label (l : cstring) : Prop := {
  ol_chars : Forall label_char l;
  ol_nonempty : l ≠ [];
  ol_head : head l ≠ Some hyphen;
  ol_last : last l ≠ Some hyphen;
  ol_length : zlen l - wild l ≤ 63;
  ol_wild : wild l ≤ 2 }.

(** The last two labels: no stars; the last is neither a number nor local.
    [previous] stands for a label before the list. *)
Fixpoint ends_ok (previous : bool) (ls : list cstring) : Prop :=
  match ls with
  | [] => False
  | [l] => previous = false ∧ wild l = 0 ∧ forallb is_digit l = false ∧ is_local_tld l = false
  | l :: ls => ends_ok (negb (wild l =? 0)) ls
  end.

Lemma labels_aux_head acc s : ∃ w rest, labels_aux acc s = (reverse acc ++ w) :: rest.
Proof.
  revert acc. induction s as [|c s IH]; intros acc; simpl; [exists [], []; by rewrite app_nil_r|].
  destruct (c =? dot); [exists [], (labels_aux [] s); by rewrite app_nil_r|].
  destruct (IH (c :: acc)) as (w & rest & ->). exists (c :: w), rest. by rewrite reverse_cons, <- app_assoc.
Qed.

(** What the first label must satisfy, it satisfies so far. *)
Lemma first_label acc s : Forall ok_label (labels_aux acc s) → ∃ w, ok_label (reverse acc ++ w).
Proof. destruct (labels_aux_head acc s) as (w & rest & ->). intros [? _]%Forall_cons. eauto. Qed.

Lemma first_label_char acc c s : (c =? dot) = false → ¬ label_char c → ¬ Forall ok_label (labels_aux acc (c :: s)).
Proof.
  intros Hd Hc H. simpl in H. rewrite Hd in H. apply first_label in H as [w [H _ _ _ _ _]].
  rewrite reverse_cons, <- app_assoc in H. apply Forall_app in H as [_ H]. cbn [app] in H. by apply Forall_cons in H as [H _].
Qed.

(** The text of the label being read. *)
Record partial (label : cstring) (numeric : bool) (nw : Z) : Prop := {
  pa_chars : Forall label_char label;
  pa_head : head label ≠ Some hyphen;
  pa_numeric : numeric = forallb is_digit label;
  pa_wild : nw = wild label ∧ nw ≤ 2 }.

Lemma partial_nil : partial [] true 0.
Proof. split; try done. Qed.

Lemma partial_snoc label numeric nw x :
  partial label numeric nw → label_char x → (label = [] → x ≠ hyphen) → (if x =? star then nw + 1 else nw) ≤ 2 →
  partial (label ++ [x]) (if negb (is_digit x) then false else numeric) (if x =? star then nw + 1 else nw).
Proof.
  intros [Hc Hh -> [-> Hw]] Hx Hne Hle. split.
  - by apply Forall_snoc.
  - destruct label as [|y label]; simpl; [intros [= ->]; by apply Hne|done].
  - rewrite forallb_app. simpl. rewrite andb_true_r. destruct (is_digit x); simpl; [by rewrite andb_true_r|by rewrite andb_false_r].
  - rewrite wild_app, wild_cons. change (wild []) with 0. destruct (x =? star); lia.
Qed.

(** The checks at the end of a label. *)
Lemma end_label label numeric nw :
  partial label numeric nw → label ≠ [] →
  ok_label label ↔ (default 0 (last label) =? hyphen) = false ∧ (63 <? zlen label - nw) = false.
Proof.
  intros [Hc Hh _ [-> Hw]] Hne. split.
  - intros [_ _ _ Hl Hlen _]. split; [|lia]. apply Z.eqb_neq. destruct (last label) as [c|]; simpl; [congruence|done].
  - intros [Hl Hlen]. split; try done; [|lia]. apply Z.eqb_neq in Hl. intros E. by rewrite E in Hl.
Qed.

Lemma labels_aux_nonempty acc s : labels_aux acc s ≠ [].
Proof. destruct (labels_aux_head acc s) as (w & rest & ->). done. Qed.

(** What the loop accepts from a state on. *)
Definition accepts (s : cstring) (nb nl : Z) (label : cstring) (previous : bool) : Prop :=
  Forall ok_label (labels_aux (reverse label) s) ∧ 2 ≤ nl + zlen (labels_aux (reverse label) s) ∧
  ends_ok previous (labels_aux (reverse label) s) ∧ 1 ≤ nb + (zlen s - wild s) ≤ 253.

Lemma pattern_loop_end nb nl label numeric nw previous :
  partial label numeric nw →
  valid_pattern_loop [] nb nl label numeric nw previous = true ↔ accepts [] nb nl label previous.
Proof.
  intros Hp. cbn [valid_pattern_loop deref]. change (negb (0 =? 0)) with false. cbn [andb].
  unfold accepts. simpl labels_aux. rewrite reverse_involutive, Forall_singleton. change (zlen [] - wild []) with 0.
  change (zlen [label]) with 1. cbn [ends_ok].
  destruct label as [|y label0] eqn:El; [simpl; split; [done|intros ([? ? _ _ _ _] & _); done]|]. rewrite <- El in *.
  rewrite (bool_decide_eq_false_2 (label = [])) by (by rewrite El). cbn [andb].
  rewrite (end_label label numeric nw) by (done || by rewrite El). destruct Hp as [_ _ -> [Hw _]]. rewrite <- Hw.
  destruct (default 0 (last label) =? hyphen); [naive_solver|]. destruct (63 <? zlen label - nw); [naive_solver|].
  destruct (Z.ltb_spec (nl + 1) 2); [naive_solver lia|]. destruct (Z.eqb_spec nw 0); simpl; [|naive_solver].
  destruct previous; [naive_solver|]. destruct (forallb is_digit label); [naive_solver|].
  destruct (is_local_tld label); [naive_solver|]. destruct ((nb <? 1) || (253 <? nb)) eqn:E; [naive_solver lia|].
  bool_hyps. naive_solver lia.
Qed.

Lemma accepts_char x s nb nl label previous :
  (x =? dot) = false →
  accepts (x :: s) nb nl label previous ↔ accepts s (if x =? star then nb else nb + 1) nl (label ++ [x]) previous.
Proof.
  intros Hd. unfold accepts. rewrite reverse_snoc. cbn [labels_aux]. rewrite Hd, zlen_cons, wild_cons.
  destruct (x =? star); naive_solver lia.
Qed.

Lemma accepts_dot s nb nl label previous :
  accepts (dot :: s) nb nl label previous ↔
  ok_label label ∧ accepts s (nb + 1) (nl + 1) [] (negb (wild label =? 0)).
Proof.
  unfold accepts. cbn [labels_aux]. rewrite Z.eqb_refl, reverse_involutive, Forall_cons, !zlen_cons, wild_cons.
  change (reverse (@nil Z)) with (@nil Z). change (if dot =? star then 1 else 0) with 0.
  pose proof (labels_aux_nonempty [] s). destruct (labels_aux [] s) as [|l ls]; [done|]. cbn [ends_ok]. naive_solver lia.
Qed.

Lemma pattern_loop_spec s nb nl label numeric nw previous :
  wf_cstring s → partial label numeric nw →
  valid_pattern_loop s nb nl label numeric nw previous = true ↔ accepts s nb nl label previous.
Proof.
  intros Hwf. revert nb nl label numeric nw previous. induction Hwf as [|x s Hx Hs IH]; intros nb nl label numeric nw previous Hp.
  { by apply pattern_loop_end. }
  cbn [valid_pattern_loop deref]. rewrite (proj2 (Z.eqb_neq x 0)) by lia. cbn [negb andb orb].
  destruct (Z.eqb_spec x dot) as [->|Hd].
  - change (negb (dot =? star) && negb (name_char dot)) with false. change (negb (dot =? star)) with true. cbn [negb]. rewrite andb_true_r.
    rewrite accepts_dot. destruct label as [|y label0] eqn:El.
    { simpl. split; [done|]. intros [[_ ? _ _ _ _] _]. done. }
    rewrite <- El in *. rewrite (bool_decide_eq_false_2 (label = [])) by (by rewrite El). cbn [andb].
    rewrite (end_label label numeric nw) by (done || by rewrite El).
    destruct (default 0 (last label) =? hyphen); [naive_solver|]. destruct (63 <? zlen label - nw); [naive_solver|].
    rewrite IH by apply partial_nil. destruct Hp as [_ _ _ [-> _]]. naive_solver.
  - rewrite andb_false_r. cbn [negb]. assert ((x =? dot) = false) as Hd' by lia.
    destruct (negb (x =? star) && negb (name_char x)) eqn:Hc.
    { bool_hyps. split; [done|]. intros [Hk _]. exfalso. eapply first_label_char; [by apply Z.eqb_neq| |exact Hk].
      intros [_ [?|?]]; congruence. }
    assert (label_char x) as Hlc.
    { split; [done|]. destruct (Z.eqb_spec x star); [by left|]. right. by destruct (name_char x). }
    destruct (bool_decide (label = []) && (x =? hyphen)) eqn:Hh.
    { apply andb_true_iff in Hh as [Hl%bool_decide_eq_true ->%Z.eqb_eq]. subst label. split; [done|]. intros [H _]. exfalso.
      cbn [labels_aux reverse] in H. rewrite Hd' in H. apply first_label in H as [w [_ _ H _ _ _]]. by apply H. }
    assert (label = [] → x ≠ hyphen) as Hne.
    { intros ->. simpl in Hh. by apply Z.eqb_neq. }
    rewrite accepts_char by done. pose proof (partial_snoc label numeric nw x Hp Hlc Hne) as Hps.
    destruct (Z.eqb_spec x star) as [->|Hst]; cbn [negb]; [|apply IH, Hps; apply Hp].
    destruct (Z.leb_spec 2 nw) as [Hw|Hw]; [|apply IH, Hps; lia].
    split; [done|]. intros [H _]. apply first_label in H as [w [_ _ _ _ _ H]].
    rewrite reverse_involutive, !wild_app in H. destruct Hp as [_ _ _ [-> _]]. change (wild [star]) with 1 in H. pose proof (wild_nonneg w). lia.
Qed.

(** A valid pattern of DNS names. *)
Record dns_pattern (s : cstring) : Prop := {
  dp_labels : Forall ok_label (labels s);
  dp_ends : ∃ front l2 l1, labels s = front ++ [l2; l1] ∧ wild l2 = 0 ∧ wild l1 = 0 ∧
              forallb is_digit l1 = false ∧ is_local_tld l1 = false;
  dp_length : 1 ≤ zlen s - wild s ≤ 253 }.

Lemma ends_ok_two ls previous :
  2 ≤ zlen ls → ends_ok previous ls ↔
  ∃ front l2 l1, ls = front ++ [l2; l1] ∧ wild l2 = 0 ∧ wild l1 = 0 ∧ forallb is_digit l1 = false ∧ is_local_tld l1 = false.
Proof.
  revert previous. induction ls as [|a [|b [|c ls]] IH]; intros previous Hl; try done.
  - cbn [ends_ok]. split.
    + intros (Ha & ? & ? & ?). apply negb_false_iff, Z.eqb_eq in Ha. exists [], a, b. done.
    + intros (front & l2 & l1 & E & ? & ? & ? & ?). destruct front as [|? [|? [|? ?]]]; simplify_eq/=. by split_and!; [apply negb_false_iff, Z.eqb_eq|..].
  - change (ends_ok previous (a :: b :: c :: ls)) with (ends_ok (negb (wild a =? 0)) (b :: c :: ls)).
    rewrite IH by (rewrite !zlen_cons; pose proof (zlen_nonneg ls); lia). split.
    + intros (front & l2 & l1 & -> & ?). by exists (a :: front), l2, l1.
    + intros (front & l2 & l1 & E & ?). destruct front as [|? front]; simplify_eq/=. by exists front, l2, l1.
Qed.

Lemma pattern_valid s : wf_cstring s → is_valid_dns_name_pattern s = true ↔ dns_pattern s.
Proof.
  intros Hs. unfold is_valid_dns_name_pattern. rewrite pattern_loop_spec by (done || apply partial_nil).
  unfold accepts. change (reverse (@nil Z)) with (@nil Z). fold (labels s). rewrite !Z.add_0_l. split.
  - intros (? & Hl & He & ?). apply ends_ok_two in He; [|done]. by split.
  - intros [? He ?]. assert (2 ≤ zlen (labels s)) as Hl.
    { destruct He as (front & ? & ? & -> & _). rewrite zlen_app, !zlen_cons, zlen_nil. pose proof (zlen_nonneg front). lia. }
    by rewrite ends_ok_two.
Qed.

(** The two validators differ in the stars only. *)
Lemma name_loop_pattern s nb nl label numeric :
  wf_cstring s → 0 ≤ nl →
  valid_loop s nb nl label numeric = bool_decide (star ∉ s) && valid_pattern_loop s nb nl label numeric 0 (nl =? 0).
Proof.
  intros Hwf. revert nb nl label numeric. induction Hwf as [|x s Hx Hs IH]; intros nb nl label numeric Hl.
  - cbn [valid_loop valid_pattern_loop deref]. rewrite (bool_decide_eq_true_2 (star ∉ [])) by apply not_elem_of_nil. cbn [andb].
    change (negb (0 =? 0)) with false. cbn [andb orb]. rewrite Z.sub_0_r. repeat (case_match; try done; try lia).
  - cbn [valid_loop valid_pattern_loop deref]. rewrite (proj2 (Z.eqb_neq x 0)) by lia. cbn [negb andb orb].
    destruct (Z.eqb_spec x star) as [->|Hst].
    { rewrite (bool_decide_eq_false_2 (star ∉ star :: s)) by (intros H; apply H; left). done. }
    assert (bool_decide (star ∉ x :: s) = bool_decide (star ∉ s)) as ->.
    { apply bool_decide_ext. rewrite not_elem_of_cons. naive_solver. }
    cbn [negb andb]. rewrite Z.sub_0_r. change (negb (0 =? 0)) with false.
    destruct (negb (name_char x)); [by rewrite andb_false_r|]. destruct (bool_decide (label = []) && (x =? dot)); [by rewrite andb_false_r|].
    destruct (bool_decide (label = []) && (x =? hyphen)); [by rewrite andb_false_r|].
    destruct (negb (x =? dot)); [by apply IH|]. destruct (default 0 (last label) =? hyphen); [by rewrite andb_false_r|].
    destruct (63 <? zlen label); [by rewrite andb_false_r|]. rewrite IH by lia. by rewrite (proj2 (Z.eqb_neq (nl + 1) 0)) by lia.
Qed.

Lemma wild_zero s : wild s = 0 ↔ star ∉ s.
Proof.
  induction s as [|c s IH]; [split; [intros _; apply not_elem_of_nil|done]|]. rewrite wild_cons, not_elem_of_cons, <- IH.
  pose proof (wild_nonneg s). destruct (Z.eqb_spec c star); naive_solver lia.
Qed.

Lemma name_valid s : wf_cstring s → is_valid_dns_name s = true ↔ dns_pattern s ∧ wild s = 0.
Proof.
  intros Hs. unfold is_valid_dns_name. rewrite name_loop_pattern by done. change (valid_pattern_loop s 0 0 [] true 0 (0 =? 0)) with (is_valid_dns_name_pattern s).
  rewrite andb_true_iff, bool_decide_eq_true, pattern_valid, wild_zero by done. tauto.
Qed.

(** The validators accept exactly the documented grammar: labels of letters,
    digits and inner hyphens of at most 63 characters, at least two of them, at
    most 253 characters in all, the last neither a number nor local; in a
    pattern also stars, at most two in a label and none in the last two labels,
    which do not count for the lengths. *)
Theorem dns_name_validators_correct s :
  wf_cstring s →
  (is_valid_dns_name_pattern s = true ↔ dns_pattern s) ∧ (is_valid_dns_name s = true ↔ dns_pattern s ∧ wild s = 0).
Proof. intros Hs. split; [by apply pattern_valid|by apply name_valid]. Qed.

(** [a*.b.co] *)
Lemma dns_name_validators_correct_witness :
  wf_cstring [97; 42; 46; 98; 46; 99; 111] ∧ dns_pattern [97; 42; 46; 98; 46; 99; 111].
Proof.
  assert (wf_cstring [97; 42; 46; 98; 46; 99; 111]) as Hs by (unfold wf_cstring; repeat constructor; lia).
  split; [exact Hs|]. apply (proj1 (dns_name_validators_correct [97; 42; 46; 98; 46; 99; 111] Hs)). reflexivity.
Defined.

(** * Names and patterns *)

Lemma split_label_labels acc s :
  labels_aux acc s = (reverse acc ++ fst (split_label s)) :: match snd (split_label s) with [] => [] | _ :: r => labels r end.
Proof.
  revert acc. induction s as [|c s IH]; intros acc; simpl; [by rewrite app_nil_r|].
  destruct (c =? dot); [simpl; by rewrite app_nil_r|]. rewrite IH. destruct (split_label s) as [l r]. simpl.
  by rewrite reverse_cons, <- app_assoc.
Qed.

(** What is left is shorter. *)
Lemma split_label_length s : (length (tail (snd (split_label s))) < length s)%nat ∨ s = [].
Proof.
  induction s as [|c s IH]; [by right|]. left. simpl. destruct (c =? dot); [simpl; lia|].
  destruct (split_label s) as [l r] eqn:E. simpl in *. destruct IH as [IH|IH]; [lia|]. subst s. simpl in E. injection E as <- <-. simpl. lia.
Qed.

(** The first label and the rest of a name without empty labels. *)
Lemma split_nonempty s :
  Forall (λ l, l ≠ []) (labels s) →
  ∃ l r, split_label s = (l, r) ∧ (r = [] ∧ labels s = [l] ∨
    r ≠ [] ∧ tail r ≠ [] ∧ labels s = l :: labels (tail r) ∧ Forall (λ l, l ≠ []) (labels (tail r)) ∧ (length (tail r) < length s)%nat).
Proof.
  intros Hs. destruct (decide (s = [])) as [->|Hne]; [by apply Forall_inv in Hs|].
  pose proof (split_label_labels [] s) as E. pose proof (split_label_length s) as Hl. fold (labels s) in E.
  destruct (split_label s) as [l r]. simpl in *. exists l, r. split; [done|]. destruct r as [|c r]; [left; done|right].
  rewrite E in Hs. apply Forall_cons in Hs as [_ Hs]. simpl in Hl. split; [done|]. split.
  - cbn [tail]. intros Hr. subst r. apply Forall_inv in Hs. done.
  - split; [done|]. split; [done|]. by destruct Hl.
Qed.

Lemma removelast_cons2 {A} (a b : A) l : removelast (a :: b :: l) = a :: removelast (b :: l).
Proof. done. Qed.

Lemma match_labels_spec fuel n p :
  Forall (λ l, l ≠ []) (labels n) → Forall (λ l, l ≠ []) (labels p) → (length n < fuel)%nat →
  ∃ b, match_labels fuel n p = Ok b ∧
    (b = true ↔ length (labels n) = length (labels p) ∧
                Forall2 (λ l q, glob q l = true) (removelast (labels n)) (removelast (labels p))).
Proof.
  revert n p. induction fuel as [|fuel IH]; intros n p Hn Hp Hf; [lia|]. cbn [match_labels].
  destruct (split_nonempty n Hn) as (ln & rn & -> & Hrn). destruct (split_nonempty p Hp) as (lp & rp & -> & Hrp).
  rewrite glob_pattern_spec. cbn [mbind res_bind].
  destruct Hrn as [(-> & En)|(Hrn & Htn & En & Hn' & Hln)], Hrp as [(-> & Ep)|(Hrp & Htp & Ep & Hp' & Hlp)]; rewrite En, Ep.
  - exists true. split; [by destruct (glob lp ln)|]. simpl. naive_solver constructor.
  - exists false. pose proof (labels_aux_nonempty [] (tail rp)). split.
    + rewrite (bool_decide_eq_false_2 (rp = [])), (bool_decide_eq_false_2 (tail rp = [])) by done. by destruct (glob lp ln).
    + fold (labels (tail rp)) in *. destruct (labels (tail rp)); naive_solver.
  - exists false. pose proof (labels_aux_nonempty [] (tail rn)). split.
    + rewrite (bool_decide_eq_false_2 (rn = [])), (bool_decide_eq_false_2 (tail rn = [])) by done.
      destruct (glob lp ln); cbn [negb andb]; [by rewrite andb_false_r|done].
    + fold (labels (tail rn)) in *. destruct (labels (tail rn)); naive_solver.
  - pose proof (labels_aux_nonempty [] (tail rn)) as Hne1. pose proof (labels_aux_nonempty [] (tail rp)) as Hne2.
    destruct (IH (tail rn) (tail rp)) as (b & Eb & Hb); [done|done|lia|].
    fold (labels (tail rn)) in *. fold (labels (tail rp)) in *.
    destruct (labels (tail rn)) as [|a1 l1]; [done|]. destruct (labels (tail rp)) as [|a2 l2]; [done|]. rewrite !removelast_cons2.
    destruct (glob lp ln) eqn:Eg; cbn [negb].
    + exists b. rewrite !bool_decide_eq_true_2 by done. cbn [andb]. split; [done|]. rewrite Hb, Forall2_cons. simpl. naive_solver.
    + exists false. rewrite !bool_decide_eq_false_2 by done. split; [done|]. rewrite Forall2_cons. naive_solver.
Qed.

(** For a valid name and a valid pattern the match is total, and it tells
    whether they have as many labels and every label of the name but the last
    matches the pattern's, a star standing for any run of characters and letters
    compared without case. The last labels are not compared. *)
Theorem dns_name_match_correct name pattern :
  wf_cstring name → wf_cstring pattern → is_valid_dns_name name = true → is_valid_dns_name_pattern pattern = true →
  ∃ b, is_dns_name_matching_pattern name pattern = Ok b ∧
    (b = true ↔ length (labels name) = length (labels pattern) ∧
                Forall2 (λ l q, glob q l = true) (removelast (labels name)) (removelast (labels pattern))).
Proof.
  intros Hn Hp [[Hln _ _] _]%name_valid [Hlp _ _]%pattern_valid; [|done..].
  apply match_labels_spec; [| |lia]; (eapply Forall_impl; [eassumption|]; by intros l [_ ? _ _ _ _]).
Qed.

(** [ab.a.c] against [a*.a.c]. *)
Lemma dns_name_match_correct_witness :
  ∃ b, is_dns_name_matching_pattern [97; 98; 46; 97; 46; 99] [97; 42; 46; 97; 46; 99] = Ok b ∧
    (b = true ↔ length (labels [97; 98; 46; 97; 46; 99]) = length (labels [97; 42; 46; 97; 46; 99]) ∧
                Forall2 (λ l q, glob q l = true) (removelast (labels [97; 98; 46; 97; 46; 99])) (removelast (labels [97; 42; 46; 97; 46; 99]))).
Proof.
  apply (dns_name_match_correct [97; 98; 46; 97; 46; 99] [97; 42; 46; 97; 46; 99]);
    [unfold wf_cstring; repeat constructor; lia|unfold wf_cstring; repeat constructor; lia|reflexivity|reflexivity].
Defined.

(** A mismatch of the last label ends the loop with both strings at their end,
    which is what success looks like: [www.com] matches the pattern [www.org]. *)
Lemma last_label_not_compared :
  is_dns_name_matching_pattern [119; 119; 119; 46; 99; 111; 109] [119; 119; 119; 46; 111; 114; 103] = Ok true.
Proof. reflexivity. Qed.
