(* ===== verification/DhcpOpt.v ===== *)
(** The option field of DHCPv4 packets (src/src/rfc2131.c): the search for an
    option through the three areas that may hold options, and the construction
    of the options of a reply, with the file and server name fields taken over
    when the option area is full. Logging is left out. *)
From S2P Require Import Prelude Wire.

(** * The packet *)

(** Offsets of struct dhcp_packet. *)
Definition off_siaddr : Z := 20.
Definition off_sname : Z := 44.
Definition sizeof_sname : Z := 64.
Definition off_file : Z := 108.
Definition sizeof_file : Z := 128.
Definition off_options : Z := 236.
(** [&mess->options[0] + sizeof(u32)] *)
Definition first_option : Z := 240.

Definition OPTION_PAD : Z := 0.
Definition OPTION_OVERLOAD : Z := 52.
Definition OPTION_END : Z := 255.
Definition MIN_PACKETSZ : Z := 300.

(** * Reading *)

Definition option_len (mess : list Z) (p : Z) : res Z := rd mess (p + 1).

(** NULL is [None]. *)
Fixpoint find1_loop (fuel : nat) (mess : list Z) (p end_ opt minsize : Z) : res (option Z) :=
  match fuel with
  | O => NoFuel
  | S fuel =>
      if end_ <=? p then Ok None
      else
        b ← rd mess p;
        if b =? OPTION_END then Ok (if opt =? OPTION_END then Some p else None)
        else if b =? OPTION_PAD then find1_loop fuel mess (p + 1) end_ opt minsize
        else if end_ - 2 <? p then Ok None
        else
          opt_len ← option_len mess p;
          if end_ - (2 + opt_len) <? p then Ok None
          else if (b =? opt) && (minsize <=? opt_len) then Ok (Some p)
          else find1_loop fuel mess (p + (opt_len + 2)) end_ opt minsize
  end.

(** Each turn moves [p] on. *)
Definition option_find1 (mess : list Z) (p end_ opt minsize : Z) : res (option Z) :=
  find1_loop (S (Z.to_nat (end_ - p))) mess p end_ opt minsize.

Definition option_find (mess : list Z) (size opt_type minsize : Z) : res (option Z) :=
  ret ← option_find1 mess first_option size opt_type minsize;
  match ret with
  | Some p => Ok (Some p)
  | None =>
      overload ← option_find1 mess first_option size OPTION_OVERLOAD 1;
      match overload with
      | None => Ok None
      | Some o =>
          bits ← rd mess (o + 2);
          ret ← (if flag bits 1 then option_find1 mess off_file (off_file + sizeof_file) opt_type minsize else Ok None);
          match ret with
          | Some p => Ok (Some p)
          | None => if flag bits 2 then option_find1 mess off_sname (off_sname + sizeof_sname) opt_type minsize else Ok None
          end
      end
  end.

(** Four bytes in network order. *)
Fixpoint read_bytes (mess : list Z) (p : Z) (n : nat) : res (list Z) :=
  match n with
  | O => Ok []
  | S n => b ← rd mess p; bs ← read_bytes mess (p + 1) n; Ok (b :: bs)
  end.

Definition option_addr (mess : list Z) (opt : Z) : res (list Z) := read_bytes mess (opt + 2) 4.

Definition option_uint (mess : list Z) (opt offset : Z) (size : nat) : res Z :=
  bs ← read_bytes mess (opt + 2 + offset) size;
  Ok (foldl (λ ret b, Z.lor (u32 (Z.shiftl ret 8)) b) 0 bs).

(** * Building *)

Fixpoint skip_loop (fuel : nat) (mess : list Z) (start : Z) : res Z :=
  match fuel with
  | O => NoFuel
  | S fuel =>
      b ← rd mess start;
      if b =? 0 then Ok start else l ← rd mess (start + 1); skip_loop fuel mess (start + (l + 2))
  end.
Definition dhcp_skip_opts (mess : list Z) (start : Z) : res Z := skip_loop (S (length mess)) mess start.

Fixpoint overload_loop (fuel : nat) (mess : list Z) (p : Z) : res (option Z) :=
  match fuel with
  | O => NoFuel
  | S fuel =>
      b ← rd mess p;
      if b =? 0 then Ok None
      else if b =? OPTION_OVERLOAD then Ok (Some p)
      else l ← rd mess (p + 1); overload_loop fuel mess (p + (l + 2))
  end.
Definition find_overload (mess : list Z) : res (option Z) := overload_loop (S (length mess)) mess first_option.

(** [*dhcp_skip_opts(area) = OPTION_END] when bit [m] of the overload option
    says the area holds options. *)
Definition end_area (mess : list Z) (overload : option Z) (m area : Z) : res (list Z) :=
  match overload with
  | None => Ok mess
  | Some o =>
      bits ← option_uint mess o 0 1;
      if flag bits m then p ← dhcp_skip_opts mess area; wr mess p OPTION_END else Ok mess
  end.

(** [agent_id] is the relay's option parked at the end of the packet. *)
Definition restore_agent (mess : list Z) (p : Z) (agent_id : option Z) (real_end : Z) : res (list Z * Z) :=
  match agent_id with
  | None => Ok (mess, p)
  | Some a =>
      bs ← read_bytes mess a (Z.to_nat (real_end - a));
      mess ← put_bytes mess p bs;
      let p := p + (real_end - a) in
      mess ← put_bytes mess p (repeat 0 (Z.to_nat (real_end - p)));
      Ok (mess, p)
  end.

Definition dhcp_packet_size (mess : list Z) (agent_id : option Z) (real_end : Z) : res (list Z * Z) :=
  p ← dhcp_skip_opts mess first_option;
  '(mess, p) ← restore_agent mess p agent_id real_end;
  overload ← find_overload mess;
  mess ← end_area mess overload 1 off_file;
  mess ← end_area mess overload 2 off_sname;
  mess ← wr mess p OPTION_END;
  Ok (mess, Z.max (p + 1) MIN_PACKETSZ).

(** [overload[2] |= m] when the area's first byte is zero; then the place for
    the option in the area if it is in use for options and has room. *)
Definition take_area (mess : list Z) (overload m area size len : Z) : res (list Z * option Z) :=
  first ← rd mess area;
  bits ← rd mess (overload + 2);
  mess ← (if first =? 0 then wr mess (overload + 2) (Z.lor bits m) else Ok mess);
  bits ← rd mess (overload + 2);
  if flag bits m then
    p ← dhcp_skip_opts mess area;
    Ok (mess, if area + size <=? p + len + 3 then None else Some p)
  else Ok (mess, None).

(** The overload option, made at [p] when there is none and one of the fields
    is free. *)
Definition get_overload (mess : list Z) (p : Z) : res (list Z * option Z) :=
  o ← find_overload mess;
  match o with
  | Some o => Ok (mess, Some o)
  | None =>
      f ← rd mess off_file;
      free ← (if f =? 0 then Ok true else s ← rd mess off_sname; Ok (s =? 0));
      if free : bool then
        mess ← wr mess p OPTION_OVERLOAD; mess ← wr mess (p + 1) 1; Ok (mess, Some p)
      else Ok (mess, None)
  end.

Definition overload_space (mess : list Z) (p len : Z) : res (list Z * option Z) :=
  '(mess, o) ← get_overload mess p;
  match o with
  | None => Ok (mess, None)
  | Some o =>
      '(mess, p) ← take_area mess o 1 off_file sizeof_file len;
      match p with
      | Some p => Ok (mess, Some p)
      | None => take_area mess o 2 off_sname sizeof_sname len
      end
  end.

Definition free_space (mess : list Z) (end_ opt len : Z) : res (list Z * option Z) :=
  p ← dhcp_skip_opts mess first_option;
  '(mess, p) ← (if end_ <=? p + len + 3 then overload_space mess p len else Ok (mess, Some p));
  match p with
  | None => Ok (mess, None)
  | Some p => mess ← wr mess p opt; mess ← wr mess (p + 1) len; Ok (mess, Some (p + 2))
  end.

(** The bytes of [val], most significant first. *)
Definition val_bytes (len : nat) (val : Z) : list Z :=
  (λ i, Z.shiftr val (8 * (Z.of_nat len - (Z.of_nat i + 1)))) <$> seq 0 len.

Definition option_put (mess : list Z) (end_ opt len val : Z) : res (list Z) :=
  '(mess, p) ← free_space mess end_ opt len;
  match p with
  | None => Ok mess
  | Some p => put_bytes mess p (val_bytes (Z.to_nat len) val)
  end.

Definition option_put_string (mess : list Z) (end_ opt : Z) (string : cstring) (null_term : bool) : res (list Z) :=
  let bs := if null_term && negb (strlen string =? 255) then string ++ [0] else string in
  '(mess, p) ← free_space mess end_ opt (zlen bs);
  match p with
  | None => Ok mess
  | Some p => put_bytes mess p bs
  end.

(** The packet made ready for a reply. *)
Definition clear_packet (mess : list Z) (end_ : Z) : res (list Z) :=
  mess ← put_bytes mess off_sname (repeat 0 (Z.to_nat sizeof_sname));
  mess ← put_bytes mess off_file (repeat 0 (Z.to_nat sizeof_file));
  mess ← put_bytes mess first_option (repeat 0 (Z.to_nat (end_ - first_option)));
  put_bytes mess off_siaddr (repeat 0 4).

(** The requested options, up to OPTION_END; [None] asks for everything. *)
Definition in_list (list_ : option (list Z)) (opt : Z) : bool :=
  match list_ with
  | None => true
  | Some l => existsb (Z.eqb opt) l
  end.

(** * Configured options *)

Definition DHOPT_ADDR : Z := 1.
Definition DHOPT_STRING : Z := 2.
Definition DHOPT_TAGOK : Z := 4096.

(** [o_val] is the memory at val, [None] for NULL. *)
Record dhcp_opt := DhcpOption { o_opt : Z; o_len : Z; o_flags : Z; o_val : option (list Z) }.

(** What do_opt returns. *)
Definition do_opt_len (opt : dhcp_opt) (null_term : bool) : Z :=
  if flag (o_flags opt) DHOPT_STRING && null_term && negb (o_len opt =? 255) then o_len opt + 1 else o_len opt.

(** The addresses of an option, zero standing for the address of the context
    [local]. *)
Fixpoint self_addrs (n : nat) (val local : list Z) : res (list Z) :=
  match n with
  | O => Ok []
  | S n =>
      a ← read_bytes val 0 4;
      rest ← self_addrs n (drop 4 val) local;
      Ok ((if forallb (Z.eqb 0) a then local else a) ++ rest)
  end.

Definition do_opt_data (opt : dhcp_opt) (context : option (list Z)) (null_term : bool) : res (list Z) :=
  match context with
  | Some local =>
      if flag (o_flags opt) DHOPT_ADDR then self_addrs (Z.to_nat ((o_len opt + 3) / 4)) (default [0] (o_val opt)) local
      else read_bytes (default [0] (o_val opt)) 0 (Z.to_nat (do_opt_len opt null_term))
  | None => read_bytes (default [0] (o_val opt)) 0 (Z.to_nat (do_opt_len opt null_term))
  end.

Definition do_opt (mess : list Z) (p : Z) (opt : dhcp_opt) (context : option (list Z)) (null_term : bool) : res (list Z * Z) :=
  let len := do_opt_len opt null_term in
  if len =? 0 then Ok (mess, len)
  else bs ← do_opt_data opt context null_term; mess ← put_bytes mess p bs; Ok (mess, len).

(** The first configured option with a code that has passed the tag filter. *)
Definition option_find2 (dhcp_opts : list dhcp_opt) (opt : Z) : option dhcp_opt :=
  find (λ o, (o_opt o =? opt) && flag (o_flags o) DHOPT_TAGOK) dhcp_opts.

(** The options of a group stored one after the other. *)
Fixpoint put_group (mess : list Z) (p : Z) (group : list dhcp_opt) (null_term : bool) : res (list Z * Z) :=
  match group with
  | [] => Ok (mess, p)
  | o :: group =>
      '(mess, len) ← do_opt mess (p + 2) o None null_term;
      mess ← wr mess p (o_opt o);
      mess ← wr mess (p + 1) len;
      put_group mess (p + 2 + len) group null_term
  end.

(** The walk over the configured options; [group] are those with the flag since
    [start]. *)
Fixpoint encap_loop (opts : list dhcp_opt) (encap flg : Z) (mess : list Z) (end_ : Z) (null_term : bool)
    (group : list dhcp_opt) (enc_len : Z) (ret : bool) : res (list Z * bool) :=
  match opts with
  | [] =>
      if enc_len =? 0 then Ok (mess, ret)
      else
        '(mess, p) ← free_space mess end_ encap (enc_len + 1);
        match p with
        | None => Ok (mess, ret)
        | Some p => '(mess, p) ← put_group mess p group null_term; mess ← wr mess p OPTION_END; Ok (mess, ret)
        end
  | o :: opts =>
      if flag (o_flags o) flg then
        let new := do_opt_len o null_term + 2 in
        if enc_len + new <=? 255 then encap_loop opts encap flg mess end_ null_term (group ++ [o]) (enc_len + new) true
        else
          '(mess, p) ← free_space mess end_ encap enc_len;
          '(mess, _) ← (match p with None => Ok (mess, 0) | Some p => put_group mess p group null_term end);
          encap_loop opts encap flg mess end_ null_term [o] new true
      else encap_loop opts encap flg mess end_ null_term group enc_len ret
  end.

Definition do_encap_opts (opts : list dhcp_opt) (encap flg : Z) (mess : list Z) (end_ : Z) (null_term : bool) : res (list Z * bool) :=
  encap_loop opts encap flg mess end_ null_term [] 0 false.
