(* ===== verification/DhcpOptSpec.v ===== *)
(** The options of DHCPv4 packets: the search reads only inside the packet and
    finds the first option that fits, and the options put into a reply are
    found in it. *)
From S2P Require Import Prelude Wire DhcpOpt.

(** * Bytes of a packet *)

Definition bytes_at (buf : list Z) (a : Z) (l : list Z) : Prop :=
  0 ≤ a ∧ ∀ i x, l !! i = Some x → rd buf (a + Z.of_nat i) = Ok x.

Lemma bytes_at_app buf a l k : bytes_at buf a (l ++ k) ↔ bytes_at buf a l ∧ bytes_at buf (a + zlen l) k.
Proof.
  unfold bytes_at, zlen. split.
  - intros [Ha H]. split; (split; [lia|]); intros i x Hi.
    + apply H. by rewrite lookup_app_l by (by eapply lookup_lt_Some).
    + rewrite <- Z.add_assoc, <- Nat2Z.inj_add. apply H. rewrite lookup_app_r by lia.
      by replace (length l + i - length l)%nat with i by lia.
  - intros [[Ha Hl] [_ Hk]]. split; [done|]. intros i x Hi. apply lookup_app_Some in Hi as [Hi|[Hle Hi]]; [by apply Hl|].
    specialize (Hk _ _ Hi). by replace (a + Z.of_nat (length l) + Z.of_nat (i - length l)) with (a + Z.of_nat i) in Hk by lia.
Qed.

Lemma bytes_at_cons buf a x l : bytes_at buf a (x :: l) ↔ 0 ≤ a ∧ rd buf a = Ok x ∧ bytes_at buf (a + 1) l.
Proof.
  change (x :: l) with ([x] ++ l). rewrite bytes_at_app. change (zlen [x]) with 1. split.
  - intros [[Ha Hx] Hl]. split; [done|]. split; [|done]. specialize (Hx 0%nat x eq_refl). by rewrite Z.add_0_r in Hx.
  - intros (Ha & Hx & Hl). split; [|done]. split; [done|]. intros [|i] y Hi; [|done]. injection Hi as <-. by rewrite Z.add_0_r.
Qed.

Lemma bytes_at_nil buf a : bytes_at buf a [] ↔ 0 ≤ a.
Proof. split; [by intros [? _]|]. intros Ha. split; [done|]. intros i x Hi. by rewrite lookup_nil in Hi. Qed.

Lemma bytes_at_wr_ne buf buf' p b a l :
  wr buf p b = Ok buf' → (p < a ∨ a + zlen l ≤ p) → bytes_at buf a l → bytes_at buf' a l.
Proof.
  intros W Hp [Ha Hl]. split; [done|]. intros i x Hi. rewrite (rd_wr _ _ _ _ _ W).
  apply lookup_lt_Some in Hi as Hlt. destruct (Z.eqb_spec (a + Z.of_nat i) p); [unfold zlen in Hp; lia|]. by apply Hl.
Qed.

Lemma rd_lt buf p x : rd buf p = Ok x → 0 ≤ p < zlen buf.
Proof. intros [Hp Hx]%rd_Ok. apply lookup_lt_Some in Hx. unfold zlen. lia. Qed.

Lemma wr_at_rd buf p x b : rd buf p = Ok x → ∃ buf', wr buf p b = Ok buf' ∧ rd buf' p = Ok (u8 b) ∧ zlen buf' = zlen buf.
Proof.
  intros Hx%rd_lt. destruct (wr_ok buf p b Hx) as [buf' W]. exists buf'. split; [done|].
  split; [by rewrite (rd_wr _ _ _ _ _ W), Z.eqb_refl|].
  unfold wr in W. case_match; [done|]. injection W as <-. apply zlen_insert.
Qed.

(** A run of bytes over others. *)
Lemma put_bytes_run bs buf a l :
  bytes_at buf a l → length l = length bs →
  ∃ buf', put_bytes buf a bs = Ok buf' ∧ bytes_at buf' a (u8 <$> bs) ∧ zlen buf' = zlen buf ∧
    (∀ c k, (c + zlen k ≤ a ∨ a + zlen bs ≤ c) → bytes_at buf c k → bytes_at buf' c k).
Proof.
  revert buf a l. induction bs as [|b bs IH]; intros buf a [|x l] Hl Hn; try done.
  { exists buf. split_and!; try done. }
  apply bytes_at_cons in Hl as (Ha & Hx & Hl). injection Hn as Hn.
  destruct (wr_at_rd buf a x b Hx) as (b1 & W & Hr & Hz).
  destruct (IH b1 (a + 1) l) as (b2 & E & Hb2 & Hz2 & Hfr); [eapply bytes_at_wr_ne; [done|lia|done]|done|].
  exists b2. cbn [put_bytes]. rewrite W. cbn [mbind res_bind]. split; [done|]. rewrite zlen_cons. pose proof (zlen_nonneg bs). split; [|split].
  - rewrite fmap_cons, bytes_at_cons. split; [done|]. split; [|done].
    assert (bytes_at b1 a [u8 b]) as H1 by by rewrite bytes_at_cons, bytes_at_nil; split_and!; [..|lia].
    apply Hfr in H1; [|left; change (zlen [u8 b]) with 1; lia]. by apply bytes_at_cons in H1 as (_ & ? & _).
  - lia.
  - intros c k Hc Hk. apply Hfr; [lia|]. eapply bytes_at_wr_ne; [done|lia|done].
Qed.

Lemma read_bytes_at buf a l : bytes_at buf a l → read_bytes buf a (length l) = Ok l.
Proof.
  revert a. induction l as [|x l IH]; intros a Hl; [done|]. apply bytes_at_cons in Hl as (_ & Hx & Hl).
  cbn [read_bytes length]. rewrite Hx. cbn [mbind res_bind]. by rewrite IH.
Qed.

(** * Options *)

(** A code and its data. *)
Abbreviation dopt := (Z * list Z)%type.

Definition opt_bytes (o : dopt) : list Z := o.1 :: zlen o.2 :: o.2.
Definition enc (L : list dopt) : list Z := mjoin (opt_bytes <$> L).

Record ok_opt (o : dopt) : Prop := {
  oo_code : 1 ≤ o.1 ≤ 254;
  oo_data : Forall is_byte o.2;
  oo_len : zlen o.2 ≤ 255 }.

Lemma enc_cons o L : enc (o :: L) = opt_bytes o ++ enc L.
Proof. done. Qed.
Lemma enc_app L K : enc (L ++ K) = enc L ++ enc K.
Proof. unfold enc. by rewrite fmap_app, join_app. Qed.
Lemma zlen_opt o : zlen (opt_bytes o) = 2 + zlen o.2.
Proof. unfold opt_bytes. rewrite !zlen_cons. lia. Qed.

Lemma option_bytes_at buf a o k :
  bytes_at buf a (opt_bytes o ++ k) →
  rd buf a = Ok o.1 ∧ rd buf (a + 1) = Ok (zlen o.2) ∧ bytes_at buf (a + 2) o.2 ∧ bytes_at buf (a + (zlen o.2 + 2)) k.
Proof.
  rewrite bytes_at_app, zlen_opt. unfold opt_bytes. rewrite !bytes_at_cons, <- !Z.add_assoc.
  intros ((_ & ? & _ & ? & ?) & Hk). split_and!; try done. by rewrite (Z.add_comm _ 2).
Qed.

(** The walk to the end of the options. *)
Lemma skip_loop_enc fuel L buf a :
  Forall ok_opt L → bytes_at buf a (enc L ++ [0]) → (length L < fuel)%nat → skip_loop fuel buf a = Ok (a + zlen (enc L)).
Proof.
  intros HL. revert a fuel. induction HL as [|o L Ho HL IH]; intros a fuel Hb Hf; (destruct fuel as [|fuel]; [simpl in Hf; lia|]).
  - apply bytes_at_cons in Hb as (_ & E & _). cbn [skip_loop]. rewrite E. cbn [mbind res_bind]. change (zlen (enc [])) with 0. by rewrite Z.add_0_r.
  - rewrite enc_cons, <- app_assoc in Hb. apply option_bytes_at in Hb as (E1 & E2 & _ & Hb). cbn [skip_loop].
    rewrite E1, E2. cbn [mbind res_bind]. destruct Ho as [Hc _ _]. rewrite (proj2 (Z.eqb_neq _ _)) by lia.
    rewrite IH by (done || (simpl in Hf; lia)). f_equal. rewrite enc_cons, zlen_app, zlen_opt. lia.
Qed.

Lemma enc_count L : (length L ≤ length (enc L))%nat.
Proof.
  induction L as [|o L IH]; [done|]. rewrite enc_cons, length_app. unfold opt_bytes. simpl. lia.
Qed.

Lemma bytes_at_fits buf a l : bytes_at buf a l → l ≠ [] → a + zlen l ≤ zlen buf.
Proof.
  intros [Ha Hl] Hne. destruct (lookup_lt_is_Some_2 l (length l - 1)) as [x Hx].
  { destruct l; [done|simpl; lia]. }
  pose proof (rd_lt _ _ _ (Hl _ _ Hx)). apply lookup_lt_Some in Hx. unfold zlen in *. lia.
Qed.

Lemma skip_opts_enc L buf a :
  Forall ok_opt L → bytes_at buf a (enc L ++ [0]) → dhcp_skip_opts buf a = Ok (a + zlen (enc L)).
Proof.
  intros HL Hb. apply skip_loop_enc; [done|done|]. pose proof (enc_count L). pose proof (proj1 Hb).
  apply bytes_at_fits in Hb; [|by destruct (enc L)]. rewrite zlen_app in Hb. change (zlen [0]) with 1 in Hb. unfold zlen in Hb. lia.
Qed.

(** The overload option. *)
Lemma overload_loop_enc fuel L buf a :
  Forall ok_opt L → bytes_at buf a (enc L ++ [0]) → (length L < fuel)%nat →
  (Forall (λ o, o.1 ≠ OPTION_OVERLOAD) L ∧ overload_loop fuel buf a = Ok None) ∨
  (∃ L1 d L2, L = L1 ++ (OPTION_OVERLOAD, d) :: L2 ∧ Forall (λ o, o.1 ≠ OPTION_OVERLOAD) L1 ∧
     overload_loop fuel buf a = Ok (Some (a + zlen (enc L1)))).
Proof.
  intros HL. revert a fuel. induction HL as [|o L Ho HL IH]; intros a fuel Hb Hf; (destruct fuel as [|fuel]; [simpl in Hf; lia|]).
  - apply bytes_at_cons in Hb as (_ & E & _). left. split; [constructor|]. cbn [overload_loop]. by rewrite E.
  - rewrite enc_cons, <- app_assoc in Hb. apply option_bytes_at in Hb as (E1 & E2 & _ & Hb). cbn [overload_loop].
    rewrite E1, E2. cbn [mbind res_bind]. destruct Ho as [Hc _ _]. rewrite (proj2 (Z.eqb_neq o.1 0)) by lia.
    destruct (Z.eqb_spec o.1 OPTION_OVERLOAD) as [Eo|Eo].
    + right. exists [], o.2, L. destruct o as [c d]. simpl in *. subst c. split; [done|]. split; [constructor|]. change (zlen (enc [])) with 0. by rewrite Z.add_0_r.
    + destruct (IH _ fuel Hb) as [[Hn ->]|(L1 & d & L2 & -> & Hn & ->)]; [simpl in Hf; lia|left|right].
      * split; [by constructor|done].
      * exists (o :: L1), d, L2. split; [done|]. split; [by constructor|]. do 2 f_equal. rewrite enc_cons, zlen_app, zlen_opt. lia.
Qed.

Lemma find_overload_enc L buf :
  Forall ok_opt L → bytes_at buf first_option (enc L ++ [0]) →
  (Forall (λ o, o.1 ≠ OPTION_OVERLOAD) L ∧ find_overload buf = Ok None) ∨
  (∃ L1 d L2, L = L1 ++ (OPTION_OVERLOAD, d) :: L2 ∧ Forall (λ o, o.1 ≠ OPTION_OVERLOAD) L1 ∧
     find_overload buf = Ok (Some (first_option + zlen (enc L1)))).
Proof.
  intros HL Hb. apply overload_loop_enc; [done|done|]. pose proof (enc_count L).
  apply bytes_at_fits in Hb; [|by destruct (enc L)]. rewrite zlen_app in Hb. change (zlen [0]) with 1 in Hb. unfold first_option, zlen in Hb. lia.
Qed.

(** * Areas that hold options *)

(** [n] bytes at [a]: the options, then zeros. *)
Definition area (buf : list Z) (a n : Z) (L : list dopt) : Prop :=
  Forall ok_opt L ∧ ∃ z, zlen (enc L) + Z.of_nat (S z) = n ∧ bytes_at buf a (enc L ++ repeat 0 (S z)).

(** A change confined to [n] bytes at [a]. *)
Definition keeps (buf buf' : list Z) (a n : Z) : Prop :=
  zlen buf' = zlen buf ∧ ∀ c k, (c + zlen k ≤ a ∨ a + n ≤ c) → bytes_at buf c k → bytes_at buf' c k.

Lemma keeps_refl buf a n : keeps buf buf a n.
Proof. by split. Qed.
Lemma keeps_trans buf1 buf2 buf3 a n : keeps buf1 buf2 a n → keeps buf2 buf3 a n → keeps buf1 buf3 a n.
Proof. intros [Hz1 H1] [Hz2 H2]. split; [congruence|]. intros c k Hc Hk. by apply H2, H1. Qed.
Lemma keeps_weaken buf buf' a n a' n' : a' ≤ a → a + n ≤ a' + n' → keeps buf buf' a n → keeps buf buf' a' n'.
Proof. intros Ha Hn [Hz H]. split; [done|]. intros c k Hc. apply H. lia. Qed.

Lemma area_len buf a n L : area buf a n L → zlen (enc L) < n.
Proof. intros (_ & z & <- & _). lia. Qed.

Lemma area_keeps buf buf' c m a n L : keeps buf buf' c m → (a + n ≤ c ∨ c + m ≤ a) → area buf a n L → area buf' a n L.
Proof.
  intros [_ Hk] Hd (HL & z & Hn & Hb). split; [done|]. exists z. split; [done|]. apply Hk; [|done].
  rewrite zlen_app. replace (zlen (repeat 0 (S z))) with (Z.of_nat (S z)) by (unfold zlen; by rewrite repeat_length). lia.
Qed.

Lemma area_terminated buf a n L : area buf a n L → bytes_at buf a (enc L ++ [0]).
Proof.
  intros (_ & z & _ & Hb). change (repeat 0 (S z)) with ([0] ++ repeat 0 z) in Hb. rewrite app_assoc, bytes_at_app in Hb. apply Hb.
Qed.

Lemma area_skip buf a n L : area buf a n L → dhcp_skip_opts buf a = Ok (a + zlen (enc L)).
Proof. intros Ha. apply skip_opts_enc; [apply Ha|by eapply area_terminated]. Qed.

(** The first byte tells whether an area is empty. *)
Lemma area_first buf a n L : area buf a n L → ∃ x, rd buf a = Ok x ∧ (x = 0 ↔ L = []).
Proof.
  intros Ha. pose proof (area_terminated _ _ _ _ Ha) as Hb. destruct Ha as [HL _]. destruct L as [|o L].
  - apply bytes_at_cons in Hb as (_ & E & _). by exists 0.
  - rewrite enc_cons, <- app_assoc in Hb. apply option_bytes_at in Hb as (E & _). exists o.1. split; [done|].
    apply Forall_cons in HL as [[Hc _ _] _]. split; [lia|done].
Qed.

Lemma put_bytes_app buf p l k : put_bytes buf p (l ++ k) = (b ← put_bytes buf p l; put_bytes b (p + zlen l) k).
Proof.
  revert buf p. induction l as [|x l IH]; intros buf p.
  - cbn [app put_bytes mbind res_bind]. change (zlen []) with 0. by rewrite Z.add_0_r.
  - cbn [app put_bytes]. destruct (wr buf p x); cbn [mbind res_bind]; try done. rewrite IH, zlen_cons.
    by replace (p + (1 + zlen l)) with (p + 1 + zlen l) by lia.
Qed.

(** Zeros at the end of an area. *)
Lemma area_zeros buf a n L k :
  area buf a n L → zlen (enc L) + Z.of_nat k < n → bytes_at buf (a + zlen (enc L)) (repeat 0 k).
Proof.
  intros (_ & z & Hn & Hb) Hk. replace (S z) with (k + (S z - k))%nat in Hb by lia.
  rewrite repeat_app, bytes_at_app in Hb. destruct Hb as [_ Hb]. apply bytes_at_app in Hb. apply Hb.
Qed.

(** An option appended, in its two steps: code and length, then the data. *)
Lemma area_add buf a n L c len (p := a + zlen (enc L)) :
  area buf a n L → 1 ≤ c ≤ 254 → 0 ≤ len ≤ 255 → zlen (enc L) + (2 + len) < n →
  ∃ b2, (b1 ← wr buf p c; wr b1 (p + 1) len) = Ok b2 ∧ keeps buf b2 p 2 ∧
    ∀ bs, zlen bs = len → ∃ b3, put_bytes b2 (p + 2) bs = Ok b3 ∧ area b3 a n (L ++ [(c, u8 <$> bs)]) ∧ keeps buf b3 a n.
Proof.
  intros Ha Hc Hlen Hfit. pose proof (area_zeros buf a n L 2 Ha ltac:(lia)) as Hz2. fold p in Hz2. pose proof (zlen_nonneg (enc L)).
  destruct (put_bytes_run [c; len] buf p _ Hz2 eq_refl) as (b2 & E2 & _ & Hz & Hk2). exists b2. split; [|split].
  - cbn [put_bytes] in E2. destruct (wr buf p c); cbn [mbind res_bind] in *; try done. by destruct (wr _ (p + 1) len).
  - by split.
  - intros bs Hbs. pose proof Ha as (HL & z & Hn & Hb).
    pose proof (area_zeros buf a n L (length ([c; len] ++ bs)) Ha ltac:(rewrite length_app; unfold zlen in *; simpl; lia)) as Hzs. fold p in Hzs.
    destruct (put_bytes_run ([c; len] ++ bs) buf p _ Hzs) as (b3 & E3 & Hb3 & Hz3 & Hk3); [by rewrite repeat_length|].
    rewrite put_bytes_app, E2 in E3. cbn [mbind res_bind] in E3. exists b3. split; [exact E3|].
    rewrite zlen_app, Hbs in Hk3. change (zlen [c; len]) with 2 in Hk3.
    split; [split|split; [done|intros d k Hd; apply Hk3; unfold p; lia]].
    + apply Forall_snoc. split; [done|]. split; simpl; [done|apply Forall_fmap, Forall_true; intros; apply u8_byte|].
      unfold zlen. rewrite length_fmap. fold (zlen bs). lia.
    + assert (enc (L ++ [(c, u8 <$> bs)]) = enc L ++ (u8 <$> [c; len] ++ bs)) as Henc.
      { rewrite enc_app. f_equal. unfold enc, opt_bytes. simpl. rewrite app_nil_r, !u8_id by (unfold is_byte; lia).
        do 2 f_equal. unfold zlen. rewrite length_fmap. fold (zlen bs). lia. }
      exists (z - (2 + length bs))%nat. rewrite Henc, zlen_app. split.
      * unfold zlen at 2. rewrite length_fmap, length_app. simpl. unfold zlen in *. lia.
      * rewrite <- app_assoc. replace (S z) with (length ([c; len] ++ bs) + S (z - (2 + length bs)))%nat in Hb by (rewrite length_app; unfold zlen in *; simpl; lia).
        rewrite repeat_app, !bytes_at_app in Hb. destruct Hb as (Hb1 & Hb2 & Hb4). rewrite !bytes_at_app.
        assert (zlen (repeat 0 (length ([c; len] ++ bs))) = 2 + len) as Hr by (unfold zlen in *; rewrite repeat_length, length_app; simpl; lia).
        split; [apply Hk3; [left; unfold p; lia|done]|]. split; [exact Hb3|].
        replace (zlen (u8 <$> [c; len] ++ bs)) with (2 + len) by (unfold zlen in *; rewrite length_fmap, length_app; simpl; lia).
        rewrite Hr in Hb4. apply Hk3; [right; unfold p; lia|done].
Qed.

(** * A reply under construction *)

Definition no_overload (L : list dopt) : Prop := Forall (λ o, o.1 ≠ OPTION_OVERLOAD) L.

(** The options of the option area around the overload option, when there is
    one with the given bits. *)
Definition with_overload (O1 : list dopt) (bits : option Z) (O2 : list dopt) : list dopt :=
  match bits with None => O1 ++ O2 | Some b => O1 ++ (OPTION_OVERLOAD, [b]) :: O2 end.

Definition bit (bits : option Z) (m : Z) : bool := match bits with Some b => flag b m | None => false end.

(** The file and server name fields: free or in use for options ([Some]), or
    holding a name. *)
Definition field (buf : list Z) (a n m : Z) (bits : option Z) (F : option (list dopt)) : Prop :=
  match F with
  | Some L => area buf a n L ∧ (L ≠ [] → bit bits m = true) ∧ no_overload L
  | None => (∃ x, rd buf a = Ok x ∧ x ≠ 0) ∧ bit bits m = false
  end.

Record building (buf : list Z) (lim : Z) (O1 O2 : list dopt) (bits : option Z) (F S : option (list dopt)) : Prop := {
  bd_opts : area buf first_option (lim - first_option) (with_overload O1 bits O2);
  bd_room : first_option + zlen (enc (with_overload O1 bits O2)) + match bits with Some _ => 0 | None => 3 end < lim;
  bd_none : no_overload (O1 ++ O2);
  bd_bits : ∀ b, bits = Some b → is_byte b;
  bd_first : bits = None → O2 = [];
  bd_file : field buf off_file sizeof_file 1 bits F;
  bd_sname : field buf off_sname sizeof_sname 2 bits S }.

(** The options a client is to see, in the order it looks for them. *)
Definition contents (O1 O2 : list dopt) (F S : option (list dopt)) : list dopt := O1 ++ O2 ++ default [] F ++ default [] S.

Lemma field_keeps buf buf' c k a n m bits F :
  keeps buf buf' c k → (a + n ≤ c ∨ c + k ≤ a) → 0 < n → field buf a n m bits F → field buf' a n m bits F.
Proof.
  intros Hk Hd Hn. destruct F as [L|]; simpl.
  - intros (Ha & ? & ?). split_and!; try done. by eapply area_keeps.
  - intros [(x & Hx & Hne) ?]. split; [|done]. exists x. split; [|done].
    assert (bytes_at buf a [x]) as Hb by (rewrite bytes_at_cons, bytes_at_nil; pose proof (rd_lt _ _ _ Hx); split_and!; [lia|done|lia]).
    apply Hk in Hb; [|change (zlen [x]) with 1; lia]. by apply bytes_at_cons in Hb as (_ & ? & _).
Qed.

Lemma bit_lor b m m' : Z.land m m' = 0 → bit (Some (Z.lor b m)) m' = bit (Some b) m'.
Proof. intros E. simpl. unfold flag. by rewrite Z.land_lor_distr_l, E, Z.lor_0_r. Qed.

Lemma bit_lor_same b m : m ≠ 0 → 0 ≤ m → bit (Some (Z.lor b m)) m = true.
Proof.
  intros Hm H0. simpl. unfold flag. rewrite Z.land_lor_distr_l, Z.land_diag. apply negb_true_iff, Z.eqb_neq.
  intros E. apply Z.lor_eq_0_iff in E as [_ E]. done.
Qed.

Lemma lor_byte b m : is_byte b → m = 1 ∨ m = 2 → is_byte (Z.lor b m).
Proof.
  intros Hb Hm. assert (∀ k, k = 1 ∨ k = 2 → (0 <=? Z.lor b k) && (Z.lor b k <? 256) = true) as H.
  { intros k [-> | ->]; by apply (byte_cases (λ b, (0 <=? Z.lor b _) && (Z.lor b _ <? 256))). }
  specialize (H m Hm). bool_hyps. unfold is_byte. lia.
Qed.

(** The bits of the overload option changed in place. *)
Lemma set_bits buf lim O1 b b' O2 :
  area buf first_option (lim - first_option) (with_overload O1 (Some b) O2) → is_byte b' →
  rd buf (first_option + zlen (enc O1) + 2) = Ok b ∧
  ∃ buf', wr buf (first_option + zlen (enc O1) + 2) b' = Ok buf' ∧ rd buf' (first_option + zlen (enc O1) + 2) = Ok b' ∧
    area buf' first_option (lim - first_option) (with_overload O1 (Some b') O2) ∧
    keeps buf buf' first_option (lim - first_option).
Proof.
  intros Ha Hb'. pose proof (area_len _ _ _ _ Ha) as Hlen. destruct Ha as (HL & z & Hn & Hb). cbn [with_overload] in *.
  set (q := first_option + zlen (enc O1) + 2). assert (rd buf q = Ok b) as Hq.
  { rewrite enc_app, enc_cons, <- !app_assoc, bytes_at_app in Hb. destruct Hb as [_ Hb].
    apply option_bytes_at in Hb as (_ & _ & Hb & _). by apply bytes_at_cons in Hb as (_ & ? & _). }
  split; [done|]. destruct (wr_at_rd buf q b b' Hq) as (buf' & W & Hr & Hz). exists buf'. rewrite u8_id in Hr by done.
  rewrite enc_app, zlen_app, enc_cons, zlen_app, zlen_opt in *. change (zlen (OPTION_OVERLOAD, [b]).2) with 1 in *.
  pose proof (zlen_nonneg (enc O1)). pose proof (zlen_nonneg (enc O2)). split; [done|]. split; [done|]. split; [split|].
  - apply Forall_app in HL as [H1 H2]. apply Forall_cons in H2 as [_ H2]. apply Forall_app. split; [done|]. constructor; [|done].
    split; simpl; [unfold OPTION_OVERLOAD; lia|by constructor|]. change (zlen [b']) with 1. lia.
  - exists z. rewrite enc_app, zlen_app, enc_cons, zlen_app, zlen_opt. change (zlen (OPTION_OVERLOAD, [b']).2) with 1. split; [done|].
    unfold opt_bytes in Hb |- *. cbn [fst snd] in *. change (zlen [b]) with 1 in Hb. change (zlen [b']) with 1.
    rewrite <- !app_assoc in *. cbn [app] in *. apply bytes_at_app in Hb as [Hb1 Hb2].
    apply bytes_at_cons in Hb2 as (? & Hb2 & Hb3). apply bytes_at_cons in Hb3 as (? & Hb3 & Hb4). apply bytes_at_cons in Hb4 as (? & _ & Hb5).
    rewrite bytes_at_app, !bytes_at_cons. rewrite !(rd_wr _ _ _ _ _ W). unfold q in *.
    rewrite !(proj2 (Z.eqb_neq _ (first_option + zlen (enc O1) + 2))) by lia.
    split; [eapply bytes_at_wr_ne; [done|lia|done]|]. split_and!; try done; [|eapply bytes_at_wr_ne; [done|lia|done]].
    replace (first_option + zlen (enc O1) + 1 + 1) with (first_option + zlen (enc O1) + 2) by lia. by rewrite Z.eqb_refl, u8_id.
  - split; [done|]. intros c k Hc Hk. eapply bytes_at_wr_ne; [done| |done]. unfold q. lia.
Qed.

(** One of the two fields asked for space. *)
Lemma take_area_spec buf lim O1 b O2 a n m F len (o := first_option + zlen (enc O1)) :
  area buf first_option (lim - first_option) (with_overload O1 (Some b) O2) → is_byte b → m = 1 ∨ m = 2 →
  field buf a n m (Some b) F → 0 < n → a + n ≤ first_option →
  ∃ buf' b', take_area buf o m a n len =
      Ok (buf', match F with Some L => if a + n <=? a + zlen (enc L) + len + 3 then None else Some (a + zlen (enc L)) | None => None end) ∧
    area buf' first_option (lim - first_option) (with_overload O1 (Some b') O2) ∧ is_byte b' ∧
    keeps buf buf' first_option (lim - first_option) ∧ field buf' a n m (Some b') F ∧
    (b' = b ∨ b' = Z.lor b m) ∧ (F ≠ None → flag b' m = true).
Proof.
  intros Ha Hb Hm HF Hn Hd. unfold take_area, o.
  destruct (set_bits buf lim O1 b (Z.lor b m) O2 Ha (lor_byte b m Hb Hm)) as (Hq & buf' & W & Hr' & Ha' & Hk).
  destruct F as [L|].
  - destruct HF as (HL & Hbit & Hno). destruct (area_first _ _ _ _ HL) as (x & Hx & Hx0). rewrite Hx, Hq. cbn [mbind res_bind].
    destruct (Z.eqb_spec x 0) as [->|Hne].
    + rewrite W. cbn [mbind res_bind]. rewrite Hr'. cbn [mbind res_bind].
      pose proof (bit_lor_same b m ltac:(lia) ltac:(lia)) as Hbm. cbn [bit] in Hbm. rewrite Hbm.
      assert (area buf' a n L) as HL' by (eapply area_keeps; [exact Hk|lia|done]). rewrite (area_skip _ _ _ _ HL'). cbn [mbind res_bind].
      exists buf', (Z.lor b m). split; [done|]. split; [done|]. split; [by apply lor_byte|]. split; [done|]. split; [done|]. split; [by right|done].
    + cbn [mbind res_bind]. rewrite Hq. cbn [mbind res_bind]. assert (flag b m = true) as Hfl by (apply Hbit; naive_solver).
      rewrite Hfl, (area_skip _ _ _ _ HL). cbn [mbind res_bind].
      exists buf, b. split; [done|]. split; [done|]. split; [done|]. split; [apply keeps_refl|]. split; [done|]. split; [by left|done].
  - destruct HF as [(x & Hx & Hne) Hfl]. rewrite Hx, Hq. cbn [mbind res_bind].
    rewrite (proj2 (Z.eqb_neq _ _) Hne). cbn [mbind res_bind]. rewrite Hq. cbn [mbind res_bind bit] in *. rewrite Hfl.
    exists buf, b. split; [done|]. split; [done|]. split; [done|]. split; [apply keeps_refl|]. split; [split; [by exists x|done]|]. split; [by left|done].
Qed.

(** The parts of the packet do not overlap. *)
Ltac offsets := unfold first_option, off_file, sizeof_file, off_sname, sizeof_sname in *; lia.

Lemma with_none O1 O2 : with_overload O1 None O2 = O1 ++ O2.
Proof. done. Qed.

Lemma wr_same buf p x : rd buf p = Ok x → is_byte x → wr buf p x = Ok buf.
Proof.
  intros Hx Hb. pose proof (rd_lt _ _ _ Hx). apply rd_Ok in Hx as [_ Hx]. unfold wr.
  replace ((p <? 0) || (zlen buf <=? p)) with false by lia. f_equal. rewrite u8_id by done. by apply list_insert_id.
Qed.

(** A fresh overload option: its bits are the zero that is there. *)
Lemma new_overload buf lim O1 (p := first_option + zlen (enc O1)) :
  area buf first_option (lim - first_option) O1 → p + 3 < lim →
  ∃ b1 b2, wr buf p OPTION_OVERLOAD = Ok b1 ∧ wr b1 (p + 1) 1 = Ok b2 ∧
    area b2 first_option (lim - first_option) (with_overload O1 (Some 0) []) ∧ keeps buf b2 first_option (lim - first_option).
Proof.
  intros Ha Hp. pose proof (zlen_nonneg (enc O1)).
  destruct (area_add buf first_option (lim - first_option) O1 OPTION_OVERLOAD 1 Ha) as (b2 & E2 & Hk2 & Hput);
    [unfold OPTION_OVERLOAD; lia|lia|unfold p in Hp; lia|]. fold p in E2, Hk2, Hput.
  destruct (wr buf p OPTION_OVERLOAD) as [b1| | |] eqn:W1; try done. cbn [mbind res_bind] in E2. exists b1, b2.
  split; [done|]. split; [done|]. destruct (Hput [0] eq_refl) as (b3 & E3 & Ha3 & Hk3).
  pose proof (area_zeros buf _ _ _ 3 Ha ltac:(unfold p in Hp; lia)) as Hz. fold p in Hz. cbn [repeat] in Hz.
  rewrite !bytes_at_cons in Hz. destruct Hz as (_ & _ & _ & _ & ? & Hz & _).
  assert (bytes_at buf (p + 2) [0]) as Hb2 by (rewrite bytes_at_cons, bytes_at_nil; replace (p + 2) with (p + 1 + 1) by lia; split_and!; [lia|done|lia]).
  apply Hk2 in Hb2; [|lia]. apply bytes_at_cons in Hb2 as (_ & Hb2 & _).
  cbn [put_bytes] in E3. rewrite (wr_same _ _ _ Hb2) in E3 by (unfold is_byte; lia). injection E3 as <-. done.
Qed.

(** The first byte of a field. *)
Lemma field_first buf a n m F :
  field buf a n m None F → ∃ x, rd buf a = Ok x ∧ (x = 0 → F = Some []) ∧ (x ≠ 0 → F = None).
Proof.
  destruct F as [L|]; simpl; [|intros [(x & Hx & Hne) _]; exists x; naive_solver].
  intros (HL & Hb & _). apply area_first in HL as (x & Hx & Hx0). exists x. split; [done|]. split; [naive_solver|].
  intros Hne. destruct L as [|o L]; [naive_solver|]. by specialize (Hb ltac:(done)).
Qed.

(** A field that is free or holds a name is not affected by bits. *)
Lemma field_bits buf a n m bits F : field buf a n m None F → bit bits m = false → field buf a n m bits F.
Proof.
  destruct F as [L|]; simpl; [|naive_solver]. intros (? & Hb & ?) _. split_and!; try done. intros Hne. by specialize (Hb Hne).
Qed.

Lemma overload_place buf lim O1 O2 bits :
  area buf first_option (lim - first_option) (with_overload O1 bits O2) → no_overload (O1 ++ O2) →
  find_overload buf = Ok (match bits with Some _ => Some (first_option + zlen (enc O1)) | None => None end).
Proof.
  intros Ha Hno. destruct (find_overload_enc _ buf (proj1 Ha) (area_terminated _ _ _ _ Ha)) as [[Hn ->]|(L1 & d & L2 & E & Hn & ->)];
    destruct bits as [b|]; cbn [with_overload] in *; try done.
  - apply Forall_app in Hn as [_ Hn]. by apply Forall_cons in Hn as [Hn _].
  - assert (L1 = O1) as ->; [|done]. apply Forall_app in Hno as [Hno1 _]. clear -E Hn Hno1. revert L1 E Hn.
    induction Hno1 as [|x O1 Hx _ IH]; intros [|y L1] E Hn; try done; simplify_eq/=.
    + by apply Forall_cons in Hn as [Hn _].
    + apply Forall_cons in Hn as [_ Hn]. f_equal. by apply IH.
  - rewrite E in Hno. apply Forall_app in Hno as [_ Hno]. by apply Forall_cons in Hno as [Hno _].
Qed.

(** The overload option found or made. *)
Lemma get_overload_spec buf lim O1 O2 bits F S :
  building buf lim O1 O2 bits F S →
  ∃ buf' o, get_overload buf (first_option + zlen (enc (with_overload O1 bits O2))) = Ok (buf', o) ∧
    match o with
    | Some o => o = first_option + zlen (enc O1) ∧ ∃ b, building buf' lim O1 O2 (Some b) F S
    | None => buf' = buf ∧ F = None ∧ S = None
    end.
Proof.
  intros Hbd. pose proof Hbd as [Ha Hroom Hno Hby Hf1 HF HS]. unfold get_overload.
  rewrite (overload_place _ _ _ _ _ Ha Hno). cbn [mbind res_bind]. destruct bits as [b|].
  { eexists _, _. split; [done|]. split; [done|]. by exists b. }
  rewrite (Hf1 eq_refl) in *. cbn [with_overload] in *. rewrite app_nil_r in *.
  destruct (field_first _ _ _ _ _ HF) as (f & -> & Hf & Hf'). destruct (field_first _ _ _ _ _ HS) as (sn & -> & Hs & Hs'). cbn [mbind res_bind].
  assert ((if f =? 0 then Ok true else Ok (sn =? 0)) = Ok ((f =? 0) || (sn =? 0))) as -> by by destruct (f =? 0).
  cbn [mbind res_bind]. destruct ((f =? 0) || (sn =? 0)) eqn:Efree.
  - destruct (new_overload buf lim O1 Ha Hroom) as (b1 & b2 & -> & E2 & Ha2 & Hk). cbn [mbind res_bind]. rewrite E2. cbn [mbind res_bind].
    eexists _, _. split; [done|]. split; [done|]. exists 0. pose proof (area_len _ _ _ _ Ha2).
    split; try done; [lia|by rewrite app_nil_r|intros b [= <-]; unfold is_byte; lia|apply field_bits; [|done]|apply field_bits; [|done]];
      (eapply field_keeps; [exact Hk| | |done]; offsets).
  - apply orb_false_iff in Efree as [Ef Es]. apply Z.eqb_neq in Ef, Es. eexists _, _. split; [done|]. cbn match. split_and!; [done|by apply Hf'|by apply Hs'].
Qed.

Lemma field_bit_eq buf a n m bits bits' F : bit bits' m = bit bits m → field buf a n m bits F → field buf a n m bits' F.
Proof. intros E. destruct F; simpl; by rewrite E. Qed.

Lemma enc_overload_length O1 b b' O2 :
  zlen (enc (with_overload O1 (Some b) O2)) = zlen (enc (with_overload O1 (Some b') O2)).
Proof. cbn [with_overload]. by rewrite !enc_app, !enc_cons, !zlen_app, !zlen_opt. Qed.

(** The bits changed. *)
Lemma building_bits buf buf' lim O1 O2 b b' F S :
  building buf lim O1 O2 (Some b) F S →
  area buf' first_option (lim - first_option) (with_overload O1 (Some b') O2) → is_byte b' →
  field buf' off_file sizeof_file 1 (Some b') F → field buf' off_sname sizeof_sname 2 (Some b') S →
  building buf' lim O1 O2 (Some b') F S.
Proof.
  intros [Ha Hroom Hno Hby Hf1 HF HS] Ha' Hb' HF' HS'. split; try done.
  - by rewrite (enc_overload_length _ b' b).
  - by intros ? [= <-].
Qed.

(** What space is given: the end of one of the fields, its bit set. *)
Definition field_space (q len b : Z) (F S : option (list dopt)) : Prop :=
  (∃ L, F = Some L ∧ q = off_file + zlen (enc L) ∧ q + len + 3 < off_file + sizeof_file ∧ flag b 1 = true) ∨
  (∃ L, S = Some L ∧ q = off_sname + zlen (enc L) ∧ q + len + 3 < off_sname + sizeof_sname ∧ flag b 2 = true).

Lemma overload_space_spec buf lim O1 O2 bits F S len :
  building buf lim O1 O2 bits F S →
  ∃ buf' r, overload_space buf (first_option + zlen (enc (with_overload O1 bits O2))) len = Ok (buf', r) ∧
    match r with
    | None => ∃ bits', building buf' lim O1 O2 bits' F S
    | Some q => ∃ b, building buf' lim O1 O2 (Some b) F S ∧ field_space q len b F S
    end.
Proof.
  intros Hbd. unfold overload_space. destruct (get_overload_spec _ _ _ _ _ _ _ Hbd) as (b1 & o & -> & Ho). cbn [mbind res_bind].
  destruct o as [o|]; [|destruct Ho as (-> & -> & ->); eexists _, _; split; [done|]; by exists bits].
  destruct Ho as (-> & b & Hb1). clear Hbd.
  destruct (take_area_spec b1 lim O1 b O2 off_file sizeof_file 1 F len) as (b2 & bb & -> & Ha2 & Hbb & Hk2 & HF2 & Hor & Hfl);
    [apply Hb1|by apply Hb1|by left|apply Hb1|offsets|offsets|]. cbn [mbind res_bind].
  assert (building b2 lim O1 O2 (Some bb) F S) as Hb2.
  { eapply building_bits; [exact Hb1|done..|]. apply (field_bit_eq _ _ _ _ (Some b)).
    - destruct Hor as [-> | ->]; [done|by apply bit_lor].
    - eapply field_keeps; [exact Hk2| | |apply Hb1]; offsets. }
  destruct (match F with Some L => if _ <=? _ then None else Some (off_file + zlen (enc L)) | None => None end) as [q|] eqn:Eq.
  { eexists _, _. split; [done|]. exists bb. split; [done|]. left. destruct F as [L|]; [|done].
    destruct (Z.leb_spec (off_file + sizeof_file) (off_file + zlen (enc L) + len + 3)); [done|]. injection Eq as <-. exists L.
    split_and!; [done|done|done|by apply Hfl]. }
  clear Eq.
  destruct (take_area_spec b2 lim O1 bb O2 off_sname sizeof_sname 2 S len) as (b3 & bc & -> & Ha3 & Hbc & Hk3 & HS3 & Hor3 & Hfl3);
    [apply Hb2|by apply Hb2|by right|apply Hb2|offsets|offsets|].
  assert (building b3 lim O1 O2 (Some bc) F S) as Hb3.
  { eapply building_bits; [exact Hb2|done|done| |done]. apply (field_bit_eq _ _ _ _ (Some bb)).
    - destruct Hor3 as [-> | ->]; [done|by apply bit_lor].
    - eapply field_keeps; [exact Hk3| | |apply Hb2]; offsets. }
  eexists _, _. split; [done|]. destruct S as [L|]; [|by exists (Some bc)].
  destruct (Z.leb_spec (off_sname + sizeof_sname) (off_sname + zlen (enc L) + len + 3)); [by exists (Some bc)|].
  exists bc. split; [done|]. right. exists L. split_and!; [done|done|done|by apply Hfl3].
Qed.

(** * An option put into the reply *)

(** Where the option went: after the others of the option area or of one of the
    fields, or nowhere. *)
Definition placed (x : dopt) (O : list dopt) (F S : option (list dopt)) (O' : list dopt) (F' S' : option (list dopt)) : Prop :=
  (O' = O ++ [x] ∧ F' = F ∧ S' = S) ∨
  (O' = O ∧ (∃ L, F = Some L ∧ F' = Some (L ++ [x])) ∧ S' = S) ∨
  (O' = O ∧ F' = F ∧ ∃ L, S = Some L ∧ S' = Some (L ++ [x])) ∨
  (O' = O ∧ F' = F ∧ S' = S).

(** [free_space] followed by a copy of the data, as its callers do. *)
Definition put_data (mess : list Z) (end_ opt : Z) (bs : list Z) : res (list Z) :=
  '(mess, p) ← free_space mess end_ opt (zlen bs);
  match p with None => Ok mess | Some p => put_bytes mess p bs end.

(** The rest of [free_space] and the copy, at the end of an area. *)
Lemma finish_put buf a n L c bs :
  area buf a n L → 1 ≤ c ≤ 254 → zlen bs ≤ 255 → zlen (enc L) + (2 + zlen bs) < n →
  ∃ b3, ('(m, p) ← (b1 ← wr buf (a + zlen (enc L)) c; b2 ← wr b1 (a + zlen (enc L) + 1) (zlen bs); Ok (b2, Some (a + zlen (enc L) + 2)));
         match p with None => Ok m | Some p => put_bytes m p bs end) = Ok b3 ∧
    area b3 a n (L ++ [(c, u8 <$> bs)]) ∧ keeps buf b3 a n.
Proof.
  intros Ha Hc Hlen Hfit. pose proof (zlen_nonneg bs).
  destruct (area_add buf a n L c (zlen bs) Ha Hc ltac:(lia) Hfit) as (b2 & E & _ & Hput).
  destruct (wr buf (a + zlen (enc L)) c) as [b1| | |]; try done. cbn [mbind res_bind] in *. rewrite E. cbn [mbind res_bind].
  by apply Hput.
Qed.

Lemma no_overload_snoc L x : no_overload L → x.1 ≠ OPTION_OVERLOAD → no_overload (L ++ [x]).
Proof. intros. by apply Forall_snoc. Qed.

(** An option at the end of the option area. *)
Lemma building_area buf lim O1 O2 bits F S b3 x :
  building buf lim O1 O2 bits F S → x.1 ≠ OPTION_OVERLOAD →
  area b3 first_option (lim - first_option) (with_overload O1 bits O2 ++ [x]) → keeps buf b3 first_option (lim - first_option) →
  first_option + zlen (enc (with_overload O1 bits O2 ++ [x])) + 3 < lim →
  ∃ O1' O2', building b3 lim O1' O2' bits F S ∧ O1' ++ O2' = (O1 ++ O2) ++ [x].
Proof.
  intros [Ha Hroom Hno Hby Hf1 HF HS] Hx Ha3 Hk Hr.
  assert (field b3 off_file sizeof_file 1 bits F) by (eapply field_keeps; [exact Hk| | |done]; offsets).
  assert (field b3 off_sname sizeof_sname 2 bits S) by (eapply field_keeps; [exact Hk| | |done]; offsets).
  assert (no_overload ((O1 ++ O2) ++ [x])) by by apply no_overload_snoc.
  destruct bits as [b|].
  - exists O1, (O2 ++ [x]). rewrite app_assoc. split; [|done]. cbn [with_overload] in *. rewrite <- app_assoc in Ha3, Hr. cbn [app] in *.
    split; try done; [cbn [with_overload]; lia|by rewrite app_assoc].
  - rewrite (Hf1 eq_refl) in *. cbn [with_overload] in *. rewrite !app_nil_r in *. exists (O1 ++ [x]), []. rewrite app_nil_r. split; [|done].
    split; cbn [with_overload]; rewrite ?app_nil_r; done.
Qed.

Lemma put_data_spec buf lim end_ O1 O2 bits F S c bs :
  building buf lim O1 O2 bits F S → 1 ≤ c ≤ 254 → c ≠ OPTION_OVERLOAD → zlen bs ≤ 255 → end_ + 3 ≤ lim →
  ∃ buf' O1' O2' bits' F' S', put_data buf end_ c bs = Ok buf' ∧ building buf' lim O1' O2' bits' F' S' ∧
    placed (c, u8 <$> bs) (O1 ++ O2) F S (O1' ++ O2') F' S' ∧
    (first_option + zlen (enc (with_overload O1 bits O2)) + zlen bs + 3 < end_ →
     O1' ++ O2' = (O1 ++ O2) ++ [(c, u8 <$> bs)] ∧ bits' = bits ∧ F' = F ∧ S' = S).
Proof.
  intros Hbd Hc Hco Hlen Hend. pose proof (zlen_nonneg bs). unfold put_data, free_space.
  rewrite (area_skip _ _ _ _ (bd_opts _ _ _ _ _ _ _ Hbd)). cbn [mbind res_bind]. set (p := first_option + _).
  destruct (Z.leb_spec end_ (p + zlen bs + 3)) as [Hfull|Hfit]; cbn [mbind res_bind].
  - destruct (overload_space_spec buf lim O1 O2 bits F S (zlen bs) Hbd) as (b1 & r & E & Hr). fold p in E. rewrite E. cbn [mbind res_bind].
    destruct r as [q|]; [|destruct Hr as [bits' Hr]; exists b1, O1, O2, bits', F, S; cbn [mbind res_bind]; split_and!;
                             [done|done|by right; right; right|lia]].
    destruct Hr as (b & Hb1 & [(L & -> & -> & Hroom & Hfl)|(L & -> & -> & Hroom & Hfl)]).
    + destruct (bd_file _ _ _ _ _ _ _ Hb1) as (HL & _ & HnL).
      destruct (finish_put b1 off_file sizeof_file L c bs) as (b3 & -> & Ha3 & Hk3); [done|done|done|lia|].
      exists b3, O1, O2, (Some b), (Some (L ++ [(c, u8 <$> bs)])), S. split; [done|]. split; [|split; [right; left; eauto|lia]].
      destruct Hb1 as [Ha ? ? ? ? _ HS]. split; try done; [eapply area_keeps; [exact Hk3|offsets|done]| |].
      * split; [done|]. split; [done|]. by apply no_overload_snoc.
      * eapply field_keeps; [exact Hk3| | |done]; offsets.
    + destruct (bd_sname _ _ _ _ _ _ _ Hb1) as (HL & _ & HnL).
      destruct (finish_put b1 off_sname sizeof_sname L c bs) as (b3 & -> & Ha3 & Hk3); [done|done|done|lia|].
      exists b3, O1, O2, (Some b), F, (Some (L ++ [(c, u8 <$> bs)])). split; [done|]. split; [|split; [right; right; left; eauto|lia]].
      destruct Hb1 as [Ha ? ? ? ? HF _]. split; try done; [eapply area_keeps; [exact Hk3|offsets|done]| |].
      * eapply field_keeps; [exact Hk3| | |done]; offsets.
      * split; [done|]. split; [done|]. by apply no_overload_snoc.
  - destruct (finish_put buf first_option (lim - first_option) (with_overload O1 bits O2) c bs) as (b3 & E3 & Ha3 & Hk3);
      [apply Hbd|done|done|unfold p in *; lia|]. fold p in E3. rewrite E3.
    destruct (building_area buf lim O1 O2 bits F S b3 (c, u8 <$> bs)) as (O1' & O2' & Hb' & Eo); [done..| |].
    { rewrite enc_app, zlen_app. change (enc [(c, u8 <$> bs)]) with (opt_bytes (c, u8 <$> bs) ++ []). rewrite app_nil_r, zlen_opt. simpl.
      unfold zlen at 2. rewrite length_fmap. fold (zlen bs). unfold p in *. lia. }
    exists b3, O1', O2', bits, F, S. split; [done|]. split; [done|]. split; [left; done|done].
Qed.

(** * Reading *)

Definition matches (opt minsize : Z) (o : dopt) : Prop := o.1 = opt ∧ minsize ≤ zlen o.2.

(** The search in an area closed by OPTION_END. *)
Lemma find1_loop_enc fuel L buf a end_ opt minsize :
  Forall ok_opt L → bytes_at buf a (enc L ++ [OPTION_END]) → a + zlen (enc L) < end_ → end_ - a < Z.of_nat fuel → opt ≠ OPTION_END →
  (Forall (λ o, ¬ matches opt minsize o) L ∧ find1_loop fuel buf a end_ opt minsize = Ok None) ∨
  (∃ L1 o L2, L = L1 ++ o :: L2 ∧ Forall (λ o, ¬ matches opt minsize o) L1 ∧ matches opt minsize o ∧
     find1_loop fuel buf a end_ opt minsize = Ok (Some (a + zlen (enc L1)))).
Proof.
  intros HL. revert a fuel. induction HL as [|o L Ho HL IH]; intros a fuel Hb He Hf Ho255; (destruct fuel as [|fuel]; [match type of He with _ + zlen ?l < _ => pose proof (zlen_nonneg l) end; lia|]); cbn [find1_loop].
  - change (zlen (enc [])) with 0 in *. apply bytes_at_cons in Hb as (_ & E & _). rewrite (proj2 (Z.leb_gt _ _)) by lia. rewrite E. cbn [mbind res_bind].
    rewrite Z.eqb_refl, (proj2 (Z.eqb_neq _ _)) by done. left. split; [constructor|done].
  - rewrite enc_cons, zlen_app, zlen_opt in He. pose proof (zlen_nonneg o.2). pose proof (zlen_nonneg (enc L)).
    rewrite enc_cons, <- app_assoc in Hb. apply option_bytes_at in Hb as (E1 & E2 & _ & Hb).
    rewrite (proj2 (Z.leb_gt _ _)) by lia. rewrite E1. cbn [mbind res_bind]. destruct Ho as [Hc _ _].
    rewrite (proj2 (Z.eqb_neq o.1 OPTION_END)), (proj2 (Z.eqb_neq o.1 OPTION_PAD)) by (unfold OPTION_END, OPTION_PAD; lia).
    rewrite (proj2 (Z.ltb_ge _ _)) by lia. unfold option_len. rewrite E2. cbn [mbind res_bind]. rewrite (proj2 (Z.ltb_ge _ _)) by lia.
    destruct ((o.1 =? opt) && (minsize <=? zlen o.2)) eqn:Em.
    + right. exists [], o, L. split; [done|]. split; [constructor|]. change (zlen (enc [])) with 0. rewrite Z.add_0_r.
      bool_hyps. by split_and!.
    + assert (¬ matches opt minsize o) as Hnm by (unfold matches; apply andb_false_iff in Em; lia).
      destruct (IH (a + (zlen o.2 + 2)) fuel) as [[Hn ->]|(L1 & x & L2 & -> & Hn & Hm & ->)]; [done|lia|lia|done|left|right].
      * split; [by constructor|done].
      * exists (o :: L1), x, L2. split; [done|]. split; [by constructor|]. split; [done|]. do 2 f_equal. rewrite enc_cons, zlen_app, zlen_opt. lia.
Qed.

Lemma option_find1_enc L buf a end_ opt minsize :
  Forall ok_opt L → bytes_at buf a (enc L ++ [OPTION_END]) → a + zlen (enc L) < end_ → opt ≠ OPTION_END →
  (Forall (λ o, ¬ matches opt minsize o) L ∧ option_find1 buf a end_ opt minsize = Ok None) ∨
  (∃ L1 o L2, L = L1 ++ o :: L2 ∧ Forall (λ o, ¬ matches opt minsize o) L1 ∧ matches opt minsize o ∧
     option_find1 buf a end_ opt minsize = Ok (Some (a + zlen (enc L1)))).
Proof. intros. apply find1_loop_enc; try done. pose proof (zlen_nonneg (enc L)). lia. Qed.

(** The option at the place found. *)
Lemma option_at buf a L1 o L2 k : bytes_at buf a (enc (L1 ++ o :: L2) ++ k) → bytes_at buf (a + zlen (enc L1)) (opt_bytes o).
Proof. rewrite enc_app, enc_cons, <- !app_assoc, !bytes_at_app. intros (_ & ? & _). done. Qed.

(** * The finished reply *)

(** An area closed. *)
Lemma area_close buf a n L :
  area buf a n L →
  ∃ buf', (p ← dhcp_skip_opts buf a; wr buf p OPTION_END) = Ok buf' ∧ wr buf (a + zlen (enc L)) OPTION_END = Ok buf' ∧
    bytes_at buf' a (enc L ++ [OPTION_END]) ∧ keeps buf buf' a n.
Proof.
  intros Ha. rewrite (area_skip _ _ _ _ Ha). cbn [mbind res_bind]. pose proof (area_len _ _ _ _ Ha). pose proof (zlen_nonneg (enc L)).
  pose proof (area_terminated _ _ _ _ Ha) as Hb. apply bytes_at_app in Hb as [Hb1 Hb2].
  apply bytes_at_cons in Hb2 as (Hp & Hz & _). destruct (wr_at_rd buf _ _ OPTION_END Hz) as (buf' & W & Hr & Hzl).
  exists buf'. split; [done|]. split; [done|]. split.
  - rewrite bytes_at_app, bytes_at_cons, bytes_at_nil. split; [eapply bytes_at_wr_ne; [done|lia|done]|]. split; [lia|]. split; [done|lia].
  - split; [done|]. intros c k Hc Hk. eapply bytes_at_wr_ne; [done| |done]. lia.
Qed.

Record finished (buf : list Z) (size : Z) (O1 O2 : list dopt) (bits : option Z) (F S : option (list dopt)) : Prop := {
  fi_opts : bytes_at buf first_option (enc (with_overload O1 bits O2) ++ [OPTION_END]);
  fi_size : first_option + zlen (enc (with_overload O1 bits O2)) < size;
  fi_ok : Forall ok_opt (with_overload O1 bits O2);
  fi_none : no_overload (O1 ++ O2);
  fi_file : if bit bits 1 then ∃ L, F = Some L ∧ Forall ok_opt L ∧ bytes_at buf off_file (enc L ++ [OPTION_END]) ∧ zlen (enc L) < sizeof_file
            else F = Some [] ∨ F = None;
  fi_sname : if bit bits 2 then ∃ L, S = Some L ∧ Forall ok_opt L ∧ bytes_at buf off_sname (enc L ++ [OPTION_END]) ∧ zlen (enc L) < sizeof_sname
             else S = Some [] ∨ S = None }.

Lemma bit_field bits m buf a n F :
  field buf a n m bits F →
  if bit bits m then ∃ L, F = Some L ∧ area buf a n L else F = Some [] ∨ F = None.
Proof.
  destruct F as [L|]; simpl.
  - intros (Ha & Hb & _). destruct (bit bits m); [eauto|]. left. destruct L; [done|]. by specialize (Hb ltac:(done)).
  - intros [_ ->]. by right.
Qed.

(** One of the fields closed. *)
Lemma end_area_spec buf o bits m a n F lim O1 O2 :
  area buf first_option (lim - first_option) (with_overload O1 bits O2) → (∀ b, bits = Some b → is_byte b) →
  field buf a n m bits F → a + n ≤ first_option → 0 < n →
  o = match bits with Some _ => Some (first_option + zlen (enc O1)) | None => None end →
  ∃ buf', end_area buf o m a = Ok buf' ∧ keeps buf buf' a n ∧
    if bit bits m then ∃ L, F = Some L ∧ Forall ok_opt L ∧ bytes_at buf' a (enc L ++ [OPTION_END]) ∧ zlen (enc L) < n else F = Some [] ∨ F = None.
Proof.
  intros Ha Hby HF Hd Hn ->. pose proof (bit_field _ _ _ _ _ _ HF) as Hbf. destruct bits as [b|]; cbn [end_area].
  2: { exists buf. split; [done|]. split; [apply keeps_refl|done]. }
  unfold option_uint. destruct (set_bits buf lim O1 b b O2 Ha) as (Hr & _); [by apply Hby|]. rewrite Z.add_0_r.
  assert (bytes_at buf (first_option + zlen (enc O1) + 2) [b]) as Hb.
  { rewrite bytes_at_cons, bytes_at_nil. pose proof (rd_lt _ _ _ Hr). split_and!; [lia|done|lia]. }
  pose proof (read_bytes_at _ _ _ Hb) as E. cbn [length] in E. rewrite E. cbn [mbind res_bind foldl]. rewrite Z.shiftl_0_l. change (Z.lor (u32 0) b) with b. cbn [bit] in *.
  destruct (flag b m).
  - destruct Hbf as (L & -> & HL). destruct (area_close _ _ _ _ HL) as (buf' & -> & _ & Hb' & Hk).
    exists buf'. split; [done|]. split; [done|]. exists L. pose proof (area_len _ _ _ _ HL). split_and!; [done|apply HL|done|done].
  - exists buf. split; [done|]. split; [apply keeps_refl|done].
Qed.

Lemma packet_size_spec buf lim O1 O2 bits F S real_end :
  building buf lim O1 O2 bits F S →
  ∃ buf' size, dhcp_packet_size buf None real_end = Ok (buf', size) ∧ finished buf' size O1 O2 bits F S ∧
    size = Z.max (first_option + zlen (enc (with_overload O1 bits O2)) + 1) MIN_PACKETSZ ∧ zlen buf' = zlen buf.
Proof.
  intros [Ha Hroom Hno Hby Hf1 HF HS]. unfold dhcp_packet_size. rewrite (area_skip _ _ _ _ Ha). cbn [mbind res_bind restore_agent].
  rewrite (overload_place _ _ _ _ _ Ha Hno). cbn [mbind res_bind].
  destruct (end_area_spec buf _ bits 1 off_file sizeof_file F lim O1 O2 Ha Hby HF ltac:(offsets) ltac:(offsets) eq_refl) as (b1 & -> & Hk1 & HF1). cbn [mbind res_bind].
  assert (area b1 first_option (lim - first_option) (with_overload O1 bits O2)) as Ha1 by (eapply area_keeps; [exact Hk1|offsets|done]).
  assert (field b1 off_sname sizeof_sname 2 bits S) as HS1 by (eapply field_keeps; [exact Hk1| | |done]; offsets).
  destruct (end_area_spec b1 _ bits 2 off_sname sizeof_sname S lim O1 O2 Ha1 Hby HS1 ltac:(offsets) ltac:(offsets) eq_refl) as (b2 & -> & Hk2 & HS2). cbn [mbind res_bind].
  assert (area b2 first_option (lim - first_option) (with_overload O1 bits O2)) as Ha2 by (eapply area_keeps; [exact Hk2|offsets|done]).
  destruct (area_close _ _ _ _ Ha2) as (b3 & _ & W & Hb3 & Hk3). rewrite W. cbn [mbind res_bind].
  exists b3. eexists. split; [done|]. split; [|split; [done|destruct Hk1, Hk2, Hk3; congruence]].
  split; [done|lia|apply Ha|done| |].
  - destruct (bit bits 1); [|done]. destruct HF1 as (L & -> & HL & HbL & Hlen). exists L. split_and!; try done.
    apply Hk3; [|apply Hk2; [|done]]; rewrite ?zlen_app; change (zlen [OPTION_END]) with 1; offsets.
  - destruct (bit bits 2); [|done]. destruct HS2 as (L & -> & HL & HbL & Hlen). exists L. split_and!; try done.
    apply Hk3; [|done]; rewrite ?zlen_app; change (zlen [OPTION_END]) with 1; offsets.
Qed.

(** What the search for code [c] over an area with the options [L] returns. *)
Definition finds (buf : list Z) (c : Z) (L : list dopt) (r : res (option Z)) : Prop :=
  (Forall (λ o, o.1 ≠ c) L ∧ r = Ok None) ∨ (∃ o p, o ∈ L ∧ o.1 = c ∧ r = Ok (Some p) ∧ bytes_at buf p (opt_bytes o)).

Lemma finds_area buf a n L c :
  Forall ok_opt L → bytes_at buf a (enc L ++ [OPTION_END]) → zlen (enc L) < n → 1 ≤ c ≤ 254 →
  finds buf c L (option_find1 buf a (a + n) c 0).
Proof.
  intros HL HbL Hn Hc. destruct (option_find1_enc L buf a (a + n) c 0 HL HbL) as [[Hnm E]|(L1 & o & L2 & -> & _ & [Ho _] & E)];
    [lia|unfold OPTION_END; lia|left|right].
  - split; [|done]. eapply Forall_impl; [exact Hnm|]. intros o Hm Ho. apply Hm. split; [done|apply zlen_nonneg].
  - eexists o, _. split; [set_solver|]. split; [done|]. split; [exact E|]. by eapply option_at.
Qed.

Lemma finds_field buf a n bits m F c :
  (if bit bits m then ∃ L, F = Some L ∧ Forall ok_opt L ∧ bytes_at buf a (enc L ++ [OPTION_END]) ∧ zlen (enc L) < n
   else F = Some [] ∨ F = None) → 1 ≤ c ≤ 254 →
  finds buf c (default [] F) (if bit bits m then option_find1 buf a (a + n) c 0 else Ok None).
Proof.
  intros HF Hc. destruct (bit bits m).
  - destruct HF as (L & -> & HL & HbL & Hn). by apply finds_area.
  - left. split; [|done]. destruct HF as [-> | ->]; constructor.
Qed.

(** The overload option as the reader sees it. *)
Lemma finished_overload buf size O1 O2 bits F S :
  finished buf size O1 O2 bits F S →
  match bits with
  | None => option_find1 buf first_option size OPTION_OVERLOAD 1 = Ok None
  | Some b => ∃ o, option_find1 buf first_option size OPTION_OVERLOAD 1 = Ok (Some o) ∧ rd buf (o + 2) = Ok b
  end.
Proof.
  intros [Hb Hsz Hok Hno _ _].
  destruct (option_find1_enc _ buf first_option size OPTION_OVERLOAD 1 Hok Hb) as [[Hnm E]|(L1 & [oc d] & L2 & EL & Hnm & [Ho Hlen] & E)];
    [lia|done| |]; destruct bits as [b|]; cbn [with_overload] in *; try done.
  - rewrite Forall_app, Forall_cons in Hnm. destruct Hnm as (_ & Hnm & _). exfalso. by apply Hnm.
  - eexists. split; [exact E|]. simpl in Ho. subst oc. assert (L1 = O1 ∧ d = [b]) as [-> ->].
    { apply Forall_app in Hno as [Hno1 Hno2]. clear -EL Hnm Hno1 Hno2 Hlen.
      revert L1 EL Hnm. induction Hno1 as [|x O1 Hx _ IH]; intros [|y L1] EL Hnm; simplify_eq/=; try done.
      - exfalso. apply Forall_cons in Hnm as [Hnm _]. apply Hnm. split; done.
      - apply Forall_cons in Hnm as [_ Hnm]. destruct (IH L1) as [-> ->]; done. }
    apply option_at in Hb. unfold opt_bytes in Hb. cbn [fst snd] in Hb. rewrite !bytes_at_cons in Hb.
    destruct Hb as (_ & _ & _ & _ & _ & Hbit & _). by rewrite <- Z.add_assoc in Hbit.
  - exfalso. rewrite EL in Hno. apply Forall_app in Hno as [_ Hno]. by apply Forall_cons in Hno as [Hno _].
Qed.

(** The search in a finished reply. *)
Lemma option_find_finished buf size O1 O2 bits F S c :
  finished buf size O1 O2 bits F S → 1 ≤ c ≤ 254 → c ≠ OPTION_OVERLOAD →
  finds buf c (contents O1 O2 F S) (option_find buf size c 0).
Proof.
  intros Hfi Hc Hco. pose proof (finished_overload _ _ _ _ _ _ _ Hfi) as Hov. destruct Hfi as [Hb Hsz Hok Hno HF HS]. unfold option_find, contents.
  pose proof (finds_area buf first_option (size - first_option) _ c Hok Hb ltac:(lia) Hc) as Hfo.
  replace (first_option + (size - first_option)) with size in Hfo by lia.
  destruct Hfo as [[Hn ->]|(o & p & Ho & Hoc & -> & Hp)]; cbn [mbind res_bind].
  2: { right. exists o, p. split_and!; try done. destruct bits; cbn [with_overload] in Ho; set_solver. }
  assert (Forall (λ o, o.1 ≠ c) (O1 ++ O2)) as Hn12.
  { destruct bits; cbn [with_overload] in Hn; [|done]. rewrite Forall_app, Forall_cons in Hn. apply Forall_app. tauto. }
  apply Forall_app in Hn12 as [Hn1 Hn2]. destruct bits as [b|].
  - destruct Hov as (o & -> & Hbit). cbn [mbind res_bind]. rewrite Hbit. cbn [mbind res_bind].
    pose proof (finds_field _ _ _ _ _ _ c HF Hc) as Hf1. pose proof (finds_field _ _ _ _ _ _ c HS Hc) as Hf2. cbn [bit] in Hf1, Hf2.
    destruct Hf1 as [[Hnf ->]|(x & p & Hof & Hoc & -> & Hp)]; cbn [mbind res_bind].
    + destruct Hf2 as [[Hns ->]|(x & p & Hos & Hoc & -> & Hp)].
      * left. split; [|done]. rewrite !Forall_app. tauto.
      * right. exists x, p. split_and!; try done. set_solver.
    + right. exists x, p. split_and!; try done. set_solver.
  - rewrite Hov. cbn [mbind res_bind bit] in *. left. split; [|done]. rewrite !Forall_app. split; [done|]. split; [done|].
    destruct HF as [-> | ->], HS as [-> | ->]; split; constructor.
Qed.

(** * Building a reply *)

Inductive reply_op :=
| Put (opt len val : Z)
| PutString (opt : Z) (string : cstring) (null_term : bool).

Definition run_op (mess : list Z) (end_ : Z) (op : reply_op) : res (list Z) :=
  match op with
  | Put opt len val => option_put mess end_ opt len val
  | PutString opt string null_term => option_put_string mess end_ opt string null_term
  end.

(** The option an operation is to add. *)
Definition op_bytes (op : reply_op) : list Z :=
  match op with
  | Put _ len val => val_bytes (Z.to_nat len) val
  | PutString _ string null_term => if null_term && negb (strlen string =? 255) then string ++ [0] else string
  end.
Definition op_option (op : reply_op) : dopt :=
  (match op with Put opt _ _ => opt | PutString opt _ _ => opt end, u8 <$> op_bytes op).

(** Numbers are at most 32 bits wide, strings fit an option. *)
Definition op_ok (op : reply_op) : Prop :=
  match op with Put _ len _ => 0 ≤ len ≤ 4 | PutString _ string _ => strlen string ≤ 255 end ∧
  1 ≤ (op_option op).1 ≤ 254 ∧ (op_option op).1 ≠ OPTION_OVERLOAD.

Lemma val_bytes_length n val : length (val_bytes n val) = n.
Proof. unfold val_bytes. by rewrite length_fmap, length_seq. Qed.

Lemma run_op_put mess end_ op : op_ok op → run_op mess end_ op = put_data mess end_ (op_option op).1 (op_bytes op).
Proof.
  intros [Hk _]. destruct op as [opt len val|opt string nt]; [|done].
  simpl. unfold option_put, put_data. unfold zlen. rewrite val_bytes_length. by rewrite Z2Nat.id by lia.
Qed.

Lemma op_bytes_length op : op_ok op → zlen (op_bytes op) ≤ 255.
Proof.
  intros [Hk _]. destruct op as [opt len val|opt string nt]; simpl.
  - unfold zlen. rewrite val_bytes_length. lia.
  - unfold strlen in *. destruct nt; simpl; [|lia]. destruct (Z.eqb_spec (zlen string) 255); simpl; [lia|]. rewrite zlen_snoc. lia.
Qed.

(** A packet cleared up to [lim], the options put, the last three bytes kept for
    the overload option, and the end marks set. *)
Definition build_reply (mess : list Z) (lim : Z) (ops : list reply_op) : res (list Z * Z) :=
  mess ← clear_packet mess lim;
  mess ← foldl (λ r op, m ← r; run_op m (lim - 3) op) (Ok mess) ops;
  dhcp_packet_size mess None lim.

Lemma bytes_at_any buf a n : 0 ≤ a → a + Z.of_nat n ≤ zlen buf → ∃ l, length l = n ∧ bytes_at buf a l.
Proof.
  intros Ha Hn. exists (take n (drop (Z.to_nat a) buf)). unfold zlen in Hn. split; [rewrite length_take, length_drop; lia|].
  split; [done|]. intros i x Hi. apply lookup_take_Some in Hi as [Hi ?]. rewrite lookup_drop in Hi. apply rd_Ok. split; [lia|].
  by replace (Z.to_nat (a + Z.of_nat i)) with (Z.to_nat a + i)%nat by lia.
Qed.

(** A run of zeros stored. *)
Lemma put_zeros buf a n :
  0 ≤ a → a + Z.of_nat n ≤ zlen buf →
  ∃ buf', put_bytes buf a (repeat 0 n) = Ok buf' ∧ bytes_at buf' a (repeat 0 n) ∧ keeps buf buf' a (Z.of_nat n).
Proof.
  intros Ha Hn. destruct (bytes_at_any buf a n Ha Hn) as (l & Hl & Hb).
  destruct (put_bytes_run (repeat 0 n) buf a l Hb) as (buf' & E & Hb' & Hz & Hk); [by rewrite repeat_length|].
  assert (u8 <$> repeat 0 n = repeat 0 n) as Eu by (clear; induction n as [|n IH]; [done|]; cbn [repeat fmap list_fmap]; by f_equal).
  rewrite Eu in Hb'. exists buf'. split; [done|]. split; [done|]. split; [done|]. unfold zlen in Hk. by rewrite repeat_length in Hk.
Qed.

Lemma area_empty buf a n : 0 < n → bytes_at buf a (repeat 0 (Z.to_nat n)) → area buf a n [].
Proof.
  intros Hn Hb. split; [constructor|]. exists (Z.to_nat n - 1)%nat. change (enc []) with (@nil Z). change (zlen (@nil Z)) with 0. cbn [app].
  replace (S (Z.to_nat n - 1)) with (Z.to_nat n) by lia. split; [lia|done].
Qed.

Lemma clear_packet_spec mess lim :
  first_option + 3 < lim ≤ zlen mess →
  ∃ buf, clear_packet mess lim = Ok buf ∧ building buf lim [] [] None (Some []) (Some []) ∧ zlen buf = zlen mess.
Proof.
  intros Hlim. unfold clear_packet, off_siaddr.
  destruct (put_zeros mess off_sname (Z.to_nat sizeof_sname)) as (b1 & -> & H1 & Hk1); [offsets..|]. cbn [mbind res_bind].
  destruct (put_zeros b1 off_file (Z.to_nat sizeof_file)) as (b2 & -> & H2 & Hk2); [offsets|rewrite (proj1 Hk1); offsets|]. cbn [mbind res_bind].
  destruct (put_zeros b2 first_option (Z.to_nat (lim - first_option))) as (b3 & -> & H3 & Hk3); [offsets|rewrite (proj1 Hk2), (proj1 Hk1); offsets|]. cbn [mbind res_bind].
  destruct (put_zeros b3 20 4) as (b4 & -> & _ & Hk4); [lia|rewrite (proj1 Hk3), (proj1 Hk2), (proj1 Hk1); offsets|].
  apply area_empty in H1, H2, H3; [|offsets..].
  assert (area b4 off_sname sizeof_sname []) as Hs.
  { eapply area_keeps; [exact Hk4|offsets|]. eapply area_keeps; [exact Hk3|offsets|]. eapply area_keeps; [exact Hk2|offsets|done]. }
  assert (area b4 off_file sizeof_file []) as Hf.
  { eapply area_keeps; [exact Hk4|offsets|]. eapply area_keeps; [exact Hk3|offsets|done]. }
  assert (area b4 first_option (lim - first_option) []) as Ho by (eapply area_keeps; [exact Hk4|offsets|done]).
  exists b4. split; [done|]. split; [|destruct Hk1, Hk2, Hk3, Hk4; congruence].
  split; simpl; try done; [change (zlen (enc [])) with 0; lia|constructor|split; [done|]; split; [done|constructor]..].
Qed.

(** What the operations left in the packet: a part of the options in order. *)
Lemma contents_placed x O1 O2 F S O1' O2' F' S' :
  placed x (O1 ++ O2) F S (O1' ++ O2') F' S' →
  contents O1' O2' F' S' ≡ₚ contents O1 O2 F S ++ [x] ∨ contents O1' O2' F' S' = contents O1 O2 F S.
Proof.
  unfold contents. rewrite !app_assoc.
  intros [(-> & -> & ->)|[(-> & (L & -> & ->) & ->)|[(-> & -> & L & -> & ->)|(-> & -> & ->)]]]; simpl; [left|left|left|by right].
  - rewrite <- !app_assoc. do 2 apply Permutation_app_head. rewrite (app_assoc (default [] F)). apply Permutation_app_comm.
  - rewrite <- !app_assoc. do 3 apply Permutation_app_head. apply Permutation_app_comm.
  - by rewrite <- !app_assoc.
Qed.

Lemma run_ops_spec buf lim ops :
  building buf lim [] [] None (Some []) (Some []) → Forall op_ok ops →
  ∃ buf' O1 O2 bits F S kept,
    foldl (λ r op, m ← r; run_op m (lim - 3) op) (Ok buf) ops = Ok buf' ∧ building buf' lim O1 O2 bits F S ∧
    contents O1 O2 F S ≡ₚ kept ∧ kept `sublist_of` (op_option <$> ops) ∧
    (first_option + zlen (enc (op_option <$> ops)) + 1 < lim - 3 → O1 ++ O2 = op_option <$> ops ∧ bits = None ∧ kept = op_option <$> ops).
Proof.
  intros Hbd. induction ops as [|op ops IH] using rev_ind; intros Hok.
  { exists buf, [], [], None, (Some []), (Some []), []. split; [done|]. split; [done|]. split; [done|]. split; [apply sublist_nil|]. done. }
  apply Forall_snoc in Hok as [Hok Hop].
  destruct (IH Hok) as (b1 & O1 & O2 & bits & F & S & kept & E & Hb1 & Hc & Hsub & Hall). clear IH.
  rewrite foldl_app. cbn [foldl]. rewrite E. cbn [mbind res_bind]. rewrite run_op_put by done.
  pose proof (op_bytes_length op Hop) as Hlen. destruct Hop as (_ & Hcode & Hov).
  destruct (put_data_spec b1 lim (lim - 3) O1 O2 bits F S _ (op_bytes op) Hb1 Hcode Hov Hlen ltac:(lia))
    as (b2 & O1' & O2' & bits' & F' & S' & -> & Hb2 & Hpl & Hfits).
  change ((op_option op).1, u8 <$> op_bytes op) with (op_option op) in *. rewrite fmap_app. cbn [fmap list_fmap].
  assert (first_option + zlen (enc ((op_option <$> ops) ++ [op_option op])) + 1 < lim - 3 →
          O1' ++ O2' = (op_option <$> ops) ++ [op_option op] ∧ bits' = None ∧ kept = op_option <$> ops ∧
          length (contents O1' O2' F' S') ≠ length (contents O1 O2 F S)) as Hall'.
  { rewrite enc_app, zlen_app. change (enc [op_option op]) with (opt_bytes (op_option op) ++ []). rewrite app_nil_r, zlen_opt. intros Hl.
    assert (zlen (op_option op).2 = zlen (op_bytes op)) as Ez by (unfold zlen, op_option; simpl; by rewrite length_fmap).
    pose proof (zlen_nonneg (op_bytes op)). destruct Hall as (EO & -> & Ek); [lia|]. cbn [with_overload] in Hfits. rewrite EO in Hfits.
    destruct Hfits as (EO' & -> & -> & ->); [lia|]. rewrite EO'. split_and!; try done. apply (f_equal length) in EO', EO. unfold contents. rewrite !length_app in *. simpl in *. lia. }
  destruct (contents_placed _ _ _ _ _ _ _ _ _ Hpl) as [Hp|Hp].
  - exists b2, O1', O2', bits', F', S', (kept ++ [op_option op]). split; [done|]. split; [done|]. split; [by rewrite Hp, Hc|].
    split; [by apply sublist_app|]. intros Hl. by destruct (Hall' Hl) as (? & ? & -> & _).
  - exists b2, O1', O2', bits', F', S', kept. split; [done|]. split; [done|]. split; [by rewrite Hp|].
    split; [by apply sublist_inserts_r|]. intros Hl. exfalso. destruct (Hall' Hl) as (_ & _ & _ & Hne). by rewrite Hp in Hne.
Qed.

Lemma area_fits buf a n L : area buf a n L → a + n ≤ zlen buf.
Proof.
  intros (_ & z & <- & Hb). apply bytes_at_fits in Hb; [|by destruct (enc L)]. rewrite zlen_app in Hb.
  unfold zlen at 2 in Hb. rewrite repeat_length in Hb. lia.
Qed.

Lemma NoDup_fst_eq (l : list dopt) x y : NoDup (l.*1) → x ∈ l → y ∈ l → x.1 = y.1 → x = y.
Proof.
  intros Hnd Hx Hy E. apply list_elem_of_lookup in Hx as [i Hi], Hy as [j Hj].
  assert (i = j) as ->; [|congruence]. eapply NoDup_lookup; [exact Hnd|by rewrite list_lookup_fmap, Hi|by rewrite list_lookup_fmap, Hj, E].
Qed.

(** C23. What is put into a reply is found in it: on any cleared packet, and any
    sequence of numbers and strings put with different codes, the construction
    stays inside the packet and ends with a packet in which the search that
    clients (and this server) use finds exactly the options that were kept, with
    their data, whether they are in the option area or have overflowed into the
    file or server name fields; the others are reported missing, and all are
    kept when they fit in the option area. *)
Theorem dhcp_options_round_trip mess lim ops :
  MIN_PACKETSZ ≤ lim ≤ zlen mess → Forall op_ok ops → NoDup ((op_option <$> ops).*1) →
  ∃ buf size kept, build_reply mess lim ops = Ok (buf, size) ∧ size ≤ lim ≤ zlen buf ∧
    kept `sublist_of` (op_option <$> ops) ∧
    (∀ o, o ∈ (op_option <$> ops) →
       (o ∈ kept ∧ ∃ p, option_find buf size o.1 0 = Ok (Some p) ∧ bytes_at buf p (opt_bytes o)) ∨
       ((o ∉ kept) ∧ option_find buf size o.1 0 = Ok None)) ∧
    (first_option + zlen (enc (op_option <$> ops)) + 1 < lim - 3 → kept = op_option <$> ops).
Proof.
  intros Hlim Hok Hnd. unfold build_reply.
  destruct (clear_packet_spec mess lim) as (b0 & -> & Hb0 & Hz0); [unfold MIN_PACKETSZ in Hlim; offsets|]. cbn [mbind res_bind].
  destruct (run_ops_spec b0 lim ops Hb0 Hok) as (b1 & O1 & O2 & bits & F & S & kept & E & Hb1 & Hc & Hsub & Hall). rewrite E. cbn [mbind res_bind].
  destruct (packet_size_spec b1 lim O1 O2 bits F S lim Hb1) as (b2 & size & -> & Hfi & Hsize & Hz2).
  exists b2, size, kept. split; [done|]. split; [|split; [done|]].
  { rewrite Hsize, Hz2. pose proof (bd_room _ _ _ _ _ _ _ Hb1). pose proof (area_fits _ _ _ _ (bd_opts _ _ _ _ _ _ _ Hb1)). destruct bits; lia. }
  split; [|intros Hl; by apply Hall]. intros o Ho.
  assert (∃ op, o = op_option op ∧ op_ok op) as (op & -> & _ & Hcode & Hov).
  { apply list_elem_of_fmap in Ho as (op & -> & Hop). rewrite Forall_forall in Hok. eauto. }
  assert (∀ x, x ∈ contents O1 O2 F S ↔ x ∈ kept) as Hin by (intros x; by rewrite Hc).
  destruct (option_find_finished _ _ _ _ _ _ _ _ Hfi Hcode Hov) as [[Hn Ef]|(x & p & Hx & Hxc & Ef & Hp)]; [right|left].
  - split; [|done]. rewrite <- Hin. intros Hin'. rewrite Forall_forall in Hn. by apply (Hn _ Hin').
  - apply Hin in Hx. assert (x = op_option op) as ->; [|split; [exact Hx|exists p; split; [exact Ef|exact Hp]]].
    eapply NoDup_fst_eq; [exact Hnd|by eapply sublist_subseteq|done|done].
Qed.

(** A message type and a host name with its terminator. *)
Lemma dhcp_options_round_trip_witness :
  ∃ buf size kept, build_reply (repeat 1 548) 548 [Put 53 1 5; PutString 12 [104; 105] true] = Ok (buf, size) ∧ size ≤ 548 ≤ zlen buf ∧
    kept `sublist_of` [(53, [5]); (12, [104; 105; 0])] ∧
    (∀ o, o ∈ [(53, [5]); (12, [104; 105; 0])] →
       (o ∈ kept ∧ ∃ p, option_find buf size o.1 0 = Ok (Some p) ∧ bytes_at buf p (opt_bytes o)) ∨
       ((o ∉ kept) ∧ option_find buf size o.1 0 = Ok None)) ∧
    (first_option + zlen (enc [(53, [5]); (12, [104; 105; 0])]) + 1 < 548 - 3 → kept = [(53, [5]); (12, [104; 105; 0])]).
Proof.
  apply (dhcp_options_round_trip (repeat 1 548) 548 [Put 53 1 5; PutString 12 [104; 105] true]).
  - unfold MIN_PACKETSZ, zlen. rewrite repeat_length. lia.
  - unfold op_ok, OPTION_OVERLOAD, strlen, zlen. repeat constructor; simpl; lia.
  - simpl. repeat constructor; set_solver.
Defined.

(** * The search on arbitrary packets *)

Definition in_packet (buf : list Z) (end_ opt minsize q : Z) : Prop :=
  rd buf q = Ok opt ∧
  (opt ≠ OPTION_END → ∃ len, rd buf (q + 1) = Ok len ∧ 0 ≤ len ∧ minsize ≤ len ∧ q + 2 + len ≤ end_).

Lemma find1_loop_safe fuel buf p end_ opt minsize :
  Forall is_byte buf → 0 ≤ p → end_ ≤ zlen buf → Z.max 0 (end_ - p) < Z.of_nat fuel →
  twp (find1_loop fuel buf p end_ opt minsize) (λ r, match r with Some q => p ≤ q ∧ in_packet buf end_ opt minsize q | None => True end).
Proof.
  intros Hb. revert p. induction fuel as [|fuel IH]; intros p Hp He Hf; [lia|]. cbn [find1_loop].
  twp_step; [done|]. bool_hyps. twp_step. apply twp_rd; [lia|]. intros b Eb _.
  twp_step. { destruct (Z.eqb_spec opt OPTION_END) as [->|]; cbn; [|done]. bool_hyps. subst b. split; [lia|]. by split. }
  twp_step. { eapply twp_mono; [apply IH; lia|]. intros [q|]; [|done]. intros [? ?]. split; [lia|done]. }
  twp_step; [done|]. bool_hyps. twp_step. apply twp_rd; [lia|]. intros len El Hin. rewrite Forall_forall in Hb. pose proof (Hb len Hin) as Hlen. unfold is_byte in Hlen.
  twp_step; [done|]. twp_step.
  - bool_hyps. subst b. cbn. split; [lia|]. split; [done|]. intros _. exists len. split_and!; [done|lia..].
  - bool_hyps. eapply twp_mono; [apply IH; lia|]. intros [q|]; [|done]. intros [? ?]. split; [lia|done].
Qed.

Lemma option_find1_safe buf p end_ opt minsize :
  Forall is_byte buf → 0 ≤ p → end_ ≤ zlen buf →
  twp (option_find1 buf p end_ opt minsize) (λ r, match r with Some q => p ≤ q ∧ in_packet buf end_ opt minsize q | None => True end).
Proof. intros. apply find1_loop_safe; try done. lia. Qed.

(** C36. The search for an option is safe on any packet that has the fixed
    header: it terminates, reads only inside the packet, and an option it
    returns has the code asked for, at least the length asked for, and all of
    its data inside the packet, so that option_addr and option_uint read inside
    it. *)
Theorem option_find_safe buf size opt minsize :
  Forall is_byte buf → off_options ≤ zlen buf → size ≤ zlen buf → opt ≠ OPTION_END →
  ∃ r, option_find buf size opt minsize = Ok r ∧
    ∀ q, r = Some q → rd buf q = Ok opt ∧ ∃ len, rd buf (q + 1) = Ok len ∧ minsize ≤ len ∧ q + 2 + len ≤ zlen buf ∧
      (4 ≤ minsize → ∃ a, option_addr buf q = Ok a) ∧
      (∀ offset n, 0 ≤ offset → offset + Z.of_nat n ≤ minsize → ∃ v, option_uint buf q offset n = Ok v).
Proof.
  intros Hb Hl Hs Ho.
  assert (∀ p end_ o m, 0 ≤ p → end_ ≤ zlen buf → twp (option_find1 buf p end_ o m)
    (λ r, match r with Some q => 0 ≤ q ∧ in_packet buf (zlen buf) o m q | None => True end)) as Hf.
  { intros p end_ o m Hp He. eapply twp_mono; [by apply option_find1_safe|]. intros [q|]; [|done]. intros [? [? Hin]]. split; [lia|]. split; [done|].
    intros Hne. destruct (Hin Hne) as (len & ? & ? & ? & ?). exists len. split_and!; [done|lia..]. }
  assert (twp (option_find buf size opt minsize) (λ r, match r with Some q => 0 ≤ q ∧ in_packet buf (zlen buf) opt minsize q | None => True end)) as H.
  { unfold option_find. unfold off_options in Hl. twp_step. eapply twp_mono; [apply Hf; [unfold first_option; lia|done]|]. intros [q|] Hq; [done|].
    twp_step. eapply twp_mono; [apply Hf; [unfold first_option; lia|done]|]. intros [o|] Hq1; [|done].
    destruct Hq1 as (? & _ & Hq1). destruct (Hq1 ltac:(done)) as (len & ? & ? & ? & ?). twp_step. apply twp_rd; [lia|]. intros bits _ _. twp_step.
    eapply twp_mono; [twp_step; [apply Hf; offsets|done]|]. intros [q|] Hq2; [done|]. twp_step; [apply Hf; offsets|done]. }
  apply twp_ok in H as (r & -> & H). exists r. split; [done|]. intros q ->. destruct H as (Hq & Hc & Hin). split; [done|].
  destruct (Hin Ho) as (len & El & ? & ? & ?). exists len. split; [done|]. split; [done|]. split; [done|].
  assert (∀ p n, 0 ≤ p → p + Z.of_nat n ≤ zlen buf → ∃ l, read_bytes buf p n = Ok l) as Hrd.
  { intros p n Hp Hn. destruct (bytes_at_any buf p n Hp Hn) as (l & <- & Hb'). exists l. by apply read_bytes_at. }
  split.
  - intros H4. apply Hrd; lia.
  - intros offset n Hof Hn. unfold option_uint. destruct (Hrd (q + 2 + offset) n) as (l & ->); [lia..|]. cbn [mbind res_bind]. eauto.
Qed.

Lemma option_find_safe_witness :
  ∃ r, option_find (repeat 1 240 ++ [53; 1; 5; 255]) 244 53 1 = Ok r ∧
    ∀ q, r = Some q → rd (repeat 1 240 ++ [53; 1; 5; 255]) q = Ok 53 ∧
      ∃ len, rd (repeat 1 240 ++ [53; 1; 5; 255]) (q + 1) = Ok len ∧ 1 ≤ len ∧ q + 2 + len ≤ zlen (repeat 1 240 ++ [53; 1; 5; 255]) ∧
        (4 ≤ 1 → ∃ a, option_addr (repeat 1 240 ++ [53; 1; 5; 255]) q = Ok a) ∧
        (∀ offset n, 0 ≤ offset → offset + Z.of_nat n ≤ 1 → ∃ v, option_uint (repeat 1 240 ++ [53; 1; 5; 255]) q offset n = Ok v).
Proof.
  apply (option_find_safe (repeat 1 240 ++ [53; 1; 5; 255]) 244 53 1); [|vm_compute; discriminate|vm_compute; discriminate|discriminate].
  apply Forall_app. split; [apply Forall_forall; intros x Hx; apply list_elem_of_In, repeat_spec in Hx; subst; unfold is_byte; lia|].
  unfold is_byte. repeat constructor; lia.
Defined.

(** Encapsulated options that take exactly 255 bytes are stored with the end
    mark as 256, which the length byte holds as 0: a reader takes their data for
    options. *)
Lemma encapsulated_length_wraps :
  (m ← clear_packet (repeat 0 1000) 1000;
   '(m, _) ← do_encap_opts [DhcpOption 1 125 1024 (Some (repeat 7 125)); DhcpOption 2 126 1024 (Some (repeat 7 126))] 43 1024 m 997 false;
   read_bytes m first_option 5) = Ok [43; 0; 1; 125; 7].
Proof. vm_compute. reflexivity. Qed.
