(* ===== verification/Outpacket.v ===== *)
(** The buffer in which DHCPv6 packets are built (src/src/outpacket.c), with the
    growing buffer of src/src/util.c.

    The buffer has a generation, which changes when it is moved to new memory:
    a pointer into it is a generation and an offset, and using a pointer of an
    older generation is [Oob]. What malloc gives is read off [o_mem], in turn;
    there is memory when the list has ended. *)
From S2P Require Import Prelude Hostname Wire WireExt DhcpOpt.

(** daemon->outpacket and outpacket_counter. *)
Record outpacket := Out { o_base : list Z; o_counter : Z; o_gen : Z; o_mem : list bool }.
Definition with_base (o : outpacket) (b : list Z) : outpacket := Out b (o_counter o) (o_gen o) (o_mem o).

(** Memory from whine_malloc is zeroed. *)
Definition expand_buf (o : outpacket) (size : Z) : bool * outpacket :=
  if size <=? zlen (o_base o) then (true, o)
  else
    let grown ms := Out (o_base o ++ replicate (Z.to_nat (size - zlen (o_base o))) 0) (o_counter o) (o_gen o + 1) ms in
    match o_mem o with
    | false :: ms => (false, Out (o_base o) (o_counter o) (o_gen o) ms)
    | true :: ms => (true, grown ms)
    | [] => (true, grown [])
    end.

Definition save_counter (o : outpacket) (newval : Z) : Z * outpacket :=
  (o_counter o, if newval =? -1 then o else Out (o_base o) newval (o_gen o) (o_mem o)).

Definition reset_counter (o : outpacket) : outpacket :=
  (save_counter (with_base o (replicate (length (o_base o)) 0)) 0).2.

(** A pointer to the room and the counter moved behind it. *)
Definition expand (o : outpacket) (headroom : Z) : option (Z * Z) * outpacket :=
  let '(ok, o) := expand_buf o (o_counter o + headroom) in
  if ok then (Some (o_gen o, o_counter o), Out (o_base o) (o_counter o + headroom) (o_gen o) (o_mem o)) else (None, o).

(** Stores through a pointer. *)
Definition store_at (o : outpacket) (p : Z * Z) (off : Z) (bs : list Z) : res outpacket :=
  if negb (p.1 =? o_gen o) then Oob else b ← put_bytes (o_base o) (p.2 + off) bs; Ok (with_base o b).

Definition new_opt6 (o : outpacket) (opt : Z) : res (Z * outpacket) :=
  let ret := o_counter o in
  let '(p, o) := expand o 4 in
  match p with
  | Some p => o ← store_at o p 0 (short_bytes opt); o ← store_at o p 2 (short_bytes 0); Ok (ret, o)
  | None => Ok (ret, o)
  end.

(** The length that is written is that of the option when it is finished. *)
Definition end_opt6 (o : outpacket) (container : Z) : res outpacket :=
  store_at o (o_gen o, container + 2) 0 (short_bytes (u16 (o_counter o - container - 4))).

(** [data] is NULL or an address in a buffer. *)
Definition put_opt6 (o : outpacket) (data : option (list Z * Z)) (len : Z) : res (option (Z * Z) * outpacket) :=
  let '(p, o) := expand o len in
  match p, data with
  | Some p, Some (buf, at_) => bs ← read_bytes buf at_ (Z.to_nat len); o ← store_at o p 0 bs; Ok (Some p, o)
  | p, _ => Ok (p, o)
  end.

Definition put_opt6_long (o : outpacket) (val : Z) : res outpacket :=
  let '(p, o) := expand o 4 in match p with Some p => store_at o p 0 (long_bytes val) | None => Ok o end.
Definition put_opt6_short (o : outpacket) (val : Z) : res outpacket :=
  let '(p, o) := expand o 2 in match p with Some p => store_at o p 0 (short_bytes val) | None => Ok o end.
Definition put_opt6_char (o : outpacket) (val : Z) : res outpacket :=
  let '(p, o) := expand o 1 in match p with Some p => store_at o p 0 [val] | None => Ok o end.
Definition put_opt6_string (o : outpacket) (s : cstring) : res outpacket :=
  '(_, o) ← put_opt6 o (Some (s, 0)) (strlen s); Ok o.

(** * What has been written *)

(** The buffer holds [bs] up to the counter and there is memory. *)
Definition holds (o : outpacket) (bs : list Z) : Prop := o_counter o = zlen bs ∧ o_mem o = [] ∧ ∃ rest, o_base o = bs ++ rest.

Lemma expand_holds o bs n :
  holds o bs → 0 ≤ n → ∃ o' room rest, expand o n = (Some (o_gen o', zlen bs), o') ∧ o_base o' = bs ++ room ++ rest ∧ zlen room = n ∧
    o_counter o' = zlen bs + n ∧ o_mem o' = [] ∧ (n ≤ zlen (o_base o) - zlen bs → o_gen o' = o_gen o).
Proof.
  destruct o as [b c g m]. intros (Ec & Em & r & Eb) Hn. cbn in Ec, Em, Eb. subst b c m. unfold expand, expand_buf. cbn [o_gen o_counter o_base o_mem].
  pose proof (zlen_nonneg r). pose proof (zlen_nonneg bs). destruct (Z.leb_spec (zlen bs + n) (zlen (bs ++ r))) as [Hl|Hl]; cbn [o_gen o_counter o_base o_mem]; rewrite zlen_app in Hl.
  - exists (Out (bs ++ r) (zlen bs + n) g []), (take (Z.to_nat n) r), (drop (Z.to_nat n) r). split; [reflexivity|]. cbn [o_base o_counter o_mem o_gen]. rewrite take_drop. split_and!; try done.
    unfold zlen in *. rewrite length_take. lia.
  - set (z := replicate _ 0). exists (Out ((bs ++ r) ++ z) (zlen bs + n) (g + 1) []), (r ++ z), []. split; [reflexivity|]. cbn [o_base o_counter o_mem o_gen]. rewrite app_nil_r, app_assoc.
    assert (zlen z = zlen bs + n - zlen (bs ++ r)) as Hz by (unfold z; rewrite zlen_app; unfold zlen in *; rewrite length_replicate; lia).
    rewrite zlen_app in Hz. split_and!; try done; rewrite !zlen_app; lia.
Qed.

Lemma store_holds o bs room rest p data :
  o_base o = bs ++ room ++ rest → zlen room = zlen data → p = (o_gen o, zlen bs) → Forall is_byte data →
  store_at o p 0 data = Ok (with_base o (bs ++ data ++ rest)).
Proof.
  intros Eb El -> Hd. unfold store_at. cbn [fst snd]. rewrite Z.eqb_refl. cbn [negb]. rewrite Z.add_0_r, Eb.
  by rewrite put_bytes_at.
Qed.

Lemma short_bytes_byte v : Forall is_byte (short_bytes v).
Proof. repeat constructor; apply u8_byte. Qed.
Lemma long_bytes_byte v : Forall is_byte (long_bytes v).
Proof. repeat constructor; apply u8_byte. Qed.
#[export] Hint Resolve short_bytes_byte long_bytes_byte : core.

(** Room that is filled at once. *)
Lemma append_holds o bs data :
  holds o bs → Forall is_byte data →
  ∃ o1 o2, expand o (zlen data) = (Some (o_gen o2, zlen bs), o1) ∧ store_at o1 (o_gen o2, zlen bs) 0 data = Ok o2 ∧ holds o2 (bs ++ data) ∧
    (zlen data ≤ zlen (o_base o) - zlen bs → o_gen o2 = o_gen o ∧ zlen (o_base o2) = zlen (o_base o)).
Proof.
  intros Hh Hd. destruct (expand_holds o bs (zlen data) Hh (zlen_nonneg data)) as (o1 & room & rest & E & Eb & El & Ec & Em & Hg).
  exists o1, (with_base o1 (bs ++ data ++ rest)). split; [exact E|]. split; [by apply (store_holds _ _ room)|]. split.
  - split_and!; cbn [with_base o_counter o_mem o_base]; [by rewrite Ec, zlen_app|done|]. exists rest. by rewrite app_assoc.
  - intros Hfit. split; [by apply Hg|]. cbn [with_base o_base]. pose proof Hh as (Hc & _ & r & Eb0).
    assert (o_base o1 = o_base o) as Eo.
    { unfold expand, expand_buf in E. rewrite Hc, (proj2 (Z.leb_le (zlen bs + zlen data) (zlen (o_base o)))) in E by lia. apply (f_equal snd) in E. cbn in E. by rewrite <- E. }
    rewrite <- Eo, Eb, !zlen_app. lia.
Qed.

(** The buffer has not been moved. *)
Definition kept (o o' : outpacket) (n : Z) : Prop := n ≤ zlen (o_base o) → o_gen o' = o_gen o ∧ zlen (o_base o') = zlen (o_base o).

Lemma put_opt6_holds o bs buf at_ data :
  holds o bs → read_bytes buf at_ (length data) = Ok data → Forall is_byte data →
  ∃ o', put_opt6 o (Some (buf, at_)) (zlen data) = Ok (Some (o_gen o', zlen bs), o') ∧ holds o' (bs ++ data) ∧ kept o o' (zlen bs + zlen data).
Proof.
  intros Hh Hr Hd. destruct (append_holds o bs data Hh Hd) as (o1 & o2 & E & Es & H2 & Hk). exists o2. unfold put_opt6. rewrite E.
  replace (Z.to_nat (zlen data)) with (length data) by (unfold zlen; lia). rewrite Hr. cbn [mbind res_bind]. rewrite Es. split; [done|]. split; [done|].
  intros Hf. apply Hk. lia.
Qed.

Lemma put_holds o bs data (f : outpacket → res outpacket) :
  (∀ o, f o = (let '(p, o) := expand o (zlen data) in match p with Some p => store_at o p 0 data | None => Ok o end)) →
  holds o bs → Forall is_byte data → ∃ o', f o = Ok o' ∧ holds o' (bs ++ data) ∧ kept o o' (zlen bs + zlen data).
Proof.
  intros Hf Hh Hd. destruct (append_holds o bs data Hh Hd) as (o1 & o2 & E & Es & H2 & Hk). exists o2. rewrite Hf, E. split; [done|]. split; [done|].
  intros H. apply Hk. lia.
Qed.
Lemma put_long_holds o bs v : holds o bs → ∃ o', put_opt6_long o v = Ok o' ∧ holds o' (bs ++ long_bytes v) ∧ kept o o' (zlen bs + 4).
Proof. intros H. by apply (put_holds o bs (long_bytes v) (λ o, put_opt6_long o v)). Qed.
Lemma put_short_holds o bs v : holds o bs → ∃ o', put_opt6_short o v = Ok o' ∧ holds o' (bs ++ short_bytes v) ∧ kept o o' (zlen bs + 2).
Proof. intros H. by apply (put_holds o bs (short_bytes v) (λ o, put_opt6_short o v)). Qed.

Lemma new_opt6_holds o bs opt :
  holds o bs → ∃ o', new_opt6 o opt = Ok (zlen bs, o') ∧ holds o' (bs ++ short_bytes opt ++ [0; 0]) ∧ kept o o' (zlen bs + 4).
Proof.
  intros Hh. pose proof Hh as (Hc & _ & r0 & Hr0). destruct (expand_holds o bs 4 Hh ltac:(lia)) as (o1 & room & rest & E & Eb & El & Ec & Em & Hg).
  unfold new_opt6. rewrite E, Hc. apply (zlen_inv _ 4) in El. destruct room as [|r1 [|r2 [|r3 [|r4 [|]]]]]; try done.
  pose proof (store_holds o1 bs [r1; r2] ([r3; r4] ++ rest) _ (short_bytes opt) Eb eq_refl eq_refl (short_bytes_byte opt)) as E1. rewrite E1. cbn [mbind res_bind].
  set (o2 := with_base o1 _). assert (store_at o2 (o_gen o1, zlen bs) 2 (short_bytes 0) = Ok (with_base o2 ((bs ++ short_bytes opt) ++ [0; 0] ++ rest))) as ->.
  { pose proof (store_holds o2 (bs ++ short_bytes opt) [r3; r4] rest (o_gen o2, zlen (bs ++ short_bytes opt)) (short_bytes 0)) as H. rewrite zlen_app in H.
    unfold store_at in H |- *. cbn [fst snd] in *. rewrite Z.add_0_r in H. change (zlen (short_bytes opt)) with 2 in H. apply H; try done. cbn [o2 with_base o_base].
    by rewrite <- app_assoc. }
  eexists. split; [reflexivity|]. split.
  - split_and!; cbn [o2 with_base o_counter o_mem o_base]; [|done|].
    + rewrite Ec, !zlen_app. change (zlen (short_bytes opt)) with 2. change (zlen [0; 0]) with 2. lia.
    + exists rest. by rewrite <- !app_assoc.
  - intros Hk. split; [apply Hg; lia|]. cbn [with_base o_base]. unfold expand, expand_buf in E. rewrite Hc, (proj2 (Z.leb_le (zlen bs + 4) (zlen (o_base o)))) in E by lia.
    apply (f_equal snd) in E. cbn in E. rewrite <- E in Eb. cbn [o_base] in Eb. rewrite Eb, !zlen_app. change (zlen [r1; r2; r3; r4]) with 4. change (zlen (short_bytes opt)) with 2. change (zlen [0; 0]) with 2. lia.
Qed.

Lemma end_opt6_holds o pre code c d data :
  holds o (pre ++ short_bytes code ++ [c; d] ++ data) → zlen data < 65536 →
  ∃ o', end_opt6 o (zlen pre) = Ok o' ∧ holds o' (pre ++ short_bytes code ++ short_bytes (zlen data) ++ data) ∧ o_gen o' = o_gen o ∧ zlen (o_base o') = zlen (o_base o).
Proof.
  intros (Hc & Hm & rest & Eb) Hl. unfold end_opt6. rewrite !zlen_app in Hc. change (zlen (short_bytes code)) with 2 in Hc. change (zlen [c; d]) with 2 in Hc.
  replace (o_counter o - zlen pre - 4) with (zlen data) by lia.
  assert (u16 (zlen data) = zlen data) as -> by (unfold u16; apply Z.mod_small; pose proof (zlen_nonneg data); lia).
  pose proof (store_holds o (pre ++ short_bytes code) [c; d] (data ++ rest) (o_gen o, zlen pre + 2) (short_bytes (zlen data))) as H.
  rewrite H; [|rewrite Eb, <- !app_assoc; done|done|by rewrite zlen_app|done]. eexists. split; [reflexivity|]. split.
  - split_and!; cbn [with_base o_counter o_mem o_base]; [|done|exists rest; by rewrite <- !app_assoc].
    rewrite !zlen_app. change (zlen (short_bytes code)) with 2. change (zlen (short_bytes (zlen data))) with 2. lia.
  - split; [done|]. cbn [with_base o_base]. rewrite Eb, !zlen_app. change (zlen (short_bytes (zlen data))) with 2. change (zlen [c; d]) with 2. lia.
Qed.

Lemma reset_holds o : o_mem o = [] → holds (reset_counter o) [] ∧ o_gen (reset_counter o) = o_gen o ∧ zlen (o_base (reset_counter o)) = zlen (o_base o).
Proof.
  intros Hm. unfold reset_counter, save_counter. cbn [snd]. change (0 =? -1) with false. cbv iota. split; [split_and!; [done|done|by eexists]|]. cbn [o_base with_base o_gen].
  unfold zlen. rewrite length_replicate. done.
Qed.

(** An option is ended whatever its length is. *)
Lemma end_opt6_any o pre a b c d data :
  holds o (pre ++ [a; b] ++ [c; d] ++ data) → ∃ o' k, end_opt6 o (zlen pre) = Ok o' ∧ zlen k = 2 ∧ holds o' (pre ++ [a; b] ++ k ++ data).
Proof.
  intros (Hc & Hm & rest & Eb). unfold end_opt6. set (v := u16 _).
  pose proof (store_holds o (pre ++ [a; b]) [c; d] (data ++ rest) (o_gen o, zlen pre + 2) (short_bytes v)) as H.
  rewrite H; [|rewrite Eb, <- !app_assoc; done|done|by rewrite zlen_app|done]. eexists _, (short_bytes v). split; [reflexivity|]. split; [done|].
  split_and!; cbn [with_base o_counter o_mem o_base]; [|done|exists rest; by rewrite <- !app_assoc]. rewrite Hc, !zlen_app. done.
Qed.
