(* ===== verification/Dhcp6.v ===== *)
(** DHCPv6 messages (src/src/rfc3315.c): options, identity associations, and
    the relaying of messages, as a server behind relays and as a relay.

    A message lies in a buffer from an offset on; reads past the end of the buffer
    are [Oob]. What the server answers to a message that is not relayed is an
    argument, as are the hardware address of a client and whether packets can
    be multicast; logging is left out. *)
From S2P Require Import Prelude Hostname Wire NetAddr DhcpOpt Outpacket.

Definition DHCP6REPLY : Z := 7.
Definition DHCP6RELAYFORW : Z := 12.
Definition DHCP6RELAYREPL : Z := 13.
Definition OPTION6_IA_NA : Z := 3.
Definition OPTION6_IA_TA : Z := 4.
Definition OPTION6_IAADDR : Z := 5.
Definition OPTION6_RELAY_MSG : Z := 9.
Definition OPTION6_IA_PD : Z := 25.
Definition OPTION6_IAPREFIX : Z := 26.
Definition OPTION6_REMOTE_ID : Z := 37.
Definition OPTION6_SUBSCRIBER_ID : Z := 38.
Definition OPTION6_CLIENT_MAC : Z := 79.
Definition DHCPV6_SERVER_PORT : Z := 547.
Definition DHCPV6_CLIENT_PORT : Z := 546.
Definition DHCP_CHADDR_MAX : Z := 16.

(** * Options *)

Fixpoint opt6_find_loop (fuel : nat) (buf : list Z) (opts end_ search minsize : Z) : res (option Z) :=
  match fuel with
  | O => NoFuel
  | S fuel =>
      if end_ - opts <? 4 then Ok None
      else
        '(opt, p) ← GETSHORT buf opts;
        '(opt_len, p) ← GETSHORT buf p;
        if end_ - p <? opt_len then Ok None
        else if (opt =? search) && (minsize <=? opt_len) then Ok (Some opts)
        else opt6_find_loop fuel buf (p + opt_len) end_ search minsize
  end.
(** Each turn moves on by at least 4. *)
Definition opt6_find (buf : list Z) (opts : option Z) (end_ search minsize : Z) : res (option Z) :=
  match opts with None => Ok None | Some opts => opt6_find_loop (S (Z.to_nat (end_ - opts))) buf opts end_ search minsize end.

Definition opt6_next (buf : list Z) (opts end_ : Z) : res (option Z) :=
  if end_ - opts <? 4 then Ok None
  else
    '(opt_len, p) ← GETSHORT buf (opts + 2);
    Ok (if end_ - p <=? opt_len then None else Some (p + opt_len)).

Definition opt6_ptr (opt i : Z) : Z := opt + 4 + i.
Definition opt6_uint (buf : list Z) (opt offset size : Z) : res Z :=
  bs ← read_bytes buf (opt6_ptr opt offset) (Z.to_nat size);
  Ok (foldl (λ ret b, Z.lor (u32 (Z.shiftl ret 8)) b) 0 bs).
Definition opt6_len (buf : list Z) (opt : Z) : res Z := opt6_uint buf opt (-2) 2.
Definition opt6_type (buf : list Z) (opt : Z) : res Z := opt6_uint buf opt (-4) 2.

(** * Identity associations *)

(** The type, the identifier, the end of the option and the first address in it. *)
Definition check_ia (buf : list Z) (opt : Z) : res (option (Z * Z * Z * option Z)) :=
  ty ← opt6_type buf opt;
  if negb (ty =? OPTION6_IA_NA) && negb (ty =? OPTION6_IA_TA) then Ok None
  else
    len ← opt6_len buf opt;
    if (ty =? OPTION6_IA_NA) && (len <? 12) then Ok None
    else if (ty =? OPTION6_IA_TA) && (len <? 4) then Ok None
    else
      iaid ← opt6_uint buf opt 0 4;
      a ← opt6_find buf (Some (opt6_ptr opt (if ty =? OPTION6_IA_NA then 12 else 4))) (opt6_ptr opt len) OPTION6_IAADDR 24;
      Ok (Some (ty, iaid, opt6_ptr opt len, a)).

(** The option and the place of its times, 0 when it has none. *)
Definition build_ia (o : outpacket) (ia_type iaid : Z) : res (Z * Z * outpacket) :=
  '(c, o) ← new_opt6 o ia_type;
  o ← put_opt6_long o iaid;
  if ia_type =? OPTION6_IA_NA then
    let '(t1cntr, o) := save_counter o (-1) in
    o ← put_opt6_long o 0; o ← put_opt6_long o 0; Ok (c, t1cntr, o)
  else Ok (c, 0, o).

Fixpoint halve (fuel : nat) (fuzz limit : Z) : Z :=
  match fuel with O => fuzz | S fuel => if limit <? fuzz then halve fuel (fuzz / 2) limit else fuzz end.
(** 16 halvings of a 16-bit number leave 0. *)
Definition fuzz_of (rand : option Z) (min_time : Z) : Z :=
  match rand with None => 0 | Some r => halve 17 (u16 r) (min_time / 16) end.
Definition ia_times (min_time fuzz : Z) : Z * Z :=
  if min_time =? 4294967295 then (4294967295, 4294967295) else (u32 (min_time / 2 - fuzz), u32 (u32 (min_time / 8 * 7) - fuzz)).

(** [rand] is what rand16 gives when times are to be spread. *)
Definition end_ia (o : outpacket) (t1cntr min_time : Z) (rand : option Z) : res outpacket :=
  if t1cntr =? 0 then Ok o
  else
    let '(sav, o) := save_counter o t1cntr in
    let '(t1, t2) := ia_times min_time (fuzz_of rand min_time) in
    o ← put_opt6_long o t1; o ← put_opt6_long o t2;
    Ok (save_counter o sav).2.

(** The times asked for, 0 for none, against the time of the lease: the least time so
    far, the valid and the preferred time. *)
Definition calculate_times (deprecated : bool) (min_time req_valid req_preferred lease_time : Z) : Z * Z * Z :=
  let limit req time := if req =? 0 then time else Z.min (Z.max req 120) time in
  let '(valid, preferred) := if req_preferred <=? req_valid then (limit req_valid lease_time, limit req_preferred lease_time) else (lease_time, lease_time) in
  let preferred := if deprecated then 0 else preferred in
  let min_time := if negb (preferred =? 0) && (preferred <? min_time) then preferred else min_time in
  let min_time := if negb (valid =? 0) && (valid <? min_time) then valid else min_time in
  (min_time, valid, preferred).

(** The option with an address: what is put into the packet by add_address. *)
Definition put_address (o : outpacket) (buf : list Z) (ia_option : option Z) (deprecated : bool) (lease_time min_time : Z) (addr : list Z) : res (Z * outpacket) :=
  '(c, o) ← new_opt6 o OPTION6_IAADDR;
  '(preferred, valid) ← (match ia_option with
                         | None => Ok (0, 0)
                         | Some i => p ← opt6_uint buf i 16 4; v ← opt6_uint buf i 20 4; Ok (p, v)
                         end);
  let '(min_time, valid, preferred) := calculate_times deprecated min_time valid preferred lease_time in
  '(_, o) ← put_opt6 o (Some (addr, 0)) 16;
  o ← put_opt6_long o preferred; o ← put_opt6_long o valid;
  o ← end_opt6 o c;
  Ok (min_time, o).

(** * A server behind relays *)

Definition MATCH_REMOTE : Z := 4.
Definition MATCH_SUBSCRIBER : Z := 5.

(** struct dhcp_vendor; [v_fresh] is the mark that it has not been matched, its tag
    pointing to itself. *)
Record vendor6 := Vendor6 { v_match : Z; v_data : list Z; v_net : cstring; v_fresh : bool }.

Definition CONTEXT_DHCP : Z := 256.
Definition CONTEXT_TEMPLATE : Z := 1024.
Definition CONTEXT_OLD : Z := 65536.

(** struct dhcp_context and struct shared_network, the IPv6 part. *)
Record context6 := Context6 { x_start6 : list Z; x_end6 : list Z; x_prefix : Z; x_flags : Z; x_preferred : Z; x_valid : Z }.
Record shared6 := Shared6 { sh_if : Z; sh_addr4 : Z; sh_match6 : list Z; sh_addr6 : list Z }.

(** struct state: what relays and their options set. *)
Record state6 := State6 {
  s6_context : list context6; s6_link : option (list Z); s6_mac : list Z; s6_mac_type : Z; s6_tags : list cstring; s6_vendors : list vendor6 }.
Definition with_context (s : state6) (c : list context6) : state6 := State6 c (s6_link s) (s6_mac s) (s6_mac_type s) (s6_tags s) (s6_vendors s).
Definition with_link (s : state6) (l : list Z) : state6 := State6 (s6_context s) (Some l) (s6_mac s) (s6_mac_type s) (s6_tags s) (s6_vendors s).
Definition with_mac (s : state6) (m : list Z) (ty : Z) : state6 := State6 (s6_context s) (s6_link s) m ty (s6_tags s) (s6_vendors s).
Definition with_tags (s : state6) (t : list cstring) : state6 := State6 (s6_context s) (s6_link s) (s6_mac s) (s6_mac_type s) t (s6_vendors s).

Definition IN6_IS_ADDR_MULTICAST (a : list Z) : bool := match a with b :: _ => b =? 255 | [] => false end.

(** A context that an address can be given from. *)
Definition context_serves (c : context6) (addr : list Z) : bool :=
  negb (Z.land (x_flags c) CONTEXT_DHCP =? 0) && (Z.land (x_flags c) (Z.lor CONTEXT_TEMPLATE CONTEXT_OLD) =? 0) &&
  is_same_net6 addr (x_start6 c) (x_prefix c) && is_same_net6 addr (x_end6 c) (x_prefix c).
Definition share_serves (link : list Z) (c : context6) (s : shared6) : bool :=
  (sh_addr4 s =? 0) && (sh_if s =? 0) && bool_decide (link = sh_match6 s) && context_serves c (sh_addr6 s).
(** The contexts for a link, each in front of those before it. *)
Definition link_contexts (dhcp6 : list context6) (shared : list shared6) (link : list Z) : list context6 :=
  if IN6_IS_ADDR_LOOPBACK link || IN6_IS_ADDR_LINKLOCAL link || IN6_IS_ADDR_MULTICAST link then []
  else
    foldl (λ acc c, if existsb (share_serves link c) shared || context_serves c link
                    then Context6 (x_start6 c) (x_end6 c) (x_prefix c) (x_flags c) 4294967295 4294967295 :: acc else acc) [] dhcp6.

Section relay.
Context (dhcp6 : list context6) (shared : list shared6) (client_mac : list Z * Z).
Context (no_relay : state6 → Z → list Z → Z → Z → bool → outpacket → res (bool * state6 * outpacket)).

(** The hardware address of a client on the same link, or the contexts for the link of
    the relay next to the client. *)
Definition client_state (s : state6) : state6 :=
  match s6_link s with None => with_mac s client_mac.1 client_mac.2 | Some link => with_context s (link_contexts dhcp6 shared link) end.

(** Tags of the relay options of a message; the first vendor that matches ends the search. *)
Fixpoint relay_tags (buf : list Z) (opts end_ : Z) (s : state6) (l : list vendor6) : res state6 :=
  match l with
  | [] => Ok s
  | v :: l =>
      let mopt := if v_match v =? MATCH_SUBSCRIBER then Some OPTION6_SUBSCRIBER_ID else if v_match v =? MATCH_REMOTE then Some OPTION6_REMOTE_ID else None in
      match mopt with
      | None => relay_tags buf opts end_ s l
      | Some mopt =>
          opt ← opt6_find buf (Some opts) end_ mopt 1;
          match opt with
          | None => relay_tags buf opts end_ s l
          | Some opt =>
              len ← opt6_len buf opt;
              if negb (zlen (v_data v) =? len) then relay_tags buf opts end_ s l
              else
                data ← read_bytes buf (opt6_ptr opt 0) (length (v_data v));
                if bool_decide (v_data v = data) && negb (v_fresh v) then Ok (with_tags s (v_net v :: s6_tags s))
                else relay_tags buf opts end_ s l
          end
      end
  end.

(** RFC 6939: the hardware address the relay has seen, [None] when it is too long. *)
Definition relay_mac (buf : list Z) (opts end_ : Z) (s : state6) : res (option state6) :=
  opt ← opt6_find buf (Some opts) end_ OPTION6_CLIENT_MAC 3;
  match opt with
  | None => Ok (Some s)
  | Some opt =>
      len ← opt6_len buf opt;
      if DHCP_CHADDR_MAX <? len - 2 then Ok None
      else ty ← opt6_uint buf opt 0 2; mac ← read_bytes buf (opt6_ptr opt 2) (Z.to_nat (len - 2)); Ok (Some (with_mac s mac ty))
  end.

(** The options of a relayed message are copied, but for the hardware address,
    and the message in it is replaced by its answer, which [rec] writes. *)
Fixpoint relay_options (fuel : nat) (rec : state6 → Z → Z → outpacket → res (bool * state6 * outpacket)) (buf : list Z) (inbuff end_ : Z)
    (opt : option Z) (s : state6) (o : outpacket) : res (bool * state6 * outpacket) :=
  match fuel with
  | O => NoFuel
  | S fuel =>
      match opt with
      | None => Ok (true, s, o)
      | Some opt =>
          len ← opt6_len buf opt;
          if end_ <? opt6_ptr opt 0 + len then Ok (false, s, o)
          else
            ty ← opt6_type buf opt;
            '(ok, s, o) ← (if ty =? OPTION6_CLIENT_MAC then Ok (true, s, o)
                           else
                             '(c, o) ← new_opt6 o ty;
                             '(ok, s, o) ← (if ty =? OPTION6_RELAY_MSG then
                                              link ← read_bytes buf (inbuff + 2) 16; rec (with_link s link) (opt6_ptr opt 0) len o
                                            else '(_, o) ← put_opt6 o (Some (buf, opt6_ptr opt 0)) len; Ok (true, s, o));
                             if ok : bool then o ← end_opt6 o c; Ok (true, s, o) else Ok (false, s, o));
            if ok : bool then next ← opt6_next buf opt end_; relay_options fuel rec buf inbuff end_ next s o else Ok (false, s, o)
      end
  end.

(** Nested messages are shorter by 38 bytes at least. *)
Fixpoint maybe_relay_loop (fuel : nat) (buf : list Z) (s : state6) (inbuff sz : Z) (is_unicast : bool) (o : outpacket) : res (bool * state6 * outpacket) :=
  match fuel with
  | O => NoFuel
  | S fuel =>
      msg_type ← rd buf inbuff;
      if negb (msg_type =? DHCP6RELAYFORW) then
        let s := client_state s in
        match s6_context s with
        | [] => Ok (false, s, o)
        | _ :: _ => no_relay s msg_type buf inbuff sz is_unicast o
        end
      else if sz <? 38 then Ok (false, s, o)
      else
        '(p, o) ← put_opt6 o (Some (buf, inbuff)) 34;
        match p with
        | None => Ok (false, s, o)
        | Some p =>
            o ← store_at o p 0 [DHCP6RELAYREPL];
            s ← relay_tags buf (inbuff + 34) (inbuff + sz) s (s6_vendors s);
            s' ← relay_mac buf (inbuff + 34) (inbuff + sz) s;
            match s' with
            | None => Ok (false, s, o)
            | Some s => relay_options (S (Z.to_nat sz)) (λ s inbuff sz o, maybe_relay_loop fuel buf s inbuff sz false o) buf inbuff (inbuff + sz) (Some (inbuff + 34)) s o
            end
        end
  end.
Definition dhcp6_maybe_relay (buf : list Z) (s : state6) (sz : Z) (is_unicast : bool) (o : outpacket) : res (bool * state6 * outpacket) :=
  maybe_relay_loop (S (Z.to_nat sz)) buf s 0 sz is_unicast o.

(** The port to which the answer goes, 0 for none. *)
Definition dhcp6_reply (buf : list Z) (sz : Z) (context : list context6) (vendors : list vendor6) (client_addr : list Z) (o : outpacket) : res (Z * outpacket) :=
  if sz <=? 4 then Ok (0, o)
  else
    msg_type ← rd buf 0;
    let vendors := (λ v, Vendor6 (v_match v) (v_data v) (v_net v) true) <$> vendors in
    '(ok, _, o) ← dhcp6_maybe_relay buf (State6 context None [] 0 [] vendors) sz (IN6_IS_ADDR_MULTICAST client_addr) (reset_counter o);
    Ok (if ok : bool then if msg_type =? DHCP6RELAYFORW then DHCPV6_SERVER_PORT else DHCPV6_CLIENT_PORT else 0, o).
End relay.

(** * A relay *)

(** struct snoop_record and struct dhcp_relay. *)
Record snoop := Snoop { sn_client : list Z; sn_prefix : list Z; sn_len : Z }.
Record relay6 := Relay6 { r_local : list Z; r_server : list Z; r_interface : option cstring; r_index : Z; r_port : Z; r_snoops : list snoop }.

(** ff05::1:3 *)
Definition ALL_SERVERS : list Z := [255; 5; 0; 0; 0; 0; 0; 0; 0; 0; 0; 0; 0; 1; 0; 3].

(** A packet that is sent: bytes, server, port and source address. *)
Record sent6 := Sent6 { d_bytes : list Z; d_to : list Z; d_port : Z; d_from : list Z }.

Definition relay_on (iface_index : Z) (r : relay6) : bool := negb (r_index r =? 0) && (r_index r =? iface_index).

(** [can_multicast] says whether the interface of a relay to all servers can be set. *)
Fixpoint send_relays (can_multicast : relay6 → bool) (iface_index : Z) (header : Z * Z) (o : outpacket) (l : list relay6) : res (outpacket * list sent6) :=
  match l with
  | [] => Ok (o, [])
  | r :: l =>
      if relay_on iface_index r then
        o ← store_at o header 2 (r_local r);
        '(o', out) ← send_relays can_multicast iface_index header o l;
        Ok (o', if bool_decide (r_server r = ALL_SERVERS) && negb (can_multicast r) then out
                else Sent6 (take (Z.to_nat (o_counter o)) (o_base o)) (r_server r) (r_port r) (r_local r) :: out)
      else send_relays can_multicast iface_index header o l
  end.

(** Whether there is a relay for the interface, and what is sent. *)
Definition relay_upstream6 (can_multicast : relay6 → bool) (mac : list Z) (mactype : Z) (relays : list relay6) (iface_index : Z)
    (buf : list Z) (sz : Z) (peer_address : list Z) (o : outpacket) : res (bool * outpacket * list sent6) :=
  msg_type ← rd buf 0;
  if negb (existsb (relay_on iface_index) relays) then Ok (false, o, [])
  else
    hopcount ← (if msg_type =? DHCP6RELAYFORW then h ← rd buf 1; Ok (h + 1) else Ok 0);
    let o := reset_counter o in
    if 32 <? hopcount then Ok (true, o, [])
    else
      '(header, o) ← put_opt6 o None 34;
      match header with
      | None => Ok (true, o, [])
      | Some header =>
          o ← store_at o header 0 [DHCP6RELAYFORW]; o ← store_at o header 1 [hopcount]; o ← store_at o header 18 peer_address;
          o ← (if zlen mac =? 0 then Ok o
               else '(c, o) ← new_opt6 o OPTION6_CLIENT_MAC; o ← put_opt6_short o mactype; '(_, o) ← put_opt6 o (Some (mac, 0)) (zlen mac); end_opt6 o c);
          '(c, o) ← new_opt6 o OPTION6_RELAY_MSG;
          '(_, o) ← put_opt6 o (Some (buf, 0)) sz;
          o ← end_opt6 o c;
          '(o, out) ← send_relays can_multicast iface_index header o relays;
          Ok (true, o, out)
      end.

(** The prefixes delegated in a reply that passes, for the script. [pool] is the
    number of records on daemon->free_snoops and [mem] whether there is memory for
    another. *)
Fixpoint snoop_prefixes (fuel : nat) (mem : bool) (buf : list Z) (opt : option Z) (end_ : Z) (client : list Z) (st : Z * list snoop) : res (Z * list snoop) :=
  match fuel with
  | O => NoFuel
  | S fuel =>
      match opt with
      | None => Ok st
      | Some opt =>
          ty ← opt6_type buf opt;
          st ← (if negb (ty =? OPTION6_IAPREFIX) then Ok st
                else
                  len ← opt6_len buf opt;
                  if len <? 25 then Ok st
                  else
                    valid ← opt6_uint buf opt 4 4;
                    if (valid =? 0) || negb ((0 <? st.1) || mem) then Ok st
                    else
                      plen ← opt6_uint buf opt 8 1; prefix ← read_bytes buf (opt6_ptr opt 9) 16;
                      Ok (Z.max 0 (st.1 - 1), Snoop client prefix plen :: st.2));
          next ← opt6_next buf opt end_;
          snoop_prefixes fuel mem buf next end_ client st
      end
  end.
Fixpoint snoop_reply (fuel : nat) (mem : bool) (buf : list Z) (opt : option Z) (end_ : Z) (client : list Z) (st : Z * list snoop) : res (Z * list snoop) :=
  match fuel with
  | O => NoFuel
  | S fuel =>
      match opt with
      | None => Ok st
      | Some opt =>
          ty ← opt6_type buf opt;
          st ← (if negb (ty =? OPTION6_IA_PD) then Ok st
                else
                  len ← opt6_len buf opt;
                  if len <=? 12 then Ok st else snoop_prefixes (S (Z.to_nat len)) mem buf (Some (opt6_ptr opt 12)) (opt6_ptr opt len) client st);
          next ← opt6_next buf opt end_;
          snoop_reply fuel mem buf next end_ client st
      end
  end.

(** The option with the message. *)
Fixpoint find_relay_msg (fuel : nat) (buf : list Z) (opt : option Z) (end_ : Z) : res (option (Z * Z)) :=
  match fuel with
  | O => NoFuel
  | S fuel =>
      match opt with
      | None => Ok None
      | Some opt =>
          ty ← opt6_type buf opt; len ← opt6_len buf opt;
          if (ty =? OPTION6_RELAY_MSG) && (0 <? len) then Ok (Some (opt, len))
          else next ← opt6_next buf opt end_; find_relay_msg fuel buf next end_
      end
  end.

Definition answers_for (link : list Z) (arrival_interface : cstring) (r : relay6) : bool :=
  bool_decide (link = r_local r) && match r_interface r with None => true | Some i => wildcard_match i arrival_interface end.
(** The relays before the one that the reply is for, it and those after it. *)
Fixpoint split_relay (p : relay6 → bool) (pre l : list relay6) : option (list relay6 * relay6 * list relay6) :=
  match l with [] => None | r :: l => if p r then Some (pre, r, l) else split_relay p (pre ++ [r]) l end.

(** struct sockaddr_in6 to which the message goes on. *)
Record peer6 := Peer6 { pe_addr : list Z; pe_scope : Z; pe_port : Z }.

(** Whether the packet is a reply to relay: the peer, the packet and the relays with
    their records. [script] says whether a script is configured. *)
Definition relay_reply6 (script mem : bool) (buf : list Z) (sz : Z) (arrival_interface : cstring) (relays : list relay6) (pool : Z) (o : outpacket) :
    res (option peer6 * outpacket * list relay6 * Z) :=
  if sz <? 38 then Ok (None, o, relays, pool)
  else
    t ← rd buf 0;
    if negb (t =? DHCP6RELAYREPL) then Ok (None, o, relays, pool)
    else
      link ← read_bytes buf 2 16;
      let o := reset_counter o in
      match split_relay (answers_for link arrival_interface) [] relays with
      | None => Ok (None, o, relays, pool)
      | Some (pre, r, post) =>
          m ← find_relay_msg (S (Z.to_nat sz)) buf (Some 34) sz;
          match m with
          | None => Ok (None, o, relays, pool)
          | Some (opt, len) =>
              encap_type ← rd buf (opt6_ptr opt 0);
              '(_, o) ← put_opt6 o (Some (buf, opt6_ptr opt 0)) len;
              addr ← read_bytes buf 18 16;
              if encap_type =? DHCP6RELAYREPL then Ok (Some (Peer6 addr (r_index r) DHCPV6_SERVER_PORT), o, relays, pool)
              else
                '(pool, snoops) ← (if script && (encap_type =? DHCP6REPLY)
                                   then snoop_reply (S (Z.to_nat len)) mem buf (Some (opt6_ptr opt 4)) (opt6_ptr opt len) addr (pool, r_snoops r)
                                   else Ok (pool, r_snoops r));
                Ok (Some (Peer6 addr (r_index r) DHCPV6_CLIENT_PORT), o,
                    pre ++ Relay6 (r_local r) (r_server r) (r_interface r) (r_index r) (r_port r) snoops :: post, pool)
          end
      end.

(** The next record goes to the script, with the interface of its relay. *)
Fixpoint do_snoop_script_run (relays : list relay6) (pool : Z) : option (snoop * Z) * list relay6 * Z :=
  match relays with
  | [] => (None, [], pool)
  | r :: relays =>
      match r_snoops r with
      | s :: rest => (Some (s, r_index r), Relay6 (r_local r) (r_server r) (r_interface r) (r_index r) (r_port r) rest :: relays, pool + 1)
      | [] => let '(x, relays, pool) := do_snoop_script_run relays pool in (x, r :: relays, pool)
      end
  end.
