(* ===== verification/Dhcp6Spec.v ===== *)
(** DHCPv6 options: what is written into a packet is found in it, and searches
    end and stay inside the packet. Relayed exchanges: what a relay sends, what a server behind any
    number of relays answers, what the relays make of the answer, and the
    exchange through any number of relays, from the client to the server and
    back. *)
From S2P Require Import Prelude Hostname Wire WireSafe NetAddr WireExt DhcpOpt DhcpOptSpec Outpacket Dhcp6.

(** * Options as bytes *)

Definition opt6 : Type := Z * list Z.
Definition wf6 (x : opt6) : Prop := 0 ≤ x.1 < 65536 ∧ zlen x.2 < 65536 ∧ Forall is_byte x.2.
Definition enc6 (x : opt6) : list Z := short_bytes x.1 ++ short_bytes (zlen x.2) ++ x.2.
Definition encs6 (l : list opt6) : list Z := concat (enc6 <$> l).

Lemma encs6_cons x l : encs6 (x :: l) = enc6 x ++ encs6 l.
Proof. done. Qed.
Lemma encs6_app l k : encs6 (l ++ k) = encs6 l ++ encs6 k.
Proof. unfold encs6. by rewrite fmap_app, concat_app. Qed.
Lemma zlen_enc6 x : zlen (enc6 x) = 4 + zlen x.2.
Proof. unfold enc6. rewrite !zlen_app. change (zlen (short_bytes _)) with 2. change (zlen (short_bytes _)) with 2. lia. Qed.
Lemma enc6_bytes x : wf6 x → Forall is_byte (enc6 x).
Proof. intros (_ & _ & H). unfold enc6. rewrite !Forall_app. auto. Qed.

Lemma short_value v : 0 ≤ v < 65536 → u8 (Z.shiftr (u16 v) 8) * 256 + u8 (u16 v) = v.
Proof. intros Hv. rewrite Z.shiftr_div_pow2 by lia. change (2 ^ 8) with 256. unfold u8, u16. dlia. Qed.

Lemma bytes_short buf p v : bytes_at buf p (short_bytes v) → 0 ≤ v < 65536 → GETSHORT buf p = Ok (v, p + 2) ∧ ∀ n, opt6_uint buf (p - 4 - n) n 2 = Ok v.
Proof.
  intros Hb Hv. pose proof (read_bytes_at _ _ _ Hb) as Hr. unfold short_bytes in Hb. rewrite !bytes_at_cons in Hb. destruct Hb as (_ & H1 & _ & H2 & _). split.
  - rewrite (GETSHORT_spec buf p _ _ (u8_byte _) (u8_byte _) H1 H2). by rewrite short_value.
  - intros n. unfold opt6_uint, opt6_ptr. replace (p - 4 - n + 4 + n) with p by lia. change (Z.to_nat 2) with (length (short_bytes v)). rewrite Hr. cbn [mbind res_bind]. f_equal.
    unfold short_bytes. cbn [foldl]. rewrite Z.shiftl_0_l. change (u32 0) with 0. rewrite Z.lor_0_l. set (h := u8 _). set (l := u8 (u16 v)).
    pose proof (u8_byte (Z.shiftr (u16 v) 8)) as Hh. pose proof (u8_byte (u16 v)) as Hl. fold h in Hh. fold l in Hl. unfold is_byte in *.
    assert (u32 (Z.shiftl h 8) = Z.shiftl h 8) as -> by (rewrite Z.shiftl_mul_pow2 by lia; unfold u32; change (2 ^ 8) with 256; apply Z.mod_small; lia).
    rewrite (lor_shiftl h l 8) by lia. exact (short_value v Hv).
Qed.

(** An option of the packet. *)
Lemma option_read buf p x :
  bytes_at buf p (enc6 x) → wf6 x →
  GETSHORT buf p = Ok (x.1, p + 2) ∧ GETSHORT buf (p + 2) = Ok (zlen x.2, p + 4) ∧
  opt6_type buf p = Ok x.1 ∧ opt6_len buf p = Ok (zlen x.2) ∧ bytes_at buf (p + 4) x.2.
Proof.
  unfold enc6. rewrite !bytes_at_app. change (zlen (short_bytes _)) with 2. change (zlen (short_bytes _)) with 2. intros (H1 & H2 & H3) (Hc & Hl & _).
  pose proof (zlen_nonneg x.2). destruct (bytes_short _ _ _ H1 Hc) as [G1 U1]. destruct (bytes_short _ _ _ H2 ltac:(lia)) as [G2 U2].
  specialize (U1 (-4)). specialize (U2 (-2)). replace (p - 4 - -4) with p in U1 by lia. replace (p + 2 - 4 - -2) with p in U2 by lia.
  replace (p + 2 + 2) with (p + 4) in * by lia. done.
Qed.

Lemma opt6_next_at buf p x end_ :
  bytes_at buf p (enc6 x) → wf6 x → 4 ≤ end_ - p →
  opt6_next buf p end_ = Ok (if end_ <=? p + 4 + zlen x.2 then None else Some (p + 4 + zlen x.2)).
Proof.
  intros Hb Hw He. destruct (option_read _ _ _ Hb Hw) as (_ & G & _). unfold opt6_next. rewrite (proj2 (Z.ltb_ge (end_ - p) 4)) by lia. rewrite G. cbn [mbind res_bind].
  f_equal. destruct (Z.leb_spec (end_ - (p + 4)) (zlen x.2)), (Z.leb_spec end_ (p + 4 + zlen x.2)); try done; lia.
Qed.

(** * Searching *)

(** The place of the first option that fits, from [p] on. *)
Fixpoint first6 (l : list opt6) (p search minsize : Z) : option Z :=
  match l with
  | [] => None
  | x :: l => if (x.1 =? search) && (minsize <=? zlen x.2) then Some p else first6 l (p + zlen (enc6 x)) search minsize
  end.

Lemma opt6_find_loop_enc fuel buf p l search minsize :
  bytes_at buf p (encs6 l) → Forall wf6 l → (length l < fuel)%nat →
  opt6_find_loop fuel buf p (p + zlen (encs6 l)) search minsize = Ok (first6 l p search minsize).
Proof.
  revert buf p fuel. induction l as [|x l IH]; intros buf p fuel Hb Hw Hf; (destruct fuel as [|fuel]; [cbn in Hf; lia|]); cbn [opt6_find_loop first6].
  - change (zlen (encs6 [])) with 0. by rewrite (proj2 (Z.ltb_lt (p + 0 - p) 4)) by lia.
  - apply Forall_cons in Hw as [Hx Hw]. rewrite encs6_cons, bytes_at_app in Hb. destruct Hb as [Hbx Hb]. destruct (option_read _ _ _ Hbx Hx) as (G1 & G2 & _).
    rewrite encs6_cons, zlen_app, zlen_enc6 in *. pose proof (zlen_nonneg x.2). pose proof (zlen_nonneg (encs6 l)).
    rewrite (proj2 (Z.ltb_ge (p + (4 + zlen x.2 + zlen (encs6 l)) - p) 4)) by lia. rewrite G1. cbn [mbind res_bind]. rewrite G2. cbn [mbind res_bind].
    rewrite (proj2 (Z.ltb_ge (p + (4 + zlen x.2 + zlen (encs6 l)) - (p + 4)) (zlen x.2))) by lia. destruct (_ && _); [done|].
    replace (p + (4 + zlen x.2 + zlen (encs6 l))) with (p + 4 + zlen x.2 + zlen (encs6 l)) by lia. replace (p + (4 + zlen x.2)) with (p + 4 + zlen x.2) in * by lia.
    apply IH; [done|done|cbn in Hf; lia].
Qed.

Lemma encs6_count l : (length l ≤ length (encs6 l))%nat.
Proof.
  induction l as [|x l IH]; [done|]. rewrite encs6_cons, length_app. cbn [length]. pose proof (zlen_enc6 x). pose proof (zlen_nonneg x.2). unfold zlen in *. lia.
Qed.

Lemma opt6_find_enc buf p l search minsize :
  bytes_at buf p (encs6 l) → Forall wf6 l → opt6_find buf (Some p) (p + zlen (encs6 l)) search minsize = Ok (first6 l p search minsize).
Proof.
  intros Hb Hw. unfold opt6_find. apply opt6_find_loop_enc; [done..|]. pose proof (encs6_count l). unfold zlen. lia.
Qed.

(** * Writing *)

(** The calls that write an option, and a list of options. *)
Definition put_option6 (o : outpacket) (x : opt6) : res outpacket :=
  '(c, o) ← new_opt6 o x.1; '(_, o) ← put_opt6 o (Some (x.2, 0)) (zlen x.2); end_opt6 o c.
Fixpoint put_options6 (o : outpacket) (l : list opt6) : res outpacket :=
  match l with [] => Ok o | x :: l => o ← put_option6 o x; put_options6 o l end.

Lemma bytes_at_self l : bytes_at l 0 l.
Proof.
  split; [lia|]. intros i x Hi. rewrite Z.add_0_l. unfold rd. rewrite (proj2 (Z.ltb_ge (Z.of_nat i) 0)) by lia. by rewrite Nat2Z.id, Hi.
Qed.

Lemma put_option6_holds o bs x : holds o bs → wf6 x → ∃ o', put_option6 o x = Ok o' ∧ holds o' (bs ++ enc6 x) ∧ kept o o' (zlen bs + zlen (enc6 x)).
Proof.
  intros Hh (Hc & Hl & Hb). unfold put_option6. destruct (new_opt6_holds o bs x.1 Hh) as (o1 & -> & H1 & K1). cbn [mbind res_bind].
  destruct (put_opt6_holds o1 _ x.2 0 x.2 H1 (read_bytes_at _ _ _ (bytes_at_self x.2)) Hb) as (o2 & -> & H2 & K2). cbn [mbind res_bind].
  rewrite <- !app_assoc in H2. destruct (end_opt6_holds o2 bs x.1 0 0 x.2 H2 Hl) as (o3 & -> & H3 & G3 & L3). exists o3. split; [done|]. split; [done|].
  rewrite zlen_enc6. intros Hk. pose proof (zlen_nonneg x.2). destruct K1 as [G1 L1]; [lia|]. destruct K2 as [G2 L2].
  { rewrite !zlen_app. change (zlen (short_bytes _)) with 2. change (zlen [0; 0]) with 2. lia. }
  split; congruence.
Qed.

Lemma put_options6_holds o bs l : holds o bs → Forall wf6 l → ∃ o', put_options6 o l = Ok o' ∧ holds o' (bs ++ encs6 l).
Proof.
  revert o bs. induction l as [|x l IH]; intros o bs Hh Hw; [exists o; by rewrite app_nil_r|]. apply Forall_cons in Hw as [Hx Hw]. cbn [put_options6].
  destruct (put_option6_holds o bs x Hh Hx) as (o1 & -> & H1 & _). cbn [mbind res_bind]. destruct (IH o1 _ H1 Hw) as (o2 & -> & H2). exists o2. split; [done|].
  by rewrite encs6_cons, app_assoc.
Qed.

Lemma holds_bytes_at o bs k : holds o (bs ++ k) → bytes_at (o_base o) (zlen bs) k.
Proof.
  intros (_ & _ & rest & ->). rewrite <- app_assoc. split; [apply zlen_nonneg|]. intros i x Hi. rewrite rd_app_r by lia. rewrite rd_app_l by (apply lookup_lt_Some in Hi; unfold zlen; lia).
  unfold rd. rewrite (proj2 (Z.ltb_ge (Z.of_nat i) 0)) by lia. by rewrite Nat2Z.id, Hi.
Qed.

(** DHCPv6 options that are written one after the other are all in the packet, after
    what was there, and a search from where they begin to the end of the packet
    finds the first one that has the code and is long enough, and nothing when
    there is none. *)
Theorem dhcp6_options_round_trip o bs l search minsize :
  holds o bs → Forall wf6 l →
  ∃ o', put_options6 o l = Ok o' ∧ holds o' (bs ++ encs6 l) ∧
    opt6_find (o_base o') (Some (zlen bs)) (o_counter o') search minsize = Ok (first6 l (zlen bs) search minsize).
Proof.
  intros Hh Hw. destruct (put_options6_holds o bs l Hh Hw) as (o' & E & H). exists o'. split; [done|]. split; [done|]. pose proof H as (Hc & _).
  rewrite Hc, zlen_app. apply opt6_find_enc; [|done]. by apply holds_bytes_at.
Qed.
Lemma dhcp6_options_round_trip_witness :
  ∃ o', put_options6 (Out [] 0 0 []) [(1, [7; 7]); (3, [1; 2; 3])] = Ok o' ∧ holds o' ([] ++ encs6 [(1, [7; 7]); (3, [1; 2; 3])]) ∧
    opt6_find (o_base o') (Some 0) (o_counter o') 3 3 = Ok (Some 6).
Proof.
  apply (dhcp6_options_round_trip (Out [] 0 0 []) [] [(1, [7; 7]); (3, [1; 2; 3])] 3 3); [split_and!; [done|done|by exists []]|].
  repeat constructor; cbn; lia.
Defined.

(** One relay on the way of a message: its configuration, the address the
    message comes from, and the hardware address found for it. *)
Record hop := Hop { h_relay : relay6; h_peer : list Z; h_mac : list Z; h_mactype : Z }.
Definition wf_hop (h : hop) : Prop :=
  zlen (r_local (h_relay h)) = 16 ∧ zlen (h_peer h) = 16 ∧ Forall is_byte (r_local (h_relay h)) ∧ Forall is_byte (h_peer h) ∧
  zlen (h_mac h) ≤ DHCP_CHADDR_MAX ∧ Forall is_byte (h_mac h) ∧ 0 ≤ h_mactype h < 65536.

Definition mac_options (h : hop) : list opt6 := if zlen (h_mac h) =? 0 then [] else [(OPTION6_CLIENT_MAC, short_bytes (h_mactype h) ++ h_mac h)].
Definition relay_header (ty i : Z) (h : hop) : list Z := [ty; i] ++ r_local (h_relay h) ++ h_peer h.
(** A message as it leaves a relay, and the answer as it comes back to it. *)
Definition forw1 (i : Z) (h : hop) (m : list Z) : list Z := relay_header DHCP6RELAYFORW i h ++ encs6 (mac_options h ++ [(OPTION6_RELAY_MSG, m)]).
Definition repl1 (i : Z) (h : hop) (r : list Z) : list Z := relay_header DHCP6RELAYREPL i h ++ enc6 (OPTION6_RELAY_MSG, r).
(** The first relay is next to the client. *)
Fixpoint forw (i : Z) (hops : list hop) (m : list Z) : list Z := match hops with [] => m | h :: hops => forw (i + 1) hops (forw1 i h m) end.
Fixpoint repl (i : Z) (hops : list hop) (r : list Z) : list Z := match hops with [] => r | h :: hops => repl (i + 1) hops (repl1 i h r) end.

Lemma forw_snoc i hops h m : forw i (hops ++ [h]) m = forw1 (i + zlen hops) h (forw i hops m).
Proof.
  revert i m. induction hops as [|h' hops IH]; intros i m; cbn [app forw].
  - change (zlen (@nil hop)) with 0. by rewrite Z.add_0_r.
  - rewrite IH, zlen_cons. f_equal. lia.
Qed.
Lemma repl_snoc i hops h r : repl i (hops ++ [h]) r = repl1 (i + zlen hops) h (repl i hops r).
Proof.
  revert i r. induction hops as [|h' hops IH]; intros i r; cbn [app repl].
  - change (zlen (@nil hop)) with 0. by rewrite Z.add_0_r.
  - rewrite IH, zlen_cons. f_equal. lia.
Qed.

Lemma relay_header_len ty i h : wf_hop h → zlen (relay_header ty i h) = 34.
Proof. intros (H1 & H2 & _). unfold relay_header. rewrite !zlen_app, H1, H2. done. Qed.

Lemma mac_options_wf h : wf_hop h → Forall wf6 (mac_options h).
Proof.
  intros (_ & _ & _ & _ & H5 & H6 & _). unfold mac_options. destruct (zlen (h_mac h) =? 0); constructor; [|constructor]. split_and!; cbn [fst snd]; [done|done| |].
  - rewrite zlen_app. change (zlen (short_bytes _)) with 2. unfold DHCP_CHADDR_MAX in H5. lia.
  - rewrite Forall_app. auto.
Qed.

Lemma encs6_single x : encs6 [x] = enc6 x.
Proof. unfold encs6. cbn [fmap list_fmap concat]. by rewrite app_nil_r. Qed.

Lemma forw1_len i h m : wf_hop h → 38 + zlen m ≤ zlen (forw1 i h m).
Proof.
  intros Hw. unfold forw1. rewrite zlen_app, relay_header_len, encs6_app, zlen_app by done. rewrite encs6_single, zlen_enc6.
  cbn [snd]. pose proof (zlen_nonneg (encs6 (mac_options h))). lia.
Qed.

Lemma forw_len i hops m : Forall wf_hop hops → zlen m ≤ zlen (forw i hops m).
Proof.
  revert i m. induction hops as [|h hops IH]; intros i m Hw; cbn [forw]; [done|]. apply Forall_cons in Hw as [Hh Hw].
  pose proof (IH (i + 1) (forw1 i h m) Hw). pose proof (forw1_len i h m Hh). lia.
Qed.

Lemma relay_header_bytes ty i h : wf_hop h → is_byte ty → is_byte i → Forall is_byte (relay_header ty i h).
Proof. intros (_ & _ & H3 & H4 & _) Ht Hi. unfold relay_header. rewrite !Forall_app. split; [by apply Forall_cons; split; [|apply Forall_singleton]|done]. Qed.

Lemma encs6_bytes l : Forall wf6 l → Forall is_byte (encs6 l).
Proof. induction 1 as [|x l Hx _ IH]; [constructor|]. rewrite encs6_cons, Forall_app. split; [by apply enc6_bytes|done]. Qed.

(** * The relay: up *)

Lemma store_header o p off bs old (pre post : list Z) :
  o_base o = pre ++ old ++ post → zlen old = zlen bs → p = o_gen o → off = zlen pre → Forall is_byte bs →
  store_at o (p, 0) off bs = Ok (with_base o (pre ++ bs ++ post)).
Proof.
  intros Eb El -> -> Hb. unfold store_at. cbn [fst snd]. rewrite Z.eqb_refl. cbn [negb]. rewrite Z.add_0_l, Eb. by rewrite put_bytes_at.
Qed.

Lemma reset_base o : o_base (reset_counter o) = replicate (length (o_base o)) 0.
Proof. done. Qed.

(** The three stores into a fresh header. *)
Lemma upstream_header o ty i h :
  wf_hop h → o_mem o = [] → 34 ≤ zlen (o_base o) → is_byte ty → is_byte i →
  ∃ o0 o1 o2 o', put_opt6 (reset_counter o) None 34 = Ok (Some (o_gen o, 0), o0) ∧ store_at o0 (o_gen o, 0) 0 [ty] = Ok o1 ∧
    store_at o1 (o_gen o, 0) 1 [i] = Ok o2 ∧ store_at o2 (o_gen o, 0) 18 (h_peer h) = Ok o' ∧
    holds o' ([ty; i] ++ replicate 16 0 ++ h_peer h) ∧ o_gen o' = o_gen o ∧ zlen (o_base o') = zlen (o_base o).
Proof.
  intros (_ & H2 & _ & H4 & _) Hm Hl Ht Hi. destruct (reset_holds o Hm) as (Hh & Hg & Hz). unfold put_opt6.
  assert (expand (reset_counter o) 34 = (Some (o_gen o, 0), Out (replicate (length (o_base o)) 0) 34 (o_gen o) [])) as ->.
  { unfold expand, expand_buf. destruct Hh as (Hc & Hm' & _). rewrite Hc, Hz. change (zlen (@nil Z) + 34) with 34. rewrite (proj2 (Z.leb_le 34 _)) by lia. rewrite Hg, Hm', reset_base. by rewrite Hc. }
  apply (zlen_inv _ 16) in H2.
  assert (∃ rest, replicate (length (o_base o)) 0 = [0; 0] ++ replicate 16 0 ++ replicate 16 0 ++ rest ∧ length rest = (length (o_base o) - 34)%nat) as (rest & E & Er).
  { exists (replicate (length (o_base o) - 34) 0). split; [|by rewrite length_replicate]. change [0; 0] with (replicate 2 0). rewrite <- !replicate_add. f_equal. unfold zlen in Hl. lia. }
  rewrite E. set (o0 := Out _ 34 _ _).
  set (z := replicate 16 0) in *. set (o1 := with_base o0 ([] ++ [ty] ++ [0] ++ z ++ z ++ rest)). set (o2 := with_base o1 ([ty] ++ [i] ++ z ++ z ++ rest)).
  set (o3 := with_base o2 (([ty; i] ++ z) ++ h_peer h ++ rest)). exists o0, o1, o2, o3. split; [done|].
  split; [apply (store_header o0 (o_gen o) 0 [ty] [0] [] ([0] ++ z ++ z ++ rest)); [done|done|done|done|by constructor]|].
  split; [apply (store_header o1 (o_gen o) 1 [i] [0] [ty] (z ++ z ++ rest)); [done|done|done|done|by constructor]|].
  split; [apply (store_header o2 (o_gen o) 18 (h_peer h) z ([ty; i] ++ z) rest); [done|unfold zlen; by rewrite H2|done|done|done]|].
  split; [|split; [done|]].
  - split_and!; [|done|exists rest; cbn [with_base o_base o3]; by rewrite <- !app_assoc]. cbn [with_base o_counter o3 o2 o1 o0]. rewrite !zlen_app. change (zlen [ty; i]) with 2. change (zlen (replicate 16 0)) with 16. unfold zlen. rewrite H2. done.
  - cbn [with_base o_base o3]. unfold zlen in *. rewrite !length_app, H2, Er. unfold z. cbn [length replicate]. lia.
Qed.

(** The copies for the relays of an interface, each with its own address. *)
Definition sends_to (can_multicast : relay6 → bool) (idx : Z) (r : relay6) : bool :=
  relay_on idx r && negb (bool_decide (r_server r = ALL_SERVERS) && negb (can_multicast r)).
Lemma send_relays_all can idx o hd link rest l :
  holds o (hd ++ link ++ rest) → zlen hd = 2 → zlen link = 16 → Forall (λ r, zlen (r_local r) = 16 ∧ Forall is_byte (r_local r)) l →
  ∃ o', send_relays can idx (o_gen o, 0) o l =
    Ok (o', (λ r, Sent6 (hd ++ r_local r ++ rest) (r_server r) (r_port r) (r_local r)) <$> filter (λ r, sends_to can idx r = true) l).
Proof.
  revert o link. induction l as [|r l IH]; intros o link Hh H2 H16 Hl; [by exists o|]. apply Forall_cons in Hl as [[Hr Hb] Hl]. cbn [send_relays]. rewrite filter_cons.
  assert (sends_to can idx r = relay_on idx r && negb (bool_decide (r_server r = ALL_SERVERS) && negb (can r))) as Es by done.
  destruct (relay_on idx r); [|rewrite decide_False by (by rewrite Es); by apply (IH o link)].
  destruct Hh as (Hc & Hm & post & Eb).
  rewrite (store_header o (o_gen o) 2 (r_local r) link hd (rest ++ post)); [|by rewrite Eb, <- !app_assoc|congruence|done|done|done]. cbn [mbind res_bind]. set (o1 := with_base o _).
  assert (holds o1 (hd ++ r_local r ++ rest)) as H1.
  { split_and!; [|done|exists post; cbn [o1 with_base o_base]; by rewrite <- !app_assoc]. cbn [o1 with_base o_counter]. rewrite Hc, !zlen_app. lia. }
  destruct (IH o1 (r_local r) H1 H2 Hr Hl) as [o' E]. change (o_gen o1) with (o_gen o) in E. rewrite E. cbn [mbind res_bind]. exists o'. do 2 f_equal.
  assert (take (Z.to_nat (o_counter o1)) (o_base o1) = hd ++ r_local r ++ rest) as ->.
  { destruct H1 as (Hc1 & _ & post1 & ->). rewrite Hc1. unfold zlen. rewrite Nat2Z.id. by rewrite take_app_length. }
  destruct (bool_decide (r_server r = ALL_SERVERS) && negb (can r)); [by rewrite decide_False by (by rewrite Es)|by rewrite decide_True].
Qed.

(** The options of a relayed message. *)
Lemma upstream_options o bs h buf m :
  holds o bs → wf_hop h → bytes_at buf 0 m → zlen m < 65536 → Forall is_byte m →
  zlen bs + zlen (encs6 (mac_options h ++ [(OPTION6_RELAY_MSG, m)])) ≤ zlen (o_base o) →
  ∃ o', (o ← (if zlen (h_mac h) =? 0 then Ok o
              else '(c, o) ← new_opt6 o OPTION6_CLIENT_MAC; o ← put_opt6_short o (h_mactype h); '(_, o) ← put_opt6 o (Some (h_mac h, 0)) (zlen (h_mac h)); end_opt6 o c);
         '(c, o) ← new_opt6 o OPTION6_RELAY_MSG; '(_, o) ← put_opt6 o (Some (buf, 0)) (zlen m); end_opt6 o c) = Ok o' ∧
    holds o' (bs ++ encs6 (mac_options h ++ [(OPTION6_RELAY_MSG, m)])) ∧ o_gen o' = o_gen o.
Proof.
  intros Hh Hw Hm Hlm Hbm. rewrite encs6_app, zlen_app. rewrite encs6_single, zlen_enc6. cbn [snd].
  intros Hfit. pose proof (zlen_nonneg m). pose proof (zlen_nonneg (encs6 (mac_options h))).
  assert (∃ o1, (if zlen (h_mac h) =? 0 then Ok o
              else '(c, o) ← new_opt6 o OPTION6_CLIENT_MAC; o ← put_opt6_short o (h_mactype h); '(_, o) ← put_opt6 o (Some (h_mac h, 0)) (zlen (h_mac h)); end_opt6 o c) = Ok o1 ∧
      holds o1 (bs ++ encs6 (mac_options h)) ∧ o_gen o1 = o_gen o ∧ zlen (o_base o1) = zlen (o_base o)) as (o1 & -> & H1 & G1 & L1).
  { destruct Hw as (_ & _ & _ & _ & H5 & H6 & _). unfold DHCP_CHADDR_MAX in H5. unfold mac_options in *. destruct (Z.eqb_spec (zlen (h_mac h)) 0); [exists o; by rewrite app_nil_r|].
    rewrite encs6_single in Hfit |- *. rewrite zlen_enc6 in Hfit. cbn [snd] in Hfit. rewrite zlen_app in Hfit. change (zlen (short_bytes _)) with 2 in Hfit.
    destruct (new_opt6_holds o bs OPTION6_CLIENT_MAC Hh) as (a1 & -> & A1 & K1). cbn [mbind res_bind]. destruct (put_short_holds a1 _ (h_mactype h) A1) as (a2 & -> & A2 & K2). cbn [mbind res_bind].
    destruct (put_opt6_holds a2 _ (h_mac h) 0 (h_mac h) A2 (read_bytes_at _ _ _ (bytes_at_self _)) H6) as (a3 & -> & A3 & K3). cbn [mbind res_bind]. rewrite <- !app_assoc in A3.
    destruct (end_opt6_holds a3 bs OPTION6_CLIENT_MAC 0 0 (short_bytes (h_mactype h) ++ h_mac h) A3) as (a4 & E4 & A4 & G4 & L4); [rewrite zlen_app; change (zlen (short_bytes _)) with 2; lia|].
    exists a4. split; [exact E4|]. split; [exact A4|]. pose proof (zlen_nonneg (h_mac h)). destruct K1 as [? ?]; [lia|]. destruct K2 as [? ?]; [rewrite !zlen_app; change (zlen (short_bytes _)) with 2; change (zlen [0; 0]) with 2; lia|].
    destruct K3 as [? ?]; [rewrite !zlen_app; change (zlen (short_bytes _)) with 2; change (zlen [0; 0]) with 2; change (zlen (short_bytes _)) with 2; lia|]. split; congruence. }
  cbn [mbind res_bind]. destruct (new_opt6_holds o1 _ OPTION6_RELAY_MSG H1) as (o2 & -> & H2 & K2). cbn [mbind res_bind].
  destruct (put_opt6_holds o2 _ buf 0 m H2 (read_bytes_at _ _ _ Hm) Hbm) as (o3 & -> & H3 & K3). cbn [mbind res_bind]. rewrite <- app_assoc in H3. rewrite <- (app_assoc (short_bytes _)) in H3.
  destruct (end_opt6_holds o3 _ OPTION6_RELAY_MSG 0 0 m H3 Hlm) as (o4 & -> & H4 & G4 & _). exists o4. split; [done|]. split; [by rewrite app_assoc|].
  destruct K2 as [? ?]; [rewrite zlen_app; lia|]. destruct K3 as [? _]; [rewrite !zlen_app; change (zlen (short_bytes _)) with 2; change (zlen [0; 0]) with 2; lia|]. congruence.
Qed.

Definition hop_count (m : list Z) : Z := match m with t :: i :: _ => if t =? DHCP6RELAYFORW then i + 1 else 0 | _ => 0 end.

Lemma bytes_at_rd buf a m i x : bytes_at buf a m → m !! i = Some x → rd buf (a + Z.of_nat i) = Ok x.
Proof. intros [_ H]. apply H. Qed.

(** A relay sends one copy of a client's message, or of a message that another
    relay has wrapped, to every server configured for the interface: type and hop count,
    the relay's own address for that server, the address the message
    came from, the hardware address when it is known, and the message unchanged. *)
Lemma upstream_sends can relays idx peer mac mactype buf m o :
  let h r := Hop r peer mac mactype in
  Forall (λ r, wf_hop (h r)) relays →
  existsb (relay_on idx) relays = true → bytes_at buf 0 m → 2 ≤ zlen m < 65536 → Forall is_byte m → hop_count m ≤ 32 →
  o_mem o = [] → (∀ r, 34 + zlen (encs6 (mac_options (h r) ++ [(OPTION6_RELAY_MSG, m)])) ≤ zlen (o_base o)) →
  ∃ o', relay_upstream6 can mac mactype relays idx buf (zlen m) peer o =
    Ok (true, o', (λ r, Sent6 (forw1 (hop_count m) (h r) m) (r_server r) (r_port r) (r_local r)) <$> filter (λ r, sends_to can idx r = true) relays).
Proof.
  intros h Hw He Hbuf Hlm Hbm Hhop Hmem Hfit.
  assert (Forall (λ r, zlen (r_local r) = 16 ∧ Forall is_byte (r_local r)) relays) as Hloc by (eapply Forall_impl; [exact Hw|]; intros r (? & _ & ? & _); done).
  destruct m as [|t [|i0 m']] eqn:Em; [change (zlen (@nil Z)) with 0 in Hlm; lia|change (zlen [t]) with 1 in Hlm; lia|]. rewrite <- Em in *.
  pose proof (bytes_at_rd buf 0 m 0 t Hbuf ltac:(by rewrite Em)) as R0. pose proof (bytes_at_rd buf 0 m 1 i0 Hbuf ltac:(by rewrite Em)) as R1. change (0 + Z.of_nat 0) with 0 in R0. change (0 + Z.of_nat 1) with 1 in R1.
  assert (∃ r0, r0 ∈ relays ∧ relay_on idx r0 = true) as (r0 & Hin & Hon) by (apply existsb_exists in He as (r0 & ? & ?); exists r0; by rewrite list_elem_of_In).
  rewrite Forall_forall in Hw. pose proof (Hw r0 Hin) as Hr0. unfold relay_upstream6. rewrite R0. cbn [mbind res_bind]. rewrite He. cbn [negb].
  assert ((if t =? DHCP6RELAYFORW then h ← rd buf 1; Ok (h + 1) else Ok 0) = Ok (hop_count m)) as -> by (rewrite Em; unfold hop_count; rewrite R1; by destruct (t =? DHCP6RELAYFORW)).
  cbn [mbind res_bind]. cbv zeta. rewrite (proj2 (Z.ltb_ge 32 (hop_count m))) by lia.
  assert (is_byte (hop_count m)) as Hib.
  { rewrite Em in Hbm, Hhop |- *. unfold hop_count in *. apply Forall_cons in Hbm as [_ Hbm]. apply Forall_cons in Hbm as [Hi _]. unfold is_byte in *. destruct (t =? DHCP6RELAYFORW); lia. }
  pose proof (Hfit r0) as Hfit0. destruct (upstream_header o DHCP6RELAYFORW (hop_count m) (h r0) Hr0 Hmem) as (o0 & o1 & o2 & o3 & -> & S1 & S2 & S3 & H3 & G3 & L3); [|done|done|].
  { pose proof (zlen_nonneg (encs6 (mac_options (h r0) ++ [(OPTION6_RELAY_MSG, m)]))). lia. }
  cbn [mbind res_bind]. rewrite S1. cbn [mbind res_bind]. rewrite S2. cbn [mbind res_bind]. cbn [h_peer h] in S3. rewrite S3. cbn [mbind res_bind].
  destruct (upstream_options o3 _ (h r0) buf m H3 Hr0 Hbuf ltac:(lia) Hbm) as (o4 & E4 & H4 & G4).
  { rewrite L3. destruct Hr0 as (_ & Hp & _). rewrite !zlen_app. change (zlen [DHCP6RELAYFORW; hop_count m]) with 2. change (zlen (replicate 16 0)) with 16. cbn [h_peer h] in *. rewrite Hp. lia. }
  cbn [h h_mac h_mactype] in E4. revert E4. destruct (if zlen mac =? 0 then Ok o3 else _) as [o5| | |]; [|done..]. cbn [mbind res_bind].
  destruct (new_opt6 o5 OPTION6_RELAY_MSG) as [[c o6]| | |]; [|done..]. cbn [mbind res_bind]. destruct (put_opt6 o6 _ _) as [[pp o7]| | |]; [|done..]. cbn [mbind res_bind]. intros ->. cbn [mbind res_bind].
  rewrite <- !app_assoc in H4. destruct (send_relays_all can idx o4 [DHCP6RELAYFORW; hop_count m] (replicate 16 0) (h_peer (h r0) ++ encs6 (mac_options (h r0) ++ [(OPTION6_RELAY_MSG, m)])) relays H4 eq_refl eq_refl Hloc) as (o8 & E8).
  rewrite G4, G3 in E8. rewrite E8. cbn [mbind res_bind]. exists o8. do 2 f_equal. apply list_fmap_ext. intros k r _. unfold forw1, relay_header. by rewrite <- !app_assoc.
Qed.

(** * The server *)

Lemma first6_split l p search minsize q :
  first6 l p search minsize = Some q → ∃ l1 x l2, l = l1 ++ x :: l2 ∧ q = p + zlen (encs6 l1) ∧ x.1 = search ∧ minsize ≤ zlen x.2.
Proof.
  revert p. induction l as [|x l IH]; intros p; cbn [first6]; [done|]. destruct (_ && _) eqn:E.
  - bool_hyps. intros [= <-]. exists [], x, l. change (zlen (encs6 [])) with 0. by rewrite Z.add_0_r.
  - intros (l1 & y & l2 & -> & -> & ? & ?)%IH. exists (x :: l1), y, l2. rewrite encs6_cons, zlen_app. split_and!; [done|lia|done|done].
Qed.

Lemma option_in buf p l1 x l2 : bytes_at buf p (encs6 (l1 ++ x :: l2)) → bytes_at buf (p + zlen (encs6 l1)) (enc6 x).
Proof. rewrite encs6_app, encs6_cons, !bytes_at_app. tauto. Qed.

(** No tag is found for vendors that have their mark, which they all have. *)
Lemma relay_tags_fresh buf p l s vs :
  bytes_at buf p (encs6 l) → Forall wf6 l → Forall (λ v, v_fresh v = true) vs → relay_tags buf p (p + zlen (encs6 l)) s vs = Ok s.
Proof.
  intros Hb Hw Hv. induction Hv as [|v vs Hf _ IH]; [done|]. cbn [relay_tags].
  assert (∀ mopt, (opt ← opt6_find buf (Some p) (p + zlen (encs6 l)) mopt 1;
    match opt with
    | None => relay_tags buf p (p + zlen (encs6 l)) s vs
    | Some opt =>
        len ← opt6_len buf opt;
        if negb (zlen (v_data v) =? len) then relay_tags buf p (p + zlen (encs6 l)) s vs
        else
          data ← read_bytes buf (opt6_ptr opt 0) (length (v_data v));
          if bool_decide (v_data v = data) && negb (v_fresh v) then Ok (with_tags s (v_net v :: s6_tags s)) else relay_tags buf p (p + zlen (encs6 l)) s vs
    end) = Ok s) as H.
  { intros mopt. rewrite opt6_find_enc by done. cbn [mbind res_bind]. destruct (first6 l p mopt 1) as [q|] eqn:E; [|done].
    apply first6_split in E as (l1 & x & l2 & El & Eq & _). rewrite El in Hb, Hw. apply option_in in Hb. rewrite <- Eq in Hb. apply Forall_app in Hw as [_ Hw]. apply Forall_cons in Hw as [Hx _].
    destruct (option_read _ _ _ Hb Hx) as (_ & _ & _ & -> & Hd). cbn [mbind res_bind]. destruct (Z.eqb_spec (zlen (v_data v)) (zlen x.2)) as [Ez|]; [|done]. cbn [negb].
    unfold opt6_ptr. rewrite Z.add_0_r. replace (length (v_data v)) with (length x.2) by (unfold zlen in Ez; lia). rewrite (read_bytes_at _ _ _ Hd). cbn [mbind res_bind]. by rewrite Hf, andb_false_r. }
  destruct (v_match v =? MATCH_SUBSCRIBER); [apply H|]. destruct (v_match v =? MATCH_REMOTE); [apply H|done].
Qed.

Definition set_mac (h : hop) (s : state6) : state6 := if zlen (h_mac h) =? 0 then s else with_mac s (h_mac h) (h_mactype h).
(** What the server knows when it comes to the message of the client. *)
Fixpoint seen (s : state6) (hops : list hop) : state6 :=
  match hops with [] => s | h :: hops => with_link (set_mac h (seen s hops)) (r_local (h_relay h)) end.
Lemma seen_snoc s hops h : seen s (hops ++ [h]) = seen (with_link (set_mac h s) (r_local (h_relay h))) hops.
Proof. induction hops as [|h' hops IH]; [done|]. cbn [app seen]. by rewrite IH. Qed.
Lemma seen_vendors s hops : s6_vendors (seen s hops) = s6_vendors s.
Proof. induction hops as [|h hops IH]; [done|]. cbn [seen]. unfold set_mac. by destruct (zlen (h_mac h) =? 0). Qed.

Lemma relay_mac_ok buf p h m s :
  wf_hop h → wf6 (OPTION6_RELAY_MSG, m) → bytes_at buf p (encs6 (mac_options h ++ [(OPTION6_RELAY_MSG, m)])) →
  relay_mac buf p (p + zlen (encs6 (mac_options h ++ [(OPTION6_RELAY_MSG, m)]))) s = Ok (Some (set_mac h s)).
Proof.
  intros Hw Hm Hb. unfold relay_mac. rewrite opt6_find_enc; [|done|apply Forall_app; split; [by apply mac_options_wf|by constructor]]. cbn [mbind res_bind].
  pose proof (mac_options_wf h Hw) as Hmw. unfold mac_options, set_mac in *. destruct (Z.eqb_spec (zlen (h_mac h)) 0) as [|Hne]; [done|].
  destruct Hw as (_ & _ & _ & _ & H5 & _ & H7). pose proof (zlen_nonneg (h_mac h)). unfold DHCP_CHADDR_MAX in H5. cbn [app first6 fst snd]. rewrite Z.eqb_refl. rewrite zlen_app. change (zlen (short_bytes _)) with 2.
  rewrite (proj2 (Z.leb_le 3 (2 + zlen (h_mac h)))) by lia. cbn [andb]. apply Forall_cons in Hmw as [Hx _]. cbn [app] in Hb. rewrite encs6_cons, bytes_at_app in Hb. destruct Hb as [Hb _].
  destruct (option_read _ _ _ Hb Hx) as (_ & _ & _ & -> & Hd). cbn [mbind res_bind fst snd] in *. rewrite zlen_app. change (zlen (short_bytes _)) with 2. replace (2 + zlen (h_mac h) - 2) with (zlen (h_mac h)) by lia.
  rewrite (proj2 (Z.ltb_ge DHCP_CHADDR_MAX (zlen (h_mac h)))) by (unfold DHCP_CHADDR_MAX; lia). rewrite bytes_at_app in Hd. destruct Hd as [Ht Hd].
  destruct (bytes_short _ _ _ Ht H7) as [_ U]. specialize (U 0). replace (p + 4 - 4 - 0) with p in U by lia. rewrite U. cbn [mbind res_bind]. unfold opt6_ptr. change (zlen (short_bytes _)) with 2 in Hd.
  replace (Z.to_nat (zlen (h_mac h))) with (length (h_mac h)) by (unfold zlen; lia). by rewrite (read_bytes_at _ _ _ Hd).
Qed.

(** The message in the options is answered by [rec]. *)
Lemma relay_options_msg fuel rec buf inbuff p m s o bs link r :
  wf6 (OPTION6_RELAY_MSG, m) → bytes_at buf p (enc6 (OPTION6_RELAY_MSG, m)) → bytes_at buf (inbuff + 2) link → length link = 16%nat → zlen r < 65536 →
  holds o bs → (∀ o' bs', holds o' bs' → ∃ s'' o'', rec (with_link s link) (p + 4) (zlen m) o' = Ok (true, s'', o'') ∧ holds o'' (bs' ++ r)) →
  ∃ s' o', relay_options (S (S fuel)) rec buf inbuff (p + zlen (enc6 (OPTION6_RELAY_MSG, m))) (Some p) s o = Ok (true, s', o') ∧ holds o' (bs ++ enc6 (OPTION6_RELAY_MSG, r)).
Proof.
  intros Hm Hb Hl H16 Hr Ho Hrec. pose proof (zlen_nonneg m). destruct (option_read _ _ _ Hb Hm) as (_ & _ & T & L & _). remember (S fuel) as f1. cbn [relay_options]. rewrite L. cbn [mbind res_bind snd].
  rewrite zlen_enc6. cbn [snd]. unfold opt6_ptr at 1. rewrite (proj2 (Z.ltb_ge (p + (4 + zlen m)) (p + 4 + 0 + zlen m))) by lia. rewrite T. cbn [mbind res_bind fst]. change (OPTION6_RELAY_MSG =? OPTION6_CLIENT_MAC) with false. cbv iota.
  destruct (new_opt6_holds o bs OPTION6_RELAY_MSG Ho) as (o1 & -> & H1 & _). cbn [mbind res_bind]. change (OPTION6_RELAY_MSG =? OPTION6_RELAY_MSG) with true. cbv iota.
  rewrite <- H16, (read_bytes_at _ _ _ Hl). cbn [mbind res_bind]. unfold opt6_ptr. rewrite Z.add_0_r. destruct (Hrec o1 _ H1) as (s2 & o2 & -> & H2). cbn [mbind res_bind].
  rewrite <- !app_assoc in H2. destruct (end_opt6_holds o2 bs OPTION6_RELAY_MSG 0 0 r H2 Hr) as (o3 & -> & H3 & _). cbn [mbind res_bind].
  rewrite (opt6_next_at buf p _ _ Hb Hm) by lia. cbn [snd mbind res_bind]. rewrite (proj2 (Z.leb_le (p + (4 + zlen m)) (p + 4 + zlen m))) by lia. subst f1. cbn [relay_options]. eauto.
Qed.

Lemma relay_options_ok fuel rec buf inbuff p h m s o bs r :
  wf_hop h → wf6 (OPTION6_RELAY_MSG, m) → bytes_at buf p (encs6 (mac_options h ++ [(OPTION6_RELAY_MSG, m)])) → bytes_at buf (inbuff + 2) (r_local (h_relay h)) → zlen r < 65536 →
  holds o bs → (∀ q o' bs', bytes_at buf q m → holds o' bs' → ∃ s'' o'', rec (with_link s (r_local (h_relay h))) q (zlen m) o' = Ok (true, s'', o'') ∧ holds o'' (bs' ++ r)) →
  ∃ s' o', relay_options (S (S (S fuel))) rec buf inbuff (p + zlen (encs6 (mac_options h ++ [(OPTION6_RELAY_MSG, m)]))) (Some p) s o = Ok (true, s', o') ∧
    holds o' (bs ++ enc6 (OPTION6_RELAY_MSG, r)).
Proof.
  intros Hw Hm Hb Hl Hr Ho Hrec. pose proof (mac_options_wf h Hw) as Hmw. pose proof Hw as (H16 & _). apply (zlen_inv _ 16) in H16. unfold mac_options in *.
  assert (∀ q, bytes_at buf q (enc6 (OPTION6_RELAY_MSG, m)) → bytes_at buf (q + 4) m) as Hq by (intros q Hq; by destruct (option_read _ _ _ Hq Hm) as (_ & _ & _ & _ & ?)).
  destruct (zlen (h_mac h) =? 0); cbn [app] in *.
  { rewrite encs6_single in *. apply (relay_options_msg (S fuel) _ _ _ _ _ _ _ _ (r_local (h_relay h))); try done. intros o' bs' Ho'. apply Hrec; [|done]. by apply Hq. }
  set (x := (OPTION6_CLIENT_MAC, _)) in *. rewrite encs6_cons, encs6_single in *. apply Forall_cons in Hmw as [Hx _]. rewrite bytes_at_app in Hb. destruct Hb as [Hbx Hbm].
  destruct (option_read _ _ _ Hbx Hx) as (_ & _ & T & L & _). rewrite zlen_app, !zlen_enc6 in *. pose proof (zlen_nonneg x.2). pose proof (zlen_nonneg m). remember (S (S fuel)) as f2. cbn [relay_options snd].
  rewrite L. cbn [mbind res_bind]. unfold opt6_ptr at 1. rewrite (proj2 (Z.ltb_ge (p + (4 + zlen x.2 + (4 + zlen m))) (p + 4 + 0 + zlen x.2))) by lia. rewrite T. cbn [mbind res_bind].
  change (x.1 =? OPTION6_CLIENT_MAC) with true. cbv iota. cbn [mbind res_bind]. rewrite (opt6_next_at buf p x _ Hbx Hx) by lia. cbn [mbind res_bind].
  rewrite (proj2 (Z.leb_gt (p + (4 + zlen x.2 + (4 + zlen m))) (p + 4 + zlen x.2))) by lia. subst f2. replace (p + (4 + zlen x.2)) with (p + 4 + zlen x.2) in Hbm by lia.
  destruct (relay_options_msg fuel rec buf inbuff (p + 4 + zlen x.2) m s o bs (r_local (h_relay h)) r Hm Hbm Hl H16 Hr Ho) as (s' & o' & E & H'); [intros o1 bs1 Ho1; apply Hrec; [by apply Hq|done]|].
  exists s', o'. split; [|done]. rewrite zlen_enc6 in E. cbn [snd] in E. by replace (p + (4 + zlen x.2 + (4 + zlen m))) with (p + 4 + zlen x.2 + (4 + zlen m)) by lia.
Qed.

Section server.
Context (dhcp6 : list context6) (shared : list shared6) (client_mac : list Z * Z).
Context (no_relay : state6 → Z → list Z → Z → Z → bool → outpacket → res (bool * state6 * outpacket)).
Context (m r : list Z) (t : Z).

(** The reply to the client's own message. *)
Definition answered (buf : list Z) (s : state6) : Prop :=
  ∀ at_ uni o bs, bytes_at buf at_ m → holds o bs → ∃ s' o', no_relay (client_state dhcp6 shared client_mac s) t buf at_ (zlen m) uni o = Ok (true, s', o') ∧ holds o' (bs ++ r).

Lemma forw_bytes i hops : Forall wf_hop hops → 0 ≤ i → i + zlen hops ≤ 256 → Forall is_byte m → Forall is_byte (forw i hops m).
Proof.
  intros Hw Hi. induction hops as [|h hops IH] using rev_ind; intros Hl Hm; [done|]. apply Forall_app in Hw as [Hw [Hh _]%Forall_cons]. rewrite zlen_app in Hl. change (zlen [h]) with 1 in Hl.
  rewrite forw_snoc. unfold forw1. rewrite encs6_app, encs6_single, !Forall_app. pose proof (zlen_nonneg hops). split_and!.
  - apply relay_header_bytes; [done|unfold is_byte, DHCP6RELAYFORW; lia|unfold is_byte; lia].
  - by apply encs6_bytes, mac_options_wf.
  - unfold enc6. rewrite !Forall_app. split; [apply short_bytes_byte|]. split; [apply short_bytes_byte|]. apply IH; [done|lia|done].
Qed.

Lemma bytes_at_prefix buf a l k : bytes_at buf a (l ++ k) → bytes_at buf a l.
Proof. rewrite bytes_at_app. tauto. Qed.

Lemma maybe_relay_ok fuel hops i buf inbuff s uni o bs :
  (length hops < fuel)%nat → Forall wf_hop hops → 0 ≤ i → i + zlen hops ≤ 256 → Forall is_byte m → head m = Some t → t ≠ DHCP6RELAYFORW →
  zlen (forw i hops m) < 65536 → zlen (repl i hops r) < 65536 → bytes_at buf inbuff (forw i hops m) → holds o bs → Forall (λ v, v_fresh v = true) (s6_vendors s) →
  s6_context (client_state dhcp6 shared client_mac (seen s hops)) ≠ [] → answered buf (seen s hops) →
  ∃ s' o', maybe_relay_loop dhcp6 shared client_mac no_relay fuel buf s inbuff (zlen (forw i hops m)) uni o = Ok (true, s', o') ∧ holds o' (bs ++ repl i hops r).
Proof.
  intros Hf Hw Hi0 Hi1 Hbm Hhd Ht. revert fuel Hf inbuff s uni o bs. induction hops as [|h hops IH] using rev_ind; intros [|fuel] Hf inbuff s uni o bs Hlf Hlr Hb Ho Hv Hctx Hans; try lia; cbn [maybe_relay_loop].
  - cbn [forw repl seen] in *. assert (rd buf inbuff = Ok t) as ->.
    { destruct Hb as [_ Hb]. specialize (Hb 0%nat t). change (Z.of_nat 0) with 0 in Hb. rewrite Z.add_0_r in Hb. apply Hb. by rewrite <- head_lookup. }
    cbn [mbind res_bind].
    rewrite (proj2 (Z.eqb_neq t DHCP6RELAYFORW) Ht). cbn [negb]. cbv zeta. destruct (s6_context _); [done|]. by apply Hans.
  - rewrite forw_snoc, repl_snoc, seen_snoc in *. rewrite zlen_app in Hi1. change (zlen [h]) with 1 in Hi1. rewrite length_app in Hf. cbn [length] in Hf.
    apply Forall_app in Hw as [Hw [Hh _]%Forall_cons]. set (im := forw i hops m) in *. set (ir := repl i hops r) in *. set (j := i + zlen hops) in *.
    pose proof (forw1_len j h im Hh) as Hlen1. pose proof (relay_header_len DHCP6RELAYFORW j h Hh) as Hh34. pose proof (zlen_nonneg im). pose proof (zlen_nonneg hops).
    assert (is_byte j) as Hj by (unfold is_byte; lia). pose proof (relay_header_bytes DHCP6RELAYFORW j h Hh ltac:(unfold is_byte, DHCP6RELAYFORW; lia) Hj) as Hhb.
    unfold forw1 in Hb. pose proof (bytes_at_prefix _ _ _ _ Hb) as Hbh. pose proof Hbh as Hbt. unfold relay_header in Hbt. cbn [app] in Hbt. rewrite !bytes_at_cons in Hbt. destruct Hbt as (_ & -> & _ & _ & Hbl). cbn [mbind res_bind].
    change (DHCP6RELAYFORW =? DHCP6RELAYFORW) with true. cbn [negb]. rewrite (proj2 (Z.ltb_ge (zlen (forw1 j h im)) 38)) by lia.
    rewrite bytes_at_app, Hh34 in Hb. destruct Hb as [_ Hbo]. rewrite bytes_at_app in Hbl. destruct Hbl as [Hbl _]. replace (inbuff + 1 + 1) with (inbuff + 2) in Hbl by lia.
    destruct (put_opt6_holds o bs buf inbuff (relay_header DHCP6RELAYFORW j h) Ho (read_bytes_at _ _ _ Hbh) Hhb) as (o1 & E1 & H1 & _). rewrite Hh34 in E1. rewrite E1. cbn [mbind res_bind].
    pose proof H1 as (Hc1 & Hm1 & rest & Eb1). unfold relay_header in Eb1. rewrite <- !app_assoc in Eb1.
    rewrite (store_holds o1 bs [DHCP6RELAYFORW] ([j] ++ r_local (h_relay h) ++ h_peer h ++ rest)); [|exact Eb1|done|done|constructor; [unfold is_byte, DHCP6RELAYREPL; lia|constructor]]. cbn [mbind res_bind]. set (o2 := with_base o1 _).
    assert (holds o2 (bs ++ relay_header DHCP6RELAYREPL j h)) as H2.
    { split_and!; [|done|exists rest; unfold o2, relay_header; cbn [with_base o_base]; by rewrite <- !app_assoc]. cbn [o2 with_base o_counter]. rewrite Hc1, !zlen_app, !relay_header_len by done. done. }
    assert (wf6 (OPTION6_RELAY_MSG, im)) as Hwm.
    { split_and!; cbn [fst snd]; [done|done|lia|]. apply forw_bytes; [done|done|lia|done]. }
    assert (inbuff + zlen (forw1 j h im) = inbuff + 34 + zlen (encs6 (mac_options h ++ [(OPTION6_RELAY_MSG, im)]))) as Eend by (unfold forw1; rewrite zlen_app, Hh34; lia).
    rewrite Eend. rewrite (relay_tags_fresh buf (inbuff + 34)); [|done|apply Forall_app; split; [by apply mac_options_wf|by constructor]|done]. cbn [mbind res_bind].
    rewrite (relay_mac_ok buf (inbuff + 34) h im s Hh Hwm Hbo). cbn [mbind res_bind].
    destruct (Z.to_nat (zlen (forw1 j h im))) as [|[|k]] eqn:Ek; [lia|lia|].
    unfold repl1 in *. rewrite app_assoc. apply relay_options_ok; try done.
    + rewrite zlen_app, relay_header_len, zlen_enc6 in Hlr by done. cbn [snd] in Hlr. lia.
    + intros q o' bs' Hq Ho'. apply (IH Hw ltac:(lia) fuel ltac:(lia) q); try done; [lia| |].
      * rewrite zlen_app, relay_header_len, zlen_enc6 in Hlr by done. cbn [snd] in Hlr. lia.
      * unfold set_mac. by destruct (zlen (h_mac h) =? 0).
Qed.
End server.

(** * The relay: down *)

Definition port_for (r : list Z) : Z := if bool_decide (head r = Some DHCP6RELAYREPL) then DHCPV6_SERVER_PORT else DHCPV6_CLIENT_PORT.

Lemma split_relay_app q pre l a x b : split_relay q pre l = Some (a, x, b) → pre ++ l = a ++ x :: b.
Proof.
  revert pre. induction l as [|y l IH]; intros pre; cbn [split_relay]; [done|]. destruct (q y); [by intros [= <- <- <-]|]. intros H%IH. by rewrite <- app_assoc in H.
Qed.

Lemma reply_delivers mem i h r buf iface relays pool o pre rl post :
  wf_hop h → bytes_at buf 0 (repl1 i h r) → 0 < zlen r < 65536 → Forall is_byte r → o_mem o = [] →
  split_relay (answers_for (r_local (h_relay h)) iface) [] relays = Some (pre, rl, post) →
  ∃ o', relay_reply6 false mem buf (zlen (repl1 i h r)) iface relays pool o = Ok (Some (Peer6 (h_peer h) (r_index rl) (port_for r)), o', relays, pool) ∧ holds o' r.
Proof.
  intros Hw Hb Hlr Hbr Hm Hs. pose proof (relay_header_len DHCP6RELAYREPL i h Hw) as H34. pose proof (split_relay_app _ _ _ _ _ _ Hs) as Erel. cbn [app] in Erel.
  assert (zlen (repl1 i h r) = 38 + zlen r) as Hz by (unfold repl1; rewrite zlen_app, H34, zlen_enc6; cbn [snd]; lia). unfold relay_reply6. rewrite Hz. rewrite (proj2 (Z.ltb_ge (38 + zlen r) 38)) by lia.
  unfold repl1 in Hb. rewrite bytes_at_app, H34, Z.add_0_l in Hb. destruct Hb as [Hbh Hbo]. unfold relay_header in Hbh. cbn [app] in Hbh. rewrite !bytes_at_cons, bytes_at_app in Hbh.
  destruct Hbh as (_ & -> & _ & _ & Hbl & Hbp). cbn [mbind res_bind]. change (DHCP6RELAYREPL =? DHCP6RELAYREPL) with true. cbn [negb]. destruct Hw as (Hl16 & Hp16 & _). change (0 + 1 + 1) with 2 in Hbl, Hbp. rewrite Hl16 in Hbp. change (2 + 16) with 18 in Hbp.
  apply (zlen_inv _ 16) in Hl16, Hp16. pose proof (read_bytes_at _ _ _ Hbl) as Rl. rewrite Hl16 in Rl. rewrite Rl. cbn [mbind res_bind]. cbv zeta. rewrite Hs.
  assert (wf6 (OPTION6_RELAY_MSG, r)) as Hwr by (split_and!; cbn [fst snd]; [done|done|lia|done]). destruct (option_read _ _ _ Hbo Hwr) as (_ & _ & T & L & Hbr0). cbn [fst snd] in *.
  assert (find_relay_msg (S (Z.to_nat (38 + zlen r))) buf (Some 34) (38 + zlen r) = Ok (Some (34, zlen r))) as ->.
  { cbn [find_relay_msg]. rewrite T. cbn [mbind res_bind]. rewrite L. cbn [mbind res_bind]. change (OPTION6_RELAY_MSG =? OPTION6_RELAY_MSG) with true. by rewrite (proj2 (Z.ltb_lt 0 (zlen r))) by lia. }
  cbn [mbind res_bind]. unfold opt6_ptr. change (34 + 4 + 0) with 38. change (34 + 4) with 38 in Hbr0. destruct r as [|t0 r0] eqn:Er; [change (zlen (@nil Z)) with 0 in Hlr; lia|]. rewrite <- Er in *.
  assert (rd buf 38 = Ok t0) as -> by (rewrite Er in Hbr0; by apply bytes_at_cons in Hbr0 as (_ & ? & _)). cbn [mbind res_bind].
  destruct (reset_holds o Hm) as (Hh & _). destruct (put_opt6_holds (reset_counter o) [] buf 38 r Hh (read_bytes_at _ _ _ Hbr0) Hbr) as (o1 & -> & H1 & _). cbn [mbind res_bind].
  pose proof (read_bytes_at _ _ _ Hbp) as Rp. rewrite Hp16 in Rp. rewrite Rp. cbn [mbind res_bind app andb] in *. exists o1. split; [|exact H1]. unfold port_for. rewrite Er. cbn [head].
  destruct (Z.eqb_spec t0 DHCP6RELAYREPL) as [->|Hne]; [by rewrite bool_decide_eq_true_2|]. rewrite bool_decide_eq_false_2 by congruence. do 3 f_equal. rewrite Erel. by destruct rl.
Qed.

(** The message of a client goes through each relay in turn. Every relay has a
    buffer like [o]. *)
Fixpoint go_up (o : outpacket) (hops : list hop) (msg : list Z) : res (list Z) :=
  match hops with
  | [] => Ok msg
  | h :: hops =>
      '(_, _, out) ← relay_upstream6 (λ _, true) (h_mac h) (h_mactype h) [h_relay h] (r_index (h_relay h)) msg (zlen msg) (h_peer h) o;
      match out with [d] => go_up o hops (d_bytes d) | _ => Bad end
  end.

(** What has been written. *)
Definition packet_of (o : outpacket) : list Z := take (Z.to_nat (o_counter o)) (o_base o).

(** The answer goes back through the relays, the last one first; the addresses it is
    sent to. *)
Fixpoint go_down (o : outpacket) (iface : cstring) (hops : list hop) (msg : list Z) : res (list Z * list peer6) :=
  match hops with
  | [] => Ok (msg, [])
  | h :: hops =>
      '(peer, o', _, _) ← relay_reply6 false true msg (zlen msg) iface [h_relay h] 0 o;
      match peer with
      | None => Bad
      | Some p => '(m, ps) ← go_down o iface hops (packet_of o'); Ok (m, p :: ps)
      end
  end.

Lemma holds_packet o bs : holds o bs → packet_of o = bs.
Proof. intros (Hc & _ & rest & E). unfold packet_of. rewrite Hc, E. unfold zlen. rewrite Nat2Z.id. by rewrite take_app_length. Qed.

Definition live_hop (iface : cstring) (h : hop) : Prop :=
  wf_hop h ∧ r_index (h_relay h) ≠ 0 ∧ match r_interface (h_relay h) with None => True | Some i => wildcard_match i iface = true end.

Lemma go_up_ok o hops i m :
  Forall wf_hop hops → Forall (λ h, r_index (h_relay h) ≠ 0) hops → hop_count m = i → 0 ≤ i → i + zlen hops ≤ 33 → 2 ≤ zlen m → Forall is_byte m → o_mem o = [] →
  zlen (forw i hops m) < 65536 → zlen (forw i hops m) ≤ zlen (o_base o) → go_up o hops m = Ok (forw i hops m).
Proof.
  revert i m. induction hops as [|h hops IH]; intros i m Hw Hx Hi Hi0 Hi1 Hm2 Hbm Hmem Hlf Hfit; [done|]. apply Forall_cons in Hw as [Hh Hw]. apply Forall_cons in Hx as [Hx0 Hx].
  cbn [go_up forw] in *. rewrite zlen_cons in Hi1. pose proof (zlen_nonneg hops). pose proof (forw_len (i + 1) hops (forw1 i h m) Hw). pose proof (forw1_len i h m Hh).
  destruct h as [rl peer mac ty]. cbn [h_relay h_mac h_mactype h_peer] in *.
  assert (relay_on (r_index rl) rl = true) as Hon by (unfold relay_on; by rewrite (proj2 (Z.eqb_neq _ 0) Hx0), Z.eqb_refl).
  destruct (upstream_sends (λ _, true) [rl] (r_index rl) peer mac ty m m o) as [o' E]; try done.
  - by constructor.
  - cbn [existsb]. by rewrite Hon.
  - apply bytes_at_self.
  - lia.
  - lia.
  - intros r. assert (zlen (forw1 i (Hop rl peer mac ty) m) = 34 + zlen (encs6 (mac_options (Hop r peer mac ty) ++ [(OPTION6_RELAY_MSG, m)]))) as E1; [|lia].
    unfold forw1. rewrite zlen_app, relay_header_len by done. done.
  - rewrite E. cbn [mbind res_bind]. rewrite filter_cons, decide_True by (unfold sends_to; rewrite Hon; cbn [negb andb]; by rewrite andb_false_r). cbn [fmap list_fmap filter d_bytes].
    rewrite Hi. apply IH; try done; [lia|lia|lia|].
    + assert (Forall is_byte (forw 0 [] m)) by done. unfold forw1. rewrite Forall_app. split; [apply relay_header_bytes; [done|unfold is_byte, DHCP6RELAYFORW; lia|unfold is_byte; lia]|].
      rewrite encs6_app, encs6_single, Forall_app. split; [by apply encs6_bytes, mac_options_wf|]. unfold enc6. rewrite !Forall_app. split; [apply short_bytes_byte|]. by split; [apply short_bytes_byte|].
Qed.

Lemma forw_count i hops m : Forall wf_hop hops → zlen m + 38 * zlen hops ≤ zlen (forw i hops m).
Proof.
  revert i m. induction hops as [|h hops IH]; intros i m Hw; cbn [forw]; [change (zlen (@nil hop)) with 0; lia|]. apply Forall_cons in Hw as [Hh Hw].
  rewrite zlen_cons. pose proof (forw1_len i h m Hh). specialize (IH (i + 1) (forw1 i h m) Hw). lia.
Qed.

Lemma repl_len i hops r : Forall wf_hop hops → zlen r ≤ zlen (repl i hops r).
Proof.
  revert i r. induction hops as [|h hops IH]; intros i r Hw; cbn [repl]; [done|]. apply Forall_cons in Hw as [Hh Hw]. pose proof (IH (i + 1) (repl1 i h r) Hw).
  unfold repl1 in *. rewrite zlen_app, relay_header_len, zlen_enc6 in H by done. cbn [snd] in H. lia.
Qed.
Lemma repl_bytes i hops r : Forall wf_hop hops → 0 ≤ i → i + zlen hops ≤ 256 → Forall is_byte r → Forall is_byte (repl i hops r).
Proof.
  revert i r. induction hops as [|h hops IH]; intros i r Hw Hi Hl Hr; cbn [repl]; [done|]. apply Forall_cons in Hw as [Hh Hw]. rewrite zlen_cons in Hl. pose proof (zlen_nonneg hops). apply IH; [done|lia|lia|].
  unfold repl1, enc6. rewrite !Forall_app. split; [apply relay_header_bytes; [done|unfold is_byte, DHCP6RELAYREPL; lia|unfold is_byte; lia]|]. split; [apply short_bytes_byte|]. by split; [apply short_bytes_byte|].
Qed.
Lemma repl_head i hops r : hops ≠ [] → head (repl i hops r) = Some DHCP6RELAYREPL.
Proof. destruct hops as [|h hops _] using rev_ind; [done|]. intros _. by rewrite repl_snoc. Qed.

(** Where the answer is sent by each relay on its way: to the address its message came from,
    at the port of relays except for the client. *)
Definition way_back (hops : list hop) : list peer6 :=
  match hops with
  | [] => []
  | h :: hops => ((λ h, Peer6 (h_peer h) (r_index (h_relay h)) DHCPV6_SERVER_PORT) <$> reverse hops) ++ [Peer6 (h_peer h) (r_index (h_relay h)) DHCPV6_CLIENT_PORT]
  end.

Lemma go_down_ok o iface hops i r :
  Forall (live_hop iface) hops → 0 ≤ i → i + zlen hops ≤ 256 → 0 < zlen r → Forall is_byte r → head r ≠ Some DHCP6RELAYREPL → zlen (repl i hops r) < 65536 → o_mem o = [] →
  go_down o iface (reverse hops) (repl i hops r) = Ok (r, way_back hops).
Proof.
  intros Hw Hi. induction hops as [|h hops IH] using rev_ind; intros Hl Hr Hbr Hhd Hlr Hm; [done|]. apply Forall_app in Hw as [Hw [(Hh & Hx & Hif) _]%Forall_cons].
  rewrite zlen_app in Hl. change (zlen [h]) with 1 in Hl. pose proof (zlen_nonneg hops). assert (Forall wf_hop hops) as Hw' by (eapply Forall_impl; [exact Hw|]; by intros ? [? _]).
  rewrite reverse_snoc. cbn [go_down]. rewrite repl_snoc in *. set (q := repl i hops r) in *. pose proof (repl_len i hops r Hw') as Hq. fold q in Hq.
  assert (zlen q < 65536) as Hq2 by (unfold repl1 in Hlr; rewrite zlen_app, relay_header_len, zlen_enc6 in Hlr by done; cbn [snd] in Hlr; lia).
  destruct (reply_delivers true (i + zlen hops) h q (repl1 (i + zlen hops) h q) iface [h_relay h] 0 o [] (h_relay h) []) as (o1 & -> & H1); [done|apply bytes_at_self|lia|apply repl_bytes; [done|done|lia|done]|done| |].
  { cbn [split_relay]. unfold answers_for. rewrite bool_decide_eq_true_2 by done. cbn [andb]. destruct (r_interface (h_relay h)); [by rewrite Hif|done]. }
  cbn [mbind res_bind]. rewrite (holds_packet _ _ H1). rewrite IH by (done || lia). cbn [mbind res_bind]. f_equal. f_equal. destruct hops as [|h0 hops].
  - cbn [way_back reverse app fmap list_fmap]. cbn [repl] in q. unfold port_for. subst q. by rewrite bool_decide_eq_false_2.
  - unfold port_for, q. rewrite repl_head by done. rewrite bool_decide_eq_true_2 by done. cbn [way_back app]. by rewrite reverse_snoc.
Qed.

