(* ===== verification/Dhcp6Safe.v ===== *)
(** A server behind relays handles every packet: it comes to an end and stays inside
    its buffers, as long as the buffer of the packet goes on for four bytes behind
    the packet. *)
From S2P Require Import Prelude Hostname Wire WireSafe WireExt NetAddr DhcpOpt DhcpOptSpec Outpacket Dhcp6 Dhcp6Spec.

Section safe.
Context (buf : list Z) (Hbytes : Forall is_byte buf).

Lemma read_bytes_total p n : 0 ≤ p → p + Z.of_nat n ≤ zlen buf → ∃ l, read_bytes buf p n = Ok l ∧ length l = n ∧ Forall is_byte l ∧ bytes_at buf p l.
Proof.
  revert p. induction n as [|n IH]; intros p Hp Hn; [exists []; split_and!; [done|done|constructor|by apply bytes_at_nil]|].
  cbn [read_bytes]. destruct (rd_in buf p ltac:(lia)) as (b & Eb & Hin). rewrite Eb. cbn [mbind res_bind]. destruct (IH (p + 1) ltac:(lia) ltac:(lia)) as (l & -> & El & Hl & Hat). cbn [mbind res_bind].
  exists (b :: l). rewrite bytes_at_cons. split_and!; [done|by cbn; rewrite El| |done|done|done]. constructor; [|done]. by eapply Forall_forall in Hbytes.
Qed.

Lemma short_total p : 0 ≤ p → p + 2 ≤ zlen buf → ∃ v, 0 ≤ v < 65536 ∧ GETSHORT buf p = Ok (v, p + 2) ∧ ∀ n, opt6_uint buf (p - 4 - n) n 2 = Ok v.
Proof.
  intros Hp Hl. destruct (read_bytes_total p 2 Hp ltac:(lia)) as (l & _ & El & Hb & Hat). destruct l as [|a [|b [|]]]; try done. apply Forall_cons in Hb as [Ha Hb]. apply Forall_cons in Hb as [Hb _].
  unfold is_byte in *. exists (a * 256 + b). split; [lia|]. assert (short_bytes (a * 256 + b) = [a; b]) as E.
  { unfold short_bytes. rewrite Z.shiftr_div_pow2 by lia. change (2 ^ 8) with 256. unfold u8, u16. f_equal; [dlia|]. f_equal. dlia. }
  rewrite <- E in Hat. apply bytes_short; [done|lia].
Qed.

Lemma opt6_total q : 0 ≤ q → q + 4 ≤ zlen buf →
  ∃ ty len, 0 ≤ len < 65536 ∧ 0 ≤ ty < 65536 ∧ opt6_type buf q = Ok ty ∧ opt6_len buf q = Ok len ∧ GETSHORT buf q = Ok (ty, q + 2) ∧ GETSHORT buf (q + 2) = Ok (len, q + 4).
Proof.
  intros Hq Hl. destruct (short_total q Hq ltac:(lia)) as (ty & Ht & G1 & U1). destruct (short_total (q + 2) ltac:(lia) ltac:(lia)) as (len & Hlen & G2 & U2).
  exists ty, len. specialize (U1 (-4)). specialize (U2 (-2)). replace (q - 4 - -4) with q in U1 by lia. replace (q + 2 - 4 - -2) with q in U2 by lia. replace (q + 2 + 2) with (q + 4) in G2 by lia. done.
Qed.

(** An option that a search has found. *)
Definition found (p e minsize : Z) (r : option Z) : Prop :=
  match r with None => True | Some q => p ≤ q ∧ ∃ len, opt6_len buf q = Ok len ∧ minsize ≤ len ∧ q + 4 + len ≤ e end.

Lemma opt6_find_loop_total fuel p e search minsize :
  0 ≤ p → e ≤ zlen buf → (Z.to_nat (e - p) < fuel)%nat → twp (opt6_find_loop fuel buf p e search minsize) (found p e minsize).
Proof.
  revert p. induction fuel as [|fuel IH]; intros p Hp He Hf; [lia|]. cbn [opt6_find_loop]. destruct (Z.ltb_spec (e - p) 4); [done|].
  destruct (opt6_total p Hp ltac:(lia)) as (ty & len & Hlen & _ & _ & L & G1 & G2). rewrite G1. cbn [mbind res_bind]. rewrite G2. cbn [mbind res_bind].
  destruct (Z.ltb_spec (e - (p + 4)) len); [done|]. destruct (_ && _) eqn:Em; bool_hyps; [cbn [twp found]; split; [lia|]; exists len; split_and!; [done|lia|lia]|].
  eapply twp_mono; [apply IH; lia|]. intros [q|]; [|done]. intros [? ?]. split; [lia|done].
Qed.
Lemma opt6_find_total p e search minsize : 0 ≤ p → e ≤ zlen buf → twp (opt6_find buf (Some p) e search minsize) (found p e minsize).
Proof. intros Hp He. apply opt6_find_loop_total; [done|done|lia]. Qed.

Lemma relay_tags_total p e s vs : 0 ≤ p → e ≤ zlen buf → twp (relay_tags buf p e s vs) (λ s', s6_vendors s' = s6_vendors s).
Proof.
  intros Hp He. induction vs as [|v vs IH]; [done|]. cbn [relay_tags]. destruct (if v_match v =? MATCH_SUBSCRIBER then _ else _) as [mopt|]; [|done].
  twp_step. eapply twp_mono; [by apply opt6_find_total|]. intros [q|]; [|done]. intros (Hq & len & L & Hl & Hle). rewrite L. cbn [mbind res_bind]. destruct (Z.eqb_spec (zlen (v_data v)) len) as [El|]; [|done]. cbn [negb].
  twp_step. unfold opt6_ptr. rewrite Z.add_0_r. destruct (read_bytes_total (q + 4) (length (v_data v)) ltac:(lia)) as (l & -> & _); [unfold zlen in *; lia|]. cbn [twp]. by destruct (_ && _).
Qed.

Lemma relay_mac_total p e s : 0 ≤ p → e ≤ zlen buf → twp (relay_mac buf p e s) (λ r, match r with Some s' => s6_vendors s' = s6_vendors s | None => True end).
Proof.
  intros Hp He. unfold relay_mac. twp_step. eapply twp_mono; [by apply opt6_find_total|]. intros [q|]; [|done]. intros (Hq & len & L & Hl & Hle). rewrite L. cbn [mbind res_bind].
  destruct (DHCP_CHADDR_MAX <? len - 2); [done|]. unfold opt6_uint, opt6_ptr. rewrite Z.add_0_r. destruct (read_bytes_total (q + 4) (Z.to_nat 2) ltac:(lia) ltac:(lia)) as (l & -> & _). cbn [mbind res_bind].
  destruct (read_bytes_total (q + 4 + 2) (Z.to_nat (len - 2)) ltac:(lia) ltac:(lia)) as (l2 & -> & _). done.
Qed.

Lemma opt6_next_total p e : 0 ≤ p → e ≤ zlen buf → twp (opt6_next buf p e) (λ r, match r with Some q => p + 4 ≤ q < e | None => True end).
Proof.
  intros Hp He. unfold opt6_next. destruct (Z.ltb_spec (e - p) 4); [done|]. destruct (opt6_total p Hp ltac:(lia)) as (ty & len & Hlen & _ & _ & _ & _ & ->). cbn [mbind res_bind twp].
  destruct (Z.leb_spec (e - (p + 4)) len); [done|]. lia.
Qed.

(** What an operation on the buffer may leave. *)
Definition grows (bs : list Z) (r : bool * state6 * outpacket) : Prop := ∃ k, holds r.2 (bs ++ k).

Lemma relay_options_total fuel rec inbuff e p s o bs :
  0 ≤ inbuff → inbuff + 34 ≤ p → p < e → e + 4 ≤ zlen buf → (Z.to_nat (e - p) < fuel)%nat → holds o bs →
  (∀ s q n o bs, inbuff + 38 ≤ q → 0 ≤ n → q + n ≤ e → holds o bs → twp (rec s q n o) (grows bs)) →
  twp (relay_options fuel rec buf inbuff e (Some p) s o) (grows bs).
Proof.
  intros Hi Hp Hpe He Hf Ho Hrec. revert p s o bs Hp Hpe Hf Ho. induction fuel as [|fuel IH]; intros p s o bs Hp Hpe Hf Ho; [lia|]. cbn [relay_options].
  destruct (opt6_total p ltac:(lia) ltac:(lia)) as (ty & len & Hlen & Hty & T & L & _). rewrite L. cbn [mbind res_bind]. unfold opt6_ptr. rewrite !Z.add_0_r.
  destruct (Z.ltb_spec e (p + 4 + len)); [exists []; by rewrite app_nil_r|]. rewrite T. cbn [mbind res_bind]. twp_step.
  apply (twp_mono _ (grows bs)).
  { destruct (ty =? OPTION6_CLIENT_MAC); [exists []; by rewrite app_nil_r|]. destruct (new_opt6_holds o bs ty Ho) as (o1 & -> & H1 & _). cbn [mbind res_bind]. twp_step.
    apply (twp_mono _ (grows (bs ++ short_bytes ty ++ [0; 0]))).
    - destruct (ty =? OPTION6_RELAY_MSG).
      + destruct (read_bytes_total (inbuff + 2) 16 ltac:(lia) ltac:(lia)) as (l & -> & _). cbn [mbind res_bind]. apply Hrec; [lia|lia|lia|done].
      + destruct (read_bytes_total (p + 4) (Z.to_nat len) ltac:(lia) ltac:(lia)) as (l & E & El & Hlb & Hat). pose proof (read_bytes_at _ _ _ Hat) as Hr.
        destruct (put_opt6_holds o1 _ buf (p + 4) l H1 Hr Hlb) as (o2 & E2 & H2 & _). replace (zlen l) with len in E2 by (unfold zlen; lia). rewrite E2. by exists l.
    - intros [[ok s2] o2] [k H2]. cbn [snd] in H2. destruct ok; [|exists ((short_bytes ty ++ [0; 0]) ++ k); by rewrite app_assoc].
      rewrite <- !app_assoc in H2. destruct (end_opt6_any o2 bs _ _ 0 0 k H2) as (o3 & k3 & -> & _ & H3). cbn [mbind res_bind twp]. by eexists. }
  intros [[ok s2] o2] [k H2]. cbn [snd] in H2. destruct ok; [|by exists k]. twp_step. eapply twp_mono; [apply opt6_next_total; lia|]. intros [q|] Hq; [|destruct fuel; [lia|by exists k]].
  eapply twp_mono; [apply (IH q s2 o2 (bs ++ k)); try done; lia|]. intros [[ok3 s3] o3] [k3 H3]. exists (k ++ k3). by rewrite app_assoc.
Qed.
End safe.

(** A handler of the messages of clients that stays inside the buffer. *)
Definition handles (no_relay : state6 → Z → list Z → Z → Z → bool → outpacket → res (bool * state6 * outpacket)) (buf : list Z) : Prop :=
  ∀ s t at_ sz uni o bs, 0 ≤ at_ → 0 ≤ sz → at_ + sz + 4 ≤ zlen buf → holds o bs → twp (no_relay s t buf at_ sz uni o) (grows bs).

Lemma maybe_relay_total dhcp6 shared client_mac no_relay fuel buf s inbuff sz uni o bs :
  Forall is_byte buf → handles no_relay buf → (Z.to_nat sz < fuel)%nat → 0 ≤ inbuff → 0 ≤ sz → inbuff + sz + 4 ≤ zlen buf → holds o bs →
  twp (maybe_relay_loop dhcp6 shared client_mac no_relay fuel buf s inbuff sz uni o) (grows bs).
Proof.
  intros Hb Hn. revert s inbuff sz uni o bs. induction fuel as [|fuel IH]; intros s inbuff sz uni o bs Hf Hi Hz Hl Ho; [lia|]. cbn [maybe_relay_loop].
  assert (grows bs (false, s, o)) as Hsame by (exists []; by rewrite app_nil_r). destruct (rd_in buf inbuff ltac:(lia)) as (t & -> & _). cbn [mbind res_bind]. destruct (negb (t =? DHCP6RELAYFORW)).
  { cbv zeta. destruct (s6_context _); [exists []; by rewrite app_nil_r|]. by apply Hn. }
  destruct (Z.ltb_spec sz 38); [done|]. destruct (read_bytes_total buf Hb inbuff 34 ltac:(lia) ltac:(lia)) as (hd & _ & El & Hhb & Hat).
  destruct (put_opt6_holds o bs buf inbuff hd Ho (read_bytes_at _ _ _ Hat) Hhb) as (o1 & E1 & H1 & _). replace (zlen hd) with 34 in E1 by (unfold zlen; lia). rewrite E1. cbn [mbind res_bind].
  destruct hd as [|x hd]; [done|]. pose proof H1 as (Hc1 & Hm1 & rest & Eb1). rewrite <- app_assoc in Eb1. cbn [app] in Eb1.
  rewrite (store_holds o1 bs [x] (hd ++ rest)); [|exact Eb1|done|done|constructor; [unfold is_byte, DHCP6RELAYREPL; lia|constructor]]. cbn [mbind res_bind]. set (o2 := with_base o1 _).
  assert (holds o2 (bs ++ DHCP6RELAYREPL :: hd)) as H2.
  { split_and!; [|done|exists rest; cbn [o2 with_base o_base]; by rewrite <- !app_assoc]. cbn [o2 with_base o_counter]. by rewrite Hc1, !zlen_app, !zlen_cons. }
  twp_step. eapply twp_mono; [apply relay_tags_total; [done|lia|lia]|]. intros s1 _. twp_step. eapply twp_mono; [apply relay_mac_total; [done|lia|lia]|]. intros [s2|] _; [|by eexists].
  eapply twp_mono; [apply (relay_options_total buf Hb (S (Z.to_nat sz)) _ inbuff (inbuff + sz) (inbuff + 34) s2 o2 _ Hi ltac:(lia) ltac:(lia) ltac:(lia) ltac:(lia) H2)|].
  - intros s3 q n o3 bs3 Hq Hn0 Hqn Ho3. apply IH; [lia|lia|lia|lia|done].
  - intros [[ok s4] o4] [k Hk]. exists ((DHCP6RELAYREPL :: hd) ++ k). by rewrite app_assoc.
Qed.


(** * Times *)

Lemma halve_le fuel fuzz limit : 0 ≤ fuzz < 2 ^ Z.of_nat fuel → 0 ≤ limit → 0 ≤ halve fuel fuzz limit ≤ limit.
Proof.
  revert fuzz. induction fuel as [|fuel IH]; intros fuzz Hf Hl; cbn [halve]; [change (2 ^ Z.of_nat 0) with 1 in Hf; lia|]. destruct (Z.ltb_spec limit fuzz); [|lia].
  rewrite Nat2Z.inj_succ, Z.pow_succ_r in Hf by lia. apply IH; [|done]. split; [apply Z.div_pos; lia|apply Z.div_lt_upper_bound; lia].
Qed.

Lemma ia_times_ok min_time rand :
  16 ≤ min_time < 4294967296 →
  let '(t1, t2) := ia_times min_time (fuzz_of rand min_time) in 0 ≤ t1 ≤ t2 ∧ t2 ≤ min_time ∧ (min_time ≠ 4294967295 → 7 * (min_time / 16) ≤ t1).
Proof.
  intros Hm. assert (0 ≤ fuzz_of rand min_time ≤ min_time / 16) as Hf.
  { destruct rand as [x|]; cbn [fuzz_of]; [|split; [lia|apply Z.div_pos; lia]]. apply halve_le; [change (2 ^ Z.of_nat 17) with 131072; pose proof (u16_bound x); lia|apply Z.div_pos; lia]. }
  unfold ia_times. destruct (Z.eqb_spec min_time 4294967295); [lia|]. generalize dependent (fuzz_of rand min_time). intros f Hf.
  pose proof (Z.div_mod min_time 16 ltac:(lia)). pose proof (Z.mod_pos_bound min_time 16 ltac:(lia)).
  assert (min_time / 2 = 8 * (min_time / 16) + min_time mod 16 / 2) as E2 by dlia. assert (min_time / 8 = 2 * (min_time / 16) + min_time mod 16 / 8) as E8 by dlia.
  assert (0 ≤ min_time mod 16 / 2 ≤ 7 ∧ 0 ≤ min_time mod 16 / 8 ≤ 1 ∧ min_time mod 16 / 8 * 8 ≤ min_time mod 16 ∧ min_time mod 16 / 2 ≤ min_time mod 16) by dlia.
  assert (min_time mod 16 / 2 ≤ 6 * (min_time / 16) + min_time mod 16 / 8 * 7) as Hor by dlia.
  unfold u32. rewrite (Z.mod_small (min_time / 8 * 7)) by lia. rewrite !Z.mod_small by lia. lia.
Qed.

(** The times of an identity association are in order whatever the random number: the
    renewal time T1 is at most the rebinding time T2, which is at most the shortest
    lifetime of its addresses; neither wraps round, and T1 is at least seven
    sixteenths of that lifetime but for rounding. Lifetimes are never longer than the
    lease, and the preferred one is not longer than the valid one unless the client
    has asked for a valid lifetime alone. *)
Theorem ia_times_ordered deprecated min0 req_valid req_preferred lease_time rand :
  120 ≤ min0 < 4294967296 → 120 ≤ lease_time < 4294967296 → 0 ≤ req_valid < 4294967296 → 0 ≤ req_preferred < 4294967296 →
  let '(min_time, valid, preferred) := calculate_times deprecated min0 req_valid req_preferred lease_time in
  let '(t1, t2) := ia_times min_time (fuzz_of rand min_time) in
  min_time = (if preferred =? 0 then Z.min min0 valid else Z.min (Z.min min0 preferred) valid) ∧
  120 ≤ valid ≤ lease_time ∧ 0 ≤ preferred ≤ lease_time ∧ (req_preferred ≠ 0 ∨ req_valid = 0 → preferred ≤ valid) ∧
  0 ≤ t1 ≤ t2 ∧ t2 ≤ min_time ∧ (min_time ≠ 4294967295 → 7 * (min_time / 16) ≤ t1).
Proof.
  intros H0 Hl Hv Hp. destruct (calculate_times _ _ _ _ _) as [[min_time valid] preferred] eqn:E.
  assert (min_time = (if preferred =? 0 then Z.min min0 valid else Z.min (Z.min min0 preferred) valid) ∧ 120 ≤ valid ≤ lease_time ∧ (preferred = 0 ∨ 120 ≤ preferred ≤ lease_time) ∧
    (req_preferred ≠ 0 ∨ req_valid = 0 → preferred ≤ valid)) as (Em & Hva & Hpr & Hle).
  { revert E. unfold calculate_times. destruct (Z.leb_spec req_preferred req_valid), (Z.eqb_spec req_valid 0), (Z.eqb_spec req_preferred 0), deprecated; intros [= <- <- <-];
      rewrite ?Z.eqb_refl; repeat match goal with |- context [?a =? 0] => destruct (Z.eqb_spec a 0); try lia end; cbn [negb andb];
      repeat match goal with |- context [?a <? ?b] => lazymatch b with context [if _ then _ else _] => fail | _ => destruct (Z.ltb_spec a b) end end; lia. }
  assert (16 ≤ min_time < 4294967296) as Hm by (destruct (Z.eqb_spec preferred 0); lia).
  pose proof (ia_times_ok min_time rand Hm) as Hi. destruct (ia_times min_time _) as [t1 t2]. split_and!; lia.
Qed.
Lemma ia_times_ordered_witness :
  let '(min_time, valid, preferred) := calculate_times false 4294967295 7200 3600 86400 in
  let '(t1, t2) := ia_times min_time (fuzz_of (Some 40000) min_time) in
  min_time = (if preferred =? 0 then Z.min 4294967295 valid else Z.min (Z.min 4294967295 preferred) valid) ∧
  120 ≤ valid ≤ 86400 ∧ 0 ≤ preferred ≤ 86400 ∧ (3600 ≠ 0 ∨ 7200 = 0 → preferred ≤ valid) ∧
  0 ≤ t1 ≤ t2 ∧ t2 ≤ min_time ∧ (min_time ≠ 4294967295 → 7 * (min_time / 16) ≤ t1).
Proof. exact (ia_times_ordered false 4294967295 7200 3600 86400 (Some 40000) ltac:(lia) ltac:(lia) ltac:(lia) ltac:(lia)). Defined.

(** A client that asks for a valid lifetime and leaves the preferred one open gets a preferred
    lifetime longer than the valid one. *)
Example preferred_exceeds_valid : calculate_times false 4294967295 200 0 3600 = (200, 200, 3600).
Proof. done. Qed.

(** * An exchange *)

Definition net_of (n : Z) : list Z := [32; 1; 13; 184; 0; 0; 0; n; 0; 0; 0; 0; 0; 0; 0; 1].
Definition demo_hops : list hop :=
  [Hop (Relay6 (net_of 1) (net_of 2) None 3 547 []) (net_of 9) [2; 0; 0; 0; 0; 7] 1; Hop (Relay6 (net_of 2) (net_of 3) None 4 547 []) (net_of 1) [] 0].
Definition demo_message : list Z := [1; 10; 20; 30] ++ encs6 [(1, [0; 3; 0; 1])].
Definition demo_reply : list Z := [7; 10; 20; 30] ++ encs6 [(2, [0; 9])].
Definition demo_contexts : list context6 := [Context6 (net_of 1) (net_of 1) 64 CONTEXT_DHCP 0 0].
(** A handler that writes its reply. *)
Definition demo_handler (s : state6) (t : Z) (buf : list Z) (at_ sz : Z) (uni : bool) (o : outpacket) : res (bool * state6 * outpacket) :=
  '(_, o) ← put_opt6 o (Some (demo_reply, 0)) (zlen demo_reply); Ok (true, s, o).
Definition demo_out : outpacket := Out (replicate 548 0) 0 0 [].

Lemma demo_reply_bytes : Forall is_byte demo_reply.
Proof. by apply bytes_forallb. Qed.
Lemma demo_handler_writes s t buf at_ sz uni o bs : holds o bs → ∃ s' o', demo_handler s t buf at_ sz uni o = Ok (true, s', o') ∧ holds o' (bs ++ demo_reply).
Proof.
  intros Ho. unfold demo_handler. destruct (put_opt6_holds o bs demo_reply 0 demo_reply Ho (read_bytes_at _ _ _ (bytes_at_self _)) demo_reply_bytes) as (o' & -> & H' & _). cbn [mbind res_bind]. by eauto.
Qed.



(** * What goes wrong *)

(** A relay whose buffer has to grow for the message writes its address through a pointer to
    the memory that has been freed. *)
Example relay_header_dangles :
  relay_upstream6 (λ _, true) [] 0 [Relay6 (net_of 1) (net_of 2) None 3 547 []] 3 demo_message (zlen demo_message) (net_of 9) (Out [] 0 0 []) = Oob.
Proof. by vm_compute. Qed.

(** The length of the message in a relayed reply is not checked: a packet of 38 bytes whose option
    says 100 bytes is read beyond its end. *)
Example relay_reply_overreads :
  relay_reply6 false true ([13; 0] ++ net_of 1 ++ net_of 9 ++ [0; 9; 0; 100]) 38 [101] [Relay6 (net_of 1) (net_of 2) None 3 547 []] 0 demo_out = Oob.
Proof. by vm_compute. Qed.

(** One byte behind the last option of a relayed message is taken for an option, of which the
    three other bytes are behind the packet. *)
Example trailing_byte_overread :
  let packet := [12; 0] ++ net_of 1 ++ net_of 9 ++ [0; 18; 0; 0] ++ [0] in
  dhcp6_reply demo_contexts [] ([], 0) demo_handler packet (zlen packet) [] [] (net_of 2) demo_out = Oob.
Proof. by vm_compute. Qed.

(** The end of an option that there was no memory for is written behind the buffer. *)
Example end_of_missing_option : ('(c, o) ← new_opt6 (Out [] 0 0 [false]) 1; end_opt6 o c) = Oob.
Proof. by vm_compute. Qed.
