(* ===== verification/Lease.v ===== *)
(** The lease database (src/src/lease.c): allocation, expiry, searches, the
    updates of a lease and the queue of lease-change scripts, for a build with
    DHCPv6 and scripts. The lists of leases are lists of addresses; a lease that
    has been freed is no longer in the heap, so that a later use of it is
    caught. *)
From S2P Require Import Prelude Hostname NetAddr.

Definition LEASE_NEW : Z := 1.
Definition LEASE_CHANGED : Z := 2.
Definition LEASE_AUX_CHANGED : Z := 4.
Definition LEASE_AUTH_NAME : Z := 8.
Definition LEASE_USED : Z := 16.
Definition LEASE_NA : Z := 32.
Definition LEASE_TA : Z := 64.
Definition LEASE_HAVE_HWADDR : Z := 128.
Definition LEASE_EXP_CHANGED : Z := 256.

(** * The state *)

(** struct dhcp_lease. [hwaddr] is the array of DHCP_CHADDR_MAX bytes; addresses
    are in host order, IPv6 addresses lists of 16 bytes. *)
Record dhcp_lease := Lease {
  clid_len : Z; clid : option (list Z);
  l_hostname : option cstring; fqdn : option cstring; old_hostname : option cstring;
  l_flags : Z; expires : Z;
  hwaddr_len : Z; hwaddr_type : Z; hwaddr : list Z;
  l_addr : Z; last_interface : Z; addr6 : list Z; iaid : Z }.

(** The static variables of the file and the heap the leases live in. *)
Record lease_db := LeaseDb {
  heap : gmap Z dhcp_lease; leases : list Z; old_leases : list Z;
  leases_left : Z; file_dirty : bool; dns_dirty : bool }.

Definition get_lease (db : lease_db) (p : Z) : res dhcp_lease :=
  match heap db !! p with Some l => Ok l | None => Oob end.
Definition put_lease (db : lease_db) (p : Z) (l : dhcp_lease) : lease_db :=
  LeaseDb (<[p := l]> (heap db)) (leases db) (old_leases db) (leases_left db) (file_dirty db) (dns_dirty db).
Definition set_dirty (db : lease_db) (file dns : bool) : lease_db :=
  LeaseDb (heap db) (leases db) (old_leases db) (leases_left db) (file_dirty db || file) (dns_dirty db || dns).

Definition with_flags (l : dhcp_lease) (f : Z) : dhcp_lease :=
  Lease (clid_len l) (clid l) (l_hostname l) (fqdn l) (old_hostname l) f (expires l) (hwaddr_len l) (hwaddr_type l) (hwaddr l)
        (l_addr l) (last_interface l) (addr6 l) (iaid l).
Definition with_names (l : dhcp_lease) (h f o : option cstring) : dhcp_lease :=
  Lease (clid_len l) (clid l) h f o (l_flags l) (expires l) (hwaddr_len l) (hwaddr_type l) (hwaddr l)
        (l_addr l) (last_interface l) (addr6 l) (iaid l).
Definition with_expires (l : dhcp_lease) (e : Z) : dhcp_lease :=
  Lease (clid_len l) (clid l) (l_hostname l) (fqdn l) (old_hostname l) (l_flags l) e (hwaddr_len l) (hwaddr_type l) (hwaddr l)
        (l_addr l) (last_interface l) (addr6 l) (iaid l).
Definition with_hwaddr (l : dhcp_lease) (n t : Z) (a : list Z) : dhcp_lease :=
  Lease (clid_len l) (clid l) (l_hostname l) (fqdn l) (old_hostname l) (l_flags l) (expires l) n t a
        (l_addr l) (last_interface l) (addr6 l) (iaid l).
Definition with_clid (l : dhcp_lease) (n : Z) (c : option (list Z)) : dhcp_lease :=
  Lease n c (l_hostname l) (fqdn l) (old_hostname l) (l_flags l) (expires l) (hwaddr_len l) (hwaddr_type l) (hwaddr l)
        (l_addr l) (last_interface l) (addr6 l) (iaid l).
Definition with_addr (l : dhcp_lease) (a : Z) (a6 : list Z) (ia : Z) : dhcp_lease :=
  Lease (clid_len l) (clid l) (l_hostname l) (fqdn l) (old_hostname l) (l_flags l) (expires l) (hwaddr_len l) (hwaddr_type l) (hwaddr l)
        a (last_interface l) a6 ia.
Definition with_interface (l : dhcp_lease) (i : Z) : dhcp_lease :=
  Lease (clid_len l) (clid l) (l_hostname l) (fqdn l) (old_hostname l) (l_flags l) (expires l) (hwaddr_len l) (hwaddr_type l) (hwaddr l)
        (l_addr l) i (addr6 l) (iaid l).

(** [lease->flags & (LEASE_TA | LEASE_NA)] *)
Definition is_v6 (l : dhcp_lease) : bool := flag (l_flags l) (Z.lor LEASE_TA LEASE_NA).

(** * Searches *)

(** [for (lease = leases; lease; lease = lease->next) if (p) return lease] *)
Fixpoint find_lease (db : lease_db) (p : dhcp_lease → res bool) (ids : list Z) : res (option Z) :=
  match ids with
  | [] => Ok None
  | id :: ids =>
      l ← get_lease db id;
      b ← p l;
      if b : bool then Ok (Some id) else find_lease db p ids
  end.

(** [memcmp(a, b, n) == 0]; [b] may be NULL. *)
Definition mem_eq (a : list Z) (b : option (list Z)) (n : Z) : res bool :=
  if n =? 0 then Ok true
  else match b with
       | None => Oob
       | Some b => if (zlen a <? n) || (zlen b <? n) then Oob else Ok (bool_decide (take (Z.to_nat n) a = take (Z.to_nat n) b))
       end.

Definition same_clid (c : list Z) (n : Z) (l : dhcp_lease) : res bool :=
  match clid l with
  | None => Ok false
  | Some _ => if n =? clid_len l then mem_eq c (clid l) n else Ok false
  end.

Definition lease_find_by_client (db : lease_db) (hw : list Z) (hw_len hw_type : Z) (c : option (list Z)) (c_len : Z) : res (option Z) :=
  r ← (match c with
       | None => Ok None
       | Some c => find_lease db (λ l, if is_v6 l then Ok false else same_clid c c_len l) (leases db)
       end);
  match r with
  | Some id => Ok (Some id)
  | None =>
      find_lease db (λ l,
        if is_v6 l then Ok false
        else if (bool_decide (clid l = None) || bool_decide (c = None)) && negb (hw_len =? 0) &&
                (hwaddr_len l =? hw_len) && (hwaddr_type l =? hw_type)
        then mem_eq hw (Some (hwaddr l)) hw_len else Ok false) (leases db)
  end.

Definition lease_find_by_addr (db : lease_db) (a : Z) : res (option Z) :=
  find_lease db (λ l, Ok (negb (is_v6 l) && (l_addr l =? a))) (leases db).

Definition lease6_find (db : lease_db) (c : list Z) (c_len lease_type ia : Z) (a6 : list Z) : res (option Z) :=
  find_lease db (λ l,
    if negb (flag (l_flags l) lease_type) || negb (iaid l =? ia) then Ok false
    else if negb (bool_decide (addr6 l = a6)) then Ok false
    else if negb (c_len =? clid_len l) then Ok false
    else mem_eq c (clid l) c_len) (leases db).

(** What follows an element of a list of leases. *)
Fixpoint after (p : Z) (ids : list Z) : list Z :=
  match ids with [] => [] | id :: ids => if id =? p then ids else after p ids end.

Definition lease6_find_by_client (db : lease_db) (first : option Z) (lease_type : Z) (c : list Z) (c_len ia : Z) : res (option Z) :=
  find_lease db (λ l,
    if flag (l_flags l) LEASE_USED then Ok false
    else if negb (flag (l_flags l) lease_type) || negb (iaid l =? ia) then Ok false
    else if negb (c_len =? clid_len l) then Ok false
    else mem_eq c (clid l) c_len)
    (match first with None => leases db | Some p => after p (leases db) end).

Definition lease6_find_by_addr (db : lease_db) (net : list Z) (prefix a : Z) : res (option Z) :=
  find_lease db (λ l, Ok (is_v6 l && is_same_net6 (addr6 l) net prefix && ((prefix =? 128) || (addr6part (addr6 l) =? a)))) (leases db).

(** The largest address in use within a range. *)
Fixpoint max_addr (db : lease_db) (start end_ a : Z) (ids : list Z) : res Z :=
  match ids with
  | [] => Ok a
  | id :: ids =>
      l ← get_lease db id;
      max_addr db start end_
        (if negb (is_v6 l) && (start <? l_addr l) && (l_addr l <=? end_) && (a <? l_addr l) then l_addr l else a) ids
  end.

(** [fixed] is [context->flags & (CONTEXT_STATIC | CONTEXT_PROXY)]. *)
Definition lease_find_max_addr (db : lease_db) (fixed : bool) (start end_ : Z) : res Z :=
  if negb fixed then max_addr db start end_ start (leases db) else Ok start.

Fixpoint max_addr6 (db : lease_db) (start6 end6 : list Z) (a : Z) (ids : list Z) : res Z :=
  match ids with
  | [] => Ok a
  | id :: ids =>
      l ← get_lease db id;
      let h := addr6part (addr6 l) in
      max_addr6 db start6 end6
        (if is_v6 l && is_same_net6 (addr6 l) start6 64 && (addr6part start6 <? h) && (h <=? addr6part end6) && (a <? h) then h else a) ids
  end.

Definition lease_find_max_addr6 (db : lease_db) (fixed : bool) (start6 end6 : list Z) : res Z :=
  if negb fixed then max_addr6 db start6 end6 (addr6part start6) (leases db) else Ok (addr6part start6).

(** * Allocation and expiry *)

(** [new] is the address whine_malloc gave, [None] when it failed. *)
Definition lease_allocate (db : lease_db) (new : option Z) : lease_db * option Z :=
  if leases_left db =? 0 then (db, None)
  else match new with
  | None => (db, None)
  | Some p =>
      let l := Lease 0 None None None None LEASE_NEW 1 256 0 (repeat 0 16) 0 0 (repeat 0 16) 0 in
      (LeaseDb (<[p := l]> (heap db)) (p :: leases db) (old_leases db) (leases_left db - 1) true (dns_dirty db), Some p)
  end.

Definition lease4_allocate (db : lease_db) (new : option Z) (a : Z) : res (lease_db * option Z) :=
  match lease_allocate db new with
  | (db, None) => Ok (db, None)
  | (db, Some p) => l ← get_lease db p; Ok (put_lease db p (with_addr l a (addr6 l) (iaid l)), Some p)
  end.

Definition lease6_allocate (db : lease_db) (new : option Z) (a6 : list Z) (lease_type : Z) : res (lease_db * option Z) :=
  match lease_allocate db new with
  | (db, None) => Ok (db, None)
  | (db, Some p) =>
      l ← get_lease db p;
      Ok (put_lease db p (with_flags (with_addr l (l_addr l) a6 0) (Z.lor (l_flags l) lease_type)), Some p)
  end.

(** [(lease->expires != 0 && difftime(now, lease->expires) >= 0) || lease == target] *)
Definition prunes (target : option Z) (now id : Z) (l : dhcp_lease) : bool :=
  (negb (expires l =? 0) && (expires l <=? now)) || bool_decide (target = Some id).

(** The walk; [kept] is what stays before the current lease. *)
Fixpoint prune_loop (db : lease_db) (target : option Z) (now : Z) (kept ids : list Z) : res lease_db :=
  match ids with
  | [] => Ok (LeaseDb (heap db) kept (old_leases db) (leases_left db) (file_dirty db) (dns_dirty db))
  | id :: ids =>
      l ← get_lease db id;
      if prunes target now id l then
        prune_loop (LeaseDb (heap db) (leases db) (id :: old_leases db) (leases_left db + 1) true
                            (dns_dirty db || bool_decide (is_Some (l_hostname l)))) target now kept ids
      else prune_loop db target now (kept ++ [id]) ids
  end.

Definition lease_prune (db : lease_db) (target : option Z) (now : Z) : res lease_db := prune_loop db target now [] (leases db).

(** * Updates *)

Definition lease6_reset (db : lease_db) : res lease_db :=
  foldl (λ r id, db ← r; l ← get_lease db id; Ok (put_lease db id (with_flags l (Z.land (l_flags l) (Z.lnot LEASE_USED))))) (Ok db) (leases db).

Definition rerun_scripts (db : lease_db) : res lease_db :=
  foldl (λ r id, db ← r; l ← get_lease db id; Ok (put_lease db id (with_flags l (Z.lor (l_flags l) LEASE_CHANGED)))) (Ok db) (leases db).

Definition lease_set_expires (db : lease_db) (p len now : Z) : res lease_db :=
  l ← get_lease db p;
  let exp := if len =? 4294967295 then 0 else if now + len - now <=? 0 then 0 else now + len in
  if exp =? expires l then Ok db
  else Ok (set_dirty (put_lease db p (with_flags (with_expires l exp) (Z.lor (l_flags l) (Z.lor LEASE_AUX_CHANGED LEASE_EXP_CHANGED)))) true true).

Definition lease_set_iaid (db : lease_db) (p ia : Z) : res lease_db :=
  l ← get_lease db p;
  if iaid l =? ia then Ok db
  else Ok (put_lease db p (with_flags (with_addr l (l_addr l) (addr6 l) ia) (Z.lor (l_flags l) LEASE_CHANGED))).

Definition lease_set_interface (db : lease_db) (p interface : Z) : res lease_db :=
  l ← get_lease db p;
  if last_interface l =? interface then Ok db
  else Ok (put_lease db p (with_flags (with_interface l interface) (Z.lor (l_flags l) LEASE_CHANGED))).

(** The hardware address part of lease_set_hwaddr. *)
Definition set_hw (db : lease_db) (p : Z) (hw : list Z) (hw_len hw_type : Z) : res lease_db :=
  l ← get_lease db p;
  same ← (if negb (hw_len =? hwaddr_len l) || negb (hw_type =? hwaddr_type l) then Ok false else mem_eq (hwaddr l) (Some hw) hw_len);
  if same : bool then Ok db
  else if (zlen hw <? hw_len) || (16 <? hw_len) then Oob
  else
    let a := take (Z.to_nat hw_len) hw ++ drop (Z.to_nat hw_len) (hwaddr l) in
    Ok (set_dirty (put_lease db p (with_flags (with_hwaddr l hw_len hw_type a) (Z.lor (l_flags l) LEASE_CHANGED))) true false).

(** The client identifier part; [ok] tells whether whine_malloc gives memory.
    The result is false for the early return. *)
Definition set_clid (db : lease_db) (p : Z) (c : list Z) (c_len : Z) (ok : bool) : res (lease_db * bool) :=
  l ← get_lease db p;
  let l := match clid l with None => with_clid l 0 None | Some _ => l end in
  if negb (clid_len l =? c_len) then
    let l := with_flags l (Z.lor (l_flags l) LEASE_AUX_CHANGED) in
    if negb ok then Ok (set_dirty (put_lease db p (with_clid l (clid_len l) None)) true false, false)
    else Ok (set_dirty (put_lease db p (with_clid l c_len (Some (take (Z.to_nat c_len) c)))) true false, true)
  else
    same ← mem_eq c (clid l) c_len;
    let l := if same : bool then l else with_flags l (Z.lor (l_flags l) LEASE_AUX_CHANGED) in
    Ok (set_dirty (put_lease db p (with_clid l c_len (Some (take (Z.to_nat c_len) c)))) (negb same) false, true).

(** Without the SLAAC addresses that follow a change. *)
Definition lease_set_hwaddr (db : lease_db) (p : Z) (hw : list Z) (c : option (list Z)) (hw_len hw_type c_len : Z) (ok : bool) : res lease_db :=
  l ← get_lease db p;
  db ← set_hw (put_lease db p (with_flags l (Z.lor (l_flags l) LEASE_HAVE_HWADDR))) p hw hw_len hw_type;
  match c with
  | Some c => if negb (c_len =? 0) then '(db, _) ← set_clid db p c c_len ok; Ok db else Ok db
  | None => Ok db
  end.

(** * Names *)

Definition killed (l : dhcp_lease) : dhcp_lease :=
  with_names l None None (match fqdn l with Some f => Some f | None => l_hostname l end).

Definition kill_name (db : lease_db) (p : Z) : res lease_db := l ← get_lease db p; Ok (put_lease db p (killed l)).

(** The name of [l] that is compared, by the mode OPT_DHCP_FQDN. *)
Definition name_key (fqdn_mode : bool) (l : dhcp_lease) : option cstring := if fqdn_mode then fqdn l else l_hostname l.

(** Whether the loop goes on to the next lease ([continue]): the lease does not
    have the new name, or may share it. *)
Definition no_conflict (fqdn_mode : bool) (lease tmp : dhcp_lease) (new_key : option cstring) : res bool :=
  match new_key, name_key fqdn_mode tmp with
  | Some new, Some old =>
      if negb (hostname_isequal old new) then Ok true
      else if is_v6 lease then
        if negb (is_v6 tmp) then Ok true
        else match clid lease, clid tmp with
             | Some c, Some c' => if clid_len lease =? clid_len tmp then mem_eq c (Some c') (clid_len lease) else Ok false
             | _, _ => Ok false
             end
      else Ok (is_v6 tmp)
  | _, _ => Ok true
  end.

(** The loop over the other leases. [None] is the early return for a name
    protected by the configuration. *)
Fixpoint conflict_loop (fqdn_mode auth : bool) (db : lease_db) (p : Z) (new_key : option cstring) (ids : list Z) : res (option lease_db) :=
  match ids with
  | [] => Ok (Some db)
  | id :: ids =>
      lease ← get_lease db p;
      tmp ← get_lease db id;
      skip ← no_conflict fqdn_mode lease tmp new_key;
      if skip : bool then conflict_loop fqdn_mode auth db p new_key ids
      else if flag (l_flags tmp) LEASE_AUTH_NAME && negb auth then Ok None
      else
        db ← kill_name db id;
        tmp ← get_lease db id;
        Ok (Some (put_lease db id (with_flags tmp (Z.lor (l_flags tmp) LEASE_CHANGED))))
  end.

(** [ok_name] and [ok_fqdn] tell whether the two calls of whine_malloc
    succeed. *)
Definition lease_set_hostname (fqdn_mode : bool) (db : lease_db) (p : Z) (name : option cstring) (auth : bool) (domain : option cstring)
    (ok_name ok_fqdn : bool) : res lease_db :=
  l ← get_lease db p;
  let same := match l_hostname l, name with Some h, Some n => hostname_isequal h n | _, _ => false end in
  if same : bool then Ok (if auth then put_lease db p (with_flags l (Z.lor (l_flags l) LEASE_AUTH_NAME)) else db)
  else if bool_decide (name = None) && bool_decide (l_hostname l = None) then Ok db
  else
    let new_name := if ok_name then name else None in
    let new_fqdn := match new_name, domain with Some n, Some d => if ok_fqdn then Some (n ++ [dot] ++ d) else None | _, _ => None end in
    r ← (match name with
         | None => Ok (Some db)
         | Some _ => conflict_loop fqdn_mode auth db p (if fqdn_mode then new_fqdn else new_name) (leases db)
         end);
    match r with
    | None => Ok db
    | Some db =>
        l ← get_lease db p;
        db ← (match l_hostname l with Some _ => kill_name db p | None => Ok db end);
        l ← get_lease db p;
        let f := Z.lor (if auth then Z.lor (l_flags l) LEASE_AUTH_NAME else l_flags l) LEASE_CHANGED in
        Ok (set_dirty (put_lease db p (with_flags (with_names l new_name new_fqdn (old_hostname l)) f)) true true)
    end.

(** * Scripts *)

Inductive script_action := ACTION_DEL | ACTION_OLD_HOSTNAME | ACTION_OLD | ACTION_ADD.

(** What is queued for the helper process. *)
Record script_event := ScriptEvent { ev_action : script_action; ev_lease : dhcp_lease; ev_name : option cstring }.

Definition changed_bits : Z := Z.lor LEASE_NEW (Z.lor LEASE_CHANGED (Z.lor LEASE_AUX_CHANGED LEASE_EXP_CHANGED)).

Definition needs_script (ro renew : bool) (l : dhcp_lease) : bool :=
  flag (l_flags l) (Z.lor LEASE_NEW LEASE_CHANGED) || (flag (l_flags l) LEASE_AUX_CHANGED && ro) ||
  (flag (l_flags l) LEASE_EXP_CHANGED && renew).

(** A lease deleted: announced, unlinked and freed. *)
Definition delete_old (db : lease_db) (p : Z) (rest : list Z) : res (lease_db * script_event) :=
  db ← kill_name db p;
  l ← get_lease db p;
  Ok (LeaseDb (delete p (heap db)) (leases db) rest (leases_left db) (file_dirty db) (dns_dirty db), ScriptEvent ACTION_DEL l (old_hostname l)).

(** The old name of a lease announced. *)
Definition announce_old (db : lease_db) (p : Z) (l : dhcp_lease) : lease_db * script_event :=
  (put_lease db p (with_names l (l_hostname l) (fqdn l) None), ScriptEvent ACTION_OLD_HOSTNAME l (old_hostname l)).

(** [None] is the result 0, nothing to do. [ro] and [renew] are the options
    OPT_LEASE_RO and OPT_LEASE_RENEW. *)
Definition do_script_run (ro renew : bool) (db : lease_db) : res (option (lease_db * script_event)) :=
  match old_leases db with
  | p :: rest =>
      l ← get_lease db p;
      match old_hostname l with
      | Some _ => Ok (Some (announce_old db p l))
      | None => r ← delete_old db p rest; Ok (Some r)
      end
  | [] =>
      r ← find_lease db (λ l, Ok (bool_decide (is_Some (old_hostname l)))) (leases db);
      match r with
      | Some p => l ← get_lease db p; Ok (Some (announce_old db p l))
      | None =>
          r ← find_lease db (λ l, Ok (needs_script ro renew l)) (leases db);
          match r with
          | None => Ok None
          | Some p =>
              l ← get_lease db p;
              Ok (Some (put_lease db p (with_flags l (Z.land (l_flags l) (Z.lnot changed_bits))),
                        ScriptEvent (if flag (l_flags l) LEASE_NEW then ACTION_ADD else ACTION_OLD) l
                                    (match fqdn l with Some f => Some f | None => l_hostname l end)))
          end
      end
  end.
