(* ===== verification/LeaseSpec.v ===== *)
(** The lease database: its invariant, kept by every operation, the uniqueness
    of the names of IPv4 leases, and that the queue of scripts is drained. *)
From S2P Require Import Prelude Hostname NetAddr Lease.

(** * The invariant *)

Record lease_ok (l : dhcp_lease) : Prop := {
  lo_hostname : ∀ n, l_hostname l = Some n → wf_cstring n;
  lo_fqdn : ∀ n, fqdn l = Some n → wf_cstring n;
  lo_clid : match clid l with Some c => zlen c = clid_len l | None => clid_len l = 0 end;
  lo_hwaddr : length (hwaddr l) = 16%nat }.

(** No two IPv4 leases have the same name, in the mode's sense. *)
Definition unique_names (mode : bool) (h : gmap Z dhcp_lease) (ids : list Z) : Prop :=
  ∀ p q lp lq kp kq, p ∈ ids → q ∈ ids → p ≠ q → h !! p = Some lp → h !! q = Some lq →
    is_v6 lp = false → is_v6 lq = false → name_key mode lp = Some kp → name_key mode lq = Some kq → hostname_isequal kp kq = false.

Record db_ok (mode : bool) (dhcp_max : Z) (db : lease_db) : Prop := {
  do_heap : ∀ p, is_Some (heap db !! p) ↔ p ∈ leases db ∨ p ∈ old_leases db;
  do_nodup : NoDup (leases db ++ old_leases db);
  do_count : leases_left db + zlen (leases db) = dhcp_max ∧ 0 ≤ leases_left db;
  do_leases : ∀ p l, heap db !! p = Some l → lease_ok l;
  do_unique : unique_names mode (heap db) (leases db) }.

(** The updates that leave names and protocol alone. *)
Definition names_kept (l l' : dhcp_lease) : Prop := is_v6 l' = is_v6 l ∧ l_hostname l' = l_hostname l ∧ fqdn l' = fqdn l.

Lemma flag_lor_none f m k : Z.land m k = 0 → flag (Z.lor f m) k = flag f k.
Proof. intros E. unfold flag. by rewrite Z.land_lor_distr_l, E, Z.lor_0_r. Qed.

Lemma flag_land_lnot f m k : Z.land (Z.lnot m) k = k → flag (Z.land f (Z.lnot m)) k = flag f k.
Proof. intros E. unfold flag. by rewrite <- Z.land_assoc, E. Qed.

Section invariant.
Context (mode : bool) (dhcp_max : Z).
Implicit Types (db : lease_db) (l : dhcp_lease).

Lemma get_live db p : db_ok mode dhcp_max db → p ∈ leases db → ∃ l, get_lease db p = Ok l ∧ heap db !! p = Some l ∧ lease_ok l.
Proof.
  intros Hok Hp. destruct (proj2 (do_heap _ _ _ Hok p) (or_introl Hp)) as [l Hl]. exists l. unfold get_lease. rewrite Hl.
  split; [done|]. split; [done|]. by eapply do_leases.
Qed.

(** A lease replaced: names only become fewer or stay. *)
Lemma put_ok db p l l' :
  db_ok mode dhcp_max db → heap db !! p = Some l → lease_ok l' →
  (p ∈ leases db → is_v6 l' = false → name_key mode l' = None ∨
     is_v6 l = false ∧ name_key mode l' = name_key mode l ∨
     ∃ k, name_key mode l' = Some k ∧
       ∀ q lq kq, q ∈ leases db → q ≠ p → heap db !! q = Some lq → is_v6 lq = false → name_key mode lq = Some kq → hostname_isequal kq k = false) →
  db_ok mode dhcp_max (put_lease db p l').
Proof.
  intros [Hh Hn Hc Hl Hu] Hp Hl' Hk. split; simpl; try done.
  - intros q. rewrite <- Hh. destruct (decide (q = p)) as [->|Hne]; [rewrite lookup_insert_eq, Hp; by split|by rewrite lookup_insert_ne].
  - intros q lq. destruct (decide (q = p)) as [->|Hne]; [rewrite lookup_insert_eq; by intros [= <-]|rewrite lookup_insert_ne by done; apply Hl].
  - assert (∀ q lq kq k, q ∈ leases db → q ≠ p → p ∈ leases db → heap db !! q = Some lq → is_v6 lq = false → name_key mode lq = Some kq →
              is_v6 l' = false → name_key mode l' = Some k → hostname_isequal kq k = false) as Hone.
    { intros q lq kq k Hq Hne Hpin Hlq Hvq Hkq Hv' Hk'. destruct (Hk Hpin Hv') as [E|[[Hv E]|(k0 & E & Hall)]]; [congruence| |].
      - eapply (Hu q p lq l kq k); try done. congruence.
      - rewrite E in Hk'. injection Hk' as ->. exact (Hall q lq kq Hq Hne Hlq Hvq Hkq). }
    intros q r lq lr kq kr Hq Hr Hne Hlq Hlr. destruct (decide (q = p)) as [->|Hqp].
    + rewrite lookup_insert_eq in Hlq. injection Hlq as <-. rewrite lookup_insert_ne in Hlr by done. intros Hv Hvr Hkp Hkr.
      specialize (Hone r lr kr kq Hr ltac:(congruence) Hq Hlr Hvr Hkr Hv Hkp).
      assert (wf_cstring kq ∧ wf_cstring kr) as [Hw1 Hw2].
      { destruct (Hl _ _ Hlr) as [Ha Hb _ _]. destruct Hl' as [Ha' Hb' _ _]. unfold name_key in *. destruct mode; eauto. }
      rewrite hostname_isequal_spec in Hone |- * by done. apply bool_decide_eq_false in Hone. apply bool_decide_eq_false. by intros ?%symmetry.
    + rewrite lookup_insert_ne in Hlq by done. destruct (decide (r = p)) as [->|Hrp].
      * rewrite lookup_insert_eq in Hlr. injection Hlr as <-. intros Hvq Hv Hkq Hkp. exact (Hone q lq kq kr Hq Hqp Hr Hlq Hvq Hkq Hv Hkp).
      * rewrite lookup_insert_ne in Hlr by done. exact (Hu q r lq lr kq kr Hq Hr Hne Hlq Hlr).
Qed.

Lemma put_kept db p l l' :
  db_ok mode dhcp_max db → heap db !! p = Some l → lease_ok l' → names_kept l l' → db_ok mode dhcp_max (put_lease db p l').
Proof.
  intros Hok Hp Hl' (Hv & Hh & Hf). eapply put_ok; try done. intros _ Hv'. right; left. split; [congruence|].
  unfold name_key. destruct mode; congruence.
Qed.

Lemma dirty_ok db a b : db_ok mode dhcp_max db → db_ok mode dhcp_max (set_dirty db a b).
Proof. by intros [? ? ? ? ?]. Qed.

(** The flags other than those of the protocol. *)
Lemma kept_flags l f : flag f (Z.lor LEASE_TA LEASE_NA) = is_v6 l → names_kept l (with_flags l f).
Proof. by intros. Qed.

Lemma kept_lor l m : Z.land m (Z.lor LEASE_TA LEASE_NA) = 0 → names_kept l (with_flags l (Z.lor (l_flags l) m)).
Proof. intros Hm. apply kept_flags. by apply flag_lor_none. Qed.

Lemma kept_land l m : Z.land (Z.lnot m) (Z.lor LEASE_TA LEASE_NA) = Z.lor LEASE_TA LEASE_NA → names_kept l (with_flags l (Z.land (l_flags l) (Z.lnot m))).
Proof. intros Hm. apply kept_flags. by apply flag_land_lnot. Qed.

Lemma ok_flags l f : lease_ok l → lease_ok (with_flags l f).
Proof. by intros [? ? ? ?]. Qed.

(** A change of flags on all leases. *)
Lemma sweep_ok f ids db :
  (∀ l, names_kept l (with_flags l (f l))) → (∀ p, p ∈ ids → p ∈ leases db) → db_ok mode dhcp_max db →
  ∃ db', foldl (λ r id, db ← r; l ← get_lease db id; Ok (put_lease db id (with_flags l (f l)))) (Ok db) ids = Ok db' ∧
         db_ok mode dhcp_max db'.
Proof.
  intros Hf. revert db. induction ids as [|p ids IH]; intros db Hin Hok; [by exists db|]. cbn [foldl mbind res_bind].
  destruct (get_live db p Hok) as (l & -> & Hl & Hlo); [apply Hin; left|]. cbn [mbind res_bind].
  apply IH; [intros q Hq; apply Hin; by right|]. eapply put_kept; [done|done|by apply ok_flags|apply Hf].
Qed.

(** * Allocation and expiry *)

Lemma lease_allocate_ok db new :
  db_ok mode dhcp_max db → (∀ p, new = Some p → heap db !! p = None) →
  let '(db', r) := lease_allocate db new in
  db_ok mode dhcp_max db' ∧
  match r with
  | None => db' = db ∧ (leases_left db = 0 ∨ new = None)
  | Some p => new = Some p ∧ leases db' = p :: leases db ∧ ∃ l, heap db' !! p = Some l ∧ lease_ok l ∧ l_hostname l = None ∧ fqdn l = None
  end.
Proof.
  intros Hok Hnew. unfold lease_allocate. destruct (Z.eqb_spec (leases_left db) 0); [by split; [|auto]|].
  destruct new as [p|]; [|by split; [|auto]]. specialize (Hnew p eq_refl). destruct Hok as [Hh Hn [Hc H0] Hl Hu].
  assert ((p ∉ leases db) ∧ (p ∉ old_leases db)) as [Hp1 Hp2].
  { split; intros Hin; (assert (is_Some (heap db !! p)) as [? ?] by (apply Hh; auto)); congruence. }
  set (l := Lease _ _ _ _ _ _ _ _ _ _ _ _ _ _). assert (lease_ok l) as Hlo by done.
  split; [|split; [done|]; split; [done|]; exists l; split; [apply lookup_insert_eq|done]]. split; simpl.
  - intros q. rewrite elem_of_cons. destruct (decide (q = p)) as [->|Hne]; [rewrite lookup_insert_eq; naive_solver|].
    rewrite lookup_insert_ne, Hh by done. naive_solver.
  - constructor; [|done]. rewrite elem_of_app. tauto.
  - rewrite zlen_cons. lia.
  - intros q lq. destruct (decide (q = p)) as [->|Hne]; [rewrite lookup_insert_eq; by intros [= <-]|rewrite lookup_insert_ne by done; apply Hl].
  - intros q r lq lr kq kr Hq Hr Hne Hlq Hlr Hvq Hvr Hkq Hkr. assert (name_key mode l = None) as Hkl by (unfold name_key; by destruct mode).
    assert (q ≠ p) as Hqp by (intros ->; rewrite lookup_insert_eq in Hlq; congruence).
    assert (r ≠ p) as Hrp by (intros ->; rewrite lookup_insert_eq in Hlr; congruence).
    rewrite lookup_insert_ne in Hlq, Hlr by done. apply elem_of_cons in Hq as [?|Hq]; [done|]. apply elem_of_cons in Hr as [?|Hr]; [done|].
    exact (Hu q r lq lr kq kr Hq Hr Hne Hlq Hlr Hvq Hvr Hkq Hkr).
Qed.

(** A lease that is neither expired nor the target. *)
Definition survives (h : gmap Z dhcp_lease) (target : option Z) (now p : Z) : bool :=
  match h !! p with Some l => negb (prunes target now p l) | None => true end.

(** The walk of [lease_prune]: [kept] and what is not visited yet are the
    leases, the rest are old. *)
Lemma prune_loop_ok target now ids kept db :
  (∀ p, is_Some (heap db !! p) ↔ (p ∈ kept ++ ids) ∨ p ∈ old_leases db) → NoDup ((kept ++ ids) ++ old_leases db) →
  leases_left db + zlen (kept ++ ids) = dhcp_max → 0 ≤ leases_left db →
  (∀ p l, heap db !! p = Some l → lease_ok l) → unique_names mode (heap db) (kept ++ ids) →
  ∃ db', prune_loop db target now kept ids = Ok db' ∧ db_ok mode dhcp_max db' ∧ heap db' = heap db ∧
    leases db' = kept ++ filter (λ p, survives (heap db) target now p = true) ids.
Proof.
  revert kept db. induction ids as [|id ids IH]; intros kept db Hh Hn Hc H0 Hl Hu.
  { exists (LeaseDb (heap db) kept (old_leases db) (leases_left db) (file_dirty db) (dns_dirty db)). rewrite app_nil_r in *.
    split; [done|]. split; [by split|]. split; [done|]. done. }
  cbn [prune_loop]. destruct (proj2 (Hh id)) as [l El]; [left; apply elem_of_app; right; left|].
  unfold get_lease. rewrite El. cbn [mbind res_bind]. destruct (prunes target now id l) eqn:Ep.
  - set (db1 := LeaseDb _ _ _ _ _ _).
    assert (kept ++ id :: ids ≡ₚ id :: kept ++ ids) as Hperm by by rewrite Permutation_middle.
    destruct (IH kept db1) as (db' & E & Hok & Hhp & Hls); simpl; try done.
    + intros p. rewrite Hh, elem_of_cons, !elem_of_app, elem_of_cons. tauto.
    + rewrite Hperm in Hn. by rewrite <- Permutation_middle.
    + rewrite !zlen_app, zlen_cons in *. lia.
    + lia.
    + intros p q lp lq kp kq Hp Hq. apply Hu; rewrite elem_of_app, elem_of_cons; rewrite elem_of_app in *; tauto.
    + exists db'. split; [done|]. split; [done|]. split; [done|]. rewrite Hls, filter_cons_False; [done|]. unfold survives. by rewrite El, Ep.
  - specialize (IH (kept ++ [id]) db). replace ((kept ++ [id]) ++ ids) with (kept ++ id :: ids) in IH by by rewrite <- app_assoc.
    destruct IH as (db' & E & Hok & Hhp & Hls); [done..|].
    exists db'. split; [done|]. split; [done|]. split; [done|]. rewrite Hls, filter_cons_True, <- app_assoc; [done|].
    unfold survives. by rewrite El, Ep.
Qed.

Lemma lease_prune_ok db target now :
  db_ok mode dhcp_max db →
  ∃ db', lease_prune db target now = Ok db' ∧ db_ok mode dhcp_max db' ∧ heap db' = heap db ∧
    leases db' = filter (λ p, survives (heap db) target now p = true) (leases db).
Proof. intros [Hh Hn [Hc H0] Hl Hu]. by apply prune_loop_ok. Qed.

(** * Updates of one lease *)

(** The lease is replaced by one with the same names. *)
Definition updates (db : lease_db) (p : Z) (r : res lease_db) : Prop :=
  ∃ db' l l', r = Ok db' ∧ db_ok mode dhcp_max db' ∧ heap db !! p = Some l ∧ names_kept l l' ∧ lease_ok l' ∧
    heap db' = <[p := l']> (heap db) ∧ leases db' = leases db ∧ old_leases db' = old_leases db.

Lemma updates_same db p l : db_ok mode dhcp_max db → heap db !! p = Some l → updates db p (Ok db).
Proof.
  intros Hok Hl. exists db, l, l. split; [done|]. split; [done|]. split; [done|]. split; [done|]. split; [by eapply do_leases|].
  by rewrite insert_id.
Qed.

Lemma updates_put db p l l' a b :
  db_ok mode dhcp_max db → heap db !! p = Some l → lease_ok l' → names_kept l l' → updates db p (Ok (set_dirty (put_lease db p l') a b)).
Proof.
  intros Hok Hl Hl' Hk. eexists _, l, l'. split; [done|]. split; [apply dirty_ok; by eapply put_kept|]. done.
Qed.

Lemma updates_put0 db p l l' :
  db_ok mode dhcp_max db → heap db !! p = Some l → lease_ok l' → names_kept l l' → updates db p (Ok (put_lease db p l')).
Proof. intros Hok Hl Hl' Hk. eexists _, l, l'. split; [done|]. split; [by eapply put_kept|]. done. Qed.

Lemma lease_kept_trans l1 l2 l3 : names_kept l1 l2 → names_kept l2 l3 → names_kept l1 l3.
Proof. intros (? & ? & ?) (? & ? & ?). split_and!; congruence. Qed.

Lemma set_expires_ok db p len now : db_ok mode dhcp_max db → p ∈ leases db → updates db p (lease_set_expires db p len now).
Proof.
  intros Hok Hp. destruct (get_live db p Hok Hp) as (l & E & Hl & Hlo). unfold lease_set_expires. rewrite E. cbn [mbind res_bind].
  set (exp := if len =? 4294967295 then 0 else _). destruct (exp =? expires l); [by eapply updates_same|].
  eapply updates_put; [done|done|by destruct Hlo|]. split; [by apply flag_lor_none|done].
Qed.

Lemma set_iaid_ok db p ia : db_ok mode dhcp_max db → p ∈ leases db → updates db p (lease_set_iaid db p ia).
Proof.
  intros Hok Hp. destruct (get_live db p Hok Hp) as (l & E & Hl & Hlo). unfold lease_set_iaid. rewrite E. cbn [mbind res_bind].
  destruct (iaid l =? ia); [by eapply updates_same|].
  eapply updates_put0; [done|done|by destruct Hlo|]. split; [by apply flag_lor_none|done].
Qed.

Lemma set_interface_ok db p i : db_ok mode dhcp_max db → p ∈ leases db → updates db p (lease_set_interface db p i).
Proof.
  intros Hok Hp. destruct (get_live db p Hok Hp) as (l & E & Hl & Hlo). unfold lease_set_interface. rewrite E. cbn [mbind res_bind].
  destruct (last_interface l =? i); [by eapply updates_same|].
  eapply updates_put0; [done|done|by destruct Hlo|]. split; [by apply flag_lor_none|done].
Qed.

Lemma mem_eq_ok a b n : 0 ≤ n → n ≤ zlen a → n ≤ zlen b → ∃ r, mem_eq a (Some b) n = Ok r.
Proof.
  intros H0 Ha Hb. unfold mem_eq. destruct (n =? 0); [eauto|]. rewrite !(proj2 (Z.ltb_ge _ _)) by done. simpl. eauto.
Qed.

Lemma set_hw_ok db p hw hw_len hw_type :
  db_ok mode dhcp_max db → p ∈ leases db → 0 ≤ hw_len ≤ 16 → hw_len ≤ zlen hw → updates db p (set_hw db p hw hw_len hw_type).
Proof.
  intros Hok Hp Hn Hhw. destruct (get_live db p Hok Hp) as (l & E & Hl & Hlo). unfold set_hw. rewrite E. cbn [mbind res_bind].
  assert (∃ b, (if negb (hw_len =? hwaddr_len l) || negb (hw_type =? hwaddr_type l) then Ok false else mem_eq (hwaddr l) (Some hw) hw_len) = Ok b) as [b ->].
  { case_match; [eauto|]. apply mem_eq_ok; [lia| |done]. destruct Hlo as [_ _ _ Hh]. unfold zlen. lia. }
  cbn [mbind res_bind]. destruct b; [by eapply updates_same|].
  replace ((zlen hw <? hw_len) || (16 <? hw_len)) with false by lia.
  eapply updates_put; [done|done| |split; [by apply flag_lor_none|done]].
  destruct Hlo as [? ? ? Hh]. split; simpl; try done. rewrite length_app, length_take, length_drop. unfold zlen in Hhw. lia.
Qed.

Lemma set_clid_ok db p c c_len :
  db_ok mode dhcp_max db → p ∈ leases db → 0 < c_len → c_len = zlen c → updates db p ('(db, _) ← set_clid db p c c_len true; Ok db).
Proof.
  intros Hok Hp Hn Hc. destruct (get_live db p Hok Hp) as (l & E & Hl & Hlo). unfold set_clid. rewrite E. cbn [mbind res_bind].
  set (l1 := match clid l with None => with_clid l 0 None | Some _ => l end).
  assert (names_kept l l1 ∧ lease_ok l1 ∧ (clid l1 = None → clid_len l1 = 0)) as (Hk1 & Hl1 & Hc0).
  { unfold l1. destruct Hlo as [? ? Hcl ?]. destruct (clid l) eqn:Ec; (split; [done|]); (split; [|by rewrite ?Ec]); split; simpl; try done. by rewrite Ec. }
  assert (∀ l2, names_kept l1 l2 → lease_ok l2 → names_kept l (with_clid l2 c_len (Some (take (Z.to_nat c_len) c))) ∧
            lease_ok (with_clid l2 c_len (Some (take (Z.to_nat c_len) c)))) as Hset.
  { intros l2 Hk2 [? ? _ ?]. split; [by eapply lease_kept_trans; [exact Hk1|]|]. split; simpl; try done. unfold zlen in *. rewrite length_take. lia. }
  destruct (Z.eqb_spec (clid_len l1) c_len) as [El|El]; cbn [negb].
  - destruct (clid l1) as [c1|] eqn:Ec1; [|specialize (Hc0 eq_refl); lia].
    destruct (mem_eq_ok c c1 c_len) as [b ->]; [lia|lia| |].
    { destruct Hl1 as [_ _ Hx _]. rewrite Ec1 in Hx. lia. }
    cbn [mbind res_bind]. destruct (Hset (if b then l1 else with_flags l1 (Z.lor (l_flags l1) LEASE_AUX_CHANGED))) as [? ?].
    { destruct b; [done|by apply kept_lor]. }
    { destruct b; [done|by apply ok_flags]. }
    by eapply updates_put.
  - cbn [mbind res_bind]. destruct (Hset (with_flags l1 (Z.lor (l_flags l1) LEASE_AUX_CHANGED))) as [? ?]; [by apply kept_lor|by apply ok_flags|].
    by eapply updates_put.
Qed.

(** * Names *)

Lemma isequal_trans a b c :
  wf_cstring a → wf_cstring b → wf_cstring c → hostname_isequal a c = true → hostname_isequal b c = true → hostname_isequal a b = true.
Proof.
  intros Ha Hb Hc. rewrite !hostname_isequal_spec by done. rewrite !bool_decide_eq_true. intros H1 H2. by transitivity c.
Qed.

Lemma key_wf l k : lease_ok l → name_key mode l = Some k → wf_cstring k.
Proof. intros [Hh Hf _ _]. unfold name_key. destruct mode; auto. Qed.

Lemma no_conflict_ok lease tmp new_key : lease_ok lease → lease_ok tmp → ∃ b, no_conflict mode lease tmp new_key = Ok b.
Proof.
  intros Hl Ht. unfold no_conflict. destruct new_key as [new|]; [|eauto]. destruct (name_key mode tmp) as [old|]; [|eauto].
  repeat (case_match; try (by eauto)). destruct Hl as [_ _ Hl _], Ht as [_ _ Ht _].
  match goal with H1 : clid lease = Some ?c, H2 : clid tmp = Some ?c' |- _ => rewrite H1 in Hl; rewrite H2 in Ht; pose proof (zlen_nonneg c) end.
  apply mem_eq_ok; lia.
Qed.

(** An IPv4 lease with the new name is a conflict for an IPv4 lease. *)
Lemma no_conflict_v4 lease tmp new k :
  is_v6 lease = false → no_conflict mode lease tmp (Some new) = Ok true → is_v6 tmp = false → name_key mode tmp = Some k → hostname_isequal k new = false.
Proof. unfold no_conflict. intros -> E Hv Hk. rewrite Hk in E. destruct (hostname_isequal k new); [|done]. simpl in E. congruence. Qed.

Lemma conflict_v4 lease tmp new_key :
  is_v6 lease = false → no_conflict mode lease tmp new_key = Ok false →
  is_v6 tmp = false ∧ ∃ new k, new_key = Some new ∧ name_key mode tmp = Some k ∧ hostname_isequal k new = true.
Proof.
  unfold no_conflict. intros ->. destruct new_key as [new|]; [|done]. destruct (name_key mode tmp) as [k|]; [|done].
  destruct (hostname_isequal k new) eqn:E; [|done]. simpl. intros [= ->]. eauto 10.
Qed.

(** No other IPv4 lease of [ids] has the name. *)
Definition free_name (h : gmap Z dhcp_lease) (p : Z) (new_key : option cstring) (ids : list Z) : Prop :=
  ∀ new q lq kq, new_key = Some new → q ∈ ids → q ≠ p → h !! q = Some lq → is_v6 lq = false → name_key mode lq = Some kq →
    hostname_isequal kq new = false.

Lemma killed_ok l : lease_ok l → lease_ok (killed l).
Proof. by intros [? ? ? ?]. Qed.

(** The name taken from the lease that has it. *)
Lemma kill_ok db q tmp f :
  db_ok mode dhcp_max db → heap db !! q = Some tmp → flag f (Z.lor LEASE_TA LEASE_NA) = is_v6 tmp →
  db_ok mode dhcp_max (put_lease (put_lease db q (killed tmp)) q (with_flags (killed tmp) f)).
Proof.
  intros Hok Hq Hf. assert (lease_ok (killed tmp)) as Hk by (apply killed_ok; by eapply do_leases).
  assert (name_key mode (with_flags (killed tmp) f) = None) as Hn by (unfold name_key; by destruct mode).
  eapply put_ok; [eapply put_ok; [done|exact Hq|done|]|simpl; apply lookup_insert_eq|by apply ok_flags|].
  - intros _ _. left. unfold name_key. by destruct mode.
  - intros _ _. left. apply Hn.
Qed.

Lemma conflict_loop_ok auth db p l new_key ids pre :
  db_ok mode dhcp_max db → leases db = pre ++ ids → heap db !! p = Some l → (∀ n, new_key = Some n → wf_cstring n) →
  (is_v6 l = false → free_name (heap db) p new_key pre) →
  ∃ r, conflict_loop mode auth db p new_key ids = Ok r ∧
    match r with
    | None => True
    | Some db' => db_ok mode dhcp_max db' ∧ leases db' = leases db ∧ (∃ l', heap db' !! p = Some l' ∧ is_v6 l' = is_v6 l) ∧
                  (is_v6 l = false → free_name (heap db') p new_key (leases db))
    end.
Proof.
  intros Hok. revert pre. induction ids as [|id ids IH]; intros pre Hls Hl Hwf Hfree.
  { exists (Some db). split; [done|]. split; [done|]. split; [done|]. rewrite Hls, app_nil_r. eauto. }
  cbn [conflict_loop]. assert (get_lease db p = Ok l) as Eg by (unfold get_lease; by rewrite Hl). rewrite Eg. cbn [mbind res_bind].
  destruct (get_live db id Hok) as (tmp & E & Ht & Hto); [rewrite Hls, elem_of_app, elem_of_cons; auto|]. rewrite E. cbn [mbind res_bind].
  assert (lease_ok l) as Hlo by by eapply do_leases.
  destruct (no_conflict_ok l tmp new_key Hlo Hto) as [skip Es]. rewrite Es. cbn [mbind res_bind]. destruct skip.
  - apply (IH (pre ++ [id])); [by rewrite <- app_assoc|done|done|]. intros Hv new q lq kq -> Hq Hne Hlq Hvq Hkq.
    apply elem_of_app in Hq as [Hq|Hq]; [by eapply Hfree|]. apply list_elem_of_singleton in Hq as ->.
    rewrite Ht in Hlq. injection Hlq as <-. exact (no_conflict_v4 l tmp new kq Hv Es Hvq Hkq).
  - case_match; [by exists None|]. unfold kill_name. rewrite E. cbn [mbind res_bind]. unfold get_lease. simpl heap. rewrite lookup_insert_eq. cbn [mbind res_bind].
    eexists. split; [done|]. cbn match.
    set (f := Z.lor _ LEASE_CHANGED). assert (flag f (Z.lor LEASE_TA LEASE_NA) = is_v6 tmp) as Hf by by apply flag_lor_none.
    split; [by apply kill_ok|]. split; [done|]. split.
    + simpl. destruct (decide (id = p)) as [->|Hne].
      * rewrite lookup_insert_eq. eexists. split; [done|]. rewrite Hl in Ht. injection Ht as <-. exact Hf.
      * rewrite !lookup_insert_ne by done. eauto.
    + intros Hv. destruct (conflict_v4 _ _ _ Hv Es) as (Hvt & new & k & -> & Hk & Heq).
      intros new' q lq kq [= <-] Hq Hne Hlq Hvq Hkq. simpl in Hlq. rewrite insert_insert_eq in Hlq.
      destruct (decide (q = id)) as [->|Hqi].
      { rewrite lookup_insert_eq in Hlq. injection Hlq as <-. unfold name_key in Hkq. by destruct mode. }
      rewrite lookup_insert_ne in Hlq by done. destruct (hostname_isequal kq new) eqn:Eq; [|done].
      pose proof (do_unique _ _ _ Hok q id lq tmp kq k Hq ltac:(rewrite Hls, elem_of_app, elem_of_cons; auto) Hqi Hlq Ht Hvq Hvt Hkq Hk) as Hu.
      rewrite (isequal_trans kq k new) in Hu; [done| | | |done|done].
      * apply (key_wf lq); [by eapply do_leases|done].
      * by apply (key_wf tmp).
      * by apply Hwf.
Qed.

Lemma set_hostname_ok db p name auth domain okn okf :
  db_ok mode dhcp_max db → p ∈ leases db → (∀ n, name = Some n → wf_cstring n) → (∀ d, domain = Some d → wf_cstring d) →
  ∃ db', lease_set_hostname mode db p name auth domain okn okf = Ok db' ∧ db_ok mode dhcp_max db'.
Proof.
  intros Hok Hp Hn Hd. destruct (get_live db p Hok Hp) as (l & E & Hl & Hlo). unfold lease_set_hostname. rewrite E. cbn [mbind res_bind].
  set (same := match l_hostname l with Some h => _ | None => false end). destruct same.
  { eexists. split; [done|]. destruct auth; [|done]. eapply put_kept; [done|done|by apply ok_flags|by apply kept_lor]. }
  destruct (bool_decide (name = None) && bool_decide (l_hostname l = None)); [by exists db|]. set (nn := if okn then name else None). set (nf := match nn with Some n => _ | None => None end).
  assert (∀ n, nn = Some n → wf_cstring n) as Hnn by (intros n En; apply Hn; unfold nn in En; by destruct okn).
  assert (∀ n, nf = Some n → wf_cstring n) as Hnf.
  { unfold nf. intros m Em. destruct nn as [n|]; [|done]. destruct domain as [d|]; [|done]. destruct okf; [|done]. injection Em as <-.
    apply Forall_app. split; [by apply Hnn|]. apply Forall_cons. split; [unfold dot; lia|by apply Hd]. }
  set (key := if mode then nf else nn). assert (∀ n, key = Some n → wf_cstring n) as Hkw by (unfold key; by destruct mode).
  assert (∃ r, (match name with None => Ok (Some db) | Some _ => conflict_loop mode auth db p key (leases db) end) = Ok r ∧
    match r with
    | None => True
    | Some db' => db_ok mode dhcp_max db' ∧ leases db' = leases db ∧ (∃ l', heap db' !! p = Some l' ∧ is_v6 l' = is_v6 l) ∧
                  (is_v6 l = false → free_name (heap db') p key (leases db))
    end) as (r & -> & Hr).
  { destruct name as [n|]; [apply (conflict_loop_ok auth db p l key (leases db) []); try done; by intros ? ? ? ? ? ? ?%elem_of_nil|].
    exists (Some db). split; [done|]. split; [done|]. split; [done|]. split; [by exists l|]. intros _ new q lq kq Hk. exfalso.
    unfold key, nf, nn in Hk. by destruct mode, okn. }
  cbn [mbind res_bind]. destruct r as [db1|]; [|by exists db]. destruct Hr as (Hok1 & Hls & (l1 & Hl1 & Hv1) & Hfree).
  unfold get_lease at 2. rewrite Hl1. cbn [mbind res_bind].
  assert (lease_ok l1) as Hlo1 by by eapply do_leases.
  assert (∃ db2 l2, (match l_hostname l1 with Some _ => kill_name db1 p | None => Ok db1 end) = Ok db2 ∧ heap db2 = <[p := l2]> (heap db1) ∧
            db_ok mode dhcp_max db2 ∧ leases db2 = leases db1 ∧ is_v6 l2 = is_v6 l1 ∧ lease_ok l2) as (db2 & l2 & -> & Hh2 & Hok2 & Hls2 & Hv2 & Hlo2).
  { destruct (l_hostname l1); [|exists db1, l1; by rewrite insert_id].
    unfold kill_name, get_lease. rewrite Hl1. cbn [mbind res_bind]. eexists _, (killed l1). split; [done|]. split; [done|]. split; [|by split_and!; [..|apply killed_ok]].
    eapply put_ok; [done|done|by apply killed_ok|]. intros _ _. left. unfold name_key. by destruct mode. }
  cbn [mbind res_bind]. unfold get_lease. rewrite Hh2, lookup_insert_eq. cbn [mbind res_bind]. eexists. split; [done|]. apply dirty_ok.
  set (f := Z.lor _ LEASE_CHANGED). set (l3 := with_flags _ f). assert (is_v6 l3 = is_v6 l2) as Hv3.
  { unfold l3, is_v6, f. simpl. rewrite flag_lor_none by done. destruct auth; [by rewrite flag_lor_none|done]. }
  eapply (put_ok db2 p l2); [done|by rewrite Hh2, lookup_insert_eq| |].
  { destruct Hlo2. by split. }
  intros _ Hv4. assert (name_key mode l3 = key) as Hk3 by (unfold name_key, key; by destruct mode).
  destruct key as [k|] eqn:Ek; [|by left]. right; right. exists k. split; [done|]. intros q lq kq Hq Hne Hlq Hvq Hkq.
  rewrite Hh2, lookup_insert_ne in Hlq by done. eapply (Hfree ltac:(congruence) k q lq kq); try done. by rewrite <- Hls, <- Hls2.
Qed.
End invariant.

(** * The operations *)

Inductive lease_op :=
| Alloc4 (new : option Z) (a : Z)
| Alloc6 (new : option Z) (a6 : list Z) (lease_type : Z)
| Prune (target : option Z) (now : Z)
| SetExpires (p len now : Z)
| SetIaid (p ia : Z)
| SetInterface (p i : Z)
| SetHwaddr (p : Z) (hw : list Z) (c : option (list Z)) (hw_len hw_type c_len : Z)
| SetHostname (p : Z) (name : option cstring) (auth : bool) (domain : option cstring) (ok_name ok_fqdn : bool)
| Reset6
| Rerun
| Script (ro renew : bool).

Definition run_lease_op (mode : bool) (db : lease_db) (op : lease_op) : res lease_db :=
  match op with
  | Alloc4 new a => '(db, _) ← lease4_allocate db new a; Ok db
  | Alloc6 new a6 t => '(db, _) ← lease6_allocate db new a6 t; Ok db
  | Prune target now => lease_prune db target now
  | SetExpires p len now => lease_set_expires db p len now
  | SetIaid p ia => lease_set_iaid db p ia
  | SetInterface p i => lease_set_interface db p i
  | SetHwaddr p hw c hw_len hw_type c_len => lease_set_hwaddr db p hw c hw_len hw_type c_len true
  | SetHostname p name auth domain okn okf => lease_set_hostname mode db p name auth domain okn okf
  | Reset6 => lease6_reset db
  | Rerun => rerun_scripts db
  | Script ro renew => r ← do_script_run ro renew db; Ok (match r with None => db | Some (db, _) => db end)
  end.

(** What the callers ensure: the lease is on the list, memory is fresh, lengths
    are those of the data and names are strings. *)
Definition lease_op_ok (db : lease_db) (op : lease_op) : Prop :=
  match op with
  | Alloc4 new _ => ∀ p, new = Some p → heap db !! p = None
  | Alloc6 new _ _ => ∀ p, new = Some p → heap db !! p = None
  | SetExpires p _ _ | SetIaid p _ | SetInterface p _ => p ∈ leases db
  | SetHwaddr p hw c hw_len _ c_len =>
      p ∈ leases db ∧ 0 ≤ hw_len ≤ 16 ∧ hw_len ≤ zlen hw ∧ (∀ x, c = Some x → c_len = zlen x)
  | SetHostname p name _ domain _ _ => p ∈ leases db ∧ (∀ n, name = Some n → wf_cstring n) ∧ (∀ d, domain = Some d → wf_cstring d)
  | _ => True
  end.

(** * Scripts *)

Lemma find_lease_pure mode dhcp_max db f ids :
  db_ok mode dhcp_max db → (∀ p, p ∈ ids → p ∈ leases db) →
  ∃ r, find_lease db (λ l, Ok (f l)) ids = Ok r ∧
    match r with
    | Some p => p ∈ ids ∧ ∃ l, heap db !! p = Some l ∧ f l = true
    | None => ∀ p l, p ∈ ids → heap db !! p = Some l → f l = false
    end.
Proof.
  intros Hok. induction ids as [|p ids IH]; intros Hin; [exists None; split; [done|]; by intros ? ? ?%elem_of_nil|]. cbn [find_lease].
  destruct (get_live mode dhcp_max db p Hok) as (l & E & Hl & _); [apply Hin; left|]. rewrite E. cbn [mbind res_bind].
  destruct (f l) eqn:Ef; [exists (Some p); split; [done|]; split; [left|eauto]|].
  destruct IH as (r & -> & Hr); [intros q Hq; apply Hin; by right|]. exists r. split; [done|]. destruct r as [q|].
  - destruct Hr as [? ?]. split; [by right|done].
  - intros q lq Hq Hlq. apply elem_of_cons in Hq as [->|Hq]; [congruence|by eapply Hr].
Qed.

(** What is left to announce. *)
Definition old_name (l : dhcp_lease) : nat := match old_hostname l with Some _ => 1 | None => 0 end.
Definition old_weight (h : gmap Z dhcp_lease) (p : Z) : nat :=
  match h !! p with Some l => S (old_name l) | None => 0 end.
Definition lease_weight (ro renew : bool) (h : gmap Z dhcp_lease) (p : Z) : nat :=
  match h !! p with Some l => old_name l + (if needs_script ro renew l then 1 else 0) | None => 0 end.
Definition script_weight (ro renew : bool) (db : lease_db) : nat :=
  (sum_list_with (old_weight (heap db)) (old_leases db) + sum_list_with (lease_weight ro renew (heap db)) (leases db))%nat.

Lemma sum_other (f g : Z → nat) ids p : (∀ q, q ≠ p → f q = g q) → p ∉ ids → sum_list_with f ids = sum_list_with g ids.
Proof.
  intros Hfg. induction ids as [|q ids IH]; intros Hp; [done|]. apply not_elem_of_cons in Hp as [? ?]. simpl. by rewrite Hfg, IH by congruence.
Qed.

Lemma sum_update (f g : Z → nat) ids p :
  (∀ q, q ≠ p → f q = g q) → NoDup ids → p ∈ ids → (sum_list_with f ids + g p = sum_list_with g ids + f p)%nat.
Proof.
  intros Hfg Hn. induction Hn as [|q ids Hq Hn IH]; intros Hp; [by apply elem_of_nil in Hp|]. simpl.
  apply elem_of_cons in Hp as [->|Hp].
  - rewrite (sum_other f g ids q) by done. lia.
  - rewrite (Hfg q) by (intros ->; done). specialize (IH Hp). lia.
Qed.

(** A lease changed: the weights of the others stay. *)
Lemma weight_old_insert h p l q : q ≠ p → old_weight (<[p := l]> h) q = old_weight h q.
Proof. intros Hne. unfold old_weight. by rewrite lookup_insert_ne. Qed.
Lemma weight_lease_insert ro renew h p l q : q ≠ p → lease_weight ro renew (<[p := l]> h) q = lease_weight ro renew h q.
Proof. intros Hne. unfold lease_weight. by rewrite lookup_insert_ne. Qed.

Lemma weight_put_old ro renew mode dhcp_max db p l l' :
  db_ok mode dhcp_max db → p ∈ old_leases db → heap db !! p = Some l → (old_name l' < old_name l)%nat →
  (script_weight ro renew (put_lease db p l') < script_weight ro renew db)%nat.
Proof.
  intros Hok Hp Hl Hlt. pose proof (do_nodup _ _ _ Hok) as Hn. apply NoDup_app in Hn as (Hn1 & Hd & Hn2).
  unfold script_weight. simpl. rewrite (sum_other (lease_weight ro renew (<[p := l']> (heap db))) (lease_weight ro renew (heap db)) _ p);
    [|intros; by apply weight_lease_insert|intros Hin; by apply (Hd p)].
  pose proof (sum_update (old_weight (<[p := l']> (heap db))) (old_weight (heap db)) (old_leases db) p ltac:(intros; by apply weight_old_insert) Hn2 Hp) as Hs.
  unfold old_weight at 2 4 in Hs. rewrite lookup_insert_eq, Hl in Hs. lia.
Qed.

Lemma weight_put_live ro renew mode dhcp_max db p l l' :
  db_ok mode dhcp_max db → p ∈ leases db → heap db !! p = Some l →
  (old_name l' + (if needs_script ro renew l' then 1 else 0) < old_name l + (if needs_script ro renew l then 1 else 0))%nat →
  (script_weight ro renew (put_lease db p l') < script_weight ro renew db)%nat.
Proof.
  intros Hok Hp Hl Hlt. pose proof (do_nodup _ _ _ Hok) as Hn. apply NoDup_app in Hn as (Hn1 & Hd & Hn2).
  unfold script_weight. simpl. rewrite (sum_other (old_weight (<[p := l']> (heap db))) (old_weight (heap db)) _ p);
    [|intros; by apply weight_old_insert|by apply Hd].
  pose proof (sum_update (lease_weight ro renew (<[p := l']> (heap db))) (lease_weight ro renew (heap db)) (leases db) p ltac:(intros; by apply weight_lease_insert) Hn1 Hp) as Hs.
  unfold lease_weight at 2 4 in Hs. rewrite lookup_insert_eq, Hl in Hs. lia.
Qed.

(** The first old lease freed. *)
Lemma delete_old_ok ro renew mode dhcp_max db p rest :
  db_ok mode dhcp_max db → old_leases db = p :: rest →
  ∃ db' ev, delete_old db p rest = Ok (db', ev) ∧ db_ok mode dhcp_max db' ∧ leases db' = leases db ∧ old_leases db' = rest ∧
    ev_action ev = ACTION_DEL ∧ (script_weight ro renew db' < script_weight ro renew db)%nat.
Proof.
  intros Hok Ho. pose proof Hok as [Hh Hn [Hc H0] Hl Hu]. rewrite Ho in *. apply NoDup_app in Hn as (Hn1 & Hd & Hn2). apply NoDup_cons in Hn2 as [Hnp Hn2].
  assert (p ∉ leases db) as Hnl by (intros Hin; apply (Hd p Hin); left).
  destruct (proj2 (Hh p)) as [l El]; [right; left|]. unfold delete_old, kill_name, get_lease. rewrite El. cbn [mbind res_bind]. simpl heap. rewrite lookup_insert_eq. cbn [mbind res_bind].
  eexists _, _. split; [done|]. rewrite delete_insert_eq. split; [|split; [done|]; split; [done|]; split; [done|]].
  - split; simpl; try done.
    + intros q. destruct (decide (q = p)) as [->|Hne].
      * rewrite lookup_delete_eq. split; [by intros [? ?]|]. tauto.
      * rewrite lookup_delete_ne, Hh, elem_of_cons by done. naive_solver.
    + apply NoDup_app. split; [done|]. split; [|done]. intros q Hq Hq'. apply (Hd q Hq). by right.
    + intros q lq. rewrite lookup_delete_Some. intros [_ ?]. by eapply Hl.
    + intros a b la lb ka kb Ha Hb Hne. rewrite !lookup_delete_ne by congruence. by apply Hu.
  - unfold script_weight. simpl. rewrite Ho. simpl. unfold old_weight at 2. rewrite El.
    assert (∀ (f : gmap Z dhcp_lease → Z → nat) q, (∀ h h', h !! q = h' !! q → f h q = f h' q) → q ≠ p → f (delete p (heap db)) q = f (heap db) q) as Hf.
    { intros f q Hf Hne. apply Hf. by rewrite lookup_delete_ne. }
    rewrite (sum_other (old_weight (delete p (heap db))) (old_weight (heap db)) rest p); [|intros q Hq; apply (Hf old_weight); [|done]; intros h h' E; unfold old_weight; by rewrite E|done].
    rewrite (sum_other (lease_weight ro renew (delete p (heap db))) (lease_weight ro renew (heap db)) (leases db) p);
      [lia|intros q Hq; apply (Hf (lease_weight ro renew)); [|done]; intros h h' E; unfold lease_weight; by rewrite E|done].
Qed.

Lemma flag_land_none f m k : Z.land (Z.lnot m) k = 0 → flag (Z.land f (Z.lnot m)) k = false.
Proof. intros E. unfold flag. by rewrite <- Z.land_assoc, E, Z.land_0_r. Qed.

Lemma cleared_script ro renew l : needs_script ro renew (with_flags l (Z.land (l_flags l) (Z.lnot changed_bits))) = false.
Proof. unfold needs_script. simpl. by rewrite !flag_land_none. Qed.

Definition is_del (ev : script_event) : bool := match ev_action ev with ACTION_DEL => true | _ => false end.

(** The state with nothing left to announce. *)
Definition script_idle (ro renew : bool) (db : lease_db) : Prop :=
  old_leases db = [] ∧ ∀ p l, p ∈ leases db → heap db !! p = Some l → old_hostname l = None ∧ needs_script ro renew l = false.

Lemma do_script_run_ok ro renew mode dhcp_max db :
  db_ok mode dhcp_max db →
  ∃ r, do_script_run ro renew db = Ok r ∧
    match r with
    | None => script_idle ro renew db
    | Some (db', ev) => db_ok mode dhcp_max db' ∧ leases db' = leases db ∧ (script_weight ro renew db' < script_weight ro renew db)%nat ∧
        length (old_leases db) = ((if is_del ev then 1 else 0) + length (old_leases db'))%nat
    end.
Proof.
  intros Hok. unfold do_script_run. destruct (old_leases db) as [|p rest] eqn:Ho.
  - destruct (find_lease_pure mode dhcp_max db (λ l, bool_decide (is_Some (old_hostname l))) (leases db) Hok ltac:(done)) as (r & -> & Hr). cbn [mbind res_bind].
    destruct r as [p|].
    + destruct Hr as (Hp & l & Hl & Hn). unfold get_lease. rewrite Hl. cbn [mbind res_bind]. apply bool_decide_eq_true in Hn as [n Hn].
      eexists. split; [done|]. cbn match. split; [|split; [done|]; split; [|simpl; by rewrite Ho]].
      * eapply put_kept; [done|done| |done]. assert (lease_ok l) as [? ? ? ?] by by eapply do_leases. by split.
      * eapply weight_put_live; [done..|]. unfold old_name. simpl. rewrite Hn. unfold needs_script. simpl. lia.
    + destruct (find_lease_pure mode dhcp_max db (needs_script ro renew) (leases db) Hok ltac:(done)) as (r & -> & Hr'). cbn [mbind res_bind].
      destruct r as [p|].
      * destruct Hr' as (Hp & l & Hl & Hs). unfold get_lease. rewrite Hl. cbn [mbind res_bind]. eexists. split; [done|]. cbn match.
        split; [|split; [done|]; split; [|simpl; rewrite Ho; by destruct (flag (l_flags l) LEASE_NEW)]].
        -- eapply put_kept; [done|done|apply ok_flags; by eapply do_leases|by apply kept_land].
        -- eapply weight_put_live; [done..|]. rewrite cleared_script, Hs. unfold old_name. simpl. lia.
      * exists None. split; [done|]. split; [done|]. intros p l Hp Hl. split; [|by eapply Hr'].
        specialize (Hr p l Hp Hl). apply bool_decide_eq_false in Hr. by apply eq_None_not_Some.
  - destruct (proj2 (do_heap _ _ _ Hok p)) as [l El]; [right; rewrite Ho; left|]. unfold get_lease. rewrite El. cbn [mbind res_bind].
    destruct (old_hostname l) as [n|] eqn:En.
    + eexists. split; [done|]. cbn match. split; [|split; [done|]; split; [|simpl; by rewrite Ho]].
      * eapply put_kept; [done|done| |done]. assert (lease_ok l) as [? ? ? ?] by by eapply do_leases. by split.
      * eapply weight_put_old; [done|rewrite Ho; left|done|]. unfold old_name. simpl. rewrite En. lia.
    + destruct (delete_old_ok ro renew mode dhcp_max db p rest Hok Ho) as (db' & ev & -> & Hok' & Hls & Hol & Hev & Hw). cbn [mbind res_bind].
      eexists. split; [done|]. cbn match. split; [done|]. split; [done|]. split; [done|]. unfold is_del. by rewrite Hev, Hol.
Qed.

(** * The theorems *)

Lemma run_lease_op_ok mode dhcp_max db op :
  db_ok mode dhcp_max db → lease_op_ok db op → ∃ db', run_lease_op mode db op = Ok db' ∧ db_ok mode dhcp_max db'.
Proof.
  intros Hok Hop. assert (∀ p r, updates mode dhcp_max db p r → ∃ db', r = Ok db' ∧ db_ok mode dhcp_max db') as Hup by (intros p r (db' & ? & ? & -> & ? & _); eauto).
  destruct op as [new a|new a6 t|target now|p len now|p ia|p i|p hw c hw_len hw_type c_len|p name auth domain okn okf| | |ro renew]; cbn [run_lease_op lease_op_ok] in *.
  - unfold lease4_allocate. pose proof (lease_allocate_ok mode dhcp_max db new Hok Hop) as Ha. destruct (lease_allocate db new) as [db1 [p|]]; [|eexists; split; [done|apply Ha]].
    destruct Ha as (Hok1 & _ & _ & l & Hl & [? ? ? ?] & Hh & Hf). unfold get_lease. rewrite Hl. cbn [mbind res_bind]. eexists. split; [done|].
    eapply put_kept; [done|done|by split|done].
  - unfold lease6_allocate. pose proof (lease_allocate_ok mode dhcp_max db new Hok Hop) as Ha. destruct (lease_allocate db new) as [db1 [p|]]; [|eexists; split; [done|apply Ha]].
    destruct Ha as (Hok1 & _ & _ & l & Hl & [? ? ? ?] & Hh & Hf). unfold get_lease. rewrite Hl. cbn [mbind res_bind]. eexists. split; [done|].
    eapply put_ok; [done|done|by split|]. intros _ _. left. unfold name_key. simpl. by destruct mode.
  - destruct (lease_prune_ok mode dhcp_max db target now Hok) as (db' & -> & ? & _). eauto.
  - by eapply Hup, set_expires_ok.
  - by eapply Hup, set_iaid_ok.
  - by eapply Hup, set_interface_ok.
  - destruct Hop as (Hp & Hlen & Hhw & Hc). destruct (get_live mode dhcp_max db p Hok Hp) as (l & E & Hl & Hlo). unfold lease_set_hwaddr. rewrite E. cbn [mbind res_bind].
    set (db0 := put_lease db p _). assert (db_ok mode dhcp_max db0) as Hok0 by (eapply put_kept; [done|done|by apply ok_flags|by apply kept_lor]).
    destruct (set_hw_ok mode dhcp_max db0 p hw hw_len hw_type Hok0 Hp Hlen Hhw) as (db1 & ? & ? & -> & Hok1 & _ & _ & _ & _ & Hls & _). cbn [mbind res_bind].
    destruct c as [c|]; [|eauto]. destruct (Z.eqb_spec c_len 0); [eauto|]. cbn [negb].
    specialize (Hc c eq_refl). pose proof (zlen_nonneg c).
    destruct (set_clid_ok mode dhcp_max db1 p c c_len Hok1) as (db2 & ? & ? & -> & Hok2 & _); [by rewrite Hls|lia|done|]. eauto.
  - destruct Hop as (Hp & Hn & Hd). by apply set_hostname_ok.
  - apply sweep_ok; [intros l; by apply kept_land|done|done].
  - apply sweep_ok; [intros l; by apply kept_lor|done|done].
  - destruct (do_script_run_ok ro renew mode dhcp_max db Hok) as (r & -> & Hr). cbn [mbind res_bind]. destruct r as [[db' ev]|]; [|eauto]. destruct Hr as [? _]. eauto.
Qed.

Definition lease_start (dhcp_max : Z) : lease_db := LeaseDb ∅ [] [] dhcp_max false false.

(** The states of the database. *)
Inductive lease_reachable (mode : bool) (dhcp_max : Z) : lease_db → Prop :=
| lease_init_reachable : lease_reachable mode dhcp_max (lease_start dhcp_max)
| lease_step_reachable db op db' :
    lease_reachable mode dhcp_max db → lease_op_ok db op → run_lease_op mode db op = Ok db' → lease_reachable mode dhcp_max db'.

Lemma reachable_ok mode dhcp_max db : 0 ≤ dhcp_max → lease_reachable mode dhcp_max db → db_ok mode dhcp_max db.
Proof.
  intros Hm. induction 1 as [|db op db' _ IH Hop E].
  - split; simpl; try done.
    + intros p. rewrite lookup_empty, !elem_of_nil. split; [by intros [? ?]|tauto].
    + constructor.
    + change (zlen (@nil Z)) with 0. lia.
  - destruct (run_lease_op_ok mode dhcp_max db op IH Hop) as (db1 & E1 & ?). congruence.
Qed.

(** C12. The lease database stays consistent: in every reachable state every
    operation succeeds without touching a freed lease, the number of leases is
    within dhcp-lease-max, a lease is on exactly one of the lists of current and
    old leases and allocated as long as it is, and no two IPv4 leases have the
    same name (the same fully qualified name in the mode that compares those). *)
Theorem lease_database_invariant mode dhcp_max db op :
  0 ≤ dhcp_max → lease_reachable mode dhcp_max db → lease_op_ok db op →
  (∃ db', run_lease_op mode db op = Ok db') ∧ zlen (leases db) ≤ dhcp_max ∧ NoDup (leases db ++ old_leases db) ∧
  (∀ p, is_Some (heap db !! p) ↔ p ∈ leases db ∨ p ∈ old_leases db) ∧ unique_names mode (heap db) (leases db).
Proof.
  intros Hm Hr Hop. pose proof (reachable_ok mode dhcp_max db Hm Hr) as Hok.
  destruct (run_lease_op_ok mode dhcp_max db op Hok Hop) as (db' & E & _). destruct Hok as [Hh Hn [Hc H0] _ Hu].
  split; [eauto|]. split; [lia|]. done.
Qed.

Lemma lease_database_invariant_witness :
  (∃ db', run_lease_op false (lease_start 10) (Alloc4 (Some 1000) 7) = Ok db') ∧ zlen (leases (lease_start 10)) ≤ 10 ∧
  NoDup (leases (lease_start 10) ++ old_leases (lease_start 10)) ∧
  (∀ p, is_Some (heap (lease_start 10) !! p) ↔ p ∈ leases (lease_start 10) ∨ p ∈ old_leases (lease_start 10)) ∧
  unique_names false (heap (lease_start 10)) (leases (lease_start 10)).
Proof.
  apply (lease_database_invariant false 10 (lease_start 10) (Alloc4 (Some 1000) 7)); [lia|constructor|].
  intros p _. apply lookup_empty.
Defined.

(** The calls of do_script_run that follow each other. *)
Fixpoint script_rounds (n : nat) (ro renew : bool) (db : lease_db) : res (list script_event * lease_db) :=
  match n with
  | O => Ok ([], db)
  | S n =>
      r ← do_script_run ro renew db;
      match r with
      | None => Ok ([], db)
      | Some (db, ev) => '(evs, db) ← script_rounds n ro renew db; Ok (ev :: evs, db)
      end
  end.

Lemma script_rounds_ok ro renew mode dhcp_max n db :
  db_ok mode dhcp_max db → (script_weight ro renew db ≤ n)%nat →
  ∃ evs db', script_rounds n ro renew db = Ok (evs, db') ∧ db_ok mode dhcp_max db' ∧ script_idle ro renew db' ∧ leases db' = leases db ∧
    length (filter (λ ev, is_del ev = true) evs) = length (old_leases db).
Proof.
  revert db. induction n as [|n IH]; intros db Hok Hw; cbn [script_rounds].
  - destruct (do_script_run_ok ro renew mode dhcp_max db Hok) as ([[db' ev]|] & _ & Hr); [lia|]. exists [], db. split; [done|]. split; [done|].
    split; [done|]. split; [done|]. destruct Hr as [-> _]. done.
  - destruct (do_script_run_ok ro renew mode dhcp_max db Hok) as ([[db1 ev]|] & -> & Hr); cbn [mbind res_bind].
    + destruct Hr as (Hok1 & Hls & Hlt & Hlen). destruct (IH db1 Hok1) as (evs & db' & -> & ? & ? & Hls' & Hd); [lia|]. cbn [mbind res_bind].
      eexists _, _. split; [done|]. split; [done|]. split; [done|]. split; [congruence|]. rewrite Hlen, <- Hd, filter_cons.
      destruct (is_del ev); simpl; done.
    + exists [], db. split; [done|]. split; [done|]. split; [done|]. split; [done|]. destruct Hr as [-> _]. done.
Qed.

(** C40. The queue of lease-change scripts drains: from any reachable state,
    calling do_script_run again and again comes to the point where it returns 0,
    after at most one call per old lease, old name and changed lease. Every old
    lease has then been announced as deleted and freed, no lease has a name
    change or a change flag left to announce, and no lease is lost. *)
Theorem script_queue_drains ro renew mode dhcp_max db :
  0 ≤ dhcp_max → lease_reachable mode dhcp_max db →
  ∃ evs db', script_rounds (script_weight ro renew db) ro renew db = Ok (evs, db') ∧ do_script_run ro renew db' = Ok None ∧
    script_idle ro renew db' ∧ leases db' = leases db ∧ (∀ p, is_Some (heap db' !! p) ↔ p ∈ leases db) ∧
    length (filter (λ ev, is_del ev = true) evs) = length (old_leases db).
Proof.
  intros Hm Hr. destruct (script_rounds_ok ro renew mode dhcp_max _ db (reachable_ok _ _ _ Hm Hr) (le_n _)) as (evs & db' & E & Hok & Hid & Hls & Hd).
  exists evs, db'. split; [done|]. split; [|split; [done|]; split; [done|]; split; [|done]].
  - destruct (do_script_run_ok ro renew mode dhcp_max db' Hok) as ([[db1 ev]|] & -> & Hr'); [|done]. exfalso.
    destruct Hr' as (_ & _ & Hlt & _). destruct Hid as [Ho Hidle]. assert (script_weight ro renew db' = 0%nat) as Hz; [|lia].
    unfold script_weight. rewrite Ho. simpl. assert (∀ ids, (∀ p, p ∈ ids → p ∈ leases db') → sum_list_with (lease_weight ro renew (heap db')) ids = 0%nat) as H0; [|by apply H0].
    induction ids as [|p ids IH]; intros Hin; [done|]. simpl. rewrite IH by (intros q Hq; apply Hin; by right).
    unfold lease_weight. destruct (heap db' !! p) as [l|] eqn:El; [|done]. destruct (Hidle p l) as [E1 E2]; [apply Hin; left|done|].
    unfold old_name. by rewrite E1, E2.
  - intros p. rewrite (do_heap _ _ _ Hok), Hls. destruct Hid as [-> _]. rewrite elem_of_nil. tauto.
Qed.

Lemma script_queue_drains_witness :
  let db := match run_lease_op false (lease_start 10) (Alloc4 (Some 1000) 7) with Ok db => db | _ => lease_start 10 end in
  leases db = [1000] ∧
  ∃ evs db', script_rounds (script_weight false false db) false false db = Ok (evs, db') ∧
    do_script_run false false db' = Ok None ∧ script_idle false false db' ∧ leases db' = leases db ∧
    (∀ p, is_Some (heap db' !! p) ↔ p ∈ leases db) ∧ length (filter (λ ev, is_del ev = true) evs) = length (old_leases db).
Proof.
  intros db. split; [reflexivity|]. apply (script_queue_drains false false false 10 db); [lia|].
  apply (lease_step_reachable false 10 (lease_start 10) (Alloc4 (Some 1000) 7)); [constructor|intros p _; apply lookup_empty|reflexivity].
Defined.

(** * Two defects *)

(** Two IPv6 leases of one client share a name; a second client takes the name:
    only the first of the two leases loses it. *)
Lemma v6_name_taken_from_one_lease :
  let l d h := Lease 1 (Some [d]) h None None LEASE_NA 0 0 0 (repeat 0 16) 0 0 (repeat 0 16) 0 in
  let db := LeaseDb (list_to_map [(1, l 7 (Some [104])); (2, l 7 (Some [104])); (3, l 9 None)]) [1; 2; 3] [] 7 false false in
  (db' ← lease_set_hostname false db 3 (Some [104]) true None true true;
   a ← get_lease db' 1; b ← get_lease db' 2; c ← get_lease db' 3; Ok (l_hostname a, l_hostname b, l_hostname c)) =
  Ok (None, Some [104], Some [104]).
Proof. vm_compute. reflexivity. Qed.

(** When memory for a new client identifier cannot be had, the old one is freed
    but its length stays; a later search by an identifier of that length reads
    through the null pointer. *)
Lemma clid_length_left_behind :
  let l := Lease 1 (Some [7]) None None None LEASE_NA 0 0 0 (repeat 0 16) 0 0 (repeat 0 16) 0 in
  let db := LeaseDb {[ 1 := l ]} [1] [] 9 false false in
  (db' ← lease_set_hwaddr db 1 [] (Some [1; 2]) 0 0 2 false; lease6_find db' [7] 1 LEASE_NA 0 (repeat 0 16)) = Oob.
Proof. vm_compute. reflexivity. Qed.
