(* ===== verification/DhcpTags.v ===== *)
(** Tags (src/src/dhcp-common.c): the matching of tags, the options they select, and
    the configuration of a host. A tag list that is NULL is the empty list. The tags that
    are set by expressions are linked in front of the others. *)
From Stdlib Require Import Ascii String.
From S2P Require Import Prelude Hostname NetAddr Lease SynthDomain.

(** A tag that must not be there. *)
Definition negated (c : cstring) : bool := match c with b :: _ => (b =? 33) || (b =? 35) | [] => false end.
Definition has_tag (c : cstring) (pool : list cstring) : bool := existsb (λ t, bool_decide (c = t)) pool.

Fixpoint match_loop (check pool : list cstring) : bool :=
  match check with
  | [] => true
  | c :: check =>
      if negb (negated c) then if has_tag c pool then match_loop check pool else false
      else if has_tag (drop 1 c) pool then false else match_loop check pool
  end.
Definition match_netid (check pool : list cstring) (tagnotneeded : bool) : bool :=
  match check with [] => tagnotneeded | _ :: _ => match_loop check pool end.

(** With a star at the end, the tags that begin like that. *)
Definition is_wild (c : cstring) : bool := bool_decide (last c = Some 42).
Definition wild_tag (c : cstring) (wild : bool) (pool : list cstring) : bool :=
  existsb (λ t, if wild then isprefix (take (length c - 1) c) t else bool_decide (c = t)) pool.
Fixpoint match_netid_wild (check pool : list cstring) : bool :=
  match check with
  | [] => true
  | c :: check =>
      if negb (negated c) then if wild_tag c (is_wild c) pool then match_netid_wild check pool else false
      else if wild_tag (drop 1 c) (is_wild c) pool then false else match_netid_wild check pool
  end.

(** struct tag_if: the tags to set and the tags that are wanted. *)
Record tag_if := TagIf { ti_set : list cstring; ti_tag : list cstring }.
Fixpoint run_tag_if (exprs : list tag_if) (tags : list cstring) : list cstring :=
  match exprs with
  | [] => tags
  | e :: exprs => run_tag_if exprs (if match_netid_wild (ti_tag e) tags then foldl (λ tags t, t :: tags) tags (ti_set e) else tags)
  end.

(** * Options *)

(** struct dhcp_opt, as far as it matters here: [f_special] is one of the flags
    DHOPT_ENCAPSULATE, DHOPT_VENDOR and DHOPT_RFC3925, [f_ok] is DHOPT_TAGOK. *)
Record fopt := FOpt { f_opt : Z; f_special : bool; f_netid : list cstring; f_ok : bool }.
Definition set_ok (x : fopt) (b : bool) : fopt := FOpt (f_opt x) (f_special x) (f_netid x) b.

(** A pass that looks at all options, those before as they are after the pass. *)
Fixpoint pass (p : fopt → list fopt → bool) (pre post : list fopt) : list fopt :=
  match post with
  | [] => pre
  | x :: post => pass p (pre ++ [if p x (pre ++ x :: post) then set_ok x true else x]) post
  end.
Definition wants_context (tagif : list cstring) (x : fopt) (all : list fopt) : bool :=
  negb (f_special x) && negb (f_ok x) && match_netid (f_netid x) tagif false &&
  negb (existsb (λ t, (f_opt t =? f_opt x) && negb (bool_decide (f_netid x = [])) && f_ok t) all).
Definition wants_untagged (x : fopt) (all : list fopt) : bool :=
  negb (f_special x) && negb (f_ok x) && bool_decide (f_netid x = []) && negb (existsb (λ t, (f_opt t =? f_opt x) && f_ok t) all).
(** Options of the same code after one that is taken; [seen] are the codes of those. *)
Fixpoint drop_duplicates (seen : list Z) (l : list fopt) : list fopt :=
  match l with
  | [] => []
  | x :: l => let x := if existsb (λ c, c =? f_opt x) seen then set_ok x false else x in x :: drop_duplicates (if f_ok x then f_opt x :: seen else seen) l
  end.

(** The tags with those set by expressions, and the options with their flags.
    [context_tags] is None for NULL. *)
Definition option_filter (exprs : list tag_if) (tags : list cstring) (context_tags : option (list cstring)) (opts : list fopt) : list cstring * list fopt :=
  let tagif := run_tag_if exprs tags in
  let opts := (λ x, set_ok x (negb (f_special x) && match_netid (f_netid x) tagif false)) <$> opts in
  let '(tagif, opts) :=
    match context_tags with
    | None => (tagif, opts)
    | Some context_tags =>
        let tagif := run_tag_if exprs (context_tags ++ tags) in
        let opts := (λ x, if negb (f_special x) && f_ok x && negb (match_netid (f_netid x) tagif false) then set_ok x false else x) <$> opts in
        (tagif, pass (wants_context tagif) [] opts)
    end in
  (tagif, drop_duplicates [] (pass wants_untagged [] opts)).

(** * What is selected *)

(** Fields that never change. *)
Definition fixed (x : fopt) : Z * bool * list cstring := (f_opt x, f_special x, f_netid x).

Lemma pass_fixed p pre post : fixed <$> pass p pre post = fixed <$> (pre ++ post).
Proof.
  revert pre. induction post as [|x post IH]; intros pre; cbn [pass]; [by rewrite app_nil_r|]. rewrite IH, !fmap_app, <- app_assoc. f_equal. cbn [fmap list_fmap app]. f_equal. by destruct (p _ _).
Qed.
Lemma drop_duplicates_fixed seen l : fixed <$> drop_duplicates seen l = fixed <$> l.
Proof. revert seen. induction l as [|x l IH]; intros seen; [done|]. cbn [drop_duplicates fmap list_fmap]. f_equal; [by destruct (existsb _ _)|apply IH]. Qed.

(** What a pass leaves: options that were taken stay, and each one that is taken was wanted
    with those before and after it. *)
Lemma pass_spec p pre post y :
  y ∈ pass p pre post → y ∈ pre ∨ y ∈ post ∨ (∃ x l, x ∈ post ∧ y = set_ok x true ∧ p x l = true ∧ fixed <$> l = fixed <$> (pre ++ post) ∧
    (∀ z, z ∈ pre ++ post → f_ok z = true → ∃ z', z' ∈ l ∧ fixed z' = fixed z ∧ f_ok z' = true)).
Proof.
  revert pre. induction post as [|x post IH]; intros pre; cbn [pass]; [by left|].
  set (x' := if p x (pre ++ x :: post) then set_ok x true else x). assert (fixed x' = fixed x) as Hx' by (unfold x'; by destruct (p _ _)).
  assert (f_ok x = true → f_ok x' = true) as Hok by (unfold x'; by destruct (p _ _)). intros [Hy|[Hy|(z & l & Hz & -> & Hp & Hl & Hall)]]%IH.
  - apply elem_of_app in Hy as [?|Hy%list_elem_of_singleton]; [by left|]. subst y. unfold x'. destruct (p x (pre ++ x :: post)) eqn:E; [|right; left; by left].
    right. right. exists x, (pre ++ x :: post). split_and!; [by left|done|done|done|]. intros z Hz Hzo. by exists z.
  - right. left. by right.
  - right. right. exists z, l. split_and!; [by right|done|done| |].
    + rewrite Hl, !fmap_app, <- app_assoc. cbn [fmap list_fmap app]. by rewrite Hx'.
    + intros w Hw Hwo. rewrite elem_of_app, elem_of_cons in Hw. destruct Hw as [Hw|[->|Hw]].
      * apply Hall; [|done]. rewrite !elem_of_app. tauto.
      * destruct (Hall x') as (z' & ? & E & ?); [|by apply Hok|exists z'; by rewrite E]. rewrite !elem_of_app, list_elem_of_singleton. tauto.
      * apply Hall; [|done]. rewrite !elem_of_app. tauto.
Qed.

(** An option of the code is taken. *)
Definition taken (l : list fopt) (c : Z) : Prop := ∃ z, z ∈ l ∧ f_opt z = c ∧ f_ok z = true.

Lemma pass_pre p pre post z : z ∈ pre → z ∈ pass p pre post.
Proof. revert pre. induction post as [|x post IH]; intros pre Hz; cbn [pass]; [done|]. apply IH. rewrite elem_of_app. by left. Qed.

(** Each option is looked at once, with options that are in the result or are not taken yet. *)
Lemma pass_elem (p : fopt → list fopt → bool) pre post x :
  x ∈ post → ∃ l, (if p x l then set_ok x true else x) ∈ pass p pre post ∧ (∀ c, taken l c → taken (pass p pre post) c).
Proof.
  revert pre x. induction post as [|y post IH]; intros pre x Hx; [by apply elem_of_nil in Hx|]. cbn [pass]. set (y' := if p y (pre ++ y :: post) then set_ok y true else y).
  assert (f_ok y = true → f_ok y' = true ∧ f_opt y' = f_opt y) as Hy' by (unfold y'; destruct (p _ _); cbn; auto).
  apply elem_of_cons in Hx as [->|Hx]; [|by apply IH]. exists (pre ++ y :: post). split; [apply pass_pre; rewrite elem_of_app; right; by left|].
  intros c (z & Hz & <- & Hzo). rewrite elem_of_app, elem_of_cons in Hz. destruct Hz as [Hz|[->|Hz]].
  - exists z. split; [apply pass_pre; rewrite elem_of_app; by left|done].
  - exists y'. destruct (Hy' Hzo). split; [apply pass_pre; rewrite elem_of_app; right; by left|done].
  - destruct (IH (pre ++ [y']) z Hz) as (l & Hl & _). eexists. split; [exact Hl|]. destruct (p z l); done.
Qed.

Lemma pass_keeps p l c : taken l c → taken (pass p [] l) c.
Proof. intros (z & Hz & <- & Ho). destruct (pass_elem p [] l z Hz) as (k & Hk & _). eexists. split; [exact Hk|]. by destruct (p z k). Qed.

Lemma pass_context tagif l x : x ∈ l → f_special x = false → match_netid (f_netid x) tagif false = true → taken (pass (wants_context tagif) [] l) (f_opt x).
Proof.
  intros Hx Hs Hm. destruct (pass_elem (wants_context tagif) [] l x Hx) as (k & Hk & Ht). unfold wants_context in Hk at 1. rewrite Hs, Hm in Hk. cbn [negb andb] in Hk.
  destruct (f_ok x) eqn:Ho; cbn [negb andb] in Hk; [by exists x|]. destruct (existsb _ k) eqn:E; cbn [negb] in Hk.
  - apply existsb_exists in E as (t & Hin & Et). bool_hyps. apply Ht. exists t. rewrite list_elem_of_In. bool_hyps. auto.
  - by exists (set_ok x true).
Qed.
Lemma pass_untagged l x : x ∈ l → f_special x = false → f_netid x = [] → taken (pass wants_untagged [] l) (f_opt x).
Proof.
  intros Hx Hs Hn. destruct (pass_elem wants_untagged [] l x Hx) as (k & Hk & Ht). unfold wants_untagged in Hk at 1. rewrite Hs, Hn, bool_decide_eq_true_2 in Hk by done. cbn [negb andb] in Hk.
  destruct (f_ok x) eqn:Ho; cbn [negb andb] in Hk; [by exists x|]. destruct (existsb _ k) eqn:E; cbn [negb] in Hk.
  - apply existsb_exists in E as (t & Hin & Et). bool_hyps. apply Ht. exists t. rewrite list_elem_of_In. auto.
  - by exists (set_ok x true).
Qed.

Lemma drop_duplicates_in seen l y : y ∈ drop_duplicates seen l → f_ok y = true → y ∈ l ∧ f_opt y ∉ seen.
Proof.
  revert seen. induction l as [|x l IH]; intros seen Hy Ho; [by apply elem_of_nil in Hy|]. cbn [drop_duplicates] in Hy. destruct (existsb (λ c, c =? f_opt x) seen) eqn:E.
  - apply elem_of_cons in Hy as [->|Hy]; [done|]. cbn [f_ok set_ok] in Hy. destruct (IH _ Hy Ho). split; [by right|done].
  - apply elem_of_cons in Hy as [->|Hy].
    + split; [by left|]. intros Hin. rewrite list_elem_of_In in Hin. assert (existsb (λ c, c =? f_opt x) seen = true); [|congruence]. apply existsb_exists. exists (f_opt x). by rewrite Z.eqb_refl.
    + destruct (IH _ Hy Ho) as [? Hn]. split; [by right|]. destruct (f_ok x); [|done]. by apply not_elem_of_cons in Hn as [_ ?].
Qed.
Lemma drop_duplicates_taken seen l c : taken l c → c ∈ seen ∨ taken (drop_duplicates seen l) c.
Proof.
  revert seen. induction l as [|x l IH]; intros seen (z & Hz & Hc & Ho); [by apply elem_of_nil in Hz|]. cbn [drop_duplicates].
  assert (∀ y seen', taken (drop_duplicates seen' l) c → taken (y :: drop_duplicates seen' l) c) as Hcons by (intros y seen' (w & Hw & ?); exists w; split; [by right|done]).
  destruct (existsb (λ c, c =? f_opt x) seen) eqn:E; cbn [f_ok set_ok].
  - apply elem_of_cons in Hz as [->|Hz]; [left; apply existsb_exists in E as (k & Hk & Ek); bool_hyps; rewrite list_elem_of_In; by rewrite <- Hc, <- Ek|].
    destruct (IH seen) as [?|Ht]; [by exists z|by left|]. right. by apply Hcons.
  - apply elem_of_cons in Hz as [->|Hz]; [right; exists x; split; [by left|done]|]. destruct (IH (if f_ok x then f_opt x :: seen else seen)) as [Hin|Ht]; [by exists z| |right; by apply Hcons].
    destruct (f_ok x) eqn:Ex; [|by left]. apply elem_of_cons in Hin as [->|?]; [|by left]. right. exists x. split; [by left|done].
Qed.
Lemma drop_duplicates_unique seen l i j x y :
  drop_duplicates seen l !! i = Some x → drop_duplicates seen l !! j = Some y → f_ok x = true → f_ok y = true → f_opt x = f_opt y → i = j.
Proof.
  revert seen i j. induction l as [|z l IH]; intros seen i j Hi Hj Hx Hy He; [done|]. cbn [drop_duplicates] in *. set (z' := if existsb _ seen then set_ok z false else z) in *.
  assert (∀ k w, drop_duplicates (if f_ok z' then f_opt z' :: seen else seen) l !! k = Some w → f_ok w = true → f_ok z' = true → f_opt w ≠ f_opt z') as Hne.
  { intros k w Hk Hw Hz Heq. rewrite Hz in Hk. apply list_elem_of_lookup_2 in Hk. destruct (drop_duplicates_in _ _ _ Hk Hw) as [_ Hn]. apply Hn. rewrite Heq. by left. }
  destruct i as [|i], j as [|j]; cbn in Hi, Hj; [done| | |f_equal; by eapply IH].
  - injection Hi as <-. by destruct (Hne j y Hj Hy Hx).
  - injection Hj as <-. by destruct (Hne i x Hi Hx Hy).
Qed.

(** The options with their flags before untagged ones are considered. *)
Definition tagged_part (exprs : list tag_if) (tags : list cstring) (context_tags : option (list cstring)) (opts : list fopt) : list cstring * list fopt :=
  let tagif := run_tag_if exprs tags in
  let opts := (λ x, set_ok x (negb (f_special x) && match_netid (f_netid x) tagif false)) <$> opts in
  match context_tags with
  | None => (tagif, opts)
  | Some context_tags =>
      let tagif := run_tag_if exprs (context_tags ++ tags) in
      let opts := (λ x, if negb (f_special x) && f_ok x && negb (match_netid (f_netid x) tagif false) then set_ok x false else x) <$> opts in
      (tagif, pass (wants_context tagif) [] opts)
  end.

Lemma fixed_elem (l k : list fopt) x : fixed <$> k = fixed <$> l → x ∈ l → ∃ y, y ∈ k ∧ fixed y = fixed x.
Proof. intros F Hx. assert (fixed x ∈ fixed <$> k) as H by (rewrite F; by apply list_elem_of_fmap_2). apply list_elem_of_fmap in H as (y & ? & ?). by exists y. Qed.

Lemma tagged_part_spec exprs tags ctx opts tagif l :
  tagged_part exprs tags ctx opts = (tagif, l) →
  fixed <$> l = fixed <$> opts ∧ (∀ x, x ∈ l → f_ok x = true → f_special x = false ∧ match_netid (f_netid x) tagif false = true) ∧
  (∀ x, x ∈ opts → f_special x = false → match_netid (f_netid x) tagif false = true → taken l (f_opt x)).
Proof.
  unfold tagged_part. cbv zeta. set (t1 := run_tag_if exprs tags). set (o1 := _ <$> opts).
  assert (fixed <$> o1 = fixed <$> opts) as F1 by (unfold o1; rewrite <- list_fmap_compose; by apply list_fmap_ext). destruct ctx as [ctx|]; intros [= <- <-].
  - set (t2 := run_tag_if exprs (ctx ++ tags)). set (o2 := _ <$> o1). split; [|split].
    + rewrite pass_fixed. cbn [app]. rewrite <- F1. unfold o2. rewrite <- list_fmap_compose. apply list_fmap_ext. intros k x _. cbn. by destruct (_ && _).
    + intros x Hx Ho. apply pass_spec in Hx as [Hx%elem_of_nil|[Hx|(y & k & Hy & -> & Hp & _)]]; [done| |].
      * unfold o2 in Hx. apply list_elem_of_fmap in Hx as (y & -> & Hy). unfold o1 in Hy. apply list_elem_of_fmap in Hy as (w & -> & Hw). cbn [f_special f_ok f_netid set_ok] in *.
        destruct (f_special w) eqn:E1, (match_netid (f_netid w) t1 false), (match_netid (f_netid w) t2 false) eqn:E3; cbn [negb andb set_ok f_special f_ok f_netid] in *; by rewrite ?E1, ?E3.
      * unfold wants_context in Hp. bool_hyps. done.
    + intros x Hx Hs Hm. assert (∃ y, y ∈ o2 ∧ fixed y = fixed x) as (y & Hy & E).
      { apply (fixed_elem opts); [|done]. rewrite <- F1. unfold o2. rewrite <- list_fmap_compose. apply list_fmap_ext. intros k w _. cbn. by destruct (_ && _). }
      unfold fixed in E. injection E as E1 E2 E3. rewrite <- E1. apply pass_context; [done|congruence|congruence].
  - split; [done|]. split.
    + intros x Hx Ho. unfold o1 in Hx. apply list_elem_of_fmap in Hx as (y & -> & Hy). cbn [f_ok set_ok f_special f_netid] in *. bool_hyps. done.
    + intros x Hx Hs Hm. exists (set_ok x (negb (f_special x) && match_netid (f_netid x) t1 false)). split; [by apply (list_elem_of_fmap_2 (λ x, set_ok x (negb (f_special x) && match_netid (f_netid x) t1 false)))|]. cbn. by rewrite Hs, Hm.
Qed.

(** The options that the tags of a request select: nothing but the selection changes; of each code
    one option at most is selected, and it is one whose tags match or that has none; and of each
    code that has such an option one is selected, one with tags when one with tags matches. *)
Theorem option_filter_correct exprs tags ctx opts :
  let '(tagif, r) := option_filter exprs tags ctx opts in
  let fits x := f_special x = false ∧ (f_netid x = [] ∨ match_netid (f_netid x) tagif false = true) in
  fixed <$> r = fixed <$> opts ∧
  (∀ i j x y, r !! i = Some x → r !! j = Some y → f_ok x = true → f_ok y = true → f_opt x = f_opt y → i = j) ∧
  (∀ x, x ∈ r → f_ok x = true → fits x) ∧
  (∀ x, x ∈ opts → fits x → ∃ y, y ∈ r ∧ f_ok y = true ∧ f_opt y = f_opt x ∧ (f_netid x ≠ [] → f_netid y ≠ [])).
Proof.
  unfold option_filter. cbv zeta. change (let '(a, b) := ?t in (a, ?f b)) with (let '(a, b) := t in (a, f b)).
  destruct (tagged_part exprs tags ctx opts) as [tagif l] eqn:E. pose proof E as Et. unfold tagged_part in E. cbv zeta in E. rewrite E. apply tagged_part_spec in Et as (F & Hsnd & Hcmp).
  pose proof (λ x, fixed_elem opts l x F) as Hin.
  set (u := pass wants_untagged [] l). split; [by rewrite drop_duplicates_fixed; unfold u; rewrite pass_fixed|]. split; [apply drop_duplicates_unique|].
  assert (∀ y, y ∈ u → f_ok y = true → (y ∈ l ∧ match_netid (f_netid y) tagif false = true ∧ f_special y = false) ∨ (f_netid y = [] ∧ f_special y = false ∧ ¬ taken l (f_opt y))) as Hu.
  { intros y Hy Ho. apply pass_spec in Hy as [Hy%elem_of_nil|[Hy|(x & k & Hx & -> & Hp & _ & Hk)]]; [done|left; by destruct (Hsnd y Hy Ho)|].
    right. unfold wants_untagged in Hp. bool_hyps. cbn [f_netid f_special f_opt set_ok]. split; [by eapply bool_decide_eq_true_1|]. split; [done|].
    intros (z & Hz & Ez & Hzo). destruct (Hk z Hz Hzo) as (z' & Hz' & Ef & Hzo'). assert (existsb (λ t, (f_opt t =? f_opt x) && f_ok t) k = true); [|congruence].
    apply existsb_exists. exists z'. rewrite <- list_elem_of_In. split; [done|]. unfold fixed in Ef. injection Ef as Ef _ _. by rewrite Ef, Ez, Z.eqb_refl, Hzo'. }
  split.
  - intros x Hx Ho. destruct (drop_duplicates_in _ _ _ Hx Ho) as [Hxu _]. destruct (Hu x Hxu Ho) as [(_ & ? & ?)|(? & ? & _)]; auto.
  - intros x Hx [Hs Hm]. assert (taken u (f_opt x)) as Ht.
    { destruct (Hin x Hx) as (y & Hy & Ey). unfold fixed in Ey. injection Ey as E1 E2 E3. destruct Hm as [Hm|Hm]; [|by apply pass_keeps, Hcmp]. rewrite <- E1. apply pass_untagged; [done|congruence|congruence]. }
    destruct (drop_duplicates_taken [] u _ Ht) as [?%elem_of_nil|(y & Hy & Ey & Hyo)]; [done|]. exists y. split_and!; [done|done|done|]. intros Hne.
    destruct Hm as [?|Hm]; [done|]. destruct (drop_duplicates_in _ _ _ Hy Hyo) as [Hyu _]. destruct (Hu y Hyu Hyo) as [(_ & Hmy & _)|(_ & _ & Hno)]; [intros En; by rewrite En in Hmy|].
    destruct Hno. rewrite Ey. by apply Hcmp.
Qed.
