(* ===== verification/DhcpAlloc.v ===== *)
(** Hosts and addresses of the DHCP server (src/src/dhcp-common.c, src/src/dhcp.c): the
    configuration of a host, the context of an address and the choice of an address
    for a client. IPv4 addresses are numbers in host order. Whether an address answers
    a ping and whether there is memory are arguments; logging is left out. *)
From S2P Require Import Prelude Hostname NetAddr Lease DhcpTags.

Definition CONTEXT_STATIC : Z := 1.
Definition CONTEXT_PROXY : Z := 8.
Definition CONTEXT_V6 : Z := 131072.
Definition CONFIG_CLID : Z := 2.
Definition CONFIG_NAME : Z := 16.
Definition CONFIG_ADDR : Z := 32.
Definition CONFIG_ADDR6 : Z := 4096.

(** struct dhcp_context. *)
Record dcontext := DContext {
  k_start : Z; k_end : Z; k_netmask : Z; k_router : Z; k_flags : Z; k_filter : list cstring; k_epoch : Z; k_start6 : list Z; k_prefix : Z }.
(** struct hwaddr_config and struct dhcp_config; addresses of IPv6 with their flag
    ADDRLIST_WILDCARD. *)
Record hwaddr_config := HwConfig { w_len : Z; w_type : Z; w_addr : list Z; w_mask : Z }.
Record dhcp_config := DConfig {
  g_flags : Z; g_clid : list Z; g_hostname : cstring; g_filter : list cstring; g_addr : Z; g_addr6 : list (bool * list Z); g_hwaddr : list hwaddr_config }.

Definition same_net (a b mask : Z) : bool := Z.land a mask =? Z.land b mask.

(** * The configuration of a host *)

Definition config_has_mac (c : dhcp_config) (hw : list Z) (len type : Z) : bool :=
  existsb (λ w, (w_mask w =? 0) && (w_len w =? len) && ((w_type w =? type) || (w_type w =? 0)) && bool_decide (take (Z.to_nat len) (w_addr w) = take (Z.to_nat len) hw)) (g_hwaddr c).

(** [context] is the chain of contexts, empty for NULL. *)
Definition is_config_in_context (context : list dcontext) (c : dhcp_config) : bool :=
  match context with
  | [] => true
  | k :: _ =>
      if negb (flag (g_flags c) (Z.lor CONFIG_ADDR CONFIG_ADDR6)) then true
      else if flag (k_flags k) CONTEXT_V6 then
        flag (g_flags c) CONFIG_ADDR6 &&
        existsb (λ k, existsb (λ a : bool * list Z, (a.1 && (k_prefix k =? 64)) || is_same_net6 a.2 (k_start6 k) (k_prefix k)) (g_addr6 c)) context
      else existsb (λ k, flag (g_flags c) CONFIG_ADDR && same_net (g_addr c) (k_start k) (k_netmask k)) context
  end.

Section find.
Context (context : list dcontext) (tags : list cstring) (tag_not_needed : bool).
Definition eligible (c : dhcp_config) : bool := is_config_in_context context c && match_netid (g_filter c) tags tag_not_needed.

Definition by_clid (clid : list Z) (c : dhcp_config) : bool :=
  flag (g_flags c) CONFIG_CLID &&
  ((bool_decide (g_clid c = clid) && eligible c) ||
   (match context with [] => true | k :: _ => negb (flag (k_flags k) CONTEXT_V6) end && bool_decide (head clid = Some 0) && bool_decide (g_clid c = drop 1 clid) && eligible c)).
Definition by_mac (hw : list Z) (len type : Z) (c : dhcp_config) : bool := config_has_mac c hw len type && eligible c.
Definition by_name (name : cstring) (c : dhcp_config) : bool := flag (g_flags c) CONFIG_NAME && hostname_isequal (g_hostname c) name && eligible c.

(** The best of the masked hardware addresses: the number of bytes that count, and the configuration. *)
Definition better (hw : list Z) (len type : Z) (c : dhcp_config) (best : Z * option dhcp_config) (w : hwaddr_config) : Z * option dhcp_config :=
  if negb (w_mask w =? 0) && (w_len w =? len) && ((w_type w =? type) || (w_type w =? 0)) then
    let new := memcmp_masked (w_addr w) hw (Z.to_nat len) (w_mask w) in if best.1 <? new then (new, Some c) else best
  else best.
Definition by_mask (hw : list Z) (len type : Z) (best : Z * option dhcp_config) (c : dhcp_config) : Z * option dhcp_config :=
  if eligible c then foldl (better hw len type c) best (g_hwaddr c) else best.

(** [hw] is None for NULL. *)
Definition find_config_match (configs : list dhcp_config) (clid : option (list Z)) (hw : option (list Z)) (hw_len hw_type : Z) (hostname : option cstring) : option dhcp_config :=
  match match clid with Some clid => find (by_clid clid) configs | None => None end with
  | Some c => Some c
  | None =>
      match match hw with Some hw => find (by_mac hw hw_len hw_type) configs | None => None end with
      | Some c => Some c
      | None =>
          match match hostname with Some name => if bool_decide (context = []) then None else find (by_name name) configs | None => None end with
          | Some c => Some c
          | None => match hw with None => None | Some hw => (foldl (by_mask hw hw_len hw_type) (0, None) configs).2 end
          end
      end
  end.
End find.

Definition find_config (configs : list dhcp_config) (context : list dcontext) (clid hw : option (list Z)) (hw_len hw_type : Z) (hostname : option cstring) (tags : list cstring) : option dhcp_config :=
  match find_config_match context tags false configs clid hw hw_len hw_type hostname with
  | Some c => Some c
  | None => find_config_match context tags true configs clid hw hw_len hw_type hostname
  end.

Definition config_find_by_address (configs : list dhcp_config) (addr : Z) : option dhcp_config := find (λ c, flag (g_flags c) CONFIG_ADDR && (g_addr c =? addr)) configs.

(** * The context of an address *)

Definition is_fixed (k : dcontext) : bool := flag (k_flags k) (Z.lor CONTEXT_STATIC CONTEXT_PROXY).

(** The first loop compares with the router of the first context each time. *)
Definition address_available (context : list dcontext) (addr : Z) (netids : list cstring) : option dcontext :=
  match context with
  | [] => None
  | k0 :: _ =>
      if addr =? k_router k0 then None
      else find (λ k, negb (is_fixed k) && (k_start k <=? addr) && (addr <=? k_end k) && match_netid (k_filter k) netids true) context
  end.

Definition narrow_context (context : list dcontext) (addr : Z) (netids : list cstring) : option dcontext :=
  match address_available context addr netids with
  | Some k => Some k
  | None =>
      match find (λ k, match_netid (k_filter k) netids true && same_net addr (k_start k) (k_netmask k) && flag (k_flags k) CONTEXT_STATIC) context with
      | Some k => Some k
      | None => find (λ k, match_netid (k_filter k) netids true && same_net addr (k_start k) (k_netmask k) && negb (flag (k_flags k) CONTEXT_PROXY)) context
      end
  end.

(** * Pings *)

Definition PING_CACHE_TIME : Z := 30.
(** 0.6 * 30 / 3 *)
Definition ping_max : Z := 6.
(** struct ping_result. *)
Record ping_result := Ping { pg_addr : Z; pg_time : Z; pg_hash : Z }.

(** The scan of the results: the hash of a recent one for the address, else the number of
    recent ones and the place of the last old one. *)
Fixpoint ping_scan (l : list ping_result) (now addr : Z) (i count : Z) (victim : option Z) : Z + Z * option Z :=
  match l with
  | [] => inr (count, victim)
  | r :: l =>
      if PING_CACHE_TIME <? now - pg_time r then ping_scan l now addr (i + 1) count (Some i)
      else if pg_addr r =? addr then inl (pg_hash r)
      else ping_scan l now addr (i + 1) (count + 1) victim
  end.

(** NULL is None, otherwise the hash of the result. [skip] says that no ping is to be
    made. *)
Definition do_icmp_ping (ping : Z → bool) (mem skip : bool) (l : list ping_result) (now addr hash : Z) : option Z * list ping_result :=
  match ping_scan l now addr 0 0 None with
  | inl h => (Some h, l)
  | inr (count, victim) =>
      if (ping_max <=? count) || skip then (Some hash, l)
      else if ping addr then (None, l)
      else match victim with
      | Some i => (Some hash, <[Z.to_nat i := Ping addr now hash]> l)
      | None => if mem then (Some hash, Ping addr now hash :: l) else (None, l)
      end
  end.

(** * The choice of an address *)

(** The SDBM hash of the hardware address, 1 for 0. *)
Definition sdbm (hw : list Z) : Z :=
  let j := foldl (λ j b, u32 (b + u32 (Z.shiftl j 6) + u32 (Z.shiftl j 16) - j)) 0 hw in if j =? 0 then 1 else j.

(** An address of the former class C range that ends in 0 or 255. *)
Definition awkward (addr : Z) : bool := (Z.land addr 3758096384 =? 3221225472) && ((Z.land addr 255 =? 255) || (Z.land addr 255 =? 0)).

Section allocate.
Context (db : lease_db) (configs : list dhcp_config) (consec : bool) (ping : Z → bool) (mem skip : bool) (now j : Z).

(** In use by the server, leased, configured for a host, or not to be given. *)
Definition unusable (context : list dcontext) (addr : Z) : res bool :=
  if existsb (λ k, addr =? k_router k) context then Ok true
  else
    l ← lease_find_by_addr db addr;
    Ok (match l with Some _ => true | None => match config_find_by_address configs addr with Some _ => true | None => awkward addr end end).

(** The loop over the addresses of a context; the epoch counts addresses to skip. *)
Fixpoint try_range (fuel : nat) (context : list dcontext) (lo hi start addr epoch : Z) (l : list ping_result) : res (option Z * Z * list ping_result) :=
  match fuel with
  | O => NoFuel
  | S fuel =>
      u ← unusable context addr;
      let '(found, epoch, l) :=
        if u : bool then (false, epoch, l)
        else if consec && negb (epoch =? 0) then (false, u32 (epoch - 1), l)
        else
          let '(r, l) := do_icmp_ping ping mem skip l now addr j in
          match r with
          | Some h => (negb consec || (h =? j), epoch, l)
          | None => (false, if consec then epoch else u32 (epoch + 1), l)
          end in
      if found then Ok (Some addr, epoch, l)
      else
        let next := if u32 (addr + 1) =? u32 (hi + 1) then lo else u32 (addr + 1) in
        if next =? start then Ok (None, epoch, l) else try_range fuel context lo hi start next epoch l
  end.

Definition with_epoch (k : dcontext) (e : Z) : dcontext :=
  DContext (k_start k) (k_end k) (k_netmask k) (k_router k) (k_flags k) (k_filter k) e (k_start6 k) (k_prefix k).

(** Where to begin: after the largest lease, or at a place given by the hash. A range of all
    addresses has no size in 32 bits. *)
Definition first_address (k : dcontext) : res Z :=
  if consec then lease_find_max_addr db (is_fixed k) (k_start k) (k_end k)
  else
    let n := u32 (1 + k_end k - k_start k) in
    if n =? 0 then Oob else Ok (u32 (k_start k + u32 (j + k_epoch k) mod n)).

(** One pass over the contexts; [tnn] is for contexts that want no tags. *)
Fixpoint try_contexts (tnn : bool) (netids : list cstring) (pre post : list dcontext) (l : list ping_result) : res (option Z * list dcontext * list ping_result) :=
  match post with
  | [] => Ok (None, pre, l)
  | k :: post =>
      if is_fixed k || negb (match_netid (k_filter k) netids tnn) then try_contexts tnn netids (pre ++ [k]) post l
      else
        start ← first_address k;
        '(r, e, l) ← try_range (S (Z.to_nat (k_end k - k_start k))) (pre ++ k :: post) (k_start k) (k_end k) start start (k_epoch k) l;
        let k := with_epoch k e in
        match r with Some a => Ok (Some a, pre ++ k :: post, l) | None => try_contexts tnn netids (pre ++ [k]) post l end
  end.
End allocate.

Definition address_allocate (db : lease_db) (configs : list dhcp_config) (consec : bool) (ping : Z → bool) (mem skip : bool) (now : Z)
    (context : list dcontext) (hw : list Z) (netids : list cstring) (l : list ping_result) : res (option Z * list dcontext * list ping_result) :=
  let j := sdbm hw in
  '(r, context, l) ← try_contexts db configs consec ping mem skip now j false netids [] context l;
  match r with
  | Some a => Ok (Some a, context, l)
  | None => try_contexts db configs consec ping mem skip now j true netids [] context l
  end.
