(* ===== verification/DhcpAllocSpec.v ===== *)
(** The address that is chosen for a client is free, and none is refused while there is one. *)
From S2P Require Import Prelude Hostname NetAddr Lease DhcpTags DhcpAlloc.

Section spec.
Context (db : lease_db) (configs : list dhcp_config) (consec : bool) (ping : Z → bool) (mem skip : bool) (now j : Z).
Hypothesis (Hdb : ∀ id, id ∈ leases db → is_Some (heap db !! id)).

(** An IPv4 lease of the address. *)
Definition leased (addr : Z) : Prop := ∃ id l, id ∈ leases db ∧ heap db !! id = Some l ∧ is_v6 l = false ∧ l_addr l = addr.
(** Why an address is not given. *)
Definition refused (context : list dcontext) (addr : Z) : Prop :=
  (∃ k, k ∈ context ∧ k_router k = addr) ∨ leased addr ∨ (∃ c, c ∈ configs ∧ flag (g_flags c) CONFIG_ADDR = true ∧ g_addr c = addr) ∨ awkward addr = true.

Lemma find_lease_addr ids addr :
  (∀ id, id ∈ ids → is_Some (heap db !! id)) →
  ∃ r, find_lease db (λ l, Ok (negb (is_v6 l) && (l_addr l =? addr))) ids = Ok r ∧
    (is_Some r ↔ ∃ id l, id ∈ ids ∧ heap db !! id = Some l ∧ is_v6 l = false ∧ l_addr l = addr).
Proof.
  induction ids as [|id ids IH]; intros Hin; cbn [find_lease].
  - exists None. split; [done|]. split; [by intros []|]. intros (id & l & Hi & _). by apply elem_of_nil in Hi.
  - destruct (Hin id) as [l El]; [by left|]. unfold get_lease. rewrite El. cbn [mbind res_bind]. destruct (negb (is_v6 l) && (l_addr l =? addr)) eqn:E.
    + bool_hyps. exists (Some id). split; [done|]. split; [|done]. intros _. exists id, l. split; [by left|done].
    + destruct IH as (r & -> & Hr); [intros i Hi; apply Hin; by right|]. exists r. split; [done|]. rewrite Hr. split.
      * intros (i & l' & Hi & ?). exists i, l'. split; [by right|done].
      * intros (i & l' & [->|Hi]%elem_of_cons & El' & Hv & Ha); [|by exists i, l']. rewrite El in El'. injection El' as <-. rewrite Hv, Ha, Z.eqb_refl in E. done.
Qed.

Lemma find_is_some {A} (p : A → bool) l : is_Some (find p l) ↔ ∃ x, x ∈ l ∧ p x = true.
Proof.
  induction l as [|x l IH]; cbn [find]; [split; [by intros []|intros (x & Hx & _); by apply elem_of_nil in Hx]|]. destruct (p x) eqn:E.
  - split; [|done]. intros _. exists x. split; [by left|done].
  - rewrite IH. split; [intros (y & ? & ?); exists y; split; [by right|done]|]. intros (y & [->|Hy]%elem_of_cons & Hp); [congruence|by exists y].
Qed.

Lemma unusable_spec context addr : ∃ b, unusable db configs context addr = Ok b ∧ (b = true ↔ refused context addr).
Proof.
  unfold unusable, refused. destruct (existsb (λ k, addr =? k_router k) context) eqn:Er.
  { exists true. split; [done|]. split; [|done]. intros _. left. apply existsb_exists in Er as (k & Hk & E). bool_hyps. exists k. by rewrite list_elem_of_In. }
  assert (¬ ∃ k, k ∈ context ∧ k_router k = addr) as Hr.
  { intros (k & Hk & E). assert (existsb (λ k, addr =? k_router k) context = true); [|congruence]. apply existsb_exists. exists k. rewrite <- list_elem_of_In. split; [done|]. by rewrite E, Z.eqb_refl. }
  unfold lease_find_by_addr. destruct (find_lease_addr (leases db) addr Hdb) as (r & -> & Hl). cbn [mbind res_bind]. eexists. split; [reflexivity|]. fold (leased addr) in Hl.
  destruct r as [id|]; [split; [|done]; intros _; right; left; by apply Hl|]. assert (¬ leased addr) as Hnl by (intros [? ?]%Hl; done).
  pose proof (find_is_some (λ c, flag (g_flags c) CONFIG_ADDR && (g_addr c =? addr)) configs) as Hc. fold (config_find_by_address configs addr) in Hc.
  destruct (config_find_by_address configs addr) as [c|].
  - split; [|done]. intros _. destruct (proj1 Hc) as (c' & ? & E); [done|]. bool_hyps. right. right. left. by exists c'.
  - split; [tauto|]. intros [?|[?|[(c & Hin & E1 & E2)|?]]]; [done|done| |done]. destruct (proj2 Hc) as [? ?]; [|done]. exists c. by rewrite E1, E2, Z.eqb_refl.
Qed.

(** * The addresses of a range, from one of them round to it again *)

Section walk.
Context (lo hi start : Z) (Hlo : 0 ≤ lo ≤ hi) (Hhi : hi < 4294967296) (Hstart : lo ≤ start ≤ hi).
Definition size : Z := hi - lo + 1.
Definition walk (i : Z) : Z := lo + (start - lo + i) mod size.

Lemma size_pos : 0 < size.
Proof. unfold size. lia. Qed.
Lemma walk_range i : lo ≤ walk i ≤ hi.
Proof. unfold walk. pose proof size_pos. pose proof (Z.mod_pos_bound (start - lo + i) size). unfold size in *. lia. Qed.
Lemma walk_next i : (if u32 (walk i + 1) =? u32 (hi + 1) then lo else u32 (walk i + 1)) = walk (i + 1).
Proof.
  pose proof (walk_range i) as Hr. pose proof size_pos. assert (walk (i + 1) = if walk i =? hi then lo else walk i + 1) as ->.
  { unfold walk. rewrite Z.add_assoc. set (x := start - lo + i). destruct (Z.eqb_spec (lo + x mod size) hi) as [E|E].
    - rewrite <- (Z.add_mod_idemp_l x 1 size) by lia. replace (x mod size + 1) with size by (unfold size in *; lia). rewrite Z.mod_same by lia. lia.
    - unfold walk in Hr. fold x in Hr. rewrite <- (Z.add_mod_idemp_l x 1 size) by lia. rewrite (Z.mod_small (x mod size + 1)); [lia|]. pose proof (Z.mod_pos_bound x size). unfold size in *. lia. }
  unfold u32. destruct (Z.eqb_spec (walk i) hi) as [->|Hne]; [by rewrite Z.eqb_refl|]. rewrite (Z.mod_small (walk i + 1)) by lia.
  destruct (Z.eqb_spec (walk i + 1) ((hi + 1) mod 4294967296)) as [E|]; [|done]. exfalso. destruct (Z.eq_dec hi 4294967295) as [->|]; [change ((4294967295 + 1) mod 4294967296) with 0 in E; lia|].
  rewrite Z.mod_small in E by lia. lia.
Qed.
Lemma walk_0 : walk 0 = start.
Proof. unfold walk. rewrite Z.add_0_r, Z.mod_small; unfold size; lia. Qed.
Lemma walk_back i : 0 < i < size → walk i ≠ start.
Proof.
  intros Hi E. unfold walk in E. assert ((start - lo + i) mod size = start - lo) as E' by lia. destruct (Z.leb_spec size (start - lo + i)).
  - rewrite <- (Z.mod_add _ (-1)), Z.mod_small in E' by (unfold size in *; lia). lia.
  - rewrite Z.mod_small in E' by lia. lia.
Qed.
Lemma walk_size : walk size = start.
Proof. unfold walk. rewrite <- (Z.mod_add _ (-1)) by (pose proof size_pos; lia). replace (start - lo + size + -1 * size) with (start - lo) by lia. rewrite Z.mod_small; unfold size; lia. Qed.
Lemma walk_all a : lo ≤ a ≤ hi → ∃ i, 0 ≤ i < size ∧ walk i = a.
Proof.
  intros Ha. pose proof size_pos. exists ((a - start) mod size). split; [apply Z.mod_pos_bound; lia|]. unfold walk. rewrite Z.add_mod_idemp_r by lia.
  replace (start - lo + (a - start)) with (a - lo) by lia. rewrite Z.mod_small; unfold size; lia.
Qed.
End walk.

(** An address that was free but answered, or was lost for want of memory. *)
Definition in_use (addr : Z) : Prop := ping addr = true ∨ mem = false.

Lemma do_icmp_ping_none l addr : (do_icmp_ping ping mem skip l now addr j).1 = None → in_use addr.
Proof.
  unfold do_icmp_ping, in_use. destruct (ping_scan l now addr 0 0 None) as [h|[count victim]]; [done|]. destruct (_ || _); [done|].
  destruct (ping addr); [by left|]. destruct victim; [done|]. destruct mem; [done|by right].
Qed.

Lemma try_range_spec context lo hi start m k epoch l fuel :
  0 ≤ lo ≤ hi → hi < 4294967296 → lo ≤ start ≤ hi → 0 ≤ k → k + Z.of_nat (S m) = size lo hi → (m < fuel)%nat →
  twp (try_range db configs consec ping mem skip now j fuel context lo hi start (walk lo hi start k) epoch l)
    (λ '(r, _, _), match r with
                   | Some a => lo ≤ a ≤ hi ∧ ¬ refused context a
                   | None => consec = false → ∀ i, k ≤ i < size lo hi → refused context (walk lo hi start i) ∨ in_use (walk lo hi start i)
                   end).
Proof.
  intros Hlo Hhi Hst. revert k epoch l fuel. induction m as [|m IH]; intros k epoch l [|fuel] Hk Hm Hf; try lia; cbn [try_range]; set (a := walk lo hi start k) in *;
    destruct (unusable_spec context a) as (u & -> & Hu); cbn [mbind res_bind];
    destruct (if u then _ else _) as [[found e'] l'] eqn:Eb;
    (assert (found = true → u = false) as Hfu by (intros ->; destruct u; [by injection Eb|done]));
    (assert (found = false → consec = false → refused context a ∨ in_use a) as Hbad;
      [intros -> Hc; destruct u; [left; by apply Hu|]; right; rewrite Hc in Eb; cbn [andb negb orb] in Eb; pose proof (do_icmp_ping_none l a) as Hn;
       destruct (do_icmp_ping ping mem skip l now a j) as [[h|] l2]; [done|by apply Hn]|]);
    (destruct found; [cbn [twp]; split; [by apply walk_range|]; intros Href%Hu; by rewrite Hfu in Href|]); cbv zeta; unfold a; rewrite walk_next by done.
  - replace (k + 1) with (size lo hi) by lia. rewrite walk_size, Z.eqb_refl by done. cbn [twp]. intros Hc i Hi. replace i with k by lia. by apply Hbad.
  - rewrite (proj2 (Z.eqb_neq _ start)) by (apply walk_back; lia). eapply twp_mono; [apply IH; lia|]. intros [[r e2] l2] Hr. destruct r as [b|]; [done|].
    intros Hc i Hi. destruct (Z.eq_dec i k) as [->|]; [by apply Hbad|]. apply Hr; [done|lia].
Qed.

(** * Contexts *)

Definition wf_context (k : dcontext) : Prop := 0 ≤ k_start k ≤ k_end k ∧ k_end k < 4294967296 ∧ k_end k - k_start k < 4294967295.
(** All but the epoch. *)
Definition kfixed (k : dcontext) : dcontext := with_epoch k 0.

Lemma max_addr_range lo hi a ids : (∀ id, id ∈ ids → is_Some (heap db !! id)) → lo ≤ a ≤ hi → ∃ b, max_addr db lo hi a ids = Ok b ∧ lo ≤ b ≤ hi.
Proof.
  revert a. induction ids as [|id ids IH]; intros a Hin Ha; cbn [max_addr]; [by exists a|]. destruct (Hin id) as [l El]; [by left|]. unfold get_lease. rewrite El. cbn [mbind res_bind].
  apply IH; [intros i Hi; apply Hin; by right|]. destruct (_ && _) eqn:E; [|done]. bool_hyps. lia.
Qed.

Lemma first_address_ok k : wf_context k → is_fixed k = false → ∃ a, first_address db consec j k = Ok a ∧ k_start k ≤ a ≤ k_end k.
Proof.
  intros (Hs & He & Hn) Hf. unfold first_address. destruct consec.
  - unfold lease_find_max_addr. rewrite Hf. cbn [negb]. apply max_addr_range; [done|lia].
  - cbv zeta. assert (u32 (1 + k_end k - k_start k) = 1 + k_end k - k_start k) as -> by (unfold u32; apply Z.mod_small; lia).
    rewrite (proj2 (Z.eqb_neq (1 + k_end k - k_start k) 0)) by lia. eexists. split; [reflexivity|].
    pose proof (Z.mod_pos_bound (u32 (j + k_epoch k)) (1 + k_end k - k_start k) ltac:(lia)) as Hr. set (r := _ mod _) in *.
    assert (u32 (k_start k + r) = k_start k + r) as -> by (unfold u32; apply Z.mod_small; lia). lia.
Qed.

Lemma refused_ext context context' a : kfixed <$> context' = kfixed <$> context → refused context' a → refused context a.
Proof.
  intros E [(k & Hk & Er)|H]; [|by right]. left. assert (kfixed k ∈ kfixed <$> context) as H by (rewrite <- E; by apply list_elem_of_fmap_2).
  apply list_elem_of_fmap in H as (k' & Ek & Hk'). exists k'. split; [done|]. apply (f_equal k_router) in Ek. cbn in Ek. congruence.
Qed.

Definition usable (tnn : bool) (netids : list cstring) (k : dcontext) : bool := negb (is_fixed k) && match_netid (k_filter k) netids tnn.

Lemma try_contexts_spec tnn netids all pre post l :
  kfixed <$> (pre ++ post) = kfixed <$> all → Forall wf_context all →
  twp (try_contexts db configs consec ping mem skip now j tnn netids pre post l)
    (λ '(r, context', _), kfixed <$> context' = kfixed <$> all ∧
       match r with
       | Some a => ∃ k, k ∈ all ∧ usable tnn netids k = true ∧ k_start k ≤ a ≤ k_end k ∧ ¬ refused all a
       | None => consec = false → ∀ k a, k ∈ post → usable tnn netids k = true → k_start k ≤ a ≤ k_end k → refused all a ∨ in_use a
       end).
Proof.
  intros Ef Hwf. revert pre l Ef. induction post as [|k post IH]; intros pre l Ef; cbn [try_contexts].
  { rewrite app_nil_r in Ef. split; [done|]. intros _ k a Hk. by apply elem_of_nil in Hk. }
  assert (∀ e, kfixed <$> ((pre ++ [with_epoch k e]) ++ post) = kfixed <$> all) as Ef'.
  { intros e. rewrite <- Ef, !fmap_app, <- app_assoc. done. }
  assert (∃ k', k' ∈ all ∧ kfixed k' = kfixed k) as (k' & Hk' & Ek).
  { assert (kfixed k ∈ kfixed <$> all) as H by (rewrite <- Ef, fmap_app, elem_of_app; right; by left). apply list_elem_of_fmap in H as (k' & ? & ?). by exists k'. }
  assert (k_start k' = k_start k ∧ k_end k' = k_end k ∧ usable tnn netids k' = usable tnn netids k) as (E1 & E2 & E3).
  { split; [exact (f_equal k_start Ek)|]. split; [exact (f_equal k_end Ek)|]. unfold usable, is_fixed. by rewrite (f_equal k_flags Ek : k_flags k' = k_flags k), (f_equal k_filter Ek : k_filter k' = k_filter k). }
  rewrite Forall_forall in Hwf. pose proof (Hwf k' Hk') as Hw. unfold wf_context in Hw. rewrite E1, E2 in Hw.
  destruct (is_fixed k || negb (match_netid (k_filter k) netids tnn)) eqn:Eu.
  { eapply twp_mono; [apply (IH (pre ++ [k])); by rewrite <- app_assoc|]. intros [[r c'] l'] [Hc Hr]. split; [done|]. destruct r as [a|]; [done|]. intros Hcs w a [->|Hw2]%elem_of_cons; [|by apply Hr].
    unfold usable. apply orb_true_iff in Eu as [->|Eu]; [done|]. apply negb_true_iff in Eu. by rewrite Eu, andb_false_r. }
  apply orb_false_iff in Eu as [Eu1 Eu2]. apply negb_false_iff in Eu2. destruct (first_address_ok k Hw Eu1) as (start & -> & Hst). cbn [mbind res_bind]. destruct Hw as (Hw1 & Hw2 & Hw3). twp_step.
  rewrite <- (walk_0 (k_start k) (k_end k) start Hst) at 2.
  eapply twp_mono; [apply (try_range_spec (pre ++ k :: post) (k_start k) (k_end k) start (Z.to_nat (k_end k - k_start k)) 0); [lia|lia|lia|lia|unfold size; lia|lia]|].
  intros [[r e] l'] Hr. destruct r as [a|].
  - cbn [twp]. split; [rewrite <- (Ef' e); by rewrite <- app_assoc|]. exists k'. destruct Hr as [Ha Href]. rewrite E1, E2, E3. split_and!; [done|by unfold usable; rewrite Eu1, Eu2|lia|lia|].
    intros H. apply Href. by apply (refused_ext _ all).
  - eapply twp_mono; [apply (IH (pre ++ [with_epoch k e])); apply Ef'|]. intros [[r2 c'] l2] [Hc Hr2]. split; [done|]. destruct r2 as [a|]; [done|].
    intros Hcs w a [->|Hw']%elem_of_cons Hus Ha; [|by apply (Hr2 Hcs w)]. destruct (walk_all (k_start k) (k_end k) start ltac:(lia) a Ha) as (i & Hi & <-).
    destruct (Hr Hcs i ltac:(lia)) as [H|?]; [left; by apply (refused_ext all _ _ Ef)|by right].
Qed.
End spec.


Definition demo_context : dcontext := DContext 3232235521 3232235774 4294967040 3232235521 0 [] 0 [] 0.

(** Only the router of the first context is kept from clients that ask for an address: one
    that the server has in another context of the same interface is available. *)
Example second_router_available :
  address_available [demo_context; DContext 167772161 167772414 4294967040 167772161 0 [] 0 [] 0] 167772161 [] =
    Some (DContext 167772161 167772414 4294967040 167772161 0 [] 0 [] 0).
Proof. by vm_compute. Qed.
