(* ===== verification/Forward.v ===== *)
(** The sockets of queries to upstream servers (src/src/forward.c): a pool of
    sockets bound to random ports that the queries share, with counts of
    references, and temporary records when the pool is exhausted. *)
From S2P Require Import Prelude Hostname NetAddr DomainMatch.

(** * Sockets *)

(** An upstream server with the fields its queries depend on; [up_sfd] is the
    descriptor of a socket of its own. *)
Record upstream := Upstream {
  up_server : server; up_addr : mysockaddr; up_ifindex : Z; up_source : mysockaddr; up_interface : cstring; up_sfd : option Z;
  forwardcount : Z; forwardtime : Z }.

(** A server by its address. *)
Definition server_at (m : gmap Z upstream) (p : Z) : res upstream :=
  match m !! p with Some s => Ok s | None => Oob end.

(** struct randfd; [rf_serv] is a pointer to a server, None for NULL. *)
Record randfd := Randfd { rf_serv : option Z; rf_fd : Z; refcount : Z }.

(** What a struct randfd_list points to: a slot of the pool, or a temporary
    record outside it. *)
Inductive rfd_ref := Slot (i : nat) | Temp (t : Z).

#[export] Instance rfd_ref_eq_dec : EqDecision rfd_ref.
Proof. solve_decision. Defined.

(** The pool, the temporary records by address with their descriptors, the list
    of those for poll(), the number of spare list cells, and the descriptors of
    the pool and the temporary records that are open. *)
Record sockets := Sockets {
  randomsocks : list randfd; temps : gmap Z Z; rfl_poll : list Z; rfl_spare : nat; finger : Z; opened : gset Z }.

(** What the system answers during one call of allocate_rfd: whether whine_malloc
    has memory for the two list cells, the address it gives for a temporary
    record, and the descriptors of the two calls of random_sock; those are
    functions of what is in use already. *)
Record system := System {
  k_cell : bool; k_sock : gset Z → option Z; k_poll : bool; k_temp : gset Z → option Z; k_sock2 : gset Z → option Z }.

Definition server_isequal (serv1 : upstream) (serv2 : upstream) : bool :=
  (up_ifindex serv2 =? up_ifindex serv1) && sockaddr_isequal (up_source serv2) (up_source serv1) &&
  bool_decide (take 16 (up_interface serv2) = take 16 (up_interface serv1)).

(** The call with a pointer for the second server, which may be NULL. *)
Definition pointer_isequal (m : gmap Z upstream) (serv1 : upstream) (p : option Z) : res bool :=
  match p with
  | None => Ok false
  | Some p => serv2 ← server_at m p; Ok (server_isequal serv1 serv2)
  end.

(** [rfl->rfd]; a temporary record has no server and the count 0xffff. *)
Definition ref_rfd (st : sockets) (r : rfd_ref) : res randfd :=
  match r with
  | Slot i => match randomsocks st !! i with Some s => Ok s | None => Oob end
  | Temp t => match temps st !! t with Some fd => Ok (Randfd None fd 65535) | None => Oob end
  end.

(** The socket of this transaction for the server, if there is one. *)
Fixpoint linked_fd (m : gmap Z upstream) (st : sockets) (serv : upstream) (fdl : list rfd_ref) : res (option Z) :=
  match fdl with
  | [] => Ok None
  | r :: fdl =>
      s ← ref_rfd st r;
      b ← pointer_isequal m serv (rf_serv s);
      if b : bool then Ok (Some (rf_fd s)) else linked_fd m st serv fdl
  end.

(** The first slot not in use. *)
Fixpoint free_slot (l : list randfd) : option nat :=
  match l with
  | [] => None
  | s :: l => if refcount s =? 0 then Some 0%nat else S <$> free_slot l
  end.

(** A slot to share, [n] of them looked at from [j] on. *)
Fixpoint shared_slot (m : gmap Z upstream) (l : list randfd) (serv : upstream) (fing j : Z) (n : nat) : res (option nat) :=
  match n with
  | O => Ok None
  | S n =>
      let i := Z.to_nat ((j + fing) mod zlen l) in
      match l !! i with
      | None => Oob
      | Some s =>
          b ← (if negb (refcount s =? 0) then
                 b ← pointer_isequal m serv (rf_serv s);
                 Ok (b && negb (refcount s =? 65534))
               else Ok false);
          if b : bool then Ok (Some i) else shared_slot m l serv fing (j + 1) n
      end
  end.

Definition set_socks (st : sockets) (l : list randfd) : sockets :=
  Sockets l (temps st) (rfl_poll st) (rfl_spare st) (finger st) (opened st).
Definition set_spare (st : sockets) (n : nat) : sockets :=
  Sockets (randomsocks st) (temps st) (rfl_poll st) n (finger st) (opened st).
Definition set_finger (st : sockets) (n : Z) : sockets :=
  Sockets (randomsocks st) (temps st) (rfl_poll st) (rfl_spare st) n (opened st).
Definition set_temps (st : sockets) (ts : gmap Z Z) (poll : list Z) : sockets :=
  Sockets (randomsocks st) ts poll (rfl_spare st) (finger st) (opened st).

(** A socket opened, and one closed; closing one that is not open is an error. *)
Definition open_fd (st : sockets) (fd : Z) : sockets :=
  Sockets (randomsocks st) (temps st) (rfl_poll st) (rfl_spare st) (finger st) ({[fd]} ∪ opened st).
Definition close_fd (st : sockets) (fd : Z) : res sockets :=
  if bool_decide (fd ∈ opened st)
  then Ok (Sockets (randomsocks st) (temps st) (rfl_poll st) (rfl_spare st) (finger st) (opened st ∖ {[fd]}))
  else Oob.

(** A list cell, from the spare ones or from whine_malloc ([ok]). *)
Definition get_cell (st : sockets) (ok : bool) : option sockets :=
  match rfl_spare st with
  | S n => Some (set_spare st n)
  | O => if ok then Some st else None
  end.

(** A new socket in the first free slot. *)
Definition fresh_slot (st : sockets) (serv : Z) (k : system) : option (sockets * nat) :=
  match free_slot (randomsocks st) with
  | None => None
  | Some i =>
      match k_sock k (opened st) with
      | None => None
      | Some fd => Some (open_fd (set_socks st (<[i := Randfd (Some serv) fd 1]> (randomsocks st))) fd, i)
      end
  end.

(** One more reference to slot [i]. *)
Definition share_slot (st : sockets) (i : nat) (s : randfd) : sockets :=
  set_finger (set_socks st (<[i := Randfd (rf_serv s) (rf_fd s) (u16 (refcount s + 1))]> (randomsocks st))) (Z.of_nat i + 1).

(** A temporary record; without one, the cell the caller has and the one taken
    here go back to the spare list. *)
Definition temp_slot (st : sockets) (k : system) : sockets * option Z :=
  match get_cell st (k_poll k) with
  | None => (set_spare st (S (rfl_spare st)), None)
  | Some st =>
      match k_temp k (dom (temps st)) with
      | None => (set_spare st (S (S (rfl_spare st))), None)
      | Some t =>
          match k_sock2 k (opened st) with
          | None => (set_spare st (S (S (rfl_spare st))), None)
          | Some fd => (open_fd (set_temps st (<[t := fd]> (temps st)) (t :: rfl_poll st)) fd, Some t)
          end
      end
  end.

(** The record the new link points to, if there is one. *)
Definition get_rfd (m : gmap Z upstream) (st : sockets) (serv : Z) (up : upstream) (k : system) : res (sockets * option rfd_ref) :=
  match fresh_slot st serv k with
  | Some (st, i) => Ok (st, Some (Slot i))
  | None =>
      r ← shared_slot m (randomsocks st) up (finger st) 0 (length (randomsocks st));
      match r with
      | Some i => s ← ref_rfd st (Slot i); Ok (share_slot st i s, Some (Slot i))
      | None => let '(st, t) := temp_slot st k in Ok (st, Temp <$> t)
      end
  end.

(** [fdl] is the list the transaction has; the result is the descriptor, -1 for
    failure. *)
Definition allocate_rfd (m : gmap Z upstream) (st : sockets) (fdl : list rfd_ref) (serv : Z) (k : system) : res (sockets * list rfd_ref * Z) :=
  up ← server_at m serv;
  match up_sfd up with
  | Some fd => Ok (st, fdl, fd)
  | None =>
      r ← linked_fd m st up fdl;
      match r with
      | Some fd => Ok (st, fdl, fd)
      | None =>
          match get_cell st (k_cell k) with
          | None => Ok (st, fdl, -1)
          | Some st =>
              '(st, r) ← get_rfd m st serv up k;
              match r with
              | None => Ok (st, fdl, -1)
              | Some r => s ← ref_rfd st r; Ok (st, r :: fdl, rf_fd s)
              end
          end
      end
  end.

(** One cell of the list given back. A slot with the count of a temporary record
    would be freed. *)
Definition free_rfd (st : sockets) (r : rfd_ref) : res sockets :=
  match r with
  | Slot i =>
      match randomsocks st !! i with
      | None => Oob
      | Some s =>
          let n := u16 (refcount s - 1) in
          if (refcount s =? 65535) || (n =? 65535) then Oob
          else
            let st := set_socks st (<[i := Randfd (rf_serv s) (rf_fd s) n]> (randomsocks st)) in
            st ← (if n =? 0 then close_fd st (rf_fd s) else Ok st);
            Ok (set_spare st (S (rfl_spare st)))
      end
  | Temp t =>
      match temps st !! t with
      | None => Oob
      | Some fd =>
          st ← close_fd st fd;
          let gone := filter (λ x, x = t) (rfl_poll st) in
          let st := set_temps st (delete t (temps st)) (filter (λ x, x ≠ t) (rfl_poll st)) in
          Ok (set_spare st (S (length gone + rfl_spare st)))
      end
  end.

Fixpoint free_rfds (st : sockets) (fdl : list rfd_ref) : res sockets :=
  match fdl with
  | [] => Ok st
  | r :: fdl => st ← free_rfd st r; free_rfds st fdl
  end.
