(* ===== verification/ForwardSpec.v ===== *)
(** The sockets of queries: every count is the number of links to the slot, every
    socket that is open belongs to one slot in use or one temporary record, and
    is closed once, when its last link goes. *)
From S2P Require Import Prelude Hostname NetAddr DomainMatch Forward.



(** * The accounting *)

Definition temp_of (r : rfd_ref) : option Z := match r with Temp t => Some t | Slot _ => None end.

(** The links among [L] to slot [i]. *)
Definition links_to (i : nat) (L : list rfd_ref) : Z := zlen (filter (λ r, r = Slot i) L).

(** The descriptor of a slot in use. *)
Definition slot_fd (s : randfd) : option Z := if refcount s =? 0 then None else Some (rf_fd s).

Definition pool_fds (st : sockets) : list Z := omap slot_fd (randomsocks st) ++ (map_to_list (temps st)).*2.

(** [L] are the links of all queries. *)
Record socks_ok (m : gmap Z upstream) (st : sockets) (L : list rfd_ref) : Prop := {
  so_count : ∀ i s, randomsocks st !! i = Some s → refcount s = links_to i L ∧ refcount s ≤ 65534;
  so_slots : ∀ i, Slot i ∈ L → (i < length (randomsocks st))%nat;
  so_temps : omap temp_of L ≡ₚ rfl_poll st;
  so_dom : (map_to_list (temps st)).*1 ≡ₚ rfl_poll st;
  so_fds : elements (opened st) ≡ₚ pool_fds st;
  so_serv : ∀ i s p, randomsocks st !! i = Some s → refcount s ≠ 0 → rf_serv s = Some p → is_Some (m !! p);
  so_finger : 0 ≤ finger st }.

(** The system gives addresses and descriptors that are not in use. *)
Record system_ok (k : system) : Prop := {
  sy_temp : ∀ X t, k_temp k X = Some t → t ∉ X;
  sy_sock : ∀ X fd, k_sock k X = Some fd → fd ∉ X;
  sy_sock2 : ∀ X fd, k_sock2 k X = Some fd → fd ∉ X }.

(** * Lists *)

Lemma insert_Permutation {A} (l : list A) i x y : l !! i = Some x → <[i := y]> l ≡ₚ y :: delete i l.
Proof.
  intros H. pose proof (lookup_lt_Some _ _ _ H). rewrite insert_take_drop, delete_take_drop by done.
  symmetry. apply Permutation_middle.
Qed.

Lemma links_to_nonneg i L : 0 ≤ links_to i L.
Proof. apply zlen_nonneg. Qed.
Lemma links_to_cons i r L : links_to i (r :: L) = (if decide (r = Slot i) then 1 else 0) + links_to i L.
Proof. unfold links_to. rewrite filter_cons. destruct (decide _); [rewrite zlen_cons|]; lia. Qed.
Lemma links_to_app i L1 L2 : links_to i (L1 ++ L2) = links_to i L1 + links_to i L2.
Proof. unfold links_to. by rewrite filter_app, zlen_app. Qed.
Lemma links_to_perm i L L' : L ≡ₚ L' → links_to i L = links_to i L'.
Proof. unfold links_to. intros H. unfold zlen. by rewrite H. Qed.

Lemma link_counted i L : Slot i ∈ L → 0 < links_to i L.
Proof.
  intros (L1 & L2 & ->)%list_elem_of_split. rewrite links_to_app, links_to_cons, decide_True by done.
  pose proof (links_to_nonneg i L1). pose proof (links_to_nonneg i L2). lia.
Qed.

(** * The links as a multiset *)

#[export] Instance socks_ok_proper m st : Proper ((≡ₚ) ==> iff) (socks_ok m st).
Proof.
  assert (∀ L L', L ≡ₚ L' → socks_ok m st L → socks_ok m st L') as H.
  { intros L L' HL []. split; try done.
    - intros i s Hi. rewrite <-(links_to_perm i _ _ HL). by apply so_count0.
    - intros i Hi. apply so_slots0. by rewrite HL.
    - by rewrite <-HL. }
  intros L L' HL. split; apply H; [done|by symmetry].
Qed.

(** The spare cells play no part. *)
Lemma socks_ok_spare m st L n : socks_ok m st L → socks_ok m (set_spare st n) L.
Proof. by intros []; split. Qed.

Lemma get_cell_ok m st L b st' : socks_ok m st L → get_cell st b = Some st' → socks_ok m st' L.
Proof.
  intros H. unfold get_cell. destruct (rfl_spare st); [destruct b|]; intros [= <-]; [done|by apply socks_ok_spare].
Qed.

(** * New links *)

Lemma free_slot_spec l i : free_slot l = Some i → ∃ s, l !! i = Some s ∧ refcount s = 0.
Proof.
  revert i. induction l as [|s l IH]; intros i; simpl; [done|].
  destruct (Z.eqb_spec (refcount s) 0) as [E|E]; [intros [= <-]; by exists s|].
  intros (j & Hj & ->)%fmap_Some. simpl. by apply IH.
Qed.

(** What a change of one slot does to the descriptors in use. *)
Lemma pool_fds_insert st i s s' :
  randomsocks st !! i = Some s →
  ∃ rest, pool_fds st ≡ₚ option_list (slot_fd s) ++ rest ∧
    ∀ st', randomsocks st' = <[i := s']> (randomsocks st) → temps st' = temps st → pool_fds st' ≡ₚ option_list (slot_fd s') ++ rest.
Proof.
  intros Hi. exists (omap slot_fd (delete i (randomsocks st)) ++ (map_to_list (temps st)).*2).
  unfold pool_fds. split.
  - rewrite (delete_Permutation _ _ _ Hi) at 1. simpl. by destruct (slot_fd s).
  - intros st' -> ->. rewrite (insert_Permutation _ _ _ s' Hi). simpl. by destruct (slot_fd s').
Qed.

Lemma elements_union_fresh (X : gset Z) x l : x ∉ X → elements X ≡ₚ l → elements ({[x]} ∪ X) ≡ₚ x :: l.
Proof. intros Hx Hl. rewrite elements_union_singleton by done. by rewrite Hl. Qed.

Lemma count_insert L i (l : list randfd) s s' :
  (∀ j x, l !! j = Some x → refcount x = links_to j L ∧ refcount x ≤ 65534) →
  l !! i = Some s → refcount s' = refcount s + 1 → refcount s' ≤ 65534 →
  ∀ j x, <[i := s']> l !! j = Some x → refcount x = links_to j (Slot i :: L) ∧ refcount x ≤ 65534.
Proof.
  intros Hc Hi E1 E2 j x. rewrite links_to_cons. destruct (decide (i = j)) as [<-|Hne].
  - rewrite list_lookup_insert_eq by (by eapply lookup_lt_Some). intros [= <-].
    rewrite decide_True by done. destruct (Hc i s Hi). lia.
  - rewrite list_lookup_insert_ne by done. intros Hj. rewrite decide_False by congruence. by apply Hc.
Qed.

Lemma slots_insert L i (l : list randfd) s s' :
  (∀ j, Slot j ∈ L → (j < length l)%nat) → l !! i = Some s → ∀ j, Slot j ∈ Slot i :: L → (j < length (<[i := s']> l))%nat.
Proof.
  intros Hs Hi j. rewrite length_insert. intros [[= ->]|H]%elem_of_cons; [by eapply lookup_lt_Some|by apply Hs].
Qed.

Lemma serv_insert (m : gmap Z upstream) i (l : list randfd) s' :
  (∀ j x p, l !! j = Some x → refcount x ≠ 0 → rf_serv x = Some p → is_Some (m !! p)) →
  (∀ p, rf_serv s' = Some p → refcount s' ≠ 0 → is_Some (m !! p)) →
  ∀ j x p, <[i := s']> l !! j = Some x → refcount x ≠ 0 → rf_serv x = Some p → is_Some (m !! p).
Proof.
  intros Hs Hn j x p. destruct (decide (i = j)) as [<-|Hne].
  - intros [(_ & E & _)|[? _]]%list_lookup_insert_Some; [|done]. subst. intros. by apply Hn.
  - rewrite list_lookup_insert_ne by done. apply Hs.
Qed.

Lemma fresh_slot_ok m st L serv k st' i :
  socks_ok m st L → system_ok k → is_Some (m !! serv) → fresh_slot st serv k = Some (st', i) → socks_ok m st' (Slot i :: L).
Proof.
  intros [] Hk Hm. unfold fresh_slot. destruct (free_slot (randomsocks st)) as [j|] eqn:Ef; [|done].
  destruct (k_sock k (opened st)) as [fd|] eqn:Ek; [|done]. intros [= <- <-].
  destruct (free_slot_spec _ _ Ef) as (s & Hj & Hs0). split; simpl; try done.
  - apply (count_insert _ _ _ s); simpl; [done|done|lia|lia].
  - by eapply slots_insert.
  - destruct (pool_fds_insert st j s (Randfd (Some serv) fd 1) Hj) as (rest & H1 & H2).
    rewrite H2 by done. unfold slot_fd in H1 |- *. rewrite Hs0 in H1. simpl in *.
    apply elements_union_fresh; [by apply (sy_sock k Hk)|]. by rewrite so_fds0.
  - apply serv_insert; [done|]. simpl. congruence.
Qed.

Lemma share_slot_ok m st L i s :
  socks_ok m st L → randomsocks st !! i = Some s → refcount s ≠ 0 → refcount s ≠ 65534 → socks_ok m (share_slot st i s) (Slot i :: L).
Proof.
  intros [] Hi H0 Hm. destruct (so_count0 i s Hi) as [Ec Hle]. pose proof (links_to_nonneg i L).
  assert (u16 (refcount s + 1) = refcount s + 1) as Eu by (apply u16_id; lia).
  unfold share_slot. rewrite Eu. split; simpl; try done.
  - apply (count_insert _ _ _ s); simpl; [done|done|lia|lia].
  - by eapply slots_insert.
  - destruct (pool_fds_insert st i s (Randfd (rf_serv s) (rf_fd s) (refcount s + 1)) Hi) as (rest & H1 & H2).
    rewrite H2 by done. rewrite so_fds0, H1. unfold slot_fd. simpl.
    destruct (Z.eqb_spec (refcount s) 0), (Z.eqb_spec (refcount s + 1) 0); done || lia.
  - apply serv_insert; [done|]. simpl. intros p Hp _. by eapply so_serv0.
  - lia.
Qed.

Lemma temp_slot_ok m st L k :
  socks_ok m st L → system_ok k →
  match temp_slot st k with
  | (st', Some t) => socks_ok m st' (Temp t :: L) ∧ is_Some (temps st' !! t)
  | (st', None) => socks_ok m st' L
  end.
Proof.
  intros H Hk. unfold temp_slot. destruct (get_cell st (k_poll k)) as [s|] eqn:Ec; [|by apply socks_ok_spare].
  apply (get_cell_ok _ _ _ _ _ H) in Ec. clear H st. rename s into st.
  destruct (k_temp k (dom (temps st))) as [t|] eqn:Et; [|by apply socks_ok_spare].
  destruct (k_sock2 k (opened st)) as [fd|] eqn:Es; [|by apply socks_ok_spare].
  apply (sy_temp k Hk) in Et. rewrite not_elem_of_dom in Et. destruct Ec.
  split; [|by exists fd; apply lookup_insert_eq]. split; simpl; try done.
  - intros i [?|Hi]%elem_of_cons; [done|by apply so_slots0].
  - by constructor.
  - rewrite map_to_list_insert by done. simpl. by constructor.
  - rewrite (elements_union_fresh _ _ (pool_fds st)); [|by apply (sy_sock2 k Hk)|done].
    unfold pool_fds. simpl. rewrite map_to_list_insert by done. simpl. by rewrite Permutation_middle.
Qed.

(** * Nothing is read that is not there *)

Definition ref_valid (st : sockets) (r : rfd_ref) : Prop :=
  match r with Slot i => (i < length (randomsocks st))%nat | Temp t => is_Some (temps st !! t) end.

Lemma temp_valid m st L t : socks_ok m st L → Temp t ∈ L ↔ is_Some (temps st !! t).
Proof.
  intros []. assert (Temp t ∈ L ↔ t ∈ omap temp_of L) as ->.
  { rewrite list_elem_of_omap. split; [by exists (Temp t)|]. by intros ([i|t'] & ? & [= ->]). }
  rewrite so_temps0, <-so_dom0, list_elem_of_fmap. split.
  - intros ([t' fd] & -> & E%elem_of_map_to_list). by exists fd.
  - intros [fd E]. exists (t, fd). by rewrite elem_of_map_to_list.
Qed.

Lemma link_valid m st L r : socks_ok m st L → r ∈ L → ref_valid st r.
Proof. intros H Hr. destruct r as [i|t]; simpl; [by apply (so_slots _ _ _ H)|by apply (temp_valid m st L)]. Qed.

(** The record of a link: its server is there, and its socket is open. *)
Lemma ref_rfd_ok m st L r (Q : randfd → Prop) :
  socks_ok m st L → r ∈ L →
  (∀ s, ref_rfd st r = Ok s → rf_fd s ∈ opened st → (∀ p, rf_serv s = Some p → is_Some (m !! p)) → Q s) → twp (ref_rfd st r) Q.
Proof.
  intros H Hr HQ. pose proof (link_valid _ _ _ _ H Hr) as Hv. destruct r as [i|t]; simpl in *.
  - apply lookup_lt_is_Some_2 in Hv as [s Hs]. rewrite Hs in *. simpl.
    destruct (so_count _ _ _ H i s Hs) as [Ec _].
    assert (refcount s ≠ 0) as H0.
    { rewrite Ec. pose proof (link_counted i L Hr). lia. }
    apply HQ; [done| |intros p; by apply (so_serv _ _ _ H i)].
    rewrite <-elem_of_elements, (so_fds _ _ _ H). apply elem_of_app. left. apply list_elem_of_omap.
    exists s. split; [by eapply list_elem_of_lookup_2|]. unfold slot_fd. by destruct (Z.eqb_spec (refcount s) 0).
  - destruct Hv as [fd Hfd]. rewrite Hfd in *. simpl. apply HQ; [done| |done]. simpl.
    rewrite <-elem_of_elements, (so_fds _ _ _ H). apply elem_of_app. right. apply list_elem_of_fmap.
    exists (t, fd). by rewrite elem_of_map_to_list.
Qed.

Lemma pointer_isequal_ok (m : gmap Z upstream) up o (Q : bool → Prop) :
  (∀ p, o = Some p → is_Some (m !! p)) → (∀ b, Q b) → twp (pointer_isequal m up o) Q.
Proof.
  intros Ho HQ. destruct o as [p|]; simpl; [|apply HQ]. unfold server_at.
  destruct (Ho p eq_refl) as [s ->]. simpl. apply HQ.
Qed.

Lemma linked_fd_ok m st L up fdl :
  socks_ok m st L → fdl ⊆ L →
  twp (linked_fd m st up fdl) (λ o, ∀ fd, o = Some fd → ∃ r s, r ∈ fdl ∧ ref_rfd st r = Ok s ∧ rf_fd s = fd).
Proof.
  intros H. induction fdl as [|r fdl IH]; intros Hs; [done|]. cbn [linked_fd]. apply twp_bind.
  apply (ref_rfd_ok m st L); [done|apply Hs; by left|]. intros s Er Ho Hp. apply twp_bind.
  apply pointer_isequal_ok; [done|]. intros []; [intros fd [= <-]; exists r, s; by split; [left|]|].
  eapply twp_mono; [apply IH; intros x Hx; apply Hs; by right|]. intros o Hq fd Hfd.
  destruct (Hq fd Hfd) as (r' & s' & Hr' & Hs'). exists r', s'. split; [by right|done].
Qed.

Lemma shared_slot_ok m st L up fing n j :
  socks_ok m st L → 0 ≤ fing → 0 ≤ j → (n ≤ length (randomsocks st))%nat →
  twp (shared_slot m (randomsocks st) up fing j n)
    (λ o, ∀ i, o = Some i → ∃ s, randomsocks st !! i = Some s ∧ refcount s ≠ 0 ∧ refcount s ≠ 65534).
Proof.
  intros H Hf. revert j. induction n as [|n IH]; intros j Hj Hn; [done|]. cbn [shared_slot].
  destruct (lookup_lt_is_Some_2 (randomsocks st) (Z.to_nat ((j + fing) mod zlen (randomsocks st)))) as [s Hs].
  { unfold zlen. pose proof (Z.mod_pos_bound (j + fing) (Z.of_nat (length (randomsocks st))) ltac:(lia)). lia. }
  rewrite Hs. apply twp_bind. destruct (Z.eqb_spec (refcount s) 0) as [E|E]; cbn [negb].
  { apply IH; lia. }
  apply twp_bind. apply pointer_isequal_ok; [intros p Hp; by eapply (so_serv _ _ _ H)|]. intros b. simpl.
  destruct (b && negb (refcount s =? 65534)) eqn:Eb; [|apply IH; lia].
  intros i [= <-]. exists s. split; [done|]. split; [done|]. apply andb_prop in Eb as [_ Eb].
  by destruct (Z.eqb_spec (refcount s) 65534).
Qed.

Lemma get_rfd_ok m st L serv up k :
  socks_ok m st L → system_ok k → is_Some (m !! serv) →
  twp (get_rfd m st serv up k) (λ '(st', r), socks_ok m st' (option_list r ++ L)).
Proof.
  intros H Hk Hm. unfold get_rfd. destruct (fresh_slot st serv k) as [[s i]|] eqn:E.
  { simpl. by apply (fresh_slot_ok m st L serv k). }
  apply twp_bind. eapply twp_mono.
  { apply (shared_slot_ok m st L); [done|by apply (so_finger m st L)|lia|done]. }
  intros [i|] Hi.
  - destruct (Hi i eq_refl) as (s & Hs & H0 & Hx). simpl. rewrite Hs. simpl. by apply share_slot_ok.
  - pose proof (temp_slot_ok m st L k H Hk) as Ht. destruct (temp_slot st k) as [s [t|]]; simpl; [by apply Ht|done].
Qed.

(** The descriptor is the one of a link, or the server's own. *)
Definition fd_known (m : gmap Z upstream) (st : sockets) (fdl : list rfd_ref) (serv fd : Z) : Prop :=
  (∃ up, m !! serv = Some up ∧ up_sfd up = Some fd) ∨ (∃ r s, r ∈ fdl ∧ ref_rfd st r = Ok s ∧ rf_fd s = fd).

Lemma allocate_rfd_ok m st L fdl serv k :
  socks_ok m st (fdl ++ L) → system_ok k → is_Some (m !! serv) →
  twp (allocate_rfd m st fdl serv k) (λ '(st', fdl', fd), socks_ok m st' (fdl' ++ L) ∧ (fd = -1 ∨ fd_known m st' fdl' serv fd)).
Proof.
  intros H Hk [up Hup]. unfold allocate_rfd, server_at. rewrite Hup. cbn [mbind res_bind].
  destruct (up_sfd up) as [fd|] eqn:Efd; [split; [done|]; right; left; by exists up|].
  apply twp_bind. eapply twp_mono; [apply (linked_fd_ok m st (fdl ++ L)); [done|set_solver]|].
  intros [fd|] Hl; [split; [done|]; right; right; by apply Hl|].
  destruct (get_cell st (k_cell k)) as [s|] eqn:Ec; [|by split; [|left]].
  apply (get_cell_ok _ _ _ _ _ H) in Ec. apply twp_bind. eapply twp_mono; [by apply (get_rfd_ok m s (fdl ++ L) serv up k)|].
  intros [s' [r|]] Hs; [|by split; [|left]]. simpl in Hs. apply twp_bind.
  apply (ref_rfd_ok m s' (r :: fdl ++ L)); [done|by left|]. intros x Hx _ _. simpl. split; [done|].
  right; right. exists r, x. split; [by left|done].
Qed.

(** * Links given back *)

Lemma close_fd_ok st fd rest (Q : sockets → Prop) :
  elements (opened st) ≡ₚ fd :: rest →
  (∀ X, elements X ≡ₚ rest → Q (Sockets (randomsocks st) (temps st) (rfl_poll st) (rfl_spare st) (finger st) X)) →
  twp (close_fd st fd) Q.
Proof.
  intros Hp HQ. assert (fd ∈ opened st) as Hin by (rewrite <-elem_of_elements, Hp; by left).
  unfold close_fd. rewrite bool_decide_true by done. apply HQ.
  apply (Permutation_cons_inv (a := fd)). rewrite <-Hp.
  rewrite <-(elements_union_singleton (opened st ∖ {[fd]}) fd) by set_solver.
  f_equiv. rewrite <-union_difference_L; [done|set_solver].
Qed.

Lemma count_drop L i (l : list randfd) s s' :
  (∀ j x, l !! j = Some x → refcount x = links_to j (Slot i :: L) ∧ refcount x ≤ 65534) →
  l !! i = Some s → refcount s' = refcount s - 1 →
  ∀ j x, <[i := s']> l !! j = Some x → refcount x = links_to j L ∧ refcount x ≤ 65534.
Proof.
  intros Hc Hi E j x. destruct (decide (i = j)) as [<-|Hne].
  - rewrite list_lookup_insert_eq by (by eapply lookup_lt_Some). intros [= <-].
    specialize (Hc i s Hi). rewrite links_to_cons, decide_True in Hc by done. lia.
  - rewrite list_lookup_insert_ne by done. intros Hj. specialize (Hc j x Hj).
    by rewrite links_to_cons, decide_False in Hc by congruence.
Qed.

Lemma free_slot_link_ok m st L i : socks_ok m st (Slot i :: L) → twp (free_rfd st (Slot i)) (λ st', socks_ok m st' L).
Proof.
  intros H. destruct (lookup_lt_is_Some_2 (randomsocks st) i) as [s Hs]; [by apply (so_slots _ _ _ H); left|].
  simpl. rewrite Hs. destruct (so_count _ _ _ H i s Hs) as [Ec Hle]. rewrite links_to_cons, decide_True in Ec by done.
  pose proof (links_to_nonneg i L).
  rewrite (u16_id (refcount s - 1)) by lia. rewrite (proj2 (Z.eqb_neq (refcount s) 65535)) by lia.
  rewrite (proj2 (Z.eqb_neq (refcount s - 1) 65535)) by lia. cbn [orb].
  set (s' := Randfd (rf_serv s) (rf_fd s) (refcount s - 1)).
  destruct (pool_fds_insert st i s s' Hs) as (rest & H1 & H2). destruct H.
  rewrite H1 in so_fds0. unfold slot_fd in so_fds0. rewrite (proj2 (Z.eqb_neq (refcount s) 0)) in so_fds0 by lia. simpl in so_fds0.
  assert (∀ X n, elements X ≡ₚ option_list (slot_fd s') ++ rest →
    socks_ok m (set_spare (Sockets (<[i := s']> (randomsocks st)) (temps st) (rfl_poll st) (rfl_spare st) (finger st) X) n) L) as Hok.
  { intros X n HX. split; simpl; try done.
    - apply (count_drop _ _ _ s); simpl; done.
    - intros j Hj. rewrite length_insert. apply so_slots0. by right.
    - rewrite H2 by done. done.
    - apply serv_insert; [done|]. simpl. intros p Hp _. eapply so_serv0; [done|lia|done]. }
  unfold slot_fd in Hok. simpl in Hok. destruct (Z.eqb_spec (refcount s - 1) 0) as [E|E].
  - apply twp_bind. eapply close_fd_ok; [exact so_fds0|]. intros X HX. by apply Hok.
  - apply Hok. by rewrite so_fds0.
Qed.

Lemma free_temp_ok m st L t : socks_ok m st (Temp t :: L) → twp (free_rfd st (Temp t)) (λ st', socks_ok m st' L).
Proof.
  intros H. destruct (proj1 (temp_valid _ _ _ t H)) as [fd Hfd]; [by left|]. simpl. rewrite Hfd. destruct H.
  assert (NoDup (rfl_poll st)) as Hnd.
  { rewrite <-so_dom0. apply NoDup_fst_map_to_list. }
  rewrite <-(insert_delete_id _ _ _ Hfd) in so_dom0.
  rewrite map_to_list_insert in so_dom0 by apply lookup_delete_eq. simpl in so_dom0, so_temps0.
  assert (filter (λ x, x ≠ t) (rfl_poll st) ≡ₚ omap temp_of L) as Hf.
  { rewrite <-so_temps0 in Hnd |- *. apply NoDup_cons in Hnd as [Hn _]. rewrite filter_cons_False by auto.
    rewrite filter_id; [done|]. apply Forall_forall. intros x Hx ->. done. }
  apply twp_bind. eapply (close_fd_ok _ _ (omap slot_fd (randomsocks st) ++ (map_to_list (delete t (temps st))).*2)).
  { rewrite so_fds0. unfold pool_fds. rewrite <-(insert_delete_id _ _ _ Hfd) at 1.
    rewrite map_to_list_insert by apply lookup_delete_eq. simpl. by rewrite Permutation_middle. }
  intros X HX. simpl. split; simpl; try done.
  - intros i Hi. apply so_slots0. by right.
  - rewrite Hf. apply (Permutation_cons_inv (a := t)). by rewrite so_temps0.
Qed.

Lemma free_rfd_ok m st L r : socks_ok m st (r :: L) → twp (free_rfd st r) (λ st', socks_ok m st' L).
Proof. destruct r; [apply free_slot_link_ok|apply free_temp_ok]. Qed.

Lemma free_rfds_ok m st L fdl : socks_ok m st (fdl ++ L) → twp (free_rfds st fdl) (λ st', socks_ok m st' L).
Proof.
  revert st. induction fdl as [|r fdl IH]; intros st H; [done|]. cbn [free_rfds]. apply twp_bind.
  eapply twp_mono; [by apply (free_rfd_ok m st (fdl ++ L))|]. intros st' Hs. by apply IH.
Qed.

(** * Links keep their sockets *)

Definition link_fd (st : sockets) (r : rfd_ref) (fd : Z) : Prop := ∃ s, ref_rfd st r = Ok s ∧ rf_fd s = fd.

Lemma link_fd_slots st l st' r fd i s s' :
  randomsocks st !! i = Some s → l = <[i := s']> (randomsocks st) → randomsocks st' = l → temps st' = temps st →
  (r = Slot i → rf_fd s' = rf_fd s) → link_fd st r fd → link_fd st' r fd.
Proof.
  intros Hi -> El Et Hs (x & Hx & <-). unfold link_fd, ref_rfd in *. destruct r as [j|t]; [|rewrite Et; by exists x].
  rewrite El. destruct (decide (i = j)) as [<-|Hne].
  - rewrite list_lookup_insert_eq by (by eapply lookup_lt_Some). exists s'. split; [done|].
    rewrite Hi in Hx. injection Hx as <-. by apply Hs.
  - rewrite list_lookup_insert_ne by done. by exists x.
Qed.

(** A new link leaves the others as they are. *)
Lemma get_rfd_keeps m st L serv up k st' r' r fd :
  socks_ok m st L → system_ok k → r ∈ L → get_rfd m st serv up k = Ok (st', r') → link_fd st r fd → link_fd st' r fd.
Proof.
  intros H Hk Hr. unfold get_rfd. destruct (fresh_slot st serv k) as [[s i]|] eqn:Ef.
  - intros [= <- <-]. unfold fresh_slot in Ef. destruct (free_slot (randomsocks st)) as [j|] eqn:Ej; [|done].
    destruct (k_sock k (opened st)) as [fd'|]; [|done]. injection Ef as <- <-. destruct (free_slot_spec _ _ Ej) as (x & Hx & H0).
    eapply link_fd_slots; [done..|]. intros ->. pose proof (link_counted j L Hr). destruct (so_count _ _ _ H j x Hx). lia.
  - destruct (shared_slot _ _ _ _ _ _) as [[i|]| | |]; [| |done..]; cbn [mbind res_bind].
    + simpl. destruct (randomsocks st !! i) as [x|] eqn:Ex; [|done]. intros [= <- <-]. by eapply link_fd_slots.
    + unfold temp_slot. intros E Hl.
      assert (∀ y, get_cell st (k_poll k) = Some y → randomsocks y = randomsocks st ∧ temps y = temps st) as Hg.
      { unfold get_cell. intros y. destruct (rfl_spare st); [destruct (k_poll k)|]; by intros [= <-]. }
      destruct (get_cell st (k_poll k)) as [y|]; [|by simpl in E; injection E as <- <-]. destruct (Hg y eq_refl) as [E1 E2]. clear Hg.
      assert (∀ z, randomsocks z = randomsocks y → temps z = temps y → link_fd z r fd) as Hz.
      { intros z Z1 Z2. unfold link_fd, ref_rfd in *. by rewrite Z1, Z2, E1, E2. }
      destruct (k_temp k (dom (temps y))) as [t|] eqn:Et; [|simpl in E; injection E as <- <-; by apply Hz].
      destruct (k_sock2 k (opened y)) as [fd'|]; simpl in E; injection E as <- <-; [|by apply Hz].
      apply (sy_temp k Hk) in Et. rewrite not_elem_of_dom, E2 in Et. destruct Hl as (x & Hx & Hfd). exists x. split; [|done].
      unfold ref_rfd in *. simpl. rewrite E1. destruct r as [j|t']; [done|].
      destruct (decide (t = t')) as [<-|]; [by rewrite Et in Hx|by rewrite lookup_insert_ne, E2].
Qed.

Lemma allocate_rfd_keeps m st L fdl serv k st' fdl' fd' r fd :
  socks_ok m st (fdl ++ L) → system_ok k → r ∈ fdl → allocate_rfd m st fdl serv k = Ok (st', fdl', fd') →
  link_fd st r fd → link_fd st' r fd ∧ r ∈ fdl'.
Proof.
  intros H Hk Hr. unfold allocate_rfd. destruct (server_at m serv) as [up| | |]; [|done..]. cbn [mbind res_bind].
  destruct (up_sfd up); [by intros [= <- <- <-]|]. destruct (linked_fd m st up fdl) as [[x|]| | |]; [| |done..]; cbn [mbind res_bind].
  { by intros [= <- <- <-]. }
  destruct (get_cell st (k_cell k)) as [y|] eqn:Ey; [|by intros [= <- <- <-]].
  pose proof (get_cell_ok _ _ _ _ _ H Ey) as Hy.
  assert (link_fd st r fd → link_fd y r fd) as Hl.
  { unfold get_cell in Ey. destruct (rfl_spare st); [destruct (k_cell k)|]; simplify_eq; exact id. }
  destruct (get_rfd m y serv up k) as [[z o]| | |] eqn:Eg; [|done..]. cbn [mbind res_bind]. intros E Hf.
  assert (link_fd z r fd) as Hz by (eapply (get_rfd_keeps m y (fdl ++ L)); [done|done|apply elem_of_app; by left|done|by apply Hl]).
  destruct o as [r'|]; [|by injection E as <- <- <-].
  destruct (ref_rfd z r') as [s'| | |]; [|done..]. injection E as <- <- <-. split; [done|by right].
Qed.
