(* ===== verification/Queries.v ===== *)
(** The table of queries in flight (src/src/forward.c): the records of queries,
    their limit and reuse, forward_query and reply_query without the edits of the
    packets, and what happens when a server goes away. For a build without
    DNSSEC. *)
From S2P Require Import Prelude Hostname NetAddr DomainMatch Records Forward.

Definition TIMEOUT : Z := 10.
Definition FORWARD_TEST : Z := 50.
Definition FORWARD_TIME : Z := 20.
Definition FREC_TEST_PKTSZ : Z := 256.
Definition FREC_HAS_EXTRADATA : Z := 512.
(** FREC_CHECKING_DISABLED | FREC_AD_QUESTION | FREC_DO_QUESTION |
    FREC_HAS_PHEADER | FREC_DNSKEY_QUERY | FREC_DS_QUERY | FREC_NO_CACHE. *)
Definition retry_mask : Z := 1150.
Definition RCODE_SERVFAIL : Z := 2.
Definition RCODE_REFUSED : Z := 5.

(** struct frec_src without its link: a client and its query. *)
Record client := Client { source : mysockaddr; dest : list Z; iface : Z; log_id : Z; c_fd : Z; orig_id : Z }.

(** struct frec; [f_id] is its address, [f_next] the clients after the first
    with the addresses of their cells; [sentto] is None when it is free. *)
Record frec := Frec {
  f_id : Z; f_src : client; f_next : list (Z * client); sentto : option Z; rfds : list rfd_ref;
  new_id : Z; forwardall : Z; f_flags : Z; f_time : Z; f_hash : list Z }.

(** The state: servers, their array, the records, the free cells for clients and
    how many were made, the sockets, and the server and socket of the last query
    sent. *)
Record forward_state := Fwd {
  servers : gmap Z upstream; serverarray : list Z; frec_list : list frec; free_frec_src : list Z; frec_src_count : Z;
  socks : sockets; srv_save : option (Z * Z) }.

(** The options that count here. *)
Record config := Config { ftabsize : Z; opt_order : bool; opt_all_servers : bool }.

Definition set_frecs (st : forward_state) (l : list frec) : forward_state :=
  Fwd (servers st) (serverarray st) l (free_frec_src st) (frec_src_count st) (socks st) (srv_save st).
Definition set_servers (st : forward_state) (m : gmap Z upstream) : forward_state :=
  Fwd m (serverarray st) (frec_list st) (free_frec_src st) (frec_src_count st) (socks st) (srv_save st).
Definition set_cells (st : forward_state) (l : list Z) (n : Z) : forward_state :=
  Fwd (servers st) (serverarray st) (frec_list st) l n (socks st) (srv_save st).
Definition set_pool (st : forward_state) (s : sockets) : forward_state :=
  Fwd (servers st) (serverarray st) (frec_list st) (free_frec_src st) (frec_src_count st) s (srv_save st).
Definition set_save (st : forward_state) (o : option (Z * Z)) : forward_state :=
  Fwd (servers st) (serverarray st) (frec_list st) (free_frec_src st) (frec_src_count st) (socks st) o.

(** A record by address, and one stored back. *)
Definition is_frec (p : Z) (f : frec) : bool := f_id f =? p.
Definition frec_at (st : forward_state) (p : Z) : res frec :=
  match find (is_frec p) (frec_list st) with Some f => Ok f | None => Oob end.
Definition put_frec (f : frec) (l : list frec) : list frec := (λ g, if is_frec (f_id f) g then f else g) <$> l.

(** * Records *)

Definition set_time (f : frec) (now : Z) : frec :=
  Frec (f_id f) (f_src f) (f_next f) (sentto f) (rfds f) (new_id f) (forwardall f) (f_flags f) now (f_hash f).
Definition set_flags (f : frec) (fl : Z) : frec :=
  Frec (f_id f) (f_src f) (f_next f) (sentto f) (rfds f) (new_id f) (forwardall f) fl (f_time f) (f_hash f).
Definition set_all (f : frec) (n : Z) : frec :=
  Frec (f_id f) (f_src f) (f_next f) (sentto f) (rfds f) (new_id f) n (f_flags f) (f_time f) (f_hash f).
Definition set_rfds (f : frec) (l : list rfd_ref) : frec :=
  Frec (f_id f) (f_src f) (f_next f) (sentto f) l (new_id f) (forwardall f) (f_flags f) (f_time f) (f_hash f).
Definition set_sentto (f : frec) (s : option Z) : frec :=
  Frec (f_id f) (f_src f) (f_next f) s (rfds f) (new_id f) (forwardall f) (f_flags f) (f_time f) (f_hash f).
Definition set_clients (f : frec) (c : client) (l : list (Z * client)) : frec :=
  Frec (f_id f) c l (sentto f) (rfds f) (new_id f) (forwardall f) (f_flags f) (f_time f) (f_hash f).

Definition no_client : client := Client (SA_other 0) (replicate 16 0) 0 0 0 0.

(** What whine_malloc gives: all zero. *)
Definition zero_frec (p : Z) : frec := Frec p no_client [] None [] 0 0 0 0 [].

(** The cells of the clients and the sockets are given back. *)
Definition free_frec (st : forward_state) (f : frec) : res (forward_state * frec) :=
  s ← free_rfds (socks st) (rfds f);
  Ok (set_pool (set_cells st ((f_next f).*1 ++ free_frec_src st) (frec_src_count st)) s,
      Frec (f_id f) (f_src f) [] None [] (new_id f) (forwardall f) 0 (f_time f) (f_hash f)).

(** free_frec on a record of the list. *)
Definition release (st : forward_state) (f : frec) : res forward_state :=
  '(st, f') ← free_frec st f; Ok (set_frecs st (put_frec f' (frec_list st))).

(** The walk of get_new_frec: the oldest record in use, a free record and the
    number of young queries to the group of the server. *)
Record walk_st := Walk { w_st : forward_state; oldest : option frec; target : option Z; w_count : Z }.

Definition young (st : forward_state) (now : Z) (master : Z) (f : frec) : res bool :=
  match sentto f with
  | None => Ok false
  | Some p =>
      if now - f_time f <? TIMEOUT then
        a ← server_at (servers st) p; b ← server_at (servers st) master;
        Ok (server_samegroup (up_server a) (up_server b))
      else Ok false
  end.

Definition walk_frec (now : Z) (master : Z) (w : walk_st) (f : frec) : res walk_st :=
  match sentto f with
  | None => Ok (Walk (w_st w) (oldest w) (Some (f_id f)) (w_count w))
  | Some _ =>
      if 4 * TIMEOUT <=? now - f_time f then
        st ← release (w_st w) f; Ok (Walk st (oldest w) (Some (f_id f)) (w_count w))
      else
        let old := match oldest w with
                   | None => f
                   | Some o => if f_time f - f_time o <=? 0 then f else o
                   end in
        y ← young (w_st w) now master f;
        Ok (Walk (w_st w) (Some old) (target w) (if y : bool then w_count w + 1 else w_count w))
  end.

Fixpoint walk_loop (now : Z) (master : Z) (w : walk_st) (l : list frec) : res walk_st :=
  match l with
  | [] => Ok w
  | f :: l => w ← walk_frec now master w f; walk_loop now master w l
  end.

(** [new] is the address whine_malloc gives, given those in use. The result is
    NULL (None) when the limit of the server group is reached or memory runs
    out. *)
Definition get_new_frec (cfg : config) (st : forward_state) (now : Z) (master : Z) (force : bool) (new : gset Z → option Z)
    : res (forward_state * option Z) :=
  w ← walk_loop now master (Walk st None None 0) (frec_list st);
  let st := w_st w in
  if negb force && (ftabsize cfg <=? w_count w) then Ok (st, None)
  else
    '(st, t) ← (match target w, oldest w with
                | None, Some o =>
                    if TIMEOUT <=? now - f_time o then st ← release st o; Ok (st, Some (f_id o)) else Ok (st, None)
                | t, _ => Ok (st, t)
                end);
    let '(st, t) := match t with
                    | Some p => (st, Some p)
                    | None => match new (list_to_set (f_id <$> frec_list st)) with
                              | Some p => (set_frecs st (zero_frec p :: frec_list st), Some p)
                              | None => (st, None)
                              end
                    end in
    match t with
    | None => Ok (st, None)
    | Some p => f ← frec_at st p; Ok (set_frecs st (put_frec (set_time f now) (frec_list st)), Some p)
    end.

(** Random numbers are drawn until one is not the identifier of a query;
    [rands] are the numbers rand16 gives. *)
Definition id_used (l : list frec) (r : Z) : bool := existsb (λ f, bool_decide (is_Some (sentto f)) && (new_id f =? r)) l.
Fixpoint get_id (l : list frec) (rands : list Z) : res Z :=
  match rands with
  | [] => NoFuel
  | r :: rands => if id_used l r then get_id l rands else Ok r
  end.

(** * Finding the query *)

(** daemon->serverarray as the servers it points to. *)
Fixpoint deref_array (m : gmap Z upstream) (arr : list Z) : res (list upstream) :=
  match arr with
  | [] => Ok []
  | p :: arr => s ← server_at m p; l ← deref_array m arr; Ok (s :: l)
  end.

(** filter_servers on the current array. *)
Definition select (st : forward_state) (pos : Z) : res (bool * nat * nat) :=
  l ← deref_array (servers st) (serverarray st);
  filter_servers (up_server <$> l) (Z.to_nat pos) F_SERVER.

(** A server of the range with a socket of its own that is [fd]. *)
Fixpoint sfd_match (m : gmap Z upstream) (arr : list Z) (fd : Z) (first : nat) (n : nat) : res bool :=
  match n with
  | O => Ok false
  | S n =>
      match arr !! first with
      | None => Oob
      | Some p => s ← server_at m p; if bool_decide (up_sfd s = Some fd) then Ok true else sfd_match m arr fd (S first) n
      end
  end.

Fixpoint any_fd (st : sockets) (fd : Z) (fdl : list rfd_ref) : res bool :=
  match fdl with
  | [] => Ok false
  | r :: fdl => s ← ref_rfd st r; if rf_fd s =? fd then Ok true else any_fd st fd fdl
  end.

(** The query of a reply, by identifier, hash of the question and socket, with
    the range of servers it may come from. *)
Fixpoint lookup_frec_loop (st : forward_state) (id fd : Z) (hash : list Z) (l : list frec) : res (option (frec * nat * nat)) :=
  match l with
  | [] => Ok None
  | f :: l =>
      match sentto f with
      | Some p =>
          if (new_id f =? id) && bool_decide (f_hash f = hash) then
            up ← server_at (servers st) p;
            '(_, first, last) ← select st (arrayposn (up_server up));
            m ← any_fd (socks st) fd (rfds f);
            if m : bool then Ok (Some (f, first, last))
            else
              m ← sfd_match (servers st) (serverarray st) fd first (last - first);
              if m : bool then Ok (Some (f, first, last)) else lookup_frec_loop st id fd hash l
          else lookup_frec_loop st id fd hash l
      | None => lookup_frec_loop st id fd hash l
      end
  end.

(** [hash] is None when the question does not parse. *)
Definition lookup_frec (st : forward_state) (id fd : Z) (hash : option (list Z)) : res (option (frec * nat * nat)) :=
  match hash with None => Ok None | Some h => lookup_frec_loop st id fd h (frec_list st) end.

Definition lookup_frec_by_query (st : forward_state) (hash : option (list Z)) (flags flagmask : Z) : option frec :=
  match hash with
  | None => None
  | Some h =>
      find (λ f, bool_decide (is_Some (sentto f)) && (Z.land (f_flags f) flagmask =? flags) && bool_decide (f_hash f = h)) (frec_list st)
  end.

(** * Sending *)

(** How sendto ends: to be tried again, done, or failed; with what the system
    gives to allocate_rfd before it. *)
Inductive send_result := Again | Sent | Failed.
#[export] Instance send_result_eq_dec : EqDecision send_result.
Proof. solve_decision. Defined.
Record attempt := Attempt { at_sys : system; at_result : send_result }.

Record send_st := SendSt { s_socks : sockets; s_frec : frec; s_save : option (Z * Z); forwarded : bool }.

(** The loop over the servers from [start]; [atts] are the attempts. *)
Fixpoint send_loop (m : gmap Z upstream) (arr : list Z) (last : nat) (atts : list attempt) (w : send_st) (start : nat) : res send_st :=
  match atts with
  | [] => NoFuel
  | a :: atts =>
      match arr !! start with
      | None => Oob
      | Some srv =>
          '(s, fdl, fd) ← allocate_rfd m (s_socks w) (rfds (s_frec w)) srv (at_sys a);
          let f := set_rfds (s_frec w) fdl in
          let next w := if (S start =? last)%nat then Ok w else send_loop m arr last atts w (S start) in
          if fd =? -1 then next (SendSt s f (s_save w) (forwarded w))
          else match at_result a with
               | Again => send_loop m arr last atts (SendSt s f (s_save w) (forwarded w)) start
               | Failed => next (SendSt s f (s_save w) (forwarded w))
               | Sent =>
                   let f := set_sentto f (Some srv) in
                   if forwardall f =? 0 then Ok (SendSt s f (Some (srv, fd)) true)
                   else next (SendSt s (set_all f (forwardall f + 1)) (Some (srv, fd)) true)
               end
      end
  end.

(** How forward_query ends. *)
Inductive fwd_result := Reply | Wait | Forwarded.

(** The end of forward_query: the query [f] is sent; when it could not be, its
    record is freed. *)
Definition send_query (st : forward_state) (f : frec) (first start last : nat) (atts : list attempt) : res (forward_state * fwd_result) :=
  let start := if forwardall f =? 0 then start else first in
  w ← send_loop (servers st) (serverarray st) last atts (SendSt (socks st) f (srv_save st) false) start;
  let f := s_frec w in
  let st := set_save (set_pool (set_frecs st (put_frec f (frec_list st))) (s_socks w)) (s_save w) in
  if forwarded w then Ok (st, Forwarded)
  else st ← release st f; Ok (st, Reply).

(** The first server to try and whether to try all; the counter of the group's
    first server. *)
Definition pick_start (cfg : config) (now : Z) (master : upstream) (first : nat) : nat * Z * upstream :=
  let all := if opt_all_servers cfg then 1 else 0 in
  if opt_order cfg then (first, all, master)
  else
    let bump n t := Upstream (up_server master) (up_addr master) (up_ifindex master) (up_source master) (up_interface master) (up_sfd master) n t in
    if (FORWARD_TEST <? forwardcount master) || (FORWARD_TIME <? now - forwardtime master) || (last_server (up_server master) =? -1)
    then (first, 1, bump 0 now)
    else (Z.to_nat (last_server (up_server master)), all, bump (forwardcount master + 1) (forwardtime master)).

(** A new query, for the servers from [first] to [last]; [extra] are the flags
    that domain_no_rebind and the edits of the packet set. *)
Definition forward_new (cfg : config) (st : forward_state) (now : Z) (hash : list Z) (flags extra : Z) (c : client) (first last : nat)
    (new : gset Z → option Z) (rands : list Z) (atts : list attempt) : res (forward_state * fwd_result) :=
  match serverarray st !! first with
  | None => Oob
  | Some master =>
      '(st, t) ← get_new_frec cfg st now master false new;
      match t with
      | None => Ok (st, Reply)
      | Some p =>
          f ← frec_at st p;
          id ← get_id (frec_list st) rands;
          up ← server_at (servers st) master;
          let '(start, all, up) := pick_start cfg now up first in
          let st := set_servers st (<[master := up]> (servers st)) in
          let f := Frec (f_id f) c [] (sentto f) (rfds f) id all (Z.lor flags extra) (f_time f) hash in
          send_query st f first start last atts
      end
  end.

(** A query that is sent again. [old_src]: from a client that asked before;
    [old_reply]: because of an answer. *)
Definition forward_retry (cfg : config) (st : forward_state) (f : frec) (extra : Z) (old_src old_reply : bool) (atts : list attempt)
    : res (forward_state * fwd_result) :=
  match sentto f with
  | None => Oob
  | Some p =>
      up ← server_at (servers st) p;
      '(ok, first, last) ← select st (arrayposn (up_server up));
      if negb ok then Ok (st, Reply)
      else
        let go f start := send_query st (set_flags f (Z.lor (Z.lor (f_flags f) FREC_TEST_PKTSZ) extra)) first start last atts in
        if negb (opt_order cfg) && old_src then go (set_all f 1) first
        else
          let start := Z.to_nat (arrayposn (up_server up)) in
          if negb (opt_order cfg) then go f start
          else if (S start =? last)%nat then (if old_reply then Ok (st, Reply) else go f start)
          else go f (S start)
  end.

(** A client asks what another has asked: it is known, or added, or refused
    (None) for want of cells; [new] is what whine_malloc gives. *)
Definition same_client (c : client) (x : client) : bool := (orig_id x =? orig_id c) && sockaddr_isequal (source x) (source c).
Definition relog (c x : client) : client := Client (source x) (dest x) (iface x) (log_id c) (c_fd x) (orig_id x).

(** The log identifier of the first match is set. *)
Fixpoint relog_next (c : client) (l : list (Z * client)) : option (list (Z * client)) :=
  match l with
  | [] => None
  | (a, x) :: l => if same_client c x then Some ((a, relog c x) :: l) else cons (a, x) <$> relog_next c l
  end.

Definition used_cells (st : forward_state) : list Z := concat ((λ f, (f_next f).*1) <$> frec_list st).

Definition add_client (cfg : config) (st : forward_state) (f : frec) (c : client) (new : gset Z → option Z) : forward_state * option (frec * bool) :=
  let put st f b := (set_frecs st (put_frec f (frec_list st)), Some (f, b)) in
  if same_client c (f_src f) then put st (set_clients f (relog c (f_src f)) (f_next f)) true
  else match relog_next c (f_next f) with
  | Some l => put st (set_clients f (f_src f) l) true
  | None =>
      let st := match free_frec_src st with
                | _ :: _ => st
                | [] =>
                    if frec_src_count st <? ftabsize cfg then
                      match new (list_to_set (used_cells st)) with
                      | Some a => set_cells st [a] (frec_src_count st + 1)
                      | None => st
                      end
                    else st
                end in
      match free_frec_src st with
      | [] => (st, None)
      | a :: l => put (set_cells st l (frec_src_count st)) (set_clients f (f_src f) ((a, c) :: f_next f)) false
      end
  end.

(** forward_query for a name that lookup_domain gives the servers from [first]
    to [last] for and is_local_answer no answer; [forward] is set when it is
    called because of an answer. *)
Definition forward_query (cfg : config) (st : forward_state) (now : Z) (hash : option (list Z)) (flags extra : Z) (c : client) (first last : nat)
    (forward : option frec) (new new_src : gset Z → option Z) (rands : list Z) (atts : list attempt) : res (forward_state * fwd_result) :=
  match forward with
  | Some f => forward_retry cfg st f extra true true atts
  | None =>
      match lookup_frec_by_query st hash flags retry_mask with
      | Some f =>
          match add_client cfg st f c new_src with
          | (st, None) => Ok (st, Reply)
          | (st, Some (f, true)) => forward_retry cfg st f extra true false atts
          | (st, Some (f, false)) => if now - f_time f <? 2 then Ok (st, Wait) else forward_retry cfg st f extra false false atts
          end
      | None =>
          match hash with
          | None => Ok (st, Reply)
          | Some h => forward_new cfg st now h flags extra c first last new rands atts
          end
      end
  end.

(** * Replies *)

(** The first server of the range with the address the reply came from. *)
Fixpoint reply_from (m : gmap Z upstream) (arr : list Z) (from : mysockaddr) (c n : nat) : res (option nat) :=
  match n with
  | O => Ok None
  | S n =>
      match arr !! c with
      | None => Oob
      | Some p => s ← server_at m p; if sockaddr_isequal (up_addr s) from then Ok (Some c) else reply_from m arr from (S c) n
      end
  end.

Definition set_last_server (up : upstream) (n : Z) : upstream :=
  let s := up_server up in
  Upstream (Server (sid s) (sflags s) (domain_len s) (domain s) (serial s) (arrayposn s) n (local_addr s))
    (up_addr up) (up_ifindex up) (up_source up) (up_interface up) (up_sfd up) (forwardcount up) (forwardtime up).

(** The checks of a reply: the query it answers and the server it is from; the
    group remembers which server answered. *)
Definition accept_reply (st : forward_state) (fd : Z) (from : mysockaddr) (id : Z) (hash : option (list Z)) (rcode : Z)
    : res (forward_state * option (frec * Z)) :=
  let st := set_save st None in
  r ← lookup_frec st id fd hash;
  match r with
  | None => Ok (st, None)
  | Some (f, first, last) =>
      r ← reply_from (servers st) (serverarray st) from first (last - first);
      match r with
      | None => Ok (st, None)
      | Some c =>
          match serverarray st !! c, serverarray st !! first with
          | Some server, Some master =>
              up ← server_at (servers st) master;
              let last := last_server (up_server up) in
              let last := if negb (rcode =? RCODE_REFUSED) then Z.of_nat c else if last =? Z.of_nat c then -1 else last in
              Ok (set_servers st (<[master := set_last_server up last]> (servers st)), Some (f, server))
          | _, _ => Oob
          end
      end
  end.

(** What happens to a reply: dropped, sent on to another server, kept waiting
    for the other servers, or given to the clients. *)
Inductive reply_result := Dropped | Resent | Kept | Delivered (l : list client).

(** The end of return_reply; [some] is that process_reply left an answer. *)
Definition return_reply (st : forward_state) (f : frec) (some : bool) : res (forward_state * reply_result) :=
  st ← release st f;
  Ok (st, Delivered (if some then f_src f :: (f_next f).*2 else [])).

(** [ignored] is the result of check_for_ignored_address, [resend] that the query
    could be made again from the reply, [some] that process_reply left an
    answer. *)
Definition reply_query (cfg : config) (st : forward_state) (now fd : Z) (from : mysockaddr) (id : Z) (hash : option (list Z)) (rcode : Z)
    (ignored resend some : bool) (extra : Z) (atts : list attempt) : res (forward_state * reply_result) :=
  '(st, r) ← accept_reply st fd from id hash rcode;
  match r with
  | None => Ok (st, Dropped)
  | Some (f, server) =>
      if ignored then Ok (st, Dropped)
      else if ((rcode =? RCODE_REFUSED) || (rcode =? RCODE_SERVFAIL)) && (forwardall f =? 0) && negb (flag (f_flags f) FREC_HAS_EXTRADATA) && resend
      then '(st, _) ← forward_retry cfg st f extra true true atts; Ok (st, Resent)
      else
        let f := if forwardall f =? 0 then f else set_all f (forwardall f - 1) in
        let put f := set_frecs st (put_frec f (frec_list st)) in
        if (1 <? forwardall f) && (rcode =? RCODE_REFUSED) then Ok (put f, Kept)
        else let f := set_sentto f (Some server) in return_reply (put f) f some
  end.

(** * A server goes away *)

Fixpoint gone_loop (server : Z) (st : forward_state) (l : list frec) : res forward_state :=
  match l with
  | [] => Ok st
  | f :: l =>
      st ← (if bool_decide (sentto f = Some server) then release st f else Ok st);
      gone_loop server st l
  end.

Definition forget_serv (server : Z) (s : randfd) : randfd :=
  if negb (refcount s =? 0) && bool_decide (rf_serv s = Some server) then Randfd None (rf_fd s) (refcount s) else s.

Definition server_gone (st : forward_state) (server : Z) : res forward_state :=
  st ← gone_loop server st (frec_list st);
  let st := set_pool st (set_socks (socks st) (forget_serv server <$> randomsocks (socks st))) in
  Ok (match srv_save st with
      | Some (s, _) => if s =? server then set_save st None else st
      | None => st
      end).
