(* ===== verification/QueryTables.v ===== *)
(** What the table of queries relies on of the servers and their array, and that
    the counters it keeps in the servers leave it so. *)
From stdpp Require Import sorting.
From S2P Require Import Prelude Hostname NetAddr Cache DomainMatch DomainLookup Forward Queries.

(** * The servers *)

(** The fields the selection depends on. *)
Definition core (u : upstream) : Z * Z * cstring := (sflags (up_server u), domain_len (up_server u), domain (up_server u)).
Definition same_core : list upstream → list upstream → Prop := Forall2 (λ u v, core u = core v).

Lemma core_order u v u' v' :
  core u = core u' → core v = core v' → order_servers (up_server u) (up_server v) = order_servers (up_server u') (up_server v').
Proof. unfold core. intros [= E1 E2 E3] [= F1 F2 F3]. unfold order_servers, order, sflag. by rewrite E1, E2, E3, F1, F2, F3. Qed.
Lemma core_flag u v m : core u = core v → sflag (up_server u) m = sflag (up_server v) m.
Proof. unfold core, sflag. by intros [= -> _ _]. Qed.
Lemma core_len u v : core u = core v → domain_len (up_server u) = domain_len (up_server v).
Proof. by intros [= _ -> _]. Qed.

Lemma same_core_at l l' i : same_core l l' →
  match (up_server <$> l) !! i, (up_server <$> l') !! i with
  | Some a, Some b => ∃ u v, a = up_server u ∧ b = up_server v ∧ core u = core v
  | None, None => True
  | _, _ => False
  end.
Proof.
  intros H. rewrite !list_lookup_fmap. destruct (l !! i) as [u|] eqn:E.
  - destruct (Forall2_lookup_l _ _ _ _ _ H E) as (v & -> & Hc). simpl. by exists u, v.
  - destruct (l' !! i) as [v|] eqn:E'; [|done]. by destruct (Forall2_lookup_r _ _ _ _ _ H E') as (u & ? & _); simplify_eq.
Qed.

Lemma group_low_core l l' n : same_core l l' → group_low (up_server <$> l) n = group_low (up_server <$> l') n.
Proof.
  intros H. induction n as [|n IH]; [done|]. cbn [group_low]. unfold at_.
  pose proof (same_core_at l l' n H) as H1. pose proof (same_core_at l l' (S n) H) as H2.
  destruct ((up_server <$> l) !! n), ((up_server <$> l') !! n); try done. destruct H1 as (u & v & -> & -> & Hc).
  cbn [mbind res_bind].
  destruct ((up_server <$> l) !! S n), ((up_server <$> l') !! S n); try done. destruct H2 as (u' & v' & -> & -> & Hc').
  cbn [mbind res_bind]. by rewrite (core_order u u' v v' Hc Hc'), IH.
Qed.

Lemma group_high_core l l' fuel n : same_core l l' → group_high fuel (up_server <$> l) n = group_high fuel (up_server <$> l') n.
Proof.
  intros H. revert n. induction fuel as [|fuel IH]; intros n; [done|]. cbn [group_high]. unfold at_.
  rewrite !length_fmap, (Forall2_length _ _ _ H).
  pose proof (same_core_at l l' n H) as H1. pose proof (same_core_at l l' (S n) H) as H2. destruct (_ <? _)%nat; [|done].
  destruct ((up_server <$> l) !! n), ((up_server <$> l') !! n); try done. destruct H1 as (u & v & -> & -> & Hc).
  cbn [mbind res_bind].
  destruct ((up_server <$> l) !! S n), ((up_server <$> l') !! S n); try done. destruct H2 as (u' & v' & -> & -> & Hc').
  cbn [mbind res_bind]. by rewrite (core_order u u' v v' Hc Hc'), IH.
Qed.

Lemma run_length_core p l l' :
  (∀ u v, core u = core v → p (up_server u) = p (up_server v)) → same_core l l' →
  run_length p (up_server <$> l) = run_length p (up_server <$> l').
Proof. intros Hp. induction 1 as [|u v l l' Hc _ IH]; [done|]. simpl. rewrite (Hp u v Hc). destruct (p _); [|done]. f_equal. exact IH. Qed.

Lemma same_core_drop l l' n : same_core l l' → same_core (drop n l) (drop n l').
Proof. apply Forall2_drop. Qed.

Lemma filter_group_core fl l l' : same_core l l' → filter_group fl (up_server <$> l) = filter_group fl (up_server <$> l').
Proof.
  intros H. unfold filter_group. cbv zeta.
  assert (∀ m, existsb (λ s, sflag s m) (up_server <$> l) = existsb (λ s, sflag s m) (up_server <$> l')) as He.
  { intros m. induction H as [|u v k k' Hc _ IH]; [done|]. simpl. rewrite (core_flag u v m Hc). f_equal. exact IH. }
  assert (∀ m k k', same_core k k' →
    run_length (λ s, sflag s m) (up_server <$> k) = run_length (λ s, sflag s m) (up_server <$> k')) as Hr.
  { intros m k k' Hk. apply run_length_core; [|done]. intros u v. apply core_flag. }
  rewrite He, !length_fmap, (Forall2_length _ _ _ H). destruct (flag fl F_CONFIG); [done|].
  rewrite (Hr _ _ _ H). set (n6 := run_length _ (up_server <$> l')). rewrite <-?fmap_drop.
  apply (same_core_drop _ _ n6) in H. rewrite (Hr _ _ _ H). set (n4 := run_length _ (up_server <$> drop n6 l')).
  rewrite <-?fmap_drop. apply (same_core_drop _ _ n4) in H. rewrite (Hr _ _ _ H).
  set (nz := run_length _ (up_server <$> drop n4 (drop n6 l'))). rewrite <-?fmap_drop. apply (same_core_drop _ _ nz) in H.
  rewrite (Hr _ _ _ H), !length_fmap, (Forall2_length _ _ _ H).
  rewrite (run_length_core (λ s, negb (sflag s SERV_LITERAL_ADDRESS)) _ _) by (done || (intros u v Hc; by rewrite (core_flag u v))).
  destruct H as [|u v k k' Hc H]; [done|]. cbn [fmap list_fmap]. by rewrite (core_flag u v _ Hc), (core_len u v Hc).
Qed.

Lemma filter_servers_core l l' i fl : same_core l l' → filter_servers (up_server <$> l) i fl = filter_servers (up_server <$> l') i fl.
Proof.
  intros H. unfold filter_servers. rewrite (group_low_core l l') by done.
  rewrite (group_high_core l l'), !length_fmap, (Forall2_length _ _ _ H) by done.
  destruct (group_low _ i) as [nl| | |]; [|done..]. cbn [mbind res_bind].
  destruct (group_high _ _ i) as [nh| | |]; [|done..]. cbn [mbind res_bind].
  rewrite <-!fmap_drop, <-!fmap_take. rewrite (filter_group_core fl _ (take (S nh - nl) (drop nl l'))); [done|].
  by apply Forall2_take, same_core_drop.
Qed.

(** A range of the array that filter_servers selects for queries, all of it
    upstream servers. *)
Definition plain (m : gmap Z upstream) (arr : list Z) (a b : nat) : Prop :=
  ∃ l seed, deref_array m arr = Ok l ∧ (seed < length arr)%nat ∧ filter_servers (up_server <$> l) seed F_SERVER = Ok (true, a, b) ∧
    ∀ i u, (a ≤ i < b)%nat → l !! i = Some u → sflag (up_server u) SERV_IS_LOCAL = false.

(** What domain-match.c promises of the array and its servers: it is sorted, the
    servers know their positions, and the last server to answer is one of its
    group. *)
Record table_ok (m : gmap Z upstream) (arr : list Z) : Prop := {
  ta_list : ∃ l, deref_array m arr = Ok l ∧ Forall wf_server (up_server <$> l) ∧
              StronglySorted (λ x y, order_servers x y ≤ 0) (up_server <$> l);
  ta_nodup : NoDup arr;
  ta_pos : ∀ i p u, arr !! i = Some p → m !! p = Some u → sflag (up_server u) SERV_IS_LOCAL = false → arrayposn (up_server u) = Z.of_nat i;
  ta_last : ∀ a b p u, plain m arr a b → arr !! a = Some p → m !! p = Some u →
              last_server (up_server u) = -1 ∨ Z.of_nat a ≤ last_server (up_server u) < Z.of_nat b }.

(** A server that queries can be sent to, at its place in the array. *)
Definition usable (m : gmap Z upstream) (arr : list Z) (p : Z) : Prop :=
  ∃ u i a b, m !! p = Some u ∧ arr !! i = Some p ∧ arrayposn (up_server u) = Z.of_nat i ∧ plain m arr a b ∧ (a ≤ i < b)%nat.

Lemma deref_lookup m arr l : deref_array m arr = Ok l →
  length l = length arr ∧ ∀ i p, arr !! i = Some p → ∃ u, m !! p = Some u ∧ l !! i = Some u.
Proof.
  revert l. induction arr as [|q arr IH]; intros l; simpl.
  - intros [= <-]. split; [done|]. intros i p. by rewrite lookup_nil.
  - unfold server_at. destruct (m !! q) as [u|] eqn:Eq; [|done]. cbn [mbind res_bind].
    destruct (deref_array m arr) as [k| | |]; [|done..]. cbn [mbind res_bind]. intros [= <-].
    destruct (IH k eq_refl) as [Hl Hk]. split; [simpl; by rewrite Hl|].
    intros [|i] p; simpl; [intros [= <-]; by exists u|apply Hk].
Qed.

Section tables.
Context (m : gmap Z upstream) (arr : list Z).
Hypothesis (Ht : table_ok m arr).

Lemma plain_group a b : plain m arr a b →
  (a < b ≤ length arr)%nat ∧
  ∀ i, (a ≤ i < b)%nat → ∃ l, deref_array m arr = Ok l ∧ filter_servers (up_server <$> l) i F_SERVER = Ok (true, a, b).
Proof.
  intros (l & seed & El & Hs & Ef & _). destruct (ta_list _ _ Ht) as (l' & El' & Hwf & Hso). rewrite El in El'. injection El' as <-.
  destruct (deref_lookup _ _ _ El) as [Hl _].
  destruct (filter_servers_spec (up_server <$> l) Hwf Hso seed F_SERVER) as (a' & b' & Ef' & Hab & Hg); [by rewrite length_fmap, Hl|].
  rewrite Ef in Ef'. injection Ef' as E <- <-. rewrite length_fmap, Hl in Hab.
  split; [destruct (Nat.eqb_spec a b); [done|lia]|]. intros i Hi. exists l. split; [done|].
  rewrite <-Ef. symmetry. apply (filter_servers_group (up_server <$> l) Hwf Hso); [by rewrite length_fmap, Hl|by apply Hg].
Qed.

Lemma plain_end a b b' : plain m arr a b → plain m arr a b' → b = b'.
Proof.
  intros H H'. destruct (plain_group a b H) as [Hr Hg]. destruct (plain_group a b' H') as [Hr' Hg'].
  destruct (Hg a) as (l & El & E); [lia|]. destruct (Hg' a) as (l' & El' & E'); [lia|].
  rewrite El in El'. injection El' as <-. rewrite E in E'. by injection E'.
Qed.

Lemma plain_usable a b i p : plain m arr a b → (a ≤ i < b)%nat → arr !! i = Some p → usable m arr p.
Proof.
  intros Hp Hi Ei. pose proof Hp as (l & seed & El & _ & _ & Hn). destruct (deref_lookup _ _ _ El) as [_ Hl].
  destruct (Hl i p Ei) as (u & Eu & Eul). exists u, i, a, b. split; [done|]. split; [done|].
  split; [|done]. apply (ta_pos _ _ Ht i p u Ei Eu). by apply (Hn i).
Qed.

Lemma arr_server i p : arr !! i = Some p → is_Some (m !! p).
Proof.
  intros Hi. destruct (ta_list _ _ Ht) as (l & El & _). destruct (deref_lookup _ _ _ El) as [_ Hl].
  destruct (Hl i p Hi) as (u & ? & _). by exists u.
Qed.
End tables.

Lemma deref_update m arr p u u' l :
  m !! p = Some u → core u = core u' → deref_array m arr = Ok l → ∃ l', deref_array (<[p := u']> m) arr = Ok l' ∧ same_core l l'.
Proof.
  intros Hp Hc. revert l. induction arr as [|q arr IH]; intros l; simpl; [intros [= <-]; exists []; split; [done|constructor]|].
  unfold server_at. destruct (m !! q) as [v|] eqn:Eq; [|done]. cbn [mbind res_bind].
  destruct (deref_array m arr) as [k| | |]; [|done..]. cbn [mbind res_bind]. intros [= <-].
  destruct (IH k eq_refl) as (k' & -> & Hk). destruct (decide (p = q)) as [<-|Hne].
  - rewrite lookup_insert_eq. rewrite Hp in Eq. injection Eq as <-. exists (u' :: k'). split; [done|]. by apply Forall2_cons.
  - rewrite lookup_insert_ne, Eq by done. exists (v :: k'). split; [done|]. by apply Forall2_cons.
Qed.

Lemma plain_update m arr p u u' a b : m !! p = Some u → core u = core u' → plain m arr a b → plain (<[p := u']> m) arr a b.
Proof.
  intros Hp Hc (l & seed & El & Hs & Ef & Hn). destruct (deref_update m arr p u u' l Hp Hc El) as (l' & El' & Hl).
  exists l', seed. split; [done|]. split; [done|]. split; [by rewrite <-(filter_servers_core l l')|].
  intros i v Hi Hv. destruct (Forall2_lookup_r _ _ _ _ _ Hl Hv) as (w & Hw & Hcw).
  rewrite <-(core_flag w v _ Hcw). by apply (Hn i).
Qed.

Lemma plain_update_inv m arr p u u' a b : m !! p = Some u → core u = core u' → plain (<[p := u']> m) arr a b → plain m arr a b.
Proof.
  intros Hp Hc H. apply (plain_update _ _ p u' u) in H; [|apply lookup_insert_eq|done].
  by rewrite insert_insert_eq, insert_id in H.
Qed.

Lemma core_wf u v : core u = core v → wf_server (up_server u) → wf_server (up_server v).
Proof. unfold core. intros [= E1 E2 E3] [W1 W2 W3]. unfold sflag in *. rewrite E1, E2, E3 in *. by split. Qed.

Lemma same_core_sorted l l' :
  same_core l l' → StronglySorted (λ x y, order_servers x y ≤ 0) (up_server <$> l) → StronglySorted (λ x y, order_servers x y ≤ 0) (up_server <$> l').
Proof.
  induction 1 as [|u v l l' Hc Hl IH]; intros Hs; [constructor|]. apply StronglySorted_inv in Hs as [Hs Hf].
  constructor; [by apply IH|]. apply Forall_lookup_2. intros i w'. change ((up_server <$> l') !! i = Some w' → order_servers (up_server v) w' ≤ 0).
  rewrite list_lookup_fmap. intros (w & Hw & ->)%fmap_Some.
  destruct (Forall2_lookup_r _ _ _ _ _ Hl Hw) as (x & Hx & Hxw). rewrite <-(core_order u x v w Hc Hxw).
  assert ((up_server <$> l) !! i = Some (up_server x)) as Hi by (by rewrite list_lookup_fmap, Hx).
  exact (Forall_lookup_1 _ _ _ _ Hf Hi).
Qed.

(** The counters and the last server to answer may change. *)
Lemma table_update m arr p u u' :
  table_ok m arr → m !! p = Some u → core u = core u' → arrayposn (up_server u') = arrayposn (up_server u) →
  (∀ a b, plain m arr a b → arr !! a = Some p → last_server (up_server u') = -1 ∨ Z.of_nat a ≤ last_server (up_server u') < Z.of_nat b) →
  table_ok (<[p := u']> m) arr.
Proof.
  intros [(l & El & Hwf & Hso) Hnd Hpos Hlast] Hp Hc Ha Hn. split; [|done|..].
  - destruct (deref_update m arr p u u' l Hp Hc El) as (l' & El' & Hl). exists l'. split; [done|].
    split; [|by apply (same_core_sorted l)]. rewrite Forall_fmap in Hwf. rewrite Forall_fmap. apply Forall_lookup_2. intros i v Hv.
    destruct (Forall2_lookup_r _ _ _ _ _ Hl Hv) as (w & Hw & Hcw). apply (core_wf w v Hcw). exact (Forall_lookup_1 _ _ _ _ Hwf Hw).
  - intros i q v Hi. destruct (decide (p = q)) as [<-|Hne].
    + rewrite lookup_insert_eq. intros [= <-] Hl. rewrite Ha. apply (Hpos i p u); [done..|]. by rewrite (core_flag u u').
    + rewrite lookup_insert_ne by done. by apply Hpos.
  - intros a b q v Hpl%(plain_update_inv _ _ _ _ _ _ _ Hp Hc) Hq. destruct (decide (p = q)) as [<-|Hne].
    + rewrite lookup_insert_eq. intros [= <-]. by apply Hn.
    + rewrite lookup_insert_ne by done. by apply Hlast.
Qed.

Lemma usable_update m arr p u u' q :
  m !! p = Some u → core u = core u' → arrayposn (up_server u') = arrayposn (up_server u) → usable m arr q → usable (<[p := u']> m) arr q.
Proof.
  intros Hp Hc Ha (v & i & a & b & Hv & Hi & Hpos & Hpl & Hab).
  exists (if decide (p = q) then u' else v), i, a, b.
  split; [|split; [done|]; split; [|split; [by apply (plain_update m arr p u u')|done]]].
  - destruct (decide (p = q)) as [<-|Hne]; [by rewrite lookup_insert_eq|by rewrite lookup_insert_ne].
  - destruct (decide (p = q)) as [<-|Hne]; [|done]. rewrite Ha. by simplify_eq.
Qed.
