(* ===== verification/QueriesInv.v ===== *)
(** The invariant of the table of queries, and that releasing a record keeps it. *)
From S2P Require Import Prelude Hostname NetAddr Cache DomainMatch Forward ForwardSpec Queries QueryTables.

Definition links (l : list frec) : list rfd_ref := concat (rfds <$> l).
Definition cells (l : list frec) : list Z := concat ((λ f, (f_next f).*1) <$> l).
Definition in_use (f : frec) : Prop := is_Some (sentto f).

(** [o] is a record being worked on, which may hold sockets before it is sent.
    Records have distinct addresses; those that are free hold nothing; queries
    in flight have distinct identifiers and were sent to servers that exist; the
    sockets are accounted for; the cells for clients are used once and are no
    more than the limit. *)
Record inv (cfg : config) (o : option Z) (st : forward_state) : Prop := {
  fo_ids : NoDup (f_id <$> frec_list st);
  fo_free : ∀ f, f ∈ frec_list st → sentto f = None → o ≠ Some (f_id f) → rfds f = [] ∧ f_next f = [];
  fo_new : ∀ f g, f ∈ frec_list st → g ∈ frec_list st → in_use f → in_use g → new_id f = new_id g → f_id f = f_id g;
  fo_sent : ∀ f p, f ∈ frec_list st → sentto f = Some p → usable (servers st) (serverarray st) p;
  fo_socks : socks_ok (servers st) (socks st) (links (frec_list st));
  fo_cells : NoDup (cells (frec_list st) ++ free_frec_src st);
  fo_count : frec_src_count st = zlen (cells (frec_list st) ++ free_frec_src st);
  fo_limit : frec_src_count st ≤ Z.max 0 (ftabsize cfg);
  fo_save : ∀ p fd, srv_save st = Some (p, fd) → is_Some (servers st !! p);
  fo_table : table_ok (servers st) (serverarray st) }.

(** * One record of the list *)

Lemma links_middle l1 f l2 : links (l1 ++ f :: l2) ≡ₚ rfds f ++ links (l1 ++ l2).
Proof. unfold links. rewrite !fmap_app, !concat_app. simpl. apply Permutation_app_swap_app. Qed.
Lemma cells_middle l1 f l2 : cells (l1 ++ f :: l2) ≡ₚ (f_next f).*1 ++ cells (l1 ++ l2).
Proof. unfold cells. rewrite !fmap_app, !concat_app. simpl. apply Permutation_app_swap_app. Qed.

Lemma put_frec_other g l : (f_id g ∉ (f_id <$> l)) → put_frec g l = l.
Proof.
  intros H. unfold put_frec. induction l as [|x l IH]; [done|]. simpl. unfold is_frec at 1.
  rewrite fmap_cons, not_elem_of_cons in H. destruct H as [Hx Hl].
  rewrite (proj2 (Z.eqb_neq (f_id x) (f_id g))) by done. f_equal. by apply IH.
Qed.

Lemma frec_split l f :
  NoDup (f_id <$> l) → f ∈ l →
  ∃ l1 l2, l = l1 ++ f :: l2 ∧ ∀ g, f_id g = f_id f → put_frec g l = l1 ++ g :: l2.
Proof.
  intros Hnd (l1 & l2 & ->)%list_elem_of_split. exists l1, l2. split; [done|]. intros g Hg.
  rewrite fmap_app, fmap_cons in Hnd. apply NoDup_app in Hnd as (_ & Hd & Hc). apply NoDup_cons in Hc as [Hn2 _].
  assert (f_id f ∉ (f_id <$> l1)) as Hn1 by (intros H; apply (Hd _ H); by left).
  rewrite <-Hg in Hn1, Hn2. unfold put_frec. rewrite fmap_app, fmap_cons. f_equal; [exact (put_frec_other g l1 Hn1)|].
  f_equal; [|exact (put_frec_other g l2 Hn2)]. unfold is_frec. by rewrite Hg, Z.eqb_refl.
Qed.

Lemma frec_unique l f g : NoDup (f_id <$> l) → f ∈ l → g ∈ l → f_id f = f_id g → f = g.
Proof.
  intros Hnd [i Hi]%list_elem_of_lookup [j Hj]%list_elem_of_lookup E.
  assert (i = j) as ->; [|congruence]. eapply NoDup_lookup; [done|by rewrite list_lookup_fmap, Hi|by rewrite list_lookup_fmap, Hj, E].
Qed.

Lemma frec_at_ok st f p : NoDup (f_id <$> frec_list st) → f ∈ frec_list st → f_id f = p → frec_at st p = Ok f.
Proof.
  intros Hnd Hf <-. unfold frec_at. destruct (find _ _) as [g|] eqn:E.
  - apply find_some in E as [Hg E]. f_equal. apply (frec_unique (frec_list st)); [done| |done|].
    + by apply list_elem_of_In.
    + unfold is_frec in E. lia.
  - apply list_elem_of_In in Hf. pose proof (find_none _ _ E f Hf) as Hn.
    unfold is_frec in Hn. lia.
Qed.

(** Replacing a record by another version of it. *)
Lemma inv_put cfg o o' st st' l1 f l2 g :
  inv cfg o st → frec_list st = l1 ++ f :: l2 → frec_list st' = l1 ++ g :: l2 → f_id g = f_id f →
  servers st' = servers st → serverarray st' = serverarray st →
  (o = None ∨ o = Some (f_id f)) →
  (sentto g = None → o' ≠ Some (f_id g) → rfds g = [] ∧ f_next g = []) →
  (in_use g → (in_use f ∧ new_id g = new_id f) ∨ ∀ h, h ∈ l1 ++ l2 → in_use h → new_id h ≠ new_id g) →
  (∀ p, sentto g = Some p → usable (servers st) (serverarray st) p) →
  socks_ok (servers st) (socks st') (rfds g ++ links (l1 ++ l2)) →
  NoDup ((f_next g).*1 ++ cells (l1 ++ l2) ++ free_frec_src st') →
  frec_src_count st' = zlen ((f_next g).*1 ++ cells (l1 ++ l2) ++ free_frec_src st') →
  frec_src_count st' ≤ Z.max 0 (ftabsize cfg) →
  (∀ p fd, srv_save st' = Some (p, fd) → is_Some (servers st !! p)) →
  inv cfg o' st'.
Proof.
  intros [] El El' Eid Es Ea Ho Hfree Hnew Hsent Hsocks Hcells Hcount Hlim Hsave.
  assert (∀ h, h ∈ l1 ++ g :: l2 → h = g ∨ (h ∈ l1 ++ l2 ∧ h ∈ frec_list st)) as Hin.
  { intros h. rewrite El, !elem_of_app, !elem_of_cons. tauto. }
  assert (∀ h, h ∈ l1 ++ l2 → f_id h ≠ f_id f) as Hne.
  { intros h Hh E. rewrite El, fmap_app, fmap_cons in fo_ids0. apply NoDup_app in fo_ids0 as (_ & Hd & Hc).
    apply NoDup_cons in Hc as [Hn _]. apply elem_of_app in Hh as [Hh|Hh].
    - apply (Hd (f_id h)); [by apply list_elem_of_fmap_2|]. rewrite E. by left.
    - apply Hn. rewrite <-E. by apply list_elem_of_fmap_2. }
  assert (f ∈ frec_list st) as Hf by (rewrite El; apply elem_of_app; right; by left).
  assert (∀ h, h ∈ l1 ++ l2 → in_use h → in_use g → new_id h = new_id g → False) as Hd.
  { intros h Hh Hu Hg E. destruct (Hnew Hg) as [[Hfu Efg]|Hx]; [|by apply (Hx h)]. apply (Hne h Hh).
    apply fo_new0; [|done|done|done|by rewrite E]. rewrite El. rewrite elem_of_app, elem_of_cons. apply elem_of_app in Hh. tauto. }
  split; rewrite ?El', ?Es, ?Ea; try done.
  - rewrite El, fmap_app, fmap_cons in fo_ids0. by rewrite fmap_app, fmap_cons, Eid.
  - intros h [->|[Hh Hh']]%Hin Hs Hox; [by apply Hfree|]. apply fo_free0; [done|done|]. specialize (Hne h Hh). destruct Ho as [->| ->]; [done|congruence].
  - intros h k [->|[Hh Hh']]%Hin [->|[Hk Hk']]%Hin Hhu Hku E; [done| | |by apply fo_new0].
    + destruct (Hd k); [done..|by rewrite E].
    + destruct (Hd h); done.
  - intros h p [->|[Hh Hh']]%Hin; [by apply Hsent|by apply fo_sent0].
  - by rewrite links_middle.
  - rewrite cells_middle. by rewrite <-app_assoc.
  - rewrite Hcount. unfold zlen. rewrite app_assoc. by rewrite cells_middle.
Qed.

(** * Releasing a record *)

Definition clear (f : frec) : frec := Frec (f_id f) (f_src f) [] None [] (new_id f) (forwardall f) 0 (f_time f) (f_hash f).

Definition same_env (st st' : forward_state) : Prop :=
  servers st' = servers st ∧ serverarray st' = serverarray st ∧ srv_save st' = srv_save st.

Lemma cells_perm_release l1 f l2 free :
  (f_next f).*1 ++ cells (l1 ++ l2) ++ free ≡ₚ cells (l1 ++ l2) ++ (f_next f).*1 ++ free.
Proof. apply Permutation_app_swap_app. Qed.

Lemma release_ok cfg o st f :
  inv cfg o st → f ∈ frec_list st → (o = None ∨ o = Some (f_id f)) →
  twp (release st f) (λ st', inv cfg None st' ∧ same_env st st' ∧ frec_list st' = put_frec (clear f) (frec_list st)).
Proof.
  intros Hi Hf Ho. destruct (frec_split _ f (fo_ids _ _ _ Hi) Hf) as (l1 & l2 & El & Hput).
  pose proof (fo_socks _ _ _ Hi) as Hs. pose proof (fo_cells _ _ _ Hi) as Hc. pose proof (fo_count _ _ _ Hi) as Hn.
  rewrite El, links_middle in Hs. rewrite El, cells_middle in Hc.
  unfold release, free_frec. apply twp_bind, twp_bind. eapply twp_mono; [by apply free_rfds_ok|]. intros s Hs'. simpl.
  fold (clear f). split; [|done]. eapply (inv_put cfg o None st _ l1 f l2 (clear f)); simpl; try done.
  - by rewrite Hput.
  - by intros [? [=]].
  - rewrite <-app_assoc in Hc. by rewrite <-cells_perm_release.
  - rewrite Hn, El. unfold zlen. rewrite cells_middle, <-app_assoc. by rewrite cells_perm_release.
  - apply (fo_limit _ _ _ Hi).
  - apply (fo_save _ _ _ Hi).
Qed.

(** * The walk of get_new_frec *)

(** A record after the walk: freed when four times the timeout old. *)
Definition collected (now : Z) (f : frec) : bool := bool_decide (in_use f) && (4 * TIMEOUT <=? now - f_time f).
Definition gc (now : Z) (f : frec) : frec := if collected now f then clear f else f.

(** A query to the group of [master] younger than the timeout. *)
Definition is_young (m : gmap Z upstream) (now master : Z) (f : frec) : bool :=
  match sentto f with
  | Some p =>
      (now - f_time f <? TIMEOUT) &&
      match m !! p, m !! master with
      | Some a, Some b => server_samegroup (up_server a) (up_server b)
      | _, _ => false
      end
  | None => false
  end.

Definition young_count (m : gmap Z upstream) (now master : Z) (l : list frec) : Z := zlen (filter (λ f, is_young m now master f = true) l).

Record walked (m : gmap Z upstream) (now master : Z) (seen : list frec) (w : walk_st) : Prop := {
  wa_target : match target w with
              | Some p => ∃ f, f ∈ seen ∧ f_id f = p ∧ sentto (gc now f) = None
              | None => ∀ f, f ∈ seen → in_use (gc now f)
              end;
  wa_oldest : match oldest w with
              | Some x => x ∈ seen ∧ in_use x ∧ gc now x = x ∧ ∀ f, f ∈ seen → in_use (gc now f) → f_time x ≤ f_time f
              | None => ∀ f, f ∈ seen → sentto (gc now f) = None
              end;
  wa_count : w_count w = young_count m now master seen }.

Lemma gc_id now f : f_id (gc now f) = f_id f.
Proof. unfold gc. by destruct (collected now f). Qed.

Lemma young_count_snoc m now master l f :
  young_count m now master (l ++ [f]) = young_count m now master l + (if is_young m now master f then 1 else 0).
Proof.
  unfold young_count. rewrite filter_app, zlen_app, filter_cons, filter_nil.
  destruct (is_young m now master f); [rewrite decide_True by done|rewrite decide_False by done]; done.
Qed.

Lemma elem_of_snoc {A} (l : list A) x y : x ∈ l ++ [y] ↔ x ∈ l ∨ x = y.
Proof. rewrite elem_of_app, list_elem_of_singleton. done. Qed.

(** What the walk does with a free record and one that is too old. *)
Lemma walked_free m now master seen w f st :
  walked m now master seen w → sentto (gc now f) = None → is_young m now master f = false →
  walked m now master (seen ++ [f]) (Walk st (oldest w) (Some (f_id f)) (w_count w)).
Proof.
  intros [Ht Hol Hc] Hf Hy. split; simpl.
  - exists f. split; [apply elem_of_snoc; by right|done].
  - destruct (oldest w) as [x|].
    + destruct Hol as (Hx & Hu & Hg & Hmin). split; [apply elem_of_snoc; by left|]. split; [done|]. split; [done|].
      intros h [Hh| ->]%elem_of_snoc Hhu; [by apply Hmin|]. destruct Hhu as [? ?]. congruence.
    + intros h [Hh| ->]%elem_of_snoc; [by apply Hol|done].
  - rewrite young_count_snoc, Hy. lia.
Qed.

(** A record that stays in use. *)
Lemma walked_in_use m now master seen w f st :
  walked m now master seen w → in_use f → gc now f = f →
  walked m now master (seen ++ [f])
    (Walk st (Some (match oldest w with None => f | Some x => if f_time f - f_time x <=? 0 then f else x end)) (target w)
       (if is_young m now master f then w_count w + 1 else w_count w)).
Proof.
  intros [Ht Hol Hc] Hf Hg. split; simpl.
  - destruct (target w) as [p|].
    + destruct Ht as (h & Hh & E). exists h. split; [apply elem_of_snoc; by left|done].
    + intros h [Hh| ->]%elem_of_snoc; [by apply Ht|by rewrite Hg].
  - destruct (oldest w) as [x|].
    + destruct Hol as (Hx & Hu & Hgx & Hmin). destruct (Z.leb_spec (f_time f - f_time x) 0) as [Hle|Hgt].
      * split; [apply elem_of_snoc; by right|]. split; [done|]. split; [done|].
        intros h [Hh| ->]%elem_of_snoc Hhu; [|done]. specialize (Hmin h Hh Hhu). lia.
      * split; [apply elem_of_snoc; by left|]. split; [done|]. split; [done|].
        intros h [Hh| ->]%elem_of_snoc Hhu; [by apply Hmin|lia].
    + split; [apply elem_of_snoc; by right|]. split; [done|]. split; [done|].
      intros h [Hh| ->]%elem_of_snoc Hhu; [|done]. specialize (Hol h Hh). destruct Hhu as [? ?]. congruence.
  - rewrite young_count_snoc, Hc. destruct (is_young m now master f); lia.
Qed.

Lemma same_env_trans a b c : same_env a b → same_env b c → same_env a c.
Proof. intros (E1 & E2 & E3) (F1 & F2 & F3). split; [congruence|]. split; congruence. Qed.

(** One of the records is put in place of the other version of it. *)
Lemma put_frec_middle l1 f l2 g : NoDup (f_id <$> l1 ++ f :: l2) → f_id g = f_id f → put_frec g (l1 ++ f :: l2) = l1 ++ g :: l2.
Proof.
  intros Hnd Hg. destruct (frec_split (l1 ++ f :: l2) f Hnd) as (k1 & k2 & E & Hput).
  { apply elem_of_app. right. by left. }
  rewrite (Hput g Hg). assert (length k1 = length l1) as Hl.
  { eapply NoDup_lookup; [exact Hnd| |].
    - rewrite E, list_lookup_fmap, list_lookup_middle by done. done.
    - rewrite list_lookup_fmap, list_lookup_middle by done. done. }
  apply app_inj_1 in E as [<- E]; [|done]. by injection E as ->.
Qed.

Lemma young_ok st now master f (Q : bool → Prop) :
  is_Some (servers st !! master) → (∀ p, sentto f = Some p → is_Some (servers st !! p)) →
  Q (is_young (servers st) now master f) → twp (young st now master f) Q.
Proof.
  intros [b Hb] Hp HQ. unfold young, is_young in *. destruct (sentto f) as [p|]; [|done].
  destruct (now - f_time f <? TIMEOUT); [|done]. unfold server_at. destruct (Hp p eq_refl) as [a Ha].
  rewrite Ha, Hb in *. done.
Qed.

Lemma old_not_young m now master f : 4 * TIMEOUT ≤ now - f_time f → is_young m now master f = false.
Proof. intros H. unfold is_young, TIMEOUT in *. destruct (sentto f); [|done]. by rewrite (proj2 (Z.ltb_ge _ _)) by lia. Qed.

Section walk.
Context (cfg : config) (now master : Z) (st0 : forward_state).
Hypothesis (Hmaster : is_Some (servers st0 !! master)).

Definition walk_inv (seen rest : list frec) (w : walk_st) : Prop :=
  inv cfg None (w_st w) ∧ same_env st0 (w_st w) ∧ frec_list (w_st w) = (gc now <$> seen) ++ rest ∧ walked (servers st0) now master seen w.

Lemma walk_frec_ok seen f rest w :
  walk_inv seen (f :: rest) w → twp (walk_frec now master w f) (walk_inv (seen ++ [f]) rest).
Proof.
  intros (Hi & He & El & Hw). pose proof He as (Es & _).
  assert (f ∈ frec_list (w_st w)) as Hf by (rewrite El; apply elem_of_app; right; by left).
  unfold walk_frec. destruct (sentto f) as [p|] eqn:Ep.
  - destruct (Z.leb_spec (4 * TIMEOUT) (now - f_time f)) as [Hold|Hnew].
    + assert (gc now f = clear f) as Eg.
      { unfold gc, collected. rewrite bool_decide_true by (by exists p). by rewrite (proj2 (Z.leb_le _ _)). }
      apply twp_bind. eapply twp_mono; [apply (release_ok cfg None (w_st w) f Hi Hf); by left|]. intros st (Hi' & He' & El'). unfold walk_inv. cbn.
      split; [done|]. split; [by eapply same_env_trans|]. split.
      * rewrite El', El, put_frec_middle by (done || (rewrite <-El; apply (fo_ids _ _ _ Hi))).
        by rewrite fmap_app, <-app_assoc, <-Eg.
      * apply walked_free; [done|by rewrite Eg|by apply old_not_young].
    + assert (gc now f = f) as Eg.
      { unfold gc, collected. by rewrite (proj2 (Z.leb_gt _ _)), andb_false_r. }
      apply twp_bind. apply young_ok; [by rewrite Es| |].
      { intros q Hq. destruct (fo_sent _ _ _ Hi f q Hf Hq) as (u & _ & _ & _ & ? & _). by exists u. }
      rewrite Es. unfold walk_inv. cbn. split; [done|]. split; [done|]. split; [by rewrite fmap_app, <-app_assoc; simpl; rewrite Eg|].
      apply walked_in_use; [done|by exists p|done].
  - assert (gc now f = f) as Eg.
    { unfold gc, collected. rewrite bool_decide_false; [done|]. intros [? ?]. congruence. }
    unfold walk_inv. cbn. split; [done|]. split; [done|]. split; [by rewrite fmap_app, <-app_assoc; simpl; rewrite Eg|].
    apply walked_free; [done|by rewrite Eg|]. unfold is_young. by rewrite Ep.
Qed.

Lemma walk_loop_ok rest seen w : walk_inv seen rest w → twp (walk_loop now master w rest) (walk_inv (seen ++ rest) []).
Proof.
  revert seen w. induction rest as [|f rest IH]; intros seen w H; [by rewrite app_nil_r|].
  cbn [walk_loop]. apply twp_bind. eapply twp_mono; [by apply walk_frec_ok|]. intros w' Hw'.
  rewrite (cons_middle f seen rest), app_assoc. by apply IH.
Qed.
End walk.

(** * The record of a new query *)

(** The record that get_new_frec gives, and when it gives none: a record is
    taken from a query only when it is older than the timeout, the list grows
    only when every record is in use and younger, and the limit on the young
    queries to the group holds. *)
Definition new_record (cfg : config) (st : forward_state) (now master : Z) (force : bool) (new : gset Z → option Z)
    (st' : forward_state) (r : option Z) : Prop :=
  let busy := ∀ f, f ∈ frec_list st → in_use f ∧ now - f_time f < TIMEOUT in
  match r with
  | Some p =>
      (∃ f, f ∈ frec_list st' ∧ f_id f = p ∧ sentto f = None ∧ f_time f = now) ∧
      (∀ g, g ∈ frec_list st' → f_id g ≠ p → ∃ f, f ∈ frec_list st ∧ g = gc now f) ∧
      (∀ f, f ∈ frec_list st → in_use f → f_id f = p → TIMEOUT ≤ now - f_time f) ∧
      (f_id <$> frec_list st' = f_id <$> frec_list st ∨ (f_id <$> frec_list st' = p :: (f_id <$> frec_list st) ∧ busy)) ∧
      (force = false → young_count (servers st) now master (frec_list st) < ftabsize cfg)
  | None =>
      frec_list st' = gc now <$> frec_list st ∧
      ((force = false ∧ ftabsize cfg ≤ young_count (servers st) now master (frec_list st)) ∨
       (busy ∧ new (list_to_set (f_id <$> frec_list st)) = None))
  end.

Lemma put_frec_ids g l : f_id <$> put_frec g l = f_id <$> l.
Proof.
  unfold put_frec. rewrite <-list_fmap_compose. apply list_fmap_ext. intros i f _. simpl.
  unfold is_frec. destruct (Z.eqb_spec (f_id f) (f_id g)); done.
Qed.

Lemma put_frec_elem g l x : x ∈ put_frec g l → x = g ∨ (x ∈ l ∧ f_id x ≠ f_id g).
Proof.
  unfold put_frec. intros (f & -> & Hf)%list_elem_of_fmap. unfold is_frec.
  destruct (Z.eqb_spec (f_id f) (f_id g)); [by left|by right].
Qed.

Lemma put_frec_in g l f : f ∈ l → f_id f = f_id g → g ∈ put_frec g l.
Proof.
  intros Hf E. unfold put_frec. apply list_elem_of_fmap. exists f. split; [|done]. unfold is_frec. by rewrite E, Z.eqb_refl.
Qed.

Lemma inv_set_time cfg st f now :
  inv cfg None st → f ∈ frec_list st → sentto f = None → inv cfg None (set_frecs st (put_frec (set_time f now) (frec_list st))).
Proof.
  intros Hi Hf Hs. destruct (frec_split _ f (fo_ids _ _ _ Hi) Hf) as (l1 & l2 & El & Hput).
  pose proof (fo_socks _ _ _ Hi) as Hso. pose proof (fo_cells _ _ _ Hi) as Hc. pose proof (fo_count _ _ _ Hi) as Hn.
  rewrite El, links_middle in Hso. rewrite El, cells_middle, <-app_assoc in Hc.
  eapply (inv_put cfg None None st _ l1 f l2 (set_time f now)); simpl; try done.
  - by apply Hput.
  - by left.
  - intros _ _. by apply (fo_free _ _ _ Hi).
  - intros [? E]. simpl in E. congruence.
  - congruence.
  - rewrite Hn, El. unfold zlen. by rewrite cells_middle, <-app_assoc.
  - apply (fo_limit _ _ _ Hi).
  - apply (fo_save _ _ _ Hi).
Qed.

Lemma inv_zero_frec cfg st p :
  inv cfg None st → (p ∉ (f_id <$> frec_list st)) → inv cfg None (set_frecs st (zero_frec p :: frec_list st)).
Proof.
  intros [] Hp. assert (∀ f, f ∈ zero_frec p :: frec_list st → in_use f → f ∈ frec_list st) as Hin.
  { intros f [->|Hf]%elem_of_cons Hu; [by destruct Hu|done]. }
  split; simpl; try done.
  - by constructor.
  - intros f [->|Hf]%elem_of_cons; [done|by apply fo_free0].
  - intros f g Hf Hg Hfu Hgu. apply fo_new0; auto.
  - intros f q Hf Hq. apply (fo_sent0 f q); [|done]. apply Hin; [done|by exists q].
Qed.

Lemma gc_in_use now f : in_use (gc now f) → gc now f = f.
Proof. unfold gc. destruct (collected now f); [|done]. intros [? E]. by simpl in E. Qed.

(** The last part: the record found is given its time. *)
Lemma finish_record cfg st st1 now p f (Q : forward_state * option Z → Prop) :
  inv cfg None st1 → same_env st st1 → f ∈ frec_list st1 → f_id f = p → sentto f = None →
  (∀ st', inv cfg None st' → same_env st st' → frec_list st' = put_frec (set_time f now) (frec_list st1) → Q (st', Some p)) →
  twp (f ← frec_at st1 p; Ok (set_frecs st1 (put_frec (set_time f now) (frec_list st1)), Some p)) Q.
Proof.
  intros Hi He Hf Hp Hs HQ. rewrite (frec_at_ok st1 f p (fo_ids _ _ _ Hi) Hf Hp). cbn. apply HQ; [|done|done].
  by apply inv_set_time.
Qed.

(** When no record is free, all are in use and none is collected. *)
Lemma walked_none m now master l w :
  walked m now master l w → target w = None → (∀ f, f ∈ l → in_use f) ∧ gc now <$> l = l.
Proof.
  intros [Ht _ _] E. rewrite E in Ht. split.
  - intros f Hf. rewrite <-(gc_in_use now f) by (by apply Ht). by apply Ht.
  - rewrite <-(list_fmap_id l) at 2. apply list_fmap_ext. intros i f Hi. apply gc_in_use, Ht. by eapply list_elem_of_lookup_2.
Qed.

(** Then all are younger than the oldest. *)
Lemma walked_busy m now master l w :
  walked m now master l w → target w = None → (∀ x, oldest w = Some x → now - f_time x < TIMEOUT) →
  ∀ f, f ∈ l → in_use f ∧ now - f_time f < TIMEOUT.
Proof.
  intros Hw Et Hx f Hf. destruct (walked_none _ _ _ _ _ Hw Et) as [Hu Eg]. split; [by apply Hu|].
  assert (in_use (gc now f)) as Hgf by (pose proof (wa_target _ _ _ _ _ Hw) as H; rewrite Et in H; by apply H).
  pose proof (wa_oldest _ _ _ _ _ Hw) as Ho. destruct (oldest w) as [x|].
  - specialize (Hx x eq_refl). destruct Ho as (_ & _ & _ & Hmin). specialize (Hmin f Hf Hgf). lia.
  - destruct Hgf as [? E]. specialize (Ho f Hf). congruence.
Qed.

Section new_frec.
Context (cfg : config) (st : forward_state) (now master : Z) (force : bool) (new : gset Z → option Z).
Hypothesis (Hi : inv cfg None st).
Hypothesis (Hmaster : is_Some (servers st !! master)).
Hypothesis (Hnew : ∀ X p, new X = Some p → p ∉ X).

Definition new_post (x : forward_state * option Z) : Prop :=
  inv cfg None x.1 ∧ same_env st x.1 ∧ new_record cfg st now master force new x.1 x.2.

Definition below_limit : Prop := force = false → young_count (servers st) now master (frec_list st) < ftabsize cfg.

(** A record of the list is given out. *)
Lemma give_record st1 p f0 f :
  inv cfg None st1 → same_env st st1 → f_id <$> frec_list st1 = f_id <$> frec_list st → below_limit →
  f ∈ frec_list st1 → f_id f = p → sentto f = None → f0 ∈ frec_list st → f_id f0 = p → (in_use f0 → TIMEOUT ≤ now - f_time f0) →
  (∀ g, g ∈ frec_list st1 → f_id g ≠ p → ∃ h, h ∈ frec_list st ∧ g = gc now h) →
  twp (f ← frec_at st1 p; Ok (set_frecs st1 (put_frec (set_time f now) (frec_list st1)), Some p)) new_post.
Proof.
  intros Hi1 He1 Eids Hlim Hf Hp Hs Hf0 Hp0 Hage Hrest.
  apply (finish_record cfg st st1 now p f); [done..|]. intros st' Hi' He' El'. split; [done|]. split; [done|]. cbn. rewrite El'.
  split; [exists (set_time f now); by split; [eapply put_frec_in|]|]. split; [|split; [|split; [|done]]].
  - intros g [->|[Hg _]]%put_frec_elem Hne; [done|by apply Hrest].
  - intros h Hh Hu Ep. rewrite (frec_unique _ h f0 (fo_ids _ _ _ Hi) Hh Hf0) in Hu |- * by congruence. by apply Hage.
  - left. by rewrite put_frec_ids.
Qed.

Lemma give_new st1 p :
  inv cfg None st1 → same_env st st1 → frec_list st1 = frec_list st → below_limit → p ∉ (f_id <$> frec_list st) →
  (∀ f, f ∈ frec_list st → in_use f ∧ now - f_time f < TIMEOUT) →
  let st1 := set_frecs st1 (zero_frec p :: frec_list st1) in
  twp (f ← frec_at st1 p; Ok (set_frecs st1 (put_frec (set_time f now) (frec_list st1)), Some p)) new_post.
Proof.
  intros Hi1 He1 El Hlim Hp Hbusy st2.
  apply (finish_record cfg st st2 now p (zero_frec p)); [apply inv_zero_frec; [done|by rewrite El]|done|by left|done|done|].
  intros st' Hi' He' El'. split; [done|]. split; [done|]. cbn. rewrite El'.
  assert (zero_frec p ∈ frec_list st2) as Hin by by left.
  split; [exists (set_time (zero_frec p) now); by split; [eapply put_frec_in|]|].
  split; [|split; [|split; [|done]]].
  - intros g [->|[[->|Hg]%elem_of_cons _]]%put_frec_elem Hne; [done|done|].
    rewrite El in Hg. exists g. split; [done|]. destruct (Hbusy g Hg) as [_ Hy]. unfold gc, collected, TIMEOUT in *.
    by rewrite (proj2 (Z.leb_gt _ _)), andb_false_r by lia.
  - intros f Hf _ E. destruct Hp. rewrite <-E. by apply list_elem_of_fmap_2.
  - right. split; [|done]. rewrite put_frec_ids. cbn. by rewrite El.
Qed.

Lemma give_grown st1 :
  inv cfg None st1 → same_env st st1 → frec_list st1 = frec_list st → gc now <$> frec_list st = frec_list st → below_limit →
  (∀ f, f ∈ frec_list st → in_use f ∧ now - f_time f < TIMEOUT) →
  twp (let '(st, t) := match new (list_to_set (f_id <$> frec_list st1)) with
                       | Some p => (set_frecs st1 (zero_frec p :: frec_list st1), Some p)
                       | None => (st1, None)
                       end in
       match t with
       | None => Ok (st, None)
       | Some p => f ← frec_at st p; Ok (set_frecs st (put_frec (set_time f now) (frec_list st)), Some p)
       end) new_post.
Proof.
  intros Hi1 He1 El1 Egc Hlim Hb. destruct (new _) as [p|] eqn:En.
  - apply (give_new st1); try done. rewrite El1 in En. apply Hnew in En. by rewrite elem_of_list_to_set in En.
  - split; [done|]. split; [done|]. split; [by cbn; rewrite Egc|]. right. split; [done|]. by rewrite <-El1.
Qed.

Lemma get_new_frec_ok : twp (get_new_frec cfg st now master force new) new_post.
Proof.
  unfold get_new_frec. apply twp_bind. eapply twp_mono.
  { apply (walk_loop_ok cfg now master st Hmaster (frec_list st) []). split; [done|]. split; [done|]. split; [done|].
    split; [by intros f ?%not_elem_of_nil|by intros f ?%not_elem_of_nil|done]. }
  intros w (Hi1 & He1 & El1 & Hw). rewrite app_nil_l in *. rewrite app_nil_r in El1.
  assert (f_id <$> frec_list (w_st w) = f_id <$> frec_list st) as Eids.
  { rewrite El1, <-list_fmap_compose. apply list_fmap_ext. intros i f _. apply gc_id. }
  destruct (negb force && (ftabsize cfg <=? w_count w)) eqn:Elim.
  { apply andb_prop in Elim as [Ef Ec]. rewrite (wa_count _ _ _ _ _ Hw) in Ec. split; [done|]. split; [done|]. split; [done|].
    left. split; [by destruct force|lia]. }
  assert (below_limit) as Hlim.
  { intros ->. rewrite (wa_count _ _ _ _ _ Hw) in Elim. simpl in Elim. lia. }
  destruct (target w) as [p|] eqn:Et.
  { cbn [mbind res_bind]. pose proof (wa_target _ _ _ _ _ Hw) as Hta. rewrite Et in Hta. destruct Hta as (f0 & Hf0 & Ep & Hs).
    apply (give_record (w_st w) p f0 (gc now f0)); try done.
    - rewrite El1. by apply list_elem_of_fmap_2.
    - by rewrite gc_id.
    - intros Hu. unfold gc, collected in Hs. rewrite bool_decide_true in Hs by done.
      destruct (Z.leb_spec (4 * TIMEOUT) (now - f_time f0)); [unfold TIMEOUT in *; lia|]. destruct Hu. simpl in Hs. congruence.
    - intros g Hg _. rewrite El1 in Hg. apply list_elem_of_fmap in Hg as (h & -> & Hh). by exists h. }
  destruct (walked_none _ _ _ _ _ Hw Et) as [Hu Egc]. rewrite Egc in El1.
  destruct (oldest w) as [x|] eqn:Eo; [destruct (Z.leb_spec TIMEOUT (now - f_time x)) as [Hold|Hyoung]|].
  - pose proof (wa_oldest _ _ _ _ _ Hw) as Hol. rewrite Eo in Hol. destruct Hol as (Hx & Hxu & _ & _).
    apply twp_bind, twp_bind. eapply twp_mono; [apply (release_ok cfg None (w_st w) x Hi1); [by rewrite El1|by left]|].
    intros st2 (Hi2 & He2 & El2). cbn [mbind res_bind]. apply (give_record st2 (f_id x) x (clear x)); try done.
    + by eapply same_env_trans.
    + by rewrite El2, put_frec_ids.
    + rewrite El2. eapply put_frec_in; [by rewrite El1|done].
    + intros g Hg Hne. rewrite El2 in Hg. apply put_frec_elem in Hg as [->|[Hg _]]; [done|]. rewrite El1 in Hg.
      exists g. split; [done|]. rewrite gc_in_use; [done|]. pose proof (wa_target _ _ _ _ _ Hw) as H. rewrite Et in H. by apply H.
  - cbn [mbind res_bind]. apply give_grown; [done..|]. eapply walked_busy; [done|done|]. intros y Hy. congruence.
  - cbn [mbind res_bind]. apply give_grown; [done..|]. eapply walked_busy; [done|done|]. congruence.
Qed.
End new_frec.
