(* ===== verification/QueriesSpec.v ===== *)
(** The table of queries on every reachable state: the operations return, the
    invariant holds; which record a new query gets, that the reply to a query
    is recognised, and which replies are. *)
From S2P Require Import Prelude Hostname NetAddr Cache DomainMatch Forward ForwardSpec Queries QueryTables QueriesInv.

(** * Sending *)

(** The socket of the server or of the query that its answer comes to. *)
Definition known (m : gmap Z upstream) (st : sockets) (fdl : list rfd_ref) (p fd : Z) : Prop :=
  (∃ u, m !! p = Some u ∧ up_sfd u = Some fd) ∨ ∃ r, r ∈ fdl ∧ link_fd st r fd.

(** What sending does not change. *)
Definition same_query (f g : frec) : Prop :=
  f_id g = f_id f ∧ f_src g = f_src f ∧ f_next g = f_next f ∧ new_id g = new_id f ∧ f_flags g = f_flags f ∧
  f_time g = f_time f ∧ f_hash g = f_hash f.

(** The number of servers that the attempts reach. *)
Definition tries (atts : list attempt) : nat := length (filter (λ a, at_result a ≠ Again) atts).

Section sending.
Context (m : gmap Z upstream) (arr : list Z) (L : list rfd_ref) (a b : nat) (f0 : frec) (save0 : option (Z * Z)).
Hypothesis (Ht : table_ok m arr).
Hypothesis (Hplain : plain m arr a b).

Record sending (w : send_st) : Prop := {
  se_socks : socks_ok m (s_socks w) (rfds (s_frec w) ++ L);
  se_same : same_query f0 (s_frec w);
  se_sent : if forwarded w
            then ∃ p i fd, sentto (s_frec w) = Some p ∧ s_save w = Some (p, fd) ∧ arr !! i = Some p ∧ (a ≤ i < b)%nat ∧
                   known m (s_socks w) (rfds (s_frec w)) p fd
            else sentto (s_frec w) = sentto f0 ∧ s_save w = save0 }.

(** A socket for one more server. *)
Lemma sending_alloc w srv k :
  sending w → system_ok k → is_Some (m !! srv) →
  twp (allocate_rfd m (s_socks w) (rfds (s_frec w)) srv k)
    (λ '(s, fdl, fd), sending (SendSt s (set_rfds (s_frec w) fdl) (s_save w) (forwarded w)) ∧ (fd = -1 ∨ known m s fdl srv fd)).
Proof.
  intros [Hs Hq Hsent] Hk Hm. pose proof (allocate_rfd_ok m (s_socks w) L (rfds (s_frec w)) srv k Hs Hk Hm) as Ha.
  apply twp_ok in Ha as ([[s fdl] fd] & E & Hs' & Hfd). rewrite E. simpl. split; [split; simpl|].
  - done.
  - done.
  - destruct (forwarded w); [|done]. destruct Hsent as (p & i & fd0 & H1 & H2 & H3 & H4 & H5). exists p, i, fd0.
    split; [done|]. split; [done|]. split; [done|]. split; [done|]. destruct H5 as [H5|(r & Hr & Hl)]; [by left|right].
    exists r. by edestruct (allocate_rfd_keeps m (s_socks w) L (rfds (s_frec w)) srv k s fdl fd r fd0).
  - destruct Hfd as [->|[Hx|(r & x & Hr & Hx & Ef)]]; [by left|right; by left|right; right]. exists r. split; [done|]. by exists x.
Qed.

Lemma send_loop_ok atts w start :
  sending w → Forall (λ x, system_ok (at_sys x)) atts → (a ≤ start < b)%nat → (b - start ≤ tries atts)%nat →
  twp (send_loop m arr b atts w start) sending.
Proof.
  revert w start. induction atts as [|x atts IH]; intros w start Hw Hk Hr Hn; [unfold tries in Hn; simpl in Hn; lia|].
  apply Forall_cons in Hk as [Hk1 Hk]. destruct (plain_group m arr Ht a b Hplain) as [Hab _].
  destruct (lookup_lt_is_Some_2 arr start) as [srv Hsrv]; [lia|]. cbn [send_loop]. rewrite Hsrv. apply twp_bind.
  eapply twp_mono; [apply sending_alloc; [done|done|by eapply arr_server]|]. intros [[s fdl] fd] [Hs Hfd].
  assert (at_result x ≠ Again ∨ fd = -1 → ∀ w', sending w' →
    twp (if (S start =? b)%nat then Ok w' else send_loop m arr b atts w' (S start)) sending) as Hnext.
  { intros Hx w' Hw'. destruct (Nat.eqb_spec (S start) b); [done|]. apply IH; [done|done|lia|].
    unfold tries in *. rewrite filter_cons in Hn. destruct (decide (at_result x ≠ Again)); simpl in Hn; lia. }
  destruct (Z.eqb_spec fd (-1)) as [->|Hne]; [apply Hnext; [by right|done]|].
  destruct Hfd as [?|Hfd]; [done|]. destruct (at_result x) eqn:Ex.
  - apply IH; [done|done|done|]. unfold tries in *. rewrite filter_cons_False in Hn by (rewrite Ex; auto). done.
  - assert (∀ g, same_query f0 g → rfds g = fdl → sentto g = Some srv → sending (SendSt s g (Some (srv, fd)) true)) as Hdone.
    { intros g Hg Eg Esg. split; simpl; [|done|].
      - rewrite Eg. exact (se_socks _ Hs).
      - exists srv, start, fd. by rewrite Eg. }
    pose proof (se_same _ Hs) as Hq. destruct (forwardall _ =? 0); [by apply Hdone|].
    apply Hnext; [by left|]. by apply Hdone.
  - apply Hnext; [by left|done].
Qed.
End sending.

(** A query that was sent, and the socket its answer comes to. *)
Definition in_flight (st : forward_state) (f g : frec) : Prop :=
  g ∈ frec_list st ∧ same_query f g ∧
  ∃ p fd, sentto g = Some p ∧ srv_save st = Some (p, fd) ∧ known (servers st) (socks st) (rfds g) p fd.

Definition sent_post (cfg : config) (st : forward_state) (f : frec) (x : forward_state * fwd_result) : Prop :=
  inv cfg None x.1 ∧ servers x.1 = servers st ∧ serverarray x.1 = serverarray st ∧ x.2 ≠ Wait ∧
  (x.2 = Forwarded → ∃ g, in_flight x.1 f g).

(** [f] is the new version of the record [f0]. *)
Lemma send_query_ok cfg st f0 f first start last atts :
  inv cfg None st → f0 ∈ frec_list st → f_id f = f_id f0 → rfds f = rfds f0 → (f_next f).*1 = (f_next f0).*1 → sentto f = sentto f0 →
  (in_use f0 → new_id f = new_id f0) → (sentto f0 = None → ∀ h, h ∈ frec_list st → in_use h → new_id h ≠ new_id f) →
  plain (servers st) (serverarray st) first last → (first ≤ start < last)%nat →
  Forall (λ x, system_ok (at_sys x)) atts → (last - first ≤ tries atts)%nat →
  twp (send_query st f first start last atts) (sent_post cfg st f).
Proof.
  intros Hi Hf0 Eid Er En Es Hnid Hfresh Hp Hr Hk Hn. unfold send_query. apply twp_bind.
  destruct (frec_split _ f0 (fo_ids _ _ _ Hi) Hf0) as (l1 & l2 & El & Hput).
  pose proof (fo_socks _ _ _ Hi) as Hso. pose proof (fo_cells _ _ _ Hi) as Hc. pose proof (fo_count _ _ _ Hi) as Hcn.
  rewrite El, links_middle in Hso. rewrite El, cells_middle, <-app_assoc in Hc.
  destruct (plain_group _ _ (fo_table _ _ _ Hi) _ _ Hp) as [Hab _].
  eapply twp_mono.
  { apply (send_loop_ok (servers st) (serverarray st) (links (l1 ++ l2)) first last f (srv_save st) (fo_table _ _ _ Hi) Hp); [|done| |].
    - split; simpl; [by rewrite Er|done|done].
    - destruct (forwardall f =? 0); lia.
    - destruct (forwardall f =? 0); lia. }
  intros w Hw. pose proof (se_same _ _ _ _ _ _ _ _ Hw) as Hq. pose proof Hq as (Qid & Qs & Qn & Qnew & _).
  pose proof (se_sent _ _ _ _ _ _ _ _ Hw) as Hsent.
  set (st1 := set_save _ _). assert (frec_list st1 = l1 ++ s_frec w :: l2) as El1 by (apply Hput; congruence).
  assert (f_next (s_frec w) = f_next f) as En' by done.
  assert (∀ h, h ∈ l1 ++ l2 → h ∈ frec_list st) as Hin.
  { intros h. rewrite El, !elem_of_app, elem_of_cons. tauto. }
  assert (inv cfg (if forwarded w then None else Some (f_id f0)) st1) as Hi1.
  { eapply (inv_put cfg None _ st st1 l1 f0 l2 (s_frec w)); try done.
    - congruence.
    - by left.
    - intros Hs Hx. destruct (forwarded w); [|congruence]. destruct Hsent as (? & _ & _ & ? & _). congruence.
    - intros _. rewrite Qnew. destruct (sentto f0) as [q|] eqn:Ef0; [left; split; [by exists q|by apply Hnid; exists q]|right].
      intros h Hh. by apply Hfresh, Hin.
    - intros p Ep. destruct (forwarded w).
      + destruct Hsent as (p' & i & fd & E1 & _ & Ei & Hri & _). assert (p' = p) as -> by congruence.
        by eapply plain_usable; [apply (fo_table _ _ _ Hi)|..].
      + destruct Hsent as [E1 _]. apply (fo_sent _ _ _ Hi f0); [done|congruence].
    - exact (se_socks _ _ _ _ _ _ _ _ Hw).
    - by rewrite En', En.
    - simpl. rewrite Hcn, El, En', En. unfold zlen. by rewrite cells_middle, <-app_assoc.
    - apply (fo_limit _ _ _ Hi).
    - intros p fd. cbn. intros Ep. destruct (forwarded w).
      + destruct Hsent as (p' & i & fd' & _ & E2 & Ei & _). assert (p' = p) as -> by congruence.
        by eapply arr_server; [apply (fo_table _ _ _ Hi)|].
      + destruct Hsent as [_ E2]. apply (fo_save _ _ _ Hi p fd). congruence. }
  assert (s_frec w ∈ frec_list st1) as Hin1 by (rewrite El1; apply elem_of_app; right; by left).
  destruct (forwarded w).
  - split; [done|]. split; [done|]. split; [done|]. split; [done|]. intros _. destruct Hsent as (p & i & fd & H1 & H2 & _ & _ & H5).
    exists (s_frec w). split; [done|]. split; [done|]. by exists p, fd.
  - apply twp_bind. eapply twp_mono; [apply (release_ok cfg (Some (f_id f0)) st1 (s_frec w) Hi1 Hin1); right; congruence|].
    intros st2 (Hi2 & (E1 & E2 & E3) & _). unfold sent_post. cbn. split; [done|]. split; [by rewrite E1|]. split; [by rewrite E2|done].
Qed.

(** * New queries and retries *)

Lemma socks_ok_servers m m' st L : (∀ p, is_Some (m !! p) → is_Some (m' !! p)) → socks_ok m st L → socks_ok m' st L.
Proof. intros Hm []. split; try done. intros i s p H1 H2 H3. eapply Hm, so_serv; done. Qed.

Lemma inv_servers cfg o st p u u' :
  inv cfg o st → servers st !! p = Some u → core u = core u' → arrayposn (up_server u') = arrayposn (up_server u) →
  (∀ a b, plain (servers st) (serverarray st) a b → serverarray st !! a = Some p →
     last_server (up_server u') = -1 ∨ Z.of_nat a ≤ last_server (up_server u') < Z.of_nat b) →
  inv cfg o (set_servers st (<[p := u']> (servers st))).
Proof.
  intros [] Hp Hc Ha Hl. assert (∀ q, is_Some (servers st !! q) → is_Some (<[p := u']> (servers st) !! q)) as Hm.
  { intros q Hq. apply lookup_insert_is_Some'. by right. }
  split; simpl; try done.
  - intros f q Hf Hq. apply (usable_update _ _ p u u'); [done..|by apply (fo_sent f)].
  - by apply (socks_ok_servers (servers st)).
  - intros q fd Hq. by eapply Hm, fo_save.
  - by apply (table_update _ _ p u u').
Qed.

Lemma get_id_ok l rands :
  (∃ r, r ∈ rands ∧ ∀ f, f ∈ l → in_use f → new_id f ≠ r) →
  twp (get_id l rands) (λ r, r ∈ rands ∧ ∀ f, f ∈ l → in_use f → new_id f ≠ r).
Proof.
  assert (∀ r, id_used l r = false ↔ ∀ f, f ∈ l → in_use f → new_id f ≠ r) as Hiff.
  { intros r. unfold id_used. rewrite <-not_true_iff_false, existsb_exists. split.
    - intros Hn f Hf Hu E. apply Hn. exists f. split; [by apply list_elem_of_In|]. rewrite bool_decide_true by done. simpl. lia.
    - intros Hall (f & Hf%list_elem_of_In & [Hu%bool_decide_eq_true E]%andb_prop). apply (Hall f Hf Hu). lia. }
  induction rands as [|r rands IH]; intros (x & Hx & Hn); [by apply not_elem_of_nil in Hx|]. cbn [get_id].
  destruct (id_used l r) eqn:E; [|split; [by left|by apply Hiff]].
  eapply twp_mono; [apply IH|intros y [Hy ?]; split; [by right|done]]. exists x. split; [|done].
  apply elem_of_cons in Hx as [->|Hx]; [|done]. apply Hiff in Hn. congruence.
Qed.

Lemma pick_start_ok cfg now u first last start all u' :
  (last_server (up_server u) = -1 ∨ Z.of_nat first ≤ last_server (up_server u) < Z.of_nat last) → (first < last)%nat →
  pick_start cfg now u first = (start, all, u') → (first ≤ start < last)%nat ∧ up_server u' = up_server u.
Proof.
  intros Hl Hr. unfold pick_start. destruct (opt_order cfg); [intros [= <- <- <-]; split; [lia|done]|].
  destruct (_ || _ || (last_server (up_server u) =? -1)) eqn:E; intros [= <- <- <-]; [split; [lia|done]|].
  apply orb_false_iff in E as [_ E]. split; [lia|done].
Qed.

(** What the caller of forward_query provides: fresh addresses and descriptors,
    enough attempts for the servers and a random number that is not in use. *)
Record inputs (st : forward_state) (first last : nat) (new : gset Z → option Z) (rands : list Z) (atts : list attempt) : Prop := {
  in_plain : plain (servers st) (serverarray st) first last;
  in_new : ∀ X p, new X = Some p → p ∉ X;
  in_rand : ∃ r, r ∈ rands ∧ ∀ f, f ∈ frec_list st → in_use f → new_id f ≠ r;
  in_sys : Forall (λ x, system_ok (at_sys x)) atts;
  in_tries : (length (serverarray st) ≤ tries atts)%nat }.

(** The client waits for the answer of a query in flight. *)
Definition asks (g : frec) (c : client) (h : list Z) : Prop :=
  f_hash g = h ∧ ∃ x, x ∈ f_src g :: (f_next g).*2 ∧ (x = c ∨ same_client c x = true).

Definition answered (st : forward_state) (g : frec) : Prop :=
  g ∈ frec_list st ∧ ∃ p fd, sentto g = Some p ∧ srv_save st = Some (p, fd) ∧ known (servers st) (socks st) (rfds g) p fd.

Definition fwd_post (cfg : config) (st : forward_state) (c : client) (h : list Z) (x : forward_state * fwd_result) : Prop :=
  inv cfg None x.1 ∧ serverarray x.1 = serverarray st ∧
  match x.2 with
  | Reply => True
  | Wait => ∃ g, g ∈ frec_list x.1 ∧ in_use g ∧ asks g c h
  | Forwarded => ∃ g, answered x.1 g ∧ asks g c h
  end.

Lemma sent_post_fwd cfg st st0 f c h x :
  sent_post cfg st f x → serverarray st = serverarray st0 → asks f c h → fwd_post cfg st0 c h x.
Proof.
  intros (Hi & _ & Ea & Hw & Hf) E (Hh & Hx). split; [done|]. split; [congruence|]. destruct x.2 eqn:Er; [done|by destruct Hw|].
  destruct (Hf eq_refl) as (g & Hg & (_ & Q1 & Q2 & _ & _ & _ & Q3) & Hp). exists g. split; [done|].
  unfold asks. rewrite Q1, Q2, Q3. done.
Qed.

Lemma forward_new_ok cfg st now hash flags extra c first last new rands atts :
  inv cfg None st → inputs st first last new rands atts →
  twp (forward_new cfg st now hash flags extra c first last new rands atts) (fwd_post cfg st c hash).
Proof.
  intros Hi [Hp Hnew (r & Hr & Hrn) Hk Htr]. unfold forward_new. pose proof (fo_table _ _ _ Hi) as Ht.
  destruct (plain_group _ _ Ht _ _ Hp) as [Hab _]. destruct (lookup_lt_is_Some_2 (serverarray st) first) as [master Hm]; [lia|].
  rewrite Hm. pose proof (arr_server _ _ Ht _ _ Hm) as Hms. apply twp_bind.
  eapply twp_mono; [by apply (get_new_frec_ok cfg st now master false new)|].
  intros [st1 [p|]] (Hi1 & (E1 & E2 & E3) & Hnr); simpl in *; [|done].
  destruct Hnr as ((f & Hf & Hid & Hs & _) & Hrest & _). apply twp_bind. rewrite (frec_at_ok st1 f p (fo_ids _ _ _ Hi1) Hf Hid). simpl.
  destruct (fo_free _ _ _ Hi1 f Hf Hs) as [Hrf Hnf]; [done|].
  apply twp_bind. eapply twp_mono; [apply get_id_ok; exists r; split; [done|]|].
  { intros g Hg Hu. destruct (decide (f_id g = p)) as [Ep|Ep].
    - rewrite (frec_unique _ g f (fo_ids _ _ _ Hi1) Hg Hf) in Hu by congruence. destruct Hu as [? ?]. congruence.
    - destruct (Hrest g Hg Ep) as (h & Hh & ->). rewrite (gc_in_use now h Hu) in Hu |- *. by apply Hrn. }
  intros id [_ Hidn]. destruct Hms as [u Hu]. unfold server_at. rewrite E1, Hu. cbn [mbind res_bind].
  destruct (pick_start cfg now u first) as [[start all] u'] eqn:Eps.
  apply (pick_start_ok cfg now u first last) in Eps as [Hst Eu]; [|by apply (ta_last _ _ Ht first last master)|lia].
  rewrite <-E1 in Hu |- *. rewrite <-E1, <-E2 in Hp.
  assert (core u = core u') as Hc by (unfold core; by rewrite Eu).
  set (st2 := set_servers st1 _). assert (inv cfg None st2) as Hi2.
  { apply (inv_servers cfg None st1 master u u'); try done; [by rewrite Eu|]. intros a b Hpl Ha. rewrite Eu.
    by apply (ta_last _ _ (fo_table _ _ _ Hi1) a b master). }
  eapply twp_mono; [apply (send_query_ok cfg st2 f); try done|].
  - simpl. by rewrite Hnf.
  - intros [? ?]. congruence.
  - by apply (plain_update _ _ master u u').
  - rewrite E2 in *. lia.
  - intros x Hx. eapply sent_post_fwd; [done|done|]. split; [done|]. exists c. split; [by left|by left].
Qed.

(** The servers a query in flight can be sent to again. *)
Lemma select_ok st p : table_ok (servers st) (serverarray st) → usable (servers st) (serverarray st) p →
  ∃ u i a b, servers st !! p = Some u ∧ arrayposn (up_server u) = Z.of_nat i ∧ select st (Z.of_nat i) = Ok (true, a, b) ∧
    plain (servers st) (serverarray st) a b ∧ (a ≤ i < b)%nat ∧ serverarray st !! i = Some p.
Proof.
  intros Ht (u & i & a & b & Hu & Hi & Hpos & Hpl & Hr). exists u, i, a, b. split; [done|]. split; [done|]. split; [|done].
  destruct (plain_group _ _ Ht a b Hpl) as [_ Hg]. destruct (Hg i Hr) as (l & El & Ef).
  unfold select. rewrite El. cbn [mbind res_bind]. by rewrite Nat2Z.id.
Qed.

Lemma forward_retry_ok cfg st f extra old_src old_reply atts c h :
  inv cfg None st → f ∈ frec_list st → in_use f → asks f c h →
  Forall (λ x, system_ok (at_sys x)) atts → (length (serverarray st) ≤ tries atts)%nat →
  twp (forward_retry cfg st f extra old_src old_reply atts) (fwd_post cfg st c h).
Proof.
  intros Hi Hf [p Hp] Hask Hk Htr. unfold forward_retry. rewrite Hp. pose proof (fo_table _ _ _ Hi) as Ht.
  destruct (select_ok st p Ht (fo_sent _ _ _ Hi f p Hf Hp)) as (u & i & a & b & Hu & Hpos & Es & Hpl & Hr & _).
  unfold server_at. rewrite Hu. cbn [mbind res_bind]. rewrite Hpos, Es, Nat2Z.id. cbn [mbind res_bind negb].
  destruct (plain_group _ _ Ht a b Hpl) as [Hab _].
  assert (∀ g start, same_query f g → rfds g = rfds f → sentto g = sentto f → (a ≤ start < b)%nat →
    twp (send_query st (set_flags g (Z.lor (Z.lor (f_flags g) FREC_TEST_PKTSZ) extra)) a start b atts) (fwd_post cfg st c h)) as Hgo.
  { intros g start (Q1 & Q2 & Q3 & Q4 & _ & _ & Q7) Er Esn Hst.
    eapply twp_mono; [apply (send_query_ok cfg st f); simpl; try done; [by rewrite Q3|congruence|lia]|].
    intros x Hx. eapply sent_post_fwd; [done|done|]. unfold asks in *. simpl. by rewrite Q2, Q3, Q7. }
  destruct (negb (opt_order cfg) && old_src); [apply Hgo; [done|done|done|lia]|].
  destruct (negb (opt_order cfg)); [apply Hgo; [done|done|done|lia]|].
  destruct (Nat.eqb_spec (S i) b); [destruct old_reply; [done|]; by apply Hgo|]. apply Hgo; [done|done|done|lia].
Qed.

(** * One more client *)

Lemma relog_next_ok c l l' : relog_next c l = Some l' → l'.*1 = l.*1 ∧ ∃ x, x ∈ l'.*2 ∧ same_client c x = true.
Proof.
  revert l'. induction l as [|[a x] l IH]; intros l'; simpl; [done|]. destruct (same_client c x) eqn:E.
  - intros [= <-]. split; [done|]. exists (relog c x). split; [by left|]. done.
  - intros (k & Hk & ->)%fmap_Some. destruct (IH k Hk) as (E1 & y & Hy & Hc). rewrite !fmap_cons. split; [by rewrite E1|].
    exists y. split; [by right|done].
Qed.

(** A record with other clients in the same cells. *)
Lemma inv_set_clients cfg st f c l :
  inv cfg None st → f ∈ frec_list st → in_use f → l.*1 = (f_next f).*1 →
  inv cfg None (set_frecs st (put_frec (set_clients f c l) (frec_list st))).
Proof.
  intros Hi Hf Hu El1. destruct (frec_split _ f (fo_ids _ _ _ Hi) Hf) as (l1 & l2 & El & Hput).
  pose proof (fo_socks _ _ _ Hi) as Hso. pose proof (fo_cells _ _ _ Hi) as Hc. pose proof (fo_count _ _ _ Hi) as Hn.
  rewrite El, links_middle in Hso. rewrite El, cells_middle, <-app_assoc in Hc.
  eapply (inv_put cfg None None st _ l1 f l2 (set_clients f c l)); simpl; try done.
  - by apply Hput.
  - by left.
  - intros E. destruct Hu as [? ?]. congruence.
  - intros _. by left.
  - intros p Hp. by apply (fo_sent _ _ _ Hi f).
  - by rewrite El1.
  - rewrite Hn, El, El1. unfold zlen. by rewrite cells_middle, <-app_assoc.
  - apply (fo_limit _ _ _ Hi).
  - apply (fo_save _ _ _ Hi).
Qed.

(** A cell from the free list. *)
Lemma inv_add_client cfg st f c a l :
  inv cfg None st → f ∈ frec_list st → in_use f → free_frec_src st = a :: l →
  inv cfg None (set_frecs (set_cells st l (frec_src_count st)) (put_frec (set_clients f (f_src f) ((a, c) :: f_next f)) (frec_list st))).
Proof.
  intros Hi Hf Hu Ea. destruct (frec_split _ f (fo_ids _ _ _ Hi) Hf) as (l1 & l2 & El & Hput).
  pose proof (fo_socks _ _ _ Hi) as Hso. pose proof (fo_cells _ _ _ Hi) as Hc. pose proof (fo_count _ _ _ Hi) as Hn.
  rewrite El, links_middle in Hso. rewrite El, cells_middle, <-app_assoc, Ea in Hc.
  assert ((f_next f).*1 ++ cells (l1 ++ l2) ++ a :: l ≡ₚ a :: (f_next f).*1 ++ cells (l1 ++ l2) ++ l) as Hp.
  { rewrite !app_assoc. symmetry. apply Permutation_middle. }
  eapply (inv_put cfg None None st _ l1 f l2 (set_clients f (f_src f) ((a, c) :: f_next f))); simpl; try done.
  - by apply Hput.
  - by left.
  - intros E. destruct Hu as [? ?]. congruence.
  - intros _. by left.
  - intros p Hpp. by apply (fo_sent _ _ _ Hi f).
  - by rewrite <-Hp.
  - rewrite Hn, El, Ea. unfold zlen. rewrite cells_middle, <-app_assoc. by rewrite Hp.
  - apply (fo_limit _ _ _ Hi).
  - apply (fo_save _ _ _ Hi).
Qed.

(** A new cell. *)
Lemma inv_new_cell cfg st a :
  inv cfg None st → free_frec_src st = [] → frec_src_count st < ftabsize cfg → (a ∉ used_cells st) →
  inv cfg None (set_cells st [a] (frec_src_count st + 1)).
Proof.
  intros [] Ea Hlt Hn. change (used_cells st) with (cells (frec_list st)) in Hn. rewrite Ea, app_nil_r in *. split; simpl; try done.
  - apply NoDup_app. split; [done|]. split; [|apply NoDup_singleton]. by intros x Hx ->%list_elem_of_singleton.
  - rewrite zlen_snoc. lia.
  - lia.
Qed.

Definition client_post (cfg : config) (st : forward_state) (f : frec) (c : client) (x : forward_state * option (frec * bool)) : Prop :=
  inv cfg None x.1 ∧ serverarray x.1 = serverarray st ∧
  match x.2 with
  | None => True
  | Some (g, _) => g ∈ frec_list x.1 ∧ in_use g ∧ asks g c (f_hash f)
  end.

Lemma add_client_ok cfg st f c new :
  inv cfg None st → f ∈ frec_list st → in_use f → (∀ X p, new X = Some p → p ∉ X) → client_post cfg st f c (add_client cfg st f c new).
Proof.
  intros Hi Hf Hu Hnew. unfold add_client. destruct (same_client c (f_src f)) eqn:E1.
  { split; [by apply inv_set_clients|]. split; [done|]. split; [by eapply put_frec_in|]. split; [done|].
    split; [done|]. exists (relog c (f_src f)). split; [by left|by right]. }
  destruct (relog_next c (f_next f)) as [l|] eqn:E2.
  { destruct (relog_next_ok c _ _ E2) as (El & x & Hx & Hc). split; [by apply inv_set_clients|]. split; [done|].
    split; [by eapply put_frec_in|]. split; [done|]. split; [done|]. exists x. split; [by right|by right]. }
  set (st1 := match free_frec_src st with [] => _ | _ :: _ => st end).
  assert (inv cfg None st1 ∧ serverarray st1 = serverarray st ∧ frec_list st1 = frec_list st) as (Hi1 & Ea & El).
  { unfold st1. destruct (free_frec_src st) as [|? ?] eqn:Ef; [|done]. destruct (Z.ltb_spec (frec_src_count st) (ftabsize cfg)); [|done].
    destruct (new _) as [a|] eqn:En; [|done]. split; [|done]. apply inv_new_cell; try done.
    apply Hnew in En. by rewrite elem_of_list_to_set in En. }
  destruct (free_frec_src st1) as [|a l] eqn:Ef; [done|]. rewrite <-El in Hf.
  split; [exact (inv_add_client cfg st1 f c a l Hi1 Hf Hu Ef)|]. split; [done|]. split; [by eapply put_frec_in|]. split; [done|]. split; [done|].
  exists c. split; [right; by left|by left].
Qed.
