(* ===== verification/QueriesReach.v ===== *)
(** Which replies are accepted, that the answer to a query reaches its client,
    and the invariant on every reachable state. *)
From S2P Require Import Prelude Hostname NetAddr Cache DomainMatch Forward ForwardSpec Queries QueryTables QueriesInv QueriesSpec.

(** * Finding the query of a reply *)

(** The servers of a query in flight, as positions in the array. *)
Definition in_range (st : forward_state) (f : frec) (i : nat) : Prop :=
  ∃ p u a b, sentto f = Some p ∧ servers st !! p = Some u ∧ select st (arrayposn (up_server u)) = Ok (true, a, b) ∧ (a ≤ i < b)%nat.

(** The query was sent from the socket: it is one of its own, or the socket of a
    server of its group. *)
Definition sent_from (st : forward_state) (f : frec) (fd : Z) : Prop :=
  (∃ r, r ∈ rfds f ∧ link_fd (socks st) r fd) ∨
  (∃ i p u, in_range st f i ∧ serverarray st !! i = Some p ∧ servers st !! p = Some u ∧ up_sfd u = Some fd).

Definition expects (st : forward_state) (id fd : Z) (h : list Z) (f : frec) : Prop :=
  f ∈ frec_list st ∧ in_use f ∧ new_id f = id ∧ f_hash f = h ∧ sent_from st f fd.

Lemma any_fd_ok m st L fd fdl :
  socks_ok m st L → fdl ⊆ L → twp (any_fd st fd fdl) (λ b, b = true ↔ ∃ r, r ∈ fdl ∧ link_fd st r fd).
Proof.
  intros H. induction fdl as [|r fdl IH]; intros Hs.
  { split; [done|]. by intros (r & ?%not_elem_of_nil & _). }
  cbn [any_fd]. apply twp_bind. apply (ref_rfd_ok m st L); [done|apply Hs; by left|]. intros s Es _ _.
  destruct (Z.eqb_spec (rf_fd s) fd) as [E|E].
  { split; [|done]. intros _. exists r. split; [by left|by exists s]. }
  eapply twp_mono; [apply IH; intros x Hx; apply Hs; by right|]. intros b Hb. rewrite Hb. split.
  - intros (x & Hx & Hl). exists x. split; [by right|done].
  - intros (x & [->|Hx]%elem_of_cons & (s' & Es' & Hl)); [congruence|]. exists x. split; [done|by exists s'].
Qed.

Lemma sfd_match_ok m arr fd n first :
  (∀ i p, arr !! i = Some p → is_Some (m !! p)) → (first + n ≤ length arr)%nat →
  twp (sfd_match m arr fd first n)
    (λ b, b = true ↔ ∃ i p u, (first ≤ i < first + n)%nat ∧ arr !! i = Some p ∧ m !! p = Some u ∧ up_sfd u = Some fd).
Proof.
  intros Hm. revert first. induction n as [|n IH]; intros first Hl; [split; [done|]; intros (i & _ & _ & ? & _); lia|].
  destruct (lookup_lt_is_Some_2 arr first) as [p Hp]; [lia|]. destruct (Hm first p Hp) as [u Hu].
  cbn [sfd_match]. rewrite Hp. unfold server_at. rewrite Hu. cbn [mbind res_bind].
  destruct (decide (up_sfd u = Some fd)) as [E|E].
  { rewrite bool_decide_true by done. split; [|done]. intros _. exists first, p, u. split; [lia|done]. }
  rewrite bool_decide_false by done. eapply twp_mono; [apply IH; lia|]. intros b Hb. rewrite Hb. split.
  - intros (i & q & v & Hi & Hq). exists i, q, v. split; [lia|done].
  - intros (i & q & v & Hi & Hq & Hv & Hs). exists i, q, v. split; [|done].
    destruct (decide (i = first)) as [->|]; [congruence|lia].
Qed.

(** The range of a query in flight. *)
Lemma range_select cfg st f p :
  inv cfg None st → f ∈ frec_list st → sentto f = Some p →
  ∃ u a b, servers st !! p = Some u ∧ select st (arrayposn (up_server u)) = Ok (true, a, b) ∧
    plain (servers st) (serverarray st) a b ∧ (a < b ≤ length (serverarray st))%nat ∧ (∀ i, in_range st f i ↔ (a ≤ i < b)%nat) ∧
    ∃ i, (a ≤ i < b)%nat ∧ serverarray st !! i = Some p.
Proof.
  intros Hi Hf Hp. pose proof (fo_table _ _ _ Hi) as Ht.
  destruct (select_ok st p Ht (fo_sent _ _ _ Hi f p Hf Hp)) as (u & i & a & b & Hu & Hpos & Es & Hpl & Hr & Hip).
  exists u, a, b. rewrite Hpos. split; [done|]. split; [done|]. split; [done|].
  split; [by destruct (plain_group _ _ Ht a b Hpl)|]. split; [|by exists i]. intros j. split.
  - intros (q & v & a' & b' & Eq & Hv & Es' & Hj). rewrite Hp in Eq. injection Eq as <-. rewrite Hu in Hv. injection Hv as <-.
    rewrite Hpos, Es in Es'. by injection Es' as <- <-.
  - intros Hj. exists p, u, a, b. by rewrite Hpos.
Qed.

Definition lookup_post (st : forward_state) (id fd : Z) (h : list Z) (l : list frec) (r : option (frec * nat * nat)) : Prop :=
  match r with
  | Some (f, a, b) => f ∈ l ∧ expects st id fd h f ∧ plain (servers st) (serverarray st) a b ∧ ∀ i, in_range st f i ↔ (a ≤ i < b)%nat
  | None => ∀ f, f ∈ l → ¬ expects st id fd h f
  end.

Lemma lookup_post_skip st id fd h f l r : ¬ expects st id fd h f → lookup_post st id fd h l r → lookup_post st id fd h (f :: l) r.
Proof.
  intros Hn. destruct r as [[[g a] b]|]; simpl.
  - intros (Hg & H). split; [by right|done].
  - intros H x [->|Hx]%elem_of_cons; [done|by apply H].
Qed.

Lemma lookup_frec_ok cfg st id fd h :
  inv cfg None st → twp (lookup_frec st id fd (Some h)) (lookup_post st id fd h (frec_list st)).
Proof.
  intros Hi. unfold lookup_frec. assert (∀ l, l ⊆ frec_list st → twp (lookup_frec_loop st id fd h l) (lookup_post st id fd h l)) as H.
  2: { by apply H. }
  induction l as [|f l IH]; intros Hl; [by intros f ?%not_elem_of_nil|].
  assert (f ∈ frec_list st) as Hf by (apply Hl; by left). specialize (IH ltac:(intros x Hx; apply Hl; by right)).
  assert (¬ expects st id fd h f → twp (lookup_frec_loop st id fd h l) (lookup_post st id fd h (f :: l))) as Hskip.
  { intros Hn. eapply twp_mono; [exact IH|]. intros r. by apply lookup_post_skip. }
  cbn [lookup_frec_loop]. destruct (sentto f) as [p|] eqn:Ep.
  2: { apply Hskip. intros (_ & [? ?] & _). congruence. }
  destruct (Z.eqb_spec (new_id f) id) as [En|En]; [|apply Hskip; by intros (_ & _ & ? & _)].
  destruct (decide (f_hash f = h)) as [Eh|Eh]; [rewrite bool_decide_true by done|rewrite bool_decide_false by done; apply Hskip; by intros (_ & _ & _ & ? & _)].
  destruct (range_select cfg st f p Hi Hf Ep) as (u & a & b & Hu & Es & Hpl & Hab & Hrange & _).
  cbn [andb]. unfold server_at. rewrite Hu. cbn [mbind res_bind]. rewrite Es. cbn [mbind res_bind].
  assert (sent_from st f fd → lookup_post st id fd h (f :: l) (Some (f, a, b))) as Hyes.
  { intros Hs. split; [by left|]. split; [|done]. split; [done|]. split; [by exists p|done]. }
  apply twp_bind. eapply twp_mono.
  { apply (any_fd_ok (servers st) (socks st) (links (frec_list st))); [apply (fo_socks _ _ _ Hi)|].
    intros r Hr. unfold links. apply list_elem_of_In, in_concat. exists (rfds f). split; [|by apply list_elem_of_In].
    apply list_elem_of_In, list_elem_of_fmap. by exists f. }
  intros [] Hb; [apply Hyes; left; by apply Hb|]. apply twp_bind.
  eapply twp_mono; [apply sfd_match_ok; [intros i q; by apply arr_server, (fo_table _ _ _ Hi)|lia]|].
  replace (a + (b - a))%nat with b by lia. intros [] Hc.
  - apply Hyes. right. destruct (proj1 Hc eq_refl) as (i & q & v & Hr & Hq). exists i, q, v. split; [by apply Hrange|done].
  - apply Hskip. intros (_ & _ & _ & _ & [Hr|(i & q & v & Hr & Hq)]); [by apply Hb in Hr|].
    apply Hrange in Hr. assert (false = true); [|done]. apply Hc. by exists i, q, v.
Qed.

(** * Accepting a reply *)

Definition from_server (st : forward_state) (f : frec) (from : mysockaddr) (server : Z) : Prop :=
  ∃ i u, in_range st f i ∧ serverarray st !! i = Some server ∧ servers st !! server = Some u ∧ sockaddr_isequal (up_addr u) from = true.

Lemma reply_from_ok m arr from n c :
  (∀ i p, arr !! i = Some p → is_Some (m !! p)) → (c + n ≤ length arr)%nat →
  twp (reply_from m arr from c n) (λ r,
    match r with
    | Some i => (c ≤ i < c + n)%nat ∧ ∃ p u, arr !! i = Some p ∧ m !! p = Some u ∧ sockaddr_isequal (up_addr u) from = true
    | None => ∀ i p u, (c ≤ i < c + n)%nat → arr !! i = Some p → m !! p = Some u → sockaddr_isequal (up_addr u) from = false
    end).
Proof.
  intros Hm. revert c. induction n as [|n IH]; intros c Hl; [intros i p u Hi; lia|].
  destruct (lookup_lt_is_Some_2 arr c) as [p Hp]; [lia|]. destruct (Hm c p Hp) as [u Hu].
  cbn [reply_from]. rewrite Hp. unfold server_at. rewrite Hu. cbn [mbind res_bind].
  destruct (sockaddr_isequal (up_addr u) from) eqn:E; [split; [lia|]; by exists p, u|].
  eapply twp_mono; [apply IH; lia|]. intros [i|]; [intros [Hr Hx]; split; [lia|done]|].
  intros H i q v Hi Hq Hv. destruct (decide (i = c)) as [->|Hne]; [congruence|]. apply (H i q v); [lia|done|done].
Qed.

Lemma inv_save cfg o st s : inv cfg o st → (∀ p fd, s = Some (p, fd) → is_Some (servers st !! p)) → inv cfg o (set_save st s).
Proof. intros [] Hs. by split. Qed.

(** Two queries in flight with one identifier are one. *)
Lemma expects_unique cfg st id fd fd' h h' f g : inv cfg None st → expects st id fd h f → expects st id fd' h' g → f = g.
Proof.
  intros Hi (Hf & Hfu & Ef & _) (Hg & Hgu & Eg & _). apply (frec_unique (frec_list st)); [apply (fo_ids _ _ _ Hi)|done|done|].
  apply (fo_new _ _ _ Hi); [done..|congruence].
Qed.

(** The group of a query remembers which of its servers answered. *)
Lemma inv_last_server cfg st a b p u n :
  inv cfg None st → plain (servers st) (serverarray st) a b → serverarray st !! a = Some p → servers st !! p = Some u →
  (n = -1 ∨ n = last_server (up_server u) ∨ Z.of_nat a ≤ n < Z.of_nat b) →
  inv cfg None (set_servers st (<[p := set_last_server u n]> (servers st))).
Proof.
  intros Hi Hpl Hp Hu Hn. pose proof (fo_table _ _ _ Hi) as Ht. apply (inv_servers cfg None st p u); [done..|]. simpl. intros a' b' Hpl' Ha'.
  assert (a' = a) as -> by (eapply NoDup_lookup; [apply (ta_nodup _ _ Ht)|done|done]).
  rewrite (plain_end _ _ Ht a b' b Hpl' Hpl). destruct Hn as [->|[->|Hn]]; [by left| |by right]. by apply (ta_last _ _ Ht a b p u).
Qed.

Definition accept_post (cfg : config) (st : forward_state) (fd : Z) (from : mysockaddr) (id : Z) (h : list Z)
    (x : forward_state * option (frec * Z)) : Prop :=
  inv cfg None x.1 ∧ frec_list x.1 = frec_list st ∧ serverarray x.1 = serverarray st ∧
  match x.2 with
  | Some (f, server) => expects st id fd h f ∧ from_server st f from server ∧ usable (servers x.1) (serverarray x.1) server
  | None => ∀ f server, expects st id fd h f → ¬ from_server st f from server
  end.

Lemma accept_reply_ok cfg st fd from id h rcode :
  inv cfg None st → twp (accept_reply st fd from id (Some h) rcode) (accept_post cfg st fd from id h).
Proof.
  intros Hi. unfold accept_reply. set (st0 := set_save st None).
  assert (inv cfg None st0) as Hi0 by (by apply inv_save). apply twp_bind.
  eapply twp_mono; [by apply (lookup_frec_ok cfg)|]. intros [[[f a] b]|].
  2: { intros Hn. split; [done|]. split; [done|]. split; [done|]. intros f server Hf. destruct (Hn f); [apply Hf|done]. }
  intros (Hf & He & Hpl & Hr). pose proof (fo_table _ _ _ Hi0) as Ht. destruct (plain_group _ _ Ht a b Hpl) as [Hab _].
  apply twp_bind. eapply twp_mono; [apply reply_from_ok; [intros i p; by apply arr_server|lia]|].
  replace (a + (b - a))%nat with b by lia. intros [c|].
  - intros (Hc & server & v & Hs & Hv & Heq). destruct (lookup_lt_is_Some_2 (serverarray st0) a) as [master Hm]; [lia|].
    rewrite Hs, Hm. unfold server_at. destruct (arr_server _ _ Ht a master Hm) as [u Hu]. rewrite Hu. cbn [mbind res_bind].
    split; [|split; [done|]; split; [done|]; split; [done|]; split].
    + apply (inv_last_server cfg st0 a b); try done. destruct (negb _); [right; right; lia|]. destruct (_ =? _); [by left|right; by left].
    + exists c, v. split; [by apply Hr|done].
    + cbn. eapply usable_update; [done|done|done|]. by eapply plain_usable.
  - intros Hn. split; [done|]. split; [done|]. split; [done|]. intros g server Hg (i & v & Hri & Hs & Hv & Heq).
    assert (g = f) as -> by (by eapply (expects_unique cfg st)). apply Hr in Hri. rewrite (Hn i server v) in Heq; done.
Qed.

(** * Replies to clients *)

Definition reply_post (cfg : config) (st : forward_state) (x : forward_state * reply_result) : Prop :=
  inv cfg None x.1 ∧ serverarray x.1 = serverarray st.

(** A record with another count of replies, or sent elsewhere. *)
Lemma inv_put_sentto cfg st f g :
  inv cfg None st → f ∈ frec_list st → in_use f → same_query f g → rfds g = rfds f →
  (∀ p, sentto g = Some p → usable (servers st) (serverarray st) p) → in_use g →
  inv cfg None (set_frecs st (put_frec g (frec_list st))).
Proof.
  intros Hi Hf Hu (Q1 & Q2 & Q3 & Q4 & _) Er Hus Hgu. destruct (frec_split _ f (fo_ids _ _ _ Hi) Hf) as (l1 & l2 & El & Hput).
  pose proof (fo_socks _ _ _ Hi) as Hso. pose proof (fo_cells _ _ _ Hi) as Hc. pose proof (fo_count _ _ _ Hi) as Hn.
  rewrite El, links_middle in Hso. rewrite El, cells_middle, <-app_assoc in Hc.
  eapply (inv_put cfg None None st _ l1 f l2 g); simpl; try done.
  - by apply Hput.
  - by left.
  - intros E. destruct Hgu as [? ?]. congruence.
  - intros _. by left.
  - by rewrite Er.
  - by rewrite Q3.
  - rewrite Hn, El, Q3. unfold zlen. by rewrite cells_middle, <-app_assoc.
  - apply (fo_limit _ _ _ Hi).
  - apply (fo_save _ _ _ Hi).
Qed.

Definition clients (f : frec) : list client := f_src f :: (f_next f).*2.

(** What becomes of a reply: it is delivered only to the clients of the query it
    answers. *)
Definition delivered_ok (st : forward_state) (fd : Z) (from : mysockaddr) (id : Z) (h : option (list Z)) (some : bool) (r : reply_result) : Prop :=
  match r with
  | Delivered l => ∃ f server h', h = Some h' ∧ expects st id fd h' f ∧ from_server st f from server ∧ l = (if some then clients f else [])
  | _ => True
  end.

Lemma deliver_ok cfg st f g server some :
  inv cfg None st → f ∈ frec_list st → in_use f → same_query f g → rfds g = rfds f → sentto g = Some server →
  usable (servers st) (serverarray st) server →
  twp (return_reply (set_frecs st (put_frec g (frec_list st))) g some)
    (λ x, inv cfg None x.1 ∧ serverarray x.1 = serverarray st ∧ x.2 = Delivered (if some then clients f else [])).
Proof.
  intros Hi Hf Hu Hq Er Es Hus. unfold return_reply. apply twp_bind. eapply twp_mono.
  { apply (release_ok cfg None); [|by eapply put_frec_in; [|symmetry; apply Hq]|by left].
    eapply inv_put_sentto; try done; [|by exists server]. intros p Hp. rewrite Es in Hp. by injection Hp as <-. }
  intros st' (Hi' & (_ & E & _) & _). destruct Hq as (_ & Q2 & Q3 & _). split; [done|]. split; [done|]. simpl. by rewrite Q2, Q3.
Qed.

Lemma reply_query_ok cfg st now fd from id hash rcode ignored resend some extra atts :
  inv cfg None st → Forall (λ x, system_ok (at_sys x)) atts → (length (serverarray st) ≤ tries atts)%nat →
  twp (reply_query cfg st now fd from id hash rcode ignored resend some extra atts)
    (λ x, inv cfg None x.1 ∧ serverarray x.1 = serverarray st ∧ delivered_ok st fd from id hash some x.2).
Proof.
  intros Hi Hk Htr. unfold reply_query. destruct hash as [h|].
  2: { simpl. split; [by apply inv_save|done]. }
  apply twp_bind. eapply twp_mono; [by apply (accept_reply_ok cfg)|].
  intros [st1 [[f server]|]] (Hi1 & El & Ea & Hacc); cbn [fst snd] in *; [|done].
  destruct Hacc as (He & Hfrom & Hus). pose proof He as (Hf & Hu & _). rewrite <-El in Hf.
  destruct ignored; [done|].
  assert (∀ g, same_query f g → rfds g = rfds f → sentto g = Some server →
    twp (return_reply (set_frecs st1 (put_frec g (frec_list st1))) g some)
      (λ x, inv cfg None x.1 ∧ serverarray x.1 = serverarray st ∧ delivered_ok st fd from id (Some h) some x.2)) as Hdel.
  { intros g Hq Er Esg. eapply twp_mono; [by apply (deliver_ok cfg st1 f g server)|].
    intros [st2 r] (Hi2 & E2 & Er2). cbn [fst snd] in *. split; [done|]. split; [congruence|]. rewrite Er2. by exists f, server, h. }
  destruct (_ && _ && _ && resend).
  - apply twp_bind. eapply twp_mono.
    { eapply (forward_retry_ok cfg st1 f extra true true atts (f_src f) (f_hash f)); try done; [|by rewrite Ea].
      split; [done|]. exists (f_src f). split; [by left|by left]. }
    intros [st2 r] (Hi2 & Ea2 & _). simpl in *. split; [done|]. split; [congruence|done].
  - destruct (forwardall f =? 0) eqn:E0.
    + rewrite (proj2 (Z.ltb_ge 1 (forwardall f))) by lia. by apply Hdel.
    + destruct ((1 <? _) && _); [|by apply Hdel]. split; [|done].
      eapply inv_put_sentto; try done. intros p Hp. by apply (fo_sent _ _ _ Hi1 f).
Qed.

(** * Queries of clients *)

Lemma forward_query_ok cfg st now hash flags extra c first last new new_src rands atts :
  inv cfg None st → inputs st first last new rands atts → (∀ X p, new_src X = Some p → p ∉ X) →
  twp (forward_query cfg st now hash flags extra c first last None new new_src rands atts)
    (λ x, inv cfg None x.1 ∧ serverarray x.1 = serverarray st ∧
          match hash with Some h => fwd_post cfg st c h x | None => x.2 = Reply end).
Proof.
  intros Hi Hin Hns. unfold forward_query. destruct hash as [h|]; [|done].
  assert (∀ m, twp m (fwd_post cfg st c h) →
    twp m (λ x, inv cfg None x.1 ∧ serverarray x.1 = serverarray st ∧ fwd_post cfg st c h x)) as Hpost.
  { intros m Hm. eapply twp_mono; [exact Hm|]. intros x Hx. by split; [apply Hx|split; [apply Hx|]]. }
  apply Hpost. destruct (lookup_frec_by_query st (Some h) flags retry_mask) as [f|] eqn:E; [|by apply forward_new_ok].
  simpl in E. apply find_some in E as [Hf%list_elem_of_In [[Hu%bool_decide_eq_true _]%andb_prop Eh%bool_decide_eq_true]%andb_prop].
  pose proof (add_client_ok cfg st f c new_src Hi Hf Hu Hns) as Ha.
  destruct (add_client cfg st f c new_src) as [st1 [[g b]|]]; destruct Ha as (Hi1 & Ea & Hg); [|done].
  destruct Hg as (Hg & Hgu & Hask). simpl in Ea, Hi1. rewrite Eh in Hask. destruct Hin.
  assert (∀ b1 b2, twp (forward_retry cfg st1 g extra b1 b2 atts) (fwd_post cfg st c h)) as Hre.
  { intros b1 b2. eapply twp_mono; [apply (forward_retry_ok cfg st1 g extra b1 b2 atts c h); try done; by rewrite Ea|].
    intros x (H1 & H2 & H3). split; [done|]. split; [congruence|done]. }
  destruct b; [apply Hre|]. destruct (now - f_time g <? 2); [|apply Hre]. split; [done|]. split; [done|]. by exists g.
Qed.

(** * A server goes away *)

(** Nothing refers to the server. *)
Definition unreferenced (st : forward_state) (server : Z) : Prop :=
  (∀ f, f ∈ frec_list st → sentto f ≠ Some server) ∧
  (∀ i s, randomsocks (socks st) !! i = Some s → refcount s ≠ 0 → rf_serv s ≠ Some server) ∧
  (∀ fd, srv_save st ≠ Some (server, fd)).

Definition dropped (server : Z) (f : frec) : frec := if decide (sentto f = Some server) then clear f else f.

Lemma gone_loop_ok cfg server st0 rest seen st :
  inv cfg None st → same_env st0 st → frec_list st = (dropped server <$> seen) ++ rest →
  twp (gone_loop server st rest) (λ st', inv cfg None st' ∧ same_env st0 st' ∧ frec_list st' = dropped server <$> seen ++ rest).
Proof.
  revert seen st. induction rest as [|f rest IH]; intros seen st Hi He El; [by rewrite app_nil_r in *|].
  cbn [gone_loop]. apply twp_bind. rewrite (cons_middle f seen rest), app_assoc.
  destruct (decide (sentto f = Some server)) as [E|E].
  - rewrite bool_decide_true by done. eapply twp_mono.
    { apply (release_ok cfg None st f Hi); [|by left]. rewrite El. apply elem_of_app. right. by left. }
    intros st' (Hi' & He' & El'). apply IH; [done|by eapply same_env_trans|].
    rewrite El', El, put_frec_middle by (done || (rewrite <-El; apply (fo_ids _ _ _ Hi))).
    rewrite fmap_app, <-app_assoc. simpl. unfold dropped at 3. by rewrite decide_True.
  - rewrite bool_decide_false by done. apply IH; [done|done|]. rewrite El, fmap_app, <-app_assoc. simpl. unfold dropped at 3. by rewrite decide_False.
Qed.

Lemma forget_ok m server st L : socks_ok m st L → socks_ok m (set_socks st (forget_serv server <$> randomsocks st)) L.
Proof.
  assert (∀ s, refcount (forget_serv server s) = refcount s ∧ rf_fd (forget_serv server s) = rf_fd s) as Hs.
  { intros s. unfold forget_serv. by destruct (negb _ && _). }
  assert (∀ l : list randfd, omap slot_fd (forget_serv server <$> l) = omap slot_fd l) as Ho.
  { induction l as [|s l IH]; [done|]. assert (slot_fd (forget_serv server s) = slot_fd s) as Es.
    { unfold slot_fd. by destruct (Hs s) as [-> ->]. }
    simpl. rewrite Es. destruct (slot_fd s); [f_equal|]; exact IH. }
  intros []. split; simpl; try done.
  - intros i s Hi. rewrite list_lookup_fmap in Hi. apply fmap_Some in Hi as (x & Hx & ->). rewrite (proj1 (Hs x)). by apply so_count.
  - intros i. rewrite length_fmap. apply so_slots.
  - unfold pool_fds. simpl. by rewrite Ho.
  - intros i s p Hi. rewrite list_lookup_fmap in Hi. apply fmap_Some in Hi as (x & Hx & ->). rewrite (proj1 (Hs x)).
    intros H0 Hp. unfold forget_serv in Hp. apply (so_serv i x p); [done|done|]. by destruct (negb _ && _).
Qed.

Lemma server_gone_ok cfg st server :
  inv cfg None st →
  twp (server_gone st server) (λ st', inv cfg None st' ∧ servers st' = servers st ∧ serverarray st' = serverarray st ∧
    frec_list st' = dropped server <$> frec_list st ∧ unreferenced st' server).
Proof.
  intros Hi. unfold server_gone. apply twp_bind. eapply twp_mono; [by apply (gone_loop_ok cfg server st (frec_list st) [])|].
  intros st1 (Hi1 & (E1 & E2 & E3) & El). rewrite app_nil_l in El.
  set (st2 := set_pool st1 _). assert (inv cfg None st2) as Hi2.
  { destruct Hi1. split; simpl; try done. by apply forget_ok. }
  assert (∀ f, f ∈ frec_list st1 → sentto f ≠ Some server) as Hf.
  { intros f. rewrite El. intros (g & -> & _)%list_elem_of_fmap. unfold dropped. by destruct (decide _). }
  assert (∀ i s, randomsocks (socks st2) !! i = Some s → refcount s ≠ 0 → rf_serv s ≠ Some server) as Hr.
  { intros i s Hs H0. simpl in Hs. rewrite list_lookup_fmap in Hs. apply fmap_Some in Hs as (x & Hx & ->). unfold forget_serv in *.
    destruct (Z.eqb_spec (refcount x) 0) as [E|E]; [done|]. simpl in *. by destruct (bool_decide_reflect (rf_serv x = Some server)). }
  destruct (srv_save st2) as [[s fd]|] eqn:Es; [destruct (Z.eqb_spec s server) as [->|Hne]|]; simpl.
  - split; [by apply inv_save|]. done.
  - split; [done|]. split; [done|]. split; [done|]. split; [done|]. split; [done|]. split; [done|]. intros fd'. congruence.
  - split; [done|]. split; [done|]. split; [done|]. split; [done|]. split; [done|]. split; [done|]. intros fd'. congruence.
Qed.

(** The tables are rebuilt without the server. *)
Definition rebuild (st : forward_state) (m : gmap Z upstream) (arr : list Z) : forward_state :=
  Fwd m arr (frec_list st) (free_frec_src st) (frec_src_count st) (socks st) (srv_save st).

Record rebuilt (st : forward_state) (server : Z) (m : gmap Z upstream) (arr : list Z) : Prop := {
  re_keep : ∀ p, is_Some (servers st !! p) → p ≠ server → is_Some (m !! p);
  re_table : table_ok m arr;
  re_used : ∀ f p, f ∈ frec_list st → sentto f = Some p → usable m arr p }.

Lemma rebuild_ok cfg st server m arr : inv cfg None st → unreferenced st server → rebuilt st server m arr → inv cfg None (rebuild st m arr).
Proof.
  intros [] (_ & Hu2 & Hu3) [Hk Ht Hus]. split; simpl; try done.
  - destruct fo_socks. split; try done. intros i s p Hi H0 Hp. apply Hk; [by apply (so_serv i s)|].
    intros ->. by apply (Hu2 i s).
  - intros p fd Hp. apply Hk; [by eapply fo_save|]. intros ->. by apply (Hu3 fd).
Qed.

(** * Every reachable state *)

(** At startup: no queries, [n] slots for sockets. *)
Definition initial (m : gmap Z upstream) (arr : list Z) (n : nat) : forward_state :=
  Fwd m arr [] [] 0 (Sockets (replicate n (Randfd None 0 0)) ∅ [] 0 0 ∅) None.

Definition fresh (new : gset Z → option Z) : Prop := ∀ X p, new X = Some p → p ∉ X.

(** Attempts enough for all servers, from a system that gives what is not in
    use. *)
Definition enough (st : forward_state) (atts : list attempt) : Prop :=
  Forall (λ x, system_ok (at_sys x)) atts ∧ (length (serverarray st) ≤ tries atts)%nat.

Inductive reachable (cfg : config) : forward_state → Prop :=
| R_start m arr n : table_ok m arr → reachable cfg (initial m arr n)
| R_query st now hash flags extra c first last new new_src rands atts st' r :
    reachable cfg st → inputs st first last new rands atts → fresh new_src →
    forward_query cfg st now hash flags extra c first last None new new_src rands atts = Ok (st', r) → reachable cfg st'
| R_reply st now fd from id hash rcode ignored resend some extra atts st' r :
    reachable cfg st → enough st atts →
    reply_query cfg st now fd from id hash rcode ignored resend some extra atts = Ok (st', r) → reachable cfg st'
| R_gone st server st' m arr :
    reachable cfg st → server_gone st server = Ok st' → rebuilt st' server m arr → reachable cfg (rebuild st' m arr).

Lemma initial_ok cfg m arr n : table_ok m arr → inv cfg None (initial m arr n).
Proof.
  intros Ht. split; simpl; try done; try (by constructor); try (by intros f ?%not_elem_of_nil); try (by intros f g ?%not_elem_of_nil); [|lia].
  split; simpl; try done.
  - intros i s Hs. apply lookup_replicate in Hs as [-> _]. done.
  - by intros i ?%not_elem_of_nil.
  - unfold pool_fds. simpl. rewrite elements_empty, map_to_list_empty. by induction n.
  - intros i s p Hs. by apply lookup_replicate in Hs as [-> _].
Qed.

Lemma reachable_inv cfg st : reachable cfg st → inv cfg None st.
Proof.
  induction 1 as [m arr n Ht|st now hash flags extra c first last new new_src rands atts st' r _ IH Hin Hns E
    |st now fd from id hash rcode ignored resend some extra atts st' r _ IH [He1 He2] E|st server st' m arr _ IH E Hr].
  - by apply initial_ok.
  - pose proof (forward_query_ok cfg st now hash flags extra c first last new new_src rands atts IH Hin Hns) as H.
    rewrite E in H. apply H.
  - pose proof (reply_query_ok cfg st now fd from id hash rcode ignored resend some extra atts IH He1 He2) as H.
    rewrite E in H. apply H.
  - pose proof (server_gone_ok cfg st server IH) as H. rewrite E in H. destruct H as (Hi & _ & _ & _ & Hu). by eapply rebuild_ok.
Qed.

(** The reply a query waits for is delivered. *)
Lemma reply_delivered cfg st now fd from id h rcode resend extra atts f server :
  inv cfg None st → expects st id fd h f → from_server st f from server → rcode ≠ RCODE_REFUSED → rcode ≠ RCODE_SERVFAIL →
  ∃ st', reply_query cfg st now fd from id (Some h) rcode false resend true extra atts = Ok (st', Delivered (clients f)).
Proof.
  intros Hi He Hfrom Hr1 Hr2. unfold reply_query. pose proof (accept_reply_ok cfg st fd from id h rcode Hi) as Ha.
  apply twp_ok in Ha as ([st1 r] & -> & Hi1 & El & Ea & Hacc). cbn [mbind res_bind fst snd] in *.
  destruct r as [[g s]|]; [|by destruct (Hacc f server He)]. destruct Hacc as (Hg & _ & Hus).
  assert (g = f) as -> by (by eapply (expects_unique cfg st)). destruct He as (Hf & Hu & _). rewrite <-El in Hf.
  rewrite (proj2 (Z.eqb_neq rcode RCODE_REFUSED)), (proj2 (Z.eqb_neq rcode RCODE_SERVFAIL)) by done. cbn [orb andb].
  set (g := if forwardall f =? 0 then f else _).
  assert (same_query f g ∧ rfds g = rfds f) as [Hq Er] by (unfold g; by destruct (forwardall f =? 0)).
  rewrite andb_false_r. pose proof (deliver_ok cfg st1 f (set_sentto g (Some s)) s true Hi1 Hf Hu Hq Er eq_refl Hus) as Hd.
  apply twp_ok in Hd as ([st2 r] & E & _ & _ & Er2). simpl in Er2. subst r. by exists st2.
Qed.

(** A query in flight expects the answer of its server on its socket. *)
Lemma answered_expects cfg st g :
  inv cfg None st → answered st g →
  ∃ p fd u, srv_save st = Some (p, fd) ∧ servers st !! p = Some u ∧ expects st (new_id g) fd (f_hash g) g ∧
    (sockaddr_isequal (up_addr u) (up_addr u) = true → from_server st g (up_addr u) p).
Proof.
  intros Hi (Hg & p & fd & Hp & Hs & Hk). destruct (range_select cfg st g p Hi Hg Hp) as (u & a & b & Hu & _ & _ & _ & Hr & i & Hri & Hip).
  exists p, fd, u. split; [done|]. split; [done|]. split.
  - split; [done|]. split; [by exists p|]. split; [done|]. split; [done|]. destruct Hk as [(v & Hv & Hfd)|Hk]; [|by left].
    right. exists i, p, v. split; [by apply Hr|done].
  - intros Heq. exists i, u. split; [by apply Hr|done].
Qed.

(** A server, a client and a system for examples. *)
Definition one_up : upstream := Upstream (Server 1 0 0 [] 0 0 (-1) []) (SA_in 53 [8; 8; 8; 8]) 0 (SA_in 0 [0; 0; 0; 0]) [] None 0 0.
Definition one_map : gmap Z upstream := {[1 := one_up]}.
Definition one_cfg : config := Config 150 false false.
Definition one_start : forward_state := initial one_map [1] 2.
Definition one_client : client := Client (SA_in 5353 [10; 0; 0; 7]) (replicate 16 0) 2 1 4 99.
Definition give (n : Z) (X : gset Z) : option Z := if decide (n ∈ X) then None else Some n.
Definition one_sys : system := System true (give 30) true (give 31) (give 32).
Definition one_try : list attempt := [Attempt one_sys Sent].

Lemma give_fresh n : fresh (give n).
Proof. intros X p. unfold give. destruct (decide (n ∈ X)); [done|]. by intros [= <-]. Qed.

Lemma one_table : table_ok one_map [1].
Proof.
  split.
  - exists [one_up]. split; [by vm_compute|]. split; [|by repeat constructor]. constructor; [|constructor].
    split; [constructor|done|done].
  - by repeat constructor; apply not_elem_of_nil.
  - intros [|i] p u; [|done]. intros [= <-]. vm_compute (one_map !! 1). by intros [= <-].
  - intros [|a] b p u _; [|done]. intros [= <-]. vm_compute (one_map !! 1). intros [= <-]. by left.
Qed.

Lemma one_enough : enough one_start one_try.
Proof. split; [|done]. constructor; [|constructor]. split; apply give_fresh. Qed.

Lemma one_inputs : inputs one_start 0 1 (give 7) [4660] one_try.
Proof.
  split; [|apply give_fresh| |apply one_enough|done].
  - exists [one_up], 0%nat. split; [by vm_compute|]. split; [simpl; lia|]. split; [by vm_compute|].
    intros [|i] u _; [|done]. by intros [= <-].
  - exists 4660. split; [by left|]. by intros f ?%not_elem_of_nil.
Qed.

Lemma one_reachable : reachable one_cfg one_start.
Proof. apply R_start, one_table. Qed.

(** C1. On every state the daemon can reach by taking queries from clients,
    replies from servers and changes of its servers, the table of queries is
    consistent: each count of a socket is the number of links to it, every open
    socket of the pool is that of one slot in use or one temporary record, free
    records hold nothing, queries in flight have distinct identifiers and were
    sent to servers that exist, and the cells for clients are neither lost nor
    used twice. And the operations return: no server, record, slot or socket is
    used that is not there, and no socket is closed twice. *)
Theorem query_table_invariant cfg st :
  reachable cfg st →
  inv cfg None st ∧
  (∀ now hash flags extra c first last new new_src rands atts, inputs st first last new rands atts → fresh new_src →
     ∃ st' r, forward_query cfg st now hash flags extra c first last None new new_src rands atts = Ok (st', r)) ∧
  (∀ now fd from id hash rcode ignored resend some extra atts, enough st atts →
     ∃ st' r, reply_query cfg st now fd from id hash rcode ignored resend some extra atts = Ok (st', r)) ∧
  (∀ server, ∃ st', server_gone st server = Ok st' ∧ unreferenced st' server).
Proof.
  intros Hi%reachable_inv. split; [done|]. split; [|split].
  - intros now hash flags extra c first last new new_src rands atts Hin Hns.
    pose proof (forward_query_ok cfg st now hash flags extra c first last new new_src rands atts Hi Hin Hns) as H.
    apply twp_ok in H as ([st' r] & E & _). by exists st', r.
  - intros now fd from id hash rcode ignored resend some extra atts [H1 H2].
    pose proof (reply_query_ok cfg st now fd from id hash rcode ignored resend some extra atts Hi H1 H2) as H.
    apply twp_ok in H as ([st' r] & E & _). by exists st', r.
  - intros server. pose proof (server_gone_ok cfg st server Hi) as H. apply twp_ok in H as (st' & E & _ & _ & _ & _ & Hu). by exists st'.
Qed.

Lemma query_table_invariant_witness :
  inv one_cfg None one_start ∧
  ∃ st' r, forward_query one_cfg one_start 1000 (Some [1; 2]) 0 0 one_client 0 1 None (give 7) (give 8) [4660] one_try = Ok (st', r).
Proof.
  destruct (query_table_invariant one_cfg one_start one_reachable) as (Hi & Hq & _). split; [exact Hi|].
  apply Hq; [exact one_inputs|apply give_fresh].
Defined.



(** C6. A reply is given to clients only if its identifier, the hash of its
    question and the socket it came to are those of a query in flight, and it
    came from the address of a server of the group the query was sent to; then
    it goes to the clients of that query and no others. And a reply for which
    this is so, and which is not a refusal or a failure, is given to them. *)
Theorem replies_are_matched cfg st now fd from id h rcode ignored resend some extra atts :
  reachable cfg st → enough st atts →
  (∃ st' r, reply_query cfg st now fd from id h rcode ignored resend some extra atts = Ok (st', r) ∧
     delivered_ok st fd from id h some r) ∧
  (∀ f server h', h = Some h' → expects st id fd h' f → from_server st f from server →
     rcode ≠ RCODE_REFUSED → rcode ≠ RCODE_SERVFAIL → ignored = false → some = true →
     ∃ st', reply_query cfg st now fd from id h rcode ignored resend some extra atts = Ok (st', Delivered (clients f))).
Proof.
  intros Hi%reachable_inv [H1 H2]. split.
  - pose proof (reply_query_ok cfg st now fd from id h rcode ignored resend some extra atts Hi H1 H2) as H.
    apply twp_ok in H as ([st' r] & E & _ & _ & Hd). by exists st', r.
  - intros f server h' -> He Hf Hr1 Hr2 -> ->. by apply (reply_delivered cfg st now fd from id h' rcode resend extra atts f server).
Qed.

Lemma replies_are_matched_witness :
  ∃ st' r, reply_query one_cfg one_start 1001 30 (SA_in 53 [8; 8; 8; 8]) 4660 (Some [1; 2]) 0 false false true 0 one_try = Ok (st', r) ∧
    delivered_ok one_start 30 (SA_in 53 [8; 8; 8; 8]) 4660 (Some [1; 2]) true r.
Proof.
  apply (replies_are_matched one_cfg one_start 1001 30 (SA_in 53 [8; 8; 8; 8]) 4660 (Some [1; 2]) 0 false false true 0 one_try);
    [exact one_reachable|exact one_enough].
Defined.

(** C10. When the query of a client was forwarded, the answer that the server
    sends back to the socket it was sent from, with the identifier it was sent
    with, is delivered to the client, whichever client's query it first was. *)
Theorem answer_reaches_client cfg st now h flags extra c first last new new_src rands atts st' :
  reachable cfg st → inputs st first last new rands atts → fresh new_src →
  forward_query cfg st now (Some h) flags extra c first last None new new_src rands atts = Ok (st', Forwarded) →
  ∃ p fd u id l, srv_save st' = Some (p, fd) ∧ servers st' !! p = Some u ∧ (∃ x, x ∈ l ∧ (x = c ∨ same_client c x = true)) ∧
    (sockaddr_isequal (up_addr u) (up_addr u) = true →
     ∀ now' rcode resend extra' atts', rcode ≠ RCODE_REFUSED → rcode ≠ RCODE_SERVFAIL →
     ∃ st'', reply_query cfg st' now' fd (up_addr u) id (Some h) rcode false resend true extra' atts' = Ok (st'', Delivered l)).
Proof.
  intros Hi%reachable_inv Hin Hns E. pose proof (forward_query_ok cfg st now (Some h) flags extra c first last new new_src rands atts Hi Hin Hns) as H.
  rewrite E in H. destruct H as (Hi' & _ & _ & _ & g & Hg & Hh & Hx). simpl in Hi'.
  destruct (answered_expects cfg st' g Hi' Hg) as (p & fd & u & Hs & Hu & He & Hfrom). rewrite Hh in He.
  exists p, fd, u, (new_id g), (clients g). split; [done|]. split; [done|]. split; [done|].
  intros Heq now' rcode resend extra' atts' Hr1 Hr2.
  apply (reply_delivered cfg st' now' fd _ _ h rcode resend extra' atts' g p); [done|done|by apply Hfrom|done|done].
Qed.

Lemma answer_reaches_client_witness :
  ∃ st' id fd l st'',
    forward_query one_cfg one_start 1000 (Some [1; 2]) 0 0 one_client 0 1 None (give 7) (give 8) [4660] one_try = Ok (st', Forwarded) ∧
    (∃ x, x ∈ l ∧ (x = one_client ∨ same_client one_client x = true)) ∧
    reply_query one_cfg st' 1001 fd (SA_in 53 [8; 8; 8; 8]) id (Some [1; 2]) 0 false false true 0 one_try = Ok (st'', Delivered l).
Proof.
  destruct (forward_query one_cfg one_start 1000 (Some [1; 2]) 0 0 one_client 0 1 None (give 7) (give 8) [4660] one_try)
    as [[st' r]| | |] eqn:E; [|vm_compute in E; congruence..].
  assert (r = Forwarded) as -> by (vm_compute in E; congruence).
  destruct (answer_reaches_client one_cfg one_start 1000 [1; 2] 0 0 one_client 0 1 (give 7) (give 8) [4660] one_try st'
    one_reachable one_inputs (give_fresh 8) E) as (p & fd & u & id & l & Hs & Hu & Hl & Hr).
  assert (p = 1 ∧ up_addr u = SA_in 53 [8; 8; 8; 8]) as [_ Ea].
  { vm_compute in E. injection E as <-. vm_compute in Hs. injection Hs as <- <-. vm_compute in Hu. injection Hu as <-. done. }
  rewrite Ea in Hr. destruct (Hr eq_refl 1001 0 false 0 one_try) as [st'' Hst]; [done|done|]. by exists st', id, fd, l, st''.
Defined.

(** The last query sent is remembered with its socket after the query has timed
    out and the socket is closed. *)
Example stale_save :
  match forward_query one_cfg one_start 1000 (Some [1; 2]) 0 0 one_client 0 1 None (give 7) (give 8) [4660] one_try with
  | Ok (st1, Forwarded) =>
      match forward_query one_cfg st1 1100 (Some [3; 4]) 0 0 one_client 0 1 None (give 9) (give 8) [4661] [Attempt one_sys Failed] with
      | Ok (st2, Reply) => srv_save st2 = Some (1, 30) ∧ bool_decide (30 ∈ opened (socks st2)) = false
      | _ => False
      end
  | _ => False
  end.
Proof. vm_compute. split; reflexivity. Qed.
