(* ===== verification/DnssecName.v ===== *)
(** Names, serial numbers and encodings of DNSSEC (src/src/dnssec.c), and the
    algorithms that are supported (src/src/crypto.c).

    A name is changed in place: [buf] is the whole buffer, a name in it an
    offset. The routines run only when DNSSEC validation is on, so that bytes
    that cannot be in a string are escaped. *)
From S2P Require Import Prelude Hostname Wire WireSafe WireSpec RRFilter.

(** * The wire form, in place *)

(** [for (q = p; *q; q++) *q = *(q+1)]. *)
Fixpoint drop_char (fuel : nat) (buf : list Z) (q : Z) : res (list Z) :=
  match fuel with
  | O => NoFuel
  | S fuel =>
      c ← rd buf q;
      if c =? 0 then Ok buf
      else d ← rd buf (q + 1); buf ← wr buf q d; drop_char fuel buf (q + 1)
  end.

(** The characters of a label, up to its end. *)
Fixpoint lower_label (fuel : nat) (buf : list Z) (p : Z) : res (list Z * Z) :=
  match fuel with
  | O => NoFuel
  | S fuel =>
      c ← rd buf p;
      if (c =? dot) || (c =? 0) then Ok (buf, p)
      else if (65 <=? c) && (c <=? 90) then
        buf ← wr buf p (c - 65 + 97); lower_label fuel buf (p + 1)
      else if c =? NAME_ESCAPE then
        buf ← drop_char (S (length buf)) buf p;
        d ← rd buf p; buf ← wr buf p (d - 1);
        lower_label fuel buf (p + 1)
      else lower_label fuel buf (p + 1)
  end.

Fixpoint to_wire_loop (fuel : nat) (buf : list Z) (l : Z) : res (list Z * Z) :=
  match fuel with
  | O => NoFuel
  | S fuel =>
      c ← rd buf l;
      if c =? 0 then Ok (buf, l)
      else
        '(buf, p) ← lower_label (S (length buf)) buf l;
        term ← rd buf p;
        let len := p - l in
        buf ← (if negb (len =? 0) then memmove buf (l + 1) l len else Ok buf);
        buf ← wr buf l len;
        let p := p + 1 in
        buf ← (if term =? 0 then wr buf p 0 else Ok buf);
        to_wire_loop fuel buf p
  end.

(** The buffer and the length of the wire form. Every turn passes a byte of the
    buffer. *)
Definition to_wire (buf : list Z) (name : Z) : res (list Z * Z) :=
  '(buf, l) ← to_wire_loop (S (length buf)) buf name; Ok (buf, l + 1 - name).

(** The end of the wire form. *)
Fixpoint wire_end (fuel : nat) (buf : list Z) (last : Z) : res Z :=
  match fuel with
  | O => NoFuel
  | S fuel => c ← rd buf last; if c =? 0 then Ok last else wire_end fuel buf (last + (c + 1))
  end.

(** The characters of a label from [p] on; [stop] is [l + len]. The result is the
    new [l + len]. *)
Fixpoint escape_label (fuel : nat) (last : Z) (buf : list Z) (p stop : Z) : res (list Z * Z) :=
  match fuel with
  | O => NoFuel
  | S fuel =>
      if p <? stop then
        c ← rd buf p;
        if (c =? dot) || (c =? 0) || (c =? NAME_ESCAPE) then
          buf ← memmove buf (p + 1) p (1 + last - p);
          buf ← wr buf p NAME_ESCAPE;
          d ← rd buf (p + 1);
          buf ← wr buf (p + 1) (d + 1);
          escape_label fuel last buf (p + 2) (stop + 1)
        else escape_label fuel last buf (p + 1) stop
      else Ok (buf, stop)
  end.

Fixpoint from_wire_loop (fuel : nat) (last : Z) (buf : list Z) (l : Z) : res (list Z * Z) :=
  match fuel with
  | O => NoFuel
  | S fuel =>
      len ← rd buf l;
      if len =? 0 then Ok (buf, l)
      else
        buf ← memmove buf l (l + 1) len;
        '(buf, stop) ← escape_label (S (length buf)) last buf l (l + len);
        buf ← wr buf stop dot;
        from_wire_loop fuel last buf (stop + 1)
  end.

Definition from_wire (buf : list Z) (name : Z) : res (list Z) :=
  last ← wire_end (S (length buf)) buf name;
  '(buf, l) ← from_wire_loop (S (length buf)) last buf name;
  if negb (l =? name) then wr buf (l - 1) 0 else Ok buf.

Fixpoint count_dots (s : cstring) : Z :=
  match s with [] => 0 | c :: s => zb (c =? dot) + count_dots s end.

Definition count_labels (name : cstring) : Z :=
  match name with
  | [] => 0
  | c :: _ => if c =? dot then count_dots name else count_dots name + 1
  end.

(** * The order of names *)

(** [while (sa != a && *(sa-1) != '.') sa--]. *)
Fixpoint label_start (a : cstring) (sa : nat) : nat :=
  match sa with
  | O => O
  | S k => if deref (drop k a) =? dot then sa else label_start a k
  end.

(** The characters of the label at hand, from its start on; [None] when the labels
    are equal. *)
Fixpoint cmp_label (ca cb : cstring) : option Z :=
  match ca, cb with
  | [], [] => None
  | [], _ => Some (-1)
  | _, [] => Some 1
  | ac :: ca, bc :: cb =>
      let ac := lower ac in
      let bc := lower bc in
      if ac <? bc then Some (-1)
      else if negb (ac =? bc) then Some 1
      else cmp_label ca cb
  end.

Fixpoint cmp_loop (fuel : nat) (a b : cstring) (ea eb : nat) : res Z :=
  match fuel with
  | O => NoFuel
  | S fuel =>
      let sa := label_start a ea in
      let sb := label_start b eb in
      match cmp_label (drop sa (take ea a)) (drop sb (take eb b)) with
      | Some r => Ok r
      | None =>
          match sa, sb with
          | O, O => Ok 0
          | O, _ => Ok (-1)
          | _, O => Ok 1
          | S ea, S eb => cmp_loop fuel a b ea eb
          end
      end
  end.

Definition hostname_cmp (a b : cstring) : res Z := cmp_loop (S (length a)) a b (length a) (length b).

(** * Serial numbers *)

Definition SERIAL_UNDEF : Z := -100.
Definition SERIAL_EQ : Z := 0.
Definition SERIAL_LT : Z := -1.
Definition SERIAL_GT : Z := 1.

Definition serial_compare_32 (s1 s2 : Z) : Z :=
  if s1 =? s2 then SERIAL_EQ
  else if ((s1 <? s2) && (u32 (s2 - s1) <? 2 ^ 31)) || ((s2 <? s1) && (2 ^ 31 <? u32 (s1 - s2))) then SERIAL_LT
  else if ((s1 <? s2) && (2 ^ 31 <? u32 (s2 - s1))) || ((s2 <? s1) && (u32 (s1 - s2) <? 2 ^ 31)) then SERIAL_GT
  else SERIAL_UNDEF.

(** * Base 32 *)

(** The value of a character, [None] for one that is not a digit. *)
Definition digit32 (c : Z) : option Z :=
  if (48 <=? c) && (c <=? 57) then Some (c - 48)
  else if (97 <=? c) && (c <=? 118) then Some (c - 97 + 10)
  else if (65 <=? c) && (c <=? 86) then Some (c - 65 + 10)
  else None.

(** The variables [oc] and [on], and the bytes stored so far. *)
Record b32 := B32 { b_oc : Z; b_on : Z; b_out : list Z }.

(** The inner loop, [i] turns of which are left, with the bit [mask]. *)
Fixpoint b32_bits (i : nat) (c mask : Z) (st : b32) : b32 :=
  match i with
  | O => st
  | S i =>
      let oc := if flag c mask then Z.lor (b_oc st) 1 else b_oc st in
      let on := b_on st + 1 in
      let out := if Z.land on 7 =? 0 then b_out st ++ [u8 oc] else b_out st in
      b32_bits i c (Z.shiftr mask 1) (B32 (u32 (Z.shiftl oc 1)) on out)
  end.

Fixpoint b32_loop (s : cstring) (st : b32) : res b32 :=
  match s with
  | [] => Ok st
  | c :: s =>
      if c =? dot then Ok st
      else match digit32 c with Some v => b32_loop s (b32_bits 5 v 16 st) | None => Bad end
  end.

(** The bytes that are stored; their number is the C result, 0 the failure. *)
Definition base32_decode (s : cstring) : res (list Z) :=
  st ← b32_loop s (B32 0 0 []);
  if negb (Z.land (b_on st) 7 =? 0) then Bad
  else match b_out st with [] => Bad | out => Ok out end.

(** * Key tags *)

(** The loop from index [i] on; the key is at [key] in the packet. *)
Fixpoint keytag_loop (buf : list Z) (key : Z) (n : nat) (i ac : Z) : res Z :=
  match n with
  | O => Ok ac
  | S n =>
      b ← rd buf (key + i);
      keytag_loop buf key n (i + 1) (u64 (ac + (if flag i 1 then b else Z.shiftl b 8)))
  end.

Definition dnskey_keytag (alg flags : Z) (buf : list Z) (key keylen : Z) : res Z :=
  if alg =? 1 then
    a ← rd buf (key + (keylen - 4)); b ← rd buf (key + (keylen - 3)); Ok (a * 256 + b)
  else
    ac ← keytag_loop buf key (Z.to_nat keylen) 0 (flags + 768 + alg);
    let ac := u64 (ac + Z.land (Z.shiftr ac 16) 65535) in
    Ok (Z.land ac 65535).
