(* ===== verification/DnssecNameSpec.v ===== *)
(** Names of DNSSEC: the wire form written over a name and back, the order of
    names of RFC 4034, serial numbers, base 32 and key tags. *)
From S2P Require Import Prelude Hostname Wire WireSafe WireSpec RRFilter WireExt DnssecName.

(** * Moving bytes *)

Lemma memmove_up pre l x post :
  Forall is_byte l → memmove (pre ++ l ++ x :: post) (zlen pre + 1) (zlen pre) (zlen l) = 
  Ok (pre ++ hd x l :: l ++ post).
Proof.
  intros Hl. unfold memmove.
  pose proof (zlen_nonneg pre). pose proof (zlen_nonneg l). pose proof (zlen_nonneg post).
  replace ((zlen l <? 0) || (zlen pre <? 0) || (zlen (pre ++ l ++ x :: post) <? zlen pre + zlen l)) with false
    by (rewrite !zlen_app, zlen_cons; lia).
  replace (Z.to_nat (zlen l)) with (length l) by (unfold zlen; lia).
  rewrite slice_middle by done.
  assert (∃ m, l ++ x :: post = hd x l :: m ++ post ∧ zlen m = zlen l) as (m & E & Hm).
  { destruct l as [|a l]; [by exists []|]. exists (l ++ [x]). split; [by rewrite <- app_assoc|].
    rewrite zlen_snoc, zlen_cons. lia. }
  rewrite E. replace (zlen pre + 1) with (zlen (pre ++ [hd x l])) by apply zlen_snoc.
  replace (pre ++ hd x l :: m ++ post) with ((pre ++ [hd x l]) ++ m ++ post) by by rewrite <- app_assoc.
  rewrite put_bytes_at by done. by rewrite <- app_assoc.
Qed.

Lemma memmove_down pre x l post :
  Forall is_byte l → memmove (pre ++ x :: l ++ post) (zlen pre) (zlen pre + 1) (zlen l) =
  Ok (pre ++ l ++ List.last l x :: post).
Proof.
  intros Hl. unfold memmove.
  pose proof (zlen_nonneg pre). pose proof (zlen_nonneg l). pose proof (zlen_nonneg post).
  replace ((zlen l <? 0) || (zlen pre + 1 <? 0) || (zlen (pre ++ x :: l ++ post) <? zlen pre + 1 + zlen l)) with false
    by (rewrite zlen_app, zlen_cons, zlen_app; lia).
  replace (Z.to_nat (zlen l)) with (length l) by (unfold zlen; lia).
  replace (pre ++ x :: l ++ post) with ((pre ++ [x]) ++ l ++ post) at 2 by by rewrite <- app_assoc.
  rewrite slice_middle by by rewrite zlen_snoc.
  assert (∃ m, x :: l = m ++ [List.last l x] ∧ zlen m = zlen l) as (m & E & Hm).
  { clear. induction l as [|a l IH] using rev_ind; [by exists []|].
    exists (x :: l). rewrite last_last. split; [done|]. rewrite zlen_cons, zlen_snoc. lia. }
  replace (pre ++ x :: l ++ post) with (pre ++ m ++ List.last l x :: post).
  { by rewrite put_bytes_at. }
  change (x :: l ++ post) with ((x :: l) ++ post). by rewrite E, <- app_assoc.
Qed.

(** * to_wire *)

Lemma drop_char_spec fuel pre c s post :
  1 ≤ c → wf_cstring s → (length s + 1 < fuel)%nat →
  drop_char fuel (pre ++ c :: s ++ 0 :: post) (zlen pre) = Ok (pre ++ s ++ 0 :: 0 :: post).
Proof.
  revert fuel pre c. induction s as [|d s IH]; intros [|fuel] pre c Hc Hs Hf; try (simpl in Hf; lia).
  - cbn [drop_char app]. rewrite rd_here. cbn. rewrite (proj2 (Z.eqb_neq c 0)) by lia.
    rewrite rd_next. cbn. rewrite wr_middle. cbn.
    destruct fuel as [|fuel]; [simpl in Hf; lia|]. cbn [drop_char].
    rewrite rd_next. done.
  - apply Forall_cons in Hs as [Hd Hs]. cbn [drop_char app]. rewrite rd_here. cbn.
    rewrite (proj2 (Z.eqb_neq c 0)) by lia.
    rewrite rd_next. cbn. rewrite wr_middle. cbn.
    rewrite u8_id by (unfold is_byte; lia).
    replace (pre ++ d :: d :: s ++ 0 :: post) with ((pre ++ [d]) ++ d :: s ++ 0 :: post) by by rewrite <- app_assoc.
    replace (zlen pre + 1) with (zlen (pre ++ [d])) by apply zlen_snoc.
    rewrite IH; [by rewrite <- app_assoc|lia|done|simpl in Hf; lia].
Qed.

Lemma enc_byte_cases c t : is_byte c → enc_byte true c = Some t →
  (t = [NAME_ESCAPE; c + 1] ∧ (c = 0 ∨ c = dot ∨ c = NAME_ESCAPE)) ∨ (t = [c] ∧ c ≠ 0 ∧ c ≠ dot ∧ c ≠ NAME_ESCAPE).
Proof.
  unfold enc_byte. intros Hc. destruct (_ || _) eqn:E; intros [= <-]; [left|right].
  - rewrite !orb_true_iff, !Z.eqb_eq in E. split; [|tauto]. f_equal. f_equal. apply u8_id.
    unfold is_byte, dot, NAME_ESCAPE in *. lia.
  - rewrite !orb_false_iff, !Z.eqb_neq in E. tauto.
Qed.

Lemma enc_label_wf l t : Forall is_byte l → enc_label true l = Some t → wf_cstring t.
Proof.
  revert t. induction l as [|c l IH]; intros t Hl; cbn [enc_label].
  { intros [= <-]. constructor. }
  apply Forall_cons in Hl as [Hc Hl].
  destruct (enc_byte true c) as [tc|] eqn:Ec; [|done]. destruct (enc_label true l) as [u|]; [|done].
  intros [= <-]. apply Forall_app. split; [|by apply IH].
  destruct (enc_byte_cases c tc Hc Ec) as [[-> H]|[-> H]]; unfold is_byte, NAME_ESCAPE, dot in *;
    repeat constructor; lia.
Qed.

Definition lowered (l : list Z) : list Z := lower <$> l.

Lemma lowered_bytes l : Forall is_byte l → Forall is_byte (lowered l).
Proof.
  intros Hl. apply Forall_fmap. eapply Forall_impl; [done|]. intros c. unfold is_byte, compose, lower. case_match; lia.
Qed.

(** A label is lowered and its escapes are taken out; what follows it moves up. *)
Lemma lower_label_spec fuel pre l t rest post :
  Forall is_byte l → enc_label true l = Some t → wf_cstring rest → ends_label rest → (length l < fuel)%nat →
  ∃ post', lower_label fuel (pre ++ t ++ rest ++ 0 :: post) (zlen pre) =
    Ok (pre ++ lowered l ++ rest ++ 0 :: post', zlen pre + zlen l) ∧
    zlen post' = zlen post + (zlen t - zlen l) ∧ (Forall is_byte post → Forall is_byte post').
Proof.
  revert fuel pre t post. induction l as [|c l IH]; intros [|fuel] pre t post Hl Ht Hw He Hf; try (simpl in Hf; lia).
  { injection Ht as <-. exists post. split; [|split; [change (zlen (@nil Z)) with 0; lia|done]].
    cbn [lower_label app lowered fmap list_fmap]. change (zlen (@nil Z)) with 0. rewrite Z.add_0_r.
    destruct He as [->|[r ->]]; cbn [app]; rewrite rd_here; done. }
  apply Forall_cons in Hl as [Hc Hl]. cbn [enc_label] in Ht.
  destruct (enc_byte true c) as [tc|] eqn:Ec; [|done].
  destruct (enc_label true l) as [u|] eqn:Eu; [|done]. injection Ht as <-. simpl in Hf.
  pose proof (enc_label_wf l u Hl Eu) as Hu.
  destruct (enc_byte_cases c tc Hc Ec) as [[-> H]|[-> H]].
  - destruct (IH fuel (pre ++ [lower c]) u (0 :: post)) as (post' & E & Hz & Hb); [done..|lia|].
    exists post'. split; [|split; [rewrite Hz, !zlen_app, !zlen_cons; change (zlen (@nil Z)) with 0; lia|]].
    2: { intros Hp. apply Hb. constructor; [unfold is_byte; lia|done]. }
    cbn [lower_label app]. rewrite rd_here. cbn [mbind res_bind].
    change ((NAME_ESCAPE =? dot) || (NAME_ESCAPE =? 0)) with false. change ((65 <=? NAME_ESCAPE) && (NAME_ESCAPE <=? 90)) with false.
    change (NAME_ESCAPE =? NAME_ESCAPE) with true. cbn [mbind res_bind].
    replace ((c + 1) :: u ++ rest ++ 0 :: post) with (((c + 1) :: u ++ rest) ++ 0 :: post) by (cbn; by rewrite <- app_assoc).
    rewrite drop_char_spec.
    2: by unfold NAME_ESCAPE.
    2: { constructor; [unfold is_byte, dot, NAME_ESCAPE in *; lia|]. by apply Forall_app. }
    2: { rewrite !length_app. cbn. rewrite !length_app. lia. }
    cbn. rewrite rd_here. cbn. rewrite wr_middle. cbn.
    replace (u8 (c + 1 - 1)) with c by (rewrite u8_id; [lia|unfold is_byte in *; lia]).
    assert (lower c = c) as El by (unfold lower, dot, NAME_ESCAPE in *; case_match; lia).
    rewrite El, <- app_assoc, zlen_snoc in E. cbn in E. rewrite <- !app_assoc. rewrite E. rewrite <- app_assoc. cbn.
    rewrite El. f_equal. f_equal. rewrite zlen_cons. lia.
  - destruct (IH fuel (pre ++ [lower c]) u post) as (post' & E & Hz & Hb); [done..|lia|].
    exists post'. split; [|split; [rewrite Hz, !zlen_app, !zlen_cons; change (zlen (@nil Z)) with 0; lia|done]].
    cbn [lower_label app]. rewrite rd_here. cbn.
    rewrite (proj2 (Z.eqb_neq c dot)), (proj2 (Z.eqb_neq c 0)) by tauto. cbn.
    rewrite <- !app_assoc, zlen_snoc in E. cbn in E.
    replace (zlen pre + zlen (c :: l)) with (zlen pre + 1 + zlen l) by (rewrite zlen_cons; lia).
    unfold lower in E at 1. destruct ((65 <=? c) && (c <=? 90)) eqn:Eup.
    + rewrite wr_middle. cbn. bool_hyps.
      replace (u8 (c - 65 + 97)) with (c + 32) by (rewrite u8_id; [lia|unfold is_byte; lia]).
      by rewrite E.
    + rewrite (proj2 (Z.eqb_neq c NAME_ESCAPE)) by tauto. by rewrite E.
Qed.

Lemma text_rest_wf L rest : Forall good_label L → join true L = Some rest → wf_cstring rest.
Proof.
  revert rest. induction L as [|l L IH]; intros rest HL; cbn [join]; [intros [= <-]; constructor|].
  apply Forall_cons in HL as [[_ Hl] HL]. destruct (enc_label true l) as [t|] eqn:Et; [|done].
  pose proof (enc_label_wf l t Hl Et). destruct L as [|l' L]; [by intros [= <-]|].
  destruct (join true (l' :: L)) as [u|]; [|done]. intros [= <-]. apply Forall_app. split; [done|].
  constructor; [unfold dot; lia|]. by apply IH.
Qed.

(** The wire form of a name is written over its text. *)
Lemma to_wire_loop_spec fuel L name pre post :
  Forall good_label L → join true L = Some name → post ≠ [] → Forall is_byte post → (length L < fuel)%nat →
  ∃ post', to_wire_loop fuel (pre ++ name ++ 0 :: post) (zlen pre) =
    Ok (pre ++ wire (lowered <$> L) ++ 0 :: post', zlen pre + wire_len L) ∧ Forall is_byte post' ∧
    zlen post' + wire_len L = zlen post + zlen name.
Proof.
  revert fuel name pre post. induction L as [|l L IH]; intros [|fuel] name pre post HL Hn Hp Hb Hf; try (simpl in Hf; lia).
  { injection Hn as <-. exists post. cbn [to_wire_loop app fmap list_fmap]. rewrite rd_here. cbn [mbind res_bind].
    change (0 =? 0) with true. change (wire []) with (@nil Z). change (wire_len []) with 0. change (zlen (@nil Z)) with 0.
    split_and!; [by rewrite Z.add_0_r|done|lia]. }
  apply Forall_cons in HL as [[Hz Hl] HL].
  destruct (join_cons true l L name Hn) as (t & rest & Et & -> & He & Hr & HLr).
  assert (wf_cstring rest) as Hw.
  { pose proof (text_rest_wf L _ HL Hr) as Hw. destruct He as [->|[r ->]]; [constructor|]. constructor; [unfold dot; lia|done]. }
  assert (∃ c t', t = c :: t' ∧ 1 ≤ c) as (c & t' & Htc & Hc).
  { pose proof (enc_label_wf l t Hl Et) as Ht. pose proof (enc_label_length _ _ _ Et).
    destruct t as [|c t']; [unfold zlen in Hz; simpl in *; lia|]. apply Forall_cons in Ht as [? _]. eauto with lia. }
  destruct (lower_label_spec (S (length (pre ++ t ++ rest ++ 0 :: post))) pre l t rest post) as (post1 & E1 & Hz1 & Hb1);
    [done..| |].
  { pose proof (enc_label_length _ _ _ Et). rewrite !length_app. lia. }
  assert (zlen post ≤ zlen post1) as Hge.
  { pose proof (enc_label_length _ _ _ Et). unfold zlen in *. lia. }
  rewrite <- app_assoc. cbn [to_wire_loop].
  replace (rd (pre ++ t ++ rest ++ 0 :: post) (zlen pre)) with (Ok c) by (rewrite Htc; symmetry; apply rd_here).
  cbn [mbind res_bind]. rewrite (proj2 (Z.eqb_neq c 0)) by lia. rewrite E1. cbn [mbind res_bind].
  replace (zlen pre + zlen l - zlen pre) with (zlen l) by lia.
  rewrite (proj2 (Z.eqb_neq (zlen l) 0)) by lia. cbn [negb].
  assert (zlen (lowered l) = zlen l) as El by (unfold zlen, lowered; by rewrite length_fmap).
  assert (∀ x q, rd (pre ++ lowered l ++ x :: q) (zlen pre + zlen l) = Ok x) as Hrd.
  { intros x q. rewrite <- El. by apply rd_at. }
  assert (∀ x q, memmove (pre ++ lowered l ++ x :: q) (zlen pre + 1) (zlen pre) (zlen l) =
    Ok (pre ++ hd x (lowered l) :: lowered l ++ q)) as Hmv.
  { intros x q. rewrite <- El. apply memmove_up. by apply lowered_bytes. }
  rewrite fmap_cons, wire_cons, El. cbn [wire_len foldr]. fold (wire_len L).
  destruct He as [->|[r ->]].
  - assert (L = []) as -> by by apply HLr. cbn [app]. rewrite Hrd. cbn [mbind res_bind]. rewrite Hmv. cbn [mbind res_bind].
    rewrite wr_middle. cbn [mbind res_bind]. change (0 =? 0) with true.
    destruct post1 as [|x post1]; [destruct post; [done|rewrite zlen_cons in Hge; pose proof (zlen_nonneg post); change (zlen (@nil Z)) with 0 in Hge; lia]|].
    rewrite u8_id by (unfold is_byte; lia).
    replace (zlen pre + zlen l + 1) with (zlen (pre ++ zlen l :: lowered l)) by (rewrite zlen_app, zlen_cons; lia).
    replace (pre ++ zlen l :: lowered l ++ x :: post1) with ((pre ++ zlen l :: lowered l) ++ x :: post1) by by rewrite <- app_assoc.
    rewrite wr_middle. cbn [mbind res_bind]. destruct fuel as [|fuel]; [simpl in Hf; lia|]. cbn [to_wire_loop].
    change (u8 0) with 0. rewrite rd_here. cbn [mbind res_bind]. change (0 =? 0) with true.
    exists post1. change (wire (lowered <$> [])) with (@nil Z). change (wire_len []) with 0. rewrite app_nil_r, <- !app_assoc.
    split_and!; [cbn [app]; do 2 f_equal; rewrite zlen_app, zlen_cons; lia|by apply Hb1, Forall_cons in Hb as [_ ?]|].
    rewrite zlen_cons, zlen_app in *. change (zlen (@nil Z)) with 0. lia.
  - cbn [app]. rewrite Hrd. cbn [mbind res_bind]. rewrite Hmv. cbn [mbind res_bind].
    rewrite wr_middle. cbn [mbind res_bind]. change (dot =? 0) with false. cbn [mbind res_bind].
    rewrite u8_id by (unfold is_byte; lia).
    replace (zlen pre + zlen l + 1) with (zlen (pre ++ zlen l :: lowered l)) by (rewrite zlen_app, zlen_cons; lia).
    replace (pre ++ zlen l :: lowered l ++ r ++ 0 :: post1) with ((pre ++ zlen l :: lowered l) ++ r ++ 0 :: post1) by by rewrite <- app_assoc.
    destruct (IH fuel r (pre ++ zlen l :: lowered l) post1) as (post' & E & Hb' & Hz'); [done|done| |by apply Hb1|simpl in Hf; lia|].
    { destruct post1; [|done]. destruct post; [done|]. rewrite zlen_cons in Hge. pose proof (zlen_nonneg post). change (zlen (@nil Z)) with 0 in Hge. lia. }
    exists post'. rewrite E. rewrite <- !app_assoc. split_and!; [cbn [app]; rewrite <- ?app_assoc; do 2 f_equal; rewrite zlen_app, zlen_cons; lia|done|].
    rewrite zlen_app, zlen_cons. lia.
Qed.

Lemma to_wire_spec L name pre post :
  Forall good_label L → join true L = Some name → post ≠ [] → Forall is_byte post →
  ∃ post', to_wire (pre ++ name ++ 0 :: post) (zlen pre) =
    Ok (pre ++ wire (lowered <$> L) ++ 0 :: post', wire_len L + 1) ∧ Forall is_byte post' ∧
    zlen post' + wire_len L = zlen post + zlen name.
Proof.
  intros HL Hn Hp Hb. unfold to_wire.
  destruct (to_wire_loop_spec (S (length (pre ++ name ++ 0 :: post))) L name pre post) as (post' & -> & ? & ?);
    [done..| |].
  { pose proof (join_length _ _ _ HL Hn). rewrite !length_app. lia. }
  exists post'. split_and!; [cbn [mbind res_bind]; do 2 f_equal; lia|done|done].
Qed.

(** * from_wire *)

Lemma wire_end_spec fuel L pre post :
  Forall good_label L → (length L < fuel)%nat →
  wire_end fuel (pre ++ wire L ++ 0 :: post) (zlen pre) = Ok (zlen pre + wire_len L).
Proof.
  revert fuel pre. induction L as [|l L IH]; intros [|fuel] pre HL Hf; try (simpl in Hf; lia).
  { cbn [wire_end]. change (wire []) with (@nil Z). cbn [app]. rewrite rd_here. cbn [mbind res_bind].
    change (wire_len []) with 0. by rewrite Z.add_0_r. }
  apply Forall_cons in HL as [[Hz Hl] HL]. rewrite wire_cons. cbn [wire_end app]. rewrite rd_here. cbn [mbind res_bind].
  rewrite (proj2 (Z.eqb_neq (zlen l) 0)) by lia.
  replace (pre ++ zlen l :: (l ++ wire L) ++ 0 :: post) with ((pre ++ zlen l :: l) ++ wire L ++ 0 :: post)
    by (rewrite <- !app_assoc; cbn [app]; by rewrite <- ?app_assoc).
  replace (zlen pre + (zlen l + 1)) with (zlen (pre ++ zlen l :: l)) by (rewrite zlen_app, zlen_cons; lia).
  rewrite IH; [|done|simpl in Hf; lia]. f_equal. rewrite zlen_app, zlen_cons. cbn [wire_len foldr]. fold (wire_len L). lia.
Qed.

Lemma last_byte l x : Forall is_byte l → is_byte x → is_byte (List.last l x).
Proof. intros Hl Hx. induction Hl as [|a l Ha _ IH]; [done|]. destruct l; [done|]. exact IH. Qed.

(** A byte that is escaped in a name. *)
Definition special (c : Z) : bool := (c =? dot) || (c =? 0) || (c =? NAME_ESCAPE).

Lemma enc_plain l : forallb (negb ∘ special) l = true → enc_label true l = Some l.
Proof.
  induction l as [|c l IH]; [done|]. cbn [forallb enc_label]. intros [Hc Hl]%andb_true_iff.
  unfold enc_byte. unfold compose, special in Hc. apply negb_true_iff in Hc.
  replace ((c =? 0) || (c =? dot) || (c =? NAME_ESCAPE)) with false by lia. by rewrite IH.
Qed.

Lemma escape_plain fuel last pre l post :
  forallb (negb ∘ special) l = true → (length l < fuel)%nat →
  escape_label fuel last (pre ++ l ++ post) (zlen pre) (zlen pre + zlen l) = Ok (pre ++ l ++ post, zlen pre + zlen l).
Proof.
  revert fuel pre. induction l as [|c l IH]; intros [|fuel] pre Hl Hf; try (simpl in Hf; lia).
  { cbn [escape_label]. change (zlen (@nil Z)) with 0. by rewrite (proj2 (Z.ltb_ge (zlen pre) (zlen pre + 0))) by lia. }
  cbn [forallb] in Hl. apply andb_true_iff in Hl as [Hc Hl]. unfold compose, special in Hc. apply negb_true_iff in Hc.
  cbn [escape_label app]. rewrite rd_here. cbn [mbind res_bind].
  rewrite (proj2 (Z.ltb_lt (zlen pre) (zlen pre + zlen (c :: l)))) by (rewrite zlen_cons; pose proof (zlen_nonneg l); lia).
  rewrite Hc. replace (pre ++ c :: l ++ post) with ((pre ++ [c]) ++ l ++ post) by by rewrite <- app_assoc.
  replace (zlen pre + 1) with (zlen (pre ++ [c])) by apply zlen_snoc.
  replace (zlen pre + zlen (c :: l)) with (zlen (pre ++ [c]) + zlen l) by (rewrite zlen_snoc, zlen_cons; lia).
  apply IH; [done|simpl in Hf; lia].
Qed.

(** The text of labels, each followed by a dot. *)
Definition dotted (L : list (list Z)) : cstring := default [] (text true L).

Definition plain (L : list (list Z)) : bool := forallb (forallb (negb ∘ special)) L.

Lemma text_plain L : plain L = true → text true L = Some (dotted L).
Proof.
  unfold dotted. induction L as [|l L IH]; [done|]. cbn [plain forallb text]. intros [Hl HL]%andb_true_iff.
  rewrite (enc_plain l Hl). cbn. by rewrite (IH HL).
Qed.

Lemma from_label fuel last l pre rest :
  good_label l → forallb (negb ∘ special) l = true →
  from_wire_loop (S fuel) last (pre ++ zlen l :: l ++ rest) (zlen pre) =
  from_wire_loop fuel last ((pre ++ l ++ [dot]) ++ rest) (zlen (pre ++ l ++ [dot])).
Proof.
  intros [Hz Hl] Hpl. cbn [from_wire_loop]. rewrite rd_here. cbn [mbind res_bind].
  rewrite (proj2 (Z.eqb_neq (zlen l) 0)) by lia. rewrite memmove_down by done. cbn [mbind res_bind].
  rewrite escape_plain; [|done|rewrite !length_app; lia]. cbn [mbind res_bind].
  rewrite app_assoc, <- zlen_app, wr_middle. cbn [mbind res_bind].
  change (u8 dot) with dot. f_equal; [by rewrite <- !app_assoc|].
  rewrite !zlen_app. change (zlen [dot]) with 1. lia.
Qed.

Lemma dotted_cons l L : forallb (negb ∘ special) l = true → plain L = true → dotted (l :: L) = l ++ dot :: dotted L.
Proof. intros Hl HL. unfold dotted. cbn [text]. rewrite (enc_plain l Hl). cbn. by rewrite (text_plain _ HL). Qed.

Lemma zlen_dotted L : plain L = true → zlen (dotted L) = wire_len L.
Proof.
  induction L as [|l L IH]; [done|]. intros HP. pose proof HP as [Hl HL]%andb_true_iff.
  rewrite dotted_cons, zlen_app, zlen_cons, IH by done. cbn [wire_len foldr]. fold (wire_len L). lia.
Qed.

Lemma from_skip fuel last L pre rest :
  Forall good_label L → plain L = true → (length L ≤ fuel)%nat →
  from_wire_loop fuel last (pre ++ wire L ++ rest) (zlen pre) =
  from_wire_loop (fuel - length L) last ((pre ++ dotted L) ++ rest) (zlen (pre ++ dotted L)).
Proof.
  revert fuel pre. induction L as [|l L IH]; intros fuel pre HL HP Hf.
  { change (wire []) with (@nil Z). change (dotted []) with (@nil Z). by rewrite app_nil_r, Nat.sub_0_r. }
  destruct fuel as [|fuel]; [simpl in Hf; lia|]. apply Forall_cons in HL as [Hl HL].
  pose proof HP as [Hpl HPL]%andb_true_iff. rewrite wire_cons, (dotted_cons l L) by done. cbn [app]. rewrite <- app_assoc.
  rewrite from_label, IH by (done || simpl in Hf; lia). cbn [length Nat.sub]. f_equal; [by rewrite <- !app_assoc|].
  f_equal. by rewrite <- !app_assoc.
Qed.

Lemma from_end fuel last pre post : from_wire_loop (S fuel) last (pre ++ 0 :: post) (zlen pre) = Ok (pre ++ 0 :: post, zlen pre).
Proof. cbn [from_wire_loop]. by rewrite rd_here. Qed.

Lemma escape_skip fuel last pre l stop post :
  forallb (negb ∘ special) l = true → (length l < fuel)%nat → zlen pre + zlen l < stop →
  escape_label fuel last (pre ++ l ++ post) (zlen pre) stop =
  escape_label (fuel - length l) last (pre ++ l ++ post) (zlen pre + zlen l) stop.
Proof.
  revert fuel pre. induction l as [|c l IH]; intros fuel pre Hl Hf Hs.
  { change (zlen (@nil Z)) with 0. rewrite Z.add_0_r. by rewrite Nat.sub_0_r. }
  destruct fuel as [|fuel]; [simpl in Hf; lia|]. rewrite zlen_cons in *. pose proof (zlen_nonneg l).
  cbn [forallb] in Hl. apply andb_true_iff in Hl as [Hc Hl]. unfold compose, special in Hc. apply negb_true_iff in Hc.
  cbn [escape_label app]. rewrite rd_here. cbn [mbind res_bind]. rewrite (proj2 (Z.ltb_lt (zlen pre) stop)) by lia.
  rewrite Hc. replace (pre ++ c :: l ++ post) with ((pre ++ [c]) ++ l ++ post) by by rewrite <- app_assoc.
  replace (zlen pre + 1) with (zlen (pre ++ [c])) by apply zlen_snoc.
  rewrite IH; [|done|simpl in Hf; lia|rewrite zlen_snoc; lia].
  cbn [length Nat.sub]. f_equal. rewrite zlen_snoc. lia.
Qed.

(** A label with one byte to escape: everything behind it moves. *)
Lemma escape_one fuel pre l1 c l2 tl x post :
  forallb (negb ∘ special) l1 = true → special c = true → forallb (negb ∘ special) l2 = true →
  Forall is_byte (l1 ++ c :: l2) → Forall is_byte tl → (length l1 + length l2 + 2 < fuel)%nat →
  escape_label fuel (zlen pre + zlen (l1 ++ c :: l2) + zlen tl) (pre ++ (l1 ++ c :: l2) ++ tl ++ 0 :: x :: post) (zlen pre)
    (zlen pre + zlen (l1 ++ c :: l2)) =
  Ok (pre ++ (l1 ++ NAME_ESCAPE :: (c + 1) :: l2) ++ tl ++ 0 :: post, zlen pre + zlen (l1 ++ c :: l2) + 1).
Proof.
  intros H1 Hc H2 Hb Ht Hf. apply Forall_app in Hb as [Hb1 [Hbc Hb2]%Forall_cons]. pose proof (zlen_nonneg l2).
  rewrite <- app_assoc. rewrite escape_skip; [|done|lia|rewrite zlen_app, zlen_cons; lia].
  destruct (fuel - length l1)%nat as [|f] eqn:Ef; [lia|]. cbn [escape_label]. rewrite <- zlen_app, app_assoc.
  cbn [app]. rewrite rd_here. cbn [mbind res_bind].
  rewrite (proj2 (Z.ltb_lt _ _)) by (rewrite !zlen_app, zlen_cons; lia). change ((c =? dot) || (c =? 0) || (c =? NAME_ESCAPE)) with (special c). rewrite Hc.
  replace (c :: l2 ++ tl ++ 0 :: x :: post) with ((c :: l2 ++ tl ++ [0]) ++ x :: post)
    by (cbn [app]; by rewrite <- !app_assoc).
  replace (1 + (zlen pre + zlen (l1 ++ c :: l2) + zlen tl) - zlen (pre ++ l1)) with (zlen (c :: l2 ++ tl ++ [0]))
    by (rewrite !zlen_app, !zlen_cons, !zlen_app; change (zlen [0]) with 1; lia).
  rewrite memmove_up.
  2: { constructor; [done|]. rewrite !Forall_app. split_and!; try done. repeat constructor; lia. }
  cbn [mbind res_bind hd app]. rewrite wr_middle. cbn [mbind res_bind]. rewrite rd_next. cbn [mbind res_bind].
  change (u8 NAME_ESCAPE) with NAME_ESCAPE.
  replace ((pre ++ l1) ++ NAME_ESCAPE :: c :: (l2 ++ tl ++ [0]) ++ post) with (((pre ++ l1) ++ [NAME_ESCAPE]) ++ c :: (l2 ++ tl ++ [0]) ++ post)
    by by rewrite <- app_assoc.
  rewrite <- (zlen_snoc (pre ++ l1) NAME_ESCAPE), wr_middle. cbn [mbind res_bind].
  replace (u8 (c + 1)) with (c + 1).
  2: { symmetry. apply u8_id. unfold special in Hc. rewrite !orb_true_iff, !Z.eqb_eq in Hc. unfold is_byte, dot, NAME_ESCAPE in *. lia. }
  replace (((pre ++ l1) ++ [NAME_ESCAPE]) ++ c + 1 :: (l2 ++ tl ++ [0]) ++ post)
    with (((pre ++ l1) ++ [NAME_ESCAPE; c + 1]) ++ l2 ++ tl ++ 0 :: post)
    by (rewrite <- ?app_assoc; cbn [app]; by rewrite <- ?app_assoc).
  assert (zlen (pre ++ l1) + 2 = zlen ((pre ++ l1) ++ [NAME_ESCAPE; c + 1])) as -> by (rewrite (zlen_app (pre ++ l1)); done).
  replace (zlen pre + zlen (l1 ++ c :: l2) + 1) with (zlen ((pre ++ l1) ++ [NAME_ESCAPE; c + 1]) + zlen l2)
    by (rewrite !zlen_app, !zlen_cons; change (zlen (@nil Z)) with 0; lia).
  rewrite escape_plain by (done || lia). rewrite <- !app_assoc. cbn [app]. by rewrite <- ?app_assoc.
Qed.

Lemma enc_label_app l1 l2 t1 t2 : enc_label true l1 = Some t1 → enc_label true l2 = Some t2 → enc_label true (l1 ++ l2) = Some (t1 ++ t2).
Proof.
  revert t1. induction l1 as [|c l1 IH]; intros t1; [by intros [= <-] H|]. cbn [app enc_label].
  destruct (enc_byte true c) as [tc|]; [|done]. cbn. destruct (enc_label true l1) as [u|]; [|done]. cbn.
  intros [= <-] H2. rewrite (IH u) by done. cbn. by rewrite app_assoc.
Qed.

(** No byte of the labels is escaped, or a single one. *)
Definition one_special (L : list (list Z)) : Prop :=
  plain L = true ∨ ∃ L1 l1 c l2 L2, L = L1 ++ (l1 ++ c :: l2) :: L2 ∧ plain L1 = true ∧
    forallb (negb ∘ special) l1 = true ∧ special c = true ∧ forallb (negb ∘ special) l2 = true ∧ plain L2 = true.

Lemma wire_app L K : wire (L ++ K) = wire L ++ wire K.
Proof. unfold wire. by rewrite fmap_app, join_app. Qed.

Lemma wire_len_app L K : wire_len (L ++ K) = wire_len L + wire_len K.
Proof. by rewrite <- !zlen_wire, wire_app, zlen_app. Qed.

Lemma text_app L K t u : text true L = Some t → text true K = Some u → text true (L ++ K) = Some (t ++ u).
Proof.
  revert t. induction L as [|l L IH]; intros t; [by intros [= <-] H|]. cbn [app text].
  destruct (enc_label true l) as [tl|]; [|done]. cbn. destruct (text true L) as [v|]; [|done]. cbn.
  intros [= <-] HK. rewrite (IH v) by done. cbn. by rewrite <- app_assoc.
Qed.

(** The labels are written over their wire form as text. *)
Lemma from_wire_loop_spec fuel L pre x post :
  Forall good_label L → one_special L → (length L < fuel)%nat →
  ∃ t post', text true L = Some t ∧
    from_wire_loop fuel (zlen pre + wire_len L) (pre ++ wire L ++ 0 :: x :: post) (zlen pre) =
    Ok (pre ++ t ++ 0 :: post', zlen (pre ++ t)).
Proof.
  intros HL [HP|(L1 & l1 & c & l2 & L2 & -> & HP1 & H1 & Hc & H2 & HP2)] Hf.
  { exists (dotted L), (x :: post). split; [by apply text_plain|]. rewrite from_skip by (done || lia).
    destruct (fuel - length L)%nat eqn:Ef; [lia|]. rewrite from_end. by rewrite <- app_assoc. }
  apply Forall_app in HL as [HL1 [[Hz Hl] HL2]%Forall_cons]. rewrite length_app in Hf. cbn [length] in Hf.
  set (l := l1 ++ c :: l2) in *. rewrite wire_len_app. change (wire_len (l :: L2)) with (zlen l + 1 + wire_len L2).
  exists (dotted L1 ++ (l1 ++ NAME_ESCAPE :: (c + 1) :: l2) ++ dot :: dotted L2), post. split.
  { apply text_app; [by apply text_plain|]. cbn [text].
    assert (enc_label true l = Some (l1 ++ NAME_ESCAPE :: (c + 1) :: l2)) as ->.
    { unfold l. apply enc_label_app; [by apply enc_plain|]. cbn [enc_label]. rewrite (enc_plain l2 H2).
      unfold enc_byte. unfold special in Hc. replace ((c =? 0) || (c =? dot) || (c =? NAME_ESCAPE)) with true by lia. cbn.
      rewrite u8_id; [done|]. unfold is_byte, dot, NAME_ESCAPE in *. lia. }
    by rewrite (text_plain _ HP2). }
  rewrite wire_app, <- app_assoc, from_skip by (done || lia). rewrite wire_cons. cbn [app].
  destruct (fuel - length L1)%nat as [|f] eqn:Ef; [lia|]. cbn [from_wire_loop]. rewrite rd_here. cbn [mbind res_bind].
  rewrite (proj2 (Z.eqb_neq (zlen l) 0)) by lia. rewrite <- (app_assoc l), memmove_down by done. cbn [mbind res_bind].
  set (y := List.last l (zlen l)).
  replace (y :: wire L2 ++ 0 :: x :: post) with ((y :: wire L2) ++ 0 :: x :: post) by done.
  replace (zlen pre + (wire_len L1 + (zlen l + 1 + wire_len L2))) with (zlen (pre ++ dotted L1) + zlen l + zlen (y :: wire L2))
    by (rewrite zlen_app, zlen_cons, zlen_wire, zlen_dotted by done; lia).
  unfold l. rewrite escape_one; [|done|done|done|done| |]. 
  2: { constructor; [|by apply wire_bytes]. apply last_byte; [done|unfold is_byte; lia]. }
  2: { rewrite !length_app. cbn. rewrite ?length_app. lia. }
  cbn [mbind res_bind app]. fold l. set (le := l1 ++ NAME_ESCAPE :: (c + 1) :: l2).
  assert (zlen (pre ++ dotted L1) + zlen l + 1 = zlen ((pre ++ dotted L1) ++ le)) as ->
    by (unfold l, le; rewrite !zlen_app, !zlen_cons; lia).
  rewrite app_assoc, wr_middle. cbn [mbind res_bind]. change (u8 dot) with dot.
  replace (((pre ++ dotted L1) ++ le) ++ dot :: wire L2 ++ 0 :: post) with ((((pre ++ dotted L1) ++ le) ++ [dot]) ++ wire L2 ++ 0 :: post)
    by by rewrite <- !app_assoc.
  rewrite <- (zlen_snoc _ dot). rewrite from_skip by (done || lia).
  destruct (f - length L2)%nat eqn:Ef2; [lia|]. rewrite from_end. rewrite <- !app_assoc. done.
Qed.

Lemma text_last L t : text true L = Some t → t = [] ∨ ∃ u, t = u ++ [dot].
Proof.
  revert t. induction L as [|l L IH]; intros t; cbn [text]; [intros [= <-]; by left|].
  destruct (enc_label true l) as [a|]; [|done]. cbn. destruct (text true L) as [b|]; [|done]. cbn. intros [= <-]. right.
  destruct (IH b eq_refl) as [->|[u ->]]; [by exists a|]. exists (a ++ dot :: u). by rewrite <- app_assoc.
Qed.

Lemma from_wire_spec L name pre x post :
  Forall good_label L → one_special L → join true L = Some name →
  ∃ post', from_wire (pre ++ wire L ++ 0 :: x :: post) (zlen pre) = Ok (pre ++ name ++ 0 :: post').
Proof.
  intros HL H1 Hn. rewrite <- render_join in Hn. unfold render in Hn.
  set (buf := pre ++ wire L ++ 0 :: x :: post). assert (length L < S (length buf))%nat as Hf.
  { unfold buf. pose proof (wire_len_nonneg L). rewrite <- zlen_wire in *. rewrite !length_app. unfold zlen in *. lia. }
  destruct (from_wire_loop_spec (S (length buf)) L pre x post HL H1 Hf) as (t & post' & Et & E).
  rewrite Et in Hn. injection Hn as <-. unfold from_wire.
  rewrite (wire_end_spec (S (length buf)) L pre (x :: post) HL Hf : wire_end _ buf _ = _). cbn [mbind res_bind].
  rewrite (E : from_wire_loop _ _ buf _ = _).
  cbn [mbind res_bind]. rewrite zlen_app. destruct (text_last L t Et) as [->|[u ->]].
  - exists post'. rewrite (proj2 (Z.eqb_eq _ _)); [done|]. change (zlen (@nil Z)) with 0. lia.
  - exists (0 :: post'). rewrite zlen_snoc. pose proof (zlen_nonneg u).
    rewrite (proj2 (Z.eqb_neq _ _)) by lia. cbn [negb].
    replace (zlen pre + (zlen u + 1) - 1) with (zlen (pre ++ u)) by (rewrite zlen_app; lia).
    replace (pre ++ (u ++ [dot]) ++ 0 :: post') with ((pre ++ u) ++ dot :: 0 :: post') by by rewrite <- !app_assoc.
    rewrite wr_middle, removelast_last. by rewrite <- app_assoc.
Qed.

Lemma special_lower c : is_byte c → special (lower c) = special c.
Proof. intros Hc. unfold special, lower, dot, NAME_ESCAPE, is_byte in *. case_match; lia. Qed.

Lemma enc_lowered l t : Forall is_byte l → enc_label true l = Some t → enc_label true (lowered l) = Some (lowered t).
Proof.
  revert t. induction l as [|c l IH]; intros t Hl; cbn [enc_label lowered fmap list_fmap]; [by intros [= <-]|].
  apply Forall_cons in Hl as [Hc Hl]. destruct (enc_byte true c) as [tc|] eqn:Ec; [|done].
  destruct (enc_label true l) as [u|]; [|done]. cbn [mbind option_bind]. intros [= <-].
  fold (lowered l). rewrite (IH u) by done. cbn [mbind option_bind]. unfold lowered. rewrite fmap_app.
  destruct (enc_byte_cases c tc Hc Ec) as [[-> H]|[-> H]].
  - assert (lower c = c) as -> by (unfold lower, dot, NAME_ESCAPE in *; case_match; lia). rewrite Ec.
    cbn [mbind option_bind fmap list_fmap]. f_equal. f_equal. destruct H as [->|[->| ->]]; reflexivity.
  - unfold enc_byte. replace ((lower c =? 0) || (lower c =? dot) || (lower c =? NAME_ESCAPE)) with (special (lower c)) by (unfold special; lia).
    rewrite special_lower by done. unfold special. by replace ((c =? dot) || (c =? 0) || (c =? NAME_ESCAPE)) with false by lia.
Qed.

Lemma join_lowered L name : Forall good_label L → join true L = Some name → join true (lowered <$> L) = Some (lowered name).
Proof.
  revert name. induction L as [|l L IH]; intros name HL; cbn [join fmap list_fmap]; [by intros [= <-]|].
  apply Forall_cons in HL as [[_ Hl] HL]. destruct (enc_label true l) as [t|] eqn:Et; [|done].
  rewrite (enc_lowered l t) by done. destruct L as [|l' L]; [by intros [= <-]|]. cbn [mbind option_bind].
  destruct (join true (l' :: L)) as [u|] eqn:Eu; [|done]. intros [= <-]. specialize (IH u HL eq_refl). cbn [fmap list_fmap] in IH |- *. rewrite IH.
  cbn [mbind option_bind]. unfold lowered. by rewrite fmap_app.
Qed.

Lemma plain_lowered l : Forall is_byte l → forallb (negb ∘ special) (lowered l) = forallb (negb ∘ special) l.
Proof. induction 1 as [|c l Hc _ IH]; [done|]. cbn [lowered fmap list_fmap forallb]. rewrite <- IH. unfold compose. by rewrite special_lower. Qed.

Lemma one_special_lowered L : Forall good_label L → one_special L → one_special (lowered <$> L).
Proof.
  assert (∀ K, Forall good_label K → plain (lowered <$> K) = plain K) as Hpl.
  { induction 1 as [|l K [_ Hl] _ IH]; [done|]. rewrite fmap_cons. unfold plain in *. cbn [forallb]. by rewrite plain_lowered, IH. }
  intros HL [HP|(L1 & l1 & c & l2 & L2 & -> & HP1 & H1 & Hc & H2 & HP2)]; [left; by rewrite Hpl|right].
  apply Forall_app in HL as [HL1 [[_ Hl] HL2]%Forall_cons]. apply Forall_app in Hl as [Hl1 [Hb Hl2]%Forall_cons].
  exists (lowered <$> L1), (lowered l1), (lower c), (lowered l2), (lowered <$> L2).
  rewrite !Hpl, !plain_lowered, special_lower by done. split_and!; try done.
  rewrite fmap_app, fmap_cons. unfold lowered at 2. by rewrite fmap_app.
Qed.

Lemma good_lowered L : Forall good_label L → Forall good_label (lowered <$> L).
Proof.
  intros HL. apply Forall_fmap. eapply Forall_impl; [done|]. intros l [Hz Hb]. split; [|by apply lowered_bytes].
  unfold lowered, zlen. by rewrite length_fmap.
Qed.

Lemma to_from_wire L name pre post :
  Forall good_label L → render true L = Some name → 2 ≤ zlen post → Forall is_byte post →
  ∃ buf post', to_wire (pre ++ name ++ 0 :: post) (zlen pre) = Ok (buf, wire_len L + 1) ∧
    buf = pre ++ wire (lowered <$> L) ++ 0 :: post' ∧
    (one_special L → ∃ post'', from_wire buf (zlen pre) = Ok (pre ++ lowered name ++ 0 :: post'')).
Proof.
  intros HL Hn Hp Hb. rewrite render_join in Hn.
  destruct (to_wire_spec L name pre post HL Hn) as (post' & E & Hb' & Hz); [by destruct post|done|].
  eexists _, post'. split_and!; [exact E|done|]. intros H1.
  assert (wire_len L ≤ zlen name + 1) as Hw.
  { clear -HL Hn. revert name Hn. induction HL as [|l L [Hz Hl] HL IH]; intros name; [intros [= <-]; done|].
    intros (t & rest & Et & -> & He & Hr & HLr)%join_cons. pose proof (enc_label_length _ _ _ Et).
    specialize (IH _ Hr). cbn [wire_len foldr]. fold (wire_len L). rewrite zlen_app.
    destruct He as [->|[r ->]]; [|rewrite zlen_cons in *; cbn [tail] in IH; unfold zlen in *; lia].
    assert (L = []) as -> by by apply HLr. change (wire_len []) with 0. unfold zlen in *. simpl. lia. }
  destruct post' as [|x post']; [change (zlen (@nil Z)) with 0 in Hz; lia|].
  apply from_wire_spec; [by apply good_lowered|by apply one_special_lowered|by apply join_lowered].
Qed.

(** The form in which names are hashed: [to_wire] replaces a name in its buffer by
    its labels in lower case, each behind its length, with the terminating zero, and returns
    the number of these bytes, whatever bytes are escaped in the name and whatever follows it;
    and [from_wire] puts the name back, in lower case, as long as one byte of it is escaped at
    most. *)
Theorem wire_names_round_trip L name pre post :
  Forall good_label L → render true L = Some name → 2 ≤ zlen post → Forall is_byte post →
  ∃ buf post', to_wire (pre ++ name ++ 0 :: post) (zlen pre) = Ok (buf, wire_len L + 1) ∧
    buf = pre ++ wire (lowered <$> L) ++ 0 :: post' ∧
    (one_special L → ∃ post'', from_wire buf (zlen pre) = Ok (pre ++ lowered name ++ 0 :: post'')).
Proof. apply to_from_wire. Qed.

Lemma wire_names_round_trip_witness :
  ∃ buf post', to_wire ([] ++ [65; 1; 47; 46; 98; 67] ++ 0 :: [7; 7]) (zlen (@nil Z)) = Ok (buf, 7) ∧
    buf = [] ++ [2; 97; 46; 2; 98; 99] ++ 0 :: post' ∧
    (one_special [[65; 46]; [98; 67]] → ∃ post'', from_wire buf (zlen (@nil Z)) = Ok ([] ++ [97; 1; 47; 46; 98; 99] ++ 0 :: post'')).
Proof.
  apply (wire_names_round_trip [[65; 46]; [98; 67]] [65; 1; 47; 46; 98; 67] [] [7; 7]);
    [|reflexivity|unfold zlen; simpl; lia|apply bytes_forallb; reflexivity].
  repeat constructor; unfold is_byte, zlen; simpl; lia.
Defined.

(** The end of the name is found once and not moved along: with three escaped bytes the
    last character of the name is lost, here the e of a name that ends in .bcde. *)
Example third_escape_lost :
  ('(buf, _) ← to_wire ([97; 1; 47; 1; 47; 1; 47; 46; 98; 99; 100; 101] ++ repeat 0 8) 0; from_wire buf 0) =
  Ok ([97; 1; 47; 1; 47; 1; 47; 46; 98; 99; 100; 1; 1] ++ repeat 0 7).
Proof. reflexivity. Qed.

(** With two, the terminator is lost when the byte behind the name is not zero. *)
Example second_escape_overreads :
  ('(buf, _) ← to_wire ([97; 1; 47; 1; 47; 46; 98; 99; 0] ++ repeat 120 8) 0; from_wire buf 0) = Oob.
Proof. reflexivity. Qed.
