(* ===== verification/DnssecOrder.v ===== *)
(** The order of names in DNSSEC, against the canonical order of RFC 4034:
    labels compared from the last to the first, in lower case, byte by byte. *)
From S2P Require Import Prelude Hostname Wire WireSpec DnssecName DnssecNameSpec.

(** * Lexicographic comparison *)

Section lex.
Context {A : Type} (cmp : A → A → comparison).

Fixpoint lexc (l k : list A) : comparison :=
  match l, k with
  | [], [] => Eq
  | [], _ => Lt
  | _, [] => Gt
  | x :: l, y :: k => match cmp x y with Eq => lexc l k | r => r end
  end.

Context (cmp_eq : ∀ x y, cmp x y = Eq ↔ x = y).
Context (cmp_opp : ∀ x y, cmp y x = CompOpp (cmp x y)).
Context (cmp_trans : ∀ x y z, cmp x y = Lt → cmp y z = Lt → cmp x z = Lt).

Lemma lexc_eq l k : lexc l k = Eq ↔ l = k.
Proof.
  revert k. induction l as [|x l IH]; intros [|y k]; cbn; try done.
  destruct (cmp x y) eqn:E; [|split; [done|]..].
  - apply cmp_eq in E as ->. rewrite IH. naive_solver.
  - intros [= -> ->]. by rewrite (proj2 (cmp_eq y y)) in E.
  - intros [= -> ->]. by rewrite (proj2 (cmp_eq y y)) in E.
Qed.

Lemma lexc_opp l k : lexc k l = CompOpp (lexc l k).
Proof.
  revert k. induction l as [|x l IH]; intros [|y k]; cbn; try done.
  rewrite (cmp_opp x y). destruct (cmp x y); cbn; auto.
Qed.

Lemma lexc_trans l k m : lexc l k = Lt → lexc k m = Lt → lexc l m = Lt.
Proof.
  revert k m. induction l as [|x l IH]; intros [|y k] [|z m]; cbn; try done.
  destruct (cmp x y) eqn:E1; try done.
  - apply cmp_eq in E1 as ->. destruct (cmp y z); try done. apply IH.
  - destruct (cmp y z) eqn:E2; try done.
    + apply cmp_eq in E2 as ->. by rewrite E1.
    + by rewrite (cmp_trans x y z).
Qed.
End lex.

Definition bytes_order : list Z → list Z → comparison := lexc Z.compare.

Lemma Zcompare_trans x y z : (x ?= y) = Lt → (y ?= z) = Lt → (x ?= z) = Lt.
Proof. rewrite !Z.compare_lt_iff. lia. Qed.
Lemma bytes_order_eq l k : bytes_order l k = Eq ↔ l = k.
Proof. apply lexc_eq, Z.compare_eq_iff. Qed.
Lemma bytes_order_opp l k : bytes_order k l = CompOpp (bytes_order l k).
Proof. apply lexc_opp. intros. apply Z.compare_antisym. Qed.
Lemma bytes_order_trans l k m : bytes_order l k = Lt → bytes_order k m = Lt → bytes_order l m = Lt.
Proof. apply lexc_trans; [apply Z.compare_eq_iff|apply Zcompare_trans]. Qed.

(** * Labels of a name *)

Fixpoint split_dots (s : cstring) : list cstring :=
  match s with
  | [] => [[]]
  | c :: s => if c =? dot then [] :: split_dots s
              else match split_dots s with l :: L => (c :: l) :: L | [] => [[c]] end
  end.

Lemma split_dots_nonempty s : split_dots s ≠ [].
Proof. destruct s as [|c s]; [done|]. cbn. case_match; [done|]. by destruct (split_dots s). Qed.

Lemma split_plain s : dot ∉ s → split_dots s = [s].
Proof.
  induction s as [|c s IH]; [done|]. intros [Hc Hs]%not_elem_of_cons. cbn.
  rewrite (proj2 (Z.eqb_neq c dot)) by done. by rewrite IH.
Qed.

Lemma split_snoc s l : dot ∉ l → split_dots (s ++ dot :: l) = split_dots s ++ [l].
Proof.
  intros Hl. induction s as [|c s IH]; cbn.
  - by rewrite split_plain.
  - case_match; [by rewrite IH|]. rewrite IH. pose proof (split_dots_nonempty s). by destruct (split_dots s).
Qed.

Fixpoint join_dots (L : list cstring) : cstring :=
  match L with [] => [] | [l] => l | l :: L => l ++ dot :: join_dots L end.

Lemma join_split s : join_dots (split_dots s) = s.
Proof.
  induction s as [|c s IH]; [done|]. cbn. pose proof (split_dots_nonempty s). case_match eqn:E.
  - apply Z.eqb_eq in E as ->. destruct (split_dots s) as [|l L]; [done|]. cbn in *. by rewrite IH.
  - destruct (split_dots s) as [|l [|l' L]]; [done|cbn in *; by rewrite IH..].
Qed.

Lemma split_lowered s : split_dots (lowered s) = lowered <$> split_dots s.
Proof.
  induction s as [|c s IH]; [done|]. unfold lowered at 1. cbn [fmap list_fmap split_dots]. fold (lowered s).
  replace (lower c =? dot) with (c =? dot).
  2: { destruct (Z.eqb_spec c dot) as [->|H]; [done|]. symmetry. apply Z.eqb_neq. unfold dot. by rewrite lower_dot. }
  change (list_fmap _ _ lower s) with (lowered s). rewrite IH. case_match; [done|]. by destruct (split_dots s).
Qed.

(** The canonical form of a name and the order of these forms. *)
Definition canon (s : cstring) : list cstring := reverse (lowered <$> split_dots s).
Definition name_order (a b : cstring) : comparison := lexc bytes_order (canon a) (canon b).

Lemma canon_ci a b : canon a = canon b ↔ ci_eq a b.
Proof.
  unfold canon, ci_eq. fold (lowered a) (lowered b). rewrite <- !split_lowered. split; [|by intros ->].
  intros H%(f_equal reverse). rewrite !reverse_involutive in H. by rewrite <- (join_split (lowered a)), H, join_split.
Qed.

Lemma name_order_eq a b : name_order a b = Eq ↔ ci_eq a b.
Proof. unfold name_order. rewrite lexc_eq; [apply canon_ci|apply bytes_order_eq]. Qed.
Lemma name_order_opp a b : name_order b a = CompOpp (name_order a b).
Proof. apply lexc_opp, bytes_order_opp. Qed.
Lemma name_order_trans a b c : name_order a b = Lt → name_order b c = Lt → name_order a c = Lt.
Proof. apply lexc_trans; [apply bytes_order_eq|apply bytes_order_trans]. Qed.

Lemma canon_snoc s l : dot ∉ l → canon (s ++ dot :: l) = lowered l :: canon s.
Proof. intros Hl. unfold canon. by rewrite split_snoc, fmap_app, reverse_app. Qed.
Lemma canon_plain l : dot ∉ l → canon l = [lowered l].
Proof. intros Hl. unfold canon. by rewrite split_plain. Qed.
Lemma canon_nonempty s : canon s ≠ [].
Proof.
  unfold canon. pose proof (split_dots_nonempty s). intros E%(f_equal reverse). rewrite reverse_involutive in E.
  by destruct (split_dots s).
Qed.

(** * The code *)

Definition sign (c : comparison) : Z := match c with Eq => 0 | Lt => -1 | Gt => 1 end.

Lemma cmp_label_spec ca cb :
  cmp_label ca cb = match bytes_order (lowered ca) (lowered cb) with Eq => None | r => Some (sign r) end.
Proof.
  revert cb. induction ca as [|a ca IH]; intros [|b cb]; try done. cbn [cmp_label lowered fmap list_fmap]. unfold bytes_order. cbn [lexc].
  destruct (Z.compare_spec (lower a) (lower b)) as [E|E|E].
  - rewrite E, Z.ltb_irrefl, Z.eqb_refl. cbn [negb]. apply IH.
  - by rewrite (proj2 (Z.ltb_lt _ _)).
  - rewrite (proj2 (Z.ltb_ge _ _)) by lia. by rewrite (proj2 (Z.eqb_neq _ _)) by lia.
Qed.

Lemma label_start_spec a ea : (ea ≤ length a)%nat →
  (label_start a ea ≤ ea)%nat ∧ (dot ∉ drop (label_start a ea) (take ea a)) ∧
  match label_start a ea with O => True | S k => take ea a = take k a ++ dot :: drop (S k) (take ea a) end.
Proof.
  induction ea as [|k IH]; intros Hl; cbn [label_start].
  { split_and!; [lia|rewrite take_0; set_solver|done]. }
  destruct (lookup_lt_is_Some_2 a k) as [x Hx]; [lia|].
  assert (deref (drop k a) = x) as -> by by rewrite (drop_S _ _ _ Hx).
  rewrite (take_S_r _ _ _ Hx). destruct (Z.eqb_spec x dot) as [->|Hne].
  - rewrite drop_app, length_take, drop_ge by (rewrite length_take; lia).
    replace (S k - k `min` length a)%nat with 1%nat by lia. cbn. split_and!; [lia|set_solver|done].
  - destruct IH as (Hle & Hd & Hs); [lia|]. rewrite drop_app_le by (rewrite length_take; lia).
    split_and!; [lia|set_solver|]. destruct (label_start a k) as [|j]; [done|].
    rewrite Hs at 1. rewrite <- app_assoc, drop_app_le by (rewrite length_take; lia). done.
Qed.

Lemma canon_last a ea : (ea ≤ length a)%nat →
  canon (take ea a) = lowered (drop (label_start a ea) (take ea a)) ::
    match label_start a ea with O => [] | S k => canon (take k a) end.
Proof.
  intros Ha. destruct (label_start_spec a ea Ha) as (_ & Hd & Hs). destruct (label_start a ea) as [|k].
  - rewrite drop_0 in *. by apply canon_plain.
  - rewrite Hs at 1. by apply canon_snoc.
Qed.

Lemma cmp_loop_spec fuel a b ea eb : (ea ≤ length a)%nat → (eb ≤ length b)%nat → (ea < fuel)%nat →
  cmp_loop fuel a b ea eb = Ok (sign (name_order (take ea a) (take eb b))).
Proof.
  revert ea eb. induction fuel as [|fuel IH]; intros ea eb Ha Hb Hf; [lia|]. cbn [cmp_loop].
  pose proof (proj1 (label_start_spec a ea Ha)) as La. pose proof (proj1 (label_start_spec b eb Hb)) as Lb.
  rewrite cmp_label_spec. unfold name_order. rewrite (canon_last a ea Ha), (canon_last b eb Hb). cbn [lexc].
  destruct (bytes_order _ _); [|done..].
  destruct (label_start a ea) as [|ja], (label_start b eb) as [|jb]; [done|..].
  - pose proof (canon_nonempty (take jb b)). by destruct (canon (take jb b)).
  - pose proof (canon_nonempty (take ja a)). by destruct (canon (take ja a)).
  - apply IH; lia.
Qed.

(** C21. The order of names of the NSEC records: [hostname_cmp] compares names as RFC 4034
    orders them, label by label from the last one, by the values of the bytes, without regard to
    case; it gives 0 just for names that are equal up to case, and the opposite for the names
    exchanged. *)
Theorem hostname_cmp_canonical a b :
  hostname_cmp a b = Ok (sign (name_order a b)) ∧ (hostname_cmp a b = Ok 0 ↔ ci_eq a b) ∧
  hostname_cmp b a = Ok (- sign (name_order a b)).
Proof.
  unfold hostname_cmp. rewrite !cmp_loop_spec, !firstn_all by lia. rewrite (name_order_opp a b), <- name_order_eq.
  split_and!; [done| |by destruct (name_order a b)]. destruct (name_order a b); cbn; naive_solver.
Qed.

Lemma hostname_cmp_spec a b : hostname_cmp a b = Ok (sign (name_order a b)).
Proof. unfold hostname_cmp. by rewrite cmp_loop_spec, !firstn_all by lia. Qed.

(** What is compared is the text: a byte that is escaped in it comes before all others. The label
    of one dot is put before the label of one minus sign, although its byte is greater. *)
Example escaped_bytes_first : hostname_cmp [1; 47] [45] = Ok (-1) ∧ bytes_order [46] [45] = Gt.
Proof. done. Qed.

(** * Serial numbers *)

(** Serial numbers are compared by their distance modulo 2^32, in the direction in which it is
    shorter; at the distance 2^31 there is no order. *)
Lemma serial_compare_spec s1 s2 : 0 ≤ s1 < 2 ^ 32 → 0 ≤ s2 < 2 ^ 32 →
  serial_compare_32 s1 s2 = (let d := u32 (s2 - s1) in
    if d =? 0 then SERIAL_EQ else if d <? 2 ^ 31 then SERIAL_LT else if 2 ^ 31 <? d then SERIAL_GT else SERIAL_UNDEF).
Proof.
  change (2 ^ 32) with 4294967296. intros H1 H2. unfold serial_compare_32, u32. change (2 ^ 31) with 2147483648.
  cbv zeta. destruct (Z.lt_trichotomy s1 s2) as [H|[->|H]].
  - rewrite (Z.mod_small (s2 - s1)) by lia.
    rewrite (proj2 (Z.eqb_neq s1 s2)), (proj2 (Z.eqb_neq (s2 - s1) 0)), (proj2 (Z.ltb_lt s1 s2)), (proj2 (Z.ltb_ge s2 s1)) by lia.
    by rewrite !orb_false_r.
  - by rewrite Z.eqb_refl, Z.sub_diag.
  - replace ((s2 - s1) mod 4294967296) with (4294967296 - (s1 - s2)) by dlia.
    rewrite (Z.mod_small (s1 - s2)) by lia.
    rewrite (proj2 (Z.eqb_neq s1 s2)), (proj2 (Z.eqb_neq (4294967296 - (s1 - s2)) 0)), (proj2 (Z.ltb_ge s1 s2)), (proj2 (Z.ltb_lt s2 s1)) by lia.
    cbn [andb orb]. repeat case_match; bool_hyps; (done || lia).
Qed.

(** The example of the documentation, www.example.com and mail.example.com: the first is the greater. *)
Example www_after_mail :
  let com := [46; 101; 120; 97; 109; 112; 108; 101; 46; 99; 111; 109] in
  hostname_cmp ([119; 119; 119] ++ com) ([109; 97; 105; 108] ++ com) = Ok 1.
Proof. vm_compute. reflexivity. Qed.
