(* ===== verification/DnssecCode.v ===== *)
(** The encodings of DNSSEC: base 32 of the names of NSEC3 records, and key tags. *)
From S2P Require Import Prelude Hostname Wire WireSafe WireSpec WireExt DnssecName.

(** * Bits, the most significant first *)

Fixpoint bits (n : nat) (v : Z) : list bool :=
  match n with O => [] | S k => Z.testbit v (Z.of_nat k) :: bits k v end.

Fixpoint of_bits_from (acc : Z) (bs : list bool) : Z :=
  match bs with [] => acc | b :: bs => of_bits_from (2 * acc + zb b) bs end.
Definition of_bits : list bool → Z := of_bits_from 0.

Lemma of_bits_snoc acc bs b : of_bits_from acc (bs ++ [b]) = 2 * of_bits_from acc bs + zb b.
Proof. revert acc. induction bs as [|x bs IH]; intros acc; cbn; [done|apply IH]. Qed.

Lemma of_bits_bound bs : 0 ≤ of_bits bs < 2 ^ zlen bs.
Proof.
  induction bs as [|b bs IH] using rev_ind; [done|]. unfold of_bits in *. rewrite of_bits_snoc, zlen_snoc.
  rewrite Z.pow_add_r by (pose proof (zlen_nonneg bs); lia). change (2 ^ 1) with 2. destruct b; cbn [zb]; lia.
Qed.

Lemma length_bits n v : length (bits n v) = n.
Proof. induction n; cbn; auto. Qed.

Lemma bits_snoc n v : bits (S n) v = bits n (v / 2) ++ [Z.odd v].
Proof.
  induction n as [|n IH]; [done|]. change (bits (S (S n)) v) with (Z.testbit v (Z.of_nat (S n)) :: bits (S n) v). rewrite IH.
  cbn [bits app]. f_equal. rewrite <- Z.div2_div, Z.div2_spec, Z.shiftr_spec by lia. f_equal. lia.
Qed.

(** The value of the last bits of a number. *)
Lemma bits_of_bits bs v : v mod 2 ^ zlen bs = of_bits bs → bits (length bs) v = bs.
Proof.
  revert v. induction bs as [|b bs IH] using rev_ind; intros v; [done|].
  unfold of_bits. rewrite of_bits_snoc, zlen_snoc, length_app, Nat.add_1_r, bits_snoc.
  fold (of_bits bs). rewrite Z.pow_add_r by (pose proof (zlen_nonneg bs); lia). change (2 ^ 1) with 2. intros Hv.
  assert (0 < 2 ^ zlen bs) as Hp by (apply Z.pow_pos_nonneg; [lia|apply zlen_nonneg]).
  assert (v / 2 mod 2 ^ zlen bs = of_bits bs ∧ v mod 2 = zb b) as [H1 H2].
  { rewrite (Z.mul_comm _ 2), Z.rem_mul_r in Hv by lia. pose proof (Z.mod_pos_bound v 2).
    destruct b; cbn [zb] in *; lia. }
  rewrite IH by done. f_equal. f_equal. rewrite Zmod_odd in H2. destruct (Z.odd v), b; cbn in *; (done || lia).
Qed.

Lemma flag_pow2 x j : 0 ≤ j → flag x (2 ^ j) = Z.testbit x j.
Proof.
  intros Hj. unfold flag. destruct (Z.testbit x j) eqn:E.
  - apply negb_true_iff, Z.eqb_neq. intros H%(f_equal (λ z, Z.testbit z j)).
    by rewrite Z.land_spec, E, Z.pow2_bits_true, Z.bits_0 in H by done.
  - apply negb_false_iff, Z.eqb_eq. apply Z.bits_inj'. intros i Hi. rewrite Z.land_spec, Z.bits_0, Z.pow2_bits_eqb by done.
    destruct (Z.eqb_spec j i) as [->|]; [by rewrite E|by rewrite andb_false_r].
Qed.

(** * Base 32 *)

(** The bits that have been read, as whole bytes and the rest. *)
Record reads (bs : list bool) (st : b32) : Prop := {
  rs_pend : ∃ pend, bs = concat (bits 8 <$> b_out st) ++ pend ∧ (length pend < 8)%nat ∧
    b_oc st mod 2 ^ (zlen pend + 1) = 2 * of_bits pend;
  rs_on : b_on st = zlen bs;
  rs_out : Forall is_byte (b_out st)
}.

Definition b32_bit (b : bool) (st : b32) : b32 :=
  let oc := if b then Z.lor (b_oc st) 1 else b_oc st in
  let on := b_on st + 1 in
  B32 (u32 (Z.shiftl oc 1)) on (if Z.land on 7 =? 0 then b_out st ++ [u8 oc] else b_out st).

Lemma land_7 x : Z.land x 7 = x mod 8.
Proof. change 7 with (Z.ones 3). by rewrite Z.land_ones. Qed.

Lemma zlen_bytes out : zlen (concat (bits 8 <$> out)) = 8 * zlen out.
Proof.
  induction out as [|x out IH]; [done|]. rewrite fmap_cons. cbn [concat]. rewrite zlen_app, IH, zlen_cons.
  unfold zlen at 1. rewrite length_bits. lia.
Qed.

Lemma pow_le8 k : 0 ≤ k ≤ 8 → ∃ m, 4294967296 = m * 2 ^ k ∧ 0 < 2 ^ k.
Proof.
  intros Hk. exists (2 ^ (32 - k)). split; [|apply Z.pow_pos_nonneg; lia].
  rewrite <- Z.pow_add_r by lia. by replace (32 - k + k) with 32 by lia.
Qed.

Lemma b32_bit_reads bs st b : reads bs st → reads (bs ++ [b]) (b32_bit b st).
Proof.
  intros [(pend & E & Hl & Hoc) Hon Hout]. set (oc := if b then Z.lor (b_oc st) 1 else b_oc st).
  pose proof (zlen_nonneg pend) as Hn. pose proof (of_bits_bound pend) as Hb.
  assert (zlen pend < 8) as Hz by (unfold zlen; lia).
  assert (0 < 2 ^ zlen pend) as Hp by (apply Z.pow_pos_nonneg; lia).
  rewrite Z.pow_add_r in Hoc by lia. change (2 ^ 1) with 2 in Hoc.
  assert (oc mod 2 ^ zlen (pend ++ [b]) = of_bits (pend ++ [b])) as Hoc1.
  { unfold of_bits. rewrite zlen_snoc, of_bits_snoc, Z.pow_add_r by lia. change (2 ^ 1) with 2. fold (of_bits pend).
    assert (oc = b_oc st + zb b) as ->.
    { unfold oc. destruct b; cbn [zb]; [|lia]. rewrite (Z.mul_comm _ 2), Z.rem_mul_r in Hoc by lia.
      pose proof (Z.mod_pos_bound (b_oc st) 2). assert (b_oc st mod 2 = 0) as H0 by lia.
      replace (b_oc st) with (Z.shiftl (b_oc st / 2) 1) at 1 by (rewrite Z.shiftl_mul_pow2 by lia; change (2 ^ 1) with 2; dlia).
      rewrite lor_shiftl by lia. change (2 ^ 1) with 2. dlia. }
    rewrite <- Z.add_mod_idemp_l, Hoc by lia. apply Z.mod_small. destruct b; cbn [zb]; lia. }
  assert (Z.land (b_on st + 1) 7 = (zlen pend + 1) mod 8) as Hland.
  { rewrite land_7, Hon, E, zlen_app, zlen_bytes. replace (8 * zlen (b_out st) + zlen pend + 1) with (zlen pend + 1 + zlen (b_out st) * 8) by lia.
    by rewrite Z.mod_add. }
  split; [|unfold b32_bit; cbn [b_on]; rewrite Hon, zlen_snoc; lia|].
  2: { unfold b32_bit. cbn [b_out]. case_match; [|done]. apply Forall_snoc. split; [done|apply u8_byte]. }
  unfold b32_bit. fold oc. cbn [b_out b_oc]. rewrite Hland. rewrite Z.shiftl_mul_pow2 by lia. change (2 ^ 1) with 2.
  destruct (Z.eqb_spec ((zlen pend + 1) mod 8) 0) as [H0|H0].
  - exists []. assert (zlen pend = 7) as H7 by dlia. rewrite fmap_app, concat_app, app_nil_r. cbn [fmap list_fmap concat]. rewrite app_nil_r.
    split_and!; [|cbn; lia|change (zlen (@nil bool)) with 0; unfold u32, of_bits; cbn; change (2 ^ (0 + 1)) with 2; dlia].
    rewrite E, <- app_assoc. f_equal.
    assert (length (pend ++ [b]) = 8%nat) as H8 by (rewrite length_app; unfold zlen in H7; cbn; lia).
    rewrite <- H8. symmetry. apply bits_of_bits. rewrite <- Hoc1, zlen_snoc, H7. unfold u8. change (2 ^ (7 + 1)) with 256.
    by rewrite Z.mod_mod.
  - exists (pend ++ [b]). assert (zlen pend + 1 < 8) as H8.
    { destruct (Z.eq_dec (zlen pend) 7) as [E7|]; [rewrite E7 in H0; done|lia]. }
    split_and!; [by rewrite E, <- app_assoc|rewrite length_app; unfold zlen in H8; cbn; lia|].
    rewrite <- Hoc1, zlen_snoc. destruct (pow_le8 (zlen pend + 1 + 1)) as (m & Em & Hm); [lia|]. unfold u32.
    rewrite Z.mod_mod_divide by (exists m; exact Em).
    rewrite Z.pow_add_r by lia. change (2 ^ 1) with 2. rewrite (Z.mul_comm oc 2), (Z.mul_comm (2 ^ _) 2). apply Z.mul_mod_distr_l; lia.
Qed.

Lemma b32_bits_spec v st : b32_bits 5 v 16 st = foldl (λ st b, b32_bit b st) st (bits 5 v).
Proof.
  change 16 with (2 ^ 4). cbn [b32_bits bits foldl]. 
  change (Z.shiftr (2 ^ 4) 1) with (2 ^ 3). change (Z.shiftr (2 ^ 3) 1) with (2 ^ 2).
  change (Z.shiftr (2 ^ 2) 1) with (2 ^ 1). change (Z.shiftr (2 ^ 1) 1) with (2 ^ 0).
  rewrite !flag_pow2 by lia. done.
Qed.

Lemma foldl_reads bs bs' st : reads bs st → reads (bs ++ bs') (foldl (λ st b, b32_bit b st) st bs').
Proof.
  revert bs st. induction bs' as [|b bs' IH]; intros bs st H; cbn [foldl]; [by rewrite app_nil_r|].
  replace (bs ++ b :: bs') with ((bs ++ [b]) ++ bs') by by rewrite <- app_assoc. by apply IH, b32_bit_reads.
Qed.

(** The values of the digits of a string, up to a dot. *)
Fixpoint digits32 (s : cstring) : option (list Z) :=
  match s with
  | [] => Some []
  | c :: s => if c =? dot then Some [] else v ← digit32 c; vs ← digits32 s; Some (v :: vs)
  end.

Lemma b32_loop_spec s bs st : reads bs st →
  match digits32 s with
  | Some vs => ∃ st', b32_loop s st = Ok st' ∧ reads (bs ++ concat (bits 5 <$> vs)) st'
  | None => b32_loop s st = Bad
  end.
Proof.
  revert bs st. induction s as [|c s IH]; intros bs st H; cbn [digits32 b32_loop].
  { exists st. cbn. by rewrite app_nil_r. }
  destruct (c =? dot); [exists st; cbn; by rewrite app_nil_r|].
  destruct (digit32 c) as [v|]; [|done]. cbn [mbind option_bind].
  specialize (IH (bs ++ bits 5 v) (b32_bits 5 v 16 st)). rewrite b32_bits_spec in *.
  specialize (IH (foldl_reads _ _ _ H)). destruct (digits32 s) as [vs|]; cbn [mbind option_bind]; [|done].
  destruct IH as (st' & E & Hr). exists st'. split; [done|]. rewrite fmap_cons. cbn [concat]. by rewrite app_assoc.
Qed.

Lemma bits8_inj out out' : Forall is_byte out → Forall is_byte out' → concat (bits 8 <$> out) = concat (bits 8 <$> out') → out = out'.
Proof.
  intros H. revert out'. induction H as [|x out Hx _ IH]; intros [|y out'] Hy E; try done.
  apply Forall_cons in Hy as [Hy Hy']. rewrite !fmap_cons in E. cbn [concat] in E.
  apply app_inj_1 in E as [E1 E2]; [|by rewrite !length_bits]. f_equal; [|by apply IH].
  assert (∀ z, is_byte z → z = of_bits (bits 8 z)) as Hz.
  { intros z Hz. pose proof (byte_cases (λ z, z =? of_bits (bits 8 z)) z Hz) as H8. apply Z.eqb_eq. apply H8. by vm_compute. }
  by rewrite (Hz x Hx), (Hz y Hy), E1.
Qed.

Lemma reads_start : reads [] (B32 0 0 []).
Proof. split; [|done|constructor]. exists []. split_and!; [done|cbn; lia|done]. Qed.

(** What is decoded has the bits of the digits, and nothing else is decoded. *)
Lemma base32_decode_spec s out :
  base32_decode s = Ok out ↔
  ∃ vs, digits32 s = Some vs ∧ concat (bits 5 <$> vs) = concat (bits 8 <$> out) ∧ Forall is_byte out ∧ out ≠ [].
Proof.
  unfold base32_decode. pose proof (b32_loop_spec s [] _ reads_start) as H. cbn [app] in H.
  destruct (digits32 s) as [vs|]; [|rewrite H; naive_solver]. destruct H as (st & -> & [(pend & E & Hl & _) Hon Hout]).
  cbn [mbind res_bind].
  assert (Z.land (b_on st) 7 = zlen pend) as ->.
  { rewrite land_7, Hon, E, zlen_app, zlen_bytes. unfold zlen. dlia. }
  destruct (Z.eqb_spec (zlen pend) 0) as [H0|H0]; cbn [negb].
  - assert (pend = []) as -> by (destruct pend; [done|rewrite zlen_cons in H0; pose proof (zlen_nonneg pend); lia]).
    rewrite app_nil_r in E. split.
    + intros Ho. exists vs. destruct (b_out st) as [|x o] eqn:Eo; [done|]. injection Ho as <-. by rewrite E.
    + intros (vs' & [= <-] & E' & Hb & Hne). rewrite E in E'. apply bits8_inj in E' as ->; [|done..]. by destruct out.
  - split; [done|]. intros (vs' & [= <-] & E' & _). exfalso. rewrite E in E'. apply (f_equal zlen) in E'.
    rewrite zlen_app, !zlen_bytes in E'. unfold zlen in *. lia.
Qed.

(** The encoder of RFC 4648 with the extended hexadecimal alphabet. *)
Fixpoint chunks5 (fuel : nat) (bs : list bool) : list (list bool) :=
  match fuel, bs with
  | S fuel, _ :: _ => take 5 bs :: chunks5 fuel (drop 5 bs)
  | _, _ => []
  end.
Definition char32 (v : Z) : Z := if v <? 10 then 48 + v else 97 + (v - 10).
Definition base32_encode (bytes : list Z) : cstring :=
  let bs := concat (bits 8 <$> bytes) in (char32 ∘ of_bits) <$> chunks5 (length bs) bs.

Lemma digit_char v : 0 ≤ v < 32 → digit32 (char32 v) = Some v ∧ char32 v ≠ dot.
Proof. intros Hv. unfold char32, digit32, dot. repeat case_match; bool_hyps; try (split; [f_equal|]; lia); exfalso; lia. Qed.

Lemma chunks5_spec fuel bs k : length bs = (5 * k)%nat → (length bs ≤ fuel)%nat →
  concat (chunks5 fuel bs) = bs ∧ Forall (λ c, length c = 5%nat) (chunks5 fuel bs).
Proof.
  revert fuel bs. induction k as [|k IH]; intros fuel bs Hl Hf.
  { destruct bs; [|cbn in Hl; lia]. destruct fuel; by split. }
  destruct fuel as [|fuel]; [lia|]. destruct bs as [|b bs]; [cbn in Hl; lia|].
  change (chunks5 (S fuel) (b :: bs)) with (take 5 (b :: bs) :: chunks5 fuel (drop 5 (b :: bs))).
  destruct (IH fuel (drop 5 (b :: bs))) as [E H]; [rewrite length_drop; lia..|]. cbn [concat]. rewrite E. split; [apply take_drop|].
  constructor; [|done]. rewrite length_take. lia.
Qed.

Lemma digits_encode cs rest : Forall (λ c, length c = 5%nat) cs → ends_label rest →
  digits32 (((char32 ∘ of_bits) <$> cs) ++ rest) = Some (of_bits <$> cs) ∧ concat (bits 5 <$> (of_bits <$> cs)) = concat cs.
Proof.
  intros H Hr. induction H as [|c cs Hc _ IH].
  { split; [|done]. destruct Hr as [->|[r ->]]; done. }
  rewrite !fmap_cons. cbn [app digits32 concat].
  assert (0 ≤ of_bits c < 32) as Hv by (pose proof (of_bits_bound c) as Hb; unfold zlen in Hb; by rewrite Hc in Hb).
  destruct (digit_char (of_bits c) Hv) as [Hd Hn]. change ((char32 ∘ of_bits) c) with (char32 (of_bits c)).
  rewrite (proj2 (Z.eqb_neq _ _)) by done.
  rewrite Hd. cbn [mbind option_bind]. destruct IH as [-> ->]. split; [done|]. f_equal. rewrite <- Hc at 1.
  apply bits_of_bits. unfold zlen. rewrite Hc. by apply Z.mod_small.
Qed.

(** The names of NSEC3 records are read as base 32: what is decoded has the bits of the digits, up to
    the first dot, and upper and lower case digits are the same; strings with other characters, or
    with a number of bits that is not that of whole bytes, are refused. In particular the encoding
    of any bytes, five or a multiple of five of them, as are hashes by SHA-1, is decoded to these
    bytes. *)
Theorem base32_round_trip :
  (∀ s out, base32_decode s = Ok out ↔
     ∃ vs, digits32 s = Some vs ∧ concat (bits 5 <$> vs) = concat (bits 8 <$> out) ∧ Forall is_byte out ∧ out ≠ []) ∧
  (∀ s, (∃ out, base32_decode s = Ok out) ∨ base32_decode s = Bad) ∧
  (∀ bytes rest k, Forall is_byte bytes → length bytes = (5 * S k)%nat → ends_label rest →
     base32_decode (base32_encode bytes ++ rest) = Ok bytes).
Proof.
  split_and!; [apply base32_decode_spec| |].
  - intros s. unfold base32_decode. pose proof (b32_loop_spec s [] _ reads_start) as H. cbn [app] in H.
    destruct (digits32 s); [destruct H as (st & -> & _)|rewrite H; by right].
    cbn [mbind res_bind]. repeat case_match; eauto.
  - intros bytes rest k Hb Hl Hr. apply base32_decode_spec.
    assert (length (concat (bits 8 <$> bytes)) = (5 * (8 * S k))%nat) as Hlen.
    { pose proof (zlen_bytes bytes) as Hz. unfold zlen in Hz. lia. }
    unfold base32_encode. destruct (chunks5_spec _ _ _ Hlen (le_n _)) as [E H].
    destruct (digits_encode _ rest H Hr) as [E1 E2]. eexists. split_and!; [exact E1|by rewrite E2, E|done|by intros ->].
Qed.

(** * Key tags *)

(** The sum of the bytes taken in pairs, the first of a pair high. *)
Fixpoint pair_sum (bytes : list Z) : Z :=
  match bytes with
  | a :: b :: rest => a * 256 + b + pair_sum rest
  | [a] => a * 256
  | [] => 0
  end.

(** The key tag of RFC 4034, appendix B, of the data of a DNSKEY record. *)
Definition key_tag (rdata : list Z) : Z :=
  let ac := pair_sum rdata in (ac + ac / 65536 mod 65536) mod 65536.

Lemma pair_sum_bound bytes : Forall is_byte bytes → 0 ≤ pair_sum bytes ≤ 65535 * zlen bytes.
Proof.
  remember (length bytes) as n eqn:Hn. revert bytes Hn. induction n as [n IH] using lt_wf_ind.
  intros [|a [|b bytes]] Hn Hb; cbn [pair_sum]; [done| |].
  - apply Forall_cons in Hb as [Hb _]. unfold is_byte in Hb. change (zlen [a]) with 1. lia.
  - apply Forall_cons in Hb as [Ha [Hbb Hb]%Forall_cons]. unfold is_byte in *.
    specialize (IH (length bytes)). pose proof (IH ltac:(cbn in Hn; lia) bytes eq_refl Hb). rewrite !zlen_cons. lia.
Qed.

Lemma keytag_loop_spec pre key post i ac :
  Forall is_byte key → 0 ≤ i → i mod 2 = 0 → 0 ≤ ac → ac + 65535 * zlen key < 2 ^ 64 →
  keytag_loop (pre ++ key ++ post) (zlen pre - i) (length key) i ac = Ok (ac + pair_sum key).
Proof.
  remember (length key) as n eqn:Hn. revert pre key i ac Hn. induction n as [n IH] using lt_wf_ind.
  intros pre [|a [|b key]] i ac -> Hk Hi He Hac Hs; cbn [length keytag_loop app pair_sum].
  { f_equal. lia. }
  all: replace (zlen pre - i + i) with (zlen pre) by lia; rewrite rd_here; cbn [mbind res_bind];
    assert (flag i 1 = false) as -> by (change 1 with (2 ^ 0); rewrite flag_pow2, Z.bit0_odd by lia; rewrite Zmod_odd in He; by destruct (Z.odd i));
    rewrite Z.shiftl_mul_pow2 by lia; change (2 ^ 8) with 256; rewrite !zlen_cons in Hs; change (zlen (@nil Z)) with 0 in Hs;
    change (2 ^ 64) with 18446744073709551616 in *; apply Forall_cons in Hk as [Ha Hk]; unfold is_byte in Ha.
  - by rewrite u64_id by lia.
  - apply Forall_cons in Hk as [Hb Hk]. unfold is_byte in Hb. pose proof (zlen_nonneg key).
    replace (pre ++ a :: b :: key ++ post) with ((pre ++ [a]) ++ b :: key ++ post) by by rewrite <- app_assoc.
    replace (zlen pre - i + (i + 1)) with (zlen (pre ++ [a])) by (rewrite zlen_snoc; lia).
    rewrite rd_here. cbn [mbind res_bind].
    assert (flag (i + 1) 1 = true) as ->.
    { change 1 with (2 ^ 0) at 2. rewrite flag_pow2, Z.bit0_odd by lia. rewrite Z.add_1_r, Z.odd_succ. rewrite Zmod_even in He. by destruct (Z.even i). }
    rewrite (u64_id (ac + a * 256)), u64_id by lia.
    replace ((pre ++ [a]) ++ b :: key ++ post) with ((pre ++ [a; b]) ++ key ++ post) by by rewrite <- !app_assoc.
    replace (zlen pre - i) with (zlen (pre ++ [a; b]) - (i + 1 + 1)) by (rewrite zlen_app; change (zlen [a; b]) with 2; lia).
    rewrite (IH (length key)); [f_equal; lia|cbn; lia|done|done|lia|dlia|lia|lia].
Qed.

(** The code computes it, for keys that fit a packet and any algorithm but the first. *)
Lemma dnskey_keytag_spec alg f1 f2 pre key post :
  alg ≠ 1 → is_byte alg → is_byte f1 → is_byte f2 → Forall is_byte key → zlen key < 65536 →
  dnskey_keytag alg (f1 * 256 + f2) (pre ++ key ++ post) (zlen pre) (zlen key) = Ok (key_tag ([f1; f2; 3; alg] ++ key)).
Proof.
  intros H1 Ha Hf1 Hf2 Hk Hl. unfold dnskey_keytag. rewrite (proj2 (Z.eqb_neq alg 1)) by done. unfold is_byte in *.
  replace (zlen pre) with (zlen pre - 0) by lia. replace (Z.to_nat (zlen key)) with (length key) by (unfold zlen; lia).
  change (2 ^ 64) with 18446744073709551616 in *.
  rewrite keytag_loop_spec; [|done|lia|done|lia|change (2 ^ 64) with 18446744073709551616; lia].
  cbn [mbind res_bind]. pose proof (pair_sum_bound key Hk) as Hs. f_equal. unfold key_tag. cbn [app pair_sum].
  replace (f1 * 256 + f2 + (3 * 256 + alg + pair_sum key)) with (f1 * 256 + f2 + 768 + alg + pair_sum key) by lia.
  set (ac := f1 * 256 + f2 + 768 + alg + pair_sum key). assert (0 ≤ ac < 2 ^ 40) as Hac by (unfold ac; lia).
  change 65535 with (Z.ones 16). rewrite !Z.land_ones, Z.shiftr_div_pow2 by lia. change (2 ^ 16) with 65536.
  rewrite u64_id; [done|]. change (2 ^ 40) with 1099511627776 in Hac. dlia.
Qed.
