(* ===== verification/DnssecSort.v ===== *)
(** The records of an RRset in canonical form and order (src/src/dnssec.c): reading
    the data of a record byte by byte with the names in it in canonical form, and
    sorting the records by it.

    The buffers in which names are put into canonical form are passed along. A
    pointer is NULL, an offset in the packet or an offset in such a buffer. *)
From S2P Require Import Prelude Hostname Wire WireSafe WireSpec RRFilter DnssecName.

Inductive rd_ptr := Null | Pkt (p : Z) | Buf (i : Z).

Record rdata_state := RdataState {
  s_desc : list Z; s_c : Z; s_end : Z; s_ip : Z; s_op : rd_ptr; s_buff : list Z
}.

Definition ptr_next (p : rd_ptr) : rd_ptr :=
  match p with Null => Null | Pkt p => Pkt (p + 1) | Buf i => Buf (i + 1) end.

(** The string [s] put into a buffer, as [extract_name] does. *)
Definition put_name (buff : list Z) (s : cstring) : res (list Z) := put_bytes buff 0 (s ++ [0]).

Section rdata.
Context (buf : list Z) (plen : Z).

(** [*state->op]. *)
Definition op_byte (st : rdata_state) : res Z :=
  match s_op st with Null => Oob | Pkt p => rd buf p | Buf i => rd (s_buff st) i end.

(** The loop, from the field [ds] of the descriptor on. [None] is the result 0. *)
Fixpoint next_field (ds : list Z) (end_ ip : Z) (buff : list Z) : res (option rdata_state) :=
  match ds with
  | [] => Oob
  | d :: ds' =>
      if d =? END_DESC then
        let c := u64 (end_ - ip) in
        if negb (c =? 0) then Ok (Some (RdataState ds c end_ end_ (Pkt ip) buff)) else Ok None
      else if d =? 0 then
        r ← catch (extract_name true buf plen ip [] true 0);
        match r with
        | None => next_field ds' end_ ip buff
        | Some (_, ip, s) =>
            buff ← put_name buff s;
            '(buff, len) ← to_wire buff 0;
            if len =? 0 then next_field ds' end_ ip buff
            else Ok (Some (RdataState ds' len end_ ip (Buf 0) buff))
        end
      else
        let d := if end_ - ip <? d then end_ - ip else d in
        if d =? 0 then next_field ds' end_ ip buff
        else Ok (Some (RdataState ds' (u64 d) end_ (ip + d) (Pkt ip) buff))
  end.

Definition get_rdata (st : rdata_state) : res (option rdata_state) :=
  match s_op st with
  | Null => next_field (s_desc st) (s_end st) (s_ip st) (s_buff st)
  | op => if negb (s_c st =? 1)
          then Ok (Some (RdataState (s_desc st) (u64 (s_c st - 1)) (s_end st) (s_ip st) (ptr_next op) (s_buff st)))
          else next_field (s_desc st) (s_end st) (s_ip st) (s_buff st)
  end.

(** The comparison byte by byte, with the buffers as they are left. *)
Fixpoint cmp_canonical (fuel : nat) (st1 st2 : rdata_state) : res (comparison * list Z * list Z) :=
  match fuel with
  | O => NoFuel
  | S fuel =>
      r1 ← get_rdata st1;
      r2 ← get_rdata st2;
      match r1, r2 with
      | None, None => Ok (Eq, s_buff st1, s_buff st2)
      | Some st1, None => Ok (Gt, s_buff st1, s_buff st2)
      | None, Some st2 => Ok (Lt, s_buff st1, s_buff st2)
      | Some st1, Some st2 =>
          b1 ← op_byte st1;
          b2 ← op_byte st2;
          if b2 <? b1 then Ok (Gt, s_buff st1, s_buff st2)
          else if b1 <? b2 then Ok (Lt, s_buff st1, s_buff st2)
          else cmp_canonical fuel st1 st2
      end
  end.

(** memcmp of [n] bytes at two places of the packet. *)
Fixpoint memcmp (n : nat) (p q : Z) : res comparison :=
  match n with
  | O => Ok Eq
  | S n =>
      a ← rd buf p; b ← rd buf q;
      match a ?= b with Eq => memcmp n (p + 1) (q + 1) | r => Ok r end
  end.

(** The data of the record at [p]: its length and its start. A name that cannot be skipped is a
    NULL pointer that is used. *)
Definition rr_data (p : Z) : res (Z * Z) :=
  r ← catch (skip_name buf plen p 10);
  match r with None => Oob | Some ip => GETSHORT buf (ip + 8) end.

(** Bytes that a comparison can pass: those of the packet, and of the names of a descriptor. *)
Definition cmp_fuel : nat := S (length buf + Z.to_nat (4 * 2050)).

(** The comparison of two records; [None] is the return for a packet that is short. *)
Definition cmp_records (desc : list Z) (buff1 buff2 : list Z) (p q : Z)
    : res (option comparison * list Z * list Z) :=
  '(rdlen1, ip1) ← rr_data p;
  '(rdlen2, ip2) ← rr_data q;
  if negb (CHECK_LEN ip1 plen rdlen1) then Ok (None, buff1, buff2)
  else if negb (CHECK_LEN ip2 plen rdlen2) then Ok (None, buff1, buff2)
  else
    d ← (match desc with [] => Oob | d :: _ => Ok d end);
    if d =? END_DESC then
      let rdmin := if rdlen2 <? rdlen1 then rdlen2 else rdlen1 in
      cmp ← memcmp (Z.to_nat rdmin) ip1 ip2;
      match cmp with
      | Gt => Ok (Some Gt, buff1, buff2)
      | Lt => Ok (Some Lt, buff1, buff2)
      | Eq => if rdmin <? rdlen1 then Ok (Some Gt, buff1, buff2)
              else if rdlen1 =? rdlen2 then Ok (Some Eq, buff1, buff2)
              else Ok (Some Lt, buff1, buff2)
      end
    else
      '(r, buff1, buff2) ← cmp_canonical cmp_fuel (RdataState desc 0 (ip1 + rdlen1) ip1 Null buff1)
                             (RdataState desc 0 (ip2 + rdlen2) ip2 Null buff2);
      Ok (Some r, buff1, buff2).

(** One run of the for loop over the records [x] and [rest]: the records, whether two were exchanged and
    whether the packet was short. Of two equal records the second is removed. *)
Fixpoint sort_pass (desc : list Z) (buff1 buff2 : list Z) (x : Z) (rest : list Z)
    : res (list Z * bool * bool * list Z * list Z) :=
  match rest with
  | [] => Ok ([x], false, false, buff1, buff2)
  | y :: rest' =>
      '(r, buff1, buff2) ← cmp_records desc buff1 buff2 x y;
      match r with
      | None => Ok (x :: rest, false, true, buff1, buff2)
      | Some Gt =>
          '(l, _, short, buff1, buff2) ← sort_pass desc buff1 buff2 x rest';
          Ok (y :: l, true, short, buff1, buff2)
      | Some Eq => sort_pass desc buff1 buff2 x rest'
      | Some Lt =>
          '(l, swap, short, buff1, buff2) ← sort_pass desc buff1 buff2 y rest';
          Ok (x :: l, swap, short, buff1, buff2)
      end
  end.

Fixpoint sort_loop (fuel : nat) (desc : list Z) (buff1 buff2 : list Z) (rrset : list Z)
    : res (list Z * list Z * list Z) :=
  match fuel with
  | O => NoFuel
  | S fuel =>
      match rrset with
      | [] => Ok ([], buff1, buff2)
      | x :: rest =>
          '(l, swap, short, buff1, buff2) ← sort_pass desc buff1 buff2 x rest;
          if (short : bool) then Ok (l, buff1, buff2)
          else if (swap : bool) then sort_loop fuel desc buff1 buff2 l
          else Ok (l, buff1, buff2)
      end
  end.

(** The records in use of the array, and the buffers. Every run that exchanges records has fewer pairs out
    of order afterwards. *)
Definition sort_rrset (desc : list Z) (rrset buff1 buff2 : list Z) : res (list Z * list Z * list Z) :=
  sort_loop (S (length rrset * length rrset)%nat) desc buff1 buff2 rrset.
End rdata.
