(* ===== verification/DnssecSorted.v ===== *)
(** The canonical form of the data of a record, what reading it byte by byte gives, and that the
    records of an RRset are sorted by it. *)
From stdpp Require Import sorting.
From S2P Require Import Prelude Hostname Wire WireSafe WireSpec RRFilter WireExt.
From S2P Require Import DnssecName DnssecNameSpec DnssecOrder DnssecSort.

(** * Descriptors *)

(** A descriptor that ends, with [n] names at most. *)
Fixpoint desc_ok (n : nat) (ds : list Z) : bool :=
  match ds with
  | [] => false
  | d :: ds =>
      if d =? END_DESC then true
      else if d =? 0 then match n with O => false | S n => desc_ok n ds end
      else (0 <? d) && (d <? END_DESC) && desc_ok n ds
  end.

Fixpoint rows_ok (fuel : nat) (p : list Z) : bool :=
  match fuel, p with
  | S fuel, d :: q => desc_ok 2 q && ((d =? 0) || rows_ok fuel (skip_desc p))
  | _, _ => false
  end.

Lemma find_desc_ok fuel type p : rows_ok fuel p = true → ∃ ds, find_desc fuel type p = Ok ds ∧ desc_ok 2 ds = true.
Proof.
  revert p. induction fuel as [|fuel IH]; intros [|d q]; try done. cbn [rows_ok find_desc].
  intros [Hd Hr]%andb_true_iff. destruct (d =? type); cbn [negb andb]; [by exists q|].
  destruct (d =? 0); cbn [negb orb] in *; [by exists q|by apply IH].
Qed.

Lemma type_desc_ok type : ∃ ds, rrfilter_desc type = Ok ds ∧ desc_ok 2 ds = true.
Proof. apply find_desc_ok. by vm_compute. Qed.

(** * Names *)

Definition NAMEBUFF : Z := 2050. (* MAXDNAME * 2 *)

Lemma enc_total l : ∃ t, enc_label true l = Some t ∧ zlen t ≤ 2 * zlen l.
Proof.
  induction l as [|c l (t & Et & Hz)]; [by exists []|]. cbn [enc_label]. rewrite Et.
  unfold enc_byte. destruct (_ || _); cbn; eexists; (split; [done|]); rewrite !zlen_cons; lia.
Qed.

Lemma wire_len_cons l L : wire_len (l :: L) = zlen l + 1 + wire_len L.
Proof. done. Qed.

Lemma wire_len_lowered L : wire_len (lowered <$> L) = wire_len L.
Proof. induction L as [|l L IH]; [done|]. rewrite fmap_cons, !wire_len_cons, IH. unfold lowered, zlen. by rewrite length_fmap. Qed.

Lemma join_total L : ∃ s, join true L = Some s ∧ zlen s ≤ 2 * wire_len L.
Proof.
  induction L as [|l L (s & Es & Hz)]; [by exists []|]. destruct (enc_total l) as (t & Et & Ht). cbn [join]. rewrite Et.
  cbn [mbind option_bind]. rewrite wire_len_cons. pose proof (wire_len_nonneg L).
  destruct L as [|l' L]; [exists t; split; [done|lia]|]. rewrite Es. cbn [mbind option_bind]. eexists. split; [done|].
  rewrite zlen_app, zlen_cons. lia.
Qed.

Lemma name_at_good buf plen p L e h : Forall is_byte buf → plen ≤ zlen buf → 0 ≤ p → name_at buf plen p L e h → Forall good_label L ∧ 0 ≤ e ≤ plen.
Proof.
  intros Hb Hpl Hp H. revert Hp. induction H as [p Hp1|p l L e h Hp1 Hl Hr Hp2 H IH|p l b L e h Hp1 Hl Hr Hb1 H IH]; intros Hp.
  - split; [constructor|lia].
  - destruct IH as [IH He]; [lia|]. split; [|done]. constructor; [|done]. split.
    + unfold zlen. rewrite length_slice by lia. lia.
    + apply Forall_take, Forall_drop. done.
  - destruct IH as [IH _]; [|split; [done|lia]].
    apply rd_Ok in Hb1 as [_ Hb1]. rewrite Forall_forall in Hb. specialize (Hb b (list_elem_of_lookup_2 _ _ _ Hb1)).
    unfold is_byte in Hb. apply Z.lor_nonneg. split; [|lia]. apply Z.shiftl_nonneg, Z.land_nonneg. lia.
Qed.

Lemma put_name_spec buff s : wf_cstring s → zlen s + 1 ≤ zlen buff →
  put_name buff s = Ok (s ++ 0 :: drop (length s + 1) buff).
Proof.
  intros Hs Hz. unfold put_name. unfold zlen in Hz.
  pose proof (put_bytes_at (s ++ [0]) [] (take (length s + 1) buff) (drop (length s + 1) buff)) as H.
  cbn [app] in H. change (zlen (@nil Z)) with 0 in H. rewrite take_drop in H. rewrite H; [by rewrite <- app_assoc| |].
  - apply Forall_snoc. split; [|unfold is_byte; lia]. eapply Forall_impl; [exact Hs|]. unfold is_byte. cbn. lia.
  - unfold zlen. rewrite length_take, length_app. cbn. lia.
Qed.

(** The text of a name and three bytes more are within a name buffer: every label has a length byte, and the last one no dot. *)
Lemma text_fits L s : wire_len L < MAXDNAME → join true L = Some s → zlen s + 3 ≤ NAMEBUFF.
Proof.
  intros Hw Es. unfold NAMEBUFF, MAXDNAME in *. assert (∀ K u, join true K = Some u → zlen u ≤ 2 * wire_len K - zlen K) as Hk.
  { clear. induction K as [|l K IH]; intros u; [intros [= <-]; done|]. intros (t & rest & Et & -> & He & Hr & _)%join_cons.
    destruct (enc_total l) as (t' & Et' & Ht). rewrite Et' in Et. injection Et as ->. specialize (IH _ Hr).
    rewrite wire_len_cons, zlen_app, zlen_cons. destruct He as [->|[r ->]]; [|rewrite zlen_cons; cbn [tail] in IH; lia].
    pose proof (wire_len_nonneg K). change (zlen (@nil Z)) with 0. lia. }
  specialize (Hk L s Es). destruct L as [|l L]; [injection Es as <-; change (zlen (@nil Z)) with 0; lia|].
  rewrite zlen_cons in Hk. pose proof (zlen_nonneg L). lia.
Qed.

(** A name of the packet put into a buffer in canonical form. *)
Lemma name_to_wire buf plen ip L q h buff :
  Forall is_byte buf → 0 ≤ plen ≤ zlen buf → 0 ≤ ip → name_at buf plen ip L q h → Z.of_nat h ≤ 255 → wire_len L < MAXDNAME →
  Forall is_byte buff → zlen buff = NAMEBUFF →
  ∃ s buff1 post, extract_name true buf plen ip [] true 0 = Ok (1, q, s) ∧ put_name buff s = Ok buff1 ∧
    to_wire buff1 0 = Ok (wire (lowered <$> L) ++ 0 :: post, wire_len L + 1) ∧
    Forall is_byte (wire (lowered <$> L) ++ 0 :: post) ∧ zlen (wire (lowered <$> L) ++ 0 :: post) = NAMEBUFF ∧ Forall good_label L.
Proof.
  intros Hb Hpl Hip Hna Hh Hw Hbb Hz. destruct (name_at_good _ _ _ _ _ _ Hb (proj2 Hpl) Hip Hna) as [HL Hq].
  destruct (join_total L) as (s & Es & Hzs). pose proof (text_rest_wf L s HL Es) as Hwf.
  pose proof (text_fits L s Hw Es) as Hs2. unfold NAMEBUFF, MAXDNAME in *.
  set (post := drop (length s + 1) buff).
  assert (zlen post = 2050 - zlen s - 1) as Hpost by (unfold post, zlen in *; rewrite length_drop; lia).
  destruct (to_wire_spec L s [] post HL Es) as (post' & E & Hb' & Hz').
  { intros E. rewrite E in Hpost. change (zlen (@nil Z)) with 0 in Hpost. lia. }
  { by apply Forall_drop. }
  exists s, (s ++ 0 :: post), post'. split_and!; [|by apply put_name_spec; [done|lia]|exact E| | |done].
  - apply extract_name_ok; try done. split_and!; [done|lia|]. exists L, h. rewrite render_join. done.
  - apply Forall_app. split; [by apply wire_bytes, good_lowered|]. constructor; [unfold is_byte; lia|done].
  - rewrite zlen_app, zlen_cons, zlen_wire, wire_len_lowered. lia.
Qed.

(** * The canonical form of the data of a record *)

Section fields.
Context (buf : list Z) (plen : Z) (Hbuf : Forall is_byte buf) (Hplen : 0 ≤ plen ≤ zlen buf).

(** [fields e ds p bs]: the data from [p] to [e], laid out as the descriptor [ds] says, has the
    canonical form [bs]: names are written out in lower case. A name that cannot be read counts as
    nothing. *)
Inductive fields (e : Z) : list Z → Z → list Z → Prop :=
| f_rest ds p : 0 ≤ p ≤ e → fields e (END_DESC :: ds) p (slice buf p (Z.to_nat (e - p)))
| f_name ds p L q h bs :
    0 ≤ p → name_at buf plen p L q h → Z.of_nat h ≤ 255 → wire_len L < MAXDNAME →
    fields e ds q bs → fields e (0 :: ds) p (wire (lowered <$> L) ++ 0 :: bs)
| f_skip ds p bs :
    0 ≤ p → extract_name true buf plen p [] true 0 = Bad → fields e ds p bs → fields e (0 :: ds) p bs
| f_data d ds p bs :
    0 < d < END_DESC → 0 ≤ p ≤ e →
    fields e ds (p + Z.min d (e - p)) bs →
    fields e (d :: ds) p (slice buf p (Z.to_nat (Z.min d (e - p))) ++ bs).

(** [op] points to the last byte that was read, of [n] more of its field; [rest] is in the fields
    after it. *)
Definition buff_ok (buff : list Z) : Prop := Forall is_byte buff ∧ zlen buff = NAMEBUFF.

Definition stream (e : Z) (st : rdata_state) (bs : list Z) : Prop :=
  s_end st = e ∧ buff_ok (s_buff st) ∧
  match s_op st with
  | Null => fields e (s_desc st) (s_ip st) bs
  | Pkt p => ∃ n rest, s_c st = Z.of_nat n + 1 ∧ 0 ≤ p ∧ p + s_c st ≤ zlen buf ∧ s_c st < 2 ^ 64 ∧
      bs = slice buf (p + 1) n ++ rest ∧ fields e (s_desc st) (s_ip st) rest
  | Buf i => ∃ n rest, s_c st = Z.of_nat n + 1 ∧ 0 ≤ i ∧ i + s_c st ≤ NAMEBUFF ∧
      bs = slice (s_buff st) (i + 1) n ++ rest ∧ fields e (s_desc st) (s_ip st) rest
  end.

(** One byte more. *)
Definition steps (e : Z) (buff : list Z) (bs : list Z) (r : res (option rdata_state)) : Prop :=
  match bs with
  | [] => r = Ok None
  | b :: bs => ∃ st, r = Ok (Some st) ∧ op_byte buf st = Ok b ∧ stream e st bs
  end.

Lemma zlen_slice (l : list Z) p n : 0 ≤ p → 0 ≤ n → p + n ≤ zlen l → zlen (slice l p (Z.to_nat n)) = n.
Proof. intros Hp Hn Hl. unfold zlen. rewrite length_slice by lia. lia. Qed.

Lemma slice_cons (l : list Z) p n : 0 ≤ p → p + Z.of_nat (S n) ≤ zlen l →
  ∃ b, rd l p = Ok b ∧ slice l p (S n) = b :: slice l (p + 1) n.
Proof.
  intros Hp Hl. destruct (rd_in l p) as (b & Hb & _); [lia|]. exists b. split; [done|]. by apply slice_S.
Qed.

Lemma next_field_steps e ds p bs buff :
  fields e ds p bs → e ≤ zlen buf → zlen buf < 2 ^ 64 → buff_ok buff → steps e buff bs (next_field buf plen ds e p buff).
Proof.
  intros H He Hm. revert buff. induction H as [ds p Hp|ds p L q h bs Hp Hna Hh Hw H IH|ds p bs Hp Hx H IH|d ds p bs Hd Hp H IH]; intros buff Hbf.
  - cbn [next_field]. rewrite Z.eqb_refl. rewrite u64_id by lia. destruct (Z.eqb_spec (e - p) 0) as [E|E]; cbn [negb].
    { by replace (Z.to_nat (e - p)) with O by lia. }
    replace (Z.to_nat (e - p)) with (S (Z.to_nat (e - p - 1))) by lia.
    destruct (slice_cons buf p (Z.to_nat (e - p - 1))) as (b & Hb & ->); [lia..|]. cbn [steps].
    eexists. split; [reflexivity|]. split; [done|]. split_and!; try done. cbn [s_op s_c s_desc s_ip].
    exists (Z.to_nat (e - p - 1)), []. split_and!; try lia; [by rewrite app_nil_r|].
    replace (@nil Z) with (slice buf e (Z.to_nat (e - e))) by by rewrite Z.sub_diag. constructor. lia.
  - cbn [next_field]. change (0 =? END_DESC) with false. change (0 =? 0) with true.
    destruct Hbf as [Hbf1 Hbf2].
    destruct (name_to_wire buf plen p L q h buff Hbuf Hplen Hp Hna Hh Hw Hbf1 Hbf2) as (s & buff1 & post & -> & E1 & E2 & Hb2 & Hz2 & HL).
    cbn [catch mbind res_bind]. rewrite E1. cbn [mbind res_bind]. rewrite E2. cbn [mbind res_bind]. pose proof (wire_len_nonneg L).
    rewrite (proj2 (Z.eqb_neq (wire_len L + 1) 0)) by lia.
    set (w := wire (lowered <$> L) ++ 0 :: post) in *.
    assert (wire (lowered <$> L) ++ 0 :: bs = slice w 0 (Z.to_nat (wire_len L + 1)) ++ bs) as ->.
    { pose proof (zlen_wire (lowered <$> L)) as Hzw. rewrite wire_len_lowered in Hzw.
      unfold w, slice. cbn [drop]. replace (Z.to_nat (wire_len L + 1)) with (length (wire (lowered <$> L) ++ [0])) by (rewrite length_app; unfold zlen in Hzw; cbn; lia).
      change (0 :: post) with ([0] ++ post). rewrite app_assoc, drop_0, take_app_length. by rewrite <- app_assoc. }
    assert (wire_len L < NAMEBUFF) by (unfold NAMEBUFF, MAXDNAME in *; lia).
    replace (Z.to_nat (wire_len L + 1)) with (S (Z.to_nat (wire_len L))) by lia.
    destruct (slice_cons w 0 (Z.to_nat (wire_len L))) as (b & Hb & ->); [lia|lia|]. cbn [steps app].
    eexists. split; [reflexivity|]. split; [done|]. split_and!; try done. cbn [s_op s_c s_desc s_ip s_buff].
    exists (Z.to_nat (wire_len L)), bs. split_and!; try done; lia.
  - cbn [next_field]. change (0 =? END_DESC) with false. change (0 =? 0) with true. rewrite Hx. cbn [catch mbind res_bind]. by apply IH.
  - cbn [next_field]. rewrite (proj2 (Z.eqb_neq d END_DESC)), (proj2 (Z.eqb_neq d 0)) by lia.
    replace (if e - p <? d then e - p else d) with (Z.min d (e - p)) by (case_match; bool_hyps; lia).
    destruct (Z.eqb_spec (Z.min d (e - p)) 0) as [E|E].
    { rewrite E in *. rewrite Z.add_0_r in *. by apply IH. }
    rewrite u64_id by lia. replace (Z.to_nat (Z.min d (e - p))) with (S (Z.to_nat (Z.min d (e - p) - 1))) by lia.
    destruct (slice_cons buf p (Z.to_nat (Z.min d (e - p) - 1))) as (b & Hb & ->); [lia..|]. cbn [steps app].
    eexists. split; [reflexivity|]. split; [done|]. split_and!; try done. cbn [s_op s_c s_desc s_ip].
    exists (Z.to_nat (Z.min d (e - p) - 1)), bs. split_and!; try done; lia.
Qed.

Lemma get_rdata_steps e st bs :
  stream e st bs → e ≤ zlen buf → zlen buf < 2 ^ 64 → steps e (s_buff st) bs (get_rdata buf plen st).
Proof.
  destruct st as [ds c e' ip op buff]. intros (He & Hbf & H) Hle Hm. cbn [s_desc s_c s_end s_ip s_op s_buff] in *. subst e'.
  unfold get_rdata. cbn [s_desc s_c s_end s_ip s_op s_buff].
  destruct op as [|p|i].
  - by apply next_field_steps.
  - destruct H as (n & rest & -> & Hp & Hz & Hc & -> & Hf). destruct n as [|n].
    { change (Z.of_nat 0 + 1 =? 1) with true. cbn [negb]. by apply next_field_steps. }
    rewrite (proj2 (Z.eqb_neq _ 1)) by lia. cbn [negb ptr_next].
    destruct (slice_cons buf (p + 1) n) as (b & Hb & ->); [lia..|]. cbn [steps app]. change (2 ^ 64) with 18446744073709551616 in Hc.
    eexists. split; [reflexivity|]. split; [done|]. split_and!; try done. cbn [s_op s_c s_desc s_ip].
    rewrite u64_id by lia. exists n, rest. split_and!; try done; lia.
  - destruct H as (n & rest & -> & Hp & Hz & -> & Hf). destruct n as [|n].
    { change (Z.of_nat 0 + 1 =? 1) with true. cbn [negb]. by apply next_field_steps. }
    rewrite (proj2 (Z.eqb_neq _ 1)) by lia. cbn [negb ptr_next]. destruct Hbf as [Hb1 Hb2].
    destruct (slice_cons buff (i + 1) n) as (b & Hb & ->); [lia..|]. cbn [steps app]. unfold NAMEBUFF in *.
    eexists. split; [reflexivity|]. split; [done|]. split_and!; try done. cbn [s_op s_c s_desc s_ip s_buff].
    rewrite u64_id by lia. exists n, rest. split_and!; try done; unfold NAMEBUFF; lia.
Qed.

(** * Comparing records *)

Context (Hmax : zlen buf < 2 ^ 64).

Lemma cmp_canonical_spec fuel e1 e2 st1 st2 bs1 bs2 :
  stream e1 st1 bs1 → stream e2 st2 bs2 → e1 ≤ zlen buf → e2 ≤ zlen buf → (length bs1 < fuel)%nat →
  ∃ b1 b2, cmp_canonical buf plen fuel st1 st2 = Ok (bytes_order bs1 bs2, b1, b2) ∧ buff_ok b1 ∧ buff_ok b2.
Proof.
  revert st1 st2 bs1 bs2. induction fuel as [|fuel IH]; intros st1 st2 bs1 bs2 H1 H2 He1 He2 Hf; [lia|].
  pose proof (get_rdata_steps e1 st1 bs1 H1 He1 Hmax) as S1. pose proof (get_rdata_steps e2 st2 bs2 H2 He2 Hmax) as S2.
  pose proof (proj1 (proj2 H1)) as B1. pose proof (proj1 (proj2 H2)) as B2. cbn [cmp_canonical].
  destruct bs1 as [|x bs1], bs2 as [|y bs2]; cbn [steps] in S1, S2.
  - rewrite S1, S2. cbn [mbind res_bind]. eauto.
  - destruct S2 as (st2' & -> & _ & (_ & B2' & _)). rewrite S1. cbn [mbind res_bind]. eauto.
  - destruct S1 as (st1' & -> & _ & (_ & B1' & _)). rewrite S2. cbn [mbind res_bind]. eauto.
  - destruct S1 as (st1' & -> & O1 & T1), S2 as (st2' & -> & O2 & T2). cbn [mbind res_bind]. rewrite O1, O2. cbn [mbind res_bind].
    pose proof (proj1 (proj2 T1)). pose proof (proj1 (proj2 T2)). unfold bytes_order. cbn [lexc].
    destruct (Z.compare_spec x y) as [->|E|E].
    + rewrite Z.ltb_irrefl. apply IH; try done. cbn [length] in Hf. lia.
    + rewrite (proj2 (Z.ltb_ge y x)), (proj2 (Z.ltb_lt x y)) by lia. eauto.
    + rewrite (proj2 (Z.ltb_lt y x)) by lia. eauto.
Qed.

Lemma memcmp_spec n p q : 0 ≤ p → 0 ≤ q → p + Z.of_nat n ≤ zlen buf → q + Z.of_nat n ≤ zlen buf →
  memcmp buf n p q = Ok (bytes_order (slice buf p n) (slice buf q n)).
Proof.
  revert p q. induction n as [|n IH]; intros p q Hp Hq Hp' Hq'; [done|].
  destruct (slice_cons buf p n) as (a & Ha & ->); [lia..|]. destruct (slice_cons buf q n) as (b & Hb & ->); [lia..|].
  cbn [memcmp]. rewrite Ha, Hb. cbn [mbind res_bind]. unfold bytes_order in *. cbn [lexc].
  destruct (a ?= b); [|done..]. apply IH; lia.
Qed.

(** Data compared up to the length of the shorter, and then by length. *)
Lemma bytes_order_take l k n :
  (n ≤ length l)%nat → (n ≤ length k)%nat → n = length l ∨ n = length k →
  bytes_order l k = match bytes_order (take n l) (take n k) with Eq => Nat.compare (length l) (length k) | r => r end.
Proof.
  unfold bytes_order. revert l k. induction n as [|n IH]; intros l k Hl Hk Hn.
  { cbn. destruct Hn as [Hn|Hn]; [destruct l; [|done]; by destruct k|destruct k; [|done]; by destruct l]. }
  destruct l as [|x l]; [cbn in Hl; lia|]. destruct k as [|y k]; [cbn in Hk; lia|]. cbn [take lexc length] in *.
  destruct (x ?= y); [|done..]. rewrite (IH l k) by lia. done.
Qed.

Lemma name_at_lt p L q h : name_at buf plen p L q h → p < q.
Proof. induction 1; lia. Qed.

Lemma fields_length n e ds p bs : fields e ds p bs → desc_ok n ds = true → e ≤ zlen buf →
  zlen bs ≤ Z.max 0 (e - p) + Z.of_nat n * MAXDNAME.
Proof.
  intros H. revert n. induction H as [ds p Hp|ds p L q h bs Hp Hna Hh Hw H IH|ds p bs Hp Hx H IH|d ds p bs Hd Hp H IH]; intros n Hn He; cbn [desc_ok] in Hn.
  - rewrite zlen_slice by lia. unfold MAXDNAME. lia.
  - change (0 =? END_DESC) with false in Hn. change (0 =? 0) with true in Hn. destruct n as [|n]; [done|].
    specialize (IH n Hn He). pose proof (name_at_lt _ _ _ _ Hna). rewrite zlen_app, zlen_cons, zlen_wire, wire_len_lowered.
    unfold MAXDNAME in *. lia.
  - change (0 =? END_DESC) with false in Hn. change (0 =? 0) with true in Hn. destruct n as [|n]; [done|].
    specialize (IH n Hn He). unfold MAXDNAME in *. lia.
  - rewrite (proj2 (Z.eqb_neq d END_DESC)), (proj2 (Z.eqb_neq d 0)) in Hn by lia. apply andb_true_iff in Hn as [_ Hn].
    specialize (IH n Hn He). rewrite zlen_app, zlen_slice by lia. lia.
Qed.

(** The record at [p] has data with the canonical form [bs]. *)
Definition record_at (desc : list Z) (p : Z) (bs : list Z) : Prop :=
  ∃ rdlen ip, rr_data buf plen p = Ok (rdlen, ip) ∧ 0 ≤ rdlen ∧ 0 ≤ ip ∧ ip + rdlen ≤ plen ∧ fields (ip + rdlen) desc ip bs.

Lemma cmp_records_spec desc b1 b2 p q bs1 bs2 :
  desc_ok 2 desc = true → record_at desc p bs1 → record_at desc q bs2 → buff_ok b1 → buff_ok b2 →
  ∃ b1' b2', cmp_records buf plen desc b1 b2 p q = Ok (Some (bytes_order bs1 bs2), b1', b2') ∧ buff_ok b1' ∧ buff_ok b2'.
Proof.
  intros Hd (r1 & i1 & E1 & Hr1 & Hi1 & Hl1 & F1) (r2 & i2 & E2 & Hr2 & Hi2 & Hl2 & F2) B1 B2.
  unfold cmp_records. rewrite E1, E2. cbn [mbind res_bind]. unfold CHECK_LEN.
  rewrite (proj2 (Z.leb_le (i1 + r1) plen)), (proj2 (Z.leb_le (i2 + r2) plen)) by done. cbn [negb].
  destruct desc as [|d ds]; [done|]. cbn [mbind res_bind]. destruct (Z.eqb_spec d END_DESC) as [->|Hne].
  - inversion F1 as [? ? Hp1| | |? ? ? ? Hx1]; [subst|exfalso; unfold END_DESC in *; lia].
    inversion F2 as [? ? Hp2| | |? ? ? ? Hx2]; [subst|exfalso; unfold END_DESC in *; lia].
    set (m := if r2 <? r1 then r2 else r1). assert (m = Z.min r1 r2) as Em by (unfold m; case_match; bool_hyps; lia).
    rewrite memcmp_spec by lia. cbn [mbind res_bind].
    replace (i1 + r1 - i1) with r1 by lia. replace (i2 + r2 - i2) with r2 by lia.
    assert (∀ i r, 0 ≤ i → 0 ≤ r → i + r ≤ plen → length (slice buf i (Z.to_nat r)) = Z.to_nat r) as Hlen.
    { intros i r ? ? ?. apply length_slice; lia. }
    rewrite (bytes_order_take (slice buf i1 (Z.to_nat r1)) (slice buf i2 (Z.to_nat r2)) (Z.to_nat m)) by (rewrite ?Hlen by lia; lia).
    rewrite !Hlen by lia. unfold slice. rewrite !take_take, !Nat.min_l by lia. fold (slice buf i1 (Z.to_nat m)) (slice buf i2 (Z.to_nat m)).
    exists b1, b2. split; [|done]. destruct (bytes_order _ _); [|done..].
    destruct (Z.ltb_spec m r1); [by rewrite (proj2 (Nat.compare_gt_iff (Z.to_nat r1) (Z.to_nat r2))) by lia|].
    destruct (Z.eqb_spec r1 r2) as [->|]; [by rewrite Nat.compare_refl|].
    by rewrite (proj2 (Nat.compare_lt_iff (Z.to_nat r1) (Z.to_nat r2))) by lia.
  - destruct (cmp_canonical_spec (cmp_fuel buf) (i1 + r1) (i2 + r2) (RdataState (d :: ds) 0 (i1 + r1) i1 Null b1)
      (RdataState (d :: ds) 0 (i2 + r2) i2 Null b2) bs1 bs2) as (b1' & b2' & E & B1' & B2'); [by split|by split|lia|lia| |].
    { pose proof (fields_length 2 _ _ _ _ F1 Hd) as Hl. unfold cmp_fuel, MAXDNAME, zlen in *. lia. }
    exists b1', b2'. rewrite E. by cbn [mbind res_bind].
Qed.
End fields.

(** * A run over the records, by their keys *)

Section pass.
Context (key : Z → list Z).

Definition key_lt (x y : Z) : Prop := bytes_order (key x) (key y) = Lt.
Definition key_gt (x y : Z) : bool := match bytes_order (key x) (key y) with Gt => true | _ => false end.

#[local] Instance key_lt_trans : Transitive key_lt.
Proof. intros x y z. apply bytes_order_trans. Qed.

Fixpoint run_pass (x : Z) (rest : list Z) : list Z * bool :=
  match rest with
  | [] => ([x], false)
  | y :: rest =>
      match bytes_order (key x) (key y) with
      | Gt => (y :: (run_pass x rest).1, true)
      | Eq => run_pass x rest
      | Lt => (x :: (run_pass y rest).1, (run_pass y rest).2)
      end
  end.

Lemma run_pass_sub x rest : (run_pass x rest).1 ⊆+ x :: rest.
Proof.
  revert x. induction rest as [|y rest IH]; intros x; [done|]. cbn [run_pass].
  destruct (bytes_order (key x) (key y)); cbn [fst].
  - transitivity (x :: rest); [apply IH|]. apply submseteq_skip, submseteq_cons. done.
  - apply submseteq_skip, IH.
  - transitivity (y :: x :: rest); [apply submseteq_skip, IH|apply submseteq_swap].
Qed.

Lemma run_pass_keys x rest k : k ∈ key <$> (run_pass x rest).1 ↔ k ∈ key <$> x :: rest.
Proof.
  revert x. induction rest as [|y rest IH]; intros x; [done|]. cbn [run_pass].
  destruct (bytes_order (key x) (key y)) eqn:E; cbn [fst]; rewrite ?fmap_cons, ?elem_of_cons, IH, ?fmap_cons, ?elem_of_cons.
  - apply bytes_order_eq in E. rewrite E. tauto.
  - tauto.
  - tauto.
Qed.

Lemma run_pass_sorted x rest : (run_pass x rest).2 = false →
  ∃ l, (run_pass x rest).1 = x :: l ∧ Sorted key_lt (x :: l).
Proof.
  revert x. induction rest as [|y rest IH]; intros x; cbn [run_pass].
  { intros _. exists []. by repeat constructor. }
  destruct (bytes_order (key x) (key y)) eqn:E; cbn [fst snd]; intros H; [by apply IH| |done].
  destruct (IH y H) as (l & -> & Hs). exists (y :: l). split; [done|]. constructor; [done|by constructor].
Qed.

(** Pairs of records in the wrong order. *)
Definition above (x : Z) (l : list Z) : nat := length (filter (λ y, key_gt x y = true) l).
Fixpoint inversions (l : list Z) : nat := match l with [] => O | x :: l => (above x l + inversions l)%nat end.

Lemma above_cons x y l : above x (y :: l) = ((if key_gt x y then 1 else 0) + above x l)%nat.
Proof. unfold above. rewrite filter_cons. by destruct (key_gt x y). Qed.

Lemma above_sub x l k : l ⊆+ k → (above x l ≤ above x k)%nat.
Proof.
  intros [k' E]%submseteq_Permutation. unfold above. rewrite E, filter_app, length_app. lia.
Qed.

Lemma key_gt_flip x y : bytes_order (key x) (key y) = Gt → key_gt y x = false.
Proof. unfold key_gt. rewrite (bytes_order_opp (key x) (key y)). by intros ->. Qed.

Lemma run_pass_inversions x rest :
  (inversions (run_pass x rest).1 + (if (run_pass x rest).2 then 1 else 0) ≤ inversions (x :: rest))%nat.
Proof.
  revert x. induction rest as [|y rest IH]; intros x; [done|]. cbn [run_pass].
  destruct (bytes_order (key x) (key y)) eqn:E; cbn [fst snd inversions].
  - specialize (IH x). cbn [inversions] in IH. rewrite above_cons. lia.
  - specialize (IH y). cbn [inversions] in IH. pose proof (above_sub x _ _ (run_pass_sub y rest)). lia.
  - specialize (IH x). cbn [inversions] in IH. pose proof (above_sub y _ _ (run_pass_sub x rest)) as Hs.
    rewrite above_cons, (key_gt_flip x y E) in Hs. rewrite above_cons. unfold key_gt at 1. rewrite E. lia.
Qed.

Lemma inversions_bound l : (inversions l ≤ length l * length l)%nat.
Proof.
  induction l as [|x l IH]; [done|]. cbn [inversions length].
  assert (above x l ≤ length l)%nat by (unfold above; apply length_filter). lia.
Qed.
End pass.

(** * The code *)

Section sort.
Context (buf : list Z) (plen : Z) (Hbuf : Forall is_byte buf) (Hplen : 0 ≤ plen ≤ zlen buf) (Hmax : zlen buf < 2 ^ 64).
Context (desc : list Z) (Hdesc : desc_ok 2 desc = true) (key : Z → list Z).

Definition known (l : list Z) : Prop := ∀ p, p ∈ l → record_at buf plen desc p (key p).

Lemma sort_pass_spec b1 b2 x rest :
  known (x :: rest) → buff_ok b1 → buff_ok b2 →
  ∃ b1' b2', sort_pass buf plen desc b1 b2 x rest = Ok ((run_pass key x rest).1, (run_pass key x rest).2, false, b1', b2') ∧
    buff_ok b1' ∧ buff_ok b2'.
Proof.
  revert b1 b2 x. induction rest as [|y rest IH]; intros b1 b2 x Hk B1 B2; cbn [sort_pass run_pass]; [eauto|].
  destruct (cmp_records_spec buf plen Hbuf Hplen Hmax desc b1 b2 x y (key x) (key y)) as (c1 & c2 & -> & C1 & C2);
    [done|apply Hk; set_solver|apply Hk; set_solver|done|done|]. cbn [mbind res_bind].
  destruct (bytes_order (key x) (key y)); cbn [fst snd].
  - apply IH; try done. intros p Hp. apply Hk. set_solver.
  - destruct (IH c1 c2 y) as (d1 & d2 & -> & D1 & D2); [intros p Hp; apply Hk; set_solver|done|done|]. cbn [mbind res_bind]. eauto.
  - destruct (IH c1 c2 x) as (d1 & d2 & -> & D1 & D2); [intros p Hp; apply Hk; set_solver|done|done|]. cbn [mbind res_bind]. eauto.
Qed.

Lemma sort_loop_spec fuel b1 b2 l :
  known l → buff_ok b1 → buff_ok b2 → (inversions key l < fuel)%nat →
  ∃ l' b1' b2', sort_loop buf plen fuel desc b1 b2 l = Ok (l', b1', b2') ∧ StronglySorted (key_lt key) l' ∧ l' ⊆+ l ∧
    (∀ k, k ∈ key <$> l' ↔ k ∈ key <$> l) ∧ buff_ok b1' ∧ buff_ok b2'.
Proof.
  revert b1 b2 l. induction fuel as [|fuel IH]; intros b1 b2 l Hk B1 B2 Hf; [lia|]. cbn [sort_loop].
  destruct l as [|x rest]; [exists [], b1, b2; split_and!; try done; constructor|].
  destruct (sort_pass_spec b1 b2 x rest Hk B1 B2) as (c1 & c2 & -> & C1 & C2). cbn [mbind res_bind].
  pose proof (run_pass_sub key x rest) as Hsub. pose proof (run_pass_inversions key x rest) as Hinv.
  destruct (run_pass key x rest).2 eqn:Es.
  - destruct (IH c1 c2 (run_pass key x rest).1) as (l' & d1 & d2 & E & Hs & Hl & Hks & D1 & D2); [|done|done|lia|].
    { intros p Hp. apply Hk. by eapply elem_of_submseteq. }
    exists l', d1, d2. split_and!; try done; [by etrans|]. intros k. by rewrite Hks, run_pass_keys.
  - destruct (run_pass_sorted key x rest Es) as (l & El & Hs). exists (run_pass key x rest).1, c1, c2. split_and!; try done.
    + rewrite El. apply Sorted_StronglySorted; [apply key_lt_trans|done].
    + intros k. apply run_pass_keys.
Qed.
End sort.

Lemma sort_rrset_spec buf plen type desc key rrset b1 b2 :
  Forall is_byte buf → 0 ≤ plen ≤ zlen buf → zlen buf < 2 ^ 64 → rrfilter_desc type = Ok desc →
  (∀ p, p ∈ rrset → record_at buf plen desc p (key p)) → buff_ok b1 → buff_ok b2 →
  ∃ l b1' b2', sort_rrset buf plen desc rrset b1 b2 = Ok (l, b1', b2') ∧
    StronglySorted (λ p q, bytes_order (key p) (key q) = Lt) l ∧ l ⊆+ rrset ∧ (∀ k, k ∈ key <$> l ↔ k ∈ key <$> rrset) ∧ buff_ok b1' ∧ buff_ok b2'.
Proof.
  intros Hb Hp Hm Hd Hk B1 B2. destruct (type_desc_ok type) as (ds & Ed & Hds). rewrite Hd in Ed. injection Ed as <-.
  destruct (sort_loop_spec buf plen Hb Hp Hm desc Hds key (S (length rrset * length rrset)) b1 b2 rrset) as (l & c1 & c2 & H);
    [done|done|done|pose proof (inversions_bound key rrset); lia|].
  exists l, c1, c2. done.
Qed.

(** C20. [sort_rrset] puts the records of an RRset into the order in which RFC 4034 has them hashed: for records
    of any type whose data lies in the packet, with the names in the data within it, it comes to an end,
    with the data of the records in strictly increasing order, as bytes and with the names in it written out in lower
    case; each of the records is one that it was given, no data is missing and none is there twice. *)
Theorem sort_rrset_correct buf plen type desc key rrset b1 b2 :
  Forall is_byte buf → 0 ≤ plen ≤ zlen buf → zlen buf < 2 ^ 64 → rrfilter_desc type = Ok desc →
  (∀ p, p ∈ rrset → record_at buf plen desc p (key p)) → buff_ok b1 → buff_ok b2 →
  ∃ l b1' b2', sort_rrset buf plen desc rrset b1 b2 = Ok (l, b1', b2') ∧
    StronglySorted (λ p q, bytes_order (key p) (key q) = Lt) l ∧ l ⊆+ rrset ∧ (∀ k, k ∈ key <$> l ↔ k ∈ key <$> rrset).
Proof.
  intros Hb Hp Hm Hd Hk B1 B2. destruct (sort_rrset_spec buf plen type desc key rrset b1 b2 Hb Hp Hm Hd Hk B1 B2) as (l & c1 & c2 & E & Hs & Hl & Hks & _).
  by exists l, c1, c2.
Qed.

(** Three records of type MX, for 20 B, 10 a and 20 b. *)
Definition mx_packet : list Z := repeat 0 12 ++
  [0; 0; 15; 0; 1; 0; 0; 0; 0; 0; 5; 0; 20; 1; 66; 0] ++ [0; 0; 15; 0; 1; 0; 0; 0; 0; 0; 5; 0; 10; 1; 97; 0] ++
  [0; 0; 15; 0; 1; 0; 0; 0; 0; 0; 5; 0; 20; 1; 98; 0].
Definition mx_key (p : Z) : list Z := if p =? 28 then [0; 10; 1; 97; 0] else [0; 20; 1; 98; 0].

Lemma mx_record ds p : p ∈ [12; 28; 44] → record_at mx_packet 60 (2 :: 0 :: END_DESC :: ds) p (mx_key p).
Proof.
  intros Hp. assert (∃ c, rd mx_packet (p + 14) = Ok c ∧ rr_data mx_packet 60 p = Ok (5, p + 11) ∧ rd mx_packet (p + 13) = Ok 1 ∧
    rd mx_packet (p + 15) = Ok 0 ∧ mx_key p = slice mx_packet (p + 11) 2 ++ [1; lower c; 0] ∧ 12 ≤ p ≤ 44 ∧ slice mx_packet (p + 14) 1 = [c] ∧
    slice mx_packet (p + 16) 0 = []) as (c & Hc & E & H13 & H15 & Hk & Hr & Hs & H0).
  { rewrite !elem_of_cons in Hp. destruct Hp as [->|[->|[->|Hp]]]; [exists 66|exists 97|exists 98|by apply not_elem_of_nil in Hp];
      (split_and!; [reflexivity..|lia|lia|reflexivity|reflexivity]). }
  exists 5, (p + 11). split_and!; [done|lia|lia|lia|]. rewrite Hk.
  assert (Z.min 2 (p + 11 + 5 - (p + 11)) = 2) as Hmin by lia.
  pose proof (f_data mx_packet 60 (p + 11 + 5) 2 (0 :: END_DESC :: ds) (p + 11) [1; lower c; 0]) as H. rewrite Hmin in H.
  apply H; [unfold END_DESC; lia|lia|]. clear H.
  apply (f_name mx_packet 60 (p + 11 + 5) (END_DESC :: ds) (p + 11 + 2) [[c]] (p + 16) 0 []).
  - lia.
  - replace [c] with (slice mx_packet (p + 11 + 2 + 1) (Z.to_nat 1)) by (rewrite <- Hs; f_equal; lia).
    apply na_label; [lia|by replace (p + 11 + 2) with (p + 13) by lia|lia|lia|].
    replace (p + 11 + 2 + 1 + 1) with (p + 15) by lia. replace (p + 16) with (p + 15 + 1) by lia. constructor; [lia|done].
  - lia.
  - by vm_compute.
  - rewrite <- H0. replace (p + 11 + 5) with (p + 16) by lia. replace 0%nat with (Z.to_nat (p + 16 - (p + 16))) by lia. constructor. lia.
Qed.

Definition mx_desc : list Z := match rrfilter_desc 15 with Ok ds => ds | _ => [] end.

Lemma sort_rrset_correct_witness :
  ∃ l b1' b2', sort_rrset mx_packet 60 mx_desc [12; 28; 44] (repeat 0 2050) (repeat 0 2050) = Ok (l, b1', b2') ∧
    StronglySorted (λ p q, bytes_order (mx_key p) (mx_key q) = Lt) l ∧ l ⊆+ [12; 28; 44] ∧
    (∀ k, k ∈ mx_key <$> l ↔ k ∈ mx_key <$> [12; 28; 44]).
Proof.
  assert (buff_ok (repeat 0 2050)) as Hb.
  { split; [apply bytes_forallb; vm_compute; reflexivity|]. unfold zlen. by rewrite repeat_length. }
  apply (sort_rrset_correct mx_packet 60 15 mx_desc mx_key [12; 28; 44] (repeat 0 2050) (repeat 0 2050)); [|..|done|done].
  - apply bytes_forallb. vm_compute. reflexivity.
  - change (zlen mx_packet) with 60. lia.
  - change (zlen mx_packet) with 60. lia.
  - reflexivity.
  - exact (mx_record (drop 3 mx_desc)).
Defined.

(** When the data of a record ends before the name that should be in it, the name is read from what follows, and then the
    bytes up to the end of the data, of which there is a negative number: the packet and what is behind it is
    read. Here three records of type MX have two bytes of data, and the name of each is in the next. *)
Example short_rdata_overreads :
  let mx := [0; 0; 15; 0; 1; 0; 0; 0; 0; 0; 2; 0; 20] in let packet := repeat 0 12 ++ mx ++ mx ++ mx in
  sort_rrset packet (zlen packet) mx_desc [12; 25] (repeat 0 2050) (repeat 0 2050) = Oob.
Proof. vm_compute. reflexivity. Qed.
