(* ===== verification/Crypto.v ===== *)
(** The algorithms of DNSSEC (src/src/crypto.c): which are supported, the hash that is not one, and
    how keys and signatures are handed to the library libnettle (from version 3.6 on).

    What the library does is an argument: its hashes, as functions of all the
    bytes they are given, and its tests of signatures. *)
From S2P Require Import Prelude Wire WireSpec Blockdata.

(** The names of hashes. *)
Inductive hash_name_t := sha1 | sha256 | sha384 | sha512 | gosthash94 | null_hash_name.

Definition ds_digest_name (digest : Z) : option hash_name_t :=
  if digest =? 1 then Some sha1
  else if digest =? 2 then Some sha256
  else if digest =? 3 then Some gosthash94
  else if digest =? 4 then Some sha384
  else None.

Definition algo_digest_name (algo : Z) : option hash_name_t :=
  if algo =? 5 then Some sha1
  else if algo =? 7 then Some sha1
  else if algo =? 8 then Some sha256
  else if algo =? 10 then Some sha512
  else if algo =? 12 then Some gosthash94
  else if algo =? 13 then Some sha256
  else if algo =? 14 then Some sha384
  else if algo =? 15 then Some null_hash_name
  else if algo =? 16 then Some null_hash_name
  else None.

Definition nsec3_digest_name (digest : Z) : option hash_name_t := if digest =? 1 then Some sha1 else None.

Record nettle_hash := NettleHash { digest_size : Z; digest_of : list Z → list Z }.

(** The digest is the data, behind a struct of 16 bytes with a pointer to it. *)
Definition null_hash : nettle_hash := NettleHash 16 (λ data, data).

Inductive curve := secp_256r1 | secp_384r1 | gost_gc256b.

(** The library. Numbers are those of the GNU library; a point is given by its coordinates. *)
Record nettle := Nettle {
  nettle_lookup_hash : hash_name_t → option nettle_hash;
  rsa_verify_digest : hash_name_t → Z → Z → Z → list Z → Z → bool;
  ecc_point_set : curve → Z → Z → bool;
  ecdsa_verify : curve → Z → Z → list Z → Z → Z → bool;
  gostdsa_verify : Z → Z → list Z → Z → Z → bool;
  ed25519_sha512_verify : list Z → list Z → list Z → bool;
  ed448_shake256_verify : list Z → list Z → list Z → bool
}.

(** mpz_import: the most significant byte first. *)
Definition mpz_import (bytes : list Z) : Z := foldl (λ n b, n * 256 + b) 0 bytes.

(** [n] bytes at [p]. *)
Definition read_at (buf : list Z) (p n : Z) : res (list Z) :=
  if (p <? 0) || (zlen buf <? p + n) then Oob else Ok (slice buf p (Z.to_nat n)).

Section crypto.
Context (N : nettle).

Definition hash_find (name : option hash_name_t) : option nettle_hash :=
  match name with
  | None => None
  | Some null_hash_name => Some null_hash
  | Some n => nettle_lookup_hash N n
  end.

(** [mem] says whether memory can be allocated; the signature is [sig_len] bytes of the packet at [sig]. *)
Context (mem : bool) (buf : list Z).

Definition dnsmasq_rsa_verify (d : pool) (key_data key_len sig sig_len : Z) (digest : list Z) (digest_len algo : Z) : res bool :=
  if negb mem then Ok false
  else if key_len <? 3 then Ok false
  else
    r ← blockdata_retrieve mem key_data key_len None d;
    match r with
    | None => Ok false
    | Some key =>
        e1 ← rd key 0;
        '(exp_len, p, key_len) ← (if e1 =? 0 then '(v, p) ← GETSHORT key 1; Ok (v, p, key_len - 1 - 2)
                                  else Ok (e1, 1, key_len - 1));
        if key_len <=? exp_len then Ok false
        else
          let size := key_len - exp_len in
          e ← read_at key p exp_len;
          n ← read_at key (p + exp_len) size;
          s ← read_at buf sig sig_len;
          if (algo =? 5) || (algo =? 7) then Ok (rsa_verify_digest N sha1 size (mpz_import e) (mpz_import n) digest (mpz_import s))
          else if algo =? 8 then Ok (rsa_verify_digest N sha256 size (mpz_import e) (mpz_import n) digest (mpz_import s))
          else if algo =? 10 then Ok (rsa_verify_digest N sha512 size (mpz_import e) (mpz_import n) digest (mpz_import s))
          else Ok false
    end.

(** Two numbers of [t] bytes each, of the key and of the signature. *)
Definition dnsmasq_ecdsa_verify (d : pool) (key_data key_len sig sig_len : Z) (digest : list Z) (digest_len algo : Z) : res bool :=
  if negb mem then Ok false
  else
    match (if algo =? 13 then Some (secp_256r1, 32) else if algo =? 14 then Some (secp_384r1, 48) else None) with
    | None => Ok false
    | Some (c, t) =>
        if negb (sig_len =? 2 * t) || negb (key_len =? 2 * t) then Ok false
        else
          r ← blockdata_retrieve mem key_data key_len None d;
          match r with
          | None => Ok false
          | Some key =>
              x ← read_at key 0 t; y ← read_at key t t;
              if negb (ecc_point_set N c (mpz_import x) (mpz_import y)) then Ok false
              else
                r ← read_at buf sig t; s ← read_at buf (sig + t) t;
                Ok (ecdsa_verify N c (mpz_import x) (mpz_import y) (take (Z.to_nat digest_len) digest) (mpz_import r) (mpz_import s))
          end
    end.

Definition dnsmasq_gostdsa_verify (d : pool) (key_data key_len sig sig_len : Z) (digest : list Z) (digest_len algo : Z) : res bool :=
  if negb (algo =? 12) || negb (sig_len =? 64) || negb (key_len =? 64) then Ok false
  else
    r ← blockdata_retrieve mem key_data key_len None d;
    match r with
    | None => Ok false
    | Some key =>
        if negb mem then Ok false
        else
          x ← read_at key 0 32; y ← read_at key 32 32;
          if negb (ecc_point_set N gost_gc256b (mpz_import x) (mpz_import y)) then Ok false
          else
            r ← read_at buf sig 32; s ← read_at buf (sig + 32) 32;
            Ok (gostdsa_verify N (mpz_import x) (mpz_import y) (take (Z.to_nat digest_len) digest) (mpz_import r) (mpz_import s))
    end.

Definition dnsmasq_eddsa_verify (d : pool) (key_data key_len sig sig_len : Z) (digest : list Z) (digest_len algo : Z) : res bool :=
  if negb (digest_len =? 16) then Ok false
  else
    r ← blockdata_retrieve mem key_data key_len None d;
    match r with
    | None => Ok false
    | Some key =>
        if algo =? 15 then
          if negb (key_len =? 32) || negb (sig_len =? 64) then Ok false
          else s ← read_at buf sig 64; Ok (ed25519_sha512_verify N key digest s)
        else if algo =? 16 then
          if negb (key_len =? 57) || negb (sig_len =? 114) then Ok false
          else s ← read_at buf sig 114; Ok (ed448_shake256_verify N key digest s)
        else Ok false
    end.

(** The test for an algorithm, none when its hash is not there. *)
Definition verify_func (algo : Z) : option (pool → Z → Z → Z → Z → list Z → Z → Z → res bool) :=
  match hash_find (algo_digest_name algo) with
  | None => None
  | Some _ =>
      if (algo =? 5) || (algo =? 7) || (algo =? 8) || (algo =? 10) then Some dnsmasq_rsa_verify
      else if algo =? 12 then Some dnsmasq_gostdsa_verify
      else if (algo =? 13) || (algo =? 14) then Some dnsmasq_ecdsa_verify
      else if (algo =? 15) || (algo =? 16) then Some dnsmasq_eddsa_verify
      else None
  end.

Definition verify (d : pool) (key_data key_len sig sig_len : Z) (digest : list Z) (digest_len algo : Z) : res bool :=
  match verify_func algo with
  | None => Ok false
  | Some func => func d key_data key_len sig sig_len digest digest_len algo
  end.
End crypto.
