(* ===== verification/DnssecValidate.v ===== *)
(** Signatures of RRsets (src/src/dnssec.c): collecting the records of a set and its signatures ([explore_rrset]), and the test of a set
    against its signatures and a key ([validate_rrset]).

    The name buffers namebuff, keyname and workspacename of the daemon are passed along as they are; what a
    call that returns an error leaves in them is not kept, except where it is used. The keys come from the
    cache, and the bytes of keys from the block storage. *)
From S2P Require Import Prelude Hostname Wire WireSpec RRFilter WireExt Cache Blockdata Crypto.
From S2P Require Import DnssecName DnssecSort.

Definition STAT_SECURE : Z := 65536.
Definition STAT_INSECURE : Z := 131072.
Definition STAT_BOGUS : Z := 196608.
Definition STAT_NEED_DS : Z := 262144.
Definition STAT_NEED_KEY : Z := 327680.
Definition STAT_SECURE_WILDCARD : Z := 458752.
Definition STAT_OK : Z := 524288.
Definition DNSSEC_FAIL_NYV : Z := 1.
Definition DNSSEC_FAIL_EXP : Z := 2.
Definition DNSSEC_FAIL_INDET : Z := 4.
Definition DNSSEC_FAIL_NOKEYSUP : Z := 8.
Definition DNSSEC_FAIL_NOSIG : Z := 16.
Definition DNSSEC_FAIL_NOZONE : Z := 32.
Definition DNSSEC_FAIL_NONSEC : Z := 64.
Definition DNSSEC_FAIL_NODSSUP : Z := 128.
Definition DNSSEC_FAIL_NOKEY : Z := 256.
Definition STAT_ISEQUAL (a b : Z) : bool := Z.land a 4294901760 =? b.

(** * Strings in buffers *)

Fixpoint get_str (l : list Z) : res cstring :=
  match l with
  | [] => Oob
  | c :: l => if c =? 0 then Ok [] else s ← get_str l; Ok (c :: s)
  end.
Definition str_at (buf : list Z) (off : Z) : res cstring :=
  if off <? 0 then Oob else get_str (drop (Z.to_nat off) buf).

(** What follows the first dot, [strchr(s, '.') + 1]. *)
Fixpoint after_dot (s : cstring) : option cstring :=
  match s with [] => None | c :: s => if c =? dot then Some s else after_dot s end.

(** Chopping labels off a name until it is [key]. *)
Fixpoint encloses (fuel : nat) (name key : cstring) : bool :=
  if hostname_isequal name key then true
  else match fuel, after_dot name with S fuel, Some rest => encloses fuel rest key | _, _ => false end.

(** * The time of signatures *)

Record clock := Clock {
  timestamp_file : bool; timestamp_time : Z; back_to_the_future : bool; dnssec_no_time_check : bool; reloads : Z
}.

(** Whether the times of signatures are checked. *)
Definition is_check_date (curtime : Z) (k : clock) : bool * clock :=
  if timestamp_file k then
    let k := if negb (back_to_the_future k) && (timestamp_time k <=? curtime)
             then Clock true (timestamp_time k) true false (reloads k + 1) else k in
    (back_to_the_future k, k)
  else (negb (dnssec_no_time_check k), k).

(** [mtime] is what stat gives, [enoent] whether it failed because there is no file, [created] whether it could be made and its time
    set. *)
Definition setup_timestamp (mtime : option Z) (enoent created : bool) (now : Z) (k : clock) : Z * clock :=
  let k := Clock (timestamp_file k) (timestamp_time k) false (dnssec_no_time_check k) (reloads k) in
  let check t := if t <=? now then (0, Clock true t true (dnssec_no_time_check k) (reloads k))
                 else (1, Clock true t false (dnssec_no_time_check k) (reloads k)) in
  if negb (timestamp_file k) then (0, k)
  else match mtime with
       | Some t => check t
       | None => if enoent && created then check 1420070400 else (-1, k)
       end.

(** * Collecting a set *)

(** The arrays of records and signatures with the numbers of entries in use, and the name of the signer. *)
Record explored := Explored {
  x_rrset : list Z; x_nrr : Z; x_sigs : list Z; x_nsig : Z; x_gotkey : bool; x_keyname : list Z
}.

Section rrset.
Context (alloc : Z → bool) (buf : list Z) (plen : Z).

Definition add_entry (wk : list Z) (n v : Z) : res (list Z) :=
  match expand_workspace alloc wk n with None => Bad | Some wk => set_rr wk n v end.

(** A signature with data of [rdlen] bytes at [p]; [pdata] is what is remembered of it. *)
Definition explore_sig (type : Z) (name : cstring) (pdata p rdlen : Z) (x : explored) : res explored :=
  _ ← guard_ok (negb (rdlen <? 18));
  '(type_covered, p) ← GETSHORT buf p;
  let p := p + 16 in
  x ← (if x_gotkey x then
         key ← str_at (x_keyname x) 0;
         '(r, _, _) ← extract_name true buf plen p key false 0;
         _ ← guard_ok (r =? 1); Ok x
       else
         '(_, _, key) ← extract_name true buf plen p [] true 0;
         kb ← put_name (x_keyname x) key;
         _ ← guard_ok (bool_decide (key = []) || encloses (length name) name key);
         Ok (Explored (x_rrset x) (x_nrr x) (x_sigs x) (x_nsig x) true kb));
  if type_covered =? type then
    sigs ← add_entry (x_sigs x) (x_nsig x) pdata;
    Ok (Explored (x_rrset x) (x_nrr x) sigs (x_nsig x + 1) (x_gotkey x) (x_keyname x))
  else Ok x.

Fixpoint explore_loop (class type : Z) (name : cstring) (n : nat) (p : Z) (x : explored) : res explored :=
  match n with
  | O => Ok x
  | S n =>
      let pstart := p in
      '(r, p, _) ← extract_name true buf plen p name false 10;
      '(stype, p) ← GETSHORT buf p;
      '(sclass, p) ← GETSHORT buf p;
      let pdata := p in
      '(rdlen, p) ← GETSHORT buf (p + 4);
      _ ← guard_ok (CHECK_LEN p plen rdlen);
      x ← (if (r =? 1) && (sclass =? class) then
             x ← (if stype =? type then
                    rr ← add_entry (x_rrset x) (x_nrr x) pstart;
                    Ok (Explored rr (x_nrr x + 1) (x_sigs x) (x_nsig x) (x_gotkey x) (x_keyname x))
                  else Ok x);
             if stype =? T_RRSIG then explore_sig type name pdata p rdlen x else Ok x
           else Ok x);
      p ← ADD_RDLEN p plen rdlen;
      explore_loop class type name n p x
  end.

(** [rrset] and [sigs] are the static arrays as the last call left them. *)
Definition explore_rrset (class type : Z) (name : cstring) (keyname rrset sigs : list Z) : res explored :=
  p ← skip_questions buf plen;
  an ← ancount buf; ns ← nscount buf;
  explore_loop class type name (Z.to_nat (an + ns)) p (Explored rrset 0 sigs 0 false keyname).

(** * What is signed *)

(** [while ( *s != '.' && *s != 0) s++]. *)
Fixpoint to_dot (fuel : nat) (name : list Z) (s : Z) : res Z :=
  match fuel with
  | O => NoFuel
  | S fuel => c ← rd name s; if (c =? dot) || (c =? 0) then Ok s else to_dot fuel name (s + 1)
  end.

(** [j] labels chopped off the name at [s], up to the dot behind the last one. *)
Fixpoint chop_labels (j : nat) (name : list Z) (s : Z) : res Z :=
  match j with
  | O => Ok s
  | S j' =>
      s ← to_dot (S (length name)) name s;
      c ← rd name s;
      chop_labels j' name (if negb (Nat.eqb j 1) && (c =? dot) then s + 1 else s)
  end.

Definition RRBUFLEN : Z := 128.

Fixpoint count_rdata (fuel : nat) (j : Z) (rrbuf : list Z) (st : rdata_state) : res (Z * list Z * list Z) :=
  match fuel with
  | O => NoFuel
  | S fuel =>
      r ← get_rdata buf plen st;
      match r with
      | None => Ok (j, rrbuf, s_buff st)
      | Some st =>
          rrbuf ← (if j <? RRBUFLEN then b ← op_byte buf st; wr rrbuf j b else Ok rrbuf);
          count_rdata fuel (j + 1) rrbuf st
      end
  end.

(** The second loop, with what has been given to the hash. *)
Fixpoint chunk_rdata (fuel : nat) (j : Z) (rrbuf ctx : list Z) (st : rdata_state) : res (Z * list Z * list Z * list Z) :=
  match fuel with
  | O => NoFuel
  | S fuel =>
      r ← get_rdata buf plen st;
      match r with
      | None => Ok (j, rrbuf, ctx, s_buff st)
      | Some st =>
          b ← op_byte buf st;
          rrbuf ← wr rrbuf j b;
          if j =? RRBUFLEN - 1 then chunk_rdata fuel 0 rrbuf (ctx ++ rrbuf) st
          else chunk_rdata fuel (j + 1) rrbuf ctx st
      end
  end.

(** The data of a record, [rdlen] bytes at [p], with its length in front; the name buffer is the workspace. *)
Definition hash_rdata (desc ctx name : list Z) (p rdlen : Z) : res (list Z * list Z) :=
  d ← (match desc with [] => Oob | d :: _ => Ok d end);
  if d =? END_DESC then
    bytes ← read_at buf p rdlen;
    Ok (ctx ++ short_bytes rdlen ++ bytes, name)
  else
    '(j, rrbuf, name) ← count_rdata (cmp_fuel buf) 0 (repeat 0 128) (RdataState desc 0 (p + rdlen) p Null name);
    let ctx := ctx ++ short_bytes j in
    '(j, rrbuf, ctx, name) ← (if RRBUFLEN <=? j
      then chunk_rdata (cmp_fuel buf) 0 rrbuf ctx (RdataState desc 0 (p + rdlen) p Null name)
      else Ok (j, rrbuf, ctx, name));
    Ok (if negb (j =? 0) then ctx ++ take (Z.to_nat j) rrbuf else ctx, name).

(** One record of the set. [Bad] is the return of STAT_BOGUS. The last result is what is stored in [*wildcard_out]. *)
Definition hash_rr (desc : list Z) (labels name_labels orig_ttl p : Z) (ctx name : list Z) : res (list Z * list Z * option Z) :=
  '(_, p, s) ← extract_name true buf plen p [] true 10;
  name ← put_name name s;
  '(start, name, wild) ←
    (if labels <? name_labels then
       s ← chop_labels (Z.to_nat (name_labels - labels)) name 0;
       name ← wr name (s - 1) 42;
       Ok (s - 1, name, Some (s + 1))
     else Ok (0, name, None));
  '(name, wire_len) ← to_wire name start;
  owner ← read_at name start wire_len;
  tc ← read_at buf p 4;
  let ctx := ctx ++ owner ++ tc ++ long_bytes orig_ttl in
  '(rdlen, p) ← GETSHORT buf (p + 8);
  _ ← guard_ok (CHECK_LEN p plen rdlen);
  '(ctx, name) ← hash_rdata desc ctx name p rdlen;
  Ok (ctx, name, wild).

Fixpoint hash_rrs (desc : list Z) (labels name_labels orig_ttl : Z) (rrs : list Z) (ctx name : list Z) (wild : option Z)
    : res (list Z * list Z * option Z) :=
  match rrs with
  | [] => Ok (ctx, name, wild)
  | p :: rrs =>
      '(ctx, name, w) ← hash_rr desc labels name_labels orig_ttl p ctx name;
      hash_rrs desc labels name_labels orig_ttl rrs ctx name (match w with None => wild | w => w end)
  end.
End rrset.

(** What the routines of validation change: the cache, the clock, and the name buffers of the daemon. *)
Record vstate := VState { v_cache : cache; v_clock : clock; v_name : list Z; v_keyname : list Z; v_work : list Z }.

Definition set_vcache (c : cache) (v : vstate) : vstate := VState c (v_clock v) (v_name v) (v_keyname v) (v_work v).
Definition set_vname (b : list Z) (v : vstate) : vstate := VState (v_cache v) (v_clock v) b (v_keyname v) (v_work v).
Definition set_vkeyname (b : list Z) (v : vstate) : vstate := VState (v_cache v) (v_clock v) (v_name v) b (v_work v).
Definition set_vwork (b : list Z) (v : vstate) : vstate := VState (v_cache v) (v_clock v) (v_name v) (v_keyname v) b.
Definition set_vclock (k : clock) (v : vstate) : vstate := VState (v_cache v) k (v_name v) (v_keyname v) (v_work v).

(** The fields of a signature: its TTL and the length of its data, the data [g_data], and what is in it; [g_rest] is the
    signer's name and the signature itself. *)
Record sigrec := SigRec {
  g_ttl : Z; g_rdlen : Z; g_data : Z; g_algo : Z; g_labels : Z; g_orig_ttl : Z; g_expiration : Z; g_inception : Z; g_tag : Z; g_rest : Z
}.

(** The key a caller gives: its place in the block storage, its length, algorithm and tag. *)
Record given_key := GivenKey { k_data : Z; k_len : Z; k_algo : Z; k_tag : Z }.

(** What validation gives: the status, [*wildcard_out] and [*ttl_out] when they were stored. *)
Record verdict_t := Verdict { r_status : Z; r_wild : option Z; r_ttl : option Z }.

Section validate.
Context (N : nettle) (mem : bool) (mix_tab : Z → Z) (pool : pool) (buf : list Z) (plen now curtime class : Z).

Definition read_sig (p : Z) : res sigrec :=
  '(ttl, p) ← GETLONG buf p;
  '(rdlen, p) ← GETSHORT buf p;
  let psav := p in
  let p := p + 2 in
  algo ← rd buf p; labels ← rd buf (p + 1);
  '(orig_ttl, p) ← GETLONG buf (p + 2);
  '(expiration, p) ← GETLONG buf p;
  '(inception, p) ← GETLONG buf p;
  '(tag, p) ← GETSHORT buf p;
  Ok (SigRec ttl rdlen psav algo labels orig_ttl expiration inception tag p).

(** The checks of the times: [None] when the signature is passed over. *)
Definition check_times (time_check : bool) (g : sigrec) (failflags : Z) : option Z * Z :=
  if negb time_check then
    let f := clear_flag failflags (Z.lor DNSSEC_FAIL_NYV DNSSEC_FAIL_EXP) in (Some f, f)
  else if serial_compare_32 (u32 curtime) (g_inception g) =? SERIAL_LT then (None, failflags)
  else
    let failflags := clear_flag failflags DNSSEC_FAIL_NYV in
    if serial_compare_32 (u32 curtime) (g_expiration g) =? SERIAL_GT then (None, failflags)
    else let f := clear_flag failflags DNSSEC_FAIL_EXP in (Some f, f).

(** The rules on TTLs of RFC 4035, 5.3.3. *)
Definition sig_ttl (time_check : bool) (g : sigrec) : Z :=
  let ttl := if g_orig_ttl g <? g_ttl g then g_orig_ttl g else g_ttl g in
  if time_check && (g_expiration g - curtime <? ttl) then u32 (g_expiration g - curtime) else ttl.

(** The keys of the signer in the cache, from [crecp] on. *)
Fixpoint try_keys (fuel : nat) (crecp : option Z) (keyname : cstring) (g : sigrec) (sig sig_len : Z) (digest : list Z) (dlen : Z) (c : cache)
    : res (cache * bool) :=
  match crecp with
  | None => Ok (c, false)
  | Some id =>
      match fuel with
      | O => NoFuel
      | S fuel =>
          let r := get c id in
          ok ← (match addr r with
                | A_key keydata keylen algo keytag _ =>
                    if (algo =? g_algo g) && (keytag =? g_tag g) && (uid r =? class)
                    then verify N mem buf pool keydata keylen sig (u64 sig_len) digest dlen (g_algo g)
                    else Ok false
                | _ => Ok false
                end);
          if ok : bool then Ok (c, true)
          else
            '(c, next) ← cache_find_by_name true mix_tab crecp keyname now F_DNSKEY c;
            try_keys fuel next keyname g sig sig_len digest dlen c
      end
  end.

(** A signature whose times and algorithm are good, from the signer's name on, which has been put into keyname: the status when
    there is one. [h] is the hash of the algorithm, [crecp] the first key of the signer in the cache. *)
Definition test_sig (h : nettle_hash) (desc rrs : list Z) (name_labels : Z) (key : option given_key) (crecp : option Z)
    (g : sigrec) (sig : Z) (wild : option Z) (v : vstate) : res (option Z * option Z * vstate) :=
  let sig_len := g_rdlen g - (sig - g_data g) in
  ctx ← read_at buf (g_data g) 18;
  '(keyname, wire_len) ← to_wire (v_keyname v) 0;
  signer ← read_at keyname 0 wire_len;
  keyname ← from_wire keyname 0;
  r ← catch (hash_rrs buf plen desc (g_labels g) name_labels (g_orig_ttl g) rrs (ctx ++ signer) (v_name v) wild);
  match r with
  | None => Ok (Some STAT_BOGUS, wild, set_vkeyname keyname v)
  | Some (ctx, name, wild) =>
      let digest := digest_of h ctx in
      p ← (match rrs with [] => Oob | p :: _ => Ok p end);
      r ← catch (extract_name true buf plen p [] true 0);
      match r with
      | None => Ok (Some STAT_BOGUS, wild, set_vkeyname keyname v)
      | Some (_, _, s) =>
          name ← put_name name s;
          let v := set_vkeyname keyname (set_vname name v) in
          match key with
          | Some k =>
              ok ← (if (k_algo k =? g_algo g) && (k_tag k =? g_tag g)
                    then verify N mem buf pool (k_data k) (k_len k) sig (u64 sig_len) digest (digest_size h) (g_algo g)
                    else Ok false);
              Ok (if ok : bool then Some STAT_SECURE else None, wild, v)
          | None =>
              ks ← str_at keyname 0;
              '(c, ok) ← try_keys (S (size (store (v_cache v)))) crecp ks g sig sig_len digest (digest_size h) (v_cache v);
              Ok (if ok : bool then Some (if g_labels g <? name_labels then STAT_SECURE_WILDCARD else STAT_SECURE) else None,
                  wild, set_vcache c v)
          end
      end
  end.

(** The loop over the signatures. [ttl_wanted] says whether [ttl_out] was given. *)
Fixpoint try_sigs (desc rrs : list Z) (name_labels : Z) (key : option given_key) (time_check ttl_wanted : bool)
    (sigs : list Z) (failflags : Z) (wild ttl : option Z) (v : vstate) : res (verdict_t * vstate) :=
  match sigs with
  | [] => Ok (Verdict (Z.lor (Z.lor STAT_BOGUS failflags) DNSSEC_FAIL_NOKEY) wild ttl, v)
  | p :: sigs =>
      let failflags := clear_flag failflags DNSSEC_FAIL_NOSIG in
      g ← read_sig p;
      r ← catch (extract_name true buf plen (g_rest g) [] true 0);
      match r with
      | None => Ok (Verdict STAT_BOGUS wild ttl, v)
      | Some (_, sig, s) =>
          keyname ← put_name (v_keyname v) s;
          let v := set_vkeyname keyname v in
          let '(go, failflags) := check_times time_check g failflags in
          match go, hash_find N (algo_digest_name (g_algo g)) with
          | None, _ | _, None => try_sigs desc rrs name_labels key time_check ttl_wanted sigs failflags wild ttl v
          | Some _, Some h =>
              let failflags := clear_flag failflags DNSSEC_FAIL_NOKEYSUP in
              if (name_labels <? g_labels g) || negb mem
              then try_sigs desc rrs name_labels key time_check ttl_wanted sigs failflags wild ttl v
              else
                '(c, crecp) ← (match key with
                               | Some _ => Ok (v_cache v, None)
                               | None => cache_find_by_name true mix_tab None s now F_DNSKEY (v_cache v)
                               end);
                let v := set_vcache c v in
                if bool_decide (key = None) && bool_decide (crecp = None) then Ok (Verdict STAT_NEED_KEY wild ttl, v)
                else
                  let ttl := if ttl_wanted then Some (sig_ttl time_check g) else ttl in
                  '(status, wild, v) ← test_sig h desc rrs name_labels key crecp g sig wild v;
                  match status with
                  | Some st => Ok (Verdict st wild ttl, v)
                  | None => try_sigs desc rrs name_labels key time_check ttl_wanted sigs failflags wild ttl v
                  end
          end
      end
  end.

(** [rrset] and [sigs] are the entries in use of the arrays; the sorted records are returned as well. *)
Definition validate_rrset (type : Z) (sigs rrset : list Z) (key : option given_key) (ttl_wanted : bool) (v : vstate)
    : res (verdict_t * list Z * vstate) :=
  desc ← rrfilter_desc type;
  let '(time_check, k) := is_check_date curtime (v_clock v) in
  let v := set_vclock k v in
  name ← str_at (v_name v) 0;
  let name_labels := count_labels name in
  '(rrs, work, keyname) ← sort_rrset buf plen desc rrset (v_work v) (v_keyname v);
  let v := set_vwork work (set_vkeyname keyname v) in
  let failflags := Z.lor (Z.lor (Z.lor DNSSEC_FAIL_NOSIG DNSSEC_FAIL_NYV) DNSSEC_FAIL_EXP) DNSSEC_FAIL_NOKEYSUP in
  '(r, v) ← try_sigs desc rrs name_labels key time_check ttl_wanted sigs failflags None None v;
  Ok (r, rrs, v).
End validate.

Definition EDE_UNSET : Z := -1.
Definition EDE_USUPDNSKEY : Z := 1.
Definition EDE_USUPDS : Z := 2.
Definition EDE_DNSSEC_IND : Z := 5.
Definition EDE_SIG_EXP : Z := 7.
Definition EDE_SIG_NYV : Z := 8.
Definition EDE_NO_DNSKEY : Z := 9.
Definition EDE_NO_RRSIG : Z := 10.
Definition EDE_NO_ZONEKEY : Z := 11.
Definition EDE_NO_NSEC : Z := 12.

(** The extended error for the flags of a status. *)
Definition errflags_to_ede (status : Z) : Z :=
  if flag status DNSSEC_FAIL_NYV then EDE_SIG_NYV
  else if flag status DNSSEC_FAIL_EXP then EDE_SIG_EXP
  else if flag status DNSSEC_FAIL_NOKEYSUP then EDE_USUPDNSKEY
  else if flag status DNSSEC_FAIL_NOZONE then EDE_NO_ZONEKEY
  else if flag status DNSSEC_FAIL_NOKEY then EDE_NO_DNSKEY
  else if flag status DNSSEC_FAIL_NODSSUP then EDE_USUPDS
  else if flag status DNSSEC_FAIL_NONSEC then EDE_NO_NSEC
  else if flag status DNSSEC_FAIL_INDET then EDE_DNSSEC_IND
  else if flag status DNSSEC_FAIL_NOSIG then EDE_NO_RRSIG
  else EDE_UNSET.
