(* ===== verification/DnssecKeeps.v ===== *)
(** The name buffers of the daemon are arrays of bytes of a fixed size, and stay so through every routine of validation. *)
From S2P Require Import Prelude Hostname Wire WireSafe WireSpec RRFilter WireExt Blockdata Cache Crypto.
From S2P Require Import DnssecName DnssecNameSpec DnssecSort DnssecSorted DnssecValidate.

(** * Results taken apart *)

Lemma catch_Some {A} (m : res A) a : catch m = Ok (Some a) → m = Ok a.
Proof. by destruct m; cbn; intros [= ->]. Qed.

(** The steps of a routine that gave a result, each as an equation. *)
Ltac split_pairs a :=
  lazymatch type of a with
  | (_ * _)%type => let x := fresh "x" in let y := fresh "y" in destruct a as [x y]; split_pairs x; split_pairs y
  | _ => idtac
  end.
Ltac rinv E :=
  cbv beta iota in E;
  lazymatch type of E with
  | mbind _ _ = Ok _ =>
      let a := fresh "a" in let H := fresh "H" in
      apply bind_inv in E as (a & H & E); split_pairs a; rinv H; rinv E
  | guard_ok ?b = Ok _ => destruct b eqn:?; [|discriminate E]
  | catch _ = Ok (Some _) => apply catch_Some in E; rinv E
  | (if ?x then _ else _) = Ok _ => destruct x eqn:?; rinv E
  | (match ?x with _ => _ end) = Ok _ => destruct x eqn:?; rinv E
  | Ok _ = Ok _ => injection E; clear E; intros; try discriminate; subst
  | Bad = Ok _ => discriminate E
  | Oob = Ok _ => discriminate E
  | NoFuel = Ok _ => discriminate E
  | _ => idtac
  end.

Create HintDb keeps.
#[export] Hint Resolve catch_Some : keeps.

(** * Buffers *)

Lemma wr_keeps b i x b' : wr b i x = Ok b' → buff_ok b → buff_ok b'.
Proof. intros E [Hb Hz]. destruct (wr_bytes _ _ _ _ Hb E). split; [done|congruence]. Qed.
#[export] Hint Resolve wr_keeps : keeps.

Lemma put_bytes_keeps bs b p b' : put_bytes b p bs = Ok b' → buff_ok b → buff_ok b'.
Proof. revert b p. induction bs as [|x bs IH]; intros b p E B; cbn [put_bytes] in E; rinv E; eauto with keeps. Qed.
#[export] Hint Resolve put_bytes_keeps : keeps.

Lemma memmove_keeps b p start len b' : memmove b p start len = Ok b' → buff_ok b → buff_ok b'.
Proof. unfold memmove. intros E B. rinv E. eauto with keeps. Qed.
#[export] Hint Resolve memmove_keeps : keeps.

Lemma put_name_keeps b s b' : put_name b s = Ok b' → buff_ok b → buff_ok b'.
Proof. unfold put_name. eauto with keeps. Qed.
#[export] Hint Resolve put_name_keeps : keeps.

Lemma drop_char_keeps fuel b q b' : drop_char fuel b q = Ok b' → buff_ok b → buff_ok b'.
Proof. revert b q. induction fuel as [|fuel IH]; intros b q E B; cbn [drop_char] in E; rinv E; eauto with keeps. Qed.
#[export] Hint Resolve drop_char_keeps : keeps.

Lemma lower_label_keeps fuel b p b' q : lower_label fuel b p = Ok (b', q) → buff_ok b → buff_ok b'.
Proof. revert b p. induction fuel as [|fuel IH]; intros b p E B; cbn [lower_label] in E; rinv E; eauto with keeps. Qed.
#[export] Hint Resolve lower_label_keeps : keeps.

Lemma to_wire_loop_keeps fuel b l b' q : to_wire_loop fuel b l = Ok (b', q) → buff_ok b → buff_ok b'.
Proof. revert b l. induction fuel as [|fuel IH]; intros b l E B; cbn [to_wire_loop] in E; rinv E; eauto 8 with keeps. Qed.
#[export] Hint Resolve to_wire_loop_keeps : keeps.

Lemma to_wire_keeps b name b' n : to_wire b name = Ok (b', n) → buff_ok b → buff_ok b'.
Proof. unfold to_wire. intros E B. rinv E. eauto with keeps. Qed.
#[export] Hint Resolve to_wire_keeps : keeps.

Lemma escape_keeps fuel last b p stop b' k : escape_label fuel last b p stop = Ok (b', k) → buff_ok b → buff_ok b'.
Proof. revert b p stop. induction fuel as [|fuel IH]; intros b p stop E B; cbn [escape_label] in E; rinv E; eauto 8 with keeps. Qed.
#[export] Hint Resolve escape_keeps : keeps.

Lemma from_wire_loop_keeps fuel last b l b' k : from_wire_loop fuel last b l = Ok (b', k) → buff_ok b → buff_ok b'.
Proof. revert b l. induction fuel as [|fuel IH]; intros b l E B; cbn [from_wire_loop] in E; rinv E; eauto 8 with keeps. Qed.
#[export] Hint Resolve from_wire_loop_keeps : keeps.

Lemma from_wire_keeps b name b' : from_wire b name = Ok b' → buff_ok b → buff_ok b'.
Proof. unfold from_wire. intros E B. rinv E; eauto with keeps. Qed.
#[export] Hint Resolve from_wire_keeps : keeps.

(** * Sorting and hashing *)

Section keeps.
Context (buf : list Z) (plen : Z).

Lemma next_field_keeps ds e ip b st : next_field buf plen ds e ip b = Ok (Some st) → buff_ok b → buff_ok (s_buff st).
Proof. revert ip b. induction ds as [|d ds IH]; intros ip b E B; cbn [next_field] in E; rinv E; cbn; eauto with keeps. Qed.

Lemma get_rdata_keeps st st' : get_rdata buf plen st = Ok (Some st') → buff_ok (s_buff st) → buff_ok (s_buff st').
Proof. unfold get_rdata. intros E B. rinv E; cbn; eauto using next_field_keeps. Qed.
#[local] Hint Resolve get_rdata_keeps : keeps.

Lemma cmp_canonical_keeps fuel st1 st2 r b1 b2 : cmp_canonical buf plen fuel st1 st2 = Ok (r, b1, b2) →
  buff_ok (s_buff st1) → buff_ok (s_buff st2) → buff_ok b1 ∧ buff_ok b2.
Proof. revert st1 st2. induction fuel as [|fuel IH]; intros st1 st2 E B1 B2; cbn [cmp_canonical] in E; rinv E; eauto 6 with keeps. Qed.

Lemma cmp_records_keeps desc c1 c2 p q r b1 b2 : cmp_records buf plen desc c1 c2 p q = Ok (r, b1, b2) →
  buff_ok c1 → buff_ok c2 → buff_ok b1 ∧ buff_ok b2.
Proof. unfold cmp_records. intros E B1 B2. rinv E; try done; by eapply cmp_canonical_keeps. Qed.

Lemma sort_pass_keeps desc x rest c1 c2 l sw sh b1 b2 : sort_pass buf plen desc c1 c2 x rest = Ok (l, sw, sh, b1, b2) →
  buff_ok c1 → buff_ok c2 → buff_ok b1 ∧ buff_ok b2.
Proof.
  revert x c1 c2 l sw sh. induction rest as [|y rest IH]; intros x c1 c2 l sw sh E B1 B2; cbn [sort_pass] in E; [by rinv E|].
  apply bind_inv in E as ([[r d1] d2] & Er & E). destruct (cmp_records_keeps _ _ _ _ _ _ _ _ Er B1 B2). rinv E; eauto.
Qed.

Lemma sort_rrset_keeps desc l c1 c2 l' b1 b2 : sort_rrset buf plen desc l c1 c2 = Ok (l', b1, b2) →
  buff_ok c1 → buff_ok c2 → buff_ok b1 ∧ buff_ok b2.
Proof.
  unfold sort_rrset. generalize (S (length l * length l)). intros fuel. revert l c1 c2.
  induction fuel as [|fuel IH]; intros l c1 c2 E B1 B2; cbn [sort_loop] in E; [done|]. destruct l as [|x rest]; [by rinv E|].
  apply bind_inv in E as ([[[[m sw] sh] d1] d2] & Er & E). destruct (sort_pass_keeps _ _ _ _ _ _ _ _ _ _ Er B1 B2). rinv E; eauto.
Qed.

Lemma count_rdata_keeps fuel j rr st j' rr' b : count_rdata buf plen fuel j rr st = Ok (j', rr', b) → buff_ok (s_buff st) → buff_ok b.
Proof. revert j rr st. induction fuel as [|fuel IH]; intros j rr st E B; cbn [count_rdata] in E; rinv E; eauto with keeps. Qed.

Lemma chunk_rdata_keeps fuel j rr ctx st j' rr' ctx' b : chunk_rdata buf plen fuel j rr ctx st = Ok (j', rr', ctx', b) →
  buff_ok (s_buff st) → buff_ok b.
Proof. revert j rr ctx st. induction fuel as [|fuel IH]; intros j rr ctx st E B; cbn [chunk_rdata] in E; rinv E; eauto with keeps. Qed.

Lemma hash_rdata_keeps desc ctx name p rdlen ctx' b : hash_rdata buf plen desc ctx name p rdlen = Ok (ctx', b) → buff_ok name → buff_ok b.
Proof.
  unfold hash_rdata. intros E B. apply bind_inv in E as (d & _ & E). destruct (d =? END_DESC); [by rinv E|].
  apply bind_inv in E as ([[j rr] b1] & E1 & E). apply count_rdata_keeps in E1; [|done]. cbv zeta in E.
  apply bind_inv in E as ([[[j2 rr2] c2] b2] & E2 & E). injection E as <- <-. destruct (RRBUFLEN <=? j); [by eapply chunk_rdata_keeps|by injection E2 as <- <- <- <-].
Qed.
#[local] Hint Resolve hash_rdata_keeps : keeps.

Lemma hash_rr_keeps desc la nl ot p ctx name ctx' b w : hash_rr buf plen desc la nl ot p ctx name = Ok (ctx', b, w) → buff_ok name → buff_ok b.
Proof. unfold hash_rr. intros E B. cbv zeta in E. rinv E; eauto 8 with keeps. Qed.
#[local] Hint Resolve hash_rr_keeps : keeps.

Lemma hash_rrs_cons desc la nl ot p rrs ctx name w : hash_rrs buf plen desc la nl ot (p :: rrs) ctx name w =
  ('(ctx, name, w1) ← hash_rr buf plen desc la nl ot p ctx name; hash_rrs buf plen desc la nl ot rrs ctx name (match w1 with None => w | w => w end)).
Proof. reflexivity. Qed.

Lemma hash_rrs_keeps desc la nl ot rrs ctx name w ctx' b w' : hash_rrs buf plen desc la nl ot rrs ctx name w = Ok (ctx', b, w') →
  buff_ok name → buff_ok b.
Proof.
  revert ctx name w. induction rrs as [|p rrs IH]; intros ctx name w E B. { cbn [hash_rrs] in E. by injection E as <- <- <-. }
  rewrite hash_rrs_cons in E.
  apply bind_inv in E as ([[c1 n1] w1] & E1 & E). apply hash_rr_keeps in E1; [|done]. eapply IH; [exact E|done].
Qed.
#[local] Hint Resolve hash_rrs_keeps : keeps.

(** * Signatures *)

Definition buffers_ok (v : vstate) : Prop := buff_ok (v_name v) ∧ buff_ok (v_keyname v) ∧ buff_ok (v_work v).

Lemma buffers_ok_intro v : buff_ok (v_name v) → buff_ok (v_keyname v) → buff_ok (v_work v) → buffers_ok v.
Proof. by intros. Qed.

Context (N : nettle) (mem : bool) (mix_tab : Z → Z) (keys : pool) (now curtime class : Z).

Lemma test_sig_keeps h desc rrs nl key crecp g sig w v st w' v' :
  test_sig N mem mix_tab keys buf plen now class h desc rrs nl key crecp g sig w v = Ok (st, w', v') → buffers_ok v → buffers_ok v'.
Proof.
  unfold test_sig. intros E (B1 & B2 & B3). cbv zeta in E. rinv E; apply buffers_ok_intro; cbn; eauto 8 with keeps.
Qed.
#[local] Hint Resolve test_sig_keeps : keeps.

Lemma try_sigs_keeps desc rrs nl key tc tw sigs ff w ttl v r v' :
  try_sigs N mem mix_tab keys buf plen now curtime class desc rrs nl key tc tw sigs ff w ttl v = Ok (r, v') → buffers_ok v → buffers_ok v'.
Proof.
  revert ff w ttl v. induction sigs as [|p sigs IH]; intros ff w ttl v E B; cbn [try_sigs] in E; [by rinv E|]. cbv zeta in E.
  apply bind_inv in E as (g & _ & E). apply bind_inv in E as (x & _ & E). destruct x as [[[ret sig] s]|]; [|by rinv E].
  apply bind_inv in E as (k1 & Ek & E). assert (buffers_ok (set_vkeyname k1 v)) as B1.
  { destruct B as (? & ? & ?). apply buffers_ok_intro; cbn; eauto with keeps. }
  destruct (check_times curtime tc g (clear_flag ff DNSSEC_FAIL_NOSIG)) as [go ff']. rinv E;
    first [exact B1 | exact B | eapply IH; [eassumption|exact B1] | eapply test_sig_keeps; [eassumption|exact B1]
          | eapply IH; [eassumption|eapply test_sig_keeps; [eassumption|exact B1]]].
Qed.

Lemma validate_rrset_keeps type sigs rrset key tw v r rrs v' :
  validate_rrset N mem mix_tab keys buf plen now curtime class type sigs rrset key tw v = Ok (r, rrs, v') → buffers_ok v → buffers_ok v'.
Proof.
  unfold validate_rrset. intros E (B1 & B2 & B3). apply bind_inv in E as (desc & _ & E). destruct (is_check_date curtime (v_clock v)) as [tc k].
  apply bind_inv in E as (name & _ & E). apply bind_inv in E as ([[l w1] k1] & Es & E). cbn in Es.
  destruct (sort_rrset_keeps _ _ _ _ _ _ _ Es B3 B2). apply bind_inv in E as ([r1 v1] & E1 & E). injection E as <- <- <-.
  eapply try_sigs_keeps; [exact E1|]. by split_and!.
Qed.
End keeps.
#[export] Hint Resolve validate_rrset_keeps : keeps.
