(* ===== verification/DnssecSound.v ===== *)
(** What is given to the hash of a signature, which is the data that RFC 4034 says is signed, and what the test of an RRset against its
    signatures accepts. *)
From stdpp Require Import sorting.
From S2P Require Import Prelude Hostname Wire WireSafe WireSpec RRFilter WireExt Cache Blockdata Crypto.
From S2P Require Import DnssecName DnssecNameSpec DnssecOrder DnssecSort DnssecSorted DnssecValidate DnssecKeeps.

(** * Labels of a name as text *)

Lemma enc_no_dot l t : Forall is_byte l → enc_label true l = Some t → Forall (λ c, c ≠ dot ∧ c ≠ 0) t.
Proof.
  revert t. induction l as [|c l IH]; intros t Hl; cbn [enc_label]; [by intros [= <-]|].
  apply Forall_cons in Hl as [Hc Hl]. destruct (enc_byte true c) as [tc|] eqn:Ec; [|done]. destruct (enc_label true l) as [u|]; [|done].
  intros [= <-]. apply Forall_app. split; [|by apply IH].
  destruct (enc_byte_cases c tc Hc Ec) as [[-> H]|[-> H]]; unfold is_byte, NAME_ESCAPE, dot in *; repeat constructor; lia.
Qed.

Lemma count_dots_app s t : count_dots (s ++ t) = count_dots s + count_dots t.
Proof. induction s as [|c s IH]; cbn [count_dots app]; lia. Qed.

Lemma count_dots_none t : Forall (λ c, c ≠ dot ∧ c ≠ 0) t → count_dots t = 0.
Proof. induction 1 as [|c t [Hc _] _ IH]; [done|]. cbn [count_dots]. by rewrite (proj2 (Z.eqb_neq c dot)) by done. Qed.

Lemma count_dots_join L s : Forall good_label L → L ≠ [] → join true L = Some s → count_dots s = zlen L - 1.
Proof.
  revert s. induction L as [|l L IH]; intros s HL Hne; [done|]. intros (t & rest & Et & -> & He & Hr & Hn)%join_cons.
  apply Forall_cons in HL as [[_ Hl] HL]. rewrite count_dots_app, (count_dots_none t) by by eapply enc_no_dot. rewrite zlen_cons.
  destruct He as [->|[r ->]].
  - rewrite (proj2 Hn) by done. done.
  - assert (L ≠ []) as HL0 by (intros ->; discriminate (proj1 Hn eq_refl)). cbn [tail] in Hr. specialize (IH r HL HL0 Hr).
    cbn [count_dots]. rewrite Z.eqb_refl. cbn [zb]. lia.
Qed.

(** The labels of a name that was extracted are counted. *)
Lemma count_labels_join L s : Forall good_label L → join true L = Some s → count_labels s = zlen L.
Proof.
  intros HL Es. destruct L as [|l L]; [by injection Es as <-|]. pose proof (count_dots_join _ _ HL ltac:(done) Es) as Hc.
  apply join_cons in Es as (t & rest & Et & -> & _). apply Forall_cons in HL as [[Hz Hl] _].
  pose proof (enc_no_dot l t Hl Et) as Hd. pose proof (enc_label_length true l t Et) as Hlen.
  destruct t as [|c t]; [unfold zlen in Hz; simpl in Hlen; lia|]. apply Forall_cons in Hd as [[Hd _] _].
  unfold count_labels. cbn [app] in *. rewrite (proj2 (Z.eqb_neq c dot)) by done. lia.
Qed.

Lemma to_dot_spec fuel pre t rest post :
  Forall (λ c, c ≠ dot ∧ c ≠ 0) t → ends_label rest → (length t < fuel)%nat →
  to_dot fuel (pre ++ t ++ rest ++ 0 :: post) (zlen pre) = Ok (zlen pre + zlen t).
Proof.
  revert fuel pre. induction t as [|c t IH]; intros [|fuel] pre Ht He Hf; try (simpl in Hf; lia).
  - cbn [to_dot app]. change (zlen (@nil Z)) with 0. rewrite Z.add_0_r. destruct He as [->|[r ->]]; cbn [app]; by rewrite rd_here.
  - apply Forall_cons in Ht as [[Hd H0] Ht]. cbn [to_dot app]. rewrite rd_here. cbn [mbind res_bind].
    rewrite (proj2 (Z.eqb_neq c dot)), (proj2 (Z.eqb_neq c 0)) by done. cbn [orb].
    specialize (IH fuel (pre ++ [c]) Ht He ltac:(simpl in Hf; lia)). rewrite zlen_snoc, <- app_assoc in IH. cbn [app] in IH.
    rewrite IH, zlen_cons. f_equal. lia.
Qed.

(** Chopping labels comes to the dot, or the end, behind them. *)
Lemma chop_labels_spec j L s pre post :
  Forall good_label L → join true L = Some s → (1 ≤ j ≤ length L)%nat →
  ∃ a x rest, s = a ++ x :: rest ∧ chop_labels j (pre ++ s ++ 0 :: post) (zlen pre) = Ok (zlen pre + zlen a + 1) ∧
    ends_label rest ∧ join true (drop j L) = Some (tail rest) ∧ (drop j L = [] ↔ rest = []).
Proof.
  revert j s pre. induction L as [|l L IH]; intros [|j] s pre HL Es Hj; try (simpl in Hj; lia).
  apply join_cons in Es as (t & rest & Et & -> & He & Hr & Hn). apply Forall_cons in HL as [[Hz Hl] HL].
  pose proof (enc_no_dot l t Hl Et) as Hd. pose proof (enc_label_length true l t Et) as Hlen.
  cbn [chop_labels]. rewrite <- app_assoc. rewrite to_dot_spec; [|done|done|rewrite !length_app; lia]. cbn [mbind res_bind].
  rewrite <- zlen_app. rewrite (app_assoc pre t). destruct (Nat.eqb_spec (S j) 1) as [E|E]; cbn [negb andb].
  - injection E as ->. destruct t as [|x a _] using rev_ind; [unfold zlen in Hz; simpl in Hlen; lia|].
    exists a, x, rest. assert (∃ c, rd ((pre ++ a ++ [x]) ++ rest ++ 0 :: post) (zlen (pre ++ a ++ [x])) = Ok c) as [c ->].
    { destruct He as [->|[r ->]]; cbn [app]; rewrite rd_here; eauto. }
    cbn [mbind res_bind chop_labels]. split_and!; try done; [by rewrite <- app_assoc|]. rewrite zlen_app, zlen_snoc. f_equal. lia.
  - simpl in Hj. destruct He as [->|[r ->]]; [rewrite (proj2 Hn) in Hj by done; simpl in Hj; lia|]. cbn [app]. rewrite rd_here.
    cbn [mbind res_bind]. rewrite Z.eqb_refl. destruct (IH j r ((pre ++ t) ++ [dot])) as (a & x & rest & -> & Ec & H); [done|done|lia|].
    rewrite zlen_snoc, <- (app_assoc _ [dot]) in Ec. cbn [app] in Ec. rewrite Ec. exists (t ++ dot :: a), x, rest. split; [by rewrite <- app_assoc|].
    split; [|done]. rewrite !zlen_app, zlen_cons. f_equal. lia.
Qed.

(** The place of a name's end is found by the skipper as well. *)
Lemma name_at_skip buf plen p L q h k : Forall is_byte buf → 0 ≤ plen ≤ zlen buf → 0 ≤ p → name_at buf plen p L q h → q + k ≤ plen →
  skip_name buf plen p k = Ok q.
Proof.
  intros Hb Hpl Hp H Hk. unfold skip_name. assert (skip_name_loop buf plen (S (Z.to_nat plen)) p = Ok q) as ->;
    [|cbn [mbind res_bind]; unfold CHECK_LEN; by rewrite (proj2 (Z.leb_le (q + k) plen)) by done].
  assert (plen - p < Z.of_nat (S (Z.to_nat plen))) as Hf by lia. revert Hf Hp. generalize (S (Z.to_nat plen)). clear Hk.
  induction H as [p Hp1 Hr|p l L e h Hp1 Hr Hl Hp2 H IH|p l b L e h Hp1 Hr Hl Hb1 H IH]; intros [|fuel] Hf Hp; try lia; cbn [skip_name_loop];
    unfold CHECK_LEN; rewrite (proj2 (Z.leb_le (p + 1) plen)) by lia; cbn [mbind res_bind guard_ok]; rewrite Hr; cbn [mbind res_bind].
  - unfold ADD_RDLEN, CHECK_LEN. change (Z.land 0 63) with 0. rewrite Z.add_0_r, (proj2 (Z.leb_le (p + 1) plen)) by lia. done.
  - assert (Z.land l 192 = 0 ∧ Z.land l 63 = l) as [-> ->] by (revert Hl; clear; intros Hl; assert (∃ n, (n < 64)%nat ∧ l = Z.of_nat n) as (n & Hn & ->)
      by (exists (Z.to_nat l); lia); do 64 (destruct n as [|n]; [split; reflexivity|]); lia).
    cbn. unfold ADD_RDLEN, CHECK_LEN. rewrite (proj2 (Z.leb_le (p + 1 + l) plen)) by lia. cbn [mbind res_bind guard_ok].
    rewrite (proj2 (Z.eqb_neq l 0)) by lia. apply IH; lia.
  - rewrite Hl. done.
Qed.

Section hashed.
Context (buf : list Z) (plen : Z) (Hbuf : Forall is_byte buf) (Hplen : 0 ≤ plen ≤ zlen buf) (Hmax : zlen buf < 2 ^ 64).

Lemma fields_bytes e ds p bs : fields buf plen e ds p bs → Forall is_byte bs.
Proof.
  induction 1 as [ds p Hp|ds p L q h bs Hp Hna Hh Hw H IH|ds p bs Hp Hx H IH|d ds p bs Hd Hp H IH]; try done.
  - by apply Forall_take, Forall_drop.
  - destruct (name_at_good _ _ _ _ _ _ Hbuf (proj2 Hplen) Hp Hna) as [HL _]. apply Forall_app.
    split; [by apply wire_bytes, good_lowered|]. constructor; [unfold is_byte; lia|done].
  - apply Forall_app. split; [by apply Forall_take, Forall_drop|done].
Qed.

(** * The data of a record *)

Lemma count_rdata_spec fuel e st done_ bs rrbuf :
  stream buf plen e st bs → e ≤ zlen buf → Forall is_byte bs → (length bs < fuel)%nat → zlen rrbuf = RRBUFLEN → Forall is_byte rrbuf →
  (zlen done_ < RRBUFLEN → ∃ t, rrbuf = done_ ++ t) →
  ∃ rrbuf' buff, count_rdata buf plen fuel (zlen done_) rrbuf st = Ok (zlen (done_ ++ bs), rrbuf', buff) ∧
    zlen rrbuf' = RRBUFLEN ∧ Forall is_byte rrbuf' ∧ buff_ok buff ∧ (zlen (done_ ++ bs) < RRBUFLEN → ∃ t, rrbuf' = (done_ ++ bs) ++ t).
Proof.
  revert st done_ bs rrbuf. induction fuel as [|fuel IH]; intros st done_ bs rrbuf Hst He Hb Hf Hz Hrb Hd; [lia|].
  pose proof (get_rdata_steps buf plen Hbuf Hplen e st bs Hst He Hmax) as S. pose proof (proj1 (proj2 Hst)) as B. cbn [count_rdata].
  destruct bs as [|b bs]; cbn [steps] in S.
  { rewrite S. cbn [mbind res_bind]. rewrite app_nil_r. exists rrbuf, (s_buff st). done. }
  destruct S as (st' & -> & O & T). cbn [mbind res_bind]. apply Forall_cons in Hb as [Hbb Hb]. cbn [length] in Hf.
  replace (done_ ++ b :: bs) with ((done_ ++ [b]) ++ bs) by by rewrite <- app_assoc. pose proof (zlen_nonneg done_).
  rewrite <- (zlen_snoc done_ b). destruct (Z.ltb_spec (zlen done_) RRBUFLEN) as [Hlt|Hge].
  - destruct (Hd Hlt) as [t ->]. destruct t as [|x t]; [rewrite app_nil_r in Hz; lia|]. rewrite O. cbn [mbind res_bind].
    rewrite wr_middle, u8_id by done. cbn [mbind res_bind]. apply IH; try done; try lia.
    + rewrite <- Hz, !zlen_app, !zlen_cons. done.
    + apply Forall_app in Hrb as [? [_ ?]%Forall_cons]. apply Forall_app. split; [done|by constructor].
    + intros _. exists t. by rewrite <- app_assoc.
  - apply IH; try done; try lia. intros Hl. rewrite zlen_snoc in Hl. lia.
Qed.

Lemma chunk_rdata_spec fuel e st cur t bs ctx :
  stream buf plen e st bs → e ≤ zlen buf → Forall is_byte bs → (length bs < fuel)%nat → zlen (cur ++ t) = RRBUFLEN → t ≠ [] →
  ∃ j rrbuf ctx' buff, chunk_rdata buf plen fuel (zlen cur) (cur ++ t) ctx st = Ok (j, rrbuf, ctx', buff) ∧
    ctx' ++ take (Z.to_nat j) rrbuf = ctx ++ cur ++ bs ∧ 0 ≤ j ∧ buff_ok buff.
Proof.
  revert st cur t bs ctx. induction fuel as [|fuel IH]; intros st cur t bs ctx Hst He Hb Hf Hz Ht; [lia|].
  pose proof (get_rdata_steps buf plen Hbuf Hplen e st bs Hst He Hmax) as S. pose proof (proj1 (proj2 Hst)) as B. cbn [chunk_rdata].
  destruct bs as [|b bs]; cbn [steps] in S.
  { rewrite S. cbn [mbind res_bind]. eexists _, _, _, _. split; [done|]. split_and!; [|apply zlen_nonneg|done].
    unfold zlen. rewrite Nat2Z.id, take_app_length, app_nil_r. done. }
  destruct S as (st' & -> & O & T). cbn [mbind res_bind]. apply Forall_cons in Hb as [Hbb Hb]. cbn [length] in Hf.
  rewrite O. cbn [mbind res_bind]. destruct t as [|x t]; [done|]. rewrite wr_middle, u8_id by done. cbn [mbind res_bind].
  rewrite zlen_app, zlen_cons in Hz. unfold RRBUFLEN in *. destruct (Z.eqb_spec (zlen cur) (128 - 1)) as [E|E].
  - destruct t as [|y t]; [|rewrite zlen_cons in Hz; pose proof (zlen_nonneg t); lia].
    destruct (IH st' [] (cur ++ [b]) bs (ctx ++ cur ++ [b])) as (j & rrbuf & ctx' & buff & E' & Hc & Hj & Hbf); try done; try lia.
    { cbn [app]. rewrite zlen_snoc. lia. }
    { by destruct cur. }
    exists j, rrbuf, ctx', buff. split; [exact E'|]. split_and!; try done. rewrite Hc. cbn [app]. by rewrite <- !app_assoc.
  - assert (t ≠ []) as Ht' by (intros ->; change (zlen (@nil Z)) with 0 in Hz; lia).
    destruct (IH st' (cur ++ [b]) t bs ctx) as (j & rrbuf & ctx' & buff & E' & Hc & Hj & Hbf); try done; try lia.
    { rewrite zlen_app, zlen_snoc. lia. }
    rewrite zlen_snoc, <- app_assoc in E'. cbn [app] in E'. exists j, rrbuf, ctx', buff. split; [exact E'|]. split_and!; try done.
    rewrite Hc. by rewrite <- !app_assoc.
Qed.

(** The data is hashed in canonical form with its length in front, whatever the number of chunks. *)
Lemma hash_rdata_spec desc ctx name p rdlen bs :
  desc_ok 2 desc = true → 0 ≤ p → 0 ≤ rdlen → p + rdlen ≤ plen → fields buf plen (p + rdlen) desc p bs → buff_ok name →
  ∃ name', hash_rdata buf plen desc ctx name p rdlen = Ok (ctx ++ short_bytes (zlen bs) ++ bs, name') ∧ buff_ok name'.
Proof.
  intros Hd Hp Hr Hl F B. unfold hash_rdata. destruct desc as [|d ds]; [done|]. cbn [mbind res_bind].
  destruct (Z.eqb_spec d END_DESC) as [->|Hne].
  { inversion F as [? ? Hp1| | |? ? ? ? Hx1]; [subst|exfalso; unfold END_DESC in *; lia].
    unfold read_at. replace ((p <? 0) || (zlen buf <? p + rdlen)) with false by lia. cbn [mbind res_bind].
    exists name. split; [|done]. replace (p + rdlen - p) with rdlen by lia. by rewrite zlen_slice by lia. }
  set (st := RdataState (d :: ds) 0 (p + rdlen) p Null name).
  assert (stream buf plen (p + rdlen) st bs) as Hst by by split.
  pose proof (fields_bytes _ _ _ _ F) as Hb.
  assert (length bs < cmp_fuel buf)%nat as Hfuel.
  { assert (p + rdlen ≤ zlen buf) as He by lia. pose proof (fields_length buf plen 2 _ _ _ _ F Hd He) as Hle. unfold cmp_fuel, MAXDNAME, zlen in *. lia. }
  destruct (count_rdata_spec (cmp_fuel buf) (p + rdlen) st [] bs (repeat 0 128)) as (rrbuf & name1 & E & Hz & Hrb & B1 & Hs);
    [done|lia|done|done|done| |by eexists|]. { apply bytes_forallb. by vm_compute. }
  change (zlen (@nil Z)) with 0 in E. rewrite E. cbn [mbind res_bind app]. cbn [app] in Hs.
  destruct (Z.leb_spec RRBUFLEN (zlen bs)) as [Hge|Hlt].
  - set (st1 := RdataState (d :: ds) 0 (p + rdlen) p Null name1).
    assert (stream buf plen (p + rdlen) st1 bs) as Hst1 by by split.
    destruct (chunk_rdata_spec (cmp_fuel buf) (p + rdlen) st1 [] rrbuf bs (ctx ++ short_bytes (zlen bs))) as (j & rrbuf' & ctx' & name2 & E2 & Hc & Hj & B2);
      [done|lia|done|done|done|by intros ->|].
    change (zlen (@nil Z)) with 0 in E2. cbn [app] in E2. rewrite E2. cbn [mbind res_bind]. exists name2. split; [|done].
    cbn [app] in Hc. rewrite <- app_assoc in Hc. rewrite <- Hc. do 2 f_equal.
    destruct (Z.eqb_spec j 0) as [->|]; [by rewrite app_nil_r|done].
  - cbn [mbind res_bind]. exists name1. split; [|done]. destruct (Hs Hlt) as [t ->]. do 2 f_equal. rewrite <- app_assoc.
    destruct (Z.eqb_spec (zlen bs) 0) as [E0|]; cbn [negb].
    + destruct bs as [|b bs]; [by rewrite app_nil_r|]. rewrite zlen_cons in E0. pose proof (zlen_nonneg bs). lia.
    + f_equal. f_equal. unfold zlen. by rewrite Nat2Z.id, take_app_length.
Qed.
(** * A record *)

(** A record: the labels of its owner, where its type begins, and the canonical form of its data. *)
Record rr_info := RRInfo { i_owner : list (list Z); i_type : Z; i_data : list Z }.

Definition rr_at (desc : list Z) (p : Z) (i : rr_info) : Prop :=
  ∃ h rdlen, name_at buf plen p (i_owner i) (i_type i) h ∧ Z.of_nat h ≤ 255 ∧ wire_len (i_owner i) < MAXDNAME ∧ 0 ≤ p ∧
    GETSHORT buf (i_type i + 8) = Ok (rdlen, i_type i + 10) ∧ 0 ≤ rdlen ∧ i_type i + 10 + rdlen ≤ plen ∧
    fields buf plen (i_type i + 10 + rdlen) desc (i_type i + 10) (i_data i).

Lemma rr_record desc p i : rr_at desc p i → record_at buf plen desc p (i_data i).
Proof.
  intros (h & rdlen & Hna & Hh & Hw & Hp & Hg & Hr & Hl & F). destruct (name_at_good _ _ _ _ _ _ Hbuf (proj2 Hplen) Hp Hna) as [_ Hq].
  exists rdlen, (i_type i + 10). split_and!; try done; [|lia]. unfold rr_data.
  rewrite (name_at_skip buf plen p _ _ h 10 Hbuf Hplen Hp Hna) by lia. exact Hg.
Qed.

(** The owner that is signed: when the signature has fewer labels than the name, the name is an expansion of a wildcard. *)
Definition signed_owner (labels name_labels : Z) (L : list (list Z)) : list (list Z) :=
  if labels <? name_labels then [42] :: drop (Z.to_nat (name_labels - labels)) L else L.

(** RFC 4034, 3.1.8.1: the owner in canonical form, type and class, the original TTL, and the data with its length. *)
Definition signed_rr (labels name_labels orig_ttl : Z) (i : rr_info) : list Z :=
  (wire (lowered <$> signed_owner labels name_labels (i_owner i)) ++ [0]) ++ slice buf (i_type i) 4 ++ long_bytes orig_ttl ++
  short_bytes (zlen (i_data i)) ++ i_data i.

(** A name in a buffer, put into canonical form and read back. *)
Lemma buffer_to_wire K u pre post :
  Forall good_label K → join true K = Some u → Forall is_byte pre → post ≠ [] → Forall is_byte post →
  zlen pre + zlen u + 1 + zlen post = NAMEBUFF →
  ∃ name2, to_wire (pre ++ u ++ 0 :: post) (zlen pre) = Ok (name2, wire_len K + 1) ∧
    read_at name2 (zlen pre) (wire_len K + 1) = Ok (wire (lowered <$> K) ++ [0]) ∧ buff_ok name2.
Proof.
  intros HK Eu Hpre Hp0 Hpb Hz. destruct (to_wire_spec K u pre post HK Eu Hp0 Hpb) as (post' & E & Hb' & Hz').
  exists (pre ++ wire (lowered <$> K) ++ 0 :: post'). pose proof (zlen_nonneg pre). pose proof (zlen_nonneg post').
  pose proof (wire_len_nonneg K). split; [done|].
  assert (zlen (pre ++ wire (lowered <$> K) ++ 0 :: post') = zlen pre + wire_len K + 1 + zlen post') as Hz2
    by (rewrite !zlen_app, zlen_cons, zlen_wire, wire_len_lowered; lia).
  split.
  - unfold read_at. rewrite Hz2. replace ((zlen pre <? 0) || (zlen pre + wire_len K + 1 + zlen post' <? zlen pre + (wire_len K + 1))) with false by lia.
    f_equal. unfold slice. unfold zlen at 1. rewrite Nat2Z.id, drop_app_length.
    replace (0 :: post') with ([0] ++ post') by done. rewrite app_assoc.
    replace (Z.to_nat (wire_len K + 1)) with (length (wire (lowered <$> K) ++ [0])); [by rewrite take_app_length|].
    pose proof (zlen_wire (lowered <$> K)) as Hzw. rewrite wire_len_lowered in Hzw. unfold zlen in Hzw. rewrite length_app. simpl. lia.
  - split; [|lia]. apply Forall_app. split; [done|]. apply Forall_app. split; [by apply wire_bytes, good_lowered|].
    constructor; [unfold is_byte; lia|done].
Qed.

(** The owner's name in the buffer, as it is or with the wildcard, is put into canonical form. *)
Lemma owner_to_wire labels name_labels L s name :
  Forall good_label L → join true L = Some s → wire_len L < MAXDNAME → 0 ≤ labels → name_labels = zlen L → buff_ok name →
  ∃ start name1 wild name2, 
    (if labels <? name_labels then
       n ← chop_labels (Z.to_nat (name_labels - labels)) (s ++ 0 :: drop (length s + 1) name) 0;
       name ← wr (s ++ 0 :: drop (length s + 1) name) (n - 1) 42;
       Ok (n - 1, name, Some (n + 1))
     else Ok (0, s ++ 0 :: drop (length s + 1) name, None)) = Ok (start, name1, wild) ∧
    to_wire name1 start = Ok (name2, wire_len (signed_owner labels name_labels L) + 1) ∧
    read_at name2 start (wire_len (signed_owner labels name_labels L) + 1) =
      Ok (wire (lowered <$> signed_owner labels name_labels L) ++ [0]) ∧ buff_ok name2.
Proof.
  intros HL Es Hw Hla Hn [Hnb Hnz]. set (post := drop (length s + 1) name). pose proof (text_fits L s Hw Es) as Hfit.
  pose proof (text_rest_wf L s HL Es) as Hwf.
  assert (zlen post = NAMEBUFF - zlen s - 1) as Hpost by (unfold post, zlen in *; rewrite length_drop; lia).
  assert (post ≠ []) as Hp0 by (intros E; rewrite E in Hpost; change (zlen (@nil Z)) with 0 in Hpost; lia).
  assert (Forall is_byte post) as Hpb by by apply Forall_drop.
  unfold signed_owner. destruct (Z.ltb_spec labels name_labels) as [Hlt|Hge].
  - destruct (chop_labels_spec (Z.to_nat (name_labels - labels)) L s [] post HL Es) as (a & x & rest & -> & Ec & He & Hj & Hnil);
      [unfold zlen in Hn; lia|]. cbn [app] in Ec. change (zlen (@nil Z)) with 0 in Ec. rewrite Ec. cbn [mbind res_bind].
    replace (0 + zlen a + 1 - 1) with (zlen a) by lia. rewrite <- app_assoc. cbn [app]. rewrite wr_middle. cbn [mbind res_bind].
    change (u8 42) with 42. apply Forall_app in Hwf as [Hwa _].
    destruct (buffer_to_wire ([42] :: drop (Z.to_nat (name_labels - labels)) L) (42 :: rest) a post) as (name2 & E1 & E2 & E3).
    + constructor; [split; [done|constructor; [unfold is_byte; lia|done]]|by apply Forall_drop].
    + cbn [join]. destruct (drop _ L) as [|l' L'] eqn:Ed; [rewrite (proj1 Hnil) by done; done|].
      destruct He as [->|[r ->]]; [discriminate (proj2 Hnil eq_refl)|]. cbn [tail] in Hj. rewrite Hj. done.
    + eapply Forall_impl; [exact Hwa|]. unfold is_byte. cbn. lia.
    + done.
    + done.
    + rewrite zlen_cons. rewrite zlen_app, zlen_cons in Hpost. lia.
    + eexists _, _, _, name2. split; [reflexivity|]. done.
  - destruct (buffer_to_wire L s [] post) as (name2 & E1 & E2 & E3); [done|done|done|done|done|change (zlen (@nil Z)) with 0; lia|]. eexists _, _, _, name2. split; [reflexivity|]. done.
Qed.
Lemma hash_rr_spec desc labels name_labels orig_ttl p i ctx name :
  desc_ok 2 desc = true → rr_at desc p i → 0 ≤ labels → zlen (i_owner i) = name_labels → buff_ok name →
  ∃ name' wild, hash_rr buf plen desc labels name_labels orig_ttl p ctx name =
    Ok (ctx ++ signed_rr labels name_labels orig_ttl i, name', wild) ∧ buff_ok name'.
Proof.
  intros Hd (h & rdlen & Hna & Hh & Hw & Hp & Hg & Hr & Hl & F) Hla Hn B.
  destruct (name_at_good _ _ _ _ _ _ Hbuf (proj2 Hplen) Hp Hna) as [HL Hq]. destruct (join_total (i_owner i)) as (s & Es & _).
  pose proof (text_fits _ s Hw Es) as Hfit. pose proof (text_rest_wf _ s HL Es) as Hwf. unfold hash_rr.
  rewrite (proj2 (extract_name_ok true buf plen p [] 10 1 (i_type i) s Hbuf Hplen Hp));
    [|split_and!; [done|lia|]; exists (i_owner i), h; by rewrite render_join]. cbn [mbind res_bind].
  rewrite put_name_spec; [|done|destruct B as [_ ->]; lia]. cbn [mbind res_bind].
  destruct (owner_to_wire labels name_labels (i_owner i) s name HL Es Hw Hla (eq_sym Hn) B) as (start & n1 & wild & n2 & -> & Et & Er & B2).
  cbn [mbind res_bind]. rewrite Et. cbn [mbind res_bind]. rewrite Er. cbn [mbind res_bind]. unfold read_at.
  replace ((i_type i <? 0) || (zlen buf <? i_type i + 4)) with false by lia. cbn [mbind res_bind]. rewrite Hg. cbn [mbind res_bind].
  unfold CHECK_LEN. rewrite (proj2 (Z.leb_le (i_type i + 10 + rdlen) plen)) by done. cbn [guard_ok mbind res_bind].
  destruct (hash_rdata_spec desc (ctx ++ (wire (lowered <$> signed_owner labels name_labels (i_owner i)) ++ [0]) ++
    slice buf (i_type i) (Z.to_nat 4) ++ long_bytes orig_ttl) n2 (i_type i + 10) rdlen (i_data i)) as (n3 & -> & B3); try done; [lia|].
  cbn [mbind res_bind]. exists n3, wild. split; [|done]. unfold signed_rr. change (Z.to_nat 4) with 4%nat. do 3 f_equal.
  rewrite <- !app_assoc. done.
Qed.

(** All records of a set. *)
Lemma hash_rrs_spec desc info labels name_labels orig_ttl rrs ctx name wild :
  desc_ok 2 desc = true → (∀ p, p ∈ rrs → rr_at desc p (info p) ∧ zlen (i_owner (info p)) = name_labels) → 0 ≤ labels → buff_ok name →
  ∃ name' wild', hash_rrs buf plen desc labels name_labels orig_ttl rrs ctx name wild =
    Ok (ctx ++ mjoin ((λ p, signed_rr labels name_labels orig_ttl (info p)) <$> rrs), name', wild') ∧ buff_ok name'.
Proof.
  intros Hd. revert ctx name wild. induction rrs as [|p rrs IH]; intros ctx name wild Hi Hla B; cbn [hash_rrs].
  { exists name, wild. by rewrite app_nil_r. }
  destruct (Hi p) as [Hp Hn]; [left|].
  destruct (hash_rr_spec desc labels name_labels orig_ttl p (info p) ctx name Hd Hp Hla Hn B) as (n1 & w1 & -> & B1). cbn [mbind res_bind].
  destruct (IH (ctx ++ signed_rr labels name_labels orig_ttl (info p)) n1 (match w1 with None => wild | _ => w1 end)) as (n2 & w2 & E & B2);
    [intros q Hq; apply Hi; by right|done|done|]. rewrite E. exists n2, w2. split; [|done]. do 3 f_equal. rewrite <- app_assoc. done.
Qed.
End hashed.

(** * Names *)

Lemma lower_lower c : lower (lower c) = lower c.
Proof. unfold lower. repeat case_match; bool_hyps; lia. Qed.

Lemma isequal_lowered a b : hostname_isequal a (lowered b) = hostname_isequal a b.
Proof.
  unfold hostname_isequal. f_equal. revert b. induction a as [|x a IH]; intros [|y b]; cbn [hostname_order lowered fmap list_fmap deref tail];
    rewrite ?lower_lower; try done. fold (lowered b). by rewrite (IH b).
Qed.

Lemma get_str_spec s post : wf_cstring s → get_str (s ++ 0 :: post) = Ok s.
Proof. induction 1 as [|c s Hc _ IH]; [done|]. cbn [app get_str]. rewrite (proj2 (Z.eqb_neq c 0)) by lia. by rewrite IH. Qed.

Lemma get_str_inv b s : get_str b = Ok s → ∃ post, b = s ++ 0 :: post.
Proof.
  revert s. induction b as [|c b IH]; intros s E; [done|]. cbn [get_str] in E. destruct (Z.eqb_spec c 0) as [->|].
  - injection E as <-. by exists b.
  - apply bind_inv in E as (s' & E1 & E). injection E as <-. destruct (IH _ E1) as [post ->]. by exists post.
Qed.

Lemma str_at_inv b s : str_at b 0 = Ok s → ∃ post, b = s ++ 0 :: post.
Proof. unfold str_at. cbn. rewrite drop_0. apply get_str_inv. Qed.

Lemma name_in_buffer b name b' : buff_ok b → wf_cstring name → zlen name + 1 ≤ NAMEBUFF → put_name b name = Ok b' → str_at b' 0 = Ok name.
Proof.
  intros [_ Hz] Hw Hl E. rewrite put_name_spec in E by (done || lia). injection E as <-. unfold str_at. cbn. rewrite drop_0. by apply get_str_spec.
Qed.

Lemma lowered_wf s : wf_cstring s → wf_cstring (lowered s).
Proof. intros H. apply Forall_fmap. eapply Forall_impl; [exact H|]. intros c. unfold compose, lower. cbn. case_match; bool_hyps; lia. Qed.

(** * The fields of a signature *)

Section sound.
Context (N : nettle) (mem : bool) (mix_tab : Z → Z) (keys : pool) (buf : list Z) (plen now curtime class : Z).
Context (Hbuf : Forall is_byte buf) (Hplen : 0 ≤ plen ≤ zlen buf) (Hmax : zlen buf < 2 ^ 64).

Lemma GETLONG_at p v q : GETLONG buf p = Ok (v, q) → q = p + 4.
Proof. unfold GETLONG. intros E. do 4 (apply bind_inv in E as (? & _ & E)). by injection E. Qed.
Lemma GETSHORT_at p v q : GETSHORT buf p = Ok (v, q) → q = p + 2.
Proof. unfold GETSHORT. intros E. do 2 (apply bind_inv in E as (? & _ & E)). by injection E. Qed.

Lemma read_sig_fields p g : read_sig buf p = Ok g → 0 ≤ p → g_data g = p + 6 ∧ g_rest g = p + 24 ∧ 0 ≤ g_labels g.
Proof.
  unfold read_sig. intros E Hp. apply bind_inv in E as ([ttl p1] & E1 & E). apply bind_inv in E as ([rdlen p2] & E2 & E).
  apply bind_inv in E as (algo & _ & E). apply bind_inv in E as (labels & El & E). apply bind_inv in E as ([ot p3] & E3 & E).
  apply bind_inv in E as ([ex p4] & E4 & E). apply bind_inv in E as ([inc p5] & E5 & E). apply bind_inv in E as ([tag p6] & E6 & E).
  injection E as <-. cbn. apply GETLONG_at in E1, E3, E4, E5. apply GETSHORT_at in E2, E6. apply rd_Ok in El as [_ El].
  pose proof (Forall_lookup_1 _ _ _ _ Hbuf El) as Hl. unfold is_byte in Hl. lia.
Qed.

(** * What is accepted *)

(** RFC 4034, 3.1.8.1: the data of the signature up to the signer's name, that name in canonical form, and the records. *)
Definition signed_data (g : sigrec) (signer : list (list Z)) (name_labels : Z) (info : Z → rr_info) (rrs : list Z) : list Z :=
  slice buf (g_data g) 18 ++ (wire (lowered <$> signer) ++ [0]) ++
  mjoin ((λ p, signed_rr buf (g_labels g) name_labels (g_orig_ttl g) (info p)) <$> rrs).

(** The present time is within the validity of the signature, as far as times are checked. *)
Definition in_time (time_check : bool) (g : sigrec) : Prop :=
  time_check = true → serial_compare_32 (u32 curtime) (g_inception g) ≠ SERIAL_LT ∧ serial_compare_32 (u32 curtime) (g_expiration g) ≠ SERIAL_GT.

(** A record of the cache that holds the key [kd], of the signer with the name [s]. *)
Definition cached_key (c : cache) (signer : list (list Z)) (s : cstring) (g : sigrec) (kd kl : Z) : Prop :=
  ∃ id kf, addr (get c id) = A_key kd kl (g_algo g) (g_tag g) kf ∧ uid (get c id) = class ∧ has (get c id) F_FORWARD = true ∧
    has (get c id) F_DNSKEY = true ∧ (one_special signer → hostname_isequal (cname_str (get c id)) s = true).

(** The signature [g], with the bytes from [sig] on, is good for the records, by the key [kd]. *)
Definition good_sig (time_check : bool) (name_labels : Z) (key : option given_key) (info : Z → rr_info) (rrs : list Z)
    (status : Z) (c : cache) (g : sigrec) : Prop :=
  ∃ signer s sig h hash kd kl,
    name_at buf plen (g_rest g) signer sig h ∧ render true signer = Some s ∧ in_time time_check g ∧ g_labels g ≤ name_labels ∧
    hash_find N (algo_digest_name (g_algo g)) = Some hash ∧
    verify N mem buf keys kd kl sig (u64 (g_rdlen g - (sig - g_data g)))
      (digest_of hash (signed_data g signer name_labels info rrs)) (digest_size hash) (g_algo g) = Ok true ∧
    match key with
    | Some k => kd = k_data k ∧ kl = k_len k ∧ g_algo g = k_algo k ∧ g_tag g = k_tag k ∧ status = STAT_SECURE
    | None => cached_key c signer s g kd kl ∧ status = (if g_labels g <? name_labels then STAT_SECURE_WILDCARD else STAT_SECURE)
    end.

Lemma found_matches crecp name prot c c' id : clear_flag prot F_NO_RR = prot → cache_find_by_name true mix_tab crecp name now prot c = Ok (c', Some id) →
  has (get c' id) F_FORWARD = true ∧ has (get c' id) prot = true ∧ hostname_isequal (cname_str (get c' id)) name = true.
Proof.
  intros Hp. unfold cache_find_by_name. intros E. apply bind_inv in E as ([c1 ans] & _ & E). destruct ans as [i|]; [|done].
  destruct (name_match name _ (get c1 i)) eqn:Em; [|done]. injection E as <- <-. unfold name_match in Em.
  rewrite Hp in Em. rewrite !andb_true_iff in Em. destruct Em as [[? ?] ?]. split_and!; assumption.
Qed.

Lemma find_next_same id name prot c c' r : cache_find_by_name true mix_tab (Some id) name now prot c = Ok (c', r) → c' = c.
Proof. unfold cache_find_by_name. cbn [mbind res_bind]. intros E. repeat case_match; congruence. Qed.

Lemma try_keys_sound signer s ks fuel id g sig sl digest dlen c c' :
  (one_special signer → ks = lowered s) → has (get c id) F_FORWARD = true → has (get c id) F_DNSKEY = true →
  (one_special signer → hostname_isequal (cname_str (get c id)) s = true) →
  try_keys N mem mix_tab keys buf now class fuel (Some id) ks g sig sl digest dlen c = Ok (c', true) →
  ∃ kd kl, cached_key c' signer s g kd kl ∧ verify N mem buf keys kd kl sig (u64 sl) digest dlen (g_algo g) = Ok true.
Proof.
  intros Hks. revert id. induction fuel as [|fuel IH]; intros id Hf Hd Hn E; [done|]. cbn [try_keys] in E.
  apply bind_inv in E as (ok & Eok & E). destruct ok.
  - injection E as <-. destruct (addr (get c id)) as [| | | | kd kl al tag kf| |] eqn:Ea; try done.
    destruct ((al =? g_algo g) && (tag =? g_tag g) && (uid (get c id) =? class)) eqn:Et; [|done].
    rewrite !andb_true_iff, !Z.eqb_eq in Et. destruct Et as [[-> ->] Hu]. exists kd, kl. split; [|done]. by exists id, kf.
  - apply bind_inv in E as ([c1 next] & Ef & E). pose proof (find_next_same _ _ _ _ _ _ Ef) as ->.
    destruct next as [id'|]; [|by destruct fuel]. destruct (found_matches _ _ _ _ _ _ eq_refl Ef) as (Hf' & Hd' & Hn').
    apply (IH id'); [done|done| |done]. intros H1. by rewrite <- isequal_lowered, <- Hks.
Qed.

(** A name in a buffer: its canonical form is hashed, and the text put back. *)
Lemma text_to_wire L s b sgl wl b2 :
  Forall good_label L → join true L = Some s → wire_len L < MAXDNAME → buff_ok b → str_at b 0 = Ok s → to_wire b 0 = Ok (b2, wl) → read_at b2 0 wl = Ok sgl →
  sgl = wire (lowered <$> L) ++ [0] ∧ buff_ok b2 ∧ (one_special L → ∃ post, from_wire b2 0 = Ok (lowered s ++ 0 :: post)).
Proof.
  intros HL Ej Hw [Hb Hz] Es Et Erd. pose proof (text_fits _ _ Hw Ej) as Hfit. destruct (str_at_inv _ _ Es) as [post ->].
  apply Forall_app in Hb as [_ [_ Hpb]%Forall_cons]. rewrite zlen_app, zlen_cons in Hz.
  assert (post ≠ []) as Hp0 by (intros ->; change (zlen (@nil Z)) with 0 in Hz; lia).
  destruct (buffer_to_wire L s [] post HL Ej) as (name2 & E1 & E2 & B2); [done|done|done|change (zlen (@nil Z)) with 0; lia|].
  change (zlen (@nil Z)) with 0 in *. cbn [app] in E1. rewrite Et in E1. injection E1 as -> ->. rewrite Erd in E2. injection E2 as ->.
  split_and!; [done|done|]. intros H1. rewrite <- render_join in Ej. assert (2 ≤ zlen post) as Hp2 by lia.
  destruct (to_from_wire L s [] post HL Ej Hp2 Hpb) as (b & post' & E & _ & Hfw). cbn [app] in *.
  change (zlen (@nil Z)) with 0 in *. rewrite Et in E. injection E as <-. by apply Hfw.
Qed.

Section set.
Context (desc : list Z) (info : Z → rr_info) (rrs : list Z) (name_labels : Z) (key : option given_key) (time_check : bool).
Context (Hdesc : desc_ok 2 desc = true).
Context (Hinfo : ∀ p, p ∈ rrs → rr_at buf plen desc p (info p) ∧ zlen (i_owner (info p)) = name_labels).

(** A key of the signer, when none is given. *)
Definition first_key (signer : list (list Z)) (s : cstring) (crecp : option Z) (c : cache) : Prop :=
  key = None → ∃ id, crecp = Some id ∧ has (get c id) F_FORWARD = true ∧ has (get c id) F_DNSKEY = true ∧ hostname_isequal (cname_str (get c id)) s = true.

Lemma test_sig_sound hash crecp g signer s sig h keyname wild v st wild' v' :
  name_at buf plen (g_rest g) signer sig h → 0 ≤ g_rest g → wire_len signer < MAXDNAME → render true signer = Some s →
  in_time time_check g → 0 ≤ g_labels g ≤ name_labels → hash_find N (algo_digest_name (g_algo g)) = Some hash →
  buff_ok keyname → put_name keyname s = Ok (v_keyname v) → buff_ok (v_name v) → first_key signer s crecp (v_cache v) →
  test_sig N mem mix_tab keys buf plen now class hash desc rrs name_labels key crecp g sig wild v = Ok (st, wild', v') →
  st = None ∨ st = Some STAT_BOGUS ∨
  ∃ status, st = Some status ∧ good_sig time_check name_labels key info rrs status (v_cache v') g.
Proof.
  intros Hna Hg Hw Er Ht Hla Hh Bk Ep Bn Hk E. destruct (name_at_good _ _ _ _ _ _ Hbuf (proj2 Hplen) Hg Hna) as [HL _].
  unfold test_sig in E. apply bind_inv in E as (ctx & Ec & E). apply bind_inv in E as ([k2 wl] & Et & E).
  apply bind_inv in E as (sgl & Es & E). apply bind_inv in E as (k3 & Ef & E).
  pose proof Er as Ej. rewrite render_join in Ej. pose proof (text_fits _ _ Hw Ej) as Hfit. assert (buff_ok (v_keyname v)) as Bv by eauto with keeps.
  apply name_in_buffer in Ep; [|done|by eapply text_rest_wf|lia]. destruct (text_to_wire _ _ _ _ _ _ HL Ej Hw Bv Ep Et Es) as (-> & B2 & Hlow).
  assert (ctx = slice buf (g_data g) 18) as -> by (unfold read_at in Ec; destruct (_ || _); [done|by injection Ec as <-]).
  destruct (hash_rrs_spec buf plen Hbuf Hplen Hmax desc info (g_labels g) name_labels (g_orig_ttl g) rrs
    (slice buf (g_data g) 18 ++ wire (lowered <$> signer) ++ [0]) (v_name v) wild Hdesc Hinfo ltac:(lia) Bn) as (n1 & w1 & Eh & B4).
  rewrite Eh in E. cbn [catch mbind res_bind] in E. rewrite <- app_assoc in E. apply bind_inv in E as (p & _ & E).
  apply bind_inv in E as (r & _ & E). destruct r as [[[? ?] t]|]; [|injection E as <- <- <-; auto].
  apply bind_inv in E as (n2 & En & E). destruct key as [k|] eqn:Ek.
  - apply bind_inv in E as (ok & Eok & E). injection E as <- <- <-. destruct ok; [right; right|by left].
    destruct ((k_algo k =? g_algo g) && (k_tag k =? g_tag g)) eqn:Eq; [|done]. rewrite andb_true_iff, !Z.eqb_eq in Eq. destruct Eq as [Ea Etg].
    exists STAT_SECURE. split; [done|]. exists signer, s, sig, h, hash, (k_data k), (k_len k). rewrite ?Ek. split_and!; try done; lia.
  - apply bind_inv in E as (ks & Eks & E). apply bind_inv in E as ([c' ok] & Eok & E). injection E as <- <- <-.
    destruct ok; [right; right|by left]. destruct (Hk Ek) as (id & -> & Hf & Hd & Hn).
    assert (one_special signer → ks = lowered s) as Hks.
    { intros H1. destruct (Hlow H1) as [post Efw]. rewrite Ef in Efw. injection Efw as ->. unfold str_at in Eks. cbn in Eks.
      rewrite drop_0, get_str_spec in Eks; [by injection Eks|]. apply lowered_wf, (text_rest_wf signer); [done|]. by rewrite <- render_join. }
    destruct (try_keys_sound signer s ks _ id g _ _ _ _ _ _ Hks Hf Hd (λ _, Hn) Eok) as (kd & kl & Hc & Hv).
    eexists. split; [reflexivity|]. exists signer, s, sig, h, hash, kd, kl. rewrite ?Ek. split_and!; try done; lia.
Qed.

Lemma check_times_sound g ff x ff' : check_times curtime time_check g ff = (Some x, ff') → in_time time_check g.
Proof.
  unfold check_times, in_time. intros E ->. cbn [negb] in E. repeat (case_match; [done|]). rewrite <- !Z.eqb_neq. done.
Qed.

Lemma not_secure_flags status failflags : status = STAT_SECURE ∨ status = STAT_SECURE_WILDCARD →
  Z.lor (Z.lor STAT_BOGUS failflags) DNSSEC_FAIL_NOKEY ≠ status.
Proof.
  intros Hs E. apply (f_equal (λ x, Z.testbit x 8)) in E. rewrite !Z.lor_spec in E.
  change (Z.testbit DNSSEC_FAIL_NOKEY 8) with true in E. rewrite orb_true_r in E. by destruct Hs as [-> | ->].
Qed.

Lemma try_sigs_sound sigs ttl_wanted failflags wild ttl v r v' :
  (∀ p, p ∈ sigs → 0 ≤ p) → buffers_ok v →
  try_sigs N mem mix_tab keys buf plen now curtime class desc rrs name_labels key time_check ttl_wanted sigs failflags wild ttl v = Ok (r, v') →
  r_status r = STAT_SECURE ∨ r_status r = STAT_SECURE_WILDCARD →
  ∃ p g, p ∈ sigs ∧ read_sig buf p = Ok g ∧ good_sig time_check name_labels key info rrs (r_status r) (v_cache v') g.
Proof.
  revert failflags wild ttl v. induction sigs as [|p sigs IH]; intros failflags wild ttl v Hp B E Hs; cbn [try_sigs] in E.
  { injection E as <- <-. by destruct (not_secure_flags _ failflags Hs). }
  assert (∀ p, p ∈ sigs → 0 ≤ p) as Hp' by (intros q Hq; apply Hp; by right).
  assert (∀ ff w tt v1, buffers_ok v1 →
    try_sigs N mem mix_tab keys buf plen now curtime class desc rrs name_labels key time_check ttl_wanted sigs ff w tt v1 = Ok (r, v') →
    ∃ p' g, p' ∈ p :: sigs ∧ read_sig buf p' = Ok g ∧ good_sig time_check name_labels key info rrs (r_status r) (v_cache v') g) as Hmore.
  { intros ff w tt v1 B1 E1. destruct (IH ff w tt v1 Hp' B1 E1 Hs) as (p' & g & ? & ?). exists p', g. split; [by right|done]. }
  apply bind_inv in E as (g & Eg & E). destruct (read_sig_fields p g Eg) as (Hgd & Hgr & Hgl); [apply Hp; left|].
  assert (0 ≤ p) as Hp0 by (apply Hp; left). assert (0 ≤ g_rest g) as Hg0 by lia.
  apply bind_inv in E as (x & Ex & E). destruct x as [[[ret sig] s]|]; [|injection E as <- <-; cbn in Hs; by destruct Hs].
  apply catch_Some in Ex. apply extract_name_ok in Ex as (-> & _ & signer & h & Hna & Hh & Hw & Er); [|done|done|done].
  apply bind_inv in E as (k1 & Ek & E). destruct B as (Bn & Bk & Bw). assert (buffers_ok (set_vkeyname k1 v)) as B1 by (split_and!; eauto with keeps).
  destruct (check_times curtime time_check g (clear_flag failflags DNSSEC_FAIL_NOSIG)) as [go ff'] eqn:Ect.
  destruct go as [go|]; [|exact (Hmore _ _ _ _ B1 E)].
  apply check_times_sound in Ect.
  destruct (hash_find N (algo_digest_name (g_algo g))) as [hash|] eqn:Eh; [|exact (Hmore _ _ _ _ B1 E)].
  destruct ((name_labels <? g_labels g) || negb mem) eqn:El; [exact (Hmore _ _ _ _ B1 E)|].
  apply bind_inv in E as ([c crecp] & Ec & E).
  destruct (bool_decide (key = None) && bool_decide (crecp = None)) eqn:En; [injection E as <- <-; cbn in Hs; by destruct Hs|].
  apply bind_inv in E as ([[st w] v1] & Et & E). pose proof (test_sig_keeps _ _ _ _ _ _ _ _ _ _ _ _ _ _ _ _ _ _ _ _ _ Et B1) as B2.
  eapply test_sig_sound in Et as Hst; [|exact Hna|done|done|exact Er|done|bool_hyps; lia|exact Eh|exact Bk|exact Ek|exact Bn|].
  - destruct st as [st|]; [|exact (Hmore _ _ _ _ B2 E)]. injection E as <- <-. cbn [r_status] in *.
    destruct Hst as [?|[[= ->]|(status & [= <-] & Hgood)]]; [done|by destruct Hs|]. exists p, g. split; [left|done].
  - intros Hk. rewrite Hk in Ec, En. destruct crecp as [id|]; [|done]. exists id. split; [done|]. exact (found_matches _ _ F_DNSKEY _ _ _ eq_refl Ec).
Qed.
End set.
End sound.

Lemma validate_rrset_accepts N mem mix_tab keys buf plen now curtime class type desc info sigs rrset key ttl_wanted v name r rrs v' :
  Forall is_byte buf → 0 ≤ plen ≤ zlen buf → zlen buf < 2 ^ 64 → rrfilter_desc type = Ok desc →
  (∀ p, p ∈ rrset → rr_at buf plen desc p (info p) ∧ zlen (i_owner (info p)) = count_labels name) → (∀ p, p ∈ sigs → 0 ≤ p) →
  str_at (v_name v) 0 = Ok name → buff_ok (v_name v) → buff_ok (v_keyname v) → buff_ok (v_work v) →
  validate_rrset N mem mix_tab keys buf plen now curtime class type sigs rrset key ttl_wanted v = Ok (r, rrs, v') →
  r_status r = STAT_SECURE ∨ r_status r = STAT_SECURE_WILDCARD →
  StronglySorted (λ p q, bytes_order (i_data (info p)) (i_data (info q)) = Lt) rrs ∧ rrs ⊆+ rrset ∧
  (∀ k, k ∈ (i_data ∘ info) <$> rrs ↔ k ∈ (i_data ∘ info) <$> rrset) ∧
  ∃ p g, p ∈ sigs ∧ read_sig buf p = Ok g ∧
    good_sig N mem keys buf plen curtime class (is_check_date curtime (v_clock v)).1 (count_labels name) key info rrs (r_status r) (v_cache v') g.
Proof.
  intros Hb Hp Hm Hd Hi Hsg Hn Bn Bk Bw E Hs. unfold validate_rrset in E. rewrite Hd in E. cbn [mbind res_bind] in E.
  destruct (is_check_date curtime (v_clock v)) as [time_check k]. apply bind_inv in E as (name' & En & E).
  cbn [set_vclock v_name v_work v_keyname] in *. rewrite Hn in En. injection En as <-.
  destruct (sort_rrset_spec buf plen type desc (i_data ∘ info) rrset (v_work v) (v_keyname v)) as (l & w1 & k1 & Es & Hsort & Hsub & Hks & B1 & B2);
    try done. { intros p Hpr. apply rr_record; [done|done|]. by apply Hi. }
  rewrite Es in E. cbn [mbind res_bind] in E. apply bind_inv in E as ([r1 v1] & E1 & E). injection E as <- <- <-.
  split_and!; [done|done|done|]. destruct (type_desc_ok type) as (ds & Ed & Hds). rewrite Hd in Ed. injection Ed as <-.
  eapply (try_sigs_sound N mem mix_tab keys buf plen now curtime class Hb Hp Hm desc info l (count_labels name) key time_check Hds) in E1;
    [exact E1| |done| |done].
  - intros p Hpl. apply Hi. by eapply elem_of_submseteq.
  - by split.
Qed.

(** C4. A signature is needed for a secure result: when [validate_rrset] finds an RRset secure, one of the signatures it was given is in
    time, for as many labels as the owner has or fewer, by a supported algorithm, and the library accepts its bytes with the hash of exactly
    the data that RFC 4034 has signed: the fields of the signature, the signer's name in canonical form, and each of the records,
    in canonical form and order, with the original TTL and, for fewer labels, the name of the wildcard. The key is the one given, with the algorithm
    and tag of the signature, or a DNSKEY record of the cache with that algorithm, tag and the class, which is the signer's when
    one byte of the signer's name is escaped at most. The records that are hashed are all those of the set, each data once. *)
Theorem validate_rrset_sound N mem mix_tab keys buf plen now curtime class type desc info sigs rrset key ttl_wanted v name r rrs v' :
  Forall is_byte buf → 0 ≤ plen ≤ zlen buf → zlen buf < 2 ^ 64 → rrfilter_desc type = Ok desc →
  (∀ p, p ∈ rrset → rr_at buf plen desc p (info p) ∧ zlen (i_owner (info p)) = count_labels name) → (∀ p, p ∈ sigs → 0 ≤ p) →
  str_at (v_name v) 0 = Ok name → buff_ok (v_name v) → buff_ok (v_keyname v) → buff_ok (v_work v) →
  validate_rrset N mem mix_tab keys buf plen now curtime class type sigs rrset key ttl_wanted v = Ok (r, rrs, v') →
  r_status r = STAT_SECURE ∨ r_status r = STAT_SECURE_WILDCARD →
  StronglySorted (λ p q, bytes_order (i_data (info p)) (i_data (info q)) = Lt) rrs ∧ rrs ⊆+ rrset ∧
  (∀ k, k ∈ (i_data ∘ info) <$> rrs ↔ k ∈ (i_data ∘ info) <$> rrset) ∧
  ∃ p g, p ∈ sigs ∧ read_sig buf p = Ok g ∧
    good_sig N mem keys buf plen curtime class (is_check_date curtime (v_clock v)).1 (count_labels name) key info rrs (r_status r) (v_cache v') g.
Proof. apply validate_rrset_accepts. Qed.

(** A record of type A for the name a, and a signature by the root with algorithm 15. *)
Definition signed_packet : list Z := repeat 0 12 ++ [1; 97; 0; 0; 1; 0; 1; 0; 0; 0; 9; 0; 4; 10; 0; 0; 1] ++
  [0; 0; 0; 9; 0; 83; 0; 1; 15; 1; 0; 0; 0; 9; 0; 0; 0; 200; 0; 0; 0; 50; 0; 77; 0] ++ repeat 7 64.
Definition signed_info (p : Z) : rr_info := RRInfo [[97]] 15 [10; 0; 0; 1].

(** A library that accepts one signature with one key, for the data that is signed. *)
Definition toy_nettle : nettle := Nettle (λ _, None) (λ _ _ _ _ _ _, false) (λ _ _ _, false) (λ _ _ _ _ _ _, false) (λ _ _ _ _ _, false)
  (λ k d s, bool_decide (k = repeat 5 32) && bool_decide (s = repeat 7 64) &&
    bool_decide (d = [0; 1; 15; 1; 0; 0; 0; 9; 0; 0; 0; 200; 0; 0; 0; 50; 0; 77] ++ [0] ++
                     [1; 97; 0] ++ [0; 1; 0; 1] ++ [0; 0; 0; 9] ++ [0; 4] ++ [10; 0; 0; 1])) (λ _ _ _, false).
Definition toy_pool : pool := Pool {[1 := repeat 5 40]} {[1 := 0]} 0 1 1 1.
Definition toy_cache : cache :=
  Cache {[1 := Crec (Z.lor (Z.lor F_FORWARD F_DNSKEY) F_IMMORTAL) 0 1 (A_key 1 32 15 77 256) [] None]} [1] [[1]] [] false 0 0 0 [] 0 0.
Definition toy_state : vstate :=
  VState toy_cache (Clock false 0 false false 0) ([97] ++ repeat 0 2049) (repeat 0 2050) (repeat 0 2050).

Lemma signed_packet_record ds p : p ∈ [12] → rr_at signed_packet 118 (END_DESC :: ds) p (signed_info p) ∧ zlen (i_owner (signed_info p)) = 1.
Proof.
  intros ->%list_elem_of_singleton. split; [|done]. exists 0%nat, 4. cbn [signed_info i_owner i_type i_data].
  split_and!; [|lia|done|lia|reflexivity|lia|lia|].
  - change [97] with (slice signed_packet (12 + 1) (Z.to_nat 1)). apply na_label; [lia|reflexivity|lia|lia|]. apply (na_end _ _ 14); [lia|reflexivity].
  - change [10; 0; 0; 1] with (slice signed_packet (15 + 10) (Z.to_nat (15 + 10 + 4 - (15 + 10)))). constructor. lia.
Qed.

Definition a_desc : list Z := match rrfilter_desc 1 with Ok ds => ds | _ => [] end.

Lemma validate_rrset_sound_witness :
  ∃ r rrs v', validate_rrset toy_nettle true (λ _, 0) toy_pool signed_packet 118 100 100 1 1 [29] [12] None true toy_state = Ok (r, rrs, v') ∧
    r_status r = STAT_SECURE ∧
    StronglySorted (λ p q, bytes_order (i_data (signed_info p)) (i_data (signed_info q)) = Lt) rrs ∧ rrs ⊆+ [12] ∧
    (∀ k, k ∈ (i_data ∘ signed_info) <$> rrs ↔ k ∈ (i_data ∘ signed_info) <$> [12]) ∧
    ∃ p g, p ∈ [29] ∧ read_sig signed_packet p = Ok g ∧
      good_sig toy_nettle true toy_pool signed_packet 118 100 1 true 1 None signed_info rrs (r_status r) (v_cache v') g.
Proof.
  assert (match validate_rrset toy_nettle true (λ _, 0) toy_pool signed_packet 118 100 100 1 1 [29] [12] None true toy_state with
          | Ok (r, _, _) => r_status r =? STAT_SECURE | _ => false end = true) as H by (vm_compute; reflexivity).
  destruct (validate_rrset _ _ _ _ _ _ _ _ _ _ _ _ _ _ _) as [[[r rrs] v']| | |] eqn:E; try done.
  apply Z.eqb_eq in H. exists r, rrs, v'. split; [done|]. split; [done|].
  assert (∀ l, bool_decide (zlen l = 2050) && forallb (λ b, (0 <=? b) && (b <? 256)) l = true → buff_ok l) as Hbuf.
  { intros l [Hz%bool_decide_eq_true Hf]%andb_true_iff. split; [by apply bytes_forallb|done]. }
  apply (validate_rrset_sound toy_nettle true (λ _, 0) toy_pool signed_packet 118 100 100 1 1 a_desc signed_info [29] [12] None true toy_state [97] r rrs v').
  - apply bytes_forallb. vm_compute. reflexivity.
  - change (zlen signed_packet) with 118. lia.
  - change (zlen signed_packet) with 118. lia.
  - reflexivity.
  - exact (signed_packet_record (drop 1 a_desc)).
  - intros p ->%list_elem_of_singleton. lia.
  - reflexivity.
  - apply Hbuf. vm_compute. reflexivity.
  - apply Hbuf. vm_compute. reflexivity.
  - apply Hbuf. vm_compute. reflexivity.
  - exact E.
  - by left.
Defined.
