(* ===== verification/DnssecNsec.v ===== *)
(** Proofs that a name or a type does not exist (src/src/dnssec.c): by NSEC records, whose owners and next names are
    in order, and by NSEC3 records, which have hashes of names.

    The workspaces (workspacename and keyname) hold a name that was just extracted, and are strings here: what is left in them
    is written over before it is read again. The growth of the arrays in a call that returns 0 on the way is not kept; it only saves a
    later call the same growth. The name that is tested is in its buffer, as the
    NSEC3 proof changes it in place and the name of the wildcard points into it. [nons] is the value behind the pointer of that name,
    [None] for a null pointer. The value is not read after the result 0, which is [Bad] in the routines that change nothing else. *)
From S2P Require Import Prelude Hostname NetAddr Wire WireSpec RRFilter WireExt Blockdata Cache Crypto.
From S2P Require Import DnssecName DnssecOrder DnssecSort DnssecValidate.

Section nsec.
Context (buf : list Z) (plen : Z).

(** * Maps of types *)

(** The loop over the windows of a map of [rdlen] bytes at [p]; NSEC3 does not check the length on the way. [Bad] when the type is in the map. *)
Fixpoint type_map (check : bool) (fuel : nat) (type p rdlen : Z) : res unit :=
  match fuel with
  | O => NoFuel
  | S fuel =>
      if rdlen <? 2 then Ok tt
      else
        _ ← guard_ok (negb check || CHECK_LEN p plen rdlen);
        window ← rd buf p;
        len ← rd buf (p + 1);
        if window =? Z.shiftr type 8 then
          let offset := Z.shiftr (Z.land type 255) 3 in
          let mask := Z.shiftr 128 (Z.land type 7) in
          if offset <? len then b ← rd buf (p + (offset + 2)); guard_ok (negb (flag b mask)) else Ok tt
        else type_map check fuel type (p + len) (rdlen - len)
  end.

Definition clear_nons (nons : option bool) : option bool := (λ _, false) <$> nons.

(** What the first window says of types NS, CNAME and SOA: [nons], and whether the answer is refused. *)
Definition first_window (type name_labels p rdlen : Z) (nons : option bool) : res (option bool * bool) :=
  w ← (if 2 <=? rdlen then rd buf p else Ok 1);
  if (2 <=? rdlen) && (w =? 0) then
    b ← rd buf (p + 2);
    let nons := if flag b (Z.shiftr 128 T_NS) then clear_nons nons else nons in
    Ok (nons, flag b (Z.shiftr 128 T_CNAME) || (negb (name_labels =? 0) && (type =? T_DS) && flag b (Z.shiftr 128 T_SOA)))
  else Ok (nons, false).

(** Every turn that ends passes a byte at least. *)
Definition map_fuel (rdlen : Z) : nat := S (Z.to_nat rdlen).

(** * NSEC *)

(** The owner of a record, or the wildcard it was expanded from. *)
Definition original_owner (owner : cstring) (sig_labels name_labels : Z) : res cstring :=
  if sig_labels <? name_labels then
    n ← chop_labels (Z.to_nat (name_labels - sig_labels)) (owner ++ [0]) 0;
    if n =? 0 then Oob else Ok (42 :: drop (Z.to_nat n) owner)
  else Ok owner.

(** The records [nsecs], each with the place of the labels field of its signature. *)
Fixpoint nsec_loop (nsecs : list (Z * Z)) (name : cstring) (type : Z) (nons : option bool) : res (option bool) :=
  match nsecs with
  | [] => Bad
  | (p, label) :: nsecs =>
      '(_, p, owner) ← extract_name true buf plen p [] true 10;
      '(rdlen, p) ← GETSHORT buf (p + 8);
      let psave := p in
      '(_, p, next) ← extract_name true buf plen p [] true 10;
      sig_labels ← rd buf label;
      let name_labels := count_labels owner in
      owner ← original_owner owner sig_labels name_labels;
      rc ← hostname_cmp owner name;
      if rc =? 0 then
        if (type =? T_NSEC) || (type =? T_RRSIG) then Ok nons
        else
          let rdlen := rdlen - (p - psave) in
          '(nons, refused) ← first_window type name_labels p rdlen nons;
          _ ← guard_ok (negb refused);
          _ ← type_map true (map_fuel rdlen) type p rdlen;
          Ok nons
      else
        a ← hostname_cmp next name;
        b ← hostname_cmp owner next;
        if (if rc =? -1 then (0 <=? a) || (0 <=? b) else (0 <=? b) && (0 <=? a)) then Ok nons
        else nsec_loop nsecs name type nons
  end.

Definition prove_non_existence_nsec (nsecs : list (Z * Z)) (name : cstring) (type : Z) (nons : option bool) : res (option bool) :=
  nsec_loop nsecs name type ((λ _, true) <$> nons).

(** * NSEC3 *)

Context (N : nettle) (mem : bool).

Fixpoint rehash (n : nat) (h : nettle_hash) (salt digest : list Z) : list Z :=
  match n with O => digest | S n => rehash n h salt (digest_of h (digest ++ salt)) end.

(** The hash of the name at [start] in its buffer, and the buffer; no hash is the result 0. *)
Definition nsec3_hash (h : nettle_hash) (salt : list Z) (iterations : Z) (name : list Z) (start : Z) : res (option (list Z) * list Z) :=
  if negb mem then Ok (None, name)
  else
    '(name, wire_len) ← to_wire name start;
    w ← read_at name start wire_len;
    let digest := rehash (Z.to_nat iterations) h salt (digest_of h (w ++ salt)) in
    name ← from_wire name start;
    Ok (if digest_size h =? 0 then None else Some digest, name).

(** The search for a record that matches or covers the digest. *)
Fixpoint check_nsec3_coverage (digest : list Z) (type : Z) (nsecs : list Z) (nons : option bool) (name_labels : Z) : res (bool * option bool) :=
  match nsecs with
  | [] => Ok (false, nons)
  | p :: nsecs =>
      r ← catch ('(_, p, owner) ← extract_name true buf plen p [] true 0; h ← base32_decode owner; Ok (p, h));
      match r with
      | None => Ok (false, nons)
      | Some (p, hash) =>
          '(rdlen, p) ← GETSHORT buf (p + 8);
          let psave := p in
          flags ← rd buf (p + 1);
          salt_len ← rd buf (p + 4);
          let p := p + 5 + salt_len in
          hash_len ← rd buf p;
          let p := p + 1 in
          if negb (CHECK_LEN p plen hash_len) then Ok (false, nons)
          else if (zlen digest =? zlen hash) && (hash_len =? zlen hash) then
            next ← read_at buf p hash_len;
            match bytes_order hash digest with
            | Eq =>
                let p := p + hash_len in
                let rdlen := rdlen - (p - psave) in
                if negb (CHECK_LEN p plen rdlen) then Ok (false, nons)
                else
                  '(nons, refused) ← first_window type name_labels p rdlen nons;
                  if refused : bool then Ok (false, nons)
                  else
                    r ← catch (type_map false (map_fuel rdlen) type p rdlen);
                    Ok (match r with None => false | Some _ => true end, nons)
            | rc =>
                let a := match bytes_order next digest with Lt => false | _ => true end in
                let b := match bytes_order hash next with Lt => false | _ => true end in
                if (match rc with Lt => a || b | _ => b && a end)
                then Ok (true, if flag flags 1 then clear_nons nons else nons)
                else check_nsec3_coverage digest type nsecs nons name_labels
            end
          else check_nsec3_coverage digest type nsecs nons name_labels
      end
  end.

(** The first record with an algorithm that is known: the algorithm, its hash and the place behind it. *)
Fixpoint first_nsec3 (nsecs : list Z) : res (Z * nettle_hash * Z) :=
  match nsecs with
  | [] => Bad
  | p :: nsecs =>
      p ← skip_name buf plen p 15;
      algo ← rd buf (p + 10);
      match hash_find N (nsec3_digest_name algo) with
      | Some h => Ok (algo, h, p + 11)
      | None => first_nsec3 nsecs
      end
  end.

Definition same_nsec3 (algo iterations salt_len : Z) (salt : list Z) (p : Z) : res bool :=
  p ← skip_name buf plen p 15;
  let p := p + 10 in
  a ← rd buf p;
  if negb (a =? algo) then Ok false
  else
    flags ← rd buf (p + 1);
    if negb (flags =? 0) && negb (flags =? 1) then Ok false
    else
      '(this_iter, p) ← GETSHORT buf (p + 2);
      if negb (this_iter =? iterations) then Ok false
      else
        l ← rd buf p;
        if negb (salt_len =? l) then Ok false
        else
          let p := p + 1 in
          _ ← guard_ok (CHECK_LEN p plen salt_len);
          s ← read_at buf p salt_len;
          Ok (bool_decide (s = salt)).

(** The entries that are not set to NULL. *)
Fixpoint prune_nsec3 (algo iterations salt_len : Z) (salt : list Z) (nsecs : list Z) : res (list Z) :=
  match nsecs with
  | [] => Ok []
  | p :: nsecs =>
      ok ← same_nsec3 algo iterations salt_len salt p;
      rest ← prune_nsec3 algo iterations salt_len salt nsecs;
      Ok (if ok : bool then p :: rest else rest)
  end.

(** Is the digest the owner of one of the records? *)
Fixpoint has_nsec3 (digest : list Z) (nsecs : list Z) : res bool :=
  match nsecs with
  | [] => Ok false
  | p :: nsecs =>
      '(_, _, owner) ← extract_name true buf plen p [] true 0;
      hash ← base32_decode owner;
      if (zlen digest =? zlen hash) && bool_decide (digest = hash) then Ok true else has_nsec3 digest nsecs
  end.

(** The loop for the closest encloser, from the place [ce] in the name on; the result is the next closest name, [None] for the
    result 0, and the buffer of the name. *)
Fixpoint closest_loop (fuel : nat) (h : nettle_hash) (salt : list Z) (iterations : Z) (nsecs : list Z) (wildname : option Z)
    (name : list Z) (ce : Z) (next_closest : option Z) : res (option Z * list Z) :=
  match fuel with
  | O => NoFuel
  | S fuel =>
      c ← rd name ce;
      let ce := if c =? dot then ce + 1 else ce in
      here ← (match wildname with
              | None => Ok false
              | Some w => a ← str_at name ce; b ← str_at name w; Ok (hostname_isequal a b)
              end);
      if here : bool then Ok (next_closest, name)
      else
        '(digest, name) ← nsec3_hash h salt iterations name ce;
        found ← (match digest with None => Ok None | Some d => catch (has_nsec3 d nsecs) end);
        match found with
        | None => Ok (None, name)
        | Some true => Ok (next_closest, name)
        | Some false =>
            s ← to_dot (S (length name)) name ce;
            c ← rd name s;
            if c =? dot then closest_loop fuel h salt iterations nsecs wildname name s (Some ce) else Ok (None, name)
        end
  end.

(** One name after the other: is the name at [start] covered? *)
Definition covered_nsec3 (h : nettle_hash) (salt : list Z) (iterations type : Z) (nsecs : list Z) (name : list Z) (start : Z) : res (bool * list Z) :=
  '(digest, name) ← nsec3_hash h salt iterations name start;
  match digest with
  | None => Ok (false, name)
  | Some d => '(ok, _) ← check_nsec3_coverage d type nsecs None 1; Ok (ok, name)
  end.

(** The algorithm, iterations and salt of the first record that can be used, and the records that have the same. *)
Definition usable_nsec3 (nsecs : list Z) : res (nettle_hash * list Z * Z * list Z) :=
  '(algo, h, p) ← first_nsec3 nsecs;
  '(iterations, p) ← GETSHORT buf (p + 1);
  _ ← guard_ok (negb (2500 <? iterations));
  salt_len ← rd buf p;
  let p := p + 1 in
  _ ← guard_ok (CHECK_LEN p plen salt_len);
  salt ← read_at buf p salt_len;
  nsecs ← prune_nsec3 algo iterations salt_len salt nsecs;
  Ok (h, salt, iterations, nsecs).

(** No [nons] in the result is the result 0. *)
Definition prove_non_existence_nsec3 (nsecs : list Z) (name : list Z) (type : Z) (wildname : option Z) (nons : option bool)
    : res (option (option bool) * list Z) :=
  r ← catch (usable_nsec3 nsecs);
  match r with
  | None => Ok (None, name)
  | Some (h, salt, iterations, nsecs) =>
      '(digest, name) ← nsec3_hash h salt iterations name 0;
      match digest with
      | None => Ok (None, name)
      | Some d =>
          s ← str_at name 0;
          '(ok, nons) ← check_nsec3_coverage d type nsecs ((λ _, true) <$> nons) (count_labels s);
          if ok : bool then Ok (Some nons, name)
          else
            '(next, name) ← closest_loop (S (length name)) h salt iterations nsecs wildname name 0 None;
            match next with
            | None => Ok (None, name)
            | Some next_closest =>
                '(ok, name) ← covered_nsec3 h salt iterations type nsecs name next_closest;
                if negb ok then Ok (None, name)
                else
                  match wildname with
                  | Some _ => Ok (Some nons, name)
                  | None =>
                      w ← to_dot (S (length name)) name next_closest;
                      c ← rd name w;
                      if negb (c =? dot) || (w =? next_closest) then Ok (None, name)
                      else
                        name ← wr name (w - 1) 42;
                        '(ok, name) ← covered_nsec3 h salt iterations type nsecs name (w - 1);
                        Ok (if ok : bool then Some nons else None, name)
                  end
            end
      end
  end.

(** * The records of a reply *)

(** What has been found: the static arrays nsecset and rrsig_labels, the number of entries in use, their type (0 for none) and [*nsec_ttl]. *)
Record nfound := NFound { n_set : list Z; n_labels : list Z; n_count : Z; n_type : Z; n_ttl : option Z }.

Context (alloc : Z → bool).

(** The place of the labels field in the signatures of an NSEC record, from the record at [p] on, [n] of them. *)
Fixpoint find_labels (n : nat) (p : Z) (owner : cstring) (qclass : Z) (found : option Z) : res (option Z) :=
  match n with
  | O => Ok found
  | S n =>
      '(r, p, _) ← extract_name true buf plen p owner false 10;
      '(type1, p) ← GETSHORT buf p;
      '(class1, p) ← GETSHORT buf p;
      '(rdlen1, p) ← GETSHORT buf (p + 4);
      _ ← guard_ok (CHECK_LEN p plen rdlen1);
      found ← (if (r =? 1) && (class1 =? qclass) && (type1 =? T_RRSIG) then
                 _ ← guard_ok (negb (rdlen1 <? 18));
                 '(type_covered, p) ← GETSHORT buf p;
                 if type_covered =? T_NSEC then
                   match found with
                   | None => Ok (Some (p + 1))
                   | Some f => a ← rd buf f; b ← rd buf (p + 1); _ ← guard_ok (a =? b); Ok found
                   end
                 else Ok found
               else Ok found);
      p ← ADD_RDLEN p plen rdlen1;
      find_labels n p owner qclass found
  end.

(** An NSEC or NSEC3 record at [pstart]. *)
Definition add_nsec (nscount auth_start pstart type qclass : Z) (owner : cstring) (f : nfound) : res nfound :=
  _ ← guard_ok ((n_type f =? 0) || (n_type f =? type));
  set ← add_entry alloc (n_set f) (n_count f) pstart;
  labels ← (if type =? T_NSEC then
              match expand_workspace alloc (n_labels f) (n_count f) with
              | None => Bad
              | Some labels =>
                  l ← find_labels (Z.to_nat nscount) auth_start owner qclass None;
                  match l with None => Bad | Some l => set_rr labels (n_count f) l end
              end
            else Ok (n_labels f));
  Ok (NFound set labels (n_count f + 1) type (n_ttl f)).

(** The authority section from the record [i] at [p] on. [rr_status] has the TTLs that signatures allow, [ttl_wanted] says whether
    nsec_ttl is given. *)
Fixpoint find_nsecs (rr_status : list Z) (ttl_wanted : bool) (ancount nscount auth_start qclass : Z) (n : nat) (i p : Z) (f : nfound) : res nfound :=
  match n with
  | O => Ok f
  | S n =>
      let pstart := p in
      '(_, p, owner) ← extract_name true buf plen p [] true 10;
      '(type, p) ← GETSHORT buf p;
      '(class, p) ← GETSHORT buf p;
      '(ttl, p) ← GETLONG buf p;
      '(rdlen, p) ← GETSHORT buf p;
      f ← (if (class =? qclass) && ((type =? T_NSEC) || (type =? T_NSEC3)) then
             nttl ← (if ttl_wanted then s ← rd rr_status (ancount + i); Ok (Some (s32 (if s <? ttl then s else ttl))) else Ok (n_ttl f));
             add_nsec nscount auth_start pstart type qclass owner (NFound (n_set f) (n_labels f) (n_count f) (n_type f) nttl)
           else Ok f);
      p ← ADD_RDLEN p plen rdlen;
      find_nsecs rr_status ttl_wanted ancount nscount auth_start qclass n (i + 1) p f
  end.

(** The result: [*nons], or nothing for the result 0, the name buffer, and what was found when the section was read. *)
Definition prove_non_existence (rr_status : list Z) (name : list Z) (qtype qclass : Z) (wildname : option Z) (nons : option bool) (ttl_wanted : bool)
    (nsecset rrsig_labels : list Z) : res (option (option bool) * list Z * option nfound) :=
  r ← catch (p ← skip_questions buf plen;
             an ← ancount buf;
             auth_start ← skip_section buf plen (Z.to_nat an) p;
             ns ← nscount buf;
             find_nsecs rr_status ttl_wanted an ns auth_start qclass (Z.to_nat ns) 0 auth_start (NFound nsecset rrsig_labels 0 0 None));
  match r with
  | None => Ok (None, name, None)
  | Some f =>
      let nsecs := take (Z.to_nat (n_count f)) (n_set f) in
      if n_type f =? T_NSEC then
        s ← str_at name 0;
        r ← catch (prove_non_existence_nsec (zip nsecs (take (Z.to_nat (n_count f)) (n_labels f))) s qtype nons);
        Ok (r, name, Some f)
      else if n_type f =? T_NSEC3 then
        '(r, name) ← prove_non_existence_nsec3 nsecs name qtype wildname nons;
        Ok (r, name, Some f)
      else Ok (None, name, Some f)
  end.
End nsec.
