(* ===== verification/DnssecReply.v ===== *)
(** The validation of a reply (src/src/dnssec.c): whether a name is in a signed zone ([zone_status]), and, in [dnssec_validate_reply], every
    set of records in the answer and authority sections and the proof that what is not answered does not exist. *)
From S2P Require Import Prelude Hostname Wire WireSpec RRFilter WireExt Cache Records Blockdata Crypto.
From S2P Require Import DnssecName DnssecSort DnssecValidate DnssecNsec.

Definition F_DNSSECOK : Z := 32768.

(** The place of the first dot. *)
Fixpoint dot_at (s : cstring) : option nat :=
  match s with [] => None | c :: s => if c =? dot then Some O else S <$> dot_at s end.

Section zone.
Context (mix_tab : Z → Z) (now class : Z).

(** From the name towards the root, the first that has DS records in the cache: its place in the name, its end for none. *)
Fixpoint find_anchor (fuel : nat) (name : cstring) (p : nat) (c : cache) : res (cache * Z) :=
  match fuel with
  | O => NoFuel
  | S fuel =>
      let p := if deref (drop p name) =? dot then S p else p in
      '(c, r) ← cache_find_by_name true mix_tab None (drop p name) now F_DS c;
      match r with
      | Some _ => Ok (c, Z.of_nat p)
      | None =>
          match dot_at (drop p name) with
          | Some k => find_anchor fuel name (p + k) c
          | None => Ok (c, zlen name)
          end
      end
  end.

(** A DS record for which everything is supported, from the record [id] on. *)
Fixpoint ds_supported (fuel : nat) (id : Z) (keyname : cstring) (c : cache) : res (cache * bool) :=
  match fuel with
  | O => NoFuel
  | S fuel =>
      let r := get c id in
      if (uid r =? class) &&
         match addr r with
         | A_ds _ _ digest algo _ => bool_decide (ds_digest_name digest ≠ None) && bool_decide (algo_digest_name algo ≠ None)
         | _ => false
         end
      then Ok (c, true)
      else
        '(c, next) ← cache_find_by_name true mix_tab (Some id) keyname now F_DS c;
        match next with Some id => ds_supported fuel id keyname c | None => Ok (c, false) end
  end.

(** [for (p = &name[name_start-2]; ( *p != '.') && (p != name); p--)] and the start of the label. *)
Fixpoint prev_label (fuel : nat) (name : cstring) (p : Z) : res Z :=
  match fuel with
  | O => NoFuel
  | S fuel =>
      c ← rd name p;
      if negb (c =? dot) && negb (p =? 0) then prev_label fuel name (p - 1)
      else Ok (if p =? 0 then 0 else p + 1)
  end.

(** Away from the anchor: the status, the cache and what is in keyname. *)
Fixpoint zone_loop (fuel : nat) (name : cstring) (name_start : Z) (keyname : list Z) (c : cache) : res (Z * cache * list Z) :=
  match fuel with
  | O => NoFuel
  | S fuel =>
      let key := drop (Z.to_nat name_start) name in
      keyname ← put_name keyname key;
      '(c, r) ← cache_find_by_name true mix_tab None key now F_DS c;
      match r with
      | None => Ok (STAT_NEED_DS, c, keyname)
      | Some id =>
          if has (get c id) F_NEG && has (get c id) F_DNSSECOK then Ok (STAT_INSECURE, c, keyname)
          else
            '(c, ok) ← (if has (get c id) F_NEG then Ok (c, true) else ds_supported (S (size (store c))) id key c);
            if negb ok then Ok (STAT_INSECURE, c, keyname)
            else if name_start =? 0 then Ok (STAT_SECURE, c, keyname)
            else
              name_start ← prev_label (S (length name)) name (name_start - 2);
              zone_loop fuel name name_start keyname c
      end
  end.

Definition zone_status (name : cstring) (keyname : list Z) (c : cache) : res (Z * cache * list Z) :=
  '(c, name_start) ← find_anchor (S (length name)) name 0 c;
  zone_loop (S (S (length name))) name name_start keyname c.
End zone.

(** The state, with the arrays that are static variables: those of [explore_rrset], [targets], those of [prove_non_existence],
    and [daemon->rr_status]. Of an array that holds a set of records only the size is used again. *)
Record rstate := RState {
  s_v : vstate; s_rrset : list Z; s_sigs : list Z; s_targets : list Z; s_nsecset : list Z; s_labels : list Z; s_rr_status : list Z
}.
Definition set_v (v : vstate) (s : rstate) : rstate := RState v (s_rrset s) (s_sigs s) (s_targets s) (s_nsecset s) (s_labels s) (s_rr_status s).
Definition set_sets (rrset sigs : list Z) (s : rstate) : rstate := RState (s_v s) rrset sigs (s_targets s) (s_nsecset s) (s_labels s) (s_rr_status s).
Definition set_targets (t : list Z) (s : rstate) : rstate := RState (s_v s) (s_rrset s) (s_sigs s) t (s_nsecset s) (s_labels s) (s_rr_status s).
Definition set_nsecs (f : option nfound) (s : rstate) : rstate :=
  match f with
  | None => s
  | Some f => RState (s_v s) (s_rrset s) (s_sigs s) (s_targets s) (n_set f) (n_labels f) (s_rr_status s)
  end.
Definition set_rr_status (t : list Z) (s : rstate) : rstate := RState (s_v s) (s_rrset s) (s_sigs s) (s_targets s) (s_nsecset s) (s_labels s) t.

(** What is returned: the status, and what is stored through the pointers class, neganswer, nons and nsec_ttl. *)
Record reply_t := Reply { y_status : Z; y_class : option Z; y_neg : bool; y_nons : option bool; y_ttl : option Z }.

Definition RCODE (buf : list Z) : res Z := b ← rd buf 3; Ok (Z.land b HB4_RCODE).
Definition SERVFAIL : Z := 2.

(** A return with a status, or the value with which to go on. *)
Abbreviation result A := (res ((Z * option Z + A) * rstate)).
Definition stop {A} (status : Z) (st : rstate) : result A := Ok (inl (status, None), st).
Definition stop_class {A} (status class : Z) (st : rstate) : result A := Ok (inl (status, Some class), st).
Definition go {A} (a : A) (st : rstate) : result A := Ok (inr a, st).

(** An error of [m] is a return of STAT_BOGUS. *)
Definition or_bogus {A B} (m : res A) (st : rstate) (k : A → result B) : result B :=
  match m with Ok a => k a | Bad => stop STAT_BOGUS st | Oob => Oob | NoFuel => NoFuel end.
Definition then_go {A B} (m : result A) (k : A → rstate → result B) : result B :=
  '(r, st) ← m; match r with inl e => Ok (inl e, st) | inr a => k a st end.

Section reply.
Context (alloc : Z → bool) (N : nettle) (mem : bool) (mix_tab : Z → Z) (pool : pool) (buf : list Z) (plen now curtime : Z).

(** The CNAME records of the answer: the places of their targets. *)
Fixpoint find_targets (n : nat) (p : Z) (targets : list Z) (targetidx : Z) : res (list Z * Z) :=
  match n with
  | O => Ok (targets, targetidx)
  | S n =>
      p ← skip_name buf plen p 10;
      '(type2, p) ← GETSHORT buf p;
      '(rdlen2, p) ← GETSHORT buf (p + 6);
      '(targets, targetidx) ← (if type2 =? T_CNAME then t ← add_entry alloc targets targetidx p; Ok (t, targetidx + 1) else Ok (targets, targetidx));
      p ← ADD_RDLEN p plen rdlen2;
      find_targets n p targets targetidx
  end.

(** An earlier record of the same set, among the [n] from the record [j] at [p] on. *)
Fixpoint done_before (n : nat) (j p : Z) (name : cstring) (type1 class1 : Z) : res (option Z) :=
  match n with
  | O => Ok None
  | S n =>
      '(rc, p, _) ← extract_name true buf plen p name false 10;
      '(type2, p) ← GETSHORT buf p;
      '(class2, p) ← GETSHORT buf p;
      '(rdlen2, p) ← GETSHORT buf (p + 4);
      if (type2 =? type1) && (class2 =? class1) && (rc =? 1) then Ok (Some j)
      else p ← ADD_RDLEN p plen rdlen2; done_before n (j + 1) p name type1 class1
  end.

(** The targets that a secure set answers are set to NULL. *)
Fixpoint mark_targets (targets : list Z) (n : nat) (name : cstring) (answers : bool) : res (list Z) :=
  match n, targets with
  | S n, t :: targets =>
      t ← (if t =? 0 then Ok t
           else '(rc1, _, _) ← extract_name true buf plen t name false 10; Ok (if answers && (rc1 =? 1) then 0 else t));
      rest ← mark_targets targets n name answers;
      Ok (t :: rest)
  | O, _ => Ok targets
  | _, [] => Oob
  end.

Definition pass_on (status : Z) : bool := STAT_ISEQUAL status STAT_BOGUS || STAT_ISEQUAL status STAT_NEED_KEY || STAT_ISEQUAL status STAT_NEED_DS.

(** A set without signatures; the value is the status, STAT_SECURE or STAT_INSECURE. *)
Definition unsigned_set (for_ds check_unsigned : bool) (ancount i type1 class1 : Z) (name : cstring) (st : rstate) : result Z :=
  if (type1 =? T_NSEC) || (type1 =? T_NSEC3) then stop (Z.lor STAT_BOGUS DNSSEC_FAIL_NOSIG) st
  else if for_ds && (ancount <=? i) then go STAT_SECURE st
  else if check_unsigned && (i <? ancount) then
    let v := s_v st in
    '(rc, c, keyname) ← zone_status mix_tab now class1 name (v_keyname v) (v_cache v);
    let st := set_v (set_vkeyname keyname (set_vcache c v)) st in
    let rc := if STAT_ISEQUAL rc STAT_SECURE then Z.lor STAT_BOGUS DNSSEC_FAIL_NOSIG else rc in
    if STAT_ISEQUAL rc STAT_INSECURE then go rc st else stop_class rc class1 st
  else go STAT_INSECURE st.

(** A set with signatures, in a zone that is signed: the records [rrs] and the signatures [sigs] are tested. *)
Definition secure_set (targetidx i type1 class1 qtype qclass : Z) (name : cstring) (rrs sigs : list Z) (st : rstate) : result Z :=
  '(r, _, v) ← validate_rrset N mem mix_tab pool buf plen now curtime class1 type1 sigs rrs None true (s_v st);
  let st := set_v v st in
  let rc := r_status r in
  if pass_on rc then stop_class rc class1 st
  else
    ttl ← (match r_ttl r with Some t => Ok t | None => Oob end);
    status ← set_rr (s_rr_status st) i ttl;
    let st := set_rr_status status st in
    or_bogus (mark_targets (s_targets st) (Z.to_nat targetidx) name
                ((class1 =? qclass) && ((type1 =? T_CNAME) || (type1 =? qtype) || (qtype =? T_ANY)))) st (λ targets,
    let st := set_targets targets st in
    if STAT_ISEQUAL rc STAT_SECURE_WILDCARD then
      '(r, name, f) ← prove_non_existence buf plen N mem alloc (s_rr_status st) (v_name (s_v st)) type1 class1 (r_wild r) None false
                        (s_nsecset st) (s_labels st);
      let st := set_nsecs f (set_v (set_vname name (s_v st)) st) in
      match r with None => stop (Z.lor STAT_BOGUS DNSSEC_FAIL_NONSEC) st | Some _ => go STAT_SECURE st end
    else go STAT_SECURE st).

(** A set that has not been met before. *)
Definition new_set (for_ds check_unsigned : bool) (ancount targetidx i type1 class1 qtype qclass : Z) (name : cstring) (st : rstate) : result Z :=
  or_bogus (explore_rrset alloc buf plen class1 type1 name (v_keyname (s_v st)) (s_rrset st) (s_sigs st)) st (λ x,
  let st := set_sets (x_rrset x) (x_sigs x) (set_v (set_vkeyname (x_keyname x) (s_v st)) st) in
  if x_nsig x =? 0 then unsigned_set for_ds check_unsigned ancount i type1 class1 name st
  else
    key ← str_at (x_keyname x) 0;
    work ← put_name (v_work (s_v st)) key;
    '(rc, c, keyname) ← zone_status mix_tab now class1 key (x_keyname x) (v_cache (s_v st));
    let st := set_v (set_vwork work (set_vkeyname keyname (set_vcache c (s_v st)))) st in
    if pass_on rc then stop_class rc class1 st
    else if STAT_ISEQUAL rc STAT_SECURE then
      secure_set targetidx i type1 class1 qtype qclass name (take (Z.to_nat (x_nrr x)) (x_rrset x)) (take (Z.to_nat (x_nsig x)) (x_sigs x)) st
    else go rc st).

(** The records from the number [i] on, of which the first is at [p]; the value is the status so far. *)
Fixpoint validate_records (for_ds check_unsigned : bool) (ancount ans_start targetidx qtype qclass : Z) (n : nat) (i p secure : Z) (st : rstate)
    : result Z :=
  match n with
  | O => go secure st
  | S n =>
      or_bogus (extract_name true buf plen p [] true 10) st (λ '(_, p, name),
      namebuff ← put_name (v_name (s_v st)) name;
      let st := set_v (set_vname namebuff (s_v st)) st in
      '(type1, p) ← GETSHORT buf p;
      '(class1, p) ← GETSHORT buf p;
      '(rdlen1, p) ← GETSHORT buf (p + 4);
      then_go
        (if type1 =? T_RRSIG then go STAT_SECURE st
         else
           or_bogus (done_before (Z.to_nat i) 0 ans_start name type1 class1) st (λ d,
           match d with
           | Some j => t ← rd (s_rr_status st) j; status ← set_rr (s_rr_status st) i t; go STAT_SECURE (set_rr_status status st)
           | None => new_set for_ds check_unsigned ancount targetidx i type1 class1 qtype qclass name st
           end)) (λ rc st,
      let secure := if STAT_ISEQUAL rc STAT_INSECURE then STAT_INSECURE else secure in
      match n with
      | O => go secure st
      | _ => or_bogus (ADD_RDLEN p plen rdlen1) st (λ p,
             validate_records for_ds check_unsigned ancount ans_start targetidx qtype qclass n (i + 1) p secure st)
      end))
  end.

(** The targets that are left, from the entry [targets] on; the value is whether there was one, [*nons] and [*nsec_ttl]. *)
Fixpoint missing_targets (for_ds : bool) (qtype qclass : Z) (targets : list Z) (neg : bool) (nons : option bool) (ttl : option Z) (st : rstate)
    : result (bool * option bool * option Z) :=
  match targets with
  | [] => go (neg, nons, ttl) st
  | t :: targets =>
      if t =? 0 then missing_targets for_ds qtype qclass targets neg nons ttl st
      else
        or_bogus (extract_name true buf plen t [] true 10) st (λ '(_, _, name),
        namebuff ← put_name (v_name (s_v st)) name;
        '(r, namebuff, f) ← prove_non_existence buf plen N mem alloc (s_rr_status st) namebuff qtype qclass None
                              (if for_ds then Some true else None) for_ds (s_nsecset st) (s_labels st);
        let st := set_nsecs f (set_v (set_vname namebuff (s_v st)) st) in
        match r with
        | Some nons' =>
            let ttl := match f with Some f => (match n_ttl f with Some t => Some t | None => ttl end) | None => ttl end in
            missing_targets for_ds qtype qclass targets true nons' ttl st
        | None =>
            if qtype =? T_DS then stop (Z.lor STAT_BOGUS DNSSEC_FAIL_NONSEC) st
            else
              name ← str_at namebuff 0;
              '(rc, c, keyname) ← zone_status mix_tab now qclass name (v_keyname (s_v st)) (v_cache (s_v st));
              let st := set_v (set_vkeyname keyname (set_vcache c (s_v st))) st in
              if negb (STAT_ISEQUAL rc STAT_SECURE) then stop_class rc qclass st
              else stop (Z.lor STAT_BOGUS DNSSEC_FAIL_NONSEC) st
        end)
  end.

(** Everything up to the returns; the value is the status, whether there is no answer, [*nons] and [*nsec_ttl]. *)
Definition validate_body (for_ds check_unsigned : bool) (st : rstate) : result (Z * bool * option bool * option Z) :=
  rcode ← RCODE buf; qd ← qdcount buf; an ← ancount buf; ns ← nscount buf;
  if (zlen (s_rr_status st) <? an + ns) && negb (alloc (an + ns + 64)) then stop STAT_BOGUS st
  else
    let sz := if zlen (s_rr_status st) <? an + ns then an + ns + 64 else zlen (s_rr_status st) in
    let st := set_rr_status (repeat 0 (Z.to_nat sz)) st in
    if (rcode =? SERVFAIL) || negb (qd =? 1) then stop STAT_BOGUS st
    else if negb (rcode =? NXDOMAIN) && negb (rcode =? NOERROR) then stop STAT_INSECURE st
    else
      or_bogus (add_entry alloc (s_targets st) 0 HDRSZ) st (λ targets,
      let st := set_targets targets st in
      or_bogus (extract_name true buf plen HDRSZ [] true 4) st (λ '(_, p, name),
      namebuff ← put_name (v_name (s_v st)) name;
      let st := set_v (set_vname namebuff (s_v st)) st in
      '(qtype, p) ← GETSHORT buf p;
      '(qclass, ans_start) ← GETSHORT buf p;
      if qtype =? T_RRSIG then stop STAT_INSECURE st
      else
        or_bogus (if negb (qtype =? T_CNAME) && negb (qtype =? T_ANY)
                  then find_targets (Z.to_nat an) ans_start (s_targets st) 1 else Ok (s_targets st, 1)) st (λ '(targets, targetidx),
        let st := set_targets targets st in
        then_go (validate_records for_ds check_unsigned an ans_start targetidx qtype qclass (Z.to_nat (an + ns)) 0 ans_start STAT_SECURE st)
          (λ secure st,
        then_go (missing_targets for_ds qtype qclass (take (Z.to_nat targetidx) (s_targets st)) false
                   (if for_ds then Some true else None) None st) (λ '(neg, nons, ttl) st,
        go (secure, neg, nons, ttl) st))))).

(** [for_ds] says that neganswer, nons and nsec_ttl are given, which is so for an answer to a query for DS records; the class
    is given otherwise. *)
Definition dnssec_validate_reply (for_ds check_unsigned : bool) (st : rstate) : res (reply_t * rstate) :=
  '(r, st) ← validate_body for_ds check_unsigned st;
  Ok (match r with
      | inl (status, class) => Reply status class false None None
      | inr (status, neg, nons, ttl) => Reply status None neg nons ttl
      end, st).
End reply.
