(* ===== verification/DnssecKeys.v ===== *)
(** The queries for keys and DS records (src/src/dnssec.c, [dnssec_generate_query]) and the replies to them ([dnssec_validate_by_ds] and
    [dnssec_validate_ds]): keys that a DS record vouches for and DS records of a secure reply are entered into the cache. *)
From S2P Require Import Prelude Hostname Wire WireSpec RRFilter WireExt Cache Records Edns0 Blockdata Crypto.
From S2P Require Import DnssecName DnssecSort DnssecValidate DnssecNsec DnssecReply.

(** The state with the block storage. *)
Record kstate := KState { d_reply : rstate; d_pool : pool }.

Definition d_v (k : kstate) : vstate := s_v (d_reply k).
Definition d_cache (k : kstate) : cache := v_cache (d_v k).
Definition set_dv (v : vstate) (k : kstate) : kstate := KState (set_v v (d_reply k)) (d_pool k).
Definition set_dname (b : list Z) (k : kstate) : kstate := set_dv (set_vname b (d_v k)) k.
Definition set_dcache (c : cache) (k : kstate) : kstate := set_dv (set_vcache c (d_v k)) k.
Definition set_dpool (d : pool) (k : kstate) : kstate := KState (d_reply k) d.

(** The blocks that the cache has given back are put on the free list. *)
Definition forget_freed (c : cache) : cache :=
  Cache (store c) (lru c) (hash_table c) (new_chain c) (insert_error c) (big_free c) (bignames_left c) (next_uid_ctr c) [] (live_freed c) (inserted c).
Definition settle (k : kstate) : res kstate :=
  d ← foldr (λ b m, d ← m; blockdata_free b d) (Ok (d_pool k)) (blocks_freed (d_cache k));
  Ok (set_dpool d (set_dcache (forget_freed (d_cache k)) k)).

(** A value, or a return with a status. *)
Definition outcome (A : Type) : Type := (Z + A) * kstate.
Definition stopk {A} (status : Z) (k : kstate) : res (outcome A) := Ok (inl status, k).
Definition or_stop {A B} (m : res A) (status : Z) (k : kstate) (f : A → res (outcome B)) : res (outcome B) :=
  match m with Ok a => f a | Bad => stopk status k | Oob => Oob | NoFuel => NoFuel end.

Section keys.
Context (alloc : Z → bool) (malloc : gmap Z Z → Z → Z) (N : nettle) (mem : bool) (mix_tab : Z → Z) (buf : list Z) (plen now curtime class : Z).
(** Settings of the cache. *)
Context (max_cache_ttl min_cache_ttl : Z).

(** * Keys *)

(** A record of the answer: whether its name is the one asked for (1), its type, class, TTL, the length and the place of its data. *)
Record answer_rr := AnswerRR { a_same : Z; a_type : Z; a_class : Z; a_ttl : Z; a_rdlen : Z; a_data : Z }.

Definition read_rr (p : Z) (name : cstring) : res answer_rr :=
  '(rc, p, _) ← extract_name true buf plen p name false 10;
  '(type, p) ← GETSHORT buf p;
  '(class, p) ← GETSHORT buf p;
  '(ttl, p) ← GETLONG buf p;
  '(rdlen, p) ← GETSHORT buf p;
  _ ← guard_ok (CHECK_LEN p plen rdlen);
  Ok (AnswerRR rc type class ttl rdlen p).

(** The key [key] of [rdlen - 4] bytes, with its data at [psave], and one DS record with its fields: the new flags of failure, and the
    TTL of the signature when the records are good. *)
Definition try_ds (key algo keytag psave rdlen : Z) (r : crec) (failflags : Z) (k : kstate) : res (option Z * Z * kstate) :=
  match addr r with
  | A_ds keydata keylen digest ds_algo ds_tag =>
      if negb ((ds_algo =? algo) && (ds_tag =? keytag) && (uid r =? class)) then Ok (None, failflags, k)
      else
        let failflags := clear_flag failflags DNSSEC_FAIL_NOKEY in
        match hash_find N (ds_digest_name digest) with
        | None => Ok (None, failflags, k)
        | Some h =>
            let failflags := clear_flag failflags DNSSEC_FAIL_NODSSUP in
            if negb mem then Ok (None, failflags, k)
            else
              '(name, wire_len) ← to_wire (v_name (d_v k)) 0;
              owner ← read_at name 0 wire_len;
              data ← read_at buf psave rdlen;
              name ← from_wire name 0;
              let k := set_dname name k in
              ds_digest ← (if negb (has r F_NEG) && (keylen =? digest_size h) then blockdata_retrieve mem keydata keylen None (d_pool k) else Ok None);
              if negb (bool_decide (take (Z.to_nat keylen) <$> ds_digest = Some (take (Z.to_nat keylen) (digest_of h (owner ++ data)))))
              then Ok (None, failflags, k)
              else
                s ← str_at name 0;
                let st := d_reply k in
                x ← catch (explore_rrset alloc buf plen class T_DNSKEY s (v_keyname (s_v st)) (s_rrset st) (s_sigs st));
                match x with
                | None => Ok (None, failflags, k)
                | Some x =>
                    let k := KState (set_sets (x_rrset x) (x_sigs x) (set_v (set_vkeyname (x_keyname x) (s_v st)) st)) (d_pool k) in
                    if (x_nrr x =? 0) || (x_nsig x =? 0) then Ok (None, failflags, k)
                    else
                      let failflags := clear_flag failflags DNSSEC_FAIL_NOSIG in
                      '(r, _, v) ← validate_rrset N mem mix_tab (d_pool k) buf plen now curtime class T_DNSKEY
                                     (take (Z.to_nat (x_nsig x)) (x_sigs x)) (take (Z.to_nat (x_nrr x)) (x_rrset x))
                                     (Some (GivenKey key (rdlen - 4) algo keytag)) true (d_v k);
                      let k := set_dv v k in
                      Ok (if STAT_ISEQUAL (r_status r) STAT_SECURE then r_ttl r else None, Z.land failflags (r_status r), k)
                end
        end
  | _ => Ok (None, failflags, k)
  end.

(** The DS records from [id] on. *)
Fixpoint try_all_ds (fuel : nat) (id : Z) (key algo keytag psave rdlen failflags : Z) (k : kstate) : res (option Z * Z * kstate) :=
  match fuel with
  | O => NoFuel
  | S fuel =>
      '(valid, failflags, k) ← try_ds key algo keytag psave rdlen (get (d_cache k) id) failflags k;
      match valid with
      | Some _ => Ok (valid, failflags, k)
      | None =>
          s ← str_at (v_name (d_v k)) 0;
          '(c, next) ← cache_find_by_name true mix_tab (Some id) s now F_DS (d_cache k);
          let k := set_dcache c k in
          match next with
          | Some id => try_all_ds fuel id key algo keytag psave rdlen failflags k
          | None => Ok (None, failflags, k)
          end
      end
  end.

(** A DNSKEY record with data of [rdlen] bytes at [psave]. *)
Definition try_key (crecp psave rdlen failflags : Z) (k : kstate) : res (outcome (option Z * Z)) :=
  '(flags, p) ← GETSHORT buf psave;
  proto ← rd buf p;
  if negb (proto =? 3) then stopk (Z.lor STAT_BOGUS DNSSEC_FAIL_NOKEY) k
  else
    algo ← rd buf (p + 1);
    let p := p + 2 in
    keytag ← dnskey_keytag algo flags buf p (rdlen - 4);
    if negb (flag flags 256) then Ok (inr (None, failflags), k)
    else
      let failflags := clear_flag failflags DNSSEC_FAIL_NOZONE in
      bytes ← read_at buf p (rdlen - 4);
      '(key, d) ← blockdata_alloc malloc bytes (rdlen - 4) (d_pool k);
      let k := set_dpool d k in
      if key =? 0 then Ok (inr (None, failflags), k)
      else
        '(valid, failflags, k) ← try_all_ds (S (size (store (d_cache k)))) crecp key algo keytag psave rdlen failflags k;
        d ← blockdata_free key (d_pool k);
        Ok (inr (valid, failflags), set_dpool d k).

(** The records of the answer, [n] of them from [p] on. *)
Fixpoint find_key (n : nat) (crecp p failflags : Z) (k : kstate) : res (outcome (option Z * Z)) :=
  match n with
  | O => Ok (inr (None, failflags), k)
  | S n =>
      name ← str_at (v_name (d_v k)) 0;
      or_stop (a ← read_rr p name; _ ← guard_ok (negb (a_rdlen a <? 4)); Ok a) STAT_BOGUS k (λ a,
      '(r, k) ← (if negb (a_class a =? class) || negb (a_type a =? T_DNSKEY) || (a_same a =? 2) then Ok (inr (None, failflags), k)
                 else try_key crecp (a_data a) (a_rdlen a) failflags k);
      match r with
      | inl status => stopk status k
      | inr (Some ttl, failflags) => Ok (inr (Some ttl, failflags), k)
      | inr (None, failflags) => find_key n crecp (a_data a + a_rdlen a) failflags k
      end)
  end.

(** A record is entered into the cache: STAT_BOGUS when there is no room. *)
Definition insert_rr (name : cstring) (a : all_addr) (key ttl fl : Z) (k : kstate) : res (outcome unit) :=
  '(c, new) ← cache_insert true mix_tab max_cache_ttl min_cache_ttl mem (Some name) (Some a) class now ttl fl (d_cache k);
  k ← settle (set_dcache c k);
  match new with
  | Some _ => Ok (inr tt, k)
  | None => d ← blockdata_free key (d_pool k); stopk STAT_BOGUS (set_dpool d k)
  end.

Definition insert_key (name : cstring) (ttl psave rdlen : Z) (k : kstate) : res (outcome unit) :=
  if rdlen <? 4 then stopk STAT_BOGUS k
  else
    '(flags, p) ← GETSHORT buf psave;
    proto ← rd buf p;
    if negb (proto =? 3) then stopk STAT_BOGUS k
    else
      algo ← rd buf (p + 1);
      let p := p + 2 in
      keytag ← dnskey_keytag algo flags buf p (rdlen - 4);
      bytes ← read_at buf p (rdlen - 4);
      '(key, d) ← blockdata_alloc malloc bytes (rdlen - 4) (d_pool k);
      let k := set_dpool d k in
      if key =? 0 then Ok (inr tt, k)
      else insert_rr name (A_key key (rdlen - 4) algo keytag flags) key ttl (Z.lor (Z.lor F_FORWARD F_DNSKEY) F_DNSSECOK) k.

Fixpoint insert_keys (n : nat) (sig_ttl p : Z) (k : kstate) : res (outcome unit) :=
  match n with
  | O => Ok (inr tt, k)
  | S n =>
      name ← str_at (v_name (d_v k)) 0;
      or_stop (read_rr p name) STAT_BOGUS k (λ a,
      let ttl := if sig_ttl <? a_ttl a then sig_ttl else a_ttl a in
      '(r, k) ← (if (a_class a =? class) && (a_same a =? 1) && (a_type a =? T_DNSKEY)
                 then insert_key name ttl (a_data a) (a_rdlen a) k else Ok (inr tt, k));
      match r with
      | inl status => stopk status k
      | inr _ => insert_keys n sig_ttl (a_data a + a_rdlen a) k
      end)
  end.

Definition set_dkeyname (b : list Z) (k : kstate) : kstate := set_dv (set_vkeyname b (d_v k)) k.

(** The keys of a good set of records, then the end of the insertion. *)
Definition accept_keys (an sig_ttl : Z) (k : kstate) : res (outcome Z) :=
  c ← cache_start_insert true (d_cache k);
  k ← settle (set_dcache c k);
  p ← skip_questions buf plen;
  '(r, k) ← insert_keys (Z.to_nat an) sig_ttl p k;
  match r with
  | inl status => stopk status k
  | inr _ => c ← cache_end_insert true mix_tab (d_cache k); k ← settle (set_dcache c k); Ok (inr STAT_OK, k)
  end.

Definition by_ds_body (k : kstate) : res (outcome Z) :=
  rcode ← RCODE buf; qd ← qdcount buf; an ← ancount buf;
  if negb (qd =? 1) || (rcode =? SERVFAIL) || (rcode =? REFUSED) then stopk (Z.lor STAT_BOGUS DNSSEC_FAIL_NOKEY) k
  else
    or_stop (extract_name true buf plen HDRSZ [] true 4) (Z.lor STAT_BOGUS DNSSEC_FAIL_NOKEY) k (λ '(_, p, name),
    namebuff ← put_name (v_name (d_v k)) name;
    let k := set_dname namebuff k in
    '(qtype, p) ← GETSHORT buf p;
    '(qclass, p) ← GETSHORT buf p;
    if negb (qtype =? T_DNSKEY) || negb (qclass =? class) || (an =? 0) then stopk (Z.lor STAT_BOGUS DNSSEC_FAIL_NOKEY) k
    else
      '(c, crecp) ← cache_find_by_name true mix_tab None name now F_DS (d_cache k);
      k ← settle (set_dcache c k);
      match crecp with
      | None => keyname ← put_name (v_keyname (d_v k)) name; stopk STAT_NEED_DS (set_dkeyname keyname k)
      | Some id =>
          '(r, k) ← find_key (Z.to_nat an) id p
                      (Z.lor (Z.lor (Z.lor DNSSEC_FAIL_NOSIG DNSSEC_FAIL_NODSSUP) DNSSEC_FAIL_NOZONE) DNSSEC_FAIL_NOKEY) k;
          match r with
          | inl status => stopk status k
          | inr (None, failflags) => stopk (Z.lor STAT_BOGUS failflags) k
          | inr (Some sig_ttl, _) => accept_keys an sig_ttl k
          end
      end).

Definition dnssec_validate_by_ds (k : kstate) : res (Z * kstate) :=
  '(r, k) ← by_ds_body k; Ok (match r with inl s => s | inr s => s end, k).

(** * DS records *)

Definition insert_ds (name : cstring) (ttl psave rdlen : Z) (k : kstate) : res (outcome unit) :=
  if rdlen <? 4 then stopk STAT_BOGUS k
  else
    '(keytag, p) ← GETSHORT buf psave;
    algo ← rd buf p; digest ← rd buf (p + 1);
    bytes ← read_at buf (p + 2) (rdlen - 4);
    '(key, d) ← blockdata_alloc malloc bytes (rdlen - 4) (d_pool k);
    let k := set_dpool d k in
    if key =? 0 then Ok (inr tt, k)
    else insert_rr name (A_ds key (rdlen - 4) digest algo keytag) key ttl (Z.lor (Z.lor F_FORWARD F_DS) F_DNSSECOK) k.

Fixpoint insert_all_ds (n : nat) (p : Z) (k : kstate) : res (outcome unit) :=
  match n with
  | O => Ok (inr tt, k)
  | S n =>
      name ← str_at (v_name (d_v k)) 0;
      or_stop (read_rr p name) STAT_BOGUS k (λ a,
      '(r, k) ← (if (a_class a =? class) && (a_type a =? T_DS) && (a_same a =? 1)
                 then insert_ds name (a_ttl a) (a_data a) (a_rdlen a) k else Ok (inr tt, k));
      match r with
      | inl status => stopk status k
      | inr _ => insert_all_ds n (a_data a + a_rdlen a) k
      end)
  end.

(** That there is no DS record is remembered with the TTL of the proof; [nons] says that there is no NS record either. *)
Definition insert_no_ds (name : cstring) (rcode neg_ttl : Z) (nons : bool) (k : kstate) : res (outcome unit) :=
  let fl := Z.lor (Z.lor (Z.lor F_FORWARD F_DS) F_NEG) F_DNSSECOK in
  let fl := if rcode =? NXDOMAIN then Z.lor fl F_NXDOMAIN else fl in
  let fl := if nons then clear_flag fl F_DNSSECOK else fl in
  '(c, new) ← cache_insert true mix_tab max_cache_ttl min_cache_ttl mem (Some name) None class now (u64 neg_ttl) fl (d_cache k);
  k ← settle (set_dcache c k);
  match new with Some _ => Ok (inr tt, k) | None => stopk STAT_BOGUS k end.

Definition ds_body (k : kstate) : res (outcome Z) :=
  qd ← qdcount buf; an ← ancount buf;
  or_stop (_ ← guard_ok (qd =? 1); skip_name buf plen HDRSZ 4) STAT_BOGUS k (λ p,
  '(qtype, p) ← GETSHORT buf p;
  '(qclass, p) ← GETSHORT buf p;
  '(y, st) ← (if negb (qtype =? T_DS) || negb (qclass =? class) then Ok (Reply STAT_BOGUS None false None None, d_reply k)
              else dnssec_validate_reply alloc N mem mix_tab (d_pool k) buf plen now curtime true false (d_reply k));
  k ← settle (KState st (d_pool k));
  if STAT_ISEQUAL (y_status y) STAT_INSECURE then stopk (Z.lor STAT_BOGUS DNSSEC_FAIL_INDET) k
  else
    or_stop (extract_name true buf plen HDRSZ [] true 4) STAT_BOGUS k (λ '(_, p, name),
    namebuff ← put_name (v_name (d_v k)) name;
    let k := set_dname namebuff k in
    keyname ← str_at (v_keyname (d_v k)) 0;
    if STAT_ISEQUAL (y_status y) STAT_NEED_KEY && hostname_isequal name keyname then stopk STAT_BOGUS k
    else if negb (STAT_ISEQUAL (y_status y) STAT_SECURE) then stopk (y_status y) k
    else
      rcode ← RCODE buf;
      c ← cache_start_insert true (d_cache k);
      k ← settle (set_dcache c k);
      '(r, k) ← (if negb (y_neg y) then insert_all_ds (Z.to_nat an) (p + 4) k
                 else insert_no_ds name rcode (default 0 (y_ttl y)) (default true (y_nons y)) k);
      match r with
      | inl status => stopk status k
      | inr _ => c ← cache_end_insert true mix_tab (d_cache k); k ← settle (set_dcache c k); Ok (inr STAT_OK, k)
      end)).

Definition dnssec_validate_ds (k : kstate) : res (Z * kstate) :=
  '(r, k) ← ds_body k; Ok (match r with inl s => s | inr s => s end, k).
End keys.

Definition HB3_RD : Z := 1.
Definition HB4_CD : Z := 16.
Definition QUERY : Z := 0.

(** [debug] is OPT_DNSSEC_DEBUG; [alloc] and [wkspc] are those of the pseudoheader. *)
Definition dnssec_generate_query (debug : bool) (alloc : Z → bool) (wkspc buf : list Z) (limit : Z) (name : cstring) (class type edns_pktsz : Z)
    : res (list Z * Z) :=
  '(buf, _) ← PUTSHORT buf 4 1;
  '(buf, _) ← PUTSHORT buf 6 0;
  '(buf, _) ← PUTSHORT buf 8 0;
  '(buf, _) ← PUTSHORT buf 10 0;
  buf ← wr buf 2 HB3_RD;
  hb3 ← rd buf 2;
  buf ← wr buf 2 (Z.lor (Z.ldiff hb3 HB3_OPCODE) QUERY);
  buf ← wr buf 3 (if debug then HB4_CD else 0);
  '(buf, p) ← do_rfc1035_name true buf HDRSZ name None;
  p ← (match p with Some p => Ok p | None => Oob end);
  buf ← wr buf p 0;
  '(buf, p) ← PUTSHORT buf (p + 1) type;
  '(buf, p) ← PUTSHORT buf p class;
  '(buf, ret) ← add_do_bit alloc wkspc buf p limit;
  '(ph, _) ← find_pseudoheader buf ret false;
  match ph with
  | Some h => '(buf, _) ← PUTSHORT buf (ph_udp h) edns_pktsz; Ok (buf, ret)
  | None => Ok (buf, ret)
  end.

(** A query for the keys of the zone a, with the flag for DNSSEC and the size 1232. *)
Example key_query : dnssec_generate_query false (λ _, true) [] (repeat 9 64) 64 [97] 1 48 1232 =
  Ok ([9; 9; 1; 0; 0; 1; 0; 0; 0; 0; 0; 1; 1; 97; 0; 0; 48; 0; 1; 0; 0; 41; 4; 208; 0; 0; 128; 0; 0; 0] ++ repeat 9 34, 30).
Proof. vm_compute. reflexivity. Qed.
