(* ===== verification/DnssecTyped.v ===== *)
(** The state of validation keeps its type: through the validation of replies, of keys and of DS records the name buffers stay
    arrays of bytes of their size. *)
From S2P Require Import Prelude Hostname Wire WireSafe WireSpec RRFilter WireExt Blockdata Cache Crypto Records.
From S2P Require Import DnssecName DnssecNameSpec DnssecSort DnssecSorted DnssecValidate DnssecKeeps DnssecSound DnssecNsec DnssecReply DnssecKeys.

#[local] Opaque extract_name skip_name find_name.

Section zone.
Context (mix_tab : Z → Z) (now class : Z).

Lemma zone_loop_keeps fuel name start k c st c' k' : zone_loop mix_tab now class fuel name start k c = Ok (st, c', k') → buff_ok k → buff_ok k'.
Proof. revert start k c. induction fuel as [|fuel IH]; intros start k c E B; cbn [zone_loop] in E; rinv E; eauto with keeps. Qed.

Lemma zone_status_keeps name k c st c' k' : zone_status mix_tab now class name k c = Ok (st, c', k') → buff_ok k → buff_ok k'.
Proof. unfold zone_status. intros E B. apply bind_inv in E as ([c1 start] & _ & E). by eapply zone_loop_keeps. Qed.
End zone.
#[export] Hint Resolve zone_status_keeps : keeps.

Section explore.
Context (alloc : Z → bool) (buf : list Z) (plen : Z).

Lemma explore_sig_keeps type name pdata p rdlen x x' : explore_sig alloc buf plen type name pdata p rdlen x = Ok x' →
  buff_ok (x_keyname x) → buff_ok (x_keyname x').
Proof. unfold explore_sig. intros E B. rinv E; cbn; eauto with keeps. Qed.

Lemma explore_loop_keeps class type name n p x x' : explore_loop alloc buf plen class type name n p x = Ok x' →
  buff_ok (x_keyname x) → buff_ok (x_keyname x').
Proof.
  revert p x. induction n as [|n IH]; intros p x E B; cbn [explore_loop] in E; [by rinv E|]. cbv zeta in E.
  rinv E; (eapply IH; [eassumption|]); first [exact B | eapply explore_sig_keeps; [eassumption|exact B]].
Qed.

Lemma explore_rrset_keeps class type name k rr sg x : explore_rrset alloc buf plen class type name k rr sg = Ok x → buff_ok k → buff_ok (x_keyname x).
Proof. unfold explore_rrset. intros E B. rinv E. by eapply explore_loop_keeps in E. Qed.
End explore.
#[export] Hint Resolve explore_rrset_keeps : keeps.

Section nsec3.
Context (buf : list Z) (plen : Z) (N : nettle) (mem : bool).

Lemma nsec3_hash_keeps h salt it b start d b' : nsec3_hash mem h salt it b start = Ok (d, b') → buff_ok b → buff_ok b'.
Proof. unfold nsec3_hash. intros E B. cbv zeta in E. rinv E; eauto with keeps. Qed.
#[local] Hint Resolve nsec3_hash_keeps : keeps.

Lemma closest_loop_keeps fuel h salt it nsecs wild b ce nc r b' : closest_loop buf plen mem fuel h salt it nsecs wild b ce nc = Ok (r, b') →
  buff_ok b → buff_ok b'.
Proof. revert b ce nc. induction fuel as [|fuel IH]; intros b ce nc E B; cbn [closest_loop] in E; rinv E; eauto with keeps. Qed.
#[local] Hint Resolve closest_loop_keeps : keeps.

Lemma covered_keeps h salt it type nsecs b start r b' : covered_nsec3 buf plen mem h salt it type nsecs b start = Ok (r, b') → buff_ok b → buff_ok b'.
Proof. unfold covered_nsec3. intros E B. rinv E; eauto with keeps. Qed.
#[local] Hint Resolve covered_keeps : keeps.

Lemma nsec3_keeps nsecs b type wild nons r b' : prove_non_existence_nsec3 buf plen N mem nsecs b type wild nons = Ok (r, b') → buff_ok b → buff_ok b'.
Proof. unfold prove_non_existence_nsec3. intros E B. rinv E; eauto 8 with keeps. Qed.

Lemma prove_keeps alloc rs b qtype qclass wild nons tw set labels r b' f :
  prove_non_existence buf plen N mem alloc rs b qtype qclass wild nons tw set labels = Ok (r, b', f) → buff_ok b → buff_ok b'.
Proof. unfold prove_non_existence. intros E B. rinv E; eauto using nsec3_keeps. Qed.
End nsec3.
#[export] Hint Resolve prove_keeps : keeps.

(** * Replies *)

Definition rstate_ok (st : rstate) : Prop := buffers_ok (s_v st).

Lemma rstate_ok_intro st : buff_ok (v_name (s_v st)) → buff_ok (v_keyname (s_v st)) → buff_ok (v_work (s_v st)) → rstate_ok st.
Proof. by intros. Qed.
Lemma rstate_name st : rstate_ok st → buff_ok (v_name (s_v st)).
Proof. by intros (? & ? & ?). Qed.
Lemma rstate_keyname st : rstate_ok st → buff_ok (v_keyname (s_v st)).
Proof. by intros (? & ? & ?). Qed.
Lemma rstate_work st : rstate_ok st → buff_ok (v_work (s_v st)).
Proof. by intros (? & ? & ?). Qed.
#[export] Hint Resolve rstate_name rstate_keyname rstate_work : keeps.

(** The state after a return or a step of a reply. *)
Ltac dif E := match type of E with (if ?b then _ else _) = _ => destruct b end.
Ltac reply_inv E := unfold or_bogus, then_go in E; unfold stop, stop_class, go in E; cbv zeta in E; rinv E.
Ltac reply_ok := apply rstate_ok_intro; cbn [set_v set_sets set_targets set_rr_status s_v set_vname set_vkeyname set_vwork set_vcache v_name v_keyname v_work]; eauto 7 with keeps.

Section reply.
Context (alloc : Z → bool) (N : nettle) (mem : bool) (mix_tab : Z → Z) (pool : pool) (buf : list Z) (plen now curtime : Z).

Lemma set_nsecs_v f st : s_v (set_nsecs f st) = s_v st.
Proof. by destruct f. Qed.

Lemma unsigned_set_keeps for_ds cu an i type class name st r st' :
  unsigned_set mix_tab now for_ds cu an i type class name st = Ok (r, st') → rstate_ok st → rstate_ok st'.
Proof. unfold unsigned_set. intros E B. reply_inv E; try done; reply_ok. Qed.

Lemma secure_set_keeps ti i type class qtype qclass name rrs sigs st r st' :
  secure_set alloc N mem mix_tab pool buf plen now curtime ti i type class qtype qclass name rrs sigs st = Ok (r, st') → rstate_ok st → rstate_ok st'.
Proof.
  unfold secure_set. intros E B. apply bind_inv in E as ([[r1 l] v] & Ev & E). apply validate_rrset_keeps in Ev; [|exact B].
  reply_inv E; try exact Ev; unfold rstate_ok; rewrite ?set_nsecs_v; destruct Ev as (? & ? & ?);
    apply buffers_ok_intro; cbn [set_v set_targets set_rr_status s_v set_vname v_name v_keyname v_work] in *; eauto with keeps.
Qed.

Lemma new_set_keeps for_ds cu an ti i type class qtype qclass name st r st' :
  new_set alloc N mem mix_tab pool buf plen now curtime for_ds cu an ti i type class qtype qclass name st = Ok (r, st') → rstate_ok st → rstate_ok st'.
Proof.
  unfold new_set, or_bogus. intros E B. destruct (explore_rrset _ _ _ _ _ _ _ _ _) as [x| | |] eqn:Ex; [|by reply_inv E|done|done].
  apply explore_rrset_keeps in Ex; [|by apply rstate_keyname]. set (st1 := set_sets _ _ _) in E.
  assert (rstate_ok st1) as B1 by (apply rstate_ok_intro; cbn; eauto with keeps). destruct (x_nsig x =? 0); [by eapply unsigned_set_keeps|].
  apply bind_inv in E as (key & _ & E). apply bind_inv in E as (work & Ew & E). apply bind_inv in E as ([[rc c] k] & Ez & E).
  apply zone_status_keeps in Ez; [|done]. apply put_name_keeps in Ew; [|by apply rstate_work]. cbv zeta in E. set (st2 := set_v _ _) in E.
  assert (rstate_ok st2) as B2 by (apply rstate_ok_intro; cbn; eauto with keeps).
  destruct (pass_on rc); [by reply_inv E|]. destruct (STAT_ISEQUAL rc STAT_SECURE); [by eapply secure_set_keeps|by reply_inv E].
Qed.

Lemma validate_records_keeps for_ds cu an ans ti qtype qclass n i p sec st r st' :
  validate_records alloc N mem mix_tab pool buf plen now curtime for_ds cu an ans ti qtype qclass n i p sec st = Ok (r, st') →
  rstate_ok st → rstate_ok st'.
Proof.
  revert i p sec st. induction n as [|n IH]; intros i p sec st E B; cbn [validate_records] in E; [by reply_inv E|].
  unfold or_bogus at 1 in E. destruct (extract_name _ _ _ _ _ _ _) as [[[ret p1] name]| | |]; [|by reply_inv E|done|done].
  apply bind_inv in E as (nb & En & E). apply put_name_keeps in En; [|by apply rstate_name]. cbv zeta in E. set (st1 := set_v _ _) in E.
  assert (rstate_ok st1) as B1 by (apply rstate_ok_intro; cbn; eauto with keeps).
  apply bind_inv in E as ([type p2] & _ & E). apply bind_inv in E as ([class p3] & _ & E). apply bind_inv in E as ([rdlen p4] & _ & E).
  unfold then_go in E. apply bind_inv in E as ([x st2] & Ex & E). assert (rstate_ok st2) as B2.
  { destruct (type =? T_RRSIG); [by reply_inv Ex|]. unfold or_bogus in Ex. destruct (done_before _ _ _ _ _ _ _ _) as [d| | |]; [|by reply_inv Ex|done|done].
    destruct d as [j|]; [by reply_inv Ex|by eapply new_set_keeps]. }
  destruct x as [e|rc]; [by injection E as <- <-|]. destruct n as [|n]; [by reply_inv E|]. unfold or_bogus in E at 1.
  destruct (ADD_RDLEN p4 plen rdlen) as [p5| | |]; [|by reply_inv E|done|done]. by eapply IH.
Qed.

Lemma missing_targets_keeps for_ds qtype qclass ts neg nons ttl st r st' :
  missing_targets alloc N mem mix_tab buf plen now for_ds qtype qclass ts neg nons ttl st = Ok (r, st') → rstate_ok st → rstate_ok st'.
Proof.
  revert neg nons ttl st. induction ts as [|t ts IH]; intros neg nons ttl st E B; cbn [missing_targets] in E; [by reply_inv E|].
  destruct (t =? 0); [by eapply IH|].
  unfold or_bogus at 1 in E. destruct (extract_name _ _ _ _ _ _ _) as [[[ret p1] name]| | |]; [|by reply_inv E|done|done].
  apply bind_inv in E as (nb & En & E). apply put_name_keeps in En; [|by apply rstate_name]. apply bind_inv in E as ([[x nb2] f] & Ep & E).
  apply prove_keeps in Ep; [|done]. cbv zeta in E. set (st1 := set_nsecs f _) in E. assert (rstate_ok st1) as B1.
  { unfold rstate_ok, st1. rewrite set_nsecs_v. apply rstate_ok_intro; cbn; eauto with keeps. }
  destruct x as [nons'|]; [by eapply IH|]. destruct (qtype =? T_DS); [by reply_inv E|]. apply bind_inv in E as (nm & _ & E).
  apply bind_inv in E as ([[rc c] k] & Ez & E). apply zone_status_keeps in Ez; [|by apply rstate_keyname].
  reply_inv E; apply rstate_ok_intro; cbn; eauto with keeps.
Qed.

Lemma validate_reply_keeps for_ds cu st y st' :
  dnssec_validate_reply alloc N mem mix_tab pool buf plen now curtime for_ds cu st = Ok (y, st') → rstate_ok st → rstate_ok st'.
Proof.
  unfold dnssec_validate_reply. intros E B. apply bind_inv in E as ([r st1] & E & [= _ <-]). unfold validate_body in E.
  apply bind_inv in E as (rcode & _ & E). apply bind_inv in E as (qd & _ & E). apply bind_inv in E as (an & _ & E). apply bind_inv in E as (ns & _ & E).
  cbv zeta in E. do 3 (dif E; [by reply_inv E|]).
  unfold or_bogus at 1 in E. destruct (add_entry _ _ _ _) as [targets| | |]; [|by reply_inv E|done|done].
  unfold or_bogus at 1 in E. destruct (extract_name _ _ _ _ _ _ _) as [[[ret p1] name]| | |]; [|by reply_inv E|done|done].
  apply bind_inv in E as (nb & En & E). apply put_name_keeps in En; [|by apply rstate_name].
  apply bind_inv in E as ([qtype p2] & _ & E). apply bind_inv in E as ([qclass ans] & _ & E).
  match type of E with context [set_v ?v ?s] => set (st2 := set_v v s) in E end.
  assert (rstate_ok st2) as B2 by (apply rstate_ok_intro; cbn; eauto with keeps). destruct (qtype =? T_RRSIG); [by reply_inv E|].
  unfold or_bogus at 1 in E.
  match type of E with match ?m with _ => _ end = _ => destruct m as [[ts ti]| | |]; [|by reply_inv E|done|done] end.
  unfold then_go in E. apply bind_inv in E as ([x st3] & E3 & E). apply validate_records_keeps in E3; [|exact B2].
  destruct x as [e|secure]; [by injection E as <- <-|]. apply bind_inv in E as ([x st4] & E4 & E). apply missing_targets_keeps in E4; [|done].
  destruct x as [e|[[neg nons] ttl]]; by injection E as <- <-.
Qed.
End reply.

(** * Keys *)

Definition kstate_ok (k : kstate) : Prop := buffers_ok (d_v k).

Section keys.
Context (alloc : Z → bool) (malloc : gmap Z Z → Z → Z) (N : nettle) (mem : bool) (mix_tab : Z → Z) (buf : list Z) (plen now curtime class : Z).
Context (max_cache_ttl min_cache_ttl : Z).

Lemma settle_keeps k k' : settle k = Ok k' → kstate_ok k → kstate_ok k'.
Proof. unfold settle. intros E B. by rinv E. Qed.
Lemma set_dname_keeps b k : buff_ok b → kstate_ok k → kstate_ok (set_dname b k).
Proof. by intros Hb (? & ? & ?). Qed.
#[local] Hint Resolve settle_keeps set_dname_keeps : keeps.

Ltac keys_inv E := unfold or_stop in E; unfold stopk in E; cbv zeta in E; rinv E.

Lemma try_ds_keeps key algo tag psave rdlen r ff k v ff' k' :
  try_ds alloc N mem mix_tab buf plen now curtime class key algo tag psave rdlen r ff k = Ok (v, ff', k') → kstate_ok k → kstate_ok k'.
Proof.
  unfold try_ds. intros E B. destruct (addr r) as [| | | | |keydata keylen digest da dt|]; try by rinv E. dif E; [by rinv E|]. cbv zeta in E.
  destruct (hash_find N (ds_digest_name digest)) as [h|]; [|by rinv E]. dif E; [by rinv E|].
  apply bind_inv in E as ([n1 wl] & E1 & E). apply bind_inv in E as (owner & _ & E). apply bind_inv in E as (data & _ & E).
  apply bind_inv in E as (n2 & E2 & E). apply bind_inv in E as (dd & _ & E). destruct B as (Bn & Bk & Bw).
  assert (buff_ok n2) as B2 by eauto with keeps. assert (kstate_ok (set_dname n2 k)) as B3 by by split_and!. dif E; [by rinv E|].
  apply bind_inv in E as (s & _ & E). apply bind_inv in E as (x & Ex & E). destruct x as [x|]; [|by rinv E]. apply catch_Some, explore_rrset_keeps in Ex; [|done].
  match type of E with context [KState ?a ?b] => set (k1 := KState a b) in E end. assert (kstate_ok k1) as B4 by by split_and!. dif E; [by rinv E|].
  apply bind_inv in E as ([[r1 l] v1] & Ev & E). apply validate_rrset_keeps in Ev; [|exact B4]. by injection E as <- <- <-.
Qed.

Lemma try_all_ds_keeps fuel id key algo tag psave rdlen ff k v ff' k' :
  try_all_ds alloc N mem mix_tab buf plen now curtime class fuel id key algo tag psave rdlen ff k = Ok (v, ff', k') → kstate_ok k → kstate_ok k'.
Proof.
  revert id ff k. induction fuel as [|fuel IH]; intros id ff k E B; cbn [try_all_ds] in E; [done|].
  apply bind_inv in E as ([[v1 f1] k1] & E1 & E). apply try_ds_keeps in E1; [|done]. destruct v1; [by injection E as <- <- <-|].
  apply bind_inv in E as (s & _ & E). apply bind_inv in E as ([c next] & _ & E). destruct next; [by eapply IH|by injection E as <- <- <-].
Qed.

Lemma try_key_keeps crecp psave rdlen ff k r k' :
  try_key alloc malloc N mem mix_tab buf plen now curtime class crecp psave rdlen ff k = Ok (r, k') → kstate_ok k → kstate_ok k'.
Proof.
  unfold try_key, stopk. intros E B. cbv zeta in E. apply bind_inv in E as ([flags p] & _ & E). apply bind_inv in E as (proto & _ & E). dif E; [by rinv E|].
  apply bind_inv in E as (algo & _ & E). apply bind_inv in E as (tag & _ & E). dif E; [by rinv E|].
  apply bind_inv in E as (bytes & _ & E). apply bind_inv in E as ([key d] & _ & E). dif E; [by rinv E|].
  apply bind_inv in E as ([[v1 f1] k1] & E1 & E). apply try_all_ds_keeps in E1; [|done]. apply bind_inv in E as (d2 & _ & E). by injection E as <- <-.
Qed.

Lemma find_key_keeps n crecp p ff k r k' :
  find_key alloc malloc N mem mix_tab buf plen now curtime class n crecp p ff k = Ok (r, k') → kstate_ok k → kstate_ok k'.
Proof.
  revert p ff k. induction n as [|n IH]; intros p ff k E B; cbn [find_key] in E; [by rinv E|]. unfold or_stop, stopk in E.
  apply bind_inv in E as (name & _ & E). match type of E with match ?m with _ => _ end = _ => destruct m as [a| | |]; [|by rinv E|done|done] end.
  apply bind_inv in E as ([x k1] & E1 & E). assert (kstate_ok k1) as B1 by (dif E1; [by rinv E1|by eapply try_key_keeps]).
  destruct x as [s|[[ttl|] f1]]; [by rinv E|by rinv E|by eapply IH].
Qed.

Lemma insert_rr_keeps name a key ttl fl k r k' :
  insert_rr mem mix_tab now class max_cache_ttl min_cache_ttl name a key ttl fl k = Ok (r, k') → kstate_ok k → kstate_ok k'.
Proof.
  unfold insert_rr, stopk. intros E B. apply bind_inv in E as ([c new] & _ & E). apply bind_inv in E as (k1 & E1 & E).
  apply settle_keeps in E1; [|done]. by rinv E.
Qed.

Lemma insert_key_keeps name ttl psave rdlen k r k' :
  insert_key malloc mem mix_tab buf now class max_cache_ttl min_cache_ttl name ttl psave rdlen k = Ok (r, k') → kstate_ok k → kstate_ok k'.
Proof. unfold insert_key, stopk. intros E B. cbv zeta in E. rinv E; try done. by eapply insert_rr_keeps. Qed.

Lemma insert_ds_keeps name ttl psave rdlen k r k' :
  insert_ds malloc mem mix_tab buf now class max_cache_ttl min_cache_ttl name ttl psave rdlen k = Ok (r, k') → kstate_ok k → kstate_ok k'.
Proof. unfold insert_ds, stopk. intros E B. cbv zeta in E. rinv E; try done. by eapply insert_rr_keeps. Qed.

Lemma insert_keys_keeps n ttl p k r k' :
  insert_keys malloc mem mix_tab buf plen now class max_cache_ttl min_cache_ttl n ttl p k = Ok (r, k') → kstate_ok k → kstate_ok k'.
Proof.
  revert p k. induction n as [|n IH]; intros p k E B; cbn [insert_keys] in E; [by rinv E|]. unfold or_stop, stopk in E.
  apply bind_inv in E as (name & _ & E). match type of E with match ?m with _ => _ end = _ => destruct m as [a| | |]; [|by rinv E|done|done] end.
  cbv zeta in E. apply bind_inv in E as ([x k1] & E1 & E). assert (kstate_ok k1) as B1 by (dif E1; [by eapply insert_key_keeps|by rinv E1]).
  destruct x; [by rinv E|by eapply IH].
Qed.

Lemma insert_all_ds_keeps n p k r k' :
  insert_all_ds malloc mem mix_tab buf plen now class max_cache_ttl min_cache_ttl n p k = Ok (r, k') → kstate_ok k → kstate_ok k'.
Proof.
  revert p k. induction n as [|n IH]; intros p k E B; cbn [insert_all_ds] in E; [by rinv E|]. unfold or_stop, stopk in E.
  apply bind_inv in E as (name & _ & E). match type of E with match ?m with _ => _ end = _ => destruct m as [a| | |]; [|by rinv E|done|done] end.
  apply bind_inv in E as ([x k1] & E1 & E). assert (kstate_ok k1) as B1 by (dif E1; [by eapply insert_ds_keeps|by rinv E1]).
  destruct x; [by rinv E|by eapply IH].
Qed.

Lemma accept_keys_keeps an ttl k r k' :
  accept_keys malloc mem mix_tab buf plen now class max_cache_ttl min_cache_ttl an ttl k = Ok (r, k') → kstate_ok k → kstate_ok k'.
Proof.
  unfold accept_keys, stopk. intros E B. apply bind_inv in E as (c & _ & E). apply bind_inv in E as (k1 & E1 & E). apply settle_keeps in E1; [|done].
  apply bind_inv in E as (p & _ & E). apply bind_inv in E as ([x k2] & E2 & E). apply insert_keys_keeps in E2; [|done]. destruct x; [by rinv E|].
  apply bind_inv in E as (c2 & _ & E). apply bind_inv in E as (k3 & E3 & E). apply settle_keeps in E3; [|done]. by rinv E.
Qed.

Lemma by_ds_keeps k s k' :
  dnssec_validate_by_ds alloc malloc N mem mix_tab buf plen now curtime class max_cache_ttl min_cache_ttl k = Ok (s, k') → kstate_ok k → kstate_ok k'.
Proof.
  unfold dnssec_validate_by_ds. intros E B. apply bind_inv in E as ([r k1] & E & [= _ <-]). unfold by_ds_body, or_stop, stopk in E.
  apply bind_inv in E as (rcode & _ & E). apply bind_inv in E as (qd & _ & E). apply bind_inv in E as (an & _ & E). dif E; [by rinv E|].
  destruct (extract_name _ _ _ _ _ _ _) as [[[ret p1] name]| | |]; [|by rinv E|done|done]. apply bind_inv in E as (nb & En & E). cbv zeta in E.
  assert (kstate_ok (set_dname nb k)) as B1 by (destruct B as (? & ? & ?); apply set_dname_keeps; [eauto with keeps|done]).
  apply bind_inv in E as ([qtype p2] & _ & E). apply bind_inv in E as ([qclass p3] & _ & E). dif E; [by rinv E|].
  apply bind_inv in E as ([c crecp] & _ & E). apply bind_inv in E as (k2 & E2 & E). apply settle_keeps in E2; [|exact B1]. destruct crecp as [id|].
  - apply bind_inv in E as ([x k3] & E3 & E). apply find_key_keeps in E3; [|done].
    destruct x as [st|[[ttl|] ff]]; [by rinv E|by eapply accept_keys_keeps|by rinv E].
  - apply bind_inv in E as (kb & Ek & E). destruct E2 as (? & ? & ?). rinv E. split_and!; cbn; eauto with keeps.
Qed.

Lemma insert_no_ds_keeps name rcode ttl nons k r k' :
  insert_no_ds mem mix_tab now class max_cache_ttl min_cache_ttl name rcode ttl nons k = Ok (r, k') → kstate_ok k → kstate_ok k'.
Proof.
  unfold insert_no_ds, stopk. intros E B. apply bind_inv in E as ([c new] & _ & E). apply bind_inv in E as (k1 & E1 & E).
  apply settle_keeps in E1; [|done]. by rinv E.
Qed.

Lemma validate_ds_keeps k s k' :
  dnssec_validate_ds alloc malloc N mem mix_tab buf plen now curtime class max_cache_ttl min_cache_ttl k = Ok (s, k') → kstate_ok k → kstate_ok k'.
Proof.
  unfold dnssec_validate_ds. intros E B. apply bind_inv in E as ([r k1] & E & [= _ <-]). unfold ds_body, or_stop, stopk in E.
  apply bind_inv in E as (qd & _ & E). apply bind_inv in E as (an & _ & E).
  match type of E with match ?m with _ => _ end = _ => destruct m as [p| | |]; [|by rinv E|done|done] end.
  apply bind_inv in E as ([qtype p2] & _ & E). apply bind_inv in E as ([qclass p3] & _ & E). apply bind_inv in E as ([y st] & Ey & E).
  assert (rstate_ok st) as B1 by (dif Ey; [by rinv Ey|by eapply validate_reply_keeps]).
  apply bind_inv in E as (k2 & E2 & E). apply settle_keeps in E2; [|exact B1]. dif E; [by rinv E|].
  destruct (extract_name _ _ _ _ _ _ _) as [[[ret p4] name]| | |]; [|by rinv E|done|done]. apply bind_inv in E as (nb & En & E). cbv zeta in E.
  assert (kstate_ok (set_dname nb k2)) as B2 by (destruct E2 as (? & ? & ?); apply set_dname_keeps; [eauto with keeps|done]).
  apply bind_inv in E as (kn & _ & E). dif E; [by rinv E|]. dif E; [by rinv E|]. apply bind_inv in E as (rcode & _ & E).
  apply bind_inv in E as (c & _ & E). apply bind_inv in E as (k3 & E3 & E). apply settle_keeps in E3; [|exact B2].
  apply bind_inv in E as ([x k4] & E4 & E). assert (kstate_ok k4) as B4 by (dif E4; [by eapply insert_all_ds_keeps|by eapply insert_no_ds_keeps]).
  destruct x; [by rinv E|]. apply bind_inv in E as (c2 & _ & E). apply bind_inv in E as (k5 & E5 & E). apply settle_keeps in E5; [|done]. by rinv E.
Qed.
End keys.

(** * Sequences of replies *)

(** What is done with a packet that arrives: validation of an answer, of keys, of DS records. *)
Inductive vop := VReply (check_unsigned : bool) | VKeys | VDs.

(** A packet, the length of the message in it, the class of the query, the time of the daemon and the time of day. *)
Record arrival := Arrival { ar_op : vop; ar_buf : list Z; ar_plen : Z; ar_class : Z; ar_now : Z; ar_curtime : Z }.

Section run.
Context (alloc : Z → bool) (malloc : gmap Z Z → Z → Z) (N : nettle) (mem : bool) (mix_tab : Z → Z) (max_cache_ttl min_cache_ttl : Z).

Definition arrive (a : arrival) (k : kstate) : res (Z * kstate) :=
  match ar_op a with
  | VReply cu =>
      '(y, st) ← dnssec_validate_reply alloc N mem mix_tab (d_pool k) (ar_buf a) (ar_plen a) (ar_now a) (ar_curtime a) false cu (d_reply k);
      k ← settle (KState st (d_pool k));
      Ok (y_status y, k)
  | VKeys => dnssec_validate_by_ds alloc malloc N mem mix_tab (ar_buf a) (ar_plen a) (ar_now a) (ar_curtime a) (ar_class a) max_cache_ttl min_cache_ttl k
  | VDs => dnssec_validate_ds alloc malloc N mem mix_tab (ar_buf a) (ar_plen a) (ar_now a) (ar_curtime a) (ar_class a) max_cache_ttl min_cache_ttl k
  end.

Fixpoint arrive_all (l : list arrival) (k : kstate) : res (list Z * kstate) :=
  match l with
  | [] => Ok ([], k)
  | a :: l => '(s, k) ← arrive a k; '(ss, k) ← arrive_all l k; Ok (s :: ss, k)
  end.

Lemma arrive_keeps a k s k' : arrive a k = Ok (s, k') → kstate_ok k → kstate_ok k'.
Proof.
  unfold arrive. intros E B. destruct (ar_op a); [|by eapply by_ds_keeps|by eapply validate_ds_keeps].
  apply bind_inv in E as ([y st] & E1 & E). apply bind_inv in E as (k1 & E2 & E). apply validate_reply_keeps in E1; [|exact B].
  apply settle_keeps in E2; [|exact E1]. by injection E as <- <-.
Qed.
End run.

(** A reply with a record of type A for the name a, and a signature by the root with algorithm 15. *)
Definition reply_packet : list Z := [0; 1; 129; 128; 0; 1; 0; 2; 0; 0; 0; 0] ++ [1; 97; 0; 0; 1; 0; 1] ++
  [1; 97; 0; 0; 1; 0; 1; 0; 0; 0; 9; 0; 4; 10; 0; 0; 1] ++
  [1; 97; 0; 0; 46; 0; 1; 0; 0; 0; 9; 0; 83; 0; 1; 15; 1; 0; 0; 0; 9; 0; 0; 0; 200; 0; 0; 0; 50; 0; 77; 0] ++ repeat 7 64.
(** The key of the root and its DS record. *)
Definition trust_cache : cache :=
  Cache {[1 := Crec (Z.lor (Z.lor F_FORWARD F_DNSKEY) F_IMMORTAL) 0 1 (A_key 1 32 15 77 256) [] None;
          2 := Crec (Z.lor (Z.lor F_FORWARD F_DS) F_IMMORTAL) 0 1 (A_ds 1 32 2 15 77) [] None]} [1; 2] [[1; 2]] [] false 0 0 0 [] 0 0.
Definition trust_state : rstate :=
  RState (VState trust_cache (Clock false 0 false false 0) (repeat 0 2050) (repeat 0 2050) (repeat 0 2050)) [] [] [] [] [] [].

(** Below an anchor at the root, a name of one byte has no place two bytes before its end: the search for the label goes to before the name. *)
Example one_letter_name : zone_status (λ _, 0) 100 1 [97] (repeat 0 2050) trust_cache = Oob.
Proof. vm_compute. reflexivity. Qed.
Example two_letter_name : ∃ c k, zone_status (λ _, 0) 100 1 [97; 97] (repeat 0 2050) trust_cache = Ok (STAT_NEED_DS, c, k).
Proof. eexists _, _. vm_compute. reflexivity. Qed.


(** A run in which an answer is secure; it is none to a query for keys. *)
Definition sample_run : res (list Z * kstate) :=
  arrive_all (λ _, true) (λ _ _, 0) toy_nettle true (λ _, 0) 0 0
    [Arrival (VReply true) reply_packet 132 1 100 100; Arrival VKeys reply_packet 132 1 100 100; Arrival (VReply true) reply_packet 132 1 100 100]
    (KState trust_state toy_pool).

Lemma run_statuses (m : res (list Z * kstate)) ss : match m with Ok (ss', _) => bool_decide (ss' = ss) | _ => false end = true → ∃ k', m = Ok (ss, k').
Proof. destruct m as [[ss' k']| | |]; try done. intros ->%bool_decide_eq_true. eauto. Qed.

Lemma sample_statuses : ∃ k', sample_run = Ok ([STAT_SECURE; Z.lor STAT_BOGUS DNSSEC_FAIL_NOKEY; STAT_SECURE], k').
Proof. apply run_statuses. vm_compute. reflexivity. Qed.

