(* ===== verification/DnssecExplore.v ===== *)
(** The comparison of a name in a packet with a name that was extracted, with escapes: it finds the names equal up to case when they are, and
    only then when no label in the packet has a dot. The records of a reply, and the set of those with one name, type and class that
    [explore_rrset] collects. *)
From S2P Require Import Prelude Hostname Wire WireSafe WireSpec RRFilter WireExt Cache Blockdata Crypto.
From S2P Require Import DnssecName DnssecNameSpec DnssecSort DnssecSorted DnssecValidate DnssecKeeps DnssecSound.

Lemma lower_id c : c < 65 → lower c = c.
Proof. unfold lower. case_match; bool_hyps; lia. Qed.
Lemma lower_low c : lower c < 65 → lower c = c.
Proof. unfold lower. case_match; bool_hyps; lia. Qed.

Section compare.
Context (buf : list Z) (plen extra : Z) (Hbuf : Forall is_byte buf) (Hplen : 0 ≤ plen ≤ zlen buf).

(** * A label *)

Lemma compare_label_two d n p cp p' cp' r : compare_label d buf n p cp 2 = Ok (p', cp', r) → r = 2.
Proof.
  revert p cp. induction n as [|n IH]; intros p cp E; cbn [compare_label] in E; [by injection E|].
  apply bind_inv in E as (c & _ & E). repeat case_match; eauto; done.
Qed.

Lemma compare_label_end d n p cp ret p' cp' r : compare_label d buf n p cp ret = Ok (p', cp', r) → p' = p + Z.of_nat n.
Proof.
  revert p cp ret. induction n as [|n IH]; intros p cp ret E; cbn [compare_label] in E; [injection E; lia|].
  apply bind_inv in E as (x & _ & E). repeat case_match; try done; apply IH in E; lia.
Qed.

Lemma compare_label_sound n k t rest p ret p' cp' r :
  Forall is_byte k → enc_label true k = Some t → ends_label rest → (dot ∉ slice buf p n) → 0 ≤ p → p + Z.of_nat n ≤ zlen buf →
  compare_label true buf n p (t ++ rest) ret = Ok (p', cp', r) →
  p' = p + Z.of_nat n ∧ (r = 1 → ret = 1 ∧ (n ≤ length k)%nat ∧ lowered (take n k) = lowered (slice buf p n) ∧
    ∃ t', enc_label true (drop n k) = Some t' ∧ cp' = t' ++ rest).
Proof.
  revert k t p ret. induction n as [|n IH]; intros k t p ret Hk Et He Hd Hp Hn E; cbn [compare_label] in E.
  { injection E as <- <- <-. split; [lia|]. intros ->. split_and!; [done|lia|done|]. by exists t. }
  destruct (rd_in buf p) as (c2 & Hc & _); [lia|]. rewrite (slice_S _ _ _ c2) in Hd |- * by done. rewrite Hc in E. cbn [mbind res_bind] in E.
  apply not_elem_of_cons in Hd as [Hd2 Hd]. destruct k as [|c k].
  - injection Et as <-. cbn [app] in E. destruct He as [->|[rr ->]]; cbn [deref tail] in E.
    + rewrite Z.eqb_refl in E. destruct (IH [] [] (p + 1) 2) as [-> _]; try done; [by left|lia|lia|].
      apply compare_label_two in E as ->. split; [lia|done].
    + change (dot =? 0) with false in E. change (lower dot) with dot in E. change (dot =? NAME_ESCAPE) with false in E. cbn [andb] in E.
      rewrite (proj2 (Z.eqb_neq dot (lower c2))) in E.
      2: { intros El. apply Hd2. rewrite El. apply lower_low. rewrite <- El. unfold dot. lia. }
      pose proof (compare_label_end _ _ _ _ _ _ _ _ E) as ->. apply compare_label_two in E as ->. split; [lia|done].
  - apply Forall_cons in Hk as [Hcb Hk]. cbn [enc_label] in Et. destruct (enc_byte true c) as [tc|] eqn:Ec; [|done].
    destruct (enc_label true k) as [u|] eqn:Eu; [|done]. injection Et as <-. cbn [take drop]. rewrite <- app_assoc in E.
    destruct (enc_byte_cases c tc Hcb Ec) as [[-> Hs]|[-> Hs]]; cbn [app deref tail] in E.
    + change (NAME_ESCAPE =? 0) with false in E. change (lower NAME_ESCAPE) with NAME_ESCAPE in E. rewrite Z.eqb_refl in E. cbn [andb] in E.
      replace (c + 1 - 1) with c in E by lia. rewrite u8_id in E by done.
      destruct (IH k u (p + 1) (if c =? lower c2 then ret else 2)) as [-> Hr]; try done; try lia. split; [lia|]. intros ->.
      destruct (Hr eq_refl) as (H1 & H2 & H3 & H4). destruct (Z.eqb_spec c (lower c2)) as [El|]; [|done].
      split_and!; [done|simpl; lia| |done]. cbn [lowered fmap list_fmap]. f_equal; [|exact H3]. rewrite <- El. apply lower_id. unfold dot, NAME_ESCAPE in Hs. lia.
    + rewrite (proj2 (Z.eqb_neq c 0)) in E by tauto. assert (lower c ≠ NAME_ESCAPE) as Hne.
      { intros El. destruct Hs as (_ & _ & Hs). apply Hs. rewrite <- El. symmetry. apply lower_low. rewrite El. unfold NAME_ESCAPE. lia. }
      rewrite (proj2 (Z.eqb_neq (lower c) NAME_ESCAPE)) in E by done. cbn [andb] in E.
      destruct (IH k u (p + 1) (if lower c =? lower c2 then ret else 2)) as [-> Hr]; try done; try lia. split; [lia|]. intros ->.
      destruct (Hr eq_refl) as (H1 & H2 & H3 & H4). destruct (Z.eqb_spec (lower c) (lower c2)) as [El|]; [|done].
      split_and!; [done|simpl; lia| |done]. cbn [lowered fmap list_fmap]. f_equal; [done|exact H3].
Qed.

Lemma compare_label_complete k t rest p ret :
  Forall is_byte k → enc_label true k = Some t → 0 ≤ p → p + zlen k ≤ zlen buf → lowered k = lowered (slice buf p (length k)) →
  compare_label true buf (length k) p (t ++ rest) ret = Ok (p + zlen k, rest, ret).
Proof.
  revert t p. induction k as [|c k IH]; intros t p Hk Et Hp Hn El.
  { injection Et as <-. cbn [length compare_label app]. change (zlen (@nil Z)) with 0. by rewrite Z.add_0_r. }
  rewrite zlen_cons in *. pose proof (zlen_nonneg k). cbn [length compare_label]. destruct (rd_in buf p) as (c2 & Hc & _); [lia|].
  cbn [length] in El. rewrite (slice_S _ _ _ c2) in El by done. cbn [lowered fmap list_fmap] in El. injection El as El1 El.
  rewrite Hc. cbn [mbind res_bind]. apply Forall_cons in Hk as [Hcb Hk]. cbn [enc_label] in Et. destruct (enc_byte true c) as [tc|] eqn:Ec; [|done].
  destruct (enc_label true k) as [u|] eqn:Eu; [|done]. injection Et as <-. rewrite <- app_assoc.
  assert (compare_label true buf (length k) (p + 1) (u ++ rest) ret = Ok (p + (1 + zlen k), rest, ret)) as IH'.
  { rewrite (IH u (p + 1)) by (done || lia). do 3 f_equal. lia. }
  destruct (enc_byte_cases c tc Hcb Ec) as [[-> Hs]|[-> Hs]]; cbn [app deref tail].
  - change (NAME_ESCAPE =? 0) with false. change (lower NAME_ESCAPE) with NAME_ESCAPE. rewrite Z.eqb_refl. cbn [andb].
    replace (c + 1 - 1) with c by lia. rewrite u8_id by done. rewrite <- El1, lower_id by (unfold dot, NAME_ESCAPE in Hs; lia). by rewrite Z.eqb_refl.
  - rewrite (proj2 (Z.eqb_neq c 0)) by tauto. assert (lower c ≠ NAME_ESCAPE) as Hne.
    { intros Ex. destruct Hs as (_ & _ & Hs). apply Hs. rewrite <- Ex. symmetry. apply lower_low. rewrite Ex. unfold NAME_ESCAPE. lia. }
    rewrite (proj2 (Z.eqb_neq (lower c) NAME_ESCAPE)) by done. cbn [andb]. rewrite El1, Z.eqb_refl. done.
Qed.

(** * A name *)

Lemma extract_text_two st l st' : en_ret st = 2 → extract_text true buf plen false st l = Ok st' → en_ret st' = 2.
Proof.
  unfold extract_text. intros Hr E. apply guard_inv in E as [_ E]. apply guard_inv in E as [_ E]. apply bind_inv in E as ([[p cp] r] & Ec & E).
  rewrite Hr in Ec. apply compare_label_two in Ec as ->. destruct cp as [|c cp]; injection E as <-; [done|]. cbn. by case_match.
Qed.

Lemma compare_label_ret n p cp ret p' cp' r : compare_label true buf n p cp ret = Ok (p', cp', r) → r = ret ∨ r = 2.
Proof.
  revert p cp ret. induction n as [|n IH]; intros p cp ret E; cbn [compare_label] in E; [injection E; auto|].
  apply bind_inv in E as (c & _ & E). repeat case_match; try done; apply IH in E; tauto.
Qed.

Lemma extract_text_ret st l st' : extract_text true buf plen false st l = Ok st' → en_ret st' = en_ret st ∨ en_ret st' = 2.
Proof.
  unfold extract_text. intros E. apply guard_inv in E as [_ E]. apply guard_inv in E as [_ E]. apply bind_inv in E as ([[p cp] r] & Ec & E).
  apply compare_label_ret in Ec. destruct cp as [|c cp]; injection E as <-; [done|]. cbn. case_match; auto.
Qed.

Lemma compare_loop_two fuel st r q out : en_ret st = 2 → extract_loop true buf plen false extra fuel st = Ok (r, q, out) → r = 2.
Proof.
  revert st. induction fuel as [|fuel IH]; intros st Hr E; cbn [extract_loop] in E; [done|]. apply guard_inv in E as [_ E].
  apply bind_inv in E as (l & _ & E). cbv zeta in E. destruct (l =? 0).
  { unfold extract_end in E. apply guard_inv in E as [_ E]. injection E as <- _ _. cbn [en_advance en_ret]. rewrite Hr. by case_match. }
  destruct (Z.land l 192 =? 192); [|destruct (Z.land l 192 =? 0); [|done]]; apply bind_inv in E as (st' & Es & E); eapply IH; try exact E.
  - unfold extract_jump in Es. apply guard_inv in Es as [_ Es]. apply bind_inv in Es as (b & _ & Es). apply guard_inv in Es as [_ Es]. by injection Es as <-.
  - eapply extract_text_two; [|exact Es]. exact Hr.
Qed.

(** A label of the packet with what is left of the name, when they are found equal. *)
Lemma compare_text_sound K t st l st' :
  Forall good_label K → join true K = Some t → en_cp st = t → 1 ≤ l → 0 ≤ en_p st → (dot ∉ slice buf (en_p st) (Z.to_nat l)) →
  extract_text true buf plen false st l = Ok st' →
  en_p st' = en_p st + l ∧ en_p1 st' = en_p1 st ∧ (en_ret st' = 1 → en_ret st = 1 ∧
    ∃ k K', K = k :: K' ∧ lowered k = lowered (slice buf (en_p st) (Z.to_nat l)) ∧ join true K' = Some (en_cp st')).
Proof.
  intros HK Ej Hcp Hl Hp Hd E. unfold extract_text in E. apply guard_inv in E as [_ E]. apply guard_inv in E as [Hlen E].
  unfold CHECK_LEN in Hlen. apply Z.leb_le in Hlen. apply bind_inv in E as ([[p cp] r] & Ec & E). rewrite Hcp in Ec.
  assert (∃ k tk rest, Forall is_byte k ∧ enc_label true k = Some tk ∧ t = tk ++ rest ∧ ends_label rest ∧
    (k ≠ [] → ∃ K', K = k :: K' ∧ join true K' = Some (tail rest))) as (k & tk & rest & Hkb & Etk & -> & He & HK').
  { destruct K as [|k K]; [injection Ej as <-; exists [], [], []; split_and!; try done; by left|].
    apply join_cons in Ej as (tk & rest & Etk & -> & He & Hr & _). apply Forall_cons in HK as [[_ Hk] _]. exists k, tk, rest. split_and!; try done. by exists K. }
  apply compare_label_sound with (k := k) in Ec as [-> Hr]; try done; try lia.
  rewrite Z2Nat.id in * by lia. split; [destruct cp; by injection E as <-|]. split; [destruct cp; by injection E as <-|]. intros Hr1.
  assert (r = 1) as -> by (destruct cp as [|c cp]; injection E as <-; cbn in Hr1; [done|by case_match]).
  destruct (Hr eq_refl) as (Hret & Hn & Hlow & t' & Et' & ->). split; [done|].
  destruct HK' as (K' & -> & Hj'); [intros ->; simpl in Hn; lia|]. exists k, K'. split; [done|].
  destruct (drop (Z.to_nat l) k) as [|c0 k0] eqn:Ed.
  - injection Et' as <-. rewrite take_ge in Hlow by (apply (f_equal length) in Ed; rewrite length_drop in Ed; simpl in Ed; lia). split; [done|].
    destruct He as [->|[rr ->]]; cbn [app tail] in *; by injection E as <-.
  - exfalso. assert (Forall is_byte (c0 :: k0)) as Hb by (rewrite <- Ed; by apply Forall_drop). pose proof (enc_no_dot _ _ Hb Et') as Hnd.
    pose proof (enc_label_length _ _ _ Et') as Hlt. destruct t' as [|x t']; [simpl in Hlt; lia|]. apply Forall_cons in Hnd as [[Hx _] _].
    cbn [app] in E. injection E as <-. cbn in Hr1. by rewrite (proj2 (Z.eqb_neq x dot)) in Hr1 by done.
Qed.

Definition dotless (L : list (list Z)) : Prop := Forall (λ l, dot ∉ l) L.

Lemma compare_loop_sound p L e h : name_at buf plen p L e h → ∀ fuel K t p1 nl hops q out,
  0 ≤ p → dotless L → Forall good_label K → join true K = Some t →
  extract_loop true buf plen false extra fuel (EName p p1 t nl hops 1) = Ok (1, q, out) →
  lowered <$> L = lowered <$> K ∧ q = default e p1.
Proof.
  induction 1 as [p Hp1 Hr|p l L e h Hp1 Hr Hl Hp2 H IH|p l b L e h Hp1 Hr Hl Hb1 H IH]; intros [|fuel] K t p1 nl hops q out Hp Hd HK Ej E; try done;
    cbn [extract_loop en_p] in E; apply guard_inv in E as [_ E]; rewrite Hr in E; cbn [mbind res_bind en_advance en_p en_p1 en_cp en_namelen en_hops en_ret] in E.
  - change (0 =? 0) with true in E. cbn iota in E. unfold extract_end in E. cbn [en_p en_p1 en_cp en_ret] in E. apply guard_inv in E as [_ E].
    injection E as E <- _. split; [|done]. destruct (deref t =? 0) eqn:Et; [|done]. pose proof (text_rest_wf K t HK Ej) as Hw.
    destruct t as [|c t]; [|apply Forall_cons in Hw as [Hc _]; cbn [deref] in Et; lia].
    destruct K as [|k K]; [done|]. apply join_cons in Ej as (tk & rest & Etk & Ex & _). apply Forall_cons in HK as [[Hz _] _].
    apply enc_label_length in Etk. destruct tk; [unfold zlen in Hz; simpl in Etk; lia|done].
  - rewrite (proj2 (Z.eqb_neq l 0)) in E by lia. rewrite (label_type l Hl) in E. change (0 =? 192) with false in E. change (0 =? 0) with true in E. cbn iota in E.
    apply Forall_cons in Hd as [Hd1 Hd]. apply bind_inv in E as (st' & Es & E). pose proof Es as Es0.
    apply (compare_text_sound K t) in Es as (Ep & Ep1 & Hs); try done; try (cbn; lia). cbn [en_p en_p1 en_ret] in *.
    destruct st' as [p' p1' cp' nl' h' r']. cbn [en_p en_p1 en_ret en_cp] in *. subst p' p1'.
    destruct (Z.eq_dec r' 1) as [->|Hne].
    + destruct (Hs eq_refl) as (_ & k & K' & -> & Hlow & Hj). apply Forall_cons in HK as [_ HK].
      destruct (IH fuel K' cp' p1 nl' h' q out) as [Ha ->]; try done; [lia|]. split; [|done]. rewrite !fmap_cons, Ha. by rewrite Hlow.
    + exfalso. pose proof (extract_text_ret _ _ _ Es0) as [Hr1|Hr2]; cbn in *; [done|]. subst r'. by apply compare_loop_two in E.
  - destruct (Z.eqb_spec l 0) as [->|]; [done|]. rewrite Hl in E. change (192 =? 192) with true in E. cbn iota in E.
    apply bind_inv in E as (st' & Es & E). unfold extract_jump in Es. cbn [en_advance en_p en_p1 en_cp en_namelen en_hops en_ret] in Es.
    apply guard_inv in Es as [_ Es]. rewrite Hb1 in Es. cbn [mbind res_bind] in Es. apply guard_inv in Es as [_ Es]. injection Es as <-.
    apply (IH fuel K t) in E as [Ha ->]; try done; [|by eapply jump_target]. split; [done|]. destruct p1; [done|]. cbn. lia.
Qed.

Lemma compare_loop_complete p L e h : name_at buf plen p L e h → ∀ fuel K t p1 nl hops,
  0 ≤ p → Forall good_label K → join true K = Some t → lowered <$> L = lowered <$> K → (length L + h < fuel)%nat → hops + Z.of_nat h ≤ 255 →
  nl + wire_len L < MAXDNAME → default e p1 + extra ≤ plen →
  ∃ out, extract_loop true buf plen false extra fuel (EName p p1 t nl hops 1) = Ok (1, default e p1, out).
Proof.
  induction 1 as [p Hp1 Hr|p l L e h Hp1 Hr Hl Hp2 H IH|p l b L e h Hp1 Hr Hl Hb1 H IH]; intros [|fuel] K t p1 nl hops Hp HK Ej Hlow Hf Hh Hn Hx; try lia;
    cbn [extract_loop en_p]; unfold CHECK_LEN at 1; rewrite (proj2 (Z.leb_le (p + 1) plen)) by lia; cbn [guard_ok mbind res_bind]; rewrite Hr;
    cbn [mbind res_bind]; cbv zeta; cbn [en_advance en_p en_p1 en_cp en_namelen en_hops en_ret].
  - destruct K; [|done]. injection Ej as <-. change (0 =? 0) with true. cbn iota. unfold extract_end, CHECK_LEN. cbn [en_advance en_p en_p1 en_cp en_ret].
    rewrite (proj2 (Z.leb_le _ plen)) by done. cbn. eauto.
  - rewrite (proj2 (Z.eqb_neq l 0)) by lia. rewrite (label_type l Hl). change (0 =? 192) with false. change (0 =? 0) with true. cbn iota.
    destruct K as [|k K]; [done|]. rewrite !fmap_cons in Hlow. injection Hlow as Hlk Hlow. apply Forall_cons in HK as [[Hz Hkb] HK].
    apply join_cons in Ej as (tk & rest & Etk & -> & He & Hj & _).
    assert (length k = Z.to_nat l) as Hkl.
    { apply (f_equal length) in Hlk. unfold lowered in Hlk. rewrite !length_fmap, length_slice in Hlk by lia. done. }
    assert (zlen k = l) as Hkz by (unfold zlen; lia).
    rewrite wire_len_cons, zlen_slice in Hn by lia. pose proof (wire_len_nonneg L).
    unfold extract_text, CHECK_LEN. cbn [en_advance en_p en_p1 en_cp en_namelen en_hops en_ret].
    rewrite (proj2 (Z.leb_gt MAXDNAME (nl + l + 1))), (proj2 (Z.leb_le (p + 1 + l) plen)) by lia. cbn [negb guard_ok mbind res_bind].
    rewrite <- Hkl, (compare_label_complete k tk rest) by (done || lia || by rewrite Hkl). cbn [mbind res_bind]. rewrite Hkz.
    assert (∀ r, extract_loop true buf plen false extra fuel (EName (p + 1 + l) p1 (tail rest) (nl + l + 1) hops 1) = r →
      (match rest with
       | [] => Ok (EName (p + 1 + l) p1 [] (nl + l + 1) hops 1)
       | c :: cp => Ok (EName (p + 1 + l) p1 cp (nl + l + 1) hops (if c =? dot then 1 else 2))
       end ≫= extract_loop true buf plen false extra fuel) = r) as Hgo by (intros r <-; by destruct He as [->|[rr ->]]).
    simpl in Hf. destruct (IH fuel K (tail rest) p1 (nl + l + 1) hops) as [out Ho]; try done; try lia. exists out. by apply Hgo.
  - destruct (Z.eqb_spec l 0) as [->|]; [done|]. rewrite Hl. change (192 =? 192) with true. cbn iota. unfold extract_jump, CHECK_LEN.
    cbn [en_advance en_p en_p1 en_cp en_namelen en_hops en_ret]. rewrite (proj2 (Z.leb_le (p + 1 + 1) plen)) by lia. cbn [guard_ok mbind res_bind]. rewrite Hb1.
    cbn [mbind res_bind]. rewrite (proj2 (Z.ltb_ge 255 (hops + 1))) by lia. cbn [negb guard_ok mbind res_bind].
    replace (default (p + 2) p1) with (default e (match p1 with None => Some (p + 1 + 1) | Some q => Some q end)) in * by (destruct p1; cbn; lia).
    apply (IH fuel K t); try done; try lia. by eapply jump_target.
Qed.

(** Whatever the result, the place behind the name is found. *)
Lemma compare_loop_end p L e h : name_at buf plen p L e h → ∀ fuel t p1 nl hops ret r q out,
  extract_loop true buf plen false extra fuel (EName p p1 t nl hops ret) = Ok (r, q, out) → q = default e p1 ∧ q + extra ≤ plen.
Proof.
  induction 1 as [p Hp1 Hr|p l L e h Hp1 Hr Hl Hp2 H IH|p l b L e h Hp1 Hr Hl Hb1 H IH]; intros [|fuel] t p1 nl hops ret r q out E; try done;
    cbn [extract_loop en_p] in E; apply guard_inv in E as [_ E]; rewrite Hr in E; cbn [mbind res_bind] in E; cbv zeta in E.
  - change (0 =? 0) with true in E. cbn iota in E. unfold extract_end in E. apply guard_inv in E as [Hx E]. injection E as _ <- _.
    split; [done|]. by apply Z.leb_le.
  - rewrite (proj2 (Z.eqb_neq l 0)) in E by lia. rewrite (label_type l Hl) in E. change (0 =? 192) with false in E. change (0 =? 0) with true in E. cbn iota in E.
    apply bind_inv in E as (st' & Es & E). unfold extract_text in Es. cbn [en_advance en_p en_p1 en_cp en_namelen en_hops en_ret] in Es.
    apply guard_inv in Es as [_ Es]. apply guard_inv in Es as [_ Es]. apply bind_inv in Es as ([[p' cp'] r'] & Ec & Es).
    apply compare_label_end in Ec as ->. rewrite Z2Nat.id in Es by lia. destruct cp' as [|c cp']; injection Es as <-; by eapply IH.
  - destruct (Z.eqb_spec l 0) as [->|]; [done|]. rewrite Hl in E. change (192 =? 192) with true in E. cbn iota in E.
    apply bind_inv in E as (st' & Es & E). unfold extract_jump in Es. cbn [en_advance en_p en_p1 en_cp en_namelen en_hops en_ret] in Es.
    apply guard_inv in Es as [_ Es]. rewrite Hb1 in Es. cbn [mbind res_bind] in Es. apply guard_inv in Es as [_ Es]. injection Es as <-.
    apply IH in E as [-> ?]. split; [|done]. destruct p1; [done|]. cbn. lia.
Qed.

#[local] Opaque extract_fuel.

Lemma compare_end p L e h t r q out :
  name_at buf plen p L e h → extract_name true buf plen p t false extra = Ok (r, q, out) → q = e ∧ e + extra ≤ plen.
Proof.
  intros Hna E. unfold extract_name in E. apply bind_inv in E as ([[r1 q1] o] & E & [= -> -> _]).
  destruct (compare_loop_end p L e h Hna _ _ _ _ _ _ _ _ _ E) as [-> ?]. done.
Qed.

(** The comparison with a name that was extracted, for labels without dots. *)
Lemma compare_sound p L e h K t q out :
  name_at buf plen p L e h → 0 ≤ p → dotless L → Forall good_label K → join true K = Some t →
  extract_name true buf plen p t false extra = Ok (1, q, out) → lowered <$> L = lowered <$> K ∧ q = e.
Proof.
  intros Hna Hp Hd HK Ej E. unfold extract_name in E. apply bind_inv in E as ([[r q1] o] & E & [= -> -> _]).
  by apply (compare_loop_sound p L e h Hna extract_fuel K t None 0 0 q o).
Qed.

Lemma compare_complete p L e h K t :
  name_at buf plen p L e h → 0 ≤ p → Z.of_nat h ≤ 255 → wire_len L < MAXDNAME → e + extra ≤ plen → Forall good_label K → join true K = Some t →
  lowered <$> L = lowered <$> K → extract_name true buf plen p t false extra = Ok (1, e, t).
Proof.
  intros Hna Hp Hh Hw He HK Ej Hlow. unfold extract_name.
  destruct (compare_loop_complete p L e h Hna extract_fuel K t None 0 0) as [out ->]; try done.
  apply labels_fuel; [|done|done]. eapply name_at_nonempty; [apply Hplen|done|done|exact Hna].
Qed.
End compare.

(** A dot within a label of the packet is taken for the dot between two labels: the comparison finds a name of one label, a.b, equal to the name
    of the labels a and b, also when names are extracted with escapes. *)
Example dot_in_label_matches :
  extract_name true [3; 97; 46; 98; 0] 5 0 [97; 46; 98] false 0 = Ok (1, 5, [97; 46; 98]) ∧
  extract_name true [3; 97; 46; 98; 0] 5 0 [] true 0 = Ok (1, 5, [97; 1; 47; 98]).
Proof. split; vm_compute; reflexivity. Qed.

#[local] Opaque extract_name skip_name.

(** A number of two bytes in the packet. *)
Definition short_at (buf : list Z) (o : Z) : Z := match GETSHORT buf o with Ok (v, _) => v | _ => 0 end.

Section explore.
Context (buf : list Z) (plen : Z) (Hbuf : Forall is_byte buf) (Hplen : 0 ≤ plen ≤ zlen buf).
Context (info : Z → rr_info).

Definition rr_type (p : Z) : Z := short_at buf (i_type (info p)).
Definition rr_class (p : Z) : Z := short_at buf (i_type (info p) + 2).
Definition rr_end (p : Z) : Z := i_type (info p) + 10 + short_at buf (i_type (info p) + 8).
Definition rr_owner (p : Z) : list (list Z) := lowered <$> i_owner (info p).

(** A record as [info] describes it, with no dot in the labels of its owner. *)
Definition rr_ok (p : Z) : Prop :=
  ∃ desc, rrfilter_desc (rr_type p) = Ok desc ∧ rr_at buf plen desc p (info p) ∧ dotless (i_owner (info p)).

(** The records, one behind the other. *)
Inductive records : nat → Z → list Z → Prop :=
| records_nil p : records 0 p []
| records_cons n p l : rr_ok p → records n (rr_end p) l → records (S n) p (p :: l).

Definition same_set (type class : Z) (owner : list (list Z)) (q : Z) : Prop := rr_type q = type ∧ rr_class q = class ∧ rr_owner q = owner.
#[global] Instance same_set_dec type class owner q : Decision (same_set type class owner q).
Proof. unfold same_set. apply _. Defined.

Lemma GETSHORT_short o : 0 ≤ o → o + 2 ≤ zlen buf → GETSHORT buf o = Ok (short_at buf o, o + 2).
Proof. intros Ho1 Ho2. unfold short_at. destruct (GETSHORT_total buf o) as (x & y & _ & _ & _ & _ & E); [done|lia|lia|]. by rewrite E. Qed.

(** The fixed fields of a record. *)
Lemma rr_fields p : rr_ok p → ∃ h, name_at buf plen p (i_owner (info p)) (i_type (info p)) h ∧ Z.of_nat h ≤ 255 ∧ wire_len (i_owner (info p)) < MAXDNAME ∧
  0 ≤ p ∧ Forall good_label (i_owner (info p)) ∧ i_type (info p) + 10 ≤ rr_end p ≤ plen ∧ 0 ≤ i_type (info p) ∧
  GETSHORT buf (i_type (info p)) = Ok (rr_type p, i_type (info p) + 2) ∧
  GETSHORT buf (i_type (info p) + 2) = Ok (rr_class p, i_type (info p) + 4) ∧
  GETSHORT buf (i_type (info p) + 8) = Ok (rr_end p - (i_type (info p) + 10), i_type (info p) + 10).
Proof.
  intros (desc & Hd & (h & rdlen & Hna & Hh & Hw & Hp & Hg & Hr & Hl & F) & Hdl).
  destruct (name_at_good _ _ _ _ _ _ Hbuf (proj2 Hplen) Hp Hna) as [HL Hq]. exists h.
  assert (rr_end p = i_type (info p) + 10 + rdlen) as He by (unfold rr_end, short_at; by rewrite Hg).
  assert (∀ o, 0 ≤ o → o + 2 ≤ plen → GETSHORT buf o = Ok (short_at buf o, o + 2)) as Hs
    by (intros o Ho1 Ho2; apply GETSHORT_short; lia).
  split_and!; try done; try lia.
  - apply Hs; lia.
  - rewrite (Hs (i_type (info p) + 2)) by lia. unfold rr_class. do 2 f_equal. lia.
  - rewrite Hg, He. do 2 f_equal. lia.
Qed.

(** A name compared with the owner of a record. *)
Lemma compare_owner p K t extra r q out : rr_ok p → Forall good_label K → join true K = Some t → extra ≤ 10 →
  extract_name true buf plen p t false extra = Ok (r, q, out) →
  q = i_type (info p) ∧ (r = 1 ↔ rr_owner p = lowered <$> K).
Proof.
  intros Hok HK Ej Hx E. pose proof Hok as (desc & _ & _ & Hdl).
  destruct (rr_fields p Hok) as (h & Hna & Hh & Hw & Hp & HL & Hend & Hi & _).
  destruct (compare_end buf plen extra p _ _ h t r q out Hna E) as [-> He]. split; [done|]. split.
  - intros ->. by destruct (compare_sound buf plen extra Hbuf Hplen p _ _ h K t _ _ Hna Hp Hdl HK Ej E).
  - intros Ho. rewrite (compare_complete buf plen extra Hbuf Hplen p _ _ h K t Hna Hp Hh Hw He HK Ej Ho) in E. by injection E.
Qed.

Context (alloc : Z → bool).

Lemma add_entry_spec wk n v wk' : 0 ≤ n ≤ zlen wk → add_entry alloc wk n v = Ok wk' →
  take (Z.to_nat (n + 1)) wk' = take (Z.to_nat n) wk ++ [v] ∧ n + 1 ≤ zlen wk'.
Proof.
  unfold add_entry. intros Hn E. destruct (expand_workspace alloc wk n) as [w|] eqn:Ew; [|done].
  assert (zlen w > n ∧ take (Z.to_nat n) w = take (Z.to_nat n) wk) as [Hw Ht].
  { unfold expand_workspace in Ew. cbv zeta in Ew. destruct (Z.leb_spec (n + 1) (zlen wk)); [injection Ew as <-; split; [lia|done]|].
    destruct (100 <=? n); [done|]. destruct (alloc (n + 5)); [|done]. injection Ew as <-. unfold zlen in *.
    rewrite length_app, repeat_length. split; [lia|]. rewrite take_app. replace (Z.to_nat n - length wk)%nat with 0%nat by lia. by rewrite app_nil_r. }
  unfold set_rr in E. replace ((n <? 0) || (zlen w <=? n)) with false in E by lia. injection E as <-. split; [|rewrite zlen_insert; lia].
  unfold zlen in Hw. replace (Z.to_nat (n + 1)) with (S (Z.to_nat n)) by lia.
  rewrite (take_S_r _ _ v) by (apply list_lookup_insert_eq; lia). rewrite take_insert_ge by lia. by rewrite Ht.
Qed.

(** * The set *)

(** What is in use of the arrays. *)
Definition set_of (x : explored) : list Z := take (Z.to_nat (x_nrr x)) (x_rrset x).
Definition sigs_of (x : explored) : list Z := take (Z.to_nat (x_nsig x)) (x_sigs x).
Definition arrays_ok (x : explored) : Prop := 0 ≤ x_nrr x ≤ zlen (x_rrset x) ∧ 0 ≤ x_nsig x ≤ zlen (x_sigs x).

(** [s] is where the TTL of a record among [all] is, an RRSIG record of that owner and class for that type. *)
Definition sig_for (all : list Z) (type class : Z) (owner : list (list Z)) (s : Z) : Prop :=
  ∃ q, q ∈ all ∧ same_set T_RRSIG class owner q ∧ s = i_type (info q) + 4 ∧ short_at buf (i_type (info q) + 10) = type.

Lemma explore_sig_spec (P : Z → Prop) type name pdata p rdlen x x' : arrays_ok x → 0 ≤ p → p + 18 ≤ zlen buf ∨ rdlen < 18 →
  (short_at buf p = type → P pdata) → explore_sig alloc buf plen type name pdata p rdlen x = Ok x' →
  arrays_ok x' ∧ set_of x' = set_of x ∧ (Forall P (sigs_of x) → Forall P (sigs_of x')).
Proof.
  unfold explore_sig. intros [Ha Hb] Hp Hr HP E. apply guard_inv in E as [Hr1%negb_true_iff%Z.ltb_ge E]. rewrite GETSHORT_short in E by lia. cbn [mbind res_bind] in E. cbv zeta in E.
  apply bind_inv in E as (x1 & E1 & E). assert (arrays_ok x1 ∧ set_of x1 = set_of x ∧ sigs_of x1 = sigs_of x) as ([Ha1 Hb1] & Hs1 & Hg1) by (rinv E1; done).
  destruct (Z.eqb_spec (short_at buf p) type) as [Ht0|]; [|injection E as <-; by rewrite Hg1]. apply bind_inv in E as (sg & Es & E). injection E as <-.
  destruct (add_entry_spec _ _ _ _ Hb1 Es) as [Ht Hz]. split; [split; cbn; lia|]. split; [exact Hs1|].
  unfold sigs_of. cbn [x_sigs x_nsig]. rewrite Ht.
  intros Hf. apply Forall_app. split; [|constructor; [by apply HP|constructor]]. change (Forall P (sigs_of x1)). rewrite Hg1. exact Hf.
Qed.

Lemma explore_loop_spec all class type K name n p x x' l :
  records n p l → l ⊆ all → Forall good_label K → join true K = Some name → arrays_ok x →
  explore_loop alloc buf plen class type name n p x = Ok x' →
  arrays_ok x' ∧ set_of x' = set_of x ++ filter (same_set type class (lowered <$> K)) l ∧
  (Forall (sig_for all type class (lowered <$> K)) (sigs_of x) → Forall (sig_for all type class (lowered <$> K)) (sigs_of x')).
Proof.
  intros Hrs Hsub HK Ej. revert x. induction Hrs as [p|n p l Hok Hrs IH]; intros x Hx E; cbn [explore_loop] in E; [injection E as <-; by rewrite app_nil_r|].
  cbv zeta in E. apply bind_inv in E as ([[r q] o] & Er & E). destruct (compare_owner _ K name 10 r q o Hok HK Ej ltac:(lia) Er) as [-> Hsame].
  destruct (rr_fields p Hok) as (h & Hna & Hh & Hw & Hp & HL & Hend & Hi & Ht & Hc & Hd).
  rewrite Ht in E. cbn [mbind res_bind] in E. rewrite Hc in E. cbn [mbind res_bind] in E.
  replace (i_type (info p) + 4 + 4) with (i_type (info p) + 8) in E by lia. rewrite Hd in E. cbn [mbind res_bind] in E.
  apply guard_inv in E as [_ E]. apply bind_inv in E as (x1 & E1 & E). unfold ADD_RDLEN in E. apply bind_inv in E as (p2 & Ep & E).
  apply guard_inv in Ep as [_ Ep]. injection Ep as <-. replace (i_type (info p) + 10 + (rr_end p - (i_type (info p) + 10))) with (rr_end p) in E by lia.
  assert (arrays_ok x1 ∧ set_of x1 = set_of x ++ filter (same_set type class (lowered <$> K)) [p] ∧
    (Forall (sig_for all type class (lowered <$> K)) (sigs_of x) → Forall (sig_for all type class (lowered <$> K)) (sigs_of x1))) as (Hx1 & Hs1 & Hg1).
  { rewrite filter_cons, filter_nil. destruct ((r =? 1) && (rr_class p =? class)) eqn:Erc.
    - apply andb_true_iff in Erc as [Hr1%Z.eqb_eq Hcl%Z.eqb_eq]. apply bind_inv in E1 as (x2 & E2 & E1).
      assert (arrays_ok x2 ∧ set_of x2 = set_of x ++ (if decide (same_set type class (lowered <$> K) p) then [p] else []) ∧ sigs_of x2 = sigs_of x) as (Hx2 & Hs2 & Hg2).
      { destruct (Z.eqb_spec (rr_type p) type) as [Hty|Hty].
        - apply bind_inv in E2 as (rr & Ea & E2). injection E2 as <-. destruct Hx as [Ha Hb]. destruct (add_entry_spec _ _ _ _ Ha Ea) as [Htk Hz].
          rewrite decide_True by (split_and!; tauto). split; [split; cbn; lia|]. done.
        - injection E2 as <-. rewrite decide_False by (intros (? & _); done). by rewrite app_nil_r. }
      destruct (Z.eqb_spec (rr_type p) T_RRSIG) as [Hty|_]; [|injection E1 as <-; by rewrite Hs2, Hg2].
      eapply (explore_sig_spec (sig_for all type class (lowered <$> K))) in E1 as (? & Hs3 & Hg3); [|done|lia|lia|];
        [rewrite Hg2 in Hg3; by rewrite Hs3, Hs2|].
      intros Hcov. exists p. split_and!; [apply Hsub; left|split_and!; [done|done|by apply Hsame]|lia|done].
    - injection E1 as <-. rewrite decide_False; [by rewrite app_nil_r|]. intros (_ & Hcl & Ho). apply Hsame in Ho. subst. by rewrite !Z.eqb_refl in Erc. }
  destruct (IH ltac:(intros z Hz; apply Hsub; by right) x1 Hx1 E) as (Hx' & Hs' & Hg'). split_and!; [done| |tauto]. rewrite Hs', Hs1, <- app_assoc. f_equal. by rewrite <- filter_app.
Qed.
End explore.
