(* ===== verification/DnssecTrust.v ===== *)
(** The cache while a reply is validated, where records are moved and freed, and none comes in; and what a reply that is found secure
    rests on. *)
From stdpp Require Import sorting.
From S2P Require Import Prelude Hostname Wire WireSafe WireSpec RRFilter WireExt Cache CacheInv Records Blockdata Crypto.
From S2P Require Import DnssecName DnssecNameSpec DnssecOrder DnssecSort DnssecSorted DnssecValidate DnssecKeeps DnssecSound DnssecNsec DnssecReply DnssecKeys DnssecTyped DnssecExplore.

#[local] Opaque extract_name skip_name.

(** Each record of [c] in use is as it is in [c0], but for its link in the last answer. *)
Definition kept_from (c0 c : cache) : Prop := ∀ id, has (get c id) F_FORWARD = true → with_nxt None (get c id) = with_nxt None (get c0 id).

#[global] Instance kept_from_preorder : PreOrder kept_from.
Proof.
  split; [by intros c id|]. intros a b c Hab Hbc id Hid. rewrite (Hbc id Hid). apply Hab.
  apply Hbc in Hid as E. apply (f_equal flags) in E. cbn in E. unfold has in *. by rewrite <- E.
Qed.

Lemma get_upd_cases f id c x : get (upd f id c) x = get c x ∨ get (upd f id c) x = f (get c x).
Proof.
  unfold get, upd. cbn [store set_store]. rewrite !lookup_total_alt, lookup_alter. case_decide as Hd; [|by left]. subst id.
  destruct (store c !! x) as [r|]; [by right|by left].
Qed.

(** An update that takes the record out of use, or sets its link only. *)
Lemma kept_upd f id c0 c : (∀ r, has (f r) F_FORWARD = true → has r F_FORWARD = true ∧ with_nxt None (f r) = with_nxt None r) →
  kept_from c0 c → kept_from c0 (upd f id c).
Proof.
  intros Hf H x Hx. destruct (get_upd_cases f id c x) as [E|E]; rewrite E in *; [by apply H|]. apply Hf in Hx as [Hx ->]. by apply H.
Qed.

Lemma kept_store c0 c c' : store c' = store c → kept_from c0 c → kept_from c0 c'.
Proof. unfold kept_from, get. by intros ->. Qed.

Section lookup.
Context (mix_tab : Z → Z) (now class : Z).

Lemma clear_forward m r : has (with_flags (clear_flag (clear_flag (flags r) F_FORWARD) m) r) F_FORWARD = false.
Proof.
  unfold has, with_flags, clear_flag. cbn [flags]. rewrite Z.ldiff_ldiff_l, Z.lor_comm, <- Z.ldiff_ldiff_l. apply flag_ldiff_same.
Qed.

Lemma drop_dead_kept id c0 c c' : drop_dead true id c = Ok c' → kept_from c0 c → kept_from c0 c'.
Proof.
  unfold drop_dead, unlink_free, cache_unlink, cache_free. intros E H. destruct (has (get c id) F_LOCAL); [by injection E as <-|].
  apply bind_inv in E as (c1 & E1 & E). destruct (bool_decide (id ∈ lru c)); [|done]. injection E1 as <-. cbv zeta in E.
  match type of E with (if ?b then _ else _) = _ => destruct b end; [done|]. injection E as <-.
  eapply kept_store; [apply blockdata_free_frame|].
  set (f := λ r, with_uid UID_NONE (with_flags (clear_flag (clear_flag (flags r) F_FORWARD) F_REVERSE) r)).
  assert (∀ m r, has (with_flags m (f r)) F_FORWARD = flag m F_FORWARD) as Hm by done.
  assert (∀ r, flag (flags (f r)) F_FORWARD = false) as Hf by (intros r; apply (clear_forward F_REVERSE r)).
  match goal with |- kept_from _ (if ?b then _ else _) => destruct b end.
  - apply (kept_store _ (upd ((λ r, with_flags (clear_flag (flags r) F_BIGNAME) r) ∘ f) id c)); [apply alter_alter_eq|].
    apply kept_upd; [|done]. intros r Hr. exfalso. unfold compose in Hr. rewrite Hm in Hr. unfold clear_flag in Hr. by rewrite flag_ldiff_false in Hr.
  - apply (kept_store _ (upd f id c)); [done|]. apply kept_upd; [|done]. intros r Hr. exfalso. unfold has in Hr. by rewrite Hf in Hr.
Qed.

Lemma hit_kept id hosts c0 c c' hosts' : hit id hosts c = Ok (c', hosts') → kept_from c0 c → kept_from c0 c'.
Proof.
  unfold hit, cache_unlink, cache_link. intros E H. destruct (has (get c id) F_LOCAL); [by injection E as <- _|].
  rinv E. exact H.
Qed.

Lemma find_name_kept name prot no_rr chain ins after hosts c0 c c' chain' hosts' :
  find_name true name now prot no_rr chain ins after hosts c = Ok (c', chain', hosts') → kept_from c0 c → kept_from c0 c'.
Proof.
  revert ins after hosts c. induction chain as [|id chain IH]; intros ins after hosts c E H; cbn [find_name] in E; [by injection E as <- _ _|].
  cbv zeta in E. match type of E with (if ?b then _ else _) = _ => destruct b end.
  - destruct (name_match name prot (get c id)); [|by eapply IH]. apply bind_inv in E as ([c1 h1] & E1 & E).
    apply hit_kept with (c0 := c0) in E1; [|done]. repeat case_match; by eapply IH.
  - apply bind_inv in E as (c1 & E1 & E). apply drop_dead_kept with (c0 := c0) in E1; [|done]. by eapply IH.
Qed.

Lemma set_answers_kept hosts last c0 c : kept_from c0 c → kept_from c0 (set_answers hosts last c).
Proof. intros H. induction hosts as [|h hosts IH]; cbn [set_answers]; [done|]. apply kept_upd; [|done]. by intros r. Qed.

Lemma cache_find_kept crecp name prot c0 c c' r : cache_find_by_name true mix_tab crecp name now prot c = Ok (c', r) → kept_from c0 c → kept_from c0 c'.
Proof.
  unfold cache_find_by_name. intros E H. apply bind_inv in E as ([c1 ans] & E1 & E). assert (kept_from c0 c1) as H1.
  { destruct crecp; [by injection E1 as <- _|]. cbv zeta in E1. apply bind_inv in E1 as ([[c2 chain] hosts] & E2 & E1). injection E1 as <- _.
    apply set_answers_kept. apply (kept_store _ c2); [done|]. by eapply find_name_kept. }
  repeat case_match; simplify_eq; done.
Qed.

(** * What calls it *)

Lemma find_anchor_kept fuel name p c0 c c' r : find_anchor mix_tab now fuel name p c = Ok (c', r) → kept_from c0 c → kept_from c0 c'.
Proof.
  revert p c. induction fuel as [|fuel IH]; intros p c E H; cbn [find_anchor] in E; [done|]. cbv zeta in E. apply bind_inv in E as ([c1 r1] & E1 & E).
  apply (cache_find_kept _ _ _ c0) in E1; [|done]. repeat case_match; simplify_eq; eauto.
Qed.

Lemma ds_supported_kept fuel id key c0 c c' r : ds_supported mix_tab now class fuel id key c = Ok (c', r) → kept_from c0 c → kept_from c0 c'.
Proof.
  revert id c. induction fuel as [|fuel IH]; intros id c E H; cbn [ds_supported] in E; [done|]. cbv zeta in E.
  match type of E with (if ?b then _ else _) = _ => destruct b end; [by injection E as <- _|]. apply bind_inv in E as ([c1 r1] & E1 & E).
  apply (cache_find_kept _ _ _ c0) in E1; [|done]. repeat case_match; simplify_eq; eauto.
Qed.

Lemma zone_status_kept name keyname c0 c st c' k : zone_status mix_tab now class name keyname c = Ok (st, c', k) → kept_from c0 c → kept_from c0 c'.
Proof.
  unfold zone_status. intros E H. apply bind_inv in E as ([c1 start] & E1 & E). apply (find_anchor_kept _ _ _ c0) in E1; [|done]. clear H.
  revert start keyname c1 E1 E. generalize (S (S (length name))). intros fuel. induction fuel as [|fuel IH]; intros start keyname c1 H E; [done|].
  cbn [zone_loop] in E. cbv zeta in E. apply bind_inv in E as (k1 & _ & E). apply bind_inv in E as ([c2 r] & E1 & E). apply (cache_find_kept _ _ _ c0) in E1; [|done].
  destruct r as [id|]; [|by injection E as _ <- _]. destruct (has (get c2 id) F_NEG && has (get c2 id) F_DNSSECOK); [by injection E as _ <- _|].
  apply bind_inv in E as ([c3 ok] & E3 & E). assert (kept_from c0 c3) as H3 by (destruct (has (get c2 id) F_NEG); [by injection E3 as <- _|by eapply ds_supported_kept]).
  destruct (negb ok); [by injection E as _ <- _|]. destruct (start =? 0); [by injection E as _ <- _|]. apply bind_inv in E as (s & _ & E). by eapply IH.
Qed.

Context (N : nettle) (mem : bool) (keys : pool) (buf : list Z) (plen curtime : Z).

Lemma try_keys_kept fuel crecp ks g sig sl digest dlen c0 c c' ok :
  try_keys N mem mix_tab keys buf now class fuel crecp ks g sig sl digest dlen c = Ok (c', ok) → kept_from c0 c → kept_from c0 c'.
Proof.
  revert crecp c. induction fuel as [|fuel IH]; intros crecp c E H; destruct crecp as [id|]; try by injection E as <- _.
  { done. }
  cbn [try_keys] in E. apply bind_inv in E as (x & _ & E). destruct x; [by injection E as <- _|]. apply bind_inv in E as ([c1 r1] & E1 & E).
  apply (cache_find_kept _ _ _ c0) in E1; [|done]. by eapply IH.
Qed.

Lemma test_sig_kept h desc rrs nl key crecp g sig w c0 v st w' v' :
  test_sig N mem mix_tab keys buf plen now class h desc rrs nl key crecp g sig w v = Ok (st, w', v') → kept_from c0 (v_cache v) → kept_from c0 (v_cache v').
Proof.
  unfold test_sig. intros E H. cbv zeta in E. apply bind_inv in E as (ctx & _ & E). apply bind_inv in E as ([k wl] & _ & E).
  apply bind_inv in E as (sg & _ & E). apply bind_inv in E as (k1 & _ & E). apply bind_inv in E as (r & _ & E).
  destruct r as [[[ctx1 n1] w1]|]; [|by injection E as _ _ <-]. apply bind_inv in E as (p & _ & E). apply bind_inv in E as (x & _ & E).
  destruct x as [[[? ?] s]|]; [|by injection E as _ _ <-]. apply bind_inv in E as (n2 & _ & E). destruct key as [kk|].
  - apply bind_inv in E as (ok & _ & E). by injection E as _ _ <-.
  - apply bind_inv in E as (ks & _ & E). apply bind_inv in E as ([c1 ok] & E1 & E). injection E as _ _ <-. by eapply try_keys_kept.
Qed.

Lemma try_sigs_kept desc rrs nl key tc tw sigs ff w ttl c0 v r v' :
  try_sigs N mem mix_tab keys buf plen now curtime class desc rrs nl key tc tw sigs ff w ttl v = Ok (r, v') → kept_from c0 (v_cache v) → kept_from c0 (v_cache v').
Proof.
  revert ff w ttl v. induction sigs as [|p sigs IH]; intros ff w ttl v E H; cbn [try_sigs] in E; [by injection E as _ <-|].
  cbv zeta in E. apply bind_inv in E as (g & _ & E). apply bind_inv in E as (x & _ & E). destruct x as [[[ret sig] s]|]; [|by injection E as _ <-].
  apply bind_inv in E as (k1 & _ & E). destruct (check_times curtime tc g (clear_flag ff DNSSEC_FAIL_NOSIG)) as [go ff'].
  destruct go as [go|]; [|by eapply IH]. destruct (hash_find N (algo_digest_name (g_algo g))) as [h|]; [|by eapply IH].
  match type of E with (if ?b then _ else _) = _ => destruct b end; [by eapply IH|]. apply bind_inv in E as ([c crecp] & E1 & E).
  assert (kept_from c0 c) as H1 by (destruct key; [by injection E1 as <- _|by eapply cache_find_kept]).
  match type of E with (if ?b then _ else _) = _ => destruct b end; [by injection E as _ <-|].
  apply bind_inv in E as ([[st w1] v1] & Et & E). apply (test_sig_kept _ _ _ _ _ _ _ _ _ c0) in Et; [|done].
  destruct st; [by injection E as _ <-|by eapply IH].
Qed.

Lemma validate_rrset_kept type sigs rrset key tw c0 v r rrs v' :
  validate_rrset N mem mix_tab keys buf plen now curtime class type sigs rrset key tw v = Ok (r, rrs, v') → kept_from c0 (v_cache v) → kept_from c0 (v_cache v').
Proof.
  unfold validate_rrset. intros E H. apply bind_inv in E as (desc & _ & E). destruct (is_check_date curtime (v_clock v)) as [tc k].
  apply bind_inv in E as (name & _ & E). apply bind_inv in E as ([[l w1] k1] & _ & E). apply bind_inv in E as ([r1 v1] & E1 & E). injection E as _ _ <-.
  by eapply try_sigs_kept in E1.
Qed.
End lookup.

(** A key that is found is one that was there before. *)
Lemma good_sig_kept N mem keys buf plen curtime class tc nl key info rrs status c0 c g : kept_from c0 c →
  good_sig N mem keys buf plen curtime class tc nl key info rrs status c g → good_sig N mem keys buf plen curtime class tc nl key info rrs status c0 g.
Proof.
  intros Hk (signer & s & sig & h & hash & kd & kl & Hna & Hr & Ht & Hl & Hh & Hv & Hkey). exists signer, s, sig, h, hash, kd, kl. split_and!; try done.
  destruct key as [k|]; [done|]. destruct Hkey as [(id & kf & Ha & Hu & Hf & Hd & Hn) ->]. split; [|done]. exists id, kf.
  pose proof (Hk id Hf) as E. unfold has in *. injection E as Efl _ Eu Ea En. by rewrite <- Ea, <- Eu, <- Efl, <- En.
Qed.

#[local] Opaque extract_name skip_name find_name.

(** * The values of a status *)

Definition secure (status : Z) : Prop := status = STAT_SECURE ∨ status = STAT_SECURE_WILDCARD.

Definition low_flags (ff : Z) : Prop := Z.land ff 4294901760 = 0.

Lemma clear_low ff m : low_flags ff → low_flags (clear_flag ff m).
Proof.
  unfold low_flags, clear_flag. intros H. rewrite Z.ldiff_land, <- Z.land_assoc, (Z.land_comm (Z.lnot m)), Z.land_assoc, H. apply Z.land_0_l.
Qed.

Lemma bogus_flags ff : low_flags ff → pass_on (Z.lor (Z.lor STAT_BOGUS ff) DNSSEC_FAIL_NOKEY) = true.
Proof. unfold low_flags, pass_on, STAT_ISEQUAL. intros H. rewrite !Z.land_lor_distr_l, H. reflexivity. Qed.

Section status.
Context (N : nettle) (mem : bool) (mix_tab : Z → Z) (keys : pool) (buf : list Z) (plen now curtime class : Z).

Lemma check_times_low tc g ff : low_flags ff → low_flags (check_times curtime tc g ff).2.
Proof. intros H. unfold check_times. repeat case_match; cbn; eauto using clear_low. Qed.

Lemma test_sig_values h desc rrs nl key crecp g sig w v st w' v' :
  test_sig N mem mix_tab keys buf plen now class h desc rrs nl key crecp g sig w v = Ok (st, w', v') →
  (∀ s, st = Some s → secure s ∨ pass_on s = true) ∧ v_clock v' = v_clock v.
Proof.
  unfold test_sig, secure. intros E. cbv zeta in E. rinv E; (split; [|reflexivity]); intros s Hs; repeat case_match; simplify_eq; auto.
Qed.

Lemma try_sigs_values desc rrs nl key tc tw sigs ff w ttl v r v' :
  try_sigs N mem mix_tab keys buf plen now curtime class desc rrs nl key tc tw sigs ff w ttl v = Ok (r, v') → low_flags ff →
  (secure (r_status r) ∨ pass_on (r_status r) = true) ∧ v_clock v' = v_clock v.
Proof.
  revert ff w ttl v. induction sigs as [|p sigs IH]; intros ff w ttl v E Hf; cbn [try_sigs] in E.
  { injection E as <- <-. cbn. split; [right; by apply bogus_flags|done]. }
  cbv zeta in E. apply bind_inv in E as (g & _ & E). apply bind_inv in E as (x & _ & E). destruct x as [[[ret sig] s]|]; [|injection E as <- <-; cbn; auto].
  apply bind_inv in E as (k1 & Ek & E). pose proof (check_times_low tc g _ (clear_low ff DNSSEC_FAIL_NOSIG Hf)) as Hf1.
  destruct (check_times curtime tc g (clear_flag ff DNSSEC_FAIL_NOSIG)) as [go ff']. cbn [snd] in Hf1. destruct go as [go|]; [|by apply IH in E].
  destruct (hash_find N (algo_digest_name (g_algo g))) as [h|]; [|by apply IH in E]. pose proof (clear_low ff' DNSSEC_FAIL_NOKEYSUP Hf1) as Hf2.
  dif E; [by apply IH in E|]. apply bind_inv in E as ([c crecp] & _ & E). dif E; [injection E as <- <-; cbn; auto|].
  apply bind_inv in E as ([[st w1] v1] & Et & E). destruct (test_sig_values _ _ _ _ _ _ _ _ _ _ _ _ _ Et) as [Hv Hk].
  destruct st as [st|]; [injection E as <- <-; cbn; auto|]. destruct (IH _ _ _ _ E Hf2) as [H1 H2]. split; [done|]. by rewrite H2, Hk.
Qed.

Lemma validate_rrset_values type sigs rrset key tw v r rrs v' :
  validate_rrset N mem mix_tab keys buf plen now curtime class type sigs rrset key tw v = Ok (r, rrs, v') →
  (secure (r_status r) ∨ pass_on (r_status r) = true) ∧ v_clock v' = (is_check_date curtime (v_clock v)).2.
Proof.
  unfold validate_rrset. intros E. apply bind_inv in E as (desc & _ & E). destruct (is_check_date curtime (v_clock v)) as [tc k].
  apply bind_inv in E as (name & _ & E). apply bind_inv in E as ([[l w1] k1] & _ & E). apply bind_inv in E as ([r1 v1] & E1 & E). injection E as <- <- <-.
  apply try_sigs_values in E1; [|reflexivity]. exact E1.
Qed.
End status.

Lemma zone_loop_values mix_tab now class fuel name start k c st c' k' : zone_loop mix_tab now class fuel name start k c = Ok (st, c', k') →
  st = STAT_NEED_DS ∨ st = STAT_INSECURE ∨ st = STAT_SECURE.
Proof. revert start k c. induction fuel as [|fuel IH]; intros start k c E; cbn [zone_loop] in E; rinv E; eauto. Qed.

Lemma zone_status_values mix_tab now class name k c st c' k' : zone_status mix_tab now class name k c = Ok (st, c', k') →
  st = STAT_NEED_DS ∨ st = STAT_INSECURE ∨ st = STAT_SECURE.
Proof. unfold zone_status. intros E. apply bind_inv in E as ([c1 start] & _ & E). by eapply zone_loop_values. Qed.

(** * The clock *)

(** The clock as it was, or as a test of the date leaves it. *)
Definition timed (curtime : Z) (k k' : clock) : Prop := k' = k ∨ k' = (is_check_date curtime k).2.

(** The state after the one with the clock [k] and the cache [c0]. *)
Definition since (curtime : Z) (k : clock) (c0 : cache) (st : rstate) : Prop := timed curtime k (v_clock (s_v st)) ∧ kept_from c0 (v_cache (s_v st)).

Lemma check_date_again curtime k k' : timed curtime k k' →
  (is_check_date curtime k').1 = (is_check_date curtime k).1 ∧ timed curtime k (is_check_date curtime k').2.
Proof.
  unfold timed. intros [->| ->]; [split; [done|by right]|]. unfold is_check_date. destruct k as [f t b d r]. cbn.
  destruct f; cbn; [|by split; [|right]]. destruct b, (t <=? curtime) eqn:E; cbn; rewrite ?E; cbn; auto.
Qed.

(** * The records of a reply *)

Section trust.
Context (alloc : Z → bool) (N : nettle) (mem : bool) (mix_tab : Z → Z) (keys : pool) (buf : list Z) (plen now curtime : Z).
Context (Hbuf : Forall is_byte buf) (Hplen : 0 ≤ plen ≤ zlen buf) (Hmax : zlen buf < 2 ^ 64).
Context (info : Z → rr_info) (all : list Z) (clk : clock) (c0 : cache).

(** The records of one name, type and class are signed: there is a signature in time, with the key that is given or by a key of the signer in the
    cache [c0], that the library accepts for these records, all of them. *)
Definition set_signed (key : option given_key) (type class : Z) (owner : list (list Z)) : Prop :=
  ∃ rrs s g status, Forall (same_set buf info type class owner) rrs ∧
    (∀ q, q ∈ all → same_set buf info type class owner q → i_data (info q) ∈ (i_data ∘ info) <$> rrs) ∧
    StronglySorted (λ p q, bytes_order (i_data (info p)) (i_data (info q)) = Lt) rrs ∧
    sig_for buf info all type class owner s ∧ read_sig buf s = Ok g ∧ secure status ∧
    good_sig N mem keys buf plen curtime class (is_check_date curtime clk).1 (zlen owner) key info rrs status c0 g.

(** What is known of the record [j], which is at [q], of a secure reply. For a reply to a query for DS records other records of the
    authority section than NSEC and NSEC3 need no signature. *)
Definition settled (for_ds : bool) (ancount j q : Z) : Prop :=
  rr_type buf info q = T_RRSIG ∨
  (for_ds = true ∧ ancount ≤ j ∧ rr_type buf info q ≠ T_NSEC ∧ rr_type buf info q ≠ T_NSEC3) ∨
  set_signed None (rr_type buf info q) (rr_class buf info q) (rr_owner info q).

Lemma validate_set_sound key type class K name tw sigs v r l v' :
  Forall good_label K → join true K = Some name → str_at (v_name v) 0 = Ok name → buffers_ok v → timed curtime clk (v_clock v) → kept_from c0 (v_cache v) →
  (∀ q, q ∈ all → rr_ok buf plen info q) → Forall (sig_for buf info all type class (lowered <$> K)) sigs →
  validate_rrset N mem mix_tab keys buf plen now curtime class type sigs (filter (same_set buf info type class (lowered <$> K)) all) key tw v = Ok (r, l, v') →
  (secure (r_status r) → set_signed key type class (lowered <$> K)) ∧ (secure (r_status r) ∨ pass_on (r_status r) = true) ∧
  timed curtime clk (v_clock v') ∧ kept_from c0 (v_cache v').
Proof.
  intros HL Ej Hs (Bn & Bk & Bw) Ht Hc0 Hall Hsg Ev. destruct (validate_rrset_values _ _ _ _ _ _ _ _ _ _ _ _ _ _ _ _ _ _ Ev) as [Hval Hclk].
  destruct (check_date_again curtime clk _ Ht) as [Htc Hk2]. rewrite <- Hclk in Hk2.
  pose proof (validate_rrset_kept _ _ _ _ _ _ _ _ _ _ _ _ _ _ c0 _ _ _ _ Ev Hc0) as Hc1. split_and!; try done. intros Hsec.
  destruct (type_desc_ok type) as (desc & Hd & _). pose proof (count_labels_join _ _ HL Ej) as Hn. rewrite Forall_forall in Hsg.
  eapply (validate_rrset_accepts N mem mix_tab keys buf plen now curtime _ _ desc info) in Ev as (Hsort & Hsub & Hks & s & g & Hsig & Hg & Hgood); try done.
  - apply (good_sig_kept _ _ _ _ _ _ _ _ _ _ _ _ _ c0) in Hgood; [|done]. exists l, s, g, (r_status r). split_and!; try done.
    + apply Forall_forall. intros q Hq. eapply elem_of_submseteq in Hsub; [|exact Hq]. by apply list_elem_of_filter in Hsub as [? _].
    + intros q Hq Hsame. apply Hks. apply list_elem_of_fmap. exists q. split; [done|]. by apply list_elem_of_filter.
    + by apply Hsg.
    + unfold zlen. rewrite length_fmap, <- Htc. rewrite Hn in Hgood. exact Hgood.
  - intros q [(Ht1 & Hcl & Ho1) Hq]%list_elem_of_filter. destruct (Hall q Hq) as (desc' & Hd' & Hat & _). rewrite Ht1, Hd in Hd'. injection Hd' as <-.
    split; [done|]. rewrite Hn. apply (f_equal length) in Ho1. unfold rr_owner in Ho1. rewrite !length_fmap in Ho1. unfold zlen. lia.
  - intros s Hs1. destruct (Hsg s Hs1) as (q & Hq & _ & -> & _).
    destruct (rr_fields buf plen Hbuf Hplen info q (Hall q Hq)) as (? & _ & _ & _ & _ & _ & _ & ? & _). lia.
Qed.

Lemma secure_set_sound ti i type class K name qtype qclass rrs sigs st rc st' :
  Forall good_label K → join true K = Some name → str_at (v_name (s_v st)) 0 = Ok name → rstate_ok st → since curtime clk c0 st →
  rrs = filter (same_set buf info type class (lowered <$> K)) all →
  (∀ q, q ∈ all → rr_ok buf plen info q) → Forall (sig_for buf info all type class (lowered <$> K)) sigs →
  secure_set alloc N mem mix_tab keys buf plen now curtime ti i type class qtype qclass name rrs sigs st = Ok (inr rc, st') →
  since curtime clk c0 st' ∧ set_signed None type class (lowered <$> K).
Proof.
  intros HL Ej Hs B [Ht Hc0] -> Hall Hsg E. unfold secure_set in E. apply bind_inv in E as ([[r l] v] & Ev & E). cbv zeta in E.
  destruct (validate_set_sound _ _ _ _ _ _ _ _ _ _ _ HL Ej Hs B Ht Hc0 Hall Hsg Ev) as (Hsec & Hval & Hk & Hc).
  destruct (pass_on (r_status r)) eqn:Ep; [done|]. destruct Hval as [Hval|]; [|done]. split; [|by apply Hsec].
  apply bind_inv in E as (ttl & _ & E). apply bind_inv in E as (sts & _ & E). unfold or_bogus, stop, go in E. unfold since.
  rinv E; rewrite ?set_nsecs_v; by split.
Qed.

Lemma unsigned_set_sound for_ds cu an i p name st rc st' :
  unsigned_set mix_tab now for_ds cu an i (rr_type buf info p) (rr_class buf info p) name st = Ok (inr rc, st') → since curtime clk c0 st →
  since curtime clk c0 st' ∧ (STAT_ISEQUAL rc STAT_INSECURE = false → settled for_ds an i p).
Proof.
  unfold unsigned_set. intros E Ht. destruct ((rr_type buf info p =? T_NSEC) || (rr_type buf info p =? T_NSEC3)) eqn:En; [done|].
  apply orb_false_iff in En as [En1%Z.eqb_neq En2%Z.eqb_neq]. destruct (for_ds && (an <=? i)) eqn:Ed.
  { apply andb_true_iff in Ed as [-> Hi%Z.leb_le]. injection E as <- <-. split; [done|]. intros _. right. left. done. }
  dif E; [|injection E as <- <-; split; [done|intros Hx; by vm_compute in Hx]]. apply bind_inv in E as ([[z c] k] & Ez & E). cbv zeta in E.
  match type of E with (if ?b then _ else _) = _ => destruct b eqn:Ei end; [|done]. injection E as <- <-. destruct Ht. split; [|by rewrite Ei]. split; [done|]. by eapply zone_status_kept.
Qed.

Context (ans an ns : Z) (Hans : skip_questions buf plen = Ok ans) (Han : ancount buf = Ok an) (Hns : nscount buf = Ok ns).
Context (Hall : records buf plen info (Z.to_nat (an + ns)) ans all).

Lemma records_ok n p l q : records buf plen info n p l → q ∈ l → rr_ok buf plen info q.
Proof. induction 1 as [|n p l Hok Hrs IH]; [by intros ?%not_elem_of_nil|]. intros [->|Hq]%elem_of_cons; auto. Qed.

(** What [explore_rrset] finds. *)
Lemma explored_sets type class K name keyname rrset sigs x : Forall good_label K → join true K = Some name →
  explore_rrset alloc buf plen class type name keyname rrset sigs = Ok x →
  set_of x = filter (same_set buf info type class (lowered <$> K)) all ∧ Forall (sig_for buf info all type class (lowered <$> K)) (sigs_of x).
Proof.
  intros HL Ej Ex. unfold explore_rrset in Ex. rewrite Hans, Han, Hns in Ex. cbn [mbind res_bind] in Ex.
  eapply (explore_loop_spec buf plen Hbuf Hplen info alloc all _ _ K name) in Ex as (_ & Hset & Hsg);
    [|exact Hall|reflexivity|done|done|split; cbn; pose proof (zlen_nonneg rrset); pose proof (zlen_nonneg sigs); lia].
  split; [exact Hset|]. apply Hsg. constructor.
Qed.

Lemma new_set_sound for_ds cu ti i p name qtype qclass st rc st' :
  rr_ok buf plen info p → join true (i_owner (info p)) = Some name → str_at (v_name (s_v st)) 0 = Ok name → rstate_ok st → since curtime clk c0 st →
  new_set alloc N mem mix_tab keys buf plen now curtime for_ds cu an ti i (rr_type buf info p) (rr_class buf info p) qtype qclass name st = Ok (inr rc, st') →
  since curtime clk c0 st' ∧ (STAT_ISEQUAL rc STAT_INSECURE = false → settled for_ds an i p).
Proof.
  intros Hok Ej Hs B Ht E. unfold new_set, or_bogus in E.
  destruct (explore_rrset _ _ _ _ _ _ _ _ _) as [x| | |] eqn:Ex; [|done..]. pose proof Ex as Ek. apply explore_rrset_keeps in Ek; [|by apply rstate_keyname].
  destruct (rr_fields buf plen Hbuf Hplen info p Hok) as (h & _ & _ & _ & _ & HL & _).
  destruct (explored_sets _ _ _ _ _ _ _ _ HL Ej Ex) as [Hset Hsg].
  fold (set_of x) in E. fold (sigs_of x) in E. cbv zeta in E.
  match type of E with context [set_sets ?a ?b ?c] => set (st1 := set_sets a b c) in E end.
  assert (rstate_ok st1) as B1 by (apply rstate_ok_intro; cbn; eauto with keeps). assert (since curtime clk c0 st1) as Ht1 by exact Ht.
  destruct (x_nsig x =? 0); [by eapply unsigned_set_sound|].
  apply bind_inv in E as (key & _ & E). apply bind_inv in E as (work & Ew & E). apply bind_inv in E as ([[z c] kn] & Ez & E).
  pose proof (zone_status_values _ _ _ _ _ _ _ _ _ Ez) as Hz. pose proof (zone_status_kept _ _ _ _ _ c0 _ _ _ _ Ez (proj2 Ht1)) as Hc1. apply zone_status_keeps in Ez; [|done]. apply put_name_keeps in Ew; [|by apply rstate_work].
  match type of E with context [secure_set _ _ _ _ _ _ _ _ _ _ _ _ _ _ _ _ _ _ ?s] => set (st2 := s) in E end.
  assert (rstate_ok st2) as B2 by (apply rstate_ok_intro; cbn; eauto with keeps).
  assert (since curtime clk c0 st2) as Ht2 by (split; [exact (proj1 Ht)|exact Hc1]). destruct Hz as [->|[->| ->]]; [done| |].
  - injection E as <- <-. split; [exact Ht2|]. intros Hx. by vm_compute in Hx.
  - change (pass_on STAT_SECURE) with false in E. change (STAT_ISEQUAL STAT_SECURE STAT_SECURE) with true in E. cbn iota in E.
    eapply secure_set_sound in E as [Ht' Hsec]; [|exact HL|exact Ej|exact Hs|exact B2|exact Ht2|exact Hset|intros q Hq; by eapply records_ok|exact Hsg].
    split; [done|]. intros _. by right; right.
Qed.

(** * The walk *)

Lemma done_before_spec n p l j K name type class k :
  records buf plen info n p l → Forall good_label K → join true K = Some name →
  done_before buf plen n j p name type class = Ok (Some k) → ∃ m q, k = j + Z.of_nat m ∧ l !! m = Some q ∧ same_set buf info type class (lowered <$> K) q.
Proof.
  intros Hrs HK Ej. revert j. induction Hrs as [p|n p l Hok Hrs IH]; intros j E; cbn [done_before] in E; [done|].
  apply bind_inv in E as ([[r q] o] & Er & E). destruct (compare_owner buf plen Hbuf Hplen info p K name 10 r q o Hok HK Ej ltac:(lia) Er) as [-> Hsame].
  destruct (rr_fields buf plen Hbuf Hplen info p Hok) as (h & Hna & Hh & Hw & Hp & HL & Hend & Hi & Ht & Hc & Hd).
  rewrite Ht in E. cbn [mbind res_bind] in E. rewrite Hc in E. cbn [mbind res_bind] in E.
  replace (i_type (info p) + 4 + 4) with (i_type (info p) + 8) in E by lia. rewrite Hd in E. cbn [mbind res_bind] in E.
  destruct ((rr_type buf info p =? type) && (rr_class buf info p =? class) && (r =? 1)) eqn:Em.
  - injection E as <-. rewrite !andb_true_iff, !Z.eqb_eq in Em. destruct Em as [[Hty Hcl] Hr]. exists O, p. split_and!; [lia|done|].
    split_and!; [done|done|by apply Hsame].
  - unfold ADD_RDLEN in E. apply bind_inv in E as (p2 & Ep & E). apply guard_inv in Ep as [_ Ep]. injection Ep as <-.
    replace (i_type (info p) + 10 + (rr_end buf info p - (i_type (info p) + 10))) with (rr_end buf info p) in E by lia.
    destruct (IH _ E) as (m & q & -> & Hm & Hq). exists (S m), q. split_and!; [lia|done|done].
Qed.

Lemma records_snoc n p l q : records buf plen info n p l → rr_ok buf plen info q → q = foldl (λ _ x, rr_end buf info x) p l →
  records buf plen info (S n) p (l ++ [q]).
Proof.
  induction 1 as [p|n p l Hok Hrs IH]; intros Hq Heq; cbn in *; [subst; constructor; [done|constructor]|]. constructor; [done|]. by apply IH.
Qed.

Lemma insecure_stays for_ds cu ti qtype qclass n i p st s st' :
  validate_records alloc N mem mix_tab keys buf plen now curtime for_ds cu an ans ti qtype qclass n i p STAT_INSECURE st = Ok (inr s, st') → s = STAT_INSECURE.
Proof.
  revert i p st. induction n as [|n IH]; intros i p st E; cbn [validate_records] in E; [by injection E|].
  unfold or_bogus at 1 in E. destruct (extract_name _ _ _ _ _ _ _) as [[[ret p1] name]| | |]; [|done..].
  apply bind_inv in E as (nb & En & E). cbv zeta in E.
  apply bind_inv in E as ([type p2] & _ & E). apply bind_inv in E as ([class p3] & _ & E). apply bind_inv in E as ([rdlen p4] & _ & E).
  unfold then_go in E. apply bind_inv in E as ([x st2] & _ & E). destruct x as [e|rc]; [done|].
  assert ((if STAT_ISEQUAL rc STAT_INSECURE then STAT_INSECURE else STAT_INSECURE) = STAT_INSECURE) as Hs by (by destruct (STAT_ISEQUAL rc STAT_INSECURE)). rewrite Hs in E.
  destruct n as [|n]; [by injection E|]. unfold or_bogus in E at 1. destruct (ADD_RDLEN p4 plen rdlen) as [p5| | |]; [|done..]. by eapply IH.
Qed.

(** The owner of a record in the buffer. *)
Lemma extract_owner extra p : extra ≤ 10 → rr_ok buf plen info p → ∃ name, join true (i_owner (info p)) = Some name ∧
  extract_name true buf plen p [] true extra = Ok (1, i_type (info p), name) ∧ wf_cstring name ∧ zlen name + 1 ≤ NAMEBUFF.
Proof.
  intros Hx Hok. destruct (rr_fields buf plen Hbuf Hplen info p Hok) as (h & Hna & Hh & Hw & Hp & HL & Hend & _).
  destruct (join_total (i_owner (info p))) as (name & Ej & _). exists name. pose proof (text_fits _ _ Hw Ej). split_and!; [done| |by eapply text_rest_wf|lia].
  apply extract_name_ok; try done. split_and!; [done|lia|]. exists (i_owner (info p)), h. by rewrite render_join.
Qed.

(** The step for one record. *)
Lemma record_sound for_ds cu ti qtype qclass p name done_ i st rc st' :
  rr_ok buf plen info p → join true (i_owner (info p)) = Some name → str_at (v_name (s_v st)) 0 = Ok name → rstate_ok st → since curtime clk c0 st →
  records buf plen info (length done_) ans done_ → i = zlen done_ → (∀ j q, done_ !! j = Some q → settled for_ds an (Z.of_nat j) q) →
  (if rr_type buf info p =? T_RRSIG then go STAT_SECURE st
   else or_bogus (done_before buf plen (Z.to_nat i) 0 ans name (rr_type buf info p) (rr_class buf info p)) st (λ d,
        match d with
        | Some j => t ← rd (s_rr_status st) j; status ← set_rr (s_rr_status st) i t; go STAT_SECURE (set_rr_status status st)
        | None => new_set alloc N mem mix_tab keys buf plen now curtime for_ds cu an ti i (rr_type buf info p) (rr_class buf info p) qtype qclass name st
        end)) = Ok (inr rc, st') →
  since curtime clk c0 st' ∧ (STAT_ISEQUAL rc STAT_INSECURE = false → settled for_ds an i p).
Proof.
  intros Hok Ej Hs B Ht Hrs -> Hdone E. destruct (Z.eqb_spec (rr_type buf info p) T_RRSIG) as [Hty|Hty].
  { injection E as <- <-. split; [done|]. intros _. by left. }
  unfold or_bogus in E. destruct (done_before _ _ _ _ _ _ _ _) as [d| | |] eqn:Ed; [|done..]. destruct d as [k|]; [|by eapply new_set_sound].
  reply_inv E. split; [exact Ht|]. intros _. unfold zlen in Ed. rewrite Nat2Z.id in Ed.
  destruct (rr_fields buf plen Hbuf Hplen info p Hok) as (h & _ & _ & _ & _ & HL & _).
  apply (done_before_spec _ _ done_ 0 (i_owner (info p)) name) in Ed as (m & q & -> & Hm & Ht1 & Hc1 & Ho1); try done.
  destruct (Hdone m q Hm) as [Hq|[(Hf & Hi & Hn1 & Hn2)|Hq]].
  - by rewrite Ht1 in Hq.
  - right. left. rewrite Ht1 in Hn1, Hn2. split_and!; try done. apply lookup_lt_Some in Hm. unfold zlen. lia.
  - right. right. rewrite Ht1, Hc1, Ho1 in Hq. exact Hq.
Qed.

Lemma validate_records_sound for_ds cu ti qtype qclass n p rest : records buf plen info n p rest → ∀ done_ i sec st st',
  all = done_ ++ rest → i = zlen done_ → records buf plen info (length done_) ans done_ → p = foldl (λ _ x, rr_end buf info x) ans done_ →
  (∀ j q, done_ !! j = Some q → settled for_ds an (Z.of_nat j) q) → rstate_ok st → since curtime clk c0 st →
  validate_records alloc N mem mix_tab keys buf plen now curtime for_ds cu an ans ti qtype qclass n i p sec st = Ok (inr STAT_SECURE, st') →
  ∀ j q, all !! j = Some q → settled for_ds an (Z.of_nat j) q.
Proof.
  induction 1 as [p|n p rest Hok Hrs IH]; intros done_ i sec st st' Ha -> Hd Hpe Hset B Ht E; [rewrite Ha, app_nil_r; exact Hset|].
  cbn [validate_records] in E. destruct (extract_owner 10 p ltac:(lia) Hok) as (name & Ej & Ex & Hwf & Hfit). rewrite Ex in E. cbn [or_bogus] in E.
  apply bind_inv in E as (nb & En & E). cbv zeta in E. match type of E with context [set_v ?a ?b] => set (st1 := set_v a b) in E end.
  assert (str_at (v_name (s_v st1)) 0 = Ok name) as Hs1 by (eapply name_in_buffer; [apply rstate_name; exact B|done|done|exact En]).
  assert (rstate_ok st1) as B1 by (apply put_name_keeps in En; [|by apply rstate_name]; apply rstate_ok_intro; cbn; eauto with keeps).
  destruct (rr_fields buf plen Hbuf Hplen info p Hok) as (h & _ & _ & _ & _ & _ & _ & _ & Hty & Hcl & Hrd).
  rewrite Hty in E. cbn [mbind res_bind] in E. rewrite Hcl in E. cbn [mbind res_bind] in E.
  replace (i_type (info p) + 4 + 4) with (i_type (info p) + 8) in E by lia. rewrite Hrd in E. cbn [mbind res_bind] in E.
  unfold then_go in E. apply bind_inv in E as ([x st2] & Er & E). destruct x as [e|rc]; [done|].
  assert (rstate_ok st2) as B2.
  { destruct (rr_type buf info p =? T_RRSIG); [by reply_inv Er|]. unfold or_bogus in Er. destruct (done_before _ _ _ _ _ _ _ _) as [d| | |]; [|done..].
    destruct d as [j|]; [by reply_inv Er|by eapply new_set_keeps]. }
  eapply (record_sound for_ds cu ti qtype qclass p name done_) in Er as [Ht2 Hset2]; [|done..].
  destruct (STAT_ISEQUAL rc STAT_INSECURE) eqn:Ei.
  { exfalso. destruct n as [|n]; [done|]. unfold or_bogus in E at 1. destruct (ADD_RDLEN _ _ _) as [p5| | |]; [|done..]. by apply insecure_stays in E. }
  assert (∀ j q, (done_ ++ [p]) !! j = Some q → settled for_ds an (Z.of_nat j) q) as Hnext.
  { intros j q [Hj|[Hj Hq]]%lookup_app_Some; [by apply Hset|]. apply list_lookup_singleton_Some in Hq as [Hj0 <-].
    replace (Z.of_nat j) with (zlen done_) by (unfold zlen; lia). by apply Hset2. }
  destruct n as [|n].
  { assert (rest = []) as Hr0 by by inversion Hrs. rewrite Ha, Hr0. exact Hnext. }
  unfold or_bogus in E at 1. unfold ADD_RDLEN in E. destruct (CHECK_LEN _ _ _); [|done]. cbn [guard_ok mbind res_bind] in E.
  replace (i_type (info p) + 10 + (rr_end buf info p - (i_type (info p) + 10))) with (rr_end buf info p) in E by lia.
  eapply (IH (done_ ++ [p]) (zlen done_ + 1)); [by rewrite <- app_assoc|by rewrite zlen_snoc| |by rewrite foldl_app|exact Hnext|exact B2|exact Ht2|exact E].
  rewrite length_app, Nat.add_comm. by apply records_snoc.
Qed.
End trust.

(** * Returns on the way *)

(** A return before the end is not that of a secure reply. *)
Definition refused {A} (r : Z * option Z + A) : Prop := match r with inl (s, _) => s ≠ STAT_SECURE | inr _ => True end.

Lemma pass_on_refused s : pass_on s = true → s ≠ STAT_SECURE.
Proof. intros H ->. by vm_compute in H. Qed.

Section refused.
Context (alloc : Z → bool) (N : nettle) (mem : bool) (mix_tab : Z → Z) (keys : pool) (buf : list Z) (plen now curtime : Z).

Lemma unsigned_set_refused for_ds cu an i type class name st r st' :
  unsigned_set mix_tab now for_ds cu an i type class name st = Ok (r, st') → refused r.
Proof.
  unfold unsigned_set. intros E. reply_inv E; try done. match goal with H : zone_status _ _ _ _ _ _ = _ |- _ => apply zone_status_values in H end.
  by destruct H as [->|[->| ->]].
Qed.

Lemma secure_set_refused ti i type class qtype qclass name rrs sigs st r st' :
  secure_set alloc N mem mix_tab keys buf plen now curtime ti i type class qtype qclass name rrs sigs st = Ok (r, st') → refused r.
Proof.
  unfold secure_set. intros E. apply bind_inv in E as ([[r1 l] v] & _ & E). cbv zeta in E. destruct (pass_on (r_status r1)) eqn:Ep.
  { injection E as <- <-. by apply pass_on_refused. }
  reply_inv E; done.
Qed.

Lemma new_set_refused for_ds cu an ti i type class qtype qclass name st r st' :
  new_set alloc N mem mix_tab keys buf plen now curtime for_ds cu an ti i type class qtype qclass name st = Ok (r, st') → refused r.
Proof.
  unfold new_set, or_bogus. intros E. destruct (explore_rrset _ _ _ _ _ _ _ _ _) as [x| | |]; [|by injection E as <- <-|done|done]. cbv zeta in E.
  destruct (x_nsig x =? 0); [by eapply unsigned_set_refused|].
  apply bind_inv in E as (key & _ & E). apply bind_inv in E as (work & _ & E). apply bind_inv in E as ([[rc c] k] & _ & E).
  destruct (pass_on rc) eqn:Ep; [injection E as <- <-; by apply pass_on_refused|].
  dif E; [by eapply secure_set_refused|by injection E as <- <-].
Qed.

Lemma validate_records_refused for_ds cu an ans ti qtype qclass n i p sec st r st' :
  validate_records alloc N mem mix_tab keys buf plen now curtime for_ds cu an ans ti qtype qclass n i p sec st = Ok (r, st') → refused r.
Proof.
  revert i p sec st. induction n as [|n IH]; intros i p sec st E; cbn [validate_records] in E; [by injection E as <- <-|].
  unfold or_bogus at 1 in E. destruct (extract_name _ _ _ _ _ _ _) as [[[ret p1] name]| | |]; [|by injection E as <- <-|done|done].
  apply bind_inv in E as (nb & En & E). cbv zeta in E.
  apply bind_inv in E as ([type p2] & _ & E). apply bind_inv in E as ([class p3] & _ & E). apply bind_inv in E as ([rdlen p4] & _ & E).
  unfold then_go in E. apply bind_inv in E as ([x st2] & Ex & E). destruct x as [e|rc].
  - injection E as <- <-. dif Ex; [done|]. unfold or_bogus in Ex. destruct (done_before _ _ _ _ _ _ _ _) as [d| | |]; [|by injection Ex as <- <-|done|done].
    destruct d as [j|]; [by reply_inv Ex|]. by apply new_set_refused in Ex.
  - destruct n as [|n]; [by injection E as <- <-|]. unfold or_bogus in E at 1.
    destruct (ADD_RDLEN p4 plen rdlen) as [p5| | |]; [|by injection E as <- <-|done|done]. by eapply IH.
Qed.

Lemma missing_targets_refused for_ds qtype qclass ts neg nons ttl st r st' :
  missing_targets alloc N mem mix_tab buf plen now for_ds qtype qclass ts neg nons ttl st = Ok (r, st') → refused r.
Proof.
  revert neg nons ttl st. induction ts as [|t ts IH]; intros neg nons ttl st E; cbn [missing_targets] in E; [by injection E as <- <-|].
  destruct (t =? 0); [by eapply IH|].
  unfold or_bogus at 1 in E. destruct (extract_name _ _ _ _ _ _ _) as [[[ret p1] name]| | |]; [|by injection E as <- <-|done|done].
  apply bind_inv in E as (nb & En & E). apply bind_inv in E as ([[x nb2] f] & Ep & E). cbv zeta in E. destruct x as [nons'|]; [by eapply IH|].
  dif E; [by injection E as <- <-|]. apply bind_inv in E as (nm & _ & E). apply bind_inv in E as ([[rc c] k] & Ez & E).
  apply zone_status_values in Ez. destruct Ez as [->|[->| ->]]; by injection E as <- <-.
Qed.
End refused.

(** C3. What a secure reply rests on: when [dnssec_validate_reply] finds a reply secure, every record of the answer and the authority section
    that is not itself a signature belongs to a set, of its name, type and class, for which the packet has an RRSIG record, of that
    name and class and for that type, that is in time and that the library accepts, with a key of the signer that was in the cache when the
    reply came, for the canonical form of all the records of that set; only in a reply to a query for DS records may records of the
    authority section other than NSEC and NSEC3 be without one. This is for a reply whose records have well-formed data and owners
    without a dot in a label. *)
Theorem secure_reply_sound alloc N mem mix_tab keys buf plen now curtime info all an ns ans for_ds cu st y st' :
  Forall is_byte buf → 0 ≤ plen ≤ zlen buf → zlen buf < 2 ^ 64 → ancount buf = Ok an → nscount buf = Ok ns → skip_questions buf plen = Ok ans →
  records buf plen info (Z.to_nat (an + ns)) ans all → buffers_ok (s_v st) →
  dnssec_validate_reply alloc N mem mix_tab keys buf plen now curtime for_ds cu st = Ok (y, st') → y_status y = STAT_SECURE →
  ∀ j q, all !! j = Some q → settled N mem keys buf plen curtime info all (v_clock (s_v st)) (v_cache (s_v st)) for_ds an (Z.of_nat j) q.
Proof.
  intros Hb Hp Hm Han Hns Hans Hrs B E Hy. unfold dnssec_validate_reply in E. apply bind_inv in E as ([r st1] & E & Ey). injection Ey as <- _.
  unfold validate_body in E. apply bind_inv in E as (rcode & _ & E). apply bind_inv in E as (qd & Hqd & E). rewrite Han, Hns in E. cbn [mbind res_bind] in E. cbv zeta in E.
  assert (∀ s' c', r = inl (s', c') → s' ≠ STAT_SECURE → False) as Hstop by (intros s' c' -> Hne; by apply Hne).
  dif E; [injection E as <- <-; exfalso; by eapply Hstop|]. match type of E with (if ?b then _ else _) = _ => destruct b eqn:Eq end; [injection E as <- <-; exfalso; by eapply Hstop|].
  apply orb_false_iff in Eq as [_ Eq%negb_false_iff%Z.eqb_eq]. subst qd. dif E; [injection E as <- <-; exfalso; by eapply Hstop|].
  unfold or_bogus at 1 in E. destruct (add_entry _ _ _ _) as [targets| | |]; [|injection E as <- <-; exfalso; by eapply Hstop|done|done].
  unfold or_bogus at 1 in E. destruct (extract_name _ _ _ _ _ _ _) as [[[ret p1] name]| | |] eqn:Ex; [|injection E as <- <-; exfalso; by eapply Hstop|done|done].
  apply bind_inv in E as (nb & En & E). apply put_name_keeps in En; [|apply B].
  apply bind_inv in E as ([qtype p2] & Eq1 & E). apply bind_inv in E as ([qclass ans'] & Eq2 & E).
  assert (ans' = ans) as ->.
  { apply extract_name_ok in Ex as (-> & Hl & L & h & Hna & _); [|done|done|done]. apply GETSHORT_at in Eq1 as ->, Eq2 as ->.
    unfold skip_questions in Hans. rewrite Hqd in Hans. cbn [mbind res_bind] in Hans. change (Z.to_nat 1) with 1%nat in Hans. cbn [skip_questions_loop] in Hans.
    rewrite (name_at_skip buf plen HDRSZ L p1 h 4) in Hans by done. cbn [mbind res_bind] in Hans. injection Hans as <-. lia. }
  match type of E with context [set_v ?v ?s] => set (st2 := set_v v s) in E end.
  dif E; [injection E as <- <-; exfalso; by eapply Hstop|]. unfold or_bogus at 1 in E.
  match type of E with match ?m with _ => _ end = _ => destruct m as [[ts ti]| | |]; [|injection E as <- <-; exfalso; by eapply Hstop|done|done] end.
  unfold then_go in E. apply bind_inv in E as ([x3 st3] & E3 & E). destruct x3 as [[s3 c3]|sec].
  { injection E as <- <-. exfalso. apply validate_records_refused in E3. by eapply Hstop. }
  apply bind_inv in E as ([x4 st4] & E4 & E). apply missing_targets_refused in E4. destruct x4 as [[s4 c4]|[[neg nons] ttl]].
  { injection E as <- <-. exfalso. by eapply Hstop. }
  injection E as <- <-. cbn in Hy. subst sec.
  intros j q Hj. refine (validate_records_sound alloc N mem mix_tab keys buf plen now curtime Hb Hp Hm info all (v_clock (s_v st)) (v_cache (s_v st)) ans an ns Hans Han Hns Hrs
    _ _ _ _ _ _ _ _ Hrs [] _ _ _ _ _ _ _ _ _ _ _ E3 j q Hj); [by rewrite app_nil_l|done|constructor|done|done| |by split; [left|]].
  destruct B as (? & ? & ?). apply rstate_ok_intro; cbn; eauto with keeps.
Qed.

(** The records of [reply_packet]. *)
Definition reply_info (p : Z) : rr_info :=
  if p =? 19 then RRInfo [[97]] 22 [10; 0; 0; 1] else RRInfo [[97]] 39 (slice reply_packet 49 83).

(** A record whose owner has one label, of one byte, and whose data has no names. *)
Lemma one_label_record buf plen info p c n ds :
  rd buf p = Ok 1 → slice buf (p + 1) 1 = [c] → rd buf (p + 2) = Ok 0 → GETSHORT buf (p + 11) = Ok (n, p + 13) → 0 ≤ p → 0 ≤ n → p + 13 + n ≤ plen → c ≠ 46 →
  info p = RRInfo [[c]] (p + 3) (slice buf (p + 13) (Z.to_nat n)) → rrfilter_desc (rr_type buf info p) = Ok (END_DESC :: ds) → rr_ok buf plen info p.
Proof.
  intros H1 Hc H0 Hn Hp Hn0 Hpl Hdot Hi Hd. exists (END_DESC :: ds). split; [done|]. rewrite Hi. split.
  - exists 0%nat, n. cbn [i_owner i_type i_data]. replace (p + 3 + 8) with (p + 11) by lia. replace (p + 3 + 10) with (p + 13) by lia.
    split_and!; [|lia|done|done|done|done|done|].
    + rewrite <- Hc. apply (na_label _ _ p 1); [lia|done|lia|lia|]. replace (p + 3) with (p + 1 + 1 + 1) by lia. apply na_end; [lia|by replace (p + 1 + 1) with (p + 2) by lia].
    + replace n with (p + 13 + n - (p + 13)) at 2 by lia. constructor. lia.
  - constructor; [|constructor]. by intros ?%list_elem_of_singleton.
Qed.

Lemma reply_records : records reply_packet 132 reply_info 2 19 [19; 36].
Proof.
  constructor; [|change (rr_end reply_packet reply_info 19) with 36; constructor; [|constructor]].
  - eapply (one_label_record _ _ _ 19 97 4); reflexivity || lia.
  - eapply (one_label_record _ _ _ 36 97 83); reflexivity || lia.
Qed.

Lemma reply_status (m : res (reply_t * rstate)) s : match m with Ok (y, _) => y_status y =? s | _ => false end = true →
  ∃ y st', m = Ok (y, st') ∧ y_status y = s.
Proof. destruct m as [[y st']| | |]; try done. intros H%Z.eqb_eq. eauto. Qed.

Lemma reply_secure :
  ∃ y st', dnssec_validate_reply (λ _, true) toy_nettle true (λ _, 0) toy_pool reply_packet 132 100 100 false true trust_state = Ok (y, st') ∧ y_status y = STAT_SECURE.
Proof. apply reply_status. vm_compute. reflexivity. Qed.

Lemma secure_reply_sound_witness :
  ∃ y st', dnssec_validate_reply (λ _, true) toy_nettle true (λ _, 0) toy_pool reply_packet 132 100 100 false true trust_state = Ok (y, st') ∧
    y_status y = STAT_SECURE ∧
    settled toy_nettle true toy_pool reply_packet 132 100 reply_info [19; 36] (Clock false 0 false false 0) trust_cache false 2 0 19.
Proof.
  destruct reply_secure as (y & st' & E & Hy). exists y, st'. split; [exact E|]. split; [exact Hy|].
  assert (∀ l, bool_decide (zlen l = 2050) && forallb (λ b, (0 <=? b) && (b <? 256)) l = true → buff_ok l) as Hbuf.
  { intros l [Hz%bool_decide_eq_true Hf]%andb_true_iff. split; [by apply bytes_forallb|done]. }
  apply (secure_reply_sound (λ _, true) toy_nettle true (λ _, 0) toy_pool reply_packet 132 100 100 reply_info [19; 36] 2 0 19 false true trust_state y st') with (j := 0%nat).
  - apply bytes_forallb. vm_compute. reflexivity.
  - change (zlen reply_packet) with 132. lia.
  - change (zlen reply_packet) with 132. lia.
  - reflexivity.
  - reflexivity.
  - reflexivity.
  - exact reply_records.
  - split_and!; apply Hbuf; vm_compute; reflexivity.
  - exact E.
  - exact Hy.
  - reflexivity.
Defined.
