(* ===== verification/DnssecKeySound.v ===== *)
(** Which keys are trusted: those of a zone whose DS records are in the cache. *)
From stdpp Require Import sorting.
From S2P Require Import Prelude Hostname Wire WireSafe WireSpec RRFilter WireExt Blockdata Cache Crypto Records.
From S2P Require Import DnssecName DnssecNameSpec DnssecOrder DnssecSort DnssecSorted DnssecValidate DnssecKeeps DnssecSound.
From S2P Require Import DnssecNsec DnssecReply DnssecKeys DnssecTyped DnssecExplore DnssecTrust.

#[local] Opaque extract_name skip_name find_name.

(** * Names in lower case *)

Lemma lowered_again (L : list (list Z)) : (lowered <$> (lowered <$> L)) = lowered <$> L.
Proof.
  rewrite <- list_fmap_compose. apply list_fmap_ext. intros i l _. unfold compose, lowered. rewrite <- list_fmap_compose. apply list_fmap_ext.
  intros j c _. apply lower_lower.
Qed.

Lemma plain_lower L : Forall good_label L → plain (lowered <$> L) = plain L.
Proof. induction 1 as [|l K [_ Hl] _ IH]; [done|]. rewrite fmap_cons. unfold plain in *. cbn [forallb]. by rewrite plain_lowered, IH. Qed.

(** The buffer for the name holds one with these labels, in whatever case. *)
Definition named (owner : list (list Z)) (v : vstate) : Prop :=
  ∃ K name, Forall good_label K ∧ wire_len K < MAXDNAME ∧ lowered <$> K = owner ∧ join true K = Some name ∧ str_at (v_name v) 0 = Ok name.

Section keys.
Context (alloc : Z → bool) (malloc : gmap Z Z → Z → Z) (N : nettle) (mem : bool) (mix_tab : Z → Z) (buf : list Z) (plen now curtime class : Z).
Context (Hbuf : Forall is_byte buf) (Hplen : 0 ≤ plen ≤ zlen buf) (Hmax : zlen buf < 2 ^ 64).
Context (info : Z → rr_info) (all : list Z) (clk : clock) (c0 : cache).
Context (owner : list (list Z)) (Hplain : plain owner = true).

(** * The name after a test *)

Section set.
Context (keys : pool) (desc rrs : list Z) (name_labels : Z) (Hdesc : desc_ok 2 desc = true).
Context (Hrrs : ∀ p, p ∈ rrs → rr_ok buf plen info p ∧ rr_at buf plen desc p (info p) ∧ rr_owner info p = owner ∧ zlen (i_owner (info p)) = name_labels).

Lemma test_sig_named hash key crecp g sig wild v st wild' v' : 0 ≤ g_labels g → buffers_ok v → named owner v →
  test_sig N mem mix_tab keys buf plen now class hash desc rrs name_labels key crecp g sig wild v = Ok (st, wild', v') → named owner v'.
Proof.
  intros Hg (Bn & Bk & Bw) Hn E. unfold test_sig in E. apply bind_inv in E as (ctx & _ & E). apply bind_inv in E as ([k2 wl] & _ & E).
  apply bind_inv in E as (sgl & _ & E). apply bind_inv in E as (k3 & _ & E).
  destruct (hash_rrs_spec buf plen Hbuf Hplen Hmax desc info (g_labels g) name_labels (g_orig_ttl g) rrs (ctx ++ sgl) (v_name v) wild Hdesc) as (n1 & w1 & Eh & B4);
    [intros p Hp; destruct (Hrrs p Hp) as (_ & ? & _ & ?); done|done|done|].
  rewrite Eh in E. cbn [catch mbind res_bind] in E. apply bind_inv in E as (p & Ep & E). assert (p ∈ rrs) as Hp by (destruct rrs; [done|]; injection Ep as ->; left).
  destruct (Hrrs p Hp) as (Hok & _ & Ho & _). destruct (extract_owner buf plen Hbuf Hplen info 0 p ltac:(lia) Hok) as (name & Ej & Ex & Hwf & Hfit).
  rewrite Ex in E. cbn [catch mbind res_bind] in E. apply bind_inv in E as (n2 & En & E). apply name_in_buffer in En; [|done|done|done].
  assert (v_name v' = n2) as Hv.
  { destruct key as [k|]; [apply bind_inv in E as (ok & _ & E); by injection E as _ _ <-|].
    apply bind_inv in E as (ks & _ & E). apply bind_inv in E as ([c' ok] & _ & E). by injection E as _ _ <-. }
  destruct (rr_fields buf plen Hbuf Hplen info p Hok) as (h & _ & _ & Hw & _ & HL & _). exists (i_owner (info p)), name. by rewrite Hv.
Qed.

Lemma try_sigs_named key tc tw sigs ff w ttl v r v' : (∀ s, s ∈ sigs → 0 ≤ s) → buffers_ok v → named owner v →
  try_sigs N mem mix_tab keys buf plen now curtime class desc rrs name_labels key tc tw sigs ff w ttl v = Ok (r, v') → named owner v'.
Proof.
  revert ff w ttl v. induction sigs as [|p sigs IH]; intros ff w ttl v Hs B Hn E; cbn [try_sigs] in E; [by injection E as _ <-|].
  assert (∀ s, s ∈ sigs → 0 ≤ s) as Hs' by (intros s Hin; apply Hs; by right).
  cbv zeta in E. apply bind_inv in E as (g & Eg & E). destruct (read_sig_fields buf Hbuf p g Eg) as (_ & _ & Hgl); [apply Hs; left|].
  apply bind_inv in E as (x & _ & E). destruct x as [[[ret sig] s]|]; [|by injection E as _ <-].
  apply bind_inv in E as (k1 & Ek & E). destruct B as (Bn & Bk & Bw). assert (buffers_ok (set_vkeyname k1 v)) as B1 by (split_and!; eauto with keeps).
  destruct (check_times curtime tc g (clear_flag ff DNSSEC_FAIL_NOSIG)) as [go ff'].
  destruct go as [go|]; [|by eapply IH in E]. destruct (hash_find N (algo_digest_name (g_algo g))) as [h|]; [|by eapply IH in E].
  match type of E with (if ?b then _ else _) = _ => destruct b end; [by eapply IH in E|]. apply bind_inv in E as ([c crecp] & _ & E).
  match type of E with (if ?b then _ else _) = _ => destruct b end; [by injection E as _ <-|].
  apply bind_inv in E as ([[st w1] v1] & Et & E). pose proof (test_sig_keeps _ _ _ _ _ _ _ _ _ _ _ _ _ _ _ _ _ _ _ _ _ Et B1) as B2.
  apply test_sig_named in Et; [|done|done|done]. destruct st; [by injection E as _ <-|by eapply IH in E].
Qed.
End set.

Lemma validate_rrset_named keys type K name key tw sigs rrset v r l v' :
  Forall good_label K → join true K = Some name → lowered <$> K = owner → str_at (v_name v) 0 = Ok name → buffers_ok v → wire_len K < MAXDNAME →
  (∀ q, q ∈ rrset → rr_ok buf plen info q ∧ rr_type buf info q = type ∧ rr_owner info q = owner) → (∀ s, s ∈ sigs → 0 ≤ s) →
  validate_rrset N mem mix_tab keys buf plen now curtime class type sigs rrset key tw v = Ok (r, l, v') → named owner v'.
Proof.
  intros HL Ej Ho Hs (Bn & Bk & Bw) Hw Hr Hsg E. unfold validate_rrset in E. destruct (type_desc_ok type) as (desc & Hd & Hds). rewrite Hd in E. cbn [mbind res_bind] in E.
  destruct (is_check_date curtime (v_clock v)) as [tc k]. apply bind_inv in E as (name' & En & E). cbn [set_vclock v_name v_work v_keyname] in *.
  rewrite Hs in En. injection En as <-.
  assert (∀ p, p ∈ rrset → rr_at buf plen desc p (info p)) as Hat.
  { intros p Hp. destruct (Hr p Hp) as ((desc' & Hd' & Hat & _) & Ht & _). rewrite Ht, Hd in Hd'. by injection Hd' as <-. }
  destruct (sort_rrset_spec buf plen type desc (i_data ∘ info) rrset (v_work v) (v_keyname v)) as (l1 & w1 & k1 & Es & _ & Hsub & _ & B1 & B2);
    try done. { intros p Hpr. apply rr_record; [done|done|]. by apply Hat. }
  rewrite Es in E. cbn [mbind res_bind] in E. apply bind_inv in E as ([r1 v1] & E1 & E). injection E as _ _ <-.
  eapply (try_sigs_named keys desc l1 (count_labels name) Hds) in E1; [exact E1| |done|by split|by exists K, name].
  intros p Hp. eapply elem_of_submseteq in Hp; [|exact Hsub]. destruct (Hr p Hp) as (Hok & _ & Hop). split_and!; [done|by apply Hat|done|].
  rewrite (count_labels_join _ _ HL Ej). subst owner. apply (f_equal length) in Hop. unfold rr_owner in Hop. rewrite !length_fmap in Hop. unfold zlen. lia.
Qed.

(** * Keys and DS records *)

Context (keys : pool) (ans an ns : Z) (Hans : skip_questions buf plen = Ok ans) (Han : ancount buf = Ok an) (Hns : nscount buf = Ok ns).
Context (Hall : records buf plen info (Z.to_nat (an + ns)) ans all).

(** The DS record [r] has the digest of the key record of [rdlen] bytes at [psave]. *)
Definition ds_matches (r : crec) (psave rdlen algo tag : Z) : Prop :=
  ∃ kd digest h bytes, addr r = A_ds kd (digest_size h) digest algo tag ∧ uid r = class ∧ has r F_NEG = false ∧
    hash_find N (ds_digest_name digest) = Some h ∧ blockdata_retrieve mem kd (digest_size h) None keys = Ok (Some bytes) ∧
    take (Z.to_nat (digest_size h)) bytes = take (Z.to_nat (digest_size h)) (digest_of h (wire owner ++ [0] ++ slice buf psave (Z.to_nat rdlen))).

(** The state between two tests. *)
Definition testing (k : kstate) : Prop :=
  kstate_ok k ∧ since curtime clk c0 (d_reply k) ∧ d_pool k = keys ∧ named owner (d_v k).

Lemma pass_on_insecure s : pass_on s = true → STAT_ISEQUAL s STAT_SECURE = false.
Proof.
  unfold pass_on, STAT_ISEQUAL. intros H. apply Z.eqb_neq. intros E. rewrite E in H. by vm_compute in H.
Qed.

Lemma named_owner v : named owner v → Forall good_label owner ∧ wire_len owner < MAXDNAME ∧ lowered <$> owner = owner.
Proof. intros (K & name & HL & Hw & <- & _). split_and!; [by apply good_lowered|by rewrite wire_len_lowered|apply lowered_again]. Qed.

(** The name is hashed in canonical form, and in lower case after that. *)
Lemma hashed_name v b2 wl wo b3 : buffers_ok v → named owner v → to_wire (v_name v) 0 = Ok (b2, wl) → read_at b2 0 wl = Ok wo → from_wire b2 0 = Ok b3 →
  wo = wire owner ++ [0] ∧ buff_ok b3 ∧ ∃ name, join true owner = Some name ∧ str_at b3 0 = Ok name.
Proof.
  intros B (K & name & HL & Hw & Ho & Ej & Hs) Et Ewo Ef. destruct (text_to_wire _ _ _ _ _ _ HL Ej Hw (proj1 B) Hs Et Ewo) as (-> & Bb2 & Hlow).
  assert (one_special K) as H1 by (left; rewrite <- plain_lower by done; by rewrite Ho). destruct (Hlow H1) as [post Efw]. rewrite Ef in Efw. injection Efw as ->.
  rewrite Ho. split_and!; [done|by eauto with keeps|]. exists (lowered name). split; [rewrite <- Ho; by apply join_lowered|].
  unfold str_at. cbn. rewrite drop_0. apply get_str_spec, lowered_wf. exact (text_rest_wf _ _ HL Ej).
Qed.

(** The records of the keys, tested with the key. *)
Lemma validate_keys_sound key name x kn rr sg v r l v' :
  Forall good_label owner → wire_len owner < MAXDNAME → lowered <$> owner = owner → join true owner = Some name → str_at (v_name v) 0 = Ok name → buffers_ok v →
  timed curtime clk (v_clock v) → kept_from c0 (v_cache v) →
  explore_rrset alloc buf plen class T_DNSKEY name kn rr sg = Ok x →
  validate_rrset N mem mix_tab keys buf plen now curtime class T_DNSKEY (sigs_of x) (set_of x) (Some key) true v = Ok (r, l, v') →
  timed curtime clk (v_clock v') ∧ kept_from c0 (v_cache v') ∧ named owner v' ∧
  (STAT_ISEQUAL (r_status r) STAT_SECURE = true → set_signed N mem keys buf plen curtime info all clk c0 (Some key) T_DNSKEY class owner).
Proof.
  intros HL Hw Ho Ej Hs B Ht Hc Ex Ev.
  destruct (explored_sets alloc buf plen Hbuf Hplen info all ans an ns Hans Han Hns Hall _ _ _ _ _ _ _ _ HL Ej Ex) as [Hset Hsg]. rewrite Hset in Ev.
  assert (∀ q, q ∈ all → rr_ok buf plen info q) as Hoks by (intros q Hq; by eapply records_ok).
  destruct (validate_set_sound N mem mix_tab keys buf plen now curtime Hbuf Hplen Hmax info all clk c0 _ _ _ _ _ _ _ _ _ _ _ HL Ej Hs B Ht Hc Hoks Hsg Ev)
    as (Hsec & Hval & Ht' & Hc'). rewrite Ho in Hsec. split_and!; [done|done| |].
  - eapply validate_rrset_named in Ev; [exact Ev|exact HL|exact Ej|done|exact Hs|exact B|done| |].
    + intros q [(? & ? & Hq) Hin]%list_elem_of_filter. rewrite Ho in Hq. auto.
    + intros s Hin. rewrite Forall_forall in Hsg. destruct (Hsg s Hin) as (q & Hq & _ & -> & _).
      destruct (rr_fields buf plen Hbuf Hplen info q (Hoks q Hq)) as (? & _ & _ & _ & _ & _ & _ & ? & _). lia.
  - intros Eis. destruct Hval as [Hval|Hval%pass_on_insecure]; [by apply Hsec|congruence].
Qed.

Lemma try_ds_sound key algo tag psave rdlen r ff k valid ff' k' :
  testing k → try_ds alloc N mem mix_tab buf plen now curtime class key algo tag psave rdlen r ff k = Ok (valid, ff', k') →
  testing k' ∧ (valid ≠ None → ds_matches r psave rdlen algo tag ∧
    set_signed N mem keys buf plen curtime info all clk c0 (Some (GivenKey key (rdlen - 4) algo tag)) T_DNSKEY class owner).
Proof.
  intros Hk E. pose proof Hk as (B & Hsi & Hpool & Hn). pose proof (try_ds_keeps _ _ _ _ _ _ _ _ _ _ _ _ _ _ _ _ _ _ _ _ E B) as B'.
  destruct (named_owner _ Hn) as (HL & Hw & Ho).
  unfold try_ds in E. destruct (addr r) as [| | | | |kd kl digest da dt|] eqn:Ea; try by injection E as <- <- <-.
  match type of E with (if negb ?b then _ else _) = _ => destruct b eqn:Eq end; [|by injection E as <- <- <-]. cbn [negb] in E.
  rewrite !andb_true_iff, !Z.eqb_eq in Eq. destruct Eq as [[-> ->] Hu]. cbv zeta in E.
  destruct (hash_find N (ds_digest_name digest)) as [h|] eqn:Eh; [|by injection E as <- <- <-]. dif E; [by injection E as <- <- <-|].
  apply bind_inv in E as ([b2 wl] & Et & E). apply bind_inv in E as (wo & Ewo & E). apply bind_inv in E as (data & Ed & E). apply bind_inv in E as (b3 & Ef & E).
  destruct (hashed_name _ _ _ _ _ B Hn Et Ewo Ef) as (-> & B3 & name & Ej & Hs). destruct B as (_ & Bk & Bw), Hsi as [Ht Hc].
  assert (data = slice buf psave (Z.to_nat rdlen)) as -> by (unfold read_at in Ed; destruct (_ || _); [done|by injection Ed as <-]).
  assert (named owner (d_v (set_dname b3 k))) as Hn1 by by exists owner, name.
  apply bind_inv in E as (dg & Edg & E). destruct (bool_decide _) eqn:Eb in E; [|by injection E as <- <- <-]. cbn [negb] in E. apply bool_decide_eq_true in Eb.
  rewrite Hs in E. cbn [mbind res_bind] in E. apply bind_inv in E as (x & Ex & E). destruct x as [x|]; [|by injection E as <- <- <-]. apply catch_Some in Ex.
  dif E; [by injection E as <- <- <-|].
  apply bind_inv in E as ([[rv l] v] & Ev & E). injection E as <- _ <-. fold (set_of x) in Ev. fold (sigs_of x) in Ev. apply explore_rrset_keeps in Ex as Ekx; [|done].
  cbn [d_pool set_dname set_dv] in Ev. rewrite Hpool in Ev.
  eapply validate_keys_sound in Ev as (Ht' & Hc' & Hn' & Hsec); [|done|done|done|exact Ej|exact Hs|by split_and!|exact Ht|exact Hc|exact Ex].
  split; [by split_and!|]. intros Hne. destruct (STAT_ISEQUAL (r_status rv) STAT_SECURE); [|done].
  split; [|by apply Hsec]. destruct (negb (has r F_NEG) && (kl =? digest_size h)) eqn:Eg; [|by injection Edg as <-].
  apply andb_true_iff in Eg as [Hneg%negb_true_iff ->%Z.eqb_eq]. destruct dg as [bytes|]; [|done]. exists kd, digest, h, bytes.
  rewrite <- app_assoc in Eb. injection Eb as Eb. split_and!; try done. by rewrite <- Hpool.
Qed.

(** * The DS records of the zone *)

(** A DS record for the name [t]. *)
Definition cached_ds (c : cache) (t : cstring) (id : Z) : Prop :=
  has (get c id) F_FORWARD = true ∧ has (get c id) F_DS = true ∧ hostname_isequal (cname_str (get c id)) t = true.

Lemma cached_ds_kept c t id psave rdlen algo tag : kept_from c0 c → cached_ds c t id →
  cached_ds c0 t id ∧ (ds_matches (get c id) psave rdlen algo tag → ds_matches (get c0 id) psave rdlen algo tag).
Proof.
  intros Hk (Hf & Hd & Hn). pose proof (Hk id Hf) as E. injection E as Efl _ Eu Ea En. unfold cached_ds, ds_matches, has in *.
  by rewrite <- Efl, <- Eu, <- Ea, <- En.
Qed.

Lemma try_all_ds_sound t fuel id key algo tag psave rdlen ff k ttl ff' k' :
  join true owner = Some t → testing k → cached_ds (d_cache k) t id →
  try_all_ds alloc N mem mix_tab buf plen now curtime class fuel id key algo tag psave rdlen ff k = Ok (Some ttl, ff', k') →
  ∃ id', cached_ds c0 t id' ∧ ds_matches (get c0 id') psave rdlen algo tag ∧
    set_signed N mem keys buf plen curtime info all clk c0 (Some (GivenKey key (rdlen - 4) algo tag)) T_DNSKEY class owner.
Proof.
  intros Ht. revert id ff k. induction fuel as [|fuel IH]; intros id ff k Hk Hid E; cbn [try_all_ds] in E; [done|].
  pose proof Hk as (_ & [_ Hc] & _ & _). apply bind_inv in E as ([[valid f1] k1] & E1 & E). destruct (try_ds_sound _ _ _ _ _ _ _ _ _ _ _ Hk E1) as [Hk1 Hv].
  destruct valid as [x|].
  { destruct (Hv ltac:(done)) as [Hm Hset]. destruct (cached_ds_kept _ t id psave rdlen algo tag Hc Hid) as [Hid0 Hm0]. exists id. auto. }
  apply bind_inv in E as (s & Es & E). apply bind_inv in E as ([c next] & Ec & E). cbv zeta in E. destruct next as [id'|]; [|done].
  pose proof (find_next_same _ _ _ _ _ _ _ _ Ec) as Hsame. destruct (found_matches _ _ _ _ F_DS _ _ _ eq_refl Ec) as (Hf & Hd & Hn). subst c.
  destruct Hk1 as (B1 & [Ht1 Hc1] & Hp1 & Hn1). pose proof Hn1 as (K & name & HL & Hw & Ho & Ej & Hs). rewrite Hs in Es. injection Es as <-.
  apply IH in E; [done| |]; [by split_and!|]. split_and!; [done|done|].
  pose proof (join_lowered _ _ HL Ej) as Ej2. rewrite Ho, Ht in Ej2. injection Ej2 as ->. by rewrite isequal_lowered.
Qed.
End keys.


(** A reply with the key of the zone a and the signature of this key. *)
Definition key_packet : list Z := [0; 1; 129; 128; 0; 1; 0; 2; 0; 0; 0; 0] ++ [1; 97; 0; 0; 48; 0; 1] ++
  [1; 97; 0; 0; 48; 0; 1; 0; 0; 0; 9; 0; 36; 1; 1; 3; 15] ++ repeat 5 32 ++
  [1; 97; 0; 0; 46; 0; 1; 0; 0; 0; 9; 0; 85; 0; 48; 15; 1; 0; 0; 0; 9; 0; 0; 0; 200; 0; 0; 0; 50; 84; 96; 1; 97; 0] ++ repeat 7 64.
Definition key_info (p : Z) : rr_info :=
  if p =? 19 then RRInfo [[97]] 22 (slice key_packet 32 36) else RRInfo [[97]] 71 (slice key_packet 81 85).

(** A hash of two bytes, and one signature that is accepted with one key. *)
Definition key_nettle : nettle := Nettle (λ _, Some (NettleHash 2 (λ d, [zlen d; 0]))) (λ _ _ _ _ _ _, false) (λ _ _ _, false) (λ _ _ _ _ _ _, false)
  (λ _ _ _ _ _, false) (λ k _ s, bool_decide (k = repeat 5 32) && bool_decide (s = repeat 7 64)) (λ _ _ _, false).
Definition key_pool : pool := Pool {[1 := 39 :: repeat 0 39; 2 := repeat 0 40]} {[1 := 0; 2 := 0]} 2 1 1 2.
Definition ds_cache : cache :=
  Cache {[1 := Crec (Z.lor (Z.lor F_FORWARD F_DS) F_IMMORTAL) 0 1 (A_ds 1 2 2 15 21600) [97] None]} [1] [[1]] [] false 0 0 0 [] 0 0.
Definition key_state : kstate :=
  KState (RState (VState ds_cache (Clock false 0 false false 0) (97 :: repeat 0 2049) (repeat 0 2050) (repeat 0 2050)) [] [] [] [] [] []) key_pool.

Lemma key_records : records key_packet 166 key_info 2 19 [19; 68].
Proof.
  constructor; [|change (rr_end key_packet key_info 19) with 68; constructor; [|constructor]].
  - eapply (one_label_record _ _ _ 19 97 36); reflexivity || lia.
  - eapply (one_label_record _ _ _ 68 97 85); reflexivity || lia.
Qed.

Lemma key_named : named [[97]] (d_v key_state).
Proof. exists [[97]], [97]. split_and!; [|reflexivity..]. constructor; [|constructor]. split; [done|]. constructor; [done|constructor]. Qed.

Lemma key_valid (m : res (outcome (option Z * Z))) : match m with Ok (inr (Some _, _), _) => true | _ => false end = true →
  ∃ ttl ff k', m = Ok (inr (Some ttl, ff), k').
Proof. destruct m as [[[s|[[ttl|] ff]] k']| | |]; try done. eauto. Qed.

Lemma key_trusted : ∃ ttl ff k', try_key (λ _, true) (λ _ _, 0) key_nettle true (λ _, 0) key_packet 166 100 100 1 1 32 36 0 key_state = Ok (inr (Some ttl, ff), k').
Proof. apply key_valid. vm_compute. reflexivity. Qed.

