(* ===== verification/DnssecNsecSpec.v ===== *)
(** What a proof by NSEC records shows. *)
From S2P Require Import Prelude Hostname NetAddr Wire WireSafe WireSpec RRFilter WireExt Blockdata Cache Crypto Records.
From S2P Require Import DnssecName DnssecOrder DnssecSort DnssecSorted DnssecValidate DnssecSound DnssecCode DnssecNsec DnssecTyped.

#[local] Opaque extract_name skip_name.

(** * The owner *)

(** The name of the wildcard that the record was expanded from is that of the signature. *)
Lemma original_owner_spec L s labels : Forall good_label L → join true L = Some s → 0 ≤ labels →
  ∃ o, original_owner s labels (zlen L) = Ok o ∧ join true (signed_owner labels (zlen L) L) = Some o.
Proof.
  intros HL Es Hla. unfold original_owner, signed_owner. destruct (Z.ltb_spec labels (zlen L)) as [Hlt|Hge]; [|by exists s].
  destruct (chop_labels_spec (Z.to_nat (zlen L - labels)) L s [] [] HL Es) as (a & x & rest & -> & Ec & He & Hj & Hnil); [unfold zlen in *; lia|].
  cbn [app] in Ec. change (zlen (@nil Z)) with 0 in Ec. rewrite Ec. cbn [mbind res_bind]. pose proof (zlen_nonneg a).
  rewrite (proj2 (Z.eqb_neq _ _)) by lia. eexists. split; [reflexivity|].
  replace (drop (Z.to_nat (0 + zlen a + 1)) (a ++ x :: rest)) with rest.
  2: { replace (Z.to_nat (0 + zlen a + 1)) with (length (a ++ [x])) by (rewrite length_app; unfold zlen; cbn; lia). by rewrite (cons_middle x a rest), app_assoc, drop_app_length. }
  cbn [join]. destruct (drop _ L) as [|l' L'] eqn:Ed; [rewrite (proj1 Hnil) by done; done|].
  destruct He as [->|[r ->]]; [discriminate (proj2 Hnil eq_refl)|]. cbn [tail] in Hj. rewrite Hj. done.
Qed.

(** * Order *)

(** [n] is behind [o], no further than [x], in the order of names read as a circle. *)
Definition in_gap (o x n : cstring) : Prop :=
  (name_order o n = Lt ∧ name_order n x ≠ Gt) ∨ (name_order x o ≠ Gt ∧ (name_order o n = Lt ∨ name_order n x ≠ Gt)).

Lemma sign_nonneg a b : (0 <=? sign (name_order a b)) = true ↔ name_order b a ≠ Gt.
Proof. rewrite (name_order_opp a b). destruct (name_order a b); cbn; split; done. Qed.

(** * Types *)

(** The bit of a type in the map of its window, from the most significant one on. *)
Lemma mask_bit b type : flag b (Z.shiftr 128 (Z.land type 7)) = Z.testbit b (7 - Z.land type 7).
Proof.
  assert (0 ≤ Z.land type 7 < 8) as Hk by (change 7 with (Z.ones 3); rewrite Z.land_ones by lia; apply Z.mod_pos_bound; lia).
  generalize dependent (Z.land type 7). intros k Hk. replace (Z.shiftr 128 k) with (2 ^ (7 - k)).
  2: { rewrite Z.shiftr_div_pow2 by lia. change 128 with (2 ^ 7). rewrite Z.pow_sub_r by lia. done. }
  apply flag_pow2. lia.
Qed.

Section nsec.
Context (buf : list Z) (plen : Z) (Hbuf : Forall is_byte buf) (Hplen : 0 ≤ plen ≤ zlen buf) (Hmax : zlen buf < 2 ^ 64).

(** The type is not in the first window of the map of [len] bytes at [m], if that is the type's window. *)
Definition not_in_window (type m len : Z) : Prop :=
  ∀ n, 2 ≤ len → rd buf m = Ok (Z.shiftr type 8) → rd buf (m + 1) = Ok n → Z.shiftr (Z.land type 255) 3 < n →
    ∃ b, rd buf (m + 2 + Z.shiftr (Z.land type 255) 3) = Ok b ∧ Z.testbit b (7 - Z.land type 7) = false.

(** There is no CNAME record at the name either, and the record is not from the child's side for a DS record. *)
Definition other_types (type labels m len : Z) : Prop :=
  2 ≤ len → rd buf m = Ok 0 → ∃ b, rd buf (m + 2) = Ok b ∧ Z.testbit b (7 - T_CNAME) = false ∧ (type = T_DS → labels ≠ 0 → Z.testbit b (7 - T_SOA) = false).

Lemma type_map_sound check fuel type m len : type_map buf plen check fuel type m len = Ok tt → not_in_window type m len.
Proof.
  destruct fuel as [|fuel]; [done|]. cbn [type_map]. intros E n Hl Hw Hn Ho. rewrite (proj2 (Z.ltb_ge len 2)) in E by lia.
  apply guard_inv in E as [_ E]. rewrite Hw, Hn in E. cbn [mbind res_bind] in E. rewrite Z.eqb_refl in E. cbv zeta in E.
  rewrite (proj2 (Z.ltb_lt _ _)) in E by done. apply bind_inv in E as (b & Eb & E). exists b. split.
  - by replace (m + 2 + Z.shiftr (Z.land type 255) 3) with (m + (Z.shiftr (Z.land type 255) 3 + 2)) by lia.
  - unfold guard_ok in E. rewrite mask_bit in E. by destruct (Z.testbit b _).
Qed.

Lemma first_window_sound type labels m len nons nons' : first_window buf type labels m len nons = Ok (nons', false) → other_types type labels m len.
Proof.
  unfold first_window. intros E Hl Hw. rewrite (proj2 (Z.leb_le 2 len)), Hw in E by lia. cbn [mbind res_bind andb] in E. change (0 =? 0) with true in E. cbn iota in E.
  apply bind_inv in E as (b & Eb & E). cbv zeta in E. injection E as _ E. apply orb_false_iff in E as [E1 E2]. exists b. split; [done|].
  pose proof (mask_bit b T_CNAME) as H1. pose proof (mask_bit b T_SOA) as H2. change (Z.land T_CNAME 7) with T_CNAME in H1. change (Z.land T_SOA 7) with T_SOA in H2.
  rewrite H1 in E1. split; [done|]. intros -> Hla. rewrite H2 in E2. apply Z.eqb_neq in Hla. by rewrite Hla in E2.
Qed.

(** The NSEC record at [p], with the labels field of its signature at [lab], shows that [name] has no record of [type]: the name lies in the gap between the owner,
    or the wildcard it was expanded from, and the next name, or it is the owner and the type is not in the map. *)
Definition nsec_denies (p lab : Z) (name : cstring) (type : Z) : Prop :=
  ∃ L e h rdlen X m h' sig o x, name_at buf plen p L e h ∧ GETSHORT buf (e + 8) = Ok (rdlen, e + 10) ∧ name_at buf plen (e + 10) X m h' ∧ rd buf lab = Ok sig ∧
    join true (signed_owner sig (zlen L) L) = Some o ∧ join true X = Some x ∧
    (in_gap o x name ∨ ci_eq o name ∧ (type = T_NSEC ∨ type = T_RRSIG ∨
       not_in_window type m (e + 10 + rdlen - m) ∧ other_types type (zlen L) m (e + 10 + rdlen - m))).

Lemma nsec_loop_sound nsecs name type nons r : (∀ p lab, (p, lab) ∈ nsecs → 0 ≤ p) → nsec_loop buf plen nsecs name type nons = Ok r →
  ∃ p lab, (p, lab) ∈ nsecs ∧ nsec_denies p lab name type.
Proof.
  revert nons. induction nsecs as [|[p lab] nsecs IH]; intros nons Hp E; [done|]. cbn [nsec_loop] in E.
  assert (0 ≤ p) as Hp0 by (apply (Hp p lab); left). apply bind_inv in E as ([[ret e] s] & Ex & E). cbv zeta in E.
  apply extract_name_ok in Ex as (-> & He & L & h & Hna & Hh & Hw & Er); [|done|done|done]. rewrite render_join in Er.
  apply bind_inv in E as ([rdlen p1] & Erd & E). pose proof (GETSHORT_at _ _ _ _ Erd) as ->. replace (e + 8 + 2) with (e + 10) in * by lia.
  destruct (name_at_good _ _ _ _ _ _ Hbuf (proj2 Hplen) Hp0 Hna) as [HL Hq].
  apply bind_inv in E as ([[ret m] x] & Ex & E). apply extract_name_ok in Ex as (-> & Hm & X & h' & Hna' & _ & _ & Er'); [|done|done|lia]. rewrite render_join in Er'.
  apply bind_inv in E as (sig & Esig & E). pose proof (Forall_lookup_1 _ _ _ _ Hbuf (proj2 (proj1 (rd_Ok _ _ _) Esig))) as Hsig. unfold is_byte in Hsig.
  rewrite (count_labels_join _ _ HL Er) in E. destruct (original_owner_spec L s sig HL Er ltac:(lia)) as (o & Eo & Ejo). rewrite Eo in E. cbn [mbind res_bind] in E.
  rewrite (hostname_cmp_spec o name) in E. cbn [mbind res_bind] in E.
  destruct (Z.eqb_spec (sign (name_order o name)) 0) as [H0|H0].
  - exists p, lab. split; [left|]. exists L, e, h, rdlen, X, m, h', sig, o, x. split_and!; try done. right.
    split; [apply name_order_eq; by destruct (name_order o name)|].
    destruct (Z.eqb_spec type T_NSEC); [by left|]. destruct (Z.eqb_spec type T_RRSIG); [by right; left|]. cbn [orb] in E. right. right.
    apply bind_inv in E as ([nons' refused] & Efw & E). apply guard_inv in E as [->%negb_true_iff E]. apply bind_inv in E as ([] & Etm & E).
    replace (e + 10 + rdlen - m) with (rdlen - (m - (e + 10))) by lia. split; [by eapply type_map_sound|by eapply first_window_sound].
  - rewrite !hostname_cmp_spec in E. cbn [mbind res_bind] in E.
    match type of E with (if ?b then _ else _) = _ => destruct b eqn:Eb end.
    + exists p, lab. split; [left|]. exists L, e, h, rdlen, X, m, h', sig, o, x. split_and!; try done. left. unfold in_gap.
      destruct (name_order o name) eqn:Eo1; [done|change (sign Lt =? -1) with true in Eb|change (sign Gt =? -1) with false in Eb]; cbn iota in Eb.
      * apply orb_true_iff in Eb. rewrite !sign_nonneg in Eb. tauto.
      * apply andb_true_iff in Eb. rewrite !sign_nonneg in Eb. tauto.
    + apply IH in E as (q & lb & Hin & Hd); [|intros q lb Hin; apply (Hp q lb); by right]. exists q, lb. split; [by right|done].
Qed.
End nsec.


(** From a to c, with a record of type A at a; the signature has one label. *)
Definition nsec_packet : list Z := repeat 0 12 ++ [1; 97; 0; 0; 47; 0; 1; 0; 0; 0; 9; 0; 6; 1; 99; 0; 0; 1; 64] ++ [0; 0; 1] ++ repeat 0 16.

(** There is no name b, and no record of type NS at a, but one of type A. *)
Example nsec_proofs : prove_non_existence_nsec nsec_packet 50 [(12, 33)] [98] 1 None = Ok None ∧ prove_non_existence_nsec nsec_packet 50 [(12, 33)] [97] 2 None = Ok None ∧
  prove_non_existence_nsec nsec_packet 50 [(12, 33)] [97] 1 None = Bad ∧ prove_non_existence_nsec nsec_packet 50 [(12, 33)] [100] 1 None = Bad.
Proof. vm_compute. auto. Qed.

(** The next name exists and yet is in the gap. *)
Example next_name_denied : prove_non_existence_nsec nsec_packet 50 [(12, 33)] [99] 1 None = Ok None.
Proof. vm_compute. reflexivity. Qed.

(** A map whose first window has no bytes is read for ever, if the type is in another window: with any number of turns there is no end. *)
Example empty_window fuel : type_map (repeat 0 12) 12 true fuel 257 4 6 = NoFuel.
Proof. induction fuel as [|fuel IH]; [done|]. cbn [type_map]. exact IH. Qed.

(** The second window of this map has the type 257 (CAA), and yet the type passes for absent: the window is looked for two bytes too early. *)
Example second_window : type_map [0; 1; 64; 1; 1; 64] 6 true (map_fuel 6) 257 0 6 = Ok tt.
Proof. vm_compute. reflexivity. Qed.

